(* ===== verification/_CoqProject ===== *)
-Q . S2P
Prelude.v
Oss.v
Api.v
Guard.v
GuardProps.v
Dlist.v
DlistProps.v
ListScan.v
FbPart.v
FbPartInv.v
FbPartRun.v
FbPartProps.v
Ffbm.v
NaviFfbm.v
FfbmInv.v
FfbmRun.v
FfbmBoot.v
FfbmSort.v
FfbmProps.v
Threads.v
Bytes.v
CperTime.v
Cper.v
CperRecord.v
CperInv.v
CperMake.v
CperRead.v
CperDump.v
CperPatch.v
CperConfine.v
CperLive.v
CperProps.v
BadPage.v
BadPageInv.v
BadCopy.v
BadProps.v
SharedExcl.v
SharedExclInv.v
SharedExclProps.v
TaskBarrier.v
Mask.v
Gpuiov.v
WsState.v
WsInv.v
WsManual.v
WsBulk.v
WsLive.v
WsBoot.v
WsProps.v
Memmgr.v
MemmgrInv.v
MemmgrIds.v
MemmgrRun.v
MemmgrFree.v
MemmgrOps.v
MemmgrLive.v
MemmgrProps.v
EventQ.v
EventQInv.v
EventQRun.v
EventQOps.v
EventQPush.v
EventQOrder.v
EventQLive.v
EventQProps.v
Switch.v
SwitchEngine.v
SwitchInv.v
SwitchRun.v
SwitchQuiet.v
SwitchPick.v
SwitchLiquid.v
SwitchOps.v
SwitchMembers.v
SwitchChange.v
SwitchInit.v
SwitchHistory.v
SwitchFair.v
SwitchBoot.v
SwitchProps.v
