(* ===== verification/Prelude.v ===== *)
(** * A verification of libgv, the core of AMD's GPU virtualisation driver

    GIM (gim/) is a Linux kernel module that shares an AMD GPU between virtual
    machines by SR-IOV.  The hardware-independent driver is libgv
    (src/libgv/): it divides the frame buffer between the virtual functions
    (VFs), schedules the engines by world switches, serves the guests' mailbox
    events, resets, RAS and power management, and hides each ASIC behind a
    table of functions (src/libgv/core/hw and hwip).  The shim (src/gim)
    supplies the operating-system services libgv calls through [oss_*], and
    src/smi-lib and src/gim-coms-lib carry management commands to it.

    This development models the parts of libgv that decide who owns which
    memory, which VF runs on which engine and how often a guest may disturb
    the host, and proves what the rest of the driver relies on.

    ** Conventions

    The definitions follow the C functions and keep their names.  Stateful code
    is written in the state-and-fault monad [M] of this file: [Ret] is a
    normal return with the error code the C function returns, [Fault] an
    execution the C standard gives no meaning to (a NULL or out-of-range
    access, a division by zero).  [wp] is total correctness: a proved [wp]
    says in particular that the code returns.  A [w]-bit integer is a [Z] with
    its truncation written out ([wrap]).  Updates of records use [<| |>].
    Every component has its own state record with the fields of
    [struct amdgv_adapter] it touches; calls that leave the component (register
    writes, the kernel, other components) are recorded in a list of calls or
    are arguments of the model.  Locks are sequential: each operation runs
    under the mutex the C code takes, so only the locks the world switch tests
    with trylock are part of a state.  The two components that are themselves
    means of synchronisation, the lock and the barrier of an XGMI hive, are
    step relations in which threads interleave between any two accesses to
    shared memory.  Log and dump lines are left out.

    ** Files and the code they model

    - [Prelude]: the monad, its rules, machine integers.  [Oss]: the kernel's
      services ([OssEnv]: the clock, whether allocations and lock creations
      succeed; a class, instantiated by [env_of] for concrete runs).  [Api]:
      constants of src/libgv/inc/amdgv_api.h.
    - [Guard], [GuardProps]: the event guard, core/amdgv_guard.c; per VF and
      kind of event a ring of time stamps.
    - [Dlist], [DlistProps]: the intrusive lists of core/amdgv_list.h on a
      store of next and prev pointers; [dlist h head xs] says the store holds
      the circular list [xs].  [ListScan]: the iteration macros for a state
      that has such a store, and many lists in one store.  The five
      list-based components below use them.
    - [Ffbm], [FfbmInv], [FfbmRun], [FfbmBoot], [FfbmSort], [FfbmProps]: the
      page-table allocator that maps guest-physical to system-physical frame
      buffer, core/amdgv_ffbm.c; the ASIC's functions are the class
      [FfbmHw], for which [NaviFfbm] (core/hw/navi3/navi32_ffbm.c) is the
      instance.
    - [FbPart], [FbPartInv], [FbPartRun], [FbPartProps]: the partition of the
      frame buffer into per-VF windows of different sizes, part of
      core/amdgv_vfmgr.c, with the back end of core/hw/navi3/navi32_sched.c.
    - [Memmgr], [MemmgrInv], [MemmgrIds], [MemmgrRun], [MemmgrFree],
      [MemmgrOps], [MemmgrLive], [MemmgrProps]: the allocator of the driver's
      own frame-buffer memory, core/amdgv_memmgr.c, its memory ids, page
      reservation and live-update table.  [managers] is the adapter with its
      three managers.
    - [Mask]: the bit loops of core/amdgv_device.h.  [Gpuiov]: the commands of
      core/amdgv_gpuiov.c to the firmware of one hardware scheduler; the
      firmware is the class [WsHw].  [WsState], [WsInv], [WsManual], [WsBulk],
      [WsLive], [WsBoot], [WsProps]: the world-switch state machines,
      core/amdgv_ws_state.c, with the helpers of core/amdgv_sched.c they call.
    - [EventQ]: the event queue of core/amdgv_sched_event.c, the ring the
      guests' and the driver's requests are pushed to and the six lists the
      event thread sorts them into, takes them from and pushes deferred ones
      back to.  [EventQInv]:
      its abstract state, sequences of events; [EventQRun], [EventQOps],
      [EventQPush]: the rules of the operations; [EventQOrder],
      [EventQLive]: order of service, searching and marking, live update;
      [EventQProps].
    - [Switch]: the manual world switch, core/amdgv_sched_switch.c, the
      software scheduler that is the client of the state machines: the
      records of the active VFs, the two functions that pick the next VF, one
      round of the switch thread, world contexts, the account of time, and
      what other components call.  A [switcher] holds the adapter of
      [WsState] and the world switch's own fields.  Its rules: [SwitchEngine]
      (the engine seen through the machines), [SwitchInv] (invariant and
      frames), [SwitchRun] (contexts), [SwitchQuiet] (what a piece of code
      cannot load or count, read off its syntax), [SwitchPick],
      [SwitchLiquid] (the two functions), [SwitchOps] (a round, start, stop),
      [SwitchMembers], [SwitchChange] (adding, removing, slices, exclusive
      access), [SwitchInit].  [SwitchHistory]: operations,
      which are allowed when, and histories; [SwitchFair]: turns, waiting
      and slices of zero; [SwitchBoot]: concrete switches; [SwitchProps].
    - [Threads]: threads that interleave on a shared state, semaphores, and
      runs of threads up to rest.  [SharedExcl], [SharedExclInv],
      [SharedExclProps]: the lock of core/amdgv_task_barrier.c that threads of
      one group hold together and threads of different groups never; a
      program counter per thread, one step per access.  [TaskBarrier]:
      the barrier of core/amdgv_task_barrier.h at which
      the GPUs of a hive meet.
    - [Bytes]: memory as a list of bytes, reads and writes of little-endian
      integers.  [CperTime]: the calendar of time stamps.  [Cper]: error
      records (UEFI CPER) as the bytes of their packed structures, the ring
      that holds them, its readers, and the records made of machine-check
      banks and of retired memory; core/amdgv_cper.c, amdgv_mca.c,
      amdgv_device.c.  What the board says of itself, the clock and the
      kernel's text formatter are the class [CperEnv].  [CperDump]: what a
      guest is given of them, the rest of amdgv_cper.c and part of
      core/amdgv_vfmgr.c; whether copies to guests succeed and the
      ASIC's decoder of banks are the class [XchgEnv].  [CperRecord] (layout of a filled record),
      [CperInv] (the ring and its allocations), [CperMake]
      (makers), [CperRead] (readers), [CperPatch], [CperConfine] (the dump),
      [CperLive] (live update), [CperProps].
    - [BadPage]: the pages memory errors retire, part of core/amdgv_umc.c:
      the raw records, the pages they stand for and the sorted array that
      range queries search; the ASIC's functions and what fresh memory holds
      are the class [UmcEnv].  [BadPageInv]: sorting, the invariant of the
      lists and histories.  [BadCopy]: the copies of a guest's frame buffer
      that avoid bad pages, part of core/amdgv_sched_event.c, their entry
      point in amdgv_api.c, and the lists that two hosts of a migration
      exchange, part of core/amdgv_live_migration.c; the DMA engines, the
      windows of the VFs and the event queue are the class [CopyEnv].
      [BadProps].

    ** What the theorems show

    - Guard: whatever is counted and taken back, at most [threshold] events
      of a kind that pass and are not taken back lie in any window of
      [interval] microseconds; no sequence of calls leaves the ring's bounds;
      the ring implements a queue of stamps; initialisation and removal
      balance.
    - Lists: every pointer operation implements the operation on sequences,
      in both directions, and changes no other node.
    - Page table: no sequence of requests breaks the invariant or faults; VFs
      never share an address outside the shared TMR; a mapping grants exactly
      what was asked for, out of free memory, and leaves every other block;
      translation is invertible; unmapping ends, keeping the mapping while the
      hardware answers; the
      Navi 32 back end writes every page once; the mapping list is sorted.
    - Partition: a resize implements an abstract operation on a sequence of
      segments (who is refused, who keeps what), on the low 32 bits of the
      size; no history of requests runs
      out of pool entries; the default layout establishes the invariant.
    - Memory manager: blocks stay disjoint, aligned and in range over every
      history; allocation is first fit; free undoes allocate; ids are given
      out in order; a live update carries the blocks over, and the size of a
      manager becomes what it used.
    - World switch: whatever the firmware answers, the manual and the bulk
      machine return, with the engine in the state asked for or an error (of
      the manual machine, the code of the command that failed; of the bulk
      machine, started with no scheduler locked, only when the device is
      late), and send only legal transitions; the two copies of the decision agree; bit
      loops visit each set bit once; initialisation and live update keep the
      machines consistent.
    - Event queue: every entry point implements its specification on
      sequences, in every history; nothing leaks; events are taken in the
      order of the lists and of arrival, each once; unload tells the waiter of
      every event it finds and releases everything; a live update carries VF,
      id and scheduler block of the requests over, and not their data.  The
      waiter of an event that is superseded is told nothing.
    - Manual world switch: in every history of rounds, interrupts and calls
      each further call returns, the VF it believes to be on the engine is
      the one every hardware scheduler runs, and the active list changes as
      specified; outside fairness mode the VFs take turns; in hybrid liquid
      mode none waits for more than the list's length plus eight loads; in
      fairness mode the loop that passes over indebted VFs ends, when no slice
      is zero (each pass over VFs whose slices are all zero grants nothing and
      leads to such a state again, [wp_pass]); initialisation succeeds or leaves nothing.
    - Lock of a hive: threads of different groups are never inside together,
      whatever the interleaving; no call hangs and no wake-up is lost.
      Barrier: no thread leaves before all have arrived, a round ends and
      resets the counters; a second round can hang (a lemma says so).
    - Error records: every history of records made, read and dumped stays
      inside the records and the ring and leaks nothing; a reader gets the
      records from its position on, as many as fit, and is told how many
      were overwritten past its position; a record holds the registers of its
      banks in the cells of the format, and the readers give back those they
      know of; under the policy that logs from guest load on, whatever
      position a guest asks for, it is given only pieces of records made since
      it was loaded that the decoder assigns to its capabilities, in its own
      table; time stamps follow the Gregorian calendar, counted day by day.
    - Bad pages: in every history the arrays hold the lists of a simple model,
      the sorted one strictly ascending, while they stay below their first
      capacity; a copy of a guest's frame buffer stays in the VF's window and
      the matching part of the buffer, and going out it skips exactly the bad
      pages; after a migration's lists were exchanged, exactly the copies onto
      a page that is bad on the second host only are refused.
    - Each component also has theorems, by evaluation on a small concrete
      state, on behaviour that departs from what the code means to do.

    ** Bounds and fuel

    C loops without a bound in the source are fixpoints on a fuel that no
    reachable execution exhausts; exhaustion is a [Fault], so the total
    correctness theorems show it is enough.  [FFBM_FUEL] is 257, one more than
    the page table's pool of 256 blocks; [FB_FUEL] is 33, one more than the
    partition's pool of 32; [mem_fuel] is one more than the number of records
    ever allocated; in [EventQ] a ring loop has 256 rounds, one more than the
    ring holds, and a list as many as entries were allocated plus one; in
    [Switch] a list has at most 32 nodes and [list_fuel] is 33, and
    [resched_fuel] is two more than the slices the VFs owe together; the state
    machines have the code's own counters, 20 steps
    for one scheduler and 20 per control block in bulk, where at most eight
    are needed ([rank_le_8]); a loop over a 32-bit mask has 33 rounds.
    [mem_limit] (2^60) bounds the managers' ranges, far above any frame
    buffer, so that no 64-bit sum wraps; placements at an offset are bounded
    by 4 GB, where the C code truncates (a theorem says so).  The lock is
    proved for fewer than 256 threads, as the code compares its counters as
    bytes; a thread makes at most 300 steps in a call of the lock and nine in
    a round of the barrier.  The loops over the ring of error records have its
    [max_count] rounds and the loop over the years as many as there are days;
    a reader's buffer is at most 32 MB, fewer than 2^64 records are made, and
    the clock is before the year 25600.  An array of bad pages doubles at most
    33 times ([GROW_FUEL]), what 32 bits of capacity allow, and binary searches
    have one round more than there are elements.  A device answers in time
    ([hw_prompt]) when its clock advances by at most [delta] per wait and
    reading and 65 [delta] is less than the time allowed: a round of the bulk
    machine has at most 32 waits with a reading each.  Concrete states use 4 KB pages and
    two VFs.

    ** Not modelled

    - FFBM: text dumps, the table clearing of the Navi 32 back end.
      [Gpuiov]: register access, polling and latency histograms, break points,
      RLC-V state.  VF manager: mailbox data exchange, RAS counters, critical
      regions, the plain (symmetric) layout's register setup.  Memory manager:
      CPU addresses and clearing; the theorems are about managers that grow
      upwards in frame-buffer memory, the downward and system-memory variants
      are modelled without theorems.
    - Barrier: the entry with a time-out, the combined entry and exit and the
      destruction.  Error records: text output, the ASIC's bank decoder and
      the copy into the guest's frame buffer.
    - Bad pages: reserving and replacing them in the memory managers, the
      EEPROM, the lists across memory-partition modes, error interrupts.
    - Event queue: the handlers of the events and the thread that calls them;
      waking a waiter is a recorded call.  An entry that was freed faults when
      it is used, but its list links stay readable.  Manual world switch: the wait loop
      of its thread, timers, gpumon, PTL and RLC-V saves, which are recorded
      calls; [allowed] states what a caller has to respect in a history (a VF
      is not added twice, no slice is set to zero, contexts are switched by
      hand only while the switch is stopped).  Time slices are those of the
      default back end, not Navi 32's own.  The hardware (auto) world switch and the set-up of the
      world switches from partitions are not modelled.
    - The rest of amdgv_sched_event.c, amdgv_sched_switch.c and
      amdgv_sched_reset.c, PSP, power play, gpumon, RAS counters and EEPROM,
      XGMI topology, dirty-bit tracking, the transfers of live migration, mailbox, rings,
      VBIOS tables and the management API are not modelled yet.
    - src/libgv/core/hw and hwip, apart from the two Navi 32 back ends, are
      register programming for one ASIC each; the register headers and
      firmware images (most of the repository's lines) are data; gim,
      gim-coms-lib, smi-lib, uniras and package are the kernel shim, transport,
      management tools, RAS library and packaging around libgv. *)
From stdpp Require Export base tactics option list gmap numbers strings.
From Stdlib Require Export ZArith Lia.

#[local] Open Scope Z_scope.

(** ** Machine integers

    A [w]-bit C integer is a [Z] in [0, 2^w); every operation that can leave
    that range is followed by the truncation C performs. *)

Definition wrap (w z : Z) : Z := z mod 2 ^ w.
Abbreviation u8 := (wrap 8).
Abbreviation u16 := (wrap 16).
Abbreviation u32 := (wrap 32).
Abbreviation u64 := (wrap 64).

Definition in_width (w z : Z) : Prop := 0 <= z < 2 ^ w.

(** C's conversion of a 64-bit pattern to [int64_t]. *)
Definition s64 (z : Z) : Z :=
  let m := u64 z in if m <? 2 ^ 63 then m else m - 2 ^ 64.

Lemma wrap_range w z : 0 <= w -> in_width w (wrap w z).
Proof. intros. unfold wrap, in_width. apply Z.mod_pos_bound. lia. Qed.

Lemma wrap_id w z : in_width w z -> wrap w z = z.
Proof. unfold wrap, in_width. intros. apply Z.mod_small. lia. Qed.

(** A number whose bits are among those of a [w]-bit one has [w] bits. *)
Lemma in_width_sub w m m' : 0 <= w -> in_width w m -> 0 <= m' ->
  (forall j, 0 <= j -> Z.testbit m' j = true -> Z.testbit m j = true) -> in_width w m'.
Proof.
  intros Hw Hm H0 Hsub. split; [done|].
  destruct (Z.eq_dec m' 0) as [->|]; [lia|]. apply Z.log2_lt_pow2; [lia|].
  destruct (Z.lt_ge_cases (Z.log2 m') w) as [|Hge]; [done|]. exfalso.
  assert (Z.testbit m' (Z.log2 m') = true) as Hb by (apply Z.bit_log2; lia).
  apply Hsub in Hb; [|apply Z.log2_nonneg].
  rewrite <- (Z.mod_small m (2 ^ w)) in Hb by exact Hm.
  rewrite Z.mod_pow2_bits_high in Hb; [done|]. lia.
Qed.

Lemma wrap_idem w z : wrap w (wrap w z) = wrap w z.
Proof.
  unfold wrap. destruct (decide (2 ^ w = 0)) as [->|Hne].
  - now rewrite !Z.mod_0_r.
  - now apply Zmod_mod.
Qed.

Lemma s64_id z : - 2 ^ 63 <= z < 2 ^ 63 -> s64 z = z.
Proof.
  intros. unfold s64, wrap. destruct (Z.ltb_spec z 0).
  - replace (z mod 2 ^ 64) with (z + 2 ^ 64) by (apply (Z.mod_unique z (2 ^ 64) (-1)); lia).
    destruct (Z.ltb_spec (z + 2 ^ 64) (2 ^ 63)); lia.
  - rewrite Z.mod_small by lia. destruct (Z.ltb_spec z (2 ^ 63)); lia.
Qed.

(** ** Outcomes of C code

    [Fault] is the value of an execution the C standard gives no meaning to
    and the kernel would trap: a null or out-of-range access, a division by
    zero. *)

Inductive outcome (A : Type) : Type :=
| Ret (a : A)
| Fault.
Arguments Ret {A} a.
Arguments Fault {A}.

(** The state-and-fault monad in which the stateful operations are written. *)
Definition M (S A : Type) : Type := S -> outcome (A * S).

#[export] Instance M_ret {S} : MRet (M S) := fun A a s => Ret (a, s).
#[export] Instance M_bind {S} : MBind (M S) := fun A B f m s =>
  match m s with
  | Ret (a, s') => f a s'
  | Fault => Fault
  end.

Definition gets {S A} (f : S -> A) : M S A := fun s => Ret (f s, s).
Definition modify {S} (f : S -> S) : M S unit := fun s => Ret (tt, f s).
Definition fault {S A} : M S A := fun _ => Fault.

(** [require o] dereferences: [None] is a null or out-of-range access. *)
Definition require {S A} (o : option A) : M S A :=
  match o with Some a => mret a | None => fault end.

(** [demand b]: the execution is defined only when [b] holds. *)
Definition demand {S} (b : bool) : M S unit := if b then mret tt else fault.

Definition when {S} (b : bool) (m : M S unit) : M S unit :=
  if b then m else mret tt.

Fixpoint for_each {S A} (l : list A) (f : A -> M S unit) : M S unit :=
  match l with
  | [] => mret tt
  | x :: l' => f x ≫= fun _ => for_each l' f
  end.

(** Running an operation of a sub-object inside the object that holds it. *)
Definition zoom {S T A} (get : S -> T) (put : T -> S -> S) (m : M T A) : M S A :=
  fun s => match m (get s) with
           | Ret (a, t) => Ret (a, put t s)
           | Fault => Fault
           end.

(** ** Weakest preconditions: total-correctness reasoning about [M] *)

Definition wp {S A} (m : M S A) (Q : A -> S -> Prop) (s : S) : Prop :=
  match m s with
  | Ret (a, s') => Q a s'
  | Fault => False
  end.

Section wp_rules.
Context {S : Type}.

Lemma wp_ret {A} (a : A) (Q : A -> S -> Prop) s : Q a s -> wp (mret a) Q s.
Proof. done. Qed.

Lemma wp_bind {A B} (m : M S A) (f : A -> M S B) Q s :
  wp m (fun a => wp (f a) Q) s -> wp (m ≫= f) Q s.
Proof. unfold wp, mbind, M_bind. by destruct (m s) as [[a s']|]. Qed.

Lemma wp_assoc {A B C} (m : M S A) (f : A -> M S B) (g : B -> M S C) Q s :
  wp ((m ≫= f) ≫= g) Q s -> wp (m ≫= fun a => f a ≫= g) Q s.
Proof. unfold wp, mbind, M_bind. by destruct (m s) as [[]|]. Qed.

Lemma wp_mono {A} (m : M S A) (P Q : A -> S -> Prop) s :
  wp m P s -> (forall a s', P a s' -> Q a s') -> wp m Q s.
Proof. unfold wp. destruct (m s) as [[a s']|]; auto. Qed.

Lemma wp_and {A} (m : M S A) (P Q : A -> S -> Prop) s :
  wp m P s -> wp m Q s -> wp m (fun a s' => P a s' /\ Q a s') s.
Proof. unfold wp. by destruct (m s) as [[a s']|]. Qed.

Lemma wp_gets {A} (f : S -> A) (Q : A -> S -> Prop) s : Q (f s) s -> wp (gets f) Q s.
Proof. done. Qed.

Lemma wp_modify f (Q : unit -> S -> Prop) s : Q tt (f s) -> wp (modify f) Q s.
Proof. done. Qed.

Lemma wp_require {A} (o : option A) (a : A) (Q : A -> S -> Prop) s :
  o = Some a -> Q a s -> wp (require o) Q s.
Proof. by intros ->. Qed.

Lemma wp_demand (b : bool) (Q : unit -> S -> Prop) s :
  b = true -> Q tt s -> wp (demand b) Q s.
Proof. by intros ->. Qed.

Lemma wp_when (b : bool) m (Q : unit -> S -> Prop) s :
  (b = true -> wp m Q s) -> (b = false -> Q tt s) -> wp (when b m) Q s.
Proof. destruct b; cbn; auto. Qed.

Lemma wp_zoom {T A} (get : S -> T) put (m : M T A) Q s :
  wp m (fun a t => Q a (put t s)) (get s) -> wp (zoom get put m) Q s.
Proof. unfold wp, zoom. by destruct (m (get s)) as [[a t]|]. Qed.

(** A loop keeps an invariant its body keeps. *)
Lemma wp_for_each {A} (I : S -> Prop) (l : list A) f s :
  (forall x s, x ∈ l -> I s -> wp (f x) (fun _ => I) s) ->
  I s -> wp (for_each l f) (fun _ => I) s.
Proof.
  revert s. induction l as [|x l IH]; intros s Hf HI; [done|].
  apply wp_bind. eapply wp_mono; [apply Hf; [apply elem_of_cons; by left|assumption]|].
  intros [] s' Hs'. apply IH; [|assumption].
  intros y t Hy. apply Hf. apply elem_of_cons; by right.
Qed.

(** The same with an invariant that says which elements are done. *)
Lemma wp_for_each_pre {A} (I : list A -> S -> Prop) (l : list A) f s :
  (forall pre x post s, l = pre ++ x :: post -> I pre s -> wp (f x) (fun _ => I (pre ++ [x])) s) ->
  I [] s -> wp (for_each l f) (fun _ => I l) s.
Proof.
  intros Hf H0. enough (forall post pre s, l = pre ++ post -> I pre s ->
    wp (for_each post f) (fun _ => I l) s) as H by by apply (H l []).
  clear s H0. induction post as [|x post IH]; intros pre s ->  HI.
  - rewrite app_nil_r. by apply wp_ret.
  - apply wp_bind. eapply wp_mono; [by eapply Hf|]. intros [] s' Hs'.
    apply (IH (pre ++ [x])); [by rewrite <- app_assoc|done].
Qed.

(** Total correctness says in particular that the code returns. *)
Lemma wp_returns {A} (m : M S A) Q s :
  wp m Q s -> exists a s', m s = Ret (a, s') /\ Q a s'.
Proof. unfold wp. destruct (m s) as [[a s']|]; [eauto|done]. Qed.

Lemma run_bind {A B} (m : M S A) (f : A -> M S B) a s s' :
  m s = Ret (a, s') -> (m ≫= f) s = f a s'.
Proof. unfold mbind, M_bind. by intros ->. Qed.

Lemma run_zoom {T A} (get : S -> T) put (m : M T A) a t s :
  m (get s) = Ret (a, t) -> zoom get put m s = Ret (a, put t s).
Proof. unfold zoom. by intros ->. Qed.

Lemma wp_intro {A} (m : M S A) a s s' (Q : A -> S -> Prop) :
  m s = Ret (a, s') -> Q a s' -> wp m Q s.
Proof. unfold wp. by intros ->. Qed.
End wp_rules.

Create HintDb gim discriminated.
#[export] Hint Resolve wp_ret wp_gets wp_modify : gim.

(** Symbolic execution of straight-line monadic code. *)
Ltac wp_step :=
  lazymatch goal with
  | |- wp (_ ≫= _) _ _ => apply wp_bind
  | |- wp (mret _) _ _ => apply wp_ret
  | |- wp (gets _) _ _ => apply wp_gets
  | |- wp (modify _) _ _ => apply wp_modify
  | |- wp (zoom _ _ _) _ _ => apply wp_zoom
  | |- wp (when _ _) _ _ => apply wp_when; intros ?
  | |- wp (demand _) _ _ => apply wp_demand
  | |- wp (require _) _ _ => eapply wp_require; [eassumption|]
  | |- wp (if ?b then _ else _) _ _ => destruct b eqn:?
  | |- wp (match ?x with _ => _ end) _ _ => destruct x eqn:?
  end.
Ltac wp_steps := repeat (wp_step; cbn beta).

(** ** Record update

    [r <| f := v |>] copies the record [r] with field [f] replaced; a record
    type opts in by an instance of [Eta]. *)

Class Eta (R : Type) := eta : R -> R.
Class Setter {R T : Type} (proj : R -> T) := upd : (T -> T) -> R -> R.

Ltac term_head t := lazymatch t with ?f _ => term_head f | _ => t end.

Ltac solve_setter :=
  lazymatch goal with
  | |- @Setter ?R ?T ?proj =>
      let inst := eval cbv beta in (_ : Eta R) in
      let h := term_head inst in
      exact (fun (f : T -> T) (r : R) =>
        ltac:(let b := eval cbv beta delta [h] in (inst r) in
              lazymatch b with
              | context C [proj r] => let t := context C [f (proj r)] in exact t
              end))
  end.
#[export] Hint Extern 1 (Setter _) => solve_setter : typeclass_instances.

Declare Scope gim_scope.
Delimit Scope gim_scope with gim.
Notation "r <| f := v |>" := (upd (proj := f) (fun _ => v) r)
  (at level 1, left associativity, f constr at level 11, v constr at level 200,
   format "r  <| f  :=  v |>") : gim_scope.
#[global] Open Scope gim_scope.

(** ** Generic facts shared by the components *)

Lemma list_insert_Forall {A} (P : A -> Prop) (l : list A) i x :
  Forall P l -> P x -> Forall P (<[i:=x]> l).
Proof. intros. by apply Forall_insert. Qed.

Lemma bool_decide_reflect_Z (a b : Z) : bool_decide (a = b) = (a =? b).
Proof. by destruct (Z.eqb_spec a b); [apply bool_decide_eq_true|apply bool_decide_eq_false]. Qed.

(** A sum that wraps around a ring at most once. *)
Lemma mod_wrap_once x c :
  0 <= x < 2 * c -> x mod c = if x <? c then x else x - c.
Proof.
  intros. destruct (Z.ltb_spec x c).
  - apply Z.mod_small. lia.
  - symmetry. apply (Z.mod_unique _ _ 1); lia.
Qed.

(** Division-free turning of [Z] booleans into propositions. *)
Ltac zb :=
  repeat match goal with
  | H : (_ && _) = true |- _ => apply andb_true_iff in H; destruct H
  | H : (_ || _) = false |- _ => apply orb_false_iff in H; destruct H
  | H : negb _ = true |- _ => apply negb_true_iff in H
  | H : negb _ = false |- _ => apply negb_false_iff in H
  | H : (_ =? _) = true |- _ => apply Z.eqb_eq in H
  | H : (_ =? _) = false |- _ => apply Z.eqb_neq in H
  | H : (_ <? _) = true |- _ => apply Z.ltb_lt in H
  | H : (_ <? _) = false |- _ => apply Z.ltb_ge in H
  | H : (_ <=? _) = true |- _ => apply Z.leb_le in H
  | H : (_ <=? _) = false |- _ => apply Z.leb_gt in H
  end.
