(* ===== verification/Oss.v ===== *)
(** * Operating-system services used by libgv

    libgv reaches the kernel only through the [oss_*] callbacks
    (src/libgv/inc/amdgv_oss.h, wrapped in amdgv_oss_wrapper.h); their
    implementation is the hosting kernel's.  What the code observes of them is
    the argument [OssEnv] of the definitions that call them: the successive
    readings of the clock and whether each successive allocation or lock
    creation succeeds.  [oss_state] counts the calls made so far and the
    objects currently live, so that a leak is visible in the final state. *)
From S2P Require Import Prelude.
#[local] Open Scope Z_scope.

Class OssEnv := {
  oss_time : nat -> Z;        (* n-th reading of the microsecond clock *)
  oss_alloc_ok : nat -> bool; (* does the n-th allocation succeed *)
  oss_lock_ok : nat -> bool;  (* does the n-th lock creation succeed *)
}.

(** The clock is a 64-bit counter that does not go back. *)
Class OssClock (E : OssEnv) : Prop := {
  oss_time_u64 : forall n, in_width 64 (oss_time n);
  oss_time_mono : forall n m, (n <= m)%nat -> oss_time n <= oss_time m;
}.

Record oss_state := mk_oss {
  os_ticks : nat;    (* clock readings so far *)
  os_allocs : nat;   (* allocations attempted so far *)
  os_lock_inits : nat;
  os_heap : Z;       (* live allocations *)
  os_locks : Z;      (* live locks *)
}.
#[export] Instance eta_oss_state : Eta oss_state := fun r =>
  mk_oss (os_ticks r) (os_allocs r) (os_lock_inits r) (os_heap r) (os_locks r).

Definition oss_boot : oss_state := mk_oss 0 0 0 0 0.

Section services.
Context {E : OssEnv}.

Definition oss_get_time_stamp : M oss_state Z := fun s =>
  Ret (oss_time (os_ticks s), s <| os_ticks := S (os_ticks s) |>).

(** [true] when the allocation returned memory. *)
Definition oss_alloc : M oss_state bool := fun s =>
  let ok := oss_alloc_ok (os_allocs s) in
  Ret (ok, s <| os_allocs := S (os_allocs s) |>
             <| os_heap := if ok then os_heap s + 1 else os_heap s |>).

Definition oss_free : M oss_state unit :=
  modify (fun s => s <| os_heap := os_heap s - 1 |>).

(** [true] when the handle is not [OSS_INVALID_HANDLE]. *)
Definition oss_lock_init : M oss_state bool := fun s =>
  let ok := oss_lock_ok (os_lock_inits s) in
  Ret (ok, s <| os_lock_inits := S (os_lock_inits s) |>
             <| os_locks := if ok then os_locks s + 1 else os_locks s |>).

Definition oss_lock_fini : M oss_state unit :=
  modify (fun s => s <| os_locks := os_locks s - 1 |>).

Lemma wp_time (Q : Z -> oss_state -> Prop) s :
  Q (oss_time (os_ticks s)) (s <| os_ticks := S (os_ticks s) |>) ->
  wp oss_get_time_stamp Q s.
Proof. done. Qed.
End services.

(** An environment for concrete runs: the clock advances by [step] at each
    reading and the allocations and locks whose number is listed fail. *)
Definition env_of (start step : Z) (bad_allocs bad_locks : list nat) : OssEnv := {|
  oss_time n := Z.min (start + step * Z.of_nat n) (2 ^ 64 - 1);
  oss_alloc_ok n := negb (bool_decide (n ∈ bad_allocs));
  oss_lock_ok n := negb (bool_decide (n ∈ bad_locks));
|}.

Lemma env_of_clock start step ba bl :
  0 <= start -> 0 <= step -> OssClock (env_of start step ba bl).
Proof.
  intros. split; cbn -[Z.pow].
  - intros n. unfold in_width. nia.
  - intros n m Hnm. apply Z.min_le_compat_r. nia.
Qed.
