(* ===== verification/Api.v ===== *)
(** * Constants shared by the components (src/libgv/inc/amdgv_api.h)

    The constants and conversion macros several components use, as the
    headers define them. *)
From S2P Require Import Prelude.
#[local] Open Scope Z_scope.

Definition AMDGV_FAILURE : Z := -1.
Definition AMDGV_MAX_VF_NUM : Z := 31.
Definition AMDGV_MAX_VF_SLOT : Z := 32. (* AMDGV_MAX_VF_NUM + 1 *)
Definition AMDGV_PF_IDX : Z := 31. (* AMDGV_MAX_VF_NUM *)

(** [TO_MBYTES] and [MBYTES_TO_BYTES]: the cast to [uint64_t] applies to the
    first operand of the argument, so sums inside the macro are 64-bit. *)
Definition TO_MBYTES (x : Z) : Z := Z.shiftr x 20.
Definition MBYTES_TO_BYTES (x : Z) : Z := u64 (Z.shiftl (u64 x) 20).

Lemma MBYTES_TO_BYTES_small x :
  0 <= x < 2 ^ 44 -> MBYTES_TO_BYTES x = x * 1048576.
Proof.
  intros. unfold MBYTES_TO_BYTES. rewrite (wrap_id 64 x) by (unfold in_width; lia).
  rewrite Z.shiftl_mul_pow2 by lia. apply wrap_id. unfold in_width. lia.
Qed.
