(* ===== verification/Guard.v ===== *)
(** * The event guard (src/libgv/core/amdgv_guard.c, amdgv_guard.h)

    A per-VF rate limiter: each kind of guest-triggered event owns a ring of
    time stamps, and an event is refused once [threshold] of them lie inside
    the last [interval] microseconds. *)
From S2P Require Import Prelude Api Oss.
#[local] Open Scope Z_scope.

Module Guard.

(** ** Constants of amdgv_api.h and amdgv_guard.h *)

Definition AMDGV_EVENT_OVERFLOW : Z := -100.
Definition AMDGV_FLAG_SENSITIVE_EVENT_GUARD : Z := 8.

Definition AMDGV_GUARD_EVENT_FLR : nat := 0.
Definition AMDGV_GUARD_EVENT_EXCLUSIVE_MOD : nat := 1.
Definition AMDGV_GUARD_EVENT_EXCLUSIVE_TIMEOUT : nat := 2.
Definition AMDGV_GUARD_EVENT_ALL_INT : nat := 3.
Definition AMDGV_GUARD_EVENT_RAS_ERR_COUNT : nat := 4.
Definition AMDGV_GUARD_EVENT_RAS_CPER_DUMP : nat := 5.
Definition AMDGV_GUARD_EVENT_RAS_BAD_PAGES : nat := 6.
Definition AMDGV_GUARD_EVENT_WGR : nat := 7.
Definition AMDGV_GUARD_EVENT_RAS_CHK_CRITI : nat := 8.
Definition AMDGV_GUARD_EVENT_RAS_REMOTE_CMD : nat := 9.
Definition AMDGV_GUARD_EVENT_MAX : nat := 10.
Definition AMDGV_GUARD_ALL : nat := 11.

Definition AMDGV_GUARD_DISABLED : Z := 0.
Definition AMDGV_GUARD_ENABLED : Z := 1.
Definition AMDGV_GUARD_EVENT_NORMAL : Z := 0.
Definition AMDGV_GUARD_EVENT_FULL : Z := 1.
Definition AMDGV_GUARD_EVENT_OVERFLOW : Z := 2.

(** ** Data *)

(** [struct amdgv_monitor_event]; [record_array] is [None] for NULL, and
    [lock] says whether the spin lock handle is valid. *)
Record monitor_event := mk_event {
  ev_name : string;
  ev_lock : bool;
  ev_state : Z;
  amount : Z;
  interval : Z;
  threshold : Z;
  active : Z;
  origin_idx : Z;
  record_array : option (list Z);
}.
#[export] Instance eta_event : Eta monitor_event := fun e =>
  mk_event (ev_name e) (ev_lock e) (ev_state e) (amount e) (interval e) (threshold e)
    (active e) (origin_idx e) (record_array e).

(** [oss_zalloc]ed memory. *)
Definition zero_event : monitor_event := mk_event "" false 0 0 0 0 0 0 None.

Record vf_guard := mk_guard {
  g_state : Z;
  ov_event : Z;
  event : list monitor_event;
}.
#[export] Instance eta_guard : Eta vf_guard := fun g =>
  mk_guard (g_state g) (ov_event g) (event g).

(** The part of [struct amdgv_adapter] the guard reads and writes:
    [array_vf[i].guard], [num_vf], [flags]. *)
Record adapter := mk_adapter {
  array_vf : list (option vf_guard);
  num_vf : Z;
  flags : Z;
  os : oss_state;
}.
#[export] Instance eta_adapter : Eta adapter := fun a =>
  mk_adapter (array_vf a) (num_vf a) (flags a) (os a).

(** [struct amdgv_guard_info]: the members of the C union overlay each other,
    [general.state] on [event.state] and [general.ov_event] on
    [event.amount]. *)
Record guard_info := mk_info {
  i_type : nat;
  i_state : Z;
  i_amount : Z;
  i_interval : Z;
  i_threshold : Z;
  i_active : Z;
}.
#[export] Instance eta_info : Eta guard_info := fun i =>
  mk_info (i_type i) (i_state i) (i_amount i) (i_interval i) (i_threshold i) (i_active i).

(** ** Accessors: the pointer dereferences of the code *)

Definition AMDGV_IS_IDX_INVALID (a : adapter) (idx_vf : Z) : bool :=
  negb (idx_vf =? AMDGV_PF_IDX) && (num_vf a <=? idx_vf).

(** [adapt->array_vf[idx_vf].guard] *)
Definition vf_guard_of (idx_vf : Z) : M adapter (option vf_guard) := fun a =>
  require (array_vf a !! Z.to_nat idx_vf) a.

Definition put_guard (idx_vf : Z) (g : option vf_guard) : M adapter unit :=
  modify (fun a => a <| array_vf := <[Z.to_nat idx_vf := g]> (array_vf a) |>).

Definition put_event (idx_vf : Z) (g : vf_guard) (id : nat) (e : monitor_event) : M adapter unit :=
  put_guard idx_vf (Some (g <| event := <[id := e]> (event g) |>)).

Definition with_os {A} (m : M oss_state A) : M adapter A :=
  zoom os (fun o a => a <| os := o |>) m.

(** ** Operations *)

Section ops.
Context {E : OssEnv}.

Definition amdgv_guard_is_event_full (idx_vf : Z) (event_id : nat) : M adapter Z :=
  a ← gets id;
  if AMDGV_IS_IDX_INVALID a idx_vf then mret AMDGV_GUARD_EVENT_NORMAL else
  vf ← vf_guard_of idx_vf;
  match vf with
  | None => mret AMDGV_GUARD_EVENT_NORMAL
  | Some g =>
      if g_state g =? AMDGV_GUARD_DISABLED then mret AMDGV_GUARD_EVENT_NORMAL else
      e ← require (event g !! event_id);
      mret (ev_state e)
  end.

Definition amdgv_guard_dec_active_event (idx_vf : Z) (event_id : nat) : M adapter Z :=
  a ← gets id;
  if AMDGV_IS_IDX_INVALID a idx_vf then mret AMDGV_FAILURE else
  vf ← vf_guard_of idx_vf;
  match vf with
  | None => mret AMDGV_FAILURE
  | Some g =>
      if g_state g =? AMDGV_GUARD_DISABLED then mret 0 else
      e ← require (event g !! event_id);
      let e' := if (ev_state e =? AMDGV_GUARD_EVENT_NORMAL) && negb (active e =? 0)
                then e <| active := active e - 1 |> else e in
      _ ← put_event idx_vf g event_id e';
      mret 0
  end.

(** The [while (event->active > 0)] loop of [amdgv_guard_delete_expired_event];
    [fuel] is the number of active records, which each round decreases. *)
Fixpoint expire_loop (fuel : nat) (e : monitor_event) : M oss_state monitor_event :=
  match fuel with
  | O => mret e
  | S fuel' =>
      if 0 <? active e then
        let idx := origin_idx e in
        curr ← oss_get_time_stamp;
        recs ← require (record_array e);
        t ← require (recs !! Z.to_nat idx);
        let delta := u64 (curr - t) in
        if delta <? interval e then mret e
        else
          _ ← demand (negb (threshold e =? 0));
          expire_loop fuel'
               (e <| active := active e - 1 |>
                  <| ev_state := AMDGV_GUARD_EVENT_NORMAL |>
                  <| origin_idx := u32 (idx + 1) mod threshold e |>)
      else mret e
  end.

Definition expire_event (e : monitor_event) : M oss_state monitor_event :=
  expire_loop (Z.to_nat (active e)) e.

Fixpoint expire_events (l : list monitor_event) : M oss_state (list monitor_event) :=
  match l with
  | [] => mret []
  | e :: l' => e' ← expire_event e; r ← expire_events l'; mret (e' :: r)
  end.

Definition amdgv_guard_delete_expired_event (g : vf_guard) : M oss_state vf_guard :=
  evs ← expire_events (event g);
  mret (g <| event := evs |>).

(** The part of [amdgv_guard_add_active_event] under the event's spin lock,
    when the event is not full: record the time stamp at the tail of the
    ring. *)
Definition record_event (e : monitor_event) : M oss_state monitor_event :=
  curr_time ← oss_get_time_stamp;
  _ ← demand (negb (threshold e =? 0));
  let idx := u32 (origin_idx e + active e) mod threshold e in
  recs ← require (record_array e);
  _ ← require (recs !! Z.to_nat idx);
  let e' := e <| record_array := Some (<[Z.to_nat idx := curr_time]> recs) |>
              <| active := u32 (active e + 1) |>
              <| amount := u32 (amount e + 1) |> in
  mret (if active e' =? threshold e' then e' <| ev_state := AMDGV_GUARD_EVENT_FULL |> else e').

Definition amdgv_guard_add_active_event (idx_vf : Z) (event_id : nat) : M adapter Z :=
  a ← gets id;
  if AMDGV_IS_IDX_INVALID a idx_vf then mret AMDGV_FAILURE else
  vf ← vf_guard_of idx_vf;
  match vf with
  | None => mret AMDGV_FAILURE
  | Some g0 =>
      if g_state g0 =? AMDGV_GUARD_DISABLED then mret AMDGV_FAILURE else
      g ← with_os (amdgv_guard_delete_expired_event g0);
      e ← require (event g !! event_id);
      if threshold e <=? active e then
        _ ← put_event idx_vf (g <| ov_event := u32 (ov_event g + 1) |>) event_id
              (e <| ev_state := AMDGV_GUARD_EVENT_OVERFLOW |>);
        mret AMDGV_EVENT_OVERFLOW
      else
        e' ← with_os (record_event e);
        _ ← put_event idx_vf g event_id e';
        mret 0
  end.

(** [AMDGV_DEFAULT_*_INTERVAL] *)
Definition amdgv_guard_set_event_default_interval (e : monitor_event) (event_id : nat) : monitor_event :=
  match event_id with
  | 0%nat => e <| interval := 60 * 1000 * 1000 |>   (* FLR *)
  | 7%nat => e <| interval := 60 * 1000 * 1000 |>   (* WGR *)
  | 1%nat => e <| interval := 60 * 1000 * 1000 |>   (* EXCLUSIVE *)
  | 2%nat => e <| interval := 500 * 1000 * 1000 |>  (* EXCLUSIVE_TIMEOUT *)
  | 3%nat => e <| interval := 60 * 1000 * 1000 |>   (* INTERRUPT *)
  | 4%nat | 5%nat | 6%nat | 8%nat => e <| interval := 60 * 1000 * 1000 |> (* RAS_TELEMETRY *)
  | 9%nat => e <| interval := 60 * 1000 * 1000 |>   (* RAS_REMOTE_CMD *)
  | _ => e
  end.

Definition amdgv_guard_get_max_threshold (event_id : nat) : Z :=
  match event_id with
  | 0%nat => 5    (* AMDGV_GUARD_MAX_FLR *)
  | 7%nat => 5    (* AMDGV_GUARD_MAX_WGR *)
  | 1%nat => 10   (* AMDGV_GUARD_MAX_EXCLUSIVE_MOD *)
  | 2%nat => 3    (* AMDGV_GUARD_MAX_EXCLUSIVE_TIMEOUT *)
  | 3%nat => 57   (* AMDGV_GUARD_MAX_ALL_INT *)
  | 4%nat | 5%nat | 6%nat | 8%nat => 15   (* AMDGV_GUARD_MAX_RAS_TELEMETRY *)
  | 9%nat => 30   (* AMDGV_GUARD_MAX_RAS_REMOTE_CMD *)
  | _ => 0
  end.

(** [AMDGV_DEFAULT_*_THRESHOLD] *)
Definition amdgv_guard_set_event_default_threshold (e : monitor_event) (event_id : nat) : monitor_event :=
  match event_id with
  | 0%nat | 7%nat => e <| threshold := 3 |>
  | 1%nat => e <| threshold := 9 |>
  | 2%nat => e <| threshold := 2 |>
  | 3%nat => e <| threshold := 56 |>
  | 4%nat | 5%nat | 6%nat | 8%nat => e <| threshold := 15 |>
  | 9%nat => e <| threshold := 30 - 1 |>
  | _ => e
  end.

Definition amdgv_guard_set_event_name (e : monitor_event) (event_id : nat) : monitor_event :=
  match event_id with
  | 0%nat => e <| ev_name := "FLR" |>
  | 7%nat => e <| ev_name := "WGR" |>
  | 1%nat => e <| ev_name := "EXCLUSIVE" |>
  | 2%nat => e <| ev_name := "EXCLUSIVE_TIMEOUT" |>
  | 3%nat => e <| ev_name := "INTERRUPT" |>
  | 4%nat => e <| ev_name := "RAS_ERR_COUNT" |>
  | 5%nat => e <| ev_name := "RAS_CPER_DUMP" |>
  | 6%nat => e <| ev_name := "RAS_BAD_PAGES" |>
  | 8%nat => e <| ev_name := "RAS_CHK_CRITI" |>
  | 9%nat => e <| ev_name := "RAS_REMOTE_CMD" |>
  | _ => e
  end.

(** One round of the initialisation loop of [amdgv_guard_vf_init]: [inl e]
    is [goto failed] with [event] pointing at [e]. *)
Definition init_event (i : nat) : M oss_state (monitor_event + monitor_event) :=
  let e := amdgv_guard_set_event_default_threshold
             (amdgv_guard_set_event_default_interval
                (amdgv_guard_set_event_name zero_event i) i) i in
  let max_threshold := amdgv_guard_get_max_threshold i in
  ok ← oss_alloc;
  if negb ok then mret (inl e) else
  let e := e <| record_array := Some (replicate (Z.to_nat max_threshold) 0) |> in
  ok ← oss_lock_init;
  if negb ok then mret (inl e) else
  mret (inr (e <| ev_lock := true |> <| ev_state := AMDGV_GUARD_EVENT_NORMAL |>)).

(** The loop itself: either the events, or the index reached and the event
    that failed. *)
Fixpoint init_events (ids : list nat) : M oss_state ((nat * monitor_event) + list monitor_event) :=
  match ids with
  | [] => mret (inr [])
  | i :: ids' =>
      r ← init_event i;
      match r with
      | inl e => mret (inl (i, e))
      | inr e =>
          rest ← init_events ids';
          match rest with
          | inl f => mret (inl f)
          | inr es => mret (inr (e :: es))
          end
      end
  end.

(** [for (; i > 0; i--) ...] under the label [failed]: the pointer [event] is
    not moved by the loop. *)
Fixpoint init_cleanup (i : nat) (e : monitor_event) : M oss_state unit :=
  match i with
  | O => mret tt
  | S i' =>
      _ ← (if record_array e is Some _ then oss_free else mret tt);
      _ ← (if ev_lock e then oss_lock_fini else mret tt);
      init_cleanup i' (e <| record_array := None |>)
  end.

Definition amdgv_guard_vf_init (idx_vf : Z) : M adapter Z :=
  _ ← vf_guard_of idx_vf;
  ok ← with_os oss_alloc;
  if negb ok then _ ← put_guard idx_vf None; mret AMDGV_FAILURE else
  r ← with_os (init_events (seq 0 AMDGV_GUARD_EVENT_MAX));
  match r with
  | inr evs =>
      fl ← gets flags;
      let st := if Z.land fl AMDGV_FLAG_SENSITIVE_EVENT_GUARD =? 0
                then AMDGV_GUARD_DISABLED else AMDGV_GUARD_ENABLED in
      _ ← put_guard idx_vf (Some (mk_guard st 0 evs));
      mret 0
  | inl (i, e) =>
      _ ← with_os (init_cleanup i e);
      _ ← with_os oss_free;
      _ ← put_guard idx_vf None;
      mret AMDGV_FAILURE
  end.

Fixpoint remove_events (l : list monitor_event) : M oss_state unit :=
  match l with
  | [] => mret tt
  | e :: l' =>
      _ ← (if record_array e is Some _ then oss_free else mret tt); (* oss_free(NULL) is a no-op *)
      _ ← oss_lock_fini;
      remove_events l'
  end.

Definition amdgv_guard_vf_remove (idx_vf : Z) : M adapter Z :=
  vf ← vf_guard_of idx_vf;
  g ← require vf;
  _ ← with_os (remove_events (event g));
  _ ← with_os oss_free;
  _ ← put_guard idx_vf None;
  mret 0.

(** The loop of [amdgv_guard_vf_reset]: the events as left by it, and whether
    it reached its end.  [oss_memset] clears the first [threshold] records. *)
Fixpoint reset_events (l : list monitor_event) : M oss_state (list monitor_event * bool) :=
  match l with
  | [] => mret ([], true)
  | e :: l' =>
      let e := e <| amount := 0 |> <| active := 0 |> <| origin_idx := 0 |> in
      match record_array e with
      | None => mret (e :: l', false)
      | Some recs =>
          _ ← demand (threshold e <=? Z.of_nat (length recs));
          let n := Z.to_nat (threshold e) in
          let e := e <| record_array := Some (replicate n 0 ++ drop n recs) |>
                     <| ev_state := AMDGV_GUARD_EVENT_NORMAL |> in
          r ← reset_events l';
          mret (e :: fst r, snd r)
      end
  end.

Definition amdgv_guard_vf_reset (idx_vf : Z) : M adapter Z :=
  vf ← vf_guard_of idx_vf;
  match vf with
  | None => mret AMDGV_FAILURE
  | Some g =>
      r ← with_os (reset_events (event g));
      let g := g <| event := fst r |> in
      if (snd r : bool)
      then (_ ← put_guard idx_vf (Some (g <| ov_event := 0 |>)); mret 0)
      else (_ ← put_guard idx_vf (Some g); mret AMDGV_FAILURE)
  end.

Definition amdgv_guard_set_vf_info (idx_vf : Z) (info : guard_info) : M adapter Z :=
  a ← gets id;
  if (Nat.ltb AMDGV_GUARD_ALL (i_type info)) || AMDGV_IS_IDX_INVALID a idx_vf
  then mret AMDGV_FAILURE else
  vf ← vf_guard_of idx_vf;
  if Nat.eqb (i_type info) AMDGV_GUARD_ALL then
    g ← require vf;
    _ ← put_guard idx_vf (Some (g <| g_state := i_state info |>));
    mret 0
  else if Nat.ltb (i_type info) AMDGV_GUARD_EVENT_MAX then
    if amdgv_guard_get_max_threshold (i_type info) <? i_threshold info then
      mret AMDGV_FAILURE
    else
      g ← require vf;
      e ← require (event g !! i_type info);
      _ ← put_event idx_vf g (i_type info)
            (e <| ev_state := i_state info |> <| interval := i_interval info |>
               <| threshold := i_threshold info |>);
      mret 0
  else mret 0.

(** The second component is [*info] on return. *)
Definition amdgv_guard_get_vf_info (idx_vf : Z) (info : guard_info) : M adapter (Z * guard_info) :=
  a ← gets id;
  if (Nat.ltb AMDGV_GUARD_ALL (i_type info)) || AMDGV_IS_IDX_INVALID a idx_vf
  then mret (AMDGV_FAILURE, info) else
  vf ← vf_guard_of idx_vf;
  if (idx_vf =? AMDGV_PF_IDX) && Nat.eqb (i_type info) AMDGV_GUARD_ALL then
    mret (0, info <| i_state := 0 |> <| i_amount := 0 |>)
  else if idx_vf =? AMDGV_PF_IDX then
    mret (0, mk_info (i_type info) 0 0 0 0 0)
  else
    g ← require vf;
    g ← with_os (amdgv_guard_delete_expired_event g);
    _ ← put_guard idx_vf (Some g);
    if Nat.eqb (i_type info) AMDGV_GUARD_ALL then
      mret (0, info <| i_state := g_state g |> <| i_amount := ov_event g |>)
    else if Nat.ltb (i_type info) AMDGV_GUARD_EVENT_MAX then
      e ← require (event g !! i_type info);
      mret (0, mk_info (i_type info) (ev_state e) (amount e) (interval e) (threshold e) (active e))
    else mret (0, info).

End ops.
End Guard.
