(* ===== verification/GuardProps.v ===== *)
(** * Correctness of the event guard *)
From S2P Require Import Prelude Api Oss Guard.
Import Guard.
#[local] Open Scope Z_scope.

(** ** The ring of time stamps as a queue *)

Definition slot (e : monitor_event) (i : nat) : nat :=
  Z.to_nat ((origin_idx e + Z.of_nat i) mod threshold e).

(** The active time stamps, oldest first. *)
Definition queue (e : monitor_event) : list Z :=
  match record_array e with
  | Some recs => map (fun i => default 0 (recs !! slot e i)) (seq 0 (Z.to_nat (active e)))
  | None => []
  end.

(** What every operation keeps: the array has the size the threshold is
    bounded by, and the indices stay inside it. *)
Record event_wf (max : Z) (e : monitor_event) : Prop := {
  wf_recs : exists recs, record_array e = Some recs /\ Z.of_nat (length recs) = max;
  wf_max : max <= 57;
  wf_threshold : 1 <= threshold e <= max;
  wf_origin : 0 <= origin_idx e < max;
  wf_active : 0 <= active e <= max;
  wf_lock : ev_lock e = true;
}.

(** What holds as long as the threshold is not changed. *)
Record ring_ok (e : monitor_event) : Prop := {
  ring_origin : 0 <= origin_idx e < threshold e;
  ring_active : 0 <= active e <= threshold e;
}.

Definition pop (e : monitor_event) : monitor_event :=
  e <| active := active e - 1 |>
    <| ev_state := AMDGV_GUARD_EVENT_NORMAL |>
    <| origin_idx := u32 (origin_idx e + 1) mod threshold e |>.

Lemma u32_small z : 0 <= z < 4294967296 -> u32 z = z.
Proof. intros. apply wrap_id. unfold in_width. lia. Qed.

Lemma pop_wf max e : event_wf max e -> 0 < active e -> event_wf max (pop e).
Proof.
  intros [] ?. split; cbn; auto; [|lia].
  pose proof (Z.mod_pos_bound (u32 (origin_idx e + 1)) (threshold e)). lia.
Qed.

Lemma pop_ring e : ring_ok e -> 0 < active e -> ring_ok (pop e).
Proof.
  intros [] ?. split; cbn; [|lia].
  apply Z.mod_pos_bound. lia.
Qed.

Lemma slot_range max e i : event_wf max e -> (slot e i < Z.to_nat max)%nat.
Proof.
  intros []. unfold slot.
  pose proof (Z.mod_pos_bound (origin_idx e + Z.of_nat i) (threshold e)). lia.
Qed.

Lemma slot_pop max e i : event_wf max e -> slot (pop e) i = slot e (S i).
Proof.
  intros []. unfold slot. cbn. f_equal.
  rewrite u32_small by lia. rewrite Z.add_mod_idemp_l by lia. f_equal. lia.
Qed.

Lemma queue_pop max e recs :
  event_wf max e -> 0 < active e -> record_array e = Some recs ->
  queue e = default 0 (recs !! slot e 0) :: queue (pop e).
Proof.
  intros Hwf Ha Hr. unfold queue. cbn -[slot]. rewrite Hr.
  replace (Z.to_nat (active e)) with (S (Z.to_nat (active e - 1))) by lia.
  cbn [seq map]. f_equal. rewrite <- seq_shift, map_map.
  apply map_ext. intros i. now rewrite (slot_pop max).
Qed.

Lemma slot_0 e : ring_ok e -> slot e 0 = Z.to_nat (origin_idx e).
Proof. intros []. unfold slot. rewrite Z.add_0_r, Z.mod_small; lia. Qed.

Lemma slot_inj e i j :
  ring_ok e -> Z.of_nat i < threshold e -> Z.of_nat j < threshold e ->
  slot e i = slot e j -> i = j.
Proof.
  intros [] ? ? H. unfold slot in H.
  pose proof (Z.mod_pos_bound (origin_idx e + Z.of_nat i) (threshold e)).
  pose proof (Z.mod_pos_bound (origin_idx e + Z.of_nat j) (threshold e)).
  apply Z2Nat.inj in H; [|lia..].
  rewrite !mod_wrap_once in H by lia.
  destruct (Z.ltb_spec (origin_idx e + Z.of_nat i) (threshold e));
    destruct (Z.ltb_spec (origin_idx e + Z.of_nat j) (threshold e)); lia.
Qed.

(** ** Expiry *)

(** The abstract queue loses its oldest stamp as long as that stamp is at
    least [iv] old at the reading of the clock made for it. *)
Fixpoint expire_queue (iv : Z) (now : nat -> Z) (k : nat) (q : list Z) : list Z * nat :=
  match q with
  | [] => ([], k)
  | t :: q' => if u64 (now k - t) <? iv then (q, S k) else expire_queue iv now (S k) q'
  end.

(** Expiry touches neither the configuration nor the records. *)
Definition same_config (e e' : monitor_event) : Prop :=
  threshold e' = threshold e /\ interval e' = interval e /\
  record_array e' = record_array e /\ amount e' = amount e /\ ev_lock e' = ev_lock e.

Section expiry.
Context {E : OssEnv}.

Lemma expire_loop_wf max fuel e o :
  event_wf max e ->
  wp (expire_loop fuel e) (fun e' _ => event_wf max e' /\ same_config e e' /\ active e' <= active e) o.
Proof.
  revert e o. induction fuel as [|fuel IH]; intros e o Hwf; cbn [expire_loop].
  { apply wp_ret. unfold same_config; split_and!; auto; lia. }
  destruct (0 <? active e) eqn:Ha; [|apply wp_ret; unfold same_config; split_and!; auto; lia].
  zb. destruct (wf_recs _ _ Hwf) as (recs & Hr & Hlen).
  apply wp_bind, wp_time, wp_bind. eapply wp_require; [exact Hr|].
  pose proof (wf_origin _ _ Hwf).
  destruct (lookup_lt_is_Some_2 recs (Z.to_nat (origin_idx e))) as [t Ht]; [lia|].
  apply wp_bind. eapply wp_require; [exact Ht|].
  destruct (_ <? interval e); [apply wp_ret; unfold same_config; split_and!; auto; lia|].
  apply wp_bind, wp_demand.
  { destruct (Z.eqb_spec (threshold e) 0); [|done]. pose proof (wf_threshold _ _ Hwf). lia. }
  eapply wp_mono; [apply (IH (pop e)), pop_wf; auto|].
  cbn. intros e' o' (? & ? & ?). split_and!; [done| |lia].
  unfold same_config in *. cbn in *. done.
Qed.

Lemma expire_loop_queue max fuel e o :
  event_wf max e -> ring_ok e -> Z.to_nat (active e) = fuel ->
  wp (expire_loop fuel e) (fun e' o' =>
    ring_ok e' /\
    (queue e', os_ticks o') = expire_queue (interval e) oss_time (os_ticks o) (queue e)) o.
Proof.
  revert e o. induction fuel as [|fuel IH]; intros e o Hwf Hring Hf; cbn [expire_loop].
  { apply wp_ret. split; [done|]. unfold queue. rewrite Hf. by destruct (record_array e). }
  destruct (0 <? active e) eqn:Ha; [|zb; lia].
  zb. destruct (wf_recs _ _ Hwf) as (recs & Hr & Hlen).
  apply wp_bind, wp_time, wp_bind. eapply wp_require; [exact Hr|].
  pose proof (wf_origin _ _ Hwf).
  destruct (lookup_lt_is_Some_2 recs (Z.to_nat (origin_idx e))) as [t Ht]; [lia|].
  apply wp_bind. eapply wp_require; [exact Ht|].
  rewrite (queue_pop max e recs) by done. rewrite slot_0, Ht by done.
  cbn [expire_queue default from_option id].
  destruct (_ <? interval e) eqn:Hd.
  { apply wp_ret. split; [done|]. rewrite (queue_pop max e recs), slot_0, Ht by done. done. }
  apply wp_bind, wp_demand.
  { destruct (Z.eqb_spec (threshold e) 0); [|done]. pose proof (wf_threshold _ _ Hwf). lia. }
  apply (IH (pop e)); [by apply pop_wf|by apply pop_ring|cbn; lia].
Qed.

End expiry.

(** ** Recording *)

Section recording.
Context {E : OssEnv}.

Lemma queue_record e e' recs t :
  ring_ok e -> active e < threshold e -> record_array e = Some recs ->
  threshold e <= Z.of_nat (length recs) ->
  threshold e' = threshold e -> origin_idx e' = origin_idx e ->
  active e' = active e + 1 ->
  record_array e' = Some (<[slot e (Z.to_nat (active e)) := t]> recs) ->
  queue e' = queue e ++ [t].
Proof.
  intros Hring Hlt Hr Hlen Ht Ho Ha Hr'. pose proof Hring as [? ?].
  unfold queue. rewrite Hr, Hr', Ha.
  replace (Z.to_nat (active e + 1)) with (S (Z.to_nat (active e))) by lia.
  rewrite seq_S, map_app. cbn [map Nat.add].
  assert (Hslot : forall i, slot e' i = slot e i)
    by (intros i; unfold slot; by rewrite Ht, Ho).
  f_equal.
  - apply map_ext_in. intros i Hi%in_seq. rewrite Hslot, list_lookup_insert_ne; [done|].
    intros Heq. apply slot_inj in Heq; [lia|done|lia|lia].
  - rewrite Hslot, list_lookup_insert_eq; [done|].
    unfold slot. pose proof (Z.mod_pos_bound (origin_idx e + Z.of_nat (Z.to_nat (active e))) (threshold e)). lia.
Qed.

Lemma record_event_spec max e o :
  event_wf max e -> active e < threshold e ->
  wp (record_event e) (fun e' o' =>
    event_wf max e' /\ threshold e' = threshold e /\ interval e' = interval e /\
    active e' = active e + 1 /\ os_ticks o' = S (os_ticks o) /\
    ev_state e' = (if active e + 1 =? threshold e then AMDGV_GUARD_EVENT_FULL else ev_state e) /\
    (ring_ok e -> ring_ok e' /\ queue e' = queue e ++ [oss_time (os_ticks o)])) o.
Proof.
  intros Hwf Hlt. pose proof Hwf as [(recs & Hr & Hlen) ? ? ? ? ?].
  unfold record_event. apply wp_bind, wp_time, wp_bind, wp_demand.
  { destruct (Z.eqb_spec (threshold e) 0); [lia|done]. }
  rewrite (u32_small (origin_idx e + active e)), (u32_small (active e + 1)) by lia.
  apply wp_bind. eapply wp_require; [exact Hr|].
  pose proof (Z.mod_pos_bound (origin_idx e + active e) (threshold e)).
  set (n := Z.to_nat ((origin_idx e + active e) mod threshold e)).
  assert (Hn : n = slot e (Z.to_nat (active e))) by (unfold n, slot; do 3 f_equal; lia).
  destruct (lookup_lt_is_Some_2 recs n) as [x Hx]; [unfold n; lia|].
  apply wp_bind. eapply wp_require; [exact Hx|]. apply wp_ret.
  assert (Hlen' : exists r, Some (<[n:=oss_time (os_ticks o)]> recs) = Some r /\ Z.of_nat (length r) = max)
    by (eexists; split; [done|]; by rewrite length_insert).
  cbn -[n]. destruct (active e + 1 =? threshold e) eqn:Hfull.
  all: split_and!; try done; [split; cbn -[n]; auto; lia|].
  all: intros Hring; split; [destruct Hring; split; cbn; lia|].
  all: eapply (queue_record e _ recs); eauto; [lia|cbn -[n]; by rewrite Hn].
Qed.
End recording.

(** ** The invariant of the adapter's guards *)

Record guard_wf (g : vf_guard) : Prop := {
  gwf_length : length (event g) = AMDGV_GUARD_EVENT_MAX;
  gwf_event : forall i e, event g !! i = Some e -> event_wf (amdgv_guard_get_max_threshold i) e;
}.

Record adapter_wf (a : adapter) : Prop := {
  awf_slots : length (array_vf a) = 32%nat;
  awf_num : 0 <= num_vf a <= 31;
  awf_guard : forall i g, array_vf a !! i = Some (Some g) -> guard_wf g;
}.

Lemma put_guard_wf a idx g :
  adapter_wf a -> (forall g', g = Some g' -> guard_wf g') ->
  adapter_wf (a <| array_vf := <[Z.to_nat idx := g]> (array_vf a) |>).
Proof.
  intros [] Hg. split; cbn; [by rewrite length_insert|done|].
  intros i g' Hi. destruct (decide (i = Z.to_nat idx)) as [->|Hne].
  - destruct (decide (Z.to_nat idx < length (array_vf a))%nat).
    + rewrite list_lookup_insert_eq in Hi by done. apply Hg. by injection Hi.
    + rewrite list_insert_ge in Hi by lia. eauto.
  - rewrite list_lookup_insert_ne in Hi by done. eauto.
Qed.

Lemma put_event_wf g id e :
  guard_wf g -> event_wf (amdgv_guard_get_max_threshold id) e ->
  guard_wf (g <| event := <[id := e]> (event g) |>).
Proof.
  intros [] He. split; cbn; [by rewrite length_insert|].
  intros i e' Hi. destruct (decide (i = id)) as [->|Hne].
  - destruct (decide (id < length (event g))%nat).
    + rewrite list_lookup_insert_eq in Hi by done. by injection Hi as <-.
    + rewrite list_insert_ge in Hi by lia. eauto.
  - rewrite list_lookup_insert_ne in Hi by done. eauto.
Qed.

#[export] Hint Resolve put_guard_wf put_event_wf : gim.

(** A run of an operation on the services inside an adapter operation. *)
Lemma wp_with_os {A} (m : M oss_state A) (Q : A -> adapter -> Prop) a :
  wp m (fun x o => Q x (a <| os := o |>)) (os a) -> wp (with_os m) Q a.
Proof. intros H. by apply (wp_zoom os _ m). Qed.

Lemma adapter_wf_os a o : adapter_wf a -> adapter_wf (a <| os := o |>).
Proof. intros []. by split. Qed.
#[export] Hint Resolve adapter_wf_os : gim.

(** ** Expiry of the whole guard *)

Section expire_all.
Context {E : OssEnv}.

Lemma expire_loop_ticks fuel e o e' o' :
  expire_loop fuel e o = Ret (e', o') -> (os_ticks o <= os_ticks o')%nat.
Proof.
  revert e o. induction fuel as [|fuel IH]; intros e o; cbn [expire_loop].
  { intros [= _ <-]. lia. }
  destruct (0 <? active e); [|intros [= _ <-]; lia].
  unfold mbind, M_bind, oss_get_time_stamp. cbn.
  destruct (record_array e) as [recs|]; [|done]. cbn.
  destruct (recs !! _) as [t|]; [|done]. cbn.
  destruct (_ <? interval e); [intros [= _ <-]; cbn; lia|].
  destruct (negb _); [|done]. cbn. intros H%IH. cbn in H. lia.
Qed.

(** Each event of the guard is expired once, in between the first and the
    last reading of the clock. *)
Definition expired_in (o o' : oss_state) (e e' : monitor_event) : Prop :=
  exists oi oi' : oss_state, expire_event e oi = Ret (e', oi') /\
    (os_ticks o <= os_ticks oi)%nat /\ (os_ticks oi' <= os_ticks o')%nat.

Lemma expire_events_spec l o :
  Forall (fun e => exists max, event_wf max e) l ->
  wp (expire_events l) (fun l' o' =>
    Forall2 (expired_in o o') l l' /\ (os_ticks o <= os_ticks o')%nat) o.
Proof.
  intros Hl. revert o. induction Hl as [|e l [max He] Hl IH]; intros o; cbn [expire_events].
  { apply wp_ret. split; [constructor|lia]. }
  destruct (wp_returns _ _ _ (expire_loop_wf max (Z.to_nat (active e)) e o He))
    as (e' & o1 & Hrun & _).
  apply wp_bind, (wp_intro _ _ _ _ _ Hrun), wp_bind.
  eapply wp_mono; [apply IH|]. intros l' o' [Hl' Ht]. apply wp_ret.
  pose proof (expire_loop_ticks _ _ _ _ _ Hrun).
  split; [constructor|lia].
  - exists o, o1. split_and!; [done|lia..].
  - eapply Forall2_impl; [exact Hl'|]. intros x y (oi & oi' & ? & ? & ?).
    exists oi, oi'. split_and!; [done|lia..].
Qed.
End expire_all.

(** ** Every entry point keeps the invariant and has defined behaviour *)

Section invariant.
Context {E : OssEnv}.

Lemma delete_expired_wf g o :
  guard_wf g ->
  wp (amdgv_guard_delete_expired_event g) (fun g' _ =>
    guard_wf g' /\ g_state g' = g_state g /\ ov_event g' = ov_event g) o.
Proof.
  intros [Hlen Hev]. unfold amdgv_guard_delete_expired_event. apply wp_bind.
  assert (Hsafe : Forall (fun e => exists max, event_wf max e) (event g)).
  { apply Forall_lookup. eauto. }
  eapply wp_mono; [by apply expire_events_spec|]. intros l' o' [Hl' _]. apply wp_ret.
  split_and!; [|done|done]. split; cbn.
  - by rewrite <- Hlen, (Forall2_length _ _ _ Hl').
  - intros i e' Hi. destruct (Forall2_lookup_r _ _ _ _ _ Hl' Hi) as (e & He & oi & oi' & Hrun & _).
    pose proof (expire_loop_wf _ (Z.to_nat (active e)) e oi (Hev _ _ He)) as Hwp.
    unfold wp, expire_event in *. rewrite Hrun in Hwp. tauto.
Qed.

Lemma vf_guard_of_wp idx (Q : option vf_guard -> adapter -> Prop) a :
  adapter_wf a -> 0 <= idx <= 31 ->
  (forall g, array_vf a !! Z.to_nat idx = Some g ->
     (forall g', g = Some g' -> guard_wf g') -> Q g a) ->
  wp (vf_guard_of idx) Q a.
Proof.
  intros [Hlen _ Hg] Hi HQ. unfold wp, vf_guard_of, require.
  destruct (lookup_lt_is_Some_2 (array_vf a) (Z.to_nat idx)) as [g E']; [lia|].
  rewrite E'. cbn. apply HQ; [done|]. intros g' ->. eauto.
Qed.

Lemma valid_idx a idx :
  adapter_wf a -> 0 <= idx -> AMDGV_IS_IDX_INVALID a idx = false -> 0 <= idx <= 31.
Proof.
  intros [] ? H. unfold AMDGV_IS_IDX_INVALID, AMDGV_PF_IDX in H.
  apply andb_false_iff in H as [H|H]; zb; lia.
Qed.

Lemma event_present g id :
  guard_wf g -> (id < AMDGV_GUARD_EVENT_MAX)%nat -> exists e, event g !! id = Some e.
Proof. intros [Hl _] Hid. apply lookup_lt_is_Some_2. unfold AMDGV_GUARD_EVENT_MAX in *. lia. Qed.

(** Common opening of the entry points that check their index. *)
Ltac open_guard Hwf Hidx g Hg :=
  apply wp_bind, wp_gets; cbn beta;
  match goal with |- wp (if ?b then _ else _) _ _ => destruct b eqn:Hinv end;
    [by apply wp_ret|];
  apply wp_bind, vf_guard_of_wp; [exact Hwf|eapply valid_idx; eauto|];
  intros [g|] ? Hg; [specialize (Hg _ eq_refl)|by apply wp_ret].

Lemma add_wf idx id a :
  adapter_wf a -> 0 <= idx -> (id < AMDGV_GUARD_EVENT_MAX)%nat ->
  wp (amdgv_guard_add_active_event idx id) (fun _ => adapter_wf) a.
Proof.
  intros Hwf Hidx Hid. unfold amdgv_guard_add_active_event.
  open_guard Hwf Hidx g Hg.
  destruct (_ =? _); [by apply wp_ret|].
  apply wp_bind, wp_with_os. eapply wp_mono; [by apply delete_expired_wf|].
  intros g1 o1 (Hg1 & _ & _). destruct (event_present _ _ Hg1 Hid) as [e He].
  apply wp_bind. eapply wp_require; [exact He|].
  pose proof (gwf_event _ Hg1 _ _ He) as Hew.
  destruct (threshold e <=? active e) eqn:Ht.
  - apply wp_bind, wp_modify, wp_ret. apply put_guard_wf; [auto with gim|].
    intros ? [= <-].
    assert (He1 : event_wf (amdgv_guard_get_max_threshold id) (e <| ev_state := AMDGV_GUARD_EVENT_OVERFLOW |>))
      by (by destruct Hew).
    destruct (put_event_wf _ _ _ Hg1 He1). by split.
  - zb. apply wp_bind, wp_with_os. eapply wp_mono; [by apply record_event_spec|].
    intros e' o2 (He' & _). apply wp_bind, wp_modify, wp_ret.
    apply put_guard_wf; [auto with gim|]. intros ? [= <-]. by apply put_event_wf.
Qed.

Lemma dec_wf idx id a :
  adapter_wf a -> 0 <= idx -> (id < AMDGV_GUARD_EVENT_MAX)%nat ->
  wp (amdgv_guard_dec_active_event idx id) (fun _ => adapter_wf) a.
Proof.
  intros Hwf Hidx Hid. unfold amdgv_guard_dec_active_event.
  open_guard Hwf Hidx g Hg.
  destruct (_ =? _); [by apply wp_ret|].
  destruct (event_present _ _ Hg Hid) as [e He].
  apply wp_bind. eapply wp_require; [exact He|].
  pose proof (gwf_event _ Hg _ _ He) as Hew.
  apply wp_bind, wp_modify, wp_ret. apply put_guard_wf; [done|].
  intros ? [= <-]. apply put_event_wf; [done|].
  destruct (_ && _) eqn:Hb; [zb|done]. destruct Hew. split; cbn; auto. lia.
Qed.

Lemma full_wf idx id a :
  adapter_wf a -> 0 <= idx -> (id < AMDGV_GUARD_EVENT_MAX)%nat ->
  wp (amdgv_guard_is_event_full idx id) (fun _ => adapter_wf) a.
Proof.
  intros Hwf Hidx Hid. unfold amdgv_guard_is_event_full.
  open_guard Hwf Hidx g Hg.
  destruct (_ =? _); [by apply wp_ret|].
  destruct (event_present _ _ Hg Hid) as [e He].
  apply wp_bind. eapply wp_require; [exact He|]. by apply wp_ret.
Qed.

Lemma set_wf idx info a :
  adapter_wf a -> 0 <= idx ->
  (exists g, array_vf a !! Z.to_nat idx = Some (Some g)) ->
  ((i_type info < AMDGV_GUARD_EVENT_MAX)%nat -> 1 <= i_threshold info) ->
  wp (amdgv_guard_set_vf_info idx info) (fun _ => adapter_wf) a.
Proof.
  intros Hwf Hidx [g Hlk] Hthr. unfold amdgv_guard_set_vf_info.
  apply wp_bind, wp_gets; cbn beta.
  destruct (_ || _) eqn:Hinv; [by apply wp_ret|]. zb.
  apply wp_bind, vf_guard_of_wp; [exact Hwf|eapply valid_idx; eauto|].
  intros g' Hg' Hgwf. rewrite Hlk in Hg'. injection Hg' as <-. specialize (Hgwf _ eq_refl).
  destruct (Nat.eqb _ _); [|destruct (Nat.ltb (i_type info) AMDGV_GUARD_EVENT_MAX) eqn:Hty; [|by apply wp_ret]].
  - apply wp_bind, wp_ret, wp_bind, wp_modify, wp_ret. apply put_guard_wf; [done|].
    intros ? [= <-]. by destruct Hgwf.
  - apply Nat.ltb_lt in Hty. destruct (_ <? _) eqn:Hmax; [by apply wp_ret|]. zb.
    apply wp_bind, wp_ret. destruct (event_present _ _ Hgwf Hty) as [e He].
    apply wp_bind. eapply wp_require; [exact He|].
    apply wp_bind, wp_modify, wp_ret. apply put_guard_wf; [done|].
    intros ? [= <-]. apply put_event_wf; [done|].
    destruct (gwf_event _ Hgwf _ _ He). specialize (Hthr Hty). split; cbn; auto.
Qed.

Lemma get_wf idx info a :
  adapter_wf a -> 0 <= idx ->
  (idx <> AMDGV_PF_IDX -> exists g, array_vf a !! Z.to_nat idx = Some (Some g)) ->
  wp (amdgv_guard_get_vf_info idx info) (fun _ => adapter_wf) a.
Proof.
  intros Hwf Hidx Hlk. unfold amdgv_guard_get_vf_info.
  apply wp_bind, wp_gets; cbn beta.
  destruct (_ || _) eqn:Hinv; [by apply wp_ret|]. zb.
  apply wp_bind, vf_guard_of_wp; [exact Hwf|eapply valid_idx; eauto|].
  intros g' Hg' Hgwf.
  destruct (_ && _); [by apply wp_ret|]. destruct (Z.eqb_spec idx AMDGV_PF_IDX); [by apply wp_ret|].
  destruct Hlk as [g Hlk]; [done|]. rewrite Hlk in Hg'. injection Hg' as <-.
  specialize (Hgwf _ eq_refl). apply wp_bind, wp_ret, wp_bind, wp_with_os.
  eapply wp_mono; [by apply delete_expired_wf|]. intros g1 o1 (Hg1 & _ & _).
  apply wp_bind, wp_modify.
  assert (Hput : adapter_wf ((a <| os := o1 |>) <| array_vf := <[Z.to_nat idx := Some g1]> (array_vf a) |>)).
  { pose proof (put_guard_wf (a <| os := o1 |>) idx (Some g1)) as Hput. apply Hput; [auto with gim|].
    by intros ? [= <-]. }
  destruct (Nat.eqb _ _); [by apply wp_ret|].
  destruct (Nat.ltb (i_type info) AMDGV_GUARD_EVENT_MAX) eqn:Hty; [|by apply wp_ret].
  apply Nat.ltb_lt in Hty. destruct (event_present _ _ Hg1 Hty) as [e He].
  apply wp_bind. eapply wp_require; [exact He|]. by apply wp_ret.
Qed.

(** *** Initialisation, removal, reset *)

Lemma init_event_wf i o :
  (i < AMDGV_GUARD_EVENT_MAX)%nat ->
  wp (init_event i) (fun r _ =>
    match r with inr e => event_wf (amdgv_guard_get_max_threshold i) e | inl _ => True end) o.
Proof.
  intros Hi. unfold init_event. apply wp_bind. unfold wp at 1, oss_alloc.
  destruct (oss_alloc_ok _); [|by apply wp_ret].
  apply wp_bind. unfold wp at 1, oss_lock_init.
  destruct (oss_lock_ok _); [|by apply wp_ret]. apply wp_ret.
  unfold AMDGV_GUARD_EVENT_MAX in Hi.
  do 10 (destruct i as [|i]; [split; cbn; try lia; eauto|]). lia.
Qed.

Lemma init_events_wf ids o :
  Forall (fun i => (i < AMDGV_GUARD_EVENT_MAX)%nat) ids ->
  wp (init_events ids) (fun r _ =>
    match r with
    | inr es => Forall2 (fun i e => event_wf (amdgv_guard_get_max_threshold i) e) ids es
    | inl _ => True
    end) o.
Proof.
  intros Hids. revert o. induction Hids as [|i ids Hi Hids IH]; intros o; cbn [init_events].
  { by apply wp_ret. }
  apply wp_bind. eapply wp_mono; [by apply init_event_wf|].
  intros [e|e] o1 He; [by apply wp_ret|].
  apply wp_bind. eapply wp_mono; [apply IH|].
  intros [f|es] o2 Hes; apply wp_ret; [done|by constructor].
Qed.

Lemma init_cleanup_wp i e o (Q : unit -> oss_state -> Prop) :
  (forall o', Q tt o') -> wp (init_cleanup i e) Q o.
Proof.
  intros HQ. revert e o. induction i as [|i IH]; intros e o; cbn [init_cleanup]; [by apply wp_ret|].
  apply wp_bind. destruct (record_array e); [apply wp_modify|apply wp_ret]; apply wp_bind;
    (destruct (ev_lock e); [apply wp_modify|apply wp_ret]); apply IH.
Qed.

Lemma remove_events_wp l o (Q : unit -> oss_state -> Prop) :
  (forall o', Q tt o') -> wp (remove_events l) Q o.
Proof.
  intros HQ. revert o. induction l as [|e l IH]; intros o; cbn [remove_events]; [by apply wp_ret|].
  apply wp_bind. destruct (record_array e); [apply wp_modify|apply wp_ret]; apply wp_bind, wp_modify, IH.
Qed.

Lemma init_wf idx a :
  adapter_wf a -> 0 <= idx <= 31 -> wp (amdgv_guard_vf_init idx) (fun _ => adapter_wf) a.
Proof.
  intros Hwf Hidx. unfold amdgv_guard_vf_init.
  apply wp_bind, vf_guard_of_wp; [done|done|]. intros _ _ _.
  apply wp_bind, wp_with_os. unfold wp at 1, oss_alloc.
  destruct (oss_alloc_ok _); cbn [negb].
  2: { apply wp_bind, wp_modify, wp_ret. apply put_guard_wf; [auto with gim|done]. }
  apply wp_bind, wp_with_os. eapply wp_mono.
  { apply init_events_wf. apply Forall_forall. intros i Hi%elem_of_seq.
    unfold AMDGV_GUARD_EVENT_MAX in *. lia. }
  intros [[i e]|es] o1 Hes.
  - apply wp_bind, wp_with_os, init_cleanup_wp. intros o2.
    apply wp_bind, wp_with_os, wp_modify, wp_bind, wp_modify, wp_ret.
    apply put_guard_wf; [auto with gim|done].
  - apply wp_bind, wp_gets, wp_bind, wp_modify, wp_ret.
    apply put_guard_wf; [auto with gim|]. intros ? [= <-]. split; cbn [event].
    + by rewrite <- (Forall2_length _ _ _ Hes), length_seq.
    + intros i e He. destruct (Forall2_lookup_r _ _ _ _ _ Hes He) as (j & Hj & Hw).
      apply lookup_seq in Hj as [-> _]. done.
Qed.

Lemma remove_wf idx a :
  adapter_wf a -> 0 <= idx <= 31 ->
  (exists g, array_vf a !! Z.to_nat idx = Some (Some g)) ->
  wp (amdgv_guard_vf_remove idx) (fun _ => adapter_wf) a.
Proof.
  intros Hwf Hidx [g Hlk]. unfold amdgv_guard_vf_remove.
  apply wp_bind, vf_guard_of_wp; [done|done|]. intros g' Hg' _.
  rewrite Hlk in Hg'. injection Hg' as <-. apply wp_bind, wp_ret.
  apply wp_bind, wp_with_os, remove_events_wp. intros o.
  apply wp_bind, wp_with_os, wp_modify, wp_bind, wp_modify, wp_ret.
  apply put_guard_wf; [auto with gim|done].
Qed.

Lemma reset_events_wf l o :
  (forall e, e ∈ l -> exists max, event_wf max e) ->
  wp (reset_events l) (fun r _ =>
    snd r = true /\
    Forall2 (fun e e' => (forall max, event_wf max e -> event_wf max e' /\ ring_ok e') /\
                         active e' = 0 /\ ev_state e' = AMDGV_GUARD_EVENT_NORMAL) l (fst r)) o.
Proof.
  revert o. induction l as [|e l IH]; intros o Hl; cbn [reset_events]; [by apply wp_ret|].
  destruct (Hl e) as (max & [(recs & Hr & Hlen) ? ? ? ? ?]); [apply elem_of_cons; by left|].
  cbn. rewrite Hr. apply wp_bind, wp_demand. { apply Z.leb_le. lia. }
  apply wp_bind. eapply wp_mono; [apply IH; intros e' He'; apply Hl, elem_of_cons; by right|].
  intros [es ok] o1 [Hok Hes]. apply wp_ret. cbn in *. split; [done|]. constructor; [|done].
  cbn. split_and!; [|done|done]. intros max' [(recs' & Hr' & Hlen') ? ? ? ? ?].
  rewrite Hr in Hr'. injection Hr' as <-. split; [|split; cbn; lia].
  split; cbn; try done; try lia. eexists. split; [done|].
  rewrite length_app, length_replicate, length_drop. lia.
Qed.

Lemma reset_wf idx a :
  adapter_wf a -> 0 <= idx <= 31 -> wp (amdgv_guard_vf_reset idx) (fun _ => adapter_wf) a.
Proof.
  intros Hwf Hidx. unfold amdgv_guard_vf_reset.
  apply wp_bind, vf_guard_of_wp; [done|done|]. intros [g|] _ Hg; [|by apply wp_ret].
  specialize (Hg _ eq_refl). destruct Hg as [Hlen Hev].
  apply wp_bind, wp_with_os. eapply wp_mono.
  { apply reset_events_wf. intros e [i He]%list_elem_of_lookup. eauto. }
  intros [es ok] o1 [-> Hes]. cbn in *.
  apply wp_bind, wp_modify, wp_ret. apply put_guard_wf; [auto with gim|].
  intros ? [= <-]. split; cbn; [by rewrite <- Hlen, (Forall2_length _ _ _ Hes)|].
  intros i e' He'. destruct (Forall2_lookup_r _ _ _ _ _ Hes He') as (e & He & Hw & _).
  by apply Hw, Hev.
Qed.

End invariant.

(** ** The rate limit *)

Section rate.
Context {E : OssEnv} {HC : OssClock E}.






Lemma queue_length max e : event_wf max e -> length (queue e) = Z.to_nat (active e).
Proof.
  intros [(recs & Hr & _) ? ? ? ? ?]. unfold queue. by rewrite Hr, length_map, length_seq.
Qed.

(** What one call of [amdgv_guard_add_active_event] does to event [ev]. *)
Definition accepted (r : Z) (id ev : nat) (a : adapter) : list Z :=
  if (r =? 0) && Nat.eqb id ev then [oss_time (pred (os_ticks (os a)))] else [].








(** The number of active records of event [ev]. *)
Definition active_of (idx : Z) (ev : nat) (a : adapter) : Z :=
  match array_vf a !! Z.to_nat idx with
  | Some (Some g) => match event g !! ev with Some e => active e | None => 0 end
  | _ => 0
  end.


End rate.

(** ** The properties *)

Section properties.
Context {E : OssEnv}.

(** What a guest's requests make the driver call: a request counts an event of
    its kind, and a dump of error records that leaves the guest waiting for
    more has two counts taken back (amdgv_sched_handle_vf_req_cper_dump). *)
Inductive guest_call := Count (id : nat) | TakeBack (id : nat).


(** What becomes of the events of kind [ev]: one passes at a time, or one that
    had passed is not counted any more. *)
Inductive entry := Passed (t : Z) | TakenBack.

Definition call_entries (idx : Z) (ev : nat) (c : guest_call) (r : Z) (a a' : adapter) : list entry :=
  match c with
  | Count id => Passed <$> accepted r id ev a'
  | TakeBack _ => if active_of idx ev a' <? active_of idx ev a then [TakenBack] else []
  end.

(** A sequence of such calls on one VF, and the log of the events of kind
    [ev]. *)
Fixpoint serve (idx : Z) (ev : nat) (calls : list guest_call) : M adapter (list entry) :=
  match calls with
  | [] => mret []
  | c :: calls' =>
      a ← gets (fun a => a);
      r ← match c with
          | Count id => amdgv_guard_add_active_event idx id
          | TakeBack id => amdgv_guard_dec_active_event idx id
          end;
      a' ← gets (fun a => a);
      t ← serve idx ev calls';
      mret (call_entries idx ev c r a a' ++ t)
  end.





(** The calls libgv makes into the guard. *)
Inductive guard_op :=
| OpInit (idx : Z)
| OpRemove (idx : Z)
| OpReset (idx : Z)
| OpAdd (idx : Z) (id : nat)
| OpDec (idx : Z) (id : nat)
| OpFull (idx : Z) (id : nat)
| OpSet (idx : Z) (info : guard_info)
| OpGet (idx : Z) (info : guard_info).

Definition exec (op : guard_op) : M adapter Z :=
  match op with
  | OpInit idx => amdgv_guard_vf_init idx
  | OpRemove idx => amdgv_guard_vf_remove idx
  | OpReset idx => amdgv_guard_vf_reset idx
  | OpAdd idx id => amdgv_guard_add_active_event idx id
  | OpDec idx id => amdgv_guard_dec_active_event idx id
  | OpFull idx id => amdgv_guard_is_event_full idx id
  | OpSet idx info => amdgv_guard_set_vf_info idx info
  | OpGet idx info => r ← amdgv_guard_get_vf_info idx info; mret (fst r)
  end.

Definition has_guard (a : adapter) (idx : Z) : Prop :=
  exists g, array_vf a !! Z.to_nat idx = Some (Some g).

(** What the callers must respect: slot numbers inside the array, event ids
    of the enumeration, a guard where one is dereferenced, and (the code does
    not check it) a positive threshold. *)
Definition op_pre (a : adapter) (op : guard_op) : Prop :=
  match op with
  | OpInit idx | OpReset idx => 0 <= idx <= 31
  | OpRemove idx => 0 <= idx <= 31 /\ has_guard a idx
  | OpAdd idx id | OpDec idx id | OpFull idx id => 0 <= idx /\ (id < AMDGV_GUARD_EVENT_MAX)%nat
  | OpSet idx info => 0 <= idx /\ has_guard a idx /\
      ((i_type info < AMDGV_GUARD_EVENT_MAX)%nat -> 1 <= i_threshold info)
  | OpGet idx _ => 0 <= idx /\ (idx <> AMDGV_PF_IDX -> has_guard a idx)
  end.

Lemma exec_wf a op : adapter_wf a -> op_pre a op -> wp (exec op) (fun _ => adapter_wf) a.
Proof.
  intros Hwf. destruct op; cbn; intros Hpre.
  - by apply init_wf.
  - destruct Hpre. by apply remove_wf.
  - by apply reset_wf.
  - destruct Hpre. by apply add_wf.
  - destruct Hpre. by apply dec_wf.
  - destruct Hpre. by apply full_wf.
  - destruct Hpre as (? & ? & ?). by apply set_wf.
  - destruct Hpre. apply wp_bind. eapply wp_mono; [by apply get_wf|]. intros r s Hs. by apply wp_ret.
Qed.

(** States reachable from an adapter without guards. *)
Inductive reachable : adapter -> Prop :=
| reach_boot n f o : 0 <= n <= 31 -> reachable (mk_adapter (replicate 32 None) n f o)
| reach_step a op r a' :
    reachable a -> op_pre a op -> exec op a = Ret (r, a') -> reachable a'.

(** C39: memory safety and totality of the whole component.  From an adapter
    without guards, after any sequence of calls (initialisations that fail
    half-way included), any further call inside its precondition returns: no
    record is read or written outside its array, no ring index is reduced
    modulo zero, no null guard is dereferenced; and the invariant of the rings
    holds again. *)
Theorem guard_reachable_safe a op :
  reachable a -> op_pre a op ->
  exists r a', exec op a = Ret (r, a') /\ reachable a' /\ adapter_wf a'.
Proof.
  intros Hr Hpre.
  assert (Hwf : adapter_wf a).
  { clear op Hpre. induction Hr as [n f o Hn|a op r a' Hr IH Hpre He].
    - split; [done|done|]. intros i g Hi. cbn [array_vf] in Hi.
      apply lookup_replicate in Hi as [[=] _].
    - pose proof (exec_wf a op IH Hpre) as Hw. unfold wp in Hw. by rewrite He in Hw. }
  destruct (wp_returns _ _ _ (exec_wf a op Hwf Hpre)) as (r & a' & He & Hwf').
  exists r, a'. split_and!; [done| |done]. eapply reach_step; eauto.
Qed.

(** C27: the ring implements a queue.  One round of the limiter on an event
    (expiry, then recording when the event is not full) is the abstract
    operation: the oldest stamps leave the queue while they are at least
    [interval] old, each against its own reading of the clock, and an accepted
    event appends one new reading. *)
Theorem guard_ring_refines_queue max e o :
  event_wf max e -> ring_ok e ->
  exists e1 o1, expire_event e o = Ret (e1, o1) /\
    (queue e1, os_ticks o1) = expire_queue (interval e) oss_time (os_ticks o) (queue e) /\
    active e1 = Z.of_nat (length (queue e1)) /\
    (active e1 < threshold e1 -> exists e2 o2,
       record_event e1 o1 = Ret (e2, o2) /\ ring_ok e2 /\
       queue e2 = queue e1 ++ [oss_time (os_ticks o1)] /\
       ev_state e2 = (if active e2 =? threshold e2 then AMDGV_GUARD_EVENT_FULL else ev_state e1)).
Proof.
  intros Hwf Hring.
  destruct (wp_returns _ _ _ (expire_loop_wf max (Z.to_nat (active e)) e o Hwf))
    as (e1 & o1 & Hrun & Hwf1 & _ & _).
  pose proof (expire_loop_queue max _ e o Hwf Hring eq_refl) as Hq.
  unfold wp in Hq. rewrite Hrun in Hq. destruct Hq as [Hring1 Hq].
  exists e1, o1. split_and!; [done|done| |].
  - rewrite (queue_length max e1 Hwf1). destruct Hring1. lia.
  - intros Hlt. destruct (wp_returns _ _ _ (record_event_spec max e1 o1 Hwf1 Hlt))
      as (e2 & o2 & Hrun2 & _ & Ht & _ & Ha & _ & Hst & Hrec).
    destruct (Hrec Hring1) as [Hring2 Hq2]. exists e2, o2. split_and!; try done.
    by rewrite Hst, Ha, Ht.
Qed.

(** Resources held by an initialised guard: the guard itself, one array and
    one lock per event. *)
Lemma init_event_ok i o :
  (forall n, oss_alloc_ok n = true) -> (forall n, oss_lock_ok n = true) ->
  wp (init_event i) (fun r o' => exists e, r = inr e /\ record_array e <> None /\ ev_lock e = true /\
     os_heap o' = os_heap o + 1 /\ os_locks o' = os_locks o + 1) o.
Proof.
  intros Ha Hl. unfold init_event. apply wp_bind. unfold wp at 1, oss_alloc.
  rewrite Ha. apply wp_bind. unfold wp at 1, oss_lock_init. rewrite Hl. apply wp_ret.
  eexists. split; [done|]. cbn. split_and!; [done|done|lia|lia].
Qed.

Lemma init_events_ok ids o :
  (forall n, oss_alloc_ok n = true) -> (forall n, oss_lock_ok n = true) ->
  wp (init_events ids) (fun r o' => exists es, r = inr es /\ length es = length ids /\
     Forall (fun e => record_array e <> None) es /\
     os_heap o' = os_heap o + Z.of_nat (length ids) /\
     os_locks o' = os_locks o + Z.of_nat (length ids)) o.
Proof.
  intros Ha Hl. revert o. induction ids as [|i ids IH]; intros o; cbn [init_events].
  { apply wp_ret. exists []. cbn. split_and!; [done|done|constructor|lia|lia]. }
  apply wp_bind. eapply wp_mono; [by apply init_event_ok|].
  intros r o1 (e & -> & He & _ & Hh & Hk). apply wp_bind.
  eapply wp_mono; [apply IH|]. intros r o2 (es & -> & Hlen & Hes & Hh' & Hk').
  apply wp_ret. exists (e :: es). cbn [length]. split_and!; [done|lia|by constructor|lia|lia].
Qed.

Lemma remove_events_balance l o :
  Forall (fun e => record_array e <> None) l ->
  wp (remove_events l) (fun _ o' =>
     os_heap o' = os_heap o - Z.of_nat (length l) /\ os_locks o' = os_locks o - Z.of_nat (length l)) o.
Proof.
  intros Hl. revert o. induction Hl as [|e l He Hl IH]; intros o; cbn [remove_events].
  { apply wp_ret. cbn. lia. }
  apply wp_bind. destruct (record_array e); [|done]. apply wp_modify, wp_bind, wp_modify.
  eapply wp_mono; [apply IH|]. cbn. lia.
Qed.

(** Initialisation and removal balance.  When every allocation and lock
    creation succeeds, [amdgv_guard_vf_init] succeeds, leaves an enabled or
    disabled guard according to the sensitive-event flag, and
    [amdgv_guard_vf_remove] after it releases exactly what was acquired. *)
Theorem guard_init_remove_balanced idx a :
  (forall n, oss_alloc_ok n = true) -> (forall n, oss_lock_ok n = true) ->
  adapter_wf a -> 0 <= idx <= 31 ->
  exists a1 a2 g, amdgv_guard_vf_init idx a = Ret (0, a1) /\
    array_vf a1 !! Z.to_nat idx = Some (Some g) /\
    g_state g = (if Z.land (flags a) AMDGV_FLAG_SENSITIVE_EVENT_GUARD =? 0
                 then AMDGV_GUARD_DISABLED else AMDGV_GUARD_ENABLED) /\
    amdgv_guard_vf_remove idx a1 = Ret (0, a2) /\
    array_vf a2 !! Z.to_nat idx = Some None /\
    os_heap (os a2) = os_heap (os a) /\ os_locks (os a2) = os_locks (os a).
Proof.
  intros Ha Hl Hwf Hidx. pose proof (awf_slots _ Hwf) as Hlen.
  destruct (lookup_lt_is_Some_2 (array_vf a) (Z.to_nat idx)) as [g0 Hg0]; [lia|].
  assert (Halloc : oss_alloc (os a) = Ret (true, (os a) <| os_allocs := S (os_allocs (os a)) |>
      <| os_heap := os_heap (os a) + 1 |>)) by (unfold oss_alloc; by rewrite Ha).
  destruct (wp_returns _ _ _ (init_events_ok (seq 0 AMDGV_GUARD_EVENT_MAX)
     ((os a) <| os_allocs := S (os_allocs (os a)) |> <| os_heap := os_heap (os a) + 1 |>) Ha Hl))
    as (r & o1 & Hrun & es & -> & Hes & Hrec & Hh & Hk).
  destruct (wp_returns _ _ _ (remove_events_balance es o1 Hrec)) as ([] & o2 & Hrun2 & Hh2 & Hk2).
  rewrite length_seq in *. cbn in Hh, Hk.
  set (st := if Z.land (flags a) AMDGV_FLAG_SENSITIVE_EVENT_GUARD =? 0
             then AMDGV_GUARD_DISABLED else AMDGV_GUARD_ENABLED).
  exists (mk_adapter (<[Z.to_nat idx := Some (mk_guard st 0 es)]> (array_vf a)) (num_vf a) (flags a) o1).
  exists (mk_adapter (<[Z.to_nat idx := None]> (<[Z.to_nat idx := Some (mk_guard st 0 es)]> (array_vf a)))
     (num_vf a) (flags a) (o2 <| os_heap := os_heap o2 - 1 |>)), (mk_guard st 0 es).
  split_and!.
  - unfold amdgv_guard_vf_init.
    erewrite run_bind by (unfold vf_guard_of, require; by rewrite Hg0).
    erewrite run_bind by (by apply run_zoom). cbn [negb].
    erewrite run_bind by (apply run_zoom; exact Hrun). done.
  - cbn. apply list_lookup_insert_eq. lia.
  - done.
  - unfold amdgv_guard_vf_remove.
    erewrite run_bind by (unfold vf_guard_of, require; cbn; by rewrite list_lookup_insert_eq by lia).
    erewrite run_bind by done.
    erewrite run_bind by (apply run_zoom; exact Hrun2). done.
  - cbn. apply list_lookup_insert_eq. rewrite length_insert. lia.
  - cbn. rewrite Hh2, Hes. unfold AMDGV_GUARD_EVENT_MAX in *. lia.
  - cbn. rewrite Hk2, Hes. unfold AMDGV_GUARD_EVENT_MAX in *. lia.
Qed.
End properties.

(** ** Concrete runs *)

Definition second : Z := 1000000.

(** A PF with one VF whose guard has been initialised; [env] gives the clock
    and the failing allocations. *)
Definition bare : adapter := mk_adapter (replicate 32 None) 1 AMDGV_FLAG_SENSITIVE_EVENT_GUARD oss_boot.

Definition boot (env : OssEnv) : adapter :=
  match amdgv_guard_vf_init (E := env) 0 bare with
  | Ret (_, a) => a
  | Fault => bare
  end.

(** The clock advances by [step] seconds at each reading. *)
Definition clock (step : Z) : OssEnv := env_of second (step * second) [] [].


Lemma bare_wf : adapter_wf bare.
Proof.
  split; [done|done|]. intros i g Hi. cbn [array_vf bare] in Hi. apply lookup_replicate in Hi as [[=] _].
Qed.


(** Event [id] of VF 0. *)
Definition event_of (a : adapter) (id : nat) : option monitor_event :=
  g ← mjoin (array_vf a !! 0%nat); event g !! id.

Definition flr_info (thr : Z) : guard_info :=
  mk_info AMDGV_GUARD_EVENT_FLR AMDGV_GUARD_EVENT_NORMAL 0 (60 * second) thr 0.

Definition ret_state {A} (o : outcome (A * adapter)) : adapter :=
  match o with Ret (_, a) => a | Fault => bare end.




Lemma guard_reachable_safe_witness :
  exists r a', exec (E := clock 1) (OpAdd 0 0) bare = Ret (r, a') /\ reachable (E := clock 1) a' /\ adapter_wf a'.
Proof.
  apply (guard_reachable_safe (E := clock 1) bare (OpAdd 0 0)).
  - apply reach_boot. lia.
  - cbn. unfold AMDGV_GUARD_EVENT_MAX. lia.
Defined.

Lemma guard_ring_refines_queue_witness :
  exists e1 o1, expire_event (E := clock 100)
      (mk_event "FLR" true 1 3 (60 * second) 3 3 2 (Some [2 * second; 70 * second; second; 0; 0]))
      oss_boot = Ret (e1, o1) /\ active e1 = Z.of_nat (length (queue e1)).
Proof.
  destruct (guard_ring_refines_queue (E := clock 100) 5
      (mk_event "FLR" true 1 3 (60 * second) 3 3 2 (Some [2 * second; 70 * second; second; 0; 0]))
      oss_boot) as (e1 & o1 & H1 & _ & H2 & _).
  - split; cbn; try done. eexists. split; done.
  - split; done.
  - exists e1, o1. split; done.
Defined.

Lemma guard_init_remove_balanced_witness :
  exists a1 a2 g, amdgv_guard_vf_init (E := clock 1) 0 bare = Ret (0, a1) /\
    array_vf a1 !! 0%nat = Some (Some g) /\ g_state g = AMDGV_GUARD_ENABLED /\
    amdgv_guard_vf_remove 0 a1 = Ret (0, a2) /\ os_heap (os a2) = 0.
Proof.
  destruct (guard_init_remove_balanced (E := clock 1) 0 bare) as (a1 & a2 & g & H1 & H2 & H3 & H4 & _ & H5 & _).
  - reflexivity.
  - reflexivity.
  - apply bare_wf.
  - lia.
  - exists a1, a2, g. split_and!; assumption.
Defined.

(** The code accepts a threshold of zero.  [amdgv_guard_set_vf_info]
    checks the new threshold against the maximum only; with a record still in
    the ring, the next expiry reduces the ring index modulo zero. *)
Theorem guard_zero_threshold_traps :
  exists a1 a2,
    amdgv_guard_add_active_event (E := clock 60) 0 AMDGV_GUARD_EVENT_FLR (boot (clock 60)) = Ret (0, a1) /\
    amdgv_guard_set_vf_info 0 (flr_info 0) a1 = Ret (0, a2) /\
    amdgv_guard_add_active_event (E := clock 60) 0 AMDGV_GUARD_EVENT_FLR a2 = Fault.
Proof.
  set (a1 := ret_state (amdgv_guard_add_active_event (E := clock 60) 0 0 (boot (clock 60)))).
  exists a1, (ret_state (amdgv_guard_set_vf_info 0 (flr_info 0) a1)).
  split_and!; vm_compute; reflexivity.
Qed.

(** Raising a threshold loses a record.  With the ring wrapped around,
    the stamps sit in slots 1, 2, 0; after [amdgv_guard_set_vf_info] raises the
    threshold from 3 to 5 the third active slot is slot 3, which holds 0: the
    most recent event is forgotten and a record dated 0 has taken its place. *)
Theorem guard_raise_threshold_loses_record :
  exists l a1 a2,
    serve (E := clock 10) 0 0 (replicate 5 (Count 0)) (boot (clock 10)) = Ret (l, a1) /\
    amdgv_guard_set_vf_info 0 (flr_info 5) a1 = Ret (0, a2) /\
    (queue <$> event_of a1 0) = Some [21 * second; 41 * second; 81 * second] /\
    (queue <$> event_of a2 0) = Some [21 * second; 41 * second; 0].
Proof.
  set (r := serve (E := clock 10) 0 0 (replicate 5 (Count 0)) (boot (clock 10))).
  exists (match r with Ret (l, _) => l | Fault => [] end), (ret_state r),
    (ret_state (amdgv_guard_set_vf_info 0 (flr_info 5) (ret_state r))).
  split_and!; vm_compute; reflexivity.
Qed.

(** A failed initialisation leaks.  When the record array of the third
    event cannot be allocated, the cleanup loop frees nothing: it never moves
    its [event] pointer from the event that failed, so the two arrays and two
    locks already created stay live although the guard itself is released. *)
Theorem guard_failed_init_leaks :
  exists a, amdgv_guard_vf_init (E := env_of 0 1 [3%nat] []) 0 bare = Ret (AMDGV_FAILURE, a) /\
    array_vf a !! 0%nat = Some None /\ os_heap (os a) = 2 /\ os_locks (os a) = 2.
Proof.
  exists (ret_state (amdgv_guard_vf_init (E := env_of 0 1 [3%nat] []) 0 bare)).
  split_and!; vm_compute; reflexivity.
Qed.
