(* ===== verification/Dlist.v ===== *)
(** * Intrusive doubly linked lists (src/libgv/core/amdgv_list.h)

    The pointer operations of libgv's list header on an explicit store, and
    the proof that on well-formed lists they are the expected operations on
    sequences.  A node is whatever identifies a [struct amdgv_list_head] in
    memory; a pointer absent from the store is NULL. *)
From S2P Require Import Prelude.
#[local] Set Warnings "-clear-no-such-hyp".

Module Dlist.
Section dlist.
Context {N : Type} {HE : EqDecision N} {HK : Countable N}.

(** The two pointer fields of every [struct amdgv_list_head]. *)
Record links := mk_links { next : gmap N N; prev : gmap N N }.

Definition set_next (a b : N) (h : links) : links := mk_links (<[a := b]> (next h)) (prev h).
Definition set_prev (a b : N) (h : links) : links := mk_links (next h) (<[a := b]> (prev h)).

Definition AMDGV_INIT_LIST_HEAD (l : N) (h : links) : links := set_prev l l (set_next l l h).

Definition list_add (entry prv nxt : N) (h : links) : links :=
  set_next prv entry (set_prev entry prv (set_next entry nxt (set_prev nxt entry h))).

(** The partial operations follow a pointer first: [None] is the NULL
    dereference. *)
Definition amdgv_list_add (entry head : N) (h : links) : option links :=
  nxt ← next h !! head; Some (list_add entry head nxt h).

Definition amdgv_list_add_tail (entry head : N) (h : links) : option links :=
  prv ← prev h !! head; Some (list_add entry prv head h).

Definition list_del (prv nxt : N) (h : links) : links := set_next prv nxt (set_prev nxt prv h).

Definition amdgv_list_del (entry : N) (h : links) : option links :=
  p ← prev h !! entry; n ← next h !! entry; Some (list_del p n h).

Definition amdgv_list_del_init (entry : N) (h : links) : option links :=
  AMDGV_INIT_LIST_HEAD entry <$> amdgv_list_del entry h.

Definition amdgv_list_move_tail (l head : N) (h : links) : option links :=
  h' ← amdgv_list_del l h; amdgv_list_add_tail l head h'.

Definition amdgv_list_empty (head : N) (h : links) : bool :=
  match next h !! head with
  | Some n => bool_decide (n = head)
  | None => true
  end.

Definition amdgv_list_move_entry (entry position : N) (h : links) : option links :=
  h' ← amdgv_list_del entry h;
  n ← next h' !! position;
  Some (list_add entry position n h').

Definition amdgv_list_swap_entries (entry1 entry2 : N) (h : links) : option links :=
  if decide (entry1 = entry2) then Some h else
  entry1_prev ← prev h !! entry1;
  entry1_next ← next h !! entry1;
  h' ← (if decide (entry1_prev = entry2) then Some h
        else amdgv_list_move_entry entry1 entry2 h);
  if decide (entry1_next = entry2) then Some h' else
  p ← prev h' !! entry1_next;
  amdgv_list_move_entry entry2 p h'.

(** [amdgv_list_for_each_entry]: the nodes from [pos] up to the head, as long
    as the body does not change the links; [None] when the walk follows a NULL
    pointer or has not come back to the head after [fuel] nodes. *)
Fixpoint walk (fuel : nat) (head pos : N) (h : links) : option (list N) :=
  if decide (pos = head) then Some [] else
  match fuel with
  | O => None
  | S f => n ← next h !! pos; l ← walk f head n h; Some (pos :: l)
  end.

Definition amdgv_list_for_each_entry (fuel : nat) (head : N) (h : links) : option (list N) :=
  n ← next h !! head; walk fuel head n h.

(** ** Lists represented by the store *)

(** From [a], the pointers run through [xs] and then to [b], in both
    directions. *)
Fixpoint chain (h : links) (a : N) (xs : list N) (b : N) : Prop :=
  match xs with
  | [] => next h !! a = Some b /\ prev h !! b = Some a
  | x :: xs' => next h !! a = Some x /\ prev h !! x = Some a /\ chain h x xs' b
  end.

Definition dlist (h : links) (head : N) (xs : list N) : Prop :=
  chain h head xs head /\ NoDup (head :: xs).

Lemma chain_app h a xs y ys b :
  chain h a (xs ++ y :: ys) b <-> chain h a xs y /\ chain h y ys b.
Proof. revert a. induction xs as [|x xs IH]; intros a; cbn; [tauto|]. rewrite IH. tauto. Qed.

(** The pointers a chain consists of. *)
Lemma chain_frame h h' a xs b :
  (forall x, x ∈ a :: xs -> next h' !! x = next h !! x) ->
  (forall x, x ∈ xs ++ [b] -> prev h' !! x = prev h !! x) ->
  chain h a xs b -> chain h' a xs b.
Proof.
  revert a. induction xs as [|x xs IH]; intros a Hn Hp; cbn.
  - intros [? ?]. rewrite Hn by set_solver. rewrite Hp by set_solver. done.
  - intros (? & ? & ?). rewrite Hn by set_solver. rewrite Hp by set_solver.
    split_and!; [done|done|]. apply IH; [set_solver|set_solver|done].
Qed.

Lemma chain_next h a xs b : chain h a xs b -> next h !! a = Some (default b (head xs)).
Proof. destruct xs; cbn; tauto. Qed.

Lemma chain_prev h a xs b : chain h a xs b -> prev h !! b = Some (default a (last xs)).
Proof.
  destruct xs as [|x xs _] using rev_ind; cbn; [tauto|].
  rewrite chain_app, last_snoc. cbn. tauto.
Qed.

Lemma chain_walk h a xs b fuel :
  chain h a xs b -> b ∉ xs -> length xs <= fuel ->
  exists n, next h !! a = Some n /\ walk fuel b n h = Some xs.
Proof.
  revert a fuel. induction xs as [|x xs IH]; intros a fuel Hc Hb Hf.
  - destruct Hc as [Hn _]. exists b. split; [done|]. destruct fuel; cbn; by rewrite decide_True.
  - destruct Hc as (Hn & _ & Hc). exists x. split; [done|].
    apply not_elem_of_cons in Hb as [Hb Hb']. destruct fuel as [|fuel]; cbn in Hf; [lia|].
    destruct (IH x fuel) as (n & Hn' & Hw); [done|done|lia|].
    cbn. rewrite decide_False by done. rewrite Hn'. cbn. by rewrite Hw.
Qed.

Lemma dlist_for_each h head xs fuel :
  dlist h head xs -> length xs <= fuel -> amdgv_list_for_each_entry fuel head h = Some xs.
Proof.
  intros [Hc Hnd] Hf. destruct (chain_walk h head xs head fuel) as (n & Hn & Hw); [done| |done|].
  { by apply NoDup_cons in Hnd as [? _]. }
  unfold amdgv_list_for_each_entry. by rewrite Hn.
Qed.

Lemma dlist_empty h head xs : dlist h head xs -> amdgv_list_empty head h = bool_decide (xs = []).
Proof.
  intros [Hc Hnd]. unfold amdgv_list_empty. rewrite (chain_next _ _ _ _ Hc).
  destruct xs as [|x xs]; cbn; [by rewrite bool_decide_eq_true_2|].
  rewrite bool_decide_eq_false_2; [done|]. intros ->. apply NoDup_cons in Hnd. set_solver.
Qed.

(** A store that agrees on the nodes of a list represents the same list. *)
Lemma dlist_frame h h' head xs :
  (forall x, x ∈ head :: xs -> next h' !! x = next h !! x) ->
  (forall x, x ∈ head :: xs -> prev h' !! x = prev h !! x) ->
  dlist h head xs -> dlist h' head xs.
Proof.
  intros Hn Hp [Hc Hnd]. split; [|done]. eapply chain_frame; [..|exact Hc]; set_solver.
Qed.

Lemma init_dlist h l : dlist (AMDGV_INIT_LIST_HEAD l h) l [].
Proof.
  split; [|by apply NoDup_singleton]. cbn. by rewrite !lookup_insert_eq.
Qed.

(** *** Insertion *)

(** The neighbours of a position in the list. *)
Definition before (a : N) (xs : list N) : N := default a (last xs).
Definition after (ys : list N) (b : N) : N := default b (head ys).

Lemma before_cons a x xs : before a (x :: xs) = before x xs.
Proof. unfold before. rewrite last_cons. by destruct (last xs). Qed.

Lemma before_elem a xs : before a xs ∈ a :: xs.
Proof.
  revert a. induction xs as [|x xs IH]; intros a; [set_solver|].
  rewrite before_cons. specialize (IH x). set_solver.
Qed.

Lemma after_elem ys b : after ys b ∈ ys ++ [b].
Proof. destruct ys; cbn; set_solver. Qed.

Lemma list_add_next e p n h x :
  next (list_add e p n h) !! x =
    if decide (x = p) then Some e else if decide (x = e) then Some n else next h !! x.
Proof.
  cbn. destruct (decide (x = p)) as [->|]; [by rewrite lookup_insert_eq|].
  rewrite lookup_insert_ne by done. destruct (decide (x = e)) as [->|]; [by rewrite lookup_insert_eq|].
  by rewrite lookup_insert_ne.
Qed.

Lemma list_add_prev e p n h x :
  prev (list_add e p n h) !! x =
    if decide (x = e) then Some p else if decide (x = n) then Some e else prev h !! x.
Proof.
  cbn. destruct (decide (x = e)) as [->|]; [by rewrite lookup_insert_eq|].
  rewrite lookup_insert_ne by done. destruct (decide (x = n)) as [->|]; [by rewrite lookup_insert_eq|].
  by rewrite lookup_insert_ne.
Qed.

Lemma list_del_next p n h x :
  next (list_del p n h) !! x = if decide (x = p) then Some n else next h !! x.
Proof.
  cbn. destruct (decide (x = p)) as [->|]; [by rewrite lookup_insert_eq|]. by rewrite lookup_insert_ne.
Qed.

Lemma list_del_prev p n h x :
  prev (list_del p n h) !! x = if decide (x = n) then Some p else prev h !! x.
Proof.
  cbn. destruct (decide (x = n)) as [->|]; [by rewrite lookup_insert_eq|]. by rewrite lookup_insert_ne.
Qed.

(** One step of a chain survives a change elsewhere. *)
Ltac ptr := rewrite ?list_add_next, ?list_add_prev, ?list_del_next, ?list_del_prev;
  repeat first [rewrite decide_True by done | rewrite decide_False by (try done; set_solver)].

Lemma chain_insert h a xs ys b e :
  chain h a (xs ++ ys) b -> NoDup (a :: xs ++ ys) -> b ∉ xs ++ ys -> e ∉ a :: xs ++ ys -> e <> b ->
  chain (list_add e (before a xs) (after ys b) h) a (xs ++ e :: ys) b.
Proof.
  revert a. induction xs as [|x xs IH]; intros a Hc Hnd Hb He Heb.
  - cbn [app] in *. apply NoDup_cons in Hnd as [Ha Hnd].
    assert (e <> a) by set_solver. cbn [chain before default last].
    split; [ptr; done|]. split; [ptr; done|].
    destruct ys as [|y ys]; cbn [chain after head default].
    + split; ptr; done.
    + destruct Hc as (_ & _ & Hc). apply NoDup_cons in Hnd as [Hy Hnd].
      split; [ptr; done|]. assert (y <> e) by set_solver.
      split; [ptr; done|].
      eapply chain_frame; [..|exact Hc]; intros z Hz; ptr; done.
  - cbn [app chain] in *. destruct Hc as (Hn & Hp & Hc).
    apply NoDup_cons in Hnd as [Ha Hnd]. rewrite before_cons.
    pose proof (before_elem x xs) as Hbe. pose proof (after_elem ys b) as Haf.
    apply NoDup_cons in Hnd as [Hx Hnd].
    assert (a <> before x xs). { intros ->. set_solver. }
    assert (x <> after ys b). { intros ->. set_solver. }
    split_and!.
    + ptr; done.
    + ptr; done.
    + apply IH; [done|by apply NoDup_cons|set_solver|set_solver|done].
Qed.

Lemma chain_remove h a xs ys b e :
  chain h a (xs ++ e :: ys) b -> NoDup (a :: xs ++ e :: ys) -> b ∉ xs ++ e :: ys ->
  chain (list_del (before a xs) (after ys b) h) a (xs ++ ys) b.
Proof.
  revert a. induction xs as [|x xs IH]; intros a Hc Hnd Hb.
  - cbn [app chain before default last] in *. destruct Hc as (Hn & Hp & Hc).
    apply NoDup_cons in Hnd as [Ha Hnd]. apply NoDup_cons in Hnd as [He Hnd].
    destruct ys as [|y ys]; cbn [chain after head default].
    + split; ptr; done.
    + destruct Hc as (_ & _ & Hc). apply NoDup_cons in Hnd as [Hy Hnd].
      split; [ptr; done|]. split; [ptr; done|].
      eapply chain_frame; [..|exact Hc]; intros z Hz; ptr; done.
  - cbn [app chain] in *. destruct Hc as (Hn & Hp & Hc).
    apply NoDup_cons in Hnd as [Ha Hnd]. rewrite before_cons.
    pose proof (before_elem x xs) as Hbe. pose proof (after_elem ys b) as Haf.
    apply NoDup_cons in Hnd as [Hx Hnd].
    assert (a <> before x xs). { intros ->. set_solver. }
    assert (x <> after ys b). { intros ->. set_solver. }
    split_and!.
    + ptr; done.
    + ptr; done.
    + apply IH; [done|by apply NoDup_cons|set_solver].
Qed.

(** ** The operations on represented lists

    A position is given by splitting the list: the node just before it is
    [before head xs], the node just after it is [after ys head]. *)

Lemma before_snoc a xs x : before a (xs ++ [x]) = x.
Proof. unfold before. by rewrite last_snoc. Qed.

Lemma dlist_after h head xs ys :
  dlist h head (xs ++ ys) -> next h !! before head xs = Some (after ys head).
Proof.
  intros [Hc _]. destruct xs as [|x xs _] using rev_ind.
  - exact (chain_next _ _ _ _ Hc).
  - rewrite before_snoc. rewrite <- app_assoc in Hc. apply chain_app in Hc as [_ Hc].
    exact (chain_next _ _ _ _ Hc).
Qed.

Lemma dlist_before h head xs ys :
  dlist h head (xs ++ ys) -> prev h !! after ys head = Some (before head xs).
Proof.
  intros [Hc _]. destruct ys as [|y ys]; cbn.
  - rewrite app_nil_r in Hc. exact (chain_prev _ _ _ _ Hc).
  - apply chain_app in Hc as [Hc _]. exact (chain_prev _ _ _ _ Hc).
Qed.

Lemma dlist_insert h head xs ys e :
  dlist h head (xs ++ ys) -> e ∉ head :: xs ++ ys ->
  dlist (list_add e (before head xs) (after ys head) h) head (xs ++ e :: ys).
Proof.
  intros [Hc Hnd] He. split.
  - apply chain_insert; [done|done| |done|set_solver]. by apply NoDup_cons in Hnd as [? _].
  - apply (NoDup_Permutation_proper _ (e :: head :: xs ++ ys)); [by solve_Permutation|].
    by apply NoDup_cons.
Qed.

Lemma dlist_add h head xs ys e :
  dlist h head (xs ++ ys) -> e ∉ head :: xs ++ ys ->
  exists h', amdgv_list_add e (before head xs) h = Some h' /\
    h' = list_add e (before head xs) (after ys head) h /\ dlist h' head (xs ++ e :: ys).
Proof.
  intros Hd He. eexists. split_and!; [|done|by apply dlist_insert].
  unfold amdgv_list_add. by rewrite (dlist_after _ _ _ _ Hd).
Qed.

Lemma dlist_add_tail h head xs ys e :
  dlist h head (xs ++ ys) -> e ∉ head :: xs ++ ys ->
  exists h', amdgv_list_add_tail e (after ys head) h = Some h' /\
    h' = list_add e (before head xs) (after ys head) h /\ dlist h' head (xs ++ e :: ys).
Proof.
  intros Hd He. eexists. split_and!; [|done|by apply dlist_insert].
  unfold amdgv_list_add_tail. by rewrite (dlist_before _ _ _ _ Hd).
Qed.

Lemma dlist_del h head xs ys e :
  dlist h head (xs ++ e :: ys) ->
  exists h', amdgv_list_del e h = Some h' /\
    h' = list_del (before head xs) (after ys head) h /\ dlist h' head (xs ++ ys).
Proof.
  intros Hd. pose proof Hd as [Hc Hnd]. eexists. split_and!; [|done|split].
  - unfold amdgv_list_del. pose proof (dlist_before _ _ _ _ Hd) as Hp. cbn in Hp. rewrite Hp. cbn.
    pose proof (dlist_after h head (xs ++ [e]) ys) as Hn. rewrite before_snoc, <- app_assoc in Hn.
    by rewrite (Hn Hd).
  - eapply chain_remove; [done|done|]. by apply NoDup_cons in Hnd as [? _].
  - apply (NoDup_Permutation_proper _ (e :: head :: xs ++ ys)) in Hnd; [|by solve_Permutation].
    by apply NoDup_cons in Hnd as [_ ?].
Qed.

Lemma dlist_del_init h head xs ys e :
  dlist h head (xs ++ e :: ys) ->
  exists h', amdgv_list_del_init e h = Some h' /\ dlist h' head (xs ++ ys) /\ dlist h' e [].
Proof.
  intros Hd. destruct (dlist_del _ _ _ _ _ Hd) as (h' & E & -> & Hd').
  exists (AMDGV_INIT_LIST_HEAD e (list_del (before head xs) (after ys head) h)).
  split_and!; [by unfold amdgv_list_del_init; rewrite E| |apply init_dlist].
  destruct Hd as [_ Hnd]. apply (NoDup_Permutation_proper _ (e :: head :: xs ++ ys)) in Hnd;
    [|by solve_Permutation]. apply NoDup_cons in Hnd as [He _].
  eapply dlist_frame; [..|exact Hd']; intros x Hx; apply lookup_insert_ne; by intros ->.
Qed.

Lemma dlist_move h head xs e ys us vs :
  dlist h head (xs ++ e :: ys) -> xs ++ ys = us ++ vs ->
  exists h', amdgv_list_move_entry e (before head us) h = Some h' /\ dlist h' head (us ++ e :: vs).
Proof.
  intros Hd Heq. destruct (dlist_del _ _ _ _ _ Hd) as (h1 & E1 & _ & Hd1).
  rewrite Heq in Hd1. destruct Hd as [_ Hnd].
  apply (NoDup_Permutation_proper _ (e :: head :: xs ++ ys)) in Hnd; [|by solve_Permutation].
  apply NoDup_cons in Hnd as [He _]. rewrite Heq in He.
  pose proof (dlist_after _ _ _ _ Hd1) as Hn. eexists. split.
  - unfold amdgv_list_move_entry. rewrite E1. cbn. rewrite Hn. reflexivity.
  - by apply dlist_insert.
Qed.

Lemma dlist_move_tail h head xs e ys :
  dlist h head (xs ++ e :: ys) ->
  exists h', amdgv_list_move_tail e head h = Some h' /\ dlist h' head (xs ++ ys ++ [e]).
Proof.
  intros Hd. destruct (dlist_del _ _ _ _ _ Hd) as (h1 & E1 & _ & Hd1).
  destruct Hd as [_ Hnd]. apply (NoDup_Permutation_proper _ (e :: head :: xs ++ ys)) in Hnd;
    [|by solve_Permutation]. apply NoDup_cons in Hnd as [He _].
  rewrite <- (app_nil_r (xs ++ ys)) in Hd1, He.
  destruct (dlist_add_tail _ _ _ _ _ Hd1 He) as (h2 & E2 & _ & Hd2).
  exists h2. split; [|by rewrite app_assoc]. unfold amdgv_list_move_tail. by rewrite E1.
Qed.

(** A list none of whose nodes is an endpoint of the changed pointers. *)
Lemma dlist_add_frame h e p n head zs :
  dlist h head zs -> e ∉ head :: zs -> p ∉ head :: zs -> n ∉ head :: zs ->
  dlist (list_add e p n h) head zs.
Proof.
  intros Hd He Hp Hn. eapply dlist_frame; [..|exact Hd]; intros x Hx; ptr; done.
Qed.

Lemma dlist_del_frame h p n head zs :
  dlist h head zs -> p ∉ head :: zs -> n ∉ head :: zs -> dlist (list_del p n h) head zs.
Proof.
  intros Hd Hp Hn. eapply dlist_frame; [..|exact Hd]; intros x Hx; ptr; done.
Qed.

(** *** Exchange of two entries *)

Lemma dlist_elem_ne h head xs a ys b zs :
  dlist h head (xs ++ a :: ys ++ b :: zs) ->
  a <> b /\ a <> head /\ b <> head /\ (a ∉ xs ++ ys ++ zs) /\ (b ∉ xs ++ ys ++ zs).
Proof.
  intros [_ Hnd]. apply (NoDup_Permutation_proper _ (a :: b :: head :: (xs ++ ys ++ zs))) in Hnd;
    [|by solve_Permutation].
  apply NoDup_cons in Hnd as [Ha Hnd]. apply NoDup_cons in Hnd as [Hb _]. set_solver.
Qed.

(** The exchange seen from the earlier of the two nodes. *)
Lemma dlist_swap_forward h head xs a ys b zs :
  dlist h head (xs ++ a :: ys ++ b :: zs) ->
  exists h', amdgv_list_swap_entries a b h = Some h' /\ dlist h' head (xs ++ b :: ys ++ a :: zs).
Proof.
  intros Hd. destruct (dlist_elem_ne _ _ _ _ _ _ _ Hd) as (Hab & Hah & Hbh & Ha & Hb).
  pose proof (dlist_before h head xs (a :: ys ++ b :: zs) Hd) as Hpa. cbn in Hpa.
  pose proof (dlist_after h head (xs ++ [a]) (ys ++ b :: zs)) as Hna.
  rewrite before_snoc, <- app_assoc in Hna. specialize (Hna Hd).
  assert (before head xs <> b) by (pose proof (before_elem head xs); set_solver).
  destruct (dlist_move h head xs a (ys ++ b :: zs) (xs ++ ys ++ [b]) zs Hd) as (h1 & E1 & Hd1).
  { by rewrite <- !app_assoc. }
  rewrite (app_assoc xs ys), before_snoc in E1.
  unfold amdgv_list_swap_entries. rewrite decide_False by done. rewrite Hpa, Hna. cbn [mbind option_bind].
  rewrite decide_False by done. rewrite E1. cbn [mbind option_bind].
  destruct ys as [|y ys].
  - cbn [after app hd_error default id]. rewrite decide_True by done. exists h1. split; [done|].
    by rewrite <- !app_assoc in Hd1.
  - assert (y <> b) by set_solver. cbn [after app hd_error default id]. rewrite decide_False by done.
    rewrite <- app_assoc in Hd1.
    pose proof (dlist_before h1 head xs ((y :: ys ++ [b]) ++ a :: zs) Hd1) as Hpy. cbn in Hpy.
    rewrite Hpy. cbn [mbind option_bind].
    destruct (dlist_move h1 head (xs ++ y :: ys) b (a :: zs) xs ((y :: ys) ++ a :: zs))
      as (h2 & E2 & Hd2).
    { assert ((xs ++ y :: ys) ++ b :: a :: zs = xs ++ ((y :: ys) ++ [b]) ++ a :: zs) as ->;
        [by rewrite <- !app_assoc|exact Hd1]. }
    { by rewrite <- app_assoc. }
    exists h2. by split.
Qed.

(** The exchange seen from the later of the two nodes. *)
Lemma dlist_swap_backward h head xs a ys b zs :
  dlist h head (xs ++ b :: ys ++ a :: zs) ->
  exists h', amdgv_list_swap_entries a b h = Some h' /\ dlist h' head (xs ++ a :: ys ++ b :: zs).
Proof.
  intros Hd. destruct (dlist_elem_ne _ _ _ _ _ _ _ Hd) as (Hba & Hbh & Hah & Hb & Ha).
  pose proof (dlist_before h head (xs ++ b :: ys) (a :: zs)) as Hpa.
  rewrite <- app_assoc in Hpa. specialize (Hpa Hd). cbn [after hd_error default id] in Hpa.
  pose proof (dlist_after h head ((xs ++ b :: ys) ++ [a]) zs) as Hna.
  rewrite before_snoc, <- !app_assoc in Hna. specialize (Hna Hd).
  assert (Hnb : after zs head <> b) by (pose proof (after_elem zs head); set_solver).
  unfold amdgv_list_swap_entries. rewrite decide_False by done. rewrite Hpa, Hna. cbn [mbind option_bind].
  enough (exists h1, (if decide (before head (xs ++ b :: ys) = b) then Some h
                      else amdgv_list_move_entry a b h) = Some h1
                  /\ dlist h1 head (xs ++ b :: a :: ys ++ zs)) as (h1 & E1 & Hd1).
  { rewrite E1. cbn [mbind option_bind]. rewrite decide_False by done.
    pose proof (dlist_before h1 head (xs ++ b :: a :: ys) zs) as Hpn.
    rewrite <- app_assoc in Hpn. specialize (Hpn Hd1). rewrite Hpn. cbn [mbind option_bind].
    assert (before head (xs ++ b :: a :: ys) = before head (xs ++ a :: ys)) as ->.
    { destruct ys as [|y ys _] using rev_ind.
      - assert (xs ++ [b; a] = (xs ++ [b]) ++ [a]) as -> by (by rewrite <- app_assoc).
        by rewrite !before_snoc.
      - assert (xs ++ b :: a :: ys ++ [y] = (xs ++ b :: a :: ys) ++ [y]) as -> by (by rewrite <- app_assoc).
        assert (xs ++ a :: ys ++ [y] = (xs ++ a :: ys) ++ [y]) as -> by (by rewrite <- app_assoc).
        by rewrite !before_snoc. }
    destruct (dlist_move h1 head xs b (a :: ys ++ zs) (xs ++ a :: ys) zs Hd1) as (h2 & E2 & Hd2).
    { by rewrite <- app_assoc. }
    exists h2. split; [done|]. by rewrite <- app_assoc in Hd2. }
  destruct (dlist_move h head (xs ++ b :: ys) a zs (xs ++ [b]) (ys ++ zs)) as (h1 & E1 & Hd1).
  { by rewrite <- app_assoc. }
  { by rewrite <- !app_assoc. }
  rewrite before_snoc in E1. rewrite <- app_assoc in Hd1.
  destruct ys as [|y ys _] using rev_ind.
  - rewrite before_snoc, decide_True by done. by exists h.
  - assert (y <> b) by set_solver.
    assert (xs ++ b :: ys ++ [y] = (xs ++ b :: ys) ++ [y]) as -> by (by rewrite <- app_assoc).
    rewrite before_snoc, decide_False by done. by exists h1.
Qed.

End dlist.
End Dlist.
