(* ===== verification/DlistProps.v ===== *)
(** * The list header implements sequences

    Main theorems of [Dlist]: every operation of amdgv_list.h, run on a store
    that holds a well-formed circular list, yields the store that holds the
    expected sequence, and walking the result visits exactly that sequence. *)
From S2P Require Import Prelude Dlist.
Import Dlist.
#[local] Set Warnings "-clear-no-such-hyp".

(** ** What an operation leaves *)

Section listed.
Context {N : Type} {HE : EqDecision N} {HK : Countable N}.
Implicit Types (h : links (N := N)) (xs ys zs l : list N).

(** The store holds the list [zs] in both directions, walking it visits
    [zs], and it is empty exactly when [zs] is. *)
Definition is_list h (head : N) zs : Prop :=
  dlist h head zs /\ amdgv_list_for_each_entry (length zs) head h = Some zs /\
  amdgv_list_empty head h = bool_decide (zs = []).

(** The pointers of the nodes outside [l] are as before. *)
Definition touches_only l h h' : Prop :=
  forall n, n ∉ l -> next h' !! n = next h !! n /\ prev h' !! n = prev h !! n.

Lemma is_list_of h head zs : dlist h head zs -> is_list h head zs.
Proof. intros Hd. split_and!; [done|by apply dlist_for_each|by apply dlist_empty]. Qed.

Lemma touches_trans l h1 h2 h3 : touches_only l h1 h2 -> touches_only l h2 h3 -> touches_only l h1 h3.
Proof. intros H1 H2 n Hn. destruct (H1 n Hn) as [<- <-], (H2 n Hn) as [-> ->]. done. Qed.

Lemma touches_list_add l e p n h : e ∈ l -> p ∈ l -> n ∈ l -> touches_only l h (list_add e p n h).
Proof.
  intros He Hp Hn x Hx. rewrite list_add_next, list_add_prev. by rewrite !decide_False by (intros ->; done).
Qed.

Lemma touches_list_del l p n h : p ∈ l -> n ∈ l -> touches_only l h (list_del p n h).
Proof.
  intros Hp Hn x Hx. rewrite list_del_next, list_del_prev. by rewrite !decide_False by (intros ->; done).
Qed.

Lemma touches_init l e h : e ∈ l -> touches_only l h (AMDGV_INIT_LIST_HEAD e h).
Proof. intros He x Hx. split; apply lookup_insert_ne; by intros ->. Qed.

Lemma before_in head xs ys : before head xs ∈ head :: xs ++ ys.
Proof. pose proof (before_elem head xs). set_solver. Qed.

Lemma after_in head xs ys : after ys head ∈ head :: xs ++ ys.
Proof. pose proof (after_elem ys head). set_solver. Qed.

Lemma del_effect h head e xs ys : dlist h head (xs ++ e :: ys) ->
  exists h1, amdgv_list_del e h = Some h1 /\ dlist h1 head (xs ++ ys) /\ touches_only (head :: xs ++ e :: ys) h h1.
Proof.
  intros Hd. destruct (dlist_del _ _ _ _ _ Hd) as (h1 & E & -> & Hd1). eexists. split_and!; [exact E|done|].
  pose proof (before_in head xs ys). pose proof (after_in head xs ys). apply touches_list_del; set_solver.
Qed.

(** Insertion after the node that ends [head :: xs], or before the one that
    begins [ys ++ [head]]. *)
Lemma add_effect h head x xs ys : dlist h head (xs ++ ys) -> x ∉ head :: xs ++ ys ->
  exists h1, amdgv_list_add x (before head xs) h = Some h1 /\ amdgv_list_add_tail x (after ys head) h = Some h1 /\
    dlist h1 head (xs ++ x :: ys) /\ touches_only (x :: head :: xs ++ ys) h h1.
Proof.
  intros Hd Hx. destruct (dlist_add _ _ _ _ _ Hd Hx) as (h1 & E1 & -> & Hd1).
  destruct (dlist_add_tail _ _ _ _ _ Hd Hx) as (h2 & E2 & -> & _). eexists. split_and!; [exact E1|exact E2|done|].
  pose proof (before_in head xs ys). pose proof (after_in head xs ys). apply touches_list_add; set_solver.
Qed.

(** C31: on a store holding the circular list [xs ++ e :: ys], deleting [e],
    re-initialising it, moving it to the tail, and inserting a fresh node after
    or before any position never follow a NULL pointer.  The store then holds,
    through both the next and the previous pointers, exactly the sequence with
    [e] removed, moved or inserted; walking the list visits that sequence,
    [amdgv_list_empty] decides whether it is empty; and no pointer of a node
    outside the list and the node inserted has changed. *)
Theorem list_operations_refine_sequences h (head e x : N) xs ys
  (Hd : dlist h head (xs ++ e :: ys)) (Hx : x ∉ head :: xs ++ e :: ys) :
  let l := head :: xs ++ e :: ys in
  (exists h1, amdgv_list_del e h = Some h1 /\ is_list h1 head (xs ++ ys) /\ touches_only l h h1) /\
  (exists h1, amdgv_list_del_init e h = Some h1 /\ is_list h1 head (xs ++ ys) /\ is_list h1 e [] /\
     touches_only l h h1) /\
  (exists h1, amdgv_list_move_tail e head h = Some h1 /\ is_list h1 head (xs ++ ys ++ [e]) /\ touches_only l h h1) /\
  (exists h1, amdgv_list_add x e h = Some h1 /\ is_list h1 head (xs ++ e :: x :: ys) /\ touches_only (x :: l) h h1) /\
  (exists h1, amdgv_list_add_tail x e h = Some h1 /\ is_list h1 head (xs ++ x :: e :: ys) /\
     touches_only (x :: l) h h1) /\
  (exists h1, amdgv_list_add_tail x head h = Some h1 /\ is_list h1 head (xs ++ e :: ys ++ [x]) /\
     touches_only (x :: l) h h1).
Proof.
  cbv zeta. destruct (del_effect _ _ _ _ _ Hd) as (h1 & E & Hd1 & Ht1). split_and!.
  - exists h1. split_and!; [done|by apply is_list_of|done].
  - destruct (dlist_del_init _ _ _ _ _ Hd) as (h2 & E2 & Hd2 & He). exists h2.
    split_and!; [done|by apply is_list_of|by apply is_list_of|].
    unfold amdgv_list_del_init in E2. rewrite E in E2. injection E2 as <-.
    eapply touches_trans; [exact Ht1|]. apply touches_init. set_solver.
  - destruct (dlist_move_tail _ _ _ _ _ Hd) as (h2 & E2 & Hd2). exists h2. split_and!; [done|by apply is_list_of|].
    unfold amdgv_list_move_tail in E2. rewrite E in E2.
    destruct (add_effect h1 head e (xs ++ ys) []) as (h3 & _ & E3 & _ & Ht3); rewrite ?app_nil_r; try done.
    { destruct Hd as [_ Hnd]. apply (NoDup_Permutation_proper _ (e :: head :: xs ++ ys)) in Hnd; [|by solve_Permutation].
      by apply NoDup_cons in Hnd as [? _]. }
    cbn in E2, E3. rewrite E3 in E2. injection E2 as <-. eapply touches_trans; [exact Ht1|].
    intros n Hn. apply Ht3. set_solver.
  - destruct (add_effect h head x (xs ++ [e]) ys) as (h2 & E2 & _ & Hd2 & Ht2); rewrite <- ?app_assoc; try done.
    rewrite before_snoc in E2. rewrite <- app_assoc in Hd2, Ht2. exists h2. split_and!; [done|by apply is_list_of|done].
  - destruct (add_effect h head x xs (e :: ys)) as (h2 & _ & E2 & Hd2 & Ht2); try done.
    exists h2. split_and!; [done|by apply is_list_of|done].
  - destruct (add_effect h head x (xs ++ e :: ys) []) as (h2 & _ & E2 & Hd2 & Ht2); rewrite ?app_nil_r; try done.
    rewrite <- app_assoc in Hd2. rewrite app_nil_r in Ht2. exists h2. split_and!; [done|by apply is_list_of|done].
Qed.
End listed.

(** [amdgv_list_swap_entries], called on two nodes of the same list in
    either order, adjacent or not, exchanges exactly these two nodes. *)
Theorem swap_entries_exchanges {N} `{Countable N} (h : links) (head a b : N) (xs ys zs : list N)
  (Hd : dlist h head (xs ++ a :: ys ++ b :: zs)) :
  (exists h1, amdgv_list_swap_entries a b h = Some h1 /\ dlist h1 head (xs ++ b :: ys ++ a :: zs)) /\
  (exists h1, amdgv_list_swap_entries b a h = Some h1 /\ dlist h1 head (xs ++ b :: ys ++ a :: zs)).
Proof. split; [by apply dlist_swap_forward|by apply dlist_swap_backward]. Qed.

(** ** Concrete lists *)

(** The store of a list built by adding its nodes at the tail. *)
Definition store_of (head : nat) (xs : list nat) : links (N := nat) :=
  foldl (fun (h : links (N := nat)) x => default h (amdgv_list_add_tail x head h))
        (AMDGV_INIT_LIST_HEAD head (mk_links ∅ ∅)) xs.

Lemma store_of_5 : dlist (store_of 0%nat [1; 2; 3; 4]%nat) 0%nat ([1] ++ 2 :: [3] ++ 4 :: [])%nat.
Proof. split; [vm_compute; tauto|]. apply (bool_decide_unpack _). vm_compute. exact I. Qed.

Lemma list_operations_refine_sequences_witness :
  exists h1, amdgv_list_move_tail 2%nat 0%nat (store_of 0%nat [1; 2; 3; 4]%nat) = Some h1 /\
    is_list h1 0%nat ([1] ++ ([3] ++ 4 :: []) ++ [2])%nat /\
    touches_only (0 :: [1] ++ 2 :: [3] ++ 4 :: [])%nat (store_of 0%nat [1; 2; 3; 4]%nat) h1.
Proof.
  apply (list_operations_refine_sequences (store_of 0%nat [1; 2; 3; 4]%nat) 0%nat 2%nat 9%nat
           [1]%nat ([3] ++ 4 :: [])%nat store_of_5).
  apply (bool_decide_unpack _). vm_compute. exact I.
Defined.

Lemma swap_entries_exchanges_witness :
  exists h1, amdgv_list_swap_entries 4%nat 2%nat (store_of 0%nat [1; 2; 3; 4]%nat) = Some h1 /\
    dlist h1 0%nat ([1] ++ 4 :: [3] ++ 2 :: [])%nat.
Proof. apply (swap_entries_exchanges _ _ _ _ _ _ _ store_of_5). Defined.
