(* ===== verification/ListScan.v ===== *)
(** * Loops over intrusive lists

    The iteration macros of src/libgv/core/amdgv_list.h for components whose
    state holds a store of list pointers, with the rule that such a loop visits
    exactly the nodes of the list.  [fuel] bounds the nodes visited: a loop
    that has not come back to the head by then is a [Fault]. *)
From S2P Require Import Prelude Dlist.
Import Dlist.
#[local] Set Warnings "-clear-no-such-hyp".

Module ListScan.
Section scan.
Context {N S : Type} `{Countable N} (lnk : S -> links (N := N)).

(** Following one pointer; NULL is a fault. *)
Definition next_of (n : N) : M S N := fun s =>
  match next (lnk s) !! n with Some m => Ret (m, s) | None => Fault end.
Definition prev_of (n : N) : M S N := fun s =>
  match prev (lnk s) !! n with Some m => Ret (m, s) | None => Fault end.

(** [amdgv_list_for_each_entry] with a [break] or [return] where [test] holds:
    the node the loop stops at, or the head when it runs to its end. *)
Fixpoint scan (fuel : nat) (head pos : N) (test : N -> M S bool) : M S N :=
  if decide (pos = head) then mret head else
  match fuel with
  | O => fault
  | Datatypes.S f =>
      b ← test pos;
      if (b : bool) then mret pos else n ← next_of pos; scan f head n test
  end.

Definition find_node (fuel : nat) (head : N) (test : N -> M S bool) : M S N :=
  n ← next_of head; scan fuel head n test.

(** The same loop with a body that runs on every node; the pointer to the next
    node is read after the body. *)
Fixpoint each (fuel : nat) (head pos : N) (body : N -> M S unit) : M S unit :=
  if decide (pos = head) then mret tt else
  match fuel with
  | O => fault
  | Datatypes.S f => _ ← body pos; n ← next_of pos; each f head n body
  end.

Definition each_node (fuel : nat) (head : N) (body : N -> M S unit) : M S unit :=
  n ← next_of head; each fuel head n body.

(** [amdgv_list_for_each_entry_safe]: the next pointer is read before. *)
Fixpoint each_safe (fuel : nat) (head pos tmp : N) (body : N -> M S unit) : M S unit :=
  if decide (pos = head) then mret tt else
  match fuel with
  | O => fault
  | Datatypes.S f => _ ← body pos; n ← next_of tmp; each_safe f head tmp n body
  end.

Definition each_node_safe (fuel : nat) (head : N) (body : N -> M S unit) : M S unit :=
  pos ← next_of head; tmp ← next_of pos; each_safe fuel head pos tmp body.

Lemma wp_next_of n m (Q : N -> S -> Prop) s :
  next (lnk s) !! n = Some m -> Q m s -> wp (next_of n) Q s.
Proof. intros E HQ. unfold wp, next_of. by rewrite E. Qed.

Lemma wp_prev_of n m (Q : N -> S -> Prop) s :
  prev (lnk s) !! n = Some m -> Q m s -> wp (prev_of n) Q s.
Proof. intros E HQ. unfold wp, prev_of. by rewrite E. Qed.

(** The node a search ends at. *)
Definition found (f : N -> bool) (head : N) (xs : list N) : N := default head (List.find f xs).

Lemma wp_scan_list (f : N -> bool) test head xs : forall fuel a s (Q : N -> S -> Prop),
  chain (lnk s) a xs head -> head ∉ xs -> length xs <= fuel ->
  (forall x, x ∈ xs -> test x s = Ret (f x, s)) ->
  Q (found f head xs) s -> wp (n ← next_of a; scan fuel head n test) Q s.
Proof.
  induction xs as [|x xs IH]; intros fuel a s Q Hc Hh Hf Ht HQ.
  - destruct Hc as [Hn _]. apply wp_bind. eapply wp_next_of; [done|].
    destruct fuel; cbn; by rewrite decide_True.
  - destruct Hc as (Hn & _ & Hc). apply not_elem_of_cons in Hh as [Hx Hh].
    apply wp_bind. eapply wp_next_of; [done|].
    destruct fuel as [|fuel]; cbn [length] in Hf; [lia|].
    cbn [scan]. rewrite decide_False by done.
    apply wp_bind. unfold wp at 1. rewrite Ht by set_solver.
    unfold found in HQ. cbn in HQ. destruct (f x); [exact HQ|].
    apply IH; [done|done|lia| |done]. intros y Hy. apply Ht. set_solver.
Qed.

Lemma wp_find_node (f : N -> bool) test head xs fuel (Q : N -> S -> Prop) s :
  dlist (lnk s) head xs -> length xs <= fuel ->
  (forall x, x ∈ xs -> test x s = Ret (f x, s)) ->
  Q (found f head xs) s -> wp (find_node fuel head test) Q s.
Proof.
  intros [Hc Hnd] Hf Ht HQ. eapply wp_scan_list; [done| |done..].
  by apply NoDup_cons in Hnd as [? _].
Qed.
(** The safe iteration: [I xs] holds while the nodes [xs] are still to come;
    the body may take its node off the list. *)
Lemma wp_each_node_safe (I : list N -> S -> Prop) fuel head body xs s :
  (forall y ys s, I (y :: ys) s -> y <> head /\ next (lnk s) !! y = Some (default head (List.hd_error ys))) ->
  (forall s, I [] s -> is_Some (next (lnk s) !! head)) ->
  (forall y ys s, I (y :: ys) s -> wp (body y) (fun _ => I ys) s) ->
  I xs s -> length xs <= fuel -> next (lnk s) !! head = Some (default head (List.hd_error xs)) ->
  wp (each_node_safe fuel head body) (fun _ => I []) s.
Proof.
  intros Hnext Hhead Hbody HI Hf Hn. unfold each_node_safe. apply wp_bind. eapply wp_next_of; [exact Hn|]. clear Hn.
  assert (forall ys s, I ys s -> exists m, next (lnk s) !! default head (List.hd_error ys) = Some m /\
    (ys <> [] -> m = default head (List.hd_error (tail ys)))) as Hstep.
  { intros [|y ys] t Ht; cbn; [destruct (Hhead _ Ht) as [m ?]; by exists m|].
    destruct (Hnext _ _ _ Ht) as [_ ?]. by eexists. }
  apply wp_bind. destruct (Hstep xs s HI) as (m & Hm & Em). eapply wp_next_of; [exact Hm|]. clear Hm.
  revert fuel Hf s m HI Em. induction xs as [|x xs IH]; intros fuel Hf s m HI Em.
  { destruct fuel; cbn; by rewrite decide_True. }
  destruct fuel as [|fuel]; cbn [length] in Hf; [lia|]. cbn. destruct (Hnext _ _ _ HI) as [Hx _].
  rewrite decide_False by done. apply wp_bind. eapply wp_mono; [by eapply Hbody|]. intros [] t Ht.
  rewrite Em by done. cbn [tail]. apply wp_bind. destruct (Hstep xs t Ht) as (n & Hn & En).
  eapply wp_next_of; [exact Hn|]. apply IH; [lia|done|done].
Qed.
End scan.

(** A search splits the list at the first hit. *)
Lemma find_split {A} (f : A -> bool) xs :
  match List.find f xs with
  | Some x => exists us vs, xs = us ++ x :: vs /\ f x = true /\ Forall (fun u => f u = false) us
  | None => Forall (fun u => f u = false) xs
  end.
Proof.
  induction xs as [|x xs IH]; cbn; [done|]. destruct (f x) eqn:E.
  - exists [], xs. by split_and!.
  - destruct (List.find f xs) as [y|].
    + destruct IH as (us & vs & -> & ? & ?). exists (x :: us), vs. split_and!; [done|done|by constructor].
    + by constructor.
Qed.

Lemma found_split {A} (f : A -> bool) head xs :
  (found f head xs = head /\ Forall (fun u => f u = false) xs) \/
  (exists x us vs, found f head xs = x /\ xs = us ++ x :: vs /\ f x = true
                   /\ Forall (fun u => f u = false) us).
Proof.
  unfold found. pose proof (find_split f xs) as Hs. destruct (List.find f xs) as [x|]; cbn.
  - right. destruct Hs as (us & vs & ? & ? & ?). exists x, us, vs. by split_and!.
  - left. by split.
Qed.
End ListScan.

(** ** Several lists in one store

    A component that keeps several intrusive lists has their heads and nodes in
    one store.  [lists h L] says the store holds the disjoint circular lists
    [L]; the operations of amdgv_list.h on one of them leave the others as
    they are. *)
Import ListScan.

Section lists.
Context {N : Type} `{Countable N}.
Implicit Types (h : links (N := N)) (hd e : N) (xs ys zs : list N) (L : list (N * list N)).

Definition nodes L : list N := flat_map (fun l => l.1 :: l.2) L.
Definition lists h L : Prop := Forall (fun l => dlist h l.1 l.2) L /\ NoDup (nodes L).

Lemma nodes_cons hd xs L : nodes ((hd, xs) :: L) = hd :: xs ++ nodes L.
Proof. done. Qed.

Lemma nodes_perm L L' : L ≡ₚ L' -> nodes L ≡ₚ nodes L'.
Proof. intros HP. unfold nodes. by rewrite HP. Qed.

Lemma lists_perm h L L' : L ≡ₚ L' -> lists h L -> lists h L'.
Proof. intros HP [Hd Hn]. split; [by rewrite <- HP|]. by rewrite <- (nodes_perm _ _ HP). Qed.

Lemma nodes_elem l x L : l ∈ L -> x ∈ l.1 :: l.2 -> x ∈ nodes L.
Proof.
  intros Hl Hx. unfold nodes. rewrite list_elem_of_In, in_flat_map. exists l. by rewrite <- !list_elem_of_In.
Qed.

(** The lists next to one that changes. *)
Lemma lists_others h h' hd xs L : lists h ((hd, xs) :: L) ->
  (forall x, x ∉ hd :: xs -> x ∈ nodes L -> next h' !! x = next h !! x /\ prev h' !! x = prev h !! x) ->
  Forall (fun l => dlist h' l.1 l.2) L.
Proof.
  intros [Hd Hn] Hsame. rewrite nodes_cons in Hn. change (hd :: xs ++ nodes L) with ((hd :: xs) ++ nodes L) in Hn.
  apply NoDup_app in Hn as (_ & Hdis & _).
  apply Forall_cons in Hd as [_ Hd]. rewrite Forall_forall in *. intros l Hl.
  eapply dlist_frame; [..|by apply Hd]; intros x Hx; apply Hsame;
    try (by eapply nodes_elem); intros Hin; apply (Hdis x Hin); by eapply nodes_elem.
Qed.

Lemma lists_head h hd xs L : lists h ((hd, xs) :: L) -> dlist h hd xs.
Proof. intros [Hd _]. by apply Forall_cons in Hd as [? _]. Qed.

Lemma lists_tail h l L : lists h (l :: L) -> lists h L.
Proof.
  destruct l as [hd xs]. intros [Hd Hn]. apply Forall_cons in Hd as [_ Hd]. split; [done|].
  rewrite nodes_cons in Hn. apply NoDup_cons in Hn as [_ Hn]. by apply NoDup_app in Hn as (_ & _ & ?).
Qed.

(** ** The operations *)

Lemma lists_init h hd L : lists h L -> hd ∉ nodes L -> lists (AMDGV_INIT_LIST_HEAD hd h) ((hd, []) :: L).
Proof.
  intros [Hd Hn] Hhd. split; [|rewrite nodes_cons; by apply NoDup_cons].
  apply Forall_cons. split; [apply init_dlist|]. rewrite Forall_forall in *. intros l Hl.
  eapply dlist_frame; [..|by apply Hd]; intros x Hx; apply lookup_insert_ne; intros ->;
    apply Hhd; by eapply nodes_elem.
Qed.

Lemma lists_change h h' hd xs xs' L e p n : lists h ((hd, xs) :: L) ->
  NoDup (nodes ((hd, xs') :: L)) -> dlist h' hd xs' ->
  (forall x, x <> e -> x <> p -> x <> n -> next h' !! x = next h !! x /\ prev h' !! x = prev h !! x) ->
  p ∈ hd :: xs -> n ∈ hd :: xs -> e ∉ nodes L -> lists h' ((hd, xs') :: L).
Proof.
  intros Hl Hnd Hd' Hsame Hp Hn He. split; [|done]. apply Forall_cons. split; [done|].
  eapply lists_others; [exact Hl|]. intros x Hx Hin. apply Hsame; by intros ->.
Qed.

Lemma add_same e p n h x : x <> e -> x <> p -> x <> n ->
  next (list_add e p n h) !! x = next h !! x /\ prev (list_add e p n h) !! x = prev h !! x.
Proof. intros. rewrite list_add_next, list_add_prev. by repeat rewrite decide_False by done. Qed.
Lemma del_same p n h x : x <> p -> x <> n ->
  next (list_del p n h) !! x = next h !! x /\ prev (list_del p n h) !! x = prev h !! x.
Proof. intros. rewrite list_del_next, list_del_prev. by repeat rewrite decide_False by done. Qed.

Lemma lists_add h hd xs ys L e : lists h ((hd, xs ++ ys) :: L) -> e ∉ nodes ((hd, xs ++ ys) :: L) ->
  exists h', amdgv_list_add e (before hd xs) h = Some h' /\ lists h' ((hd, xs ++ e :: ys) :: L).
Proof.
  intros Hl He. rewrite nodes_cons in He.
  destruct (dlist_add h hd xs ys e (lists_head _ _ _ _ Hl)) as (h' & E & -> & Hd'); [set_solver|].
  eexists. split; [exact E|]. destruct Hl as [Hd Hn].
  eapply (lists_change h _ hd (xs ++ ys) _ L e (before hd xs) (after ys hd)); [done| |done|..].
  - rewrite nodes_cons in *. apply (NoDup_Permutation_proper _ (e :: hd :: (xs ++ ys) ++ nodes L)); [by solve_Permutation|].
    by apply NoDup_cons.
  - intros x ???. by apply add_same.
  - pose proof (before_elem hd xs). set_solver.
  - pose proof (after_elem ys hd). set_solver.
  - set_solver.
Qed.

Lemma lists_add_tail h hd xs L e : lists h ((hd, xs) :: L) -> e ∉ nodes ((hd, xs) :: L) ->
  exists h', amdgv_list_add_tail e hd h = Some h' /\ lists h' ((hd, xs ++ [e]) :: L).
Proof.
  intros Hl He. pose proof (lists_add h hd xs [] L e) as Hadd. rewrite app_nil_r in Hadd.
  destruct (Hadd Hl He) as (h' & E & Hl'). exists h'. split; [|done]. rewrite <- E.
  pose proof (lists_head _ _ _ _ Hl) as Hd. unfold amdgv_list_add, amdgv_list_add_tail.
  pose proof (dlist_after h hd xs []) as Hn. pose proof (dlist_before h hd xs []) as Hp.
  rewrite app_nil_r in Hn, Hp. specialize (Hn Hd). specialize (Hp Hd). change (after [] hd) with hd in *. by rewrite Hn, Hp.
Qed.

Lemma lists_add_front h hd xs L e : lists h ((hd, xs) :: L) -> e ∉ nodes ((hd, xs) :: L) ->
  exists h', amdgv_list_add e hd h = Some h' /\ lists h' ((hd, e :: xs) :: L).
Proof. apply (lists_add h hd []). Qed.

Lemma lists_del h hd xs ys L e : lists h ((hd, xs ++ e :: ys) :: L) ->
  exists h', amdgv_list_del e h = Some h' /\ lists h' ((hd, xs ++ ys) :: L).
Proof.
  intros Hl. destruct (dlist_del h hd xs ys e (lists_head _ _ _ _ Hl)) as (h' & E & -> & Hd').
  eexists. split; [exact E|]. pose proof Hl as [_ Hn]. rewrite nodes_cons in Hn.
  apply (NoDup_Permutation_proper _ (e :: hd :: (xs ++ ys) ++ nodes L)) in Hn; [|by solve_Permutation].
  apply NoDup_cons in Hn as [He Hn].
  eapply (lists_change h _ hd (xs ++ e :: ys) _ L e (before hd xs) (after ys hd)); [done|done|done|..].
  - intros x _ ??. by apply del_same.
  - pose proof (before_elem hd xs). set_solver.
  - pose proof (after_elem ys hd). set_solver.
  - set_solver.
Qed.

(** Unlinking the head of an empty list. *)
Lemma lists_del_head h hd L : lists h ((hd, []) :: L) ->
  exists h', amdgv_list_del hd h = Some h' /\ lists h' L.
Proof.
  intros Hl. destruct (lists_head _ _ _ _ Hl) as [[Hn Hp] _]. exists (list_del hd hd h).
  unfold amdgv_list_del. rewrite Hp. cbn. rewrite Hn. split; [done|]. split; [|by apply lists_tail in Hl as [_ ?]].
  eapply lists_others; [exact Hl|]. intros x Hx _. apply del_same; set_solver.
Qed.

Lemma lists_move_tail h a xs e ys b zs L : lists h ((a, xs ++ e :: ys) :: (b, zs) :: L) ->
  exists h', amdgv_list_move_tail e b h = Some h' /\ lists h' ((a, xs ++ ys) :: (b, zs ++ [e]) :: L).
Proof.
  intros Hl. destruct (lists_del _ _ _ _ _ _ Hl) as (h1 & E1 & Hl1). pose proof Hl as [_ Hn].
  rewrite nodes_cons in Hn.
  apply (NoDup_Permutation_proper _ (e :: a :: (xs ++ ys) ++ nodes ((b, zs) :: L))) in Hn; [|by solve_Permutation].
  apply NoDup_cons in Hn as [He _]. apply (lists_perm _ _ ((b, zs) :: (a, xs ++ ys) :: L)) in Hl1; [|by constructor].
  destruct (lists_add_tail _ _ _ _ e Hl1) as (h2 & E2 & Hl2).
  { rewrite !nodes_cons in *. set_solver. }
  exists h2. unfold amdgv_list_move_tail. rewrite E1. cbn. split; [done|].
  eapply lists_perm; [|exact Hl2]. by constructor.
Qed.
End lists.
