(* ===== verification/FbPart.v ===== *)
(** * Asymmetric frame-buffer partition

    (src/libgv/core/amdgv_vfmgr.c, lines 168-712, 963-1011 and 1739-1785, and
    the back end in src/libgv/core/hw/navi3/navi32_sched.c)

    In asymmetric mode every VF can have its own frame-buffer size.  The
    ranges given to VFs and the free ranges between them are blocks of a pool
    of [AMDGV_MAX_FB_BLOCK_NUM] entries, linked in ascending offset order.
    Sizes and offsets are in MB.  Calls into other components (page table,
    PF-to-VF registers, scheduler, kernel) are recorded in [calls], newest
    first; logs and locks are left out. *)
From S2P Require Import Prelude Api Dlist ListScan.
Import Dlist ListScan.
#[local] Open Scope Z_scope.

Module FbPart.

(** ** Data *)

Inductive node := FbList | FbNode (i : nat).
#[export] Instance node_eq_dec : EqDecision node.
Proof. solve_decision. Defined.
#[export] Instance node_countable : Countable node.
Proof.
  refine (inj_countable' (fun n => match n with FbList => None | FbNode i => Some i end)
    (fun x => match x with None => FbList | Some i => FbNode i end) _).
  by intros [].
Defined.

(** [struct amdgv_vf_fb_block] without its list node. *)
Record fb_block := mk_fb {
  used : bool; allocated : bool; idx_vf : Z;
  fb_offset_tlb : Z; fb_size : Z; fb_size_tlb : Z
}.
#[export] Instance eta_fb_block : Eta fb_block := fun r =>
  mk_fb (used r) (allocated r) (idx_vf r) (fb_offset_tlb r) (fb_size r) (fb_size_tlb r).
Definition zero_fb : fb_block := mk_fb false false 0 0 0 0.

(** The fields of [struct amdgv_vf_device] the component works on. *)
Record vf_device := mk_vf {
  vd_configured : bool; vd_res_mapped : bool;
  vd_fb_offset : Z; vd_fb_size : Z;
  vd_fb_offset_tmr : Z; vd_fb_size_tmr : Z;
  vd_fb_offset_os : Z; vd_fb_size_os : Z;
  vd_mapped_fb_size : Z
}.
#[export] Instance eta_vf_device : Eta vf_device := fun r =>
  mk_vf (vd_configured r) (vd_res_mapped r) (vd_fb_offset r) (vd_fb_size r)
    (vd_fb_offset_tmr r) (vd_fb_size_tmr r) (vd_fb_offset_os r) (vd_fb_size_os r)
    (vd_mapped_fb_size r).

Definition AMDGV_MAX_FB_BLOCK_NUM : nat := 32.
Definition AMDGV_MIN_FB_SIZE_MB : Z := 2048.
Definition AMDGV_SCHED_UNAVAL : Z := 0.
Definition AMDGV_SCHED_AVAIL : Z := 1.
Definition AMDGV_SCHED_ACTIVE : Z := 2.

(** What is asked of other components. *)
Inductive call :=
| FfbmUnmap (vf : Z) (reserve : bool)    (* amdgv_ffbm_unmap_by_fcn *)
| FfbmUpdate (vf : Z)                    (* amdgv_ffbm_page_table_update_by_fcn *)
| FfbmApply                              (* amdgv_ffbm_apply_page_table *)
| SetVfFb (vf offset size : Z)           (* amdgv_gpuiov_set_vf_fb *)
| InitVfFb (vf : Z)                      (* amdgv_vfmgr_init_vf_fb *)
| CheckBadPages (vf : Z)                 (* amdgv_umc_check_and_handle_bp_in_crit_vf_fb *)
| AssignAccBits                          (* amdgv_dirtybit_assgin_acc_bits_to_vf *)
| ClearDirty (vf : Z)                    (* amdgv_dirtybit_clear_fb_dbit *)
| ClearVfFb (vf : Z)                     (* the fill of amdgv_misc_clear_vf_fb *)
| MapDevRes (vf : Z) | UnmapDevRes (vf : Z)
| SchedRemoveVf (vf : Z) | SchedStopAll | SchedStartAll.

(** Flags and settings that do not change. *)
Record config_t := mk_config {
  fb_alignment : Z;                      (* 0 selects the default *)
  ffbm_enabled : bool;
  ffbm_share_tmr : bool;
  tmr_mem_len : option Z;                (* psp.tmr_context.mem, NULL or its length *)
  asymmetric_fb_enabled : bool;
  has_asymmetric_fb_reconfig : bool;     (* the back end installed the hook *)
  max_num_vf : Z;
  flag_enable_svm : bool;
  flag_live_migration : bool;
  flag_clear_vf_fb : bool;
  uniras_enabled : bool;
  usable_fb : Z                          (* amdgv_gpuiov_get_usable_fb_size *)
}.

Record adapter := mk_adapter {
  vf_fb_block : list fb_block;
  lnk : links (N := node);
  array_vf : list vf_device;
  sched_state : list Z;                  (* sched.array_vf[].state *)
  num_vf : Z;
  tmr_size : Z;
  config : config_t;
  calls : list call
}.
#[export] Instance eta_adapter : Eta adapter := fun r =>
  mk_adapter (vf_fb_block r) (lnk r) (array_vf r) (sched_state r) (num_vf r) (tmr_size r)
    (config r) (calls r).

Definition AMDGV_INVALID_IDX_VF (s : adapter) : Z := u32 (max_num_vf (config s) + 1).
Definition AMDGV_FUNCTION_FB_ALIGNMENT (c : config_t) : Z :=
  if fb_alignment c =? 0 then 16 else fb_alignment c.
(** [roundup] in [w]-bit unsigned arithmetic. *)
Definition roundup (w x y : Z) : Z := wrap w (wrap w (x + (y - 1)) / y * y).
Definition rounddown (x y : Z) : Z := x - x mod y.

(** ** Access *)

Definition block (i : nat) : M adapter fb_block := fun s =>
  match vf_fb_block s !! i with Some b => Ret (b, s) | None => Fault end.
Definition upd_block (i : nat) (f : fb_block -> fb_block) : M adapter unit :=
  modify (fun s => s <| vf_fb_block := alter f i (vf_fb_block s) |>).
Definition link (f : links -> option links) : M adapter unit := fun s =>
  match f (lnk s) with Some h => Ret (tt, s <| lnk := h |>) | None => Fault end.
Definition vf_at {A} (l : adapter -> list A) (v : Z) : M adapter A := fun s =>
  match (if v <? 0 then None else l s !! Z.to_nat v) with Some e => Ret (e, s) | None => Fault end.
Definition vf_entry (v : Z) : M adapter vf_device := vf_at array_vf v.
Definition upd_vf (v : Z) (f : vf_device -> vf_device) : M adapter unit :=
  _ ← vf_entry v; modify (fun s => s <| array_vf := alter f (Z.to_nat v) (array_vf s) |>).
Definition vf_sched_is (v st : Z) : M adapter bool := x ← vf_at sched_state v; mret (x =? st).
Definition set_vf_sched (v st : Z) : M adapter unit :=
  _ ← vf_at sched_state v; modify (fun s => s <| sched_state := <[Z.to_nat v := st]> (sched_state s) |>).
Definition emit (c : call) : M adapter unit := modify (fun s => s <| calls := c :: calls s |>).

Definition FB_FUEL : nat := S AMDGV_MAX_FB_BLOCK_NUM.

(** A loop over [vf_fb_block_list] up to the first block satisfying [f]. *)
Definition test_block (f : fb_block -> bool) (n : node) : M adapter bool :=
  match n with
  | FbNode i => b ← block i; mret (f b)
  | FbList => fault
  end.
Definition find_block (f : fb_block -> bool) : M adapter (option nat) :=
  n ← find_node lnk FB_FUEL FbList (test_block f);
  mret (match n with FbNode i => Some i | FbList => None end).

(** [tmp_block->used && !tmp_block->allocated] for the entry a list pointer is
    taken to be part of.  When the pointer is the list head,
    [container_of] points 24 bytes before it, into the pool entry 31 that
    precedes the head in [struct amdgv_adapter]: [used] and [allocated] are the
    two low bytes of the [fb_size_tlb] of that entry. *)
Definition free_entry (n : node) : M adapter bool :=
  match n with
  | FbNode i => b ← block i; mret (used b && negb (allocated b))
  | FbList =>
      b ← block (AMDGV_MAX_FB_BLOCK_NUM - 1);
      mret (negb (Z.land (fb_size_tlb b) 255 =? 0)
            && (Z.land (Z.shiftr (fb_size_tlb b) 8) 255 =? 0))
  end.
(** Using that entry any further would write over the adapter. *)
Definition entry_of (n : node) : M adapter nat :=
  match n with FbNode i => mret i | FbList => fault end.

(** ** Blocks *)

Definition amdgv_vfmgr_find_fb_block_by_fcn (v : Z) : M adapter (option nat) :=
  find_block (fun b => allocated b && (idx_vf b =? v)).

Definition amdgv_vfmgr_insert_fb_block (i : nat) : M adapter unit :=
  b ← block i;
  tmp ← find_node lnk FB_FUEL FbList (test_block (fun t => fb_offset_tlb b <=? fb_offset_tlb t));
  p ← prev_of lnk tmp;
  link (amdgv_list_add (FbNode i) p).

Definition amdgv_vfmgr_calculate_fb_size_tlb (sz : Z) : M adapter Z :=
  c ← gets config;
  if ffbm_enabled c && ffbm_share_tmr c then
    len ← require (tmr_mem_len c);
    mret (u32 (roundup 64 (u64 (sz + u64 (TO_MBYTES len * (sz / AMDGV_MIN_FB_SIZE_MB) * 11) / 10))
                       (AMDGV_FUNCTION_FB_ALIGNMENT c)))
  else mret sz.

Fixpoint first_unused (i : nat) (l : list fb_block) : option nat :=
  match l with
  | [] => None
  | b :: l' => if used b then first_unused (S i) l' else Some i
  end.

(** Clearing an entry also sets its list pointers to NULL. *)
Definition clear_node (i : nat) (h : links (N := node)) : links (N := node) :=
  mk_links (delete (FbNode i) (next h)) (delete (FbNode i) (prev h)).

Definition amdgv_vfmgr_create_fb_block (v off sz : Z) (free : bool) : M adapter (option nat) :=
  if sz =? 0 then mret None else
  o ← gets (fun s => first_unused 0 (vf_fb_block s));
  match o with
  | None => mret None
  | Some i =>
      _ ← upd_block i (fun _ => zero_fb <| used := true |>);
      _ ← modify (fun s => s <| lnk := clear_node i (lnk s) |>);
      sz_tlb ← amdgv_vfmgr_calculate_fb_size_tlb sz;
      _ ← upd_block i (fun b => b <| allocated := negb free |> <| idx_vf := v |>
                                   <| fb_size := sz |> <| fb_size_tlb := sz_tlb |>
                                   <| fb_offset_tlb := off |>);
      _ ← link (fun h => Some (AMDGV_INIT_LIST_HEAD (FbNode i) h));
      _ ← amdgv_vfmgr_insert_fb_block i;
      mret (Some i)
  end.

Definition amdgv_vfmgr_remove_fb_block (o : option nat) : M adapter unit :=
  match o with
  | None => mret tt
  | Some i =>
      _ ← link (amdgv_list_del (FbNode i));
      upd_block i (fun b => b <| used := false |>)
  end.

(** [absorb k i]: block [k] takes over the size of block [i], which goes. *)
Definition absorb (k i : nat) : M adapter unit :=
  b ← block i;
  _ ← upd_block k (fun t => t <| fb_size := u32 (fb_size t + fb_size b) |>
                              <| fb_size_tlb := u32 (fb_size_tlb t + fb_size_tlb b) |>);
  amdgv_vfmgr_remove_fb_block (Some i).

Definition amdgv_vfmgr_merge_free_blocks (i : nat) : M adapter unit :=
  p ← prev_of lnk (FbNode i);
  fp ← free_entry p;
  i ← (if (fp : bool) then k ← entry_of p; _ ← absorb k i; mret k else mret i);
  n ← next_of lnk (FbNode i);
  fn ← free_entry n;
  when fn (k ← entry_of n; absorb i k).

Definition amdgv_vfmgr_free_fb_block (o : option nat) : M adapter unit :=
  match o with
  | None => mret tt
  | Some i =>
      _ ← upd_block i (fun b => b <| allocated := false |>);
      amdgv_vfmgr_merge_free_blocks i
  end.

Definition amdgv_vfmgr_divide_fb_block (i : nat) (sz : Z) : M adapter Z :=
  b ← block i;
  let left := u32 (fb_size b - sz) in
  if (sz =? 0) || (left =? 0) then mret 0 else
  _ ← upd_block i (fun b => b <| fb_size := sz |>);
  sz_tlb ← amdgv_vfmgr_calculate_fb_size_tlb sz;
  _ ← upd_block i (fun b => b <| fb_size_tlb := sz_tlb |>);
  inv ← gets AMDGV_INVALID_IDX_VF;
  o ← amdgv_vfmgr_create_fb_block inv (u32 (fb_offset_tlb b + sz_tlb)) left true;
  match o with
  | None => mret AMDGV_FAILURE
  | Some j => _ ← amdgv_vfmgr_merge_free_blocks j; mret 0
  end.

Definition amdgv_vfmgr_find_usable_free_block (sz : Z) : M adapter (option nat) :=
  find_block (fun b => negb (allocated b) && (sz <=? fb_size b)).

Definition amdgv_vfmgr_check_fb_assignable (v sz : Z) : M adapter bool :=
  o ← amdgv_vfmgr_find_usable_free_block sz;
  match o with
  | Some _ => mret true
  | None =>
      o ← amdgv_vfmgr_find_fb_block_by_fcn v;
      match o with
      | None => mret false
      | Some i =>
          b ← block i;
          p ← prev_of lnk (FbNode i);
          fp ← free_entry p;
          size ← (if (fp : bool) then k ← entry_of p; t ← block k; mret (u32 (fb_size b + fb_size t))
                  else mret (fb_size b));
          n ← next_of lnk (FbNode i);
          fn ← free_entry n;
          size ← (if (fn : bool) then k ← entry_of n; t ← block k; mret (u32 (size + fb_size t))
                  else mret size);
          mret (sz <=? size)
      end
  end.

(** ** Releasing a VF *)

Definition amdgv_misc_clear_vf_fb (v : Z) : M adapter Z :=
  n ← gets num_vf;
  c ← gets config;
  if (v =? AMDGV_PF_IDX) || (n <=? v) then mret 0 else
  if negb (flag_clear_vf_fb c) then mret 0 else
  e ← vf_entry v;
  if negb (vd_configured e) then mret AMDGV_FAILURE else
  _ ← emit (ClearVfFb v); mret 0.

(** The fields every release of a VF resets. *)
Definition forget_fb (e : vf_device) : vf_device :=
  mk_vf false (vd_res_mapped e) 0 0 0 0 0 0 0.

Definition unmap_dev_res (v : Z) : M adapter unit :=
  c ← gets config;
  when (negb (flag_enable_svm c)) (
    e ← vf_entry v;
    when (vd_res_mapped e) (
      _ ← upd_vf v (fun e => e <| vd_res_mapped := false |>);
      emit (UnmapDevRes v))).

Definition amdgv_vfmgr_free_vf (v : Z) : M adapter Z :=
  ret ← amdgv_misc_clear_vf_fb v;
  if negb (ret =? 0) then mret ret else
  c ← gets config;
  _ ← when (flag_live_migration c) (emit (ClearDirty v));
  act ← vf_sched_is v AMDGV_SCHED_ACTIVE;
  _ ← when act (emit (SchedRemoveVf v));
  _ ← set_vf_sched v AMDGV_SCHED_UNAVAL;
  _ ← unmap_dev_res v;
  _ ← upd_vf v forget_fb;
  _ ← when (asymmetric_fb_enabled c) (
        o ← amdgv_vfmgr_find_fb_block_by_fcn v; amdgv_vfmgr_free_fb_block o);
  _ ← when (ffbm_enabled c && negb (v =? AMDGV_PF_IDX)) (emit (FfbmUnmap v false));
  _ ← emit (SetVfFb v 0 0);
  mret 0.

Definition remove_inactive_vf (v : Z) : M adapter unit :=
  e ← vf_entry v;
  if negb (vd_configured e) then mret tt else
  un ← vf_sched_is v AMDGV_SCHED_UNAVAL;
  av ← vf_sched_is v AMDGV_SCHED_AVAIL;
  if negb un && negb av then mret tt else
  _ ← unmap_dev_res v;
  _ ← upd_vf v forget_fb;
  c ← gets config;
  _ ← when (asymmetric_fb_enabled c) (
        o ← amdgv_vfmgr_find_fb_block_by_fcn v;
        _ ← amdgv_vfmgr_free_fb_block o;
        amdgv_vfmgr_remove_fb_block o);
  _ ← emit (FfbmUnmap v false);
  _ ← emit (SetVfFb v 0 0);
  set_vf_sched v AMDGV_SCHED_UNAVAL.

Definition amdgv_vfmgr_remove_inactive_vfs : M adapter unit :=
  n ← gets num_vf;
  for_each (Z.of_nat <$> seq 0 (Z.to_nat n)) remove_inactive_vf.

(** ** Reconfiguration (navi32_sched.c) *)

Definition navi32_asymmetric_fb_block_setup (v sz : Z) (o : option nat) : M adapter Z :=
  o ← match o with
      | Some i => mret (Some i)
      | None =>
          o ← amdgv_vfmgr_find_usable_free_block sz;
          match o with
          | None => mret None
          | Some i =>
              _ ← upd_block i (fun b => b <| allocated := true |> <| idx_vf := v |>);
              _ ← amdgv_vfmgr_divide_fb_block i sz;
              mret (Some i)
          end
      end;
  match o with
  | None => _ ← amdgv_vfmgr_free_vf v; mret AMDGV_FAILURE
  | Some i =>
      b ← block i;
      tmr ← gets tmr_size;
      _ ← upd_vf v (fun e => e <| vd_fb_offset := fb_offset_tlb b |>
                               <| vd_fb_offset_tmr := fb_offset_tlb b |>
                               <| vd_fb_size := sz |>
                               <| vd_fb_size_tmr := u32 (sz + tmr) |>);
      mret 0
  end.

Definition navi32_asymmetric_fb_reconfig (v sz : Z) : M adapter Z :=
  _ ← amdgv_vfmgr_calculate_fb_size_tlb sz;
  ok ← amdgv_vfmgr_check_fb_assignable v sz;
  if negb ok then mret AMDGV_FAILURE else
  o ← amdgv_vfmgr_find_fb_block_by_fcn v;
  match o with
  | None =>
      un ← vf_sched_is v AMDGV_SCHED_UNAVAL;
      _ ← when un (_ ← set_vf_sched v AMDGV_SCHED_AVAIL;
                   upd_vf v (fun e => e <| vd_configured := true |>));
      navi32_asymmetric_fb_block_setup v sz None
  | Some i =>
      b ← block i;
      if sz <=? fb_size b then
        _ ← amdgv_vfmgr_divide_fb_block i sz;
        navi32_asymmetric_fb_block_setup v sz (Some i)
      else
        _ ← amdgv_vfmgr_free_fb_block (Some i);
        navi32_asymmetric_fb_block_setup v sz None
  end.

(** ** Requests *)

(** [sz] is 64 bits wide here and 32 bits wide in the back end. *)
Definition amdgv_vfmgr_asymmetric_fb_reconfig (v sz : Z) : M adapter Z :=
  c ← gets config;
  if v =? AMDGV_PF_IDX then mret AMDGV_FAILURE else
  if sz <? AMDGV_MIN_FB_SIZE_MB then mret AMDGV_FAILURE else
  let a := AMDGV_FUNCTION_FB_ALIGNMENT c in
  let sz := if Z.land sz (a - 1) =? 0 then sz else rounddown sz a in
  navi32_asymmetric_fb_reconfig v (u32 sz).

Definition set_vf_fb_registers (v : Z) : M adapter unit :=
  e ← vf_entry v;
  c ← gets config;
  if ffbm_enabled c && ffbm_share_tmr c
  then emit (SetVfFb v (vd_fb_offset_tmr e) (vd_fb_size_tmr e))
  else emit (SetVfFb v (vd_fb_offset e) (vd_fb_size e)).

Definition amdgv_vfmgr_set_vf_fb (v : Z) : M adapter unit :=
  e ← vf_entry v;
  if negb (vd_configured e) then mret tt else
  _ ← when (negb (v =? AMDGV_PF_IDX)) (emit (FfbmUnmap v false));
  _ ← set_vf_fb_registers v;
  _ ← emit (FfbmUpdate v);
  _ ← emit (InitVfFb v);
  c ← gets config;
  _ ← when (negb (ffbm_enabled c) && negb (uniras_enabled c)) (emit (CheckBadPages v));
  when (flag_live_migration c) (emit AssignAccBits).

Definition amdgv_vfmgr_vf_fb_resize (v sz : Z) : M adapter Z :=
  c ← gets config;
  if negb (asymmetric_fb_enabled c) || negb (has_asymmetric_fb_reconfig c) then mret AMDGV_FAILURE else
  act ← vf_sched_is v AMDGV_SCHED_ACTIVE;
  if (act : bool) then mret AMDGV_FAILURE else
  if sz =? 0 then amdgv_vfmgr_free_vf v else
  ret ← amdgv_vfmgr_asymmetric_fb_reconfig v sz;
  _ ← when (ret =? 0) (
        _ ← amdgv_vfmgr_set_vf_fb v;
        when (negb (flag_enable_svm c)) (emit (MapDevRes v)));
  mret ret.

(** The first loop of the defragmentation frees every block while it walks
    the list: the walk goes on from the links of a block that may have been
    merged away, which the unlinking leaves as they were. *)
Definition defrag_free (n : node) : M adapter unit :=
  i ← entry_of n;
  b ← block i;
  when (allocated b) (
    _ ← amdgv_vfmgr_free_fb_block (Some i);
    b ← block i;
    emit (FfbmUnmap (idx_vf b) true)).

Definition defrag_place (v : Z) : M adapter unit :=
  e ← vf_entry v;
  if negb (vd_configured e) || (vd_fb_size e =? 0) then mret tt else
  ret ← amdgv_vfmgr_asymmetric_fb_reconfig v (vd_fb_size e);
  when (ret =? 0) (set_vf_fb_registers v).

Definition amdgv_vfmgr_vf_fb_defragment : M adapter Z :=
  c ← gets config;
  if negb (asymmetric_fb_enabled c) || negb (has_asymmetric_fb_reconfig c) then mret AMDGV_FAILURE else
  _ ← emit SchedStopAll;
  _ ← each_node lnk FB_FUEL FbList defrag_free;
  n ← gets num_vf;
  _ ← for_each (Z.of_nat <$> seq 0 (Z.to_nat n)) defrag_place;
  _ ← emit FfbmApply;
  _ ← emit SchedStartAll;
  mret 0.

(** ** Default layout *)

Definition default_vf (off sz off_tmr sz_tmr : Z) (v : Z) : M adapter unit :=
  tmr ← gets tmr_size;
  let o_tmr := u32 (off_tmr + v * sz_tmr) in
  _ ← upd_vf v (fun e => e <| vd_fb_offset := u32 (off + v * sz) |> <| vd_fb_size := sz |>
                           <| vd_fb_size_tmr := u32 (sz + tmr) |> <| vd_fb_offset_tmr := o_tmr |>);
  c ← gets config;
  when (asymmetric_fb_enabled c) (
    o ← amdgv_vfmgr_find_fb_block_by_fcn v;
    _ ← amdgv_vfmgr_remove_fb_block o;
    _ ← amdgv_vfmgr_create_fb_block v o_tmr sz false;
    mret tt).

Definition amdgv_vfmgr_init_vfs_fb_config_tmr : M adapter unit :=
  c ← gets config;
  n ← gets num_vf;
  pf ← vf_entry AMDGV_PF_IDX;
  let a := AMDGV_FUNCTION_FB_ALIGNMENT c in
  _ ← demand (negb (n =? 0));
  let off := roundup 32 (vd_fb_size pf) a in
  let sz := rounddown (u32 (usable_fb c - vd_fb_size pf) / n) a in
  len ← require (tmr_mem_len c);
  let sz_tmr := u32 (roundup 64 (u64 (sz + TO_MBYTES len)) a) in
  _ ← modify (fun s => s <| tmr_size := u32 (sz_tmr - sz) |>);
  let sz_tmr := if asymmetric_fb_enabled c
    then u32 (roundup 64 (u64 (sz + u64 (TO_MBYTES len * (sz / AMDGV_MIN_FB_SIZE_MB) * 11) / 10)) a)
    else sz_tmr in
  for_each (Z.of_nat <$> seq 0 (Z.to_nat n)) (default_vf off sz off sz_tmr).

(** The frame-buffer part of [amdgv_vfmgr_set_entry], outside the restore
    phase of a live update. *)
Definition amdgv_vfmgr_set_entry_fb (v opt_offset opt_size : Z) : M adapter unit :=
  _ ← upd_vf v (fun e => e <| vd_fb_offset_os := opt_offset |> <| vd_fb_size_os := opt_size |>);
  e ← vf_entry v;
  tmr ← gets tmr_size;
  c ← gets config;
  _ ← when ((0 <? tmr) && (vd_fb_size_tmr e =? 0)) amdgv_vfmgr_init_vfs_fb_config_tmr;
  _ ← when (negb (ffbm_enabled c && ffbm_share_tmr c))
        (upd_vf v (fun e => e <| vd_fb_offset := opt_offset |> <| vd_fb_size := opt_size |>));
  e ← vf_entry v;
  if asymmetric_fb_enabled c then _ ← amdgv_vfmgr_vf_fb_resize v (vd_fb_size e); mret tt
  else amdgv_vfmgr_set_vf_fb v.

(** [AMDGV_INIT_LIST_HEAD(&adapt->vf_fb_block_list)] of [amdgv_vfmgr_sw_init]. *)
Definition fb_list_init : M adapter unit := link (fun h => Some (AMDGV_INIT_LIST_HEAD FbList h)).

End FbPart.
