(* ===== verification/FbPartInv.v ===== *)
(** * The frame-buffer partition as a list of segments

    The abstract view of [FbPart]: the partition is a sequence of segments,
    each free or owned by a VF, that tile the VF part of the frame buffer.
    [repr] relates it to the block pool and the intrusive list; the operations
    on blocks are shown to be operations on the sequence. *)
From S2P Require Import Prelude Api Dlist ListScan FbPart.
Import Dlist ListScan FbPart.
#[local] Open Scope Z_scope.
#[local] Set Warnings "-clear-no-such-hyp".

(** ** Abstract partitions *)

(** A segment: its owner, its memory in MB, and the offset and size of its
    window in the address space of the VFs. *)
Record seg := mk_seg { owner : option Z; len : Z; off : Z; tlb : Z }.
#[export] Instance eta_seg : Eta seg := fun r => mk_seg (owner r) (len r) (off r) (tlb r).

Definition is_free (g : seg) : bool := match owner g with None => true | Some _ => false end.
Fixpoint total (A : list seg) : Z := match A with [] => 0 | g :: A' => len g + total A' end.

(** No free segment next to another ([pf]: the one before is free). *)
Fixpoint normal (pf : bool) (A : list seg) : bool :=
  match A with
  | [] => true
  | g :: A' => negb (pf && is_free g) && normal (is_free g) A'
  end.

(** Adjacent free segments made one. *)
Definition join (g h : seg) : seg := g <| len := len g + len h |> <| tlb := u32 (tlb g + tlb h) |>.
Definition cons_seg (g : seg) (A : list seg) : list seg :=
  match A with
  | h :: A' => if is_free g && is_free h then join g h :: A' else g :: A
  | [] => [g]
  end.
Definition coalesce (A : list seg) : list seg := foldr cons_seg [] A.

(** A segment put in front of the first one that does not start before it. *)
Fixpoint ins (g : seg) (A : list seg) : list seg :=
  match A with
  | [] => [g]
  | h :: A' => if off g <=? off h then g :: A else h :: ins g A'
  end.

Definition owned_by (v : Z) (g : seg) : bool :=
  match owner g with Some w => w =? v | None => false end.
Definition owners (A : list seg) : list Z := A ≫= fun g => match owner g with Some v => [v] | None => [] end.
Definition share (v : Z) (A : list seg) : option seg := List.find (owned_by v) A.

(** The partition without VF [v]. *)
Definition disown (v : Z) (g : seg) : seg := if owned_by v g then g <| owner := None |> else g.
Definition release (v : Z) (A : list seg) : list seg := coalesce (disown v <$> A).

(** VF [v]'s segment cut down to [sz] MB, the rest returned; [T] gives the
    window size of a segment. *)
Definition resize_seg (v sz t : Z) (g : seg) : seg :=
  if owned_by v g then g <| len := sz |> <| tlb := t |> else g.
Definition cut (T : Z -> Z) (v sz : Z) (A : list seg) : list seg :=
  match share v A with
  | None => A
  | Some g =>
      let left := len g - sz in
      if left =? 0 then A else
      coalesce (ins (mk_seg None left (u32 (off g + T sz)) (T left)) (resize_seg v sz (T sz) <$> A))
  end.
(** The first free segment of at least [sz] MB given to VF [v]. *)
Fixpoint take_seg (v sz : Z) (A : list seg) : option (list seg) :=
  match A with
  | [] => None
  | g :: A' => if is_free g && (sz <=? len g) then Some (g <| owner := Some v |> :: A')
               else (g ::.) <$> take_seg v sz A'
  end.
Definition place (T : Z -> Z) (v sz : Z) (A : list seg) : option (list seg) :=
  cut T v sz <$> take_seg v sz A.
Definition fits (sz : Z) (A : list seg) : bool := existsb (fun g => is_free g && (sz <=? len g)) A.

(** A request of [sz] MB for VF [v]: in place when it shrinks, else in the
    first free segment large enough once its own segment is released. *)
Definition reconfig (T : Z -> Z) (v sz : Z) (A : list seg) : option (list seg) :=
  match share v A with
  | Some g => if sz <=? len g then Some (cut T v sz A) else place T v sz (release v A)
  | None => place T v sz A
  end.

(** What the other VFs have: VF, window offset, memory. *)
Definition others (v : Z) (A : list seg) : list (Z * Z * Z) :=
  A ≫= fun g => match owner g with
                | Some w => if w =? v then [] else [(w, off g, len g)]
                | None => []
                end.

(** *** Facts about them *)

Lemma total_app A B : total (A ++ B) = total A + total B.
Proof. induction A as [|g A IH]; cbn; lia. Qed.

Definition last_free (pf : bool) (A : list seg) : bool :=
  match last A with Some g => is_free g | None => pf end.

Lemma last_free_cons pf g A : last_free pf (g :: A) = last_free (is_free g) A.
Proof. unfold last_free. rewrite last_cons. by destruct (last A). Qed.

Lemma normal_app pf A B : normal pf (A ++ B) = normal pf A && normal (last_free pf A) B.
Proof.
  revert pf. induction A as [|g A IH]; intros pf; cbn; [done|].
  rewrite IH, last_free_cons. by rewrite andb_assoc.
Qed.

Lemma normal_weaken A : normal true A = true -> normal false A = true.
Proof. destruct A; cbn; [done|]. by intros [_ ->]%andb_true_iff. Qed.

Lemma normal_any pf A : normal pf A = true -> normal false A = true.
Proof. destruct pf; [apply normal_weaken|done]. Qed.

Lemma cons_seg_owned g A : is_free g = false -> cons_seg g A = g :: A.
Proof. intros E. destruct A; cbn; [done|]. by rewrite E. Qed.

Lemma cons_seg_normal g A : normal (is_free g) A = true -> cons_seg g A = g :: A.
Proof.
  destruct A as [|h A]; cbn; [done|]. intros [H _]%andb_true_iff.
  apply negb_true_iff in H. by rewrite H.
Qed.

Lemma is_free_join g h : is_free (join g h) = is_free g.
Proof. done. Qed.

Lemma join_assoc g h k : join g (join h k) = join (join g h) k.
Proof.
  unfold join, upd, wrap. cbn. f_equal; [lia|].
  rewrite Zplus_mod_idemp_r, Zplus_mod_idemp_l. f_equal. lia.
Qed.

Lemma normal_cons_seg pf g A :
  normal false A = true -> (pf && is_free g = false) -> normal pf (cons_seg g A) = true.
Proof.
  intros HA Hg. destruct A as [|h A]; [by cbn; rewrite Hg|]. cbn [cons_seg normal] in *.
  destruct (is_free g && is_free h) eqn:E; cbn [normal].
  - apply andb_true_iff in E as [Eg Eh]. rewrite is_free_join, Hg. cbn in *. by rewrite Eh, Eg in *.
  - rewrite Hg, E. cbn in *. done.
Qed.

Lemma coalesce_is_normal A : normal false (coalesce A) = true.
Proof. induction A as [|g A IH]; cbn; [done|]. by apply normal_cons_seg. Qed.

Lemma foldr_normal A X :
  normal false A = true -> last_free false A = false -> foldr cons_seg X A = A ++ X.
Proof.
  induction A as [|g A IH]; cbn; [done|]. rewrite last_free_cons. intros HA Hl.
  destruct A as [|h A].
  - cbn in *. by rewrite cons_seg_owned.
  - rewrite IH; [|by eapply normal_any|].
    + cbn in *. apply andb_true_iff in HA as [Hf _]. apply negb_true_iff in Hf. by rewrite Hf.
    + rewrite last_free_cons in Hl |- *. done.
Qed.

Lemma coalesce_normal_id pf A : normal pf A = true -> coalesce A = A.
Proof.
  revert pf. induction A as [|g A IH]; intros pf HA; cbn; [done|].
  cbn in HA. apply andb_true_iff in HA as [_ HA]. unfold coalesce in IH. rewrite (IH _ HA).
  by apply cons_seg_normal.
Qed.

Lemma coalesce_app A B : coalesce (A ++ B) = foldr cons_seg (coalesce B) A.
Proof. apply foldr_app. Qed.

Lemma coalesce_mid A g B :
  normal false B = true -> coalesce (A ++ g :: B) = foldr cons_seg (cons_seg g B) A.
Proof. intros HB. rewrite coalesce_app. cbn. fold (coalesce B). by rewrite (coalesce_normal_id _ _ HB). Qed.

Lemma cons_seg_total g A : total (cons_seg g A) = len g + total A.
Proof. destruct A as [|h A]; cbn; [done|]. destruct (is_free g && is_free h); cbn; lia. Qed.

Lemma coalesce_total A : total (coalesce A) = total A.
Proof. induction A as [|g A IH]; cbn; [done|]. rewrite cons_seg_total. unfold coalesce in IH. by rewrite IH. Qed.

Lemma owners_app A B : owners (A ++ B) = owners A ++ owners B.
Proof. unfold owners. apply bind_app. Qed.

(** In normal form there are at most one more free segments than owned ones. *)
Lemma normal_length A : forall pf, normal pf A = true ->
  (length A <= 2 * length (owners A) + (if pf then 0 else 1))%nat.
Proof.
  unfold owners. induction A as [|g A IH]; intros pf H; cbn in *; [lia|].
  apply andb_true_iff in H as [H1 H2]. specialize (IH _ H2). unfold is_free in *.
  destruct (owner g); cbn in *; destruct pf; cbn in *; try lia; done.
Qed.

(** ** Representation *)

Definition row (b : fb_block) (g : seg) : Prop :=
  used b = true /\ allocated b = negb (is_free g) /\ (forall v, owner g = Some v -> idx_vf b = v) /\
  fb_offset_tlb b = off g /\ fb_size b = len g /\ fb_size_tlb b = tlb g /\ 0 < len g.

(** The blocks [L] hold the segments [A]. *)
Fixpoint rows (B : list fb_block) (L : list nat) (A : list seg) : Prop :=
  match L, A with
  | [], [] => True
  | i :: L', g :: A' => (exists b, B !! i = Some b /\ row b g) /\ rows B L' A'
  | _, _ => False
  end.

(** The window size of [sz] MB: with a shared TMR, room for copies of it. *)
Definition window (c : config_t) (sz : Z) : Z :=
  if ffbm_enabled c && ffbm_share_tmr c then
    u32 (roundup 64 (u64 (sz + u64 (TO_MBYTES (default 0 (tmr_mem_len c)) * (sz / AMDGV_MIN_FB_SIZE_MB) * 11) / 10))
           (AMDGV_FUNCTION_FB_ALIGNMENT c))
  else sz.
Definition tmr_present (c : config_t) : Prop :=
  ffbm_enabled c && ffbm_share_tmr c = true -> tmr_mem_len c <> None.

Record repr (L : list nat) (A : list seg) (s : adapter) : Prop := {
  rp_len : length (vf_fb_block s) = AMDGV_MAX_FB_BLOCK_NUM;
  rp_list : dlist (lnk s) FbList (FbNode <$> L);
  rp_rows : rows (vf_fb_block s) L A;
  rp_unused : forall i b, vf_fb_block s !! i = Some b -> i ∉ L -> used b = false;
  rp_total : total A < 2 ^ 32;
  (* the entry in front of the list head has never been used *)
  rp_last : 31%nat ∉ L;
  rp_last_zero : forall b, vf_fb_block s !! 31%nat = Some b -> fb_size_tlb b = 0;
  rp_tmr : tmr_present (config s);
}.

Lemma rows_length B : forall L A, rows B L A -> length L = length A.
Proof. induction L as [|i L IH]; intros [|g A] H; cbn in *; try done. f_equal. by eapply IH; destruct H. Qed.

Lemma rows_app B us vs A :
  rows B (us ++ vs) A <-> exists AU AV, A = AU ++ AV /\ rows B us AU /\ rows B vs AV.
Proof.
  revert A. induction us as [|i us IH]; intros A; cbn.
  - split; [|by intros ([|] & AV & -> & ? & H)]. intros H. by exists [], A.
  - destruct A as [|g A]; [by split; [|intros ([|] & AV & ? & ? & ?)]|].
    rewrite IH. split.
    + intros (Hb & AU & AV & -> & H1 & H2). by exists (g :: AU), AV.
    + intros ([|g' AU] & AV & E & H1 & H2); [done|]. cbn in E. injection E as -> ->.
      destruct H1 as [Hb H1]. split; [done|]. by exists AU, AV.
Qed.

(** A split of the nodes and the split of the segments that goes with it. *)
Lemma rows_mid B us i vs A : rows B (us ++ i :: vs) A ->
  exists AU g AV b, A = AU ++ g :: AV /\ rows B us AU /\ B !! i = Some b /\ row b g /\ rows B vs AV.
Proof.
  intros (AU & [|g AV] & -> & H1 & H2)%rows_app; [done|]. destruct H2 as [(b & Hb & Hr) H2].
  exists AU, g, AV, b. by split_and!.
Qed.

Lemma rows_frame B B' : forall L A, (forall i, i ∈ L -> B' !! i = B !! i) -> rows B L A -> rows B' L A.
Proof.
  induction L as [|i L IH]; intros [|g A] HB H; cbn in *; try done.
  destruct H as [(b & Hb & Hr) H]. split.
  - exists b. split; [|done]. rewrite HB; [done|]. set_solver.
  - apply IH; [|done]. intros j Hj. apply HB. set_solver.
Qed.

Lemma rows_elem B L A i : rows B L A -> i ∈ L -> exists b, B !! i = Some b /\ used b = true.
Proof.
  intros H (us & vs & ->)%list_elem_of_split.
  apply rows_mid in H as (AU & g & AV & b & _ & _ & Hb & (Hu & _) & _). by exists b.
Qed.

Definition positive (A : list seg) : Prop := Forall (fun g => 0 < len g) A.

Lemma rows_positive B : forall L A, rows B L A -> positive A.
Proof.
  induction L as [|i L IH]; intros [|g A] H; cbn in *; try done; [constructor|].
  destruct H as [(b & _ & Hr) H]. constructor; [|by eapply IH]. by destruct Hr as (_ & _ & _ & _ & _ & _ & ?).
Qed.

Lemma positive_total A : positive A -> 0 <= total A.
Proof. induction 1 as [|g A Hg _ IH]; cbn; lia. Qed.

Lemma node_nodup s L A : repr L A s -> NoDup L.
Proof.
  intros [_ [_ Hnd] _ _ _ _ _ _]. apply NoDup_cons in Hnd as [_ Hnd]. by eapply NoDup_fmap_1.
Qed.

(** ** Elementary steps *)

Lemma wp_block i b (Q : fb_block -> adapter -> Prop) s :
  vf_fb_block s !! i = Some b -> Q b s -> wp (block i) Q s.
Proof. intros E HQ. unfold wp, block. by rewrite E. Qed.

Lemma alter_insert {A} (f : A -> A) (l : list A) i x : l !! i = Some x -> alter f i l = <[i := f x]> l.
Proof.
  intros E. apply list_eq. intros k. destruct (decide (k = i)) as [->|Hne].
  - rewrite list_lookup_alter_eq, list_lookup_insert_eq by (by eapply lookup_lt_Some). by rewrite E.
  - by rewrite list_lookup_alter_ne, list_lookup_insert_ne.
Qed.

Lemma wp_upd_block i b f (Q : unit -> adapter -> Prop) s :
  vf_fb_block s !! i = Some b ->
  Q tt (s <| vf_fb_block := <[i := f b]> (vf_fb_block s) |>) -> wp (upd_block i f) Q s.
Proof. intros E HQ. unfold upd_block. apply wp_modify. by rewrite (alter_insert _ _ _ _ E). Qed.

Lemma wp_fb_link f h (Q : unit -> adapter -> Prop) s :
  f (lnk s) = Some h -> Q tt (s <| lnk := h |>) -> wp (link f) Q s.
Proof. intros E HQ. unfold wp, link. by rewrite E. Qed.

(** The two list neighbours of a node. *)
Definition node_or_head (o : option nat) : node := match o with Some i => FbNode i | None => FbList end.

Lemma before_fmap us : before FbList (FbNode <$> us) = node_or_head (last us).
Proof. unfold before. rewrite fmap_last. by destruct (last us). Qed.
Lemma after_fmap vs : after (FbNode <$> vs) FbList = node_or_head (head vs).
Proof. unfold after. by destruct vs. Qed.

Lemma dlist_prev_node h us i vs : dlist h FbList (FbNode <$> us ++ i :: vs) ->
  prev h !! FbNode i = Some (node_or_head (last us)).
Proof.
  rewrite fmap_app. intros Hd. pose proof (dlist_before _ _ _ _ Hd) as Hp. cbn in Hp.
  by rewrite Hp, before_fmap.
Qed.

Lemma dlist_next_node h us i vs : dlist h FbList (FbNode <$> us ++ i :: vs) ->
  next h !! FbNode i = Some (node_or_head (head vs)).
Proof.
  intros Hd. assert (dlist h FbList ((FbNode <$> us ++ [i]) ++ (FbNode <$> vs))) as Hd'.
  { by rewrite <- fmap_app, <- app_assoc. }
  pose proof (dlist_after _ _ _ _ Hd') as Hn. by rewrite before_fmap, last_snoc, after_fmap in Hn.
Qed.

Lemma repr_short L A s : repr L A s -> (length L <= FB_FUEL)%nat.
Proof.
  intros Hr. pose proof (node_nodup _ _ _ Hr) as Hnd. destruct Hr.
  enough (length L <= length (vf_fb_block s))%nat as Hl by (rewrite rp_len0 in Hl; unfold FB_FUEL; lia).
  enough (length L <= length (seq 0 (length (vf_fb_block s))))%nat as Hl by by rewrite length_seq in Hl.
  apply submseteq_length, NoDup_submseteq; [done|].
  intros i Hi. destruct (rows_elem _ _ _ _ rp_rows0 Hi) as (b & Hb & _).
  apply elem_of_seq. apply lookup_lt_Some in Hb. lia.
Qed.

(** Looking a block up by a predicate on its contents: the blocks that do not
    satisfy it come first. *)
Lemma wp_find_block f (Q : option nat -> adapter -> Prop) L A s :
  repr L A s ->
  (forall us i vs b, L = us ++ i :: vs -> vf_fb_block s !! i = Some b -> f b = true ->
     Forall (fun u => forall c, vf_fb_block s !! u = Some c -> f c = false) us -> Q (Some i) s) ->
  (Forall (fun u => forall c, vf_fb_block s !! u = Some c -> f c = false) L -> Q None s) ->
  wp (find_block f) Q s.
Proof.
  intros Hr Hsome Hnone. pose proof (repr_short _ _ _ Hr) as Hlen. destruct Hr.
  set (g n := match n with FbNode i => match vf_fb_block s !! i with Some b => f b | None => false end
              | FbList => false end).
  assert (forall us, Forall (fun u => g u = false) (FbNode <$> us) ->
    Forall (fun u => forall c, vf_fb_block s !! u = Some c -> f c = false) us) as Hall.
  { intros us. rewrite Forall_fmap. intros HF. eapply Forall_impl; [exact HF|].
    intros u Hu c Hc. cbn in Hu. by rewrite Hc in Hu. }
  unfold find_block. apply wp_bind. eapply (wp_find_node _ g); [exact rp_list0|by rewrite length_fmap|..].
  { intros x (i & -> & Hi)%list_elem_of_fmap.
    destruct (rows_elem _ _ _ _ rp_rows0 Hi) as (b & Hb & _).
    cbn. unfold mbind, M_bind, block. by rewrite Hb. }
  apply wp_ret. destruct (found_split g FbList (FbNode <$> L)) as [[-> Hf]|(x & us & vs & -> & E & Hx & Hf)].
  - apply Hnone. by apply Hall.
  - apply fmap_app_inv in E as (us' & vs' & Eus & Evs & ->).
    destruct vs' as [|i vs']; [done|]. cbn in Evs. injection Evs as -> ->. subst us.
    cbn in Hx. destruct (vf_fb_block s !! i) as [b|] eqn:Hb; [|done].
    eapply Hsome; [done|done|done|]. by apply Hall.
Qed.

(** ** Merging and dividing *)

(** Block operations leave the rest of the adapter, and the blocks owned by
    VFs, alone. *)
Record fb_step (s s' : adapter) : Prop := {
  fs_frame : s' = s <| vf_fb_block := vf_fb_block s' |> <| lnk := lnk s' |>;
  fs_owned : forall k b, vf_fb_block s !! k = Some b -> used b = true -> allocated b = true ->
    vf_fb_block s' !! k = Some b;
}.

Lemma fb_step_refl s : fb_step s s.
Proof. split; [by destruct s|done]. Qed.
Lemma fb_step_trans s1 s2 s3 : fb_step s1 s2 -> fb_step s2 s3 -> fb_step s1 s3.
Proof. intros [H1 O1] [H2 O2]. split; [rewrite H2, H1; by destruct s1|auto]. Qed.

Lemma rows_split B us vs AU AV : length us = length AU ->
  rows B (us ++ vs) (AU ++ AV) <-> rows B us AU /\ rows B vs AV.
Proof.
  intros Hl. split.
  - intros (AU' & AV' & E & H1 & H2)%rows_app.
    apply app_inj_1 in E as [-> ->]; [done|]. pose proof (rows_length _ _ _ H1). congruence.
  - intros [H1 H2]. apply rows_app. by exists AU, AV.
Qed.

Lemma nodup_mid {A} (us : list A) k vs : NoDup (us ++ k :: vs) -> (k ∉ us) /\ (k ∉ vs) /\ NoDup (us ++ vs).
Proof.
  intros Hnd. apply NoDup_app in Hnd as (Hu & Hd & Hv). apply NoDup_cons in Hv as [Hk Hv].
  split_and!; [intros H; apply (Hd k); [done|set_solver]|done|].
  apply NoDup_app. split_and!; [done| |done]. intros x Hx Hx'. apply (Hd x); [done|set_solver].
Qed.

Lemma insert_lookup {A} (l : list A) i j x : j <> i -> <[i := x]> l !! j = l !! j.
Proof. intros. by rewrite list_lookup_insert_ne. Qed.

Lemma insert_lookup_same {A} (l : list A) i x y : l !! i = Some y -> <[i := x]> l !! i = Some x.
Proof. intros E. apply list_lookup_insert_eq. by eapply lookup_lt_Some. Qed.

Lemma rows_insert_fresh B j b L A : j ∉ L -> rows B L A -> rows (<[j := b]> B) L A.
Proof. intros Hj. apply rows_frame. intros i Hi. apply insert_lookup. by intros ->. Qed.

(** Changing one block of the list, with its segment. *)
Lemma repr_update us k vs AU g AV b g' b' s :
  length us = length AU -> repr (us ++ k :: vs) (AU ++ g :: AV) s -> vf_fb_block s !! k = Some b ->
  len g' <= len g -> (row b g -> row b' g') ->
  repr (us ++ k :: vs) (AU ++ g' :: AV) (s <| vf_fb_block := <[k := b']> (vf_fb_block s) |>).
Proof.
  intros Hl Hr Hb Hg Hrow. pose proof (node_nodup _ _ _ Hr) as Hnd.
  destruct (nodup_mid _ _ _ Hnd) as (Hku & Hkv & _). destruct Hr.
  apply rows_split in rp_rows0 as [H1 [(b0 & Hb0 & Hr) H2]]; [|done]. simplify_eq.
  split; cbn; try done; [by rewrite length_insert| | | |].
  - apply rows_split; [done|]. split; [by apply rows_insert_fresh|]. split.
    + exists b'. split; [by eapply insert_lookup_same|auto].
    + by apply rows_insert_fresh.
  - intros i c Hi Hn. rewrite insert_lookup in Hi by set_solver. by apply (rp_unused0 i).
  - rewrite total_app in *. cbn in *. lia.
  - intros c Hc. rewrite insert_lookup in Hc by set_solver. by apply rp_last_zero0.
Qed.

Lemma wp_absorb us k i vs AU g h AV s :
  length us = length AU -> is_free g = true -> is_free h = true ->
  repr (us ++ k :: i :: vs) (AU ++ g :: h :: AV) s ->
  wp (absorb k i) (fun _ s' => repr (us ++ k :: vs) (AU ++ join g h :: AV) s' /\ fb_step s s') s.
Proof.
  intros Hl Fg Fh Hr. pose proof (node_nodup _ _ _ Hr) as Hnd. destruct Hr.
  destruct (nodup_mid _ _ _ Hnd) as (Hku & Hkv & _).
  assert (NoDup ((us ++ [k]) ++ i :: vs)) as Hnd' by by rewrite <- app_assoc.
  destruct (nodup_mid _ _ _ Hnd') as (Hiu & Hiv & Hnd2).
  pose proof rp_rows0 as Hrows. apply rows_split in Hrows as [H1 Hrows]; [|done]. cbn in Hrows.
  destruct Hrows as [(bk & Hbk & Hrk) [(bi & Hbi & Hri) H2]].
  pose proof (positive_total _ (rows_positive _ _ _ H1)). pose proof (positive_total _ (rows_positive _ _ _ H2)).
  rewrite total_app in rp_total0. cbn in rp_total0.
  destruct Hrk as (Huk & Hak & Hok & Hofk & Hsk & Htk & Hpk), Hri as (Hui & Hai & Hoi & Hofi & Hsi & Hti & Hpi).
  rewrite Fg in Hak. rewrite Fh in Hai. cbn in Hak, Hai. assert (i <> k) by (intros ->; set_solver).
  unfold absorb. apply wp_bind. eapply wp_block; [exact Hbi|].
  apply wp_bind. eapply wp_upd_block; [exact Hbk|].
  cbn [amdgv_vfmgr_remove_fb_block].
  assert (dlist (lnk s) FbList ((FbNode <$> us ++ [k]) ++ FbNode i :: (FbNode <$> vs))) as Hd.
  { by rewrite <- fmap_cons, <- fmap_app, <- app_assoc. }
  destruct (dlist_del _ _ _ _ _ Hd) as (h' & Hdel & _ & Hd').
  apply wp_bind. eapply wp_fb_link; [exact Hdel|].
  eapply wp_upd_block; [cbn; rewrite insert_lookup by done; exact Hbi|]. cbn.
  split; [|split; [by destruct s|]].
  2: { intros x b Hx Hu Ha. cbn. rewrite !insert_lookup; [done|..]; intros ->; simplify_eq; congruence. }
  rewrite <- fmap_app, <- app_assoc in Hd'. cbn in Hd'.
  split; cbn; [by rewrite !length_insert|done| |..]; try done.
  - apply rows_split; [done|]. cbn. split; [|split].
    + eapply rows_frame; [|exact H1]. intros j Hj. rewrite !insert_lookup; [done|set_solver|set_solver].
    + eexists. split; [rewrite insert_lookup by done; by eapply insert_lookup_same|].
      rewrite Hsk, Hsi, Htk, Hti. split_and!; cbn; try done; [by rewrite is_free_join, Fg|..];
        rewrite ?wrap_id; unfold in_width; lia.
    + eapply rows_frame; [|exact H2]. intros j Hj. rewrite !insert_lookup; [done|set_solver|set_solver].
  - intros j b Hj Hn. destruct (decide (j = i)) as [->|Hji].
    + rewrite (insert_lookup_same _ _ _ bi) in Hj by by rewrite insert_lookup. by simplify_eq.
    + rewrite insert_lookup in Hj by done. destruct (decide (j = k)) as [->|]; [set_solver|].
      rewrite insert_lookup in Hj by done. apply (rp_unused0 j); [done|set_solver].
  - rewrite total_app. cbn. lia.
  - set_solver.
  - intros b Hb. destruct (decide (i = 31%nat)) as [->|]; [set_solver|].
    destruct (decide (k = 31%nat)) as [->|]; [set_solver|].
    rewrite !insert_lookup in Hb by done. by apply rp_last_zero0.
Qed.

Definition first_free (A : list seg) : bool := match A with g :: _ => is_free g | [] => false end.

Lemma row_free b g : row b g -> used b && negb (allocated b) = is_free g.
Proof. intros (-> & -> & _). cbn. by rewrite negb_involutive. Qed.

Lemma free_entry_head L A s : repr L A s -> free_entry FbList s = Ret (false, s).
Proof.
  intros []. destruct (lookup_lt_is_Some_2 (vf_fb_block s) 31%nat) as [b Hb].
  { rewrite rp_len0. unfold AMDGV_MAX_FB_BLOCK_NUM. lia. }
  unfold free_entry, mbind, M_bind, block. change (AMDGV_MAX_FB_BLOCK_NUM - 1)%nat with 31%nat. rewrite Hb.
  by rewrite (rp_last_zero0 _ Hb).
Qed.

Lemma free_entry_before us vs AU AV s :
  repr (us ++ vs) (AU ++ AV) s -> length us = length AU ->
  free_entry (node_or_head (last us)) s = Ret (last_free false AU, s).
Proof.
  intros Hr Hl. destruct us as [|k us _] using rev_ind.
  { destruct AU; [|done]. by eapply free_entry_head. }
  destruct AU as [|g AU _] using rev_ind; [rewrite length_app in Hl; cbn in Hl; lia|].
  rewrite !length_app in Hl. cbn in Hl. assert (length us = length AU) as Hl' by lia.
  rewrite last_snoc. unfold last_free. rewrite last_snoc. destruct Hr. rewrite <- !app_assoc in rp_rows0.
  apply rows_split in rp_rows0 as [_ [(b & Hb & Hrow) _]]; [|done].
  cbn. unfold mbind, M_bind, block. rewrite Hb. cbn. by rewrite (row_free _ _ Hrow).
Qed.

Lemma free_entry_after us vs AU AV s :
  repr (us ++ vs) (AU ++ AV) s -> length us = length AU ->
  free_entry (node_or_head (head vs)) s = Ret (first_free AV, s).
Proof.
  intros Hr Hl. pose proof Hr as []. apply rows_split in rp_rows0 as [_ H2]; [|done].
  destruct vs as [|k vs], AV as [|g AV]; cbn in H2; try done; [by eapply free_entry_head|].
  destruct H2 as [(b & Hb & Hrow) _]. cbn. unfold mbind, M_bind, block. rewrite Hb. cbn.
  by rewrite (row_free _ _ Hrow).
Qed.

(** The second half of a merge. *)
Lemma wp_absorb_next us i vs AU g AV s :
  length us = length AU -> is_free g = true ->
  repr (us ++ i :: vs) (AU ++ g :: AV) s ->
  wp (n ← next_of lnk (FbNode i); fn ← free_entry n; when fn (k ← entry_of n; absorb i k))
    (fun _ s' => exists L', repr L' (AU ++ cons_seg g AV) s' /\ fb_step s s') s.
Proof.
  intros Hl Fg Hr. apply wp_bind. eapply wp_next_of; [exact (dlist_next_node _ us i vs (rp_list _ _ _ Hr))|].
  apply wp_bind. unfold wp at 1.
  assert (repr ((us ++ [i]) ++ vs) ((AU ++ [g]) ++ AV) s) as Hr' by by rewrite <- !app_assoc.
  rewrite (free_entry_after _ _ _ _ _ Hr') by (rewrite !length_app; cbn; lia).
  destruct AV as [|h AV]; cbn [first_free cons_seg].
  { cbn. eexists. split; [exact Hr|apply fb_step_refl]. }
  rewrite Fg. destruct (is_free h) eqn:Eh; cbn [andb when].
  - destruct vs as [|k vs].
    { pose proof Hr as []. apply rows_length in rp_rows0. rewrite !length_app in rp_rows0. cbn in rp_rows0. lia. }
    cbn [head node_or_head entry_of]. apply wp_bind, wp_ret.
    eapply wp_mono; [by eapply wp_absorb; [exact Hl|..|exact Hr]|]. intros [] s' [Hs' Hf]. by eexists.
  - eexists. split; [exact Hr|apply fb_step_refl].
Qed.

Lemma wp_merge_free us i vs AU g AV s :
  length us = length AU -> normal false AU = true -> normal false AV = true -> is_free g = true ->
  repr (us ++ i :: vs) (AU ++ g :: AV) s ->
  wp (amdgv_vfmgr_merge_free_blocks i) (fun _ s' => fb_step s s' /\
    exists L', repr L' (coalesce (AU ++ g :: AV)) s') s.
Proof.
  intros Hl HU HV Fg Hr. rewrite coalesce_mid by done. unfold amdgv_vfmgr_merge_free_blocks.
  apply wp_bind. eapply wp_prev_of; [exact (dlist_prev_node _ us i vs (rp_list _ _ _ Hr))|].
  apply wp_bind. unfold wp at 1. rewrite (free_entry_before _ _ _ _ _ Hr Hl).
  destruct (last_free false AU) eqn:Hlast.
  - destruct AU as [|h AU _] using rev_ind; [done|].
    destruct us as [|k us _] using rev_ind; [rewrite length_app in Hl; cbn in Hl; lia|].
    rewrite !length_app in Hl. cbn in Hl. assert (length us = length AU) as Hl' by lia.
    unfold last_free in Hlast. rewrite last_snoc in Hlast. rewrite last_snoc. rewrite normal_app in HU.
    apply andb_true_iff in HU as [HU Hg]. cbn in Hg. rewrite Hlast, !andb_true_r in Hg. apply negb_true_iff in Hg.
    rewrite <- !app_assoc in Hr. cbn in Hr. rewrite foldr_app. cbn [foldr]. rewrite foldr_normal by done.
    cbn [node_or_head entry_of]. apply wp_bind, wp_bind, wp_ret, wp_bind.
    eapply wp_mono; [by eapply wp_absorb; [exact Hl'|..|exact Hr]|]. intros [] s1 [Hr1 Hf1]. apply wp_ret.
    eapply wp_mono; [eapply wp_absorb_next; [exact Hl'| |exact Hr1]; by rewrite is_free_join|].
    intros [] s2 (L' & Hr2 & Hf2). split; [by eapply fb_step_trans|]. exists L'.
    enough (cons_seg h (cons_seg g AV) = cons_seg (join h g) AV) as -> by done.
    destruct AV as [|k' AV]; cbn [cons_seg]; [by rewrite Hlast, Fg|].
    rewrite Fg, is_free_join, Hlast. destruct (is_free k') eqn:Ek; cbn [andb cons_seg];
      rewrite ?is_free_join, ?Fg, ?Hlast; cbn [andb]; [|done].
    by rewrite join_assoc.
  - rewrite foldr_normal by done. apply wp_bind, wp_ret.
    eapply wp_mono; [eapply wp_absorb_next; [exact Hl|exact Fg|exact Hr]|].
    intros [] s' (L' & Hs' & Hf). split; [done|]. by exists L'.
Qed.

(** *** A new block *)

Lemma fb_first_unused_spec l : forall k,
  match first_unused k l with
  | Some i => exists n b, i = (k + n)%nat /\ l !! n = Some b /\ used b = false /\
      forall m c, (m < n)%nat -> l !! m = Some c -> used c = true
  | None => forall m c, l !! m = Some c -> used c = true
  end.
Proof.
  induction l as [|b l IH]; intros k; cbn; [by intros m c|].
  destruct (used b) eqn:E.
  - specialize (IH (S k)). destruct (first_unused (S k) l) as [i|].
    + destruct IH as (n & c & -> & Hn & Hc & Hlt). exists (S n), c. split_and!; [lia|done|done|].
      intros [|m] d Hm Hd; [by cbn in Hd; simplify_eq|]. apply (Hlt m); [lia|done].
    + intros [|m] d Hd; [by cbn in Hd; simplify_eq|by apply (IH m)].
  - exists 0%nat, b. split_and!; [lia|done|done|]. intros m c Hm. lia.
Qed.

Lemma pigeon (L : list nat) n : (forall m, (m < n)%nat -> m ∈ L) -> (n <= length L)%nat.
Proof.
  intros Hm. enough (length (seq 0 n) <= length L)%nat as Hl by by rewrite length_seq in Hl.
  apply submseteq_length, NoDup_submseteq; [apply NoDup_seq|]. intros x Hx%elem_of_seq. apply Hm. lia.
Qed.

(** The pool has a free entry, which is not the last one. *)
Lemma pool_has_room (B : list fb_block) L :
  length B = AMDGV_MAX_FB_BLOCK_NUM -> (length L <= 30)%nat ->
  (forall i b, B !! i = Some b -> i ∉ L -> used b = false) ->
  exists j b, first_unused 0 B = Some j /\ (j < 31)%nat /\ B !! j = Some b /\ used b = false.
Proof.
  intros HB HL Hun. pose proof (fb_first_unused_spec B 0) as Hf.
  assert (forall m, (m < 32)%nat -> exists c, B !! m = Some c) as Hget.
  { intros m Hm. apply lookup_lt_is_Some_2. by rewrite HB. }
  assert (forall m c, B !! m = Some c -> used c = true -> m ∈ L) as Hin.
  { intros m c Hc Hu. destruct (decide (m ∈ L)) as [|Hn]; [done|]. by rewrite (Hun _ _ Hc Hn) in Hu. }
  destruct (first_unused 0 B) as [j|].
  - destruct Hf as (n & b & -> & Hb & Hu & Hlt). exists n, b. split_and!; [done| |done|done].
    enough (n <= length L)%nat by lia. apply pigeon. intros m Hm.
    assert (n < 32)%nat by (apply lookup_lt_Some in Hb; by rewrite HB in Hb).
    destruct (Hget m) as [c Hc]; [lia|]. apply (Hin m c Hc). by eapply Hlt.
  - exfalso. enough (32 <= length L)%nat by lia. apply pigeon. intros m Hm.
    destruct (Hget m Hm) as [c Hc]. apply (Hin m c Hc). by eapply Hf.
Qed.

Lemma found_after {A} (f : A -> bool) head (xs ys : list A) :
  Forall (fun x => f x = false) xs -> (forall y ys', ys = y :: ys' -> f y = true) ->
  found f head (xs ++ ys) = after ys head.
Proof.
  unfold found, after. intros Hx Hy. induction Hx as [|x xs Ex _ IH]; cbn; [|by rewrite Ex].
  destruct ys as [|y ys]; cbn; [done|]. by rewrite (Hy y ys eq_refl).
Qed.

Lemma ins_split g A : exists AU AV, A = AU ++ AV /\ ins g A = AU ++ g :: AV /\
  Forall (fun h => (off g <=? off h) = false) AU /\ (forall h A', AV = h :: A' -> (off g <=? off h) = true).
Proof.
  induction A as [|h A IH]; cbn; [by exists [], []|]. destruct (off g <=? off h) eqn:E.
  - exists [], (h :: A). split_and!; [done|done|constructor|]. by intros ? ? [= <- <-].
  - destruct IH as (AU & AV & -> & -> & HU & HV). exists (h :: AU), AV. split_and!; [done|done|by constructor|done].
Qed.

Lemma wp_calculate sz s (Q : Z -> adapter -> Prop) :
  tmr_present (config s) -> Q (window (config s) sz) s -> wp (amdgv_vfmgr_calculate_fb_size_tlb sz) Q s.
Proof.
  intros Hp HQ. unfold amdgv_vfmgr_calculate_fb_size_tlb. apply wp_bind, wp_gets. unfold window in HQ.
  unfold tmr_present in Hp. destruct (ffbm_enabled _ && _); [|done].
  destruct (tmr_mem_len (config s)) as [t|]; [|by destruct Hp]. by apply wp_bind.
Qed.

(** Inserting the filled block [j] by its offset. *)
Lemma wp_insert L A j b g s (Q : unit -> adapter -> Prop) :
  rows (vf_fb_block s) L A -> dlist (lnk s) FbList (FbNode <$> L) -> (length L <= 30)%nat -> j ∉ L ->
  vf_fb_block s !! j = Some b -> fb_offset_tlb b = off g ->
  (forall us vs AU AV h, L = us ++ vs -> A = AU ++ AV -> length us = length AU -> ins g A = AU ++ g :: AV ->
     dlist h FbList (FbNode <$> us ++ j :: vs) -> Q tt (s <| lnk := h |>)) ->
  wp (amdgv_vfmgr_insert_fb_block j) Q s.
Proof.
  intros Hrows Hd Hroom Hj Hb Hoff HQ. destruct (ins_split g A) as (AU & AV & HA & Hins & HU & HV). subst A.
  assert (exists us vs, L = us ++ vs /\ length us = length AU) as (us & vs & -> & Hl).
  { exists (take (length AU) L), (drop (length AU) L). split; [by rewrite take_drop|].
    rewrite length_take. apply rows_length in Hrows. rewrite length_app in Hrows. lia. }
  pose proof Hrows as Hrows'. apply rows_split in Hrows' as [Hus Hvs]; [|done].
  unfold amdgv_vfmgr_insert_fb_block. apply wp_bind. eapply wp_block; [exact Hb|]. rewrite Hoff.
  set (f n := match n with
    | FbNode i => match vf_fb_block s !! i with Some t => off g <=? fb_offset_tlb t | None => false end
    | FbList => false end).
  apply wp_bind. eapply (wp_find_node _ f);
    [exact Hd|rewrite length_fmap; unfold FB_FUEL, AMDGV_MAX_FB_BLOCK_NUM; lia|..].
  { intros x (i & -> & Hi)%list_elem_of_fmap. destruct (rows_elem _ _ _ _ Hrows Hi) as (c & Hc & _).
    cbn. unfold mbind, M_bind, block. by rewrite Hc. }
  assert (found f FbList (FbNode <$> us ++ vs) = after (FbNode <$> vs) FbList) as ->.
  { rewrite fmap_app. apply found_after.
    - clear -Hus HU. revert AU Hus HU. induction us as [|u us IH]; intros [|h AU] Hus HU; cbn in *; try done.
      destruct Hus as [(c & Hc & (_ & _ & _ & Ho & _)) Hus]. apply Forall_cons in HU as [Hh HU].
      constructor; [|by eapply IH]. cbn. by rewrite Hc, Ho.
    - intros y ys E. destruct vs as [|i vs]; [done|]. cbn in E. injection E as <- <-.
      destruct AV as [|h AV]; [done|]. destruct Hvs as [(c & Hc & (_ & _ & _ & Ho & _)) _].
      cbn. rewrite Hc, Ho. by eapply HV. }
  rewrite fmap_app in Hd. apply wp_bind. eapply wp_prev_of; [by apply dlist_before|].
  destruct (dlist_add (lnk s) FbList (FbNode <$> us) (FbNode <$> vs) (FbNode j)) as (h' & Hadd & _ & Hd'); [done| |].
  { apply not_elem_of_cons. split; [done|]. rewrite <- fmap_app. intros (i & Ei & Hi)%list_elem_of_fmap.
    injection Ei as ->. done. }
  eapply wp_fb_link; [exact Hadd|]. eapply HQ; [done|done|exact Hl|exact Hins|]. by rewrite fmap_app.
Qed.

Lemma dlist_fresh_node h j (L : list nat) : j ∉ L -> dlist h FbList (FbNode <$> L) ->
  dlist (AMDGV_INIT_LIST_HEAD (FbNode j) (clear_node j h)) FbList (FbNode <$> L).
Proof.
  intros Hj. assert (forall x, x ∈ FbList :: (FbNode <$> L) -> FbNode j <> x) as Hne.
  { intros x [->|(i & -> & Hi)%list_elem_of_fmap]%elem_of_cons; [done|]. intros [= ->]. done. }
  apply dlist_frame; intros x Hx; cbn; rewrite lookup_insert_ne, lookup_delete_ne by auto; done.
Qed.

Definition new_seg (c : config_t) (v o sz : Z) (fr : bool) : seg :=
  mk_seg (if fr then None else Some v) sz o (window c sz).

Lemma wp_create v o sz fr L A s :
  repr L A s -> (length L <= 30)%nat -> 0 < sz -> total A + sz < 2 ^ 32 ->
  wp (amdgv_vfmgr_create_fb_block v o sz fr)
    (fun r s' => fb_step s s' /\ exists j us vs AU AV,
       r = Some j /\ A = AU ++ AV /\ length us = length AU /\
       ins (new_seg (config s) v o sz fr) A = AU ++ new_seg (config s) v o sz fr :: AV /\
       repr (us ++ j :: vs) (AU ++ new_seg (config s) v o sz fr :: AV) s') s.
Proof.
  intros [] Hroom Hsz Htot.
  destruct (pool_has_room _ _ rp_len0 Hroom rp_unused0) as (j & b & Hj & Hj31 & Hb & Hu).
  assert (j ∉ L) as Hfresh.
  { intros Hi. destruct (rows_elem _ _ _ _ rp_rows0 Hi) as (c & Hc & ?). simplify_eq. congruence. }
  unfold amdgv_vfmgr_create_fb_block. destruct (Z.eqb_spec sz 0); [lia|].
  apply wp_bind, wp_gets. rewrite Hj. apply wp_bind. eapply wp_upd_block; [exact Hb|].
  apply wp_bind, wp_modify. apply wp_bind, wp_calculate; [exact rp_tmr0|].
  apply wp_bind. eapply wp_upd_block; [cbn; by eapply insert_lookup_same|]. cbn.
  apply wp_bind. eapply wp_fb_link; [done|]. cbn. rewrite list_insert_insert_eq.
  set (nb := mk_fb true (negb fr) v o sz (window (config s) sz)).
  assert (<[j := nb]> (vf_fb_block s) !! j = Some nb) as Hnb by by eapply insert_lookup_same.
  apply wp_bind. eapply (wp_insert L A j nb (new_seg (config s) v o sz fr)); cbn; try done.
  - by apply rows_insert_fresh.
  - by apply dlist_fresh_node.
  - intros us vs AU AV h -> -> Hl Hins Hd. apply wp_ret. split.
    { split; [by destruct s|]. cbn. intros k c Hk Huk _. rewrite insert_lookup; [done|]. intros ->. congruence. }
    exists j, us, vs, AU, AV. split_and!; [done|done|done|done|].
    apply rows_split in rp_rows0 as [H1 H2]; [|done].
    split; cbn; try done; [by rewrite length_insert| | | | |].
    + apply rows_split; [done|]. split; [by apply rows_insert_fresh; [set_solver|]|]. cbn. split.
      * exists nb. split; [done|]. split_and!; cbn; try done; destruct fr; cbn; try done. by intros w [= ->].
      * by apply rows_insert_fresh; [set_solver|].
    + intros i c Hi Hn. destruct (decide (i = j)) as [->|Hij]; [set_solver|].
      rewrite insert_lookup in Hi by done. apply (rp_unused0 i); [done|set_solver].
    + rewrite total_app in *. cbn. lia.
    + intros H. rewrite elem_of_app, elem_of_cons in H. rewrite elem_of_app in rp_last0.
      destruct H as [?|[<-|?]]; [tauto|lia|tauto].
    + intros c Hc. rewrite insert_lookup in Hc by lia. by apply rp_last_zero0.
Qed.

(** *** Dividing *)

Lemma owned_by_spec v g : owned_by v g = true <-> owner g = Some v.
Proof.
  unfold owned_by. destruct (owner g) as [w|]; [|done]. rewrite Z.eqb_eq. split; [by intros ->|by intros [= ->]].
Qed.

Lemma owners_cons g A : owners (g :: A) = match owner g with Some v => v :: owners A | None => owners A end.
Proof. unfold owners. cbn. by destruct (owner g). Qed.

Lemma not_owned v A : v ∉ owners A <-> Forall (fun g => owned_by v g = false) A.
Proof.
  induction A as [|g A IH]; [by split; [constructor|intros _; apply not_elem_of_nil]|].
  rewrite owners_cons, Forall_cons, <- IH. unfold owned_by. destruct (owner g) as [w|]; [|tauto].
  rewrite not_elem_of_cons, Z.eqb_neq. naive_solver.
Qed.

Lemma share_split v AU g AV : v ∉ owners AU -> owner g = Some v -> share v (AU ++ g :: AV) = Some g.
Proof.
  intros H%not_owned Hg%owned_by_spec. unfold share.
  induction H as [|h A Hh _ IH]; cbn; [by rewrite Hg|]. by rewrite Hh.
Qed.

Lemma share_none v A : v ∉ owners A -> share v A = None.
Proof.
  intros H%not_owned. unfold share. induction H as [|g A Hg _ IH]; cbn; [done|]. by rewrite Hg.
Qed.

(** A map that only touches VF [v]'s segment. *)
Lemma map_not_owned (f : seg -> seg) v A : (forall g, owned_by v g = false -> f g = g) -> v ∉ owners A -> f <$> A = A.
Proof. intros Hf H%not_owned. induction H as [|g A Hg _ IH]; cbn; [done|]. by rewrite Hf, IH. Qed.

Lemma map_mid (f : seg -> seg) v AU g AV : (forall h, owned_by v h = false -> f h = h) ->
  v ∉ owners AU -> v ∉ owners AV -> f <$> (AU ++ g :: AV) = AU ++ f g :: AV.
Proof. intros Hf HU HV. rewrite fmap_app. cbn. by rewrite !(map_not_owned f v). Qed.

Lemma resize_other v sz t g : owned_by v g = false -> resize_seg v sz t g = g.
Proof. unfold resize_seg. by intros ->. Qed.

Lemma disown_other v g : owned_by v g = false -> disown v g = g.
Proof. unfold disown. by intros ->. Qed.

Lemma normal_replace pf AU g h AV : is_free g = is_free h ->
  normal pf (AU ++ g :: AV) = normal pf (AU ++ h :: AV).
Proof. intros E. rewrite !normal_app. cbn. by rewrite E. Qed.

Lemma wp_divide us i vs AU g v AV sz s :
  repr (us ++ i :: vs) (AU ++ g :: AV) s -> length us = length AU -> owner g = Some v ->
  v ∉ owners AU -> v ∉ owners AV -> normal false (AU ++ g :: AV) = true ->
  0 < sz <= len g -> (length (us ++ i :: vs) <= 30)%nat ->
  wp (amdgv_vfmgr_divide_fb_block i sz)
    (fun r s' => r = 0 /\ s' = s <| vf_fb_block := vf_fb_block s' |> <| lnk := lnk s' |> /\
       (exists b, vf_fb_block s' !! i = Some b /\ fb_offset_tlb b = off g) /\
       exists L', repr L' (cut (window (config s)) v sz (AU ++ g :: AV)) s') s.
Proof.
  intros Hr Hl Hg HU HV Hn Hsz Hroom. pose proof Hr as [].
  pose proof rp_rows0 as Hrows. apply rows_split in Hrows as [H1 [(b & Hb & Hrow) H2]]; [|done].
  pose proof (positive_total _ (rows_positive _ _ _ H1)). pose proof (positive_total _ (rows_positive _ _ _ H2)).
  pose proof Hrow as (Hu & Ha & Ho & Hof & Hs & Ht & Hp).
  rewrite total_app in rp_total0. cbn in rp_total0.
  unfold cut. rewrite share_split by done. rewrite (map_mid _ v) by (try done; apply resize_other).
  unfold resize_seg. rewrite (proj2 (owned_by_spec v g)) by done.
  set (T := window (config s)). set (g' := g <| len := sz |> <| tlb := T sz |>).
  set (ng := mk_seg None (len g - sz) (u32 (off g + T sz)) (T (len g - sz))).
  unfold amdgv_vfmgr_divide_fb_block. apply wp_bind. eapply wp_block; [exact Hb|].
  rewrite Hs, wrap_id by (unfold in_width; lia).
  destruct (Z.eqb_spec sz 0); [lia|]. destruct (Z.eqb_spec (len g - sz) 0) as [E|Hne]; cbn [orb].
  { apply wp_ret. split_and!; [done|by destruct s|by exists b|]. by exists (us ++ i :: vs). }
  apply wp_bind. eapply wp_upd_block; [exact Hb|]. apply wp_bind, wp_calculate; [done|].
  apply wp_bind. eapply wp_upd_block; [cbn; by eapply insert_lookup_same|].
  cbn. rewrite list_insert_insert_eq. apply wp_bind, wp_gets, wp_bind. fold T. rewrite Hof.
  set (b' := mk_fb (used b) (allocated b) (idx_vf b) (fb_offset_tlb b) sz (T sz)).
  set (s1 := s <| vf_fb_block := <[i := b']> (vf_fb_block s) |>).
  assert (repr (us ++ i :: vs) (AU ++ g' :: AV) s1) as Hr1.
  { apply (repr_update us i vs AU g AV b g' b' s); [done|done|done|cbn; lia|]. intros _. by split_and!; cbn; try lia. }
  assert (vf_fb_block s1 !! i = Some b') as Hb1 by by eapply insert_lookup_same.
  eapply wp_mono; [eapply (wp_create _ _ (len g - sz) true); [exact Hr1|done|lia|]|].
  { rewrite total_app. cbn. lia. }
  intros o s2 (Hf2 & j & us2 & vs2 & BU & BV & -> & HA & Hl2 & Hins & Hr2).
  change (ins ng (AU ++ g' :: AV) = BU ++ ng :: BV) in Hins.
  change (repr (us2 ++ j :: vs2) (BU ++ ng :: BV) s2) in Hr2.
  assert (normal false (BU ++ BV) = true) as Hn2.
  { rewrite <- HA. by rewrite <- (normal_replace _ _ g). }
  rewrite normal_app in Hn2. apply andb_true_iff in Hn2 as [HnU HnV]. apply normal_any in HnV.
  apply wp_bind. eapply wp_mono; [eapply (wp_merge_free us2 j vs2 BU ng BV); done|].
  intros [] s3 (Hf3 & L' & Hr3). apply wp_ret. rewrite Hins.
  split; [done|]. split; [|split; [|by exists L']].
  - pose proof (fs_frame _ _ (fb_step_trans _ _ _ Hf2 Hf3)) as Hf. rewrite Hf. by destruct s.
  - exists b'. split; [|done]. apply (fs_owned _ _ Hf3); [apply (fs_owned _ _ Hf2)|..]; try done; cbn;
      rewrite Ha; unfold is_free; by rewrite Hg.
Qed.
