(* ===== verification/FbPartRun.v ===== *)
(** * Running requests on the frame-buffer partition

    The operations of [FbPart] that a request goes through, as operations on
    the sequence of segments of [FbPartInv]. *)
From S2P Require Import Prelude Api Dlist ListScan FbPart FbPartInv.
Import Dlist ListScan FbPart.
#[local] Open Scope Z_scope.
#[local] Set Warnings "-clear-no-such-hyp".

(** ** More on abstract partitions *)

Lemma coalesce_cons g A : coalesce (g :: A) = cons_seg g (coalesce A).
Proof. done. Qed.

(** *** Owners *)

Lemma owners_cons_seg g A : owners (cons_seg g A) = owners (g :: A).
Proof.
  destruct A as [|h A]; cbn [cons_seg]; [done|]. destruct (is_free g && is_free h) eqn:E; [|done].
  apply andb_true_iff in E as [Eg Eh]. rewrite !owners_cons. unfold is_free in *. cbn.
  by destruct (owner g), (owner h).
Qed.

Lemma owners_coalesce A : owners (coalesce A) = owners A.
Proof.
  induction A as [|g A IH]; [done|]. by rewrite coalesce_cons, owners_cons_seg, !owners_cons, IH.
Qed.

Lemma owners_ins g A : owner g = None -> owners (ins g A) = owners A.
Proof.
  intros Hg. destruct (ins_split g A) as (AU & AV & -> & -> & _). by rewrite !owners_app, owners_cons, Hg.
Qed.

Lemma owners_map (f : seg -> seg) A : (forall g, owner (f g) = owner g) -> owners (f <$> A) = owners A.
Proof. intros Hf. induction A as [|g A IH]; [done|]. by rewrite fmap_cons, !owners_cons, Hf, IH. Qed.

Lemma owner_resize v sz t g : owner (resize_seg v sz t g) = owner g.
Proof. unfold resize_seg. by destruct (owned_by v g). Qed.

Lemma owners_cut T v sz A : owners (cut T v sz A) = owners A.
Proof.
  unfold cut. destruct (share v A) as [g|]; [|done]. destruct (_ =? 0); [done|].
  by rewrite owners_coalesce, owners_ins, owners_map by (done || intros; apply owner_resize).
Qed.

Lemma normal_map (f : seg -> seg) A pf : (forall g, owner (f g) = owner g) -> normal pf (f <$> A) = normal pf A.
Proof.
  intros Hf. revert pf. induction A as [|g A IH]; intros pf; cbn; [done|].
  rewrite IH. unfold is_free. by rewrite Hf.
Qed.

Lemma normal_cut T v sz A : normal false A = true -> normal false (cut T v sz A) = true.
Proof.
  intros Hn. unfold cut. destruct (share v A); [|done]. destruct (_ =? 0); [done|]. apply coalesce_is_normal.
Qed.

Lemma release_owner v A : v ∉ owners (release v A).
Proof.
  unfold release. rewrite owners_coalesce.
  induction A as [|g A IH]; [apply not_elem_of_nil|]. rewrite fmap_cons, owners_cons.
  unfold disown, owned_by. destruct (owner g) as [w|] eqn:E; [|by rewrite E].
  destruct (Z.eqb_spec w v); cbn; [done|]. rewrite E. apply not_elem_of_cons. split; [congruence|done].
Qed.

Lemma release_split v AU g AV : owner g = Some v -> v ∉ owners AU -> v ∉ owners AV ->
  release v (AU ++ g :: AV) = coalesce (AU ++ (g <| owner := None |>) :: AV).
Proof.
  intros Hg HU HV. unfold release. rewrite (map_mid _ v) by (done || apply disown_other).
  unfold disown. by rewrite (proj2 (owned_by_spec v g) Hg).
Qed.

Lemma release_none v A : normal false A = true -> v ∉ owners A -> release v A = A.
Proof.
  intros HN Hv. unfold release. rewrite (map_not_owned _ v) by (done || apply disown_other).
  by eapply coalesce_normal_id.
Qed.

Lemma share_inv v A : NoDup (owners A) -> v ∈ owners A ->
  exists AU g AV, A = AU ++ g :: AV /\ owner g = Some v /\ (v ∉ owners AU) /\ (v ∉ owners AV).
Proof.
  induction A as [|g A IH]; [by intros _ ?%not_elem_of_nil|]. rewrite owners_cons.
  destruct (owner g) as [w|] eqn:E.
  - intros [Hw Hnd]%NoDup_cons. rewrite elem_of_cons. intros [->|Hv].
    + exists [], g, A. split_and!; [done|done|apply not_elem_of_nil|done].
    + destruct (IH Hnd Hv) as (AU & h & AV & -> & Hh & H1 & H2). exists (g :: AU), h, AV.
      split_and!; [done|done| |done]. rewrite owners_cons, E. apply not_elem_of_cons. split; [|done].
      intros ->. done.
  - intros Hnd Hv. destruct (IH Hnd Hv) as (AU & h & AV & -> & Hh & H1 & H2). exists (g :: AU), h, AV.
    split_and!; [done|done| |done]. by rewrite owners_cons, E.
Qed.

(** *** Placing *)

Lemma take_split v sz AU g AV :
  Forall (fun h => is_free h && (sz <=? len h) = false) AU -> is_free g = true -> sz <= len g ->
  take_seg v sz (AU ++ g :: AV) = Some (AU ++ (g <| owner := Some v |>) :: AV).
Proof.
  intros H Hg Hn. induction H as [|h A Hh _ IH]; cbn.
  - rewrite Hg. by rewrite (proj2 (Z.leb_le sz (len g)) Hn).
  - by rewrite Hh, IH.
Qed.

Lemma take_fits v sz A : match take_seg v sz A with Some _ => true | None => false end = fits sz A.
Proof.
  unfold fits. induction A as [|g A IH]; cbn; [done|]. destruct (is_free g && (sz <=? len g)); [done|].
  cbn. rewrite <- IH. by destruct (take_seg v sz A).
Qed.

Lemma place_fits T v sz A : match place T v sz A with Some _ => true | None => false end = fits sz A.
Proof. unfold place. rewrite <- (take_fits v). by destruct (take_seg v sz A). Qed.

Lemma fits_app sz A B : fits sz (A ++ B) = fits sz A || fits sz B.
Proof. apply existsb_app. Qed.

Lemma fits_false sz A : fits sz A = false <-> Forall (fun g => is_free g && (sz <=? len g) = false) A.
Proof.
  unfold fits. induction A as [|g A IH]; cbn; [by split; [constructor|]|].
  rewrite orb_false_iff, IH, Forall_cons. done.
Qed.

(** The free room directly before and after a position. *)
Definition room_before (A : list seg) : Z :=
  match last A with Some g => if is_free g then len g else 0 | None => 0 end.
Definition room_after (A : list seg) : Z :=
  match A with g :: _ => if is_free g then len g else 0 | [] => 0 end.

Lemma rooms_bounded A : positive A -> 0 <= room_before A <= total A /\ 0 <= room_after A <= total A.
Proof.
  intros Hp. split.
  - destruct A as [|g A _] using rev_ind; [by cbn|]. apply Forall_app in Hp as [HA Hg].
    apply Forall_cons in Hg as [Hg _]. apply positive_total in HA. unfold room_before.
    rewrite last_snoc, total_app. cbn. destruct (is_free g); lia.
  - destruct Hp as [|g A Hg HA]; cbn; [lia|]. apply positive_total in HA. destruct (is_free g); lia.
Qed.

Lemma fits_cons_seg sz g A : is_free g = true -> 0 <= len g -> positive A ->
  fits sz (cons_seg g A) = fits sz A || (sz <=? len g + room_after A).
Proof.
  intros Hg Hn Hp. destruct A as [|h A]; cbn; [by rewrite Hg, orb_false_r, Z.add_0_r|].
  apply Forall_cons in Hp as [Hh Hp]. rewrite Hg. destruct (is_free h) eqn:Eh; cbn; rewrite ?is_free_join, ?Hg, ?Eh; cbn.
  - destruct (Z.leb_spec sz (len g + len h)), (Z.leb_spec sz (len h)), (existsb _ _); cbn; try done; lia.
  - rewrite Z.add_0_r. by rewrite orb_comm.
Qed.

(** Releasing a segment makes a request fit exactly when it fitted before or
    fits the segment with the room around it. *)
Lemma fits_released sz AU g AV : is_free g = true -> 0 < len g -> positive AU -> positive AV ->
  normal false AU = true -> normal false AV = true ->
  fits sz (coalesce (AU ++ g :: AV)) =
  fits sz AU || fits sz AV || (sz <=? len g + room_before AU + room_after AV).
Proof.
  intros Fg Hn HpU HpV HU HV. rewrite coalesce_mid by done.
  destruct (rooms_bounded _ HpV) as [_ HrV].
  destruct (last_free false AU) eqn:Hlast.
  - destruct AU as [|h AU _] using rev_ind; [done|]. unfold last_free in Hlast. rewrite last_snoc in Hlast.
    rewrite normal_app in HU. apply andb_true_iff in HU as [HU Hg]. cbn in Hg.
    rewrite Hlast, !andb_true_r in Hg. apply negb_true_iff in Hg.
    apply Forall_app in HpU as [HpU Hph]. apply Forall_cons in Hph as [Hph _].
    unfold room_before. rewrite last_snoc, fits_app, foldr_app, Hlast. cbn [foldr].
    rewrite foldr_normal by done. rewrite fits_app.
    assert (positive (cons_seg g AV)) as Hpc.
    { destruct AV as [|k AV]; cbn; [by repeat constructor|]. apply Forall_cons in HpV as [? ?].
      destruct (is_free g && is_free k); repeat constructor; cbn; try done; lia. }
    rewrite fits_cons_seg by (done || lia). rewrite fits_cons_seg by (done || lia).
    assert (room_after (cons_seg g AV) = len g + room_after AV) as ->.
    { destruct AV as [|k AV]; cbn; [by rewrite Fg, Z.add_0_r|]. rewrite Fg. destruct (is_free k) eqn:Ek; cbn;
        rewrite ?is_free_join, Fg; cbn; lia. }
    cbn. rewrite Hlast. cbn.
    destruct (fits sz AU), (fits sz AV); cbn; rewrite ?orb_true_r; try done.
    destruct (Z.leb_spec sz (len h)), (Z.leb_spec sz (len g + room_after AV)),
      (Z.leb_spec sz (len h + (len g + room_after AV))), (Z.leb_spec sz (len g + len h + room_after AV));
      cbn; try done; lia.
  - rewrite foldr_normal, fits_app, fits_cons_seg by (done || lia).
    assert (room_before AU = 0) as ->.
    { unfold room_before. unfold last_free in Hlast. destruct (last AU); [by rewrite Hlast|done]. }
    rewrite Z.add_0_r. by destruct (fits sz AU), (fits sz AV).
Qed.

(** ** Invariant of the component *)

Definition vf_id (s : adapter) (v : Z) : Prop := 0 <= v < num_vf s.

Record fb_inv (A : list seg) (s : adapter) : Prop := {
  fi_repr : exists L, repr L A s;
  fi_normal : normal false A = true;
  fi_owners : NoDup (owners A);
  fi_ids : Forall (vf_id s) (owners A);
  fi_num : 0 <= num_vf s <= 14;
  fi_vfs : length (array_vf s) = Z.to_nat AMDGV_MAX_VF_SLOT;
  fi_sched : length (sched_state s) = Z.to_nat AMDGV_MAX_VF_SLOT;
}.

Lemma ids_bound (l : list Z) n : NoDup l -> 0 <= n -> Forall (fun v => 0 <= v < n) l -> (length l <= Z.to_nat n)%nat.
Proof.
  intros Hnd Hn Hl. enough (length l <= length (Z.of_nat <$> seq 0 (Z.to_nat n)))%nat as H
    by by rewrite length_fmap, length_seq in H.
  apply submseteq_length, NoDup_submseteq; [done|]. intros x Hx.
  rewrite Forall_forall in Hl. apply Hl in Hx. apply list_elem_of_fmap. exists (Z.to_nat x).
  split; [lia|]. apply elem_of_seq. lia.
Qed.

(** The number of blocks never comes near the size of the pool. *)
Lemma blocks_bound A s : fb_inv A s -> (length A <= 29)%nat.
Proof.
  intros []. pose proof (normal_length _ _ fi_normal0) as Hl. cbn in Hl.
  pose proof (ids_bound _ _ fi_owners0 (proj1 fi_num0) fi_ids0). lia.
Qed.

Lemma repr_positive L A s : repr L A s -> positive A.
Proof. intros H. eapply rows_positive, rp_rows, H. Qed.

(** *** Loops decide by the segments *)

Lemma wp_find_seg f (p : seg -> bool) (Q : option nat -> adapter -> Prop) L A s :
  repr L A s -> (forall b g, row b g -> f b = p g) ->
  (forall us i vs AU g AV, L = us ++ i :: vs -> A = AU ++ g :: AV -> length us = length AU ->
     p g = true -> Forall (fun h => p h = false) AU -> Q (Some i) s) ->
  (Forall (fun h => p h = false) A -> Q None s) ->
  wp (find_block f) Q s.
Proof.
  intros Hr Hfp Hs Hn. pose proof (rp_rows _ _ _ Hr) as Hrows0.
  assert (forall us AU, rows (vf_fb_block s) us AU ->
    Forall (fun u => forall c, vf_fb_block s !! u = Some c -> f c = false) us ->
    Forall (fun h => p h = false) AU) as Hall.
  { induction us as [|u us IH]; intros [|h AU] H1 Hus; cbn in H1; try done.
    apply Forall_cons in Hus as [Hu Hus]. destruct H1 as [(c & Hc & Hrc) H1].
    constructor; [rewrite <- (Hfp _ _ Hrc); by apply Hu|by apply IH]. }
  eapply wp_find_block; [exact Hr| |].
  - intros us i vs b -> Hb Hf Hus. pose proof Hrows0 as Hrows.
    apply rows_mid in Hrows as (AU & g & AV & b' & -> & H1 & Hb' & Hrow & H2). simplify_eq.
    apply (Hs us i vs AU g AV); [done|done|by eapply rows_length|by rewrite <- (Hfp _ _ Hrow)|by eapply Hall].
  - intros HL. apply Hn. by eapply Hall.
Qed.

Lemma row_owned v b g : row b g -> allocated b && (idx_vf b =? v) = owned_by v g.
Proof.
  intros (_ & -> & Ho & _). unfold is_free, owned_by. destruct (owner g) as [w|]; cbn; [|done].
  by rewrite (Ho w eq_refl).
Qed.

Lemma row_usable sz b g : row b g -> negb (allocated b) && (sz <=? fb_size b) = is_free g && (sz <=? len g).
Proof. intros (_ & -> & _ & _ & -> & _). by rewrite negb_involutive. Qed.

Lemma wp_find_by_fcn v (Q : option nat -> adapter -> Prop) L A s :
  repr L A s -> NoDup (owners A) ->
  (forall us i vs AU g AV, L = us ++ i :: vs -> A = AU ++ g :: AV -> length us = length AU ->
     owner g = Some v -> v ∉ owners AU -> v ∉ owners AV -> Q (Some i) s) ->
  (v ∉ owners A -> Q None s) ->
  wp (amdgv_vfmgr_find_fb_block_by_fcn v) Q s.
Proof.
  intros Hr Hnd Hs Hn. unfold amdgv_vfmgr_find_fb_block_by_fcn.
  eapply (wp_find_seg _ (owned_by v)); [exact Hr|exact (row_owned v)| |].
  - intros us i vs AU g AV -> -> Hl Hg%owned_by_spec HU%not_owned.
    apply (Hs us i vs AU g AV); try done. rewrite owners_app, owners_cons, Hg in Hnd.
    by destruct (nodup_mid _ _ _ Hnd) as (_ & ? & _).
  - intros H%not_owned. by apply Hn.
Qed.

Lemma wp_find_usable sz (Q : option nat -> adapter -> Prop) L A s :
  repr L A s ->
  (forall us i vs AU g AV, L = us ++ i :: vs -> A = AU ++ g :: AV -> length us = length AU ->
     is_free g = true -> sz <= len g -> fits sz AU = false -> Q (Some i) s) ->
  (fits sz A = false -> Q None s) ->
  wp (amdgv_vfmgr_find_usable_free_block sz) Q s.
Proof.
  intros Hr Hs Hn. unfold amdgv_vfmgr_find_usable_free_block.
  eapply (wp_find_seg _ (fun g => is_free g && (sz <=? len g))); [exact Hr|exact (row_usable sz)| |].
  - intros us i vs AU g AV -> -> Hl [Hf Hle%Z.leb_le]%andb_true_iff HU%fits_false. by eapply Hs.
  - intros H%fits_false. by apply Hn.
Qed.

(** ** The check *)

Definition accepts (T : Z -> Z) (v sz : Z) (A : list seg) : bool :=
  match reconfig T v sz A with Some _ => true | None => false end.

Lemma accepts_new T v sz A : v ∉ owners A -> accepts T v sz A = fits sz A.
Proof. intros H. unfold accepts, reconfig. rewrite share_none by done. apply place_fits. Qed.

Lemma normal_mid pf AU g AV : normal pf (AU ++ g :: AV) = true ->
  normal false AU = true /\ normal false AV = true.
Proof.
  rewrite normal_app. intros [HU HV]%andb_true_iff. cbn in HV. apply andb_true_iff in HV as [_ HV].
  split; by eapply normal_any.
Qed.

Lemma accepts_own T v sz AU g AV : owner g = Some v -> v ∉ owners AU -> v ∉ owners AV ->
  0 < len g -> positive AU -> positive AV -> normal false (AU ++ g :: AV) = true ->
  accepts T v sz (AU ++ g :: AV) =
  fits sz AU || fits sz AV || (sz <=? len g + room_before AU + room_after AV).
Proof.
  intros Hg H1 H2 Hn HpU HpV [HU HV]%normal_mid. unfold accepts, reconfig. rewrite share_split by done.
  destruct (rooms_bounded _ HpU) as [? _]. destruct (rooms_bounded _ HpV) as [_ ?].
  destruct (Z.leb_spec sz (len g)).
  - destruct (Z.leb_spec sz (len g + room_before AU + room_after AV)); [by rewrite orb_true_r|lia].
  - rewrite release_split, place_fits by done. by rewrite fits_released.
Qed.

(** What a neighbouring block is, by the neighbouring segment; a segment that
    no VF can absorb stands for the end of the list. *)
Definition no_seg : seg := mk_seg (Some 0) 1 0 0.

Lemma neighbour_before us vs AU AV s : repr (us ++ vs) (AU ++ AV) s -> length us = length AU ->
  let g := default no_seg (last AU) in
  free_entry (node_or_head (last us)) s = Ret (is_free g, s) /\
  (is_free g = true -> exists k b, last us = Some k /\ vf_fb_block s !! k = Some b /\ fb_size b = len g) /\
  (if is_free g then len g else 0) = room_before AU /\ 0 < len g /\ (is_free g = false \/ len g = room_before AU).
Proof.
  intros Hr Hl g. pose proof (repr_positive _ _ _ Hr) as Hp.
  rewrite (free_entry_before _ _ _ _ _ Hr Hl). subst g. unfold room_before, last_free.
  destruct AU as [|g AU _] using rev_ind; [cbn; split_and!; [done..|lia|by left]|].
  rewrite last_snoc. cbn [default from_option id]. apply Forall_app in Hp as [Hp _].
  apply Forall_app in Hp as [_ Hg]. apply Forall_cons in Hg as [Hg _].
  split_and!; [done| |done|done|by destruct (is_free g); auto]. intros _.
  destruct us as [|k us _] using rev_ind; [rewrite length_app in Hl; cbn in Hl; lia|].
  rewrite !length_app in Hl. cbn in Hl. assert (length us = length AU) as Hl' by lia.
  pose proof (rp_rows _ _ _ Hr) as Hrows. rewrite <- !app_assoc in Hrows.
  apply rows_split in Hrows as [_ [(b & Hb & Hrow) _]]; [|done].
  exists k, b. rewrite last_snoc. split_and!; [done|done|]. by destruct Hrow as (_ & _ & _ & _ & ? & _).
Qed.

Lemma neighbour_after us vs AU AV s : repr (us ++ vs) (AU ++ AV) s -> length us = length AU ->
  let g := default no_seg (head AV) in
  free_entry (node_or_head (head vs)) s = Ret (is_free g, s) /\
  (is_free g = true -> exists k b, head vs = Some k /\ vf_fb_block s !! k = Some b /\ fb_size b = len g) /\
  (if is_free g then len g else 0) = room_after AV /\ 0 < len g /\ (is_free g = false \/ len g = room_after AV).
Proof.
  intros Hr Hl g. pose proof (repr_positive _ _ _ Hr) as Hp.
  rewrite (free_entry_after _ _ _ _ _ Hr Hl). subst g.
  destruct AV as [|g AV]; [cbn; split_and!; [done..|lia|by left]|].
  cbn. apply Forall_app in Hp as [_ Hp]. apply Forall_cons in Hp as [Hg _].
  split_and!; [done| |done|done|by destruct (is_free g); auto]. intros _.
  pose proof (rp_rows _ _ _ Hr) as Hrows. apply rows_split in Hrows as [_ H2]; [|done].
  destruct vs as [|k vs]; [done|]. destruct H2 as [(b & Hb & Hrow) _].
  exists k, b. split_and!; [done|done|]. by destruct Hrow as (_ & _ & _ & _ & ? & _).
Qed.

(** The room found next to a block. *)
Lemma wp_room (o : option nat) g size (Q : Z -> adapter -> Prop) s :
  (is_free g = true -> exists k b, o = Some k /\ vf_fb_block s !! k = Some b /\ fb_size b = len g) ->
  0 <= size -> 0 < len g -> (is_free g = true -> size + len g < 2 ^ 32) ->
  Q (size + if is_free g then len g else 0) s ->
  wp (if is_free g then k ← entry_of (node_or_head o); t ← block k; mret (u32 (size + fb_size t))
      else mret size) Q s.
Proof.
  intros Hg H0 H1 H2 HQ. destruct (is_free g); [|by rewrite Z.add_0_r in HQ].
  destruct (Hg eq_refl) as (k & b & -> & Hb & Hs). cbn [node_or_head entry_of]. specialize (H2 eq_refl).
  apply wp_bind, wp_ret, wp_bind. eapply wp_block; [exact Hb|]. apply wp_ret.
  rewrite Hs, wrap_id by (unfold in_width; lia). exact HQ.
Qed.

Lemma wp_check T v sz A s : fb_inv A s ->
  wp (amdgv_vfmgr_check_fb_assignable v sz) (fun b s' => b = accepts T v sz A /\ s' = s) s.
Proof.
  intros Hinv. destruct (fi_repr _ _ Hinv) as [L Hr]. pose proof (fi_owners _ _ Hinv) as Hnd.
  pose proof (fi_normal _ _ Hinv) as Hnorm. pose proof (repr_positive _ _ _ Hr) as Hp.
  pose proof (rp_total _ _ _ Hr) as Hend.
  unfold amdgv_vfmgr_check_fb_assignable. apply wp_bind.
  assert (forall AU g AV, A = AU ++ g :: AV -> owner g = Some v -> v ∉ owners AU -> v ∉ owners AV ->
    accepts T v sz A = fits sz AU || fits sz AV || (sz <=? len g + room_before AU + room_after AV)) as Hown.
  { intros AU g AV -> Hg HU HV. apply Forall_app in Hp as [HpU Hp]. apply Forall_cons in Hp as [Hn HpV].
    by apply accepts_own. }
  eapply wp_find_usable; [exact Hr| |].
  - intros us i vs AU g AV -> HA Hl Hf Hle _. apply wp_ret. split; [|done].
    assert (fits sz A = true) as Hfit.
    { rewrite HA, fits_app. unfold fits at 2. cbn. apply Z.leb_le in Hle. rewrite Hf, Hle. by rewrite orb_true_r. }
    destruct (decide (v ∈ owners A)) as [Hv|Hv].
    + destruct (share_inv _ _ Hnd Hv) as (BU & h & BV & E & Hh & H1 & H2). rewrite (Hown _ _ _ E Hh H1 H2).
      rewrite E, fits_app in Hfit. unfold fits in Hfit at 2. cbn in Hfit. fold (fits sz BV) in Hfit.
      unfold is_free in Hfit. rewrite Hh in Hfit. cbn in Hfit. by rewrite Hfit.
    + by rewrite accepts_new.
  - intros Hno. apply wp_bind. eapply wp_find_by_fcn; [exact Hr|exact Hnd| |].
    + intros us i vs AU g AV HL HA Hl Hg HU HV. rewrite (Hown _ _ _ HA Hg HU HV). subst L A.
      rewrite fits_app in Hno. apply orb_false_iff in Hno as [HnU HnV]. unfold fits in HnV at 1. cbn in HnV.
      apply orb_false_iff in HnV as [_ HnV]. fold (fits sz AV) in HnV. rewrite HnU, HnV. cbn [orb].
      pose proof (rp_rows _ _ _ Hr) as Hrows.
      apply rows_split in Hrows as [_ [(b & Hb & Hrow) _]]; [|done].
      apply wp_bind. eapply wp_block; [exact Hb|]. destruct Hrow as (_ & _ & _ & _ & Hs & _ & Hn).
      apply Forall_app in Hp as [HpU Hp']. apply Forall_cons in Hp' as [_ HpV].
      destruct (rooms_bounded _ HpU) as [? _]. destruct (rooms_bounded _ HpV) as [_ ?].
      rewrite total_app in Hend. cbn in Hend.
      assert (repr ((us ++ [i]) ++ vs) ((AU ++ [g]) ++ AV) s) as Hr' by by rewrite <- !app_assoc.
      destruct (neighbour_before _ _ _ _ _ Hr Hl) as (F1 & N1 & R1 & P1 & B1).
      destruct (neighbour_after (us ++ [i]) vs (AU ++ [g]) AV s Hr') as (F2 & N2 & R2 & P2 & B2).
      { rewrite !length_app. cbn. lia. }
      apply wp_bind. eapply wp_prev_of; [exact (dlist_prev_node _ us i vs (rp_list _ _ _ Hr))|].
      apply wp_bind. unfold wp at 1. rewrite F1. apply wp_bind. rewrite Hs.
      apply wp_room; [exact N1|lia|exact P1|intros ?; destruct B1; [congruence|lia]|]. rewrite R1.
      apply wp_bind. eapply wp_next_of; [exact (dlist_next_node _ us i vs (rp_list _ _ _ Hr))|].
      apply wp_bind. unfold wp at 1. rewrite F2. apply wp_bind.
      apply wp_room; [exact N2|lia|exact P2|intros ?; destruct B2; [congruence|lia]|]. rewrite R2.
      by apply wp_ret.
    + intros Hv. apply wp_ret. by rewrite accepts_new, Hno.
Qed.

(** ** What requests change in the abstract partition *)

Lemma others_app v A B : others v (A ++ B) = others v A ++ others v B.
Proof. apply bind_app. Qed.

Lemma others_cons v g A : others v (g :: A) =
  (if is_free g || owned_by v g then [] else [(default 0 (owner g), off g, len g)]) ++ others v A.
Proof.
  unfold others. cbn. unfold is_free, owned_by. destruct (owner g) as [w|]; [|done]. by destruct (w =? v).
Qed.

Lemma others_cons_seg v g A : others v (cons_seg g A) = others v (g :: A).
Proof.
  destruct A as [|h A]; cbn [cons_seg]; [done|]. destruct (is_free g && is_free h) eqn:E; [|done].
  apply andb_true_iff in E as [Eg Eh]. by rewrite !others_cons, is_free_join, Eg, Eh.
Qed.

Lemma others_coalesce v A : others v (coalesce A) = others v A.
Proof. induction A as [|g A IH]; [done|]. by rewrite coalesce_cons, others_cons_seg, !others_cons, IH. Qed.

Lemma others_ins v g A : is_free g = true -> others v (ins g A) = others v A.
Proof.
  intros Hg. destruct (ins_split g A) as (AU & AV & -> & -> & _). by rewrite !others_app, others_cons, Hg.
Qed.

Lemma share_cons v g A : share v (g :: A) = if owned_by v g then Some g else share v A.
Proof. done. Qed.

Lemma free_not_owned v g : is_free g = true -> owned_by v g = false.
Proof. unfold is_free, owned_by. by destruct (owner g). Qed.

Lemma share_cons_seg v g A : share v (cons_seg g A) = share v (g :: A).
Proof.
  destruct A as [|h A]; cbn [cons_seg]; [done|]. destruct (is_free g && is_free h) eqn:E; [|done].
  apply andb_true_iff in E as [Eg Eh]. rewrite !share_cons, !free_not_owned; [done|done|done|].
  by rewrite is_free_join.
Qed.

Lemma share_coalesce v A : share v (coalesce A) = share v A.
Proof. induction A as [|g A IH]; [done|]. by rewrite coalesce_cons, share_cons_seg, !share_cons, IH. Qed.

Lemma share_app v A B : share v (A ++ B) = match share v A with Some g => Some g | None => share v B end.
Proof. induction A as [|g A IH]; [done|]. cbn [app]. rewrite !share_cons, IH. by destruct (owned_by v g). Qed.

Lemma share_ins v g A : is_free g = true -> share v (ins g A) = share v A.
Proof.
  intros Hg. destruct (ins_split g A) as (AU & AV & -> & -> & _).
  by rewrite !share_app, share_cons, free_not_owned.
Qed.

Lemma total_ins g A : total (ins g A) = len g + total A.
Proof. destruct (ins_split g A) as (AU & AV & -> & -> & _). rewrite !total_app. cbn. lia. Qed.

Lemma cut_facts T v sz AU g AV : owner g = Some v -> v ∉ owners AU -> v ∉ owners AV ->
  total (cut T v sz (AU ++ g :: AV)) = total (AU ++ g :: AV) /\
  others v (cut T v sz (AU ++ g :: AV)) = others v (AU ++ g :: AV) /\
  exists h, share v (cut T v sz (AU ++ g :: AV)) = Some h /\ len h = sz /\ off h = off g.
Proof.
  intros Hg HU HV. unfold cut. rewrite share_split by done.
  destruct (Z.eqb_spec (len g - sz) 0) as [E|_].
  { split_and!; [done|done|]. exists g. rewrite share_split by done. split_and!; [done|lia|done]. }
  rewrite (map_mid _ v) by (try done; apply resize_other). unfold resize_seg.
  pose proof (proj2 (owned_by_spec v g) Hg) as Ho. rewrite Ho.
  set (g' := g <| len := sz |> <| tlb := T sz |>). assert (owner g' = Some v) as Hg' by done.
  split_and!.
  - rewrite coalesce_total, total_ins, !total_app. cbn. lia.
  - rewrite others_coalesce, others_ins, !others_app, !others_cons by done.
    rewrite Ho, (proj2 (owned_by_spec v g') Hg'). by rewrite !orb_true_r.
  - exists g'. rewrite share_coalesce, share_ins, share_split by done. done.
Qed.

Lemma release_facts v A : total (release v A) = total A /\ others v (release v A) = others v A.
Proof.
  unfold release. split; [rewrite coalesce_total|rewrite others_coalesce].
  - induction A as [|g A IH]; cbn; [done|]. rewrite IH. unfold disown. by destruct (owned_by v g).
  - induction A as [|g A IH]; [done|]. rewrite fmap_cons, !others_cons, IH. unfold disown.
    destruct (owned_by v g) eqn:E; [|by rewrite E]. by rewrite orb_true_r.
Qed.

Lemma place_facts T v sz A A' : place T v sz A = Some A' -> v ∉ owners A ->
  total A' = total A /\ others v A' = others v A /\ owners A' ≡ₚ v :: owners A /\
  exists h, share v A' = Some h /\ len h = sz.
Proof.
  intros Hpl Hv. unfold place in Hpl. destruct (take_seg v sz A) as [A1|] eqn:Htk; [|done].
  injection Hpl as <-. pose proof (take_fits v sz A) as Hf. rewrite Htk in Hf.
  pose proof (find_split (fun g => is_free g && (sz <=? len g)) A) as Hs.
  destruct (List.find _ A) as [g|]; [|apply fits_false in Hs; congruence].
  destruct Hs as (us & vs & -> & [Fg Hle%Z.leb_le]%andb_true_iff & HU).
  rewrite (take_split v sz us g vs HU Fg Hle) in Htk. injection Htk as <-.
  rewrite owners_app, owners_cons in Hv. assert (owner g = None) as Hg0.
  { unfold is_free in Fg. by destruct (owner g). }
  rewrite Hg0 in Hv. apply not_elem_of_app in Hv as [HvU HvV].
  destruct (cut_facts T v sz us (g <| owner := Some v |>) vs) as (C1 & C2 & h & C3 & C4 & _); [done..|].
  split_and!.
  - rewrite C1, !total_app. done.
  - rewrite C2, !others_app, !others_cons, Fg. cbn. unfold owned_by. cbn. by rewrite Z.eqb_refl.
  - rewrite owners_cut, !owners_app, !owners_cons, Hg0. cbn. by rewrite Permutation_middle.
  - by exists h.
Qed.

(** A served request keeps the amount of memory and what every other VF has,
    and the VF has what it asked for. *)
Lemma reconfig_facts T v sz A A' : NoDup (owners A) -> reconfig T v sz A = Some A' ->
  total A' = total A /\ others v A' = others v A /\ exists h, share v A' = Some h /\ len h = sz.
Proof.
  intros Hnd Hrec. unfold reconfig in Hrec. destruct (decide (v ∈ owners A)) as [Hv|Hv].
  - destruct (share_inv _ _ Hnd Hv) as (AU & g & AV & -> & Hg & HU & HV).
    rewrite share_split in Hrec by done. destruct (sz <=? len g).
    + injection Hrec as <-. destruct (cut_facts T v sz AU g AV Hg HU HV) as (C1 & C2 & h & C3 & C4 & _).
      split_and!; [done|done|by exists h].
    + apply place_facts in Hrec as (P1 & P2 & _ & h & P3 & P4); [|apply release_owner].
      destruct (release_facts v (AU ++ g :: AV)) as [R1 R2]. split_and!; [congruence|congruence|by exists h].
  - rewrite share_none in Hrec by done. apply place_facts in Hrec as (P1 & P2 & _ & P3); [|done]. by split_and!.
Qed.

(** ** Serving a request *)

Lemma vf_slot {A} (l : list A) v : length l = Z.to_nat AMDGV_MAX_VF_SLOT -> 0 <= v <= 14 ->
  exists e, l !! Z.to_nat v = Some e.
Proof. intros Hl Hv. apply lookup_lt_is_Some_2. rewrite Hl. unfold AMDGV_MAX_VF_SLOT. lia. Qed.

Lemma wp_vf_at {A} (l : adapter -> list A) v e (Q : A -> adapter -> Prop) s :
  0 <= v -> l s !! Z.to_nat v = Some e -> Q e s -> wp (vf_at l v) Q s.
Proof.
  intros Hv He HQ. unfold wp, vf_at. destruct (Z.ltb_spec v 0); [lia|]. by rewrite He.
Qed.

Lemma wp_upd_vf v e f (Q : unit -> adapter -> Prop) s :
  0 <= v -> array_vf s !! Z.to_nat v = Some e ->
  Q tt (s <| array_vf := <[Z.to_nat v := f e]> (array_vf s) |>) -> wp (upd_vf v f) Q s.
Proof.
  intros Hv He HQ. unfold upd_vf. apply wp_bind. eapply wp_vf_at; [done|exact He|].
  apply wp_modify. by rewrite (alter_insert _ _ _ _ He).
Qed.

Lemma wp_sched_is v st (Q : bool -> adapter -> Prop) s x :
  0 <= v -> sched_state s !! Z.to_nat v = Some x -> Q (x =? st) s -> wp (vf_sched_is v st) Q s.
Proof. intros Hv Hx HQ. unfold vf_sched_is. apply wp_bind. by eapply wp_vf_at. Qed.

Lemma wp_set_sched v st (Q : unit -> adapter -> Prop) s x :
  0 <= v -> sched_state s !! Z.to_nat v = Some x ->
  Q tt (s <| sched_state := <[Z.to_nat v := st]> (sched_state s) |>) -> wp (set_vf_sched v st) Q s.
Proof. intros Hv Hx HQ. unfold set_vf_sched. apply wp_bind. eapply wp_vf_at; [done|exact Hx|]. by apply wp_modify. Qed.

(** What a request may touch outside the partition: VF [v]'s own entries and
    the record of calls. *)
Record vf_frame (v : Z) (s s' : adapter) : Prop := {
  vf_config : config s' = config s;
  vf_num : num_vf s' = num_vf s;
  vf_tmr : tmr_size s' = tmr_size s;
  vf_vfs : length (array_vf s') = length (array_vf s);
  vf_sched : length (sched_state s') = length (sched_state s);
  vf_other : forall w, w <> Z.to_nat v ->
    array_vf s' !! w = array_vf s !! w /\ sched_state s' !! w = sched_state s !! w;
}.

Lemma vf_frame_refl v s : vf_frame v s s.
Proof. by split. Qed.
Lemma vf_frame_trans v s1 s2 s3 : vf_frame v s1 s2 -> vf_frame v s2 s3 -> vf_frame v s1 s3.
Proof.
  intros [] []. split; try congruence. intros w Hw.
  destruct (vf_other0 w Hw), (vf_other1 w Hw). split; congruence.
Qed.
Lemma fb_vf_frame v s s' : s' = s <| vf_fb_block := vf_fb_block s' |> <| lnk := lnk s' |> -> vf_frame v s s'.
Proof. intros ->. by split. Qed.
Lemma vf_frame_upd v s e : vf_frame v s (s <| array_vf := <[Z.to_nat v := e]> (array_vf s) |>).
Proof. split; cbn; try done; [by rewrite length_insert|]. intros w Hw. by rewrite list_lookup_insert_ne. Qed.
Lemma vf_frame_sched v s e : vf_frame v s (s <| sched_state := <[Z.to_nat v := e]> (sched_state s) |>).
Proof. split; cbn; try done; [by rewrite length_insert|]. intros w Hw. by rewrite list_lookup_insert_ne. Qed.
Lemma vf_frame_emit v s c : vf_frame v s (s <| calls := c |>).
Proof. by split. Qed.

Lemma repr_frame L A s s' :
  vf_fb_block s' = vf_fb_block s -> lnk s' = lnk s -> config s' = config s -> repr L A s -> repr L A s'.
Proof. intros E1 E2 E3 []. by split; rewrite ?E1, ?E2, ?E3. Qed.

Lemma fb_inv_frame v A s s' :
  vf_fb_block s' = vf_fb_block s -> lnk s' = lnk s -> vf_frame v s s' -> fb_inv A s -> fb_inv A s'.
Proof.
  intros E1 E2 [] [[L Hr] H1 H2 H3 H4 H5 H6]. split; try congruence.
  - exists L. by eapply repr_frame.
  - unfold vf_id in *. by rewrite vf_num0.
Qed.


(** The invariant after a step that yields the partition [A']. *)
Lemma fb_inv_step v A A' s s' : fb_inv A s -> vf_frame v s s' -> (exists L, repr L A' s') ->
  normal false A' = true -> NoDup (owners A') -> Forall (vf_id s) (owners A') -> fb_inv A' s'.
Proof.
  intros [] [] Hr HN Hnd Hids. split; try congruence. unfold vf_id in *. by rewrite vf_num0.
Qed.

(** What a served request leaves behind. *)
Record served (v sz : Z) (A' : list seg) (s s' : adapter) : Prop := {
  sv_inv : fb_inv A' s';
  sv_frame : vf_frame v s s';
  sv_entry : exists e g, array_vf s' !! Z.to_nat v = Some e /\ share v A' = Some g /\ len g = sz /\
    vd_fb_offset e = off g /\ vd_fb_offset_tmr e = off g /\ vd_fb_size e = sz /\
    vd_fb_size_tmr e = u32 (sz + tmr_size s');
}.

Lemma served_frame v sz A' s1 s2 s3 : vf_frame v s1 s2 -> served v sz A' s2 s3 -> served v sz A' s1 s3.
Proof. intros Hf []. split; [done|by eapply vf_frame_trans|done]. Qed.

Lemma wp_setup_some i b v sz A g s :
  fb_inv A s -> vf_id s v -> vf_fb_block s !! i = Some b -> share v A = Some g ->
  fb_offset_tlb b = off g -> len g = sz ->
  wp (navi32_asymmetric_fb_block_setup v sz (Some i)) (fun r s' => r = 0 /\ served v sz A s s') s.
Proof.
  intros Hinv Hv Hb Hg Hoff Hlen. unfold navi32_asymmetric_fb_block_setup.
  apply wp_bind, wp_ret, wp_bind. eapply wp_block; [exact Hb|]. apply wp_bind, wp_gets, wp_bind.
  pose proof (fi_num _ _ Hinv). destruct Hv.
  destruct (vf_slot (array_vf s) v (fi_vfs _ _ Hinv)) as [e He]; [lia|].
  eapply wp_upd_vf; [done|exact He|]. apply wp_ret. split; [done|]. split.
  - eapply fb_inv_frame; [..|exact Hinv]; [done|done|apply (vf_frame_upd v)].
  - apply vf_frame_upd.
  - eexists _, g. cbn. split; [by eapply insert_lookup_same|]. split_and!; [done|done|exact Hoff|exact Hoff|done|done].
Qed.

(** Dividing the block of VF [v]; it can then be handed over. *)
Lemma wp_divide_setup us i vs AU g AV v sz s :
  fb_inv (AU ++ g :: AV) s -> repr (us ++ i :: vs) (AU ++ g :: AV) s -> length us = length AU ->
  owner g = Some v -> v ∉ owners AU -> v ∉ owners AV -> 0 < sz <= len g -> vf_id s v ->
  wp (amdgv_vfmgr_divide_fb_block i sz)
    (fun _ => wp (navi32_asymmetric_fb_block_setup v sz (Some i))
       (fun r s' => r = 0 /\ served v sz (cut (window (config s)) v sz (AU ++ g :: AV)) s s')) s.
Proof.
  intros Hinv Hr Hl Hg HU HV Hsz Hv. pose proof (blocks_bound _ _ Hinv) as Hb29.
  pose proof (rows_length _ _ _ (rp_rows _ _ _ Hr)) as HL.
  eapply wp_mono; [eapply (wp_divide us i vs AU g v AV sz s Hr Hl Hg HU HV (fi_normal _ _ Hinv) Hsz); lia|].
  intros r s2 (_ & Hf & (b & Hb & Hoff) & Hr2).
  destruct (cut_facts (window (config s)) v sz AU g AV Hg HU HV) as (_ & _ & h & Hh1 & Hh2 & Hh3).
  assert (fb_inv (cut (window (config s)) v sz (AU ++ g :: AV)) s2) as Hinv2.
  { eapply fb_inv_step; [exact Hinv|by apply (fb_vf_frame v)|done|apply normal_cut, Hinv|..];
      rewrite owners_cut; apply Hinv. }
  eapply wp_mono; [eapply (wp_setup_some i b v sz _ h _ Hinv2); [|exact Hb|exact Hh1|congruence|done]|].
  { unfold vf_id. rewrite Hf. exact Hv. }
  intros r' s3 [-> Hs]. split; [done|]. eapply served_frame; [|exact Hs]. by apply fb_vf_frame.
Qed.

(** Placing a VF that has no block. *)
Lemma wp_setup_none A v sz A' s :
  fb_inv A s -> vf_id s v -> v ∉ owners A -> 0 < sz -> place (window (config s)) v sz A = Some A' ->
  wp (navi32_asymmetric_fb_block_setup v sz None) (fun r s' => r = 0 /\ served v sz A' s s') s.
Proof.
  intros Hinv Hv Hno Hsz Hpl. destruct (fi_repr _ _ Hinv) as [L Hr].
  unfold navi32_asymmetric_fb_block_setup. apply wp_bind, wp_bind.
  eapply wp_find_usable; [exact Hr| |].
  2: { intros Hf. pose proof (place_fits (window (config s)) v sz A) as Hp. rewrite Hpl in Hp. congruence. }
  intros us i vs AU g AV -> -> Hl Fg Hle Hf. unfold place in Hpl.
  rewrite take_split in Hpl by (done || by apply fits_false). injection Hpl as <-.
  pose proof (rp_rows _ _ _ Hr) as Hrows.
  apply rows_split in Hrows as [_ [(b & Hb & Hrow) _]]; [|done].
  assert (owner g = None) as Hg0 by (unfold is_free in Fg; by destruct (owner g)).
  rewrite owners_app, owners_cons, Hg0 in Hno. apply not_elem_of_app in Hno as [HvU HvV].
  pose proof (fi_owners _ _ Hinv) as Hnd. pose proof (fi_ids _ _ Hinv) as Hids.
  rewrite owners_app, owners_cons, Hg0 in Hnd, Hids.
  set (g1 := g <| owner := Some v |>).
  assert (owners (AU ++ g1 :: AV) ≡ₚ v :: owners AU ++ owners AV) as Hperm.
  { rewrite owners_app, owners_cons. cbn. by rewrite Permutation_middle. }
  apply wp_bind. eapply wp_upd_block; [exact Hb|]. match goal with |- wp _ _ ?t => set (s1 := t) end.
  assert (repr (us ++ i :: vs) (AU ++ g1 :: AV) s1) as Hr1.
  { apply (repr_update us i vs AU g AV b g1 _ s); [done|done|done|cbn; lia|].
    intros (? & _ & _ & ? & ? & ? & ?). split_and!; cbn; try done. by intros w [= ->]. }
  assert (fb_inv (AU ++ g1 :: AV) s1) as Hinv1.
  { eapply (fb_inv_step v); [exact Hinv|by apply fb_vf_frame; destruct s|by eexists| |rewrite Hperm..].
    - pose proof (fi_normal _ _ Hinv) as HN. apply normal_mid in HN as [HU HV].
      rewrite normal_app, HU. cbn. by rewrite andb_false_r, HV.
    - apply NoDup_cons. split; [|done]. rewrite not_elem_of_app. done.
    - by apply Forall_cons. }
  apply wp_bind. eapply wp_mono.
  { eapply (wp_divide_setup us i vs AU g1 AV v sz s1 Hinv1 Hr1 Hl eq_refl HvU HvV); [|done]. split; [done|exact Hle]. }
  intros r s2 Hset. apply wp_ret. unfold navi32_asymmetric_fb_block_setup in Hset.
  eapply wp_mono; [exact Hset|]. intros r' s' [-> Hs]. split; [done|].
  eapply served_frame; [|exact Hs]. by apply fb_vf_frame; destruct s.
Qed.

(** ** Releasing a block *)

Lemma wp_free_own us i vs AU g AV v s :
  fb_inv (AU ++ g :: AV) s -> repr (us ++ i :: vs) (AU ++ g :: AV) s -> length us = length AU ->
  owner g = Some v -> v ∉ owners AU -> v ∉ owners AV ->
  wp (amdgv_vfmgr_free_fb_block (Some i))
    (fun _ s' => s' = s <| vf_fb_block := vf_fb_block s' |> <| lnk := lnk s' |> /\
       fb_inv (release v (AU ++ g :: AV)) s') s.
Proof.
  intros Hinv Hr Hl Hg HU HV. pose proof (rp_rows _ _ _ Hr) as Hrows.
  apply rows_split in Hrows as [_ [(b & Hb & Hrow) _]]; [|done].
  pose proof (fi_normal _ _ Hinv) as HN. apply normal_mid in HN as [NU NV].
  unfold amdgv_vfmgr_free_fb_block. apply wp_bind. eapply wp_upd_block; [exact Hb|].
  match goal with |- wp _ _ ?t => set (s1 := t) end. set (g1 := g <| owner := None |>).
  assert (repr (us ++ i :: vs) (AU ++ g1 :: AV) s1) as Hr1.
  { apply (repr_update us i vs AU g AV b g1 _ s); [done|done|done|cbn; lia|].
    intros (? & _ & _ & ? & ? & ? & ?). by split_and!. }
  eapply wp_mono; [eapply (wp_merge_free us i vs AU g1 AV); done|].
  intros [] s2 (Hf & L' & Hr2).
  assert (s2 = s <| vf_fb_block := vf_fb_block s2 |> <| lnk := lnk s2 |>) as Hf'.
  { rewrite (fs_frame _ _ Hf). by destruct s. }
  split; [done|]. rewrite (release_split v AU g AV) by done.
  eapply fb_inv_step; [exact Hinv|by apply (fb_vf_frame v)|by exists L'|apply coalesce_is_normal|..];
    rewrite owners_coalesce, owners_app, owners_cons; cbn.
  - pose proof (fi_owners _ _ Hinv) as Hnd. rewrite owners_app, owners_cons, Hg in Hnd.
    by destruct (nodup_mid _ _ _ Hnd) as (_ & _ & ?).
  - pose proof (fi_ids _ _ Hinv) as Hids. rewrite owners_app, owners_cons, Hg in Hids.
    apply Forall_app in Hids as [? [_ ?]%Forall_cons]. by apply Forall_app.
Qed.

(** ** The whole reconfiguration *)

Lemma wp_reconfig_own us i vs AU g AV v sz A' s :
  fb_inv (AU ++ g :: AV) s -> repr (us ++ i :: vs) (AU ++ g :: AV) s -> length us = length AU ->
  owner g = Some v -> v ∉ owners AU -> v ∉ owners AV -> vf_id s v -> 0 < sz ->
  reconfig (window (config s)) v sz (AU ++ g :: AV) = Some A' ->
  wp (b ← block i;
      if sz <=? fb_size b then
        _ ← amdgv_vfmgr_divide_fb_block i sz; navi32_asymmetric_fb_block_setup v sz (Some i)
      else
        _ ← amdgv_vfmgr_free_fb_block (Some i); navi32_asymmetric_fb_block_setup v sz None)
    (fun r s' => r = 0 /\ served v sz A' s s') s.
Proof.
  intros Hinv Hr Hl Hg HU HV Hv Hsz Hrec. unfold reconfig in Hrec. rewrite share_split in Hrec by done.
  pose proof (rp_rows _ _ _ Hr) as Hrows. apply rows_split in Hrows as [_ [(b & Hb & Hrow) _]]; [|done].
  destruct Hrow as (_ & _ & _ & _ & Hs & _ & Hn).
  apply wp_bind. eapply wp_block; [exact Hb|]. rewrite Hs.
  destruct (Z.leb_spec sz (len g)); apply wp_bind.
  - injection Hrec as <-. eapply wp_mono; [by apply (wp_divide_setup us i vs AU g AV v sz)|]. by intros r s2.
  - eapply wp_mono; [by eapply wp_free_own|]. intros [] s2 [Hf2 Hinv2].
    eapply wp_mono; [eapply wp_setup_none; [exact Hinv2| |apply release_owner|done|]|].
    + unfold vf_id. rewrite Hf2. done.
    + rewrite Hf2. exact Hrec.
    + intros r s3 [-> Hs3]. split; [done|]. eapply served_frame; [|exact Hs3]. by apply fb_vf_frame.
Qed.

Lemma wp_reconfig v sz A s : fb_inv A s -> vf_id s v -> 0 < sz ->
  wp (navi32_asymmetric_fb_reconfig v sz)
    (fun r s' => match reconfig (window (config s)) v sz A with
                 | Some A' => r = 0 /\ served v sz A' s s'
                 | None => r = AMDGV_FAILURE /\ s' = s
                 end) s.
Proof.
  intros Hinv Hv Hsz. destruct (fi_repr _ _ Hinv) as [L Hr]. pose proof (fi_owners _ _ Hinv) as Hnd.
  unfold navi32_asymmetric_fb_reconfig. apply wp_bind, wp_calculate; [by apply (rp_tmr _ _ _ Hr)|].
  apply wp_bind. eapply wp_mono; [eapply (wp_check (window (config s))); exact Hinv|].
  intros ok t [-> ->]. unfold accepts.
  destruct (reconfig (window (config s)) v sz A) as [A'|] eqn:Hrec; cbn [negb]; [|by apply wp_ret].
  apply wp_bind. eapply wp_find_by_fcn; [exact Hr|exact Hnd| |].
  - intros us i vs AU g AV -> -> Hl Hg HU HV. by eapply (wp_reconfig_own us i vs AU g AV).
  - intros Hno. unfold reconfig in Hrec. rewrite share_none in Hrec by done.
    pose proof (fi_num _ _ Hinv). pose proof Hv as [Hv1 Hv2].
    destruct (vf_slot (sched_state s) v (fi_sched _ _ Hinv)) as [x Hx]; [lia|].
    apply wp_bind. eapply wp_sched_is; [done|exact Hx|]. apply wp_bind.
    assert (forall s1, vf_frame v s s1 -> fb_inv A s1 ->
      wp (navi32_asymmetric_fb_block_setup v sz None) (fun r s' => r = 0 /\ served v sz A' s s') s1) as Hset.
    { intros s1 Hf1 Hinv1. eapply wp_mono; [eapply wp_setup_none; [exact Hinv1| |exact Hno|done|]|].
      - unfold vf_id. by rewrite (vf_num _ _ _ Hf1).
      - by rewrite (vf_config _ _ _ Hf1).
      - intros r s3 [-> Hs3]. split; [done|]. by eapply served_frame. }
    apply wp_when; intros _; [|apply Hset; [apply vf_frame_refl|done]].
    apply wp_bind. eapply wp_set_sched; [done|exact Hx|].
    destruct (vf_slot (array_vf s) v (fi_vfs _ _ Hinv)) as [e He]; [lia|].
    eapply wp_upd_vf; [done|exact He|].
    match goal with |- wp _ _ ?t => assert (vf_frame v s t) as Hf1 by
      (eapply vf_frame_trans; [apply (vf_frame_sched v s)|apply vf_frame_upd]) end.
    apply Hset; [exact Hf1|]. eapply fb_inv_frame; [..|exact Hinv]; done.
Qed.

(** ** Releasing a VF *)

(** Freeing is refused for a VF whose memory cannot be cleared. *)
Definition denied (v : Z) (s : adapter) : bool :=
  flag_clear_vf_fb (config s) &&
  match array_vf s !! Z.to_nat v with Some e => negb (vd_configured e) | None => false end.

Lemma wp_emit c (Q : unit -> adapter -> Prop) s : Q tt (s <| calls := c :: calls s |>) -> wp (emit c) Q s.
Proof. done. Qed.

(** A state between two steps of a request of VF [v]. *)
Record ready (A : list seg) (v : Z) (s0 s : adapter) : Prop := {
  rd_inv : fb_inv A s;
  rd_frame : vf_frame v s0 s;
  rd_id : vf_id s v;
}.

Lemma ready_refl A v s : fb_inv A s -> vf_id s v -> ready A v s s.
Proof. intros. split; [done|apply vf_frame_refl|done]. Qed.

Lemma ready_slot A v s0 s : ready A v s0 s ->
  0 <= v /\ (exists e, array_vf s !! Z.to_nat v = Some e) /\ (exists x, sched_state s !! Z.to_nat v = Some x).
Proof.
  intros [Hinv _ [Hv1 Hv2]]. pose proof (fi_num _ _ Hinv). split; [done|].
  split; apply vf_slot; try apply Hinv; lia.
Qed.

Lemma ready_step A v s0 s s' : vf_fb_block s' = vf_fb_block s -> lnk s' = lnk s -> vf_frame v s s' ->
  ready A v s0 s -> ready A v s0 s'.
Proof.
  intros E1 E2 Hf [Hinv Hf0 Hid]. split; [by eapply fb_inv_frame|by eapply vf_frame_trans|].
  unfold vf_id. by rewrite (vf_num _ _ _ Hf).
Qed.

Lemma ready_fb A A' v s0 s s' : s' = s <| vf_fb_block := vf_fb_block s' |> <| lnk := lnk s' |> ->
  fb_inv A' s' -> ready A v s0 s -> ready A' v s0 s'.
Proof.
  intros Hf Hinv' [_ Hf0 Hid]. split; [done|eapply vf_frame_trans; [exact Hf0|by apply fb_vf_frame]|].
  unfold vf_id. by rewrite Hf.
Qed.

Lemma ready_emit A v s0 s c : ready A v s0 s -> ready A v s0 (s <| calls := c |>).
Proof. by apply ready_step. Qed.

(** Recording a call keeps everything else. *)
Definition emitted (s s' : adapter) : Prop :=
  s' = s <| calls := calls s' |> /\ calls s ⊆ calls s'.

Lemma wp_when_emit (b : bool) c (Q : unit -> adapter -> Prop) s :
  (forall s', emitted s s' -> (b = true -> c ∈ calls s') -> Q tt s') -> wp (when b (emit c)) Q s.
Proof.
  intros HQ. destruct b; cbn [when].
  - apply wp_emit, HQ; [|intros _; cbn; set_solver]. split; [by destruct s|cbn; set_solver].
  - apply wp_ret, HQ; [|done]. split; [by destruct s|done].
Qed.

Lemma emitted_ready A v s0 s s' : emitted s s' -> ready A v s0 s -> ready A v s0 s'.
Proof. intros [-> _]. apply ready_emit. Qed.

Lemma wp_unmap_dev_res v A s0 s : ready A v s0 s ->
  wp (unmap_dev_res v) (fun _ => ready A v s0) s.
Proof.
  intros Hr. destruct (ready_slot _ _ _ _ Hr) as (Hv & [e He] & _).
  unfold unmap_dev_res. apply wp_bind, wp_gets, wp_when; intros _; [|done].
  apply wp_bind. eapply wp_vf_at; [done|exact He|]. apply wp_when; intros _; [|done].
  apply wp_bind. eapply wp_upd_vf; [done|exact He|]. apply wp_emit, ready_emit.
  eapply (ready_step _ _ _ s); [done|done|apply (vf_frame_upd v s)|done].
Qed.

Lemma wp_clear_vf_fb v A s : fb_inv A s -> vf_id s v ->
  wp (amdgv_misc_clear_vf_fb v)
    (fun r s' => if denied v s then r = AMDGV_FAILURE /\ s' = s else r = 0 /\ emitted s s') s.
Proof.
  intros Hinv Hv. destruct (ready_slot _ _ _ _ (ready_refl _ _ _ Hinv Hv)) as (Hv0 & [e He] & _).
  destruct Hv as [_ Hv]. unfold amdgv_misc_clear_vf_fb, denied. apply wp_bind, wp_gets, wp_bind, wp_gets.
  assert (((v =? AMDGV_PF_IDX) || (num_vf s <=? v)) = false) as ->.
  { pose proof (fi_num _ _ Hinv). unfold AMDGV_PF_IDX. lia. }
  rewrite He. destruct (flag_clear_vf_fb (config s)); cbn [negb andb].
  - apply wp_bind. eapply wp_vf_at; [done|exact He|]. destruct (vd_configured e); cbn [negb]; [|by apply wp_ret].
    apply wp_bind, wp_emit, wp_ret. split; [done|]. split; [by destruct s|cbn; set_solver].
  - apply wp_ret. split; [done|]. split; [by destruct s|done].
Qed.

(** The block of a VF that goes, if it has one. *)
Lemma wp_free_block_of v A s0 s : ready A v s0 s ->
  wp (o ← amdgv_vfmgr_find_fb_block_by_fcn v; amdgv_vfmgr_free_fb_block o)
    (fun _ => ready (release v A) v s0) s.
Proof.
  intros Hr. pose proof (rd_inv _ _ _ _ Hr) as Hinv. destruct (fi_repr _ _ Hinv) as [L Hrep].
  apply wp_bind. eapply wp_find_by_fcn; [exact Hrep|exact (fi_owners _ _ Hinv)| |].
  - intros us i vs AU g AV -> -> Hl Hg HU HV. eapply wp_mono; [by eapply wp_free_own|].
    intros [] s2 [Hf Hinv2]. by eapply ready_fb.
  - intros Hno. apply wp_ret. rewrite release_none; [done|apply Hinv|done].
Qed.

Lemma wp_free_vf v A s : fb_inv A s -> vf_id s v -> asymmetric_fb_enabled (config s) = true ->
  wp (amdgv_vfmgr_free_vf v)
    (fun r s' => if denied v s then r = AMDGV_FAILURE /\ s' = s
                 else r = 0 /\ fb_inv (release v A) s' /\ vf_frame v s s') s.
Proof.
  intros Hinv Hv Hasym. unfold amdgv_vfmgr_free_vf. apply wp_bind.
  eapply wp_mono; [by apply (wp_clear_vf_fb v A)|]. intros r s1.
  destruct (denied v s); intros [-> H1]; cbn [Z.eqb negb]; [by apply wp_ret|].
  assert (ready A v s s1) as Hr1 by (eapply emitted_ready; [done|by apply ready_refl]).
  assert (config s1 = config s) as Hc by (by rewrite (proj1 H1)). clear H1.
  apply wp_bind, wp_gets, wp_bind, wp_when_emit. intros s2 He2 _. apply (emitted_ready _ _ _ _ s2) in Hr1; [|done].
  destruct (ready_slot _ _ _ _ Hr1) as (Hv0 & _ & [x Hx]).
  apply wp_bind. eapply wp_sched_is; [done|exact Hx|]. apply wp_bind, wp_when_emit. intros s3 He3 _.
  apply (emitted_ready _ _ _ _ s3) in Hr1; [|done]. destruct (ready_slot _ _ _ _ Hr1) as (_ & _ & [x3 Hx3]).
  apply wp_bind. eapply wp_set_sched; [done|exact Hx3|].
  apply wp_bind. eapply wp_mono; [apply (wp_unmap_dev_res v A s)|].
  { eapply (ready_step _ _ _ s3); [done|done|apply vf_frame_sched|done]. }
  intros [] s5 Hr5. destruct (ready_slot _ _ _ _ Hr5) as (_ & [e He] & _).
  apply wp_bind. eapply wp_upd_vf; [done|exact He|]. rewrite Hc, Hasym. cbn [when].
  apply wp_bind. eapply wp_mono; [apply (wp_free_block_of v A s)|].
  { eapply (ready_step _ _ _ s5); [done|done|apply vf_frame_upd|done]. }
  intros [] s7 Hr7. apply wp_bind, wp_when_emit. intros s8 He8 _. apply (emitted_ready _ _ _ _ s8) in Hr7; [|done].
  apply wp_bind, wp_emit, wp_ret. destruct (ready_emit _ _ _ _ (SetVfFb v 0 0 :: calls s8) Hr7). done.
Qed.
