(* ===== verification/FbPartProps.v ===== *)
(** * Frame-buffer partition: properties

    Requests to change a VF's share of the frame buffer implement operations
    on a sequence of segments: they succeed exactly when the memory allows it,
    never move another VF, and never run out of pool entries. *)
From S2P Require Import Prelude Api Dlist ListScan FbPart FbPartInv FbPartRun.
Import Dlist ListScan FbPart.
#[local] Open Scope Z_scope.
#[local] Set Warnings "-clear-no-such-hyp".

(** ** Requests *)

(** The size a request for [sz] MB is served with: rounded down to the
    alignment, and the low 32 bits of that, all that the back end is given. *)
Definition served_size (c : config_t) (sz : Z) : Z :=
  let a := AMDGV_FUNCTION_FB_ALIGNMENT c in
  u32 (if Z.land sz (a - 1) =? 0 then sz else rounddown sz a).

(** A 64-bit size that is not cut to nothing. *)
Definition requestable (c : config_t) (sz : Z) : Prop :=
  0 <= sz < 2 ^ 64 /\ (AMDGV_MIN_FB_SIZE_MB <= sz -> 0 < served_size c sz).

Definition vf_active (v : Z) (s : adapter) : bool :=
  match sched_state s !! Z.to_nat v with Some x => x =? AMDGV_SCHED_ACTIVE | None => false end.

(** The partition after a request of a VF; [None] when it is refused. *)
Definition resized (v sz : Z) (A : list seg) (s : adapter) : option (list seg) :=
  if vf_active v s then None
  else if sz =? 0 then (if denied v s then None else Some (release v A))
  else if sz <? AMDGV_MIN_FB_SIZE_MB then None
  else reconfig (window (config s)) v (served_size (config s) sz) A.

Definition supported (c : config_t) : Prop :=
  asymmetric_fb_enabled c = true /\ has_asymmetric_fb_reconfig c = true /\
  0 <= fb_alignment c <= AMDGV_MIN_FB_SIZE_MB.

(** What is written to VF [v]'s frame-buffer registers for a segment at [o]
    of [sz] MB. *)
Definition vf_fb_registers (s : adapter) (v o sz : Z) : call :=
  if ffbm_enabled (config s) && ffbm_share_tmr (config s)
  then SetVfFb v o (u32 (sz + tmr_size s)) else SetVfFb v o sz.

Lemma served_size_range c sz : 0 <= served_size c sz < 2 ^ 32.
Proof. apply Z.mod_pos_bound. lia. Qed.

(** Below 2^32 MB nothing is cut off. *)
Lemma served_size_small c sz : 0 <= fb_alignment c <= AMDGV_MIN_FB_SIZE_MB ->
  AMDGV_MIN_FB_SIZE_MB <= sz < 2 ^ 32 -> 0 < served_size c sz <= sz.
Proof.
  unfold served_size, AMDGV_FUNCTION_FB_ALIGNMENT, AMDGV_MIN_FB_SIZE_MB, rounddown. intros Ha Hs.
  set (a := if fb_alignment c =? 0 then 16 else fb_alignment c).
  assert (0 < a <= 2048) by (subst a; destruct (Z.eqb_spec (fb_alignment c) 0); lia). clearbody a.
  pose proof (Z.mod_pos_bound sz a). destruct (_ =? 0); rewrite wrap_id; unfold in_width; lia.
Qed.

Lemma requestable_small c sz : 0 <= fb_alignment c <= AMDGV_MIN_FB_SIZE_MB -> 0 <= sz < 2 ^ 32 -> requestable c sz.
Proof. intros Ha Hs. split; [lia|]. intros Hm. apply served_size_small; lia. Qed.

Lemma wp_asymmetric v sz A s : fb_inv A s -> vf_id s v -> supported (config s) -> requestable (config s) sz ->
  wp (amdgv_vfmgr_asymmetric_fb_reconfig v sz)
    (fun r s' => match (if sz <? AMDGV_MIN_FB_SIZE_MB then None
                        else reconfig (window (config s)) v (served_size (config s) sz) A) with
                 | Some A' => r = 0 /\ served v (served_size (config s) sz) A' s s'
                 | None => r = AMDGV_FAILURE /\ s' = s
                 end) s.
Proof.
  intros Hinv Hv (_ & _ & Ha) [Hsz Hcut]. pose proof (fi_num _ _ Hinv). pose proof Hv as [Hv1 Hv2].
  unfold amdgv_vfmgr_asymmetric_fb_reconfig. apply wp_bind, wp_gets.
  destruct (Z.eqb_spec v AMDGV_PF_IDX) as [E|_]; [unfold AMDGV_PF_IDX in E; lia|].
  destruct (Z.ltb_spec sz AMDGV_MIN_FB_SIZE_MB) as [|Hmin]; [by apply wp_ret|].
  specialize (Hcut Hmin). pose proof (served_size_range (config s) sz).
  cbv zeta. fold (served_size (config s) sz).
  apply wp_reconfig; [done|done|lia].
Qed.

Lemma emitted_trans s1 s2 s3 : emitted s1 s2 -> emitted s2 s3 -> emitted s1 s3.
Proof. intros [E1 H1] [E2 H2]. split; [by rewrite E2, E1|set_solver]. Qed.

Lemma emitted_emit s c : emitted s (s <| calls := c :: calls s |>).
Proof. split; [by destruct s|cbn; set_solver]. Qed.

Lemma wp_set_vf_fb v e s : 0 <= v -> array_vf s !! Z.to_nat v = Some e ->
  vd_fb_offset_tmr e = vd_fb_offset e -> vd_fb_size_tmr e = u32 (vd_fb_size e + tmr_size s) ->
  wp (amdgv_vfmgr_set_vf_fb v) (fun _ s' => emitted s s' /\
    (vd_configured e = true -> vf_fb_registers s v (vd_fb_offset e) (vd_fb_size e) ∈ calls s')) s.
Proof.
  intros Hv He Ho Hz. unfold amdgv_vfmgr_set_vf_fb. apply wp_bind. eapply wp_vf_at; [done|exact He|].
  destruct (vd_configured e); cbn [negb].
  2: { apply wp_ret. split; [|done]. split; [by destruct s|done]. }
  apply wp_bind, wp_when_emit. intros s1 H1 _. apply wp_bind. unfold set_vf_fb_registers. apply wp_bind.
  assert (array_vf s1 = array_vf s /\ config s1 = config s) as [Ea Ec] by by rewrite (proj1 H1).
  eapply wp_vf_at; [done|rewrite Ea; exact He|]. apply wp_bind, wp_gets. rewrite Ho, Hz, Ec.
  set (r := vf_fb_registers s v (vd_fb_offset e) (vd_fb_size e)).
  assert (forall Q : unit -> adapter -> Prop, (forall s2, emitted s s2 -> r ∈ calls s2 -> Q tt s2) ->
    wp (if ffbm_enabled (config s) && ffbm_share_tmr (config s)
        then emit (SetVfFb v (vd_fb_offset e) (u32 (vd_fb_size e + tmr_size s)))
        else emit (SetVfFb v (vd_fb_offset e) (vd_fb_size e))) Q s1) as Hreg.
  { intros Q HQ. subst r. unfold vf_fb_registers in HQ.
    destruct (_ && _); apply wp_emit, HQ; try (eapply emitted_trans; [exact H1|apply emitted_emit]); cbn; set_solver. }
  apply Hreg. intros s2 H2 Hr.
  apply wp_bind, wp_emit, wp_bind, wp_emit, wp_bind, wp_gets.
  set (s3 := s2 <| calls := _ |> <| calls := _ |>).
  assert (emitted s2 s3) as H3 by (eapply emitted_trans; apply emitted_emit). clearbody s3.
  apply wp_bind, wp_when_emit. intros s4 H4 _. apply wp_when_emit. intros s5 H5 _.
  assert (emitted s2 s5) as H25 by (eapply emitted_trans; [exact H3|]; by eapply emitted_trans).
  split; [by eapply emitted_trans|]. intros _. apply H25, Hr.
Qed.

(** What a granted request of [sz] MB leaves in VF [v]'s entry and asks of
    the hardware. *)
Definition granted (v sz : Z) (A' : list seg) (s s' : adapter) : Prop :=
  exists g e, share v A' = Some g /\ len g = sz /\ array_vf s' !! Z.to_nat v = Some e /\
    vd_fb_offset e = off g /\ vd_fb_size e = sz /\
    (vd_configured e = true -> vf_fb_registers s' v (off g) sz ∈ calls s').

Lemma wp_resize v sz A s : fb_inv A s -> vf_id s v -> supported (config s) -> requestable (config s) sz ->
  wp (amdgv_vfmgr_vf_fb_resize v sz)
    (fun r s' => match resized v sz A s with
     | Some A' => r = 0 /\ fb_inv A' s' /\ vf_frame v s s' /\
         (sz <> 0 -> granted v (served_size (config s) sz) A' s s')
     | None => r = AMDGV_FAILURE /\ s' = s
     end) s.
Proof.
  intros Hinv Hv Hsup Hsz. pose proof Hsup as (Has & Hhook & _).
  destruct (ready_slot _ _ _ _ (ready_refl _ _ _ Hinv Hv)) as (Hv0 & _ & [x Hx]).
  unfold amdgv_vfmgr_vf_fb_resize, resized, vf_active. apply wp_bind, wp_gets. rewrite Has, Hhook, Hx. cbn [negb orb].
  apply wp_bind. eapply wp_sched_is; [done|exact Hx|]. destruct (x =? AMDGV_SCHED_ACTIVE); [by apply wp_ret|].
  destruct (Z.eqb_spec sz 0) as [->|Hne].
  { eapply wp_mono; [by apply (wp_free_vf v A)|]. intros r s'. destruct (denied v s); [done|].
    intros (-> & Hi & Hf). by split_and!. }
  apply wp_bind. eapply wp_mono; [by apply wp_asymmetric|]. intros r s1.
  destruct (if sz <? AMDGV_MIN_FB_SIZE_MB then _ else _) as [A'|]; [|intros [-> ->]; by apply wp_ret].
  intros [-> [Hi Hf (e & g & He & Hg & Hl & Ho & Hot & Hz & Hzt)]].
  change (0 =? 0) with true. apply wp_bind. cbn [when]. apply wp_bind.
  eapply wp_mono; [by apply (wp_set_vf_fb v e); try congruence|]. intros [] s2 [H2 Hc2].
  apply wp_when_emit. intros s3 H3 _. apply wp_ret. pose proof (emitted_trans _ _ _ H2 H3) as [H4 Hc4].
  assert (ready A' v s s3) as [Hi3 Hf3 _].
  { rewrite H4. apply ready_emit. split; [done|done|]. unfold vf_id. by rewrite (vf_num _ _ _ Hf). }
  split_and!; [done|done|done|]. intros _. exists g, e.
  assert (array_vf s3 = array_vf s1) as Ea by by rewrite H4.
  assert (forall o z, vf_fb_registers s3 v o z = vf_fb_registers s1 v o z) as Er by by rewrite H4.
  split_and!; [done|done|by rewrite Ea|done|done|]. intros Hcf. rewrite Er, <- Ho, <- Hz. by apply H3, Hc2.
Qed.

Lemma resized_facts v sz A A' s : NoDup (owners A) -> resized v sz A s = Some A' ->
  total A' = total A /\ others v A' = others v A.
Proof.
  intros Hnd. unfold resized. destruct (vf_active v s); [done|].
  destruct (sz =? 0).
  - destruct (denied v s); [done|]. intros [= <-]. apply release_facts.
  - destruct (sz <? _); [done|]. intros H%reconfig_facts; [|done]. by destruct H as (? & ? & _).
Qed.

(** C10: a request to resize VF [v]'s frame buffer implements the abstract
    operation on the partition.  It is refused, with nothing changed, exactly
    when the VF is active, the size is below the minimum, memory that must be
    cleared first cannot be, or neither a free segment nor the VF's own
    segment with the free room around it is large enough; otherwise it
    succeeds, the blocks then hold the abstract result, every other VF keeps
    its window and memory, no memory is lost, and the VF has the size it asked
    for, recorded in its entry and handed to the PF-to-VF registers.  That
    size is rounded down to the alignment and cut to its low 32 bits
    ([served_size]): a size below 2^32 MB is only rounded
    ([served_size_small]), of a larger one only the low half is served or
    refused.  The sizes excluded are those the cut leaves at nothing, and the
    configuration is the asymmetric one with an alignment of at most the
    minimum size. *)
Theorem fb_resize_refines v sz A s (Hinv : fb_inv A s) (Hv : vf_id s v) (Hsup : supported (config s))
  (Hsz : requestable (config s) sz) :
  exists r s', amdgv_vfmgr_vf_fb_resize v sz s = Ret (r, s') /\
  match resized v sz A s with
  | None => r = AMDGV_FAILURE /\ s' = s
  | Some A' => r = 0 /\ fb_inv A' s' /\ total A' = total A /\ others v A' = others v A /\
      (forall w, w <> Z.to_nat v -> array_vf s' !! w = array_vf s !! w) /\
      (sz <> 0 -> granted v (served_size (config s) sz) A' s s')
  end.
Proof.
  destruct (wp_returns _ _ _ (wp_resize v sz A s Hinv Hv Hsup Hsz)) as (r & s' & E & HQ).
  exists r, s'. split; [exact E|]. pose proof (resized_facts v sz A) as Hfacts.
  destruct (resized v sz A s) as [A'|] eqn:HA; [|done].
  destruct HQ as (-> & Hi & Hf & Hg). destruct (Hfacts A' s) as [H1 H2]; [apply Hinv|done|].
  split_and!; try done. intros w Hw. by destruct (vf_other _ _ _ Hf w Hw).
Qed.

(** ** Histories *)

(** A request, or a change of a VF's scheduling state by the scheduler. *)
Inductive fb_event :=
| FbResize (v sz : Z)
| FbSched (v st : Z).

Definition run_event (o : fb_event) : M adapter unit :=
  match o with
  | FbResize v sz => _ ← amdgv_vfmgr_vf_fb_resize v sz; mret tt
  | FbSched v st => set_vf_sched v st
  end.

Definition event_ok (n : Z) (o : fb_event) : Prop :=
  match o with
  | FbResize v sz => 0 <= v < n /\ 0 <= sz < 2 ^ 32
  | FbSched v _ => 0 <= v < n
  end.

(** What a history keeps. *)
Definition same_memory (A : list seg) (c : config_t) (n : Z) (s : adapter) : Prop :=
  config s = c /\ num_vf s = n /\ exists A', fb_inv A' s /\ total A' = total A.

Lemma wp_run_event A c n o s : supported c -> event_ok n o -> same_memory A c n s ->
  wp (run_event o) (fun _ => same_memory A c n) s.
Proof.
  intros Hsup Ho (<- & <- & A1 & Hinv & Htot). destruct o as [v sz|v st]; cbn in Ho.
  - destruct Ho as [Hv Hsz]. apply wp_bind. eapply wp_mono; [apply (wp_resize v sz A1); try done; by apply requestable_small; [apply Hsup|]|].
    intros r s' HQ.
    pose proof (resized_facts v sz A1) as Hfacts. destruct (resized v sz A1 s) as [A2|] eqn:E; apply wp_ret.
    + destruct HQ as (_ & Hi & Hf & _). split_and!; [apply Hf|apply Hf|]. exists A2. split; [done|].
      destruct (Hfacts A2 s) as [-> _]; [apply Hinv|done|done].
    + destruct HQ as [_ ->]. split_and!; [done|done|]. by exists A1.
  - destruct (ready_slot _ _ _ _ (ready_refl _ v _ Hinv Ho)) as (Hv0 & _ & [x Hx]).
    eapply wp_set_sched; [done|exact Hx|]. split_and!; [done|done|]. exists A1. split; [|done].
    eapply (fb_inv_frame v); [..|exact Hinv]; [done|done|apply vf_frame_sched].
Qed.

(** The entries of the pool in use. *)
Definition used_blocks (s : adapter) : nat := length (filter (fun b => used b = true) (vf_fb_block s)).

Lemma used_blocks_bound A s : fb_inv A s -> (used_blocks s <= 29)%nat.
Proof.
  intros Hinv. pose proof (blocks_bound _ _ Hinv) as Hb. destruct (fi_repr _ _ Hinv) as [L Hr].
  rewrite <- (rows_length _ _ _ (rp_rows _ _ _ Hr)) in Hb. etrans; [|exact Hb]. unfold used_blocks.
  pose proof (rp_unused _ _ _ Hr) as Hun. clear Hb Hr Hinv.
  enough (forall k B, (forall i b, B !! i = Some b -> used b = true -> (k + i)%nat ∈ L) ->
    exists idx, length (filter (fun b => used b = true) B) = length idx /\ NoDup idx /\
      forall j, j ∈ idx -> j ∈ L /\ (k <= j)%nat) as H.
  { destruct (H 0%nat (vf_fb_block s)) as (idx & -> & Hnd & Hin).
    { intros i b Hb Hu. destruct (decide (i ∈ L)) as [|Hn]; [done|]. by rewrite (Hun _ _ Hb Hn) in Hu. }
    apply submseteq_length, NoDup_submseteq; [done|]. intros j Hj. by apply Hin. }
  clear. intros k B. revert k. induction B as [|b B IH]; intros k HB.
  { exists []. split_and!; [done|constructor|]. by intros j ?%elem_of_nil. }
  destruct (IH (S k)) as (idx & Hlen & Hnd & Hin).
  { intros i c Hc Hu. rewrite Nat.add_succ_comm. by apply (HB (S i) c). }
  destruct (decide (used b = true)) as [Hu|Hu].
  - exists (k :: idx). rewrite filter_cons_True by done. cbn. split_and!; [by rewrite Hlen| |].
    + apply NoDup_cons. split; [|done]. intros Hk%Hin. lia.
    + intros j [->|Hj]%elem_of_cons; [|split; [by apply Hin|apply Hin in Hj; lia]].
      split; [|lia]. rewrite <- (Nat.add_0_r k). by apply (HB 0%nat b).
  - exists idx. rewrite filter_cons_False by done. split_and!; [done|done|].
    intros j Hj. apply Hin in Hj. split; [apply Hj|lia].
Qed.

(** C25: whatever sequence of resize requests and scheduling changes is run,
    with any sizes below 2^32 MB, no step follows a NULL or stray pointer or indexes out of
    range, at most 29 of the 32 pool entries are ever in use, and the sizes of
    the blocks keep adding up to the memory there was. *)
Theorem fb_reachable_safe A s (evs : list fb_event) (Hinv : fb_inv A s) (Hsup : supported (config s))
  (Hevs : Forall (event_ok (num_vf s)) evs) :
  exists s', for_each evs run_event s = Ret (tt, s') /\ (used_blocks s' <= 29)%nat /\
    exists A', fb_inv A' s' /\ total A' = total A.
Proof.
  assert (wp (for_each evs run_event) (fun _ => same_memory A (config s) (num_vf s)) s) as Hwp.
  { apply wp_for_each; [|by split_and!; [..|exists A]]. intros o t Ho Ht.
    eapply wp_run_event; [done| |done]. rewrite Forall_forall in Hevs. by apply Hevs. }
  destruct (wp_returns _ _ _ Hwp) as ([] & s' & E & (_ & _ & A' & Hi & Ht)). exists s'.
  split_and!; [exact E|by eapply used_blocks_bound|by exists A'].
Qed.

(** ** Default layout *)

(** The segments of VFs [vs], each of [sz] MB, in windows of [T] MB from [o]. *)
Definition layout (o sz T : Z) (vs : list Z) : list seg :=
  (fun v => mk_seg (Some v) sz (o + v * T) T) <$> vs.
Definition vf_ids (n : Z) : list Z := Z.of_nat <$> seq 0 (Z.to_nat n).

(** Share of a VF, and start of the VF part, as the settings make them. *)
Definition default_size (s : adapter) (pf : Z) : Z :=
  rounddown (u32 (usable_fb (config s) - pf) / num_vf s) (AMDGV_FUNCTION_FB_ALIGNMENT (config s)).
Definition default_start (s : adapter) (pf : Z) : Z :=
  roundup 32 pf (AMDGV_FUNCTION_FB_ALIGNMENT (config s)).

(** An adapter whose block list is fresh and whose sizes fit. *)
Record fresh (s : adapter) (pf : vf_device) : Prop := {
  fr_repr : repr [] [] s;
  fr_supported : supported (config s);
  fr_modes : ffbm_enabled (config s) && ffbm_share_tmr (config s) = true;
  fr_num : 0 < num_vf s <= 14;
  fr_vfs : length (array_vf s) = Z.to_nat AMDGV_MAX_VF_SLOT;
  fr_sched : length (sched_state s) = Z.to_nat AMDGV_MAX_VF_SLOT;
  fr_pf : array_vf s !! Z.to_nat AMDGV_PF_IDX = Some pf;
  fr_size : 0 < default_size s (vd_fb_size pf);
  fr_window : 0 < window (config s) (default_size s (vd_fb_size pf));
  fr_start : 0 <= default_start s (vd_fb_size pf);
  fr_end : default_start s (vd_fb_size pf) +
           num_vf s * window (config s) (default_size s (vd_fb_size pf)) < 2 ^ 32;
}.

Lemma owners_layout o sz T vs : owners (layout o sz T vs) = vs.
Proof. induction vs as [|v vs IH]; [done|]. unfold layout. rewrite fmap_cons, owners_cons. cbn. by f_equal. Qed.

Lemma total_layout o sz T vs : total (layout o sz T vs) = sz * Z.of_nat (length vs).
Proof. unfold layout. induction vs as [|v vs IH]; [cbn; lia|]. rewrite fmap_cons. cbn [total len length] in *. lia. Qed.

Lemma normal_layout o sz T vs : normal false (layout o sz T vs) = true.
Proof. by induction vs as [|v vs IH]. Qed.

Lemma layout_app o sz T us vs : layout o sz T (us ++ vs) = layout o sz T us ++ layout o sz T vs.
Proof. apply fmap_app. Qed.

Lemma ins_end g A : Forall (fun h => off h < off g) A -> ins g A = A ++ [g].
Proof.
  induction 1 as [|h A Hh _ IH]; cbn; [done|]. destruct (Z.leb_spec (off g) (off h)); [lia|]. by rewrite IH.
Qed.

Lemma vf_ids_split n pre x post : vf_ids n = pre ++ x :: post ->
  x = Z.of_nat (length pre) /\ Forall (fun v => 0 <= v < x) pre /\ 0 <= x < n.
Proof.
  intros E. unfold vf_ids in E. apply fmap_app_inv in E as (l1 & l2 & -> & E2 & Hs).
  destruct l2 as [|k l2]; [done|]. injection E2 as -> ->.
  assert (l1 = seq 0 (length l1) /\ k = length l1) as [Hl1 ->].
  { assert (seq 0 (Z.to_nat n) !! length l1 = Some k) as Hk by (rewrite Hs; by rewrite list_lookup_middle).
    apply lookup_seq in Hk as [-> Hlt]. split; [|done]. apply list_eq. intros i.
    destruct (decide (i < length l1)%nat) as [Hi|Hi].
    - assert (seq 0 (Z.to_nat n) !! i = l1 !! i) as <- by (rewrite Hs; by rewrite lookup_app_l).
      by rewrite !lookup_seq_lt by lia.
    - rewrite !lookup_ge_None_2; rewrite ?length_seq; done || lia. }
  rewrite length_fmap. assert (length l1 < Z.to_nat n)%nat.
  { assert (length (seq 0 (Z.to_nat n)) = length (l1 ++ length l1 :: l2)) as H by by rewrite Hs.
    rewrite length_seq, length_app in H. cbn in H. lia. }
  split_and!; [done| |lia|lia]. rewrite Hl1. rewrite length_seq.
  apply Forall_fmap, Forall_forall. intros i Hi%elem_of_seq. cbn. lia.
Qed.

(** The VFs [pre] have their default share. *)
Record laid (c : config_t) (n o sz T : Z) (pre : list Z) (s : adapter) : Prop := {
  ld_repr : exists L, repr L (layout o sz T pre) s;
  ld_config : config s = c;
  ld_num : num_vf s = n;
  ld_vfs : length (array_vf s) = Z.to_nat AMDGV_MAX_VF_SLOT;
  ld_sched : length (sched_state s) = Z.to_nat AMDGV_MAX_VF_SLOT;
  ld_entry : Forall (fun v => exists e, array_vf s !! Z.to_nat v = Some e /\
               vd_fb_size e = sz /\ vd_fb_offset_tmr e = o + v * T) pre;
}.

Lemma wp_default_vf c n o0 o sz T pre v s : laid c n o sz T pre s -> asymmetric_fb_enabled c = true ->
  window c sz = T -> 0 < sz -> 0 < T -> 0 <= o -> o + n * T < 2 ^ 32 -> n * sz < 2 ^ 32 -> n <= 14 ->
  NoDup pre -> v = Z.of_nat (length pre) -> Forall (fun w => 0 <= w < v) pre -> 0 <= v < n ->
  wp (default_vf o0 sz o T v) (fun _ => laid c n o sz T (pre ++ [v])) s.
Proof.
  intros [[L Hr] <- <- Hvfs Hsch Hent] Has HT Hsz HTp Ho Hend Hmem Hn Hnd Hv Hpre Hvn.
  unfold default_vf. cbv zeta. apply wp_bind, wp_gets.
  destruct (vf_slot (array_vf s) v Hvfs) as [e He]; [lia|].
  apply wp_bind. eapply wp_upd_vf; [lia|exact He|]. apply wp_bind, wp_gets. cbn [config upd]. rewrite Has. cbn [when].
  assert (o + v * T < 2 ^ 32) by nia. assert (0 <= v * T) by nia.
  rewrite (wrap_id 32 (o + v * T)) by (unfold in_width; lia).
  match goal with |- wp _ _ ?t => set (s1 := t) end.
  assert (repr L (layout o sz T pre) s1) as Hr1 by by apply (repr_frame _ _ s).
  assert (v ∉ pre) as Hfresh by (intros Hi; rewrite Forall_forall in Hpre; specialize (Hpre _ Hi); lia).
  apply wp_bind. eapply wp_find_by_fcn; [exact Hr1|by rewrite owners_layout| |].
  { intros us i vs AU g AV _ HA _ Hg _ _. destruct Hfresh. rewrite <- (owners_layout o sz T pre), HA.
    rewrite owners_app, owners_cons, Hg. set_solver. }
  intros _. apply wp_bind, wp_ret. apply wp_bind.
  eapply wp_mono; [apply (wp_create v (o + v * T) sz false L (layout o sz T pre)); [done| |done|]|].
  - rewrite (rows_length _ _ _ (rp_rows _ _ _ Hr1)). unfold layout. rewrite length_fmap. lia.
  - rewrite total_layout. nia.
  - intros r s2 (Hf & j & us & vs & AU & AV & -> & HA & Hl & Hins & Hr2). apply wp_ret.
    assert (layout o sz T (pre ++ [v]) = AU ++ new_seg (config s1) v (o + v * T) sz false :: AV) as Hlay.
    { rewrite <- Hins, layout_app, ins_end.
      - unfold new_seg, layout. cbn. by rewrite HT.
      - apply Forall_fmap. eapply Forall_impl; [exact Hpre|]. cbn. intros w Hw. nia. }
    pose proof (fs_frame _ _ Hf) as Hs2. split; [exists (us ++ j :: vs); by rewrite Hlay|..]; rewrite Hs2; try done.
    + cbn. by rewrite length_insert.
    + cbn. apply Forall_app. split.
      * eapply Forall_impl; [apply Forall_and; split; [exact Hent|exact Hpre]|]. cbn.
        intros w [(e' & He' & ?) Hw]. exists e'. rewrite list_lookup_insert_ne by lia. done.
      * constructor; [|constructor]. eexists. rewrite list_lookup_insert_eq by (rewrite Hvfs; unfold AMDGV_MAX_VF_SLOT; lia).
        done.
Qed.

Lemma vf_ids_nodup n : NoDup (vf_ids n).
Proof. unfold vf_ids. apply NoDup_fmap; [intros ?? ?; lia|apply NoDup_seq]. Qed.

Lemma wp_default_layout s pf : fresh s pf ->
  let sz := default_size s (vd_fb_size pf) in
  let o := default_start s (vd_fb_size pf) in
  let T := window (config s) sz in
  wp amdgv_vfmgr_init_vfs_fb_config_tmr (fun _ => laid (config s) (num_vf s) o sz T (vf_ids (num_vf s))) s.
Proof.
  intros [Hr [Has [_ [Ha _]]] Hff Hn Hvfs Hsch Hpf Hsz HT Ho Hend]. cbv zeta.
  pose proof (rp_tmr _ _ _ Hr Hff) as Htmr.
  unfold amdgv_vfmgr_init_vfs_fb_config_tmr.
  apply wp_bind, wp_gets, wp_bind, wp_gets, wp_bind. eapply wp_vf_at; [done|exact Hpf|]. cbv zeta.
  apply wp_bind, wp_demand; [apply negb_true_iff; lia|]. fold (default_size s (vd_fb_size pf)).
  fold (default_start s (vd_fb_size pf)).
  destruct (tmr_mem_len (config s)) as [t|] eqn:Et; [|done]. apply wp_bind. eapply wp_require; [done|].
  apply wp_bind, wp_modify. rewrite Has.
  set (sz := default_size s (vd_fb_size pf)) in *. set (o := default_start s (vd_fb_size pf)) in *.
  assert (window (config s) sz = u32 (roundup 64
    (u64 (sz + u64 (TO_MBYTES t * (sz / AMDGV_MIN_FB_SIZE_MB) * 11) / 10)) (AMDGV_FUNCTION_FB_ALIGNMENT (config s)))) as ET.
  { unfold window. by rewrite Hff, Et. }
  rewrite <- ET. set (T := window (config s) sz) in *.
  assert (num_vf s * sz < 2 ^ 32) as Hmem.
  { subst sz. unfold default_size, rounddown. set (u := u32 (usable_fb (config s) - vd_fb_size pf)).
    assert (0 <= u < 2 ^ 32) as Hu by (apply Z.mod_pos_bound; lia).
    unfold default_size, rounddown in Hsz. fold u in Hsz.
    pose proof (Z.mul_div_le u (num_vf s)) as Hd.
    assert (0 < AMDGV_FUNCTION_FB_ALIGNMENT (config s)) as Hap.
    { unfold AMDGV_FUNCTION_FB_ALIGNMENT. destruct (Z.eqb_spec (fb_alignment (config s)) 0); lia. }
    pose proof (Z.mod_pos_bound (u / num_vf s) _ Hap). nia. }
  apply (wp_for_each_pre (fun pre => laid (config s) (num_vf s) o sz T pre)).
  - intros pre x post s1 Hs Hl. pose proof (vf_ids_nodup (num_vf s)) as Hnd.
    change (vf_ids (num_vf s) = pre ++ x :: post) in Hs. rewrite Hs in Hnd.
    destruct (vf_ids_split _ _ _ _ Hs) as (? & ? & ?).
    apply wp_default_vf; try done; [lia..|]. by apply NoDup_app in Hnd as [? _].
  - split; try done. exists []. by apply (repr_frame _ _ s).
Qed.

Lemma laid_inv c n o sz T s : laid c n o sz T (vf_ids n) s -> 0 < n <= 14 ->
  fb_inv (layout o sz T (vf_ids n)) s.
Proof.
  intros [] Hn. split; rewrite ?owners_layout; try done; [apply normal_layout|apply vf_ids_nodup| |by rewrite ld_num0; lia].
  unfold vf_ids. apply Forall_fmap, Forall_forall. intros i Hi%elem_of_seq. unfold vf_id. cbn. lia.
Qed.

(** From a fresh block list, the default configuration gives each of the
    [num_vf] VFs the same aligned share of the usable frame buffer, in windows
    that follow each other from the end of the PF's part without gap or
    overlap, leaves no free block, and establishes the invariant the resize
    requests keep. *)
Theorem fb_default_layout s pf (Hfresh : fresh s pf) :
  let sz := default_size s (vd_fb_size pf) in
  let o := default_start s (vd_fb_size pf) in
  let T := window (config s) sz in
  exists s', amdgv_vfmgr_init_vfs_fb_config_tmr s = Ret (tt, s') /\
    fb_inv (layout o sz T (vf_ids (num_vf s))) s' /\ config s' = config s /\ num_vf s' = num_vf s /\
    forall v, v ∈ vf_ids (num_vf s) -> exists e, array_vf s' !! Z.to_nat v = Some e /\
      vd_fb_size e = sz /\ vd_fb_offset_tmr e = o + v * T.
Proof.
  pose proof (wp_default_layout s pf Hfresh) as Hwp. cbv zeta in *.
  destruct (wp_returns _ _ _ Hwp) as ([] & s' & E & Hl). exists s'.
  split_and!; [exact E|eapply laid_inv, Hfresh; exact Hl|apply Hl|apply Hl|].
  intros v Hv. pose proof (ld_entry _ _ _ _ _ _ _ Hl) as He. rewrite Forall_forall in He. by apply He.
Qed.

(** ** A concrete adapter: five VFs on 15 GB, with a 48 MB shared TMR *)

Definition demo_config : config_t :=
  mk_config 0 true true (Some 50331648) true true 14 false false false true 15616.
Definition demo_vf (sz : Z) : vf_device := mk_vf true false 0 sz 0 0 0 0 0.
Definition demo : adapter :=
  mk_adapter (replicate 32 zero_fb) (AMDGV_INIT_LIST_HEAD FbList (mk_links ∅ ∅))
    (replicate 31 (demo_vf 0) ++ [demo_vf 256]) (replicate 32 AMDGV_SCHED_AVAIL) 5 0 demo_config [].

Definition run_fb {A} (m : M adapter A) (s : adapter) : adapter :=
  match m s with Ret (_, s') => s' | Fault => s end.
Definition demo_on : adapter := run_fb amdgv_vfmgr_init_vfs_fb_config_tmr demo.

(** What VF [v] holds in the pool: window offset, memory, window size. *)
Definition held (v : Z) (s : adapter) : list (Z * Z * Z) :=
  (fun b => (fb_offset_tlb b, fb_size b, fb_size_tlb b)) <$>
    filter (fun b => used b && allocated b && (idx_vf b =? v) = true) (vf_fb_block s).

Lemma demo_repr : repr [] [] demo.
Proof.
  split; [by vm_compute|apply init_dlist|done| |done|by apply not_elem_of_nil| |done].
  - intros i b Hb _. apply lookup_replicate in Hb as [-> _]. done.
  - intros b Hb. apply lookup_replicate in Hb as [-> _]. done.
Qed.

Lemma demo_fresh : fresh demo (demo_vf 256).
Proof.
  split; [exact demo_repr|split_and!; by vm_compute|by vm_compute|split; by vm_compute|by vm_compute..].
Qed.

Lemma demo_on_inv : fb_inv (layout 256 3072 3136 (vf_ids 5)) demo_on.
Proof.
  pose proof (wp_default_layout demo (demo_vf 256) demo_fresh) as Hwp. cbv zeta in Hwp.
  destruct (wp_returns _ _ _ Hwp) as ([] & s' & E & Hl). unfold demo_on, run_fb. rewrite E.
  assert (default_size demo (vd_fb_size (demo_vf 256)) = 3072) as E1 by by vm_compute.
  assert (default_start demo (vd_fb_size (demo_vf 256)) = 256) as E2 by by vm_compute.
  rewrite E1, E2 in Hl. assert (window (config demo) 3072 = 3136) as E3 by by vm_compute.
  rewrite E3 in Hl. apply (laid_inv _ _ _ _ _ _ Hl). split; by vm_compute.
Qed.

Lemma demo_on_config : config demo_on = demo_config /\ num_vf demo_on = 5.
Proof. split; by vm_compute. Qed.

Lemma demo_supported : supported (config demo_on).
Proof. rewrite (proj1 demo_on_config). split_and!; by vm_compute. Qed.

(** VF 1 asks for 2048 of its 3072 MB. *)
Lemma fb_resize_refines_witness :
  resized 1 2048 (layout 256 3072 3136 (vf_ids 5)) demo_on <> None /\
  exists r s', amdgv_vfmgr_vf_fb_resize 1 2048 demo_on = Ret (r, s') /\
  match resized 1 2048 (layout 256 3072 3136 (vf_ids 5)) demo_on with
  | None => r = AMDGV_FAILURE /\ s' = demo_on
  | Some A' => r = 0 /\ fb_inv A' s' /\ total A' = total (layout 256 3072 3136 (vf_ids 5)) /\
      others 1 A' = others 1 (layout 256 3072 3136 (vf_ids 5)) /\
      (forall w, w <> Z.to_nat 1 -> array_vf s' !! w = array_vf demo_on !! w) /\
      (2048 <> 0 -> granted 1 (served_size (config demo_on) 2048) A' demo_on s')
  end.
Proof.
  split; [by vm_compute|]. apply fb_resize_refines.
  - exact demo_on_inv.
  - unfold vf_id. rewrite (proj2 demo_on_config). lia.
  - exact demo_supported.
  - by apply requestable_small; [apply demo_supported|].
Defined.

Lemma fb_reachable_safe_witness :
  exists s', for_each [FbResize 0 0; FbResize 1 0; FbSched 2 AMDGV_SCHED_ACTIVE; FbResize 2 0; FbResize 0 5000]
    run_event demo_on = Ret (tt, s') /\ (used_blocks s' <= 29)%nat /\
    exists A', fb_inv A' s' /\ total A' = total (layout 256 3072 3136 (vf_ids 5)).
Proof.
  apply fb_reachable_safe; [exact demo_on_inv|exact demo_supported|].
  rewrite (proj2 demo_on_config). repeat constructor; cbn; lia.
Defined.

Lemma fb_default_layout_witness :
  let sz := default_size demo (vd_fb_size (demo_vf 256)) in
  let o := default_start demo (vd_fb_size (demo_vf 256)) in
  let T := window (config demo) sz in
  (o, sz, T) = (256, 3072, 3136) /\
  exists s', amdgv_vfmgr_init_vfs_fb_config_tmr demo = Ret (tt, s') /\
    fb_inv (layout o sz T (vf_ids (num_vf demo))) s' /\ config s' = config demo /\ num_vf s' = num_vf demo /\
    forall v, v ∈ vf_ids (num_vf demo) -> exists e, array_vf s' !! Z.to_nat v = Some e /\
      vd_fb_size e = sz /\ vd_fb_offset_tmr e = o + v * T.
Proof. cbv zeta. split; [by vm_compute|exact (fb_default_layout demo (demo_vf 256) demo_fresh)]. Defined.

(** ** Where the component does not do what it means to *)

Definition resize (v sz : Z) : M adapter unit := _ ← amdgv_vfmgr_vf_fb_resize v sz; mret tt.

(** Giving a freed VF its frame buffer again lays all VFs out anew, next to
    the free block that is still there: VF 2 is then given memory VF 0 has. *)
Theorem fb_realloc_double_books :
  let s := run_fb (_ ← resize 0 0; _ ← resize 1 0; _ ← amdgv_vfmgr_set_entry_fb 0 0 3072; resize 2 6144) demo_on in
  held 0 s = [(256, 3072, 3136)] /\ held 2 s = [(256, 6144, 6272)].
Proof. by vm_compute. Qed.

(** Removing all VFs leaves the block a freed VF's neighbours were merged
    into, and the next default layout overlaps it: 15 GB of memory are
    accounted for twice. *)
Theorem fb_remove_leaves_free_block :
  let s := run_fb (_ ← resize 0 0; _ ← amdgv_vfmgr_remove_inactive_vfs; amdgv_vfmgr_init_vfs_fb_config_tmr) demo_on in
  (forall v, v ∈ vf_ids 5 -> exists o t, held v s = [(o, 3072, t)]) /\
  List.existsb (fun b => used b && negb (allocated b) && (fb_offset_tlb b =? 256) && (fb_size b =? 15360)) (vf_fb_block s) = true.
Proof.
  cbv zeta. split; [|by vm_compute]. intros v Hv. assert (Hin : v ∈ [0; 1; 2; 3; 4]) by exact Hv.
  repeat (apply elem_of_cons in Hin as [->|Hin]; [by eexists _, _; vm_compute|]). by apply elem_of_nil in Hin.
Qed.

(** The window of a merged block need not hold the window its memory takes:
    VF 3's registers then reach into VF 4's window. *)
Theorem fb_windows_overlap :
  let s := run_fb (_ ← resize 0 0; _ ← resize 1 0; _ ← resize 2 0; _ ← resize 0 8192; _ ← resize 3 0; resize 3 4096) demo_on in
  held 4 s = [(12800, 3072, 3136)] /\ SetVfFb 3 8672 4144 ∈ calls s /\ 8672 + 4144 > 12800.
Proof.
  cbv zeta. split_and!; [by vm_compute| |done]. apply list_elem_of_In. vm_compute. tauto.
Qed.

(** Only the low half of the requested size reaches the back end. *)
Theorem fb_size_truncated :
  let s := run_fb (resize 1 (2 ^ 32 + 2048)) demo_on in held 1 s = [(3392, 2048, 2112)].
Proof. by vm_compute. Qed.
