(* ===== verification/Ffbm.v ===== *)
(** * Flexible frame-buffer mapping (src/libgv/core/amdgv_ffbm.c)

    The page-table block allocator that gives every VF a guest-physical view
    of pieces of the physical frame buffer.  Blocks live in a static pool and
    are linked, by intrusive lists, once in physical order ([SpaHead]) and
    once per VF in the list of its mapped blocks ([GpaHead]).

    A block is named by its index in the pool.  Mutexes are not modelled: the
    operations are sequential.  Log output is left out.  A loop that has not
    ended after [FFBM_FUEL] nodes is a [Fault]. *)
From S2P Require Import Prelude Api Dlist.
Import Dlist.
#[local] Open Scope Z_scope.

Module Ffbm.

(** ** Data *)

Inductive amdgv_ffbm_mem_type :=
| MEM_TYPE_INVALID | MEM_TYPE_PF | MEM_TYPE_VF | MEM_TYPE_RESERVED
| MEM_TYPE_BAD_PAGE | MEM_TYPE_NOT_ASSIGNED | MEM_TYPE_TMR.

#[export] Instance mem_type_eq_dec : EqDecision amdgv_ffbm_mem_type.
Proof. solve_decision. Defined.

(** The list nodes the module links together. *)
Inductive node := SpaHead | GpaHead (vf : Z) | SpaNode (i : nat) | GpaNode (i : nat).

#[export] Instance node_eq_dec : EqDecision node.
Proof. solve_decision. Defined.
#[export] Instance node_countable : Countable node.
Proof.
  refine (inj_countable'
    (fun n => match n with
              | SpaHead => inl (inl tt) | GpaHead v => inl (inr v)
              | SpaNode i => inr (inl i) | GpaNode i => inr (inr i)
              end)
    (fun x => match x with
              | inl (inl _) => SpaHead | inl (inr v) => GpaHead v
              | inr (inl i) => SpaNode i | inr (inr i) => GpaNode i
              end) _).
  by intros [].
Defined.

Record pte_block := mk_pteb {
  gpa : Z; spa : Z; size : Z; fragment : Z; permission : Z; vf_idx : Z;
  type : amdgv_ffbm_mem_type; applied : bool
}.
#[export] Instance eta_pteb : Eta pte_block := fun r =>
  mk_pteb (gpa r) (spa r) (size r) (fragment r) (permission r) (vf_idx r) (type r) (applied r).

Definition zero_pteb : pte_block := mk_pteb 0 0 0 0 0 0 MEM_TYPE_INVALID false.

Record memory_block_t := mk_mb { pteb_of : pte_block; used : bool }.

Record vf_device := mk_vf { fb_offset : Z; fb_size : Z; fb_size_tmr : Z }.

Definition AMDGV_FFBM_MEMORY_ALLOCATION_COUNT : nat := 256.
Definition FFBM_FUEL : nat := S AMDGV_FFBM_MEMORY_ALLOCATION_COUNT.
Definition AMDGV_FFBM_FB_TMR_OFFSET : Z := 2.
Definition AMDGV_FFBM_INVALID_ADDR : Z := 2 ^ 64 - 1.
Definition AMDGV_FFBM_VF_MIN_MAP_SIZE : Z := MBYTES_TO_BYTES 16.
Definition AMDGV_FFBM_ERROR_BAD_ADDR : Z := -2.
Definition AMDGV_FFBM_ERROR_NO_MEM : Z := -3.
Definition AMDGV_FFBM_ERROR_INVALD_SIZE : Z := -5.
Definition AMDGV_FFBM_PERM_RW : Z := 3.
Definition PAGE_SIZE : Z := 4096.
Definition AMDGV_GPU_PAGE_SHIFT : Z := 12.
Definition FFBM_MAP_ENTRY_MAX_COUNT : nat := 128.

(** ** The address macros *)

Definition AMDGV_FFBM_PAGE_SIZE (fragment : Z) : Z := Z.shiftl 1 (fragment + 12).
Definition AMDGV_FFBM_PAGE_ALIGN (val fragment : Z) : Z :=
  Z.land val (Z.lnot (AMDGV_FFBM_PAGE_SIZE fragment - 1)).
Definition AMDGV_FFBM_PAGE_ALIGN_CEIL (val fragment : Z) : Z :=
  AMDGV_FFBM_PAGE_ALIGN (u64 (val + AMDGV_FFBM_PAGE_SIZE fragment - 1)) fragment.
Definition AMDGV_FFBM_ADDR_IN_RANGE (range_start range_size addr : Z) : bool :=
  (range_start <=? addr) && (addr <? u64 (range_start + range_size)).
Definition AMDGV_FFBM_ADDR_SIZE_IN_RANGE (range_start range_size addr size : Z) : bool :=
  AMDGV_FFBM_ADDR_IN_RANGE range_start range_size addr
  && AMDGV_FFBM_ADDR_IN_RANGE range_start range_size (u64 (addr + size - 1)).
Definition AMDGV_FFBM_MAP_SIZE_VALID (size fragment : Z) : Z :=
  Z.land size (Z.shiftl 1 (fragment + 12) - 1).
Definition AMDGV_FFBM_TMR_ADDR_VALID (gpa spa size tmr_size : Z) : bool :=
  (gpa =? MBYTES_TO_BYTES AMDGV_FFBM_FB_TMR_OFFSET)
  && (spa =? MBYTES_TO_BYTES AMDGV_FFBM_FB_TMR_OFFSET)
  && (size =? MBYTES_TO_BYTES tmr_size).

(** ** The hardware back end

    [apply_pteb] and [invalidate_tlb] are function pointers the ASIC code
    installs.  [apply_pteb default_fragment p valid h] is the value returned,
    the block's [applied] flag afterwards and the hardware state afterwards. *)
Class FfbmHw := {
  hw_state : Type;
  apply_pteb : Z -> pte_block -> bool -> hw_state -> Z * bool * hw_state;
  invalidate_tlb : pte_block -> bool -> hw_state -> Z * hw_state;
}.

(** What the callers rely on: the flag records what the hardware was told, and
    only when the hardware could be reached. *)
Class FfbmHwOk (H : FfbmHw) : Prop := {
  apply_pteb_flag : forall df p valid h r a h',
    apply_pteb df p valid h = (r, a, h') -> a = if r =? 0 then valid else applied p;
}.

Section ffbm.
Context {HW : FfbmHw}.

(** The part of [struct amdgv_adapter] the module works on: [struct
    amdgv_ffbm], the per-VF entries, and the sizes read from other
    components.  [lnk] holds every list pointer, [fb] the frame buffer words
    reached through MM_INDEX, [copies] the transfers to or from the frame
    buffer: direction, frame-buffer offset, index into the data array, size. *)
Record adapter := mk_adapter {
  memory_block : list memory_block_t;
  lnk : links (N := node);
  bad_block_count : Z;
  reserved_block_count : Z;
  total_physical_size : Z;
  enabled : bool;
  default_fragment : Z;
  max_reserved_block : Z;
  share_tmr : bool;
  tmr_size : Z;
  num_vf : Z;
  max_num_vf : Z;
  status_sw_init : bool;
  array_vf : list vf_device;
  total_fb_avail : Z;
  total_fb_usable : Z;
  allocated_tmr_size : Z;
  mapped_fb_size : Z;
  fb : Z -> Z;
  copies : list (bool * Z * Z * Z);
  hw : hw_state
}.

#[export] Instance eta_adapter : Eta adapter := fun r =>
  mk_adapter (memory_block r) (lnk r) (bad_block_count r) (reserved_block_count r)
    (total_physical_size r) (enabled r) (default_fragment r) (max_reserved_block r)
    (share_tmr r) (tmr_size r) (num_vf r) (max_num_vf r) (status_sw_init r) (array_vf r)
    (total_fb_avail r) (total_fb_usable r) (allocated_tmr_size r) (mapped_fb_size r) (fb r)
    (copies r) (hw r).

Definition AMDGV_INVALID_IDX_VF (a : adapter) : Z := max_num_vf a + 1.

(** *** Access to blocks, entries and links *)

Definition pteb (i : nat) : M adapter pte_block := fun s =>
  match memory_block s !! i with
  | Some b => Ret (pteb_of b, s)
  | None => Fault
  end.

Definition upd_pteb (i : nat) (f : pte_block -> pte_block) : M adapter unit :=
  modify (fun s => s <| memory_block := alter (fun b => mk_mb (f (pteb_of b)) (used b)) i (memory_block s) |>).

Definition vf_entry (v : Z) : M adapter vf_device := fun s =>
  match (if v <? 0 then None else array_vf s !! Z.to_nat v) with
  | Some e => Ret (e, s)
  | None => Fault
  end.

Definition link (f : links -> option links) : M adapter unit := fun s =>
  match f (lnk s) with
  | Some h => Ret (tt, s <| lnk := h |>)
  | None => Fault
  end.

Definition next_of (n : node) : M adapter node := fun s =>
  match next (lnk s) !! n with Some m => Ret (m, s) | None => Fault end.
Definition prev_of (n : node) : M adapter node := fun s =>
  match prev (lnk s) !! n with Some m => Ret (m, s) | None => Fault end.

(** [amdgv_list_entry]: the block a list node is part of. *)
Definition entry_of (n : node) : M adapter nat :=
  match n with
  | SpaNode i | GpaNode i => mret i
  | _ => fault
  end.

(** The list heads of VFs are those of the [array_vf] slots. *)
Definition gpa_list (v : Z) : M adapter node := _ ← vf_entry v; mret (GpaHead v).

(** [amdgv_list_for_each_entry] with a [break]: the node of the first entry
    satisfying [p], or the head when the loop runs to its end. *)
Fixpoint scan (fuel : nat) (head pos : node) (p : pte_block -> bool) : M adapter node :=
  if decide (pos = head) then mret head else
  match fuel with
  | O => fault
  | S f =>
      i ← entry_of pos;
      b ← pteb i;
      if p b then mret pos else n ← next_of pos; scan f head n p
  end.

Definition find_entry (head : node) (p : pte_block -> bool) : M adapter (option nat) :=
  n ← next_of head;
  pos ← scan FFBM_FUEL head n p;
  if decide (pos = head) then mret None else i ← entry_of pos; mret (Some i).

(** The same loop with a body that runs on every entry. *)
Fixpoint each_entry (fuel : nat) (head pos : node) (body : nat -> M adapter unit) : M adapter unit :=
  if decide (pos = head) then mret tt else
  match fuel with
  | O => fault
  | S f => i ← entry_of pos; _ ← body i; n ← next_of pos; each_entry f head n body
  end.

Definition for_each_entry (head : node) (body : nat -> M adapter unit) : M adapter unit :=
  n ← next_of head; each_entry FFBM_FUEL head n body.

(** ** The block pool *)

(** Zeroing a block also sets its list pointers to NULL. *)
Definition clear_nodes (i : nat) (h : links (N := node)) : links (N := node) :=
  mk_links (delete (SpaNode i) (delete (GpaNode i) (next h)))
           (delete (SpaNode i) (delete (GpaNode i) (prev h))).

Fixpoint first_unused (i : nat) (l : list memory_block_t) : option nat :=
  match l with
  | [] => None
  | b :: l' => if used b then first_unused (S i) l' else Some i
  end.

Definition amdgv_ffbm_allocate_block : M adapter (option nat) := fun s =>
  match first_unused 0 (memory_block s) with
  | Some i => Ret (Some i, s <| memory_block := <[i := mk_mb zero_pteb true]> (memory_block s) |>
                             <| lnk := clear_nodes i (lnk s) |>)
  | None => Ret (None, s)
  end.

(** Only the flag changes: the contents of a freed block stay readable. *)
Definition amdgv_ffbm_free_block (i : nat) : M adapter unit :=
  modify (fun s => s <| memory_block := alter (fun b => mk_mb (pteb_of b) false) i (memory_block s) |>).

Definition amdgv_ffbm_free_all_block : M adapter unit :=
  modify (fun s => s <| memory_block := replicate AMDGV_FFBM_MEMORY_ALLOCATION_COUNT (mk_mb zero_pteb false) |>
                     <| lnk := foldr clear_nodes (lnk s) (seq 0 AMDGV_FFBM_MEMORY_ALLOCATION_COUNT) |>).

Definition amdgv_ffbm_pteb_update (i : nat) (gpa spa size frag vf_idx permission : Z)
    (type : amdgv_ffbm_mem_type) (applied : bool) : M adapter unit :=
  upd_pteb i (fun _ => mk_pteb gpa spa size frag permission vf_idx type applied).

Definition amdgv_ffbm_pteb_init (i : nat) (gpa spa size frag vf_idx permission : Z)
    (type : amdgv_ffbm_mem_type) (applied : bool) : M adapter unit :=
  _ ← amdgv_ffbm_pteb_update i gpa spa size frag vf_idx permission type applied;
  link (fun h => Some (AMDGV_INIT_LIST_HEAD (SpaNode i) (AMDGV_INIT_LIST_HEAD (GpaNode i) h))).

(** ** Pushing mappings to the hardware *)

Definition set_hw (h : hw_state) : M adapter unit := modify (fun s => s <| hw := h |>).

Definition call_apply_pteb (i : nat) (valid : bool) : M adapter Z :=
  p ← pteb i;
  df ← gets default_fragment;
  h ← gets hw;
  let '(r, a, h') := apply_pteb df p valid h in
  _ ← set_hw h';
  _ ← upd_pteb i (fun p => p <| applied := a |>);
  mret r.

Definition call_invalidate_tlb (i : nat) (flush : bool) : M adapter Z :=
  p ← pteb i;
  h ← gets hw;
  let '(r, h') := invalidate_tlb p flush h in
  _ ← set_hw h'; mret r.

Definition is_type (t : amdgv_ffbm_mem_type) (p : pte_block) : bool := bool_decide (type p = t).
Definition is_vf_or_tmr (p : pte_block) : bool := is_type MEM_TYPE_VF p || is_type MEM_TYPE_TMR p.

(** Both loops of the function run the same body; [ret] is the value of the
    last call made. *)
Fixpoint apply_each (fuel : nat) (head pos : node) (ret : Z) : M adapter Z :=
  if decide (pos = head) then mret ret else
  match fuel with
  | O => fault
  | S f =>
      i ← entry_of pos;
      p ← pteb i;
      ret ← (if is_vf_or_tmr p && negb (applied p) then call_apply_pteb i true else mret ret);
      n ← next_of pos;
      apply_each f head n ret
  end.

Fixpoint apply_vfs (n : nat) (vf_idx : Z) (ret : Z) : M adapter Z :=
  match n with
  | O => mret ret
  | S n' =>
      head ← gpa_list vf_idx;
      first ← next_of head;
      ret ← apply_each FFBM_FUEL head first ret;
      apply_vfs n' (vf_idx + 1) ret
  end.

Definition amdgv_ffbm_apply_page_table : M adapter Z :=
  en ← gets enabled;
  if negb en then mret 0 else
  first ← next_of SpaHead;
  ret ← apply_each FFBM_FUEL SpaHead first 0;
  nv ← gets num_vf;
  apply_vfs (Z.to_nat nv) 0 ret.

(** ** Searches *)

Definition amdgv_ffbm_find_pteb_by_phy (a : Z) : M adapter (option nat) :=
  find_entry SpaHead (fun p => AMDGV_FFBM_ADDR_IN_RANGE (spa p) (size p) a).

Definition amdgv_ffbm_find_pteb_by_ffbm (a vf_idx : Z) : M adapter (option nat) :=
  head ← gpa_list vf_idx;
  find_entry head (fun p => AMDGV_FFBM_ADDR_IN_RANGE (gpa p) (size p) a).

Definition amdgv_ffbm_find_empty_pteb (min_size : Z) : M adapter (option nat) :=
  find_entry SpaHead (fun p => is_type MEM_TYPE_NOT_ASSIGNED p && (min_size <=? size p)).

(** ** Splitting blocks *)

Definition amdgv_ffbm_pteb_divide_size (i : nat) (sz : Z) : M adapter (option nat) :=
  p ← pteb i;
  if negb (AMDGV_FFBM_MAP_SIZE_VALID sz (fragment p) =? 0) then mret None else
  let sz := AMDGV_FFBM_PAGE_ALIGN_CEIL sz (fragment p) in
  if size p <=? sz then mret (Some i) else
  o ← amdgv_ffbm_allocate_block;
  match o with
  | None => mret None
  | Some j =>
      p ← pteb i;
      let new_gpa := if negb (gpa p =? AMDGV_FFBM_INVALID_ADDR) then u64 (gpa p + sz)
                     else AMDGV_FFBM_INVALID_ADDR in
      _ ← amdgv_ffbm_pteb_init j new_gpa (u64 (spa p + sz)) (u64 (size p - sz)) (fragment p)
            (vf_idx p) (permission p) (type p) (applied p);
      _ ← upd_pteb i (fun p => p <| size := sz |>);
      _ ← link (amdgv_list_add (SpaNode j) (SpaNode i));
      _ ← when (negb (gpa p =? AMDGV_FFBM_INVALID_ADDR)) (link (amdgv_list_add (GpaNode j) (GpaNode i)));
      mret (Some j)
  end.

Definition amdgv_ffbm_create_new_pteb (i : nat) (gpa spa size vf_idx permission : Z)
    (type : amdgv_ffbm_mem_type) : M adapter (option nat) :=
  o ← amdgv_ffbm_allocate_block;
  match o with
  | None => mret None
  | Some j =>
      p ← pteb i;
      _ ← amdgv_ffbm_pteb_init j gpa spa size (fragment p) vf_idx permission type false;
      mret (Some j)
  end.

Definition amdgv_ffbm_pteb_hole_by_phy (i : nat) (a sz : Z) : M adapter (option nat) :=
  p ← pteb i;
  let sz := AMDGV_FFBM_PAGE_ALIGN_CEIL sz (fragment p) in
  if negb (AMDGV_FFBM_ADDR_SIZE_IN_RANGE (spa p) (size p) a sz) then mret None else
  o ← (if spa p <? a then amdgv_ffbm_pteb_divide_size i (u64 (a - spa p)) else mret (Some i));
  match o with
  | None => mret None
  | Some j =>
      q ← pteb j;
      _ ← (if sz <? size q then amdgv_ffbm_pteb_divide_size j sz else mret None);
      mret (Some j)
  end.

(** ** Guest-physical lists *)

Fixpoint gpa_gap (fuel : nat) (head pos : node) (size_ gpa_ previous_end : Z) : M adapter (bool + Z) :=
  if decide (pos = head) then mret (inr previous_end) else
  match fuel with
  | O => fault
  | S f =>
      i ← entry_of pos;
      p ← pteb i;
      let current_start := gpa p in
      if AMDGV_FFBM_ADDR_SIZE_IN_RANGE previous_end (u64 (current_start - previous_end)) gpa_ size_
      then mret (inl true) else
      let previous_end := u64 (gpa p + size p) in
      if (gpa_ <? previous_end) && (current_start <=? gpa_) then mret (inl false) else
      n ← next_of pos;
      gpa_gap f head n size_ gpa_ previous_end
  end.

Definition is_gpaess_valid (size_ gpa_ vf_idx : Z) : M adapter bool :=
  if (size_ =? 0) || (u64 (gpa_ + size_) <? gpa_) then mret false else
  tmr ← gets tmr_size;
  let tmr_start := MBYTES_TO_BYTES AMDGV_FFBM_FB_TMR_OFFSET in
  let tmr_end := MBYTES_TO_BYTES (tmr + AMDGV_FFBM_FB_TMR_OFFSET) in
  if ((tmr_start <=? gpa_) && (gpa_ <? tmr_end))
     || ((tmr_start <? u64 (gpa_ + size_)) && (u64 (gpa_ + size_) <=? tmr_end)) then mret false else
  head ← gpa_list vf_idx;
  first ← next_of head;
  r ← gpa_gap FFBM_FUEL head first size_ gpa_ 0;
  match r with
  | inl b => mret b
  | inr previous_end =>
      current_start ← gets total_physical_size;
      mret (AMDGV_FFBM_ADDR_SIZE_IN_RANGE previous_end (u64 (current_start - previous_end)) gpa_ size_)
  end.

(** When the loop ends without [break], [tmp] is the list head itself. *)
Definition amdgv_ffbm_insert_new_ffbm_node (i : nat) : M adapter unit :=
  p ← pteb i;
  head ← gpa_list (vf_idx p);
  first ← next_of head;
  tmp ← scan FFBM_FUEL head first (fun t => gpa p <? gpa t);
  link (amdgv_list_add (GpaNode i) tmp).

(** ** Unmapping *)

Definition gpa_node_empty (i : nat) : M adapter bool := gets (fun s => amdgv_list_empty (GpaNode i) (lnk s)).

Definition amdgv_ffbm_invalidate_and_unapply_pteb (i : nat) : M adapter unit :=
  p ← pteb i;
  if is_type MEM_TYPE_NOT_ASSIGNED p then mret tt else
  e ← gpa_node_empty i;
  if (e : bool) then mret tt else
  if negb (applied p) then mret tt else
  st ← gets status_sw_init;
  _ ← when (negb st && is_type MEM_TYPE_VF p) (_ ← call_invalidate_tlb i true; mret tt);
  when (is_vf_or_tmr p) (_ ← call_apply_pteb i false; mret tt).

(** The physical neighbour of a block at the end of the list is the list head
    inside [struct amdgv_ffbm]; what [amdgv_list_entry] makes of it reads, as
    the [type], the bytes of the last pool block's [applied] flag. *)
Definition neighbour_type (n : node) : M adapter amdgv_ffbm_mem_type :=
  match n with
  | SpaHead =>
      p ← pteb (AMDGV_FFBM_MEMORY_ALLOCATION_COUNT - 1);
      mret (if applied p then MEM_TYPE_PF else MEM_TYPE_INVALID)
  | _ => i ← entry_of n; p ← pteb i; mret (type p)
  end.

Definition amdgv_ffbm_unmap_pteb (i : nat) : M adapter unit :=
  p ← pteb i;
  if is_type MEM_TYPE_NOT_ASSIGNED p then mret tt else
  _ ← amdgv_ffbm_invalidate_and_unapply_pteb i;
  e ← gpa_node_empty i;
  _ ← when (negb e) (link (amdgv_list_del_init (GpaNode i)));
  p ← pteb i;
  if is_type MEM_TYPE_TMR p then amdgv_ffbm_free_block i else
  if is_type MEM_TYPE_VF p then
    df ← gets default_fragment;
    inv ← gets AMDGV_INVALID_IDX_VF;
    _ ← amdgv_ffbm_pteb_update i AMDGV_FFBM_INVALID_ADDR (spa p) (size p) df inv 0
          MEM_TYPE_NOT_ASSIGNED (applied p);
    (* front *)
    prv ← prev_of (SpaNode i);
    t ← neighbour_type prv;
    i ← (if bool_decide (t = MEM_TYPE_NOT_ASSIGNED) then
           j ← entry_of prv;
           p ← pteb i;
           _ ← upd_pteb j (fun q => q <| size := u64 (size q + size p) |>);
           _ ← link (amdgv_list_del (SpaNode i));
           _ ← amdgv_ffbm_free_block i;
           mret j
         else mret i);
    (* back *)
    nxt ← next_of (SpaNode i);
    t ← neighbour_type nxt;
    when (bool_decide (t = MEM_TYPE_NOT_ASSIGNED))
      (j ← entry_of nxt;
       q ← pteb j;
       _ ← upd_pteb i (fun p => p <| size := u64 (size p + size q) |>);
       _ ← link (amdgv_list_del (SpaNode j));
       amdgv_ffbm_free_block j)
  else mret tt.

Definition amdgv_ffbm_unmap_by_spa (a : Z) : M adapter unit :=
  o ← amdgv_ffbm_find_pteb_by_phy a;
  match o with Some i => amdgv_ffbm_unmap_pteb i | None => mret tt end.

Fixpoint unmap_loop (fuel : nat) (vf : Z) (reserve : bool) : M adapter unit :=
  match fuel with
  | O => fault
  | S f =>
      o ← find_entry (GpaHead vf) (fun p => (vf_idx p =? vf) && applied p);
      match o with
      | None => mret tt
      | Some i =>
          _ ← (if reserve then amdgv_ffbm_invalidate_and_unapply_pteb i
               else amdgv_ffbm_unmap_pteb i);
          unmap_loop f vf reserve
      end
  end.

(** [fuel]: how many blocks the loop may visit before it counts as endless. *)
Definition amdgv_ffbm_unmap_by_fcn_fuel (fuel : nat) (vf : Z) (reserve : bool) : M adapter unit :=
  en ← gets enabled;
  if negb en then mret tt else _ ← gpa_list vf; unmap_loop fuel vf reserve.

Definition amdgv_ffbm_unmap_by_fcn : Z -> bool -> M adapter unit :=
  amdgv_ffbm_unmap_by_fcn_fuel FFBM_FUEL.

(** ** Replacing a bad page *)

(** MM_INDEX/MM_DATA address whole 32-bit words. *)
Definition READ_FB32 (a : Z) (f : Z -> Z) : Z := f (Z.land a (Z.lnot 3)).
Definition WRITE_FB32 (a v : Z) (f : Z -> Z) : Z -> Z :=
  fun x => if x =? Z.land a (Z.lnot 3) then v else f x.

Fixpoint copy_page (fuel : nat) (spa bad_spa bad_spa_end new_spa : Z) (f : Z -> Z) : outcome (Z -> Z) :=
  if negb (bad_spa <? bad_spa_end) then Ret f else
  match fuel with
  | O => Fault
  | S n =>
      if bad_spa =? spa
      then copy_page n spa (bad_spa + PAGE_SIZE) bad_spa_end (new_spa + PAGE_SIZE) f
      else copy_page n spa (bad_spa + 4) bad_spa_end (new_spa + 4)
             (WRITE_FB32 new_spa (READ_FB32 bad_spa f) f)
  end.

Definition copy_fb (spa bad_spa new_spa page_size : Z) : M adapter unit := fun s =>
  match copy_page (S (Z.to_nat (page_size / 4))) spa bad_spa (bad_spa + page_size) new_spa (fb s) with
  | Ret f => Ret (tt, s <| fb := f |>)
  | Fault => Fault
  end.

Definition amdgv_ffbm_replace_page (a : Z) : M adapter Z :=
  o ← amdgv_ffbm_find_pteb_by_phy a;
  match o with
  | None => mret AMDGV_FFBM_ERROR_BAD_ADDR
  | Some i =>
      p ← pteb i;
      if negb (is_type MEM_TYPE_VF p) then mret 0 else
      let page_size := AMDGV_FFBM_PAGE_SIZE (fragment p) in
      let aligned_spa := AMDGV_FFBM_PAGE_ALIGN a (fragment p) in
      o ← amdgv_ffbm_pteb_hole_by_phy i aligned_spa page_size;
      match o with
      | None => mret AMDGV_FFBM_ERROR_NO_MEM
      | Some i =>
          o ← find_entry SpaHead (is_type MEM_TYPE_RESERVED);
          match o with
          | None => mret AMDGV_FFBM_ERROR_NO_MEM
          | Some n =>
              p ← pteb i;
              np ← pteb n;
              _ ← copy_fb a (spa p) (spa np) page_size;
              _ ← amdgv_ffbm_pteb_update n (gpa p) (spa np) page_size (fragment p) (vf_idx p)
                    (permission p) (type p) false;
              _ ← modify (fun s => s <| reserved_block_count := u8 (reserved_block_count s - 1) |>);
              _ ← link (amdgv_list_add_tail (GpaNode n) (GpaNode i));
              _ ← amdgv_ffbm_unmap_pteb i;
              p ← pteb i;
              inv ← gets AMDGV_INVALID_IDX_VF;
              _ ← amdgv_ffbm_pteb_update i AMDGV_FFBM_INVALID_ADDR (spa p) page_size (fragment p)
                    inv 0 MEM_TYPE_BAD_PAGE (applied p);
              _ ← modify (fun s => s <| bad_block_count := u8 (bad_block_count s + 1) |>);
              mret 0
          end
      end
  end.

(** [retired_page] of each record, in order, until one cannot be replaced. *)
Fixpoint replace_each (pages : list Z) : M adapter Z :=
  match pages with
  | [] => mret 0
  | p :: ps =>
      ret ← amdgv_ffbm_replace_page (u64 (Z.shiftl p AMDGV_GPU_PAGE_SHIFT));
      if negb (ret =? 0) then mret ret else replace_each ps
  end.

Definition amdgv_ffbm_replace_bad_pages (bps : list Z) : M adapter Z :=
  ret ← replace_each bps;
  if ret =? 0 then amdgv_ffbm_apply_page_table else mret ret.

(** [amdgv_umc_badpages_count_read] and [amdgv_umc_get_badpages_record] belong
    to the memory controller component: [None] is a record that cannot be
    read; a failed replacement ends the loop. *)
Fixpoint reserve_each (records : list (option Z)) : M adapter unit :=
  match records with
  | [] => mret tt
  | None :: rs => reserve_each rs
  | Some page :: rs =>
      ret ← amdgv_ffbm_replace_bad_pages [page];
      if negb (ret =? 0) then mret tt else reserve_each rs
  end.

(** [alloc_ok]: whether the record buffer can be allocated. *)
Definition amdgv_ffbm_reserve_all_bad_pages (alloc_ok : bool) (records : list (option Z)) : M adapter unit :=
  if negb alloc_ok then mret tt else reserve_each records.

(** ** Mapping *)

Definition amdgv_ffbm_manual_map (vf sz g a perm : Z) (t : amdgv_ffbm_mem_type) : M adapter Z :=
  df ← gets default_fragment;
  if negb (AMDGV_FFBM_MAP_SIZE_VALID sz df =? 0) then mret AMDGV_FFBM_ERROR_INVALD_SIZE else
  ok ← (if bool_decide (t = MEM_TYPE_VF) then is_gpaess_valid sz g vf else mret true);
  if negb (ok : bool) then mret AMDGV_FFBM_ERROR_BAD_ADDR else
  o ← amdgv_ffbm_find_pteb_by_phy a;
  match o with
  | None => mret AMDGV_FFBM_ERROR_BAD_ADDR
  | Some i =>
      p ← pteb i;
      if (negb (is_type MEM_TYPE_NOT_ASSIGNED p) && negb (bool_decide (t = MEM_TYPE_TMR)))
         || negb (AMDGV_FFBM_ADDR_SIZE_IN_RANGE (spa p) (size p) a sz)
      then mret AMDGV_FFBM_ERROR_BAD_ADDR else
      tmr ← gets tmr_size;
      if is_type MEM_TYPE_TMR p && negb (AMDGV_FFBM_TMR_ADDR_VALID g a sz tmr)
      then mret AMDGV_FFBM_ERROR_BAD_ADDR else
      o ← (if is_type MEM_TYPE_TMR p then
             o ← amdgv_ffbm_create_new_pteb i (MBYTES_TO_BYTES AMDGV_FFBM_FB_TMR_OFFSET)
                   (MBYTES_TO_BYTES AMDGV_FFBM_FB_TMR_OFFSET) (MBYTES_TO_BYTES tmr) vf perm MEM_TYPE_TMR;
             (* the result is used without a test for NULL *)
             j ← require o;
             mret (Some j)
           else
             o ← amdgv_ffbm_pteb_hole_by_phy i a sz;
             match o with
             | None => mret None
             | Some j => _ ← amdgv_ffbm_pteb_update j g a sz df vf perm t false; mret (Some j)
             end);
      match o with
      | None => mret AMDGV_FFBM_ERROR_NO_MEM
      | Some j =>
          q ← pteb j;
          _ ← when (bool_decide (t = MEM_TYPE_VF) || (is_type MEM_TYPE_TMR q && negb (vf =? AMDGV_PF_IDX)))
                (amdgv_ffbm_insert_new_ffbm_node j);
          mret 0
      end
  end.

Fixpoint map_loop (fuel : nat) (vf gpa_start size_left perm : Z) (t : amdgv_ffbm_mem_type) : M adapter Z :=
  if negb (0 <? s64 size_left) then mret 0 else
  match fuel with
  | O => fault
  | S f =>
      o ← amdgv_ffbm_find_empty_pteb 0;
      match o with
      | None => mret AMDGV_FFBM_ERROR_NO_MEM
      | Some i =>
          p ← pteb i;
          _ ← (if u64 size_left <? size p then amdgv_ffbm_pteb_divide_size i (u64 size_left) else mret None);
          p ← pteb i;
          _ ← amdgv_ffbm_pteb_update i gpa_start (spa p) (size p) (fragment p) vf perm t false;
          gpa_start ← (if bool_decide (t = MEM_TYPE_VF) then
                         _ ← amdgv_ffbm_insert_new_ffbm_node i; mret (u64 (gpa_start + size p))
                       else mret gpa_start);
          map_loop f vf gpa_start (size_left - size p) perm t
      end
  end.

Definition amdgv_ffbm_map (vf g sz perm : Z) (t : amdgv_ffbm_mem_type) : M adapter Z :=
  df ← gets default_fragment;
  if sz <? AMDGV_FFBM_PAGE_SIZE df then mret AMDGV_FFBM_ERROR_BAD_ADDR else
  if bool_decide (t = MEM_TYPE_VF) && (sz <? AMDGV_FFBM_VF_MIN_MAP_SIZE) && negb (g =? 0)
  then mret AMDGV_FFBM_ERROR_BAD_ADDR else
  if negb (bool_decide (t = MEM_TYPE_VF)) then mret AMDGV_FFBM_ERROR_BAD_ADDR else
  map_loop FFBM_FUEL vf g sz perm t.

(** ** Translation and copies *)

(** [dir = true] copies to the frame buffer.  A transfer beyond the mapped part
    of the frame buffer goes through MM_INDEX, the others through the PF BAR;
    both are recorded in [copies].  The result is the size not copied. *)
Fixpoint copy_each (fuel : nat) (head pos : node) (dir : bool) (gpa_ sz size_left : Z) : M adapter Z :=
  if decide (pos = head) then mret size_left else
  match fuel with
  | O => fault
  | S f =>
      i ← entry_of pos;
      p ← pteb i;
      '(size_left, gpa_) ← (if AMDGV_FFBM_ADDR_IN_RANGE (gpa p) (size p) gpa_ then
          let size_copy := Z.min (u64 (size p - (gpa_ - gpa p))) size_left in
          let offset := u64 (spa p + (gpa_ - gpa p)) in
          _ ← modify (fun s => s <| copies := copies s ++ [(dir, offset, (sz - size_left) / 4, size_copy)] |>);
          mret (size_left - size_copy, u64 (gpa_ + size_copy))
        else mret (size_left, gpa_));
      if size_left =? 0 then mret 0 else
      n ← next_of pos;
      copy_each f head n dir gpa_ sz size_left
  end.

Definition amdgv_ffbm_copy_to_gpa (idx_vf g sz : Z) : M adapter Z :=
  head ← gpa_list idx_vf; first ← next_of head; copy_each FFBM_FUEL head first true g sz sz.

Definition amdgv_ffbm_copy_from_gpa (idx_vf g sz : Z) : M adapter Z :=
  head ← gpa_list idx_vf; first ← next_of head; copy_each FFBM_FUEL head first false g sz sz.

Definition amdgv_ffbm_gpa_to_spa (g vf : Z) : M adapter Z :=
  o ← amdgv_ffbm_find_pteb_by_ffbm g vf;
  match o with
  | Some i => p ← pteb i; mret (u64 (spa p + (g - gpa p)))
  | None => mret AMDGV_FFBM_INVALID_ADDR
  end.

(** The second component is what is stored through the [vf_idx] pointer. *)
Definition amdgv_ffbm_spa_to_gpa (a : Z) : M adapter (Z * option Z) :=
  o ← amdgv_ffbm_find_pteb_by_phy a;
  match o with
  | Some i => p ← pteb i; mret (u64 (gpa p + (a - spa p)), Some (vf_idx p))
  | None => mret (AMDGV_FFBM_INVALID_ADDR, None)
  end.

(** ** Setting up and tearing down *)

Definition amdgv_ffbm_sw_init : M adapter Z :=
  _ ← link (fun h => Some (AMDGV_INIT_LIST_HEAD SpaHead
        (foldl (fun h v => AMDGV_INIT_LIST_HEAD (GpaHead (Z.of_nat v)) h) h (seq 0 (Z.to_nat AMDGV_MAX_VF_SLOT)))));
  _ ← modify (fun s => s <| bad_block_count := 0 |> <| enabled := true |>);
  mret 0.

(** [amdgv_list_for_each_entry_safe]: [tmp] is read one node ahead. *)
Fixpoint each_entry_safe (fuel : nat) (head pos tmp : node) (body : nat -> M adapter unit) : M adapter unit :=
  if decide (pos = head) then mret tt else
  match fuel with
  | O => fault
  | S f => i ← entry_of pos; _ ← body i; n ← next_of tmp; each_entry_safe f head tmp n body
  end.

Definition for_each_entry_safe (head : node) (body : nat -> M adapter unit) : M adapter unit :=
  pos ← next_of head; tmp ← next_of pos; each_entry_safe FFBM_FUEL head pos tmp body.

Definition list_empty (head : node) : M adapter bool := gets (fun s => amdgv_list_empty head (lnk s)).

Fixpoint destroy_vfs (n : nat) (vf : Z) : M adapter unit :=
  match n with
  | O => mret tt
  | S n' =>
      head ← gpa_list vf;
      e ← list_empty head;
      _ ← when (negb e) (for_each_entry_safe head (fun i =>
            _ ← link (amdgv_list_del (GpaNode i));
            _ ← link (amdgv_list_del (SpaNode i));
            amdgv_ffbm_free_block i));
      _ ← link (fun h => Some (AMDGV_INIT_LIST_HEAD head h));
      destroy_vfs n' (vf + 1)
  end.

Definition amdgv_ffbm_page_table_destroy : M adapter unit :=
  nv ← gets num_vf;
  _ ← destroy_vfs (Z.to_nat nv) 0;
  e ← list_empty SpaHead;
  _ ← when (negb e) (for_each_entry_safe SpaHead (fun i =>
        _ ← link (amdgv_list_del (SpaNode i));
        amdgv_ffbm_free_block i));
  link (fun h => Some (AMDGV_INIT_LIST_HEAD SpaHead h)).

Fixpoint init_reserved (n : nat) (i : Z) (top_size aligned_size page_size : Z) : M adapter unit :=
  match n with
  | O => mret tt
  | S n' =>
      let resv_top_offset := u64 (top_size + page_size * (i + 1)) in
      inv ← gets AMDGV_INVALID_IDX_VF;
      _ ← amdgv_ffbm_manual_map inv page_size AMDGV_FFBM_INVALID_ADDR
            (u64 (aligned_size - resv_top_offset)) 0 MEM_TYPE_RESERVED;
      _ ← modify (fun s => s <| total_fb_usable := u32 (total_fb_usable s - Z.shiftr page_size 20) |>);
      init_reserved n' (i + 1) top_size aligned_size page_size
  end.

Definition amdgv_ffbm_page_table_init : M adapter Z :=
  _ ← amdgv_ffbm_page_table_destroy;
  _ ← amdgv_ffbm_free_all_block;
  df ← gets default_fragment;
  avail ← gets total_fb_avail;
  let page_size := AMDGV_FFBM_PAGE_SIZE df in
  let aligned_size := AMDGV_FFBM_PAGE_ALIGN (MBYTES_TO_BYTES avail) df in
  o ← amdgv_ffbm_allocate_block;
  match o with
  | None => mret AMDGV_FFBM_ERROR_NO_MEM
  | Some i =>
      _ ← modify (fun s => s <| total_physical_size := aligned_size |>);
      inv ← gets AMDGV_INVALID_IDX_VF;
      _ ← amdgv_ffbm_pteb_init i 0 0 aligned_size df inv 0 MEM_TYPE_NOT_ASSIGNED false;
      _ ← link (amdgv_list_add (SpaNode i) SpaHead);
      usable ← gets total_fb_usable;
      let top_size := u64 (aligned_size - MBYTES_TO_BYTES usable) in
      _ ← amdgv_ffbm_manual_map inv top_size AMDGV_FFBM_INVALID_ADDR (u64 (aligned_size - top_size)) 0 MEM_TYPE_PF;
      n ← gets max_reserved_block;
      _ ← init_reserved (Z.to_nat n) 0 top_size aligned_size page_size;
      tmr ← gets allocated_tmr_size;
      _ ← amdgv_ffbm_manual_map AMDGV_PF_IDX tmr (MBYTES_TO_BYTES AMDGV_FFBM_FB_TMR_OFFSET)
            (MBYTES_TO_BYTES AMDGV_FFBM_FB_TMR_OFFSET) 0 MEM_TYPE_TMR;
      mret 0
  end.

Definition amdgv_ffbm_page_table_update_by_fcn (vf : Z) : M adapter Z :=
  en ← gets enabled;
  if negb en then mret 0 else
  e ← vf_entry vf;
  tmr ← gets tmr_size;
  let tmr_end := MBYTES_TO_BYTES (AMDGV_FFBM_FB_TMR_OFFSET + tmr) in
  if vf =? AMDGV_PF_IDX then
    _ ← amdgv_ffbm_unmap_by_spa (MBYTES_TO_BYTES (fb_offset e));
    _ ← amdgv_ffbm_unmap_by_spa tmr_end;
    _ ← amdgv_ffbm_manual_map vf (MBYTES_TO_BYTES (AMDGV_FFBM_FB_TMR_OFFSET - fb_offset e))
          (MBYTES_TO_BYTES (fb_offset e)) (MBYTES_TO_BYTES (fb_offset e)) 0 MEM_TYPE_PF;
    amdgv_ffbm_manual_map vf
      (MBYTES_TO_BYTES (u64 (fb_size e - tmr - AMDGV_FFBM_FB_TMR_OFFSET + fb_offset e)))
      tmr_end tmr_end 0 MEM_TYPE_PF
  else
    share ← gets share_tmr;
    let fb_sz := if (share : bool) then fb_size_tmr e else fb_size e in
    ret ← (if 0 <? fb_sz then
             _ ← amdgv_ffbm_manual_map vf (MBYTES_TO_BYTES tmr) (MBYTES_TO_BYTES AMDGV_FFBM_FB_TMR_OFFSET)
                   (MBYTES_TO_BYTES AMDGV_FFBM_FB_TMR_OFFSET) AMDGV_FFBM_PERM_RW MEM_TYPE_TMR;
             _ ← amdgv_ffbm_map vf 0 (MBYTES_TO_BYTES AMDGV_FFBM_FB_TMR_OFFSET) AMDGV_FFBM_PERM_RW MEM_TYPE_VF;
             amdgv_ffbm_map vf tmr_end (MBYTES_TO_BYTES (fb_size e - AMDGV_FFBM_FB_TMR_OFFSET))
               AMDGV_FFBM_PERM_RW MEM_TYPE_VF
           else mret 0);
    _ ← amdgv_ffbm_apply_page_table;
    mret ret.

(** ** Live update and reports *)

(** [struct amdgv_live_info_ffbm]; a block's record has the fields of
    [pte_block]. *)
Record live_info_ffbm := mk_live {
  li_blocks : list pte_block; li_bad_block_count : Z; li_reserved_block_count : Z;
  li_default_fragment : Z; li_max_reserved_block : Z; li_share_tmr : bool
}.

(** The blocks in physical order. *)
Fixpoint collect (fuel : nat) (head pos : node) : M adapter (list pte_block) :=
  if decide (pos = head) then mret [] else
  match fuel with
  | O => fault
  | S f => i ← entry_of pos; p ← pteb i; n ← next_of pos; l ← collect f head n; mret (p :: l)
  end.

Definition amdgv_ffbm_export_spa : M adapter live_info_ffbm :=
  first ← next_of SpaHead;
  l ← collect FFBM_FUEL SpaHead first;
  gets (fun s => mk_live l (bad_block_count s) (reserved_block_count s) (default_fragment s)
                   (max_reserved_block s) (share_tmr s)).

(** [None]: all blocks were copied; the loop stops after [max_num] of them. *)
Definition amdgv_ffbm_copy_page_table (max_num : nat) : M adapter (list pte_block) :=
  first ← next_of SpaHead;
  l ← collect FFBM_FUEL SpaHead first;
  mret (if (max_num =? 0)%nat then l else take max_num l).

(** Insertion used by the import: after the first entry with a larger
    guest-physical address, or right after the head. *)
Definition import_gpa_node (i : nat) (vf g : Z) : M adapter unit :=
  head ← gpa_list vf;
  first ← next_of head;
  cur ← scan FFBM_FUEL head first (fun t => g <? gpa t);
  link (amdgv_list_add (GpaNode i) cur).

(** The loop over the exported blocks: the last TMR block seen and the number
    of active VFs; [None] when the pool is exhausted. *)
Fixpoint import_blocks (l : list pte_block) (pf_tmr : option nat) (num_active_vfs : Z) :
    M adapter (option (option nat * Z)) :=
  match l with
  | [] => mret (Some (pf_tmr, num_active_vfs))
  | b :: l' =>
      o ← amdgv_ffbm_allocate_block;
      match o with
      | None => mret None
      | Some i =>
          _ ← amdgv_ffbm_pteb_init i (gpa b) (spa b) (size b) (fragment b) (vf_idx b) (permission b)
                (type b) (applied b);
          nv ← gets num_vf;
          _ ← when (vf_idx b <? nv) (import_gpa_node i (vf_idx b) (gpa b));
          first ← next_of SpaHead;
          cur ← scan FFBM_FUEL SpaHead first (fun _ => false);
          _ ← link (amdgv_list_add_tail (SpaNode i) cur);
          let is_tmr := is_type MEM_TYPE_TMR b in
          _ ← when is_tmr (modify (fun s => s <| tmr_size := u32 (TO_MBYTES (size b)) |>));
          let pf_tmr := if is_tmr then Some i else pf_tmr in
          let num_active_vfs := if vf_idx b <? nv then Z.max num_active_vfs (vf_idx b + 1) else num_active_vfs in
          import_blocks l' pf_tmr num_active_vfs
      end
  end.

(** [oss_memcpy] of a whole block, list pointers included. *)
Definition copy_nodes (i j : nat) (h : links (N := node)) : links (N := node) :=
  let cp (m : gmap node node) (a b : node) := match m !! a with Some x => <[b := x]> m | None => delete b m end in
  mk_links (cp (cp (next h) (GpaNode i) (GpaNode j)) (SpaNode i) (SpaNode j))
           (cp (cp (prev h) (GpaNode i) (GpaNode j)) (SpaNode i) (SpaNode j)).

Fixpoint import_tmr (n : nat) (vf : Z) (pf_tmr : nat) : M adapter bool :=
  match n with
  | O => mret true
  | S n' =>
      o ← amdgv_ffbm_allocate_block;
      match o with
      | None => mret false
      | Some j =>
          p ← pteb pf_tmr;
          _ ← upd_pteb j (fun _ => p <| vf_idx := vf |>);
          _ ← link (fun h => Some (copy_nodes pf_tmr j h));
          _ ← import_gpa_node j vf (gpa p);
          import_tmr n' (vf + 1) pf_tmr
      end
  end.

(** [false] is AMDGV_LIVE_INFO_STATUS_GENERIC_ERROR. *)
Definition amdgv_ffbm_import_spa_and_gpa (li : live_info_ffbm) : M adapter bool :=
  r ← import_blocks (li_blocks li) None 0;
  match r with
  | None => mret false
  | Some (pf_tmr, num_active_vfs) =>
      ok ← (if li_share_tmr li then
              match pf_tmr with
              | Some i => import_tmr (Z.to_nat num_active_vfs) 0 i
              | None => mret false
              end
            else mret true);
      if negb (ok : bool) then mret false else
      _ ← modify (fun s => s
        <| bad_block_count := li_bad_block_count li |>
        <| reserved_block_count := li_reserved_block_count li |>
        <| default_fragment := li_default_fragment li |>
        <| max_reserved_block := li_max_reserved_block li |>
        <| share_tmr := li_share_tmr li |>
        <| total_physical_size := AMDGV_FFBM_PAGE_ALIGN (MBYTES_TO_BYTES (total_fb_avail s)) (li_default_fragment li) |>
        <| total_fb_usable := u32 (total_fb_usable s
             - Z.shiftr (AMDGV_FFBM_PAGE_SIZE (li_default_fragment li)) 20 * li_max_reserved_block li) |>);
      mret true
  end.

Record ffbm_map_entry := mk_entry { e_gpa : Z; e_spa : Z; e_size : Z }.

(** The first [FFBM_MAP_ENTRY_MAX_COUNT] blocks of the VF, with or without its
    TMR block, in list order. *)
Fixpoint collect_entries (fuel : nat) (head pos : node) (include_tmr : bool) (index : nat) :
    M adapter (list ffbm_map_entry) :=
  if decide (pos = head) then mret [] else
  match fuel with
  | O => fault
  | S f =>
      i ← entry_of pos;
      p ← pteb i;
      if negb (is_type MEM_TYPE_TMR p) || include_tmr then
        if (index <? FFBM_MAP_ENTRY_MAX_COUNT)%nat then
          n ← next_of pos;
          l ← collect_entries f head n include_tmr (S index);
          mret (mk_entry (gpa p) (spa p) (size p) :: l)
        else mret []
      else n ← next_of pos; collect_entries f head n include_tmr index
  end.

(** One pass of the bubble sort over positions [j .. j + n - 1]. *)
Fixpoint bubble_pass (n j : nat) (l : list ffbm_map_entry) (swapped : bool) : list ffbm_map_entry * bool :=
  match n with
  | O => (l, swapped)
  | S n' =>
      match l !! j, l !! S j with
      | Some x, Some y =>
          if e_gpa y <? e_gpa x
          then bubble_pass n' (S j) (<[j := y]> (<[S j := x]> l)) true
          else bubble_pass n' (S j) l swapped
      | _, _ => (l, swapped)
      end
  end.

(** [n] passes are left; the loop ends early after a pass without a swap. *)
Fixpoint bubble_loop (n : nat) (l : list ffbm_map_entry) : list ffbm_map_entry :=
  match n with
  | O => l
  | S n' => let (l', swapped) := bubble_pass n 0 l false in if swapped then bubble_loop n' l' else l'
  end.

Definition bubble_sort (l : list ffbm_map_entry) : list ffbm_map_entry :=
  if (1 <? length l)%nat then bubble_loop (length l - 1) l else l.

(** The return value, [list->ffbm_enabled] and the filled entries. *)
Definition amdgv_get_vf_fb_mapping_list (vf : Z) (include_tmr : bool) :
    M adapter (Z * bool * list ffbm_map_entry) :=
  en ← gets enabled;
  if (en : bool) && (vf <? AMDGV_PF_IDX) then
    head ← gpa_list vf;
    first ← next_of head;
    l ← collect_entries FFBM_FUEL head first include_tmr 0;
    mret (0, en, bubble_sort l)
  else mret (AMDGV_FAILURE, en, []).

End ffbm.
End Ffbm.
