(* ===== verification/NaviFfbm.v ===== *)
(** * The Navi 32 back end of the mapper (src/libgv/core/hw/navi3/navi32_ffbm.c)

    The functions the ASIC code installs in [adapt->ffbm]: the translation of a
    page-table block into register writes.  The registers are written in pairs
    (GC and MMHUB), recorded once in [writes], newest first.  Whether a polled
    register reaches the awaited value in time is the hardware's: the argument
    [NaviEnv].  The world switch to the PF around an invalidation is left out.
    [held] counts the world-switch locks held, [gfx_locks] is how
    many enabled GFX world switches have one. *)
From S2P Require Import Prelude Api Ffbm.
#[local] Open Scope Z_scope.

Module NaviFfbm.
Import Ffbm.

Inductive reg := FFBM_ACCESS_CNTL | FFBM_ADDRESS | FFBM_DATA | FFBM_INVALIDATE_REQUEST.

Class NaviEnv := {
  wait_ok : nat -> bool;  (* does the n-th wait for a register succeed *)
  gfx_locks : Z;
}.

Record navi_hw := mk_navi { writes : list (reg * Z); waits : nat; held : Z }.
#[export] Instance eta_navi : Eta navi_hw := fun r => mk_navi (writes r) (waits r) (held r).

(** A register field: mask and shift of the register headers. *)
Definition REG_SET_FIELD (orig_val mask shift field_val : Z) : Z :=
  Z.lor (Z.land orig_val (Z.lnot mask)) (Z.land mask (u32 (Z.shiftl field_val shift))).
Definition TO_2M_ALIGN (val : Z) : Z := u32 (Z.shiftr val 21).

Section navi.
Context {E : NaviEnv}.

Definition FFBM_SET_REG (r : reg) (v : Z) : M navi_hw unit :=
  modify (fun s => s <| writes := (r, v) :: writes s |>).

(** [amdgv_wait_for_register]: 0 on success. *)
Definition wait_for_register : M navi_hw Z := fun s =>
  Ret (if wait_ok (waits s) then 0 else AMDGV_FAILURE, s <| waits := S (waits s) |>).

(** Two polls, the second only after the first succeeded. *)
Definition wait_twice : M navi_hw Z :=
  r ← wait_for_register;
  if r =? 0 then wait_for_register else mret r.

Definition navi32_ffbm_request_access (enable : bool) : M navi_hw Z :=
  _ ← FFBM_SET_REG FFBM_ACCESS_CNTL (if enable then 1 else 0);
  r ← wait_twice;
  if negb (r =? 0) then mret r else
  _ ← modify (fun s => s <| held := if enable then held s + gfx_locks else held s - gfx_locks |>);
  mret r.

(** The word written to [FFBM_DATA] for the page at [current_spa]. *)
Definition pte_word (p : pte_block) (valid : bool) (current_spa : Z) : Z :=
  let d := REG_SET_FIELD 0 1 0 (if valid then 1 else 0) in
  let d := REG_SET_FIELD d 2 1 (if Z.testbit (permission p) 0 then 1 else 0) in
  let d := REG_SET_FIELD d 4 2 (if Z.testbit (permission p) 1 then 1 else 0) in
  let d := REG_SET_FIELD d 248 3 (fragment p) in
  REG_SET_FIELD d 2147483392 8 (TO_2M_ALIGN current_spa).

(** The page loop: [n] bounds the number of pages. *)
Fixpoint apply_pages (n : nat) (p : pte_block) (valid : bool) (page_size current_spa : Z) : M navi_hw unit :=
  if negb (current_spa <? u64 (spa p + size p)) then mret tt else
  match n with
  | O => fault
  | S n' =>
      _ ← FFBM_SET_REG FFBM_DATA (pte_word p valid current_spa);
      apply_pages n' p valid page_size (u64 (current_spa + page_size))
  end.

(** More pages than this do not fit in the block. *)
Definition pages (p : pte_block) (page_size : Z) : nat := S (Z.to_nat (size p / page_size)).

(** The word written to [FFBM_ADDRESS]. *)
Definition address_word (p : pte_block) : Z :=
  REG_SET_FIELD (REG_SET_FIELD 0 15 0 (vf_idx p)) 134217712 4 (TO_2M_ALIGN (gpa p)).

Definition apply_body (default_fragment : Z) (p : pte_block) (valid : bool) : M navi_hw (Z * bool) :=
  let page_size := AMDGV_FFBM_PAGE_SIZE default_fragment in
  r ← navi32_ffbm_request_access true;
  if negb (r =? 0) then mret (AMDGV_FAILURE, applied p) else
  _ ← FFBM_SET_REG FFBM_ADDRESS (address_word p);
  _ ← apply_pages (pages p page_size) p valid page_size (spa p);
  _ ← navi32_ffbm_request_access false;
  mret (0, valid).

(** A block whose pages cannot be enumerated makes the loop endless; the
    result is then the failure of a driver that never comes back. *)
Definition navi32_ffbm_apply_pteb (default_fragment : Z) (p : pte_block) (valid : bool) (s : navi_hw) :
    Z * bool * navi_hw :=
  match apply_body default_fragment p valid s with
  | Ret ((r, a), s') => (r, a, s')
  | Fault => (AMDGV_FAILURE, applied p, s)
  end.

Fixpoint invalidate_pages (n : nat) (p : pte_block) (flush : bool) (page_size current_gpa : Z) : M navi_hw unit :=
  if negb (current_gpa <? u64 (gpa p + size p)) then mret tt else
  match n with
  | O => fault
  | S n' =>
      let d := REG_SET_FIELD 0 1 0 1 in
      let d := REG_SET_FIELD d 30 1 (vf_idx p) in
      let d := REG_SET_FIELD d 64 6 (if flush then 1 else 0) in
      let d := REG_SET_FIELD d 128 7 (if fragment p =? 9 then 0 else 1) in
      let d := REG_SET_FIELD d 2147483392 8 (TO_2M_ALIGN current_gpa) in
      _ ← FFBM_SET_REG FFBM_INVALIDATE_REQUEST d;
      r ← wait_twice;
      if negb (r =? 0) then mret tt else
      invalidate_pages n' p flush page_size (u64 (current_gpa + page_size))
  end.

Definition invalidate_body (p : pte_block) (flush : bool) : M navi_hw Z :=
  let page_size := AMDGV_FFBM_PAGE_SIZE (fragment p) in
  r ← navi32_ffbm_request_access true;
  if negb (r =? 0) then mret AMDGV_FAILURE else
  _ ← invalidate_pages (pages p page_size) p flush page_size (gpa p);
  _ ← navi32_ffbm_request_access false;
  mret 0.

Definition navi32_ffbm_invalidate_tlb (p : pte_block) (flush : bool) (s : navi_hw) : Z * navi_hw :=
  match invalidate_body p flush s with
  | Ret (r, s') => (r, s')
  | Fault => (AMDGV_FAILURE, s)
  end.

Instance navi32_hw : FfbmHw := {|
  hw_state := navi_hw;
  apply_pteb := navi32_ffbm_apply_pteb;
  invalidate_tlb := navi32_ffbm_invalidate_tlb;
|}.

(** The [applied] flag is changed exactly when the call succeeds. *)
Lemma navi32_flag df p valid h r a h' :
  navi32_ffbm_apply_pteb df p valid h = (r, a, h') -> a = if r =? 0 then valid else applied p.
Proof.
  unfold navi32_ffbm_apply_pteb, apply_body, mbind, M_bind.
  destruct (navi32_ffbm_request_access true h) as [[r1 h1]|]; [|by intros [= <- <- _]].
  destruct (r1 =? 0); cbn [negb]; [|by intros [= <- <- _]]. cbn [FFBM_SET_REG modify].
  destruct (apply_pages _ _ _ _ _ _) as [[[] h2]|]; [|by intros [= <- <- _]].
  destruct (navi32_ffbm_request_access false h2) as [[r3 h3]|]; by intros [= <- <- _].
Qed.

#[export] Instance navi32_hw_ok : FfbmHwOk navi32_hw.
Proof. split. apply navi32_flag. Qed.

(** The words for [k] pages from [a], newest first. *)
Fixpoint page_words (k : nat) (p : pte_block) (valid : bool) (page_size a : Z) : list (reg * Z) :=
  match k with
  | O => []
  | S k' => page_words k' p valid page_size (a + page_size) ++ [(FFBM_DATA, pte_word p valid a)]
  end.

Lemma apply_pages_run k : forall n p valid page_size a s,
  0 < page_size -> 0 <= a -> spa p + size p < 2 ^ 63 -> page_size < 2 ^ 62 -> 0 <= spa p + size p ->
  a + Z.of_nat k * page_size = spa p + size p -> (k <= n)%nat ->
  apply_pages n p valid page_size a s
  = Ret (tt, s <| writes := page_words k p valid page_size a ++ writes s |>).
Proof.
  induction k as [|k IH]; intros n p valid page_size a s Hps Ha Hend Hps2 H0 Hk Hn.
  - assert (a = spa p + size p) as -> by lia.
    assert ((spa p + size p <? u64 (spa p + size p)) = false) as El.
    { rewrite wrap_id by (unfold in_width; lia). lia. }
    destruct n; cbn [apply_pages]; rewrite El; cbn; by destruct s.
  - destruct n as [|n]; [lia|]. cbn [apply_pages].
    rewrite wrap_id by (unfold in_width; lia).
    assert ((a <? spa p + size p) = true) as -> by lia. cbn [negb].
    unfold mbind, M_bind. cbn [FFBM_SET_REG modify]. rewrite wrap_id by (unfold in_width; lia).
    rewrite IH by lia. cbn. rewrite <- app_assoc. done.
Qed.

(** The page loop ends on every block inside the memory. *)
Lemma apply_pages_total p valid page_size n : forall a s,
  0 < page_size < 2 ^ 62 -> 0 <= a -> 0 <= spa p + size p < 2 ^ 62 ->
  spa p + size p <= a + Z.of_nat n * page_size ->
  exists s', apply_pages n p valid page_size a s = Ret (tt, s').
Proof.
  induction n as [|n IH]; intros a s Hps Ha Hend Hn; cbn [apply_pages];
    rewrite (wrap_id 64 (spa p + size p)) by (unfold in_width; lia);
    destruct (Z.ltb_spec a (spa p + size p)); cbn [negb]; try (by eexists); [lia|].
  unfold mbind, M_bind. cbn [FFBM_SET_REG modify]. rewrite wrap_id by (unfold in_width; lia).
  apply IH; lia.
Qed.

Lemma pages_enough p page_size : 0 < page_size -> 0 <= size p ->
  size p <= Z.of_nat (pages p page_size) * page_size.
Proof.
  intros Hps Hs. unfold pages. pose proof (Z.div_mod (size p) page_size). pose proof (Z.mod_pos_bound (size p) page_size).
  pose proof (Z.div_pos (size p) page_size). nia.
Qed.

(** When every wait succeeds, so does the call. *)
Lemma apply_pteb_answers df p valid h :
  (forall n, wait_ok n = true) -> 0 < AMDGV_FFBM_PAGE_SIZE df < 2 ^ 62 ->
  0 <= spa p -> 0 <= size p -> spa p + size p < 2 ^ 62 ->
  (navi32_ffbm_apply_pteb df p valid h).1.1 = 0.
Proof.
  intros Hw Hps Hs Hz Hend.
  assert (Hacc : forall b s, exists s', navi32_ffbm_request_access b s = Ret (0, s')).
  { intros b s. unfold navi32_ffbm_request_access, wait_twice, wait_for_register, mbind, M_bind.
    cbn. rewrite Hw. cbn. rewrite Hw. cbn. by eexists. }
  unfold navi32_ffbm_apply_pteb, apply_body. destruct (Hacc true h) as [h1 E1].
  rewrite (run_bind _ _ _ _ _ E1). cbn [Z.eqb negb].
  erewrite run_bind by reflexivity.
  assert (Hn : spa p + size p <= spa p + Z.of_nat (pages p (AMDGV_FFBM_PAGE_SIZE df)) * AMDGV_FFBM_PAGE_SIZE df).
  { pose proof (pages_enough p (AMDGV_FFBM_PAGE_SIZE df) ltac:(lia) Hz). lia. }
  destruct (apply_pages_total p valid (AMDGV_FFBM_PAGE_SIZE df) (pages p (AMDGV_FFBM_PAGE_SIZE df)) (spa p)
    (h1 <| writes := (FFBM_ADDRESS, address_word p) :: writes h1 |>) ltac:(lia) Hs ltac:(lia) Hn) as [h2 E2].
  rewrite (run_bind _ _ _ _ _ E2). destruct (Hacc false h2) as [h3 E3].
  by rewrite (run_bind _ _ _ _ _ E3).
Qed.

(** Without access nothing is written but the request itself. *)
Lemma apply_pteb_silent df p valid h :
  (forall n, wait_ok n = false) ->
  navi32_ffbm_apply_pteb df p valid h =
  (AMDGV_FAILURE, applied p, mk_navi ((FFBM_ACCESS_CNTL, 1) :: writes h) (S (waits h)) (held h)).
Proof.
  intros Hw. unfold navi32_ffbm_apply_pteb, apply_body, navi32_ffbm_request_access, wait_twice,
    wait_for_register, mbind, M_bind. cbn [FFBM_SET_REG modify]. rewrite !Hw. done.
Qed.

(** C40: when the hardware answers, applying a block of [k] pages requests
    access, sets the address once, writes one page-table word per page in
    ascending order, releases access, and leaves the world-switch locks as they
    were. *)
Theorem navi_apply_writes_pages df p valid h k
  (Hw : forall n, wait_ok n = true) (Hps : 0 < AMDGV_FFBM_PAGE_SIZE df < 2 ^ 62)
  (Hs : 0 <= spa p) (Hz : size p = Z.of_nat k * AMDGV_FFBM_PAGE_SIZE df) (Hend : spa p + size p < 2 ^ 62) :
  navi32_ffbm_apply_pteb df p valid h =
  (0, valid, mk_navi ((FFBM_ACCESS_CNTL, 0) :: page_words k p valid (AMDGV_FFBM_PAGE_SIZE df) (spa p)
                        ++ (FFBM_ADDRESS, address_word p) :: (FFBM_ACCESS_CNTL, 1) :: writes h)
                     (waits h + 4) (held h)).
Proof.
  assert (Hacc : forall b s, navi32_ffbm_request_access b s = Ret (0, mk_navi
    ((FFBM_ACCESS_CNTL, if b then 1 else 0) :: writes s) (waits s + 2)
    (if b then held s + gfx_locks else held s - gfx_locks))).
  { intros b s. unfold navi32_ffbm_request_access, wait_twice, wait_for_register, mbind, M_bind.
    cbn. rewrite Hw. cbn. rewrite Hw. cbn. replace (waits s + 2)%nat with (S (S (waits s))) by lia. by destruct b. }
  assert (Hk : (k <= pages p (AMDGV_FFBM_PAGE_SIZE df))%nat).
  { unfold pages. rewrite Hz, Z.div_mul by lia. lia. }
  unfold navi32_ffbm_apply_pteb, apply_body. rewrite (run_bind _ _ _ _ _ (Hacc true h)). cbn [Z.eqb negb].
  erewrite run_bind by reflexivity.
  erewrite run_bind by (apply (apply_pages_run k); lia || exact Hk).
  rewrite (run_bind _ _ _ _ _ (Hacc false _)). cbn.
  f_equal. f_equal; lia.
Qed.
End navi.

(** A 4 MB block of VF 0 on hardware that always answers. *)
Definition block_4m : Ffbm.pte_block := Ffbm.mk_pteb 0 33554432 4194304 9 3 0 Ffbm.MEM_TYPE_VF false.

Lemma navi_apply_writes_pages_witness :
  @navi32_ffbm_apply_pteb {| wait_ok := fun _ => true; gfx_locks := 1 |} 9 block_4m true (mk_navi [] 0 0)
  = (0, true, mk_navi [(FFBM_ACCESS_CNTL, 0); (FFBM_DATA, 4431); (FFBM_DATA, 4175);
                       (FFBM_ADDRESS, 0); (FFBM_ACCESS_CNTL, 1)] 4 0).
Proof.
  apply (@navi_apply_writes_pages {| wait_ok := fun _ => true; gfx_locks := 1 |} 9 block_4m true (mk_navi [] 0 0) 2);
    vm_compute; intuition congruence.
Defined.
End NaviFfbm.
