(* ===== verification/FfbmInv.v ===== *)
(** * Invariant of the frame-buffer mapper

    The well-formedness invariant of [Ffbm]'s state and the lemmas saying how
    each elementary change of blocks and links keeps it. *)
From S2P Require Import Prelude Api Dlist Ffbm.
Import Dlist Ffbm.
#[local] Open Scope Z_scope.
#[local] Set Warnings "-clear-no-such-hyp".

Abbreviation pool := (list memory_block_t).
Abbreviation nlinks := (links (N := node)).

(** The slots of [array_vf]. *)
Definition vfid (v : Z) : Prop := 0 <= v < AMDGV_MAX_VF_SLOT.

(** Block [i] is in use and holds [p]. *)
Definition holds (B : pool) (i : nat) (p : pte_block) : Prop := B !! i = Some (mk_mb p true).

(** The blocks [L], in this order, cover the addresses from [a] to [b] without
    gap or overlap. *)
Fixpoint tiles (B : pool) (a : Z) (L : list nat) (b : Z) : Prop :=
  match L with
  | [] => a = b
  | i :: L' => exists p, holds B i p /\ spa p = a /\ 0 < size p /\ tiles B (a + size p) L' b
  end.

(** A block no operation hands out or frees. *)
Definition static (p : pte_block) : Prop :=
  type p <> MEM_TYPE_VF /\ type p <> MEM_TYPE_NOT_ASSIGNED.

(** Splitting a free block that carries a guest address follows its
    guest-physical pointer: it must not lead to a VF's list. *)
Definition ring_ok (B : pool) (h : nlinks) (L : list nat) (i : nat) (p : pte_block) : Prop :=
  gpa p = AMDGV_FFBM_INVALID_ADDR \/
  exists j q, next h !! GpaNode i = Some (GpaNode j) /\ j ∈ L /\ holds B j q /\ static q.

Definition TMR_START : Z := MBYTES_TO_BYTES AMDGV_FFBM_FB_TMR_OFFSET.

(** [L]: the blocks in physical order; [G v]: the blocks of VF [v] in list
    order; [X]: free blocks whose guest-physical pointers are being changed. *)
Record wf (X : list nat) (B : pool) (h : nlinks) (tot df tmr : Z) (L : list nat) (G : Z -> list nat) : Prop := {
  w_len : length B = AMDGV_FFBM_MEMORY_ALLOCATION_COUNT;
  w_tot : 0 <= tot < 2 ^ 62;
  w_df : 0 <= df <= 18;
  w_spa : dlist h SpaHead (SpaNode <$> L);
  w_gpa : forall v, vfid v -> dlist h (GpaHead v) (GpaNode <$> G v);
  w_tiles : tiles B 0 L tot;
  w_G : forall v i, vfid v -> i ∈ G v -> exists p, holds B i p /\ vf_idx p = v /\
          ((type p = MEM_TYPE_VF /\ i ∈ L) \/
           (type p = MEM_TYPE_TMR /\ (i ∉ L) /\ spa p = TMR_START /\ size p = MBYTES_TO_BYTES tmr));
  w_L : forall i p, i ∈ L -> holds B i p ->
          fragment p = df /\ size p mod AMDGV_FFBM_PAGE_SIZE df = 0 /\
          (type p = MEM_TYPE_VF -> exists v, vfid v /\ i ∈ G v);
  w_ring : forall i p, i ∈ L -> holds B i p -> type p = MEM_TYPE_NOT_ASSIGNED -> i ∉ X ->
          ring_ok B h L i p;
  w_tmr : exists i p, i ∈ L /\ holds B i p /\ type p = MEM_TYPE_TMR /\
          spa p = TMR_START /\ size p = MBYTES_TO_BYTES tmr;
  w_pos : forall v i p, vfid v -> i ∈ G v -> holds B i p -> 0 <= gpa p;
}.
Arguments w_len {_ _ _ _ _ _ _ _} _.
Arguments w_tot {_ _ _ _ _ _ _ _} _.
Arguments w_df {_ _ _ _ _ _ _ _} _.
Arguments w_spa {_ _ _ _ _ _ _ _} _.
Arguments w_gpa {_ _ _ _ _ _ _ _} _ v _.
Arguments w_tiles {_ _ _ _ _ _ _ _} _.
Arguments w_G {_ _ _ _ _ _ _ _} _ v i _ _.
Arguments w_L {_ _ _ _ _ _ _ _} _ i p _ _.
Arguments w_ring {_ _ _ _ _ _ _ _} _ i p _ _ _ _.
Arguments w_tmr {_ _ _ _ _ _ _ _} _.
Arguments w_pos {_ _ _ _ _ _ _ _} _ v i p _ _ _.

(** ** Lists of blocks *)

Lemma holds_inj B i p q : holds B i p -> holds B i q -> p = q.
Proof. unfold holds. congruence. Qed.

Lemma tiles_app B a xs ys b :
  tiles B a (xs ++ ys) b <-> exists m, tiles B a xs m /\ tiles B m ys b.
Proof.
  revert a. induction xs as [|x xs IH]; intros a; cbn.
  - split; [eauto|]. by intros (m & -> & ?).
  - setoid_rewrite IH. naive_solver.
Qed.

Lemma tiles_le B a L b : tiles B a L b -> a <= b.
Proof.
  revert a. induction L as [|i L IH]; intros a; cbn; [lia|].
  intros (p & _ & _ & ? & Ht). apply IH in Ht. lia.
Qed.

Lemma tiles_elem B a L b i :
  tiles B a L b -> i ∈ L ->
  exists p, holds B i p /\ a <= spa p /\ 0 < size p /\ spa p + size p <= b.
Proof.
  revert a. induction L as [|j L IH]; intros a; cbn; [set_solver|].
  intros (p & Hp & Ha & Hs & Ht) Hi. apply elem_of_cons in Hi as [->|Hi].
  - exists p. apply tiles_le in Ht. split_and!; [done|lia|done|lia].
  - destruct (IH _ Ht Hi) as (q & ? & ? & ? & ?). exists q. split_and!; [done|lia|done|done].
Qed.

(** Tiling depends only on the extents of the blocks. *)
Lemma tiles_frame B B' a L b :
  (forall i p, i ∈ L -> holds B i p -> exists p', holds B' i p' /\ spa p' = spa p /\ size p' = size p) ->
  tiles B a L b -> tiles B' a L b.
Proof.
  revert a. induction L as [|i L IH]; intros a Hf; cbn; [done|].
  intros (p & Hp & Ha & Hs & Ht). destruct (Hf i p) as (p' & Hp' & E1 & E2); [set_solver|done|].
  exists p'. split_and!; [done|lia|lia|]. rewrite E2. apply IH; [set_solver|done].
Qed.

(** An address lies in the block found first, and in no other. *)
Lemma tiles_disjoint B a xs i ys b j p q x :
  tiles B a (xs ++ i :: ys) b -> holds B i p -> j ∈ xs ++ ys -> holds B j q ->
  spa p <= x < spa p + size p -> ~ (spa q <= x < spa q + size q).
Proof.
  intros Ht Hp Hj Hq Hx. apply tiles_app in Ht as (m & Hxs & p' & Hp' & Ha & Hs & Hys).
  pose proof (holds_inj _ _ _ _ Hp Hp') as <-. apply elem_of_app in Hj as [Hj|Hj].
  - destruct (tiles_elem _ _ _ _ _ Hxs Hj) as (q' & Hq' & ? & ? & ?).
    pose proof (holds_inj _ _ _ _ Hq Hq') as <-. lia.
  - destruct (tiles_elem _ _ _ _ _ Hys Hj) as (q' & Hq' & ? & ? & ?).
    pose proof (holds_inj _ _ _ _ Hq Hq') as <-. lia.
Qed.

Lemma holds_insert_ne B i j p b : i <> j -> holds (<[j := b]> B) i p <-> holds B i p.
Proof. intros. unfold holds. by rewrite list_lookup_insert_ne. Qed.

Lemma holds_insert_eq B i p q : (i < length B)%nat -> holds (<[i := mk_mb p true]> B) i q <-> q = p.
Proof. intros. unfold holds. rewrite list_lookup_insert_eq by done. split; congruence. Qed.

Lemma holds_lt B i p : holds B i p -> (i < length B)%nat.
Proof. apply lookup_lt_Some. Qed.

Lemma elem_spa i (L : list nat) : SpaNode i ∈ SpaNode <$> L <-> i ∈ L.
Proof. rewrite list_elem_of_fmap. naive_solver. Qed.
Lemma elem_gpa i (L : list nat) : GpaNode i ∈ GpaNode <$> L <-> i ∈ L.
Proof. rewrite list_elem_of_fmap. naive_solver. Qed.
Lemma elem_spa_gpa i (L : list nat) : SpaNode i ∉ GpaNode <$> L.
Proof. rewrite list_elem_of_fmap. naive_solver. Qed.
Lemma elem_gpa_spa i (L : list nat) : GpaNode i ∉ SpaNode <$> L.
Proof. rewrite list_elem_of_fmap. naive_solver. Qed.

(** Membership of a concrete node in a concrete kind of list. *)
Ltac nodes :=
  repeat match goal with
  | |- _ ∉ _ :: _ => apply not_elem_of_cons; split
  | |- GpaNode _ ∉ SpaNode <$> _ => apply elem_gpa_spa
  | |- SpaNode _ ∉ GpaNode <$> _ => apply elem_spa_gpa
  | |- GpaNode _ ∉ GpaNode <$> _ => rewrite elem_gpa
  | |- SpaNode _ ∉ SpaNode <$> _ => rewrite elem_spa
  | |- _ <> _ => done
  end.

Lemma wf_nodup X B h tot df tmr L G : wf X B h tot df tmr L G -> NoDup L.
Proof.
  intros Hw. pose proof (w_spa Hw) as [_ Hnd].
  apply NoDup_cons in Hnd as [_ Hnd]. by apply NoDup_fmap_1 in Hnd.
Qed.

Lemma wf_len X B h tot df tmr L G : wf X B h tot df tmr L G -> (length L <= AMDGV_FFBM_MEMORY_ALLOCATION_COUNT)%nat.
Proof.
  intros Hw. pose proof (wf_nodup _ _ _ _ _ _ _ _ Hw) as Hnd.
  rewrite <- (length_seq AMDGV_FFBM_MEMORY_ALLOCATION_COUNT 0).
  apply NoDup_incl_length; [by apply NoDup_ListNoDup|]. intros i Hi. apply list_elem_of_In in Hi.
  destruct (tiles_elem _ _ _ _ _ (w_tiles Hw) Hi) as (p & Hp & _).
  apply holds_lt in Hp. rewrite (w_len Hw) in Hp. apply in_seq. lia.
Qed.

Lemma wf_len_G X B h tot df tmr L G v :
  wf X B h tot df tmr L G -> vfid v -> (length (G v) <= AMDGV_FFBM_MEMORY_ALLOCATION_COUNT)%nat.
Proof.
  intros Hw Hv. pose proof (w_gpa Hw v Hv) as [_ Hnd].
  apply NoDup_cons in Hnd as [_ Hnd]. apply NoDup_fmap_1 in Hnd.
  rewrite <- (length_seq AMDGV_FFBM_MEMORY_ALLOCATION_COUNT 0).
  apply NoDup_incl_length; [by apply NoDup_ListNoDup|]. intros i Hi. apply list_elem_of_In in Hi.
  destruct (w_G Hw v i Hv Hi) as (p & Hp & _).
  apply holds_lt in Hp. rewrite (w_len Hw) in Hp. apply in_seq. lia.
Qed.

(** ** Changes of the state that keep the invariant *)

Definition set_G (G : Z -> list nat) (v : Z) (l : list nat) : Z -> list nat :=
  fun w => if decide (w = v) then l else G w.

(** [i] is linked in no list. *)
Definition fresh (L : list nat) (G : Z -> list nat) (i : nat) : Prop :=
  (i ∉ L) /\ forall v, vfid v -> i ∉ G v.

Section changes.
Context {X : list nat} {B : pool} {h : nlinks} {tot df tmr : Z} {L : list nat} {G : Z -> list nat}.
Hypothesis Hw : wf X B h tot df tmr L G.

Lemma wf_in_L i : i ∈ L -> exists p, holds B i p /\ 0 <= spa p /\ 0 < size p /\ spa p + size p <= tot.
Proof. apply tiles_elem. apply (w_tiles Hw). Qed.

Lemma free_not_in_G i p v :
  i ∈ L -> holds B i p -> type p = MEM_TYPE_NOT_ASSIGNED -> vfid v -> i ∉ G v.
Proof.
  intros Hi Hp Ht Hv HG. destruct (w_G Hw v i Hv HG) as (q & Hq & _ & [[? _]|[? _]]);
    pose proof (holds_inj _ _ _ _ Hp Hq); congruence.
Qed.

Lemma G_elem_unique v w k : vfid v -> vfid w -> k ∈ G w -> k ∈ G v -> w = v.
Proof.
  intros Hv Hvw H1 H2. destruct (w_G Hw w k Hvw H1) as (q1 & Hq1 & E1 & _).
  destruct (w_G Hw v k Hv H2) as (q2 & Hq2 & E2 & _). pose proof (holds_inj _ _ _ _ Hq1 Hq2). congruence.
Qed.

Lemma unused_fresh j b : B !! j = Some b -> used b = false -> fresh L G j.
Proof.
  intros Hb Hu. split.
  - intros Hj. destruct (wf_in_L j Hj) as (p & Hp & _). unfold holds in Hp. rewrite Hb in Hp.
    by injection Hp as ->.
  - intros v Hv Hj. destruct (w_G Hw v j Hv Hj) as (p & Hp & _). unfold holds in Hp.
    rewrite Hb in Hp. by injection Hp as ->.
Qed.

Lemma wf_ext G' : (forall v, G' v = G v) -> wf X B h tot df tmr L G'.
Proof.
  intros HG. destruct Hw as [H1 H2 H3 H4 H5 H6 H7 H8 H9 H10 H11]. split; try done.
  - intros v Hv. rewrite HG. by apply H5.
  - intros v i Hv Hi. rewrite HG in Hi. by apply H7.
  - intros i p Hi Hp. destruct (H8 i p Hi Hp) as (? & ? & Hvf). split_and!; [done..|].
    intros Et. destruct (Hvf Et) as (v & ? & ?). exists v. by rewrite HG.
  - intros v i p Hv Hi. rewrite HG in Hi. by apply H11 with v.
Qed.

(** The state may change freely outside the linked blocks and nodes. *)
Lemma wf_agree B' h' :
  length B' = length B ->
  (forall i, ~ fresh L G i -> B' !! i = B !! i) ->
  (forall n, (forall i, n = SpaNode i -> i ∈ L) -> (forall i, n = GpaNode i -> ~ fresh L G i) ->
     next h' !! n = next h !! n /\ prev h' !! n = prev h !! n) ->
  wf X B' h' tot df tmr L G.
Proof.
  intros Hlen HB Hh.
  assert (HBL : forall i, i ∈ L -> B' !! i = B !! i) by (intros i Hi; apply HB; by intros [? _]).
  assert (HBG : forall v i, vfid v -> i ∈ G v -> B' !! i = B !! i).
  { intros v i Hv Hi. apply HB. intros [_ HF]. by apply (HF v). }
  split.
  - rewrite Hlen. apply (w_len Hw).
  - apply (w_tot Hw).
  - apply (w_df Hw).
  - eapply dlist_frame; [..|apply (w_spa Hw)]; intros x Hx; apply Hh.
    + intros i ->. apply elem_of_cons in Hx as [|Hx]; [done|by apply elem_spa in Hx].
    + intros i ->. apply elem_of_cons in Hx as [|Hx]; [done|by apply elem_gpa_spa in Hx].
    + intros i ->. apply elem_of_cons in Hx as [|Hx]; [done|by apply elem_spa in Hx].
    + intros i ->. apply elem_of_cons in Hx as [|Hx]; [done|by apply elem_gpa_spa in Hx].
  - intros v Hv. eapply dlist_frame; [..|apply (w_gpa Hw v Hv)]; intros x Hx; apply Hh.
    1,3: intros i ->; apply elem_of_cons in Hx as [|Hx]; [done|by apply elem_spa_gpa in Hx].
    all: intros i -> [_ HF]; apply elem_of_cons in Hx as [|Hx]; [done|];
      apply elem_gpa in Hx; by apply (HF v).
  - eapply tiles_frame; [|apply (w_tiles Hw)]. intros i p Hi Hp. exists p.
    unfold holds. by rewrite HBL.
  - intros v i Hv Hi. destruct (w_G Hw v i Hv Hi) as (p & Hp & ?). exists p. split; [|done].
    unfold holds. by rewrite (HBG v).
  - intros i p Hi Hp. apply (w_L Hw i p Hi). unfold holds in *. by rewrite HBL in Hp.
  - intros i p Hi Hp Ht HX. unfold holds in Hp. rewrite HBL in Hp by done.
    destruct (w_ring Hw i p Hi Hp Ht HX) as [?|(j & q & E & Hj & Hq & Hs)]; [by left|].
    right. exists j, q. split_and!; [|done| |done].
    + destruct (Hh (GpaNode i)) as [-> _]; [done| |done]. by intros ? [= <-] [? _].
    + unfold holds. by rewrite HBL.
  - destruct (w_tmr Hw) as (i & p & Hi & Hp & ?). exists i, p. split_and!; [done| |naive_solver..].
    unfold holds. by rewrite HBL.
  - intros v i p Hv Hi Hp. apply (w_pos Hw v i p Hv Hi). unfold holds in *. by rewrite (HBG v) in Hp.
Qed.

(** Giving out an unused block. *)
Lemma wf_alloc j b q :
  B !! j = Some b -> used b = false ->
  wf X (<[j := mk_mb q true]> B)
     (AMDGV_INIT_LIST_HEAD (SpaNode j) (AMDGV_INIT_LIST_HEAD (GpaNode j) (clear_nodes j h)))
     tot df tmr L G.
Proof.
  intros Hb Hu. pose proof (unused_fresh j b Hb Hu) as HF. apply wf_agree.
  - apply length_insert.
  - intros i Hi. apply list_lookup_insert_ne. by intros ->.
  - intros n HS HGn. assert (n <> SpaNode j). { intros ->. destruct HF as [HF _]. by apply HF, HS. }
    assert (n <> GpaNode j). { intros ->. by apply (HGn j). }
    cbn. by rewrite !lookup_insert_ne, !lookup_delete_ne by congruence.
Qed.

(** Changing data of a linked block that no list depends on. *)
Lemma wf_touch i p p' :
  holds B i p -> gpa p' = gpa p -> spa p' = spa p -> size p' = size p -> fragment p' = fragment p ->
  type p' = type p -> vf_idx p' = vf_idx p ->
  wf X (<[i := mk_mb p' true]> B) h tot df tmr L G.
Proof.
  intros Hp E1 E2 E3 E4 E5 E6. pose proof (holds_lt _ _ _ Hp) as Hlt.
  assert (Ht : forall k q, holds B k q -> exists q', holds (<[i := mk_mb p' true]> B) k q' /\
    gpa q' = gpa q /\ spa q' = spa q /\ size q' = size q /\ fragment q' = fragment q /\
    type q' = type q /\ vf_idx q' = vf_idx q).
  { intros k q Hq. destruct (decide (k = i)) as [->|Hne].
    - pose proof (holds_inj _ _ _ _ Hp Hq) as <-. exists p'. by rewrite holds_insert_eq.
    - exists q. by rewrite holds_insert_ne. }
  assert (Hb : forall k q', holds (<[i := mk_mb p' true]> B) k q' -> exists q, holds B k q /\
    gpa q' = gpa q /\ spa q' = spa q /\ size q' = size q /\ fragment q' = fragment q /\
    type q' = type q /\ vf_idx q' = vf_idx q).
  { intros k q' Hq'. destruct (decide (k = i)) as [->|Hne].
    - rewrite holds_insert_eq in Hq' by done. subst q'. by exists p.
    - rewrite holds_insert_ne in Hq' by done. by exists q'. }
  split.
  - rewrite length_insert. apply (w_len Hw).
  - apply (w_tot Hw).
  - apply (w_df Hw).
  - apply (w_spa Hw).
  - apply (w_gpa Hw).
  - eapply tiles_frame; [|apply (w_tiles Hw)]. intros k q _ Hq.
    destruct (Ht k q Hq) as (q' & ? & ? & ? & ? & _). by exists q'.
  - intros v k Hv Hk. destruct (w_G Hw v k Hv Hk) as (q & Hq & ? & ?).
    destruct (Ht k q Hq) as (q' & ? & ? & Es & Ez & ? & Et & Ev). exists q'.
    rewrite Es, Ez, Et, Ev. by split_and!.
  - intros k q' Hk Hq'. destruct (Hb k q' Hq') as (q & Hq & _ & _ & Ez & Ef & Et & _).
    rewrite Ef, Et, Ez. by apply (w_L Hw k q).
  - intros k q' Hk Hq' Htype HX. destruct (Hb k q' Hq') as (q & Hq & Eg & _ & _ & _ & Et & _).
    destruct (w_ring Hw k q Hk Hq) as [?|(j & r & En & Hj & Hr & Hs1 & Hs2)]; [congruence|done|left; congruence|].
    right. destruct (Ht j r Hr) as (r' & Hr' & _ & _ & _ & _ & Etr & _). exists j, r'.
    split_and!; [done|done|done|]. split; congruence.
  - destruct (w_tmr Hw) as (k & q & Hk & Hq & Etq & Esq & Ezq).
    destruct (Ht k q Hq) as (q' & Hq' & _ & Es & Ez & _ & Et & _). exists k, q'.
    split_and!; [done|done|congruence..].
  - intros v k q' Hv Hk Hq'. destruct (Hb k q' Hq') as (q & Hq & Eg & _). rewrite Eg. by apply (w_pos Hw v k q).
Qed.
End changes.

(** ** Splitting a free block *)

Section split.
Context {B : pool} {h : nlinks} {tot df tmr : Z} {xs ys : list nat} {G : Z -> list nat}.
Context {i j : nat} {p q : pte_block} {sz : Z}.
Hypothesis Hw : wf [] B h tot df tmr (xs ++ i :: ys) G.
Hypothesis Hi : holds B i p.
Hypothesis Hfree : type p = MEM_TYPE_NOT_ASSIGNED.
Hypothesis Hj : holds B j q.
Hypothesis Hfr : fresh (xs ++ i :: ys) G j.
Hypothesis Hsz : 0 < sz < size p.
Hypothesis Hpage : sz mod AMDGV_FFBM_PAGE_SIZE df = 0.
Hypothesis Hq : spa q = spa p + sz /\ size q = size p - sz /\ fragment q = fragment p /\
  type q = MEM_TYPE_NOT_ASSIGNED /\ (gpa p = AMDGV_FFBM_INVALID_ADDR -> gpa q = AMDGV_FFBM_INVALID_ADDR).

Let B' := <[i := mk_mb (p <| size := sz |>) true]> B.
Let h1 := list_add (SpaNode j) (SpaNode i) (after (SpaNode <$> ys) SpaHead) h.
Let L' := xs ++ i :: j :: ys.

Lemma split_holds k r : k <> i -> holds B' k r <-> holds B k r.
Proof. intros. unfold B'. by apply holds_insert_ne. Qed.

Lemma split_holds_i r : holds B' i r <-> r = p <| size := sz |>.
Proof. apply holds_insert_eq. by eapply holds_lt. Qed.

Lemma split_ne : j <> i.
Proof. intros ->. destruct Hfr as [HF _]. set_solver. Qed.

Lemma split_spa : dlist h1 SpaHead (SpaNode <$> L').
Proof.
  pose proof (dlist_insert h SpaHead (SpaNode <$> xs ++ [i]) (SpaNode <$> ys) (SpaNode j)) as HI.
  rewrite fmap_app in HI. cbn [fmap list_fmap] in HI. rewrite before_snoc in HI.
  unfold L', h1. rewrite fmap_app. cbn [fmap list_fmap]. rewrite <- !app_assoc in HI. cbn [app] in HI.
  apply HI.
  - pose proof (w_spa Hw) as Hs. by rewrite fmap_app in Hs.
  - apply not_elem_of_cons. split; [done|]. destruct Hfr as [HF _]. intros Hin. apply HF.
    apply elem_spa. by rewrite fmap_app.
Qed.

Lemma split_tiles : tiles B' 0 L' tot.
Proof.
  pose proof (w_tiles Hw) as Ht. apply tiles_app in Ht as (m & Hxs & p' & Hp' & Ha & Hs & Hys).
  pose proof (holds_inj _ _ _ _ Hi Hp') as <-. pose proof (wf_nodup _ _ _ _ _ _ _ _ Hw) as Hnd.
  apply NoDup_app in Hnd as (_ & Hxi & Hiy). apply NoDup_cons in Hiy as [Hiy _].
  apply tiles_app. exists m. split.
  - eapply tiles_frame; [|exact Hxs]. intros k r Hk Hr. exists r. split; [|done].
    apply split_holds; [|done]. intros ->. apply (Hxi i Hk). set_solver.
  - exists (p <| size := sz |>). split; [by apply split_holds_i|]. split; [done|].
    split; [cbn; lia|]. exists q. split; [apply split_holds; [apply split_ne|done]|].
    destruct Hq as (Eq1 & Eq2 & _). split; [cbn; lia|]. split; [lia|].
    eapply tiles_frame; [|replace (m + size (p <| size := sz |>) + size q) with (m + size p) by (cbn; lia); exact Hys].
    intros k r Hk Hr. exists r. split; [|done]. apply split_holds; [|done]. by intros ->.
Qed.

(** The links a VF's list or a block's ring consists of are untouched. *)
Lemma split_frame n :
  (forall k, n <> SpaNode k) -> n <> SpaHead ->
  next h1 !! n = next h !! n /\ prev h1 !! n = prev h !! n.
Proof.
  intros Hn Hn'. unfold h1. rewrite list_add_next, list_add_prev.
  rewrite !decide_False by done. split; [done|]. rewrite decide_False; [done|].
  intros ->. pose proof (after_elem (SpaNode <$> ys) SpaHead) as He.
  apply elem_of_app in He as [He|He]; [|set_solver].
  apply list_elem_of_fmap in He as (k & E & _). by apply (Hn k).
Qed.

(** The blocks and the physical list after the split; [h2] may differ from
    [h1] in the guest-physical pointers of blocks that are in no VF's list. *)
Lemma wf_split h2 :
  (forall n, (forall k, n = GpaNode k -> exists v, vfid v /\ k ∈ G v) ->
     next h2 !! n = next h1 !! n /\ prev h2 !! n = prev h1 !! n) ->
  (forall k, k <> i -> k <> j -> next h2 !! GpaNode k = next h1 !! GpaNode k) ->
  ring_ok B' h2 L' j q ->
  wf [i] B' h2 tot df tmr L' G.
Proof.
  intros Hf2 Hn2 Hring.
  assert (Hin : forall k, k ∈ L' <-> k ∈ xs ++ i :: ys \/ k = j) by (unfold L'; set_solver).
  assert (HkB : forall k r, k <> i -> holds B' k r -> holds B k r) by (intros; by apply split_holds).
  destruct Hq as (Eq1 & Eq2 & Eq3 & Eq4 & _).
  split.
  - unfold B'. rewrite length_insert. apply (w_len Hw).
  - apply (w_tot Hw).
  - apply (w_df Hw).
  - eapply dlist_frame; [..|exact split_spa]; intros n Hn; apply Hf2; intros k ->;
      apply elem_of_cons in Hn as [|Hn]; [done|by apply elem_gpa_spa in Hn|done|by apply elem_gpa_spa in Hn].
  - intros v Hv. eapply dlist_frame; [..|apply (w_gpa Hw v Hv)]; intros n Hn.
    all: destruct (Hf2 n) as [E1 E2];
      [intros k ->; exists v; split; [done|]; apply elem_of_cons in Hn as [|Hn]; [done|by apply elem_gpa in Hn]|].
    all: destruct (split_frame n) as [E3 E4];
      [intros k ->; apply elem_of_cons in Hn as [|Hn]; [done|by apply elem_spa_gpa in Hn]
      |intros ->; apply elem_of_cons in Hn as [|Hn]; [done|by apply list_elem_of_fmap in Hn as (? & ? & ?)]|].
    + by rewrite E1, E3.
    + by rewrite E2, E4.
  - exact split_tiles.
  - intros v k Hv Hk. destruct (w_G Hw v k Hv Hk) as (r & Hr & Ev & Hc). exists r.
    assert (k <> i). { intros ->. pose proof (holds_inj _ _ _ _ Hi Hr) as <-. destruct Hc as [[? _]|[? _]]; congruence. }
    assert (k <> j). { intros ->. destruct Hfr as [_ HF]. by apply (HF v). }
    split; [by apply split_holds|]. split; [done|]. destruct Hc as [[? ?]|(? & ? & ?)]; [left|right].
    + split; [done|]. apply Hin. by left.
    + split; [done|]. split; [|done]. rewrite Hin. naive_solver.
  - intros k r Hk Hr. destruct (decide (k = i)) as [->|Hne].
    + apply split_holds_i in Hr as ->. cbn. destruct (w_L Hw i p) as [? _]; [set_solver|done|].
      split_and!; [done|done|congruence].
    + apply HkB in Hr; [|done]. apply Hin in Hk as [Hk| ->]; [by apply (w_L Hw k r)|].
      pose proof (holds_inj _ _ _ _ Hj Hr) as <-. rewrite Eq3, Eq4. destruct (w_L Hw i p) as (? & Hm & _); [set_solver|done|].
      split_and!; [done| |done]. by rewrite Eq2, Zminus_mod, Hm, Hpage.
  - intros k r Hk Hr Ht HX. assert (k <> i) by set_solver. apply HkB in Hr; [|done].
    destruct (decide (k = j)) as [->|Hne].
    { by pose proof (holds_inj _ _ _ _ Hj Hr) as <-. }
    assert (Hk' : k ∈ xs ++ i :: ys) by (apply Hin in Hk; naive_solver).
    destruct (w_ring Hw k r Hk' Hr Ht) as [?|(l & t & E & Hl & Ht' & Hs)]; [set_solver|by left|].
    assert (l <> i). { intros ->. pose proof (holds_inj _ _ _ _ Hi Ht') as <-. by destruct Hs. }
    right. exists l, t. split_and!; [|apply Hin; by left|by apply split_holds|done].
    rewrite Hn2 by done. destruct (split_frame (GpaNode k)) as [-> _]; done.
  - destruct (w_tmr Hw) as (k & r & Hk & Hr & Et & ? & ?). exists k, r.
    assert (k <> i). { intros ->. pose proof (holds_inj _ _ _ _ Hi Hr) as <-. congruence. }
    split_and!; [apply Hin; by left|by apply split_holds|done..].
  - intros v k r Hv Hk Hr. assert (Hne : k <> i).
    { intros ->. assert (i ∈ xs ++ i :: ys) by set_solver. by apply (free_not_in_G Hw i p v). }
    apply (w_pos Hw v k r Hv Hk). by apply HkB.
Qed.
End split.

(** ** Entering and leaving the list of a VF *)

(** [h'] differs from [h] only in the list of VF [v] and the nodes of [S]. *)
Definition gpa_local (v : Z) (S : list nat) (h h' : nlinks) : Prop :=
  forall n, n <> GpaHead v -> (forall k, n = GpaNode k -> k ∉ S) ->
    next h' !! n = next h !! n /\ prev h' !! n = prev h !! n.

Section relink.
Context {X : list nat} {B : pool} {h : nlinks} {tot df tmr : Z} {L : list nat} {G : Z -> list nat}.
Context {v : Z} {i : nat} {l : list nat} {h' : nlinks} {B' : pool} {p p' : pte_block} {u : bool}.
Hypothesis Hw : wf X B h tot df tmr L G.
Hypothesis Hv : vfid v.
Hypothesis HiG : forall w, vfid w -> i ∈ G w -> w = v.
Hypothesis Hlen : length B' = length B.
Hypothesis HB : forall k, k <> i -> B' !! k = B !! k.
Hypothesis Hl : forall k, k <> i -> k ∈ l <-> k ∈ G v.
Hypothesis Hloc : gpa_local v (i :: G v) h h'.
Hypothesis Hlist : dlist h' (GpaHead v) (GpaNode <$> l).
Hypothesis Hp : holds B i p.
Hypothesis Hp' : B' !! i = Some (mk_mb p' u).

Lemma relink_holds k r : k <> i -> holds B' k r <-> holds B k r.
Proof. intros. unfold holds. by rewrite HB. Qed.

Lemma wf_relink :
  (i ∈ L -> u = true /\ fragment p' = df /\ spa p' = spa p /\ size p' = size p /\
            ~ static p /\ (type p' = MEM_TYPE_VF <-> i ∈ l) /\
            (type p' = MEM_TYPE_NOT_ASSIGNED -> gpa p' = AMDGV_FFBM_INVALID_ADDR)) ->
  (i ∈ l -> u = true /\ vf_idx p' = v /\
     ((type p' = MEM_TYPE_VF /\ i ∈ L) \/
      (type p' = MEM_TYPE_TMR /\ (i ∉ L) /\ spa p' = TMR_START /\ size p' = MBYTES_TO_BYTES tmr))) ->
  (forall k, k ∈ X -> k = i) ->
  (i ∈ l -> 0 <= gpa p') ->
  wf [] B' h' tot df tmr L (set_G G v l).
Proof.
  intros HiL Hil HX Hpos.
  assert (HinL : i ∈ L -> holds B' i p' /\ type p <> MEM_TYPE_TMR /\ ~ static p).
  { intros Hi. destruct (HiL Hi) as (-> & _ & _ & _ & Hs & _). split_and!; [done| |done].
    intros E. apply Hs. split; congruence. }
  split.
  - rewrite Hlen. apply (w_len Hw).
  - apply (w_tot Hw).
  - apply (w_df Hw).
  - eapply dlist_frame; [..|apply (w_spa Hw)]; intros n Hn; apply Hloc.
    1,3: intros ->; apply elem_of_cons in Hn as [|Hn]; [done|by apply list_elem_of_fmap in Hn as (? & ? & _)].
    all: intros k ->; apply elem_of_cons in Hn as [|Hn]; [done|by apply elem_gpa_spa in Hn].
  - intros w Hvw. unfold set_G. destruct (decide (w = v)) as [->|Hne]; [done|].
    eapply dlist_frame; [..|apply (w_gpa Hw w Hvw)]; intros n Hn; apply Hloc.
    1,3: intros ->; apply elem_of_cons in Hn as [[=]|Hn]; [done|by apply list_elem_of_fmap in Hn as (? & ? & _)].
    all: intros k ->; apply elem_of_cons in Hn as [|Hn]; [done|]; apply elem_gpa in Hn;
      apply not_elem_of_cons; split; [intros ->; by apply Hne, HiG|];
      intros Hk; apply Hne; by apply (G_elem_unique Hw v w k).
  - eapply tiles_frame; [|apply (w_tiles Hw)]. intros k r Hk Hr.
    destruct (decide (k = i)) as [->|Hne].
    + exists p'. pose proof (holds_inj _ _ _ _ Hp Hr) as <-.
      destruct (HiL Hk) as (_ & _ & ? & ? & _). by destruct (HinL Hk).
    + exists r. split; [by apply relink_holds|done].
  - intros w k Hvw Hk. destruct (decide (k = i)) as [->|Hne].
    + unfold set_G in Hk. destruct (decide (w = v)) as [->|Hwv]; [|by specialize (HiG w Hvw Hk)].
      destruct (Hil Hk) as (-> & Ev & Hc). by exists p'.
    + destruct (w_G Hw w k Hvw) as (r & Hr & Ev & Hc).
      { unfold set_G in Hk. destruct (decide (w = v)) as [->|?]; [by apply Hl|done]. }
      exists r. split; [by apply relink_holds|done].
  - intros k r Hk Hr. destruct (decide (k = i)) as [->|Hne].
    + destruct (HinL Hk) as (Hi' & _). pose proof (holds_inj _ _ _ _ Hi' Hr) as <-.
      destruct (HiL Hk) as (_ & Ef & _ & Ez & _ & Ht & _). destruct (w_L Hw i p Hk Hp) as (_ & ? & _).
      split_and!; [done|by rewrite Ez|]. intros Evf.
      exists v. split; [done|]. unfold set_G. rewrite decide_True by done. by apply Ht.
    + apply relink_holds in Hr; [|done]. destruct (w_L Hw k r Hk Hr) as (? & ? & Hvf).
      split_and!; [done..|]. intros E. destruct (Hvf E) as (w & Hvw & Hkw). exists w. split; [done|].
      unfold set_G. destruct (decide (w = v)) as [->|?]; [by apply Hl|done].
  - intros k r Hk Hr Ht _. destruct (decide (k = i)) as [->|Hne].
    + destruct (HinL Hk) as (Hi' & _). pose proof (holds_inj _ _ _ _ Hi' Hr) as <-. left. by apply HiL.
    + apply relink_holds in Hr; [|done].
      destruct (w_ring Hw k r Hk Hr Ht) as [?|(m & q & E & Hm & Hq & Hs)]; [by intros ?%HX|by left|].
      assert (m <> i). { intros ->. pose proof (holds_inj _ _ _ _ Hp Hq) as <-. by apply (HinL Hm). }
      right. exists m, q. split_and!; [|done|by apply relink_holds|done].
      destruct (Hloc (GpaNode k)) as [-> _]; [done| |done]. intros ? [= <-].
      apply not_elem_of_cons. split; [done|]. by eapply free_not_in_G.
  - destruct (w_tmr Hw) as (k & r & Hk & Hr & Et & ?). exists k, r.
    assert (k <> i). { intros ->. pose proof (holds_inj _ _ _ _ Hp Hr) as <-. by destruct (HinL Hk) as (_ & Hne & _). }
    split_and!; [done|by apply relink_holds|naive_solver..].
  - intros w k r Hvw Hk Hr. unfold set_G in Hk. destruct (decide (k = i)) as [->|Hne].
    + destruct (decide (w = v)) as [->|Hwv]; [|by specialize (HiG w Hvw Hk)].
      destruct (Hil Hk) as (-> & _). unfold holds in Hr. rewrite Hp' in Hr. injection Hr as <-. auto.
    + apply relink_holds in Hr; [|done]. apply (w_pos Hw w k r Hvw); [|done].
      destruct (decide (w = v)) as [->|?]; [by apply Hl|done].
Qed.
End relink.

Lemma gpa_local_add v i (us vs : list nat) h :
  gpa_local v (i :: us ++ vs) h
    (list_add (GpaNode i) (before (GpaHead v) (GpaNode <$> us)) (after (GpaNode <$> vs) (GpaHead v)) h).
Proof.
  intros n Hn HS.
  pose proof (before_elem (GpaHead v) (GpaNode <$> us)) as Hb.
  pose proof (after_elem (GpaNode <$> vs) (GpaHead v)) as Ha.
  assert (n <> GpaNode i). { intros ->. specialize (HS i eq_refl). set_solver. }
  assert (n <> before (GpaHead v) (GpaNode <$> us)).
  { intros ->. apply elem_of_cons in Hb as [|Hb]; [done|].
    apply list_elem_of_fmap in Hb as (k & E & Hk). specialize (HS k E). set_solver. }
  assert (n <> after (GpaNode <$> vs) (GpaHead v)).
  { intros ->. apply elem_of_app in Ha as [Ha|Ha]; [|set_solver].
    apply list_elem_of_fmap in Ha as (k & E & Hk). specialize (HS k E). set_solver. }
  rewrite list_add_next, list_add_prev. by rewrite !decide_False by done.
Qed.

Lemma gpa_local_del v i (us vs : list nat) h :
  gpa_local v (i :: us ++ vs) h
    (AMDGV_INIT_LIST_HEAD (GpaNode i)
      (list_del (before (GpaHead v) (GpaNode <$> us)) (after (GpaNode <$> vs) (GpaHead v)) h)).
Proof.
  intros n Hn HS.
  pose proof (before_elem (GpaHead v) (GpaNode <$> us)) as Hb.
  pose proof (after_elem (GpaNode <$> vs) (GpaHead v)) as Ha.
  assert (GpaNode i <> n). { intros <-. specialize (HS i eq_refl). set_solver. }
  assert (n <> before (GpaHead v) (GpaNode <$> us)).
  { intros ->. apply elem_of_cons in Hb as [|Hb]; [done|].
    apply list_elem_of_fmap in Hb as (k & E & Hk). specialize (HS k E). set_solver. }
  assert (n <> after (GpaNode <$> vs) (GpaHead v)).
  { intros ->. apply elem_of_app in Ha as [Ha|Ha]; [|set_solver].
    apply list_elem_of_fmap in Ha as (k & E & Hk). specialize (HS k E). set_solver. }
  cbn [next prev AMDGV_INIT_LIST_HEAD set_prev set_next]. rewrite !lookup_insert_ne by done.
  rewrite list_del_next, list_del_prev. by rewrite !decide_False by done.
Qed.

(** ** Merging two free neighbours *)

Section merge.
Context {B : pool} {h : nlinks} {tot df tmr : Z} {xs ys : list nat} {G : Z -> list nat}.
Context {k i : nat} {pk p : pte_block}.
Hypothesis Hw : wf [] B h tot df tmr (xs ++ k :: i :: ys) G.
Hypothesis Hk : holds B k pk.
Hypothesis Hi : holds B i p.
Hypothesis Hkf : type pk = MEM_TYPE_NOT_ASSIGNED.
Hypothesis Hif : type p = MEM_TYPE_NOT_ASSIGNED.

Let B' := <[i := mk_mb p false]> (<[k := mk_mb (pk <| size := size pk + size p |>) true]> B).
Let h' := list_del (SpaNode k) (after (SpaNode <$> ys) SpaHead) h.

Lemma merge_ne : k <> i /\ (k ∉ xs) /\ (i ∉ xs) /\ (k ∉ ys) /\ (i ∉ ys).
Proof.
  pose proof (wf_nodup _ _ _ _ _ _ _ _ Hw) as Hnd. apply NoDup_app in Hnd as (_ & H1 & H2).
  apply NoDup_cons in H2 as [H2 H3]. apply NoDup_cons in H3 as [H3 _]. set_solver.
Qed.

Lemma merge_holds l r : l <> i -> l <> k -> holds B' l r <-> holds B l r.
Proof. intros. unfold B'. by rewrite !holds_insert_ne. Qed.

Lemma merge_holds_k : holds B' k (pk <| size := size pk + size p |>).
Proof.
  destruct merge_ne as [? _]. unfold B'. rewrite holds_insert_ne by done.
  apply holds_insert_eq; [by eapply holds_lt|done].
Qed.

Lemma merge_tiles : tiles B' 0 (xs ++ k :: ys) tot.
Proof.
  destruct merge_ne as (Hne & ? & ? & ? & ?).
  pose proof (w_tiles Hw) as Ht. apply tiles_app in Ht as (m & Hxs & q & Hq & Ha & Hs & r & Hr & Har & Hsr & Hys).
  pose proof (holds_inj _ _ _ _ Hk Hq) as <-. pose proof (holds_inj _ _ _ _ Hi Hr) as <-.
  apply tiles_app. exists m. split.
  - eapply tiles_frame; [|exact Hxs]. intros l t Hl Hlt. exists t.
    split; [apply merge_holds; [by intros ->..|done]|done].
  - eexists. split; [apply merge_holds_k|]. split; [done|]. split; [cbn; lia|].
    eapply tiles_frame; [|cbn; rewrite Z.add_assoc; exact Hys]. intros l t Hl Hlt. exists t.
    split; [apply merge_holds; [by intros ->..|done]|done].
Qed.

Lemma wf_merge : wf [] B' h' tot df tmr (xs ++ k :: ys) G.
Proof.
  destruct merge_ne as (Hne & ? & ? & ? & ?).
  assert (Hin : forall l, l ∈ xs ++ k :: ys -> l ∈ xs ++ k :: i :: ys /\ l <> i) by set_solver.
  assert (Hback : forall l r, l ∈ xs ++ k :: ys -> holds B' l r -> exists r', holds B l r' /\
            gpa r = gpa r' /\ fragment r = fragment r' /\ type r = type r' /\ (l <> k -> r = r')).
  { intros l r Hl Hr. destruct (decide (l = k)) as [->|Hlk].
    - pose proof (holds_inj _ _ _ _ merge_holds_k Hr) as <-. by exists pk.
    - exists r. split; [|done]. apply merge_holds; [by apply Hin|done|done]. }
  split.
  - unfold B'. rewrite !length_insert. apply (w_len Hw).
  - apply (w_tot Hw).
  - apply (w_df Hw).
  - pose proof (dlist_del h SpaHead (SpaNode <$> xs ++ [k]) (SpaNode <$> ys) (SpaNode i)) as HD.
    rewrite fmap_app in HD. cbn [fmap list_fmap] in HD. rewrite before_snoc, <- !app_assoc in HD.
    cbn [app] in HD. pose proof (w_spa Hw) as Hs. rewrite fmap_app in Hs.
    destruct (HD Hs) as (? & _ & -> & Hd). rewrite fmap_app. exact Hd.
  - intros v Hv. apply dlist_del_frame; [apply (w_gpa Hw v Hv)|nodes; done|].
    pose proof (after_elem (SpaNode <$> ys) SpaHead) as He. intros Hin'.
    apply elem_of_app in He as [He|He].
    + apply list_elem_of_fmap in He as (l & E & _). rewrite E in Hin'.
      apply elem_of_cons in Hin' as [|Hin']; [done|by apply elem_spa_gpa in Hin'].
    + apply list_elem_of_singleton in He. rewrite He in Hin'.
      apply elem_of_cons in Hin' as [|Hin']; [done|by apply list_elem_of_fmap in Hin' as (? & ? & _)].
  - exact merge_tiles.
  - intros v l Hv Hl. destruct (w_G Hw v l Hv Hl) as (r & Hr & Ev & Hc). exists r.
    assert (type r <> MEM_TYPE_NOT_ASSIGNED) by (destruct Hc as [[? _]|[? _]]; congruence).
    assert (l <> i) by (intros ->; pose proof (holds_inj _ _ _ _ Hi Hr); congruence).
    assert (l <> k) by (intros ->; pose proof (holds_inj _ _ _ _ Hk Hr); congruence).
    split; [by apply merge_holds|]. split; [done|]. destruct Hc as [[? ?]|(? & ? & ?)]; [left|right].
    + split; [done|]. set_solver.
    + split; [done|]. split; [|done]. set_solver.
  - intros l r Hl Hr. destruct (Hback l r Hl Hr) as (r' & Hr' & _ & -> & -> & Hsame).
    apply Hin in Hl as [Hl _]. destruct (w_L Hw l r' Hl Hr') as (? & Hm & ?).
    split_and!; [done| |done]. destruct (decide (l = k)) as [->|Hlk]; [|by rewrite Hsame].
    pose proof (holds_inj _ _ _ _ merge_holds_k Hr) as <-. pose proof (holds_inj _ _ _ _ Hk Hr') as <-.
    destruct (w_L Hw i p) as (_ & Hmi & _); [set_solver|done|].
    cbn. by rewrite Zplus_mod, Hm, Hmi.
  - intros l r Hl Hr Ht _. destruct (Hback l r Hl Hr) as (r' & Hr' & Eg & _ & Et & _).
    apply Hin in Hl as [Hl Hli]. rewrite Et in Ht.
    destruct (w_ring Hw l r' Hl Hr' Ht) as [?|(m & q & E & Hm & Hq & Hs1 & Hs2)]; [set_solver|left; congruence|].
    assert (m <> i) by (intros ->; pose proof (holds_inj _ _ _ _ Hi Hq); congruence).
    assert (m <> k) by (intros ->; pose proof (holds_inj _ _ _ _ Hk Hq); congruence).
    right. exists m, q. split_and!; [|set_solver|by apply merge_holds|done].
    unfold h'. rewrite list_del_next, decide_False by done. done.
  - destruct (w_tmr Hw) as (l & r & Hl & Hr & Et & ? & ?). exists l, r.
    assert (l <> i) by (intros ->; pose proof (holds_inj _ _ _ _ Hi Hr); congruence).
    assert (l <> k) by (intros ->; pose proof (holds_inj _ _ _ _ Hk Hr); congruence).
    split_and!; [set_solver|by apply merge_holds|done..].
  - intros v l r Hv Hl Hr.
    assert (i ∈ xs ++ k :: i :: ys) by set_solver. assert (k ∈ xs ++ k :: i :: ys) by set_solver.
    assert (l <> i) by (intros ->; by apply (free_not_in_G Hw i p v)).
    assert (l <> k) by (intros ->; by apply (free_not_in_G Hw k pk v)).
    apply (w_pos Hw v l r Hv Hl). by apply merge_holds.
Qed.
End merge.

(** ** Deciding the invariant on a concrete state *)

#[export] Instance chain_dec (h : nlinks) a xs b : Decision (chain h a xs b).
Proof.
  revert a. induction xs as [|x xs IH]; intros a; cbn.
  - apply _.
  - specialize (IH x). apply _.
Defined.

#[export] Instance dlist_dec (h : nlinks) a xs : Decision (dlist h a xs).
Proof. unfold dlist. apply _. Defined.

Fixpoint tiles_b (B : pool) (a : Z) (L : list nat) (b : Z) : bool :=
  match L with
  | [] => a =? b
  | i :: L' =>
      match B !! i with
      | Some (mk_mb p true) => (spa p =? a) && (0 <? size p) && tiles_b B (a + size p) L' b
      | _ => false
      end
  end.

Definition held_b (B : pool) (i : nat) (P : pte_block -> bool) : bool :=
  match B !! i with Some (mk_mb p true) => P p | _ => false end.

(** The lists of the VFs, indexed by slot. *)
Definition G_of (Gs : list (list nat)) (v : Z) : list nat := default [] (Gs !! Z.to_nat v).

Definition static_b (p : pte_block) : bool := negb (is_type MEM_TYPE_VF p) && negb (is_type MEM_TYPE_NOT_ASSIGNED p).

Definition slots : list Z := Z.of_nat <$> seq 0 (Z.to_nat AMDGV_MAX_VF_SLOT).

Definition wf_b (B : pool) (h : nlinks) (tot df tmr : Z) (L : list nat) (Gs : list (list nat)) : bool :=
  (length B =? AMDGV_FFBM_MEMORY_ALLOCATION_COUNT)%nat && (0 <=? tot) && (tot <? 2 ^ 62) && (0 <=? df) && (df <=? 18)
  && bool_decide (dlist h SpaHead (SpaNode <$> L))
  && forallb (fun v => bool_decide (dlist h (GpaHead v) (GpaNode <$> G_of Gs v))) slots
  && tiles_b B 0 L tot
  && forallb (fun v => forallb (fun i => held_b B i (fun p => (vf_idx p =? v) && (0 <=? gpa p)
       && ((is_type MEM_TYPE_VF p && bool_decide (i ∈ L))
           || (is_type MEM_TYPE_TMR p && bool_decide (i ∉ L) && (spa p =? TMR_START) && (size p =? MBYTES_TO_BYTES tmr)))))
       (G_of Gs v)) slots
  && forallb (fun i => held_b B i (fun p => (fragment p =? df) && (size p mod AMDGV_FFBM_PAGE_SIZE df =? 0)
       && (negb (is_type MEM_TYPE_VF p) || existsb (fun v => bool_decide (i ∈ G_of Gs v)) slots)
       && (negb (is_type MEM_TYPE_NOT_ASSIGNED p) || (gpa p =? AMDGV_FFBM_INVALID_ADDR)
           || match next h !! GpaNode i with
              | Some (GpaNode j) => bool_decide (j ∈ L) && held_b B j static_b
              | _ => false
              end))) L
  && existsb (fun i => held_b B i (fun p => is_type MEM_TYPE_TMR p && (spa p =? TMR_START)
       && (size p =? MBYTES_TO_BYTES tmr))) L.

Lemma held_b_holds B i p P : holds B i p -> held_b B i P = P p.
Proof. unfold holds, held_b. by intros ->. Qed.

Lemma held_b_inv B i P : held_b B i P = true -> exists p, holds B i p /\ P p = true.
Proof. unfold holds, held_b. destruct (B !! i) as [[p []]|]; [|done..]. eauto. Qed.

Lemma tiles_b_sound B L : forall a b, tiles_b B a L b = true -> tiles B a L b.
Proof.
  induction L as [|i L IH]; intros a b; cbn; [apply Z.eqb_eq|].
  destruct (B !! i) as [[p []]|] eqn:E; [|done..].
  intros [[H1 H2]%andb_true_iff H3]%andb_true_iff. zb. exists p. split_and!; [done|done|done|by apply IH].
Qed.

Lemma slots_elem v : v ∈ slots <-> vfid v.
Proof.
  unfold slots, vfid. rewrite list_elem_of_fmap. setoid_rewrite elem_of_seq.
  split; [intros (k & -> & ?); lia|]. intros Hv. exists (Z.to_nat v). lia.
Qed.

Lemma is_type_true t p : is_type t p = true <-> type p = t.
Proof. unfold is_type. by rewrite bool_decide_eq_true. Qed.

Lemma static_b_sound p : static_b p = true -> static p.
Proof.
  unfold static_b. intros [H1 H2]%andb_true_iff. apply negb_true_iff, bool_decide_eq_false in H1, H2. done.
Qed.

Lemma wf_b_sound B h tot df tmr L Gs : wf_b B h tot df tmr L Gs = true -> wf [] B h tot df tmr L (G_of Gs).
Proof.
  unfold wf_b. rewrite !andb_true_iff, !forallb_forall, !existsb_exists.
  intros ((((((((((H1 & H2) & H3) & H4) & H5) & H6) & H7) & H8) & H9) & H10) & (i0 & Hi0 & H11)).
  apply Nat.eqb_eq in H1. zb.
  assert (H10' : forall i p, i ∈ L -> holds B i p -> (fragment p =? df) && (size p mod AMDGV_FFBM_PAGE_SIZE df =? 0)
       && (negb (is_type MEM_TYPE_VF p) || existsb (fun v => bool_decide (i ∈ G_of Gs v)) slots)
       && (negb (is_type MEM_TYPE_NOT_ASSIGNED p) || (gpa p =? AMDGV_FFBM_INVALID_ADDR)
           || match next h !! GpaNode i with
              | Some (GpaNode j) => bool_decide (j ∈ L) && held_b B j static_b
              | _ => false
              end) = true).
  { intros i p Hi Hp. specialize (H10 i (proj1 (list_elem_of_In _ _) Hi)). by rewrite (held_b_holds _ _ _ _ Hp) in H10. }
  split; [done|lia|lia|by apply bool_decide_eq_true in H6| |by apply tiles_b_sound| | | | |].
  - intros v Hv. apply slots_elem, list_elem_of_In in Hv. specialize (H7 v Hv). by apply bool_decide_eq_true in H7.
  - intros v i Hv Hi. apply slots_elem, list_elem_of_In in Hv. specialize (H9 v Hv).
    rewrite forallb_forall in H9. specialize (H9 i (proj1 (list_elem_of_In _ _) Hi)).
    apply held_b_inv in H9 as (p & Hp & HP). exists p. split; [done|].
    apply andb_true_iff in HP as [HP1 HP2]. zb. split; [done|].
    apply orb_true_iff in HP2 as [HP2|HP2].
    + apply andb_true_iff in HP2 as [Ht HL]. apply is_type_true in Ht. apply bool_decide_eq_true in HL. by left.
    + rewrite !andb_true_iff, is_type_true, bool_decide_eq_true, !Z.eqb_eq in HP2. right. naive_solver.
  - intros i p Hi Hp. specialize (H10' i p Hi Hp). rewrite !andb_true_iff in H10'.
    destruct H10' as (((Hf & Hm) & Hvf) & _). zb. split_and!; [done..|]. intros Ht. apply is_type_true in Ht.
    rewrite Ht in Hvf. cbn in Hvf. apply existsb_exists in Hvf as (v & Hv & HG).
    exists v. apply list_elem_of_In, slots_elem in Hv. by apply bool_decide_eq_true in HG.
  - intros i p Hi Hp Ht _. specialize (H10' i p Hi Hp). apply andb_true_iff in H10' as [_ Hr].
    apply is_type_true in Ht. rewrite Ht in Hr. cbn [negb orb] in Hr. apply orb_true_iff in Hr as [Hr|Hr].
    + left. by apply Z.eqb_eq.
    + right. destruct (next h !! GpaNode i) as [[| | |j]|] eqn:En; try done.
      apply andb_true_iff in Hr as [Hj Hh]. apply bool_decide_eq_true in Hj.
      apply held_b_inv in Hh as (q & Hq & Hs). exists j, q. split_and!; [done..|]. by apply static_b_sound.
  - apply held_b_inv in H11 as (p & Hp & HP). rewrite !andb_true_iff, is_type_true, !Z.eqb_eq in HP.
    exists i0, p. apply list_elem_of_In in Hi0. naive_solver.
  - intros v i p Hv Hi Hp. apply slots_elem, list_elem_of_In in Hv. specialize (H9 v Hv).
    rewrite forallb_forall in H9. specialize (H9 i (proj1 (list_elem_of_In _ _) Hi)).
    rewrite (held_b_holds _ _ _ _ Hp), !andb_true_iff in H9. destruct H9 as [[_ H9] _]. lia.
Qed.
