(* ===== verification/FfbmRun.v ===== *)
(** * Running the frame-buffer mapper

    Total-correctness rules for [Ffbm]'s operations on states that satisfy the
    invariant of [FfbmInv]. *)
From S2P Require Import Prelude Api Dlist Ffbm FfbmInv.
Import Dlist Ffbm.
#[local] Open Scope Z_scope.
#[local] Set Warnings "-clear-no-such-hyp".

Section run.
Context {HW : FfbmHw}.

(** The invariant on a whole adapter. *)
Record invX (X : list nat) (s : adapter) (L : list nat) (G : Z -> list nat) : Prop := {
  inv_wf : wf X (memory_block s) (lnk s) (total_physical_size s) (default_fragment s) (tmr_size s) L G;
  inv_vfs : length (array_vf s) = Z.to_nat AMDGV_MAX_VF_SLOT;
  inv_num : 0 <= num_vf s <= AMDGV_MAX_VF_SLOT;
}.
Abbreviation inv := (invX []).

(** [s'] differs from [s] only in the pool, the links and the hardware. *)
Definition framed (s s' : adapter) : Prop :=
  s' = s <| memory_block := memory_block s' |> <| lnk := lnk s' |> <| hw := hw s' |>.

Lemma framed_refl s : framed s s.
Proof. by destruct s. Qed.

Lemma framed_trans s1 s2 s3 : framed s1 s2 -> framed s2 s3 -> framed s1 s3.
Proof. unfold framed. intros H1 H2. rewrite H2, H1. by destruct s1. Qed.

Lemma framed_state s B h w : framed s (s <| memory_block := B |> <| lnk := h |> <| hw := w |>).
Proof. by destruct s. Qed.

(** The invariant of a state reached from [s] under a frame. *)
Lemma framed_inv X Y s s' L G L' G' :
  invX X s L G -> framed s s' ->
  wf Y (memory_block s') (lnk s') (total_physical_size s) (default_fragment s) (tmr_size s) L' G' ->
  invX Y s' L' G'.
Proof. intros [_ H2 H3] ->. by split. Qed.

(** ** Elementary steps *)

Lemma wp_pteb i p u (Q : pte_block -> adapter -> Prop) s :
  memory_block s !! i = Some (mk_mb p u) -> Q p s -> wp (pteb i) Q s.
Proof. intros E HQ. unfold wp, pteb. by rewrite E. Qed.

Lemma wp_holds i p (Q : pte_block -> adapter -> Prop) s :
  holds (memory_block s) i p -> Q p s -> wp (pteb i) Q s.
Proof. apply wp_pteb. Qed.

Lemma wp_upd i f p u (Q : unit -> adapter -> Prop) s :
  memory_block s !! i = Some (mk_mb p u) ->
  Q tt (s <| memory_block := <[i := mk_mb (f p) u]> (memory_block s) |>) -> wp (upd_pteb i f) Q s.
Proof.
  intros E HQ. unfold upd_pteb. apply wp_modify.
  enough (alter (fun b => mk_mb (f (pteb_of b)) (used b)) i (memory_block s)
          = <[i := mk_mb (f p) u]> (memory_block s)) as -> by done.
  apply list_eq. intros k. destruct (decide (k = i)) as [->|Hne].
  - rewrite list_lookup_alter_eq, list_lookup_insert_eq by (by eapply lookup_lt_Some). by rewrite E.
  - by rewrite list_lookup_alter_ne, list_lookup_insert_ne.
Qed.

Lemma wp_free i p u (Q : unit -> adapter -> Prop) s :
  memory_block s !! i = Some (mk_mb p u) ->
  Q tt (s <| memory_block := <[i := mk_mb p false]> (memory_block s) |>) ->
  wp (amdgv_ffbm_free_block i) Q s.
Proof.
  intros E HQ. unfold amdgv_ffbm_free_block. apply wp_modify.
  enough (alter (fun b => mk_mb (pteb_of b) false) i (memory_block s)
          = <[i := mk_mb p false]> (memory_block s)) as -> by done.
  apply list_eq. intros k. destruct (decide (k = i)) as [->|Hne].
  - rewrite list_lookup_alter_eq, list_lookup_insert_eq by (by eapply lookup_lt_Some). by rewrite E.
  - by rewrite list_lookup_alter_ne, list_lookup_insert_ne.
Qed.

Lemma wp_link f h (Q : unit -> adapter -> Prop) s :
  f (lnk s) = Some h -> Q tt (s <| lnk := h |>) -> wp (link f) Q s.
Proof. intros E HQ. unfold wp, link. by rewrite E. Qed.

Lemma wp_next n m (Q : node -> adapter -> Prop) s :
  next (lnk s) !! n = Some m -> Q m s -> wp (next_of n) Q s.
Proof. intros E HQ. unfold wp, next_of. by rewrite E. Qed.

Lemma wp_prev n m (Q : node -> adapter -> Prop) s :
  prev (lnk s) !! n = Some m -> Q m s -> wp (prev_of n) Q s.
Proof. intros E HQ. unfold wp, prev_of. by rewrite E. Qed.

Lemma wp_vf_entry v (Q : vf_device -> adapter -> Prop) s :
  vfid v -> length (array_vf s) = Z.to_nat AMDGV_MAX_VF_SLOT -> (forall e, Q e s) -> wp (vf_entry v) Q s.
Proof.
  intros [Hv1 Hv2] Hlen HQ. unfold wp, vf_entry. destruct (Z.ltb_spec v 0); [lia|].
  destruct (lookup_lt_is_Some_2 (array_vf s) (Z.to_nat v)) as [e ->]; [|apply HQ].
  rewrite Hlen. lia.
Qed.

Lemma wp_gpa_list v (Q : node -> adapter -> Prop) s :
  vfid v -> length (array_vf s) = Z.to_nat AMDGV_MAX_VF_SLOT -> Q (GpaHead v) s -> wp (gpa_list v) Q s.
Proof. intros Hv Hlen HQ. unfold gpa_list. apply wp_bind, wp_vf_entry; [done|done|]. done. Qed.

(** ** Page arithmetic *)

Lemma page_size_pow f : AMDGV_FFBM_PAGE_SIZE f = 2 ^ (f + 12) \/ f + 12 < 0.
Proof.
  destruct (Z.ltb_spec (f + 12) 0); [by right|left]. unfold AMDGV_FFBM_PAGE_SIZE.
  rewrite Z.shiftl_mul_pow2 by lia. lia.
Qed.

Lemma page_size_bounds f : 0 <= f <= 18 -> 4096 <= AMDGV_FFBM_PAGE_SIZE f <= 2 ^ 30.
Proof.
  intros Hf. destruct (page_size_pow f) as [->|]; [|lia]. split.
  - change 4096 with (2 ^ 12). apply Z.pow_le_mono_r; lia.
  - apply Z.pow_le_mono_r; lia.
Qed.

Lemma map_size_valid_mod sz f : 0 <= f -> AMDGV_FFBM_MAP_SIZE_VALID sz f = sz mod AMDGV_FFBM_PAGE_SIZE f.
Proof.
  intros. unfold AMDGV_FFBM_MAP_SIZE_VALID, AMDGV_FFBM_PAGE_SIZE.
  rewrite Z.shiftl_mul_pow2, Z.mul_1_l by lia.
  replace (2 ^ (f + 12) - 1) with (Z.ones (f + 12)) by (rewrite Z.ones_equiv; lia).
  by apply Z.land_ones; lia.
Qed.

Lemma page_align_floor x f : 0 <= f -> AMDGV_FFBM_PAGE_ALIGN x f = x - x mod AMDGV_FFBM_PAGE_SIZE f.
Proof.
  intros. unfold AMDGV_FFBM_PAGE_ALIGN. rewrite <- Z.ldiff_land.
  assert (AMDGV_FFBM_PAGE_SIZE f - 1 = Z.ones (f + 12)) as ->.
  { unfold AMDGV_FFBM_PAGE_SIZE. rewrite Z.ones_equiv, Z.shiftl_mul_pow2 by lia. lia. }
  rewrite Z.ldiff_ones_r, Z.shiftl_mul_pow2, Z.shiftr_div_pow2 by lia.
  destruct (page_size_pow f) as [->|]; [|lia].
  pose proof (Z.div_mod x (2 ^ (f + 12))). nia.
Qed.

Lemma page_align_ceil_id sz f :
  0 <= f <= 18 -> 0 <= sz < 2 ^ 63 -> sz mod AMDGV_FFBM_PAGE_SIZE f = 0 ->
  AMDGV_FFBM_PAGE_ALIGN_CEIL sz f = sz.
Proof.
  intros Hf Hsz Hm. pose proof (page_size_bounds f Hf). unfold AMDGV_FFBM_PAGE_ALIGN_CEIL.
  rewrite wrap_id by (unfold in_width; lia). rewrite page_align_floor by lia.
  set (P := AMDGV_FFBM_PAGE_SIZE f) in *.
  replace (sz + P - 1) with ((P - 1) + (sz / P) * P) by (pose proof (Z.div_mod sz P); lia).
  rewrite Z.mod_add, Z.mod_small by lia. pose proof (Z.div_mod sz P). lia.
Qed.

(** ** Walking a list *)

(** The nodes of a list are all of one kind. *)
Definition kind_of (head : node) (i : nat) : node :=
  match head with GpaHead _ => GpaNode i | _ => SpaNode i end.

Lemma kind_of_head head i : kind_of head i <> head \/ (exists k, head = SpaNode k \/ head = GpaNode k).
Proof. destruct head; cbn; eauto. Qed.

Lemma entry_kind_of head i s (Q : nat -> adapter -> Prop) : Q i s -> wp (entry_of (kind_of head i)) Q s.
Proof. by destruct head. Qed.

Definition is_head (n : node) : Prop := match n with SpaHead | GpaHead _ => True | _ => False end.

Lemma kind_ne head i : is_head head -> kind_of head i <> head.
Proof. by destruct head. Qed.

(** A search loop stops at the first block satisfying the test. *)
Lemma wp_scan head l P (Q : node -> adapter -> Prop) s fuel a :
  is_head head -> chain (lnk s) a (kind_of head <$> l) head ->
  (forall i, i ∈ l -> exists p, holds (memory_block s) i p) ->
  (length l <= fuel)%nat ->
  ((forall i p, i ∈ l -> holds (memory_block s) i p -> P p = false) -> Q head s) ->
  (forall us i vs p, l = us ++ i :: vs -> holds (memory_block s) i p -> P p = true ->
     (forall u p, u ∈ us -> holds (memory_block s) u p -> P p = false) -> Q (kind_of head i) s) ->
  wp (next_of a ≫= fun n => scan fuel head n P) Q s.
Proof.
  intros Hh. revert a fuel Q. induction l as [|i l IH]; intros a fuel Q Hc Hl Hf H0 H1.
  - destruct Hc as [Hn _]. apply wp_bind. eapply wp_next; [done|].
    destruct fuel; cbn; rewrite decide_True by done; apply wp_ret, H0; set_solver.
  - destruct Hc as (Hn & _ & Hc). apply wp_bind. eapply wp_next; [done|].
    cbn in Hf. destruct fuel as [|fuel]; [lia|]. cbn [scan]. rewrite decide_False by (by apply kind_ne).
    apply wp_bind, entry_kind_of. destruct (Hl i) as [p Hp]; [set_solver|].
    apply wp_bind. eapply wp_holds; [done|]. destruct (P p) eqn:EP.
    + apply wp_ret. eapply (H1 [] i l p); [done..|set_solver].
    + apply IH; [done|set_solver|lia|..].
      * intros H. apply H0. intros k q Hk Hq. apply elem_of_cons in Hk as [->|Hk]; [|by eapply H].
        by pose proof (holds_inj _ _ _ _ Hp Hq) as <-.
      * intros us k vs q -> Hq HPq Hus. eapply (H1 (i :: us)); [done..|].
        intros u r Hu Hr. apply elem_of_cons in Hu as [->|Hu]; [|by eapply Hus].
        by pose proof (holds_inj _ _ _ _ Hp Hr) as <-.
Qed.

Lemma wp_find_entry head l P (Q : option nat -> adapter -> Prop) s :
  is_head head -> chain (lnk s) head (kind_of head <$> l) head ->
  (forall i, i ∈ l -> exists p, holds (memory_block s) i p) ->
  (length l <= FFBM_FUEL)%nat ->
  ((forall i p, i ∈ l -> holds (memory_block s) i p -> P p = false) -> Q None s) ->
  (forall us i vs p, l = us ++ i :: vs -> holds (memory_block s) i p -> P p = true ->
     (forall u p, u ∈ us -> holds (memory_block s) u p -> P p = false) -> Q (Some i) s) ->
  wp (find_entry head P) Q s.
Proof.
  intros Hh Hc Hl Hf H0 H1. unfold find_entry.
  enough (wp (next_of head ≫= fun n => scan FFBM_FUEL head n P)
    (fun pos => wp (if decide (pos = head) then mret None else i ← entry_of pos; mret (Some i)) Q) s) as HE.
  { apply wp_bind. unfold wp in HE |- *. unfold mbind, M_bind in HE.
    destruct (next_of head s) as [[n s1]|]; [|done]. unfold mbind, M_bind.
    destruct (scan FFBM_FUEL head n P s1) as [[pos s2]|]; done. }
  eapply wp_scan; [done..| |].
  - intros H. rewrite decide_True by done. by apply wp_ret, H0.
  - intros us i vs p -> Hp HP Hus. rewrite decide_False by (by apply kind_ne).
    apply wp_bind, entry_kind_of, wp_ret. by eapply H1.
Qed.

Lemma inv_blocks X s L G i : invX X s L G -> i ∈ L -> exists p, holds (memory_block s) i p.
Proof. intros H Hi. destruct (wf_in_L (inv_wf _ _ _ _ H) i Hi) as (p & ? & _). eauto. Qed.

Lemma inv_G_blocks X s L G v i : invX X s L G -> vfid v -> i ∈ G v -> exists p, holds (memory_block s) i p.
Proof. intros H Hv Hi. destruct (w_G (inv_wf _ _ _ _ H) v i Hv Hi) as (p & ? & _). eauto. Qed.

(** Searches in the two kinds of lists of a well-formed state. *)
Lemma wp_find_spa X s L G P (Q : option nat -> adapter -> Prop) :
  invX X s L G ->
  ((forall i p, i ∈ L -> holds (memory_block s) i p -> P p = false) -> Q None s) ->
  (forall us i vs p, L = us ++ i :: vs -> holds (memory_block s) i p -> P p = true ->
     (forall u p, u ∈ us -> holds (memory_block s) u p -> P p = false) -> Q (Some i) s) ->
  wp (find_entry SpaHead P) Q s.
Proof.
  intros Hi. apply wp_find_entry; [done| | |].
  - apply (w_spa (inv_wf _ _ _ _ Hi)).
  - intros i. by eapply inv_blocks.
  - pose proof (wf_len _ _ _ _ _ _ _ _ (inv_wf _ _ _ _ Hi)). unfold FFBM_FUEL. lia.
Qed.

Lemma wp_find_gpa X s L G v P (Q : option nat -> adapter -> Prop) :
  invX X s L G -> vfid v ->
  ((forall i p, i ∈ G v -> holds (memory_block s) i p -> P p = false) -> Q None s) ->
  (forall us i vs p, G v = us ++ i :: vs -> holds (memory_block s) i p -> P p = true ->
     (forall u p, u ∈ us -> holds (memory_block s) u p -> P p = false) -> Q (Some i) s) ->
  wp (find_entry (GpaHead v) P) Q s.
Proof.
  intros Hi Hv. apply wp_find_entry; [done| | |].
  - apply (w_gpa (inv_wf _ _ _ _ Hi) v Hv).
  - intros i. by eapply inv_G_blocks.
  - pose proof (wf_len_G _ _ _ _ _ _ _ _ _ (inv_wf _ _ _ _ Hi) Hv). unfold FFBM_FUEL. lia.
Qed.

(** ** Allocation and splitting *)

Lemma first_unused_spec n l :
  match first_unused n l with
  | Some i => exists k b, i = (n + k)%nat /\ l !! k = Some b /\ used b = false
  | None => forall k b, l !! k = Some b -> used b = true
  end.
Proof.
  revert n. induction l as [|b l IH]; intros n; cbn; [done|].
  destruct (used b) eqn:E.
  - specialize (IH (S n)). destruct (first_unused (S n) l) as [i|].
    + destruct IH as (k & c & -> & ? & ?). exists (S k), c. split_and!; [lia|done|done].
    + intros [|k] c; cbn; [by intros [= <-]|apply IH].
  - exists 0%nat, b. split_and!; [lia|done|done].
Qed.

Definition pool_full (s : adapter) : Prop := forall k b, memory_block s !! k = Some b -> used b = true.

Lemma wp_alloc (Q : option nat -> adapter -> Prop) s :
  (pool_full s -> Q None s) ->
  (forall j b, memory_block s !! j = Some b -> used b = false ->
     Q (Some j) (s <| memory_block := <[j := mk_mb zero_pteb true]> (memory_block s) |>
                   <| lnk := clear_nodes j (lnk s) |>)) ->
  wp amdgv_ffbm_allocate_block Q s.
Proof.
  intros H0 H1. unfold wp, amdgv_ffbm_allocate_block. pose proof (first_unused_spec 0 (memory_block s)) as H.
  destruct (first_unused 0 (memory_block s)) as [i|]; [|by apply H0].
  destruct H as (k & b & -> & ? & ?). cbn [Nat.add]. by eapply H1.
Qed.

(** The block a successful allocation and initialisation leave. *)
Lemma wp_pteb_init j b g a sz fr vf pm t ap (Q : unit -> adapter -> Prop) s0 :
  memory_block s0 !! j = Some b ->
  let s := s0 <| memory_block := <[j := mk_mb zero_pteb true]> (memory_block s0) |>
              <| lnk := clear_nodes j (lnk s0) |> in
  Q tt (s0 <| memory_block := <[j := mk_mb (mk_pteb g a sz fr pm vf t ap) true]> (memory_block s0) |>
           <| lnk := AMDGV_INIT_LIST_HEAD (SpaNode j) (AMDGV_INIT_LIST_HEAD (GpaNode j) (clear_nodes j (lnk s0))) |>) ->
  wp (amdgv_ffbm_pteb_init j g a sz fr vf pm t ap) Q s.
Proof.
  intros Hb s HQ. unfold amdgv_ffbm_pteb_init. apply wp_bind. unfold amdgv_ffbm_pteb_update.
  eapply (wp_upd j _ zero_pteb true).
  { cbn. apply list_lookup_insert_eq. by eapply lookup_lt_Some. }
  eapply wp_link; [reflexivity|].
  enough (forall B : list memory_block_t, <[j:=mk_mb (mk_pteb g a sz fr pm vf t ap) true]> (<[j:=mk_mb zero_pteb true]> B)
    = <[j:=mk_mb (mk_pteb g a sz fr pm vf t ap) true]> B) as HB.
  { cbn in *. by rewrite HB. }
  intros B. apply list_insert_insert_eq.
Qed.

(** Splitting the free block [i] at [sz]: the pool is full and nothing
    happens, or [i] keeps the first [sz] bytes and [j] gets the rest. *)
Lemma wp_divide_free s xs i ys G p sz (Q : option nat -> adapter -> Prop) :
  inv s (xs ++ i :: ys) G -> holds (memory_block s) i p -> type p = MEM_TYPE_NOT_ASSIGNED ->
  0 < sz < size p -> sz mod AMDGV_FFBM_PAGE_SIZE (default_fragment s) = 0 ->
  (pool_full s -> Q None s) ->
  (forall j s', ~ pool_full s -> framed s s' -> invX [i] s' (xs ++ i :: j :: ys) G ->
     holds (memory_block s') i (p <| size := sz |>) ->
     (forall k q, k <> i -> holds (memory_block s) k q -> holds (memory_block s') k q) ->
     fresh (xs ++ i :: ys) G j ->
     Q (Some j) s') ->
  wp (amdgv_ffbm_pteb_divide_size i sz) Q s.
Proof.
  intros Hinv Hp Ht Hsz Hm H0 H1. pose proof (inv_wf _ _ _ _ Hinv) as Hw.
  assert (HiL : i ∈ xs ++ i :: ys) by set_solver.
  destruct (wf_in_L Hw i HiL) as (p' & Hp' & ? & ? & ?). pose proof (holds_inj _ _ _ _ Hp Hp') as <-.
  pose proof (w_tot Hw). destruct (w_L Hw i p HiL Hp) as (Ef & _ & _).
  pose proof (w_df Hw) as Hdf.
  unfold amdgv_ffbm_pteb_divide_size. apply wp_bind. eapply wp_holds; [done|].
  rewrite map_size_valid_mod, Ef, Hm by lia. cbn [Z.eqb negb].
  rewrite page_align_ceil_id by (rewrite ?Ef; done || lia).
  destruct (Z.leb_spec (size p) sz); [lia|]. apply wp_bind, wp_alloc; [intros HF; by apply wp_ret, H0|].
  intros j b Hb Hu. pose proof (unused_fresh Hw j b Hb Hu) as Hfr.
  assert (i <> j). { intros ->. by destruct Hfr as [HF _]. }
  apply wp_bind. eapply wp_holds.
  { apply (holds_insert_ne _ i j p); [done|exact Hp]. }
  cbv zeta. apply wp_bind. eapply wp_pteb_init; [done|].
  set (ng := if negb (gpa p =? AMDGV_FFBM_INVALID_ADDR) then u64 (gpa p + sz) else AMDGV_FFBM_INVALID_ADDR).
  rewrite !wrap_id by (unfold in_width; lia).
  set (q := mk_pteb ng (spa p + sz) (size p - sz) (fragment p) (permission p) (vf_idx p) (type p) (applied p)).
  set (B1 := <[j:=mk_mb q true]> (memory_block s)).
  set (l1 := AMDGV_INIT_LIST_HEAD (SpaNode j) (AMDGV_INIT_LIST_HEAD (GpaNode j) (clear_nodes j (lnk s)))).
  assert (Hw1 : wf [] B1 l1 (total_physical_size s) (default_fragment s) (tmr_size s) (xs ++ i :: ys) G).
  { by eapply wf_alloc. }
  assert (Hp1 : holds B1 i p) by (by apply holds_insert_ne).
  assert (Hq1 : holds B1 j q) by (apply holds_insert_eq; [by eapply lookup_lt_Some|done]).
  apply wp_bind. eapply (wp_upd i _ p true); [exact Hp1|]. cbn [memory_block upd].
  apply wp_bind.
  pose proof (dlist_after l1 SpaHead (SpaNode <$> xs ++ [i]) (SpaNode <$> ys)) as Haf.
  rewrite fmap_app in Haf. cbn [fmap list_fmap] in Haf. rewrite before_snoc, <- app_assoc in Haf.
  assert (Hnx : next l1 !! SpaNode i = Some (after (SpaNode <$> ys) SpaHead)).
  { apply Haf. pose proof (w_spa Hw1) as Hs. by rewrite fmap_app in Hs. }
  eapply wp_link; [cbn [lnk upd]; unfold amdgv_list_add; rewrite Hnx; reflexivity|].
  set (l2 := list_add (SpaNode j) (SpaNode i) (after (SpaNode <$> ys) SpaHead) l1).
  set (B2 := <[i:=mk_mb (p <| size := sz |>) true]> B1).
  assert (Hj2 : holds B2 j q) by (by apply holds_insert_ne).
  assert (Hq : spa q = spa p + sz /\ size q = size p - sz /\ fragment q = fragment p /\
    type q = MEM_TYPE_NOT_ASSIGNED /\ (gpa p = AMDGV_FFBM_INVALID_ADDR -> gpa q = AMDGV_FFBM_INVALID_ADDR)).
  { split_and!; [done..|]. intros E. cbn. unfold ng. by rewrite E. }
  assert (Hend : forall l3,
    (forall n, (forall k, n = GpaNode k -> exists v, vfid v /\ k ∈ G v) ->
       next l3 !! n = next l2 !! n /\ prev l3 !! n = prev l2 !! n) ->
    (forall k, k <> i -> k <> j -> next l3 !! GpaNode k = next l2 !! GpaNode k) ->
    ring_ok B2 l3 (xs ++ i :: j :: ys) j q ->
    Q (Some j) (s <| memory_block := B2 |> <| lnk := l3 |>)).
  { intros l3 Ha Hb3 Hr. apply H1.
    - intros HF. specialize (HF _ _ Hb). congruence.
    - by destruct s.
    - destruct Hinv as [_ ? ?]. split; [|done..]. cbn.
      eapply (wf_split Hw1 Hp1 Ht Hq1 Hfr Hsz Hm Hq l3); done.
    - cbn. apply holds_insert_eq; [|done]. unfold B1. rewrite length_insert. by eapply holds_lt.
    - intros k r Hki Hr'. cbn. unfold B2, B1. rewrite holds_insert_ne by done.
      assert (k <> j). { intros ->. unfold holds in Hr'. rewrite Hb in Hr'. injection Hr' as ->. done. }
      by rewrite holds_insert_ne.
    - done. }
  apply wp_bind, wp_when; intros Eg.
  - apply negb_true_iff, Z.eqb_neq in Eg.
    destruct (w_ring Hw1 i p HiL Hp1 Ht) as [?|(k & r & En & Hk & Hr & Hs)]; [set_solver|done|].
    assert (Hk2 : next l2 !! GpaNode i = Some (GpaNode k)).
    { unfold l2. rewrite list_add_next, !decide_False by done. done. }
    eapply wp_link; [cbn [lnk upd]; unfold amdgv_list_add; rewrite Hk2; reflexivity|].
    apply wp_ret.
    assert (k <> i). { intros ->. pose proof (holds_inj _ _ _ _ Hp1 Hr) as <-. by destruct Hs. }
    assert (k <> j). { intros ->. destruct Hfr as [HF _]. by apply HF. }
    assert (HkG : forall v, vfid v -> k ∉ G v).
    { intros v Hv HG. destruct (w_G Hw1 v k Hv HG) as (r' & Hr' & _ & [[? _]|(_ & HF & _)]); [|done].
      pose proof (holds_inj _ _ _ _ Hr Hr') as <-. by destruct Hs. }
    apply Hend.
    + intros n Hn. rewrite list_add_next, list_add_prev.
      assert (n <> GpaNode i). { intros ->. destruct (Hn i eq_refl) as (v & Hv & HG). by apply (free_not_in_G Hw1 i p v). }
      assert (n <> GpaNode j). { intros ->. destruct (Hn j eq_refl) as (v & Hv & HG). destruct Hfr as [_ HF]. by apply (HF v). }
      assert (n <> GpaNode k). { intros ->. destruct (Hn k eq_refl) as (v & Hv & HG). by apply (HkG v). }
      by rewrite !decide_False by done.
    + intros m Hmi Hmj. rewrite list_add_next. by rewrite !decide_False by congruence.
    + right. exists k, r. split_and!; [| |by apply holds_insert_ne|done].
      * rewrite list_add_next, decide_False by congruence. by rewrite decide_True by done.
      * set_solver.
  - apply negb_false_iff, Z.eqb_eq in Eg. apply wp_ret.
    assert (s <| memory_block := B2 |> <| lnk := l2 |> = s <| memory_block := B2 |> <| lnk := l2 |>) by done.
    apply (Hend l2); [done|done|]. left. cbn. unfold ng. by rewrite Eg.
Qed.


(** ** Entering a VF's list *)

Lemma set_G_eq (G : Z -> list nat) v l : set_G G v l v = l.
Proof. unfold set_G. by rewrite decide_True. Qed.
Lemma set_G_ne (G : Z -> list nat) v l w : w <> v -> set_G G v l w = G w.
Proof. intros. unfold set_G. by rewrite decide_False. Qed.

(** What a block must hold to be linked in the list of VF [v]. *)
Definition listed (v df tmr : Z) (L : list nat) (i : nat) (p p' : pte_block) : Prop :=
  vf_idx p' = v /\ 0 <= gpa p' /\
  ((type p' = MEM_TYPE_VF /\ i ∈ L /\ ~ static p /\ fragment p' = df /\ spa p' = spa p /\ size p' = size p) \/
   (type p' = MEM_TYPE_TMR /\ (i ∉ L) /\ spa p' = TMR_START /\ size p' = MBYTES_TO_BYTES tmr)).

(** The search loop of the insertions leaves a position of the list. *)
Lemma wp_scan_position X s L G v P (B : list memory_block_t) (Q : node -> adapter -> Prop) :
  let s1 := s <| memory_block := B |> in
  invX X s L G -> vfid v -> (forall k, k ∈ G v -> exists p, holds B k p) ->
  (forall us vs, G v = us ++ vs -> Q (before (GpaHead v) (GpaNode <$> us)) s1) ->
  wp (next_of (GpaHead v) ≫= fun n => scan FFBM_FUEL (GpaHead v) n P) Q s1.
Proof.
  intros s1 Hinv Hv HB HQ. pose proof (inv_wf _ _ _ _ Hinv) as Hw.
  apply (wp_scan (GpaHead v) (G v)); [done|apply (w_gpa Hw v Hv)|exact HB| | |].
  - pose proof (wf_len_G _ _ _ _ _ _ _ _ _ Hw Hv). unfold FFBM_FUEL. lia.
  - intros _. apply (HQ [] (G v)). done.
  - intros us i vs p E _ _ _. specialize (HQ (us ++ [i]) vs). rewrite fmap_app in HQ.
    cbn [fmap list_fmap] in HQ. rewrite before_snoc in HQ. apply HQ. by rewrite E, <- app_assoc.
Qed.

Lemma wp_insert_new X s L G v i p p' (Q : unit -> adapter -> Prop) :
  let s1 := s <| memory_block := <[i := mk_mb p' true]> (memory_block s) |> in
  invX X s L G -> vfid v -> (forall k, k ∈ X -> k = i /\ i ∈ L) ->
  holds (memory_block s) i p -> (forall w, vfid w -> i ∉ G w) ->
  listed v (default_fragment s) (tmr_size s) L i p p' ->
  (forall h' us vs, G v = us ++ vs -> inv (s1 <| lnk := h' |>) L (set_G G v (us ++ i :: vs)) ->
     Q tt (s1 <| lnk := h' |>)) ->
  wp (amdgv_ffbm_insert_new_ffbm_node i) Q s1.
Proof.
  intros s1 Hinv Hv HX Hp HiG (Ev & Hpos & Hc) HQ. pose proof (inv_wf _ _ _ _ Hinv) as Hw.
  assert (Hp1 : holds (memory_block s1) i p') by (apply holds_insert_eq; [by eapply holds_lt|done]).
  unfold amdgv_ffbm_insert_new_ffbm_node. apply wp_bind. eapply wp_holds; [exact Hp1|].
  rewrite Ev. apply wp_bind, wp_gpa_list; [done|by destruct Hinv|].
  enough (HS : forall P, wp (next_of (GpaHead v) ≫= fun n => scan FFBM_FUEL (GpaHead v) n P)
    (fun tmp => wp (link (amdgv_list_add (GpaNode i) tmp)) Q) s1).
  { specialize (HS (fun t => gpa p' <? gpa t)). apply wp_bind. unfold wp in HS |- *.
    unfold mbind, M_bind in HS. destruct (next_of (GpaHead v) s1) as [[n s2]|]; [|done].
    unfold mbind, M_bind. by destruct (scan FFBM_FUEL (GpaHead v) n _ s2) as [[pos s3]|]. }
  intros P. apply (wp_scan_position X s L G v); [done|done| |].
  { intros k Hk. destruct (inv_G_blocks _ _ _ _ _ _ Hinv Hv Hk) as [q Hq]. exists q.
    apply holds_insert_ne; [|done]. intros ->. by apply (HiG v). }
  intros us vs E.
  assert (HiGv : GpaNode i ∉ GpaHead v :: (GpaNode <$> us) ++ (GpaNode <$> vs)).
  { apply not_elem_of_cons. split; [done|]. rewrite <- fmap_app, <- E, elem_gpa. by apply HiG. }
  pose proof (w_gpa Hw v Hv) as Hd. rewrite E, fmap_app in Hd.
  destruct (dlist_add _ _ _ _ _ Hd HiGv) as (h' & Eadd & -> & Hd').
  eapply wp_link; [exact Eadd|]. apply (HQ _ us vs E).
  destruct Hinv as [_ Hlen Hnum]. split; [|done..]. cbn.
  apply (wf_relink Hw Hv (i := i) (h' := list_add (GpaNode i) (before (GpaHead v) (GpaNode <$> us))
           (after (GpaNode <$> vs) (GpaHead v)) (lnk s)) (l := us ++ i :: vs) (p := p) (p' := p') (u := true)).
  - intros w Hvw HG. by apply (HiG w) in HG.
  - by rewrite length_insert.
  - intros k Hk. by apply list_lookup_insert_ne.
  - intros k Hk. rewrite E. set_solver.
  - rewrite E. apply gpa_local_add.
  - rewrite fmap_app. exact Hd'.
  - done.
  - exact Hp1.
  - intros Hi. destruct Hc as [(Et & _ & Hs & Ef & Es & Ez)|(_ & HF & _)]; [|done].
    split_and!; [done..| |congruence]. split; [set_solver|done].
  - intros _. split_and!; [done..|]. destruct Hc as [(Et & Hi & _)|Hc]; [by left|by right].
  - intros k Hk. by apply HX.
  - done.
Qed.

(** ** Mapping *)

(** The blocks [l] cover the guest addresses from [a] to [e], in this order. *)
Fixpoint gtiles (B : list memory_block_t) (a : Z) (l : list nat) (e : Z) : Prop :=
  match l with
  | [] => a = e
  | i :: l' => exists p, holds B i p /\ gpa p = a /\ 0 < size p /\ gtiles B (a + size p) l' e
  end.

Lemma gtiles_frame B B' a l e :
  (forall i p, i ∈ l -> holds B i p -> holds B' i p) -> gtiles B a l e -> gtiles B' a l e.
Proof.
  revert a. induction l as [|i l IH]; intros a Hf; cbn; [done|].
  intros (p & Hp & ? & ? & Ht). exists p. split_and!; [apply Hf; [set_solver|done]|done|done|].
  apply IH; [set_solver|done].
Qed.

(** How many blocks of [L] satisfy [P]. *)
Definition sat (P : pte_block -> bool) (B : list memory_block_t) (i : nat) : bool :=
  match B !! i with Some b => P (pteb_of b) | None => false end.
Definition nsat (P : pte_block -> bool) (B : list memory_block_t) (L : list nat) : nat :=
  length (List.filter (sat P B) L).

Lemma nsat_le P B L : (nsat P B L <= length L)%nat.
Proof. unfold nsat. induction L as [|i L IH]; cbn; [done|]. destruct (sat P B i); cbn; lia. Qed.

Lemma nsat_take P B L i b :
  i ∈ L -> sat P B i = true -> P (pteb_of b) = false -> (nsat P (<[i := b]> B) L < nsat P B L)%nat.
Proof.
  intros Hi Hf Hb. unfold nsat.
  assert (Hlt : (i < length B)%nat).
  { unfold sat in Hf. destruct (B !! i) eqn:E; [by eapply lookup_lt_Some|done]. }
  assert (Hstep : forall k, sat P (<[i := b]> B) k = if decide (k = i) then false else sat P B k).
  { intros k. unfold sat. destruct (decide (k = i)) as [->|].
    - by rewrite list_lookup_insert_eq.
    - by rewrite list_lookup_insert_ne. }
  assert (Hle : forall l, (length (List.filter (sat P (<[i := b]> B)) l) <= length (List.filter (sat P B) l))%nat).
  { induction l as [|k l IH]; cbn; [done|]. rewrite Hstep. destruct (decide (k = i)), (sat P B k); cbn; lia. }
  induction L as [|k L IH]; [set_solver|]. cbn. rewrite Hstep.
  apply elem_of_cons in Hi as [<-|Hi].
  - rewrite decide_True, Hf by done. cbn. specialize (Hle L). lia.
  - specialize (IH Hi). destruct (decide (k = i)), (sat P B k); cbn; lia.
Qed.
Abbreviation nfree := (nsat (is_type MEM_TYPE_NOT_ASSIGNED)).

Lemma wp_find_empty s L G (Q : option nat -> adapter -> Prop) :
  inv s L G ->
  ((forall i p, i ∈ L -> holds (memory_block s) i p -> type p <> MEM_TYPE_NOT_ASSIGNED) -> Q None s) ->
  (forall us i vs p, L = us ++ i :: vs -> holds (memory_block s) i p -> type p = MEM_TYPE_NOT_ASSIGNED -> Q (Some i) s) ->
  wp (amdgv_ffbm_find_empty_pteb 0) Q s.
Proof.
  intros Hinv H0 H1. unfold amdgv_ffbm_find_empty_pteb. eapply wp_find_spa; [exact Hinv| |].
  - intros H. apply H0. intros i p Hi Hp Ht. specialize (H i p Hi Hp).
    destruct (wf_in_L (inv_wf _ _ _ _ Hinv) i Hi) as (q & Hq & ? & ? & ?).
    pose proof (holds_inj _ _ _ _ Hp Hq) as <-.
    apply andb_false_iff in H as [H|H]; [|apply Z.leb_gt in H; lia].
    apply is_type_true in Ht. congruence.
  - intros us i vs p E Hp HP _. apply andb_true_iff in HP as [HP _]. apply is_type_true in HP. by eapply H1.
Qed.

(** Block [k] holds memory that the free block [k0] of the list [L] held. *)
Definition carved (s : adapter) (L : list nat) (s' : adapter) (k : nat) : Prop :=
  exists q k0 q0, holds (memory_block s') k q /\ k0 ∈ L /\ holds (memory_block s) k0 q0 /\
    type q0 = MEM_TYPE_NOT_ASSIGNED /\ spa q0 <= spa q /\ spa q + size q <= spa q0 + size q0.

(** The blocks of [L] that are not free are blocks of [L'], unchanged. *)
Definition keeps_used (s : adapter) (L : list nat) (s' : adapter) (L' : list nat) : Prop :=
  forall k q, k ∈ L -> holds (memory_block s) k q -> type q <> MEM_TYPE_NOT_ASSIGNED ->
    k ∈ L' /\ holds (memory_block s') k q.

(** The outcome of mapping [left] bytes for VF [v] at [gs]. *)
Definition map_post (s : adapter) (L : list nat) (G : Z -> list nat) (v gs left perm : Z) (r : Z) (s' : adapter) : Prop :=
  exists L' G' new e, inv s' L' G' /\ framed s s' /\ (forall w, w <> v -> G' w = G w) /\
    G' v ≡ₚ new ++ G v /\ gtiles (memory_block s') gs new e /\
    (forall i, i ∈ new -> exists p, holds (memory_block s') i p /\ type p = MEM_TYPE_VF /\
        vf_idx p = v /\ permission p = perm /\ applied p = false) /\
    (forall w i p, vfid w -> i ∈ G w -> holds (memory_block s) i p -> holds (memory_block s') i p) /\
    (r = AMDGV_FFBM_ERROR_NO_MEM \/ r = 0 /\ gs + left <= e) /\
    (left mod AMDGV_FFBM_PAGE_SIZE (default_fragment s) = 0 -> ~ pool_full s \/ left = 0 -> 0 <= left ->
       r = 0 -> e = gs + left) /\
    keeps_used s L s' L' /\ (forall i, i ∈ new -> 0 < left /\ carved s L s' i).

Lemma map_post_nil s L G v gs left perm r :
  inv s L G -> (r = AMDGV_FFBM_ERROR_NO_MEM \/ r = 0 /\ left <= 0) -> map_post s L G v gs left perm r s.
Proof.
  intros Hinv Hr. exists L, G, [], gs. split_and!; try done; [apply framed_refl|set_solver|naive_solver lia| |set_solver].
  intros _ _ ? ->. destruct Hr as [|[_ ?]]; [done|lia].
Qed.

(** Handing the free block [i] to VF [v]. *)
Lemma wp_take X s L G v i p g perm (Q : unit -> adapter -> Prop) :
  invX X s L G -> vfid v -> (forall k, k ∈ X -> k = i) -> i ∈ L -> 0 <= g ->
  holds (memory_block s) i p -> type p = MEM_TYPE_NOT_ASSIGNED ->
  let p' := mk_pteb g (spa p) (size p) (fragment p) perm v MEM_TYPE_VF false in
  (forall s' us vs, G v = us ++ vs -> inv s' L (set_G G v (us ++ i :: vs)) -> framed s s' ->
     memory_block s' = <[i := mk_mb p' true]> (memory_block s) -> Q tt s') ->
  wp (_ ← amdgv_ffbm_pteb_update i g (spa p) (size p) (fragment p) v perm MEM_TYPE_VF false;
      amdgv_ffbm_insert_new_ffbm_node i) Q s.
Proof.
  intros Hinv Hv HX Hi Hg Hp Ht p' HQ. pose proof (inv_wf _ _ _ _ Hinv) as Hw.
  apply wp_bind. unfold amdgv_ffbm_pteb_update. eapply (wp_upd i _ p true); [exact Hp|].
  apply (wp_insert_new X s L G v i p p'); [done|done|by split; [apply HX|]|done| | |].
  - intros w Hvw. by apply (free_not_in_G Hw i p w).
  - split; [done|]. split; [done|]. left. split_and!; try done.
    + intros [_ HF]. done.
    + by apply (w_L Hw i p).
  - intros h' us vs E Hinv'. apply (HQ _ us vs E Hinv'); [by destruct s|done].
Qed.

Lemma map_loop_done fuel v gs left perm s :
  - 2 ^ 63 <= left <= 0 -> map_loop fuel v gs left perm MEM_TYPE_VF s = Ret (0, s).
Proof. intros. destruct fuel; cbn; rewrite s64_id by lia; destruct (Z.ltb_spec 0 left); done || lia. Qed.

Lemma divide_unaligned i p sz s :
  0 <= fragment p -> holds (memory_block s) i p -> sz mod AMDGV_FFBM_PAGE_SIZE (fragment p) <> 0 ->
  amdgv_ffbm_pteb_divide_size i sz s = Ret (None, s).
Proof.
  intros Hf Hp Hm. unfold amdgv_ffbm_pteb_divide_size, mbind, M_bind, pteb. rewrite Hp. cbn [pteb_of].
  rewrite map_size_valid_mod by done. by destruct (Z.eqb_spec (sz mod AMDGV_FFBM_PAGE_SIZE (fragment p)) 0).
Qed.

Lemma wp_map_loop fuel : forall s L G v gs left perm,
  inv s L G -> vfid v -> 0 <= gs -> - 2 ^ 62 < left -> (0 < left -> gs + left < 2 ^ 62) ->
  (nfree (memory_block s) L < fuel)%nat ->
  wp (map_loop fuel v gs left perm MEM_TYPE_VF) (map_post s L G v gs left perm) s.
Proof.
  induction fuel as [|fuel IH]; intros s L G v gs left perm Hinv Hv Hgs Hleft Hend Hfuel; [lia|].
  destruct (Z.ltb_spec left (2 ^ 62)) as [Hl62|Hl62]; [|lia].
  cbn [map_loop]. rewrite (s64_id left) by lia.
  destruct (Z.ltb_spec 0 left) as [Hpos|Hneg]; cbn [negb].
  2: { apply wp_ret. eapply map_post_nil; [done|]. right. lia. }
  specialize (Hend Hpos). pose proof (inv_wf _ _ _ _ Hinv) as Hw. pose proof (w_tot Hw) as Htot.
  apply wp_bind. eapply wp_find_empty; [done| |].
  { intros _. apply wp_ret. eapply map_post_nil; [done|]. by left. }
  intros xs i ys p E Hp Ht. assert (HiL : i ∈ L) by (rewrite E; set_solver).
  destruct (wf_in_L Hw i HiL) as (p0 & Hp0 & Hp1 & Hp2 & Hp3). pose proof (holds_inj _ _ _ _ Hp Hp0) as <-.
  apply wp_bind. eapply wp_holds; [done|]. rewrite (wrap_id 64 left) by (unfold in_width; lia).
  (* the block taken: [i] with [p1], in a state [s1] *)
  assert (Hrest : forall X s1 L1 p1, invX X s1 L1 G -> framed s s1 -> (forall k, k ∈ X -> k = i) -> i ∈ L1 ->
    holds (memory_block s1) i p1 -> type p1 = MEM_TYPE_NOT_ASSIGNED -> 0 < size p1 -> size p1 <= size p ->
    spa p1 = spa p -> (forall k, k ∈ L -> k ∈ L1) ->
    (forall k q, k <> i -> holds (memory_block s) k q -> holds (memory_block s1) k q) ->
    (left <= size p1 \/ L1 = L /\ s1 = s) ->
    (left mod AMDGV_FFBM_PAGE_SIZE (default_fragment s) = 0 -> ~ pool_full s ->
       size p1 = left \/ s1 = s /\ p1 = p /\ size p < left) ->
    wp (p ← pteb i;
        _ ← amdgv_ffbm_pteb_update i gs (spa p) (size p) (fragment p) v perm MEM_TYPE_VF false;
        gpa_start ← (if bool_decide (MEM_TYPE_VF = MEM_TYPE_VF) then
                       _ ← amdgv_ffbm_insert_new_ffbm_node i; mret (u64 (gs + size p))
                     else mret gs);
        map_loop fuel v gpa_start (left - size p) perm MEM_TYPE_VF) (map_post s L G v gs left perm) s1).
  { intros X s1 L1 p1 Hinv1 Hfr1 HX Hi1 Hh1 Ht1 Hz1 Hz2 Hspa HLL Hkeep Hcase Hexact.
    apply wp_bind. eapply wp_holds; [done|].
    enough (wp (_ ← amdgv_ffbm_pteb_update i gs (spa p1) (size p1) (fragment p1) v perm MEM_TYPE_VF false;
                amdgv_ffbm_insert_new_ffbm_node i)
      (fun _ => wp (map_loop fuel v (u64 (gs + size p1)) (left - size p1) perm MEM_TYPE_VF) (map_post s L G v gs left perm)) s1) as HE.
    { rewrite bool_decide_eq_true_2 by done. clear - HE.
      unfold wp in HE |- *. unfold mbind, M_bind in HE |- *.
      destruct (amdgv_ffbm_pteb_update _ _ _ _ _ _ _ _ _ s1) as [[[] s2]|]; [|done].
      destruct (amdgv_ffbm_insert_new_ffbm_node i s2) as [[[] s3]|]; done. }
    apply (wp_take X s1 L1 G v i p1); [done..|]. intros s2 us vs EG Hinv2 Hfr2 EB2.
    pose proof (inv_wf _ _ _ _ Hinv1) as Hw1.
    assert (HiG : forall w, vfid w -> i ∉ G w) by (intros w Hvw; by apply (free_not_in_G Hw1 i p1 w)).
    assert (Hold : forall w k q, vfid w -> k ∈ G w -> holds (memory_block s) k q -> holds (memory_block s2) k q).
    { intros w k q Hvw Hk Hq. assert (k <> i) by (intros ->; by apply (HiG w)).
      rewrite EB2. apply holds_insert_ne; [done|]. by apply Hkeep. }
    assert (Hi2 : holds (memory_block s2) i (mk_pteb gs (spa p1) (size p1) (fragment p1) perm v MEM_TYPE_VF false)).
    { rewrite EB2. apply holds_insert_eq; [by eapply holds_lt|done]. }
    rewrite wrap_id by (unfold in_width; lia).
    assert (Hnext : left - size p1 <= 0 \/ L1 = L /\ s1 = s) by (destruct Hcase; [left; lia|by right]).
    assert (Hpost : forall r s3, map_post s2 L1 (set_G G v (us ++ i :: vs)) v (gs + size p1) (left - size p1) perm r s3 ->
      map_post s L G v gs left perm r s3).
    { intros r s3 (L3 & G3 & new & e & Hinv3 & Hfr3 & HG3 & HP3 & Hg3 & Hn3 & Hk3 & Hr3 & He3 & Hu3 & Hc3).
      assert (HiG2 : i ∈ set_G G v (us ++ i :: vs) v) by (rewrite set_G_eq; set_solver).
      rewrite set_G_eq in HP3. exists L3, G3, (i :: new), e. split_and!.
      - done.
      - eapply framed_trans; [eapply framed_trans; [exact Hfr1|exact Hfr2]|exact Hfr3].
      - intros w Hne. by rewrite HG3, set_G_ne.
      - rewrite HP3, EG. by solve_Permutation.
      - eexists. split; [exact (Hk3 v i _ Hv HiG2 Hi2)|]. done.
      - intros k Hk. apply elem_of_cons in Hk as [->|Hk]; [|by apply Hn3]. eexists.
        split; [exact (Hk3 v i _ Hv HiG2 Hi2)|by split_and!].
      - intros w k q Hvw Hk Hq. apply (Hk3 w k); [done| |by apply (Hold w)].
        destruct (decide (w = v)) as [->|Hne]; [rewrite set_G_eq; rewrite EG in Hk; set_solver|by rewrite set_G_ne].
      - destruct Hr3 as [|[-> ?]]; [by left|right; split; [done|lia]].
      - intros Hm HF Hl Hr. destruct HF as [HF| ->]; [|lia].
        assert (Edf : default_fragment s2 = default_fragment s) by (rewrite Hfr2, Hfr1; done).
        rewrite Edf in He3. destruct (Hexact Hm HF) as [Hsz|(-> & -> & Hsz)].
        + enough (e = gs + size p1 + (left - size p1)) by lia. apply He3; [|right; lia|lia|done].
          replace (left - size p1) with 0 by lia. apply Zmod_0_l.
        + enough (e = gs + size p + (left - size p)) by lia. apply He3; [|left|lia|done].
          * rewrite Zminus_mod, Hm. by destruct (w_L Hw i p HiL Hp) as (_ & -> & _).
          * intros Hfull. apply HF. intros k b Hb. destruct (decide (k = i)) as [->|Hne].
            -- unfold holds in Hp. rewrite Hp in Hb. by injection Hb as <-.
            -- apply (Hfull k). by rewrite EB2, list_lookup_insert_ne.
      - intros k q Hk Hq Hnf. assert (k <> i). { intros ->. by rewrite (holds_inj _ _ _ _ Hq Hp) in Hnf. }
        apply Hu3; [by apply HLL| |done]. rewrite EB2. apply holds_insert_ne; [done|]. by apply Hkeep.
      - intros k Hk. split; [done|]. apply elem_of_cons in Hk as [->|Hk].
        { eexists _, i, p. split; [exact (Hk3 v i _ Hv HiG2 Hi2)|]. cbn. split_and!; [done..|lia|lia]. }
        destruct (Hc3 k Hk) as (Hp3' & q & k0 & q0 & Hq & Hk0 & Hq0 & Hf0 & Hb1 & Hb2).
        destruct Hnext as [?|[-> ->]]; [lia|]. exists q, k0, q0. split_and!; [done|done| |done|done|done].
        assert (k0 <> i) as Hne by (intros ->; rewrite (holds_inj _ _ _ _ Hq0 Hi2) in Hf0; done).
        rewrite EB2 in Hq0. unfold holds in Hq0 |- *. by rewrite list_lookup_insert_ne in Hq0. }
    eapply wp_mono; [|exact Hpost]. clear Hpost. destruct Hnext as [Hle|[-> ->]].
    - eapply wp_intro; [apply map_loop_done; lia|]. eapply map_post_nil; [exact Hinv2|right; lia].
    - eapply IH; [exact Hinv2|done|lia|lia|lia|].
      enough (nfree (memory_block s2) L < nfree (memory_block s) L)%nat by lia.
      rewrite EB2. apply nsat_take; [done| |done]. unfold sat. unfold holds in Hp. rewrite Hp.
      by apply is_type_true. }
  assert (HX0 : forall k : nat, k ∈ [] -> k = i) by set_solver.
  destruct (w_L Hw i p HiL Hp) as (Ef & Hpg & _). pose proof (w_df Hw).
  apply wp_bind. destruct (Z.ltb_spec left (size p)) as [Hlt|Hge].
  - destruct (decide (left mod AMDGV_FFBM_PAGE_SIZE (default_fragment s) = 0)) as [Hm|Hm].
    + eapply wp_divide_free; [by rewrite E in Hinv|done|done|lia|done| |].
      * intros HF. apply (Hrest [] s L p); try done; [apply framed_refl|left; lia].
      * intros j s1 HnF Hfr1 Hinv1 Hi1 Hkeep _.
        apply (Hrest [i] s1 (xs ++ i :: j :: ys) (p <| size := left |>)); try done; try set_solver; cbn; lia.
    + eapply wp_intro; [eapply divide_unaligned; [|done|]; rewrite Ef; [lia|done]|].
      apply (Hrest [] s L p); try done; [apply framed_refl|left; lia].
  - apply wp_ret. apply (Hrest [] s L p); try done; [apply framed_refl|by right|].
    intros _ _. destruct (decide (size p = left)); [by left|right; split_and!; [done..|lia]].
Qed.

(** ** Unmapping *)

(** Blocks in VF lists other than those of [S] keep their contents. *)
Definition keeps (G : Z -> list nat) (S : list nat) (s s' : adapter) : Prop :=
  forall w k q, vfid w -> k ∈ G w -> k ∉ S -> holds (memory_block s) k q -> holds (memory_block s') k q.

Lemma neighbour_head s (Q : amdgv_ffbm_mem_type -> adapter -> Prop) :
  length (memory_block s) = AMDGV_FFBM_MEMORY_ALLOCATION_COUNT ->
  (forall t, t <> MEM_TYPE_NOT_ASSIGNED -> Q t s) -> wp (neighbour_type SpaHead) Q s.
Proof.
  intros Hlen HQ. unfold neighbour_type. apply wp_bind.
  destruct (lookup_lt_is_Some_2 (memory_block s) (AMDGV_FFBM_MEMORY_ALLOCATION_COUNT - 1)) as [[p u] E].
  { rewrite Hlen. unfold AMDGV_FFBM_MEMORY_ALLOCATION_COUNT. lia. }
  eapply wp_pteb; [exact E|]. apply wp_ret, HQ. by destruct (applied p).
Qed.

Lemma neighbour_node s i p (Q : amdgv_ffbm_mem_type -> adapter -> Prop) :
  holds (memory_block s) i p -> Q (type p) s -> wp (neighbour_type (SpaNode i)) Q s.
Proof. intros Hp HQ. unfold neighbour_type. apply wp_bind, (entry_kind_of SpaHead i). apply wp_bind. by eapply wp_holds. Qed.

(** The two sizes added by a merge do not wrap around. *)
Lemma merge_no_wrap s xs k i ys G pk p :
  inv s (xs ++ k :: i :: ys) G -> holds (memory_block s) k pk -> holds (memory_block s) i p ->
  u64 (size pk + size p) = size pk + size p.
Proof.
  intros Hinv Hk Hi. pose proof (inv_wf _ _ _ _ Hinv) as Hw.
  destruct (wf_in_L Hw k) as (q & Hq & ? & ? & ?); [set_solver|]. pose proof (holds_inj _ _ _ _ Hk Hq) as <-.
  destruct (wf_in_L Hw i) as (r & Hr & ? & ? & ?); [set_solver|]. pose proof (holds_inj _ _ _ _ Hi Hr) as <-.
  pose proof (w_tot Hw). apply wrap_id. unfold in_width. lia.
Qed.

(** The common steps of both merges: grow [k], unlink and free [i]. *)
Lemma wp_merge s xs k i ys G pk p (Q : unit -> adapter -> Prop) :
  inv s (xs ++ k :: i :: ys) G -> holds (memory_block s) k pk -> holds (memory_block s) i p ->
  type pk = MEM_TYPE_NOT_ASSIGNED -> type p = MEM_TYPE_NOT_ASSIGNED ->
  (forall s', inv s' (xs ++ k :: ys) G -> framed s s' -> keeps G [] s s' ->
     holds (memory_block s') k (pk <| size := size pk + size p |>) -> Q tt s') ->
  wp (_ ← upd_pteb k (fun q => q <| size := u64 (size q + size p) |>);
      _ ← link (amdgv_list_del (SpaNode i));
      amdgv_ffbm_free_block i) Q s.
Proof.
  intros Hinv Hk Hi Ek Ei HQ. pose proof (inv_wf _ _ _ _ Hinv) as Hw.
  assert (Hne : k <> i).
  { intros ->. pose proof (wf_nodup _ _ _ _ _ _ _ _ Hw) as Hnd. apply NoDup_app in Hnd as (_ & _ & Hnd).
    apply NoDup_cons in Hnd as [Hnd _]. set_solver. }
  apply wp_bind. eapply (wp_upd k _ pk true); [exact Hk|]. cbv beta.
  rewrite (merge_no_wrap s xs k i ys G pk p Hinv Hk Hi).
  pose proof (w_spa Hw) as Hs. rewrite fmap_app in Hs. cbn [fmap list_fmap] in Hs.
  assert (Hs' : dlist (lnk s) SpaHead (((SpaNode <$> xs) ++ [SpaNode k]) ++ SpaNode i :: (SpaNode <$> ys)))
    by (by rewrite <- app_assoc).
  destruct (dlist_del _ _ _ _ _ Hs') as (l & El & -> & _). rewrite before_snoc in El.
  apply wp_bind. eapply wp_link; [exact El|].
  eapply (wp_free i p true).
  { apply (holds_insert_ne _ i k p); [congruence|exact Hi]. }
  apply HQ.
  - destruct Hinv as [_ ? ?]. split; [|done..]. cbn. by apply (wf_merge Hw Hk Hi Ek Ei).
  - by destruct s.
  - intros w m q Hvw Hm _ Hq. cbn.
    assert (i ∈ xs ++ k :: i :: ys) by set_solver. assert (k ∈ xs ++ k :: i :: ys) by set_solver.
    assert (m <> i) by (intros ->; by apply (free_not_in_G Hw i p w)).
    assert (m <> k) by (intros ->; by apply (free_not_in_G Hw k pk w)).
    by rewrite !holds_insert_ne.
  - cbn. rewrite holds_insert_ne by done. apply holds_insert_eq; [by eapply holds_lt|done].
Qed.

Lemma wp_merge_back s xs i ys G p (Q : unit -> adapter -> Prop) :
  inv s (xs ++ i :: ys) G -> holds (memory_block s) i p -> type p = MEM_TYPE_NOT_ASSIGNED ->
  (forall s' L', inv s' L' G -> framed s s' -> keeps G [] s s' -> Q tt s') ->
  wp (nxt ← next_of (SpaNode i);
      t ← neighbour_type nxt;
      when (bool_decide (t = MEM_TYPE_NOT_ASSIGNED))
        (j ← entry_of nxt;
         q ← pteb j;
         _ ← upd_pteb i (fun p => p <| size := u64 (size p + size q) |>);
         _ ← link (amdgv_list_del (SpaNode j));
         amdgv_ffbm_free_block j)) Q s.
Proof.
  intros Hinv Hp Ht HQ. pose proof (inv_wf _ _ _ _ Hinv) as Hw.
  assert (Hnx : next (lnk s) !! SpaNode i = Some (after (SpaNode <$> ys) SpaHead)).
  { pose proof (dlist_after (lnk s) SpaHead (SpaNode <$> xs ++ [i]) (SpaNode <$> ys)) as Haf.
    rewrite fmap_app in Haf. cbn [fmap list_fmap] in Haf. rewrite before_snoc, <- app_assoc in Haf.
    apply Haf. pose proof (w_spa Hw) as Hs. by rewrite fmap_app in Hs. }
  apply wp_bind. eapply wp_next; [exact Hnx|]. apply wp_bind. destruct ys as [|m ys]; cbn [after hd_error fmap list_fmap default].
  - apply neighbour_head; [apply (w_len Hw)|]. intros t Hne. rewrite bool_decide_eq_false_2 by done.
    apply wp_when; [done|]. intros _. apply (HQ _ _ Hinv); [apply framed_refl|by intros ? ? ?].
  - destruct (inv_blocks _ _ _ _ m Hinv) as [q Hq]; [set_solver|].
    eapply neighbour_node; [exact Hq|]. apply wp_when; intros Eb.
    + apply bool_decide_eq_true in Eb. apply wp_bind, (entry_kind_of SpaHead m).
      apply wp_bind. eapply wp_holds; [exact Hq|].
      eapply wp_merge; [exact Hinv|exact Hp|exact Hq|done|done|]. intros s' Hinv' Hfr Hk _. by eapply HQ.
    + apply (HQ _ _ Hinv); [apply framed_refl|by intros ? ? ?].
Qed.

Lemma set_applied_id (p : pte_block) : p <| applied := applied p |> = p.
Proof. by destruct p. Qed.

Lemma listed_nonempty s L G v i : inv s L G -> vfid v -> i ∈ G v -> amdgv_list_empty (GpaNode i) (lnk s) = false.
Proof.
  intros Hinv Hv Hi. pose proof (w_gpa (inv_wf _ _ _ _ Hinv) v Hv) as Hd.
  apply list_elem_of_split in Hi as (us & vs & E). rewrite E, fmap_app in Hd. cbn [fmap list_fmap] in Hd.
  assert (Hd' : dlist (lnk s) (GpaHead v) (((GpaNode <$> us) ++ [GpaNode i]) ++ (GpaNode <$> vs))) by (by rewrite <- app_assoc).
  pose proof (dlist_after _ _ _ _ Hd') as Hn. rewrite before_snoc in Hn.
  unfold amdgv_list_empty. rewrite Hn. apply bool_decide_eq_false. intros E'.
  pose proof (after_elem (GpaNode <$> vs) (GpaHead v)) as He. rewrite E' in He.
  destruct Hd as [_ Hnd]. apply (NoDup_Permutation_proper _ (GpaNode i :: GpaHead v :: (GpaNode <$> us) ++ (GpaNode <$> vs))) in Hnd;
    [|by solve_Permutation]. apply NoDup_cons in Hnd as [Hnd _]. set_solver.
Qed.

Definition unapplied (s : adapter) (i : nat) (p : pte_block) (a : bool) (w : hw_state) : adapter :=
  s <| memory_block := <[i := mk_mb (p <| applied := a |>) true]> (memory_block s) |> <| hw := w |>.

Lemma unapplied_id s i p : holds (memory_block s) i p -> unapplied s i p (applied p) (hw s) = s.
Proof.
  intros Hp. unfold unapplied. rewrite set_applied_id, list_insert_id by done. by destruct s.
Qed.

(** A block inside the memory the mapper manages. *)
Definition extent (tot : Z) (p : pte_block) : Prop := 0 <= spa p /\ 0 < size p /\ spa p + size p <= tot.

(** The hardware is reachable: every request for such a block succeeds. *)
Definition hw_up : Prop := forall df p valid h tot,
  0 <= df <= 18 -> tot < 2 ^ 62 -> extent tot p -> (apply_pteb df p valid h).1.1 = 0.

(** The hardware never grants access. *)
Definition hw_down : Prop := forall df p valid h, (apply_pteb df p valid h).1.1 <> 0.

Lemma G_extent s L G v i p :
  inv s L G -> vfid v -> i ∈ G v -> holds (memory_block s) i p -> extent (total_physical_size s) p.
Proof.
  intros Hinv Hv Hi Hp. pose proof (inv_wf _ _ _ _ Hinv) as Hw.
  destruct (w_G Hw v i Hv Hi) as (p' & Hp' & _ & Hc). pose proof (holds_inj _ _ _ _ Hp Hp') as <-.
  destruct Hc as [[_ HL]|(_ & _ & Es & Ez)].
  - destruct (wf_in_L Hw i HL) as (q & Hq & ? & ? & ?). by pose proof (holds_inj _ _ _ _ Hp Hq) as <-.
  - destruct (w_tmr Hw) as (t & q & Ht & Hq & _ & Es' & Ez').
    destruct (wf_in_L Hw t Ht) as (q' & Hq' & ? & ? & ?). pose proof (holds_inj _ _ _ _ Hq Hq') as <-.
    unfold extent. rewrite Es, Ez, <- Es', <- Ez'. lia.
Qed.

Lemma L_extent X s L G i : invX X s L G -> i ∈ L -> exists p, holds (memory_block s) i p /\ extent (total_physical_size s) p.
Proof. intros Hinv Hi. apply (wf_in_L (inv_wf _ _ _ _ Hinv) i Hi). Qed.

Lemma wp_unapply (Hok : FfbmHwOk HW) s L G v i p (Q : unit -> adapter -> Prop) :
  inv s L G -> vfid v -> i ∈ G v -> holds (memory_block s) i p ->
  (forall a w, (hw_up -> a = false) -> (hw_down -> a = applied p) -> Q tt (unapplied s i p a w)) ->
  wp (amdgv_ffbm_invalidate_and_unapply_pteb i) Q s.
Proof.
  intros Hinv Hv Hi Hp HQ. destruct (w_G (inv_wf _ _ _ _ Hinv) v i Hv Hi) as (p' & Hp' & _ & Ht).
  pose proof (holds_inj _ _ _ _ Hp Hp') as <-.
  assert (Hna : is_type MEM_TYPE_NOT_ASSIGNED p = false).
  { apply bool_decide_eq_false. destruct Ht as [[-> _]|[-> _]]; done. }
  assert (Hvt : is_vf_or_tmr p = true).
  { unfold is_vf_or_tmr. apply orb_true_iff. rewrite !is_type_true. naive_solver. }
  unfold amdgv_ffbm_invalidate_and_unapply_pteb. apply wp_bind. eapply wp_holds; [done|]. rewrite Hna.
  apply wp_bind. unfold gpa_node_empty. apply wp_gets. rewrite (listed_nonempty _ _ _ _ _ Hinv Hv Hi).
  destruct (applied p) eqn:Ea; cbn [negb].
  2: { apply wp_ret. rewrite <- (unapplied_id s i p Hp), Ea. apply HQ; [done|by intros _]. }
  assert (Hcall : forall s1, memory_block s1 = memory_block s ->
    s1 = s <| hw := hw s1 |> -> wp (when (is_vf_or_tmr p) (_ ← call_apply_pteb i false; mret tt)) Q s1).
  { intros s1 EB Es. rewrite Hvt. cbn [when]. apply wp_bind. unfold call_apply_pteb.
    apply wp_bind. eapply wp_holds; [rewrite EB; exact Hp|]. apply wp_bind, wp_gets, wp_bind, wp_gets.
    destruct (apply_pteb _ _ _ _) as [[r a] w] eqn:Eap. apply wp_bind, wp_modify.
    apply wp_bind. eapply (wp_upd i _ p true); [cbn; rewrite EB; exact Hp|]. apply wp_ret, wp_ret.
    enough (s1 <| hw := w |> <| memory_block := <[i:=mk_mb (p <| applied := a |>) true]> (memory_block (s1 <| hw := w |>)) |>
      = unapplied s i p a w) as ->.
    { pose proof (apply_pteb_flag _ _ _ _ _ _ _ Eap) as Ha.
      apply HQ; intros Hup.
      - assert (default_fragment s1 = default_fragment s) as Edf by (by rewrite Es).
        pose proof (Hup (default_fragment s1) p false (hw s1) (total_physical_size s)) as Hr.
        rewrite Eap, Edf in Hr. cbn in Hr. rewrite Hr in Ha; [done|apply (w_df (inv_wf _ _ _ _ Hinv))|apply (w_tot (inv_wf _ _ _ _ Hinv))|].
        by eapply G_extent.
      - pose proof (Hup (default_fragment s1) p false (hw s1)) as Hr. rewrite Eap in Hr. cbn in Hr.
        rewrite (proj2 (Z.eqb_neq r 0) Hr) in Ha. congruence. }
    change (memory_block (s1 <| hw := w |>)) with (memory_block s1). rewrite EB, Es. by destruct s. }
  apply wp_bind, wp_gets, wp_bind, wp_when; intros _.
  - unfold call_invalidate_tlb. apply wp_bind, wp_bind. eapply wp_holds; [done|]. apply wp_bind, wp_gets.
    destruct (invalidate_tlb _ _ _) as [r w]. apply wp_bind, wp_modify, wp_ret, wp_ret. by apply Hcall.
  - apply Hcall; [done|by destruct s].
Qed.

Lemma unapplied_inv s L G i p a w :
  inv s L G -> holds (memory_block s) i p -> inv (unapplied s i p a w) L G.
Proof.
  intros [Hw ? ?] Hp. split; [|done..]. cbn. by eapply (wf_touch Hw i p).
Qed.

Lemma unapplied_framed s i p a w : framed s (unapplied s i p a w).
Proof. by destruct s. Qed.

Lemma unapplied_holds s i p a w k q :
  k <> i -> holds (memory_block s) k q -> holds (memory_block (unapplied s i p a w)) k q.
Proof. intros. by apply holds_insert_ne. Qed.

(** The pointers of a listed block are taken out of its VF's list. *)
Lemma delist s L G v us i vs B p p' u :
  inv s L G -> vfid v -> G v = us ++ i :: vs -> holds (memory_block s) i p ->
  B = <[i := mk_mb p' u]> (memory_block s) ->
  (i ∈ L -> u = true /\ fragment p' = default_fragment s /\ spa p' = spa p /\ size p' = size p /\
            type p' = MEM_TYPE_NOT_ASSIGNED /\ gpa p' = AMDGV_FFBM_INVALID_ADDR) ->
  exists h', amdgv_list_del_init (GpaNode i) (lnk s) = Some h' /\
    (forall n, (forall k, n <> GpaNode k) -> n <> GpaHead v ->
       next h' !! n = next (lnk s) !! n /\ prev h' !! n = prev (lnk s) !! n) /\
    inv (s <| memory_block := B |> <| lnk := h' |>) L (set_G G v (us ++ vs)).
Proof.
  intros Hinv Hv EG Hp EB HL. pose proof (inv_wf _ _ _ _ Hinv) as Hw.
  pose proof (w_gpa Hw v Hv) as Hd. rewrite EG, fmap_app in Hd. cbn [fmap list_fmap] in Hd.
  destruct (dlist_del _ _ _ _ _ Hd) as (l1 & E1 & El1 & Hd1).
  destruct (dlist_del_init _ _ _ _ _ Hd) as (h' & E & Hd' & _).
  assert (Eh : h' = AMDGV_INIT_LIST_HEAD (GpaNode i) l1).
  { unfold amdgv_list_del_init in E. rewrite E1 in E. by injection E as <-. }
  exists h'. split; [done|].
  assert (Hloc : gpa_local v (i :: us ++ vs) (lnk s) h') by (rewrite Eh, El1; apply gpa_local_del).
  split.
  { intros n Hn Hh. apply Hloc; [done|]. intros k ->. by destruct (Hn k). }
  assert (HiG : i ∈ G v) by (rewrite EG; set_solver).
  assert (Hni : (i ∉ us) /\ i ∉ vs).
  { destruct Hd as [_ Hnd]. apply (NoDup_Permutation_proper _ (GpaNode i :: GpaHead v :: (GpaNode <$> us) ++ (GpaNode <$> vs))) in Hnd;
      [|by solve_Permutation]. apply NoDup_cons in Hnd as [Hnd _].
    rewrite <- (elem_gpa i us), <- (elem_gpa i vs). set_solver. }
  destruct Hinv as [_ Hlen Hnum]. split; [|done..]. cbn.
  apply (wf_relink Hw Hv (i := i) (h' := h') (l := us ++ vs) (p := p) (p' := p') (u := u)).
  - intros w Hvw Hiw. by apply (G_elem_unique Hw v w i).
  - rewrite EB. by rewrite length_insert.
  - intros k Hk. rewrite EB. by apply list_lookup_insert_ne.
  - intros k Hk. rewrite EG. set_solver.
  - intros n H1 H2. apply Hloc; [done|]. intros k Hk. specialize (H2 k Hk). rewrite EG in H2. set_solver.
  - by rewrite fmap_app.
  - done.
  - rewrite EB. apply list_lookup_insert_eq. by eapply holds_lt.
  - intros Hi. destruct (HL Hi) as (-> & ? & ? & ? & Et & ?). split_and!; try done.
    + intros [HF _]. destruct (w_G Hw v i Hv HiG) as (q & Hq & _ & [[? _]|(_ & HF' & _)]); [|done].
      by pose proof (holds_inj _ _ _ _ Hp Hq) as <-.
    + rewrite Et. split; [done|]. set_solver.
  - intros Hi. set_solver.
  - set_solver.
  - intros Hi. set_solver.
Qed.

Lemma keeps_trans G G' S S' s1 s2 s3 :
  (forall w k, vfid w -> k ∈ G w -> k ∉ S -> k ∈ G' w /\ (k ∉ S')) ->
  keeps G S s1 s2 -> keeps G' S' s2 s3 -> keeps G S s1 s3.
Proof.
  intros HG H1 H2 w k q Hw Hk HS Hq. destruct (HG w k Hw Hk HS) as [Hk' HS'].
  apply (H2 w); [done..|]. by apply (H1 w).
Qed.

(** Giving the block [i], just made free, back: it joins its free neighbours. *)
Lemma wp_join s xs i ys G p (Q : unit -> adapter -> Prop) :
  inv s (xs ++ i :: ys) G -> holds (memory_block s) i p -> type p = MEM_TYPE_NOT_ASSIGNED ->
  (forall s' L', inv s' L' G -> framed s s' -> keeps G [] s s' -> Q tt s') ->
  wp (prv ← prev_of (SpaNode i);
      t ← neighbour_type prv;
      i ← (if bool_decide (t = MEM_TYPE_NOT_ASSIGNED) then
             j ← entry_of prv;
             p ← pteb i;
             _ ← upd_pteb j (fun q => q <| size := u64 (size q + size p) |>);
             _ ← link (amdgv_list_del (SpaNode i));
             _ ← amdgv_ffbm_free_block i;
             mret j
           else mret i);
      nxt ← next_of (SpaNode i);
      t ← neighbour_type nxt;
      when (bool_decide (t = MEM_TYPE_NOT_ASSIGNED))
        (j ← entry_of nxt;
         q ← pteb j;
         _ ← upd_pteb i (fun p => p <| size := u64 (size p + size q) |>);
         _ ← link (amdgv_list_del (SpaNode j));
         amdgv_ffbm_free_block j)) Q s.
Proof.
  intros Hinv Hp Ht HQ. pose proof (inv_wf _ _ _ _ Hinv) as Hw.
  assert (Hpv : prev (lnk s) !! SpaNode i = Some (before SpaHead (SpaNode <$> xs))).
  { pose proof (dlist_before (lnk s) SpaHead (SpaNode <$> xs) (SpaNode <$> i :: ys)) as Hb.
    rewrite <- fmap_app in Hb. exact (Hb (w_spa Hw)). }
  apply wp_bind. eapply wp_prev; [exact Hpv|]. apply wp_bind.
  destruct xs as [|k xs _] using rev_ind.
  - apply neighbour_head; [apply (w_len Hw)|]. intros t Hne. rewrite bool_decide_eq_false_2 by done.
    apply wp_bind, wp_ret. eapply wp_merge_back; [exact Hinv|exact Hp|done|done].
  - rewrite fmap_app. cbn [fmap list_fmap]. rewrite before_snoc. rewrite <- app_assoc in Hinv. cbn [app] in Hinv.
    destruct (inv_blocks _ _ _ _ k Hinv) as [pk Hk]; [set_solver|].
    eapply neighbour_node; [exact Hk|]. destruct (decide (type pk = MEM_TYPE_NOT_ASSIGNED)) as [Ek|Ek].
    + rewrite bool_decide_eq_true_2 by done. apply wp_bind, wp_bind, (entry_kind_of SpaHead k).
      apply wp_bind. eapply wp_holds; [exact Hp|].
      assert (HM := wp_merge s xs k i ys G pk p).
      specialize (HM (fun _ s' => wp (nxt ← next_of (SpaNode k);
        t ← neighbour_type nxt;
        when (bool_decide (t = MEM_TYPE_NOT_ASSIGNED))
          (j ← entry_of nxt;
           q ← pteb j;
           _ ← upd_pteb k (fun p => p <| size := u64 (size p + size q) |>);
           _ ← link (amdgv_list_del (SpaNode j));
           amdgv_ffbm_free_block j)) Q s') Hinv Hk Hp Ek Ht).
      enough (HE : wp (_ ← upd_pteb k (fun q => q <| size := u64 (size q + size p) |>);
        _ ← link (amdgv_list_del (SpaNode i)); amdgv_ffbm_free_block i) (fun _ s' => wp (nxt ← next_of (SpaNode k);
        t ← neighbour_type nxt;
        when (bool_decide (t = MEM_TYPE_NOT_ASSIGNED))
          (j ← entry_of nxt;
           q ← pteb j;
           _ ← upd_pteb k (fun p => p <| size := u64 (size p + size q) |>);
           _ ← link (amdgv_list_del (SpaNode j));
           amdgv_ffbm_free_block j)) Q s') s).
      { clear - HE. unfold wp in HE |- *. unfold mbind, M_bind in HE |- *.
        destruct (upd_pteb k _ s) as [[[] s1]|]; [|done].
        destruct (link _ s1) as [[[] s2]|]; [|done].
        destruct (amdgv_ffbm_free_block i s2) as [[[] s3]|]; done. }
      apply HM. intros s1 Hinv1 Hfr1 Hk1 Hhk1.
      eapply wp_merge_back; [exact Hinv1|exact Hhk1|done|]. intros s2 L2 Hinv2 Hfr2 Hk2.
      apply (HQ s2 L2 Hinv2); [by eapply framed_trans|]. eapply keeps_trans; [|done|done]. naive_solver.
    + rewrite bool_decide_eq_false_2 by done. apply wp_bind, wp_ret.
      eapply (wp_merge_back s (xs ++ [k])); [rewrite <- app_assoc; exact Hinv|exact Hp|done|done].
Qed.

Lemma wp_unmap_pteb (Hok : FfbmHwOk HW) s L G v us i vs (Q : unit -> adapter -> Prop) :
  inv s L G -> vfid v -> G v = us ++ i :: vs ->
  (forall s' L', inv s' L' (set_G G v (us ++ vs)) -> framed s s' -> keeps G [i] s s' -> Q tt s') ->
  wp (amdgv_ffbm_unmap_pteb i) Q s.
Proof.
  intros Hinv Hv EG HQ. pose proof (inv_wf _ _ _ _ Hinv) as Hw.
  assert (HiG : i ∈ G v) by (rewrite EG; set_solver).
  destruct (w_G Hw v i Hv HiG) as (p & Hp & Ev & Ht).
  assert (Hna : is_type MEM_TYPE_NOT_ASSIGNED p = false).
  { apply bool_decide_eq_false. destruct Ht as [[-> _]|[-> _]]; done. }
  assert (HGne : forall w k, vfid w -> k ∈ G w -> k ∉ [i] -> k ∈ set_G G v (us ++ vs) w /\ (k ∉ ([] : list nat))).
  { intros w k Hvw Hk Hki. split; [|set_solver]. destruct (decide (w = v)) as [->|Hne].
    - rewrite set_G_eq. rewrite EG in Hk. set_solver.
    - by rewrite set_G_ne. }
  unfold amdgv_ffbm_unmap_pteb. apply wp_bind. eapply wp_holds; [exact Hp|]. rewrite Hna.
  apply wp_bind. eapply wp_unapply; [done|done|exact Hv|done|done|]. intros a w _ _.
  set (s1 := unapplied s i p a w). set (p1 := p <| applied := a |>).
  assert (Hinv1 : inv s1 L G) by (by apply unapplied_inv).
  assert (Hp1 : holds (memory_block s1) i p1) by (apply holds_insert_eq; [by eapply holds_lt|done]).
  apply wp_bind. unfold gpa_node_empty. apply wp_gets. rewrite (listed_nonempty _ _ _ _ _ Hinv1 Hv HiG).
  cbn [negb when]. apply wp_bind. destruct Ht as [[Et HiL]|(Et & HiL & _)].
  - pose proof (wf_in_L Hw i HiL) as (p0 & Hp0 & ? & ? & ?). pose proof (holds_inj _ _ _ _ Hp Hp0) as <-.
    set (p2 := mk_pteb AMDGV_FFBM_INVALID_ADDR (spa p) (size p) (default_fragment s) 0
      (AMDGV_INVALID_IDX_VF s) MEM_TYPE_NOT_ASSIGNED a).
    destruct (delist s1 L G v us i vs (<[i := mk_mb p2 true]> (memory_block s1)) p1 p2 true)
      as (h' & El & _ & Hinv2); [done..|].
    eapply wp_link; [exact El|]. apply wp_bind. eapply wp_holds; [exact Hp1|].
    unfold is_type. rewrite bool_decide_eq_false_2 by (cbn; congruence).
    rewrite bool_decide_eq_true_2 by done. apply wp_bind, wp_gets, wp_bind, wp_gets, wp_bind.
    unfold amdgv_ffbm_pteb_update. eapply (wp_upd i _ p1 true); [exact Hp1|].
    set (s2 := s1 <| memory_block := <[i := mk_mb p2 true]> (memory_block s1) |> <| lnk := h' |>).
    assert (Hfr2 : framed s s2) by (by destruct s).
    assert (Hk2 : keeps G [i] s s2).
    { intros x k q Hvx Hk Hki Hq. cbn. apply holds_insert_ne; [set_solver|].
      apply (unapplied_holds s i p a w); [set_solver|done]. }
    apply list_elem_of_split in HiL as (xs & ys & ->).
    enough (wp (prv ← prev_of (SpaNode i);
      t ← neighbour_type prv;
      i ← (if bool_decide (t = MEM_TYPE_NOT_ASSIGNED) then
             j ← entry_of prv;
             p ← pteb i;
             _ ← upd_pteb j (fun q => q <| size := u64 (size q + size p) |>);
             _ ← link (amdgv_list_del (SpaNode i));
             _ ← amdgv_ffbm_free_block i;
             mret j
           else mret i);
      nxt ← next_of (SpaNode i);
      t ← neighbour_type nxt;
      when (bool_decide (t = MEM_TYPE_NOT_ASSIGNED))
        (j ← entry_of nxt;
         q ← pteb j;
         _ ← upd_pteb i (fun p => p <| size := u64 (size p + size q) |>);
         _ ← link (amdgv_list_del (SpaNode j));
         amdgv_ffbm_free_block j)) Q s2) as HE by exact HE.
    eapply (wp_join s2 xs i ys _ p2); [exact Hinv2| |done|].
    + apply holds_insert_eq; [|done]. by eapply holds_lt.
    + intros s3 L3 Hinv3 Hfr3 Hk3. apply (HQ s3 L3 Hinv3); [by eapply framed_trans|].
      eapply keeps_trans; [exact HGne|exact Hk2|exact Hk3].
  - destruct (delist s1 L G v us i vs (<[i := mk_mb p1 false]> (memory_block s1)) p1 p1 false)
      as (h' & El & _ & Hinv2); [done..|].
    eapply wp_link; [exact El|]. apply wp_bind. eapply wp_holds; [exact Hp1|].
    unfold is_type. rewrite bool_decide_eq_true_2 by done. eapply wp_free; [exact Hp1|].
    apply (HQ _ L Hinv2); [by destruct s|].
    intros x k q Hvx Hk Hki Hq. cbn. apply holds_insert_ne; [set_solver|].
    apply (unapplied_holds s i p a w); [set_solver|done].
Qed.

(** The outcome of unmapping VF [v]: no block of the VF is applied any more,
    the other VFs keep their blocks. *)
Definition unmap_post (s : adapter) (G : Z -> list nat) (v : Z) (s' : adapter) : Prop :=
  exists L' G', inv s' L' G' /\ framed s s' /\ (forall w, w <> v -> G' w = G w) /\
    (forall k, k ∈ G' v -> k ∈ G v) /\ keeps G (G v) s s' /\
    (forall k q, k ∈ G' v -> holds (memory_block s') k q -> applied q = false).

Lemma unmap_done s L G v :
  inv s L G -> vfid v ->
  (forall i p, i ∈ G v -> holds (memory_block s) i p -> (vf_idx p =? v) && applied p = false) ->
  unmap_post s G v s.
Proof.
  intros Hinv Hv Hno. exists L, G. split_and!; try done; [apply framed_refl|by intros ? ? ?|].
  intros k q Hk Hq. specialize (Hno k q Hk Hq). destruct (w_G (inv_wf _ _ _ _ Hinv) v k Hv Hk) as (q' & Hq' & Ev & _).
  pose proof (holds_inj _ _ _ _ Hq Hq') as <-. rewrite Ev, Z.eqb_refl in Hno. done.
Qed.

Lemma wp_unmap_loop (Hok : FfbmHwOk HW) fuel : forall s L G v,
  inv s L G -> vfid v -> (length (G v) < fuel)%nat ->
  wp (unmap_loop fuel v false) (fun _ => unmap_post s G v) s.
Proof.
  induction fuel as [|fuel IH]; intros s L G v Hinv Hv Hf; [lia|]. cbn [unmap_loop].
  apply wp_bind. eapply wp_find_gpa; [exact Hinv|exact Hv| |].
  { intros Hno. apply wp_ret. by eapply unmap_done. }
  intros us i vs p E Hp _ _. apply wp_bind.
  apply (wp_unmap_pteb Hok s L G v us i vs); [done..|]. intros s1 L1 Hinv1 Hfr1 Hk1.
  eapply wp_mono; [apply (IH s1 L1 _ v Hinv1 Hv)|].
  { rewrite set_G_eq, length_app. rewrite E, length_app in Hf. cbn in Hf. lia. }
  intros _ s2 (L2 & G2 & Hinv2 & Hfr2 & HG2 & Hsub & Hk2 & Hap). rewrite set_G_eq in Hsub, Hk2.
  exists L2, G2. split_and!; try done.
  - by eapply framed_trans.
  - intros w Hne. by rewrite HG2, set_G_ne.
  - intros k Hk. rewrite E. apply Hsub in Hk. set_solver.
  - intros w k q Hvw Hk Hn Hq. assert (w <> v) by (intros ->; done).
    apply (Hk2 w k); [done|by rewrite set_G_ne|rewrite E in Hn; set_solver|].
    apply (Hk1 w k); [done|done|rewrite E in Hn; set_solver|done].
Qed.

Lemma wp_reserve_loop (Hok : FfbmHwOk HW) (Hup : hw_up) fuel : forall s L G v,
  inv s L G -> vfid v -> (nsat applied (memory_block s) (G v) < fuel)%nat ->
  wp (unmap_loop fuel v true) (fun _ s' => unmap_post s G v s' /\ inv s' L G) s.
Proof.
  induction fuel as [|fuel IH]; intros s L G v Hinv Hv Hf; [lia|]. cbn [unmap_loop].
  apply wp_bind. eapply wp_find_gpa; [exact Hinv|exact Hv| |].
  { intros Hno. apply wp_ret. split; [by eapply unmap_done|done]. }
  intros us i vs p E Hp HP _. apply wp_bind. assert (HiG : i ∈ G v) by (rewrite E; set_solver).
  eapply wp_unapply; [done|exact Hinv|exact Hv|done|done|]. intros a w Ha _.
  specialize (Ha Hup) as ->. set (s1 := unapplied s i p false w).
  assert (Hinv1 : inv s1 L G) by (by apply unapplied_inv).
  eapply wp_mono; [apply (IH s1 L G v Hinv1 Hv)|].
  { enough (nsat applied (memory_block s1) (G v) < nsat applied (memory_block s) (G v))%nat by lia.
    apply nsat_take; [done| |done]. unfold sat. unfold holds in Hp. rewrite Hp.
    by apply andb_true_iff in HP as [_ HP]. }
  intros _ s2 [(L2 & G2 & Hinv2 & Hfr2 & HG2 & Hsub & Hk2 & Hap) HLG]. split; [|done].
  exists L2, G2. split_and!; try done.
  intros x k q Hvx Hk Hn Hq. apply (Hk2 x k); [done..|]. apply unapplied_holds; [|done]. by intros ->.
Qed.

(** ** Applying the page table *)

(** [s'] differs from [s] only in [applied] flags set and the hardware. *)
Definition applies (s s' : adapter) : Prop :=
  framed s s' /\ lnk s' = lnk s /\
  forall k q, holds (memory_block s) k q ->
    exists a, (applied q = true -> a = true) /\ holds (memory_block s') k (q <| applied := a |>).

Lemma applies_refl s : applies s s.
Proof.
  split_and!; [apply framed_refl|done|]. intros k q Hq. exists (applied q). by rewrite set_applied_id.
Qed.

Lemma applies_trans s1 s2 s3 : applies s1 s2 -> applies s2 s3 -> applies s1 s3.
Proof.
  intros (F1 & L1 & H1) (F2 & L2 & H2). split_and!; [by eapply framed_trans|congruence|].
  intros k q Hq. destruct (H1 k q Hq) as (a & Ha & Hq1). destruct (H2 k _ Hq1) as (b & Hb & Hq2).
  exists b. split; [auto|]. exact Hq2.
Qed.

(** All blocks of [l] that belong in the hardware table are in it. *)
Definition all_applied (s : adapter) (l : list nat) : Prop :=
  forall i q, i ∈ l -> holds (memory_block s) i q -> is_vf_or_tmr q = true -> applied q = true.

Lemma all_applied_mono s s' X L G l :
  invX X s L G -> applies s s' -> (forall i, i ∈ l -> exists p, holds (memory_block s) i p) ->
  all_applied s l -> all_applied s' l.
Proof.
  intros Hinv (_ & _ & H) Hl Ha i q Hi Hq Ht. destruct (Hl i Hi) as [p Hp].
  destruct (H i p Hp) as (a & Himp & Hq'). pose proof (holds_inj _ _ _ _ Hq Hq') as ->. cbn.
  apply Himp. by apply (Ha i p).
Qed.

Lemma wp_apply_each (Hok : FfbmHwOk HW) L G head l : forall fuel s a (ret : Z),
  is_head head -> inv s L G -> chain (lnk s) a (kind_of head <$> l) head ->
  (forall i, i ∈ l -> exists p, holds (memory_block s) i p /\ extent (total_physical_size s) p) -> (length l <= fuel)%nat ->
  wp (next_of a ≫= fun n => apply_each fuel head n ret)
     (fun r s' => inv s' L G /\ applies s s' /\ (hw_up -> all_applied s' l /\ (ret = 0 -> r = 0))) s.
Proof.
  induction l as [|i l IH]; intros fuel s a ret Hh Hinv Hc Hl Hf.
  - destruct Hc as [Hn _]. apply wp_bind. eapply wp_next; [exact Hn|].
    destruct fuel; cbn; rewrite decide_True by done; apply wp_ret;
      (split; [done|]; split; [apply applies_refl|]; intros _; split; [|done]; intros ? ? Hin; set_solver).
  - destruct Hc as (Hn & _ & Hc). apply wp_bind. eapply wp_next; [exact Hn|].
    cbn in Hf. destruct fuel as [|fuel]; [lia|]. cbn [apply_each]. rewrite decide_False by (by apply kind_ne).
    destruct (Hl i) as (p & Hp & Hpx); [set_solver|].
    apply wp_bind, entry_kind_of, wp_bind. eapply wp_holds; [exact Hp|]. apply wp_bind.
    assert (Hrest : forall s1 r1 p1, inv s1 L G -> applies s s1 -> holds (memory_block s1) i p1 ->
      (hw_up -> (is_vf_or_tmr p1 = true -> applied p1 = true) /\ (ret = 0 -> r1 = 0)) ->
      wp (n ← next_of (kind_of head i); apply_each fuel head n r1)
         (fun r s' => inv s' L G /\ applies s s' /\ (hw_up -> all_applied s' (i :: l) /\ (ret = 0 -> r = 0))) s1).
    { intros s1 r1 p1 Hinv1 Hap1 Hp1 Hup1.
      assert (Hl1 : forall k, k ∈ l -> exists q, holds (memory_block s1) k q /\ extent (total_physical_size s1) q).
      { intros k Hk. destruct (Hl k) as (q & Hq & Hx); [set_solver|]. destruct Hap1 as (Hfr & _ & Hap1).
        destruct (Hap1 k q Hq) as (b & _ & ?). exists (q <| applied := b |>). split; [done|].
        rewrite Hfr. exact Hx. }
      eapply wp_mono; [apply (IH fuel s1 _ r1 Hh Hinv1); [by destruct Hap1 as (_ & -> & _)|done|lia]|].
      intros r s2 (Hinv2 & Hap2 & Hup2). split_and!; [done|by eapply applies_trans|].
      intros Hup. destruct (Hup2 Hup) as [Hall Hr]. destruct (Hup1 Hup) as [Hi1 Hr1]. split; [|auto].
      intros k q Hk Hq Ht. apply elem_of_cons in Hk as [->|Hk]; [|by apply (Hall k)].
      assert (Hone : all_applied s1 [i]).
      { intros k' q' Hk' Hq' Ht'. apply list_elem_of_singleton in Hk' as ->.
        pose proof (holds_inj _ _ _ _ Hp1 Hq') as <-. auto. }
      assert (Hone2 : all_applied s2 [i]).
      { apply (all_applied_mono s1 s2 [] L G [i] Hinv1 Hap2); [|exact Hone].
        intros k' ->%list_elem_of_singleton. eauto. }
      apply (Hone2 i q); [set_solver|done..]. }
    destruct (is_vf_or_tmr p && negb (applied p)) eqn:Ec.
    + apply andb_true_iff in Ec as [Et Ena]. unfold call_apply_pteb. apply wp_bind. eapply wp_holds; [exact Hp|].
      apply wp_bind, wp_gets, wp_bind, wp_gets. destruct (apply_pteb _ _ _ _) as [[r ap] w] eqn:Eap.
      apply wp_bind, wp_modify, wp_bind. eapply (wp_upd i _ p true); [exact Hp|]. apply wp_ret.
      change (wp (n ← next_of (kind_of head i); apply_each fuel head n r)
         (fun r s' => inv s' L G /\ applies s s' /\ (hw_up -> all_applied s' (i :: l) /\ (ret = 0 -> r = 0)))
         (unapplied s i p ap w)).
      pose proof (apply_pteb_flag _ _ _ _ _ _ _ Eap) as Hflag.
      apply (Hrest _ _ (p <| applied := ap |>)); [by apply unapplied_inv| | |].
      * split_and!; [apply unapplied_framed|done|]. intros k q Hq. destruct (decide (k = i)) as [->|Hne].
        -- pose proof (holds_inj _ _ _ _ Hp Hq) as <-. exists ap. split.
           ++ intros E. rewrite E in Ena. done.
           ++ apply holds_insert_eq; [by eapply holds_lt|done].
        -- exists (applied q). split; [done|]. rewrite set_applied_id. by apply unapplied_holds.
      * apply holds_insert_eq; [by eapply holds_lt|done].
      * intros Hup. pose proof (Hup (default_fragment s) p true (hw s) (total_physical_size s)) as Hr.
        rewrite Eap in Hr. cbn in Hr. specialize (Hr (w_df (inv_wf _ _ _ _ Hinv)) ltac:(apply (w_tot (inv_wf _ _ _ _ Hinv))) Hpx).
        subst r. cbn in Hflag. by subst ap.
    + apply wp_ret. apply (Hrest s ret p Hinv (applies_refl s) Hp). intros _. split; [|done].
      intros Et. rewrite Et in Ec. by apply negb_false_iff in Ec.
Qed.

Lemma wp_apply_vfs (Hok : FfbmHwOk HW) L G n : forall s v (ret : Z),
  inv s L G -> 0 <= v -> v + Z.of_nat n <= AMDGV_MAX_VF_SLOT ->
  wp (apply_vfs n v ret)
     (fun r s' => inv s' L G /\ applies s s' /\
        (hw_up -> (forall w, v <= w < v + Z.of_nat n -> all_applied s' (G w)) /\ (ret = 0 -> r = 0))) s.
Proof.
  induction n as [|n IH]; intros s v ret Hinv Hv Hn; cbn [apply_vfs].
  - apply wp_ret. split; [done|]. split; [apply applies_refl|]. intros _. split; [|done]. intros w Hw. lia.
  - assert (Hvf : vfid v) by (unfold vfid; lia). pose proof (inv_wf _ _ _ _ Hinv) as Hw.
    apply wp_bind, wp_gpa_list; [done|by destruct Hinv|]. apply wp_assoc, wp_bind.
    eapply wp_mono; [apply (wp_apply_each Hok L G (GpaHead v) (G v)); [done|done|apply (w_gpa Hw v Hvf)| |]|].
    { intros i Hi. destruct (inv_G_blocks _ _ _ _ _ _ Hinv Hvf Hi) as [q Hq]. exists q. split; [done|]. by eapply G_extent. }
    { pose proof (wf_len_G _ _ _ _ _ _ _ _ _ Hw Hvf). unfold FFBM_FUEL. lia. }
    intros r s1 (Hinv1 & Hap1 & Hup1).
    eapply wp_mono; [apply (IH s1 (v + 1) r Hinv1); lia|].
    intros r2 s2 (Hinv2 & Hap2 & Hup2). split; [done|]. split; [by eapply applies_trans|]. intros Hup.
    destruct (Hup1 Hup) as [H1 H1r]. destruct (Hup2 Hup) as [H2 H2r]. split; [|auto].
    intros w Hwr. destruct (decide (w = v)) as [->|Hne]; [|apply H2; lia].
    eapply all_applied_mono; [exact Hinv1|exact Hap2| |exact H1]. intros i. by eapply inv_G_blocks.
Qed.

(** Applying the page table returns, keeps every block's data, and, when the
    hardware answers, leaves nothing unapplied. *)
Lemma wp_apply_page_table (Hok : FfbmHwOk HW) s L G :
  inv s L G ->
  wp amdgv_ffbm_apply_page_table
     (fun r s' => inv s' L G /\ applies s s' /\
        (hw_up -> enabled s = true -> r = 0 /\ all_applied s' L /\
           forall w, 0 <= w < num_vf s -> all_applied s' (G w))) s.
Proof.
  intros Hinv. pose proof (inv_wf _ _ _ _ Hinv) as Hw. unfold amdgv_ffbm_apply_page_table.
  apply wp_bind, wp_gets. destruct (enabled s) eqn:Een; cbn [negb].
  2: { apply wp_ret. split; [done|]. split; [apply applies_refl|]. done. }
  apply wp_assoc, wp_bind.
  eapply wp_mono; [apply (wp_apply_each Hok L G SpaHead L); [done|done|apply (w_spa Hw)| |]|].
  { intros i. by eapply L_extent. }
  { pose proof (wf_len _ _ _ _ _ _ _ _ Hw). unfold FFBM_FUEL. lia. }
  intros r s1 (Hinv1 & Hap1 & Hup1). apply wp_bind, wp_gets.
  assert (En : num_vf s1 = num_vf s) by (destruct Hap1 as (-> & _); done).
  pose proof (inv_num _ _ _ _ Hinv) as Hnum. rewrite En.
  eapply wp_mono; [apply (wp_apply_vfs Hok L G _ s1 0 r Hinv1); lia|].
  intros r2 s2 (Hinv2 & Hap2 & Hup2). split; [done|]. split; [by eapply applies_trans|]. intros Hup _.
  destruct (Hup1 Hup) as [H1 H1r]. destruct (Hup2 Hup) as [H2 H2r]. split_and!; [auto| |].
  - eapply all_applied_mono; [exact Hinv1|exact Hap2| |exact H1]. intros i. by eapply inv_blocks.
  - intros w Hwr. apply H2. lia.
Qed.

(** ** The TMR block of a VF *)

Lemma tmr_found s L G (P := fun p => AMDGV_FFBM_ADDR_IN_RANGE (spa p) (size p) TMR_START) (Q : option nat -> adapter -> Prop) :
  inv s L G ->
  (forall i p, i ∈ L -> holds (memory_block s) i p -> type p = MEM_TYPE_TMR -> spa p = TMR_START ->
     size p = MBYTES_TO_BYTES (tmr_size s) -> Q (Some i) s) ->
  wp (find_entry SpaHead P) Q s.
Proof.
  intros Hinv HQ. pose proof (inv_wf _ _ _ _ Hinv) as Hw. pose proof (w_tot Hw) as Htot.
  destruct (w_tmr Hw) as (i & p & Hi & Hp & Ht & Es & Ez).
  destruct (wf_in_L Hw i Hi) as (p' & Hp' & ? & ? & ?). pose proof (holds_inj _ _ _ _ Hp Hp') as <-.
  assert (Hrange : forall k q, k ∈ L -> holds (memory_block s) k q ->
    P q = true <-> spa q <= TMR_START < spa q + size q).
  { intros k q Hk Hq. destruct (wf_in_L Hw k Hk) as (q' & Hq' & ? & ? & ?).
    pose proof (holds_inj _ _ _ _ Hq Hq') as <-. unfold P, AMDGV_FFBM_ADDR_IN_RANGE.
    rewrite wrap_id by (unfold in_width; lia). rewrite andb_true_iff, Z.leb_le, Z.ltb_lt. done. }
  eapply wp_find_spa; [exact Hinv| |].
  - intros Hno. specialize (Hno i p Hi Hp). apply not_true_iff_false in Hno. destruct Hno.
    apply (Hrange i p Hi Hp). lia.
  - intros us k vs q E Hq HP _. assert (Hk : k ∈ L) by (rewrite E; set_solver).
    apply (Hrange k q Hk Hq) in HP. destruct (decide (k = i)) as [->|Hne].
    + pose proof (holds_inj _ _ _ _ Hp Hq) as <-. by apply (HQ i p).
    + exfalso. pose proof (w_tiles Hw) as Htl. rewrite E in Htl.
      apply (tiles_disjoint _ _ _ _ _ _ i q p TMR_START Htl Hq); [rewrite E in Hi; set_solver|done|done|lia].
Qed.

(** Giving the VF its own block over the TMR region. *)
Lemma wp_map_tmr s L G v perm (Q : Z -> adapter -> Prop) :
  inv s L G -> vfid v -> v <> AMDGV_PF_IDX -> ~ pool_full s ->
  (forall r s' l, inv s' L (set_G G v l) -> framed s s' -> keeps G [] s s' ->
     (forall k, k ∈ G v -> k ∈ l) -> Q r s') ->
  wp (amdgv_ffbm_manual_map v (MBYTES_TO_BYTES (tmr_size s)) TMR_START TMR_START perm MEM_TYPE_TMR) Q s.
Proof.
  intros Hinv Hv Hpf Hnf HQ. pose proof (inv_wf _ _ _ _ Hinv) as Hw. pose proof (w_tot Hw) as Htot.
  assert (Hsame : forall r, Q r s).
  { intros r. apply (HQ r s (G v)); [|apply framed_refl|by intros ? ? ?|done].
    destruct Hinv as [_ ? ?]. split; [|done..]. apply (wf_ext Hw).
    intros w. unfold set_G. by destruct (decide (w = v)) as [->|]. }
  unfold amdgv_ffbm_manual_map. apply wp_bind, wp_gets.
  destruct (negb _); [apply wp_ret, Hsame|]. rewrite (bool_decide_eq_false_2 (MEM_TYPE_TMR = MEM_TYPE_VF)) by done.
  apply wp_bind, wp_ret. cbn [negb]. apply wp_bind. eapply tmr_found; [exact Hinv|].
  intros i p Hi Hp Ht Es Ez. destruct (wf_in_L Hw i Hi) as (p' & Hp' & ? & ? & ?).
  pose proof (holds_inj _ _ _ _ Hp Hp') as <-.
  apply wp_bind. eapply wp_holds; [exact Hp|].
  unfold AMDGV_FFBM_ADDR_SIZE_IN_RANGE, AMDGV_FFBM_ADDR_IN_RANGE, AMDGV_FFBM_TMR_ADDR_VALID.
  rewrite (bool_decide_eq_true_2 (MEM_TYPE_TMR = MEM_TYPE_TMR)) by done. rewrite andb_false_r. cbn [orb].
  rewrite Es, Ez in *. rewrite !wrap_id by (unfold in_width; lia).
  assert ((TMR_START <=? TMR_START) && (TMR_START <? TMR_START + MBYTES_TO_BYTES (tmr_size s)) &&
    ((TMR_START <=? TMR_START + MBYTES_TO_BYTES (tmr_size s) - 1) &&
     (TMR_START + MBYTES_TO_BYTES (tmr_size s) - 1 <? TMR_START + MBYTES_TO_BYTES (tmr_size s))) = true) as ->.
  { rewrite !andb_true_iff, !Z.leb_le, !Z.ltb_lt. lia. }
  cbn [negb]. apply wp_bind, wp_gets. unfold is_type. rewrite (bool_decide_eq_true_2 (type p = MEM_TYPE_TMR)) by done.
  unfold TMR_START. rewrite !Z.eqb_refl. cbn [andb negb].
  apply wp_bind, wp_bind. unfold amdgv_ffbm_create_new_pteb. apply wp_bind, wp_alloc; [by intros ?%Hnf|].
  intros j b Hb Hu. pose proof (unused_fresh Hw j b Hb Hu) as [HjL HjG].
  assert (i <> j) by (intros ->; by apply HjL).
  apply wp_bind. eapply wp_holds; [apply (holds_insert_ne _ i j p); [done|exact Hp]|].
  apply wp_bind. eapply wp_pteb_init; [exact Hb|]. apply wp_ret, wp_ret, wp_ret.
  set (q := mk_pteb _ _ _ _ _ _ _ _).
  set (s1 := s <| memory_block := _ |> <| lnk := _ |>).
  assert (Hinv1 : inv s1 L G). { destruct Hinv as [_ ? ?]. split; [|done..]. cbn. by eapply wf_alloc. }
  assert (Hq1 : holds (memory_block s1) j q) by (apply holds_insert_eq; [by eapply lookup_lt_Some|done]).
  apply wp_bind. eapply wp_holds; [exact Hq1|]. apply wp_bind, wp_when.
  2: { intros Hc. unfold is_type in Hc. cbn in Hc. by destruct (Z.eqb_spec v AMDGV_PF_IDX). }
  intros _. assert (Hself : s1 <| memory_block := <[j := mk_mb q true]> (memory_block s1) |> = s1).
  { rewrite list_insert_id by exact Hq1. done. }
  rewrite <- Hself. apply (wp_insert_new [] s1 L G v j q q); [done|done|set_solver|done|done| |].
  { split; [done|]. split; [vm_compute; done|]. by right. }
  intros h' us vs E. rewrite Hself. intros Hinv2. apply wp_ret.
  apply (HQ 0 _ _ Hinv2); [by destruct s| |rewrite E; set_solver].
  intros w k r Hvw Hk _ Hr. cbn. apply holds_insert_ne; [|done]. intros ->. by apply (HjG w).
Qed.

(** ** Whole operations *)

(** The configuration of a VF as the page-table update reads it. *)
Definition vf_cfg (s : adapter) (v : Z) : Prop :=
  forall e, array_vf s !! Z.to_nat v = Some e -> AMDGV_FFBM_FB_TMR_OFFSET <= fb_size e < 2 ^ 32.

Lemma tmr_mb_bound s : 0 <= tmr_size s < 2 ^ 32 ->
  MBYTES_TO_BYTES (AMDGV_FFBM_FB_TMR_OFFSET + tmr_size s) = (2 + tmr_size s) * 1048576.
Proof. intros. apply MBYTES_TO_BYTES_small. unfold AMDGV_FFBM_FB_TMR_OFFSET. lia. Qed.

Lemma wp_map s L G v g sz perm (Q : Z -> adapter -> Prop) :
  inv s L G -> vfid v -> 0 <= g -> 0 <= sz -> g + sz < 2 ^ 62 ->
  Q AMDGV_FFBM_ERROR_BAD_ADDR s ->
  (forall r s', map_post s L G v g sz perm r s' -> Q r s') ->
  wp (amdgv_ffbm_map v g sz perm MEM_TYPE_VF) Q s.
Proof.
  intros Hinv Hv Hg Hsz Hsum Hbad HQ. unfold amdgv_ffbm_map. apply wp_bind, wp_gets.
  destruct (sz <? _); [by apply wp_ret|]. destruct (_ && _ && _); [by apply wp_ret|].
  rewrite (bool_decide_eq_true_2 (MEM_TYPE_VF = MEM_TYPE_VF)) by done. cbn [negb].
  eapply wp_mono; [apply (wp_map_loop FFBM_FUEL s L G v g sz perm); [done|done|done|lia|lia|]|exact HQ].
  pose proof (nsat_le (is_type MEM_TYPE_NOT_ASSIGNED) (memory_block s) L).
  pose proof (wf_len _ _ _ _ _ _ _ _ (inv_wf _ _ _ _ Hinv)). unfold FFBM_FUEL. lia.
Qed.

(** What an operation on VF [v] leaves of the others. *)
Definition others (s : adapter) (G : Z -> list nat) (v : Z) (s' : adapter) : Prop :=
  exists L' G', inv s' L' G' /\ framed s s' /\ forall w, w <> v -> G' w = G w.

Lemma map_post_others s L G v g sz perm r s' : map_post s L G v g sz perm r s' -> others s G v s'.
Proof. intros (L' & G' & new & e & ? & ? & ? & _). by exists L', G'. Qed.

Lemma others_trans s1 s2 s3 (G : Z -> list nat) v :
  others s1 G v s2 -> (forall L' G', inv s2 L' G' -> (forall w, w <> v -> G' w = G w) -> others s2 G' v s3) ->
  others s1 G v s3.
Proof.
  intros (L2 & G2 & Hi2 & Hf2 & HG2) H. destruct (H L2 G2 Hi2 HG2) as (L3 & G3 & Hi3 & Hf3 & HG3).
  exists L3, G3. split_and!; [done|by eapply framed_trans|]. intros w Hne. by rewrite HG3, HG2.
Qed.

Lemma others_refl s L G v : inv s L G -> others s G v s.
Proof. intros. exists L, G. split_and!; [done|apply framed_refl|done]. Qed.

Lemma wp_map_others s L G v g sz perm :
  inv s L G -> vfid v -> 0 <= g -> 0 <= sz -> g + sz < 2 ^ 62 ->
  wp (amdgv_ffbm_map v g sz perm MEM_TYPE_VF) (fun _ => others s G v) s.
Proof.
  intros Hinv Hv ? ? ?. eapply wp_map; [done..|by eapply others_refl|]. intros r s'.
  apply map_post_others.
Qed.

Lemma wp_update_vf (Hok : FfbmHwOk HW) s L G v :
  inv s L G -> vfid v -> v <> AMDGV_PF_IDX -> ~ pool_full s -> vf_cfg s v -> 0 <= tmr_size s < 2 ^ 32 ->
  wp (amdgv_ffbm_page_table_update_by_fcn v) (fun _ => others s G v) s.
Proof.
  intros Hinv Hv Hpf Hnf Hcfg Htmr. unfold amdgv_ffbm_page_table_update_by_fcn.
  apply wp_bind, wp_gets. destruct (enabled s); cbn [negb]; [|apply wp_ret; by eapply others_refl].
  apply wp_bind. unfold wp at 1, vf_entry. destruct (Z.ltb_spec v 0); [destruct Hv; lia|].
  destruct (lookup_lt_is_Some_2 (array_vf s) (Z.to_nat v)) as [e Ee].
  { rewrite (inv_vfs _ _ _ _ Hinv). destruct Hv. lia. }
  rewrite Ee. specialize (Hcfg e Ee). apply wp_bind, wp_gets.
  destruct (Z.eqb_spec v AMDGV_PF_IDX); [done|]. apply wp_bind, wp_gets, wp_bind.
  rewrite tmr_mb_bound by done. unfold AMDGV_FFBM_FB_TMR_OFFSET in Hcfg.
  assert (Esz : MBYTES_TO_BYTES (fb_size e - AMDGV_FFBM_FB_TMR_OFFSET) = (fb_size e - 2) * 1048576)
    by (apply MBYTES_TO_BYTES_small; unfold AMDGV_FFBM_FB_TMR_OFFSET; lia).
  enough (wp (if 0 <? (if share_tmr s then fb_size_tmr e else fb_size e)
     then
      amdgv_ffbm_manual_map v (MBYTES_TO_BYTES (tmr_size s)) (MBYTES_TO_BYTES AMDGV_FFBM_FB_TMR_OFFSET)
        (MBYTES_TO_BYTES AMDGV_FFBM_FB_TMR_OFFSET) AMDGV_FFBM_PERM_RW MEM_TYPE_TMR
      ≫= λ _ : Z,
           amdgv_ffbm_map v 0 (MBYTES_TO_BYTES AMDGV_FFBM_FB_TMR_OFFSET) AMDGV_FFBM_PERM_RW MEM_TYPE_VF
           ≫= λ _ : Z,
                amdgv_ffbm_map v ((2 + tmr_size s) * 1048576)
                  (MBYTES_TO_BYTES (fb_size e - AMDGV_FFBM_FB_TMR_OFFSET)) AMDGV_FFBM_PERM_RW
                  MEM_TYPE_VF
     else mret 0) (fun _ => others s G v) s) as HE.
  { eapply wp_mono; [exact HE|]. intros ret s1 Hs1. apply wp_bind.
    destruct Hs1 as (L1 & G1 & Hinv1 & Hfr1 & HG1).
    eapply wp_mono; [by eapply wp_apply_page_table|]. intros r s2 (Hinv2 & (Hfr2 & _) & _). apply wp_ret.
    exists L1, G1. split_and!; [done|by eapply framed_trans|done]. }
  destruct (0 <? _); [|apply wp_ret; by eapply others_refl].
  apply wp_bind. apply (wp_map_tmr s L G v); [done..|]. intros _ s1 l Hinv1 Hfr1 _ _.
  assert (Ho1 : others s G v s1).
  { exists L, (set_G G v l). split_and!; [done|done|]. intros w Hne. by apply set_G_ne. }
  apply wp_bind. eapply wp_mono; [eapply (wp_map_others s1 L _ v); [exact Hinv1|done|lia|vm_compute; done|vm_compute; done]|].
  intros ? s2 (L2 & G2 & Hinv2 & Hfr2 & HG2).
  eapply wp_mono; [eapply (wp_map_others s2 L2 G2 v); [exact Hinv2|done|lia|lia|lia]|].
  intros _ s3 (L3 & G3 & Hinv3 & Hfr3 & HG3). exists L3, G3. split_and!; [done| |].
  - eapply framed_trans; [exact Hfr1|]. by eapply framed_trans.
  - intros w Hne. by rewrite HG3, HG2, set_G_ne.
Qed.

Lemma wp_unmap_by_fcn (Hok : FfbmHwOk HW) s L G v (Q : unit -> adapter -> Prop) :
  inv s L G -> vfid v ->
  (enabled s = false -> Q tt s) -> (forall s', unmap_post s G v s' -> Q tt s') ->
  wp (amdgv_ffbm_unmap_by_fcn v false) Q s.
Proof.
  intros Hinv Hv H0 H1. unfold amdgv_ffbm_unmap_by_fcn, amdgv_ffbm_unmap_by_fcn_fuel.
  apply wp_bind, wp_gets. destruct (enabled s); cbn [negb]; [|by apply wp_ret, H0].
  apply wp_bind, wp_gpa_list; [done|by destruct Hinv|].
  eapply wp_mono; [apply (wp_unmap_loop Hok FFBM_FUEL s L G v Hinv Hv)|intros [] s'; apply H1].
  pose proof (wf_len_G _ _ _ _ _ _ _ _ _ (inv_wf _ _ _ _ Hinv) Hv). unfold FFBM_FUEL. lia.
Qed.

Lemma wp_reserve_by_fcn (Hok : FfbmHwOk HW) (Hup : hw_up) s L G v (Q : unit -> adapter -> Prop) :
  inv s L G -> vfid v ->
  (enabled s = false -> Q tt s) -> (forall s', unmap_post s G v s' -> inv s' L G -> Q tt s') ->
  wp (amdgv_ffbm_unmap_by_fcn v true) Q s.
Proof.
  intros Hinv Hv H0 H1. unfold amdgv_ffbm_unmap_by_fcn, amdgv_ffbm_unmap_by_fcn_fuel.
  apply wp_bind, wp_gets. destruct (enabled s); cbn [negb]; [|by apply wp_ret, H0].
  apply wp_bind, wp_gpa_list; [done|by destruct Hinv|].
  eapply wp_mono; [apply (wp_reserve_loop Hok Hup FFBM_FUEL s L G v Hinv Hv)|intros [] s' []; by apply H1].
  pose proof (wf_len_G _ _ _ _ _ _ _ _ _ (inv_wf _ _ _ _ Hinv) Hv).
  pose proof (nsat_le applied (memory_block s) (G v)). unfold FFBM_FUEL. lia.
Qed.

(** ** Translation *)

(** The block a guest address of VF [v] lies in, and where it leads. *)
Lemma wp_gpa_to_spa s L G g v (Q : Z -> adapter -> Prop) :
  inv s L G -> vfid v -> 0 <= g ->
  Q AMDGV_FFBM_INVALID_ADDR s ->
  (forall i p, i ∈ G v -> holds (memory_block s) i p -> gpa p <= g < gpa p + size p ->
     spa p <= spa p + (g - gpa p) < spa p + size p -> spa p + size p <= total_physical_size s ->
     Q (spa p + (g - gpa p)) s) ->
  wp (amdgv_ffbm_gpa_to_spa g v) Q s.
Proof.
  intros Hinv Hv Hg H0 H1. pose proof (inv_wf _ _ _ _ Hinv) as Hw. pose proof (w_tot Hw) as Htot.
  unfold amdgv_ffbm_gpa_to_spa, amdgv_ffbm_find_pteb_by_ffbm.
  apply wp_bind, wp_bind, wp_gpa_list; [done|by destruct Hinv|].
  eapply wp_find_gpa; [exact Hinv|done|intros _; by apply wp_ret|].
  intros us i vs p E Hp HP _. assert (Hi : i ∈ G v) by (rewrite E; set_solver).
  pose proof (G_extent s L G v i p Hinv Hv Hi Hp) as Hext.
  destruct Hext as (Hx1 & Hx2 & Hx3).
  unfold AMDGV_FFBM_ADDR_IN_RANGE in HP. apply andb_true_iff in HP as [HP1 HP2]. zb.
  pose proof (w_pos Hw v i p Hv Hi Hp).
  assert (u64 (gpa p + size p) <= gpa p + size p) by (apply Z.mod_le; lia).
  apply wp_bind. eapply wp_holds; [exact Hp|]. apply wp_ret.
  rewrite wrap_id by (unfold in_width; lia). apply (H1 i p); [done|done|lia|lia|lia].
Qed.
End run.
Abbreviation inv := (invX []).
