(* ===== verification/FfbmBoot.v ===== *)
(** * Concrete page tables

    A small device brought up with the Navi 32 back end: the initial page
    table, the state after two VFs received their frame buffer, and proofs, by
    evaluation, that the invariant holds there. *)
From S2P Require Import Prelude Api Dlist Ffbm NaviFfbm FfbmInv FfbmRun.
Import Dlist Ffbm NaviFfbm.
#[local] Open Scope Z_scope.

(** Hardware that always answers, and hardware that never does. *)
Definition answering : NaviEnv := {| wait_ok := fun _ => true; gfx_locks := 1 |}.
Definition silent : NaviEnv := {| wait_ok := fun _ => false; gfx_locks := 1 |}.
Abbreviation hw_on := (@navi32_hw answering).
Abbreviation hw_off := (@navi32_hw silent).

(** 256 MB of frame buffer of which 240 MB are usable, two reserved pages, a
    4 MB TMR, and two VFs; [fragment] 9 is the 2 MB page of the ASIC. *)
Definition device (H : FfbmHw) (h : @hw_state H) (fragment : Z) : @adapter H :=
  @mk_adapter H [] (mk_links ∅ ∅) 0 0 0 false fragment 2 true 4 2 16 false
    (mk_vf 0 30 30 :: mk_vf 0 40 40 :: replicate 29 (mk_vf 0 0 0) ++ [mk_vf 0 32 32])
    256 240 (4 * 1048576) 0 (fun _ => 0) [] h.

Definition ret_state {H : FfbmHw} {A} (o : outcome (A * @adapter H)) (d : @adapter H) : @adapter H :=
  match o with Ret (_, s) => s | Fault => d end.

Definition boot {H : FfbmHw} : M (@adapter H) Z :=
  _ ← amdgv_ffbm_sw_init;
  _ ← amdgv_ffbm_page_table_init;
  amdgv_ffbm_page_table_update_by_fcn AMDGV_PF_IDX.

Definition two_vfs {H : FfbmHw} : M (@adapter H) Z :=
  _ ← boot;
  _ ← amdgv_ffbm_page_table_update_by_fcn 0;
  amdgv_ffbm_page_table_update_by_fcn 1.

Definition dev_on : @adapter hw_on := device hw_on (mk_navi [] 0 0) 9.
Definition s_boot : @adapter hw_on := Eval vm_compute in ret_state (boot dev_on) dev_on.
Definition s_two : @adapter hw_on := Eval vm_compute in ret_state (two_vfs dev_on) dev_on.

Definition L_boot : list nat := [0; 4; 5; 6; 3; 2; 1]%nat.
Definition L_two : list nat := [0; 4; 5; 6; 8; 9; 11; 12; 3; 2; 1]%nat.
Definition G_two : list (list nat) := [[8; 7; 6]; [11; 10; 9]]%nat.

(** The physical layout, for reading: start and size in MB, type, owner. *)
Definition layout {H : FfbmHw} (s : @adapter H) (L : list nat) : list (Z * Z * amdgv_ffbm_mem_type * Z) :=
  L ≫= fun i => match memory_block s !! i with
                | Some b => let p := pteb_of b in [(spa p / 1048576, size p / 1048576, type p, vf_idx p)]
                | None => []
                end.

Example layout_boot : layout s_boot L_boot =
  [(0, 2, MEM_TYPE_PF, 31); (2, 4, MEM_TYPE_TMR, 31); (6, 26, MEM_TYPE_PF, 31);
   (32, 204, MEM_TYPE_NOT_ASSIGNED, 17); (236, 2, MEM_TYPE_RESERVED, 17);
   (238, 2, MEM_TYPE_RESERVED, 17); (240, 16, MEM_TYPE_PF, 17)].
Proof. vm_compute. reflexivity. Qed.

Lemma inv_boot : @invX hw_on [] s_boot L_boot (G_of []).
Proof. split; [apply wf_b_sound; vm_compute; reflexivity|vm_compute; reflexivity|vm_compute; split; congruence]. Qed.

Lemma inv_two : @invX hw_on [] s_two L_two (G_of G_two).
Proof. split; [apply wf_b_sound; vm_compute; reflexivity|vm_compute; reflexivity|vm_compute; split; congruence]. Qed.

(** The interface hypotheses of the theorems hold for these back ends. *)
Lemma navi_up : @hw_up hw_on.
Proof.
  intros df p valid h tot Hdf Htot (Hs & Hz & He). pose proof (page_size_bounds df Hdf).
  apply apply_pteb_answers; [done|lia|lia|lia|lia].
Qed.

Lemma navi_down : @hw_down hw_off.
Proof. intros df p valid h. cbn [apply_pteb navi32_hw]. by rewrite apply_pteb_silent. Qed.

(** The same device on hardware that stopped answering after VF 0 was mapped
    and marked as applied. *)
Definition dev_off : @adapter hw_off := device hw_off (mk_navi [] 0 0) 9.
Definition stale : M (@adapter hw_off) Z :=
  _ ← two_vfs;
  _ ← upd_pteb 8 (fun p => p <| applied := true |>);
  mret 0.
Definition s_stale : @adapter hw_off := Eval vm_compute in ret_state (stale dev_off) dev_off.

Lemma inv_stale : @invX hw_off [] s_stale L_two (G_of G_two).
Proof. split; [apply wf_b_sound; vm_compute; reflexivity|vm_compute; reflexivity|vm_compute; split; congruence]. Qed.
