(* ===== verification/FfbmSort.v ===== *)
(** * The bubble sort of the mapping list

    [amdgv_get_vf_fb_mapping_list] sorts its entries in place; here the array
    passes are shown to sort, whatever the order the list walk produced. *)
From S2P Require Import Prelude Api Dlist Ffbm NaviFfbm FfbmInv FfbmRun FfbmBoot.
From Stdlib Require Import Sorted.
Import Dlist Ffbm NaviFfbm.
#[local] Open Scope Z_scope.
#[local] Set Warnings "-clear-no-such-hyp".

Definition gpa_le (x y : ffbm_map_entry) : Prop := e_gpa x <= e_gpa y.

(** One pass on the list from its first element on: [x] is carried along. *)
Fixpoint bp (n : nat) (x : ffbm_map_entry) (l : list ffbm_map_entry) : list ffbm_map_entry * bool :=
  match n, l with
  | S n', y :: l' =>
      if e_gpa y <? e_gpa x then (y :: (bp n' x l').1, true)
      else (x :: (bp n' y l').1, (bp n' y l').2)
  | _, _ => (x :: l, false)
  end.

Lemma insert_app_at {A} (pre : list A) (z : A) (l : list A) (x : A) j :
  j = length pre -> <[j := x]> (pre ++ z :: l) = pre ++ x :: l.
Proof. intros ->. rewrite insert_app_r_alt by lia. by rewrite Nat.sub_diag. Qed.

Lemma lookup_app_at {A} (pre : list A) (z : A) (l : list A) j :
  j = length pre -> (pre ++ z :: l) !! j = Some z.
Proof. intros ->. rewrite lookup_app_r by lia. by rewrite Nat.sub_diag. Qed.

Lemma bubble_pass_bp n : forall j pre x l sw, length pre = j -> (n <= length l)%nat ->
  bubble_pass n j (pre ++ x :: l) sw = (pre ++ (bp n x l).1, sw || (bp n x l).2).
Proof.
  induction n as [|n IH]; intros j pre x l sw Hj Hn; cbn; [by rewrite orb_false_r|].
  destruct l as [|y l]; cbn in Hn; [lia|].
  rewrite lookup_app_at by done.
  assert (Hsnoc : forall a r, pre ++ a :: r = (pre ++ [a]) ++ r) by (intros; by rewrite <- app_assoc).
  assert (Hl : length (pre ++ [x]) = S j) by (rewrite length_app; cbn; lia).
  rewrite (Hsnoc x (y :: l)), (lookup_app_at (pre ++ [x])) by lia.
  destruct (e_gpa y <? e_gpa x).
  - rewrite insert_app_at by lia. rewrite <- (Hsnoc x (x :: l)), insert_app_at by lia.
    rewrite (Hsnoc y (x :: l)), IH; [|rewrite length_app; cbn; lia|lia]. cbn.
    rewrite <- app_assoc. by rewrite orb_true_r.
  - rewrite IH by (done || lia). cbn. by rewrite <- app_assoc.
Qed.

(** The pass moves a largest element of the first [n + 1] to their end. *)
Lemma bp_spec n : forall x l, (n <= length l)%nat -> exists us m,
  (bp n x l).1 = us ++ m :: drop n l /\ length us = n /\
  us ++ [m] ≡ₚ x :: take n l /\ Forall (fun u => gpa_le u m) us /\
  ((bp n x l).2 = false -> (bp n x l).1 = x :: l /\ StronglySorted gpa_le (x :: take n l)) /\ gpa_le x m.
Proof.
  induction n as [|n IH]; intros x l Hn.
  - exists [], x. cbn. split_and!; [by destruct l|done|done|constructor| |unfold gpa_le; lia].
    intros _. split; [done|]. repeat constructor.
  - destruct l as [|y l]; cbn in Hn; [lia|]. cbn [bp].
    destruct (Z.ltb_spec (e_gpa y) (e_gpa x)) as [Hlt|Hge].
    + destruct (IH x l) as (us & m & E & Hl & HP & HF & _ & Hx); [lia|].
      exists (y :: us), m. cbn. rewrite E. split_and!; [done|lia|rewrite HP; constructor| |done|done].
      constructor; [unfold gpa_le in *; lia|done].
    + destruct (IH y l) as (us & m & E & Hl & HP & HF & Hno & Hy); [lia|].
      exists (x :: us), m. cbn. rewrite E. split_and!; [done|lia|by rewrite HP| | |unfold gpa_le in *; lia].
      * constructor; [unfold gpa_le in *; lia|done].
      * intros Hs. destruct (Hno Hs) as [E2 Hsort]. rewrite <- E, E2. split; [done|].
        constructor; [done|]. apply StronglySorted_inv in Hsort as [_ Hf]. constructor; [done|].
        eapply Forall_impl; [exact Hf|]. unfold gpa_le. intros z Hz. lia.
Qed.

Lemma StronglySorted_app_2 (a b : list ffbm_map_entry) :
  StronglySorted gpa_le a -> StronglySorted gpa_le b ->
  Forall (fun x => Forall (gpa_le x) b) a -> StronglySorted gpa_le (a ++ b).
Proof.
  intros Ha Hb HF. induction a as [|x a IH]; [done|]. apply StronglySorted_inv in Ha as [Ha Hx].
  inversion_clear HF. cbn. constructor; [auto|]. by apply Forall_app.
Qed.

Lemma bubble_loop_sorts n : forall a b, length a = S n ->
  StronglySorted gpa_le b -> Forall (fun x => Forall (gpa_le x) b) a ->
  StronglySorted gpa_le (bubble_loop n (a ++ b)) /\ bubble_loop n (a ++ b) ≡ₚ a ++ b.
Proof.
  induction n as [|n IH]; intros a b Hlen Hb Hab.
  - cbn. split; [|done]. destruct a as [|x [|? ?]]; cbn in Hlen; [lia| |lia].
    apply StronglySorted_app_2; [repeat constructor|done|done].
  - destruct a as [|x a]; cbn in Hlen; [lia|]. cbn [bubble_loop app].
    pose proof (bubble_pass_bp (S n) 0 [] x (a ++ b) false eq_refl) as Hp. cbn [app] in Hp.
    rewrite Hp by (rewrite length_app; lia). cbn [orb].
    destruct (bp_spec (S n) x (a ++ b)) as (us & m & E & Hus & HP & HF & Hno & _); [rewrite length_app; lia|].
    assert (take (S n) (a ++ b) = a /\ drop (S n) (a ++ b) = b) as [Et Ed].
    { split; [apply take_app_length'|apply drop_app_length']; lia. }
    rewrite Et in HP, Hno. rewrite Ed in E.
    destruct ((bp (S n) x (a ++ b)).2) eqn:Esw.
    + rewrite E. assert (Hm : Forall (gpa_le m) b /\ Forall (fun y => Forall (gpa_le y) b) us).
      { rewrite <- HP in Hab. apply Forall_app in Hab as [H1 H2]. split; [by inversion_clear H2|done]. }
      destruct Hm as [Hm Hus2]. destruct (IH us (m :: b)) as [H1 H2]; [done|by constructor| |].
      { apply Forall_forall. intros y Hy. constructor; [|by apply (proj1 (Forall_forall _ _) Hus2)].
        by apply (proj1 (Forall_forall _ _) HF). }
      split; [done|]. rewrite H2. assert (us ++ m :: b = (us ++ [m]) ++ b) as -> by (by rewrite <- app_assoc).
      by rewrite HP.
    + destruct (Hno eq_refl) as [E2 Hs]. rewrite E2. split; [|done].
      apply (StronglySorted_app_2 (x :: a) b); done.
Qed.

Lemma bubble_sort_sorts l : StronglySorted gpa_le (bubble_sort l) /\ bubble_sort l ≡ₚ l.
Proof.
  unfold bubble_sort. destruct (Nat.ltb_spec 1 (length l)) as [Hlt|Hge].
  - pose proof (bubble_loop_sorts (length l - 1) l []) as H. rewrite app_nil_r in H.
    apply H; [lia|constructor|]. apply Forall_forall. intros x _. constructor.
  - split; [|done]. destruct l as [|x [|? ?]]; cbn in Hge; [constructor|repeat constructor|lia].
Qed.

(** ** The report of a VF's blocks *)

Section report.
Context {HW : FfbmHw}.

(** The blocks a report lists: all of the VF's, or all but its TMR block. *)
Definition wanted (s : adapter) (include_tmr : bool) (i : nat) : list ffbm_map_entry :=
  match memory_block s !! i with
  | Some b => let p := pteb_of b in
      if negb (is_type MEM_TYPE_TMR p) || include_tmr then [mk_entry (gpa p) (spa p) (size p)] else []
  | None => []
  end.

Lemma wp_collect_entries L G v include_tmr l : forall fuel s a index,
  inv s L G -> chain (lnk s) a (GpaNode <$> l) (GpaHead v) ->
  (forall i, i ∈ l -> exists p, holds (memory_block s) i p) -> (length l <= fuel)%nat ->
  (index <= FFBM_MAP_ENTRY_MAX_COUNT)%nat ->
  wp (next_of a ≫= fun n => collect_entries fuel (GpaHead v) n include_tmr index)
     (fun r s' => s' = s /\ r = take (FFBM_MAP_ENTRY_MAX_COUNT - index) (l ≫= wanted s include_tmr)) s.
Proof.
  induction l as [|i l IH]; intros fuel s a index Hinv Hc Hl Hf Hidx.
  - destruct Hc as [Hn _]. apply wp_bind. eapply wp_next; [exact Hn|].
    destruct fuel; cbn; rewrite decide_True by done; apply wp_ret; by rewrite take_nil.
  - destruct Hc as (Hn & _ & Hc). apply wp_bind. eapply wp_next; [exact Hn|].
    cbn in Hf. destruct fuel as [|fuel]; [lia|]. cbn [collect_entries]. rewrite decide_False by done.
    destruct (Hl i) as [p Hp]; [set_solver|]. apply wp_bind, (entry_kind_of (GpaHead v) i).
    apply wp_bind. eapply wp_holds; [exact Hp|].
    assert (Hl' : forall k, k ∈ l -> exists q, holds (memory_block s) k q) by (intros; apply Hl; set_solver).
    assert (Ew : wanted s include_tmr i =
      if negb (is_type MEM_TYPE_TMR p) || include_tmr then [mk_entry (gpa p) (spa p) (size p)] else []).
    { unfold wanted. unfold holds in Hp. by rewrite Hp. }
    change ((i :: l) ≫= wanted s include_tmr) with (wanted s include_tmr i ++ (l ≫= wanted s include_tmr)).
    rewrite Ew. destruct (negb _ || _).
    + destruct (Nat.ltb_spec index FFBM_MAP_ENTRY_MAX_COUNT) as [Hlt|Hge].
      * apply wp_assoc, wp_bind. eapply wp_mono; [apply (IH fuel s _ (S index)); [done|exact Hc|done|lia|lia]|].
        intros r s' [-> ->]. apply wp_ret. split; [done|].
        replace (FFBM_MAP_ENTRY_MAX_COUNT - index)%nat with (S (FFBM_MAP_ENTRY_MAX_COUNT - S index)) by lia. done.
      * apply wp_ret. split; [done|]. by replace (FFBM_MAP_ENTRY_MAX_COUNT - index)%nat with 0%nat by lia.
    + apply (IH fuel s _ index); [done|exact Hc|done|lia|lia].
Qed.

(** The mapping list of a VF holds the first 128 of its blocks, in
    ascending guest-physical order, whatever the order of its block list. *)
Theorem mapping_list_sorted s L G v include_tmr
  (Hinv : inv s L G) (Hv : vfid v) (Hpf : v < AMDGV_PF_IDX) (Hen : enabled s = true) :
  exists l, amdgv_get_vf_fb_mapping_list v include_tmr s = Ret ((0, true, l), s) /\
    StronglySorted gpa_le l /\
    l ≡ₚ take FFBM_MAP_ENTRY_MAX_COUNT (G v ≫= wanted s include_tmr).
Proof.
  pose proof (inv_wf _ _ _ _ Hinv) as Hw.
  enough (Hwp : wp (amdgv_get_vf_fb_mapping_list v include_tmr) (fun r s' => s' = s /\
    r = (0, true, bubble_sort (take FFBM_MAP_ENTRY_MAX_COUNT (G v ≫= wanted s include_tmr)))) s).
  { apply wp_returns in Hwp as (r & s' & E & -> & ->). eexists. split; [exact E|]. apply bubble_sort_sorts. }
  unfold amdgv_get_vf_fb_mapping_list. apply wp_bind, wp_gets. rewrite Hen.
  assert ((v <? AMDGV_PF_IDX) = true) as -> by lia. cbn [andb].
  apply wp_bind, wp_gpa_list; [done|by destruct Hinv|]. apply wp_assoc, wp_bind.
  eapply wp_mono; [apply (wp_collect_entries L G v include_tmr (G v)); [done|apply (w_gpa Hw v Hv)| | |]|].
  - intros i. by eapply inv_G_blocks.
  - pose proof (wf_len_G _ _ _ _ _ _ _ _ _ Hw Hv). unfold FFBM_FUEL. lia.
  - lia.
  - intros r s' [-> ->]. apply wp_ret. split; [done|]. by rewrite Nat.sub_0_r.
Qed.
End report.

Lemma mapping_list_sorted_witness :
  exists l, amdgv_get_vf_fb_mapping_list 0 true s_two = Ret ((0, true, l), s_two) /\
    StronglySorted gpa_le l /\
    l ≡ₚ take FFBM_MAP_ENTRY_MAX_COUNT (G_of G_two 0 ≫= wanted s_two true).
Proof.
  apply (mapping_list_sorted s_two L_two (G_of G_two) 0 true inv_two);
    [split; vm_compute; congruence|reflexivity|reflexivity].
Defined.
