(* ===== verification/FfbmProps.v ===== *)
(** * Theorems about the frame-buffer mapper

    Safety of every sequence of page-table operations, isolation between VFs,
    translation, what a mapping grants, and the behaviours in which the code
    departs from its intent, on concrete runs with the Navi 32 back end. *)
From S2P Require Import Prelude Api Dlist Ffbm NaviFfbm FfbmInv FfbmRun FfbmBoot.
Import Dlist Ffbm NaviFfbm.
#[local] Open Scope Z_scope.
#[local] Set Warnings "-clear-no-such-hyp".

Section props.
Context {HW : FfbmHw}.

(** ** Operations and reachable states *)

(** The calls the VF manager makes once the device is up. *)
Inductive ffbm_op :=
| OpUpdate (v : Z)             (* give the VF its frame buffer *)
| OpUnmap (v : Z)              (* take it back *)
| OpReserve (v : Z)            (* invalidate but keep the mapping *)
| OpApply                      (* push the table to the hardware *)
| OpToSpa (g v : Z)            (* translate *)
| OpToGpa (a : Z).

Definition run_op (o : ffbm_op) : M adapter Z :=
  match o with
  | OpUpdate v => amdgv_ffbm_page_table_update_by_fcn v
  | OpUnmap v => _ ← amdgv_ffbm_unmap_by_fcn v false; mret 0
  | OpReserve v => _ ← amdgv_ffbm_unmap_by_fcn v true; mret 0
  | OpApply => amdgv_ffbm_apply_page_table
  | OpToSpa g v => amdgv_ffbm_gpa_to_spa g v
  | OpToGpa a => r ← amdgv_ffbm_spa_to_gpa a; mret r.1
  end.

(** A VF slot, a configured size, and, for a mapping, a block left in the
    pool: [amdgv_ffbm_manual_map] dereferences the new TMR block unchecked. *)
Definition op_pre (s : adapter) (o : ffbm_op) : Prop :=
  match o with
  | OpUpdate v => vfid v /\ v <> AMDGV_PF_IDX /\ vf_cfg s v /\ 0 <= tmr_size s < 2 ^ 32 /\ ~ pool_full s
  | OpUnmap v | OpReserve v => vfid v
  | OpToSpa g v => vfid v /\ 0 <= g
  | OpApply | OpToGpa _ => True
  end.

Inductive reachable (s0 : adapter) : adapter -> Prop :=
| reach_start : reachable s0 s0
| reach_step s o r s' : reachable s0 s -> op_pre s o -> run_op o s = Ret (r, s') -> reachable s0 s'.

Lemma wp_find_by_phy s L G a (Q : option nat -> adapter -> Prop) :
  inv s L G -> Q None s ->
  (forall us i vs p, L = us ++ i :: vs -> holds (memory_block s) i p -> spa p <= a < spa p + size p -> Q (Some i) s) ->
  wp (amdgv_ffbm_find_pteb_by_phy a) Q s.
Proof.
  intros Hinv H0 H1. eapply wp_find_spa; [exact Hinv|done|]. intros us i vs p E Hp HP _.
  eapply H1; [done..|]. unfold AMDGV_FFBM_ADDR_IN_RANGE in HP. apply andb_true_iff in HP as [? HP]. zb.
  destruct (wf_in_L (inv_wf _ _ _ _ Hinv) i) as (q & Hq & ? & ? & ?); [rewrite E; set_solver|].
  pose proof (holds_inj _ _ _ _ Hp Hq) as <-. pose proof (w_tot (inv_wf _ _ _ _ Hinv)).
  rewrite wrap_id in HP by (unfold in_width; lia). lia.
Qed.

Lemma wp_run_op (Hok : FfbmHwOk HW) (Hup : hw_up) s L G o :
  inv s L G -> op_pre s o -> wp (run_op o) (fun _ s' => exists L' G', inv s' L' G') s.
Proof.
  intros Hinv Hpre. destruct o as [v|v|v| |g v|a]; cbn [run_op op_pre] in *.
  - destruct Hpre as (? & ? & ? & ? & ?). eapply wp_mono; [by eapply wp_update_vf|].
    intros r s' (L' & G' & ? & _). eauto.
  - apply wp_bind. eapply wp_unmap_by_fcn; [done..|intros _; apply wp_ret; eauto|].
    intros s' (L' & G' & ? & _). apply wp_ret. eauto.
  - apply wp_bind. eapply wp_reserve_by_fcn; [done..|intros _; apply wp_ret; eauto|].
    intros s' _ ?. apply wp_ret. eauto.
  - eapply wp_mono; [by eapply wp_apply_page_table|]. intros r s' (? & _). eauto.
  - destruct Hpre. eapply wp_gpa_to_spa; eauto.
  - apply wp_bind. unfold amdgv_ffbm_spa_to_gpa. apply wp_bind. eapply wp_find_by_phy; [done|apply wp_ret, wp_ret; eauto|].
    intros us i vs p _ Hp _. apply wp_bind. eapply wp_holds; [done|]. apply wp_ret, wp_ret. eauto.
Qed.

(** C18: from a well-formed page table, after any sequence of VF mappings,
    unmappings, reservations, page-table applications and translations, the
    blocks still tile the physical memory without gap or overlap, each VF's
    list holds exactly the blocks assigned to it, and the next call inside its
    precondition returns without following a NULL or dangling pointer.  The
    hardware is assumed to answer every request to apply or drop a block
    ([hw_up]): without that a reservation need not end
    ([ffbm_reserve_needs_hardware]).  A mapping needs a block left in the
    pool ([op_pre]). *)
Theorem ffbm_reachable_safe (Hok : FfbmHwOk HW) (Hup : hw_up) s0 L0 G0 s
  (Hstart : inv s0 L0 G0) (Hreach : reachable s0 s) :
  (exists L G, inv s L G) /\
  (forall o, op_pre s o -> exists r s', run_op o s = Ret (r, s') /\ reachable s0 s').
Proof.
  assert (Hinv : exists L G, inv s L G).
  { induction Hreach as [|s o r s' Hr (L & G & Hi) Hpre Hrun]; [eauto|].
    pose proof (wp_run_op Hok Hup s L G o Hi Hpre) as Hwp. unfold wp in Hwp. by rewrite Hrun in Hwp. }
  split; [exact Hinv|]. intros o Hpre. destruct Hinv as (L & G & Hi).
  destruct (wp_returns _ _ _ (wp_run_op Hok Hup s L G o Hi Hpre)) as (r & s' & E & _).
  exists r, s'. split; [done|]. by eapply reach_step.
Qed.

(** ** Isolation and translation *)

(** The shared TMR region, which every VF maps. *)
Definition in_tmr (s : adapter) (a : Z) : Prop :=
  TMR_START <= a < TMR_START + MBYTES_TO_BYTES (tmr_size s).

(** The block [i] of VF [v] through which [g] leads to [a]. *)
Definition translates (s : adapter) (L : list nat) (v g a : Z) (i : nat) (p : pte_block) : Prop :=
  i ∈ L /\ holds (memory_block s) i p /\ type p = MEM_TYPE_VF /\ vf_idx p = v /\
  spa p <= a < spa p + size p /\ gpa p + (a - spa p) = g.

(** A successful translation ends in a block of the VF or in the TMR. *)
Lemma gpa_to_spa_block s L G g v a :
  inv s L G -> vfid v -> 0 <= g -> amdgv_ffbm_gpa_to_spa g v s = Ret (a, s) ->
  a <> AMDGV_FFBM_INVALID_ADDR -> in_tmr s a \/ exists i p, translates s L v g a i p.
Proof.
  intros Hinv Hv Hg Hrun Ha. pose proof (inv_wf _ _ _ _ Hinv) as Hw.
  enough (Hwp : wp (amdgv_ffbm_gpa_to_spa g v)
    (fun a _ => a <> AMDGV_FFBM_INVALID_ADDR -> in_tmr s a \/ exists i p, translates s L v g a i p) s).
  { unfold wp in Hwp. rewrite Hrun in Hwp. auto. }
  eapply wp_gpa_to_spa; [exact Hinv|done|done|done|]. intros i p Hi Hp Hgr Har Htot _.
  destruct (w_G Hw v i Hv Hi) as (p' & Hp' & Ev & [[Et HL]|(_ & _ & Es & Ez)]);
    pose proof (holds_inj _ _ _ _ Hp Hp') as <-.
  - right. exists i, p. split_and!; [done|done|done|done|lia|lia|lia].
  - left. unfold in_tmr. lia.
Qed.

(** An address belongs to one block only. *)
Lemma one_block s L G i p j q a :
  inv s L G -> i ∈ L -> j ∈ L -> holds (memory_block s) i p -> holds (memory_block s) j q ->
  spa p <= a < spa p + size p -> spa q <= a < spa q + size q -> i = j.
Proof.
  intros Hinv Hi Hj Hp Hq Ha Hb. destruct (decide (j = i)) as [|Hne]; [done|].
  pose proof (w_tiles (inv_wf _ _ _ _ Hinv)) as Ht. apply list_elem_of_split in Hi as (xs & ys & ->).
  exfalso. apply (tiles_disjoint _ _ _ _ _ _ j p q a Ht Hp); [set_solver|done..].
Qed.

(** C2: two VFs never reach the same physical address, except inside the TMR
    region that all of them share; and what a VF reaches outside the TMR is a
    block assigned to that VF, so never a reserved, a bad or a PF page. *)
Theorem ffbm_isolation s L G v1 v2 g1 g2 a
  (Hinv : inv s L G) (Hv1 : vfid v1) (Hv2 : vfid v2) (Hg1 : 0 <= g1) (Hg2 : 0 <= g2)
  (H1 : amdgv_ffbm_gpa_to_spa g1 v1 s = Ret (a, s)) (H2 : amdgv_ffbm_gpa_to_spa g2 v2 s = Ret (a, s))
  (Ha : a <> AMDGV_FFBM_INVALID_ADDR) (Htmr : ~ in_tmr s a) :
  v1 = v2 /\ exists i p, i ∈ L /\ holds (memory_block s) i p /\ type p = MEM_TYPE_VF /\
    vf_idx p = v1 /\ spa p <= a < spa p + size p.
Proof.
  destruct (gpa_to_spa_block s L G g1 v1 a) as [|(i & p & Hi & Hp & Et & Ev & Hr & _)]; [done..|].
  destruct (gpa_to_spa_block s L G g2 v2 a) as [|(j & q & Hj & Hq & Eq & Ew & Hr' & _)]; [done..|].
  pose proof (one_block s L G i p j q a Hinv Hi Hj Hp Hq Hr Hr') as ->.
  pose proof (holds_inj _ _ _ _ Hp Hq) as ->. split; [congruence|]. by exists j, q.
Qed.

(** C21: translating a guest address to a physical one and back gives the
    guest address and the VF again, outside the shared TMR. *)
Theorem ffbm_translation_roundtrip s L G v g a
  (Hinv : inv s L G) (Hv : vfid v) (Hg : in_width 64 g)
  (H1 : amdgv_ffbm_gpa_to_spa g v s = Ret (a, s))
  (Ha : a <> AMDGV_FFBM_INVALID_ADDR) (Htmr : ~ in_tmr s a) :
  amdgv_ffbm_spa_to_gpa a s = Ret ((g, Some v), s).
Proof.
  destruct Hg as [Hg1 Hg2].
  destruct (gpa_to_spa_block s L G g v a) as [|(i & p & Hi & Hp & Et & Ev & Hr & Eg)]; [done..|].
  enough (Hwp : wp (amdgv_ffbm_spa_to_gpa a) (fun r s' => r = (g, Some v) /\ s' = s) s).
  { unfold wp in Hwp. destruct (amdgv_ffbm_spa_to_gpa a s) as [[r s']|]; [|done]. by destruct Hwp as [-> ->]. }
  unfold amdgv_ffbm_spa_to_gpa. apply wp_bind. eapply wp_find_spa; [exact Hinv| |].
  - intros Hno. exfalso. specialize (Hno i p Hi Hp). unfold AMDGV_FFBM_ADDR_IN_RANGE in Hno.
    pose proof (w_tot (inv_wf _ _ _ _ Hinv)).
    destruct (wf_in_L (inv_wf _ _ _ _ Hinv) i Hi) as (q & Hq & ? & ? & ?).
    pose proof (holds_inj _ _ _ _ Hp Hq) as <-. rewrite wrap_id in Hno by (unfold in_width; lia).
    apply andb_false_iff in Hno as [Hno|Hno]; lia.
  - intros us j vs q E Hq HP _. assert (Hj : j ∈ L) by (rewrite E; set_solver).
    assert (spa q <= a < spa q + size q).
    { unfold AMDGV_FFBM_ADDR_IN_RANGE in HP. apply andb_true_iff in HP as [? HP]. zb.
      destruct (wf_in_L (inv_wf _ _ _ _ Hinv) j Hj) as (q' & Hq' & ? & ? & ?).
      pose proof (holds_inj _ _ _ _ Hq Hq') as <-. pose proof (w_tot (inv_wf _ _ _ _ Hinv)).
      rewrite wrap_id in HP by (unfold in_width; lia). lia. }
    assert (Eij : i = j) by (by apply (one_block s L G i p j q a)). subst j.
    pose proof (holds_inj _ _ _ _ Hp Hq) as <-.
    apply wp_bind. eapply wp_holds; [exact Hp|]. apply wp_ret. split; [|done].
    rewrite Eg, Ev. by rewrite wrap_id by (unfold in_width; lia).
Qed.

(** ** What a mapping grants *)

(** C22: [amdgv_ffbm_map] returns; when it reports success for a page-aligned
    size, with a block left in the pool, the VF has received new blocks that
    cover exactly the guest range asked for, in ascending order, with the
    permission asked for.  Every new block lies in memory that was free
    before; every block that was not free, whoever had it and whether it is
    reserved or bad, is still in the table and unchanged, and so are the
    blocks of every VF's list. *)
Theorem ffbm_map_grants s L G v g sz perm
  (Hinv : inv s L G) (Hv : vfid v) (Hg : 0 <= g) (Hsz : 0 <= sz) (Hsum : g + sz < 2 ^ 62)
  (Hpage : sz mod AMDGV_FFBM_PAGE_SIZE (default_fragment s) = 0) (Hpool : ~ pool_full s) :
  exists r s', amdgv_ffbm_map v g sz perm MEM_TYPE_VF s = Ret (r, s') /\
    (r = AMDGV_FFBM_ERROR_BAD_ADDR /\ s' = s \/
     exists L' G' new e, inv s' L' G' /\ (forall w, w <> v -> G' w = G w) /\ G' v ≡ₚ new ++ G v /\
       gtiles (memory_block s') g new e /\
       (forall i, i ∈ new -> exists p, holds (memory_block s') i p /\ type p = MEM_TYPE_VF /\
           vf_idx p = v /\ permission p = perm) /\
       (forall i, i ∈ new -> carved s L s' i) /\ keeps_used s L s' L' /\
       (forall w i p, vfid w -> i ∈ G w -> holds (memory_block s) i p -> holds (memory_block s') i p) /\
       (r = 0 /\ e = g + sz \/ r = AMDGV_FFBM_ERROR_NO_MEM)).
Proof.
  apply (wp_returns (amdgv_ffbm_map v g sz perm MEM_TYPE_VF)). eapply wp_map; [done..|by left|].
  intros r s' (L' & G' & new & e & Hi & Hf & HG & HP & Ht & Hn & Hk & Hr & He & Hu & Hc). right.
  exists L', G', new, e. split_and!; [done|done|done|done| |by intros i Hin; apply Hc|done|done|].
  - intros i Hin. destruct (Hn i Hin) as (p & ? & ? & ? & ? & _). by exists p.
  - destruct Hr as [->|[-> _]]; [by right|left]. split; [done|]. apply He; [done|by left|done|done].
Qed.

(** [amdgv_ffbm_unmap_by_fcn] without [reserve] terminates: afterwards no block of the VF is
    marked as applied, nothing was added to its list, and the lists and blocks
    of the other VFs are as before. *)
Theorem ffbm_unmap_terminates (Hok : FfbmHwOk HW) s L G v
  (Hinv : inv s L G) (Hv : vfid v) (Hen : enabled s = true) :
  exists s', amdgv_ffbm_unmap_by_fcn v false s = Ret (tt, s') /\
    exists L' G', inv s' L' G' /\ (forall w, w <> v -> G' w = G w) /\
      (forall k, k ∈ G' v -> k ∈ G v) /\ keeps G (G v) s s' /\
      (forall k q, k ∈ G' v -> holds (memory_block s') k q -> applied q = false).
Proof.
  pose proof (wp_unmap_by_fcn Hok s L G v (fun _ s' => unmap_post s G v s') Hinv Hv) as Hwp.
  apply wp_returns in Hwp as ([] & s' & E & L' & G' & ? & _ & ? & ? & ? & ?); [|congruence|done].
  exists s'. split; [done|]. exists L', G'. by split_and!.
Qed.

(** When the hardware does not grant access, the [reserve] variant of
    [amdgv_ffbm_unmap_by_fcn] never ends as soon as the VF has one applied
    block: it keeps finding the same block. *)
Theorem ffbm_reserve_needs_hardware (Hok : FfbmHwOk HW) s L G v i p fuel
  (Hdown : hw_down)
  (Hinv : inv s L G) (Hv : vfid v) (Hen : enabled s = true)
  (Hi : i ∈ G v) (Hp : holds (memory_block s) i p) (Hap : applied p = true) :
  amdgv_ffbm_unmap_by_fcn_fuel fuel v true s = Fault.
Proof.
  enough (Hloop : forall fuel s, inv s L G -> holds (memory_block s) i p -> unmap_loop fuel v true s = Fault).
  { unfold amdgv_ffbm_unmap_by_fcn_fuel, mbind, M_bind, gets. rewrite Hen. cbn [negb].
    pose proof (wp_gpa_list v (fun _ s' => s' = s) s Hv (inv_vfs _ _ _ _ Hinv) eq_refl) as Hl.
    unfold wp in Hl. destruct (gpa_list v s) as [[h s1]|]; [|done]. subst s1. by apply Hloop. }
  clear s Hinv Hen Hp fuel. induction fuel as [|fuel IH]; intros s Hinv Hp; [done|]. cbn [unmap_loop].
  pose proof (wp_find_gpa [] s L G v (fun p => (vf_idx p =? v) && applied p)
    (fun o s' => s' = s /\ exists k q, o = Some k /\ k ∈ G v /\ holds (memory_block s) k q) Hinv Hv) as Hfind.
  apply wp_returns in Hfind as (o & s1 & E & -> & k & q & -> & Hk & Hq).
  - rewrite (run_bind _ _ _ _ _ E).
    pose proof (wp_unapply Hok s L G v k q (fun _ s' => exists w, s' = unapplied s k q (applied q) w) Hinv Hv Hk Hq) as Hun.
    apply wp_returns in Hun as ([] & s2 & E2 & w & ->); [|intros a w _ ->; [by exists w|done]].
    rewrite (run_bind _ _ _ _ _ E2). apply IH; [by apply unapplied_inv|].
    destruct (decide (i = k)) as [->|Hne]; [|by apply unapplied_holds].
    pose proof (holds_inj _ _ _ _ Hp Hq) as <-.
    apply holds_insert_eq; [by eapply holds_lt|by rewrite set_applied_id].
  - intros Hno. specialize (Hno i p Hi Hp). rewrite Hap in Hno.
    destruct (w_G (inv_wf _ _ _ _ Hinv) v i Hv Hi) as (p' & Hp' & Ev & _).
    pose proof (holds_inj _ _ _ _ Hp Hp') as <-. rewrite Ev, Z.eqb_refl in Hno. done.
  - intros us k vs q E Hq _ _. split; [done|]. exists k, q. split_and!; [done|rewrite E; set_solver|done].
Qed.
End props.

(** ** Concrete runs *)

#[local] Existing Instance navi32_hw_ok.

Lemma slot0 : vfid 0. Proof. split; vm_compute; congruence. Qed.
Lemma slot1 : vfid 1. Proof. split; vm_compute; congruence. Qed.

Lemma boot_not_full : ~ pool_full s_boot.
Proof. intros H. specialize (H 7%nat (mk_mb zero_pteb false)). vm_compute in H. by specialize (H eq_refl). Qed.

Lemma ffbm_reachable_safe_witness :
  exists r s', run_op (OpUpdate 0) s_boot = Ret (r, s') /\ reachable s_boot s'.
Proof.
  apply (ffbm_reachable_safe (@navi32_hw_ok answering) navi_up s_boot L_boot (G_of []) s_boot inv_boot (reach_start _)).
  split; [exact slot0|]. split; [vm_compute; congruence|]. split.
  - intros e [= <-]. split; vm_compute; congruence.
  - split; [split; vm_compute; congruence|exact boot_not_full].
Defined.

Lemma ffbm_isolation_witness :
  0 = 0 /\ exists i p, i ∈ L_two /\ holds (memory_block s_two) i p /\ type p = MEM_TYPE_VF /\
    vf_idx p = 0 /\ spa p <= 40 * 1048576 < spa p + size p.
Proof.
  apply (ffbm_isolation s_two L_two (G_of G_two) 0 0 (12 * 1048576) (12 * 1048576) (40 * 1048576) inv_two slot0 slot0);
    [lia|lia|reflexivity|reflexivity|by apply Z.eqb_neq|].
  intros [_ H]. vm_compute in H. discriminate H.
Defined.

Lemma ffbm_translation_roundtrip_witness :
  amdgv_ffbm_spa_to_gpa (40 * 1048576) s_two = Ret ((12 * 1048576, Some 0), s_two).
Proof.
  apply (ffbm_translation_roundtrip s_two L_two (G_of G_two) 0 (12 * 1048576) (40 * 1048576) inv_two slot0);
    [split; [lia|reflexivity]|reflexivity|by apply Z.eqb_neq|].
  intros [_ H]. vm_compute in H. discriminate H.
Defined.

Lemma ffbm_map_grants_witness :
  exists r s', amdgv_ffbm_map 0 0 (16 * 1048576) 3 MEM_TYPE_VF s_boot = Ret (r, s') /\
    (r = AMDGV_FFBM_ERROR_BAD_ADDR /\ s' = s_boot \/
     exists L' G' new e, inv s' L' G' /\ (forall w, w <> 0 -> G' w = G_of [] w) /\ G' 0 ≡ₚ new ++ G_of [] 0 /\
       gtiles (memory_block s') 0 new e /\
       (forall i, i ∈ new -> exists p, holds (memory_block s') i p /\ type p = MEM_TYPE_VF /\
           vf_idx p = 0 /\ permission p = 3) /\
       (forall i, i ∈ new -> carved s_boot L_boot s' i) /\ keeps_used s_boot L_boot s' L' /\
       (forall w i p, vfid w -> i ∈ G_of [] w -> holds (memory_block s_boot) i p -> holds (memory_block s') i p) /\
       (r = 0 /\ e = 0 + 16 * 1048576 \/ r = AMDGV_FFBM_ERROR_NO_MEM)).
Proof.
  apply (ffbm_map_grants s_boot L_boot (G_of []) 0 0 (16 * 1048576) 3 inv_boot slot0);
    [lia|lia|lia|vm_compute; reflexivity|exact boot_not_full].
Defined.

Lemma ffbm_unmap_terminates_witness :
  exists s', amdgv_ffbm_unmap_by_fcn 0 false s_two = Ret (tt, s') /\
    exists L' G', inv s' L' G' /\ (forall w, w <> 0 -> G' w = G_of G_two w) /\
      (forall k, k ∈ G' 0 -> k ∈ G_of G_two 0) /\ keeps (G_of G_two) (G_of G_two 0) s_two s' /\
      (forall k q, k ∈ G' 0 -> holds (memory_block s') k q -> applied q = false).
Proof. apply (ffbm_unmap_terminates (@navi32_hw_ok answering) s_two L_two (G_of G_two) 0 inv_two slot0). reflexivity. Defined.

Definition p_stale : pte_block := Eval vm_compute in
  match memory_block s_stale !! 8%nat with Some b => pteb_of b | None => zero_pteb end.

Lemma ffbm_reserve_needs_hardware_witness :
  amdgv_ffbm_unmap_by_fcn 0 true s_stale = Fault.
Proof.
  apply (ffbm_reserve_needs_hardware (@navi32_hw_ok silent) s_stale L_two (G_of G_two) 0 8%nat p_stale FFBM_FUEL navi_down
    inv_stale slot0); [reflexivity|apply (bool_decide_unpack _); vm_compute; exact I|vm_compute; reflexivity|reflexivity].
Defined.

(** ** Where the code departs from its intent *)

(** Result of a run and a view of the state it ends in. *)
Definition observe {H : FfbmHw} {A B} (f : @adapter H -> B) (o : outcome (A * @adapter H)) : option (A * B) :=
  match o with Ret (a, s) => Some (a, f s) | Fault => None end.

(** The blocks of the physical list: start, size and type, in pages of 4 KB. *)
Definition spa_view (s : @adapter hw_on) : option (list (Z * Z * amdgv_ffbm_mem_type)) :=
  match (amdgv_ffbm_copy_page_table 0) s with
  | Ret (l, _) => Some ((fun p => (spa p / 4096, size p / 4096, type p)) <$> l)
  | Fault => None
  end.

(** A second frame-buffer size for the PF: the first update maps the PF's two
    ranges; the second one cannot, because unmapping a PF block does nothing. *)
Definition pf_twice : M (@adapter hw_on) (Z * Z) :=
  _ ← amdgv_ffbm_sw_init;
  _ ← amdgv_ffbm_page_table_init;
  r1 ← amdgv_ffbm_page_table_update_by_fcn AMDGV_PF_IDX;
  r2 ← amdgv_ffbm_page_table_update_by_fcn AMDGV_PF_IDX;
  mret (r1, r2).

(** The PF's page table can be updated only once: a second
    [amdgv_ffbm_page_table_update_by_fcn] for the PF fails with BAD_ADDR and
    leaves the layout of the first. *)
Theorem ffbm_pf_update_not_repeatable :
  observe (fun s => layout s L_boot) (pf_twice dev_on)
  = Some ((0, AMDGV_FFBM_ERROR_BAD_ADDR), layout s_boot L_boot).
Proof. vm_compute. reflexivity. Qed.

(** Pages of 4 KB, so that one bad page is a whole block. *)
Definition dev_4k : @adapter hw_on := device hw_on (mk_navi [] 0 0) 0.

Definition bad_page_run : M (@adapter hw_on) Z :=
  _ ← two_vfs;
  amdgv_ffbm_replace_page (MBYTES_TO_BYTES 102 - PAGE_SIZE).

(** Replacing the last page of a VF that borders free memory succeeds and
    loses that memory: the bad page is merged with the 35326 free pages behind
    it before it is marked, and marking it sets its size to one page, so the
    physical list no longer covers the pages 26112 to 61437. *)
Theorem ffbm_replace_page_loses_memory :
  observe spa_view (two_vfs dev_4k) = Some (0, Some
    [(0, 512, MEM_TYPE_PF); (512, 1024, MEM_TYPE_TMR); (1536, 6656, MEM_TYPE_PF);
     (8192, 512, MEM_TYPE_VF); (8704, 7168, MEM_TYPE_VF); (15872, 512, MEM_TYPE_VF);
     (16384, 9728, MEM_TYPE_VF); (26112, 35326, MEM_TYPE_NOT_ASSIGNED);
     (61438, 1, MEM_TYPE_RESERVED); (61439, 1, MEM_TYPE_RESERVED); (61440, 4096, MEM_TYPE_PF)]) /\
  observe spa_view (bad_page_run dev_4k) = Some (0, Some
    [(0, 512, MEM_TYPE_PF); (512, 1024, MEM_TYPE_TMR); (1536, 6656, MEM_TYPE_PF);
     (8192, 512, MEM_TYPE_VF); (8704, 7168, MEM_TYPE_VF); (15872, 512, MEM_TYPE_VF);
     (16384, 9727, MEM_TYPE_VF); (26111, 1, MEM_TYPE_BAD_PAGE);
     (61438, 1, MEM_TYPE_VF); (61439, 1, MEM_TYPE_RESERVED); (61440, 4096, MEM_TYPE_PF)]).
Proof. split; vm_compute; reflexivity. Qed.

(** The block VF 0 has at guest address 0. *)
Definition p_two : pte_block := Eval vm_compute in
  match memory_block s_two !! 6%nat with Some b => pteb_of b | None => zero_pteb end.

(** [is_gpaess_valid] scans the VF's list as if it were ascending, but
    [amdgv_ffbm_insert_new_ffbm_node] builds it descending: a manual mapping
    of a guest range that is already mapped is accepted. *)
Theorem ffbm_overlap_accepted :
  (exists i p, i ∈ G_of G_two 0 /\ holds (memory_block s_two) i p /\ gpa p = 0 /\ size p = MBYTES_TO_BYTES 2) /\
  observe (fun _ => tt) (amdgv_ffbm_manual_map 0 (MBYTES_TO_BYTES 2) 0 (MBYTES_TO_BYTES 110) 3 MEM_TYPE_VF s_two)
  = Some (0, tt).
Proof.
  split; [|vm_compute; reflexivity]. exists 6%nat, p_two.
  split; [apply (bool_decide_unpack _); vm_compute; exact I|]. repeat split; vm_compute; reflexivity.
Qed.

(** A size that is not a multiple of the page makes the split fail, and
    the failure is ignored: a VF asking for 17 MB is given the whole free
    block of 204 MB, and the call reports success. *)
Theorem ffbm_unaligned_map_takes_all :
  observe (fun s => layout s L_boot) (amdgv_ffbm_map 0 0 (MBYTES_TO_BYTES 17) 3 MEM_TYPE_VF s_boot)
  = Some (0, [(0, 2, MEM_TYPE_PF, 31); (2, 4, MEM_TYPE_TMR, 31); (6, 26, MEM_TYPE_PF, 31);
              (32, 204, MEM_TYPE_VF, 0); (236, 2, MEM_TYPE_RESERVED, 17);
              (238, 2, MEM_TYPE_RESERVED, 17); (240, 16, MEM_TYPE_PF, 17)]).
Proof. vm_compute. reflexivity. Qed.
