(* ===== verification/Threads.v ===== *)
(** * Threads that interleave

    A component whose functions run in several threads at once is a step
    function of one thread on the shared state: [tstep t s l] is the next
    shared and local state of thread [t], and [None] when it cannot go on (a
    semaphore at zero, a mutex held, the condition of a polling loop not yet
    true).  A schedule says whose turn it is; [reachable] ranges over all of
    them.  [total] counts over the threads, which is how the invariants of the
    components are stated. *)
From S2P Require Import Prelude.
#[local] Open Scope nat_scope.

Definition total {L} (f : L -> nat) (ts : list L) : nat := sum_list_with f ts.
#[global] Arguments total : simpl never.

Lemma total_insert {L} (f : L -> nat) ts t l l' :
  ts !! t = Some l -> total f (<[t := l']> ts) + f l = total f ts + f l'.
Proof.
  unfold total. revert t. induction ts as [|x ts IH]; intros [|t] Ht; try done.
  - injection Ht as ->. cbn. lia.
  - change (<[S t := l']> (x :: ts)) with (x :: <[t := l']> ts). specialize (IH t Ht). cbn [sum_list_with]. lia.
Qed.

Lemma total_ge {L} (f : L -> nat) ts t l : ts !! t = Some l -> f l <= total f ts.
Proof.
  unfold total. revert t. induction ts as [|x ts IH]; intros [|t] Ht; try done.
  - injection Ht as ->. cbn. lia.
  - specialize (IH t Ht). cbn. lia.
Qed.

Lemma total_le {L} (f g : L -> nat) ts : Forall (fun l => f l <= g l) ts -> total f ts <= total g ts.
Proof. unfold total. induction 1 as [|x ts ? _ IH]; cbn; lia. Qed.

Lemma total_add {L} (f g : L -> nat) ts : total (fun l => f l + g l) ts = total f ts + total g ts.
Proof. unfold total. induction ts as [|x ts IH]; cbn; lia. Qed.

Lemma total_zero {L} (f : L -> nat) ts : Forall (fun l => f l = 0) ts -> total f ts = 0.
Proof. unfold total. induction 1 as [|x ts Hx _ IH]; cbn; lia. Qed.

Lemma total_zero_inv {L} (f : L -> nat) ts t l : total f ts = 0 -> ts !! t = Some l -> f l = 0.
Proof. intros H Ht. pose proof (total_ge f ts t l Ht). lia. Qed.

Lemma total_pos {L} (f : L -> nat) ts : 0 < total f ts -> exists t l, ts !! t = Some l /\ 0 < f l.
Proof.
  unfold total. induction ts as [|x ts IH]; cbn; [lia|]. intros H. destruct (decide (f x = 0)) as [H0|H0].
  - destruct IH as (t & l & Ht & Hl); [lia|]. by exists (S t), l.
  - exists 0, x. split; [done|lia].
Qed.

Lemma total_const {L} (ts : list L) n : total (fun _ => n) ts = length ts * n.
Proof. unfold total. induction ts as [|x ts IH]; cbn; lia. Qed.

Lemma total_ext {L} (f g : L -> nat) ts : (forall l, f l = g l) -> total f ts = total g ts.
Proof. intros H. unfold total. induction ts as [|x ts IH]; cbn; rewrite ?H; lia. Qed.

(** ** Interleaving *)

Record system {S L : Type} := mk_system { shared : S; threads : list L }.
Arguments system : clear implicits.
Arguments mk_system {S L}.

Section interleaving.
Context {S L : Type} (tstep : nat -> S -> L -> option (S * L)).
Implicit Types (c d : system S L) (sched : list nat).

Definition step (t : nat) c : option (system S L) :=
  l ← threads c !! t;
  r ← tstep t (shared c) l;
  Some (mk_system (fst r) (<[t := snd r]> (threads c))).

Fixpoint run sched c : option (system S L) :=
  match sched with
  | [] => Some c
  | t :: sched => c' ← step t c; run sched c'
  end.

Definition reachable c d : Prop := exists sched, run sched c = Some d.

(** A step that only thread-internal progress needs: [internal l] is false
    where the thread waits for its caller. *)
Definition internal_step (internal : L -> bool) c d : Prop :=
  exists t l, threads c !! t = Some l /\ internal l = true /\ step t c = Some d.

Definition quiescent (internal : L -> bool) c : Prop :=
  forall t l, threads c !! t = Some l -> internal l = true -> tstep t (shared c) l = None.

Lemma step_inv t c d : step t c = Some d ->
  exists l s' l', threads c !! t = Some l /\ tstep t (shared c) l = Some (s', l') /\
    d = mk_system s' (<[t := l']> (threads c)).
Proof.
  unfold step. destruct (threads c !! t) as [l|] eqn:Hl; cbn; [|done].
  destruct (tstep t (shared c) l) as [[s' l']|] eqn:Hs; cbn; [|done]. intros [= <-]. eauto 6.
Qed.

(** What holds at the start and is kept by every step holds in every schedule. *)
Lemma reachable_invariant (I : system S L -> Prop) c d :
  (forall t a b, I a -> step t a = Some b -> I b) -> I c -> reachable c d -> I d.
Proof.
  intros Hstep HI [sched Hr]. revert c HI Hr. induction sched as [|t sched IH]; intros c HI Hr; cbn in Hr.
  - by injection Hr as <-.
  - destruct (step t c) as [c'|] eqn:Hc; cbn in Hr; [|done]. by eapply IH; [eapply Hstep|].
Qed.

Lemma reachable_step t c d e : reachable c d -> step t d = Some e -> reachable c e.
Proof.
  intros [sched Hr] Hs. exists (sched ++ [t]). revert c Hr. induction sched as [|u sched IH]; intros c Hr; cbn in *.
  - injection Hr as ->. by rewrite Hs.
  - destruct (step u c) as [c'|]; cbn in *; [|done]. by apply IH.
Qed.

(** Internal steps under which a measure goes down end: [n] of them at most. *)
Lemma internal_bounded internal (I : system S L -> Prop) (m : L -> nat) c n d :
  (forall a b, I a -> internal_step internal a b -> I b /\ total m (threads b) < total m (threads a)) ->
  I c -> nsteps (internal_step internal) n c d -> n <= total m (threads c).
Proof.
  intros Hdec HI Hn. revert HI. induction Hn as [c|n c c' d Hc _ IH]; intros HI; [lia|].
  destruct (Hdec c c' HI Hc) as [HI' Hlt]. specialize (IH HI'). lia.
Qed.
End interleaving.
