(* ===== verification/Bytes.v ===== *)
(** * Memory as bytes

    The packed structures the driver hands to other software (CPER records) are
    modelled as the bytes they occupy.  Numbers are little endian; [sl] reads
    and [st] overwrites a range, [rd] and [wr] do so inside an object and fault
    outside of it. *)
From S2P Require Import Prelude.
#[local] Open Scope Z_scope.

Abbreviation bytes := (list Z).
Definition len (m : bytes) : Z := Z.of_nat (length m).

(** An [n]-byte number, least significant byte first. *)
Fixpoint le (n : nat) (v : Z) : bytes :=
  match n with O => [] | S n => v mod 256 :: le n (v / 256) end.
Fixpoint unle (l : bytes) : Z :=
  match l with [] => 0 | b :: l => b + 256 * unle l end.

Definition sl (off n : Z) (m : bytes) : bytes := take (Z.to_nat n) (drop (Z.to_nat off) m).
Definition st (off : Z) (l m : bytes) : bytes :=
  take (Z.to_nat off) m ++ l ++ drop (Z.to_nat off + length l) m.
#[global] Arguments sl : simpl never.
#[global] Arguments st : simpl never.
#[global] Arguments le : simpl never.

Definition inside (off n : Z) (m : bytes) : bool :=
  (0 <=? off) && (0 <=? n) && (off + n <=? len m).

Definition rd (off n : Z) : M bytes bytes :=
  m ← gets id;
  _ ← demand (inside off n m);
  mret (sl off n m).
Definition wr (off : Z) (l : bytes) : M bytes unit :=
  m ← gets id;
  _ ← demand (inside off (len l) m);
  modify (st off l).

(** Fields of [n] bytes, and a bit field of [w] bits at [sh] inside one. *)
Definition rdn (n : nat) (off : Z) : M bytes Z := l ← rd off (Z.of_nat n); mret (unle l).
Definition wrn (n : nat) (off v : Z) : M bytes unit := wr off (le n v).
Definition wr_field (n : nat) (off sh w v : Z) : M bytes unit :=
  x ← rdn n off;
  wrn n off (Z.lor (Z.land x (Z.lnot (Z.shiftl (Z.ones w) sh))) (Z.shiftl v sh)).

(** ** Facts *)

Lemma length_le n v : length (le n v) = n.
Proof. revert v. induction n as [|n IH]; intros v; [done|]. unfold le; fold le. cbn. by rewrite IH. Qed.

Lemma unle_le n v : unle (le n v) = v mod 256 ^ Z.of_nat n.
Proof.
  revert v. induction n as [|n IH]; intros v; [by rewrite Z.mod_1_r|].
  unfold le; fold le. cbn [unle]. rewrite IH, Nat2Z.inj_succ, Z.pow_succ_r by lia.
  symmetry. rewrite Z.rem_mul_r by lia. lia.
Qed.

Lemma unle_le_small n v : 0 <= v < 256 ^ Z.of_nat n -> unle (le n v) = v.
Proof. intros. rewrite unle_le. by apply Z.mod_small. Qed.

Lemma len_le n v : len (le n v) = Z.of_nat n.
Proof. unfold len. by rewrite length_le. Qed.
Lemma len_app l m : len (l ++ m) = len l + len m.
Proof. unfold len. rewrite length_app. lia. Qed.
Lemma len_nonneg m : 0 <= len m.
Proof. unfold len. lia. Qed.
Lemma len_replicate n (x : Z) : len (replicate n x) = Z.of_nat n.
Proof. unfold len. by rewrite length_replicate. Qed.

Lemma inside_true off n m : 0 <= off -> 0 <= n -> off + n <= len m -> inside off n m = true.
Proof. intros. unfold inside. rewrite !andb_true_iff, !Z.leb_le. auto. Qed.

Lemma len_st off l m : 0 <= off -> off + len l <= len m -> len (st off l m) = len m.
Proof. unfold st, len. intros. rewrite !length_app, length_take, length_drop. lia. Qed.

Lemma len_sl off n m : 0 <= off -> 0 <= n -> off + n <= len m -> len (sl off n m) = n.
Proof. unfold sl, len. intros. rewrite length_take, length_drop. lia. Qed.

Lemma sl_st_same off n l m : 0 <= off -> n = len l -> off + len l <= len m -> sl off n (st off l m) = l.
Proof.
  unfold sl, st, len. intros Ho -> Hl. rewrite Nat2Z.id.
  rewrite drop_app_length' by (rewrite length_take; lia). by rewrite take_app_length.
Qed.

Lemma lookup_sl off n m i : (i < Z.to_nat n)%nat -> sl off n m !! i = m !! (Z.to_nat off + i)%nat.
Proof. intros. unfold sl. rewrite lookup_take_lt by done. by rewrite lookup_drop. Qed.

Lemma lookup_st off l m i : off + len l <= len m -> 0 <= off ->
  st off l m !! i = if decide (Z.to_nat off <= i < Z.to_nat off + length l)%nat then l !! (i - Z.to_nat off)%nat else m !! i.
Proof.
  unfold st, len. intros. destruct (decide _) as [[H1 H2]|Hn].
  - rewrite lookup_app_r by (rewrite length_take; lia). rewrite length_take, Nat.min_l by lia.
    by rewrite lookup_app_l by lia.
  - destruct (decide (Z.to_nat off <= i)%nat).
    + rewrite lookup_app_r by (rewrite length_take; lia). rewrite length_take, Nat.min_l by lia.
      rewrite lookup_app_r by lia. rewrite lookup_drop. f_equal. lia.
    + rewrite lookup_app_l by (rewrite length_take; lia). by rewrite lookup_take_lt by lia.
Qed.

Lemma length_sl_le off n m : (length (sl off n m) <= Z.to_nat n)%nat.
Proof. unfold sl. rewrite length_take. lia. Qed.

Lemma sl_ext off n m m' : (forall i, (Z.to_nat off <= i < Z.to_nat off + Z.to_nat n)%nat -> m !! i = m' !! i) ->
  sl off n m = sl off n m'.
Proof.
  intros H. apply list_eq. intros i. destruct (decide (i < Z.to_nat n)%nat).
  - rewrite !lookup_sl by done. apply H. lia.
  - rewrite !lookup_ge_None_2; [done| |]; (eapply Nat.le_trans; [apply length_sl_le|lia]).
Qed.

Lemma sl_st_other off n o l m : 0 <= off -> 0 <= n -> 0 <= o -> o + len l <= len m ->
  (off + n <= o \/ o + len l <= off) -> sl off n (st o l m) = sl off n m.
Proof.
  intros Hoff Hn Ho Hl Hd. apply sl_ext. intros i Hi. rewrite lookup_st by done. unfold len in *.
  rewrite decide_False by lia. done.
Qed.

(** A range inside a range. *)
Lemma sl_sl off n a k m : 0 <= off -> 0 <= a -> 0 <= k -> a + k <= n -> sl a k (sl off n m) = sl (off + a) k m.
Proof.
  intros. apply list_eq. intros i. destruct (decide (i < Z.to_nat k)%nat).
  - rewrite !lookup_sl by lia. f_equal. lia.
  - rewrite !lookup_ge_None_2; [done| |]; (eapply Nat.le_trans; [apply length_sl_le|lia]).
Qed.

Lemma sl_all m : sl 0 (len m) m = m.
Proof. unfold sl, len. by rewrite Nat2Z.id, take_ge. Qed.

(** ** Rules *)

Lemma wp_rd off n (Q : bytes -> bytes -> Prop) m :
  0 <= off -> 0 <= n -> off + n <= len m -> Q (sl off n m) m -> wp (rd off n) Q m.
Proof.
  intros. unfold rd. apply wp_bind, wp_gets, wp_bind, wp_demand; [by apply inside_true|]. by apply wp_ret.
Qed.
Lemma wp_wr off l (Q : unit -> bytes -> Prop) m :
  0 <= off -> off + len l <= len m -> Q tt (st off l m) -> wp (wr off l) Q m.
Proof.
  intros. unfold wr. apply wp_bind, wp_gets, wp_bind, wp_demand; [apply inside_true; [done|apply len_nonneg|done]|].
  by apply wp_modify.
Qed.
Lemma wp_rdn n off (Q : Z -> bytes -> Prop) m :
  0 <= off -> off + Z.of_nat n <= len m -> Q (unle (sl off (Z.of_nat n) m)) m -> wp (rdn n off) Q m.
Proof. intros. unfold rdn. apply wp_bind, wp_rd; [done|lia|done|]. by apply wp_ret. Qed.
Lemma wp_wrn n off v (Q : unit -> bytes -> Prop) m :
  0 <= off -> off + Z.of_nat n <= len m -> Q tt (st off (le n v) m) -> wp (wrn n off v) Q m.
Proof. intros. apply wp_wr; [done|by rewrite len_le|done]. Qed.
Lemma wp_wr_field n off sh w v (Q : unit -> bytes -> Prop) m :
  0 <= off -> off + Z.of_nat n <= len m -> (forall x, Q tt (st off (le n x) m)) -> wp (wr_field n off sh w v) Q m.
Proof. intros. unfold wr_field. apply wp_bind, wp_rdn; [done..|]. by apply wp_wrn. Qed.

(** ** Bytes are below 256 *)

Definition bytes_ok (m : bytes) : Prop := Forall (in_width 8) m.

Lemma bytes_ok_le n v : bytes_ok (le n v).
Proof.
  revert v. induction n as [|n IH]; intros v; unfold le; fold le; constructor; [|apply IH].
  unfold in_width. change (2 ^ 8) with 256. apply Z.mod_pos_bound. lia.
Qed.
Lemma bytes_ok_st off l m : bytes_ok l -> bytes_ok m -> bytes_ok (st off l m).
Proof. intros Hl Hm. unfold bytes_ok, st. rewrite !Forall_app. split_and!; [by apply Forall_take|done|by apply Forall_drop]. Qed.
Lemma bytes_ok_sl off n m : bytes_ok m -> bytes_ok (sl off n m).
Proof. intros Hm. unfold sl. by apply Forall_take, Forall_drop. Qed.
Lemma bytes_ok_words n (l : list Z) : bytes_ok (concat (le n <$> l)).
Proof. induction l as [|x l IH]; [constructor|]. cbn. apply Forall_app. split; [apply bytes_ok_le|exact IH]. Qed.
Lemma bytes_ok_replicate n : bytes_ok (replicate n 0).
Proof. by apply Forall_replicate. Qed.

Lemma le_unle m : bytes_ok m -> le (length m) (unle m) = m.
Proof.
  induction 1 as [|b m Hb _ IH]; [done|]. cbn [length unle]. unfold le; fold le.
  unfold in_width in Hb. change (2 ^ 8) with 256 in Hb. f_equal.
  - rewrite Z.mul_comm, Z.mod_add by lia. by apply Z.mod_small.
  - rewrite Z.mul_comm, Z.div_add, Z.div_small, Z.add_0_l by lia. exact IH.
Qed.
