(* ===== verification/CperTime.v ===== *)
(** * The time stamp of a CPER record (src/libgv/core/amdgv_cper.c)

    [amdgv_cper_fill_timestamp] turns seconds since 1970 into a date by
    counting years and months.  The reference is the Gregorian calendar day by
    day: [next_day] is the date after a date, from the lengths of the months,
    and [date_after] counts from 1 January 1970; nothing of it is taken from
    the code.  [days_from_civil] numbers the days in closed form and relates
    the two. *)
From S2P Require Import Prelude.
#[local] Open Scope Z_scope.

Definition IS_LEAP_YEAR (x : Z) : bool :=
  ((x mod 4 =? 0) && negb (x mod 100 =? 0)) || (x mod 400 =? 0).

Definition seconds_per_day : Z := 24 * 60 * 60.
Definition seconds_per_hour : Z := 60 * 60.
Definition seconds_per_minute : Z := 60.

Record cper_timestamp := mk_ts {
  seconds : Z; minutes : Z; hours : Z; day : Z; month : Z; year : Z; century : Z;
}.

(** The loop over the years; [None] when [fuel] years were not enough. *)
Fixpoint year_loop (fuel : nat) (days year : Z) : option (Z * Z) :=
  if days <? 365 then Some (days, year) else
  match fuel with
  | O => None
  | S fuel =>
      if IS_LEAP_YEAR year then
        if days <? 366 then Some (days, year) else year_loop fuel (u64 (days - 366)) (u64 (year + 1))
      else year_loop fuel (u64 (days - 365)) (u64 (year + 1))
  end.

Definition days_in_month (year : Z) : list Z :=
  [31; 28 + Z.b2z (IS_LEAP_YEAR year); 31; 30; 31; 30; 31; 31; 30; 31; 30; 31].

(** The loop over the months; [None] when it ran past the table. *)
Fixpoint month_loop (dim : list Z) (days month : Z) : option (Z * Z) :=
  match dim with
  | [] => None
  | d :: dim => if days <? d then Some (days, month) else month_loop dim (u64 (days - d)) (u64 (month + 1))
  end.

Definition amdgv_cper_fill_timestamp (utc_timestamp : Z) : option cper_timestamp :=
  let days := utc_timestamp / seconds_per_day in
  let remaining_seconds := utc_timestamp mod seconds_per_day in
  '(days, year) ← year_loop (Z.to_nat days) days 1970;
  '(days, month) ← month_loop (days_in_month year) days 0;
  let month := u64 (month + 1) in
  let day := u64 (days + 1) in
  let '(hour, minute, second) :=
    if negb (remaining_seconds =? 0) then
      (remaining_seconds / seconds_per_hour, (remaining_seconds mod seconds_per_hour) / seconds_per_minute,
       remaining_seconds mod seconds_per_minute)
    else (0, 0, 0) in
  Some (mk_ts (u8 second) (u8 minute) (u8 hour) (u8 day) (u8 month) (u8 (year mod 100)) (u8 (year / 100))).

(** ** The calendar *)

Definition leaps (y : Z) : Z := y / 4 - y / 100 + y / 400.
(** Days from 1 January 1970 to 1 January of [y]. *)
Definition days_before_year (y : Z) : Z := 365 * (y - 1970) + (leaps (y - 1) - leaps 1969).
Definition days_before_month (y m : Z) : Z := foldr Z.add 0 (take (Z.to_nat (m - 1)) (days_in_month y)).
Definition days_from_civil (y m d : Z) : Z := days_before_year y + days_before_month y m + (d - 1).

Definition valid_date (y m d : Z) : Prop :=
  1 <= m <= 12 /\ exists n, days_in_month y !! Z.to_nat (m - 1) = Some n /\ 1 <= d <= n.

Lemma leap_step y : leaps y - leaps (y - 1) = Z.b2z (IS_LEAP_YEAR y).
Proof.
  unfold leaps, IS_LEAP_YEAR.
  destruct (Z.eqb_spec (y mod 4) 0), (Z.eqb_spec (y mod 100) 0), (Z.eqb_spec (y mod 400) 0); cbn;
    Z.to_euclidean_division_equations; lia.
Qed.

Lemma year_step y : days_before_year (y + 1) = days_before_year y + 365 + Z.b2z (IS_LEAP_YEAR y).
Proof. unfold days_before_year. pose proof (leap_step y). replace (y + 1 - 1) with y by lia. lia. Qed.

Lemma days_before_year_mono y z : y <= z -> days_before_year y <= days_before_year z.
Proof.
  intros H. unfold days_before_year, leaps. Z.to_euclidean_division_equations. lia.
Qed.

Lemma year_loop_ok fuel days y : 0 <= days < 2 ^ 63 -> 0 <= y -> y + days < 2 ^ 63 -> (Z.to_nat days <= fuel)%nat ->
  exists d y', year_loop fuel days y = Some (d, y') /\ y <= y' /\ 0 <= d < 365 + Z.b2z (IS_LEAP_YEAR y') /\
    days_before_year y' + d = days_before_year y + days.
Proof.
  revert days y. induction fuel as [|fuel IH]; intros days y Hd Hy Hs Hf; cbn [year_loop].
  { destruct (Z.ltb_spec days 365); [|lia]. exists days, y. destruct (IS_LEAP_YEAR y); cbn; repeat split; lia. }
  pose proof (year_step y) as Hst.
  destruct (Z.ltb_spec days 365); [exists days, y; destruct (IS_LEAP_YEAR y); cbn; repeat split; lia|].
  destruct (IS_LEAP_YEAR y) eqn:Hl; [destruct (Z.ltb_spec days 366)|].
  - exists days, y. rewrite Hl. cbn. repeat split; lia.
  - rewrite !wrap_id by (unfold in_width; lia).
    destruct (IH (days - 366) (y + 1)) as (d & y' & -> & ? & ? & ?); [lia..|]. exists d, y'. cbn in Hst. repeat split; lia.
  - rewrite !wrap_id by (unfold in_width; lia).
    destruct (IH (days - 365) (y + 1)) as (d & y' & -> & ? & ? & ?); [lia..|]. exists d, y'. cbn in Hst. repeat split; lia.
Qed.

Lemma month_loop_ok dim days m : Forall (fun d => 0 <= d) dim -> 0 <= m -> m + Z.of_nat (length dim) < 2 ^ 63 ->
  0 <= days < foldr Z.add 0 dim -> days < 2 ^ 63 ->
  exists (k : nat) d n, month_loop dim days m = Some (d, m + Z.of_nat k) /\ dim !! k = Some n /\ 0 <= d < n /\
    foldr Z.add 0 (take k dim) + d = days.
Proof.
  intros Hp. revert days m. induction Hp as [|x dim Hx Hp IH]; intros days m Hm Hw Hd Hs; cbn [foldr length month_loop] in *; [lia|].
  destruct (Z.ltb_spec days x).
  - exists 0%nat, days, x. cbn. rewrite Z.add_0_r. repeat split; lia.
  - rewrite !wrap_id by (unfold in_width; lia). destruct (IH (days - x) (m + 1)) as (k & d & n & -> & Hk & Hd' & Hsum); [lia..|].
    exists (S k), d, n. cbn [take foldr lookup list_lookup]. split_and!; [f_equal; f_equal; lia|exact Hk|lia|lia|lia].
Qed.

Lemma time_of_day rem : 0 <= rem < 86400 -> exists h mi se,
  (if negb (rem =? 0)
   then (rem / seconds_per_hour, rem mod seconds_per_hour / seconds_per_minute, rem mod seconds_per_minute)
   else (0, 0, 0)) = (h, mi, se) /\ 0 <= h < 24 /\ 0 <= mi < 60 /\ 0 <= se < 60 /\ h * 3600 + mi * 60 + se = rem.
Proof.
  intros H. unfold seconds_per_hour, seconds_per_minute. change (60 * 60) with 3600.
  destruct (Z.eqb_spec rem 0); cbn [negb]; do 3 eexists; (split; [reflexivity|]);
    Z.to_euclidean_division_equations; lia.
Qed.

(** The last second whose century fits the byte. *)
Definition in_calendar (t : Z) : Prop := 0 <= t < days_before_year 25600 * seconds_per_day.

Lemma fill_timestamp_date t : in_calendar t -> exists ts, amdgv_cper_fill_timestamp t = Some ts /\
    let y := 100 * century ts + year ts in
    valid_date y (month ts) (day ts) /\ 0 <= year ts < 100 /\
    0 <= hours ts < 24 /\ 0 <= minutes ts < 60 /\ 0 <= seconds ts < 60 /\
    days_from_civil y (month ts) (day ts) * seconds_per_day +
      hours ts * seconds_per_hour + minutes ts * seconds_per_minute + seconds ts = t.
Proof.
  unfold in_calendar. intros Ht.
  assert (seconds_per_day = 86400) as Hspd by done. rewrite Hspd in *.
  assert (days_before_year 25600 = 8630680) as Hlast by (vm_compute; reflexivity). rewrite Hlast in Ht.
  pose proof (Z.div_mod t 86400 ltac:(lia)) as Hdiv. pose proof (Z.mod_pos_bound t 86400 ltac:(lia)) as Hrem.
  set (days := t / 86400) in *. set (rem := t mod 86400) in *.
  destruct (year_loop_ok (Z.to_nat days) days 1970) as (d & y & Hyl & Hy & Hd & Hsum); [lia..|].
  destruct (month_loop_ok (days_in_month y) d 0) as (k & d' & n & Hml & Hk & Hd' & Hm).
  { unfold days_in_month. destruct (IS_LEAP_YEAR y); cbn; repeat constructor; lia. }
  { lia. } { cbn. lia. } { clear - Hd. unfold days_in_month. destruct (IS_LEAP_YEAR y); cbn in *; lia. }
  { clear - Hd. destruct (IS_LEAP_YEAR y); cbn in Hd; lia. }
  assert (y < 25600) as Hy2.
  { destruct (Z.lt_ge_cases y 25600) as [|Hge]; [done|exfalso].
    pose proof (days_before_year_mono 25600 y Hge). change (days_before_year 1970) with 0 in Hsum. lia. }
  assert (k < 12)%nat as Hk12 by (apply lookup_lt_Some in Hk; exact Hk).
  assert (n <= 31) as Hn.
  { unfold days_in_month in Hk. destruct (IS_LEAP_YEAR y); do 12 (destruct k as [|k]; [injection Hk as <-; cbn; lia|]); lia. }
  unfold amdgv_cper_fill_timestamp. rewrite Hspd. fold days rem. rewrite Hyl. cbn [mbind option_bind]. rewrite Hml.
  cbn [mbind option_bind].
  assert (exists h mi se, (if negb (rem =? 0)
      then (rem / seconds_per_hour, rem mod seconds_per_hour / seconds_per_minute, rem mod seconds_per_minute)
      else (0, 0, 0)) = (h, mi, se) /\ 0 <= h < 24 /\ 0 <= mi < 60 /\ 0 <= se < 60 /\ h * 3600 + mi * 60 + se = rem)
    as (h & mi & se & -> & Hh & Hmi & Hse & Hrs) by (apply time_of_day; lia).
  assert (0 <= y / 100 < 256 /\ 0 <= y mod 100 < 100 /\ 100 * (y / 100) + y mod 100 = y) as (Hc & Hyy & Hyd)
    by (Z.to_euclidean_division_equations; lia).
  rewrite (wrap_id 64 (0 + Z.of_nat k + 1)), (wrap_id 64 (d' + 1)), !wrap_id by (unfold in_width; lia).
  eexists. split; [reflexivity|].
  cbv zeta. cbn [century CperTime.year month day hours minutes seconds]. rewrite !Hyd.
  replace (0 + Z.of_nat k + 1) with (Z.of_nat k + 1) by lia.
  split_and!; try lia.
  - split; [lia|]. exists n. replace (Z.of_nat k + 1 - 1) with (Z.of_nat k) by lia. rewrite Nat2Z.id. split; [done|lia].
  - unfold days_from_civil, days_before_month. replace (Z.of_nat k + 1 - 1) with (Z.of_nat k) by lia. rewrite Nat2Z.id.
    change (days_before_year 1970) with 0 in Hsum. unfold seconds_per_hour, seconds_per_minute. lia.
Qed.

(** ** The Gregorian calendar, one day after the other *)

(** "Thirty days hath September, April, June and November." *)
Definition leap_year (y : Z) : bool := if y mod 100 =? 0 then y mod 400 =? 0 else y mod 4 =? 0.
Definition month_length (y m : Z) : Z :=
  if m =? 2 then (if leap_year y then 29 else 28)
  else if (m =? 9) || (m =? 4) || (m =? 6) || (m =? 11) then 30 else 31.
Definition next_day (date : Z * Z * Z) : Z * Z * Z :=
  let '(y, m, d) := date in
  if d <? month_length y m then (y, m, d + 1) else if m <? 12 then (y, m + 1, 1) else (y + 1, 1, 1).
Definition date_after (days : nat) : Z * Z * Z := Nat.iter days next_day (1970, 1, 1).

Lemma leap_agrees y : IS_LEAP_YEAR y = leap_year y.
Proof.
  unfold IS_LEAP_YEAR, leap_year.
  destruct (Z.eqb_spec (y mod 4) 0), (Z.eqb_spec (y mod 100) 0), (Z.eqb_spec (y mod 400) 0); cbn; try done;
    exfalso; Z.to_euclidean_division_equations; lia.
Qed.

Lemma month_cases m : 1 <= m <= 12 -> exists k, m = Z.of_nat (S k) /\ (k < 12)%nat.
Proof. intros. exists (Z.to_nat (m - 1)). lia. Qed.
Ltac each_month m Hm :=
  let k := fresh "k" in let Hk := fresh "Hk" in
  destruct (month_cases m Hm) as (k & -> & Hk); do 12 (try (destruct k as [|k])); try lia;
  repeat match goal with |- context [Z.of_nat ?n] => let z := eval vm_compute in (Z.of_nat n) in change (Z.of_nat n) with z in * end.

Lemma month_table y m : 1 <= m <= 12 -> days_in_month y !! Z.to_nat (m - 1) = Some (month_length y m).
Proof.
  intros Hm. unfold days_in_month, month_length. rewrite leap_agrees.
  each_month m Hm; cbn; try done; by destruct (leap_year y).
Qed.
Lemma valid_iff y m d : valid_date y m d <-> 1 <= m <= 12 /\ 1 <= d <= month_length y m.
Proof.
  unfold valid_date. split.
  - intros [Hm (n & Hn & Hd)]. rewrite month_table in Hn by done. by simplify_eq.
  - intros [Hm Hd]. split; [done|]. exists (month_length y m). by rewrite month_table.
Qed.

Lemma month_step y m : 1 <= m < 12 -> days_before_month y (m + 1) = days_before_month y m + month_length y m.
Proof.
  intros Hm. assert (1 <= m <= 12) as Hm' by lia. unfold days_before_month, days_in_month, month_length. rewrite leap_agrees.
  each_month m Hm'; try lia; by destruct (leap_year y).
Qed.
Lemma year_end y : days_before_month y 12 + month_length y 12 = 365 + Z.b2z (leap_year y).
Proof. unfold days_before_month, days_in_month, month_length. rewrite leap_agrees. by destruct (leap_year y). Qed.

Definition civil (date : Z * Z * Z) : Z := let '(y, m, d) := date in days_from_civil y m d.
Definition valid (date : Z * Z * Z) : Prop := let '(y, m, d) := date in 1 <= m <= 12 /\ 1 <= d <= month_length y m.

Lemma month_length_pos y m : 28 <= month_length y m.
Proof. unfold month_length. destruct (m =? 2); [destruct (leap_year y); lia|]. destruct (_ || _); lia. Qed.

Lemma next_day_civil date : valid date -> valid (next_day date) /\ civil (next_day date) = civil date + 1.
Proof.
  destruct date as [[y m] d]. intros [Hm Hd]. cbn [valid civil next_day]. unfold days_from_civil.
  destruct (Z.ltb_spec d (month_length y m)); cbn [valid civil]; [unfold days_from_civil; split; lia|].
  destruct (Z.ltb_spec m 12); cbn [valid civil]; unfold days_from_civil.
  - pose proof (month_step y m ltac:(lia)). pose proof (month_length_pos y (m + 1)). split; lia.
  - assert (m = 12) as -> by lia. pose proof (year_step y) as Hy. pose proof (year_end y). rewrite leap_agrees in Hy.
    pose proof (month_length_pos (y + 1) 1). change (days_before_month (y + 1) 1) with 0. split; lia.
Qed.

Lemma date_after_civil n : valid (date_after n) /\ civil (date_after n) = Z.of_nat n.
Proof.
  induction n as [|n [Hv Hc]]; [split; [by cbn|by vm_compute]|].
  destruct (next_day_civil _ Hv) as [Hv' Hc']. change (date_after (S n)) with (next_day (date_after n)). split; [done|lia].
Qed.

(** Days into the year. *)
Lemma month_bound y m : 1 <= m <= 12 ->
  0 <= days_before_month y m /\ days_before_month y m + month_length y m <= 365 + Z.b2z (leap_year y).
Proof.
  intros Hm. unfold days_before_month, days_in_month, month_length. rewrite leap_agrees.
  each_month m Hm; destruct (leap_year y); vm_compute; split; discriminate.
Qed.
Lemma day_of_year y m d : valid (y, m, d) -> 0 <= days_before_month y m + (d - 1) < 365 + Z.b2z (leap_year y).
Proof. intros [Hm Hd]. pose proof (month_bound y m Hm). lia. Qed.
Lemma month_unique y m d m' d' : valid (y, m, d) -> valid (y, m', d') ->
  days_before_month y m + d = days_before_month y m' + d' -> m = m' /\ d = d'.
Proof.
  enough (forall m d m' d', valid (y, m, d) -> valid (y, m', d') -> m < m' ->
    days_before_month y m + d < days_before_month y m' + d') as H.
  { intros H1 H2 He. destruct (Z.lt_total m m') as [Hl|[->|Hl]]; [|lia|].
    - pose proof (H m d m' d' H1 H2 Hl). lia.
    - pose proof (H m' d' m d H2 H1 Hl). lia. }
  clear. intros m d m' d' [Hm Hd] [Hm' Hd'] Hlt.
  assert (forall k : nat, m + 1 + Z.of_nat k <= 12 -> days_before_month y (m + 1) <= days_before_month y (m + 1 + Z.of_nat k)) as Hmono.
  { induction k as [|k IH]; intros Hk; [rewrite Z.add_0_r; lia|]. rewrite Nat2Z.inj_succ.
    replace (m + 1 + Z.succ (Z.of_nat k)) with (m + 1 + Z.of_nat k + 1) by lia. rewrite (month_step y (m + 1 + Z.of_nat k)) by lia.
    pose proof (month_length_pos y (m + 1 + Z.of_nat k)). pose proof (IH ltac:(lia)). lia. }
  pose proof (month_step y m ltac:(lia)). specialize (Hmono (Z.to_nat (m' - m - 1)) ltac:(lia)).
  replace (m + 1 + Z.of_nat (Z.to_nat (m' - m - 1))) with m' in Hmono by lia. lia.
Qed.

Lemma civil_unique p q : valid p -> valid q -> civil p = civil q -> p = q.
Proof.
  destruct p as [[y m] d], q as [[y' m'] d']. cbn [civil]. unfold days_from_civil. intros Hp Hq He.
  pose proof (day_of_year y m d Hp) as H1. pose proof (day_of_year y' m' d' Hq) as H2.
  assert (forall a b, a < b -> days_before_year a + 365 + Z.b2z (leap_year a) <= days_before_year b) as Hy.
  { intros a b Hab. rewrite <- leap_agrees, <- year_step. apply days_before_year_mono. lia. }
  assert (y = y') as <-.
  { destruct (Z.lt_total y y') as [Hl|[|Hl]]; [|done|]; specialize (Hy _ _ Hl); lia. }
  destruct (month_unique y m d m' d' Hp Hq ltac:(lia)) as [-> ->]. done.
Qed.

(** C37: the time stamp of a record names the date that counting day by day in
    the Gregorian calendar reaches from 1 January 1970, after as many days as
    the given number of seconds makes, and the time of that day, until the
    year 25599, where the byte of the century ends. *)
Theorem cper_timestamp_calendar t (Ht : in_calendar t) :
  exists ts, amdgv_cper_fill_timestamp t = Some ts /\
    (100 * century ts + year ts, month ts, day ts) = date_after (Z.to_nat (t / 86400)) /\ 0 <= year ts < 100 /\
    0 <= hours ts < 24 /\ 0 <= minutes ts < 60 /\ 0 <= seconds ts < 60 /\
    hours ts * 3600 + minutes ts * 60 + seconds ts = t mod 86400.
Proof.
  destruct (fill_timestamp_date t Ht) as (ts & Hts & Hv & Hy & Hh & Hmi & Hs & Hsum). exists ts. cbv zeta in *.
  unfold in_calendar in Ht. unfold seconds_per_day, seconds_per_hour, seconds_per_minute in *.
  change (24 * 60 * 60) with 86400 in *. change (60 * 60) with 3600 in *.
  set (n := days_from_civil _ _ _) in *. apply valid_iff in Hv.
  assert (t / 86400 = n /\ t mod 86400 = hours ts * 3600 + minutes ts * 60 + seconds ts) as [Hd Hm].
  { split; [symmetry; apply (Z.div_unique t 86400 n (hours ts * 3600 + minutes ts * 60 + seconds ts)); lia|].
    symmetry. apply (Z.mod_unique t 86400 n). lia. lia. }
  split_and!; [done| |lia..]. destruct (date_after_civil (Z.to_nat (t / 86400))) as [Hv' Hc'].
  apply civil_unique; [done|done|]. rewrite Hc', Hd. cbn [civil]. fold n.
  pose proof (Z.div_pos t 86400 ltac:(lia) ltac:(lia)). lia.
Qed.

(** ** Witness *)

(** 29 February 2024, 12:34:56: day 19782 after 1 January 1970. *)
Lemma cper_timestamp_calendar_witness :
  amdgv_cper_fill_timestamp 1709210096 = Some (mk_ts 56 34 12 29 2 24 20) /\
  date_after (Z.to_nat 19782) = (2024, 2, 29).
Proof.
  split; [reflexivity|].
  destruct (cper_timestamp_calendar 1709210096 ltac:(vm_compute; split; [discriminate|reflexivity]))
    as (ts & Hts & H & _).
  vm_compute in Hts. injection Hts as <-. symmetry. exact H.
Defined.
