(* ===== verification/Cper.v ===== *)
(** * CPER records and their ring (src/libgv/core/amdgv_cper.c)

    A hardware error is kept as a CPER record: a header, a table of section
    descriptors and the sections, packed in one allocation.  The last
    [max_count] records are kept in a ring; readers name records by their
    number since the start.  Records are bytes in a heap, so a record read
    after it was freed, or a byte outside of one, is a fault.

    The offsets below are those of the packed structures of amd_cper.h.  The
    records made by amdgv_mca.c and amdgv_device.c are at the end. *)
From Stdlib Require Import String.
From stdpp Require Import strings gmap.
From S2P Require Import Prelude Oss Bytes CperTime.
#[local] Open Scope Z_scope.

(** [sizeof] the packed structures. *)
Definition HDR_LEN : Z := 128.
Definition SEC_DESC_LEN : Z := 72.
Definition BOOT_SEC_LEN : Z := 208.
Definition FATAL_SEC_LEN : Z := 176.
Definition NONSTD_SEC_LEN : Z := 272.

Definition SEC_DESC_OFFSET (idx : Z) : Z := HDR_LEN + SEC_DESC_LEN * idx.
Definition BOOT_SEC_OFFSET (count idx : Z) : Z := HDR_LEN + SEC_DESC_LEN * count + BOOT_SEC_LEN * idx.
Definition FATAL_SEC_OFFSET (count idx : Z) : Z := HDR_LEN + SEC_DESC_LEN * count + FATAL_SEC_LEN * idx.
Definition NONSTD_SEC_OFFSET (count idx : Z) : Z := HDR_LEN + SEC_DESC_LEN * count + NONSTD_SEC_LEN * idx.

Definition AMDGV_CPER_MAX_ALLOWED_COUNT : Z := 4096.
Definition CPER_MAX_OAM_COUNT : Z := 8.
Definition CPER_ACA_REG_COUNT : Z := 32.
Definition CPER_SEV_NON_FATAL_UNCORRECTED : Z := 0.
Definition CPER_SEV_FATAL : Z := 1.
Definition CPER_SEV_NON_FATAL_CORRECTED : Z := 2.
Definition CPER_CTX_TYPE_CRASH : Z := 1.
Definition CPER_CTX_TYPE_BOOT : Z := 9.
Definition AMDGV_FAILURE : Z := -1.

Definition GUID_INIT (a b c : Z) (d : bytes) : bytes := le 4 a ++ le 2 b ++ le 2 c ++ d.
Definition MCE : bytes := GUID_INIT 0xE8F56FFE 0x919C 0x4cc5 [0xBA; 0x88; 0x65; 0xAB; 0xE1; 0x49; 0x13; 0xBB].
Definition CMC : bytes := GUID_INIT 0x2DCE8BB1 0xBDD7 0x450e [0xB9; 0xAD; 0x9C; 0xF4; 0xEB; 0xD4; 0xF8; 0x90].
Definition BOOT : bytes := GUID_INIT 0x3D61A466 0xAB40 0x409a [0xA6; 0x98; 0xF3; 0x62; 0xD4; 0x64; 0xB3; 0x8F].
Definition CRASHDUMP : bytes := GUID_INIT 0x32AC0C78 0x2623 0x48F6 [0xB0; 0xD0; 0x73; 0x65; 0x72; 0x5F; 0xD6; 0xAE].
Definition RUNTIME : bytes := GUID_INIT 0x32AC0C78 0x2623 0x48F6 [0x81; 0xA2; 0xAC; 0x69; 0x17; 0x80; 0x55; 0x1D].

Inductive amdgv_cper_type :=
| AMDGV_CPER_TYPE_RUNTIME | AMDGV_CPER_TYPE_FATAL | AMDGV_CPER_TYPE_BOOT | AMDGV_CPER_TYPE_BP_THR
| AMDGV_CPER_TYPE_MAX.
#[export] Instance amdgv_cper_type_eq_dec : EqDecision amdgv_cper_type.
Proof. solve_decision. Defined.

Inductive fmt_arg := Num (z : Z) | Str (s : bytes).

(** What the records say of the board, the text the kernel's formatter makes
    of a format and its arguments, and the successive readings of the clock. *)
Class CperEnv := {
  socket_id : Z;
  phy_node_id : Z;
  smu_fw_version : Z;
  vendor_id : Z;
  dev_id : Z;
  pldm_version : Z;
  product_serial : bytes;
  vsnprintf : string -> list fmt_arg -> bytes;
  utc_time : nat -> Z;
}.

(** ** One record *)

Section record.
Context {E : CperEnv}.

(** [oss_vsnprintf] writes as much of the text as fits and a zero. *)
Definition oss_vsnprintf (off : Z) (size : nat) (f : string) (args : list fmt_arg) : M bytes unit :=
  wr off (take (size - 1) (vsnprintf f args) ++ [0]).

Definition record_length : M bytes Z := rdn 4 20.
Definition sec_cnt : M bytes Z := rdn 2 10.
Definition inc_entry_length (size : Z) : M bytes unit := x ← record_length; wrn 4 20 (u32 (x + size)).

Definition fill_timestamp (utc : Z) : M bytes unit :=
  ts ← require (amdgv_cper_fill_timestamp utc);
  _ ← wrn 1 24 (seconds ts);
  _ ← wrn 1 25 (minutes ts);
  _ ← wrn 1 26 (hours ts);
  _ ← wrn 1 28 (day ts);
  _ ← wrn 1 29 (month ts);
  _ ← wrn 1 31 (century ts);
  wrn 1 30 (year ts).

(** [uid] and [utc] are what the atomic counter and the clock answer. *)
Definition fill_hdr_fields (uid utc : Z) (type : amdgv_cper_type) (sev : Z) : M bytes unit :=
  _ ← wr 0 [67; 80; 69; 82];
  _ ← wrn 2 4 0x100;
  _ ← wrn 4 6 0xFFFFFFFF;
  _ ← wrn 4 12 sev;
  _ ← wr_field 4 16 0 1 1;
  _ ← wr_field 4 16 1 1 1;
  _ ← oss_vsnprintf 96 8 "%d:%X" [Num socket_id; Num uid];
  _ ← fill_timestamp utc;
  _ ← oss_vsnprintf 64 16 "%s:%08X" [Str [97; 109; 100; 103; 118]; Num smu_fw_version];
  _ ← oss_vsnprintf 32 16 "0x%04X:0x%04X" [Num vendor_id; Num dev_id];
  _ ← match type with
      | AMDGV_CPER_TYPE_BOOT => wr 80 BOOT
      | AMDGV_CPER_TYPE_FATAL | AMDGV_CPER_TYPE_BP_THR => wr 80 MCE
      | AMDGV_CPER_TYPE_RUNTIME => if sev =? CPER_SEV_NON_FATAL_CORRECTED then wr 80 CMC else wr 80 MCE
      | AMDGV_CPER_TYPE_MAX => mret tt
      end;
  inc_entry_length HDR_LEN.

(** [d] is the offset of the descriptor. *)
Definition amdgv_cper_entry_fill_section_desc (d : Z) (bp_threshold poison : bool) (sev : Z) (sec_type : bytes)
    (section_length section_offset : Z) : M bytes unit :=
  _ ← wrn 1 (d + 8) 0x02;
  _ ← wrn 1 (d + 9) 0x22;
  _ ← wrn 4 d section_offset;
  _ ← wrn 4 (d + 4) section_length;
  _ ← wr_field 1 (d + 10) 0 1 1;
  _ ← wr_field 1 (d + 10) 1 1 1;
  _ ← wr_field 4 (d + 12) 0 1 1;
  _ ← wrn 4 (d + 48) sev;
  _ ← wr (d + 16) sec_type;
  _ ← oss_vsnprintf (d + 52) 20 "OAM%d" [Num socket_id];
  _ ← oss_vsnprintf (d + 32) 16 "%s" [Str product_serial];
  _ ← when bp_threshold (wr_field 4 (d + 12) 3 1 1);
  when poison (wr_field 4 (d + 12) 4 1 1).

Definition amdgv_cper_entry_fill_fatal_section (idx : Z) (reg_data : list Z) : M bytes unit :=
  cnt ← sec_cnt;
  let s := FATAL_SEC_OFFSET cnt idx in
  _ ← amdgv_cper_entry_fill_section_desc (SEC_DESC_OFFSET idx) false false CPER_SEV_FATAL CRASHDUMP FATAL_SEC_LEN (u32 s);
  _ ← wrn 2 (s + 128) CPER_CTX_TYPE_CRASH;
  _ ← wrn 2 (s + 130) 32;
  _ ← wr (s + 144) (concat (le 4 <$> reg_data));
  inc_entry_length (SEC_DESC_LEN + FATAL_SEC_LEN).

Definition amdgv_cper_entry_fill_boot_section (idx : Z) (msg : list Z) (msg_count : Z) : M bytes unit :=
  cnt ← sec_cnt;
  let s := BOOT_SEC_OFFSET cnt idx in
  _ ← amdgv_cper_entry_fill_section_desc (SEC_DESC_OFFSET idx) false false CPER_SEV_FATAL CRASHDUMP BOOT_SEC_LEN (u32 s);
  let msg_count := Z.min msg_count CPER_MAX_OAM_COUNT in
  _ ← wrn 2 (s + 128) CPER_CTX_TYPE_BOOT;
  _ ← wrn 2 (s + 130) 64;
  _ ← demand (msg_count <=? Z.of_nat (length msg));
  _ ← wr (s + 144) (concat (le 8 <$> take (Z.to_nat msg_count) msg));
  inc_entry_length (SEC_DESC_LEN + BOOT_SEC_LEN).

(** The fields both kinds of non-standard section have in common. *)
Definition fill_nonstd_hdr (s : Z) : M bytes unit :=
  _ ← wr_field 8 s 14 1 1;
  _ ← wr_field 8 s 15 1 (if pldm_version =? 0 then 0 else 1);
  _ ← wr_field 8 s 2 6 1;
  _ ← wr_field 8 s 8 6 1;
  _ ← wrn 4 (s + 8) dev_id;
  _ ← wrn 4 (s + 12) pldm_version;
  wr (s + 64) RUNTIME.

Definition amdgv_cper_entry_fill_runtime_section (idx sev : Z) (reg_dump : list Z) (reg_count : Z) : M bytes unit :=
  let poison := negb (sev =? CPER_SEV_NON_FATAL_CORRECTED) in
  cnt ← sec_cnt;
  let s := NONSTD_SEC_OFFSET cnt idx in
  _ ← amdgv_cper_entry_fill_section_desc (SEC_DESC_OFFSET idx) false poison sev RUNTIME NONSTD_SEC_LEN (u32 s);
  let reg_count := Z.min reg_count CPER_ACA_REG_COUNT in
  _ ← fill_nonstd_hdr s;
  _ ← wr_field 8 (s + 88) 0 1 1;
  _ ← wrn 2 (s + 128) CPER_CTX_TYPE_CRASH;
  _ ← wrn 2 (s + 130) 128;
  _ ← demand (reg_count <=? Z.of_nat (length reg_dump));
  _ ← wr (s + 144) (concat (le 4 <$> take (Z.to_nat reg_count) reg_dump));
  inc_entry_length (SEC_DESC_LEN + NONSTD_SEC_LEN).

(** The registers a bad-page record pretends to have read, by their index. *)
Definition bad_page_regs (oam_id : Z) : list (Z * Z) :=
  [(0, 0x1); (1, 0x0); (2, 0x137); (3, 0xB0000000); (4, 0x0); (5, 0x0); (6, 0x0); (7, 0x0); (8, 0x2); (9, 0x1ff);
   (10, Z.land (Z.shiftr oam_id 2) 1); (11, Z.lor 0x96 (Z.shiftl (Z.land oam_id 3) 12)); (12, 0x0); (13, 0x0)].

Definition amdgv_cper_entry_fill_bad_page_thr_section (idx oam_id : Z) : M bytes unit :=
  cnt ← sec_cnt;
  let s := NONSTD_SEC_OFFSET cnt idx in
  _ ← amdgv_cper_entry_fill_section_desc (SEC_DESC_OFFSET idx) true false CPER_SEV_FATAL RUNTIME NONSTD_SEC_LEN (u32 s);
  _ ← fill_nonstd_hdr s;
  _ ← wr_field 8 (s + 80) 0 1 1;
  _ ← wr_field 8 (s + 88) 0 1 1;
  _ ← wr_field 8 (s + 88) 16 2 1;
  _ ← wr_field 8 (s + 88) 18 1 1;
  _ ← wrn 2 (s + 128) CPER_CTX_TYPE_CRASH;
  _ ← wrn 2 (s + 130) 128;
  _ ← for_each (bad_page_regs oam_id) (fun r => wrn 4 (s + 144 + 4 * fst r) (snd r));
  inc_entry_length (SEC_DESC_LEN + NONSTD_SEC_LEN).

Definition amdgv_cper_get_type (idx : Z) : M bytes amdgv_cper_type :=
  n ← rd 80 16;
  if bool_decide (n = BOOT) then mret AMDGV_CPER_TYPE_BOOT else
  t ← rd (SEC_DESC_OFFSET idx + 16) 16;
  if bool_decide (t = CRASHDUMP) then mret AMDGV_CPER_TYPE_FATAL
  else if bool_decide (t = RUNTIME) then mret AMDGV_CPER_TYPE_RUNTIME
  else mret AMDGV_CPER_TYPE_MAX.

(** The offset of the registers of a section. *)
Definition amdgv_cper_get_crashdump (idx : Z) : M bytes Z :=
  cnt ← sec_cnt; mret (FATAL_SEC_OFFSET cnt idx + 144).
Definition amdgv_cper_get_runtime_reg_dump (idx : Z) : M bytes Z :=
  cnt ← sec_cnt; mret (NONSTD_SEC_OFFSET cnt idx + 144).
End record.

(** ** The ring

    [heap] holds the records that are allocated; [ring] holds pointers to
    them, [None] for NULL. *)

Record vf_ras := mk_vf_ras { caps : Z; start_rptr : Z; prev_host_wptr : Z }.
#[export] Instance eta_vf_ras : Eta vf_ras := fun r => mk_vf_ras (caps r) (start_rptr r) (prev_host_wptr r).

Record amdgv_cper := mk_cper {
  enabled : bool;
  next_uid : Z;
  max_count : Z;
  count : Z;
  wptr : Z;
  ring : list (option nat);
  heap : gmap nat bytes;
  fresh_ptr : nat;      (* the next address of the allocator *)
  utc_reads : nat;
  os : oss_state;
  vfs : list vf_ras;    (* array_vf[i].xchg.ras *)
}.
#[export] Instance eta_amdgv_cper : Eta amdgv_cper := fun r =>
  mk_cper (enabled r) (next_uid r) (max_count r) (count r) (wptr r) (ring r) (heap r) (fresh_ptr r) (utc_reads r) (os r) (vfs r).

Section ring.
Context {E : CperEnv} {OE : OssEnv}.

Definition on_record {A} (p : nat) (m : M bytes A) : M amdgv_cper A := fun s =>
  match heap s !! p with
  | None => Fault
  | Some r => match m r with
              | Ret (a, r') => Ret (a, s <| heap := <[p := r']> (heap s) |>)
              | Fault => Fault
              end
  end.

Definition oss_zalloc (size : Z) : M amdgv_cper (option nat) :=
  ok ← zoom os (fun o s => s <| os := o |>) oss_alloc;
  if negb ok then mret None else
  p ← gets fresh_ptr;
  _ ← modify (fun s => s <| heap := <[p := replicate (Z.to_nat size) 0]> (heap s) |> <| fresh_ptr := S p |>);
  mret (Some p).

Definition oss_free_record (p : nat) : M amdgv_cper unit :=
  h ← gets heap;
  _ ← require (h !! p);
  _ ← modify (fun s => s <| heap := delete p (heap s) |>);
  zoom os (fun o s => s <| os := o |>) oss_free.

Definition amdgv_cper_entry_fill_hdr (p : nat) (type : amdgv_cper_type) (sev : Z) : M amdgv_cper unit :=
  uid ← gets (fun s => u64 (next_uid s + 1));
  _ ← modify (fun s => s <| next_uid := uid |>);
  n ← gets utc_reads;
  _ ← modify (fun s => s <| utc_reads := S n |>);
  on_record p (fill_hdr_fields uid (utc_time n) type sev).

Definition amdgv_cper_commit_entry (p : nat) : M amdgv_cper Z :=
  en ← gets enabled;
  if negb en then mret AMDGV_FAILURE else
  s ← gets id;
  let wr_idx := Z.to_nat (wptr s mod max_count s) in
  old ← require (ring s !! wr_idx);
  _ ← (match old with Some q => oss_free_record q | None => mret tt end);
  _ ← modify (fun s => s <| ring := <[wr_idx := Some p]> (ring s) |>);
  _ ← modify (fun s => s <| count := u64 (count s + 1) |>);
  _ ← modify (fun s => s <| wptr := u64 (wptr s + 1) |>);
  mret 0.

Definition alloc_size (type : amdgv_cper_type) (section_count : Z) : option Z :=
  let size := u32 (0 + HDR_LEN) in
  let size := u32 (size + SEC_DESC_LEN * section_count) in
  match type with
  | AMDGV_CPER_TYPE_RUNTIME | AMDGV_CPER_TYPE_BP_THR => Some (u32 (size + NONSTD_SEC_LEN * section_count))
  | AMDGV_CPER_TYPE_FATAL => Some (u32 (size + FATAL_SEC_LEN * section_count))
  | AMDGV_CPER_TYPE_BOOT => Some (u32 (size + BOOT_SEC_LEN * section_count))
  | AMDGV_CPER_TYPE_MAX => None
  end.

Definition amdgv_cper_alloc_entry (type : amdgv_cper_type) (section_count : Z) : M amdgv_cper (option nat) :=
  en ← gets enabled;
  if negb en then mret None else
  match alloc_size type section_count with
  | None => mret None
  | Some size =>
      hdr ← oss_zalloc size;
      match hdr with
      | None => mret None
      | Some p => _ ← on_record p (wrn 2 10 section_count); mret (Some p)
      end
  end.

Definition amdgv_cper_sw_init (max_cper_count : Z) : M amdgv_cper Z :=
  if max_cper_count <? 0 then
    _ ← modify (fun s => s <| enabled := false |>); mret 0
  else
    _ ← modify (fun s => s <| max_count :=
          if (0 <? max_cper_count) && (max_cper_count <=? AMDGV_CPER_MAX_ALLOWED_COUNT)
          then max_cper_count else AMDGV_CPER_MAX_ALLOWED_COUNT |>);
    _ ← modify (fun s => s <| enabled := true |>);
    mret 0.

Definition amdgv_cper_sw_fini : M amdgv_cper Z :=
  _ ← modify (fun s => s <| enabled := false |>);
  n ← gets max_count;
  _ ← for_each (seq 0 (Z.to_nat n)) (fun i =>
        rg ← gets ring;
        e ← require (rg !! i);
        match e with
        | Some p => _ ← oss_free_record p; modify (fun s => s <| ring := <[i := None]> (ring s) |>)
        | None => mret tt
        end);
  _ ← modify (fun s => s <| count := 0 |>);
  _ ← modify (fun s => s <| wptr := 0 |>);
  mret 0.

Definition CPER_MOVE_TO_FIRST_VALID (s : amdgv_cper) (rptr : Z) : Z :=
  if wptr s <? rptr then wptr s
  else if max_count s <? u64 (wptr s - rptr) then u64 (wptr s - max_count s) else rptr.

Definition ring_at (i : Z) : M amdgv_cper (option nat) :=
  s ← gets id;
  require (ring s !! Z.to_nat (i mod max_count s)).

(** [for (; i < wptr; i++) *size += record_length], skipping NULL. *)
Fixpoint size_loop (fuel : nat) (i size : Z) : M amdgv_cper Z :=
  w ← gets wptr;
  if negb (i <? w) then mret size else
  match fuel with
  | O => fault
  | S fuel =>
      hdr ← ring_at i;
      match hdr with
      | None => size_loop fuel (u64 (i + 1)) size
      | Some p => l ← on_record p record_length; size_loop fuel (u64 (i + 1)) (u64 (size + l))
      end
  end.

(** The loops visit each of the records in the window once. *)
Definition loop_fuel : M amdgv_cper nat := gets (fun s => Z.to_nat (max_count s)).

(** wptr, avail_count and size. *)
Definition amdgv_cper_get_count (rptr : Z) : M amdgv_cper (Z * Z * Z) :=
  s ← gets id;
  let rptr := if wptr s <? rptr then wptr s else rptr in
  let first := CPER_MOVE_TO_FIRST_VALID s rptr in
  let avail_count := u64 (wptr s - first) in
  fuel ← loop_fuel;
  size ← size_loop fuel first 0;
  mret (wptr s, avail_count, size).

(** The loop that copies records to the caller's buffer; the index it stopped
    at, the number of records copied and the buffer. *)
Fixpoint copy_loop (fuel : nat) (buf_size i offset write_count : Z) (buf : bytes) : M amdgv_cper (Z * Z * bytes) :=
  w ← gets wptr;
  if negb (i <? w) then mret (i, write_count, buf) else
  match fuel with
  | O => fault
  | S fuel =>
      hdr ← ring_at i;
      match hdr with
      | None => copy_loop fuel buf_size (u64 (i + 1)) offset write_count buf
      | Some p =>
          l ← on_record p record_length;
          if buf_size <? u32 (offset + l) then mret (i, write_count, buf) else
          data ← on_record p (rd 0 l);
          _ ← demand (inside offset l buf);
          copy_loop fuel buf_size (u64 (i + 1)) (u32 (offset + l)) (u64 (write_count + 1)) (st offset data buf)
      end
  end.

(** write_count, overflow_count, left_size and the buffer. *)
Definition amdgv_cper_get_entries (rptr : Z) (buf : bytes) (buf_size : Z) : M amdgv_cper (Z * Z * Z * bytes) :=
  s ← gets id;
  let rptr := if wptr s <? rptr then wptr s else rptr in
  let first := CPER_MOVE_TO_FIRST_VALID s rptr in
  let overflow_count := u64 (first - rptr) in
  fuel ← loop_fuel;
  '(i, write_count, buf) ← copy_loop fuel buf_size first 0 0 buf;
  left_size ← size_loop fuel i 0;
  mret (write_count, overflow_count, left_size, buf).

Definition amdgv_cper_get_ring_entry (rptr : Z) : M amdgv_cper (option nat) :=
  en ← gets enabled;
  if negb en then mret None else ring_at rptr.
End ring.

(** ** The records of machine-check banks and of retired memory *)

Inductive amdgv_mca_error_type := AMDGV_MCA_ERROR_TYPE_UE | AMDGV_MCA_ERROR_TYPE_CE | AMDGV_MCA_ERROR_TYPE_DE.
#[export] Instance amdgv_mca_error_type_eq_dec : EqDecision amdgv_mca_error_type.
Proof. solve_decision. Defined.

Record mca_bank_entry := mk_bank { bank_type : amdgv_mca_error_type; regs : list Z }.

Definition MCA_REG_IDX_CTL : nat := 0.
Definition MCA_REG_IDX_STATUS : nat := 1.
Definition MCA_REG_IDX_ADDR : nat := 2.
Definition MCA_REG_IDX_MISC0 : nat := 3.
Definition MCA_REG_IDX_CONFIG : nat := 4.
Definition MCA_REG_IDX_IPID : nat := 5.
Definition MCA_REG_IDX_SYND : nat := 6.
Definition MCA_REG_IDX_DESTAT : nat := 8.
Definition MCA_REG_IDX_DEADDR : nat := 9.
Definition MCA_REG_IDX_MISC1 : nat := 10.
Definition MCA_REG_IDX_COUNT : nat := 16.

Definition lower_32_bits (z : Z) : Z := u32 z.
Definition upper_32_bits (z : Z) : Z := u32 (Z.shiftr (Z.shiftr z 16) 16).

Section banks.
Context {E : CperEnv} {OE : OssEnv}.

Definition amdgv_mca_type_to_cper_sev (t : amdgv_mca_error_type) : Z :=
  match t with
  | AMDGV_MCA_ERROR_TYPE_UE => CPER_SEV_FATAL
  | AMDGV_MCA_ERROR_TYPE_CE => CPER_SEV_NON_FATAL_CORRECTED
  | AMDGV_MCA_ERROR_TYPE_DE => CPER_SEV_NON_FATAL_UNCORRECTED
  end.

(** The two halves of the registers [is_]. *)
Definition halves (b : mca_bank_entry) (is_ : list nat) : M amdgv_cper (list Z) :=
  vs ← require (mapM (fun i => regs b !! i) is_);
  mret (concat ((fun v => [lower_32_bits v; upper_32_bits v]) <$> vs)).

Definition amdgv_mca_generate_ue_cper (bank : mca_bank_entry) : M amdgv_cper Z :=
  fatal ← amdgv_cper_alloc_entry AMDGV_CPER_TYPE_FATAL 1;
  match fatal with
  | None => mret AMDGV_FAILURE
  | Some p =>
      reg_data ← halves bank [MCA_REG_IDX_STATUS; MCA_REG_IDX_ADDR; MCA_REG_IDX_IPID; MCA_REG_IDX_SYND];
      _ ← amdgv_cper_entry_fill_hdr p AMDGV_CPER_TYPE_FATAL CPER_SEV_FATAL;
      _ ← on_record p (amdgv_cper_entry_fill_fatal_section 0 reg_data);
      _ ← amdgv_cper_commit_entry p;
      mret 0
  end.

(** [reg_data] of a corrected error: registers 14, 15 and those past 21 stay zero. *)
Definition runtime_regs (bank : mca_bank_entry) : M amdgv_cper (list Z) :=
  lo ← halves bank [MCA_REG_IDX_CTL; MCA_REG_IDX_STATUS; MCA_REG_IDX_ADDR; MCA_REG_IDX_MISC0; MCA_REG_IDX_CONFIG;
                    MCA_REG_IDX_IPID; MCA_REG_IDX_SYND];
  hi ← halves bank [MCA_REG_IDX_DESTAT; MCA_REG_IDX_DEADDR; MCA_REG_IDX_MISC1];
  mret (lo ++ replicate 2 0 ++ hi ++ replicate 10 0).

Definition amdgv_mca_generate_ce_cper (banks : list mca_bank_entry) : M amdgv_cper Z :=
  let bank_count := Z.of_nat (length banks) in
  corrected ← amdgv_cper_alloc_entry AMDGV_CPER_TYPE_RUNTIME bank_count;
  match corrected with
  | None => mret AMDGV_FAILURE
  | Some p =>
      let sev := if existsb (fun b => bool_decide (bank_type b = AMDGV_MCA_ERROR_TYPE_DE)) banks
                 then CPER_SEV_NON_FATAL_UNCORRECTED else CPER_SEV_NON_FATAL_CORRECTED in
      _ ← amdgv_cper_entry_fill_hdr p AMDGV_CPER_TYPE_RUNTIME sev;
      _ ← for_each (imap pair banks) (fun ib =>
            reg_data ← runtime_regs (snd ib);
            on_record p (amdgv_cper_entry_fill_runtime_section (Z.of_nat (fst ib))
              (amdgv_mca_type_to_cper_sev (bank_type (snd ib))) reg_data CPER_ACA_REG_COUNT));
      _ ← amdgv_cper_commit_entry p;
      mret 0
  end.

(** A machine check record per uncorrected error; the loop stops at the first
    that fails. *)
Fixpoint ue_loop (banks : list mca_bank_entry) : M amdgv_cper Z :=
  match banks with
  | [] => mret 0
  | b :: banks =>
      ret ← amdgv_mca_generate_ue_cper b;
      if negb (ret =? 0) then mret ret else ue_loop banks
  end.

Definition amdgv_mca_generate_cpers (type : amdgv_mca_error_type) (banks : list mca_bank_entry) : M amdgv_cper Z :=
  if bool_decide (length banks = 0%nat) then mret 0
  else if bool_decide (type = AMDGV_MCA_ERROR_TYPE_UE) then ue_loop banks
  else amdgv_mca_generate_ce_cper banks.

Definition amdgv_device_generate_rma_cper : M amdgv_cper Z :=
  bad_page_thr ← amdgv_cper_alloc_entry AMDGV_CPER_TYPE_BP_THR 1;
  match bad_page_thr with
  | None => mret AMDGV_FAILURE
  | Some p =>
      _ ← amdgv_cper_entry_fill_hdr p AMDGV_CPER_TYPE_BP_THR CPER_SEV_FATAL;
      _ ← on_record p (amdgv_cper_entry_fill_bad_page_thr_section 0 phy_node_id);
      _ ← amdgv_cper_commit_entry p;
      mret 0
  end.

(** [bank->regs[i] |= lo | hi << 32] for the registers at [off]. *)
Definition or_reg (off : Z) (k : Z) (i : nat) (rs : list Z) : M bytes (list Z) :=
  old ← require (rs !! i);
  lo ← rdn 4 (off + 4 * k);
  hi ← rdn 4 (off + 4 * (k + 1));
  mret (<[i := Z.lor (Z.lor old lo) (u64 (Z.shiftl hi 32))]> rs).
Fixpoint or_regs (off : Z) (ks : list (Z * nat)) (rs : list Z) : M bytes (list Z) :=
  match ks with
  | [] => mret rs
  | (k, i) :: ks => rs ← or_reg off k i rs; or_regs off ks rs
  end.

Definition amdgv_mca_get_fatal_bank_from_cper_section (idx : Z) (rs : list Z) : M bytes (list Z) :=
  reg_data ← amdgv_cper_get_crashdump idx;
  or_regs reg_data [(0, MCA_REG_IDX_STATUS); (2, MCA_REG_IDX_ADDR); (4, MCA_REG_IDX_IPID); (6, MCA_REG_IDX_SYND)] rs.

Definition amdgv_mca_get_runtime_bank_from_cper_section (idx : Z) (rs : list Z) : M bytes (list Z) :=
  reg_data ← amdgv_cper_get_runtime_reg_dump idx;
  or_regs reg_data [(0, MCA_REG_IDX_CTL); (2, MCA_REG_IDX_STATUS); (4, MCA_REG_IDX_ADDR); (6, MCA_REG_IDX_MISC0);
                    (8, MCA_REG_IDX_CONFIG); (10, MCA_REG_IDX_IPID); (12, MCA_REG_IDX_SYND)] rs.
End banks.
