(* ===== verification/CperRecord.v ===== *)
(** * CPER records: what the fill functions leave in memory

    [frame a n m m'] says that [m'] differs from [m] only in the [n] bytes at
    [a].  [filled] describes a record while its sections are filled in order. *)
From Stdlib Require Import String.
From stdpp Require Import strings gmap.
From S2P Require Import Prelude Oss Bytes CperTime Cper.
#[local] Open Scope Z_scope.

Definition frame (a n : Z) (m m' : bytes) : Prop :=
  len m' = len m /\ (forall o k, 0 <= o -> 0 <= k -> (o + k <= a \/ a + n <= o) -> sl o k m' = sl o k m) /\
  (bytes_ok m -> bytes_ok m').

Lemma frame_refl a n m : frame a n m m.
Proof. by split. Qed.
Lemma frame_trans a n m1 m2 m3 : frame a n m1 m2 -> frame a n m2 m3 -> frame a n m1 m3.
Proof.
  intros (L1 & H1 & B1) (L2 & H2 & B2). split; [lia|]. split; [|auto]. intros. rewrite H2 by done. by apply H1.
Qed.
Lemma frame_in a n b k m m' : frame a n m m' -> b <= a -> a + n <= b + k -> frame b k m m'.
Proof. intros (L & H & B) ? ?. split; [done|]. split; [|done]. intros. apply H; lia. Qed.
Lemma frame_len a n m m' : frame a n m m' -> len m' = len m.
Proof. by intros []. Qed.
Lemma frame_bytes a n m m' : frame a n m m' -> bytes_ok m -> bytes_ok m'.
Proof. by intros (_ & _ & H). Qed.
Lemma frame_st off l m : 0 <= off -> off + len l <= len m -> bytes_ok l -> frame off (len l) m (st off l m).
Proof.
  intros. split; [by apply len_st|]. split; [intros; apply sl_st_other; lia|]. intros. by apply bytes_ok_st.
Qed.

Lemma wpf_wr off l (Q : unit -> bytes -> Prop) m : 0 <= off -> off + len l <= len m -> bytes_ok l ->
  (forall m', frame off (len l) m m' -> sl off (len l) m' = l -> Q tt m') -> wp (wr off l) Q m.
Proof.
  intros Ho Hl Hb HQ. apply wp_wr; [done..|]. apply HQ; [by apply frame_st|]. by apply sl_st_same.
Qed.
Lemma wpf_wrn n off v (Q : unit -> bytes -> Prop) m : 0 <= off -> off + Z.of_nat n <= len m ->
  (forall m', frame off (Z.of_nat n) m m' -> sl off (Z.of_nat n) m' = le n v -> Q tt m') -> wp (wrn n off v) Q m.
Proof. intros Ho Hl HQ. unfold wrn. apply wpf_wr; rewrite ?len_le; [done..|apply bytes_ok_le|]. exact HQ. Qed.
Lemma wpf_wr_field n off sh w v (Q : unit -> bytes -> Prop) m : 0 <= off -> off + Z.of_nat n <= len m ->
  (forall m', frame off (Z.of_nat n) m m' -> Q tt m') -> wp (wr_field n off sh w v) Q m.
Proof.
  intros Ho Hl HQ. apply wp_wr_field; [done..|]. intros x. apply HQ.
  rewrite <- (len_le n x). apply frame_st; [done|by rewrite len_le|apply bytes_ok_le].
Qed.
(** The same with the value that is written. *)
Definition set_field (x sh w v : Z) : Z := Z.lor (Z.land x (Z.lnot (Z.shiftl (Z.ones w) sh))) (Z.shiftl v sh).
Lemma wpf_wr_field_val n off sh w v (Q : unit -> bytes -> Prop) m : 0 <= off -> off + Z.of_nat n <= len m ->
  (forall m', frame off (Z.of_nat n) m m' ->
     sl off (Z.of_nat n) m' = le n (set_field (unle (sl off (Z.of_nat n) m)) sh w v) -> Q tt m') -> wp (wr_field n off sh w v) Q m.
Proof. intros Ho Hl HQ. unfold wr_field. apply wp_bind, wp_rdn; [done..|]. by apply wpf_wrn. Qed.
Lemma wpf_when b n off sh w v (Q : unit -> bytes -> Prop) m : 0 <= off -> off + Z.of_nat n <= len m ->
  (forall m', frame off (Z.of_nat n) m m' -> Q tt m') -> wp (when b (wr_field n off sh w v)) Q m.
Proof. intros Ho Hl HQ. apply wp_when; intros _; [by apply wpf_wr_field|]. apply HQ, frame_refl. Qed.

(** The kinds of section. *)
Definition section_len (L : Z) : Prop := L = FATAL_SEC_LEN \/ L = BOOT_SEC_LEN \/ L = NONSTD_SEC_LEN.

Ltac sizes := unfold FATAL_SEC_OFFSET, BOOT_SEC_OFFSET, NONSTD_SEC_OFFSET, section_len, FATAL_SEC_LEN, BOOT_SEC_LEN, NONSTD_SEC_LEN, SEC_DESC_OFFSET, HDR_LEN, SEC_DESC_LEN in *.

(** The clock stays before the year 25600, and texts are made of bytes. *)
Class CperSane (E : CperEnv) : Prop := {
  utc_in_calendar : forall n, in_calendar (utc_time n);
  text_bytes : forall f args, bytes_ok (vsnprintf f args);
}.

Section fill.
Context {E : CperEnv} {SE : CperSane E}.

Lemma wpf_text off size f args (Q : unit -> bytes -> Prop) m : (0 < size)%nat -> 0 <= off -> off + Z.of_nat size <= len m ->
  (forall m', frame off (Z.of_nat size) m m' -> Q tt m') -> wp (oss_vsnprintf off size f args) Q m.
Proof.
  intros Hs Ho Hl HQ. unfold oss_vsnprintf. set (l := take _ _ ++ _).
  assert (len l <= Z.of_nat size) as Hlen by (unfold l, len; rewrite length_app, length_take; cbn; lia).
  assert (bytes_ok l) as Hb by (apply Forall_app; split; [apply Forall_take, text_bytes|by repeat constructor]).
  apply wpf_wr; [done|lia|done|]. intros m' Hm _. apply HQ. eapply frame_in; [exact Hm|lia|lia].
Qed.

(** Runs the next write; the side conditions are about the size of the record. *)
Ltac fill1 :=
  lazymatch goal with
  | |- wp (_ ≫= _) _ _ => apply wp_bind
  | |- wp (wrn _ _ _) _ _ => apply wpf_wrn; [lia|first [lia|cbn; lia]|]
  | |- wp (wr_field _ _ _ _ _) _ _ => apply wpf_wr_field; [lia|first [lia|cbn; lia]|]
  | |- wp (when _ _) _ _ => apply wpf_when; [lia|first [lia|cbn; lia]|]
  | |- wp (oss_vsnprintf _ _ _ _) _ _ => apply wpf_text; [lia|lia|first [lia|cbn; lia]|]
  | |- wp (wr _ _) _ _ => apply wpf_wr; [lia|first [lia|cbn; lia]|first [assumption|apply bytes_ok_words|by repeat constructor]|]
  | |- forall m', frame _ _ _ m' -> sl _ _ _ = _ -> _ =>
      let m := fresh "m" in let F := fresh "F" in let V := fresh "V" in
      intros m F V; cbn [Z.of_nat Pos.of_succ_nat] in F, V; pose proof (frame_len _ _ _ _ F)
  | |- forall m', frame _ _ _ m' -> _ =>
      let m := fresh "m" in let F := fresh "F" in
      intros m F; cbn [Z.of_nat Pos.of_succ_nat] in F; pose proof (frame_len _ _ _ _ F)
  end.

(** Traces a range back to the write that made it. *)
Ltac back := repeat match goal with
  | F : frame ?a ?n ?m ?m' |- context [sl ?o ?k ?m'] => rewrite (proj1 (proj2 F) o k) by lia
  end.
Ltac in_frame := repeat (eassumption ||
  match goal with F : frame ?a ?n ?m ?m' |- frame ?b ?k _ ?m' =>
    apply (frame_trans b k _ m m'); [|apply (frame_in _ _ _ _ _ _ F); lia] end); try apply frame_refl.

(** The descriptor says that it names the board. *)
Definition fru_shown (d : Z) (m : bytes) : Prop := Z.testbit (unle (sl (d + 10) 1 m)) 0 = true.

Lemma fru_fields x : Z.testbit (unle (le 1 (set_field (unle (le 1 (set_field x 0 1 1))) 1 1 1))) 0 = true.
Proof.
  rewrite !unle_le. change (256 ^ Z.of_nat 1) with (2 ^ 8). rewrite Z.mod_pow2_bits_low by lia. unfold set_field.
  rewrite Z.lor_spec, Z.land_spec, Z.mod_pow2_bits_low, Z.lor_spec by lia.
  replace (Z.testbit (Z.shiftl 1 0) 0) with true by done. by rewrite !orb_true_r.
Qed.

Lemma fill_section_desc_ok d bp poison sev ty sl_ so (Q : unit -> bytes -> Prop) m :
  0 <= d -> d + 72 <= len m -> len ty = 16 -> bytes_ok ty ->
  (forall m', frame d 72 m m' -> sl d 4 m' = le 4 so -> sl (d + 4) 4 m' = le 4 sl_ -> sl (d + 16) 16 m' = ty ->
     fru_shown d m' -> Q tt m') ->
  wp (amdgv_cper_entry_fill_section_desc d bp poison sev ty sl_ so) Q m.
Proof.
  intros Hd Hl Ht Hty HQ. unfold amdgv_cper_entry_fill_section_desc.
  do 12 fill1.
  apply wp_bind, wpf_wr_field_val; [lia|lia|]. intros ma Fa Va. change (Z.of_nat 1) with 1 in Fa, Va. pose proof (frame_len _ _ _ _ Fa).
  apply wp_bind, wpf_wr_field_val; [lia|lia|]. intros mb Fb Vb. change (Z.of_nat 1) with 1 in Fb, Vb. pose proof (frame_len _ _ _ _ Fb).
  repeat fill1. rewrite Ht in *. apply HQ; [in_frame| | | |]; unfold fru_shown; back; try assumption.
  rewrite Vb, Va. apply fru_fields.
Qed.

(** ** A record while it is filled

    [n] sections of [L] bytes were asked for; the first ones, as many as
    [data] has elements, are filled, and hold [data] as their registers. *)
Record filled (n L : Z) (nt ty : bytes) (data : list bytes) (m : bytes) : Prop := {
  f_len : len m = HDR_LEN + n * (SEC_DESC_LEN + L);
  f_cnt : unle (sl 10 2 m) = n;
  f_rl : unle (sl 20 4 m) = HDR_LEN + Z.of_nat (length data) * (SEC_DESC_LEN + L);
  f_bytes : bytes_ok m;
  f_nt : sl 80 16 m = nt;
  f_sec : forall i d, data !! i = Some d ->
    let o := SEC_DESC_OFFSET (Z.of_nat i) in let s := HDR_LEN + SEC_DESC_LEN * n + L * Z.of_nat i in
    len d <= L - 144 /\
    fru_shown o m /\ unle (sl o 4 m) = s /\ unle (sl (o + 4) 4 m) = L /\ sl (o + 16) 16 m = ty /\ sl (s + 144) (len d) m = d;
}.

Lemma filled_snoc n L nt ty data d m m1 m2 m3 : filled n L nt ty data m -> section_len L ->
  0 <= n < 65536 -> Z.of_nat (length data) < n -> len d <= L - 144 ->
  let i := Z.of_nat (length data) in let o := SEC_DESC_OFFSET i in let s := HDR_LEN + SEC_DESC_LEN * n + L * i in
  frame o SEC_DESC_LEN m m1 -> sl o 4 m1 = le 4 (u32 s) -> sl (o + 4) 4 m1 = le 4 L -> sl (o + 16) 16 m1 = ty -> fru_shown o m1 ->
  frame s L m1 m2 -> sl (s + 144) (len d) m2 = d ->
  frame 20 4 m2 m3 -> sl 20 4 m3 = le 4 (u32 (unle (sl 20 4 m2) + (SEC_DESC_LEN + L))) ->
  filled n L nt ty (data ++ [d]) m3.
Proof.
  intros [Hlen Hcnt Hrl Hby Hnt Hsec] HL Hn Hi Hd i o s F1 V1 V2 V3 VF F2 V4 F3 V5.
  assert (bytes_ok m3) by (eapply frame_bytes, frame_bytes, frame_bytes, Hby; eassumption).
  unfold fru_shown in *.
  pose proof (frame_len _ _ _ _ F1). pose proof (frame_len _ _ _ _ F2). pose proof (frame_len _ _ _ _ F3).
  pose proof (len_nonneg d). subst i o s. sizes.
  destruct HL as [->|[->| ->]].
  all: split; unfold fru_shown; sizes; rewrite ?length_app; cbn [length].
  all: try (back; done || lia).
  all: try (rewrite V5; back; rewrite Hrl, unle_le_small; rewrite wrap_id; unfold in_width; cbn; lia).
  all: intros j e Hj; apply lookup_app_Some in Hj as [Hj|[Hge Hj]]; cbv zeta.
  all: try (pose proof (lookup_lt_Some _ _ _ Hj) as Hlt; destruct (Hsec j e Hj) as (S0 & SF & S1 & S2 & S3 & S4);
    pose proof (len_nonneg e); back; done).
  all: apply list_lookup_singleton_Some in Hj as [Hj ->]; replace j with (length data) by lia;
    back; rewrite V1, V2, V3, V4; split_and!; [done|done| |by rewrite unle_le_small by (cbn; lia)|done|done];
    rewrite unle_le_small; rewrite wrap_id; unfold in_width; cbn; lia.
Qed.

Lemma wpf_inc size (Q : unit -> bytes -> Prop) m : 24 <= len m ->
  (forall m', frame 20 4 m m' -> sl 20 4 m' = le 4 (u32 (unle (sl 20 4 m) + size)) -> Q tt m') ->
  wp (inc_entry_length size) Q m.
Proof. intros Hl HQ. unfold inc_entry_length, record_length. apply wp_bind, wp_rdn; [lia..|]. apply wpf_wrn; [lia..|]. exact HQ. Qed.

Lemma wp_sec_cnt n L nt ty data (Q : Z -> bytes -> Prop) m : filled n L nt ty data m -> section_len L -> 0 <= n ->
  Q n m -> wp sec_cnt Q m.
Proof.
  intros F HL Hn HQ. unfold sec_cnt. pose proof (f_len _ _ _ _ _ _ F).
  apply wp_rdn; [lia|destruct HL as [->|[->| ->]]; sizes; lia|].
  change (Z.of_nat 2) with 2. by rewrite (f_cnt _ _ _ _ _ _ F).
Qed.

Lemma len_words n (l : list Z) : len (concat (le n <$> l)) = Z.of_nat n * Z.of_nat (length l).
Proof.
  induction l as [|x l IH]; [by rewrite Z.mul_0_r|]. cbn [fmap list_fmap concat length]. rewrite len_app, IH, len_le. lia.
Qed.

Lemma fill_nonstd_hdr_ok s (Q : unit -> bytes -> Prop) m : 0 <= s -> s + 80 <= len m ->
  (forall m', frame s 80 m m' -> Q tt m') -> wp (fill_nonstd_hdr s) Q m.
Proof.
  intros Hs Hl HQ. assert (len RUNTIME = 16) as Hr by done. unfold fill_nonstd_hdr. repeat fill1. apply HQ.
  rewrite Hr in *. in_frame.
Qed.

(** A section: its descriptor, its body, whose writes stay inside of it, and
    the new length of the record. *)
Ltac section n L nt ty data d F HL :=
  apply wp_bind; eapply wp_sec_cnt; [exact F|exact HL|lia|]; cbv zeta;
  pose proof (f_len _ _ _ _ _ _ F); unfold section_len in HL; sizes;
  apply wp_bind, fill_section_desc_ok; [lia|lia|done|by repeat constructor|]; intros m1 F1 V1 V2 V3 VF; pose proof (frame_len _ _ _ _ F1).
Ltac end_section n L nt ty data d m m1 F F1 V1 V2 V3 :=
  apply wpf_inc; [lia|];
  let m3 := fresh "m" in let F3 := fresh "F" in let V5 := fresh "V" in intros m3 F3 V5;
  lazymatch type of F3 with frame _ _ ?m2 _ =>
    eapply (filled_snoc n L nt ty data d m m1 m2 m3); [exact F| |lia|lia| |exact F1|exact V1|exact V2|exact V3|assumption| | |exact F3|exact V5];
    [sizes; auto| | |]
  end.

Lemma fill_fatal_ok n nt data regs m : filled n FATAL_SEC_LEN nt CRASHDUMP data m -> 0 <= n < 65536 ->
  Z.of_nat (length data) < n -> length regs = 8%nat ->
  wp (amdgv_cper_entry_fill_fatal_section (Z.of_nat (length data)) regs)
    (fun _ m' => filled n FATAL_SEC_LEN nt CRASHDUMP (data ++ [concat (le 4 <$> regs)]) m') m.
Proof.
  intros F Hn Hi Hr. assert (len (concat (le 4 <$> regs)) = 32) as Hd by (rewrite len_words, Hr; done).
  assert (section_len FATAL_SEC_LEN) as HL by by left.
  unfold amdgv_cper_entry_fill_fatal_section. section n FATAL_SEC_LEN nt CRASHDUMP data (concat (le 4 <$> regs)) F HL.
  repeat fill1. rewrite Hd in *.
  end_section n FATAL_SEC_LEN nt CRASHDUMP data (concat (le 4 <$> regs)) m m1 F F1 V1 V2 V3; sizes; [lia|in_frame|rewrite Hd; back; done].
Qed.

Lemma fill_boot_ok n nt data msg m : filled n BOOT_SEC_LEN nt CRASHDUMP data m -> 0 <= n < 65536 ->
  Z.of_nat (length data) < n -> length msg = 8%nat ->
  wp (amdgv_cper_entry_fill_boot_section (Z.of_nat (length data)) msg 8)
    (fun _ m' => filled n BOOT_SEC_LEN nt CRASHDUMP (data ++ [concat (le 8 <$> msg)]) m') m.
Proof.
  intros F Hn Hi Hr. assert (len (concat (le 8 <$> msg)) = 64) as Hd by (rewrite len_words, Hr; done).
  assert (section_len BOOT_SEC_LEN) as HL by (right; by left).
  unfold amdgv_cper_entry_fill_boot_section. section n BOOT_SEC_LEN nt CRASHDUMP data (concat (le 8 <$> msg)) F HL.
  change (Z.to_nat (Z.min 8 CPER_MAX_OAM_COUNT)) with 8%nat. rewrite take_ge by lia.
  repeat fill1. apply wp_demand; [rewrite Hr; done|]. repeat fill1. rewrite Hd in *.
  end_section n BOOT_SEC_LEN nt CRASHDUMP data (concat (le 8 <$> msg)) m m1 F F1 V1 V2 V3; sizes; [lia|in_frame|rewrite Hd; back; done].
Qed.

Lemma fill_runtime_ok n nt data sev regs m : filled n NONSTD_SEC_LEN nt RUNTIME data m -> 0 <= n < 65536 ->
  Z.of_nat (length data) < n -> length regs = 32%nat ->
  wp (amdgv_cper_entry_fill_runtime_section (Z.of_nat (length data)) sev regs CPER_ACA_REG_COUNT)
    (fun _ m' => filled n NONSTD_SEC_LEN nt RUNTIME (data ++ [concat (le 4 <$> regs)]) m') m.
Proof.
  intros F Hn Hi Hr. assert (len (concat (le 4 <$> regs)) = 128) as Hd by (rewrite len_words, Hr; done).
  assert (section_len NONSTD_SEC_LEN) as HL by (right; by right).
  unfold amdgv_cper_entry_fill_runtime_section. section n NONSTD_SEC_LEN nt RUNTIME data (concat (le 4 <$> regs)) F HL.
  change (Z.to_nat (Z.min CPER_ACA_REG_COUNT CPER_ACA_REG_COUNT)) with 32%nat. rewrite take_ge by lia.
  apply wp_bind, fill_nonstd_hdr_ok; [lia|lia|]. intros m2 F2. pose proof (frame_len _ _ _ _ F2).
  repeat fill1. apply wp_demand; [rewrite Hr; done|]. repeat fill1. rewrite Hd in *.
  end_section n NONSTD_SEC_LEN nt RUNTIME data (concat (le 4 <$> regs)) m m1 F F1 V1 V2 V3; sizes; [lia|in_frame|rewrite Hd; back; done].
Qed.

Lemma wp_bad_page_regs s oam (Q : unit -> bytes -> Prop) m : 0 <= s -> s + NONSTD_SEC_LEN <= len m ->
  (forall m', frame (s + 144) 128 m m' -> Q tt m') ->
  wp (for_each (bad_page_regs oam) (fun r => wrn 4 (s + 144 + 4 * fst r) (snd r))) Q m.
Proof.
  intros Hs Hl HQ. sizes. unfold bad_page_regs. cbn [for_each fst snd].
  repeat fill1. apply wp_ret, HQ. in_frame.
Qed.

(** The registers of a bad-page record are what the loop left there. *)
Lemma fill_bad_page_ok n nt data oam m : filled n NONSTD_SEC_LEN nt RUNTIME data m -> 0 <= n < 65536 ->
  Z.of_nat (length data) < n ->
  wp (amdgv_cper_entry_fill_bad_page_thr_section (Z.of_nat (length data)) oam)
    (fun _ m' => exists d, len d = 128 /\ filled n NONSTD_SEC_LEN nt RUNTIME (data ++ [d]) m') m.
Proof.
  intros F Hn Hi. assert (section_len NONSTD_SEC_LEN) as HL by (right; by right).
  unfold amdgv_cper_entry_fill_bad_page_thr_section. section n NONSTD_SEC_LEN nt RUNTIME data data F HL.
  apply wp_bind, fill_nonstd_hdr_ok; [lia|lia|]. intros m2 F2. pose proof (frame_len _ _ _ _ F2).
  repeat fill1. apply wp_bad_page_regs; [lia|sizes; lia|]. intros m8 F8. pose proof (frame_len _ _ _ _ F8).
  set (d := sl (NONSTD_SEC_OFFSET n (Z.of_nat (length data)) + 144) 128 m8).
  assert (len d = 128) as Hd by (apply len_sl; sizes; lia).
  apply wp_mono with (P := fun _ m' => filled n NONSTD_SEC_LEN nt RUNTIME (data ++ [d]) m'); [|by eauto].
  end_section n NONSTD_SEC_LEN nt RUNTIME data d m m1 F F1 V1 V2 V3; sizes; [lia|in_frame|by rewrite Hd].
Qed.

Definition notify (type : amdgv_cper_type) (sev : Z) : bytes :=
  match type with
  | AMDGV_CPER_TYPE_BOOT => BOOT
  | AMDGV_CPER_TYPE_RUNTIME => if sev =? CPER_SEV_NON_FATAL_CORRECTED then CMC else MCE
  | _ => MCE
  end.

Lemma wpf_timestamp utc (Q : unit -> bytes -> Prop) m : 128 <= len m -> in_calendar utc ->
  (forall m', frame 24 8 m m' -> Q tt m') -> wp (fill_timestamp utc) Q m.
Proof.
  intros Hl Hc HQ. unfold fill_timestamp. destruct (fill_timestamp_date utc Hc) as (ts & Hts & _).
  apply wp_bind. eapply wp_require; [exact Hts|]. repeat fill1. apply HQ. in_frame.
Qed.

Lemma fill_hdr_ok n L ty uid utc type sev m : section_len L -> 0 <= n < 65536 -> len m = HDR_LEN + n * (SEC_DESC_LEN + L) ->
  unle (sl 10 2 m) = n -> unle (sl 20 4 m) = 0 -> bytes_ok m -> in_calendar utc -> type <> AMDGV_CPER_TYPE_MAX ->
  wp (fill_hdr_fields uid utc type sev) (fun _ m' => filled n L (notify type sev) ty [] m') m.
Proof.
  intros HL Hn Hlen Hcnt Hrl Hby Hu Ht. unfold fill_hdr_fields.
  assert (128 <= len m) by (destruct HL as [->|[->| ->]]; sizes; lia).
  assert (len [67; 80; 69; 82] = 4) as Hsig by done.
  repeat fill1. apply wpf_timestamp; [lia|done|]. intros m7 F7. pose proof (frame_len _ _ _ _ F7). repeat fill1.
  match goal with |- wp ?w _ ?m => assert (w = wr 80 (notify type sev)) as -> by (destruct type; try done; cbn; by destruct (_ =? _)) end.
  assert (len (notify type sev) = 16) as Hg by (destruct type; try done; cbn; by destruct (_ =? _)).
  assert (bytes_ok (notify type sev)) as Hgb by (destruct type; try done; cbn; try destruct (_ =? _); by repeat constructor).
  repeat fill1. apply wpf_inc; [lia|]. intros m11 F11 V11. pose proof (frame_len _ _ _ _ F11). rewrite Hg, Hsig in *.
  assert (bytes_ok m11) by (repeat (eapply frame_bytes; [eassumption|]); done).
  split; sizes; try (back; done || lia).
  - rewrite V11. back. rewrite Hrl, unle_le_small; rewrite wrap_id; unfold in_width; cbn; lia.
Qed.
End fill.
