(* ===== verification/CperInv.v ===== *)
(** * The ring of CPER records: invariant

    [ring_ok base log pending s]: since the record numbered [base] the records
    of [log] were committed; the ring holds those of the last [max_count]
    numbers, each in its own allocation, and nothing else is allocated but the
    record under construction, if [pending] is one. *)
From stdpp Require Import gmap.
From S2P Require Import Prelude Oss Bytes CperTime Cper CperRecord.
#[local] Open Scope Z_scope.

(** The kinds of record: notification, type and length of the sections. *)
Definition kind_ok (nt ty : bytes) (L : Z) : Prop :=
  (nt <> BOOT /\ ty = CRASHDUMP /\ L = FATAL_SEC_LEN) \/ (nt = BOOT /\ ty = CRASHDUMP /\ L = BOOT_SEC_LEN) \/
  (nt <> BOOT /\ ty = RUNTIME /\ L = NONSTD_SEC_LEN).
Lemma kind_len nt ty L : kind_ok nt ty L -> section_len L.
Proof. unfold kind_ok, section_len. intuition. Qed.

(** A finished record. *)
Definition whole (r : bytes) : Prop := exists n L nt ty data,
  filled n L nt ty data r /\ kind_ok nt ty L /\ 0 <= n < 65536 /\ Z.of_nat (length data) = n.

Definition MAX_RECORD : Z := 2 ^ 25.

Lemma whole_len r : whole r -> unle (sl 20 4 r) = len r /\ 128 <= len r <= MAX_RECORD.
Proof.
  intros (n & L & nt & ty & data & F & HL%kind_len & Hn & Hd). pose proof (f_len _ _ _ _ _ _ F). pose proof (f_rl _ _ _ _ _ _ F).
  unfold MAX_RECORD. change (2 ^ 25) with 33554432. destruct HL as [->|[->| ->]]; sizes; lia.
Qed.

Definition in_window (s : amdgv_cper) (i : Z) : Prop := 0 <= i /\ wptr s - max_count s <= i < wptr s.
Definition slot (s : amdgv_cper) (i : Z) : nat := Z.to_nat (i mod max_count s).

Record ring_ok (base : Z) (log : list bytes) (pending : option nat) (s : amdgv_cper) : Prop := {
  ro_max : 0 < max_count s <= AMDGV_CPER_MAX_ALLOWED_COUNT;
  ro_ring : length (ring s) = Z.to_nat AMDGV_CPER_MAX_ALLOWED_COUNT;
  ro_base : 0 <= base;
  ro_wptr : wptr s = base + Z.of_nat (length log);
  ro_u64 : wptr s < 2 ^ 64;
  ro_whole : Forall whole log;
  ro_held : forall i, in_window s i -> base <= i ->
    exists p r, ring s !! slot s i = Some (Some p) /\ heap s !! p = Some r /\ log !! Z.to_nat (i - base) = Some r;
  ro_null : forall i, in_window s i -> i < base -> ring s !! slot s i = Some None;
  ro_used : forall k p, ring s !! k = Some (Some p) -> exists i, in_window s i /\ base <= i /\ k = slot s i;
  ro_inj : forall k k' p, ring s !! k = Some (Some p) -> ring s !! k' = Some (Some p) -> k = k';
  ro_heap : forall p, is_Some (heap s !! p) -> pending = Some p \/ exists k, ring s !! k = Some (Some p);
  ro_pending : forall p, pending = Some p -> is_Some (heap s !! p) /\ forall k, ring s !! k <> Some (Some p);
  ro_fresh : forall p, is_Some (heap s !! p) -> (p < fresh_ptr s)%nat;
}.

Lemma slot_lt s i : 0 < max_count s -> 0 <= i mod max_count s < max_count s.
Proof. intros. apply Z.mod_pos_bound. lia. Qed.

(** Two numbers in a window share no slot. *)
Lemma same_slot m i j : 0 < m -> i mod m = j mod m -> - m < i - j < m -> i = j.
Proof. intros Hm He Hd. pose proof (Z.div_mod i m ltac:(lia)). pose proof (Z.div_mod j m ltac:(lia)).
  assert (i - j = m * (i / m - j / m)) as Hm2 by lia.
  destruct (Z.lt_trichotomy (i / m) (j / m)) as [|[|]]; [nia|lia|nia]. Qed.

Lemma slot_eq s i j : 0 < max_count s -> slot s i = slot s j -> - max_count s < i - j < max_count s -> i = j.
Proof.
  intros Hm He Hd. apply (same_slot (max_count s)); [done| |done]. unfold slot in He.
  pose proof (slot_lt s i Hm). pose proof (slot_lt s j Hm). lia.
Qed.

Section ring_ops.
Context {E : CperEnv} {OE : OssEnv}.

(** The start, and after the driver was loaded anew. *)
Lemma ring_ok_empty s : 0 < max_count s <= AMDGV_CPER_MAX_ALLOWED_COUNT ->
  ring s = replicate (Z.to_nat AMDGV_CPER_MAX_ALLOWED_COUNT) None -> 0 <= wptr s < 2 ^ 64 -> heap s = ∅ ->
  ring_ok (wptr s) [] None s.
Proof.
  intros Hm Hr Hw Hh. split; rewrite ?Hr, ?Hh; cbn [length]; try lia.
  - by rewrite length_replicate.
  - constructor.
  - intros i [? ?] ?. lia.
  - intros i [Hi Hw'] _. apply lookup_replicate_2. pose proof (slot_lt s i ltac:(lia)). unfold slot, AMDGV_CPER_MAX_ALLOWED_COUNT in *. lia.
  - intros k p Hk. by apply lookup_replicate in Hk as [? _].
  - intros k k' p Hk. by apply lookup_replicate in Hk as [? _].
  - intros p [? Hp]. by rewrite lookup_empty in Hp.
  - done.
  - intros p [? Hp]. by rewrite lookup_empty in Hp.
Qed.

Lemma wp_on_record {A} p (m : M bytes A) r (Q : A -> amdgv_cper -> Prop) s : heap s !! p = Some r ->
  wp m (fun a r' => Q a (s <| heap := <[p := r']> (heap s) |>)) r -> wp (on_record p m) Q s.
Proof. unfold wp, on_record. intros ->. by destruct (m r) as [[a r']|]. Qed.

(** Work on the pending record leaves the ring alone. *)
Lemma ring_ok_pending base log p r s : ring_ok base log (Some p) s ->
  ring_ok base log (Some p) (s <| heap := <[p := r]> (heap s) |>).
Proof.
  intros [R1 R2 R3 R4 R5 R6 R7 R8 R9 R10 R11 R12 R13]. destruct (R12 p eq_refl) as [[r0 Hp] Hnot].
  split; try done.
  - intros i Hi Hb. destruct (R7 i Hi Hb) as (q & x & Hq & Hx & Hl). exists q, x. split_and!; [done| |done].
    cbn. rewrite lookup_insert_ne; [done|]. intros ->. by apply (Hnot (slot s i)).
  - cbn. intros q Hq. destruct (decide (q = p)) as [->|Hne]; [by left|]. rewrite lookup_insert_ne in Hq by done. by apply R11.
  - cbn. intros q [= <-]. rewrite lookup_insert_eq. by split.
  - cbn. intros q Hq. destruct (decide (q = p)) as [->|Hne]; [apply R13; by rewrite Hp|].
    rewrite lookup_insert_ne in Hq by done. by apply R13.
Qed.

(** The slot of the next number: the record numbered [max_count] less, if that
    number exists and was given here, and otherwise NULL. *)
Lemma next_slot base log pending s : ring_ok base log pending s ->
  exists old, ring s !! slot s (wptr s) = Some old /\
    forall p, old = Some p -> is_Some (heap s !! p) /\ slot s (wptr s) = slot s (wptr s - max_count s) /\
      0 <= wptr s - max_count s.
Proof.
  intros R. pose proof (ro_max _ _ _ _ R) as Hm. pose proof (slot_lt s (wptr s) ltac:(lia)) as Hlt.
  destruct (lookup_lt_is_Some_2 (ring s) (slot s (wptr s))) as [old Hold].
  { rewrite (ro_ring _ _ _ _ R). unfold slot. lia. }
  exists old. split; [done|]. intros p ->. destruct (ro_used _ _ _ _ R _ _ Hold) as (i & [Hi0 Hi] & Hb & He).
  assert (i = wptr s - max_count s) as ->.
  { destruct (decide (wptr s - i < max_count s)); [|lia]. pose proof (slot_eq s (wptr s) i ltac:(lia) He). lia. }
  destruct (ro_held _ _ _ _ R _ (conj Hi0 Hi) Hb) as (q & r & Hq & Hr & _). rewrite <- He, Hold in Hq.
  injection Hq as <-. eauto.
Qed.

(** What a commit does to the ring, once the old record is gone. *)
Definition committed (p : nat) (s : amdgv_cper) (h : gmap nat bytes) (o : oss_state) : amdgv_cper :=
  s <| heap := h |> <| os := o |> <| ring := <[slot s (wptr s) := Some p]> (ring s) |>
    <| count := u64 (count s + 1) |> <| wptr := wptr s + 1 |>.

Lemma ring_ok_committed base log p r s old o : ring_ok base log (Some p) s -> heap s !! p = Some r -> whole r ->
  wptr s + 1 < 2 ^ 64 -> ring s !! slot s (wptr s) = Some old ->
  ring_ok base (log ++ [r]) None
    (committed p s (match old with Some q => delete q (heap s) | None => heap s end) o).
Proof.
  intros R Hp Hr Hw Hold. destruct (next_slot _ _ _ _ R) as (old' & Hold' & Hfreed). simplify_eq.
  destruct R as [R1 R2 R3 R4 R5 R6 R7 R8 R9 R10 R11 R12 R13]. destruct (R12 p eq_refl) as [_ Hnot].
  set (h := match old with Some q => delete q (heap s) | None => heap s end).
  assert (forall q x, h !! q = Some x -> heap s !! q = Some x /\ old <> Some q) as Hh.
  { subst h. intros q x Hq. destruct old as [q0|]; [|by split]. apply lookup_delete_Some in Hq as [? ?].
    split; [done|congruence]. }
  assert (forall q x, heap s !! q = Some x -> old <> Some q -> h !! q = Some x) as Hh2.
  { subst h. intros q x Hq Hne. destruct old as [q0|]; [|done]. rewrite lookup_delete_ne; [done|congruence]. }
  assert (forall i, - max_count s < wptr s - i < max_count s -> i <> wptr s -> slot s i <> slot s (wptr s)) as Hother.
  { intros i Hi Hne He. apply Hne. symmetry. apply (slot_eq s); [lia|done|lia]. }
  assert (forall i, in_window (committed p s h o) i -> i <> wptr s -> in_window s i /\ slot s i <> slot s (wptr s)) as Hwin.
  { intros i [Hi0 Hi] Hne. cbn in Hi. split; [split; cbn; lia|]. apply Hother; [lia|done]. }
  assert (slot s (wptr s) < length (ring s))%nat as Hlt by by eapply lookup_lt_Some.
  split; cbn [committed max_count ring wptr heap fresh_ptr upd]; try done.
  - by rewrite length_insert.
  - rewrite length_app. cbn. lia.
  - by apply Forall_app; split; [|constructor].
  - intros i Hi Hb. destruct (decide (i = wptr s)) as [->|Hne].
    + exists p, r. change (slot (committed p s h o) (wptr s)) with (slot s (wptr s)).
      rewrite list_lookup_insert_eq by done. split_and!; [done| |].
      * apply Hh2; [done|]. intros ->. by apply (Hnot (slot s (wptr s))).
      * rewrite R4. replace (base + Z.of_nat (length log) - base) with (Z.of_nat (length log)) by lia.
        rewrite Nat2Z.id, lookup_app_r, Nat.sub_diag by lia. done.
    + destruct (Hwin i Hi Hne) as [Hi' Hs']. destruct (R7 i Hi' Hb) as (q & x & Hq & Hx & Hl). exists q, x.
      change (slot (committed p s h o) i) with (slot s i). rewrite list_lookup_insert_ne by done.
      split_and!; [done| |by apply lookup_app_l_Some].
      apply Hh2; [done|]. intros ->. apply Hs'. by eapply R10.
  - intros i Hi Hb. destruct (decide (i = wptr s)) as [->|Hne]; [lia|]. destruct (Hwin i Hi Hne) as [Hi' Hs'].
    change (slot (committed p s h o) i) with (slot s i). rewrite list_lookup_insert_ne by done. by apply R8.
  - intros k q Hk. destruct (decide (k = slot s (wptr s))) as [->|Hne].
    + exists (wptr s). repeat split; cbn; lia.
    + rewrite list_lookup_insert_ne in Hk by done. destruct (R9 k q Hk) as (i & [Hi0 Hi] & Hb & ->). exists i.
      split_and!; [|done|done]. split; cbn; [done|].
      destruct (decide (i = wptr s - max_count s)) as [->|]; [|lia]. exfalso. apply Hne. unfold slot.
      f_equal. rewrite Zminus_mod, Z_mod_same_full, Z.sub_0_r. apply Z.mod_mod. lia.
  - intros k k' q Hk Hk'. destruct (decide (k = slot s (wptr s))) as [->|Hne], (decide (k' = slot s (wptr s))) as [->|Hne'];
      rewrite ?list_lookup_insert_eq in Hk by done; rewrite ?list_lookup_insert_eq in Hk' by done;
      rewrite ?list_lookup_insert_ne in Hk by done; rewrite ?list_lookup_insert_ne in Hk' by done.
    + done.
    + injection Hk as <-. by destruct (Hnot k').
    + injection Hk' as <-. by destruct (Hnot k).
    + by eapply R10.
  - intros q [x Hq]. right. destruct (Hh q x Hq) as [Hq' Hne]. destruct (R11 q ltac:(eauto)) as [[= <-]|[k Hk]].
    + exists (slot s (wptr s)). by rewrite list_lookup_insert_eq.
    + exists k. rewrite list_lookup_insert_ne; [done|]. intros <-. congruence.
  - intros q [x Hq]. apply R13. destruct (Hh q x Hq). eauto.
Qed.

Lemma wp_commit base log p r s (Q : Z -> amdgv_cper -> Prop) : ring_ok base log (Some p) s -> heap s !! p = Some r ->
  whole r -> wptr s + 1 < 2 ^ 64 -> enabled s = true ->
  (forall h o, ring_ok base (log ++ [r]) None (committed p s h o) -> h !! p = Some r -> Q 0 (committed p s h o)) ->
  wp (amdgv_cper_commit_entry p) Q s.
Proof.
  intros R Hp Hr Hw He HQ. destruct (next_slot _ _ _ _ R) as (old & Hold & Hfreed).
  pose proof (ring_ok_committed base log p r s old) as Hok.
  destruct (ro_pending _ _ _ _ R p eq_refl) as [_ Hnot].
  unfold amdgv_cper_commit_entry. apply wp_bind, wp_gets. rewrite He. cbn [negb].
  apply wp_bind, wp_gets, wp_bind. eapply wp_require; [exact Hold|]. apply wp_bind.
  assert (0 <= wptr s) as Hw0. { rewrite (ro_wptr _ _ _ _ R). pose proof (ro_base _ _ _ _ R). lia. }
  assert (u64 (wptr s + 1) = wptr s + 1) as Hu by (apply wrap_id; unfold in_width; lia).
  destruct old as [q|].
  - destruct (Hfreed q eq_refl) as [[x Hx] _]. apply wp_bind, wp_gets, wp_bind. eapply wp_require; [exact Hx|].
    apply wp_bind, wp_modify. apply wp_zoom, wp_modify. repeat apply wp_bind, wp_modify. apply wp_ret. cbn. rewrite Hu.
    apply HQ; [by apply Hok|]. rewrite lookup_delete_ne; [done|]. intros ->. by apply (Hnot (slot s (wptr s))).
  - apply wp_ret. repeat apply wp_bind, wp_modify. apply wp_ret. cbn. rewrite Hu.
    replace (mk_cper _ _ _ _ _ _ _ _ _ _ _) with (committed p s (heap s) (os s)) by done.
    apply HQ; [by apply Hok|done].
Qed.

Lemma ring_entry base log pending s k p : ring_ok base log pending s -> ring s !! k = Some (Some p) ->
  exists i r, in_window s i /\ base <= i /\ k = slot s i /\ heap s !! p = Some r /\ log !! Z.to_nat (i - base) = Some r.
Proof.
  intros R Hk. destruct (ro_used _ _ _ _ R k p Hk) as (i & Hi & Hb & ->).
  destruct (ro_held _ _ _ _ R i Hi Hb) as (q & r & Hq & Hr & Hl). simplify_eq. eauto 10.
Qed.

(** ** Building a record *)

(** What else stays as it is. *)
Definition same_cper (s s' : amdgv_cper) : Prop :=
  enabled s' = enabled s /\ max_count s' = max_count s /\ vfs s' = vfs s.

Definition with_new (size : Z) (s : amdgv_cper) (o : oss_state) : amdgv_cper :=
  s <| os := o |> <| heap := <[fresh_ptr s := replicate (Z.to_nat size) 0]> (heap s) |> <| fresh_ptr := S (fresh_ptr s) |>.

Lemma ring_ok_new base log size s o : ring_ok base log None s -> ring_ok base log (Some (fresh_ptr s)) (with_new size s o).
Proof.
  intros R. pose proof R as [R1 R2 R3 R4 R5 R6 R7 R8 R9 R10 R11 R12 R13].
  assert (heap s !! fresh_ptr s = None) as Hfresh.
  { destruct (heap s !! fresh_ptr s) eqn:Hf; [|done]. pose proof (R13 (fresh_ptr s) ltac:(eauto)). lia. }
  split; try done.
  - intros i Hi Hb. destruct (R7 i Hi Hb) as (q & x & Hq & Hx & Hl). exists q, x. split_and!; [done| |done].
    cbn. rewrite lookup_insert_ne; [done|]. intros <-. congruence.
  - cbn. intros q Hq. destruct (decide (q = fresh_ptr s)) as [->|Hne]; [by left|]. rewrite lookup_insert_ne in Hq by done.
    right. by destruct (R11 q Hq).
  - cbn. intros q [= <-]. rewrite lookup_insert_eq. split; [eauto|]. intros k Hk.
    destruct (ring_entry _ _ _ _ _ _ R Hk) as (i & r & _ & _ & _ & Hr & _). congruence.
  - cbn. intros q Hq. destruct (decide (q = fresh_ptr s)) as [->|Hne]; [lia|]. rewrite lookup_insert_ne in Hq by done.
    pose proof (R13 q Hq). lia.
Qed.

Lemma ring_ok_ext base log pending s s' : ring_ok base log pending s ->
  max_count s' = max_count s -> wptr s' = wptr s -> ring s' = ring s -> heap s' = heap s -> fresh_ptr s' = fresh_ptr s ->
  ring_ok base log pending s'.
Proof.
  destruct s, s'. cbn. intros R -> -> -> -> ->. destruct R. split; done.
Qed.

Definition sec_len_of (type : amdgv_cper_type) : Z :=
  match type with
  | AMDGV_CPER_TYPE_FATAL => FATAL_SEC_LEN | AMDGV_CPER_TYPE_BOOT => BOOT_SEC_LEN | _ => NONSTD_SEC_LEN
  end.
Lemma sec_len_ok type : section_len (sec_len_of type).
Proof. destruct type; sizes; cbn; auto. Qed.

Lemma alloc_size_ok type n : type <> AMDGV_CPER_TYPE_MAX -> 0 <= n < 65536 ->
  alloc_size type n = Some (HDR_LEN + n * (SEC_DESC_LEN + sec_len_of type)).
Proof.
  intros Ht Hn. unfold alloc_size. sizes. rewrite (wrap_id 32 (0 + 128)), (wrap_id 32 (0 + 128 + 72 * n)) by (unfold in_width; lia).
  destruct type; try done; cbn [sec_len_of]; sizes; rewrite wrap_id by (unfold in_width; lia); f_equal; lia.
Qed.

(** A new record: zero but for the number of sections. *)
Definition blank (type : amdgv_cper_type) (n : Z) (r : bytes) : Prop :=
  len r = HDR_LEN + n * (SEC_DESC_LEN + sec_len_of type) /\ unle (sl 10 2 r) = n /\ unle (sl 20 4 r) = 0 /\ bytes_ok r.

Lemma blank_new type n : 0 <= n < 65536 ->
  blank type n (st 10 (le 2 n) (replicate (Z.to_nat (HDR_LEN + n * (SEC_DESC_LEN + sec_len_of type))) 0)).
Proof.
  intros Hn. set (z := HDR_LEN + n * (SEC_DESC_LEN + sec_len_of type)).
  assert (128 <= z) as Hz by (subst z; destruct type; cbn [sec_len_of]; sizes; lia).
  assert (len (replicate (Z.to_nat z) 0) = z) as Hlen by (rewrite len_replicate; lia).
  assert (len (le 2 n) = 2) as Hle by by rewrite len_le.
  split_and!.
  - rewrite len_st; lia.
  - rewrite sl_st_same by lia. by rewrite unle_le_small by (cbn; lia).
  - rewrite sl_st_other by lia. unfold sl. rewrite drop_replicate, take_replicate.
    replace (Z.to_nat 4 `min` (Z.to_nat z - Z.to_nat 20))%nat with 4%nat by lia. done.
  - apply bytes_ok_st; [apply bytes_ok_le|apply bytes_ok_replicate].
Qed.

Lemma wp_alloc_entry base log type n (Q : option nat -> amdgv_cper -> Prop) s : ring_ok base log None s ->
  type <> AMDGV_CPER_TYPE_MAX -> 0 <= n < 65536 ->
  (forall s', ring_ok base log None s' -> same_cper s s' -> Q None s') ->
  (forall p r s', enabled s = true -> ring_ok base log (Some p) s' -> heap s' !! p = Some r -> blank type n r -> same_cper s s' -> Q (Some p) s') ->
  wp (amdgv_cper_alloc_entry type n) Q s.
Proof.
  intros R Ht Hn Hnone Hsome. unfold amdgv_cper_alloc_entry. apply wp_bind, wp_gets.
  destruct (enabled s) eqn:He; cbn [negb]; [|by apply wp_ret, Hnone].
  rewrite alloc_size_ok by done. apply wp_bind. unfold oss_zalloc. apply wp_bind, wp_zoom. unfold oss_alloc, wp at 1.
  destruct (oss_alloc_ok _); cbn [negb].
  - apply wp_bind, wp_gets, wp_bind, wp_modify, wp_ret. apply wp_bind.
    match goal with |- wp _ _ ?t =>
      assert (exists o, t = with_new (HDR_LEN + n * (SEC_DESC_LEN + sec_len_of type)) s o) as [o ->] by (eexists; reflexivity) end.
    pose proof (ring_ok_new base log (HDR_LEN + n * (SEC_DESC_LEN + sec_len_of type)) s o R) as R1.
    eapply wp_on_record; [cbn; apply lookup_insert_eq|]. pose proof (blank_new type n Hn) as Hb.
    apply wp_wrn; [lia| |].
    { rewrite len_replicate. destruct type; cbn [sec_len_of]; sizes; lia. }
    apply wp_ret. eapply Hsome; [done|by apply ring_ok_pending|cbn; apply lookup_insert_eq|exact Hb|done].
  - apply wp_ret. apply Hnone; [|done]. by eapply ring_ok_ext.
Qed.
End ring_ops.
