(* ===== verification/CperMake.v ===== *)
(** * CPER records: making one, and reading it back

    Each function that makes records adds the finished record to the ring or,
    when no memory is left, leaves the ring as it was; the registers read from
    a section are those of the bank it was made of. *)
From stdpp Require Import gmap.
From S2P Require Import Prelude Oss Bytes CperTime Cper CperRecord CperInv.
#[local] Open Scope Z_scope.

Definition good_bank (b : mca_bank_entry) : Prop :=
  length (regs b) = MCA_REG_IDX_COUNT /\ Forall (in_width 64) (regs b).
Definition reg (b : mca_bank_entry) (i : nat) : Z := nth i (regs b) 0.
Definition half_words (b : mca_bank_entry) (is_ : list nat) : list Z :=
  concat ((fun i => [lower_32_bits (reg b i); upper_32_bits (reg b i)]) <$> is_).

Definition fatal_words (b : mca_bank_entry) : list Z :=
  half_words b [MCA_REG_IDX_STATUS; MCA_REG_IDX_ADDR; MCA_REG_IDX_IPID; MCA_REG_IDX_SYND].
Definition runtime_words (b : mca_bank_entry) : list Z :=
  half_words b [MCA_REG_IDX_CTL; MCA_REG_IDX_STATUS; MCA_REG_IDX_ADDR; MCA_REG_IDX_MISC0; MCA_REG_IDX_CONFIG;
                MCA_REG_IDX_IPID; MCA_REG_IDX_SYND] ++ replicate 2 0 ++
  half_words b [MCA_REG_IDX_DESTAT; MCA_REG_IDX_DEADDR; MCA_REG_IDX_MISC1] ++ replicate 10 0.
Definition section_bytes (words : list Z) : bytes := concat (le 4 <$> words).

Section make.
Context {E : CperEnv} {OE : OssEnv} {SE : CperSane E}.

Lemma wp_halves b is_ (Q : list Z -> amdgv_cper -> Prop) s : good_bank b -> Forall (fun i => (i < 16)%nat) is_ ->
  Q (half_words b is_) s -> wp (halves b is_) Q s.
Proof.
  intros [Hl _] Hi HQ. unfold halves. apply wp_bind. eapply (wp_require _ ((reg b) <$> is_)).
  - apply mapM_Some, Forall2_fmap_r, Forall_Forall2_diag. eapply Forall_impl; [exact Hi|]. intros i Hlt. cbn beta in *.
    unfold reg. destruct (lookup_lt_is_Some_2 (regs b) i) as [v Hv]; [unfold MCA_REG_IDX_COUNT in Hl; lia|].
    cbn [compose]. by rewrite (nth_lookup_Some _ _ _ _ Hv).
  - apply wp_ret. by rewrite <- list_fmap_compose.
Qed.

(** What a call of a function that makes records did. *)
Definition adds (base : Z) (log : list bytes) (s : amdgv_cper) (P : bytes -> Prop) (r : Z) (s' : amdgv_cper) : Prop :=
  same_cper s s' /\
  ((r = AMDGV_FAILURE /\ ring_ok base log None s') \/
   (r = 0 /\ enabled s = true /\ exists rec, P rec /\ whole rec /\ ring_ok base (log ++ [rec]) None s' /\
      exists p, ring s' !! slot s' (wptr s) = Some (Some p) /\ heap s' !! p = Some rec)).

Lemma wp_fill_hdr base log type n sev p r s (Q : unit -> amdgv_cper -> Prop) :
  ring_ok base log (Some p) s -> heap s !! p = Some r -> blank type n r -> 0 <= n < 65536 -> type <> AMDGV_CPER_TYPE_MAX ->
  (forall r' s', ring_ok base log (Some p) s' -> heap s' !! p = Some r' -> same_cper s s' ->
    (forall ty, filled n (sec_len_of type) (notify type sev) ty [] r') -> Q tt s') ->
  wp (amdgv_cper_entry_fill_hdr p type sev) Q s.
Proof.
  intros R Hp (Hlen & Hcnt & Hrl & Hby) Hn Ht HQ. unfold amdgv_cper_entry_fill_hdr.
  apply wp_bind, wp_gets, wp_bind, wp_modify, wp_bind, wp_gets, wp_bind, wp_modify.
  match goal with |- wp _ _ ?t => set (s1 := t) end.
  assert (ring_ok base log (Some p) s1) as R1 by by eapply ring_ok_ext.
  eapply wp_on_record; [exact Hp|].
  eapply wp_mono; [apply (fill_hdr_ok n (sec_len_of type) []); [apply sec_len_ok|done..|apply utc_in_calendar|done]|].
  intros [] r' F. cbn beta. eapply HQ; [by apply ring_ok_pending|cbn; apply lookup_insert_eq|done|].
  intros ty. destruct F. split; done.
Qed.

(** A section is filled in the record under construction. *)
Lemma wp_fill base log p r s (m : M bytes unit) (P : bytes -> Prop) (Q : unit -> amdgv_cper -> Prop) :
  ring_ok base log (Some p) s -> heap s !! p = Some r -> wp m (fun _ => P) r ->
  (forall r' s', ring_ok base log (Some p) s' -> heap s' !! p = Some r' -> same_cper s s' -> P r' -> Q tt s') ->
  wp (on_record p m) Q s.
Proof.
  intros R Hp Hm HQ. eapply wp_on_record; [exact Hp|]. eapply wp_mono; [exact Hm|]. intros [] r' HP. cbn beta.
  eapply HQ; [by apply ring_ok_pending|cbn; apply lookup_insert_eq|done|done].
Qed.

Lemma wp_finish base log p rec s0 s (P : bytes -> Prop) : ring_ok base log (Some p) s -> heap s !! p = Some rec ->
  whole rec -> P rec -> wptr s + 1 < 2 ^ 64 -> enabled s = true -> same_cper s0 s -> wptr s0 = wptr s ->
  wp (_ ← amdgv_cper_commit_entry p; mret 0) (adds base log s0 P) s.
Proof.
  intros R Hp Hw HP Hu He Hs Hw0. apply wp_bind. eapply wp_commit; [exact R|exact Hp|done..|].
  intros h o R' Hp'. apply wp_ret. destruct Hs as (E1 & E2 & E3). split; [done|]. right. split; [done|].
  split; [by rewrite <- E1|]. exists rec. split_and!; [done..|]. exists p. rewrite Hw0. split; [|done].
  cbn. unfold slot. cbn. apply list_lookup_insert_eq. destruct (next_slot _ _ _ _ R) as (old & Hold & _).
  by eapply lookup_lt_Some.
Qed.

Lemma wptr_of base log pending pending' s s' : ring_ok base log pending s -> ring_ok base log pending' s' -> wptr s = wptr s'.
Proof. intros R R'. by rewrite (ro_wptr _ _ _ _ R), (ro_wptr _ _ _ _ R'). Qed.

Lemma same_trans s1 s2 s3 : same_cper s1 s2 -> same_cper s2 s3 -> same_cper s1 s3.
Proof. unfold same_cper. intros (-> & -> & ->). done. Qed.

Lemma filled_whole n L nt ty data r : filled n L nt ty data r -> kind_ok nt ty L -> 0 <= n < 65536 ->
  Z.of_nat (length data) = n -> whole r.
Proof. intros. by exists n, L, nt, ty, data. Qed.

Lemma generate_ue_ok base log b s : ring_ok base log None s -> wptr s + 1 < 2 ^ 64 -> good_bank b ->
  wp (amdgv_mca_generate_ue_cper b)
    (adds base log s (filled 1 FATAL_SEC_LEN MCE CRASHDUMP [section_bytes (fatal_words b)])) s.
Proof.
  intros R Hu Hb. unfold amdgv_mca_generate_ue_cper. apply wp_bind.
  eapply (wp_alloc_entry base log); [exact R|done|lia|intros s1 R1 H1; apply wp_ret; split; [done|by left]|].
  intros p r s1 He R1 Hp Hblank H1. apply wp_bind, wp_halves; [done|by repeat constructor|].
  apply wp_bind. eapply wp_fill_hdr; [exact R1|exact Hp|exact Hblank|lia|done|]. intros r2 s2 R2 Hp2 H2 F2.
  apply wp_bind. eapply wp_fill; [exact R2|exact Hp2|apply (fill_fatal_ok 1 MCE []); [apply F2|lia|cbn; lia|done]|].
  intros r3 s3 R3 Hp3 H3 F3. cbn [app] in F3.
  pose proof (same_trans _ _ _ (same_trans _ _ _ H1 H2) H3) as Hs.
  eapply wp_finish; [exact R3|exact Hp3| |exact F3| | |done|by eapply wptr_of].
  - eapply filled_whole; [exact F3|by left; vm_compute|lia|done].
  - by rewrite <- (wptr_of _ _ _ _ _ _ R R3).
  - destruct Hs as (-> & _). done.
Qed.

Definition ce_severity (banks : list mca_bank_entry) : Z :=
  if existsb (fun b => bool_decide (bank_type b = AMDGV_MCA_ERROR_TYPE_DE)) banks
  then CPER_SEV_NON_FATAL_UNCORRECTED else CPER_SEV_NON_FATAL_CORRECTED.
Definition ce_record (banks : list mca_bank_entry) : bytes -> Prop :=
  filled (Z.of_nat (length banks)) NONSTD_SEC_LEN (notify AMDGV_CPER_TYPE_RUNTIME (ce_severity banks)) RUNTIME
    ((fun b => section_bytes (runtime_words b)) <$> banks).

Lemma wp_runtime_regs b (Q : list Z -> amdgv_cper -> Prop) s : good_bank b -> Q (runtime_words b) s ->
  wp (runtime_regs b) Q s.
Proof.
  intros Hb HQ. unfold runtime_regs. apply wp_bind, wp_halves; [done|by repeat constructor|].
  apply wp_bind, wp_halves; [done|by repeat constructor|]. by apply wp_ret.
Qed.

Lemma ce_not_boot banks : notify AMDGV_CPER_TYPE_RUNTIME (ce_severity banks) <> BOOT.
Proof. unfold ce_severity. by destruct (existsb _ _); vm_compute. Qed.

(** The loop over the banks: as many sections are filled as banks were seen. *)
Lemma ce_loop_ok base log p nt banks r0 s0 : ring_ok base log (Some p) s0 -> heap s0 !! p = Some r0 ->
  filled (Z.of_nat (length banks)) NONSTD_SEC_LEN nt RUNTIME [] r0 -> Forall good_bank banks ->
  Z.of_nat (length banks) < 65536 ->
  wp (for_each (imap pair banks) (fun ib =>
        reg_data ← runtime_regs (snd ib);
        on_record p (amdgv_cper_entry_fill_runtime_section (Z.of_nat (fst ib))
          (amdgv_mca_type_to_cper_sev (bank_type (snd ib))) reg_data CPER_ACA_REG_COUNT)))
    (fun _ s => ring_ok base log (Some p) s /\ same_cper s0 s /\ exists r, heap s !! p = Some r /\
       filled (Z.of_nat (length banks)) NONSTD_SEC_LEN nt RUNTIME ((fun b => section_bytes (runtime_words b)) <$> banks) r) s0.
Proof.
  intros R0 Hp0 F0 Hb Hn.
  set (I := fun (pre : list (nat * mca_bank_entry)) s => ring_ok base log (Some p) s /\ same_cper s0 s /\
    exists r, heap s !! p = Some r /\ filled (Z.of_nat (length banks)) NONSTD_SEC_LEN nt RUNTIME
      ((fun b => section_bytes (runtime_words (snd b))) <$> pre) r).
  eapply wp_mono; [apply (wp_for_each_pre I)|].
  - intros pre [i b] post s Hl (R & Hs & r & Hp & F). cbn [fst snd].
    assert (imap pair banks !! length pre = Some (i, b)) as Hib by (rewrite Hl; by apply list_lookup_middle).
    rewrite list_lookup_imap in Hib. destruct (banks !! length pre) as [b'|] eqn:Hbk; [|done]. cbn in Hib.
    injection Hib as <- ->. apply wp_bind, wp_runtime_regs; [by eapply Forall_lookup_1|].
    pose proof (lookup_lt_Some _ _ _ Hbk).
    eapply wp_fill; [exact R|exact Hp| |].
    + rewrite <- (length_fmap (fun b => section_bytes (runtime_words (snd b))) pre).
      apply fill_runtime_ok; [exact F|lia|rewrite length_fmap; lia|done].
    + intros r' s' R' Hp' Hs' F'. split; [done|]. split; [by eapply same_trans|]. exists r'. split; [done|].
      by rewrite fmap_app.
  - split; [done|]. split; [done|]. by exists r0.
  - intros [] s (R & Hs & r & Hp & F). split; [done|]. split; [done|]. exists r. split; [done|].
    replace ((fun b => section_bytes (runtime_words b)) <$> banks) with
      ((fun b => section_bytes (runtime_words (snd b))) <$> imap pair banks); [done|].
    rewrite fmap_imap. apply list_eq. intros i. rewrite list_lookup_imap, list_lookup_fmap. by destruct (banks !! i).
Qed.

Lemma generate_ce_ok base log banks s : ring_ok base log None s -> wptr s + 1 < 2 ^ 64 -> Forall good_bank banks ->
  Z.of_nat (length banks) < 65536 ->
  wp (amdgv_mca_generate_ce_cper banks) (adds base log s (ce_record banks)) s.
Proof.
  intros R Hu Hb Hn. unfold amdgv_mca_generate_ce_cper. apply wp_bind.
  eapply (wp_alloc_entry base log); [exact R|done|lia|intros s1 R1 H1; apply wp_ret; split; [done|by left]|].
  intros p r s1 He R1 Hp Hblank H1. fold (ce_severity banks).
  apply wp_bind. eapply wp_fill_hdr; [exact R1|exact Hp|exact Hblank|lia|done|]. intros r2 s2 R2 Hp2 H2 F2.
  apply wp_bind. eapply wp_mono; [apply (ce_loop_ok base log p _ banks r2 s2 R2 Hp2 (F2 RUNTIME) Hb Hn)|].
  intros [] s3 (R3 & H3 & r3 & Hp3 & F3). pose proof (same_trans _ _ _ (same_trans _ _ _ H1 H2) H3) as Hs.
  eapply wp_finish; [exact R3|exact Hp3| |exact F3| | |done|by eapply wptr_of].
  - eapply filled_whole; [exact F3|right; right; split; [by apply ce_not_boot|done]|lia|by rewrite length_fmap].
  - by rewrite <- (wptr_of _ _ _ _ _ _ R R3).
  - destruct Hs as (-> & _). done.
Qed.

Definition ue_record (b : mca_bank_entry) : bytes -> Prop :=
  filled 1 FATAL_SEC_LEN MCE CRASHDUMP [section_bytes (fatal_words b)].

Lemma ue_loop_ok banks base log s : ring_ok base log None s -> wptr s + Z.of_nat (length banks) < 2 ^ 64 ->
  Forall good_bank banks ->
  wp (ue_loop banks) (fun r s' => same_cper s s' /\ exists k recs, Forall2 ue_record (take k banks) recs /\
    ring_ok base (log ++ recs) None s' /\ ((r = 0 /\ k = length banks) \/ (r = AMDGV_FAILURE /\ (k < length banks)%nat))) s.
Proof.
  intros R Hu Hb. revert log s R Hu. induction Hb as [|b banks Hb Hbs IH]; intros log s R Hu; cbn [ue_loop].
  - apply wp_ret. split; [done|]. exists 0%nat, []. rewrite app_nil_r. split_and!; [constructor|done|by left].
  - cbn [length] in Hu. apply wp_bind. eapply wp_mono; [apply (generate_ue_ok base log); [done|lia|done]|].
    intros r s1 (H1 & [[-> R1]|(-> & He & rec & HP & _ & R1 & _)]); cbn.
    + apply wp_ret. split; [done|]. exists 0%nat, []. rewrite app_nil_r. split_and!; [constructor|done|right]. split; [done|lia].
    + assert (wptr s1 = wptr s + 1) as Hw.
      { rewrite (ro_wptr _ _ _ _ R1), (ro_wptr _ _ _ _ R), length_app. cbn [length]. lia. }
      eapply wp_mono; [apply (IH (log ++ [rec]) s1 R1); lia|]. intros r s2 (H2 & k & recs & HF & R2 & Hr).
      split; [by eapply same_trans|]. exists (S k), (rec :: recs). cbn [take]. split_and!; [by constructor| |].
      * by rewrite <- app_assoc in R2.
      * destruct Hr as [[-> ->]|[-> ?]]; [left|right]; split; (done || (cbn; lia)).
Qed.

Lemma generate_rma_ok base log s : ring_ok base log None s -> wptr s + 1 < 2 ^ 64 ->
  wp amdgv_device_generate_rma_cper
    (adds base log s (fun rec => exists d, filled 1 NONSTD_SEC_LEN MCE RUNTIME [d] rec)) s.
Proof.
  intros R Hu. unfold amdgv_device_generate_rma_cper. apply wp_bind.
  eapply (wp_alloc_entry base log); [exact R|done|lia|intros s1 R1 H1; apply wp_ret; split; [done|by left]|].
  intros p r s1 He R1 Hp Hblank H1.
  apply wp_bind. eapply wp_fill_hdr; [exact R1|exact Hp|exact Hblank|lia|done|]. intros r2 s2 R2 Hp2 H2 F2.
  apply wp_bind. eapply wp_fill; [exact R2|exact Hp2|apply (fill_bad_page_ok 1 MCE []); [apply F2|lia|cbn; lia]|].
  intros r3 s3 R3 Hp3 H3 (d & Hd & F3). cbn [app] in F3.
  pose proof (same_trans _ _ _ (same_trans _ _ _ H1 H2) H3) as Hs.
  eapply wp_finish; [exact R3|exact Hp3| |by exists d| | |done|by eapply wptr_of].
  - eapply filled_whole; [exact F3|right; right; by vm_compute|lia|done].
  - by rewrite <- (wptr_of _ _ _ _ _ _ R R3).
  - destruct Hs as (-> & _). done.
Qed.
End make.

(** ** CPER records: the registers read back from a section *)

Lemma join_halves v : in_width 64 v ->
  Z.lor (Z.lor 0 (lower_32_bits v)) (u64 (Z.shiftl (upper_32_bits v) 32)) = v.
Proof.
  intros Hv. rewrite Z.lor_0_l. unfold lower_32_bits, upper_32_bits, wrap. rewrite Z.shiftr_shiftr by lia. cbn [Z.add Pos.add Pos.succ].
  apply Z.bits_inj'. intros n Hn. rewrite Z.lor_spec.
  rewrite <- (Z.mod_small v (2 ^ 64)) at 3 by exact Hv.
  destruct (Z.lt_ge_cases n 32) as [H32|H32].
  - rewrite !(Z.mod_pow2_bits_low _ _ n) by lia. rewrite Z.shiftl_spec_low by lia. by rewrite orb_false_r.
  - rewrite (Z.mod_pow2_bits_high v 32) by lia. cbn [orb]. destruct (Z.lt_ge_cases n 64) as [H64|H64].
    + rewrite !(Z.mod_pow2_bits_low _ 64 n) by lia. rewrite Z.shiftl_spec, Z.mod_pow2_bits_low, Z.shiftr_spec by lia.
      f_equal. lia.
    + by rewrite !Z.mod_pow2_bits_high by lia.
Qed.

Lemma lower_width v : in_width 32 (lower_32_bits v).
Proof. by apply wrap_range. Qed.
Lemma upper_width v : in_width 32 (upper_32_bits v).
Proof. by apply wrap_range. Qed.

Lemma sl_words words k w : words !! k = Some w -> sl (4 * Z.of_nat k) 4 (section_bytes words) = le 4 w.
Proof.
  unfold section_bytes. revert k. induction words as [|x words IH]; intros [|k] Hk; try done.
  - injection Hk as ->. cbn [fmap list_fmap concat]. unfold sl. rewrite drop_0.
    apply take_app_length'. by rewrite length_le.
  - specialize (IH k Hk). cbn [fmap list_fmap concat]. rewrite <- IH. unfold sl. f_equal.
    rewrite drop_app_ge by (rewrite length_le; lia). f_equal. rewrite length_le. lia.
Qed.

Lemma len_section words : len (section_bytes words) = 4 * Z.of_nat (length words).
Proof. unfold section_bytes. by rewrite len_words. Qed.

(** ** The format of a section's registers

    The registers of a section start 144 bytes into it, at the offset its
    descriptor gives, as 64-bit little-endian cells.  Which register each cell
    holds is the format's ([amd_cper.h]), whatever the makers and readers do. *)
Definition reg_cell (m : bytes) (i k : nat) : Z :=
  unle (sl (unle (sl (SEC_DESC_OFFSET (Z.of_nat i)) 4 m) + 144 + 8 * Z.of_nat k) 8 m).
Definition fatal_cells : list (nat * nat) :=
  [(0, MCA_REG_IDX_STATUS); (1, MCA_REG_IDX_ADDR); (2, MCA_REG_IDX_IPID); (3, MCA_REG_IDX_SYND)]%nat.
Definition runtime_cells : list (nat * nat) :=
  [(0, MCA_REG_IDX_CTL); (1, MCA_REG_IDX_STATUS); (2, MCA_REG_IDX_ADDR); (3, MCA_REG_IDX_MISC0); (4, MCA_REG_IDX_CONFIG);
   (5, MCA_REG_IDX_IPID); (6, MCA_REG_IDX_SYND); (8, MCA_REG_IDX_DESTAT); (9, MCA_REG_IDX_DEADDR); (10, MCA_REG_IDX_MISC1)]%nat.

(** Section [i] of [m] stores the registers of [b] in the cells of [cells]. *)
Definition stores (cells : list (nat * nat)) (m : bytes) (i : nat) (b : mca_bank_entry) : Prop :=
  Forall (fun c => reg_cell m i (fst c) = reg b (snd c)) cells.

(** The readers restore the registers of a fatal section and the first seven
    of a runtime one; they leave the others at zero. *)
Definition restored_cells (ty : bytes) : list (nat * nat) :=
  if bool_decide (ty = CRASHDUMP) then fatal_cells else take 7 runtime_cells.
Definition restored (cells : list (nat * nat)) (m : bytes) (i : nat) : list Z :=
  (fun j => match List.find (fun c => Nat.eqb (snd c) j) cells with
            | Some (k, _) => reg_cell m i k
            | None => 0
            end) <$> seq 0 MCA_REG_IDX_COUNT.

Lemma unle_app l1 l2 : unle (l1 ++ l2) = unle l1 + 256 ^ len l1 * unle l2.
Proof.
  induction l1 as [|x l1 IH]; [change (len []) with 0; cbn [unle app]; lia|].
  cbn [unle app]. rewrite IH. change (len (x :: l1)) with (Z.of_nat (S (length l1))).
  rewrite Nat2Z.inj_succ, Z.pow_succ_r by lia. unfold len. lia.
Qed.
Lemma sl_split off n k m : 0 <= off -> 0 <= n -> 0 <= k -> sl off (n + k) m = sl off n m ++ sl (off + n) k m.
Proof. intros. unfold sl. rewrite !Z2Nat.inj_add by lia. by rewrite <- drop_drop, take_take_drop. Qed.
Lemma unle_width m : bytes_ok m -> 0 <= unle m < 256 ^ len m.
Proof.
  induction 1 as [|b m Hb _ IH]; [by vm_compute|]. cbn [unle]. change (len (b :: m)) with (Z.of_nat (S (length m))).
  rewrite Nat2Z.inj_succ, Z.pow_succ_r by lia. unfold len in IH. unfold in_width in Hb. change (2 ^ 8) with 256 in Hb. lia.
Qed.

Section read_back.
Context {E : CperEnv} {OE : OssEnv}.

Lemma wp_get_type n L nt ty data i d m (Q : amdgv_cper_type -> bytes -> Prop) : filled n L nt ty data m -> section_len L ->
  0 <= n -> data !! i = Some d -> nt <> BOOT -> Z.of_nat (length data) <= n ->
  Q (if bool_decide (ty = CRASHDUMP) then AMDGV_CPER_TYPE_FATAL
     else if bool_decide (ty = RUNTIME) then AMDGV_CPER_TYPE_RUNTIME else AMDGV_CPER_TYPE_MAX) m ->
  wp (amdgv_cper_get_type (Z.of_nat i)) Q m.
Proof.
  intros F HL Hn Hi Hb Hdn HQ. destruct (f_sec _ _ _ _ _ _ F i _ Hi) as (Hd & _ & _ & _ & Ht & _).
  pose proof (lookup_lt_Some _ _ _ Hi). pose proof (f_len _ _ _ _ _ _ F) as Hlen.
  unfold amdgv_cper_get_type. apply wp_bind, wp_rd; [lia|lia|destruct HL as [->|[->| ->]]; sizes; lia|].
  rewrite (f_nt _ _ _ _ _ _ F). rewrite bool_decide_false by done.
  apply wp_bind, wp_rd; [sizes; lia|lia|destruct HL as [->|[->| ->]]; sizes; lia|]. rewrite Ht.
  case_bool_decide; [by apply wp_ret|]. by case_bool_decide; apply wp_ret.
Qed.
End read_back.

Section banks.
Context {E : CperEnv} {OE : OssEnv}.

(** The word pair at a cell is its value. *)
Lemma wp_or_cell n L nt ty data i k j d rs m (Q : list Z -> bytes -> Prop) :
  filled n L nt ty data m -> section_len L -> 0 <= n -> data !! i = Some d -> Z.of_nat (length data) <= n ->
  144 + 8 * Z.of_nat k + 8 <= L -> rs !! j = Some 0 -> Q (<[j := reg_cell m i k]> rs) m ->
  wp (or_reg (HDR_LEN + SEC_DESC_LEN * n + L * Z.of_nat i + 144) (2 * Z.of_nat k) j rs) Q m.
Proof.
  intros F HL Hn Hi Hdn Hk Hj HQ. destruct (f_sec _ _ _ _ _ _ F i _ Hi) as (_ & _ & Ho & _).
  pose proof (lookup_lt_Some _ _ _ Hi). pose proof (f_len _ _ _ _ _ _ F) as Hlen. unfold or_reg.
  apply wp_bind. eapply wp_require; [exact Hj|].
  set (o := HDR_LEN + SEC_DESC_LEN * n + L * Z.of_nat i + 144 + 8 * Z.of_nat k).
  assert (0 <= o /\ o + 8 <= len m) as [Ho1 Ho2] by (subst o; destruct HL as [->|[->| ->]]; sizes; lia).
  replace (HDR_LEN + SEC_DESC_LEN * n + L * Z.of_nat i + 144 + 4 * (2 * Z.of_nat k)) with o by (subst o; lia).
  replace (HDR_LEN + SEC_DESC_LEN * n + L * Z.of_nat i + 144 + 4 * (2 * Z.of_nat k + 1)) with (o + 4) by (subst o; lia).
  apply wp_bind, wp_rdn; [lia|lia|]. apply wp_bind, wp_rdn; [lia|lia|]. apply wp_ret. change (Z.of_nat 4) with 4.
  assert (reg_cell m i k = unle (sl o 4 m) + 2 ^ 32 * unle (sl (o + 4) 4 m)) as Hc.
  { unfold reg_cell. rewrite Ho. fold o. change 8 with (4 + 4) at 1. rewrite sl_split, unle_app, len_sl by lia. done. }
  pose proof (unle_width _ (bytes_ok_sl o 4 m (f_bytes _ _ _ _ _ _ F))) as Hlo. rewrite len_sl in Hlo by lia.
  pose proof (unle_width _ (bytes_ok_sl (o + 4) 4 m (f_bytes _ _ _ _ _ _ F))) as Hhi. rewrite len_sl in Hhi by lia.
  change (256 ^ 4) with (2 ^ 32) in *. set (lo := unle (sl o 4 m)) in *. set (hi := unle (sl (o + 4) 4 m)) in *.
  assert (in_width 64 (reg_cell m i k)) as Hw by (unfold in_width; rewrite Hc; change (2 ^ 64) with (2 ^ 32 * 2 ^ 32); nia).
  pose proof (join_halves _ Hw) as Hjoin. rewrite Hc in Hjoin at 1 2.
  replace (lower_32_bits (lo + 2 ^ 32 * hi)) with lo in Hjoin.
  2: { unfold lower_32_bits, wrap. rewrite Z.mul_comm, Z.mod_add by lia. by rewrite Z.mod_small. }
  replace (upper_32_bits (lo + 2 ^ 32 * hi)) with hi in Hjoin; [by rewrite Hjoin|].
  unfold upper_32_bits, wrap. rewrite Z.shiftr_shiftr by lia. change (16 + 16) with 32. rewrite Z.shiftr_div_pow2 by lia.
  rewrite (Z.mul_comm (2 ^ 32) hi), Z.div_add, Z.div_small, Z.add_0_l, Z.mod_small by lia. done.
Qed.

(** What the two readers give for a section. *)
Lemma reads_fatal n nt data i d m : filled n FATAL_SEC_LEN nt CRASHDUMP data m -> 0 <= n -> data !! i = Some d ->
  Z.of_nat (length data) <= n ->
  wp (amdgv_mca_get_fatal_bank_from_cper_section (Z.of_nat i) (replicate MCA_REG_IDX_COUNT 0))
    (fun rs m' => rs = restored fatal_cells m i /\ m' = m) m.
Proof.
  intros F Hn Hi Hdn. assert (section_len FATAL_SEC_LEN) as HL by by left.
  unfold amdgv_mca_get_fatal_bank_from_cper_section, amdgv_cper_get_crashdump. apply wp_bind, wp_bind.
  eapply wp_sec_cnt; [exact F|done|lia|]. apply wp_ret. unfold FATAL_SEC_OFFSET. cbn [or_regs].
  do 4 (apply wp_bind; lazymatch goal with |- wp (or_reg _ ?k _ _) _ _ =>
    let k' := eval vm_compute in (Z.to_nat (k / 2)) in
    eapply (wp_or_cell n FATAL_SEC_LEN _ _ _ i k'); [exact F|done|lia|exact Hi|done|by vm_compute|reflexivity|] end).
  by apply wp_ret.
Qed.

Lemma reads_runtime n nt data i d m : filled n NONSTD_SEC_LEN nt RUNTIME data m -> 0 <= n -> data !! i = Some d ->
  Z.of_nat (length data) <= n ->
  wp (amdgv_mca_get_runtime_bank_from_cper_section (Z.of_nat i) (replicate MCA_REG_IDX_COUNT 0))
    (fun rs m' => rs = restored (take 7 runtime_cells) m i /\ m' = m) m.
Proof.
  intros F Hn Hi Hdn. assert (section_len NONSTD_SEC_LEN) as HL by (right; by right).
  unfold amdgv_mca_get_runtime_bank_from_cper_section, amdgv_cper_get_runtime_reg_dump. apply wp_bind, wp_bind.
  eapply wp_sec_cnt; [exact F|done|lia|]. apply wp_ret. unfold NONSTD_SEC_OFFSET. cbn [or_regs].
  do 7 (apply wp_bind; lazymatch goal with |- wp (or_reg _ ?k _ _) _ _ =>
    let k' := eval vm_compute in (Z.to_nat (k / 2)) in
    eapply (wp_or_cell n NONSTD_SEC_LEN _ _ _ i k'); [exact F|done|lia|exact Hi|done|by vm_compute|reflexivity|] end).
  by apply wp_ret.
Qed.

(** The words a maker wrote, as cells. *)
Lemma cell_words n L nt ty data i words k m v : filled n L nt ty data m -> section_len L -> 0 <= n ->
  data !! i = Some (section_bytes words) -> Z.of_nat (length data) <= n ->
  words !! (2 * k)%nat = Some (lower_32_bits v) -> words !! (2 * k + 1)%nat = Some (upper_32_bits v) -> in_width 64 v ->
  reg_cell m i k = v.
Proof.
  intros F HL Hn Hi Hdn Hlo Hhi Hv. destruct (f_sec _ _ _ _ _ _ F i _ Hi) as (Hd & _ & Ho & _ & _ & Hs).
  pose proof (lookup_lt_Some _ _ _ Hi). pose proof (lookup_lt_Some _ _ _ Hhi). pose proof (f_len _ _ _ _ _ _ F) as Hlen.
  pose proof (len_section words) as Hlw. rewrite Hlw in Hd. unfold reg_cell. rewrite Ho.
  set (s := HDR_LEN + SEC_DESC_LEN * n + L * Z.of_nat i) in *.
  assert (0 <= s /\ s + L <= len m) as [Hs1 Hs2] by (subst s; destruct HL as [->|[->| ->]]; sizes; lia).
  assert (sl (s + 144 + 8 * Z.of_nat k) 8 m = sl (8 * Z.of_nat k) 8 (section_bytes words)) as ->.
  { rewrite <- Hs. rewrite sl_sl by lia. f_equal; lia. }
  change 8 with (4 + 4) at 2. rewrite sl_split, unle_app, len_sl by lia.
  replace (8 * Z.of_nat k) with (4 * Z.of_nat (2 * k)) by lia. rewrite (sl_words _ _ _ Hlo).
  replace (4 * Z.of_nat (2 * k) + 4) with (4 * Z.of_nat (2 * k + 1)) by lia. rewrite (sl_words _ _ _ Hhi).
  pose proof (lower_width v). pose proof (upper_width v). unfold in_width in *.
  rewrite !unle_le_small by (change (256 ^ Z.of_nat 4) with (2 ^ 32); lia).
  unfold lower_32_bits, upper_32_bits, wrap in *. rewrite Z.shiftr_shiftr in * by lia. change (16 + 16) with 32 in *.
  rewrite Z.shiftr_div_pow2 in * by lia. change (256 ^ 4) with (2 ^ 32).
  rewrite (Z.mod_small (v / 2 ^ 32)); [pose proof (Z.div_mod v (2 ^ 32)); lia|].
  split; [apply Z.div_pos; lia|]. apply Z.div_lt_upper_bound; lia.
Qed.

Lemma wp_same {A} (m : M bytes A) a s : wp m (fun x t => x = a /\ t = s) s -> m s = Ret (a, s).
Proof. unfold wp. destruct (m s) as [[x t]|]; [|done]. by intros [-> ->]. Qed.

(** What a section is read back as: its type and its registers. *)
Definition reads_back (m : bytes) (i : nat) (ty : amdgv_cper_type)
    (get : Z -> list Z -> M bytes (list Z)) (cells : list (nat * nat)) : Prop :=
  amdgv_cper_get_type (Z.of_nat i) m = Ret (ty, m) /\
  get (Z.of_nat i) (replicate MCA_REG_IDX_COUNT 0) m = Ret (restored cells m i, m).

Ltac all_regs Hb :=
  let Hl := fresh "Hl" in let Hw := fresh "Hw" in
  destruct Hb as [Hl Hw];
  match goal with b : mca_bank_entry |- _ => destruct b as [bt rg]; cbn [regs] in Hl, Hw;
    do 16 (destruct rg as [|? rg]; [discriminate Hl|]); destruct rg; [|discriminate Hl];
    repeat (apply Forall_cons in Hw as [? Hw]) end.
Ltac all_cells F HL Hd Hn :=
  repeat apply Forall_cons_2; [..|apply Forall_nil_2]; cbn [fst snd];
  (eapply cell_words; [exact F|exact HL|lia|exact Hd|exact Hn|reflexivity|reflexivity|assumption]).

Lemma read_fatal b m : good_bank b -> ue_record b m ->
  stores fatal_cells m 0 b /\
  reads_back m 0 AMDGV_CPER_TYPE_FATAL amdgv_mca_get_fatal_bank_from_cper_section fatal_cells.
Proof.
  intros Hb F. assert (section_len FATAL_SEC_LEN) as HL by by left. split; [|split].
  - assert ([section_bytes (fatal_words b)] !! 0%nat = Some (section_bytes (fatal_words b))) as Hd by done.
    assert (Z.of_nat (length [section_bytes (fatal_words b)]) <= 1) as Hn by done.
    unfold ue_record in F. unfold stores, fatal_cells, fatal_words in *. all_regs Hb. all_cells F HL Hd Hn.
  - apply wp_same. eapply wp_get_type; [exact F|done|lia|reflexivity|by vm_compute|done|done].
  - apply wp_same. eapply reads_fatal; [exact F|lia|reflexivity|done].
Qed.

Lemma read_runtime banks i b m : banks !! i = Some b -> good_bank b -> ce_record banks m ->
  stores runtime_cells m i b /\
  reads_back m i AMDGV_CPER_TYPE_RUNTIME amdgv_mca_get_runtime_bank_from_cper_section (take 7 runtime_cells).
Proof.
  intros Hi Hb F. assert (section_len NONSTD_SEC_LEN) as HL by (right; by right).
  set (n := Z.of_nat (length banks)) in *.
  assert (((fun b => section_bytes (runtime_words b)) <$> banks) !! i = Some (section_bytes (runtime_words b))) as Hd
    by by rewrite list_lookup_fmap, Hi.
  assert (Z.of_nat (length ((fun b => section_bytes (runtime_words b)) <$> banks)) <= n) as Hn by (rewrite length_fmap; lia).
  unfold ce_record in F. fold n in F. split; [|split].
  - clear Hi. set (data := (fun b => section_bytes (runtime_words b)) <$> banks) in *. clearbody data n.
    unfold stores, runtime_cells, runtime_words in *. all_regs Hb. all_cells F HL Hd Hn.
  - apply wp_same. eapply wp_get_type; [exact F|done|lia|exact Hd| |done|done]. unfold ce_severity. by destruct (existsb _ _); vm_compute.
  - apply wp_same. eapply reads_runtime; [exact F|lia|exact Hd|exact Hn].
Qed.
End banks.
