(* ===== verification/CperRead.v ===== *)
(** * Reading the ring of CPER records

    What a reader gets is a function of the sequence of records: those still
    in the ring from the reader's position on, as many as fit the buffer. *)
From stdpp Require Import gmap.
From S2P Require Import Prelude Oss Bytes CperTime Cper CperRecord CperInv.
#[local] Open Scope Z_scope.

Definition AMDGV_CPER_MAX_RECORD_LEN : Z := 0x2000.
Definition AMDGV_CPER_DUMP_MAX_BYTES : Z := AMDGV_CPER_MAX_ALLOWED_COUNT * AMDGV_CPER_MAX_RECORD_LEN.

(** The position of a reader inside the window of the ring. *)
Definition first_valid (s : amdgv_cper) (rptr : Z) : Z := Z.max (Z.min rptr (wptr s)) (wptr s - max_count s).
(** The records from number [i] on. *)
Definition recs_from (base i : Z) (log : list bytes) : list bytes := drop (Z.to_nat (i - base)) log.

Fixpoint take_fit (room : Z) (recs : list bytes) : list bytes * list bytes :=
  match recs with
  | [] => ([], [])
  | r :: recs =>
      if len r <=? room then let '(w, rest) := take_fit (room - len r) recs in (r :: w, rest) else ([], r :: recs)
  end.

Lemma take_fit_app room recs w rest : take_fit room recs = (w, rest) -> recs = w ++ rest.
Proof.
  revert room w rest. induction recs as [|r recs IH]; intros room w rest; cbn; [by intros [= <- <-]|].
  destruct (Z.leb_spec (len r) room); [|by intros [= <- <-]].
  destruct (take_fit (room - len r) recs) as [w' rest'] eqn:Ht. intros [= <- <-]. cbn. f_equal. by eapply IH.
Qed.

Lemma take_fit_room room recs w rest : 0 <= room -> take_fit room recs = (w, rest) -> len (concat w) <= room.
Proof.
  revert room w rest. induction recs as [|r recs IH]; intros room w rest Hr; cbn; [by intros [= <- <-]|].
  destruct (Z.leb_spec (len r) room); [|by intros [= <- <-]].
  destruct (take_fit (room - len r) recs) as [w' rest'] eqn:Ht. intros [= <- <-]. cbn [concat]. rewrite len_app.
  pose proof (IH (room - len r) w' rest' ltac:(lia) Ht). lia.
Qed.

Lemma st_app off a b m : 0 <= off -> off + len a + len b <= len m ->
  st off (a ++ b) m = st (off + len a) b (st off a m).
Proof.
  intros Ho Hl. pose proof (len_nonneg a). pose proof (len_nonneg b). apply list_eq. intros i.
  rewrite !lookup_st by (rewrite ?len_st, ?len_app; lia). rewrite length_app. unfold len in *.
  destruct (decide (Z.to_nat (off + Z.of_nat (length a)) <= i < Z.to_nat (off + Z.of_nat (length a)) + length b)%nat).
  - rewrite decide_True by lia. rewrite lookup_app_r by lia. f_equal. lia.
  - destruct (decide (Z.to_nat off <= i < Z.to_nat off + length a)%nat).
    + rewrite decide_True by lia. by rewrite lookup_app_l by lia.
    + rewrite decide_False by lia. done.
Qed.

Lemma st_nil off m : st off [] m = m.
Proof. unfold st. cbn. rewrite Nat.add_0_r. apply take_drop. Qed.

Section readers.
Context {E : CperEnv} {OE : OssEnv}.

Lemma wp_on_read {A} p (m : M bytes A) r (Q : A -> amdgv_cper -> Prop) s : heap s !! p = Some r ->
  wp m (fun a r' => r' = r /\ Q a s) r -> wp (on_record p m) Q s.
Proof.
  intros Hp Hm. eapply wp_on_record; [exact Hp|]. eapply wp_mono; [exact Hm|]. intros a r' [-> HQ]. cbn beta.
  rewrite insert_id by done. by destruct s.
Qed.

Lemma wp_record_length p r (Q : Z -> amdgv_cper -> Prop) s : heap s !! p = Some r -> whole r ->
  Q (len r) s -> wp (on_record p record_length) Q s.
Proof.
  intros Hp Hw HQ. destruct (whole_len r Hw) as [Hl Hr]. eapply wp_on_read; [exact Hp|].
  unfold record_length. apply wp_rdn; [lia|lia|]. split; [done|]. change (Z.of_nat 4) with 4. by rewrite Hl.
Qed.

Section at_state.
Variables (base : Z) (log : list bytes) (pending : option nat) (s : amdgv_cper).
Hypothesis R : ring_ok base log pending s.

Lemma window_bounds : 0 < max_count s <= 4096 /\ 0 <= wptr s < 2 ^ 64.
Proof.
  pose proof (ro_max _ _ _ _ R). pose proof (ro_base _ _ _ _ R). pose proof (ro_wptr _ _ _ _ R).
  pose proof (ro_u64 _ _ _ _ R). unfold AMDGV_CPER_MAX_ALLOWED_COUNT in *. lia.
Qed.

Lemma move_to_first_valid rptr : 0 <= rptr -> CPER_MOVE_TO_FIRST_VALID s rptr = first_valid s rptr.
Proof.
  intros Hr. pose proof window_bounds. unfold CPER_MOVE_TO_FIRST_VALID, first_valid.
  destruct (Z.ltb_spec (wptr s) rptr); [lia|]. rewrite (wrap_id 64 (wptr s - rptr)) by (unfold in_width; lia).
  destruct (Z.ltb_spec (max_count s) (wptr s - rptr)); [|lia].
  rewrite wrap_id by (unfold in_width; lia). lia.
Qed.

(** What the slot of a number in the window holds. *)
Lemma wp_ring_at i (Q : option nat -> amdgv_cper -> Prop) : in_window s i ->
  (i < base -> recs_from base i log = recs_from base (i + 1) log -> Q None s) ->
  (forall p r, base <= i -> heap s !! p = Some r -> whole r -> log !! Z.to_nat (i - base) = Some r ->
     recs_from base i log = r :: recs_from base (i + 1) log -> Q (Some p) s) ->
  wp (ring_at i) Q s.
Proof.
  intros Hi Hnone Hsome. unfold ring_at. apply wp_bind, wp_gets. destruct (decide (i < base)).
  - eapply wp_require; [by apply (ro_null _ _ _ _ R)|]. apply Hnone; [done|]. unfold recs_from. f_equal. lia.
  - destruct (ro_held _ _ _ _ R i Hi) as (p & r & Hp & Hr & Hl); [lia|].
    eapply wp_require; [exact Hp|]. eapply (Hsome p r); [lia|done| |done|].
    + eapply Forall_lookup_1; [apply (ro_whole _ _ _ _ R)|exact Hl].
    + unfold recs_from. rewrite (drop_S _ _ _ Hl). do 2 f_equal. lia.
Qed.

Definition total_len (recs : list bytes) : Z := len (concat recs).

Lemma recs_from_end : recs_from base (wptr s) log = [].
Proof. unfold recs_from. apply drop_ge. rewrite (ro_wptr _ _ _ _ R). lia. Qed.

Lemma size_loop_ok fuel i size : 0 <= i -> wptr s - max_count s <= i <= wptr s -> wptr s - i <= Z.of_nat fuel ->
  0 <= size -> size + (wptr s - i) * MAX_RECORD < 2 ^ 63 ->
  wp (size_loop fuel i size) (fun r s' => s' = s /\ r = size + total_len (recs_from base i log)) s.
Proof.
  pose proof window_bounds. unfold MAX_RECORD. revert i size.
  induction fuel as [|fuel IH]; intros i size Hi Hw Hf Hs Ht; cbn [size_loop]; apply wp_bind, wp_gets.
  all: destruct (Z.ltb_spec i (wptr s)); cbn [negb]; [|apply wp_ret; split; [done|];
    replace i with (wptr s) by lia; rewrite recs_from_end; change (total_len []) with 0; lia].
  - lia.
  - rewrite (wrap_id 64 (i + 1)) by (unfold in_width; lia). apply wp_bind, wp_ring_at; [split; lia| |].
    + intros _ ->. apply IH; lia.
    + intros p r _ Hp Hr _ ->. apply wp_bind. eapply wp_record_length; [exact Hp|done|].
      destruct (whole_len r Hr) as [_ Hlen]. unfold MAX_RECORD in Hlen.
      rewrite (wrap_id 64 (size + len r)) by (unfold in_width; lia).
      eapply wp_mono; [apply IH; lia|]. intros x s' [-> ->]. split; [done|].
      unfold total_len. cbn [concat]. rewrite len_app. lia.
Qed.

Lemma copy_loop_ok fuel buf_size i offset wc buf w rest : 0 <= i -> wptr s - max_count s <= i <= wptr s ->
  wptr s - i <= Z.of_nat fuel -> 0 <= offset <= buf_size -> buf_size <= len buf -> buf_size <= AMDGV_CPER_DUMP_MAX_BYTES ->
  0 <= wc -> wc + (wptr s - i) < 2 ^ 64 -> take_fit (buf_size - offset) (recs_from base i log) = (w, rest) ->
  wp (copy_loop fuel buf_size i offset wc buf) (fun r s' => s' = s /\
    exists i', r = (i', wc + Z.of_nat (length w), st offset (concat w) buf) /\ i <= i' <= wptr s /\
      recs_from base i' log = rest) s.
Proof.
  pose proof window_bounds. unfold AMDGV_CPER_DUMP_MAX_BYTES, AMDGV_CPER_MAX_ALLOWED_COUNT, AMDGV_CPER_MAX_RECORD_LEN.
  revert i offset wc buf w rest.
  induction fuel as [|fuel IH]; intros i offset wc buf w rest Hi Hw Hf Ho Hb Hmax Hwc Ht Hfit; cbn [copy_loop]; apply wp_bind, wp_gets.
  all: destruct (Z.ltb_spec i (wptr s)); cbn [negb]; [|replace i with (wptr s) in * by lia; rewrite recs_from_end in Hfit;
    injection Hfit as <- <-; apply wp_ret; split; [done|]; exists (wptr s); cbn [length concat]; rewrite st_nil, Z.add_0_r;
    split_and!; [done|lia|lia|apply recs_from_end]].
  - lia.
  - rewrite (wrap_id 64 (i + 1)) by (unfold in_width; lia). apply wp_bind, wp_ring_at; [split; lia| |].
    + intros _ Heq. rewrite Heq in Hfit. eapply wp_mono; [eapply IH; [lia..|exact Hfit]|].
      intros r s' [-> (i' & -> & Hi' & Hrest)]. split; [done|]. exists i'. split_and!; [done|lia|lia|done].
    + intros p r _ Hp Hr _ Heq. rewrite Heq in Hfit. cbn [take_fit] in Hfit. apply wp_bind. eapply wp_record_length; [exact Hp|done|].
      destruct (whole_len r Hr) as [_ Hlen]. unfold MAX_RECORD in Hlen. change (2 ^ 25) with 33554432 in Hlen.
      rewrite (wrap_id 32 (offset + len r)) by (unfold in_width; lia).
      destruct (Z.ltb_spec buf_size (offset + len r)).
      * destruct (Z.leb_spec (len r) (buf_size - offset)); [lia|]. injection Hfit as <- <-.
        apply wp_ret. split; [done|]. exists i. cbn [length concat]. rewrite st_nil, Z.add_0_r. split_and!; [done|lia|lia|done].
      * destruct (Z.leb_spec (len r) (buf_size - offset)); [|lia].
        destruct (take_fit (buf_size - offset - len r) (recs_from base (i + 1) log)) as [w' rest'] eqn:Hfit'.
        injection Hfit as <- <-.
        apply wp_bind. eapply wp_on_read; [exact Hp|]. apply wp_rd; [lia|lia|lia|]. split; [done|].
        rewrite sl_all. apply wp_bind, wp_demand; [apply inside_true; lia|].
        rewrite (wrap_id 64 (wc + 1)) by (unfold in_width; lia).
        pose proof (take_fit_room (buf_size - offset - len r) _ _ _ ltac:(lia) Hfit') as Hroom.
        replace (buf_size - offset - len r) with (buf_size - (offset + len r)) in Hfit' by lia.
        eapply wp_mono; [eapply IH; [lia|lia|lia|lia|rewrite len_st by lia; lia|lia|lia|lia|exact Hfit']|].
        intros x s' [-> (i' & -> & Hi' & Hrest)]. split; [done|]. exists i'. split_and!; [|lia|lia|done].
        cbn [length concat]. rewrite st_app by lia. replace (wc + Z.of_nat (S (length w'))) with (wc + 1 + Z.of_nat (length w')) by lia. done.
Qed.

Lemma get_count_ok rptr : 0 <= rptr ->
  wp (amdgv_cper_get_count rptr) (fun r s' => s' = s /\
    r = (wptr s, wptr s - first_valid s rptr, total_len (recs_from base (first_valid s rptr) log))) s.
Proof.
  intros Hr. pose proof window_bounds. unfold amdgv_cper_get_count. apply wp_bind, wp_gets. cbv beta zeta delta [id].
  set (rp := if wptr s <? rptr then wptr s else rptr).
  assert (0 <= rp /\ first_valid s rp = first_valid s rptr) as [Hrp Hfv].
  { subst rp. unfold first_valid. destruct (Z.ltb_spec (wptr s) rptr); lia. }
  rewrite move_to_first_valid, Hfv by done.
  assert (0 <= first_valid s rptr /\ wptr s - max_count s <= first_valid s rptr <= wptr s) by (unfold first_valid; lia).
  apply wp_bind, wp_gets, wp_bind. eapply wp_mono; [apply size_loop_ok; unfold MAX_RECORD; lia|].
  intros x s' [-> ->]. apply wp_ret. split; [done|]. rewrite wrap_id by (unfold in_width; lia). done.
Qed.

Lemma get_entries_ok rptr buf buf_size w rest : 0 <= rptr -> 0 <= buf_size <= AMDGV_CPER_DUMP_MAX_BYTES ->
  buf_size <= len buf -> take_fit buf_size (recs_from base (first_valid s rptr) log) = (w, rest) ->
  wp (amdgv_cper_get_entries rptr buf buf_size) (fun r s' => s' = s /\
    r = (Z.of_nat (length w), first_valid s rptr - Z.min rptr (wptr s), total_len rest, st 0 (concat w) buf)) s.
Proof.
  intros Hr Hb Hl Hfit. pose proof window_bounds. unfold amdgv_cper_get_entries. apply wp_bind, wp_gets. cbv beta zeta delta [id].
  set (rp := if wptr s <? rptr then wptr s else rptr).
  assert (rp = Z.min rptr (wptr s) /\ first_valid s rp = first_valid s rptr) as [Hrp Hfv].
  { subst rp. unfold first_valid. destruct (Z.ltb_spec (wptr s) rptr); lia. }
  rewrite move_to_first_valid, Hfv by lia.
  assert (0 <= first_valid s rptr /\ wptr s - max_count s <= first_valid s rptr <= wptr s) by (unfold first_valid; lia).
  apply wp_bind, wp_gets, wp_bind.
  eapply wp_mono; [eapply (copy_loop_ok _ buf_size _ 0 0 buf w rest); [lia..|]|].
  { by rewrite Z.sub_0_r. }
  intros x s' [-> (i' & -> & Hi' & Hrest)]. cbn beta iota. apply wp_bind.
  eapply wp_mono; [apply size_loop_ok; unfold MAX_RECORD; lia|]. intros x s' [-> ->]. apply wp_ret. split; [done|].
  rewrite Hrest, Hrp, wrap_id by (unfold in_width, first_valid; lia). done.
Qed.
End at_state.
End readers.
