(* ===== verification/CperDump.v ===== *)
(** * CPER records for a VF (src/libgv/core/amdgv_cper.c, amdgv_vfmgr.c)

    A guest asks for the records from a position of its choice; the host copies
    to the RAS table in the guest's frame buffer those made since the guest was
    loaded, of each only the sections of blocks the guest may see, with the
    serial number of the board taken out.  The copy to the frame buffer is an
    answer of [XchgEnv]; the writes asked for are recorded. *)
From stdpp Require Import gmap.
From S2P Require Import Prelude Oss Bytes Cper.
#[local] Open Scope Z_scope.

(** Whether each copy to a guest succeeds, and the block a bank belongs to as
    the ASIC's decoder tells it. *)
Class XchgEnv := {
  xchg_ok : nat -> bool;
  decode_block : list Z -> option Z;
}.

Record xchg_table := mk_table { tb_offset : Z; tb_size_kb : Z }.

Record dump_state := mk_dump {
  cper : amdgv_cper;
  telemetry_disabled : bool;           (* mca.vf_policy *)
  opt_policy : Z;                      (* opt.ras_vf_telemetry_policy *)
  tables : list xchg_table;            (* the RAS_TELEMETRY table of each VF *)
  xchg_calls : nat;
  xchg_writes : list (nat * Z * bytes);  (* VF, offset in its frame buffer, data *)
}.
#[export] Instance eta_dump_state : Eta dump_state := fun r =>
  mk_dump (cper r) (telemetry_disabled r) (opt_policy r) (tables r) (xchg_calls r) (xchg_writes r).

Definition AMDGV_RAS_VF_TELEMETRY_LOG_ON_GUEST_LOAD : Z := 0.
Inductive amdgv_vfmgr_cper_event :=
| VFMGR_CPER_EVENT_GUEST_LOAD | VFMGR_CPER_EVENT_NUM_VF_CHANGE | VFMGR_CPER_EVENT_DISABLE | VFMGR_CPER_EVENT_ENABLE.

Definition KBYTES_TO_BYTES (x : Z) : Z := u64 (Z.shiftl x 10).

Definition amdgv_ras_block_to_sriov (block : Z) : Z :=
  match block with
  | 0 => 0 | 1 => 1 | 2 => 2 | 3 => 3 | 4 => 4 | 5 => 5 | 6 => 6 | 7 => 7 | 8 => 8 | 9 => 9 | 10 => 10 | 11 => 11
  | 12 => 12 | 13 => 13 | 14 => 14 | 15 => 15 | 16 => 16 | 17 => 17 | 18 => 18 | 19 => 19
  | _ => 20
  end.

(** Sizes of the packed structures of amdgv_sriovmsg.h. *)
Definition TELEMETRY_HEADER : Z := 16.
Definition CPER_DUMP_BUF : Z := 28.

Section dump.
Context {E : CperEnv} {OE : OssEnv} {XE : XchgEnv}.

Definition on_cper {A} (m : M amdgv_cper A) : M dump_state A :=
  zoom cper (fun c s => s <| cper := c |>) m.
Definition in_record {A} (p : nat) (m : M bytes A) : M dump_state A := on_cper (on_record p m).

Definition amd_sriov_msg_checksum (l : bytes) : Z := u32 (foldr Z.add 0 l).

(** [None] for AMD_SRIOV_MSG_MAX_TABLE_ID: [offset] is from the start of the
    frame buffer and not from the table. *)
Definition amdgv_vfmgr_copy_to_vf_xchg_table (vf : nat) (table : option xchg_table) (offset : Z) (buf : bytes) : M dump_state Z :=
  let offset := match table with None => offset | Some t => u64 (tb_offset t + offset) end in
  n ← gets xchg_calls;
  _ ← modify (fun s => s <| xchg_calls := S n |> <| xchg_writes := xchg_writes s ++ [(vf, offset, buf)] |>);
  mret (if xchg_ok n then 0 else AMDGV_FAILURE).

(** The result and the checksum. *)
Definition amdgv_vfmgr_copy_and_calc_checksum_to_vf_fb (vf : nat) (offset : Z) (buf : bytes) (checksum : Z) : M dump_state (Z * Z) :=
  let checksum := u32 (checksum + amd_sriov_msg_checksum buf) in
  ret ← amdgv_vfmgr_copy_to_vf_xchg_table vf None offset buf;
  mret (ret, checksum).

Definition amdgv_cper_patch_to_vf_hdr (vf : nat) (fb_offset : Z) (p : nat) (new_sec_count new_record_length checksum : Z)
    : M dump_state (Z * Z) :=
  save_sec_count ← in_record p sec_cnt;
  save_record_length ← in_record p record_length;
  _ ← in_record p (wrn 2 10 new_sec_count);
  _ ← in_record p (wrn 4 20 new_record_length);
  buf ← in_record p (rd 0 HDR_LEN);
  r ← amdgv_vfmgr_copy_and_calc_checksum_to_vf_fb vf fb_offset buf checksum;
  _ ← in_record p (wrn 2 10 save_sec_count);
  _ ← in_record p (wrn 4 20 save_record_length);
  mret r.

Definition amdgv_cper_patch_to_vf_desc (vf : nat) (fb_offset : Z) (p : nat) (desc new_sec_offset checksum : Z) : M dump_state (Z * Z) :=
  save_sec_offset ← in_record p (rdn 4 desc);
  save_fru_id ← in_record p (rd (desc + 32) 16);
  _ ← in_record p (wr_field 1 (desc + 10) 0 1 0);
  _ ← in_record p (wr (desc + 32) (replicate 16 0));
  _ ← in_record p (wrn 4 desc new_sec_offset);
  buf ← in_record p (rd desc SEC_DESC_LEN);
  r ← amdgv_vfmgr_copy_and_calc_checksum_to_vf_fb vf fb_offset buf checksum;
  _ ← in_record p (wr_field 1 (desc + 10) 0 1 1);
  _ ← in_record p (wr (desc + 32) save_fru_id);
  _ ← in_record p (wrn 4 desc save_sec_offset);
  mret r.

Definition amdgv_cper_patch_to_vf_section (vf : nat) (fb_offset : Z) (buf : bytes) (checksum : Z) : M dump_state (Z * Z) :=
  amdgv_vfmgr_copy_and_calc_checksum_to_vf_fb vf fb_offset buf checksum.

(** The loop over the sections [is_]: ret, next_sec_offset, write_count, checksum. *)
Fixpoint patch_loop (vf p : nat) (allowed_sections : list bool) (fb_offset : Z) (is_ : list nat)
    (next_sec_offset write_count checksum : Z) : M dump_state (Z * Z * Z * Z) :=
  match is_ with
  | [] => mret (0, next_sec_offset, write_count, checksum)
  | i :: is_ =>
      a ← require (allowed_sections !! i);
      if negb a then patch_loop vf p allowed_sections fb_offset is_ next_sec_offset write_count checksum else
      let desc := SEC_DESC_OFFSET (Z.of_nat i) in
      sec_offset ← in_record p (rdn 4 desc);
      sec_length ← in_record p (rdn 4 (desc + 4));
      buf ← in_record p (rd sec_offset sec_length);
      '(ret, checksum) ← amdgv_cper_patch_to_vf_section vf (u64 (fb_offset + next_sec_offset)) buf checksum;
      if negb (ret =? 0) then mret (ret, next_sec_offset, write_count, checksum) else
      '(ret, checksum) ← amdgv_cper_patch_to_vf_desc vf (u64 (fb_offset + HDR_LEN + SEC_DESC_LEN * write_count)) p desc
                           next_sec_offset checksum;
      if negb (ret =? 0) then mret (ret, next_sec_offset, write_count, checksum) else
      patch_loop vf p allowed_sections fb_offset is_ (u32 (next_sec_offset + sec_length)) (u32 (write_count + 1)) checksum
  end.

(** The result, the offset after the copy, and the checksum. *)
Definition amdgv_cper_patch_to_vf (vf p : nat) (allowed_sections : list bool) (allowed_count fb_offset checksum : Z)
    : M dump_state (Z * Z * Z) :=
  if allowed_count =? 0 then mret (0, fb_offset, checksum) else
  let next_sec_offset := u32 (HDR_LEN + SEC_DESC_LEN * allowed_count) in
  n ← in_record p sec_cnt;
  '(ret, next_sec_offset, write_count, checksum) ←
    patch_loop vf p allowed_sections fb_offset (seq 0 (Z.to_nat n)) next_sec_offset 0 checksum;
  if negb (ret =? 0) then mret (ret, fb_offset, checksum) else
  '(ret, checksum) ← amdgv_cper_patch_to_vf_hdr vf fb_offset p (u16 write_count) next_sec_offset checksum;
  if negb (ret =? 0) then mret (ret, fb_offset, checksum) else
  mret (0, u64 (fb_offset + next_sec_offset), checksum).

(** A section is for the guest when its bank is of a block in [caps]. *)
Definition amdgv_vfmgr_cper_is_section_allowed (vf_caps : Z) (section_idx : Z) : M bytes bool :=
  ty ← amdgv_cper_get_type section_idx;
  let bank := replicate MCA_REG_IDX_COUNT 0 in
  bank ← match ty with
         | AMDGV_CPER_TYPE_FATAL => b ← amdgv_mca_get_fatal_bank_from_cper_section section_idx bank; mret (Some b)
         | AMDGV_CPER_TYPE_RUNTIME => b ← amdgv_mca_get_runtime_bank_from_cper_section section_idx bank; mret (Some b)
         | _ => mret None
         end;
  match bank ≫= decode_block with
  | None => mret false
  | Some ras_block =>
      let sriov_blk := amdgv_ras_block_to_sriov ras_block in
      if 20 <=? sriov_blk then mret false
      else mret (negb (Z.land vf_caps (u32 (u64 (Z.shiftl 1 sriov_blk))) =? 0))
  end.

(** The flags and how many are set. *)
Fixpoint allowed_loop (p : nat) (vf_caps : Z) (is_ : list nat) (allowed_sec_count : Z) (allowed_sec : list bool) : M dump_state (Z * list bool) :=
  match is_ with
  | [] => mret (allowed_sec_count, allowed_sec)
  | i :: is_ =>
      a ← in_record p (amdgv_vfmgr_cper_is_section_allowed vf_caps (Z.of_nat i));
      if a : bool then
        _ ← demand (bool_decide (i < length allowed_sec)%nat);
        allowed_loop p vf_caps is_ (u32 (allowed_sec_count + 1)) (<[i := true]> allowed_sec)
      else allowed_loop p vf_caps is_ allowed_sec_count allowed_sec
  end.
Definition amdgv_vfmgr_cper_get_allowed_list (p : nat) (vf_caps : Z) (allowed_sec : list bool) : M dump_state (Z * list bool) :=
  n ← in_record p sec_cnt;
  allowed_loop p vf_caps (seq 0 (Z.to_nat n)) 0 allowed_sec.

Definition on_os {A} (m : M oss_state A) : M dump_state A := on_cper (zoom os (fun o s => s <| os := o |>) m).

Definition amdgv_vfmgr_cper_copy_to_vf (vf : nat) (vf_caps : Z) (p : nat) (fb_offset checksum : Z) : M dump_state (Z * Z * Z) :=
  n ← in_record p sec_cnt;
  ok ← on_os oss_alloc;
  if negb ok then mret (AMDGV_FAILURE, fb_offset, checksum) else
  '(allowed_sec_count, allowed_sec) ← amdgv_vfmgr_cper_get_allowed_list p vf_caps (replicate (Z.to_nat n) false);
  r ← amdgv_cper_patch_to_vf vf p allowed_sec allowed_sec_count fb_offset checksum;
  _ ← on_os oss_free;
  mret r.

Inductive dump_end := Done (rptr fb_offset count checksum : Z) | Failed.

(** The loop over the records: where it stopped. *)
Fixpoint dump_loop (fuel : nat) (vf : nat) (vf_caps : Z) (t : xchg_table) (wptr_ rptr fb_offset count checksum : Z) : M dump_state dump_end :=
  if negb (rptr <? wptr_) then mret (Done rptr fb_offset count checksum) else
  match fuel with
  | O => fault
  | S fuel =>
      hdr ← on_cper (amdgv_cper_get_ring_entry rptr);
      match hdr with
      | None => dump_loop fuel vf vf_caps t wptr_ (u64 (rptr + 1)) fb_offset count checksum
      | Some p =>
          l ← in_record p record_length;
          if u64 (KBYTES_TO_BYTES (tb_size_kb t) - (TELEMETRY_HEADER + CPER_DUMP_BUF)) <? l then
            dump_loop fuel vf vf_caps t wptr_ (u64 (rptr + 1)) fb_offset count checksum
          else if KBYTES_TO_BYTES (tb_size_kb t) <? u64 (fb_offset - tb_offset t + l) then
            mret (Done rptr fb_offset count checksum)
          else
            '(ret, fb_offset, checksum) ← amdgv_vfmgr_cper_copy_to_vf vf vf_caps p fb_offset checksum;
            if negb (ret =? 0) then mret Failed else
            dump_loop fuel vf vf_caps t wptr_ (u64 (rptr + 1)) fb_offset (u64 (count + 1)) checksum
      end
  end.

(** The result and allow_again, which is not set on the failing paths. *)
Definition amdgv_vfmgr_dump_cpers (vf : nat) (vf_rptr : Z) : M dump_state (Z * option bool) :=
  s ← gets id;
  t ← require (tables s !! vf);
  ras ← require (vfs (cper s) !! vf);
  let w := wptr (cper s) in
  let start := start_rptr ras in
  let max_offset := if start <=? w then u64 (w - start) else 0 in
  let buf_offset := TELEMETRY_HEADER + CPER_DUMP_BUF in
  let fb_offset := u64 (tb_offset t + buf_offset) in
  if telemetry_disabled s then mret (AMDGV_FAILURE, None) else
  let '(rptr, overflow_count) :=
    if max_offset <=? vf_rptr then (w, 0)
    else let rptr := u64 (start + vf_rptr) in
         (CPER_MOVE_TO_FIRST_VALID (cper s) rptr, u64 (CPER_MOVE_TO_FIRST_VALID (cper s) rptr - rptr)) in
  r ← dump_loop (Z.to_nat (max_count (cper s))) vf (caps ras) t w rptr fb_offset 0 0;
  match r with
  | Failed => mret (AMDGV_FAILURE, None)
  | Done rptr fb_offset count checksum =>
      let more := negb (rptr =? w) in
      let dump_wptr := u64 (rptr - start) in
      let cper_dump := le 4 (Z.b2z more) ++ le 8 overflow_count ++ le 8 count ++ le 8 dump_wptr in
      let checksum := u32 (checksum + amd_sriov_msg_checksum cper_dump) in
      let used_size := u32 (u64 (fb_offset - TELEMETRY_HEADER - tb_offset t)) in
      let hdr := le 4 checksum ++ le 4 used_size ++ replicate 8 0 in
      ret ← amdgv_vfmgr_copy_to_vf_xchg_table vf (Some t) TELEMETRY_HEADER cper_dump;
      ret ← (if ret =? 0 then amdgv_vfmgr_copy_to_vf_xchg_table vf (Some t) 0 hdr else mret ret);
      let allow_again := more && (vf_rptr =? prev_host_wptr ras) in
      _ ← modify (fun s => s <| cper := (cper s) <| vfs := <[vf := ras <| prev_host_wptr := dump_wptr |>]> (vfs (cper s)) |> |>);
      mret (ret, Some allow_again)
  end.

(** The guest sees the records from now on. *)
Definition amdgv_vfmgr_cper_rptr_init (vf : nat) : M dump_state unit :=
  s ← gets id;
  ras ← require (vfs (cper s) !! vf);
  modify (fun s => s <| cper := (cper s) <| vfs :=
    <[vf := ras <| start_rptr := wptr (cper s) |> <| prev_host_wptr := 0 |>]> (vfs (cper s)) |> |>).

(** A guest driver is loaded; the other events only leave a line in the log. *)
Definition amdgv_vfmgr_cper_notify_event (event : amdgv_vfmgr_cper_event) (vf : nat) : M dump_state Z :=
  _ ← match event with
      | VFMGR_CPER_EVENT_GUEST_LOAD =>
          p ← gets opt_policy;
          when (p =? AMDGV_RAS_VF_TELEMETRY_LOG_ON_GUEST_LOAD) (amdgv_vfmgr_cper_rptr_init vf)
      | _ => mret tt
      end;
  mret 0.
End dump.
