(* ===== verification/CperPatch.v ===== *)
(** * Copying one CPER record to a guest

    [with_rec p r s] is [s] with the bytes [r] in record [p], and [sent w s]
    is [s] after the write [w]: a record is changed for the copy and put back. *)
From stdpp Require Import gmap.
From S2P Require Import Prelude Oss Bytes CperTime Cper CperRecord CperInv CperRead CperDump.
#[local] Open Scope Z_scope.

Definition with_rec (p : nat) (r : bytes) (s : dump_state) : dump_state :=
  s <| cper := (cper s) <| heap := <[p := r]> (heap (cper s)) |> |>.
Definition sent (w : nat * Z * bytes) (s : dump_state) : dump_state :=
  s <| xchg_calls := S (xchg_calls s) |> <| xchg_writes := xchg_writes s ++ [w] |>.
Fixpoint sent_all (ws : list (nat * Z * bytes)) (s : dump_state) : dump_state :=
  match ws with [] => s | w :: ws => sent_all ws (sent w s) end.

Lemma with_rec_twice p r r' s : with_rec p r' (with_rec p r s) = with_rec p r' s.
Proof. unfold with_rec. cbn. by rewrite insert_insert_eq. Qed.
Lemma with_rec_same p r s : heap (cper s) !! p = Some r -> with_rec p r s = s.
Proof. intros H. unfold with_rec. rewrite insert_id by done. destruct s as [[] ? ? ? ?]. done. Qed.
Lemma sent_with_rec w p r s : sent w (with_rec p r s) = with_rec p r (sent w s).
Proof. done. Qed.
Lemma cper_sent_all ws s : cper (sent_all ws s) = cper s.
Proof. revert s. induction ws as [|w ws IH]; intros s; [done|]. cbn. by rewrite IH. Qed.
Lemma tables_sent_all ws s : tables (sent_all ws s) = tables s.
Proof. revert s. induction ws as [|w ws IH]; intros s; [done|]. cbn. by rewrite IH. Qed.
Lemma writes_sent_all ws s : xchg_writes (sent_all ws s) = xchg_writes s ++ ws.
Proof. revert s. induction ws as [|w ws IH]; intros s; cbn; [by rewrite app_nil_r|]. rewrite IH. cbn. by rewrite <- app_assoc. Qed.
Lemma sent_all_app ws ws' s : sent_all (ws ++ ws') s = sent_all ws' (sent_all ws s).
Proof. revert s. induction ws as [|w ws IH]; intros s; [done|]. cbn. apply IH. Qed.

(** ** Putting a range back *)

Lemma lookup_st_sl a n r m i : 0 <= a -> 0 <= n -> a + n <= len r -> len m = len r ->
  st a (sl a n r) m !! i = if decide (Z.to_nat a <= i < Z.to_nat a + Z.to_nat n)%nat then r !! i else m !! i.
Proof.
  intros Ha Hn Hr Hm. pose proof (len_sl a n r Ha Hn Hr) as Hl. rewrite lookup_st by lia. unfold len in Hl.
  destruct (decide (Z.to_nat a <= i < Z.to_nat a + Z.to_nat n)%nat).
  - rewrite decide_True by lia. rewrite lookup_sl by lia. f_equal. lia.
  - by rewrite decide_False by lia.
Qed.

Lemma le_sl n a r : bytes_ok r -> 0 <= a -> a + Z.of_nat n <= len r -> le n (unle (sl a (Z.of_nat n) r)) = sl a (Z.of_nat n) r.
Proof.
  intros Hr Ha Hl. pose proof (len_sl a (Z.of_nat n) r Ha ltac:(lia) Hl) as Hn. unfold len in Hn.
  replace n with (length (sl a (Z.of_nat n) r)) at 1 by lia. apply le_unle. by apply bytes_ok_sl.
Qed.

Lemma fru_restore b : in_width 8 b -> Z.testbit b 0 = true ->
  set_field (unle (le 1 (set_field b 0 1 0))) 0 1 1 = b.
Proof.
  intros Hb Ht. assert (forallb (fun b => implb (Z.testbit b 0) (set_field (unle (le 1 (set_field b 0 1 0))) 0 1 1 =? b)) (seqZ 0 256) = true)
    as H by (vm_compute; reflexivity).
  rewrite forallb_forall in H. specialize (H b). rewrite Ht in H. cbn in H. apply Z.eqb_eq, H.
  apply list_elem_of_In, elem_of_seqZ. exact Hb.
Qed.

(** The descriptor the guest gets. *)
Definition desc_for_vf (r : bytes) (d new : Z) : bytes :=
  st d (le 4 new) (st (d + 32) (replicate 16 0) (st (d + 10) (le 1 (set_field (unle (sl (d + 10) 1 r)) 0 1 0)) r)).

Lemma desc_put_back r d new : bytes_ok r -> 0 <= d -> d + 72 <= len r -> fru_shown d r ->
  let m := desc_for_vf r d new in
  st d (le 4 (unle (sl d 4 r))) (st (d + 32) (sl (d + 32) 16 r)
    (st (d + 10) (le 1 (set_field (unle (sl (d + 10) 1 m)) 0 1 1)) m)) = r.
Proof.
  intros Hr Hd Hl Hf m.
  assert (len (le 4 new) = 4) by by rewrite len_le. assert (len (replicate 16 0) = 16) by done.
  assert (forall x, len (le 1 x) = 1) as Hl1 by (intros; by rewrite len_le).
  pose proof (len_sl (d + 32) 16 r ltac:(lia) ltac:(lia) ltac:(lia)).
  set (r1 := st (d + 10) (le 1 (set_field (unle (sl (d + 10) 1 r)) 0 1 0)) r).
  assert (len r1 = len r) by (unfold r1; rewrite len_st; rewrite ?Hl1; lia).
  set (r2 := st (d + 32) (replicate 16 0) r1). assert (len r2 = len r) by (unfold r2; rewrite len_st; lia).
  assert (len m = len r) as Hlm by (unfold m, desc_for_vf; fold r1 r2; rewrite len_st; lia).
  assert (sl (d + 10) 1 m = le 1 (set_field (unle (sl (d + 10) 1 r)) 0 1 0)) as Hm.
  { unfold desc_for_vf in m. fold r1 r2 in m. subst m. rewrite sl_st_other by lia. unfold r2. rewrite sl_st_other by lia.
    unfold r1. apply sl_st_same; rewrite ?Hl1; lia. }
  assert (exists b, sl (d + 10) 1 r = [b] /\ in_width 8 b) as (b & Hb & Hbw).
  { pose proof (len_sl (d + 10) 1 r ltac:(lia) ltac:(lia) ltac:(lia)) as Hlen. pose proof (bytes_ok_sl (d + 10) 1 r Hr) as Hok.
    unfold len in Hlen. destruct (sl (d + 10) 1 r) as [|b [|]]; cbn in Hlen; try lia. exists b. split; [done|].
    by apply Forall_cons in Hok as [? _]. }
  unfold fru_shown in Hf. rewrite Hm, Hb in *. cbn [unle] in *. rewrite Z.mul_0_r, Z.add_0_r in *.
  rewrite fru_restore by done. replace (le 1 b) with (sl (d + 10) 1 r); [|rewrite Hb; unfold le; cbn; f_equal; rewrite Z.mod_small by exact Hbw; done].
  pose proof (le_sl 4 d r Hr Hd ltac:(lia)) as Hle. change (Z.of_nat 4) with 4 in Hle. rewrite Hle.
  assert (forall i, ~ (Z.to_nat d <= i < Z.to_nat d + 4)%nat -> ~ (Z.to_nat (d + 32) <= i < Z.to_nat (d + 32) + 16)%nat ->
    ~ (Z.to_nat (d + 10) <= i < Z.to_nat (d + 10) + 1)%nat -> m !! i = r !! i) as Hout.
  { intros i H1' H2' H3'. unfold m, desc_for_vf. fold r1 r2.
    rewrite lookup_st, decide_False by (rewrite ?length_le; lia). unfold r2.
    rewrite lookup_st, decide_False by (rewrite ?length_replicate; lia). unfold r1.
    rewrite lookup_st, decide_False by (rewrite ?Hl1, ?length_le; lia). done. }
  pose proof (len_sl (d + 10) 1 r ltac:(lia) ltac:(lia) ltac:(lia)).
  apply list_eq. intros i.
  set (m1 := st (d + 10) _ m). assert (len m1 = len r) by (unfold m1; rewrite len_st; lia).
  set (m2 := st (d + 32) _ m1). assert (len m2 = len r) by (unfold m2; rewrite len_st; lia).
  rewrite (lookup_st_sl d 4) by lia. destruct (decide _) as [|H1']; [done|].
  unfold m2. rewrite (lookup_st_sl (d + 32) 16) by lia. destruct (decide _) as [|H2']; [done|].
  unfold m1. rewrite (lookup_st_sl (d + 10) 1) by lia. destruct (decide _) as [|H3']; [done|]. apply Hout; lia.
Qed.

(** The header the guest gets. *)
Definition hdr_for_vf (r : bytes) (cnt ln : Z) : bytes := st 20 (le 4 ln) (st 10 (le 2 cnt) r).

Lemma hdr_put_back r cnt ln : bytes_ok r -> 128 <= len r ->
  st 20 (le 4 (unle (sl 20 4 r))) (st 10 (le 2 (unle (sl 10 2 r))) (hdr_for_vf r cnt ln)) = r.
Proof.
  intros Hr Hl. assert (len (le 4 ln) = 4) by by rewrite len_le. assert (len (le 2 cnt) = 2) by by rewrite len_le.
  pose proof (le_sl 4 20 r Hr ltac:(lia) ltac:(lia)) as Hl4. pose proof (le_sl 2 10 r Hr ltac:(lia) ltac:(lia)) as Hl2.
  change (Z.of_nat 4) with 4 in Hl4. change (Z.of_nat 2) with 2 in Hl2. rewrite Hl4, Hl2.
  assert (len (hdr_for_vf r cnt ln) = len r) by (unfold hdr_for_vf; rewrite !len_st; rewrite ?len_st; lia).
  pose proof (len_sl 10 2 r ltac:(lia) ltac:(lia) ltac:(lia)).
  apply list_eq. intros i.
  rewrite (lookup_st_sl 20 4) by (rewrite ?len_st; lia). destruct (decide _) as [|H1']; [done|].
  rewrite (lookup_st_sl 10 2) by lia. destruct (decide _) as [|H2']; [done|].
  unfold hdr_for_vf. rewrite !lookup_st by (rewrite ?len_st; lia). rewrite !decide_False; [done|rewrite length_le; lia|rewrite length_le; lia].
Qed.

(** ** The copy functions *)

Section patch.
Context {E : CperEnv} {OE : OssEnv} {XE : XchgEnv}.

Lemma wp_in_record {A} p (m : M bytes A) r (Q : A -> dump_state -> Prop) s :
  wp m (fun a r' => Q a (with_rec p r' s)) r -> wp (in_record p m) Q (with_rec p r s).
Proof.
  intros H. unfold in_record, on_cper. apply wp_zoom. eapply wp_on_record; [cbn; apply lookup_insert_eq|].
  eapply wp_mono; [exact H|]. intros a r' HQ. cbn beta.
  match goal with |- Q a ?t => replace t with (with_rec p r' s); [exact HQ|] end.
  unfold with_rec. cbn. by rewrite insert_insert_eq.
Qed.
Lemma wp_from_record {A} p (m : M bytes A) r (Q : A -> dump_state -> Prop) s : heap (cper s) !! p = Some r ->
  wp m (fun a r' => r' = r /\ Q a s) r -> wp (in_record p m) Q s.
Proof.
  intros Hp H. rewrite <- (with_rec_same p r s Hp). apply wp_in_record. eapply wp_mono; [exact H|].
  intros a r' [-> HQ]. by rewrite with_rec_same.
Qed.

Lemma wp_copy vf off buf ck (Q : Z * Z -> dump_state -> Prop) s :
  (forall ret ck', Q (ret, ck') (sent (vf, off, buf) s)) -> wp (amdgv_vfmgr_copy_and_calc_checksum_to_vf_fb vf off buf ck) Q s.
Proof.
  intros HQ. unfold amdgv_vfmgr_copy_and_calc_checksum_to_vf_fb, amdgv_vfmgr_copy_to_vf_xchg_table.
  apply wp_bind, wp_bind, wp_gets, wp_bind, wp_modify, wp_ret, wp_ret. apply HQ.
Qed.

Lemma wp_patch_desc vf off p d new ck r (Q : Z * Z -> dump_state -> Prop) s :
  heap (cper s) !! p = Some r -> bytes_ok r -> 0 <= d -> d + 72 <= len r -> fru_shown d r ->
  (forall ret ck', Q (ret, ck') (sent (vf, off, sl d SEC_DESC_LEN (desc_for_vf r d new)) s)) ->
  wp (amdgv_cper_patch_to_vf_desc vf off p d new ck) Q s.
Proof.
  intros Hp Hr Hd Hl Hf HQ. unfold amdgv_cper_patch_to_vf_desc. unfold SEC_DESC_LEN in *.
  assert (len (le 4 new) = 4) by by rewrite len_le. assert (len (replicate 16 0) = 16) by done.
  assert (forall x, len (le 1 x) = 1) as Hl1 by (intros; by rewrite len_le).
  pose proof (desc_put_back r d new Hr Hd Hl Hf) as Hback. cbv zeta in Hback.
  pose proof (len_sl (d + 32) 16 r ltac:(lia) ltac:(lia) ltac:(lia)).
  apply wp_bind. eapply wp_from_record; [exact Hp|]. apply wp_rdn; [lia|lia|]. split; [done|].
  apply wp_bind. eapply wp_from_record; [exact Hp|]. apply wp_rd; [lia|lia|lia|]. split; [done|].
  rewrite <- (with_rec_same p r s Hp).
  apply wp_bind, wp_in_record. unfold wr_field. apply wp_bind, wp_rdn; [lia|lia|]. apply wp_wrn; [lia|lia|].
  fold (set_field (unle (sl (d + 10) 1 r)) 0 1 0). set (r1 := st (d + 10) _ r). assert (len r1 = len r) by (unfold r1; rewrite len_st; rewrite ?Hl1; lia).
  apply wp_bind, wp_in_record, wp_wr; [lia|lia|]. set (r2 := st (d + 32) _ r1). assert (len r2 = len r) by (unfold r2; rewrite len_st; lia).
  apply wp_bind, wp_in_record, wp_wrn; [lia|lia|]. set (r3 := st d _ r2). assert (len r3 = len r) by (unfold r3; rewrite len_st; lia).
  apply wp_bind, wp_in_record, wp_rd; [lia|lia|lia|].
  apply wp_bind, wp_copy. intros ret ck'. rewrite sent_with_rec.
  apply wp_bind, wp_in_record. unfold wr_field. apply wp_bind, wp_rdn; [lia|lia|]. apply wp_wrn; [lia|lia|].
  set (r4 := st (d + 10) _ r3). assert (len r4 = len r) by (unfold r4; rewrite len_st; rewrite ?Hl1; lia).
  apply wp_bind, wp_in_record, wp_wr; [lia|lia|]. set (r5 := st (d + 32) _ r4). assert (len r5 = len r) by (unfold r5; rewrite len_st; lia).
  apply wp_bind, wp_in_record, wp_wrn; [lia|lia|]. apply wp_ret.
  change (desc_for_vf r d new) with r3 in *.
  match goal with |- Q _ (with_rec p ?m _) => replace m with r by (symmetry; exact Hback) end.
  rewrite with_rec_same by exact Hp. apply HQ.
Qed.

Lemma wp_patch_hdr vf off p cnt ln ck r (Q : Z * Z -> dump_state -> Prop) s :
  heap (cper s) !! p = Some r -> bytes_ok r -> 128 <= len r ->
  (forall ret ck', Q (ret, ck') (sent (vf, off, sl 0 HDR_LEN (hdr_for_vf r cnt ln)) s)) ->
  wp (amdgv_cper_patch_to_vf_hdr vf off p cnt ln ck) Q s.
Proof.
  intros Hp Hr Hl HQ. unfold amdgv_cper_patch_to_vf_hdr. unfold HDR_LEN in *.
  assert (len (le 4 ln) = 4) by by rewrite len_le. assert (len (le 2 cnt) = 2) by by rewrite len_le.
  pose proof (hdr_put_back r cnt ln Hr Hl) as Hback.
  apply wp_bind. eapply wp_from_record; [exact Hp|]. unfold sec_cnt. apply wp_rdn; [lia|lia|]. split; [done|].
  apply wp_bind. eapply wp_from_record; [exact Hp|]. unfold record_length. apply wp_rdn; [lia|lia|]. split; [done|].
  rewrite <- (with_rec_same p r s Hp).
  apply wp_bind, wp_in_record, wp_wrn; [lia|lia|]. set (r1 := st 10 _ r). assert (len r1 = len r) by (unfold r1; rewrite len_st; lia).
  apply wp_bind, wp_in_record, wp_wrn; [lia|lia|]. set (r2 := st 20 _ r1). assert (len r2 = len r) by (unfold r2; rewrite len_st; lia).
  apply wp_bind, wp_in_record, wp_rd; [lia|lia|lia|].
  apply wp_bind, wp_copy. intros ret ck'. rewrite sent_with_rec.
  apply wp_bind, wp_in_record, wp_wrn; [lia|lia|]. set (r3 := st 10 _ r2). assert (len r3 = len r) by (unfold r3; rewrite len_st; rewrite ?len_le; lia).
  apply wp_bind, wp_in_record, wp_wrn; [lia|lia|]. apply wp_ret.
  change (hdr_for_vf r cnt ln) with r2 in *.
  match goal with |- Q _ (with_rec p ?m _) => replace m with r by (symmetry; exact Hback) end.
  rewrite with_rec_same by exact Hp. apply HQ.
Qed.

(** ** One record: what is sent

    [ok i] says whether section [i] is for the guest. *)
Section one_record.
Variables (n L : Z) (nt ty : bytes) (data : list bytes) (r : bytes).
Hypothesis F : filled n L nt ty data r.
Hypothesis HL : section_len L.
Hypothesis Hn : 0 <= n < 65536.
Hypothesis Hdata : Z.of_nat (length data) = n.

Definition section_of (i : nat) : bytes := sl (HDR_LEN + SEC_DESC_LEN * n + L * Z.of_nat i) L r.
Definition desc_of (i : nat) (new : Z) : bytes := sl (SEC_DESC_OFFSET (Z.of_nat i)) SEC_DESC_LEN (desc_for_vf r (SEC_DESC_OFFSET (Z.of_nat i)) new).
Definition hdr_of (cnt ln : Z) : bytes := sl 0 HDR_LEN (hdr_for_vf r cnt ln).

(** A piece of the record that the guest may have. *)
Definition piece (ok : nat -> bool) (d : bytes) : Prop :=
  (exists i, ok i = true /\ (d = section_of i \/ exists new, d = desc_of i new)) \/ (exists cnt ln, d = hdr_of cnt ln).

Lemma len_desc_of i new : (i < length data)%nat -> len (desc_of i new) = SEC_DESC_LEN.
Proof.
  intros Hi. unfold desc_of. pose proof (f_len _ _ _ _ _ _ F) as Hlen.
  assert (SEC_DESC_OFFSET (Z.of_nat i) + 72 <= len r) by (destruct HL as [->|[->| ->]]; sizes; lia).
  assert (0 <= SEC_DESC_OFFSET (Z.of_nat i)) by (sizes; lia). set (d := SEC_DESC_OFFSET (Z.of_nat i)) in *.
  assert (len (le 4 new) = 4) by by rewrite len_le. assert (len (replicate 16 0) = 16) by done.
  assert (forall x, len (le 1 x) = 1) as Hl1 by (intros; by rewrite len_le).
  apply len_sl; [done|done|]. unfold desc_for_vf, SEC_DESC_LEN.
  set (r1 := st (d + 10) _ r). assert (len r1 = len r) by (unfold r1; rewrite len_st; rewrite ?Hl1; lia).
  set (r2 := st (d + 32) _ r1). assert (len r2 = len r) by (unfold r2; rewrite len_st; lia).
  rewrite len_st; lia.
Qed.
Lemma len_section_of i : (i < length data)%nat -> len (section_of i) = L.
Proof.
  intros Hi. unfold section_of. pose proof (f_len _ _ _ _ _ _ F) as Hlen.
  apply len_sl; destruct HL as [->|[->| ->]]; sizes; lia.
Qed.
Lemma len_hdr_of cnt ln : len (hdr_of cnt ln) = HDR_LEN.
Proof.
  unfold hdr_of, hdr_for_vf. pose proof (f_len _ _ _ _ _ _ F) as Hlen.
  assert (128 <= len r) by (destruct HL as [->|[->| ->]]; sizes; lia).
  assert (len (le 4 ln) = 4) by by rewrite len_le. assert (len (le 2 cnt) = 2) by by rewrite len_le.
  apply len_sl; [done|done|]. unfold HDR_LEN. set (r1 := st 10 _ r). assert (len r1 = len r) by (unfold r1; rewrite len_st; lia).
  rewrite len_st; lia.
Qed.

Definition count_true (allowed : list bool) (is_ : list nat) : nat :=
  length (filter (fun i => allowed !! i = Some true) is_).

(** A write of a copy that starts at [off] and has [size] bytes. *)
Definition good_write (vf : nat) (ok : nat -> bool) (off size : Z) (w : nat * Z * bytes) : Prop :=
  let '(v, o, d) := w in v = vf /\ off <= o /\ o + len d <= off + size /\ piece ok d.

Lemma patch_loop_ok vf p allowed ok off cnt is_ next wc ck s :
  heap (cper s) !! p = Some r -> (forall i, i ∈ is_ -> (i < length data)%nat /\ exists a, allowed !! i = Some a /\ (a = true -> ok i = true)) ->
  0 <= off -> 0 <= wc -> next = HDR_LEN + SEC_DESC_LEN * cnt + L * wc ->
  wc + Z.of_nat (count_true allowed is_) <= cnt -> cnt <= n -> off + len r < 2 ^ 64 ->
  let size := HDR_LEN + cnt * (SEC_DESC_LEN + L) in
  wp (patch_loop vf p allowed off is_ next wc ck) (fun res s' => exists ws, s' = sent_all ws s /\
    Forall (good_write vf ok off size) ws /\
    let '(ret, next', wc', ck') := res in
      ret = 0 -> wc' = wc + Z.of_nat (count_true allowed is_) /\ next' = next + L * Z.of_nat (count_true allowed is_)) s.
Proof.
  intros Hp Hok Hoff Hwc Hnext Hcnt Hcn H64 size. pose proof (f_len _ _ _ _ _ _ F) as Hlen.
  revert next wc ck s Hp Hok Hwc Hnext Hcnt. induction is_ as [|i is_ IH]; intros next wc ck s Hp Hok Hwc Hnext Hcnt; cbn [patch_loop].
  { apply wp_ret. exists []. split; [done|]. split; [constructor|]. intros _. cbn. lia. }
  destruct (Hok i) as (Hi & a & Ha & Hai); [apply elem_of_cons; by left|].
  apply wp_bind. eapply wp_require; [exact Ha|].
  assert (forall j, j ∈ is_ -> (j < length data)%nat /\ exists a, allowed !! j = Some a /\ (a = true -> ok j = true)) as Hok'
    by (intros j Hj; apply Hok, elem_of_cons; by right).
  unfold count_true in Hcnt |- *. rewrite filter_cons in Hcnt |- *. fold (count_true allowed is_) in *. destruct a; cbn [negb].
  2: { rewrite decide_False in Hcnt |- * by congruence. apply IH; done. }
  rewrite decide_True in Hcnt |- * by done. cbn [length] in Hcnt |- *. fold (count_true allowed is_) in *.
  destruct (lookup_lt_is_Some_2 data i Hi) as [d Hd]. destruct (f_sec _ _ _ _ _ _ F i d Hd) as (_ & Hf & Hso & Hsl & _).
  assert (HDR_LEN + SEC_DESC_LEN * n + L * Z.of_nat i + L <= len r /\ SEC_DESC_OFFSET (Z.of_nat i) + 72 <= len r /\
    0 <= HDR_LEN + SEC_DESC_LEN * n + L * Z.of_nat i /\ 0 <= L /\ L <= 272 /\ 0 <= SEC_DESC_OFFSET (Z.of_nat i)) as (B1 & B2 & B3 & B4 & B4' & B5)
    by (destruct HL as [->|[->| ->]]; sizes; lia).
  assert (size <= len r /\ next + L <= size /\ 0 <= next < 2 ^ 31 /\ SEC_DESC_LEN * wc + SEC_DESC_LEN <= SEC_DESC_LEN * cnt) as (C1 & C2 & C3 & C4).
  { subst size. change (2 ^ 31) with 2147483648. destruct HL as [->|[->| ->]]; sizes; lia. }
  apply wp_bind. eapply wp_from_record; [exact Hp|]. apply wp_rdn; [lia|lia|]. split; [done|].
  apply wp_bind. eapply wp_from_record; [exact Hp|]. apply wp_rdn; [lia|lia|]. split; [done|].
  change (Z.of_nat 4) with 4. rewrite Hso, Hsl.
  apply wp_bind. eapply wp_from_record; [exact Hp|]. apply wp_rd; [lia|lia|lia|]. split; [done|]. fold (section_of i).
  unfold amdgv_cper_patch_to_vf_section. apply wp_bind, wp_copy. intros ret1 ck1. cbn beta iota.
  rewrite (wrap_id 64 (off + next)) by (unfold in_width; lia).
  assert (good_write vf ok off size (vf, off + next, section_of i)) as G1.
  { split; [done|]. rewrite len_section_of by done. split_and!; [lia|lia|]. left. exists i. split; [by apply Hai|by left]. }
  destruct (Z.eqb_spec ret1 0) as [->|Hr1]; cbn [negb].
  2: { apply wp_ret. eexists [_]. split; [done|]. split; [by constructor|done]. }
  apply wp_bind. eapply wp_patch_desc; [exact Hp|apply (f_bytes _ _ _ _ _ _ F)|done|done|done|]. intros ret2 ck2. cbn beta iota.
  assert (HDR_LEN = 128 /\ SEC_DESC_LEN = 72) as [E1 E2] by done.
  rewrite (wrap_id 64 (off + HDR_LEN + SEC_DESC_LEN * wc)) by (unfold in_width; nia).
  fold (desc_of i next).
  assert (good_write vf ok off size (vf, off + HDR_LEN + SEC_DESC_LEN * wc, desc_of i next)) as G2.
  { split; [done|]. rewrite len_desc_of by done. split_and!; [nia|subst size; nia|]. left. exists i. split; [by apply Hai|right; by eexists]. }
  destruct (Z.eqb_spec ret2 0) as [->|Hr2]; cbn [negb].
  2: { apply wp_ret. eexists [_; _]. split; [reflexivity|]. split; [|done].
       apply Forall_cons_2; [exact G1|apply Forall_cons_2; [exact G2|constructor]]. }
  rewrite (wrap_id 32 (next + L)), (wrap_id 32 (wc + 1)) by (unfold in_width; nia).
  eapply wp_mono; [apply IH; [done|done|lia|nia|lia]|].
  intros [[[ret next'] wc'] ck'] s' (ws & -> & Hws & Hres). eexists (_ :: _ :: ws). split; [reflexivity|].
  split; [apply Forall_cons_2; [exact G1|apply Forall_cons_2; [exact G2|exact Hws]]|]. intros Hr0. destruct (Hres Hr0) as [-> ->]. split; [lia|nia].
Qed.
End one_record.
End patch.
