(* ===== verification/CperConfine.v ===== *)
(** * What a guest gets of the CPER records *)
From stdpp Require Import gmap.
From S2P Require Import Prelude Oss Bytes CperTime Cper CperRecord CperInv CperMake CperRead CperDump CperPatch.
#[local] Open Scope Z_scope.

Lemma filter_agree {A} (P1 P2 : A -> Prop) `{!forall x, Decision (P1 x), !forall x, Decision (P2 x)} (l : list A) :
  (forall x, x ∈ l -> P1 x <-> P2 x) -> filter P1 l = filter P2 l.
Proof.
  induction l as [|x l IH]; intros Hiff; [done|]. rewrite !filter_cons.
  rewrite IH by (intros y Hy; apply Hiff, elem_of_cons; by right).
  destruct (decide (P1 x)) as [Hx|Hx], (decide (P2 x)) as [Hy|Hy]; try done; exfalso.
  - apply Hy, Hiff; [apply elem_of_cons; by left|done].
  - apply Hx, Hiff; [apply elem_of_cons; by left|done].
Qed.

Section confine.
Context {E : CperEnv} {OE : OssEnv} {XE : XchgEnv}.

(** ** Which sections are for the guest *)

(** Running [m] on a record changes nothing. *)
Definition reads {A} (m : M bytes A) (r : bytes) (P : A -> Prop) : Prop := wp m (fun a r' => r' = r /\ P a) r.

(** The policy, told from the bytes of the record alone: section [i] is for a
    guest when it is a section of machine-check registers (of a record that is
    not of a boot), the ASIC's decoder finds the block of the bank these
    registers make up, and the block is one of those reported to guests whose
    bit is set in the guest's capabilities. *)
Definition section_ty (r : bytes) (i : nat) : bytes := sl (SEC_DESC_OFFSET (Z.of_nat i) + 16) 16 r.
Definition section_bank (r : bytes) (i : nat) : option (list Z) :=
  if bool_decide (sl 80 16 r <> BOOT) && bool_decide (section_ty r i = CRASHDUMP \/ section_ty r i = RUNTIME)
  then Some (restored (restored_cells (section_ty r i)) r i) else None.
Definition section_allowed (vf_caps : Z) (r : bytes) (i : nat) : bool :=
  (Z.of_nat i <? unle (sl 10 2 r)) &&
  match section_bank r i ≫= decode_block with
  | Some blk => (0 <=? blk) && (blk <? 20) && Z.testbit vf_caps blk
  | None => false
  end.

Lemma sriov_block blk : amdgv_ras_block_to_sriov blk = if (0 <=? blk) && (blk <? 20) then blk else 20.
Proof.
  destruct (Z.leb_spec 0 blk); cbn [andb].
  - destruct (Z.ltb_spec blk 20).
    + assert (exists n, blk = Z.of_nat n /\ (n < 20)%nat) as (n & -> & Hn) by (exists (Z.to_nat blk); lia).
      do 20 (destruct n as [|n]; [reflexivity|]). lia.
    + assert (exists p, blk = Z.of_nat (20 + p)) as [p ->] by (exists (Z.to_nat (blk - 20)); lia).
      unfold amdgv_ras_block_to_sriov. destruct (Z.of_nat (20 + p)) as [|q|q] eqn:Hq; [lia| |lia].
      repeat (match goal with |- match ?x with _ => _ end = _ => destruct x end; try lia); reflexivity.
  - destruct blk; [lia|lia|reflexivity].
Qed.

Lemma cap_bit vf_caps b : 0 <= b < 20 ->
  negb (Z.land vf_caps (u32 (u64 (Z.shiftl 1 b))) =? 0) = Z.testbit vf_caps b.
Proof.
  intros Hb. rewrite Z.shiftl_1_l.
  assert (2 ^ b < 2 ^ 32 /\ 2 ^ b < 2 ^ 64) as [H1 H2] by (split; apply Z.pow_lt_mono_r; lia).
  rewrite !wrap_id by (unfold in_width; rewrite ?wrap_id by (unfold in_width; lia); lia).
  destruct (Z.testbit vf_caps b) eqn:Ht.
  - destruct (Z.eqb_spec (Z.land vf_caps (2 ^ b)) 0) as [H0|]; [|done]. exfalso.
    apply (f_equal (fun x => Z.testbit x b)) in H0. rewrite Z.land_spec, Ht, Z.pow2_bits_true, Z.bits_0 in H0 by lia. done.
  - destruct (Z.eqb_spec (Z.land vf_caps (2 ^ b)) 0) as [|H0]; [done|]. destruct H0. apply Z.bits_inj'. intros j Hj.
    rewrite Z.land_spec, Z.bits_0. destruct (decide (j = b)) as [->|]; [by rewrite Ht|].
    by rewrite Z.pow2_bits_false, andb_false_r by lia.
Qed.

Lemma reads_allowed vf_caps n L nt ty data i r : filled n L nt ty data r -> kind_ok nt ty L -> 0 <= n < 65536 ->
  Z.of_nat (length data) = n -> (i < length data)%nat ->
  reads (amdgv_vfmgr_cper_is_section_allowed vf_caps (Z.of_nat i)) r (fun b => b = section_allowed vf_caps r i).
Proof.
  intros F HK Hn Hd Hi. pose proof (kind_len _ _ _ HK) as HL. pose proof (f_len _ _ _ _ _ _ F) as Hlen.
  destruct (lookup_lt_is_Some_2 data i Hi) as [d Hdi]. destruct (f_sec _ _ _ _ _ _ F i d Hdi) as (_ & _ & _ & _ & Hty & _).
  assert (SEC_DESC_OFFSET (Z.of_nat i) + 72 <= len r /\ 0 <= SEC_DESC_OFFSET (Z.of_nat i) /\ 128 <= len r)
    as (B1 & B2 & B3) by (destruct HL as [->|[->| ->]]; sizes; lia).
  assert (section_allowed vf_caps r i = match section_bank r i ≫= decode_block with
    | Some blk => (0 <=? blk) && (blk <? 20) && Z.testbit vf_caps blk | None => false end) as Hspec.
  { unfold section_allowed. rewrite (f_cnt _ _ _ _ _ _ F). by destruct (Z.ltb_spec (Z.of_nat i) n); [|lia]. }
  assert (forall bank, bank = section_bank r i -> reads (match bank ≫= decode_block with
    | None => mret false
    | Some ras_block => if 20 <=? amdgv_ras_block_to_sriov ras_block then mret false
        else mret (negb (Z.land vf_caps (u32 (u64 (Z.shiftl 1 (amdgv_ras_block_to_sriov ras_block)))) =? 0)) end) r
    (fun b => b = section_allowed vf_caps r i)) as Hend.
  { intros bank ->. rewrite Hspec. destruct (section_bank r i ≫= decode_block) as [b|]; [|by apply wp_ret].
    rewrite sriov_block. destruct ((0 <=? b) && (b <? 20)) eqn:Hb; [|by apply wp_ret]. zb.
    destruct (Z.leb_spec 20 b); [lia|]. apply wp_ret. split; [done|]. cbn [andb]. apply cap_bit. lia. }
  unfold reads, amdgv_vfmgr_cper_is_section_allowed. apply wp_bind. unfold amdgv_cper_get_type.
  apply wp_bind, wp_rd; [lia|lia|lia|]. unfold section_bank, section_ty in Hend. rewrite Hty in Hend.
  rewrite (f_nt _ _ _ _ _ _ F) in *. destruct (decide (nt = BOOT)) as [->|Hnb].
  { rewrite bool_decide_true by done. apply wp_ret, wp_bind, wp_ret. by apply Hend. }
  rewrite bool_decide_false by done. rewrite (bool_decide_true (nt <> BOOT)) in Hend by done. cbn [andb] in Hend.
  apply wp_bind, wp_rd; [lia|lia|lia|]. rewrite Hty.
  destruct HK as [(_ & -> & ->)|[(Hb & _)|(_ & -> & ->)]]; [|done|].
  - rewrite bool_decide_true by done. rewrite bool_decide_true in Hend by by left.
    apply wp_ret, wp_bind, wp_bind. eapply wp_mono; [eapply reads_fatal; [exact F|lia|exact Hdi|lia]|].
    intros b r' [-> ->]. apply wp_ret. by apply Hend.
  - rewrite bool_decide_false, bool_decide_true by done. rewrite bool_decide_true in Hend by by right.
    apply wp_ret, wp_bind, wp_bind. eapply wp_mono; [eapply reads_runtime; [exact F|lia|exact Hdi|lia]|].
    intros b r' [-> ->]. apply wp_ret. by apply Hend.
Qed.

Lemma allowed_loop_ok p vf_caps r n L nt ty data is_ cnt fl s :
  filled n L nt ty data r -> kind_ok nt ty L -> 0 <= n < 65536 -> Z.of_nat (length data) = n -> heap (cper s) !! p = Some r ->
  (forall i, i ∈ is_ -> (i < length data)%nat) -> length fl = length data ->
  0 <= cnt -> cnt + Z.of_nat (length is_) < 2 ^ 32 ->
  wp (allowed_loop p vf_caps is_ cnt fl) (fun res s' => s' = s /\ fst res = cnt + Z.of_nat (length (filter (fun i => section_allowed vf_caps r i = true) is_)) /\
    length (snd res) = length fl /\
    forall j, snd res !! j = (if decide (j ∈ is_) then (fun b => b || section_allowed vf_caps r j) <$> fl !! j else fl !! j)) s.
Proof.
  intros F HK Hn Hd Hp. revert cnt fl. induction is_ as [|i is_ IH]; intros cnt fl His Hfl Hc Hb; cbn [allowed_loop].
  { apply wp_ret. cbn [filter list_filter fst snd length]. split; [done|]. split; [cbn; lia|]. split; [done|]. intros j.
    by rewrite decide_False by apply not_elem_of_nil. }
  assert (i < length data)%nat as Hi by (apply His, elem_of_cons; by left).
  assert (forall j, j ∈ is_ -> (j < length data)%nat) as His' by (intros j Hj; apply His, elem_of_cons; by right).
  cbn [length] in Hb. apply wp_bind. eapply wp_from_record; [exact Hp|].
  eapply wp_mono; [by eapply reads_allowed|]. intros b r' [-> ->]. split; [done|]. cbn beta. rewrite filter_cons.
  destruct (section_allowed vf_caps r i) eqn:Hb'.
  - rewrite decide_True by done. apply wp_bind, wp_demand; [apply bool_decide_eq_true; lia|].
    rewrite (wrap_id 32 (cnt + 1)) by (unfold in_width; lia).
    eapply wp_mono; [apply IH; [done|by rewrite length_insert|lia|lia]|].
    intros [c l] s' (-> & Hc' & Hl & Hj). cbn [fst snd length] in *. split; [done|]. split; [lia|].
    split; [by rewrite Hl, length_insert|]. intros j. rewrite Hj. destruct (decide (j = i)) as [->|Hne].
    + rewrite list_lookup_insert_eq by lia. rewrite (decide_True (P := i ∈ i :: is_)) by (apply elem_of_cons; by left).
      destruct (lookup_lt_is_Some_2 fl i) as [x ->]; [lia|]. cbn. rewrite Hb', orb_true_r. by destruct (decide _).
    + rewrite list_lookup_insert_ne by done. destruct (decide (j ∈ is_)) as [Hin|Hout].
      * by rewrite decide_True by (apply elem_of_cons; by right).
      * rewrite decide_False; [done|]. rewrite elem_of_cons. tauto.
  - rewrite decide_False by done. eapply wp_mono; [apply IH; [done|done|lia|lia]|].
    intros [c l] s' (-> & Hc' & Hl & Hj). cbn [fst snd] in *. split; [done|]. split; [lia|]. split; [done|].
    intros j. rewrite Hj. destruct (decide (j = i)) as [->|Hne].
    + rewrite (decide_True (P := i ∈ i :: is_)) by (apply elem_of_cons; by left). rewrite Hb'.
      destruct (decide (i ∈ is_)); destruct (fl !! i) as [x|]; cbn; by rewrite ?orb_false_r.
    + destruct (decide (j ∈ is_)) as [Hin|Hout].
      * by rewrite decide_True by (apply elem_of_cons; by right).
      * rewrite decide_False; [done|]. rewrite elem_of_cons. tauto.
Qed.

(** ** One record *)

(** [d] is a piece of [r] that a guest with [vf_caps] may have. *)
Definition guest_piece (vf_caps : Z) (r d : bytes) : Prop := exists n L nt ty data,
  filled n L nt ty data r /\ Z.of_nat (length data) = n /\ piece n L r (section_allowed vf_caps r) d.

Definition within (vf : nat) (lo hi : Z) (P : bytes -> Prop) (w : nat * Z * bytes) : Prop :=
  let '(v, o, d) := w in v = vf /\ lo <= o /\ o + len d <= hi /\ P d.

(** Nothing else changes but the count of allocations. *)
Definition only_os (c c' : amdgv_cper) : Prop := exists o, c' = c <| os := o |>.
Lemma only_os_refl c : only_os c c.
Proof. exists (os c). by destruct c. Qed.
Lemma only_os_trans c1 c2 c3 : only_os c1 c2 -> only_os c2 c3 -> only_os c1 c3.
Proof. intros [o ->] [o' ->]. by exists o'. Qed.

(** What a step of the copy did. *)
Definition step_to (s s' : dump_state) (W : nat * Z * bytes -> Prop) : Prop :=
  only_os (cper s) (cper s') /\ tables s' = tables s /\ exists ws, xchg_writes s' = xchg_writes s ++ ws /\ Forall W ws.
Lemma step_refl s W : step_to s s W.
Proof. split; [apply only_os_refl|]. split; [done|]. exists []. by rewrite app_nil_r. Qed.
Lemma step_trans s1 s2 s3 (W : nat * Z * bytes -> Prop) : step_to s1 s2 W -> step_to s2 s3 W -> step_to s1 s3 W.
Proof.
  intros (O1 & T1 & ws1 & E1 & F1) (O2 & T2 & ws2 & E2 & F2). split; [by eapply only_os_trans|]. split; [congruence|].
  exists (ws1 ++ ws2). rewrite E2, E1, app_assoc. split; [done|]. by apply Forall_app.
Qed.
Lemma step_weaken s s' (W W' : nat * Z * bytes -> Prop) : (forall w, W w -> W' w) -> step_to s s' W -> step_to s s' W'.
Proof. intros H (O & T & ws & E' & F). split; [done|]. split; [done|]. exists ws. split; [done|]. by eapply Forall_impl. Qed.
Lemma step_sent_all ws s (W : nat * Z * bytes -> Prop) : Forall W ws -> step_to s (sent_all ws s) W.
Proof.
  intros F. split; [rewrite cper_sent_all; apply only_os_refl|]. split; [apply tables_sent_all|]. exists ws.
  by rewrite writes_sent_all.
Qed.

Lemma step_sent w s (W : nat * Z * bytes -> Prop) : W w -> step_to s (sent w s) W.
Proof. intros Hw. apply (step_sent_all [w]). by apply Forall_cons_2; [|apply Forall_nil_2]. Qed.

Lemma wp_on_os {A} (m : M oss_state A) (Q : A -> dump_state -> Prop) s :
  (exists a o, m (os (cper s)) = Ret (a, o) /\ Q a (s <| cper := (cper s) <| os := o |> |>)) -> wp (on_os m) Q s.
Proof. intros (a & o & Hm & HQ). unfold on_os, on_cper. apply wp_zoom, wp_zoom. by eapply wp_intro. Qed.

Lemma copy_to_vf_ok vf vf_caps p off ck r s : heap (cper s) !! p = Some r -> whole r -> 0 <= off -> off + len r < 2 ^ 64 ->
  wp (amdgv_vfmgr_cper_copy_to_vf vf vf_caps p off ck) (fun res s' =>
    step_to s s' (within vf off (off + len r) (guest_piece vf_caps r)) /\
    let '(ret, off', ck') := res in ret = 0 -> off <= off' <= off + len r) s.
Proof.
  intros Hp (n & L & nt & ty & data & F & HK & Hn & Hd) Hoff H64. pose proof (kind_len _ _ _ HK) as HL.
  pose proof (f_len _ _ _ _ _ _ F) as Hlen. pose proof (len_nonneg r).
  unfold amdgv_vfmgr_cper_copy_to_vf. apply wp_bind. eapply wp_from_record; [exact Hp|].
  eapply wp_sec_cnt; [exact F|done|lia|]. split; [done|].
  apply wp_bind, wp_on_os. do 2 eexists. split; [reflexivity|]. set (s1 := s <| cper := _ |>).
  assert (step_to s s1 (within vf off (off + len r) (guest_piece vf_caps r))) as St1.
  { split; [by eexists|]. split; [done|]. exists []. by rewrite app_nil_r. }
  destruct (oss_alloc_ok _); cbn [negb]; [|by apply wp_ret].
  assert (heap (cper s1) !! p = Some r) as Hp1 by exact Hp.
  assert (forall i, i ∈ seq 0 (Z.to_nat n) -> (i < length data)%nat) as Hseq by (intros i Hi; apply elem_of_seq in Hi; lia).
  apply wp_bind. unfold amdgv_vfmgr_cper_get_allowed_list. apply wp_bind. eapply wp_from_record; [exact Hp1|].
  eapply wp_sec_cnt; [exact F|done|lia|]. split; [done|].
  eapply wp_mono; [eapply (allowed_loop_ok p vf_caps r n L nt ty data (seq 0 (Z.to_nat n)) 0); try done; rewrite ?length_replicate, ?length_seq; lia|].
  intros [cnt allowed] s' (-> & Hcnt & Hl & Hal). cbn [fst snd] in *. rewrite length_replicate in Hl. cbn beta iota.
  assert (forall i, (i < length data)%nat -> allowed !! i = Some (section_allowed vf_caps r i)) as Hallowed.
  { intros i Hi. rewrite Hal, decide_True by (apply elem_of_seq; lia). rewrite lookup_replicate_2 by lia. done. }
  apply wp_bind. apply wp_mono with (P := fun res s' => step_to s1 s' (within vf off (off + len r) (guest_piece vf_caps r)) /\
    let '(ret, off', ck') := res in ret = 0 -> off <= off' <= off + len r).
  2: { intros [[ret off'] ck'] s2 (St2 & Hr). apply wp_bind. apply wp_on_os. do 2 eexists. split; [reflexivity|]. apply wp_ret.
       split; [|done]. eapply step_trans; [exact St1|]. eapply step_trans; [exact St2|].
       split; [by eexists|]. split; [done|]. exists []. by rewrite app_nil_r. }
  unfold amdgv_cper_patch_to_vf. destruct (Z.eqb_spec cnt 0) as [|Hc0].
  { apply wp_ret. split; [apply step_refl|lia]. }
  assert (count_true allowed (seq 0 (Z.to_nat n)) = length (filter (fun i => section_allowed vf_caps r i = true) (seq 0 (Z.to_nat n)))) as Hct.
  { unfold count_true. f_equal. apply filter_agree. intros i Hi. rewrite Hallowed by by apply Hseq. split; congruence. }
  assert (0 < cnt <= n) as Hcn.
  { pose proof (length_filter (fun i => section_allowed vf_caps r i = true) (seq 0 (Z.to_nat n))) as Hle. rewrite length_seq in Hle. lia. }
  assert (HDR_LEN = 128 /\ SEC_DESC_LEN = 72) as [E1 E2] by done.
  rewrite (wrap_id 32 (HDR_LEN + SEC_DESC_LEN * cnt)) by (unfold in_width; lia).
  apply wp_bind. eapply wp_from_record; [exact Hp1|]. eapply wp_sec_cnt; [exact F|done|lia|]. split; [done|].
  apply wp_bind. eapply wp_mono; [eapply (patch_loop_ok n L nt ty data r F HL Hn Hd vf p allowed (section_allowed vf_caps r) off cnt); try done; try lia|].
  { intros i Hi. apply Hseq in Hi. split; [done|]. exists (section_allowed vf_caps r i). split; [by apply Hallowed|done]. }
  intros [[[ret next] wc] ck1] s2 (ws & -> & Hws & Hres). cbn beta iota in *.
  assert (HDR_LEN + cnt * (SEC_DESC_LEN + L) <= len r /\ 128 <= len r /\ L <= 272 /\ 0 <= L) as (Hsz & Hr128 & HL2 & HL0).
  { rewrite Hlen. destruct HL as [->|[->| ->]]; sizes; split_and!; nia. }
  assert (forall w, good_write n L r vf (section_allowed vf_caps r) off (HDR_LEN + cnt * (SEC_DESC_LEN + L)) w ->
    within vf off (off + len r) (guest_piece vf_caps r) w) as Hgood.
  { intros [[v o] d] (-> & ? & ? & Hpc). split_and!; [done|done|lia|]. by exists n, L, nt, ty, data. }
  assert (step_to s1 (sent_all ws s1) (within vf off (off + len r) (guest_piece vf_caps r))) as St2
    by (apply step_sent_all; eapply Forall_impl; [exact Hws|done]).
  destruct (Z.eqb_spec ret 0) as [->|Hr]; cbn [negb]; [|apply wp_ret; by split].
  destruct (Hres eq_refl) as [-> ->]. apply wp_bind.
  eapply wp_patch_hdr; [rewrite cper_sent_all; exact Hp1|apply (f_bytes _ _ _ _ _ _ F)|done|].
  intros ret2 ck2. cbn beta iota. fold (hdr_of r (u16 (0 + Z.of_nat (count_true allowed (seq 0 (Z.to_nat n)))))
    (HDR_LEN + SEC_DESC_LEN * cnt + L * Z.of_nat (count_true allowed (seq 0 (Z.to_nat n))))).
  assert (step_to s1 (sent (vf, off, hdr_of r (u16 (0 + Z.of_nat (count_true allowed (seq 0 (Z.to_nat n)))))
    (HDR_LEN + SEC_DESC_LEN * cnt + L * Z.of_nat (count_true allowed (seq 0 (Z.to_nat n))))) (sent_all ws s1))
    (within vf off (off + len r) (guest_piece vf_caps r))) as St3.
  { eapply step_trans; [exact St2|]. apply step_sent.
    split; [done|]. rewrite (len_hdr_of n L nt ty data r F HL Hd). split_and!; [lia|lia|].
    exists n, L, nt, ty, data. split; [done|]. split; [done|]. right. by do 2 eexists. }
  destruct (Z.eqb_spec ret2 0) as [->|Hr2]; cbn [negb]; apply wp_ret; (split; [exact St3|]); [intros _|done].
  rewrite wrap_id by (unfold in_width; nia). nia.
Qed.

(** ** The loop over the records *)

(** A piece of a record of [log] numbered [start] or later. *)
Definition since (base : Z) (log : list bytes) (start wptr_ : Z) (vf_caps : Z) (d : bytes) : Prop :=
  exists i r, start <= i < wptr_ /\ base <= i /\ log !! Z.to_nat (i - base) = Some r /\ guest_piece vf_caps r d.

Lemma ring_ok_only_os base log pending c c' : ring_ok base log pending c -> only_os c c' -> ring_ok base log pending c'.
Proof. intros R [o ->]. by eapply ring_ok_ext. Qed.

Lemma within_mono vf lo hi lo' hi' (P P' : bytes -> Prop) w : within vf lo hi P w -> lo' <= lo -> hi <= hi' ->
  (forall d, P d -> P' d) -> within vf lo' hi' P' w.
Proof. destruct w as [[v o] d]. intros (-> & ? & ? & ?) ? ? HP. split_and!; [done|lia|lia|by apply HP]. Qed.

Lemma dump_loop_ok base log start vf vf_caps t fuel rptr fb count_ ck s : ring_ok base log None (cper s) ->
  0 <= start <= rptr -> wptr (cper s) - max_count (cper s) <= rptr <= wptr (cper s) -> wptr (cper s) - rptr <= Z.of_nat fuel ->
  0 <= tb_offset t -> 1 <= tb_size_kb t -> tb_offset t + tb_size_kb t * 1024 < 2 ^ 63 ->
  tb_offset t + 44 <= fb <= tb_offset t + tb_size_kb t * 1024 ->
  wp (dump_loop fuel vf vf_caps t (wptr (cper s)) rptr fb count_ ck) (fun res s' =>
    step_to s s' (within vf (tb_offset t + 44) (tb_offset t + tb_size_kb t * 1024) (since base log start (wptr (cper s)) vf_caps)) /\
    match res with Failed => True | Done rptr' fb' _ _ => rptr <= rptr' <= wptr (cper s) /\ fb <= fb' <= tb_offset t + tb_size_kb t * 1024 end) s.
Proof.
  intros R Hst Hr Hf Ht0 Hkb1 Hkb2 Hfb.
  assert (KBYTES_TO_BYTES (tb_size_kb t) = tb_size_kb t * 1024) as HKB.
  { unfold KBYTES_TO_BYTES. rewrite Z.shiftl_mul_pow2 by lia. apply wrap_id. unfold in_width. lia. }
  change (TELEMETRY_HEADER + CPER_DUMP_BUF) with 44.
  set (w := wptr (cper s)) in *. assert (wptr (cper s) = w) as Hw by done. clearbody w.
  revert rptr fb count_ ck s R Hst Hr Hf Hfb Hw.
  induction fuel as [|fuel IH]; intros rptr fb count_ ck s R Hst Hr Hf Hfb Hw; cbn [dump_loop];
    destruct (Z.ltb_spec rptr w); cbn [negb]; try (apply wp_ret; split; [apply step_refl|lia]); [lia|].
  pose proof (ro_u64 _ _ _ _ R). rewrite (wrap_id 64 (rptr + 1)) by (unfold in_width; lia).
  apply wp_bind. unfold on_cper. apply wp_zoom. unfold amdgv_cper_get_ring_entry. apply wp_bind, wp_gets.
  assert (s <| cper := cper s |> = s) as Hsame by by destruct s.
  set (post := fun (res : dump_end) s' => step_to s s' (within vf (tb_offset t + 44) (tb_offset t + tb_size_kb t * 1024) (since base log start w vf_caps)) /\
    match res with Failed => True | Done rptr' fb' _ _ => rptr <= rptr' <= w /\ fb <= fb' <= tb_offset t + tb_size_kb t * 1024 end).
  assert (forall c k, wp (dump_loop fuel vf vf_caps t w (rptr + 1) fb c k) post s) as Hskip.
  { intros c k. eapply wp_mono; [apply (IH (rptr + 1) fb c k s); done || lia|]. intros res s' [St Hres]. split; [done|].
    destruct res; [lia|done]. }
  destruct (enabled (cper s)); cbn [negb].
  2: { apply wp_ret. rewrite Hsame. apply Hskip. }
  eapply (wp_ring_at base log None (cper s) R); [split; lia| |].
  { intros _ _. rewrite Hsame. apply Hskip. }
  intros p r Hb Hp Hwhole Hl _. rewrite Hsame. destruct (whole_len r Hwhole) as [Hrl Hrlen].
  unfold MAX_RECORD in Hrlen. change (2 ^ 25) with 33554432 in Hrlen.
  apply wp_bind. eapply wp_from_record; [exact Hp|]. unfold record_length. apply wp_rdn; [lia|lia|]. split; [done|].
  change (Z.of_nat 4) with 4. rewrite Hrl, HKB. change (TELEMETRY_HEADER + CPER_DUMP_BUF) with 44.
  rewrite (wrap_id 64 (tb_size_kb t * 1024 - 44)) by (unfold in_width; lia).
  destruct (Z.ltb_spec (tb_size_kb t * 1024 - 44) (len r)); [apply Hskip|].
  rewrite (wrap_id 64 (fb - tb_offset t + len r)) by (unfold in_width; lia).
  destruct (Z.ltb_spec (tb_size_kb t * 1024) (fb - tb_offset t + len r)); [apply wp_ret; split; [apply step_refl|lia]|].
  apply wp_bind. eapply wp_mono; [apply (copy_to_vf_ok vf vf_caps p fb ck r s Hp Hwhole); lia|].
  intros [[ret fb'] ck'] s' (St & Hret). cbn beta iota in *.
  assert (step_to s s' (within vf (tb_offset t + 44) (tb_offset t + tb_size_kb t * 1024) (since base log start w vf_caps))) as St'.
  { eapply step_weaken; [|exact St]. intros wr Hwr. eapply within_mono; [exact Hwr|lia|lia|].
    intros d Hd. exists rptr, r. split_and!; [lia|lia|done|done|done]. }
  destruct (Z.eqb_spec ret 0) as [->|Hne]; cbn [negb]; [|by apply wp_ret].
  pose proof (Hret eq_refl) as Hfb'. destruct St as (Hos & _ & _). destruct Hos as [o Ho].
  eapply wp_mono; [apply IH; [by eapply ring_ok_only_os; [exact R|by exists o]|lia|rewrite Ho; cbn; lia|lia|lia|by rewrite Ho]|].
  intros res s2 (St2 & Hres). split; [by eapply step_trans|]. destruct res; [lia|done].
Qed.

(** The table's own header and fields. *)
Definition table_fields (vf : nat) (t : xchg_table) (w : nat * Z * bytes) : Prop :=
  let '(v, o, d) := w in v = vf /\ ((o = tb_offset t + 16 /\ len d = 28) \/ (o = tb_offset t /\ len d = 16)).

Lemma wp_copy_table vf t off buf (Q : Z -> dump_state -> Prop) s : 0 <= tb_offset t -> tb_offset t < 2 ^ 63 -> 0 <= off < 44 ->
  (forall ret, Q ret (sent (vf, tb_offset t + off, buf) s)) -> wp (amdgv_vfmgr_copy_to_vf_xchg_table vf (Some t) off buf) Q s.
Proof.
  intros H0 H1 Ho HQ. unfold amdgv_vfmgr_copy_to_vf_xchg_table. rewrite (wrap_id 64 (tb_offset t + off)) by (unfold in_width; lia).
  apply wp_bind, wp_gets, wp_bind, wp_modify, wp_ret. apply HQ.
Qed.

(** Only the reader's position of the VF changes besides. *)
Definition only_vf (vf : nat) (c c' : amdgv_cper) : Prop := exists o ras prev, vfs c !! vf = Some ras /\
  c' = c <| os := o |> <| vfs := <[vf := ras <| prev_host_wptr := prev |>]> (vfs c) |>.

Lemma dump_cpers_ok base log vf t ras vf_rptr s : ring_ok base log None (cper s) ->
  tables s !! vf = Some t -> vfs (cper s) !! vf = Some ras -> 0 <= start_rptr ras -> 0 <= vf_rptr ->
  0 <= tb_offset t -> 1 <= tb_size_kb t -> tb_offset t + tb_size_kb t * 1024 < 2 ^ 63 ->
  wp (amdgv_vfmgr_dump_cpers vf vf_rptr) (fun _ s' => ring_ok base log None (cper s') /\ tables s' = tables s /\
    (only_os (cper s) (cper s') \/ only_vf vf (cper s) (cper s')) /\
    exists ws, xchg_writes s' = xchg_writes s ++ ws /\
      Forall (fun w => within vf (tb_offset t + 44) (tb_offset t + tb_size_kb t * 1024)
                (since base log (start_rptr ras) (wptr (cper s)) (caps ras)) w \/ table_fields vf t w) ws) s.
Proof.
  intros R Ht Hras Hstart Hvr Ht0 Hkb1 Hkb2. pose proof (window_bounds _ _ _ _ R) as [Hm Hw].
  unfold amdgv_vfmgr_dump_cpers. apply wp_bind, wp_gets. cbv beta delta [id].
  apply wp_bind. eapply wp_require; [exact Ht|]. apply wp_bind. eapply wp_require; [exact Hras|].
  cbv zeta. change (TELEMETRY_HEADER + CPER_DUMP_BUF) with 44.
  destruct (telemetry_disabled s).
  { apply wp_ret. split; [done|]. split; [done|]. split; [left; apply only_os_refl|]. exists []. by rewrite app_nil_r. }
  rewrite (wrap_id 64 (tb_offset t + 44)) by (unfold in_width; lia).
  set (start := start_rptr ras) in *. set (w := wptr (cper s)) in *.
  set (mo := if start <=? w then u64 (w - start) else 0).
  set (pos := if mo <=? vf_rptr then (w, 0) else _).
  assert (0 <= start /\ w - max_count (cper s) <= fst pos <= w /\ (fst pos < w -> start <= fst pos)) as (_ & Hpos & Hpos2).
  { subst pos mo. destruct (Z.leb_spec start w).
    - rewrite (wrap_id 64 (w - start)) by (unfold in_width; lia).
      destruct (Z.leb_spec (w - start) vf_rptr); cbn [fst]; [lia|].
      rewrite (wrap_id 64 (start + vf_rptr)) by (unfold in_width; lia).
      rewrite (move_to_first_valid base log None (cper s) R) by lia. unfold first_valid. fold w. lia.
    - destruct (Z.leb_spec 0 vf_rptr); cbn [fst]; lia. }
  destruct pos as [rptr overflow]. cbn [fst] in *.
  set (W := fun wr => within vf (tb_offset t + 44) (tb_offset t + tb_size_kb t * 1024) (since base log start w (caps ras)) wr \/ table_fields vf t wr).
  apply wp_bind. apply wp_mono with (P := fun res s' => step_to s s' W).
  { destruct (decide (rptr < w)).
    - eapply wp_mono; [apply (dump_loop_ok base log start vf (caps ras) t); done || lia|].
      intros res s' [St _]. eapply step_weaken; [|exact St]. intros wr Hwr. by left.
    - destruct (Z.to_nat (max_count (cper s))); cbn [dump_loop]; (destruct (Z.ltb_spec rptr w); [lia|]); cbn [negb]; apply wp_ret, step_refl. }
  intros res s1 St. destruct St as (Hos & Htab & ws & Hws & HW). pose proof (ring_ok_only_os _ _ _ _ _ R Hos) as R1.
  destruct res as [rptr1 fb1 cnt1 ck1|].
  2: { apply wp_ret. split; [done|]. split; [done|]. split; [by left|]. by exists ws. }
  cbv zeta. apply wp_bind. change TELEMETRY_HEADER with 16. apply wp_copy_table; [done|lia|lia|]. intros ret1.
  set (d1 := le 4 (Z.b2z _) ++ _). assert (len d1 = 28) as Hd1 by (subst d1; rewrite !len_app, !len_le; done). clearbody d1.
  apply wp_bind. apply wp_mono with (P := fun _ s2 => step_to s1 s2 W).
  { assert (W (vf, tb_offset t + 16, d1)) as HW1 by (right; split; [done|by left]).
    destruct (Z.eqb_spec ret1 0).
    - apply wp_copy_table; [done|lia|lia|]. intros ret2. eapply step_trans.
      + apply step_sent, HW1.
      + apply step_sent. right. split; [done|]. right. split; [lia|]. by rewrite !len_app, !len_le.
    - apply wp_ret, step_sent, HW1. }
  intros ret s2 (Hos2 & Htab2 & ws2 & Hws2 & HW2). apply wp_bind, wp_modify, wp_ret.
  pose proof (ring_ok_only_os _ _ _ _ _ R1 Hos2) as R2. split; [by eapply ring_ok_ext|]. split; [cbn; congruence|]. split.
  - right. destruct Hos as [o Ho], Hos2 as [o2 Ho2]. exists o2, ras. eexists. split; [done|]. cbn. rewrite Ho2, Ho. reflexivity.
  - exists (ws ++ ws2). cbn. rewrite Hws2, Hws, app_assoc. split; [done|]. by apply Forall_app.
Qed.
End confine.
