(* ===== verification/CperLive.v ===== *)
(** * CPER bookkeeping across a live update (src/libgv/core/amdgv_cper.c)

    The records themselves are not carried over; the numbers of the next record
    and of each VF's window are.  The table has room for nine VFs and 32 bits
    for a VF's positions, which are 64 bits wide. *)
From stdpp Require Import gmap.
From S2P Require Import Prelude Oss Bytes Cper CperRecord CperInv.
#[local] Open Scope Z_scope.

Definition AMDGV_MAX_VF_LIVE : nat := 9.
Definition PF_SLOT : nat := 31.  (* AMDGV_PF_IDX *)
Definition AMDGV_LIVE_INFO_STATUS_SUCCESS : Z := 0.
Definition AMDGV_LIVE_INFO_STATUS_GENERIC_ERROR : Z := 1.

Record amdgv_live_info_cper := mk_live_cper {
  vf_cper : list vf_ras;
  live_next_uid : Z; live_max_count : Z; live_count : Z; live_wptr : Z;
}.
#[export] Instance eta_amdgv_live_info_cper : Eta amdgv_live_info_cper := fun r =>
  mk_live_cper (vf_cper r) (live_next_uid r) (live_max_count r) (live_count r) (live_wptr r).

Definition slot_of (num_vf i : nat) : nat := if bool_decide (i = num_vf) then PF_SLOT else i.

Definition export_vf (num_vf i : nat) : M (amdgv_cper * amdgv_live_info_cper) unit :=
  s ← gets fst;
  ras ← require (vfs s !! slot_of num_vf i);
  modify (fun '(s, l) => (s, l <| vf_cper := <[i := mk_vf_ras (u64 (caps ras)) (u32 (start_rptr ras)) (u32 (prev_host_wptr ras))]> (vf_cper l) |>)).

(** The loop over the VFs [is_]; [false] when a VF has no entry in the table. *)
Fixpoint vf_loop (body : nat -> M (amdgv_cper * amdgv_live_info_cper) unit) (is_ : list nat) : M (amdgv_cper * amdgv_live_info_cper) bool :=
  match is_ with
  | [] => mret true
  | i :: is_ => if bool_decide (AMDGV_MAX_VF_LIVE <= i)%nat then mret false else _ ← body i; vf_loop body is_
  end.

Definition amdgv_cper_export_live_data (num_vf : nat) : M (amdgv_cper * amdgv_live_info_cper) Z :=
  ok ← vf_loop (export_vf num_vf) (seq 0 (num_vf + 1));
  if negb ok then mret AMDGV_LIVE_INFO_STATUS_GENERIC_ERROR else
  _ ← modify (fun '(s, l) => (s, l <| live_next_uid := next_uid s |> <| live_max_count := max_count s |>
        <| live_count := count s |> <| live_wptr := wptr s |>));
  mret AMDGV_LIVE_INFO_STATUS_SUCCESS.

Definition import_vf (num_vf i : nat) : M (amdgv_cper * amdgv_live_info_cper) unit :=
  l ← gets snd;
  ras ← require (vf_cper l !! i);
  s ← gets fst;
  _ ← require (vfs s !! slot_of num_vf i);
  modify (fun '(s, l) => (s <| vfs := <[slot_of num_vf i := ras]> (vfs s) |>, l)).

Definition amdgv_cper_import_live_data (num_vf : nat) : M (amdgv_cper * amdgv_live_info_cper) Z :=
  ok ← vf_loop (import_vf num_vf) (seq 0 (num_vf + 1));
  if negb ok then mret AMDGV_LIVE_INFO_STATUS_GENERIC_ERROR else
  _ ← modify (fun '(s, l) => (s <| next_uid := live_next_uid l |>, l));
  _ ← modify (fun '(s, l) => (s <| max_count := if (0 <? live_max_count l) && (live_max_count l <=? AMDGV_CPER_MAX_ALLOWED_COUNT)
                                               then live_max_count l else AMDGV_CPER_MAX_ALLOWED_COUNT |>, l));
  _ ← modify (fun '(s, l) => (s <| count := live_count l |>, l));
  _ ← modify (fun '(s, l) => (s <| wptr := live_wptr l |>, l));
  mret AMDGV_LIVE_INFO_STATUS_SUCCESS.

(** With more VFs than entries both directions fail. *)
Lemma export_too_many num_vf s l : (AMDGV_MAX_VF_LIVE <= num_vf < PF_SLOT)%nat -> length (vfs s) = S PF_SLOT ->
  wp (amdgv_cper_export_live_data num_vf) (fun r _ => r = AMDGV_LIVE_INFO_STATUS_GENERIC_ERROR) (s, l).
Proof.
  unfold AMDGV_MAX_VF_LIVE, PF_SLOT. intros Hn Hl. unfold amdgv_cper_export_live_data. apply wp_bind.
  apply wp_mono with (P := fun ok _ => ok = false); [|by intros ok s' ->].
  assert (forall k i s l, (i + k = num_vf + 1)%nat -> (i <= 9)%nat -> length (vfs s) = S PF_SLOT ->
    wp (vf_loop (export_vf num_vf) (seq i k)) (fun ok _ => ok = false) (s, l)) as H.
  { unfold PF_SLOT. induction k as [|k IH]; intros i s0 l0 Hk Hi Hl0; [lia|]. cbn [seq vf_loop]. case_bool_decide as Hc; [by apply wp_ret|].
    unfold AMDGV_MAX_VF_LIVE in Hc. apply wp_bind. unfold export_vf. apply wp_bind, wp_gets, wp_bind.
    destruct (lookup_lt_is_Some_2 (vfs s0) (slot_of num_vf i)) as [ras Hras].
    { unfold slot_of, PF_SLOT. case_bool_decide; lia. }
    eapply wp_require; [exact Hras|]. apply wp_modify. apply IH; lia || done. }
  apply H; unfold PF_SLOT; lia.
Qed.

(** A loaded driver: the ring is empty, and readers see none of the old records. *)
Lemma import_ring_ok num_vf s l : ring s = replicate (Z.to_nat AMDGV_CPER_MAX_ALLOWED_COUNT) None -> heap s = ∅ ->
  0 <= live_wptr l < 2 ^ 64 ->
  forall r s' l', amdgv_cper_import_live_data num_vf (s, l) = Ret (r, (s', l')) -> r = AMDGV_LIVE_INFO_STATUS_SUCCESS ->
  ring_ok (live_wptr l) [] None s'.
Proof.
  intros Hr Hh Hw r s' l' Hrun ->.
  assert (forall is_ s0 ok s1 l1, vf_loop (import_vf num_vf) is_ (s0, l) = Ret (ok, (s1, l1)) ->
    ring s1 = ring s0 /\ heap s1 = heap s0 /\ l1 = l) as Hloop.
  { induction is_ as [|i is_ IH]; intros s0 ok s1 l1; cbn [vf_loop]; [by intros [= <- <- <-]|].
    case_bool_decide; [by intros [= <- <- <-]|]. unfold mbind at 1, M_bind at 1.
    destruct (import_vf num_vf i (s0, l)) as [[[] [s2 l2]]|] eqn:Hi; [|done].
    unfold import_vf, mbind, M_bind, gets, require, modify, fault in Hi. cbn in Hi.
    destruct (vf_cper l !! i) as [ras|]; [|done]. cbn in Hi. destruct (vfs s0 !! slot_of num_vf i); [|done]. cbn in Hi.
    injection Hi as <- <-. intros H'. by apply IH in H'. }
  unfold amdgv_cper_import_live_data, mbind, M_bind in Hrun.
  destruct (vf_loop _ _ (s, l)) as [[ok [s1 l1]]|] eqn:Hl; [|done]. destruct (Hloop _ _ _ _ _ Hl) as (E1 & E2 & ->).
  destruct ok; cbn in Hrun; [|done]. injection Hrun as <- <-. cbn.
  match goal with |- ring_ok _ _ _ ?t => change (ring_ok (wptr t) [] None t) end.
  apply ring_ok_empty; cbn.
  - unfold AMDGV_CPER_MAX_ALLOWED_COUNT. destruct (Z.ltb_spec 0 (live_max_count l)), (Z.leb_spec (live_max_count l) 4096); cbn; lia.
  - congruence.
  - done.
  - congruence.
Qed.
