(* ===== verification/CperProps.v ===== *)
(** * CPER records: the properties *)
From Stdlib Require Import String.
From stdpp Require Import strings gmap.
From S2P Require Import Prelude Oss Bytes CperTime Cper CperRecord CperInv CperMake CperRead CperDump CperPatch CperConfine.
#[local] Open Scope Z_scope.

Section ends.
Context {E : CperEnv} {OE : OssEnv}.

(** ** Unloading *)

Lemma sw_fini_ok base log s : ring_ok base log None s ->
  wp amdgv_cper_sw_fini (fun r s' => r = 0 /\ heap s' = ∅ /\ Forall (fun e => e = None) (ring s') /\ enabled s' = false /\
    wptr s' = 0 /\ count s' = 0) s.
Proof.
  intros R. pose proof (window_bounds _ _ _ _ R) as [Hm _]. unfold amdgv_cper_sw_fini.
  apply wp_bind, wp_modify, wp_bind, wp_gets. cbn [max_count upd].
  set (I := fun (pre : list nat) t => enabled t = false /\ length (ring t) = length (ring s) /\
    (forall j, (j < length pre)%nat -> ring t !! j = Some None) /\
    (forall j, (length pre <= j)%nat -> ring t !! j = ring s !! j) /\
    (forall p, is_Some (heap t !! p) <-> exists j, ring t !! j = Some (Some p))).
  apply wp_bind. eapply wp_mono; [apply (wp_for_each_pre I)|].
  - intros pre i post t Hl (He & Hlen & Hdone & Hleft & Hheap).
    assert (i = length pre) as ->.
    { assert (seq 0 (Z.to_nat (max_count s)) !! length pre = Some i) as Hi by (rewrite Hl; by apply list_lookup_middle).
      apply lookup_seq in Hi. lia. }
    assert (length pre < length (ring s))%nat as Hlt.
    { rewrite (ro_ring _ _ _ _ R). unfold AMDGV_CPER_MAX_ALLOWED_COUNT.
      assert (length (seq 0 (Z.to_nat (max_count s))) = length (pre ++ length pre :: post)) as Hll by by rewrite Hl.
      rewrite length_seq, length_app in Hll. cbn in Hll. lia. }
    destruct (lookup_lt_is_Some_2 (ring s) (length pre) Hlt) as [e Hent].
    assert (ring t !! length pre = Some e) as Het by (rewrite Hleft by lia; done).
    apply wp_bind, wp_gets, wp_bind. eapply wp_require; [exact Het|]. destruct e as [p|].
    + destruct (proj2 (Hheap p) ltac:(by eexists)) as [r Hr].
      apply wp_bind. unfold oss_free_record. apply wp_bind, wp_gets, wp_bind. eapply wp_require; [exact Hr|].
      apply wp_bind, wp_modify, wp_zoom, wp_modify, wp_modify. subst I. cbn. rewrite length_insert, length_app. cbn [length].
      split_and!; [done|done| | |].
      * intros j Hj. destruct (decide (j = length pre)) as [->|Hne]; [apply list_lookup_insert_eq; lia|].
        rewrite list_lookup_insert_ne by done. apply Hdone. lia.
      * intros j Hj. rewrite list_lookup_insert_ne by lia. apply Hleft. lia.
      * intros q. split.
        -- intros [x Hx]. apply lookup_delete_Some in Hx as [Hne Hx]. destruct (proj1 (Hheap q) ltac:(eauto)) as [j Hj].
           exists j. rewrite list_lookup_insert_ne; [done|]. intros <-. congruence.
        -- intros [j Hj]. destruct (decide (j = length pre)) as [->|Hne].
           { rewrite list_lookup_insert_eq in Hj by lia. done. }
           rewrite list_lookup_insert_ne in Hj by done. rewrite lookup_delete_ne; [apply Hheap; eauto|].
           intros <-. apply Hne. destruct (decide (j < length pre)%nat) as [Hjl|Hjl]; [by rewrite Hdone in Hj|].
           rewrite Hleft in Hj by lia. symmetry. by eapply (ro_inj _ _ _ _ R).
    + apply wp_ret. subst I. cbn. rewrite length_app. cbn [length]. split_and!; [done|done| | |done].
      * intros j Hj. destruct (decide (j = length pre)) as [->|Hne]; [done|]. apply Hdone. lia.
      * intros j Hj. apply Hleft. lia.
  - subst I. cbn. split_and!; [done|done|intros; lia|done|]. intros p. split.
    + intros Hp. by destruct (ro_heap _ _ _ _ R p Hp) as [|].
    + intros [j Hj]. destruct (ring_entry _ _ _ _ _ _ R Hj) as (i & r & _ & _ & _ & Hr & _). eauto.
  - intros [] t (He & Hlen & Hdone & Hleft & Hheap). repeat apply wp_bind, wp_modify. apply wp_ret. cbn.
    rewrite length_seq in Hdone, Hleft.
    assert (forall j e, ring t !! j = Some e -> e = None) as Hnone.
    { intros j [p|] Hj; [|done]. exfalso. destruct (decide (j < Z.to_nat (max_count s))%nat); [by rewrite Hdone in Hj|].
      rewrite Hleft in Hj by lia. destruct (ring_entry _ _ _ _ _ _ R Hj) as (i & r & _ & _ & -> & _).
      pose proof (slot_lt s i ltac:(lia)). unfold slot in *. lia. }
    split_and!; [done| | |done|done|done].
    + apply map_eq. intros p. rewrite lookup_empty. destruct (heap t !! p) eqn:Hp; [|done].
      destruct (proj1 (Hheap p) ltac:(eauto)) as [j Hj]. by apply Hnone in Hj.
    + apply Forall_lookup. intros j e Hj. by eapply Hnone.
Qed.

(** [amdgv_cper_sw_init] on a zeroed structure. *)
Definition zeroed (s : amdgv_cper) : Prop :=
  wptr s = 0 /\ heap s = ∅ /\ ring s = replicate (Z.to_nat AMDGV_CPER_MAX_ALLOWED_COUNT) None.
Lemma sw_init_ok opt s : 0 <= opt -> zeroed s ->
  wp (amdgv_cper_sw_init opt) (fun r s' => r = 0 /\ enabled s' = true /\ vfs s' = vfs s /\ wptr s' = 0 /\ ring_ok 0 [] None s') s.
Proof.
  intros Ho (Hw & Hh & Hr). unfold amdgv_cper_sw_init. destruct (Z.ltb_spec opt 0); [lia|].
  apply wp_bind, wp_modify, wp_bind, wp_modify, wp_ret. cbn. split_and!; [done..|].
  match goal with |- ring_ok _ _ _ ?t => assert (wptr t = 0) as Ht by exact Hw; rewrite <- Ht at 1; apply ring_ok_empty; cbn end.
  - unfold AMDGV_CPER_MAX_ALLOWED_COUNT. destruct (Z.ltb_spec 0 opt), (Z.leb_spec opt 4096); cbn; lia.
  - done.
  - cbn. lia.
  - done.
Qed.
End ends.

(** ** Reading back *)

Section claims.
Context {E : CperEnv} {OE : OssEnv} {XE : XchgEnv} {SE : CperSane E}.

(** C28: records made of machine-check banks hold the registers of these banks
    in the cells of the format: CTL, STATUS, ADDR, MISC0, CONFIG, IPID, SYND,
    DESTAT, DEADDR and MISC1 of a corrected error, which shares a record with
    the others, a section each; STATUS, ADDR, IPID and SYND of an uncorrected
    one, which has a record of its own.  Read back, a section gives its type,
    the first seven registers of a corrected error and the four of an
    uncorrected one, and zero for the others.  When memory is short the
    records made so far are kept and nothing else changes. *)
Theorem cper_bank_roundtrip base log type banks s (R : ring_ok base log None s) (Hn : Z.of_nat (length banks) < 65536)
  (Hu : wptr s + Z.of_nat (length banks) < 2 ^ 64) (Hb : Forall good_bank banks) :
  exists r s' recs, amdgv_mca_generate_cpers type banks s = Ret (r, s') /\ ring_ok base (log ++ recs) None s' /\
    (r = 0 \/ r = AMDGV_FAILURE) /\
    if decide (type = AMDGV_MCA_ERROR_TYPE_UE) then
      (r = 0 -> length recs = length banks) /\
      forall i rec b, recs !! i = Some rec -> banks !! i = Some b ->
        stores fatal_cells rec 0 b /\
        reads_back rec 0 AMDGV_CPER_TYPE_FATAL amdgv_mca_get_fatal_bank_from_cper_section fatal_cells
    else
      (r = 0 -> banks = [] \/ exists rec, recs = [rec] /\ unle (sl 10 2 rec) = Z.of_nat (length banks)) /\
      forall i rec b, recs = [rec] -> banks !! i = Some b ->
        stores runtime_cells rec i b /\
        reads_back rec i AMDGV_CPER_TYPE_RUNTIME amdgv_mca_get_runtime_bank_from_cper_section (take 7 runtime_cells).
Proof.
  unfold amdgv_mca_generate_cpers. case_bool_decide as Hl0.
  { exists 0, s, []. rewrite app_nil_r. destruct banks; [|done]. split_and!; [done|done|by left|].
    destruct (decide _); split; try done. by left. }
  destruct (decide (type = AMDGV_MCA_ERROR_TYPE_UE)) as [->|Hty].
  - rewrite bool_decide_true by done. pose proof (ue_loop_ok banks base log s R Hu Hb) as Hw.
    apply wp_returns in Hw as (r & s' & Hr & _ & k & recs & HF & R' & Hend). exists r, s', recs.
    split_and!; [done|done|by destruct Hend as [[-> _]|[-> _]]; auto| |].
    + intros ->. destruct Hend as [[_ ->]|[? _]]; [|done]. rewrite <- (Forall2_length _ _ _ HF), length_take. lia.
    + intros i rec b Hi Hbk. destruct (Forall2_lookup_r _ _ _ _ _ HF Hi) as (b' & Hb' & Hrec).
      apply lookup_take_Some in Hb' as [Hb' _]. simplify_eq. apply read_fatal; [|done]. by eapply Forall_lookup_1.
  - rewrite bool_decide_false by done.
    pose proof (generate_ce_ok base log banks s R ltac:(destruct banks; [done|cbn in Hu; lia]) Hb Hn) as Hw.
    apply wp_returns in Hw as (r & s' & Hr & _ & [[-> R']|(-> & _ & rec & HP & _ & R' & _)]).
    + exists AMDGV_FAILURE, s', []. rewrite app_nil_r. split_and!; [done|done|by right|done|done].
    + exists 0, s', [rec]. split_and!; [done|done|by left| |].
      * intros _. right. exists rec. split; [done|]. apply (f_cnt _ _ _ _ _ _ HP).
      * intros i rec' b [= <-] Hi. eapply read_runtime; [exact Hi| |exact HP]. by eapply Forall_lookup_1.
Qed.

Lemma cper_records base log type banks s : ring_ok base log None s -> Z.of_nat (length banks) < 65536 ->
  wptr s + Z.of_nat (length banks) < 2 ^ 64 -> Forall good_bank banks ->
  exists r s' recs, amdgv_mca_generate_cpers type banks s = Ret (r, s') /\ ring_ok base (log ++ recs) None s' /\
    vfs s' = vfs s /\ (length recs <= length banks)%nat.
Proof.
  intros R Hn Hu Hb. unfold amdgv_mca_generate_cpers. case_bool_decide as Hl0.
  { exists 0, s, []. rewrite app_nil_r. split_and!; [done..|cbn; lia]. }
  case_bool_decide as Hty.
  - pose proof (ue_loop_ok banks base log s R Hu Hb) as Hw.
    apply wp_returns in Hw as (r & s' & Hr & (_ & _ & Hvfs) & k & recs & HF & R' & Hend). exists r, s', recs.
    split_and!; [done..|]. rewrite <- (Forall2_length _ _ _ HF), length_take. lia.
  - pose proof (generate_ce_ok base log banks s R ltac:(destruct banks; [done|cbn in Hu; lia]) Hb Hn) as Hw.
    apply wp_returns in Hw as (r & s' & Hr & (_ & _ & Hvfs) & [[-> R']|(-> & _ & rec & HP & _ & R' & _)]).
    + exists AMDGV_FAILURE, s', []. rewrite app_nil_r. split_and!; [done..|cbn; lia].
    + exists 0, s', [rec]. split_and!; [done..|]. cbn. destruct banks; cbn in *; [done|lia].
Qed.

(** C20: a reader gets, from its position on, as many of the records still in
    the ring as fit its buffer, in order; nothing past [buf_size] is written
    and nothing else changes, whatever position it asks for.  It is told how
    many were written, the size of the rest, and by how many numbers the
    oldest the ring has room for lies past its position: these records were
    overwritten.  Records of before a live update, numbered below [base], are
    gone too, and are in neither of the two numbers. *)
Theorem cper_entries_refine base log pending s rptr buf buf_size (R : ring_ok base log pending s)
  (Hr : 0 <= rptr) (Hb : 0 <= buf_size <= AMDGV_CPER_DUMP_MAX_BYTES) (Hl : buf_size <= len buf) :
  let first := first_valid s rptr in
  let recs := recs_from base first log in
  let '(w, rest) := take_fit buf_size recs in
  amdgv_cper_get_entries rptr buf buf_size s =
    Ret ((Z.of_nat (length w), first - Z.min rptr (wptr s), total_len rest, st 0 (concat w) buf), s) /\
  amdgv_cper_get_count rptr s = Ret ((wptr s, wptr s - first, total_len recs), s) /\
  w ++ rest = recs /\ Z.of_nat (length recs) = wptr s - Z.max first base /\ len (concat w) <= buf_size.
Proof.
  cbv zeta. pose proof (window_bounds _ _ _ _ R) as [Hm Hw]. pose proof (ro_wptr _ _ _ _ R) as Hwp. destruct (take_fit buf_size (recs_from base (first_valid s rptr) log)) as [w rest] eqn:Hfit.
  pose proof (get_entries_ok base log pending s R rptr buf buf_size w rest Hr Hb Hl Hfit) as H1.
  pose proof (get_count_ok base log pending s R rptr Hr) as H2.
  apply wp_returns in H1 as (r1 & s1 & E1 & -> & ->). apply wp_returns in H2 as (r2 & s2 & E2 & -> & ->).
  split_and!; [done|done|symmetry; by eapply take_fit_app| |eapply take_fit_room; [|exact Hfit]; lia].
  unfold recs_from, first_valid. rewrite length_drop. lia.
Qed.

(** ** Histories *)

Inductive call :=
| Generate (type : amdgv_mca_error_type) (banks : list mca_bank_entry)
| GenerateRma
| GetCount (rptr : Z)
| GetEntries (rptr : Z) (buf : bytes) (buf_size : Z)
| Dump (vf : nat) (vf_rptr : Z)
| GuestLoad (vf : nat).

Definition perform (c : call) : M dump_state unit :=
  match c with
  | Generate type banks => _ ← on_cper (amdgv_mca_generate_cpers type banks); mret tt
  | GenerateRma => _ ← on_cper amdgv_device_generate_rma_cper; mret tt
  | GetCount rptr => _ ← on_cper (amdgv_cper_get_count rptr); mret tt
  | GetEntries rptr buf buf_size => _ ← on_cper (amdgv_cper_get_entries rptr buf buf_size); mret tt
  | Dump vf vf_rptr => _ ← amdgv_vfmgr_dump_cpers vf vf_rptr; mret tt
  | GuestLoad vf => _ ← amdgv_vfmgr_cper_notify_event VFMGR_CPER_EVENT_GUEST_LOAD vf; mret tt
  end.

Definition table_ok (t : xchg_table) : Prop :=
  0 <= tb_offset t /\ 1 <= tb_size_kb t /\ tb_offset t + tb_size_kb t * 1024 < 2 ^ 63.

(** What the callers keep to, for [n] VFs. *)
Definition permitted (n : nat) (c : call) : Prop :=
  match c with
  | Generate _ banks => Forall good_bank banks /\ Z.of_nat (length banks) < 65536
  | GenerateRma => True
  | GetCount rptr => 0 <= rptr
  | GetEntries rptr buf buf_size => 0 <= rptr /\ 0 <= buf_size <= AMDGV_CPER_DUMP_MAX_BYTES /\ buf_size <= len buf
  | Dump vf vf_rptr => (vf < n)%nat /\ 0 <= vf_rptr
  | GuestLoad vf => (vf < n)%nat
  end.
Definition records (c : call) : nat :=
  match c with Generate _ banks => length banks | GenerateRma => 1 | _ => 0 end.

(** VF [vf] has capabilities [c] and sees no record numbered below [n]. *)
Definition sees_from (vf : nat) (c n : Z) (s : dump_state) : Prop :=
  exists ras, vfs (cper s) !! vf = Some ras /\ caps ras = c /\ n <= start_rptr ras.

(** Holds between calls. *)
Definition sound (log : list bytes) (s : dump_state) : Prop :=
  ring_ok 0 log None (cper s) /\ Forall table_ok (tables s) /\ length (vfs (cper s)) = length (tables s) /\
  Forall (fun ras => 0 <= start_rptr ras) (vfs (cper s)).

Lemma sound_cper log log' s c : sound log s -> ring_ok 0 log' None c -> vfs c = vfs (cper s) -> sound log' (s <| cper := c |>).
Proof. intros (_ & Ht & Hl & Hv) R Hvfs. split; [done|]. cbn. by rewrite Hvfs. Qed.

(** What one call keeps: the tables, what the VFs may see; it adds
    some records. *)
Definition kept (log : list bytes) (c : call) (s s' : dump_state) : Prop :=
  tables s' = tables s /\
  (forall vf cp n, 0 <= n <= Z.of_nat (length log) -> sees_from vf cp n s -> sees_from vf cp n s') /\
  exists new, (length new <= records c)%nat /\ sound (log ++ new) s'.

Lemma kept_cper log new c s cp : sound log s -> (length new <= records c)%nat -> ring_ok 0 (log ++ new) None cp ->
  vfs cp = vfs (cper s) -> kept log c s (s <| cper := cp |>).
Proof.
  intros Hs Hn R Hvfs. split_and!; [done| |exists new; split; [done|by eapply sound_cper]].
  intros vf c0 n _ (ras & Hras & H). exists ras. cbn. by rewrite Hvfs.
Qed.
Lemma kept_refl log c s : sound log s -> kept log c s s.
Proof. intros Hs. split_and!; [done|done|exists []; rewrite app_nil_r; split; [cbn; lia|done]]. Qed.

Lemma rptr_init_ok log vf s (Q : unit -> dump_state -> Prop) : sound log s -> (vf < length (tables s))%nat ->
  (forall s' ras, kept log (GuestLoad vf) s s' -> vfs (cper s) !! vf = Some ras ->
     sees_from vf (caps ras) (Z.of_nat (length log)) s' -> Q tt s') ->
  wp (amdgv_vfmgr_cper_rptr_init vf) Q s.
Proof.
  intros Hs Hvf HQ. pose proof Hs as (R & Ht & Hl & Hv). pose proof (ro_wptr _ _ _ _ R) as Hw.
  destruct (lookup_lt_is_Some_2 (vfs (cper s)) vf ltac:(lia)) as [ras Hras].
  unfold amdgv_vfmgr_cper_rptr_init. apply wp_bind, wp_gets, wp_bind. eapply wp_require; [exact Hras|]. apply wp_modify.
  eapply HQ; [|exact Hras|].
  - split_and!; [done| |].
    + intros vf' c n Hn (ras' & Hras' & Hc & Hle). cbn. destruct (decide (vf' = vf)) as [->|Hne].
      * exists (ras <| start_rptr := wptr (cper s) |> <| prev_host_wptr := 0 |>). cbn.
        rewrite list_lookup_insert_eq by lia. simplify_eq. split_and!; [done|done|cbn; lia].
      * exists ras'. cbn. by rewrite list_lookup_insert_ne.
    + exists []. split; [cbn; lia|]. rewrite app_nil_r. split; [by eapply ring_ok_ext|]. cbn.
      rewrite length_insert. split_and!; [done|done|]. apply list_insert_Forall; [done|]. cbn. lia.
  - eexists. cbn. rewrite list_lookup_insert_eq by lia. split_and!; [done|done|cbn; lia].
Qed.

Lemma perform_ok log c s : sound log s -> permitted (length (tables s)) c ->
  Z.of_nat (length log) + Z.of_nat (records c) < 2 ^ 64 ->
  wp (perform c) (fun _ => kept log c s) s.
Proof.
  intros Hs Hp Hn. pose proof Hs as (R & Ht & Hl & Hv). pose proof (ro_wptr _ _ _ _ R) as Hw.
  destruct c as [type banks| |rptr|rptr buf bsz|vf vr|vf]; cbn [perform permitted] in *.
  - destruct Hp as [Hb Hlb]. cbn [records] in Hn. apply wp_bind, wp_zoom.
    destruct (cper_records 0 log type banks (cper s) R Hlb ltac:(lia) Hb) as (r & c' & recs & Hrun & R' & Hvfs & Hlen).
    eapply wp_intro; [exact Hrun|]. apply wp_ret. by apply (kept_cper log recs).
  - cbn [records] in Hn. apply wp_bind, wp_zoom. eapply wp_mono; [apply (generate_rma_ok 0 log (cper s) R); lia|].
    intros r c' ((_ & _ & Hvfs) & [[-> R']|(-> & _ & rec & _ & _ & R' & _)]); apply wp_ret.
    + apply (kept_cper log []); [done|cbn; lia|by rewrite app_nil_r|done].
    + by apply (kept_cper log [rec]).
  - apply wp_bind, wp_zoom. eapply wp_mono; [by apply (get_count_ok 0 log None (cper s) R)|]. intros r c' [-> _].
    apply wp_ret. replace (s <| cper := cper s |>) with s by by destruct s. by apply kept_refl.
  - destruct Hp as (H1 & H2 & H3). apply wp_bind, wp_zoom.
    destruct (take_fit bsz (recs_from 0 (first_valid (cper s) rptr) log)) as [w rest] eqn:Hfit.
    eapply wp_mono; [by eapply (get_entries_ok 0 log None (cper s) R)|]. intros r c' [-> _].
    apply wp_ret. replace (s <| cper := cper s |>) with s by by destruct s. by apply kept_refl.
  - destruct Hp as [Hvf Hvr]. destruct (lookup_lt_is_Some_2 (tables s) vf Hvf) as [t Htb].
    destruct (lookup_lt_is_Some_2 (vfs (cper s)) vf ltac:(lia)) as [ras Hras].
    pose proof (Forall_lookup_1 _ _ _ _ Ht Htb) as (T1 & T2 & T3). pose proof (Forall_lookup_1 _ _ _ _ Hv Hras) as Hst. cbn in Hst.
    apply wp_bind. eapply wp_mono; [by eapply dump_cpers_ok|]. intros r s' (R' & Htab & Hsame & _). apply wp_ret.
    split_and!; [done| |].
    + intros vf' c n _ (ras' & Hras' & Hc & Hle). unfold sees_from.
      destruct Hsame as [[o ->]|(o & ras0 & pv & Hras0 & ->)]; [by exists ras'|]. cbn. destruct (decide (vf' = vf)) as [->|Hne].
      * exists (ras0 <| prev_host_wptr := pv |>). rewrite list_lookup_insert_eq by lia. simplify_eq. split; [done|]. by split.
      * exists ras'. by rewrite list_lookup_insert_ne.
    + exists []. split; [cbn; lia|]. rewrite app_nil_r. split; [done|]. rewrite Htab. split; [done|].
      destruct Hsame as [[o ->]|(o & ras' & pv & Hras' & ->)]; cbn; [done|]. rewrite length_insert. split; [done|].
      apply list_insert_Forall; [done|]. cbn. by simplify_eq.
  - unfold amdgv_vfmgr_cper_notify_event. apply wp_bind, wp_bind, wp_bind, wp_gets. apply wp_when.
    + intros _. eapply rptr_init_ok; [done|done|]. intros s' ras Hk _ _. by apply wp_ret, wp_ret.
    + intros _. apply wp_ret, wp_ret. by apply kept_refl.
Qed.

(** A whole history. *)
Lemma performs_ok cs log s : sound log s -> Forall (permitted (length (tables s))) cs ->
  Z.of_nat (length log) + Z.of_nat (sum_list_with records cs) < 2 ^ 64 ->
  wp (for_each cs perform) (fun _ s' => tables s' = tables s /\
    (forall vf cp n, 0 <= n <= Z.of_nat (length log) -> sees_from vf cp n s -> sees_from vf cp n s') /\
    exists new, sound (log ++ new) s') s.
Proof.
  revert log s. induction cs as [|x cs IH]; intros log s Hs Hp Hn; cbn [for_each sum_list_with] in *.
  { apply wp_ret. split_and!; [done|done|]. exists []. by rewrite app_nil_r. }
  apply Forall_cons in Hp as [Hx Hp]. apply wp_bind. eapply wp_mono; [apply (perform_ok log x s Hs Hx); lia|].
  intros [] s1 (Htab & Hsee & new & Hnew & Hs1).
  eapply wp_mono; [apply (IH (log ++ new)); [done|by rewrite Htab|rewrite length_app; lia]|].
  intros [] s2 (Htab2 & Hsee2 & new2 & Hs2). split_and!; [congruence| |].
  - intros vf cp n Hle Hold. apply Hsee2; [rewrite length_app; lia|]. by apply Hsee.
  - exists (new ++ new2). by rewrite app_assoc.
Qed.

(** C5: let records be logged from the guest's load on (the default policy).
    Whatever happens between the load of the guest of [vf] and its request,
    whatever position it asks for, and whether or not the copies succeed, all
    that is written lies in the guest's table, and it is the table's own
    fields or a piece of a record made after the load: a section whose
    registers the ASIC's decoder assigns to a block in the guest's
    capabilities, its descriptor without the serial number, or the record's
    header.  The records themselves are as before. *)
Theorem cper_dump_confined log vf cs vf_rptr s t ras (Hs : sound log s)
  (Hpol : opt_policy s = AMDGV_RAS_VF_TELEMETRY_LOG_ON_GUEST_LOAD)
  (Ht : tables s !! vf = Some t) (Hras : vfs (cper s) !! vf = Some ras) (Hv : 0 <= vf_rptr)
  (Hp : Forall (permitted (length (tables s))) cs)
  (Hn : Z.of_nat (length log) + Z.of_nat (sum_list_with records cs) < 2 ^ 64) :
  exists new s1 res s2,
    (_ ← perform (GuestLoad vf); for_each cs perform) s = Ret (tt, s1) /\ sound (log ++ new) s1 /\
    amdgv_vfmgr_dump_cpers vf vf_rptr s1 = Ret (res, s2) /\
    heap (cper s2) = heap (cper s1) /\ ring (cper s2) = ring (cper s1) /\ wptr (cper s2) = wptr (cper s1) /\
    exists ws, xchg_writes s2 = xchg_writes s1 ++ ws /\
      Forall (fun w => within vf (tb_offset t + 44) (tb_offset t + tb_size_kb t * 1024)
                (fun d => exists r, r ∈ new /\ guest_piece (caps ras) r d) w \/ table_fields vf t w) ws.
Proof.
  pose proof (lookup_lt_Some _ _ _ Ht) as Hvf.
  assert (wp (_ ← perform (GuestLoad vf); for_each cs perform) (fun _ s1 => tables s1 = tables s /\
    sees_from vf (caps ras) (Z.of_nat (length log)) s1 /\ exists new, sound (log ++ new) s1) s) as Hw.
  { apply wp_bind. cbn [perform]. unfold amdgv_vfmgr_cper_notify_event. apply wp_bind, wp_bind, wp_bind, wp_gets.
    rewrite Hpol. cbn [when]. unfold AMDGV_RAS_VF_TELEMETRY_LOG_ON_GUEST_LOAD. rewrite Z.eqb_refl.
    eapply rptr_init_ok; [done|done|]. intros s0 ras0 (Htab & _ & new0 & Hnew0 & Hs0) Hras0 Hsee. simplify_eq.
    apply wp_ret, wp_ret. destruct new0; [|cbn in Hnew0; lia]. rewrite app_nil_r in Hs0.
    eapply wp_mono; [apply (performs_ok cs log s0); [done|by rewrite Htab|done]|].
    intros [] s1 (Htab1 & Hsee1 & new & Hs1). split_and!; [congruence|apply Hsee1; [lia|done]|by exists new]. }
  apply wp_returns in Hw as ([] & s1 & Hrun & Htab & (ras1 & Hras1 & Hc & Hle) & new & Hs1).
  pose proof Hs1 as (R1 & Htb & _ & Hst). rewrite Htab in Htb. pose proof (Forall_lookup_1 _ _ _ _ Htb Ht) as (T1 & T2 & T3).
  pose proof (Forall_lookup_1 _ _ _ _ Hst Hras1) as Hst1. cbn in Hst1.
  pose proof (dump_cpers_ok 0 (log ++ new) vf t ras1 vf_rptr s1 R1 ltac:(by rewrite Htab) Hras1 Hst1 Hv T1 T2 T3) as Hw.
  apply wp_returns in Hw as (res & s2 & Hr & _ & _ & Hsame & ws & Hws & Hall). exists new, s1, res, s2.
  split_and!; [done|done|done|by destruct Hsame as [[o ->]|(o & r & pv & _ & ->)]..|].
  exists ws. split; [done|]. eapply Forall_impl; [exact Hall|]. intros w [Hwn|Hf]; [left|by right].
  eapply within_mono; [exact Hwn|lia|lia|]. intros d (i & r & Hi & _ & Hlk & Hg). exists r. rewrite Hc in Hg. split; [|done].
  rewrite lookup_app_r in Hlk by lia. by eapply list_elem_of_lookup_2.
Qed.

(** C11: after initialisation, every history of records made, read by the host
    and dumped to guests runs without touching freed memory or a byte outside
    of a record or buffer, and keeps the ring sound: each record allocated is
    in the ring once.  Unloading then frees them all. *)
Theorem cper_history_safe opt s cs (Ho : 0 <= opt) (Hz : zeroed (cper s)) (Ht : Forall table_ok (tables s))
  (Hl : length (vfs (cper s)) = length (tables s)) (Hv : Forall (fun ras => 0 <= start_rptr ras) (vfs (cper s)))
  (Hp : Forall (permitted (length (tables s))) cs) (Hn : Z.of_nat (sum_list_with records cs) < 2 ^ 64) :
  exists s', (_ ← on_cper (amdgv_cper_sw_init opt); for_each cs perform) s = Ret (tt, s') /\
    (exists log, ring_ok 0 log None (cper s')) /\
    exists c, amdgv_cper_sw_fini (cper s') = Ret (0, c) /\ heap c = ∅ /\ Forall (fun e => e = None) (ring c).
Proof.
  enough (wp (_ ← on_cper (amdgv_cper_sw_init opt); for_each cs perform) (fun _ s' => exists log, sound log s') s) as Hw.
  { apply wp_returns in Hw as ([] & s' & Hrun & log & (R & _)). exists s'. split; [done|]. split; [by exists log|].
    pose proof (sw_fini_ok 0 log (cper s') R) as Hf. apply wp_returns in Hf as (r & c & Hr & -> & Hh & Hring & _).
    by exists c. }
  apply wp_bind, wp_zoom. eapply wp_mono; [by apply sw_init_ok|]. intros r c (_ & _ & Hvfs & _ & R).
  set (s0 := s <| cper := c |>). assert (sound [] s0) as Hs.
  { split; [done|]. subst s0. cbn. by rewrite Hvfs. }
  eapply wp_mono; [apply (performs_ok cs [] s0 Hs); [done|cbn; lia]|].
  intros [] s1 (_ & _ & new & Hs1). by exists new.
Qed.
End claims.

(** ** Witnesses: a board, two banks and one guest that may see every block *)

Definition demo_board : CperEnv := {|
  socket_id := 1; phy_node_id := 5; smu_fw_version := 0x557B00; vendor_id := 0x1002; dev_id := 0x74A1; pldm_version := 3;
  product_serial := [54; 57; 50]; vsnprintf := fun _ _ => [49; 58; 50]; utc_time := fun _ => 1709210096;
|}.
Definition demo_os : OssEnv := env_of 0 1 [] [].
Definition demo_xchg : XchgEnv := {| xchg_ok := fun _ => true; decode_block := fun _ => Some 2 |}.
Lemma demo_sane : CperSane demo_board.
Proof.
  split; [intros n; split; [done|by vm_compute]|]. intros f args. cbn. repeat constructor; done.
Qed.

Definition demo_bank (t : amdgv_mca_error_type) (v : Z) : mca_bank_entry :=
  mk_bank t [v; v + 1; v + 2; v + 3; v + 4; v + 5; v + 6; 0; v + 8; v + 9; v + 10; 0; 0; 0; 0; 0].
Lemma demo_bank_good t v : 0 <= v < 2 ^ 63 -> good_bank (demo_bank t v).
Proof. intros Hv. split; [done|]. unfold in_width. repeat constructor; lia. Qed.
Definition demo_banks : list mca_bank_entry :=
  [demo_bank AMDGV_MCA_ERROR_TYPE_CE 0x123456789ABC; demo_bank AMDGV_MCA_ERROR_TYPE_DE 7].
Lemma demo_banks_good : Forall good_bank demo_banks.
Proof. repeat apply Forall_cons_2; try apply Forall_nil_2; apply demo_bank_good; lia. Qed.

Definition demo_start (opt : Z) : amdgv_cper :=
  mk_cper false 0 0 0 0 (replicate (Z.to_nat AMDGV_CPER_MAX_ALLOWED_COUNT) None) ∅ 0 0 oss_boot [mk_vf_ras 0xFFFFF 0 0].
Definition demo_ready : amdgv_cper := (demo_start 8) <| max_count := 8 |> <| enabled := true |>.
Lemma demo_ready_ok : ring_ok 0 [] None demo_ready.
Proof. apply (ring_ok_empty demo_ready); cbn; unfold AMDGV_CPER_MAX_ALLOWED_COUNT; done || lia. Qed.

Lemma cper_bank_roundtrip_witness : exists s' rec,
  @amdgv_mca_generate_cpers demo_board demo_os AMDGV_MCA_ERROR_TYPE_CE demo_banks demo_ready = Ret (0, s') /\
  ring_ok 0 [rec] None s' /\ stores runtime_cells rec 1 (demo_bank AMDGV_MCA_ERROR_TYPE_DE 7) /\
  @amdgv_mca_get_runtime_bank_from_cper_section 1 (replicate 16 0) rec = Ret ([7; 8; 9; 10; 11; 12; 13; 0; 0; 0; 0; 0; 0; 0; 0; 0], rec).
Proof.
  destruct (@cper_bank_roundtrip demo_board demo_os demo_sane 0 [] AMDGV_MCA_ERROR_TYPE_CE demo_banks demo_ready demo_ready_ok
    ltac:(cbn; lia) ltac:(cbn; lia) demo_banks_good) as (r & s' & recs & Hrun & R & _ & H0 & Hread).
  assert (match @amdgv_mca_generate_cpers demo_board demo_os AMDGV_MCA_ERROR_TYPE_CE demo_banks demo_ready with
          | Ret (r, _) => r = 0 | Fault => False end) as Hr by (vm_compute; reflexivity).
  rewrite Hrun in Hr. subst r. destruct (H0 eq_refl) as [?|(rec & -> & _)]; [discriminate|].
  exists s', rec. split; [exact Hrun|]. split; [exact R|].
  destruct (Hread 1%nat rec (demo_bank AMDGV_MCA_ERROR_TYPE_DE 7) eq_refl eq_refl) as (Hst & _ & Hrd).
  change (Z.of_nat 1) with 1 in Hrd. unfold MCA_REG_IDX_COUNT at 1 in Hrd. split; [|rewrite Hrd].
  - exact Hst.
  - repeat (apply Forall_cons in Hst as [? Hst]; cbn [fst snd] in * ). cbn [restored runtime_cells take fmap list_fmap seq
      MCA_REG_IDX_COUNT List.find snd Nat.eqb MCA_REG_IDX_CTL MCA_REG_IDX_STATUS MCA_REG_IDX_ADDR MCA_REG_IDX_MISC0
      MCA_REG_IDX_CONFIG MCA_REG_IDX_IPID MCA_REG_IDX_SYND]. repeat match goal with H : reg_cell rec 1 ?k = _ |- _ => rewrite H; clear H end. reflexivity.
Defined.

Lemma cper_entries_refine_witness : exists recs s',
  ring_ok 0 recs None s' /\
  match take_fit 900 (recs_from 0 (first_valid s' 0) recs) with
  | (w, rest) => @amdgv_cper_get_entries 0 (replicate 900 0) 900 s' =
      Ret ((Z.of_nat (length w), first_valid s' 0 - Z.min 0 (wptr s'), total_len rest, st 0 (concat w) (replicate 900 0)), s')
  end /\
  match @amdgv_cper_get_entries 0 (replicate 900 0) 900 s' with Ret (wc, _, lft, _, _) => wc = 1 /\ lft = 0 | Fault => False end.
Proof.
  destruct (@cper_records demo_board demo_os demo_sane 0 [] AMDGV_MCA_ERROR_TYPE_CE demo_banks demo_ready demo_ready_ok
    ltac:(cbn; lia) ltac:(cbn; lia) demo_banks_good) as (r & s' & recs & Hrun & R & _).
  exists recs, s'. split; [exact R|]. split.
  - pose proof (@cper_entries_refine 0 recs None s' 0 (replicate 900 0) 900 R ltac:(lia)
      ltac:(unfold AMDGV_CPER_DUMP_MAX_BYTES, AMDGV_CPER_MAX_ALLOWED_COUNT, AMDGV_CPER_MAX_RECORD_LEN; lia) ltac:(vm_compute; discriminate)) as H.
    cbv zeta in H. destruct (take_fit 900 (recs_from 0 (first_valid s' 0) recs)) as [w rest]. exact (proj1 H).
  - assert (match @amdgv_mca_generate_cpers demo_board demo_os AMDGV_MCA_ERROR_TYPE_CE demo_banks demo_ready with
            | Ret (_, t) => match @amdgv_cper_get_entries 0 (replicate 900 0) 900 t with
                            | Ret (wc, _, lft, _, _) => wc = 1 /\ lft = 0 | Fault => False end
            | Fault => False end) as Hx by (vm_compute; split; reflexivity).
    rewrite Hrun in Hx. exact Hx.
Defined.

Definition demo_host (c : amdgv_cper) : dump_state := mk_dump c false 0 [mk_table 4096 64] 0 [].
Lemma demo_table_ok : table_ok (mk_table 4096 64).
Proof. repeat split; cbn; lia. Qed.

(** A guest is loaded, two errors are logged, and it asks for the records. *)
Definition demo_loaded : dump_state := demo_host demo_ready.
Lemma demo_loaded_sound : sound [] demo_loaded.
Proof.
  split; [exact demo_ready_ok|]. split; [apply Forall_cons_2; [exact demo_table_ok|apply Forall_nil_2]|].
  split; [reflexivity|]. apply Forall_cons_2; [cbn; lia|apply Forall_nil_2].
Qed.

Lemma cper_dump_confined_witness : exists s1 s2 res new,
  (_ ← @perform demo_board demo_os demo_xchg (GuestLoad 0);
   for_each [Generate AMDGV_MCA_ERROR_TYPE_CE demo_banks] (@perform demo_board demo_os demo_xchg)) demo_loaded = Ret (tt, s1) /\
  sound new s1 /\
  @amdgv_vfmgr_dump_cpers demo_os demo_xchg 0 0 s1 = Ret (res, s2) /\
  length (xchg_writes s2) = 7%nat /\ heap (cper s2) = heap (cper s1).
Proof.
  assert (match (_ ← @perform demo_board demo_os demo_xchg (GuestLoad 0);
     for_each [Generate AMDGV_MCA_ERROR_TYPE_CE demo_banks] (@perform demo_board demo_os demo_xchg)) demo_loaded with
    | Ret (_, s1) => match @amdgv_vfmgr_dump_cpers demo_os demo_xchg 0 0 s1 with
        | Ret (_, s2) => length (xchg_writes s2) = 7%nat | Fault => False end
    | Fault => False end) as Hx by (vm_compute; reflexivity).
  destruct (@cper_dump_confined demo_board demo_os demo_xchg demo_sane [] 0%nat [Generate AMDGV_MCA_ERROR_TYPE_CE demo_banks] 0
    demo_loaded (mk_table 4096 64) (mk_vf_ras 0xFFFFF 0 0) demo_loaded_sound eq_refl eq_refl eq_refl ltac:(lia)
    ltac:(apply Forall_cons_2; [split; [exact demo_banks_good|cbn; lia]|apply Forall_nil_2]) ltac:(cbn; lia))
    as (new & s1 & res & s2 & Hrun & Hs1 & Hd & Hh & _).
  exists s1, s2, res, new. rewrite Hrun in Hx. rewrite Hd in Hx.
  split; [exact Hrun|]. split; [exact Hs1|]. split; [exact Hd|]. split; [exact Hx|exact Hh].
Defined.

Definition demo_calls : list call :=
  [Generate AMDGV_MCA_ERROR_TYPE_CE demo_banks; GetEntries 0 (replicate 900 0) 900; Dump 0 0; GuestLoad 0;
   Generate AMDGV_MCA_ERROR_TYPE_UE demo_banks; GetCount 99; GenerateRma; Dump 0 (2 ^ 64 - 1)].

Lemma cper_history_safe_witness : exists s' c,
  (_ ← on_cper (amdgv_cper_sw_init 2); for_each demo_calls (@perform demo_board demo_os demo_xchg)) (demo_host (demo_start 0)) = Ret (tt, s') /\
  amdgv_cper_sw_fini (cper s') = Ret (0, c) /\ heap c = ∅.
Proof.
  destruct (@cper_history_safe demo_board demo_os demo_xchg demo_sane 2 (demo_host (demo_start 0)) demo_calls) as (s' & Hrun & _ & c & Hf & Hh & _).
  - lia.
  - split; [reflexivity|split; reflexivity].
  - apply Forall_cons_2; [exact demo_table_ok|apply Forall_nil_2].
  - reflexivity.
  - apply Forall_cons_2; [cbn; lia|apply Forall_nil_2].
  - repeat apply Forall_cons_2; try apply Forall_nil_2; cbn [permitted length tables demo_host]; try lia; try exact I.
    + split; [exact demo_banks_good|cbn; lia].
    + split; [lia|]. split; [unfold AMDGV_CPER_DUMP_MAX_BYTES, AMDGV_CPER_MAX_ALLOWED_COUNT, AMDGV_CPER_MAX_RECORD_LEN; lia|vm_compute; discriminate].
    + split; [exact demo_banks_good|cbn; lia].
  - cbn. lia.
  - exists s', c. split; [exact Hrun|]. split; [exact Hf|exact Hh].
Defined.
