(* ===== verification/BadPage.v ===== *)
(** * Bad pages (src/libgv/core/amdgv_umc.c)

    Memory errors retire pages of the frame buffer.  The driver keeps the
    records as the EEPROM holds them ([rom_data]), the pages these stand for
    ([bps]: one record may name a row of pages) and the pages' addresses in
    order ([sorted_bps]), which range queries search.  Arrays are lists with
    as many elements as were asked for, without the padding of some of the
    allocations; [None] is a NULL pointer.  Records are passed by value: the
    caller's array, whose pages the code normalises in place, is not kept. *)
From S2P Require Import Prelude Api Oss.
#[local] Open Scope Z_scope.

Definition AMDGV_GPU_PAGE_SHIFT : Z := 12.
Definition AMDGV_GPU_PAGE_SIZE : Z := 4096.
Definition AMDGV_RAS_INV_MEM_PFN : Z := 2 ^ 64 - 1.
Definition EEPROM_TABLE_VER_V3 : Z := 196608. (* 0x00030000 *)
Definition AMDGV_MEMORY_PARTITION_MODE_UNKNOWN : Z := 0.
Definition UMC_NPS_SHIFT : Z := 40.
Definition UMC_NPS_MASK : Z := 255.

(** One record: a packed struct of the EEPROM. *)
Record eeprom_table_record := mk_rec {
  address : Z;
  retired_page : Z;
  ts : Z;
  err_type : Z;
  cu : Z;
  mem_channel : Z;
  mcumc_id : Z;
}.
#[export] Instance eta_record : Eta eeprom_table_record := fun r =>
  mk_rec (address r) (retired_page r) (ts r) (err_type r) (cu r) (mem_channel r) (mcumc_id r).
Definition zero_record : eeprom_table_record := mk_rec 0 0 0 0 0 0 0.

Record eeprom_data_record := mk_rom {
  rom_bps : option (list eeprom_table_record);
  rom_count : Z;
  rom_cap : Z;
  num_recs_synced : Z;
}.
#[export] Instance eta_rom : Eta eeprom_data_record := fun r =>
  mk_rom (rom_bps r) (rom_count r) (rom_cap r) (num_recs_synced r).

(** Without [nps_mode], which only the lists across modes use. *)
Record ras_err_handler_data := mk_data {
  rom_data : eeprom_data_record;
  bps : option (list eeprom_table_record);
  bps_mem : option (list (option nat));   (* the reservation of each page *)
  count : Z;
  last_reserved : Z;
  bps_cap : Z;
  sorted_bps : option (list Z);
  sorted_bp_count : Z;
  sorted_bps_cap : Z;
  last_retired_pfn : Z;
  bp_replace_pending : bool;
}.
#[export] Instance eta_data : Eta ras_err_handler_data := fun r =>
  mk_data (rom_data r) (bps r) (bps_mem r) (count r) (last_reserved r) (bps_cap r) (sorted_bps r)
    (sorted_bp_count r) (sorted_bps_cap r) (last_retired_pfn r) (bp_replace_pending r).

(** The fields of the adapter that change. *)
Record bad_pages := mk_bad_pages {
  eh_data : option ras_err_handler_data;
  err_addr : option (list eeprom_table_record);  (* umc.err_addr *)
  max_ras_err_cnt_per_query : Z;                 (* its capacity *)
  nps : option Z;                                (* what reading the NPS mode gives *)
  bp_oss : oss_state;
}.
#[export] Instance eta_bad_pages : Eta bad_pages := fun r =>
  mk_bad_pages (eh_data r) (err_addr r) (max_ras_err_cnt_per_query r) (nps r) (bp_oss r).

(** What initialisation settled, the ASIC's functions ([None] where the table
    of functions has none), and what fresh memory holds. *)
Class UmcEnv := {
  skip_bad_page_ops : bool;
  bad_page_record_threshold : Z;
  max_record_num : Z;
  is_pmfw_managed_eeprom : bool;
  eeprom_version : Z;
  total_fb_avail : Z;
  mc_fb_loc_addr : Z;
  mc_base : Z;                 (* memmgr_pf.mc_base *)
  phy_nodes_num : Z;
  phy_node_id : Z;
  node_segment_size : Z;
  has_nps_mode : bool;
  eeprom_record_to_soc_pa : option (eeprom_table_record -> Z);
  eeprom_record_to_pages : option (eeprom_table_record -> option (list Z));
  utc_to_eeprom_format : Z -> Z;
  fresh_record : eeprom_table_record;
  fresh_word : Z;
}.

Definition set_nps_to_pa (pa n : Z) : Z :=
  Z.lor (Z.land pa (u64 (Z.lnot (Z.shiftl UMC_NPS_MASK UMC_NPS_SHIFT)))) (u64 (Z.shiftl n UMC_NPS_SHIFT)).
Definition get_nps_from_pa (pa : Z) : Z := Z.land (Z.shiftr pa UMC_NPS_SHIFT) UMC_NPS_MASK.
(** The page without the mode in its upper bits. *)
Abbreviation plain := (fun pa => set_nps_to_pa pa AMDGV_MEMORY_PARTITION_MODE_UNKNOWN).

Section bad_pages.
Context {E : OssEnv} {U : UmcEnv}.

Definition BAD_PAGE_RECORD_THRESHOLD : Z :=
  if bad_page_record_threshold =? 0 then 10 else bad_page_record_threshold.

Definition oss {A} (m : M oss_state A) : M bad_pages A := zoom bp_oss (fun o s => s <| bp_oss := o |>) m.

Definition data_of : M bad_pages ras_err_handler_data := o ← gets eh_data; require o.
Definition upd_data (f : ras_err_handler_data -> ras_err_handler_data) : M bad_pages unit :=
  d ← data_of; modify (fun s => s <| eh_data := Some (f d) |>).

Definition has_sorted (d : ras_err_handler_data) : bool := match sorted_bps d with Some _ => true | None => false end.

(** ** Growing an array *)

(** The arrays [amdgv_umc_update_bp_buff] is called with. *)
Inductive bp_buffer := RomBps | Bps | ErrAddr.

Definition buffer_of (b : bp_buffer) : M bad_pages (option (list eeprom_table_record) * Z) :=
  match b with
  | RomBps => d ← data_of; mret (rom_bps (rom_data d), rom_cap (rom_data d))
  | Bps => d ← data_of; mret (bps d, bps_cap d)
  | ErrAddr => gets (fun s => (err_addr s, max_ras_err_cnt_per_query s))
  end.
Definition set_buffer (b : bp_buffer) (buf : list eeprom_table_record) (cap : Z) : M bad_pages unit :=
  match b with
  | RomBps => upd_data (fun d => d <| rom_data := (rom_data d) <| rom_bps := Some buf |> <| rom_cap := cap |> |>)
  | Bps => upd_data (fun d => d <| bps := Some buf |> <| bps_cap := cap |>)
  | ErrAddr => modify (fun s => s <| err_addr := Some buf |> <| max_ras_err_cnt_per_query := cap |>)
  end.

(** The new array has twice the elements; [fresh] is what the allocator leaves
    in those that are not copied. *)
Definition amdgv_umc_grow_bp_buff {A} (fresh : A) (buff : option (list A)) (cap : Z) :
    M bad_pages (option (list A * Z)) :=
  match buff with
  | None => mret None
  | Some b =>
      let new_cap := u32 (Z.shiftl cap 1) in
      ok ← oss oss_alloc;
      if negb ok then mret None else
      _ ← demand ((cap <=? Z.of_nat (length b)) && (cap <=? new_cap));
      _ ← oss oss_free;
      mret (Some (take (Z.to_nat cap) b ++ replicate (Z.to_nat (new_cap - cap)) fresh, new_cap))
  end.

Fixpoint grow_loop (fuel : nat) (b : bp_buffer) (pages : Z) : M bad_pages bool :=
  '(buf, cap) ← buffer_of b;
  if pages <? cap then mret true else
  match fuel with
  | O => fault
  | S fuel =>
      new ← amdgv_umc_grow_bp_buff fresh_record buf cap;
      match new with
      | None => mret false
      | Some (buf, cap) => _ ← set_buffer b buf cap; grow_loop fuel b pages
      end
  end.

Definition GROW_FUEL : nat := 33.

Definition amdgv_umc_update_bp_buff (b : bp_buffer) (pages : Z) : M bad_pages Z :=
  '(buf, original_cap) ← buffer_of b;
  match buf with
  | None => mret AMDGV_FAILURE
  | Some _ =>
      ok ← grow_loop GROW_FUEL b pages;
      if negb ok then mret AMDGV_FAILURE else
      '(_, cap) ← buffer_of b;
      data ← gets eh_data;
      match data with
      | Some d =>
          if has_sorted d && (original_cap <? cap) && (match b with ErrAddr => false | _ => true end) then
            new ← amdgv_umc_grow_bp_buff fresh_word (sorted_bps d) cap;
            match new with
            | None => mret AMDGV_FAILURE
            | Some (l, c) => _ ← upd_data (fun d => d <| sorted_bps := Some l |> <| sorted_bps_cap := c |>); mret 0
            end
          else mret 0
      | None => mret 0
      end
  end.

(** ** The sorted array *)

(** The page frame in the address space of the memory controller. *)
Definition mc_page (page_addr : Z) : Z :=
  let mc_addr := u64 (u64 (Z.shiftl page_addr AMDGV_GPU_PAGE_SHIFT) + mc_fb_loc_addr) in
  let mc_addr := if 1 <? phy_nodes_num then u64 (mc_addr + u64 (phy_node_id * node_segment_size)) else mc_addr in
  Z.shiftr mc_addr AMDGV_GPU_PAGE_SHIFT.

(** [None]: the page is there already. *)
Fixpoint insert_search (fuel : nat) (l : list Z) (page_addr left right insert_pos : Z) : M bad_pages (option Z) :=
  if left <=? right then
    match fuel with
    | O => fault
    | S fuel =>
        let mid := (left + right) / 2 in
        x ← require (l !! Z.to_nat mid);
        if x =? page_addr then mret None else
        if x <? page_addr then insert_search fuel l page_addr (mid + 1) right insert_pos
        else insert_search fuel l page_addr left (mid - 1) mid
    end
  else mret (Some insert_pos).

(** [n] elements, the last of which is at [i - 1], move up by one. *)
Fixpoint shift_up (n : nat) (i : Z) (l : list Z) : M bad_pages (list Z) :=
  match n with
  | O => mret l
  | S n =>
      x ← require (l !! Z.to_nat (i - 1));
      _ ← require (l !! Z.to_nat i);
      shift_up n (i - 1) (<[Z.to_nat i := x]> l)
  end.

Definition amdgv_umc_insert_sorted_bad_page (page_addr : Z) : M bad_pages Z :=
  d ← data_of;
  match sorted_bps d with
  | None => mret AMDGV_FAILURE
  | Some l =>
      let n := sorted_bp_count d in
      if sorted_bps_cap d <=? n then mret AMDGV_FAILURE else
      let page_addr := mc_page page_addr in
      pos ← insert_search (S (Z.to_nat n)) l page_addr 0 (n - 1) n;
      match pos with
      | None => mret 0
      | Some pos =>
          l ← shift_up (Z.to_nat (n - pos)) n l;
          _ ← require (l !! Z.to_nat pos);
          _ ← upd_data (fun d => d <| sorted_bps := Some (<[Z.to_nat pos := page_addr]> l) |> <| sorted_bp_count := n + 1 |>);
          mret 0
      end
  end.

(** ** Records *)

(** An array element is overwritten by a copy of [r]. *)
Definition store (buf : option (list eeprom_table_record)) (i : Z) (r : eeprom_table_record) :
    M bad_pages (list eeprom_table_record) :=
  l ← require buf;
  _ ← require (l !! Z.to_nat i);
  mret (<[Z.to_nat i := r]> l).

Definition amdgv_umc_update_eeprom_rom_data (r : eeprom_table_record) : M bad_pages Z :=
  d ← data_of;
  ret ← amdgv_umc_update_bp_buff RomBps (u32 (rom_count (rom_data d) + 1));
  if negb (ret =? 0) then mret AMDGV_FAILURE else
  d ← data_of;
  l ← store (rom_bps (rom_data d)) (rom_count (rom_data d)) r;
  _ ← upd_data (fun d => d <| rom_data := (rom_data d) <| rom_bps := Some l |> <| rom_count := rom_count (rom_data d) + 1 |> |>);
  mret 0.

Fixpoint ram_loop (recs : list eeprom_table_record) : M bad_pages unit :=
  match recs with
  | [] => mret tt
  | r :: recs =>
      d ← data_of;
      l ← store (bps d) (count d) r;
      _ ← upd_data (fun d => d <| bps := Some l |> <| count := count d + 1 |>);
      _ ← amdgv_umc_insert_sorted_bad_page (retired_page r);
      ram_loop recs
  end.

(** The records of the pages that [r] stands for; a count that is not positive
    is an error. *)
Definition pages_of (r : eeprom_table_record) : option (list eeprom_table_record) :=
  match eeprom_record_to_pages with
  | None => Some [r]
  | Some f =>
      match f r with
      | Some ((_ :: _) as ps) => Some (map (fun p => r <| retired_page := p |>) ps)
      | _ => None
      end
  end.

(** The page numbers are written to an array of 16. *)
Definition amdgv_umc_update_eeprom_ram_data (r : eeprom_table_record) : M bad_pages Z :=
  match pages_of r with
  | None => mret AMDGV_FAILURE
  | Some recs =>
      _ ← demand (Z.of_nat (length recs) <=? 16);
      d ← data_of;
      ret ← amdgv_umc_update_bp_buff Bps (u32 (count d + Z.of_nat (length recs)));
      if negb (ret =? 0) then mret AMDGV_FAILURE else
      _ ← ram_loop recs;
      mret 0
  end.

(** Whether the record is skipped, and the record, whose page is normalised. *)
Definition amdgv_umc_check_invalid_bp (r : eeprom_table_record) (from_eeprom : bool) :
    M bad_pages (bool * eeprom_table_record) :=
  if from_eeprom && (ts r =? 0) then mret (true, r) else
  let r := if from_eeprom then
             match eeprom_record_to_soc_pa with
             | None => r
             | Some f => r <| retired_page := if eeprom_version =? EEPROM_TABLE_VER_V3
                                              then set_nps_to_pa (f r) (get_nps_from_pa (retired_page r)) else f r |>
             end
           else r in
  if negb (total_fb_avail =? 0) &&
     (MBYTES_TO_BYTES total_fb_avail <=? u64 (Z.shiftl (plain (retired_page r)) AMDGV_GPU_PAGE_SHIFT))
  then mret (true, r) else
  if negb from_eeprom || is_pmfw_managed_eeprom then
    d ← data_of;
    l ← (if rom_count (rom_data d) =? 0 then mret [] else require (rom_bps (rom_data d)));
    _ ← demand (rom_count (rom_data d) <=? Z.of_nat (length l));
    mret (existsb (fun x => plain (retired_page x) =? plain (retired_page r)) (take (Z.to_nat (rom_count (rom_data d))) l), r)
  else mret (false, r).

Fixpoint add_loop (recs : list eeprom_table_record) (mode : Z) (from_eeprom : bool) : M bad_pages Z :=
  match recs with
  | [] => mret 0
  | r :: recs =>
      d ← data_of;
      if max_record_num <=? count d then mret AMDGV_FAILURE else
      '(skip, r) ← amdgv_umc_check_invalid_bp r from_eeprom;
      if (skip : bool) then add_loop recs mode from_eeprom else
      let r := if is_pmfw_managed_eeprom || negb from_eeprom && (eeprom_version =? EEPROM_TABLE_VER_V3)
               then r <| retired_page := set_nps_to_pa (retired_page r) mode |> else r in
      ret ← amdgv_umc_update_eeprom_rom_data r;
      if negb (ret =? 0) then mret ret else
      d ← data_of;
      if plain (last_retired_pfn d) =? plain (retired_page r) then add_loop recs mode from_eeprom else
      _ ← upd_data (fun d => d <| last_retired_pfn := retired_page r |>);
      ret ← amdgv_umc_update_eeprom_ram_data r;
      if negb (ret =? 0) then mret ret else add_loop recs mode from_eeprom
  end.

(** [recs]: the array and the number of its elements, [None] for NULL. *)
Definition amdgv_umc_add_bad_pages (recs : option (list eeprom_table_record)) (from_eeprom : bool) : M bad_pages Z :=
  data ← gets eh_data;
  mode ← gets nps;
  if skip_bad_page_ops then mret 0 else
  match recs, data with
  | Some ((_ :: _) as recs), Some _ =>
      if has_nps_mode then
        match mode with None => mret 0 | Some n => add_loop recs n from_eeprom end
      else add_loop recs AMDGV_MEMORY_PARTITION_MODE_UNKNOWN from_eeprom
  | _, _ => mret 0
  end.

(** A new error is put behind the [cnt] errors of this query; the new count. *)
Definition amdgv_umc_fill_error_record (cnt err_address page channel_index umc_inst : Z) : M bad_pages Z :=
  ret ← amdgv_umc_update_bp_buff ErrAddr (u32 cnt);
  if negb (ret =? 0) then mret cnt else
  if max_record_num <=? cnt then mret cnt else
  now ← oss oss_get_time_stamp;
  s ← gets id;
  l ← store (err_addr s) cnt
    (mk_rec err_address (Z.shiftr page AMDGV_GPU_PAGE_SHIFT) (utc_to_eeprom_format now) 2 0 (u8 channel_index) (u8 umc_inst));
  _ ← modify (fun s => s <| err_addr := Some l |>);
  mret (cnt + 1).

(** ** Queries *)

Definition amdgv_umc_badpages_count_read : M bad_pages Z :=
  gets (fun s => match eh_data s with None => 0 | Some d => count d end).

(** The record is written only when there is one of this index. *)
Definition amdgv_umc_get_badpages_record (index : Z) : M bad_pages (Z * option eeprom_table_record) :=
  data ← gets eh_data;
  match data with
  | None => mret (0, None)
  | Some d =>
      if negb (count d =? 0) && (index <? count d) then
        l ← require (bps d); r ← require (l !! Z.to_nat index); mret (0, Some r)
      else mret (if count d <=? index then AMDGV_FAILURE else 0, None)
  end.

(** [struct ras_badpage]: a page with whether it is reserved (0), will be (1)
    or could not be (2). *)
Record ras_badpage := mk_badpage { bp : Z; bp_size : Z; bp_flags : Z }.

Definition badpage_of (d : ras_err_handler_data) (i : nat) (r : eeprom_table_record) : M bad_pages ras_badpage :=
  if last_reserved d <=? Z.of_nat i then mret (mk_badpage (u32 (retired_page r)) AMDGV_GPU_PAGE_SIZE 1) else
  l ← require (bps_mem d);
  m ← require (l !! i);
  mret (mk_badpage (u32 (retired_page r)) AMDGV_GPU_PAGE_SIZE (match m with None => 2 | Some _ => 0 end)).

Fixpoint read_loop (d : ras_err_handler_data) (n i : nat) : M bad_pages (list ras_badpage) :=
  match n with
  | O => mret []
  | S n =>
      l ← require (bps d); r ← require (l !! i);
      x ← badpage_of d i r;
      xs ← read_loop d n (S i);
      mret (x :: xs)
  end.

(** The result array is the caller's to free. *)
Definition amdgv_umc_badpages_read : M bad_pages (Z * option (list ras_badpage)) :=
  data ← gets eh_data;
  match data with
  | None => mret (0, None)
  | Some d =>
      if count d =? 0 then mret (0, None) else
      ok ← oss oss_alloc;
      if negb ok then mret (AMDGV_FAILURE, None) else
      l ← read_loop d (Z.to_nat (count d)) 0;
      mret (0, Some l)
  end.

Definition amdgv_umc_check_bad_page (addr : Z) : M bad_pages bool :=
  data ← gets eh_data;
  match data with
  | None => mret false
  | Some d =>
      let xgmi_offset := u64 (phy_node_id * node_segment_size) in
      let local_addr := if (1 <? phy_nodes_num) && (xgmi_offset <=? addr) then addr - xgmi_offset else addr in
      let page_addr := Z.shiftr local_addr AMDGV_GPU_PAGE_SHIFT in
      l ← (if count d =? 0 then mret [] else require (bps d));
      _ ← demand (count d <=? Z.of_nat (length l));
      mret (existsb (fun r => page_addr =? retired_page r) (take (Z.to_nat (count d)) l))
  end.

Definition amdgv_umc_is_bp_in_range (err_addr offset size : Z) : bool :=
  let err_addr_begin := Z.land err_addr (u64 (Z.lnot (AMDGV_GPU_PAGE_SIZE - 1))) in
  let err_addr_end := Z.lor err_addr_begin (AMDGV_GPU_PAGE_SIZE - 1) in
  (offset <=? err_addr_begin) && (err_addr_end <? u64 (offset + size)).

(** The address of a page frame. *)
Definition page_to_addr (pfn : Z) : Z := u64 (Z.shiftl pfn AMDGV_GPU_PAGE_SHIFT).

Definition amdgv_umc_check_bad_pages_in_range (fb_offset size : Z) : M bad_pages bool :=
  data ← gets eh_data;
  match data with
  | None => mret false
  | Some d =>
      match sorted_bps d with
      | None => mret false
      | Some l =>
          _ ← demand (sorted_bp_count d <=? Z.of_nat (length l));
          mret (existsb (fun p => amdgv_umc_is_bp_in_range (page_to_addr p) fb_offset size)
                  (take (Z.to_nat (sorted_bp_count d)) l))
      end
  end.

(** ** Sorting *)

(** [n] pairs from position [j] on are put in order. *)
Fixpoint bubble_inner (n j : nat) (l : list Z) : option (list Z) :=
  match n with
  | O => Some l
  | S n =>
      x ← l !! j; y ← l !! S j;
      bubble_inner n (S j) (if y <? x then <[S j := x]> (<[j := y]> l) else l)
  end.

Fixpoint bubble_outer (n : nat) (l : list Z) : option (list Z) :=
  match n with
  | O => Some l
  | S n' => l ← bubble_inner n 0 l; bubble_outer n' l
  end.

(** [u]: the index of the last element kept. *)
Fixpoint unique_loop (n i u : nat) (l : list Z) : option (nat * list Z) :=
  match n with
  | O => Some (u, l)
  | S n =>
      x ← l !! i; y ← l !! u;
      if x =? y then unique_loop n (S i) u l
      else _ ← l !! S u; unique_loop n (S i) (S u) (<[S u := x]> l)
  end.

(** The number of different offsets, and the array. *)
Definition amdgv_umc_sort_bp_offsets (l : list Z) : option (Z * list Z) :=
  if (length l <=? 1)%nat then Some (AMDGV_FAILURE, l) else
  l ← bubble_outer (length l - 1) l;
  '(u, l) ← unique_loop (length l - 1) 1 0 l;
  Some (Z.of_nat u + 1, l).

(** The array of offsets, the caller's to free. *)
Definition amdgv_umc_fetch_and_sort_bps : M bad_pages (Z * option (list Z)) :=
  d ← data_of;
  ok ← oss oss_alloc;
  if negb ok then mret (AMDGV_FAILURE, None) else
  l ← (if count d =? 0 then mret [] else require (bps d));
  _ ← demand (count d <=? Z.of_nat (length l));
  '(_, l) ← require (amdgv_umc_sort_bp_offsets (map (fun r => page_to_addr (retired_page r)) (take (Z.to_nat (count d)) l)));
  mret (0, Some l).

(** ** Loading and unloading *)

Definition amdgv_umc_init_sorted_bad_pages : M bad_pages Z :=
  data ← gets eh_data;
  match data with
  | None => mret AMDGV_FAILURE
  | Some d =>
      ok ← oss oss_alloc;
      _ ← upd_data (fun d => d <| sorted_bps_cap := bps_cap d |>
            <| sorted_bps := if ok : bool then Some (replicate (Z.to_nat (bps_cap d)) 0) else None |>);
      if negb ok then mret AMDGV_FAILURE else
      _ ← upd_data (fun d => d <| sorted_bp_count := 0 |>); mret 0
  end.

Definition amdgv_umc_cleanup_sorted_bad_pages : M bad_pages unit :=
  data ← gets eh_data;
  match data with
  | None => mret tt
  | Some d =>
      _ ← when (has_sorted d) (oss oss_free);
      upd_data (fun d => d <| sorted_bps := None |> <| sorted_bp_count := 0 |> <| sorted_bps_cap := 0 |>)
  end.

Definition is_some {A} (o : option A) : bool := match o with Some _ => true | None => false end.

Definition amdgv_umc_sw_fini : M bad_pages Z :=
  data ← gets eh_data;
  match data with
  | None => mret 0
  | Some d =>
      _ ← upd_data (fun d => d <| count := 0 |> <| last_reserved := 0 |>
            <| rom_data := (rom_data d) <| rom_count := 0 |> <| num_recs_synced := 0 |> |>);
      _ ← when (is_some (rom_bps (rom_data d))) (oss oss_free);
      _ ← upd_data (fun d => d <| rom_data := (rom_data d) <| rom_bps := None |> |>);
      _ ← when (is_some (bps d)) (oss oss_free);
      _ ← upd_data (fun d => d <| bps := None |>);
      _ ← when (is_some (bps_mem d)) (oss oss_free);
      _ ← upd_data (fun d => d <| bps_mem := None |>);
      _ ← amdgv_umc_cleanup_sorted_bad_pages;
      _ ← oss oss_free;
      _ ← modify (fun s => s <| eh_data := None |>);
      mret 0
  end.

Definition zalloc {A} (x : A) (n : Z) : M bad_pages (option (list A)) :=
  ok ← oss oss_alloc; mret (if ok : bool then Some (replicate (Z.to_nat n) x) else None).

Definition amdgv_umc_sw_init : M bad_pages Z :=
  let failed := _ ← amdgv_umc_sw_fini; mret AMDGV_FAILURE in
  ok ← oss oss_alloc;
  if negb ok then _ ← modify (fun s => s <| eh_data := None |>); failed else
  let n := BAD_PAGE_RECORD_THRESHOLD in
  _ ← modify (fun s => s <| eh_data := Some (mk_data (mk_rom None 0 n 0) None None 0 0 0 None 0 0 AMDGV_RAS_INV_MEM_PFN false) |>);
  l ← zalloc zero_record n;
  _ ← upd_data (fun d => d <| rom_data := (rom_data d) <| rom_bps := l |> |> <| bps_cap := n |>);
  l ← zalloc zero_record n;
  _ ← upd_data (fun d => d <| bps := l |>);
  l ← zalloc (None : option nat) n;
  _ ← upd_data (fun d => d <| bps_mem := l |>);
  ret ← amdgv_umc_init_sorted_bad_pages;
  if negb (ret =? 0) then failed else
  d ← data_of;
  if negb (is_some (bps d)) || negb (is_some (bps_mem d)) then failed else
  mret 0.
End bad_pages.
