(* ===== verification/BadPageInv.v ===== *)
(** * Bad pages: the sorted array, the lists and their invariant *)
From S2P Require Import Prelude Api Oss BadPage.
From Stdlib Require Import Sorted.
#[local] Open Scope Z_scope.
#[local] Set Warnings "-clear-no-such-hyp".

(** ** Lists *)

Lemma take_lookup_lt {A} (l : list A) (S : list A) n i x : take n l = S -> S !! i = Some x -> l !! i = Some x.
Proof. intros <- H. apply lookup_take_Some in H. naive_solver. Qed.

Lemma take_insert_next {A} (l : list A) n x : (n < length l)%nat -> take (S n) (<[n := x]> l) = take n l ++ [x].
Proof.
  intros Hn. rewrite (take_S_r _ _ x); [|by apply list_lookup_insert_eq].
  f_equal. by rewrite take_insert_ge by lia.
Qed.

Lemma sorted_lookup_lt (l : list Z) i j x y : StronglySorted Z.lt l -> l !! i = Some x -> l !! j = Some y -> (i < j)%nat -> x < y.
Proof.
  intros Hs. revert i j. induction Hs as [|z l Hs IH Hz]; intros i j Hi Hj Hij; [done|].
  destruct j as [|j]; [lia|]. destruct i as [|i]; cbn in *.
  - injection Hi as ->. rewrite Forall_forall in Hz. apply Hz. by eapply list_elem_of_lookup_2.
  - apply (IH i j); auto with lia.
Qed.

Lemma sorted_insert (A B : list Z) x : StronglySorted Z.lt (A ++ B) -> Forall (fun a => a < x) A -> Forall (fun b => x < b) B ->
  StronglySorted Z.lt (A ++ x :: B).
Proof.
  induction A as [|a A IH]; cbn; intros Hs HA HB.
  - by constructor.
  - inversion Hs; subst. inversion HA; subst. constructor; [auto|].
    rewrite Forall_app in *. destruct H2. split; [done|]. constructor; [done|].
    done.
Qed.

(** ** Bubble sort and removal of duplicates *)

Lemma insert_middle {A} (pre l : list A) (x y : A) j : length pre = j -> <[j := x]> (pre ++ y :: l) = pre ++ x :: l.
Proof. intros <-. rewrite insert_app_r_alt by lia. by rewrite Nat.sub_diag. Qed.

Lemma lookup_middle_eq {A} (pre l : list A) (x : A) j : length pre = j -> (pre ++ x :: l) !! j = Some x.
Proof. intros <-. rewrite lookup_app_r by lia. by rewrite Nat.sub_diag. Qed.

(** A pass carries the largest element seen to its end. *)
Lemma bubble_inner_spec n : forall pre x l, (n <= length l)%nat -> exists us m,
  bubble_inner n (length pre) (pre ++ x :: l) = Some (pre ++ us ++ m :: drop n l) /\
  us ++ [m] ≡ₚ x :: take n l /\ Forall (fun u => u <= m) us.
Proof.
  induction n as [|n IH]; intros pre x l Hn; cbn [bubble_inner].
  { exists [], x. by rewrite drop_0. }
  destruct l as [|y l]; cbn in Hn; [lia|].
  rewrite (lookup_middle_eq pre (y :: l) x (length pre)) by done. cbn [mbind option_bind].
  replace (pre ++ x :: y :: l) with ((pre ++ [x]) ++ y :: l) by by rewrite <- app_assoc.
  rewrite (lookup_middle_eq (pre ++ [x]) l y (S (length pre))) by (rewrite length_app; cbn; lia). cbn [mbind option_bind].
  assert (forall z, S (length pre) = length (pre ++ [z])) as Hlen by (intros; rewrite length_app; cbn; lia).
  destruct (Z.ltb_spec y x) as [Hyx|Hyx].
  - rewrite <- app_assoc. cbn. rewrite insert_middle by done.
    replace (pre ++ y :: y :: l) with ((pre ++ [y]) ++ y :: l) by by rewrite <- app_assoc.
    rewrite insert_middle by by rewrite <- Hlen. rewrite (Hlen y).
    destruct (IH (pre ++ [y]) x l) as (us & m & E & Hp & Hm); [lia|]. exists (y :: us), m. split_and!.
    + rewrite E. by rewrite <- app_assoc.
    + cbn. rewrite Hp. apply Permutation_swap.
    + constructor; [|done]. assert (x ∈ us ++ [m]) as Hx by (rewrite Hp; by left).
      apply elem_of_app in Hx as [Hx| ->%list_elem_of_singleton]; [|lia]. rewrite Forall_forall in Hm. specialize (Hm _ Hx). lia.
  - rewrite (Hlen x). destruct (IH (pre ++ [x]) y l) as (us & m & E & Hp & Hm); [lia|]. exists (x :: us), m. split_and!.
    + rewrite E. by rewrite <- app_assoc.
    + cbn. by rewrite Hp.
    + constructor; [|done]. assert (y ∈ us ++ [m]) as Hx by (rewrite Hp; by left).
      apply elem_of_app in Hx as [Hx| ->%list_elem_of_singleton]; [|lia]. rewrite Forall_forall in Hm. specialize (Hm _ Hx). lia.
Qed.

Lemma bubble_outer_sorts n : forall a b, length a = S n -> StronglySorted Z.le b ->
  (forall x y, x ∈ a -> y ∈ b -> x <= y) ->
  exists c, bubble_outer n (a ++ b) = Some c /\ StronglySorted Z.le c /\ c ≡ₚ a ++ b.
Proof.
  induction n as [|n IH]; intros a b Hl Hb Hab; cbn [bubble_outer].
  - destruct a as [|x [|]]; try done. exists (x :: b). split_and!; [done| |done]. constructor; [done|].
    apply Forall_forall. intros y Hy. apply Hab; [by left|done].
  - destruct a as [|x a]; [done|]. cbn in Hl. injection Hl as Hl.
    destruct (bubble_inner_spec (S n) [] x (a ++ b)) as (us & m & E & Hp & Hm); [rewrite length_app; lia|].
    rewrite <- Hl in Hp, E. rewrite take_app_length in Hp. rewrite drop_app_length in E. cbn [app length] in E.
    cbn [app]. rewrite <- Hl, E. cbn [mbind option_bind].
    assert (forall y, y ∈ us ++ [m] -> y ∈ x :: a) as Hin by (intros y; by rewrite Hp).
    destruct (IH us (m :: b)) as (c & Ec & Hs & Hc).
    + apply Permutation_length in Hp. rewrite length_app in Hp. cbn in Hp. lia.
    + constructor; [done|]. apply Forall_forall. intros y Hy. apply Hab; [|done]. apply Hin, elem_of_app. right. by apply list_elem_of_singleton.
    + rewrite Forall_forall in Hm. intros u y Hu [->|Hy]%elem_of_cons; [by apply Hm|]. apply Hab; [|done]. apply Hin, elem_of_app. by left.
    + exists c. split_and!; [done|done|]. rewrite Hc. rewrite (cons_middle m), app_assoc, Hp. done.
Qed.

Lemma unique_loop_spec rest : forall K g G, StronglySorted Z.lt (K ++ [g]) -> StronglySorted Z.le rest -> Forall (fun y => g <= y) rest ->
  exists (u : nat) (l' : list Z), unique_loop (length rest) (length (K ++ [g] ++ G)) (length K) ((K ++ [g]) ++ G ++ rest) = Some (u, l') /\
    length l' = length ((K ++ [g]) ++ G ++ rest) /\ StronglySorted Z.lt (take (S u) l') /\
    (forall y, y ∈ take (S u) l' <-> y ∈ K ++ [g] \/ y ∈ rest).
Proof.
  induction rest as [|x rest IH]; intros K g G Hs Hr Hg; cbn [unique_loop length].
  { exists (length K), ((K ++ [g]) ++ G ++ []). split_and!; [done|done| |].
    - rewrite app_assoc, take_app_le, take_app_le; [by rewrite firstn_all2 by (rewrite length_app; cbn; lia)|..]; rewrite ?length_app; cbn; lia.
    - intros y. rewrite take_app_le by (rewrite !length_app; cbn; lia). rewrite firstn_all2 by (rewrite length_app; cbn; lia).
      split; [by left|]. by intros [?|?%elem_of_nil]. }
  inversion Hr as [|? ? Hr' Hx]; subst. inversion Hg as [|? ? Hgx Hg']; subst.
  assert (((K ++ [g]) ++ G ++ x :: rest) !! length (K ++ [g] ++ G) = Some x) as ->.
  { rewrite (app_assoc (K ++ [g])). apply lookup_middle_eq. by rewrite <- app_assoc. }
  assert (((K ++ [g]) ++ G ++ x :: rest) !! length K = Some g) as ->.
  { rewrite <- (app_assoc K). by apply lookup_middle_eq. }
  cbn [mbind option_bind].
  destruct (Z.eqb_spec x g) as [->|Hne].
  - destruct (IH K g (G ++ [g])) as (u & l' & E & Hl & Hs' & He); [done|done|done|].
    exists u, l'. rewrite <- !app_assoc in *. cbn [app] in *. split_and!; [|done|done|].
    + rewrite <- E. rewrite !length_app. cbn. rewrite length_app. cbn. f_equal; lia.
    + intros y. rewrite He. rewrite !elem_of_app, !elem_of_cons. tauto.
  - assert (exists G', <[S (length K) := x]> ((K ++ [g]) ++ G ++ x :: rest) = ((K ++ [g]) ++ [x]) ++ G' ++ rest /\ length G' = length G /\
      is_Some (((K ++ [g]) ++ G ++ x :: rest) !! S (length K))) as (G' & EG & HG & Hsome).
    { assert (S (length K) = length (K ++ [g])) as -> by (rewrite length_app; cbn; lia).
      destruct G as [|z G].
      - exists []. cbn [app]. rewrite (insert_middle (K ++ [g])), (lookup_middle_eq (K ++ [g])) by done. rewrite <- !app_assoc. by split_and!.
      - exists (G ++ [x]). cbn [app]. rewrite (insert_middle (K ++ [g])), (lookup_middle_eq (K ++ [g])) by done.
        rewrite <- !app_assoc. cbn. split_and!; [done| |done]. rewrite length_app. cbn. lia. }
    destruct Hsome as [w ->]. cbn [mbind option_bind]. rewrite EG.
    destruct (IH (K ++ [g]) x G') as (u & l' & E & Hl & Hs' & He).
    + apply sorted_insert; rewrite ?app_nil_r; [done| |constructor]. apply Forall_app. split; [|by constructor; [lia|]].
      apply Forall_forall. intros k Hk. apply list_elem_of_lookup in Hk as [i Hi].
      assert (k < g); [|lia]. apply (sorted_lookup_lt (K ++ [g]) i (length K)); [done| | |by eapply lookup_lt_Some].
      * by apply lookup_app_l_Some.
      * by apply lookup_middle_eq.
    + done.
    + done.
    + exists u, l'. split_and!; [| |done|].
      * rewrite <- E. rewrite !length_app. cbn. f_equal; lia.
      * rewrite Hl. rewrite !length_app. cbn. lia.
      * intros y. rewrite He, !elem_of_app, !elem_of_cons. tauto.
Qed.

Lemma sort_offsets_spec l : (2 <= length l)%nat -> exists (n : nat) (l' : list Z),
  amdgv_umc_sort_bp_offsets l = Some (Z.of_nat n, l') /\ length l' = length l /\ (0 < n)%nat /\
  StronglySorted Z.lt (take n l') /\ (forall y, y ∈ take n l' <-> y ∈ l).
Proof.
  intros Hl. unfold amdgv_umc_sort_bp_offsets. destruct (Nat.leb_spec (length l) 1); [lia|].
  destruct (bubble_outer_sorts (length l - 1) l []) as (c & E & Hs & Hc).
  { lia. } { constructor. } { intros x y _ ?%elem_of_nil. done. }
  rewrite app_nil_r in E, Hc. rewrite E. cbn [mbind option_bind].
  pose proof (Permutation_length Hc) as Hlen. destruct c as [|x c]; [cbn in Hlen; lia|].
  inversion Hs as [|? ? Hsc Hx]; subst.
  destruct (unique_loop_spec c [] x []) as (u & l' & Eu & Hl' & Hs' & He); [by repeat constructor|done|done|].
  cbn [app length] in *. rewrite Nat.sub_succ, Nat.sub_0_r, Eu. cbn [mbind option_bind].
  exists (S u), l'. split_and!; [repeat f_equal; lia|congruence|lia|done|].
  intros y. rewrite He, <- Hc. rewrite !elem_of_cons. split; [|naive_solver]. intros [[->|?%elem_of_nil]|?]; [by left|done|by right].
Qed.

Section bad_pages.
Context {E : OssEnv} {U : UmcEnv}.
Implicit Types (s : bad_pages) (d : ras_err_handler_data) (r : eeprom_table_record) (R P : list eeprom_table_record) (T : list Z).

Lemma wp_data_of d (Q : ras_err_handler_data -> bad_pages -> Prop) s : eh_data s = Some d -> Q d s -> wp data_of Q s.
Proof. intros Hd HQ. unfold data_of. apply wp_bind, wp_gets. by eapply wp_require. Qed.

Lemma wp_upd_data f d (Q : unit -> bad_pages -> Prop) s : eh_data s = Some d -> Q tt (s <| eh_data := Some (f d) |>) -> wp (upd_data f) Q s.
Proof. intros Hd HQ. unfold upd_data. apply wp_bind. by eapply wp_data_of. Qed.

(** ** Inserting *)

Lemma wp_insert_search l T x (Q : option Z -> bad_pages -> Prop) s : take (length T) l = T -> StronglySorted Z.lt T ->
  (x ∈ T -> Q None s) ->
  (forall A B, T = A ++ B -> Forall (fun a => a < x) A -> Forall (fun b => x < b) B -> Q (Some (Z.of_nat (length A))) s) ->
  forall fuel left right, (right - left + 1 < Z.of_nat fuel) -> 0 <= left <= right + 1 -> right < Z.of_nat (length T) ->
  (forall i y, T !! i = Some y -> Z.of_nat i < left -> y < x) ->
  (forall i y, T !! i = Some y -> right < Z.of_nat i -> x < y) ->
  wp (insert_search fuel l x left right (right + 1)) Q s.
Proof.
  intros Hl Hs HN HS. induction fuel as [|fuel IH]; intros left right Hf Hlr Hr Hlo Hhi; cbn [insert_search].
  all: destruct (Z.leb_spec left right) as [Hle|Hgt]; [|].
  - lia.
  - apply wp_ret. replace (right + 1) with left by lia. replace left with (Z.of_nat (length (take (Z.to_nat left) T))); [|rewrite length_take; lia].
    apply (HS _ (drop (Z.to_nat left) T)); [by rewrite take_drop| |].
    + apply Forall_lookup. intros i y (Hi & Hi')%lookup_take_Some. apply (Hlo i); [done|lia].
    + apply Forall_lookup. intros i y Hi. rewrite lookup_drop in Hi. apply (Hhi _ _ Hi). lia.
  - set (mid := (left + right) / 2). assert (left <= mid <= right) as Hm by (unfold mid; split; [apply Z.div_le_lower_bound|apply Z.div_le_upper_bound]; lia).
    destruct (lookup_lt_is_Some_2 T (Z.to_nat mid)) as [y Hy]; [lia|].
    apply wp_bind. apply (wp_require _ y); [by eapply take_lookup_lt|].
    destruct (Z.eqb_spec y x) as [->|Hne]; [apply wp_ret, HN; by eapply list_elem_of_lookup_2|].
    destruct (Z.ltb_spec y x).
    + apply IH; try lia; [|done]. intros i z Hz Hi. destruct (decide (i = Z.to_nat mid)) as [->|]; [naive_solver|].
      destruct (decide (Z.of_nat i < left)); [by eapply Hlo|].
      assert (z < y); [|lia]. apply (sorted_lookup_lt T i (Z.to_nat mid)); try done. lia.
    + enough (wp (insert_search fuel l x left (mid - 1) (mid - 1 + 1)) Q s) as Hw by by rewrite Z.sub_add in Hw.
      apply IH; try lia; [done|]. intros i z Hz Hi.
      destruct (decide (i = Z.to_nat mid)) as [->|]; [simplify_eq; lia|].
      destruct (decide (right < Z.of_nat i)); [by eapply Hhi|].
      assert (y < z); [|lia]. apply (sorted_lookup_lt T (Z.to_nat mid) i); try done. lia.
  - apply wp_ret. replace (right + 1) with left by lia. replace left with (Z.of_nat (length (take (Z.to_nat left) T))); [|rewrite length_take; lia].
    apply (HS _ (drop (Z.to_nat left) T)); [by rewrite take_drop| |].
    + apply Forall_lookup. intros i y (Hi & Hi')%lookup_take_Some. apply (Hlo i); [done|lia].
    + apply Forall_lookup. intros i y Hi. rewrite lookup_drop in Hi. apply (Hhi _ _ Hi). lia.
Qed.

Lemma wp_shift_up A B y C (Q : list Z -> bad_pages -> Prop) s :
  (forall z, Q (A ++ z :: B ++ C) s) ->
  forall n, n = length B -> wp (shift_up n (Z.of_nat (length A + n)) (A ++ B ++ y :: C)) Q s.
Proof.
  revert C y. induction B as [|b B IH] using rev_ind; intros C y HQ n ->; cbn [shift_up length].
  - apply wp_ret. apply HQ.
  - rewrite length_app. cbn [length]. rewrite Nat.add_1_r. cbn [shift_up].
    assert ((A ++ (B ++ [b]) ++ y :: C) !! (length A + length B)%nat = Some b) as H1.
    { rewrite lookup_app_r by lia. rewrite <- app_assoc. rewrite lookup_app_r by lia.
      replace (length A + length B - length A - length B)%nat with 0%nat by lia. done. }
    assert ((A ++ (B ++ [b]) ++ y :: C) !! (length A + S (length B))%nat = Some y) as H2.
    { rewrite lookup_app_r by lia. rewrite lookup_app_r by (rewrite length_app; cbn; lia). rewrite length_app. cbn [length].
      replace (length A + Datatypes.S (length B) - length A - (length B + 1))%nat with 0%nat by lia. done. }
    apply wp_bind. apply (wp_require _ b); [rewrite <- H1; f_equal; lia|].
    apply wp_bind. apply (wp_require _ y); [rewrite <- H2; f_equal; lia|].
    replace (Z.of_nat (length A + S (length B)) - 1) with (Z.of_nat (length A + length B)) by lia.
    rewrite Nat2Z.id.
    replace (<[(length A + S (length B))%nat:=b]> (A ++ (B ++ [b]) ++ y :: C)) with (A ++ B ++ b :: b :: C).
    + apply IH; [|done]. intros z. specialize (HQ z). by rewrite <- app_assoc in HQ.
    + rewrite insert_app_r_alt by lia. f_equal. rewrite insert_app_r_alt by (rewrite length_app; cbn; lia).
      rewrite length_app. cbn [length]. replace (length A + Datatypes.S (length B) - length A - (length B + 1))%nat with 0%nat by lia.
      cbn. by rewrite <- app_assoc.
Qed.

(** [xs] is in the first elements of an array of [cap]. *)
Definition array {A} (o : option (list A)) (cap : Z) (xs : list A) : Prop :=
  exists l, o = Some l /\ Z.of_nat (length l) = cap /\ take (length xs) l = xs.

Lemma array_length {A} (o : option (list A)) cap (xs : list A) : array o cap xs -> Z.of_nat (length xs) <= cap.
Proof. intros (l & _ & <- & <-). rewrite !length_take. lia. Qed.

Lemma wp_insert_page T d page (Q : Z -> bad_pages -> Prop) s : eh_data s = Some d -> StronglySorted Z.lt T ->
  array (sorted_bps d) (sorted_bps_cap d) T -> sorted_bp_count d = Z.of_nat (length T) -> Z.of_nat (length T) < sorted_bps_cap d ->
  (forall l T', array (Some l) (sorted_bps_cap d) T' -> StronglySorted Z.lt T' ->
     (forall y, y ∈ T' <-> y ∈ T \/ y = mc_page page) ->
     Q 0 (s <| eh_data := Some (d <| sorted_bps := Some l |> <| sorted_bp_count := Z.of_nat (length T') |>) |>)) ->
  wp (amdgv_umc_insert_sorted_bad_page page) Q s.
Proof.
  intros Hd Hs (l & Hl & Hlen & Ht) Hn Hroom HQ. unfold amdgv_umc_insert_sorted_bad_page.
  apply wp_bind, (wp_data_of d); [done|]. rewrite Hl, Hn.
  destruct (Z.leb_spec (sorted_bps_cap d) (Z.of_nat (length T))); [lia|]. cbv zeta.
  apply wp_bind. replace (Z.of_nat (length T)) with (Z.of_nat (length T) - 1 + 1) at 3 by lia.
  apply (wp_insert_search l T (mc_page page)); try done; try lia.
  - intros Hin. apply wp_ret.
    replace s with (s <| eh_data := Some (d <| sorted_bps := Some l |> <| sorted_bp_count := Z.of_nat (length T) |>) |>).
    + apply HQ; [by exists l|done|]. intros y. split; [by left|]. by intros [?| ->].
    + rewrite <- Hn, <- Hl. destruct s, d; cbn in *. by rewrite Hd.
  - intros A B -> HA HB. apply wp_bind.
    rewrite length_app in *. assert (length A + length B < length l)%nat as Hlt by lia.
    destruct (lookup_lt_is_Some_2 l (length A + length B)) as [y Hy]; [done|].
    assert (l = A ++ B ++ y :: drop (S (length A + length B)) l) as El.
    { rewrite app_assoc, <- Ht at 1. by rewrite take_drop_middle. }
    assert (forall z, length l = length (A ++ z :: B ++ drop (S (length A + length B)) l)) as Elen.
    { intros z. rewrite El at 1. rewrite !length_app. cbn. rewrite !length_app. cbn. lia. }
    replace (Z.to_nat (Z.of_nat (length A + length B) - Z.of_nat (length A))) with (length B) by lia.
    rewrite El at 1. apply wp_shift_up; [|done]. intros z. apply wp_bind.
    apply (wp_require _ z); [rewrite Nat2Z.id, lookup_app_r by lia; by rewrite Nat.sub_diag|].
    apply wp_bind. apply (wp_upd_data _ d); [done|]. apply wp_ret.
    rewrite Nat2Z.id, insert_app_r_alt by lia. rewrite Nat.sub_diag. cbn [list_insert insert].
    specialize (HQ (A ++ mc_page page :: B ++ drop (S (length A + length B)) l) (A ++ mc_page page :: B)).
    rewrite length_app in HQ. cbn [length] in HQ. replace (Z.of_nat (length A + length B) + 1) with (Z.of_nat (length A + S (length B))) by lia.
    apply HQ.
    + exists (A ++ mc_page page :: B ++ drop (S (length A + length B)) l). split; [done|]. rewrite <- Elen. split; [done|].
      rewrite (app_comm_cons B), app_assoc. by rewrite take_app_length.
    + by apply sorted_insert.
    + intros w. rewrite !elem_of_app, elem_of_cons. tauto.
  - intros i y Hi%lookup_lt_Some ?. lia.
Qed.

(** ** The lists an adapter holds *)

(** The raw records [R], the records of the pages [P] and the sorted pages [T]. *)
Record holds R P T d : Prop := {
  h_rom : array (rom_bps (rom_data d)) (rom_cap (rom_data d)) R;
  h_rom_count : rom_count (rom_data d) = Z.of_nat (length R);
  h_bps : array (bps d) (bps_cap d) P;
  h_count : count d = Z.of_nat (length P);
  h_sorted : array (sorted_bps d) (sorted_bps_cap d) T;
  h_sorted_count : sorted_bp_count d = Z.of_nat (length T);
  h_order : StronglySorted Z.lt T;
  h_elem : forall x, x ∈ T <-> exists r, r ∈ P /\ x = mc_page (retired_page r);
  h_caps : bps_cap d <= sorted_bps_cap d;
  h_width : rom_cap (rom_data d) < 2 ^ 31 /\ bps_cap d < 2 ^ 31;
}.

(** The fields adding does not change. *)
Definition settled d : list Z * option (list (option nat)) :=
  ([rom_cap (rom_data d); num_recs_synced (rom_data d); bps_cap d; sorted_bps_cap d; last_reserved d], bps_mem d).

Lemma sorted_nodup T : StronglySorted Z.lt T -> NoDup T.
Proof.
  induction 1 as [|x T HT IH Hx]; constructor; [|done]. intros Hin. rewrite Forall_forall in Hx. specialize (Hx _ Hin). lia.
Qed.

Lemma holds_sorted_length R P T d : holds R P T d -> (length T <= length P)%nat.
Proof.
  intros H. rewrite <- (length_fmap (fun r => mc_page (retired_page r)) P). apply submseteq_length, NoDup_submseteq.
  - by eapply sorted_nodup, h_order.
  - intros x (r & Hr & ->)%(h_elem _ _ _ _ H). by apply (list_elem_of_fmap_2 (fun r => mc_page (retired_page r))).
Qed.

(** ** Room without growing *)

Lemma grow_loop_room n b pages buf cap (Q : bool -> bad_pages -> Prop) s :
  buffer_of b s = Ret ((buf, cap), s) -> pages < cap -> Q true s -> wp (grow_loop n b pages) Q s.
Proof.
  intros Hb Hp HQ. assert (grow_loop n b pages s = Ret (true, s)) as E1; [|by eapply wp_intro].
  destruct n; cbn [grow_loop]; rewrite (run_bind _ _ _ _ _ Hb); cbn; destruct (Z.ltb_spec pages cap); done || lia.
Qed.

Lemma wp_update_room b pages l cap (Q : Z -> bad_pages -> Prop) s :
  buffer_of b s = Ret ((Some l, cap), s) -> pages < cap -> Q 0 s -> wp (amdgv_umc_update_bp_buff b pages) Q s.
Proof.
  intros Hb Hp HQ. unfold amdgv_umc_update_bp_buff. eapply wp_bind, wp_intro; [exact Hb|]. cbv beta iota.
  apply wp_bind. eapply grow_loop_room; [done|done|]. cbn [negb]. eapply wp_bind, wp_intro; [exact Hb|]. cbv beta iota.
  apply wp_bind, wp_gets. destruct (eh_data s); [|by apply wp_ret]. rewrite Z.ltb_irrefl, andb_false_r. by apply wp_ret.
Qed.

Lemma wp_store o cap P r (Q : list eeprom_table_record -> bad_pages -> Prop) s :
  array o cap P -> Z.of_nat (length P) < cap ->
  (forall l, array (Some l) cap (P ++ [r]) -> Q l s) -> wp (store o (Z.of_nat (length P)) r) Q s.
Proof.
  intros (l & -> & Hl & Ht) Hr HQ. unfold store. apply wp_bind. eapply wp_require; [done|]. rewrite Nat2Z.id.
  destruct (lookup_lt_is_Some_2 l (length P)) as [x Hx]; [lia|]. apply wp_bind. eapply wp_require; [done|]. apply wp_ret.
  apply HQ. exists (<[length P := r]> l). rewrite length_insert. split; [done|]. split; [done|].
  rewrite length_app, Nat.add_1_r. rewrite take_insert_next by lia. by rewrite Ht.
Qed.

(** ** Adding *)

Lemma wp_rom_data R P T d r (Q : Z -> bad_pages -> Prop) s : eh_data s = Some d -> holds R P T d ->
  Z.of_nat (length R) + 1 < rom_cap (rom_data d) ->
  (forall d', holds (R ++ [r]) P T d' -> settled d' = settled d -> last_retired_pfn d' = last_retired_pfn d ->
     Q 0 (s <| eh_data := Some d' |>)) ->
  wp (amdgv_umc_update_eeprom_rom_data r) Q s.
Proof.
  intros Hd H Hroom HQ. pose proof H as [Hr Hrc Hb Hc Ht Htc Ho He Hca Hw].
  unfold amdgv_umc_update_eeprom_rom_data. apply wp_bind, (wp_data_of d); [done|].
  rewrite Hrc, wrap_id by (unfold in_width; lia).
  pose proof Hr as (l & El & Hl & _). apply wp_bind. eapply (wp_update_room RomBps _ l).
  { unfold buffer_of, data_of, gets, require, mbind, M_bind. rewrite Hd. cbn. by rewrite El. }
  { done. }
  cbn [Z.eqb negb]. apply wp_bind, (wp_data_of d); [done|]. rewrite Hrc. apply wp_bind.
  eapply wp_store; [exact Hr|lia|]. intros l' Hl'. apply wp_bind, (wp_upd_data _ d); [done|]. apply wp_ret, HQ; [|done|done].
  split; cbn; try done. rewrite length_app, Hrc. cbn. lia.
Qed.

Lemma wp_ram_loop recs : forall R P T d (Q : unit -> bad_pages -> Prop) s, eh_data s = Some d -> holds R P T d ->
  Z.of_nat (length P + length recs) < bps_cap d ->
  (forall d' T', holds R (P ++ recs) T' d' -> settled d' = settled d -> last_retired_pfn d' = last_retired_pfn d ->
     Q tt (s <| eh_data := Some d' |>)) ->
  wp (ram_loop recs) Q s.
Proof.
  induction recs as [|r recs IH]; intros R P T d Q s Hd H Hroom HQ; cbn [ram_loop].
  - apply wp_ret. rewrite app_nil_r in HQ. replace s with (s <| eh_data := Some d |>) by (destruct s; cbn in *; by rewrite Hd).
    by eapply HQ.
  - cbn [length] in Hroom. pose proof (holds_sorted_length _ _ _ _ H) as HTP. pose proof H as [Hr Hrc Hb Hc Ht Htc Ho He Hca Hw].
    apply wp_bind, (wp_data_of d); [done|]. rewrite Hc. apply wp_bind.
    eapply wp_store; [exact Hb|lia|]. intros l Hl. apply wp_bind, (wp_upd_data _ d); [done|]. cbv beta. rewrite Hc. apply wp_bind.
    eapply wp_insert_page; [reflexivity|exact Ho|exact Ht|exact Htc|cbn; lia|].
    intros l' T' Hl' Ho' He'. eapply (IH R (P ++ [r]) T'); [reflexivity| | |].
    + split; cbn; try done; [rewrite length_app; cbn; lia|]. intros x. rewrite He', He. setoid_rewrite elem_of_app.
      setoid_rewrite list_elem_of_singleton. naive_solver.
    + rewrite length_app. cbn. lia.
    + intros d' T'' Hh Hs Hla. rewrite <- app_assoc in Hh. by eapply HQ.
Qed.

(** An ASIC writes at most 16 page numbers. *)
Definition few_pages : Prop := forall r recs, pages_of r = Some recs -> Z.of_nat (length recs) <= 16.

Lemma wp_ram_data R P T d r (Q : Z -> bad_pages -> Prop) s : few_pages -> eh_data s = Some d -> holds R P T d ->
  (pages_of r = None -> Q AMDGV_FAILURE s) ->
  (forall recs, pages_of r = Some recs -> Z.of_nat (length P + length recs) < bps_cap d /\
     forall d' T', holds R (P ++ recs) T' d' -> settled d' = settled d -> last_retired_pfn d' = last_retired_pfn d ->
       Q 0 (s <| eh_data := Some d' |>)) ->
  wp (amdgv_umc_update_eeprom_ram_data r) Q s.
Proof.
  intros Hfew Hd H HN HS. unfold amdgv_umc_update_eeprom_ram_data. destruct (pages_of r) as [recs|] eqn:Ep; [|by apply wp_ret, HN].
  destruct (HS _ eq_refl) as [Hroom HQ]. specialize (Hfew _ _ Ep). pose proof H as [Hr Hrc Hb Hc Ht Htc Ho He Hca Hw].
  apply wp_bind, wp_demand; [by apply Z.leb_le|]. apply wp_bind, (wp_data_of d); [done|].
  rewrite Hc, wrap_id by (unfold in_width; lia). pose proof Hb as (l & El & Hl & _).
  apply wp_bind. eapply (wp_update_room Bps _ l).
  { unfold buffer_of, data_of, gets, require, mbind, M_bind. rewrite Hd. cbn. by rewrite El. }
  { lia. }
  cbn [Z.eqb negb]. apply wp_bind. eapply wp_ram_loop; [done|exact H|done|]. intros d' T' Hh Hs Hla. apply wp_ret. by eapply HQ.
Qed.

(** The record with its page normalised, unless it is to be skipped. *)
Definition checked R r (from_eeprom : bool) : option eeprom_table_record :=
  if from_eeprom && (ts r =? 0) then None else
  let r := if from_eeprom then
             match eeprom_record_to_soc_pa with
             | None => r
             | Some f => r <| retired_page := if eeprom_version =? EEPROM_TABLE_VER_V3
                                              then set_nps_to_pa (f r) (get_nps_from_pa (retired_page r)) else f r |>
             end
           else r in
  if negb (total_fb_avail =? 0) &&
     (MBYTES_TO_BYTES total_fb_avail <=? u64 (Z.shiftl (plain (retired_page r)) AMDGV_GPU_PAGE_SHIFT))
  then None else
  if (negb from_eeprom || is_pmfw_managed_eeprom) && existsb (fun x => plain (retired_page x) =? plain (retired_page r)) R
  then None else Some r.

Lemma wp_check_invalid R P T d r from (Q : bool * eeprom_table_record -> bad_pages -> Prop) s : eh_data s = Some d -> holds R P T d ->
  (checked R r from = None -> forall r', Q (true, r') s) -> (forall r', checked R r from = Some r' -> Q (false, r') s) ->
  wp (amdgv_umc_check_invalid_bp r from) Q s.
Proof.
  intros Hd H HN HS. unfold amdgv_umc_check_invalid_bp, checked in *.
  destruct (from && (ts r =? 0)); [by apply wp_ret, HN|].
  match goal with |- context [negb from || _] => idtac end.
  match goal with |- wp (if ?c then _ else _) _ _ => destruct c end; [by apply wp_ret, HN|].
  destruct (negb from || is_pmfw_managed_eeprom); [|by apply wp_ret, HS].
  apply wp_bind, (wp_data_of d); [done|]. pose proof (h_rom _ _ _ _ H) as (l & El & Hl & Htk).
  pose proof (f_equal length Htk) as Hlen. rewrite length_take in Hlen.
  rewrite (h_rom_count _ _ _ _ H), El, Nat2Z.id. destruct (Z.eqb_spec (Z.of_nat (length R)) 0) as [E0|E0].
  - destruct R as [|x R]; [|cbn in E0; lia]. apply wp_bind, wp_ret. apply wp_bind, wp_demand; [done|]. apply wp_ret. cbn in *. by apply HS.
  - apply wp_bind. eapply wp_require; [done|]. apply wp_bind, wp_demand; [apply Z.leb_le; lia|].
    apply wp_ret. rewrite Htk. cbn [andb] in *. destruct (existsb _ R); [by apply HN|by apply HS].
Qed.

(** What a call with [recs] does to the raw records, the pages and the page
    remembered last. *)
Fixpoint add_spec (recs : list eeprom_table_record) (mode : Z) (from_eeprom : bool) R P (last : Z) :
    Z * (list eeprom_table_record * list eeprom_table_record * Z) :=
  match recs with
  | [] => (0, (R, P, last))
  | r :: recs =>
      if max_record_num <=? Z.of_nat (length P) then (AMDGV_FAILURE, (R, P, last)) else
      match checked R r from_eeprom with
      | None => add_spec recs mode from_eeprom R P last
      | Some r =>
          let r := if is_pmfw_managed_eeprom || negb from_eeprom && (eeprom_version =? EEPROM_TABLE_VER_V3)
                   then r <| retired_page := set_nps_to_pa (retired_page r) mode |> else r in
          if plain last =? plain (retired_page r) then add_spec recs mode from_eeprom (R ++ [r]) P last else
          match pages_of r with
          | None => (AMDGV_FAILURE, (R ++ [r], P, retired_page r))
          | Some ps => add_spec recs mode from_eeprom (R ++ [r]) (P ++ ps) (retired_page r)
          end
      end
  end.

Lemma add_spec_grows recs mode from : forall R P last ret R' P' last',
  add_spec recs mode from R P last = (ret, (R', P', last')) -> R `prefix_of` R' /\ P `prefix_of` P'.
Proof.
  induction recs as [|r recs IH]; intros R P last ret R' P' last'; cbn [add_spec]; [naive_solver|].
  destruct (max_record_num <=? _); [naive_solver|]. destruct (checked R r from) as [r'|]; [|apply IH].
  cbv zeta. set (r'' := if (_ : bool) then r' <| retired_page := _ |> else r'). destruct (set_nps_to_pa _ _ =? set_nps_to_pa _ _).
  - intros [H1 H2]%IH. split; [|done]. etrans; [|done]. by apply prefix_app_r.
  - destruct (pages_of r'') as [ps|].
    + intros [H1 H2]%IH. split; (etrans; [|done]); by apply prefix_app_r.
    + intros [= <- <- <- <-]. split; [|done]. by apply prefix_app_r.
Qed.

Lemma wp_add_loop recs mode from : few_pages -> forall R P T d ret R' P' last' (Q : Z -> bad_pages -> Prop) s,
  eh_data s = Some d -> holds R P T d ->
  add_spec recs mode from R P (last_retired_pfn d) = (ret, (R', P', last')) ->
  Z.of_nat (length R') < rom_cap (rom_data d) -> Z.of_nat (length P') < bps_cap d ->
  (forall d' T', holds R' P' T' d' -> settled d' = settled d -> last_retired_pfn d' = last' -> Q ret (s <| eh_data := Some d' |>)) ->
  wp (add_loop recs mode from) Q s.
Proof.
  intros Hfew. induction recs as [|r recs IH]; intros R P T d ret R' P' last' Q s Hd H; cbn [add_spec add_loop].
  { intros [= <- <- <- <-] _ _ HQ. apply wp_ret. replace s with (s <| eh_data := Some d |>) by (destruct s; cbn in *; by rewrite Hd).
    by eapply HQ. }
  intros Hspec HR HP HQ.
  assert (forall d1, settled d1 = settled d -> rom_cap (rom_data d1) = rom_cap (rom_data d) /\ bps_cap d1 = bps_cap d) as Hcap.
  { unfold settled. intros d1 Hs. simplify_eq. done. }
  apply wp_bind, (wp_data_of d); [done|]. rewrite (h_count _ _ _ _ H).
  destruct (max_record_num <=? Z.of_nat (length P)).
  { injection Hspec as <- <- <- <-. apply wp_ret. replace s with (s <| eh_data := Some d |>) by (destruct s; cbn in *; by rewrite Hd).
    by eapply HQ. }
  apply wp_bind. eapply wp_check_invalid; [done|exact H| |].
  { intros Hc r'. rewrite Hc in Hspec. cbv beta iota. by eapply IH. }
  intros r' Hc. rewrite Hc in Hspec. cbv beta iota zeta in *.
  set (r'' := if (_ : bool) then r' <| retired_page := _ |> else r') in *.
  assert (Z.of_nat (length R) + 1 < rom_cap (rom_data d)) as HR1.
  { assert (R ++ [r''] `prefix_of` R') as Hp%prefix_length.
    { destruct (set_nps_to_pa _ _ =? set_nps_to_pa _ _); [by apply add_spec_grows in Hspec as [? _]|].
      destruct (pages_of r''); [by apply add_spec_grows in Hspec as [? _]|]. by injection Hspec as <- <- <- <-. }
    rewrite length_app in Hp. cbn in Hp. lia. }
  apply wp_bind. eapply wp_rom_data; [done|exact H|done|]. intros d1 H1 Hs1 Hl1. cbn [Z.eqb negb].
  apply wp_bind, (wp_data_of d1); [done|]. rewrite Hl1. destruct (set_nps_to_pa _ _ =? set_nps_to_pa _ _).
  { eapply IH; [reflexivity|exact H1|by rewrite Hl1|by rewrite (proj1 (Hcap _ Hs1))|by rewrite (proj2 (Hcap _ Hs1))|].
    intros d' T' Hh Hs Hla. eapply HQ; [done|congruence|done]. }
  apply wp_bind, (wp_upd_data _ d1); [done|]. apply wp_bind.
  set (d2 := d1 <| last_retired_pfn := retired_page r'' |>).
  assert (holds (R ++ [r'']) P T d2) as H2 by by destruct H1; split.
  assert (settled d2 = settled d) as Hs2 by by rewrite <- Hs1.
  eapply (wp_ram_data _ _ _ d2); [done|reflexivity|exact H2| |].
  - intros Hp. rewrite Hp in Hspec. injection Hspec as <- <- <- <-. cbn [Z.eqb negb]. apply wp_ret. by eapply HQ.
  - intros ps Hp. rewrite Hp in Hspec. split.
    + destruct (Hcap _ Hs2) as [_ ->]. apply add_spec_grows in Hspec as [_ Hpre%prefix_length]. rewrite length_app in Hpre. lia.
    + intros d3 T3 H3 Hs3 Hl3. cbn [Z.eqb negb]. assert (settled d3 = settled d) as Hs3' by congruence.
      eapply IH; [reflexivity|exact H3|by rewrite Hl3|by rewrite (proj1 (Hcap _ Hs3'))|by rewrite (proj2 (Hcap _ Hs3'))|].
      intros d' T' Hh Hs Hla. eapply HQ; [done|congruence|done].
Qed.

(** ** Loading *)

Lemma array_nil {A} (x : A) n cap : 0 <= cap -> n = Z.to_nat cap -> array (Some (replicate n x)) cap [].
Proof. intros Hc ->. eexists. split; [done|]. rewrite length_replicate. split; [lia|done]. Qed.

Lemma threshold_range : 0 <= bad_page_record_threshold < 2 ^ 31 -> 0 < BAD_PAGE_RECORD_THRESHOLD < 2 ^ 31.
Proof. unfold BAD_PAGE_RECORD_THRESHOLD. intros. destruct (Z.eqb_spec bad_page_record_threshold 0); lia. Qed.

(** The empty lists after initialisation; the array of raw records may be
    missing, since that allocation is not checked. *)
Record loaded d : Prop := {
  ld_holds : holds [] [] [] d;
  ld_last : last_retired_pfn d = AMDGV_RAS_INV_MEM_PFN;
  ld_rom_cap : rom_cap (rom_data d) = BAD_PAGE_RECORD_THRESHOLD;
  ld_bps_cap : bps_cap d = BAD_PAGE_RECORD_THRESHOLD;
  ld_sorted_cap : sorted_bps_cap d = BAD_PAGE_RECORD_THRESHOLD;
}.

Lemma sw_init_outcome s : 0 <= bad_page_record_threshold < 2 ^ 31 ->
  exists (r : Z) s', amdgv_umc_sw_init s = Ret (r, s') /\ nps s' = nps s /\
    (r = 0 /\ (exists d, eh_data s' = Some d /\ (rom_bps (rom_data d) <> None -> loaded d /\ os_heap (bp_oss s') = os_heap (bp_oss s) + 5)) \/
     r = AMDGV_FAILURE /\ eh_data s' = None /\ os_heap (bp_oss s') = os_heap (bp_oss s)).
Proof.
  intros Ht%threshold_range. set (n := BAD_PAGE_RECORD_THRESHOLD) in *. destruct s as [eh ea mx np [tk na nl hp lk]].
  destruct (oss_alloc_ok na) eqn:E0, (oss_alloc_ok (S na)) eqn:E1, (oss_alloc_ok (S (S na))) eqn:E2,
    (oss_alloc_ok (S (S (S na)))) eqn:E3, (oss_alloc_ok (S (S (S (S na))))) eqn:E4.
  all: eexists _, _; (split; [cbv -[oss_alloc_ok BAD_PAGE_RECORD_THRESHOLD Z.add Z.sub Z.to_nat replicate];
    repeat (rewrite ?E0, ?E1, ?E2, ?E3, ?E4; cbv -[oss_alloc_ok BAD_PAGE_RECORD_THRESHOLD Z.add Z.sub Z.to_nat replicate]); reflexivity|]);
    cbn -[Z.add Z.sub Z.to_nat replicate]; split; [done|].
  all: first [right; split_and!; [done|done|lia] | left; split; [done|]; eexists; split; [reflexivity|]; cbn -[Z.add Z.sub Z.to_nat replicate]; intros Hrom; try done].
  split; [|lia]. split; try done. split; cbn; try done; try lia; try (apply array_nil; [fold n; lia|done]); [constructor|].
  intros x. split; [by intros ?%elem_of_nil|]. intros (r & ?%elem_of_nil & _). done.
Qed.

(** ** Histories *)

Inductive bp_op :=
| OpAdd (recs : option (list eeprom_table_record)) (from_eeprom : bool)
| OpNps (mode : option Z).   (* the hardware is in another mode *)

Definition run_op (o : bp_op) : M bad_pages Z :=
  match o with
  | OpAdd recs from => amdgv_umc_add_bad_pages recs from
  | OpNps mode => _ ← modify (fun s => s <| nps := mode |>); mret 0
  end.

Fixpoint run_ops (os : list bp_op) : M bad_pages (list Z) :=
  match os with
  | [] => mret []
  | o :: os => r ← run_op o; rs ← run_ops os; mret (r :: rs)
  end.

(** What there is to know of the driver's lists: the raw records, the pages,
    the page remembered last and the mode. *)
Record bp_model := mk_model { raw : list eeprom_table_record; pages : list eeprom_table_record; last_page : Z; mode_of : option Z }.

Definition model_op (o : bp_op) (m : bp_model) : Z * bp_model :=
  match o with
  | OpNps mode => (0, mk_model (raw m) (pages m) (last_page m) mode)
  | OpAdd recs from =>
      if skip_bad_page_ops then (0, m) else
      match recs with
      | None => (0, m)
      | Some recs =>
          if has_nps_mode && bool_decide (mode_of m = None) then (0, m) else
          let mode := if has_nps_mode then default 0 (mode_of m) else AMDGV_MEMORY_PARTITION_MODE_UNKNOWN in
          let '(ret, (R, P, last)) := add_spec recs mode from (raw m) (pages m) (last_page m) in
          (ret, mk_model R P last (mode_of m))
      end
  end.

Fixpoint model_ops (os : list bp_op) (m : bp_model) : list Z * bp_model :=
  match os with
  | [] => ([], m)
  | o :: os => let '(r, m) := model_op o m in let '(rs, m) := model_ops os m in (r :: rs, m)
  end.

(** The adapter holds what the model says. *)
Definition implements (m : bp_model) s : Prop :=
  exists d T, eh_data s = Some d /\ holds (raw m) (pages m) T d /\ last_retired_pfn d = last_page m /\ nps s = mode_of m.

(** The lists stay below the number of elements allocated at first. *)
Definition fits (m : bp_model) : Prop :=
  Z.of_nat (length (raw m)) < BAD_PAGE_RECORD_THRESHOLD /\ Z.of_nat (length (pages m)) < BAD_PAGE_RECORD_THRESHOLD.

Definition at_threshold s : Prop :=
  exists d, eh_data s = Some d /\ rom_cap (rom_data d) = BAD_PAGE_RECORD_THRESHOLD /\ bps_cap d = BAD_PAGE_RECORD_THRESHOLD.

Lemma model_op_grows o m (r : Z) m' : model_op o m = (r, m') -> raw m `prefix_of` raw m' /\ pages m `prefix_of` pages m'.
Proof.
  destruct o as [recs from|mode]; cbn [model_op]; [|naive_solver].
  destruct skip_bad_page_ops; [naive_solver|]. destruct recs as [recs|]; [|naive_solver].
  destruct (has_nps_mode && _); [naive_solver|]. cbv zeta.
  destruct (add_spec _ _ _ _ _ _) as [ret [[R P] last]] eqn:E1. intros [= <- <-]. by apply add_spec_grows in E1.
Qed.

Lemma model_ops_grows os : forall m rs m', model_ops os m = (rs, m') -> raw m `prefix_of` raw m' /\ pages m `prefix_of` pages m'.
Proof.
  induction os as [|o os IH]; intros m rs m'; cbn [model_ops]; [naive_solver|].
  destruct (model_op o m) as [r m1] eqn:E1, (model_ops os m1) as [rs1 m2] eqn:E2. intros [= <- <-].
  apply model_op_grows in E1 as [? ?]. apply IH in E2 as [? ?]. split; by etrans.
Qed.

Lemma fits_before os m rs m' : model_ops os m = (rs, m') -> fits m' -> fits m.
Proof. intros [?%prefix_length ?%prefix_length]%model_ops_grows [? ?]. split; lia. Qed.

Lemma wp_bp_op o m (r : Z) m' (Q : Z -> bad_pages -> Prop) s : few_pages -> implements m s -> at_threshold s ->
  model_op o m = (r, m') -> fits m' -> (forall s', implements m' s' -> at_threshold s' -> Q r s') -> wp (run_op o) Q s.
Proof.
  intros Hfew (d & T & Hd & H & Hl & Hn) (d' & Hd' & Hc1 & Hc2) Hm [HR HP] HQ. rewrite Hd in Hd'. injection Hd' as <-.
  assert ((0, m) = (r, m') -> Q r s) as Hsame.
  { intros [= <- <-]. apply HQ; [by exists d, T|by exists d]. }
  destruct o as [recs from|mode]; cbn [run_op model_op] in *.
  2:{ injection Hm as <- <-. apply wp_bind, wp_modify, wp_ret, HQ; [by exists d, T|by exists d]. }
  unfold amdgv_umc_add_bad_pages. apply wp_bind, wp_gets, wp_bind, wp_gets. rewrite Hd, Hn.
  destruct skip_bad_page_ops; [injection Hm as <- <-; by apply wp_ret, Hsame|].
  destruct recs as [recs|]; [|injection Hm as <- <-; by apply wp_ret, Hsame].
  assert (forall n, (let '(ret, (R, P, last)) := add_spec recs n from (raw m) (pages m) (last_page m) in
                     (ret, mk_model R P last (mode_of m))) = (r, m') -> wp (add_loop recs n from) Q s) as Hadd.
  { intros n Hs. rewrite <- Hl in Hs. destruct (add_spec recs n from (raw m) (pages m) (last_retired_pfn d)) as [ret [[R P] last]] eqn:Espec in Hs. injection Hs as <- <-.
    cbn in HR, HP. eapply wp_add_loop; [done|exact Hd|exact H|exact Espec|by rewrite Hc1|by rewrite Hc2|].
    intros d' T' H' Hs' Hl'. unfold settled in Hs'. simplify_eq. apply HQ.
    - by exists d', T'.
    - exists d'. by split_and!; [done|congruence|congruence]. }
  destruct recs as [|r0 recs].
  { apply wp_ret. cbn [add_spec] in Hm. case_match; simplify_eq; [by apply Hsame|]. apply HQ; [|by exists d]. exists d, T. done. }
  destruct has_nps_mode; cbn [andb] in Hm; [|by apply Hadd].
  destruct (mode_of m) as [n|] eqn:Em.
  - rewrite bool_decide_false in Hm by done. by apply Hadd.
  - rewrite bool_decide_true in Hm by done. injection Hm as <- <-. by apply wp_ret, Hsame.
Qed.

Lemma wp_run_ops os : forall m rs m' (Q : list Z -> bad_pages -> Prop) s, few_pages -> implements m s -> at_threshold s ->
  model_ops os m = (rs, m') -> fits m' -> (forall s', implements m' s' -> at_threshold s' -> Q rs s') -> wp (run_ops os) Q s.
Proof.
  induction os as [|o os IH]; intros m rs m' Q s Hfew Hi Ha Hm Hf HQ; cbn [run_ops model_ops] in *.
  { injection Hm as <- <-. by apply wp_ret, HQ. }
  destruct (model_op o m) as [r m1] eqn:E1, (model_ops os m1) as [rs1 m2] eqn:E2. injection Hm as <- <-.
  apply wp_bind. eapply wp_bp_op; [done|done|done|done|by eapply fits_before|]. intros s1 Hi1 Ha1.
  apply wp_bind. eapply IH; [done|done|done|done|done|]. intros s2 Hi2 Ha2. by apply wp_ret, HQ.
Qed.
End bad_pages.
