(* ===== verification/BadCopy.v ===== *)
(** * Copies of a guest's frame buffer and their bad pages

    A live migration copies the frame buffer of a VF out on one host and in
    on another (src/libgv/core/amdgv_sched_event.c).  Going out, bad pages are
    skipped; coming in, a copy onto a page that is bad on this host only is
    refused: the list of these is computed from the list the other host sent
    (amdgv_live_migration.c). *)
From S2P Require Import Prelude Api Oss BadPage BadPageInv.
From Stdlib Require Import Sorted.
#[local] Open Scope Z_scope.
#[local] Set Warnings "-clear-no-such-hyp".

Definition AMDGV_MIGRATION_BAD_PAGE_MAGIC : Z := 0x5345474150444142.
Definition MAX_BAD_PAGE_THRESHOLD : Z := 256.

(** Sizes and places in MB. *)
Record vf_window := mk_window { configured : bool; fb_offset : Z; fb_size : Z }.

Record mig_state := mk_mig { dst_unique_bps : option (list Z); dst_unique_bp_count : Z }.
#[export] Instance eta_mig : Eta mig_state := fun r => mk_mig (dst_unique_bps r) (dst_unique_bp_count r).

(** [union amdgv_sched_event_data], the member of a copy. *)
Record vf_fb_copy_data := mk_copy_data { to_fb : bool; cd_fb_offset : Z; cd_size : Z; gpu_addr : Z; vaddr : option Z }.

(** A call of [amdgv_sched_event_do_fb_copy]; [None] is a NULL pointer. *)
Record copy := mk_copy { c_src : Z; c_dst : Z; c_size : Z; c_src_vaddr : option Z; c_dst_vaddr : option Z }.

Record copier := mk_copier {
  bad : bad_pages;
  mig : list mig_state;
  copies : list copy;     (* the calls so far, in order *)
  resets : nat;           (* reset requests queued *)
}.
#[export] Instance eta_copier : Eta copier := fun r => mk_copier (bad r) (mig r) (copies r) (resets r).

(** The section of bad pages in the migration data. *)
Record bad_page_section := mk_section { magic_number : Z; sec_bp_count : Z; sorted_bp_offsets : list Z }.

(** The windows, the mapping of the frame buffer, how the engines answer the
    n-th copy, the apertures and the event queue. *)
Class CopyEnv := {
  array_vf : list vf_window;
  num_vf : Z;
  fb : Z;
  sdma_ring : nat -> bool;
  sdma_ring_copy : nat -> bool;
  dma_engine_lsdma : bool;
  misc_dma_copy : nat -> bool;
  pdb0_mapped : bool;          (* amdgv_memmgr_get_cpu_addr(adapt->pdb0_mem) *)
  gart_size : Z;
  sys_mem_mapped : bool;       (* sys_mem_info.va_ptr *)
  mc_agp_loc_addr : Z;
  copy_event_queued : bool;    (* queueing the event and waiting for it succeeds *)
}.

Section copy.
Context {E : OssEnv} {U : UmcEnv} {V : CopyEnv}.

Definition with_bad {A} (m : M bad_pages A) : M copier A := zoom bad (fun b s => s <| bad := b |>) m.

(** ** The binary searches *)

(** The first index whose page is at [src] or above, or [idx]. *)
Fixpoint find_first (fuel : nat) (l : list Z) (src left right idx : Z) : option Z :=
  if left <=? right then
    match fuel with
    | O => None
    | S fuel =>
        let mid := (left + right) / 2 in
        p ← l !! Z.to_nat mid;
        if src <=? page_to_addr p then find_first fuel l src left (mid - 1) mid
        else find_first fuel l src (mid + 1) right idx
    end
  else Some idx.

(** The last index whose page is below [src_end], or [idx]. *)
Fixpoint find_last (fuel : nat) (l : list Z) (src_end left right idx : Z) : option Z :=
  if left <=? right then
    match fuel with
    | O => None
    | S fuel =>
        let mid := (left + right) / 2 in
        p ← l !! Z.to_nat mid;
        if page_to_addr p <? src_end then find_last fuel l src_end (mid + 1) right mid
        else find_last fuel l src_end left (mid - 1) idx
    end
  else Some idx.

(** The number of bad pages in [src, src_end) and the index of the first. *)
Definition amdgv_find_bad_page_range (d : option ras_err_handler_data) (src src_end : Z) : option (Z * Z) :=
  match d with
  | None => Some (0, -1)
  | Some d =>
      match sorted_bps d with
      | None => Some (0, -1)
      | Some l =>
          let n := sorted_bp_count d in
          if n =? 0 then Some (0, -1) else
          bp_start_idx ← find_first (S (Z.to_nat n)) l src 0 (n - 1) (-1);
          bp_end_idx ← (if bp_start_idx =? -1 then Some (-1)
                        else find_last (S (Z.to_nat n)) l src_end bp_start_idx (n - 1) (-1));
          if negb (bp_start_idx =? -1) && negb (bp_end_idx =? -1) && (bp_start_idx <=? bp_end_idx)
          then Some (bp_end_idx - bp_start_idx + 1, bp_start_idx) else Some (0, bp_start_idx)
      end
  end.

(** [while (left <= right)] of [amdgv_umc_bp_pfn_in_range]: the final [left]. *)
Fixpoint pfn_search (fuel : nat) (l : list Z) (fb_off left right : Z) : option Z :=
  if left <=? right then
    match fuel with
    | O => None
    | S fuel =>
        let mid := (left + right) / 2 in
        p ← l !! Z.to_nat mid;
        if fb_off <=? page_to_addr p then pfn_search fuel l fb_off left (mid - 1)
        else pfn_search fuel l fb_off (mid + 1) right
    end
  else Some left.

Definition amdgv_umc_bp_pfn_in_range (sorted_pfns : list Z) (n fb_off size : Z) : option bool :=
  left ← pfn_search (S (Z.to_nat n)) sorted_pfns fb_off 0 (n - 1);
  if n <=? left then Some false else
  p ← sorted_pfns !! Z.to_nat left;
  Some (amdgv_umc_is_bp_in_range (page_to_addr p) fb_off size).

Definition amdgv_umc_dst_check_bad_pages_in_range (idx_vf : nat) (fb_off size : Z) : M copier bool :=
  s ← gets id;
  st ← require (mig s !! idx_vf);
  match dst_unique_bps st with
  | None => with_bad (amdgv_umc_check_bad_pages_in_range fb_off size)
  | Some l =>
      if dst_unique_bp_count st =? 0 then mret false
      else require (amdgv_umc_bp_pfn_in_range l (dst_unique_bp_count st) fb_off size)
  end.

(** ** One copy *)

Definition amdgv_sched_event_do_fb_copy (src dst size : Z) (src_vaddr dst_vaddr : option Z) : M copier Z :=
  n ← gets (fun s => length (copies s));
  _ ← modify (fun s => s <| copies := copies s ++ [mk_copy src dst size src_vaddr dst_vaddr] |>);
  let by_cpu := mret (match src_vaddr, dst_vaddr with Some _, Some _ => 0 | _, _ => AMDGV_FAILURE end) in
  if negb (src =? 2 ^ 64 - 1) && negb (dst =? 2 ^ 64 - 1) then
    if sdma_ring n then
      if sdma_ring_copy n then mret 0
      else _ ← modify (fun s => s <| resets := S (resets s) |>); mret AMDGV_FAILURE
    else if dma_engine_lsdma && misc_dma_copy n then mret 0 else by_cpu
  else by_cpu.

(** [n]: the bad pages left, the first of which is the [i]-th; [off] is how far
    the copy has come. *)
Fixpoint segment_loop (n : nat) (i : Z) (l : list Z) (src dst total_size : Z) (src_vaddr dst_vaddr : option Z)
    (current_src current_dst remaining : Z) : M copier Z :=
  if remaining <=? 0 then mret 0 else
  p ← (match n with O => mret None | S _ => p ← require (l !! Z.to_nat i); mret (Some p) end);
  let segment_end := match p with Some p => page_to_addr p | None => u64 (src + total_size) end in
  let segment_size := if current_src <? segment_end then Z.min (segment_end - current_src) remaining else 0 in
  ret ← (if 0 <? segment_size then
           amdgv_sched_event_do_fb_copy current_src current_dst segment_size
             ((fun v => v + (current_src - src)) <$> src_vaddr) ((fun v => v + (current_dst - dst)) <$> dst_vaddr)
         else mret 0);
  if negb (ret =? 0) then mret AMDGV_FAILURE else
  let current_src := u64 (current_src + segment_size) in
  let current_dst := u64 (current_dst + segment_size) in
  let remaining := remaining - segment_size in
  match n with
  | O => mret 0
  | S n =>
      let skip_size := if 0 <? remaining then Z.min AMDGV_GPU_PAGE_SIZE remaining else 0 in
      segment_loop n (i + 1) l src dst total_size src_vaddr dst_vaddr
        (u64 (current_src + skip_size)) (u64 (current_dst + skip_size)) (remaining - skip_size)
  end.

Definition amdgv_perform_segmented_fb_copy (d : ras_err_handler_data) (src dst total_size : Z)
    (src_vaddr dst_vaddr : option Z) (bp_start_idx bp_count : Z) : M copier Z :=
  l ← require (sorted_bps d);
  segment_loop (Z.to_nat bp_count) bp_start_idx l src dst total_size src_vaddr dst_vaddr src dst total_size.

Definition amdgv_sched_event_vf_fb_copy_skip_bad_pages (src dst total_size : Z) (src_vaddr dst_vaddr : option Z) :
    M copier Z :=
  data ← gets (fun s => eh_data (bad s));
  let whole := amdgv_sched_event_do_fb_copy src dst total_size src_vaddr dst_vaddr in
  match data with
  | None => whole
  | Some d =>
      if negb (has_sorted d) || (sorted_bp_count d =? 0) then whole else
      '(bp_count, bp_start_idx) ← require (amdgv_find_bad_page_range (Some d) src (u64 (src + total_size)));
      if bp_count =? 0 then whole
      else amdgv_perform_segmented_fb_copy d src dst total_size src_vaddr dst_vaddr bp_start_idx bp_count
  end.

(** ** A request *)

(** The place in the space of the memory controller, the CPU's address and the
    size, cut to the window of the VF. *)
Definition amdgv_sched_event_get_vf_fb_info (idx_vf : Z) (c : vf_fb_copy_data) : M copier (option (Z * Z * Z)) :=
  if num_vf <=? idx_vf then mret None else
  entry ← require (array_vf !! Z.to_nat idx_vf);
  if negb (configured entry) then mret None else
  let vf_fb_offset := MBYTES_TO_BYTES (fb_offset entry) in
  let vf_fb_size := MBYTES_TO_BYTES (fb_size entry) in
  let off := cd_fb_offset c in
  if vf_fb_size <=? off then mret None else
  let size := if vf_fb_size <? u64 (off + cd_size c) then vf_fb_size - off else cd_size c in
  let off := u64 (off + vf_fb_offset) in
  let mc_addr := u64 (off + mc_fb_loc_addr) in
  let mc_addr := if 1 <? phy_nodes_num then u64 (mc_addr + u64 (phy_node_id * node_segment_size)) else mc_addr in
  mret (Some (mc_addr, u64 (fb + off), size)).

(** Source, size, destination and the CPU's addresses of both. *)
Definition amdgv_sched_event_get_vf_fb_copy_info (idx_vf : Z) (c : vf_fb_copy_data) :
    M copier (option (Z * Z * Z * option Z * option Z)) :=
  info ← amdgv_sched_event_get_vf_fb_info idx_vf c;
  match info with
  | None => mret None
  | Some (fb_mc_addr, fb_vaddr, size) =>
      let size := Z.min size (cd_size c) in
      let fb_v := match vaddr c with Some _ => Some fb_vaddr | None => None end in
      mret (Some (if to_fb c then (gpu_addr c, size, fb_mc_addr, vaddr c, fb_v)
                  else (fb_mc_addr, size, gpu_addr c, fb_v, vaddr c)))
  end.

Definition amdgv_sched_event_vf_fb_copy (idx_vf : Z) (c : vf_fb_copy_data) : M copier Z :=
  info ← amdgv_sched_event_get_vf_fb_copy_info idx_vf c;
  match info with
  | None => mret AMDGV_FAILURE
  | Some (src, size, dst, src_vaddr, dst_vaddr) =>
      if size =? 0 then mret AMDGV_FAILURE else
      refused ← (if to_fb c then amdgv_umc_dst_check_bad_pages_in_range (Z.to_nat idx_vf) dst size else mret false);
      if (refused : bool) then mret AMDGV_FAILURE
      else amdgv_sched_event_vf_fb_copy_skip_bad_pages src dst size src_vaddr dst_vaddr
  end.

Definition GART_START : Z := 0.
Definition AMDGV_AGP_APERTURE_SIZE : Z := 16777216. (* 0x10 << 20 *)

Definition amdgv_buffer_do_check (addr size aperture_start aperture_size : Z) : bool :=
  if addr <? aperture_start then false else
  if aperture_size <? size then false else
  if u64 (aperture_size - size) <? u64 (addr - aperture_start) then false else true.

Definition amdgv_buffer_check (addr size : Z) : bool :=
  if size =? 0 then false else
  if pdb0_mapped && amdgv_buffer_do_check addr size GART_START gart_size then true else
  if sys_mem_mapped && amdgv_buffer_do_check addr size mc_agp_loc_addr AMDGV_AGP_APERTURE_SIZE then true else false.

(** The entry point: the event it queues is handled by the event thread while
    it waits. *)
Definition amdgv_vf_fb_copy (idx_vf : Z) (c : vf_fb_copy_data) : M copier Z :=
  if negb (idx_vf =? AMDGV_PF_IDX) && (num_vf <=? idx_vf) then mret AMDGV_FAILURE else
  if negb (amdgv_buffer_check (gpu_addr c) (cd_size c)) then mret AMDGV_FAILURE else
  if negb copy_event_queued then mret AMDGV_FAILURE
  else amdgv_sched_event_vf_fb_copy idx_vf c.

(** ** The lists of a migration *)

Definition mc_base_pfn : Z := Z.shiftr mc_base AMDGV_GPU_PAGE_SHIFT.

(** The result, the magic number written, and count and offsets unless the
    call fails. *)
Definition amdgv_migration_export_bad_pages : M copier (Z * option bad_page_section) :=
  data ← gets (fun s => eh_data (bad s));
  match data with
  | None => mret (0, Some (mk_section AMDGV_MIGRATION_BAD_PAGE_MAGIC 0 []))
  | Some d =>
      match sorted_bps d with
      | None => mret (0, Some (mk_section AMDGV_MIGRATION_BAD_PAGE_MAGIC 0 []))
      | Some l =>
          let n := sorted_bp_count d in
          if MAX_BAD_PAGE_THRESHOLD <? n then mret (AMDGV_FAILURE, None) else
          _ ← demand (n <=? Z.of_nat (length l));
          mret (0, Some (mk_section AMDGV_MIGRATION_BAD_PAGE_MAGIC n
                  (map (fun p => u64 (p - mc_base_pfn)) (take (Z.to_nat n) l))))
      end
  end.

(** The inner [while]: the first index of the section whose page is not below [p]. *)
Fixpoint advance_src (fuel : nat) (sec : bad_page_section) (src_idx p : Z) : option Z :=
  if src_idx <? sec_bp_count sec then
    o ← sorted_bp_offsets sec !! Z.to_nat src_idx;
    if u64 (o + mc_base_pfn) <? p then
      match fuel with O => None | S fuel => advance_src fuel sec (src_idx + 1) p end
    else Some src_idx
  else Some src_idx.

(** [l]: the pages of this host left; [out]: the array of unique pages, of
    which [n] are filled. *)
Fixpoint unique_pages (l : list Z) (sec : bad_page_section) (src_idx n : Z) (out : list Z) : option (Z * list Z) :=
  match l with
  | [] => Some (n, out)
  | p :: l =>
      src_idx ← advance_src (Z.to_nat (sec_bp_count sec - src_idx)) sec src_idx p;
      o ← (if src_idx <? sec_bp_count sec then Some <$> (sorted_bp_offsets sec !! Z.to_nat src_idx) else Some None);
      if match o with Some o => u64 (o + mc_base_pfn) =? p | None => false end
      then unique_pages l sec src_idx n out
      else _ ← out !! Z.to_nat n; unique_pages l sec src_idx (n + 1) (<[Z.to_nat n := p]> out)
  end.

Definition set_mig (idx_vf : nat) (f : mig_state -> mig_state) : M copier unit :=
  st ← gets (fun s => mig s !! idx_vf); st ← require st;
  modify (fun s => s <| mig := <[idx_vf := f st]> (mig s) |>).

Definition amdgv_migration_import_bad_pages (idx_vf : nat) (sec : bad_page_section) : M copier Z :=
  st ← gets (fun s => mig s !! idx_vf); st ← require st;
  data ← gets (fun s => eh_data (bad s));
  if negb (magic_number sec =? AMDGV_MIGRATION_BAD_PAGE_MAGIC) then mret 0 else
  match data with
  | None => mret 0
  | Some d =>
      if MAX_BAD_PAGE_THRESHOLD <? sec_bp_count sec then mret AMDGV_FAILURE else
      ok ← (match dst_unique_bps st with None => with_bad (oss oss_alloc) | Some _ => mret true end);
      if negb ok then mret AMDGV_FAILURE else
      let out := replicate (Z.to_nat MAX_BAD_PAGE_THRESHOLD) 0 in
      _ ← set_mig idx_vf (fun st => st <| dst_unique_bps := Some out |> <| dst_unique_bp_count := 0 |>);
      match sorted_bps d with
      | None => mret 0
      | Some l =>
          let n := sorted_bp_count d in
          if MAX_BAD_PAGE_THRESHOLD <? n then mret AMDGV_FAILURE else
          _ ← demand (n <=? Z.of_nat (length l));
          '(k, out) ← require (unique_pages (take (Z.to_nat n) l) sec 0 0 out);
          _ ← set_mig idx_vf (fun st => st <| dst_unique_bps := Some out |> <| dst_unique_bp_count := k |>);
          mret 0
      end
  end.
End copy.

(** ** Addresses of pages *)

Lemma page_to_addr_small p : 0 <= p < 2 ^ 52 -> page_to_addr p = p * 4096.
Proof.
  intros. unfold page_to_addr, AMDGV_GPU_PAGE_SHIFT. rewrite Z.shiftl_mul_pow2 by lia. apply wrap_id. unfold in_width. lia.
Qed.

Lemma is_bp_in_range_page p off size : 0 <= p < 2 ^ 52 ->
  amdgv_umc_is_bp_in_range (p * 4096) off size = (off <=? p * 4096) && (p * 4096 + 4095 <? u64 (off + size)).
Proof.
  intros Hp. unfold amdgv_umc_is_bp_in_range, AMDGV_GPU_PAGE_SIZE.
  assert (p * 4096 = Z.shiftl p 12) as E1 by by rewrite Z.shiftl_mul_pow2.
  assert (Z.land (p * 4096) (u64 (Z.lnot (4096 - 1))) = p * 4096) as ->.
  { rewrite E1. replace (u64 (Z.lnot (4096 - 1))) with (Z.shiftl (Z.ones 52) 12) by reflexivity.
    rewrite <- Z.shiftl_land, Z.land_ones by lia. by rewrite Z.mod_small. }
  assert (Z.land (p * 4096) 4095 = 0) as Hz.
  { change 4095 with (Z.ones 12). rewrite Z.land_ones by lia. change 4096 with (2 ^ 12). apply Z.mod_mul. lia. }
  change (4096 - 1) with 4095. rewrite <- Z.lxor_lor, <- Z.add_nocarry_lxor by done. done.
Qed.

(** Page frames, in order. *)
Definition page_list (T : list Z) : Prop := StronglySorted Z.lt T /\ Forall (fun p => 0 <= p < 2 ^ 52) T.

Lemma page_list_app A B : page_list (A ++ B) -> page_list A /\ page_list B /\ (forall a b, a ∈ A -> b ∈ B -> a < b).
Proof.
  intros [Hs [HA HB]%Forall_app]. revert HA Hs. induction A as [|x A IH]; intros HA; cbn.
  - intros Hs. split_and!; [by split; constructor|done|by intros a b ?%elem_of_nil].
  - intros Hs. inversion Hs as [|? ? Hs' Hx]; subst. apply Forall_app in Hx as [Hx HxB]. inversion HA; subst.
    destruct (IH H2 Hs') as ([? ?] & ? & Hab). split_and!; [split; by constructor|done|].
    intros a b [->|Ha]%elem_of_cons Hb; [|by apply Hab]. rewrite Forall_forall in HxB. by apply HxB.
Qed.

Lemma page_list_split T c : page_list T -> exists A B, T = A ++ B /\ Forall (fun p => p * 4096 < c) A /\ Forall (fun p => c <= p * 4096) B.
Proof.
  intros [Hs _]. induction Hs as [|x T Hs (A & B & -> & HA & HB) Hx].
  - by exists [], [].
  - destruct (Z.lt_ge_cases (x * 4096) c).
    + exists (x :: A), B. by split_and!; [|constructor|].
    + exists [], (x :: A ++ B). split_and!; [done|done|]. constructor; [lia|].
      eapply Forall_impl; [exact Hx|]. cbn. lia.
Qed.

(** ** The searches *)

Section search.
Variables (l T : list Z).
Hypothesis Hl : take (length T) l = T.
Hypothesis HT : page_list T.

Lemma page_at i : (i < length T)%nat -> exists p, l !! i = Some p /\ T !! i = Some p /\ page_to_addr p = p * 4096.
Proof using Hl HT.
  intros [p Hp]%lookup_lt_is_Some_2. exists p. split_and!; [by eapply take_lookup_lt|done|].
  apply page_to_addr_small. destruct HT as [_ HF]. rewrite Forall_lookup in HF. by eapply HF.
Qed.

Section bound.
Variables (c : Z) (A B : list Z).
Hypothesis HAB : T = A ++ B.
Hypothesis HA : Forall (fun p => p * 4096 < c) A.
Hypothesis HB : Forall (fun p => c <= p * 4096) B.

Lemma page_side i p : T !! i = Some p -> p * 4096 < c <-> (i < length A)%nat.
Proof using HAB HA HB.
  rewrite HAB. rewrite Forall_lookup in HA. rewrite Forall_lookup in HB. intros [Hi|[Hle Hi]]%lookup_app_Some.
  - split; [intros; by eapply lookup_lt_Some|intros _; by eapply HA].
  - split; [|lia]. specialize (HB _ _ Hi). lia.
Qed.

Lemma find_first_spec fuel : forall left right, right - left + 1 < Z.of_nat fuel -> 0 <= left <= Z.of_nat (length A) ->
  Z.of_nat (length A) <= right + 1 <= Z.of_nat (length T) ->
  find_first fuel l c left right (if right + 1 =? Z.of_nat (length T) then -1 else right + 1) =
    Some (match B with [] => -1 | _ => Z.of_nat (length A) end).
Proof using Hl HT HAB HA HB.
  induction fuel as [|fuel IH]; intros left right Hf Hlo Hhi; cbn [find_first].
  - destruct (Z.leb_spec left right); [lia|]. assert (right + 1 = Z.of_nat (length A)) as -> by lia.
    rewrite HAB, length_app. destruct B; cbn [length]; [rewrite Nat.add_0_r, Z.eqb_refl|destruct (Z.eqb_spec (Z.of_nat (length A)) (Z.of_nat (length A + S (length l0))))]; done || lia.
  - destruct (Z.leb_spec left right).
    + set (mid := (left + right) / 2). assert (left <= mid <= right) as Hm by (unfold mid; split; [apply Z.div_le_lower_bound|apply Z.div_le_upper_bound]; lia).
      destruct (page_at (Z.to_nat mid)) as (p & Hp & HTp & Ep); [lia|]. rewrite Hp. cbn [mbind option_bind]. rewrite Ep.
      pose proof (page_side _ _ HTp) as Hside. destruct (Z.leb_spec c (p * 4096)).
      * assert (~ (Z.to_nat mid < length A)%nat) by (rewrite <- Hside; lia).
        specialize (IH left (mid - 1)). rewrite Z.sub_add in IH.
        destruct (Z.eqb_spec mid (Z.of_nat (length T))); [lia|]. apply IH; lia.
      * assert ((Z.to_nat mid < length A)%nat) by (apply Hside; lia). apply IH; lia.
    + assert (right + 1 = Z.of_nat (length A)) as -> by lia. rewrite HAB, length_app.
      destruct B; cbn [length]; [rewrite Nat.add_0_r, Z.eqb_refl|destruct (Z.eqb_spec (Z.of_nat (length A)) (Z.of_nat (length A + S (length l0))))]; done || lia.
Qed.

Lemma find_last_spec fuel low : forall left right, right - left + 1 < Z.of_nat fuel -> 0 <= low <= left ->
  left <= Z.of_nat (length A) <= right + 1 -> right < Z.of_nat (length T) ->
  find_last fuel l c left right (if left =? low then -1 else left - 1) =
    Some (if Z.of_nat (length A) =? low then -1 else Z.of_nat (length A) - 1).
Proof using Hl HT HAB HA HB.
  induction fuel as [|fuel IH]; intros left right Hf Hlow Hlo Hhi; cbn [find_last].
  - destruct (Z.leb_spec left right); [lia|]. by assert (left = Z.of_nat (length A)) as -> by lia.
  - destruct (Z.leb_spec left right).
    + set (mid := (left + right) / 2). assert (left <= mid <= right) as Hm by (unfold mid; split; [apply Z.div_le_lower_bound|apply Z.div_le_upper_bound]; lia).
      destruct (page_at (Z.to_nat mid)) as (p & Hp & HTp & Ep); [lia|]. rewrite Hp. cbn [mbind option_bind]. rewrite Ep.
      pose proof (page_side _ _ HTp) as Hside. destruct (Z.ltb_spec (p * 4096) c).
      * assert ((Z.to_nat mid < length A)%nat) by (by apply Hside).
        specialize (IH (mid + 1) right). rewrite Z.add_simpl_r in IH.
        destruct (Z.eqb_spec (mid + 1) low); [lia|]. apply IH; lia.
      * assert (~ (Z.to_nat mid < length A)%nat) by (rewrite <- Hside; lia). apply IH; lia.
    + by assert (left = Z.of_nat (length A)) as -> by lia.
Qed.

Lemma pfn_search_spec fuel : forall left right, right - left + 1 < Z.of_nat fuel -> 0 <= left <= Z.of_nat (length A) ->
  Z.of_nat (length A) <= right + 1 <= Z.of_nat (length T) ->
  pfn_search fuel l c left right = Some (Z.of_nat (length A)).
Proof using Hl HT HAB HA HB.
  induction fuel as [|fuel IH]; intros left right Hf Hlo Hhi; cbn [pfn_search].
  - destruct (Z.leb_spec left right); [lia|]. f_equal. lia.
  - destruct (Z.leb_spec left right); [|f_equal; lia].
    set (mid := (left + right) / 2). assert (left <= mid <= right) as Hm by (unfold mid; split; [apply Z.div_le_lower_bound|apply Z.div_le_upper_bound]; lia).
    destruct (page_at (Z.to_nat mid)) as (p & Hp & HTp & Ep); [lia|]. rewrite Hp. cbn [mbind option_bind]. rewrite Ep.
    pose proof (page_side _ _ HTp) as Hside. destruct (Z.leb_spec c (p * 4096)).
    + assert (~ (Z.to_nat mid < length A)%nat) by (rewrite <- Hside; lia). apply IH; lia.
    + assert ((Z.to_nat mid < length A)%nat) by (apply Hside; lia). apply IH; lia.
Qed.
End bound.
End search.

(** ** The segments of a copy *)

(** The clean parts of [cur, stop) when the pages [C] are bad. *)
Fixpoint segments (C : list Z) (cur stop : Z) : list (Z * Z) :=
  match C with
  | [] => if cur <? stop then [(cur, stop - cur)] else []
  | p :: C => (if cur <? p * 4096 then [(cur, p * 4096 - cur)] else []) ++ segments C (Z.min (p * 4096 + 4096) stop) stop
  end.

Definition in_seg (a : Z) (g : Z * Z) : Prop := g.1 <= a < g.1 + g.2.
Definition in_page (a p : Z) : Prop := p * 4096 <= a < p * 4096 + 4096.

(** The bad pages of a copy of [cur, stop). *)
Definition within (C : list Z) (cur stop : Z) : Prop := page_list C /\ (forall p, p ∈ C -> cur <= p * 4096 < stop) /\ cur <= stop.

Lemma within_tail p C cur stop : within (p :: C) cur stop ->
  cur <= p * 4096 < stop /\ within C (Z.min (p * 4096 + 4096) stop) stop.
Proof.
  intros (HC & Hin & Hle). destruct (page_list_app [p] C HC) as (_ & HC' & Hlt). pose proof (Hin p ltac:(by left)) as Hp.
  split; [done|]. split; [done|]. split; [|lia]. intros q Hq.
  specialize (Hlt p q ltac:(by left) Hq). specialize (Hin q ltac:(by right)). lia.
Qed.

Lemma elem_of_if {A} (b : bool) (x y : A) : x ∈ (if b then [y] else []) <-> b = true /\ x = y.
Proof. destruct b; rewrite ?list_elem_of_singleton, ?elem_of_nil; naive_solver. Qed.

Lemma segments_bounds C : forall cur stop g, within C cur stop -> g ∈ segments C cur stop ->
  cur <= g.1 /\ 0 < g.2 /\ g.1 + g.2 <= stop.
Proof.
  induction C as [|p C IH]; intros cur stop g HC; cbn [segments].
  - intros [Hb ->]%elem_of_if. zb. cbn. lia.
  - apply within_tail in HC as [Hp HC]. intros [[Hb ->]%elem_of_if|Hg]%elem_of_app; [zb; cbn; lia|].
    specialize (IH _ _ g HC Hg). lia.
Qed.

Lemma segments_order C : forall cur stop, within C cur stop -> StronglySorted (fun g h => g.1 + g.2 <= h.1) (segments C cur stop).
Proof.
  induction C as [|p C IH]; intros cur stop HC; cbn [segments].
  - destruct (cur <? stop); repeat constructor.
  - apply within_tail in HC as [Hp HC]. destruct (cur <? p * 4096); cbn [app]; [|by apply IH].
    constructor; [by apply IH|]. apply Forall_forall. intros h Hh. apply segments_bounds in Hh; [|done]. cbn. lia.
Qed.

Lemma segments_cover C : forall cur stop, within C cur stop -> forall a, cur <= a < stop ->
  (exists g, g ∈ segments C cur stop /\ in_seg a g) <-> ~ exists p, p ∈ C /\ in_page a p.
Proof.
  induction C as [|p C IH]; intros cur stop HC a Ha; cbn [segments].
  - split.
    + intros _ (p & ?%elem_of_nil & _). done.
    + intros _. exists (cur, stop - cur). unfold in_seg. rewrite elem_of_if, Z.ltb_lt. cbn. split; [split; [lia|done]|lia].
  - apply within_tail in HC as [Hp HC]. setoid_rewrite elem_of_app. setoid_rewrite elem_of_if. setoid_rewrite elem_of_cons.
    setoid_rewrite Z.ltb_lt. destruct (Z.lt_ge_cases a (p * 4096 + 4096)) as [Hap|Hap].
    + assert (forall g, g ∈ segments C (Z.min (p * 4096 + 4096) stop) stop -> ~ in_seg a g) as Hno.
      { intros g Hg. apply segments_bounds in Hg; [|done]. unfold in_seg. lia. }
      assert (forall q, q ∈ C -> ~ in_page a q) as Hnq.
      { intros q Hq. destruct HC as (_ & Hq' & _). specialize (Hq' _ Hq). unfold in_page. lia. }
      split.
      * intros (g & [[Hc ->]|Hg] & Hs); [|by destruct (Hno g)]. intros (q & [->|Hq] & Hi); [|by destruct (Hnq q)].
        unfold in_seg, in_page in *. cbn in *. lia.
      * intros Hn. exists (cur, p * 4096 - cur). assert (~ in_page a p) as Hi by (intros ?; apply Hn; exists p; tauto).
        unfold in_seg, in_page in *. cbn. split; [left; split; [lia|done]|lia].
    + specialize (IH _ _ HC a ltac:(lia)). split.
      * intros (g & [[Hc ->]|Hg] & Hs); [unfold in_seg in Hs; cbn in Hs; lia|]. intros (q & [->|Hq] & Hi); [unfold in_page in Hi; lia|].
        assert (exists g, g ∈ segments C (Z.min (p * 4096 + 4096) stop) stop /\ in_seg a g) as Hex by by exists g.
        apply IH in Hex. apply Hex. by exists q.
      * intros Hn. destruct (proj2 IH) as (g & Hg & Hs); [|exists g; tauto]. intros (q & Hq & Hi). apply Hn. exists q. tauto.
Qed.

(** ** Running a copy *)

Lemma match_nil {A} (B : list A) (v w : Z) : match B with [] => v | _ => w end = if bool_decide (B = []) then v else w.
Proof. by destruct B. Qed.

Section run.
Context {E : OssEnv} {U : UmcEnv} {V : CopyEnv}.
Implicit Types (s t : copier) (d : ras_err_handler_data) (T : list Z).

(** The sorted pages of an adapter. *)
Definition has_pages T d : Prop :=
  array (sorted_bps d) (sorted_bps_cap d) T /\ sorted_bp_count d = Z.of_nat (length T) /\ page_list T.

Lemma find_range_spec T d src stop : has_pages T d -> src <= stop < 2 ^ 64 ->
  exists A C D i, T = A ++ C ++ D /\ Forall (fun p => p * 4096 < src) A /\ Forall (fun p => stop <= p * 4096) D /\
    within C src stop /\ amdgv_find_bad_page_range (Some d) src stop = Some (Z.of_nat (length C), i) /\
    (C <> [] -> i = Z.of_nat (length A)).
Proof.
  intros ((l & El & _ & Hl) & Hn & HT) Hle. unfold amdgv_find_bad_page_range. rewrite El, Hn.
  destruct (page_list_split T src HT) as (A & B & HAB & HA & HB). pose proof HT as HT'. rewrite HAB in HT'.
  apply page_list_app in HT' as (_ & HTB & _). destruct (page_list_split B stop HTB) as (C & D & -> & HC & HD).
  exists A, C, D. apply page_list_app in HTB as (HTC & _ & _). pose proof HB as HCD. apply Forall_app in HB as [HC' _].
  assert (within C src stop) as Hw.
  { split; [done|]. split; [|lia]. rewrite Forall_forall in HC. rewrite Forall_forall in HC'. intros p Hp. split; [by apply HC'|by apply HC]. }
  assert (length T = length A + (length C + length D))%nat as HlT by by rewrite HAB, !length_app.
  destruct (Z.eqb_spec (Z.of_nat (length T)) 0) as [E0|E0].
  { assert (T = []) as -> by (destruct T; done). destruct A, C, D; try done. exists (-1). by split_and!. }
  assert (find_first (S (length T)) l src 0 (Z.of_nat (length T) - 1) (-1) =
    Some (match C ++ D with [] => -1 | _ => Z.of_nat (length A) end)) as E1.
  { pose proof (find_first_spec l T Hl HT src A (C ++ D) HAB HA) as Hf.
    specialize (Hf HCD (S (length T)) 0 (Z.of_nat (length T) - 1)).
    rewrite Z.sub_add, Z.eqb_refl in Hf. apply Hf; lia. }
  rewrite Nat2Z.id, E1. cbn [mbind option_bind]. rewrite match_nil.
  case_bool_decide as Hcd.
  { apply app_eq_nil in Hcd as [-> ->]. exists (-1). by split_and!. }
  assert ((Z.of_nat (length A) =? -1) = false) as -> by (apply Z.eqb_neq; lia).
  assert (T = (A ++ C) ++ D) as HACD by by rewrite <- app_assoc.
  pose proof (find_last_spec l T Hl HT stop (A ++ C) D HACD) as Hf.
  assert (Forall (fun p => p * 4096 < stop) (A ++ C)) as HAC.
  { apply Forall_app. split; [|done]. apply (Forall_impl _ _ _ HA). intros. lia. }
  specialize (Hf HAC HD (S (length T)) (Z.of_nat (length A)) (Z.of_nat (length A)) (Z.of_nat (length T) - 1)).
  rewrite Z.eqb_refl in Hf. rewrite length_app in Hf. rewrite Hf; clear Hf; [|lia..].
  cbn [mbind option_bind negb]. exists (Z.of_nat (length A)). do 4 (split; [done|]). split; [|done].
  destruct C as [|p C].
  - cbn [length]. rewrite Nat.add_0_r, Z.eqb_refl. done.
  - cbn [length]. destruct (Z.eqb_spec (Z.of_nat (length A + S (length C))) (Z.of_nat (length A))); [lia|].
    assert ((Z.of_nat (length A + S (length C)) - 1 =? -1) = false) as -> by (apply Z.eqb_neq; lia). cbn [negb andb].
    destruct (Z.leb_spec (Z.of_nat (length A)) (Z.of_nat (length A + S (length C)) - 1)); [|lia]. f_equal. f_equal. lia.
Qed.

(** The call that copies one segment. *)
Definition call_of (src dst : Z) (sv dv : option Z) (g : Z * Z) : copy :=
  mk_copy g.1 (dst + (g.1 - src)) g.2 ((fun v => v + (g.1 - src)) <$> sv) ((fun v => v + (g.1 - src)) <$> dv).

(** Only the copies asked for and the resets queued differ. *)
Definition only_copied s t : Prop := bad t = bad s /\ mig t = mig s.

Lemma wp_do_fb_copy src dst size sv dv (Q : Z -> copier -> Prop) s :
  (forall r t, r = 0 \/ r = AMDGV_FAILURE -> only_copied s t -> copies t = copies s ++ [mk_copy src dst size sv dv] -> Q r t) ->
  wp (amdgv_sched_event_do_fb_copy src dst size sv dv) Q s.
Proof.
  intros HQ. unfold amdgv_sched_event_do_fb_copy. apply wp_bind, wp_gets, wp_bind, wp_modify. cbv zeta.
  set (s1 := s <| copies := _ |>).
  assert (forall r, r = 0 \/ r = AMDGV_FAILURE -> Q r s1) as H1 by (intros r Hr; by apply HQ).
  repeat first [apply wp_ret, H1; by eauto | apply wp_bind, wp_modify, wp_ret, HQ; [by right|done|done] | case_match].
Qed.

(** All segments were copied, or some of them and then one call failed. *)
Definition outcome_of (cs : list copy) s (r : Z) t : Prop :=
  only_copied s t /\
  ((r = 0 /\ copies t = copies s ++ cs) \/ (r = AMDGV_FAILURE /\ exists pre, pre `prefix_of` cs /\ copies t = copies s ++ pre)).

Lemma wp_segment_loop l src dst total sv dv : 0 <= src -> src + total < 2 ^ 64 -> 0 <= dst -> dst + total < 2 ^ 64 ->
  forall C i cur s (Q : Z -> copier -> Prop), within C cur (src + total) -> src <= cur ->
  (forall j p, C !! j = Some p -> l !! (Z.to_nat i + j)%nat = Some p) -> 0 <= i ->
  (forall r t, outcome_of (call_of src dst sv dv <$> segments C cur (src + total)) s r t -> Q r t) ->
  wp (segment_loop (length C) i l src dst total sv dv cur (dst + (cur - src)) (src + total - cur)) Q s.
Proof.
  intros Hsrc Hend Hdst Hdend. induction C as [|p C IH]; intros i cur s Q HC Hcur Hl Hi HQ; cbn [segment_loop length segments] in *.
  - destruct HC as (_ & _ & Hle). destruct (Z.leb_spec (src + total - cur) 0) as [Hz|Hz].
    { apply wp_ret, HQ. split; [done|]. left. destruct (Z.ltb_spec cur (src + total)); [lia|]. cbn. by rewrite app_nil_r. }
    cbn [length]. apply wp_bind, wp_ret. cbv zeta. rewrite (wrap_id 64 (src + total)) by (unfold in_width; lia).
    destruct (Z.ltb_spec cur (src + total)); [|lia]. rewrite Z.min_id.
    destruct (Z.ltb_spec 0 (src + total - cur)); [|lia].
    apply wp_bind, wp_do_fb_copy. intros r t Hr Ht Hc.
    assert (outcome_of (call_of src dst sv dv <$> [(cur, src + total - cur)]) s r t) as Ho.
    { split; [done|]. destruct Hr as [->| ->]; [left|right; split; [done|]; eexists; split; [reflexivity|]].
      all: rewrite Hc; cbn; unfold call_of; cbn; replace (dst + (cur - src) - dst) with (cur - src) by lia; done. }
    destruct Hr as [->| ->]; cbn [Z.eqb negb]; apply wp_ret; by apply HQ.
  - pose proof HC as (HpC & _ & _). apply within_tail in HC as [Hp HC].
    assert (page_to_addr p = p * 4096) as Ep.
    { apply page_to_addr_small. destruct HpC as [_ HF]. by inversion HF. }
    destruct (Z.leb_spec (src + total - cur) 0) as [Hz|Hz]; [lia|].
    pose proof (Hl 0%nat p eq_refl) as Hp0. rewrite Nat.add_0_r in Hp0.
    apply wp_bind, wp_bind. eapply wp_require; [done|]. apply wp_ret. cbv zeta. rewrite Ep.
    assert (forall s, outcome_of [] s 0 s) as Hnil by (intros s0; split; [done|]; left; by rewrite app_nil_r).
    set (first := if cur <? p * 4096 then [(cur, p * 4096 - cur)] else []).
    assert (forall Q' : Z -> copier -> Prop,
      (forall r t, outcome_of (call_of src dst sv dv <$> first) s r t -> Q' r t) ->
      wp (if 0 <? (if cur <? p * 4096 then Z.min (p * 4096 - cur) (src + total - cur) else 0)
          then amdgv_sched_event_do_fb_copy cur (dst + (cur - src)) (if cur <? p * 4096 then Z.min (p * 4096 - cur) (src + total - cur) else 0)
                 ((fun v => v + (cur - src)) <$> sv) ((fun v => v + (dst + (cur - src) - dst)) <$> dv)
          else mret 0) Q' s) as Hfirst.
    { intros Q' HQ'. unfold first in *. destruct (Z.ltb_spec cur (p * 4096)).
      - rewrite Z.min_l by lia. destruct (Z.ltb_spec 0 (p * 4096 - cur)); [|lia]. apply wp_do_fb_copy. intros r t Hr Ht Hc. apply HQ'.
        split; [done|]. destruct Hr as [->| ->]; [left|right; split; [done|]; eexists; split; [reflexivity|]].
        all: rewrite Hc; cbn; unfold call_of; cbn; replace (dst + (cur - src) - dst) with (cur - src) by lia; done.
      - apply wp_ret, HQ', Hnil. }
    set (sz := if cur <? p * 4096 then Z.min (p * 4096 - cur) (src + total - cur) else 0) in *.
    assert (sz = p * 4096 - cur) as Hsz by (unfold sz; destruct (Z.ltb_spec cur (p * 4096)); lia).
    apply wp_bind, Hfirst. intros r t (Ht & [[-> Hc]|[-> (pre & Hpre & Hc)]]); cbn [Z.eqb negb].
    + rewrite Hsz in *. rewrite (wrap_id 64 (cur + (p * 4096 - cur))), (wrap_id 64 (dst + (cur - src) + (p * 4096 - cur))) by (unfold in_width; lia).
      destruct (Z.ltb_spec 0 (src + total - cur - (p * 4096 - cur))); [|lia].
      set (skip := Z.min AMDGV_GPU_PAGE_SIZE (src + total - cur - (p * 4096 - cur))).
      assert (p * 4096 + skip = Z.min (p * 4096 + 4096) (src + total)) as Hskip by (unfold skip, AMDGV_GPU_PAGE_SIZE; lia).
      rewrite !wrap_id by (unfold in_width, skip, AMDGV_GPU_PAGE_SIZE; lia).
      specialize (IH (i + 1) (Z.min (p * 4096 + 4096) (src + total)) t Q HC ltac:(lia)).
      replace (dst + (Z.min (p * 4096 + 4096) (src + total) - src)) with (dst + (cur - src) + (p * 4096 - cur) + skip) in IH by lia.
      replace (src + total - Z.min (p * 4096 + 4096) (src + total)) with (src + total - cur - (p * 4096 - cur) - skip) in IH by lia.
      replace (cur + (p * 4096 - cur) + skip) with (Z.min (p * 4096 + 4096) (src + total)) by lia.
      apply IH; [|lia|].
      * intros j q Hj. specialize (Hl (S j) q Hj). rewrite <- Hl. f_equal. lia.
      * intros r' t' (Ht' & Ho). apply HQ. rewrite fmap_app. unfold only_copied in *. split; [by destruct Ht as [-> ->] in Ht'|].
        destruct Ho as [[-> Hc']|[-> (pre & Hpre & Hc')]]; [left|right]; split; try done.
        -- rewrite Hc', Hc. by rewrite app_assoc.
        -- exists ((call_of src dst sv dv <$> first) ++ pre). split; [by apply prefix_app|]. rewrite Hc', Hc. by rewrite app_assoc.
    + apply wp_ret, HQ. rewrite fmap_app. split; [done|]. right. split; [done|]. exists pre. split; [|done]. by apply prefix_app_r.
Qed.
(** The pages a copy from [src] skips. *)
Definition skipped T (src : Z) : list Z := filter (fun p => src <= p * 4096) T.

Lemma wp_skip_bad_pages src dst total sv dv (Q : Z -> copier -> Prop) s T :
  (forall d, eh_data (bad s) = Some d -> has_sorted d = true -> has_pages T d) ->
  (match eh_data (bad s) with Some d => has_sorted d | None => false end = false -> T = []) ->
  0 <= src -> 0 < total -> src + total < 2 ^ 64 -> 0 <= dst -> dst + total < 2 ^ 64 ->
  (forall r t C, within C src (src + total) -> (forall a, src <= a < src + total -> (exists p, p ∈ C /\ in_page a p) <-> exists p, p ∈ skipped T src /\ in_page a p) ->
     outcome_of (call_of src dst sv dv <$> segments C src (src + total)) s r t -> Q r t) ->
  wp (amdgv_sched_event_vf_fb_copy_skip_bad_pages src dst total sv dv) Q s.
Proof.
  intros HT H0 Hsrc Htot Hend Hdst Hdend HQ. unfold amdgv_sched_event_vf_fb_copy_skip_bad_pages.
  apply wp_bind, wp_gets. cbv zeta.
  assert ((forall a, src <= a < src + total -> ~ exists p, p ∈ skipped T src /\ in_page a p) ->
    wp (amdgv_sched_event_do_fb_copy src dst total sv dv) Q s) as Hwhole.
  { intros Hno. apply wp_do_fb_copy. intros r t Hr Ht Hc. apply (HQ r t []).
    - split; [by split; constructor|]. split; [by intros p ?%elem_of_nil|lia].
    - intros a Ha. split; [by intros (p & ?%elem_of_nil & _)|]. intros Hp. by destruct (Hno a Ha).
    - cbn [segments]. destruct (Z.ltb_spec src (src + total)); [|lia]. split; [done|].
      destruct Hr as [->| ->]; [left|right; split; [done|]; eexists; split; [reflexivity|]].
      all: rewrite Hc; cbn; unfold call_of; cbn; rewrite Z.sub_diag, !Z.add_0_r, Z.add_simpl_l; destruct sv, dv; cbn; by rewrite ?Z.add_0_r. }
  destruct (eh_data (bad s)) as [d|].
  2:{ apply Hwhole. intros a _ (p & [_ Hp]%list_elem_of_filter & _). rewrite (H0 eq_refl) in Hp. by apply elem_of_nil in Hp. }
  destruct (has_sorted d) eqn:Hso; cbn [negb orb].
  2:{ apply Hwhole. intros a _ (p & [_ Hp]%list_elem_of_filter & _). rewrite (H0 eq_refl) in Hp. by apply elem_of_nil in Hp. }
  specialize (HT d eq_refl Hso). pose proof HT as ((l & El & _ & Hl) & Hn & _).
  destruct (Z.eqb_spec (sorted_bp_count d) 0) as [Hz|Hz].
  { apply Hwhole. intros a _ (p & [_ Hp]%list_elem_of_filter & _). destruct T; [by apply elem_of_nil in Hp|cbn in Hn; lia]. }
  rewrite (wrap_id 64 (src + total)) by (unfold in_width; lia).
  destruct (find_range_spec T d src (src + total) HT ltac:(lia)) as (A & C & D & i & HTe & HA & HD & HC & E1 & Hi).
  apply wp_bind. eapply wp_require; [exact E1|]. cbv beta iota.
  assert (forall a, src <= a < src + total -> (exists p, p ∈ C /\ in_page a p) <-> exists p, p ∈ skipped T src /\ in_page a p) as Hsk.
  { intros a Ha. unfold skipped. setoid_rewrite list_elem_of_filter. rewrite HTe. setoid_rewrite elem_of_app. setoid_rewrite elem_of_app.
    rewrite Forall_forall in HA. rewrite Forall_forall in HD. split.
    - intros (p & Hp & Hin). exists p. destruct HC as (_ & HC & _). specialize (HC _ Hp). split; [split; [lia|tauto]|done].
    - intros (p & (Hge & [Hp|[Hp|Hp]]) & Hin); [specialize (HA _ Hp); lia|by exists p|]. specialize (HD _ Hp). unfold in_page in Hin. lia. }
  destruct (Z.eqb_spec (Z.of_nat (length C)) 0) as [Hc0|Hc0].
  { apply Hwhole. intros a Ha Hex. apply Hsk in Hex as (p & Hp & _); [|done]. destruct C; [by apply elem_of_nil in Hp|cbn in Hc0; lia]. }
  unfold amdgv_perform_segmented_fb_copy. apply wp_bind. eapply wp_require; [done|]. rewrite Nat2Z.id.
  rewrite Hi by by destruct C.
  pose proof (wp_segment_loop l src dst total sv dv Hsrc Hend Hdst Hdend C (Z.of_nat (length A)) src s Q HC ltac:(lia)) as Hw.
  rewrite Z.sub_diag, Z.add_0_r in Hw. replace (src + total - src) with total in Hw by lia. apply Hw; [|lia|].
  - intros j p Hj. rewrite Nat2Z.id. eapply take_lookup_lt; [exact Hl|]. rewrite HTe. rewrite lookup_app_r by lia.
    rewrite lookup_app_l by (apply lookup_lt_Some in Hj; lia). rewrite <- Hj. f_equal. lia.
  - intros r t Ho. by apply (HQ r t C).
Qed.

(** ** Refusing a copy *)

(** Page [p] lies wholly in the range. *)
Definition wholly_in (off size p : Z) : bool := (off <=? p * 4096) && (p * 4096 + 4096 <=? off + size).
Definition some_in_range T off size : bool := existsb (wholly_in off size) T.
(** A range of a 64-bit address space. *)
Definition range_ok (off size : Z) : Prop := 0 <= off /\ 0 <= size /\ off + size < 2 ^ 64.

Lemma is_bp_in_range_wholly off size p : range_ok off size -> 0 <= p < 2 ^ 52 ->
  amdgv_umc_is_bp_in_range (page_to_addr p) off size = wholly_in off size p.
Proof.
  intros (H1 & H2 & H3) Hp. rewrite page_to_addr_small, is_bp_in_range_page by done. unfold wholly_in. f_equal.
  rewrite wrap_id by (unfold in_width; lia).
  destruct (Z.ltb_spec (p * 4096 + 4095) (off + size)), (Z.leb_spec (p * 4096 + 4096) (off + size)); try done; lia.
Qed.

Lemma scan_in_range off size T : range_ok off size -> page_list T ->
  existsb (fun p => amdgv_umc_is_bp_in_range (page_to_addr p) off size) T = some_in_range T off size.
Proof.
  intros Hr [_ HF]. unfold some_in_range. induction HF as [|p T Hp HF IH]; [done|]. cbn [existsb].
  by rewrite is_bp_in_range_wholly, IH.
Qed.

Lemma pfn_in_range_spec l T off size : take (length T) l = T -> page_list T -> range_ok off size ->
  amdgv_umc_bp_pfn_in_range l (Z.of_nat (length T)) off size = Some (some_in_range T off size).
Proof.
  intros Hl HT Hrg. unfold amdgv_umc_bp_pfn_in_range, some_in_range. rewrite Nat2Z.id.
  destruct (page_list_split T off HT) as (A & B & HAB & HA & HB).
  assert (length T = length A + length B)%nat as HlT by by rewrite HAB, length_app.
  rewrite (pfn_search_spec l T Hl HT off A B HAB HA HB) by lia. cbn [mbind option_bind].
  pose proof HT as [_ HF]. rewrite HAB in HF. apply Forall_app in HF as [HFA HFB].
  assert (existsb (wholly_in off size) A = false) as HAf.
  { clear - HA. induction HA as [|p A Hp HA IH]; [done|]. cbn. rewrite IH. unfold wholly_in.
    destruct (Z.leb_spec off (p * 4096)); [lia|done]. }
  rewrite HAB at 2. rewrite existsb_app, HAf. cbn [orb].
  destruct B as [|p B]; cbn [length] in HlT.
  - destruct (Z.leb_spec (Z.of_nat (length T)) (Z.of_nat (length A))); [done|lia].
  - destruct (Z.leb_spec (Z.of_nat (length T)) (Z.of_nat (length A))); [lia|]. rewrite Nat2Z.id.
    rewrite (take_lookup_lt l T (length T) (length A) p Hl) by (rewrite HAB; by apply lookup_middle_eq). cbn [mbind option_bind existsb].
    inversion HFB as [|? ? Hp HFB']; subst. inversion HB as [|? ? Hop HB']; subst.
    rewrite is_bp_in_range_wholly by done. f_equal.
    destruct (wholly_in off size p) eqn:E1; [done|]. cbn [orb]. symmetry. unfold wholly_in in *.
    apply page_list_app in HT as (_ & HpB & _). destruct (page_list_app [p] B HpB) as (_ & _ & Hlt).
    apply not_true_iff_false. rewrite existsb_exists. intros (q & Hq%list_elem_of_In & Hin). specialize (Hlt p q ltac:(by left) Hq).
    apply andb_true_iff in Hin as [_ Hin]. apply andb_false_iff in E1. zb. destruct E1; zb; lia.
Qed.

(** The unique pages of a VF are [T]. *)
Definition has_unique T (st : mig_state) : Prop :=
  array (dst_unique_bps st) MAX_BAD_PAGE_THRESHOLD T /\ dst_unique_bp_count st = Z.of_nat (length T) /\ page_list T.

Lemma dst_check_unique T idx st off size s : mig s !! idx = Some st -> has_unique T st -> range_ok off size ->
  amdgv_umc_dst_check_bad_pages_in_range idx off size s = Ret (some_in_range T off size, s).
Proof.
  intros Hst ((l & El & _ & Hl) & Hn & HT) Hrg. unfold amdgv_umc_dst_check_bad_pages_in_range.
  unfold gets, mbind, M_bind. cbn -[amdgv_umc_bp_pfn_in_range]. rewrite Hst. cbn -[amdgv_umc_bp_pfn_in_range]. rewrite El, Hn.
  destruct (Z.eqb_spec (Z.of_nat (length T)) 0); [by destruct T|].
  rewrite (pfn_in_range_spec l T) by done. done.
Qed.

Lemma dst_check_all T d idx st off size s : mig s !! idx = Some st -> dst_unique_bps st = None ->
  eh_data (bad s) = Some d -> has_pages T d -> range_ok off size ->
  amdgv_umc_dst_check_bad_pages_in_range idx off size s = Ret (some_in_range T off size, s).
Proof.
  intros Hst Hno Hd ((l & El & Hlen & Hl) & Hn & HT) Hrg. unfold amdgv_umc_dst_check_bad_pages_in_range.
  unfold gets, mbind, M_bind. cbn. rewrite Hst. cbn. rewrite Hno. unfold with_bad, zoom, amdgv_umc_check_bad_pages_in_range, gets, mbind, M_bind.
  rewrite Hd, El, Hn. unfold demand. pose proof (f_equal length Hl) as Hll. rewrite length_take in Hll.
  destruct (Z.leb_spec (Z.of_nat (length T)) (Z.of_nat (length l))); [|lia]. cbn. rewrite Nat2Z.id, Hl.
  rewrite scan_in_range by done. by destruct s.
Qed.

(** ** A whole request *)

Definition node_offset : Z := if 1 <? phy_nodes_num then phy_node_id * node_segment_size else 0.
(** Where the window of a VF starts in the space of the memory controller. *)
Definition window_start (w : vf_window) : Z := MBYTES_TO_BYTES (fb_offset w) + mc_fb_loc_addr + node_offset.
Definition window_size (w : vf_window) : Z := MBYTES_TO_BYTES (fb_size w).

(** The board: windows below 2^52 bytes and apertures in an address space of
    64 bits. *)
Record board_ok (w : vf_window) : Prop := {
  bd_loc : 0 <= mc_fb_loc_addr;
  bd_node : 0 <= node_offset;
  bd_window : 0 <= fb_offset w < 2 ^ 32 /\ 0 <= fb_size w < 2 ^ 32;
  bd_end : window_start w + window_size w < 2 ^ 64;
  bd_gart : 0 <= gart_size < 2 ^ 62;
  bd_agp : 0 <= mc_agp_loc_addr < 2 ^ 63;
}.

(** A request whose ranges do not pass the end of the address space. *)
Record request_ok (c : vf_fb_copy_data) : Prop := {
  rq_fb : 0 <= cd_fb_offset c /\ 0 <= cd_size c /\ cd_fb_offset c + cd_size c < 2 ^ 64;
  rq_other : 0 <= gpu_addr c /\ gpu_addr c + cd_size c < 2 ^ 64;
}.

(** The part of the request that lies in the window. *)
Definition request_size (w : vf_window) (c : vf_fb_copy_data) : Z := Z.min (cd_size c) (window_size w - cd_fb_offset c).
Definition request_start (w : vf_window) (c : vf_fb_copy_data) : Z := window_start w + cd_fb_offset c.

Lemma vf_window_bounds w : board_ok w -> 0 <= MBYTES_TO_BYTES (fb_offset w) /\ 0 <= window_size w.
Proof. intros [_ _ Hw _ _ _]. unfold window_size. rewrite !MBYTES_TO_BYTES_small by lia. lia. Qed.

Lemma get_info_spec idx c w s : idx < num_vf -> array_vf !! Z.to_nat idx = Some w -> configured w = true -> board_ok w -> request_ok c ->
  amdgv_sched_event_get_vf_fb_info idx c s =
    Ret (if window_size w <=? cd_fb_offset c then None
         else Some (request_start w c, u64 (fb + (cd_fb_offset c + MBYTES_TO_BYTES (fb_offset w))), request_size w c), s).
Proof.
  intros Hidx Hw Hc Hb [Hr _]. pose proof (vf_window_bounds w Hb) as [Ho Hs]. destruct Hb as [Hl Hn _ He _ _].
  unfold amdgv_sched_event_get_vf_fb_info. destruct (Z.leb_spec num_vf idx); [lia|].
  unfold require. rewrite Hw. unfold mbind, M_bind, mret, M_ret. rewrite Hc. cbn [negb]. fold (window_size w).
  unfold request_start, request_size, window_start in *. unfold node_offset in *.
  destruct (Z.leb_spec (window_size w) (cd_fb_offset c)) as [|Hlt]; [done|]. f_equal. f_equal. f_equal.
  set (ws := window_size w) in *. set (o := MBYTES_TO_BYTES (fb_offset w)) in *. clearbody ws o.
  destruct (Z.ltb_spec 1 phy_nodes_num); (rewrite (wrap_id 64 (cd_fb_offset c + cd_size c)) by (unfold in_width; lia));
    rewrite (wrap_id 64 (cd_fb_offset c + o)) by (unfold in_width; lia); rewrite (wrap_id 64 (cd_fb_offset c + o + mc_fb_loc_addr)) by (unfold in_width; lia).
  - rewrite (wrap_id 64 (phy_node_id * node_segment_size)) by (unfold in_width; lia). rewrite wrap_id by (unfold in_width; lia).
    f_equal; [f_equal; lia|]. destruct (Z.ltb_spec ws (cd_fb_offset c + cd_size c)); lia.
  - f_equal; [f_equal; lia|]. destruct (Z.ltb_spec ws (cd_fb_offset c + cd_size c)); lia.
Qed.

(** What a request leaves: its result, the copies made. *)
Definition copied_right T Tu (w : vf_window) (c : vf_fb_copy_data) (r : Z) (new : list copy) : Prop :=
  (r = 0 \/ r = AMDGV_FAILURE) /\
  (forall g, g ∈ new -> let a := if to_fb c then c_dst g else c_src g in let b := if to_fb c then c_src g else c_dst g in
     window_start w <= request_start w c <= a /\ 0 < c_size g /\
     a + c_size g <= request_start w c + request_size w c <= window_start w + window_size w /\
     b = gpu_addr c + (a - request_start w c)) /\
  (to_fb c = false -> request_start w c mod 4096 = 0 ->
     (forall g p, g ∈ new -> p ∈ T -> c_src g + c_size g <= p * 4096 \/ p * 4096 + 4096 <= c_src g) /\
     (r = 0 -> forall a, request_start w c <= a < request_start w c + request_size w c ->
        (exists g, g ∈ new /\ c_src g <= a < c_src g + c_size g) \/ (exists p, p ∈ T /\ in_page a p))) /\
  (to_fb c = true -> some_in_range Tu (request_start w c) (request_size w c) = true -> r = AMDGV_FAILURE /\ new = []).

Lemma copied_nothing T Tu w c s t : t = s ->
  only_copied s t /\ exists new, copies t = copies s ++ new /\ copied_right T Tu w c AMDGV_FAILURE new.
Proof.
  intros ->. split; [done|]. exists []. rewrite app_nil_r. split; [done|]. split; [by right|]. split; [by intros g ?%elem_of_nil|].
  split; [intros _ _; split; [by intros g p ?%elem_of_nil|done]|done].
Qed.

Lemma wp_vf_fb_copy idx c w st T Tu d s : idx < num_vf -> array_vf !! Z.to_nat idx = Some w -> configured w = true ->
  board_ok w -> request_ok c -> eh_data (bad s) = Some d -> has_sorted d = true -> has_pages T d ->
  mig s !! Z.to_nat idx = Some st -> (has_unique Tu st \/ dst_unique_bps st = None /\ Tu = T) ->
  wp (amdgv_sched_event_vf_fb_copy idx c) (fun r t => only_copied s t /\ exists new, copies t = copies s ++ new /\ copied_right T Tu w c r new) s.
Proof.
  intros Hidx Hw Hc Hb Hr Hd Hso HT Hst HTu. unfold amdgv_sched_event_vf_fb_copy.
  unfold amdgv_sched_event_get_vf_fb_copy_info. apply wp_bind, wp_bind. eapply wp_intro; [by eapply get_info_spec|].
  destruct (Z.leb_spec (window_size w) (cd_fb_offset c)) as [|Hlt]; [by apply wp_ret, wp_ret, copied_nothing|].
  apply wp_ret. set (size := request_size w c). set (start := request_start w c).
  pose proof (vf_window_bounds w Hb) as [Ho Hs]. pose proof Hb as [Hl Hn _ He _ _]. pose proof Hr as [Hrf Hro].
  assert (0 <= size <= cd_size c /\ cd_fb_offset c + size <= window_size w) as Hsz by (unfold size, request_size; lia).
  assert (Z.min size (cd_size c) = size) as -> by lia.
  assert (0 <= start /\ start = window_start w + cd_fb_offset c) as Hstart by (unfold start, request_start, window_start in *; lia).
  set (fbv := match vaddr c with Some _ => Some (u64 (fb + (cd_fb_offset c + MBYTES_TO_BYTES (fb_offset w)))) | None => None end).
  assert (forall src dst sv dv, (if to_fb c then src = gpu_addr c /\ dst = start else src = start /\ dst = gpu_addr c) -> 0 < size ->
    (to_fb c = true -> some_in_range Tu start size = false) ->
    wp (amdgv_sched_event_vf_fb_copy_skip_bad_pages src dst size sv dv)
      (fun r t => only_copied s t /\ exists new, copies t = copies s ++ new /\ copied_right T Tu w c r new) s) as Hgo.
  { intros src dst sv dv Hsd Hpos Hok. assert (0 <= src /\ src + size < 2 ^ 64 /\ 0 <= dst /\ dst + size < 2 ^ 64) as Hrange.
    { destruct (to_fb c), Hsd as [-> ->]; lia. }
    apply (wp_skip_bad_pages _ _ _ _ _ _ _ T); try lia.
    - intros d' Hd' _. by simplify_eq.
    - rewrite Hd. congruence.
    - intros r t C HC Hskip (Ht & Hout). split; [done|].
      assert (exists pre, pre `prefix_of` segments C src (src + size) /\ copies t = copies s ++ (call_of src dst sv dv <$> pre) /\
        (r = 0 /\ pre = segments C src (src + size) \/ r = AMDGV_FAILURE)) as (pre & Hpre & Hct & Hrp).
      { destruct Hout as [[-> E1]|[-> (pre & Hpre & E1)]].
        - exists (segments C src (src + size)). split; [done|]. split; [done|]. by left.
        - destruct Hpre as [k Hk]. apply fmap_app_inv in Hk as (pre' & k' & -> & _ & Hk). exists pre'. split; [by exists k'|]. split; [done|]. by right. }
      exists (call_of src dst sv dv <$> pre). split; [done|].
      assert (forall g, g ∈ pre -> src <= g.1 /\ 0 < g.2 /\ g.1 + g.2 <= src + size) as Hin.
      { intros g Hg. apply (segments_bounds C); [done|]. destruct Hpre as [k ->]. apply elem_of_app. by left. }
      split; [destruct Hrp as [[? _]|?]; tauto|]. split_and!.
      + intros g (h & -> & Hh)%list_elem_of_fmap. specialize (Hin _ Hh). fold start size. cbn. destruct (to_fb c), Hsd as [-> ->]; cbn; lia.
      + intros Hto Hmod. fold start in Hmod. rewrite Hto in Hsd. destruct Hsd as [-> ->]. split.
        * intros g p (h & -> & Hh)%list_elem_of_fmap Hp. cbn. pose proof (Hin _ Hh) as Hh'.
          destruct (Z.le_gt_cases (h.1 + h.2) (p * 4096)); [by left|]. destruct (Z.le_gt_cases (p * 4096 + 4096) h.1); [by right|]. exfalso.
          set (a := Z.max h.1 (p * 4096)). assert (start <= a < start + size /\ in_seg a h /\ in_page a p) as (Ha & Has & Hap) by (unfold a, in_seg, in_page; lia).
          assert (start <= p * 4096) as Hsp.
          { apply Z.mod_divide in Hmod as [k Hk]; [|lia]. destruct (Z.lt_ge_cases (p * 4096) start); [|done]. unfold in_page in Hap. lia. }
          assert (exists g, g ∈ segments C start (start + size) /\ in_seg a g) as Hex.
          { exists h. split; [|done]. destruct Hpre as [k ->]. apply elem_of_app. by left. }
          apply segments_cover in Hex; [|done|done]. apply Hex, Hskip; [done|]. exists p. split; [|done].
          apply list_elem_of_filter. done.
        * intros -> a Ha. destruct Hrp as [[_ ->]|Hf]; [|by vm_compute in Hf].
          destruct (decide (Exists (in_page a) T)) as [Hx|Hx].
          { right. by apply Exists_exists in Hx. }
          left. destruct (proj2 (segments_cover C start (start + size) HC a Ha)) as (g & Hg & Hga).
          { intros Hex. apply Hskip in Hex as (p & [_ Hp]%list_elem_of_filter & Hap); [|done]. apply Hx, Exists_exists. by exists p. }
          exists (call_of start (gpu_addr c) sv dv g). split; [by apply list_elem_of_fmap_2|]. done.
      + intros Hto Hbad. specialize (Hok Hto). unfold start, size in Hok. congruence. }
  destruct (to_fb c) eqn:Hto; cbv iota beta.
  - destruct (Z.eqb_spec size 0); [by apply wp_ret, copied_nothing|]. apply wp_bind.
    assert (amdgv_umc_dst_check_bad_pages_in_range (Z.to_nat idx) start size s = Ret (some_in_range Tu start size, s)) as E1.
    { assert (range_ok start size) by (split_and!; lia). destruct HTu as [Hu|[Hu ->]]; [by eapply dst_check_unique|by eapply dst_check_all]. }
    eapply wp_intro; [exact E1|]. destruct (some_in_range Tu start size) eqn:Er; [by apply wp_ret, copied_nothing|].
    apply Hgo; [done|lia|done].
  - destruct (Z.eqb_spec size 0); [by apply wp_ret, copied_nothing|]. apply wp_bind, wp_ret. apply Hgo; [done|lia|done].
Qed.

(** The entry point lets no request through whose ranges wrap around. *)
Lemma buffer_check_ok w c : board_ok w -> amdgv_buffer_check (gpu_addr c) (cd_size c) = true -> 0 <= gpu_addr c < 2 ^ 64 ->
  0 <= cd_size c < 2 ^ 64 -> gpu_addr c + cd_size c < 2 ^ 64 /\ cd_size c < 2 ^ 63.
Proof.
  intros [_ _ _ _ Hg Ha] Hchk Haddr Hsize. unfold amdgv_buffer_check, amdgv_buffer_do_check, GART_START, AMDGV_AGP_APERTURE_SIZE in Hchk.
  destruct (cd_size c =? 0); [done|].
  repeat match type of Hchk with context [if ?a && (if ?x <? ?y then _ else _) then _ else _] =>
    destruct a, (Z.ltb_spec x y); cbn [andb] in Hchk end; try done.
  all: repeat match type of Hchk with context [if (if ?x <? ?y then _ else _) then _ else _] => destruct (Z.ltb_spec x y) end; try done.
  all: repeat match goal with H : _ <= _ |- _ => progress (rewrite ?(wrap_id 64) in H by (unfold in_width; lia)) end; lia.
Qed.

Lemma wp_vf_fb_copy_api idx c w st T Tu d s : idx < num_vf -> array_vf !! Z.to_nat idx = Some w -> configured w = true ->
  board_ok w -> 0 <= cd_fb_offset c < 2 ^ 64 -> 0 <= cd_size c < 2 ^ 64 -> 0 <= gpu_addr c < 2 ^ 64 ->
  eh_data (bad s) = Some d -> has_sorted d = true -> has_pages T d ->
  mig s !! Z.to_nat idx = Some st -> (has_unique Tu st \/ dst_unique_bps st = None /\ Tu = T) ->
  wp (amdgv_vf_fb_copy idx c) (fun r t => only_copied s t /\ exists new, copies t = copies s ++ new /\ copied_right T Tu w c r new) s.
Proof.
  intros Hidx Hw Hc Hb Hoff Hsize Haddr Hd Hso HT Hst HTu. unfold amdgv_vf_fb_copy.
  destruct (negb (idx =? AMDGV_PF_IDX) && (num_vf <=? idx)); [by apply wp_ret, copied_nothing|].
  destruct (amdgv_buffer_check (gpu_addr c) (cd_size c)) eqn:Hchk; cbn [negb]; [|by apply wp_ret, copied_nothing].
  destruct copy_event_queued; cbn [negb]; [|by apply wp_ret, copied_nothing].
  destruct (buffer_check_ok w c Hb Hchk Haddr Hsize) as [Hr1 Hr2].
  destruct (Z.lt_ge_cases (cd_fb_offset c) (window_size w)) as [Hlt|Hge].
  - eapply wp_vf_fb_copy; try done. pose proof (bd_window _ Hb) as [_ Hws]. unfold window_size in Hlt. rewrite MBYTES_TO_BYTES_small in Hlt by lia.
    split; lia.
  - unfold amdgv_sched_event_vf_fb_copy, amdgv_sched_event_get_vf_fb_copy_info, amdgv_sched_event_get_vf_fb_info.
    apply wp_bind, wp_bind. destruct (Z.leb_spec num_vf idx); [lia|]. apply wp_bind. eapply wp_require; [done|]. rewrite Hc. cbn [negb].
    fold (window_size w). destruct (Z.leb_spec (window_size w) (cd_fb_offset c)); [|lia]. by apply wp_ret, wp_ret, wp_ret, copied_nothing.
Qed.
(** ** The pages that are bad on this host only *)

Lemma export_spec T d s : eh_data (bad s) = Some d -> has_pages T d -> Z.of_nat (length T) <= MAX_BAD_PAGE_THRESHOLD ->
  amdgv_migration_export_bad_pages s =
    Ret ((0, Some (mk_section AMDGV_MIGRATION_BAD_PAGE_MAGIC (Z.of_nat (length T)) (map (fun p => u64 (p - mc_base_pfn)) T))), s).
Proof.
  intros Hd ((l & El & _ & Hl) & Hn & _) HT. unfold amdgv_migration_export_bad_pages, gets, mbind, M_bind. rewrite Hd, El, Hn.
  destruct (Z.ltb_spec MAX_BAD_PAGE_THRESHOLD (Z.of_nat (length T))); [lia|].
  pose proof (f_equal length Hl) as Hll. rewrite length_take in Hll. unfold demand.
  destruct (Z.leb_spec (Z.of_nat (length T)) (Z.of_nat (length l))); [|lia]. cbn. by rewrite Nat2Z.id, Hl.
Qed.

Section unique.
Variables (sec : bad_page_section) (O : list Z).
Hypothesis HO : sorted_bp_offsets sec = O.
Hypothesis Hcount : sec_bp_count sec = Z.of_nat (length O).
(** The other host's pages at their places on this one. *)
Let S := map (fun o => u64 (o + mc_base_pfn)) O.
Hypothesis HS : StronglySorted Z.lt S.

Lemma offset_at i x : S !! i = Some x -> exists o, O !! i = Some o /\ u64 (o + mc_base_pfn) = x.
Proof. unfold S. intros Hi. apply list_lookup_fmap_Some in Hi as (o & -> & Ho). by exists o. Qed.

Lemma advance_spec p : forall B A, S = A ++ B -> Forall (fun a => a < p) A ->
  exists A' B', S = A' ++ B' /\ Forall (fun a => a < p) A' /\ match B' with b :: _ => p <= b | [] => True end /\
    advance_src (length B) sec (Z.of_nat (length A)) p = Some (Z.of_nat (length A')).
Proof using HO Hcount.
  assert (length O = length S) as HOS by by unfold S; rewrite length_map.
  induction B as [|b B IH]; intros A HAB HA; cbn [advance_src length]; rewrite Hcount, HOS, HAB, length_app; cbn [length].
  - rewrite Nat.add_0_r, Z.ltb_irrefl. by exists A, [].
  - destruct (Z.ltb_spec (Z.of_nat (length A)) (Z.of_nat (length A + Datatypes.S (length B)))); [|lia].
    destruct (offset_at (length A) b) as (o & Ho & Eo); [rewrite HAB; by apply lookup_middle_eq|].
    rewrite HO, Nat2Z.id, Ho. cbn [mbind option_bind]. rewrite Eo. destruct (Z.ltb_spec b p).
    + destruct (IH (A ++ [b])) as (A' & B' & H1 & H2 & H3 & H4); [by rewrite <- app_assoc|by apply Forall_app; split; [|constructor]|].
      exists A', B'. split_and!; [by rewrite <- HAB|done|done|]. rewrite length_app in H4. cbn in H4. rewrite <- H4. f_equal. lia.
    + by exists A, (b :: B).
Qed.

Lemma unique_pages_spec l : forall A B K out, S = A ++ B -> (forall a p, a ∈ A -> p ∈ l -> a < p) -> StronglySorted Z.lt l ->
  take (length K) out = K -> (length K + length l <= length out)%nat ->
  exists out', unique_pages l sec (Z.of_nat (length A)) (Z.of_nat (length K)) out =
      Some (Z.of_nat (length (K ++ filter (fun p => p ∉ S) l)), out') /\
    length out' = length out /\ take (length (K ++ filter (fun p => p ∉ S) l)) out' = K ++ filter (fun p => p ∉ S) l.
Proof using HO Hcount HS.
  assert (length O = length S) as HOS by by unfold S; rewrite length_map.
  induction l as [|p l IH]; intros A B K out HAB HA Hl HK Hout; cbn [unique_pages].
  { cbn. rewrite app_nil_r. by exists out. }
  apply StronglySorted_inv in Hl as [Hl' Hp]. rewrite Forall_forall in Hp.
  destruct (advance_spec p B A HAB) as (A' & B' & HAB' & HA' & HB' & E1).
  { apply Forall_forall. intros a Ha. apply HA; [done|by left]. }
  rewrite Hcount, HOS in *. replace (Z.to_nat (Z.of_nat (length S) - Z.of_nat (length A))) with (length B) by (rewrite HAB, length_app; lia).
  rewrite E1. cbn [mbind option_bind].
  assert (forall a q, a ∈ A' -> q ∈ l -> a < q) as HA''.
  { rewrite Forall_forall in HA'. intros a q Ha Hq. specialize (HA' _ Ha). specialize (Hp _ Hq). lia. }
  assert (p ∈ S <-> match B' with b :: _ => b = p | [] => False end) as Hmem.
  { rewrite HAB', elem_of_app. rewrite Forall_forall in HA'. split.
    - intros [Hin|Hin]; [specialize (HA' _ Hin); lia|]. destruct B' as [|b B']; [by apply elem_of_nil in Hin|].
      apply elem_of_cons in Hin as [->|Hin]; [done|]. rewrite HAB' in HS.
      apply list_elem_of_lookup in Hin as [i Hi].
      assert (b < p); [|lia]. apply (sorted_lookup_lt (A' ++ b :: B') (length A') (length A' + Datatypes.S i)); [done| | |lia].
      + by apply lookup_middle_eq.
      + rewrite lookup_app_r by lia. rewrite <- Hi. replace (length A' + Datatypes.S i - length A')%nat with (Datatypes.S i) by lia. done.
    - destruct B' as [|b B']; [done|]. intros ->. right. by left. }
  assert (exists o, (if Z.of_nat (length A') <? Z.of_nat (length S) then Some <$> (sorted_bp_offsets sec !! Z.to_nat (Z.of_nat (length A'))) else Some None) = Some o /\
     match o with Some o => u64 (o + mc_base_pfn) =? p | None => false end = bool_decide (p ∈ S)) as (o & -> & Eo).
  { rewrite HAB', length_app. destruct B' as [|b B']; cbn [length].
    - rewrite Nat.add_0_r, Z.ltb_irrefl. exists None. split; [done|]. symmetry. apply bool_decide_eq_false. rewrite <- HAB'. tauto.
    - destruct (Z.ltb_spec (Z.of_nat (length A')) (Z.of_nat (length A' + Datatypes.S (length B')))); [|lia].
      destruct (offset_at (length A') b) as (o & Ho & Ex); [rewrite HAB'; by apply lookup_middle_eq|].
      rewrite HO, Nat2Z.id, Ho. exists (Some o). split; [done|]. rewrite Ex, <- HAB'.
      destruct (Z.eqb_spec b p); symmetry; [apply bool_decide_eq_true|apply bool_decide_eq_false]; tauto. }
  cbn [mbind option_bind]. rewrite Eo. rewrite filter_cons. cbn [length] in Hout. case_bool_decide as Hin.
  - rewrite decide_False by tauto. eapply IH; try done. lia.
  - rewrite decide_True by done. destruct (lookup_lt_is_Some_2 out (length K)) as [x Hx]; [lia|].
    rewrite Nat2Z.id, Hx. cbn [mbind option_bind].
    destruct (IH A' B' (K ++ [p]) (<[length K := p]> out)) as (out' & E2 & E3 & E4); [done|done|done| | |].
    + rewrite length_app, Nat.add_1_r, take_insert_next by lia. by rewrite HK.
    + rewrite length_app, length_insert. cbn. lia.
    + exists out'. rewrite length_insert in E3. rewrite <- !app_assoc in E2, E4. cbn [app] in E2, E4. split_and!; [|done|done].
      rewrite <- E2. f_equal. rewrite length_app. cbn. lia.
Qed.
End unique.

Lemma page_list_filter (P : Z -> Prop) `{!forall x, Decision (P x)} T : page_list T -> page_list (filter P T).
Proof.
  intros [Hs HF]. split.
  - induction Hs as [|x T Hs IH Hx]; [constructor|]. inversion HF; subst. rewrite filter_cons. destruct (decide (P x)); [|by apply IH].
    constructor; [by apply IH|]. rewrite Forall_forall in *. intros y [_ Hy]%list_elem_of_filter. by apply Hx.
  - rewrite Forall_forall in *. intros y [_ Hy]%list_elem_of_filter. by apply HF.
Qed.

Lemma wp_set_mig idx f st (Q : unit -> copier -> Prop) s : mig s !! idx = Some st ->
  Q tt (s <| mig := <[idx := f st]> (mig s) |>) -> wp (set_mig idx f) Q s.
Proof. intros Hst HQ. unfold set_mig. apply wp_bind, wp_gets, wp_bind. rewrite Hst. by apply wp_ret, wp_modify. Qed.

Lemma import_spec T d idx st O s : eh_data (bad s) = Some d -> has_pages T d -> mig s !! idx = Some st ->
  Z.of_nat (length T) <= MAX_BAD_PAGE_THRESHOLD -> Z.of_nat (length O) <= MAX_BAD_PAGE_THRESHOLD ->
  (dst_unique_bps st = None -> oss_alloc_ok (os_allocs (bp_oss (bad s))) = true) ->
  StronglySorted Z.lt (map (fun o => u64 (o + mc_base_pfn)) O) ->
  wp (amdgv_migration_import_bad_pages idx (mk_section AMDGV_MIGRATION_BAD_PAGE_MAGIC (Z.of_nat (length O)) O))
    (fun r t => r = 0 /\ eh_data (bad t) = Some d /\ copies t = copies s /\ exists st', mig t !! idx = Some st' /\
       has_unique (filter (fun p => p ∉ map (fun o => u64 (o + mc_base_pfn)) O) T) st') s.
Proof.
  intros Hd ((l & El & _ & Hl) & Hn & HT) Hst HlT HlO Hal HS. unfold amdgv_migration_import_bad_pages.
  apply wp_bind, wp_gets, wp_bind. rewrite Hst. apply wp_ret, wp_bind, wp_gets. cbn [magic_number sec_bp_count].
  rewrite Z.eqb_refl. cbn [negb]. rewrite Hd. destruct (Z.ltb_spec MAX_BAD_PAGE_THRESHOLD (Z.of_nat (length O))); [lia|].
  apply wp_bind. set (Q := fun (r : Z) (t : copier) => r = 0 /\ _).
  assert (forall s', eh_data (bad s') = Some d -> copies s' = copies s -> mig s' = mig s ->
    wp (_ ← set_mig idx (fun st => st <| dst_unique_bps := Some (replicate (Z.to_nat MAX_BAD_PAGE_THRESHOLD) 0) |> <| dst_unique_bp_count := 0 |>);
        match sorted_bps d with
        | None => mret 0
        | Some l =>
            if MAX_BAD_PAGE_THRESHOLD <? sorted_bp_count d then mret AMDGV_FAILURE else
            _ ← demand (sorted_bp_count d <=? Z.of_nat (length l));
            '(k, out) ← require (unique_pages (take (Z.to_nat (sorted_bp_count d)) l)
               (mk_section AMDGV_MIGRATION_BAD_PAGE_MAGIC (Z.of_nat (length O)) O) 0 0 (replicate (Z.to_nat MAX_BAD_PAGE_THRESHOLD) 0));
            _ ← set_mig idx (fun st => st <| dst_unique_bps := Some out |> <| dst_unique_bp_count := k |>);
            mret 0
        end) Q s') as Hgo.
  { intros s' Hd' Hc Hm. apply wp_bind. eapply wp_set_mig; [by rewrite Hm|]. rewrite El, Hn.
    destruct (Z.ltb_spec MAX_BAD_PAGE_THRESHOLD (Z.of_nat (length T))); [lia|].
    pose proof (f_equal length Hl) as Hll. rewrite length_take in Hll.
    apply wp_bind, wp_demand; [apply Z.leb_le; lia|]. rewrite Nat2Z.id, Hl.
    destruct (unique_pages_spec (mk_section AMDGV_MIGRATION_BAD_PAGE_MAGIC (Z.of_nat (length O)) O) O eq_refl eq_refl HS T []
      (map (fun o => u64 (o + mc_base_pfn)) O) [] (replicate (Z.to_nat MAX_BAD_PAGE_THRESHOLD) 0)) as (out & E1 & E2 & E3); try done.
    { by intros a p ?%elem_of_nil. } { by destruct HT. } { rewrite length_replicate. cbn [length]. lia. }
    apply wp_bind. eapply wp_require; [exact E1|]. cbn [app] in *. cbv beta iota. apply wp_bind.
    eapply wp_set_mig; [cbn; by apply list_lookup_insert_eq, lookup_lt_is_Some; rewrite Hm; eauto|]. apply wp_ret.
    split; [done|]. split; [done|]. split; [done|]. eexists. split.
    - cbn. apply list_lookup_insert_eq. rewrite length_insert. apply lookup_lt_is_Some. rewrite Hm. eauto.
    - split; [|split; [done|by apply page_list_filter]]. exists out. split; [done|]. split; [rewrite E2, length_replicate; done|done]. }
  destruct (dst_unique_bps st) as [u|].
  - apply wp_ret. cbn [negb]. by apply Hgo.
  - unfold with_bad, oss. apply wp_zoom, wp_zoom. unfold oss_alloc. unfold wp. rewrite (Hal eq_refl). cbn [negb]. by apply Hgo.
Qed.
End run.
