(* ===== verification/BadProps.v ===== *)
(** * Bad pages and the copies that avoid them: the properties *)
From S2P Require Import Prelude Api Oss BadPage BadPageInv BadCopy.
From Stdlib Require Import Sorted.
#[local] Open Scope Z_scope.
#[local] Set Warnings "-clear-no-such-hyp".

(** The adapter's sorted pages are [T]. *)
Definition lists_pages `{UmcEnv} (T : list Z) (s : bad_pages) : Prop :=
  exists R P d, eh_data s = Some d /\ holds R P T d.

Section props.
Context {E : OssEnv} {U : UmcEnv}.

Lemma mc_page_range p : 0 <= mc_page p < 2 ^ 52.
Proof.
  unfold mc_page, AMDGV_GPU_PAGE_SHIFT. cbv zeta. rewrite Z.shiftr_div_pow2 by lia.
  set (x := if 1 <? phy_nodes_num then _ else _). assert (0 <= x < 2 ^ 64) as Hx by (unfold x; case_match; apply wrap_range; lia).
  split; [apply Z.div_pos; lia|apply Z.div_lt_upper_bound; lia].
Qed.

Lemma holds_has_pages R P T d : holds R P T d -> has_pages T d.
Proof.
  intros H. destruct H as [_ _ _ _ Hs Hn Ho He _ _]. split; [done|]. split; [done|]. split; [done|].
  apply Forall_forall. intros x (r & _ & ->)%He. apply mc_page_range.
Qed.


(** The lists after a history that starts with loading the driver. *)
Lemma history_implements s0 s1 os rs m : few_pages -> 0 <= bad_page_record_threshold < 2 ^ 31 ->
  amdgv_umc_sw_init s0 = Ret (0, s1) -> (forall d, eh_data s1 = Some d -> rom_bps (rom_data d) <> None) ->
  model_ops os (mk_model [] [] AMDGV_RAS_INV_MEM_PFN (nps s0)) = (rs, m) -> fits m ->
  exists s, run_ops os s1 = Ret (rs, s) /\ implements m s.
Proof.
  intros Hfew Ht Hinit Hrom Hm Hf. destruct (sw_init_outcome s0 Ht) as (r & s' & E1 & Hn & Ho). rewrite Hinit in E1. injection E1 as <- <-.
  destruct Ho as [(_ & d & Hd & Hl)|(Hf' & _)]; [|by vm_compute in Hf']. destruct (Hl (Hrom d Hd)) as [Hld _].
  destruct Hld as [Hh Hla Hc1 Hc2 _].
  destruct (wp_returns (run_ops os) (fun r s => r = rs /\ implements m s) s1) as (r & s & E2 & -> & Hi); [|by exists s].
  eapply (wp_run_ops os); [done| | |exact Hm|done|by intros].
  - exists d, []. by split_and!.
  - by exists d.
Qed.

(** ** The lists *)










(** The queries answer from the pages the driver holds: a range is
    reported bad when a page's address lies wholly inside it, an address when
    its page is one of them, and a record is found by its index; sorting gives
    each offset once, in ascending order. *)
Theorem bad_page_queries R P T d s (Hd : eh_data s = Some d) (H : holds R P T d) :
  (forall off size, amdgv_umc_check_bad_pages_in_range off size s =
     Ret (existsb (fun r => amdgv_umc_is_bp_in_range (mc_page (retired_page r) * 4096) off size) P, s)) /\
  (forall addr, (phy_nodes_num <= 1) -> amdgv_umc_check_bad_page addr s =
     Ret (existsb (fun r => Z.shiftr addr 12 =? retired_page r) P, s)) /\
  (forall i, 0 <= i -> amdgv_umc_get_badpages_record i s =
     Ret (match P !! Z.to_nat i with Some r => (0, Some r) | None => (AMDGV_FAILURE, None) end, s)) /\
  (oss_alloc_ok (os_allocs (bp_oss s)) = true -> (2 <= length P)%nat ->
     exists l n s', amdgv_umc_fetch_and_sort_bps s = Ret ((0, Some l), s') /\ length l = length P /\
       StronglySorted Z.lt (take n l) /\
       forall x, x ∈ take n l <-> exists r, r ∈ P /\ x = page_to_addr (retired_page r)).
Proof.
  pose proof H as [_ _ (l & El & Hlen & Hl) Hc Hs Hsc Ho He _ _].
  pose proof (f_equal length Hl) as Hll. rewrite length_take in Hll. split_and!.
  - intros off size. destruct Hs as (ls & Els & _ & Hls).
    pose proof (f_equal length Hls) as Hlls. rewrite length_take in Hlls.
    unfold amdgv_umc_check_bad_pages_in_range, gets, mbind, M_bind, demand. rewrite Hd, Els, Hsc.
    destruct (Z.leb_spec (Z.of_nat (length T)) (Z.of_nat (length ls))); [|lia]. cbn. rewrite Nat2Z.id, Hls. unfold mret, M_ret. do 2 f_equal.
    apply eq_true_iff_eq. rewrite !existsb_exists. setoid_rewrite <- list_elem_of_In. split.
    + intros (x & (r & Hr & ->)%He & Hx). exists r. split; [done|]. by rewrite page_to_addr_small in Hx by apply mc_page_range.
    + intros (r & Hr & Hx). exists (mc_page (retired_page r)). split; [apply He; by exists r|]. by rewrite page_to_addr_small by apply mc_page_range.
  - intros addr Hphy. unfold amdgv_umc_check_bad_page, gets, mbind, M_bind. rewrite Hd, Hc.
    destruct (Z.ltb_spec 1 phy_nodes_num); [lia|]. cbn [andb]. destruct (Z.eqb_spec (Z.of_nat (length P)) 0) as [E0|E0].
    + destruct P; [|cbn in E0; lia]. done.
    + rewrite El. cbn. destruct (Z.leb_spec (Z.of_nat (length P)) (Z.of_nat (length l))); [|lia]. cbn. by rewrite Nat2Z.id, Hl.
  - intros i Hi. unfold amdgv_umc_get_badpages_record, gets, mbind, M_bind. rewrite Hd, Hc.
    destruct (Z.eqb_spec (Z.of_nat (length P)) 0) as [E0|E0]; cbn [negb andb].
    + destruct P; [|cbn in E0; lia]. rewrite lookup_nil. change (Z.of_nat (length (@nil eeprom_table_record))) with 0. replace (0 <=? i) with true by (symmetry; apply Z.leb_le; lia). reflexivity.
    + destruct (Z.ltb_spec i (Z.of_nat (length P))).
      * destruct (lookup_lt_is_Some_2 P (Z.to_nat i)) as [r Hr]; [lia|]. rewrite El. cbn.
        rewrite (take_lookup_lt l P _ _ _ Hl Hr), Hr. done.
      * rewrite lookup_ge_None_2 by lia. destruct (Z.leb_spec (Z.of_nat (length P)) i); [done|lia].
  - intros Hal H2. set (f := fun r => page_to_addr (retired_page r)).
    destruct (sort_offsets_spec (map f P)) as (n & l' & E1 & Hl' & _ & Hso & Hin); [by rewrite length_map|].
    rewrite length_map in Hl'. eexists l', n, _. split; [|split; [done|split; [done|]]].
    + unfold amdgv_umc_fetch_and_sort_bps, data_of, gets, oss, zoom, oss_alloc, mbind, M_bind, require. rewrite Hd. cbn.
      rewrite Hal. cbn. rewrite Hc. destruct (Z.eqb_spec (Z.of_nat (length P)) 0); [lia|]. rewrite El. cbn.
      destruct (Z.leb_spec (Z.of_nat (length P)) (Z.of_nat (length l))); [|lia]. cbn. rewrite Nat2Z.id, Hl.
      fold f. rewrite E1. reflexivity.
    + intros x. rewrite Hin. unfold f. rewrite list_elem_of_fmap. naive_solver.
Qed.

End props.

(** ** Copies *)


(** The pages of [T2] that are not bad on the other host, whose pages are
    [T1] and whose frame buffer starts at page [b1] instead of [b2]. *)
Definition new_pages (b1 b2 : Z) (T1 T2 : list Z) : list Z := filter (fun p => p - b2 + b1 ∉ T1) T2.

(** C34: the lists of a migration.  What one host exports and the other imports
    makes the second refuse exactly the copies onto a page that is bad there
    and was not on the first: the range of a copy holds such a page wholly.
    Both hosts have at most 256 bad pages, what a section holds, those of the
    first are not below its base, and the importing host can allocate. *)
Theorem migration_unique_pages (E2 : OssEnv) (U1 U2 : UmcEnv) T1 T2 st idx s t
  (H1 : lists_pages (H := U1) T1 (bad s)) (H2 : lists_pages (H := U2) T2 (bad t))
  (Hl1 : Z.of_nat (length T1) <= MAX_BAD_PAGE_THRESHOLD) (Hl2 : Z.of_nat (length T2) <= MAX_BAD_PAGE_THRESHOLD)
  (Hb1 : 0 <= mc_base_pfn (U := U1) < 2 ^ 52) (Hb2 : 0 <= mc_base_pfn (U := U2) < 2 ^ 52)
  (Habove : Forall (fun p => mc_base_pfn (U := U1) <= p) T1) (Hst : mig t !! idx = Some st)
  (Hal : oss_alloc_ok (OssEnv := E2) (os_allocs (bp_oss (bad t))) = true) :
  exists sec t', amdgv_migration_export_bad_pages (U := U1) s = Ret ((0, Some sec), s) /\
    amdgv_migration_import_bad_pages (E := E2) (U := U2) idx sec t = Ret (0, t') /\ copies t' = copies t /\
    forall off size, range_ok off size -> amdgv_umc_dst_check_bad_pages_in_range idx off size t' =
      Ret (some_in_range (new_pages (mc_base_pfn (U := U1)) (mc_base_pfn (U := U2)) T1 T2) off size, t').
Proof.
  destruct H1 as (R1 & P1 & d1 & Hd1 & Hh1), H2 as (R2 & P2 & d2 & Hd2 & Hh2).
  pose proof (holds_has_pages _ _ _ _ Hh1) as HT1. pose proof (holds_has_pages _ _ _ _ Hh2) as HT2.
  set (b1 := mc_base_pfn (U := U1)) in *. set (b2 := mc_base_pfn (U := U2)) in *.
  eexists _. rewrite (export_spec T1 d1 s Hd1 HT1 Hl1). fold b1.
  set (O := map (fun p => u64 (p - b1)) T1).
  assert (map (fun o => u64 (o + b2)) O = map (fun p => p - b1 + b2) T1) as EO.
  { unfold O. rewrite map_map. apply map_ext_in. intros p Hp%list_elem_of_In. rewrite Forall_forall in Habove. specialize (Habove _ Hp).
    destruct HT1 as (_ & _ & _ & HF). rewrite Forall_forall in HF. specialize (HF _ Hp). rewrite !wrap_id; [done|unfold in_width; lia|].
    rewrite wrap_id; unfold in_width; lia. }
  assert (length O = length T1) as HlO by by unfold O; rewrite length_map.
  destruct (wp_returns _ _ _ (import_spec (E := E2) (U := U2) T2 d2 idx st O t Hd2 HT2 Hst Hl2 ltac:(lia) ltac:(done)
    ltac:(fold b2; rewrite EO; destruct HT1 as (_ & _ & Hs & _); clear - Hs; induction Hs as [|x l Hs IH Hx]; constructor;
          [exact IH|apply Forall_map; eapply Forall_impl; [exact Hx|cbn; lia]])))
    as (r & t' & Ei & -> & Hdt & Hct & st' & Hst' & Hu).
  rewrite HlO in Ei. exists t'. split; [done|]. split; [exact Ei|]. split; [done|]. intros off size Hrg.
  rewrite (dst_check_unique _ idx st' off size t' Hst' Hu Hrg). fold b2. rewrite EO. unfold new_pages. do 3 f_equal.
  apply list_filter_iff. intros p. rewrite list_elem_of_fmap. split.
  - intros Hn Hin. apply Hn. exists (p - b2 + b1). split; [lia|done].
  - intros Hn (q & Eq & Hq). apply Hn. replace (p - b2 + b1) with q by lia. done.
Qed.

(** ** Concrete hosts *)

(** 1 GB of memory at [base], a threshold of eight, two pages per record. *)
Definition demo_umc (base : Z) : UmcEnv := {|
  skip_bad_page_ops := false; bad_page_record_threshold := 8; max_record_num := 100; is_pmfw_managed_eeprom := false;
  eeprom_version := EEPROM_TABLE_VER_V3; total_fb_avail := 1024; mc_fb_loc_addr := base; mc_base := base;
  phy_nodes_num := 1; phy_node_id := 0; node_segment_size := 0; has_nps_mode := true;
  eeprom_record_to_soc_pa := None;
  eeprom_record_to_pages := Some (fun r => let p := set_nps_to_pa (retired_page r) 0 in Some [p; p + 16]);
  utc_to_eeprom_format := fun t => t; fresh_record := zero_record; fresh_word := 0 |}.
Definition demo_oss : OssEnv := env_of 0 1 [] [].
Definition error_at (page : Z) : eeprom_table_record := mk_rec 0 page 1 2 0 0 0.
Definition demo_unloaded : bad_pages := mk_bad_pages None None 0 (Some 1) oss_boot.
Definition demo_loaded : bad_pages := Eval vm_compute in
  match amdgv_umc_sw_init (E := demo_oss) (U := demo_umc 0) demo_unloaded with Ret (_, s) => s | Fault => demo_unloaded end.
Definition demo_ops (extra : list Z) : list bp_op :=
  [OpAdd (Some [error_at 0x1100; error_at 0x1080]) false; OpAdd (Some (error_at <$> 0x1100 :: extra)) false].
Definition demo_model (base : Z) (extra : list Z) : bp_model :=
  (model_ops (U := demo_umc base) (demo_ops extra) (mk_model [] [] AMDGV_RAS_INV_MEM_PFN (Some 1))).2.

Lemma demo_few base : few_pages (U := demo_umc base).
Proof. intros r recs. cbn. intros [= <-]. cbn. lia. Qed.

(** The second report of a page is not recorded again. *)
Example demo_pages : retired_page <$> pages (demo_model 0 []) = [0x1100; 0x1110; 0x1080; 0x1090].
Proof. reflexivity. Qed.

Lemma demo_host base extra : (base, extra) ∈ [(0, []); (2 ^ 40, []); (2 ^ 41, [0x1200])] ->
  exists s, run_ops (E := demo_oss) (U := demo_umc base) (demo_ops extra) demo_loaded =
    Ret ((model_ops (U := demo_umc base) (demo_ops extra) (mk_model [] [] AMDGV_RAS_INV_MEM_PFN (Some 1))).1, s) /\
    implements (U := demo_umc base) (demo_model base extra) s /\ os_allocs (bp_oss s) = 5%nat.
Proof.
  intros Hin. destruct (history_implements (E := demo_oss) (U := demo_umc base) demo_unloaded demo_loaded (demo_ops extra)
    (model_ops (U := demo_umc base) (demo_ops extra) (mk_model [] [] AMDGV_RAS_INV_MEM_PFN (Some 1))).1 (demo_model base extra)) as (s & E1 & Hi).
  - apply demo_few.
  - cbn. lia.
  - reflexivity.
  - intros d [= <-]. done.
  - unfold demo_model. by destruct (model_ops _ _).
  - repeat (apply elem_of_cons in Hin as [[= -> ->]|Hin]; [by vm_compute|]); by apply elem_of_nil in Hin.
  - exists s. split; [done|]. split; [done|].
    repeat (apply elem_of_cons in Hin as [[= -> ->]|Hin]; [vm_compute in E1; injection E1 as <-; done|]); by apply elem_of_nil in Hin.
Qed.


Lemma bad_page_queries_witness : exists s,
  amdgv_umc_check_bad_pages_in_range 0x1080000 4096 s = Ret (true, s) /\
  amdgv_umc_get_badpages_record 9 s = Ret ((AMDGV_FAILURE, None), s).
Proof.
  destruct (demo_host 0 [] ltac:(by left)) as (s & _ & (d & T & Hd & Hh & _) & Ha). exists s.
  destruct (bad_page_queries (E := demo_oss) (U := demo_umc 0) _ _ T d s Hd Hh) as (H1 & _ & H3 & _).
  split; [rewrite H1; by vm_compute|]. rewrite H3 by lia. by vm_compute.
Defined.




Lemma migration_unique_pages_witness : exists s t T1 T2 sec t', lists_pages (H := demo_umc (2 ^ 40)) T1 (bad s) /\
  lists_pages (H := demo_umc (2 ^ 41)) T2 (bad t) /\
  amdgv_migration_export_bad_pages (U := demo_umc (2 ^ 40)) s = Ret ((0, Some sec), s) /\
  amdgv_migration_import_bad_pages (E := demo_oss) (U := demo_umc (2 ^ 41)) 0 sec t = Ret (0, t').
Proof.
  destruct (demo_host (2 ^ 40) [] ltac:(right; by left)) as (b1 & _ & (d1 & T1 & Hd1 & Hh1 & _) & _).
  destruct (demo_host (2 ^ 41) [0x1200] ltac:(right; right; by left)) as (b2 & _ & (d2 & T2 & Hd2 & Hh2 & _) & Ha2).
  pose proof (holds_sorted_length (U := demo_umc (2 ^ 40)) _ _ _ _ Hh1) as Hl1.
  pose proof (holds_sorted_length (U := demo_umc (2 ^ 41)) _ _ _ _ Hh2) as Hl2.
  set (s := mk_copier b1 [] [] 0). set (t := mk_copier b2 [mk_mig None 0] [] 0).
  assert (lists_pages (H := demo_umc (2 ^ 40)) T1 (bad s)) as H1 by (eexists _, _, d1; split; [done|exact Hh1]).
  assert (lists_pages (H := demo_umc (2 ^ 41)) T2 (bad t)) as H2 by (eexists _, _, d2; split; [done|exact Hh2]).
  assert (Forall (fun p => mc_base_pfn (U := demo_umc (2 ^ 40)) <= p) T1) as Hab.
  { apply Forall_forall. intros x (r & Hr & ->)%(h_elem _ _ _ _ Hh1). vm_compute in Hr.
    repeat (apply elem_of_cons in Hr as [->|Hr]; [by vm_compute|]). by apply elem_of_nil in Hr. }
  assert (length (pages (demo_model (2 ^ 40) [])) = 4%nat) as E1 by by vm_compute.
  assert (length (pages (demo_model (2 ^ 41) [0x1200])) = 6%nat) as E2 by by vm_compute.
  destruct (migration_unique_pages demo_oss (demo_umc (2 ^ 40)) (demo_umc (2 ^ 41)) T1 T2 (mk_mig None 0) 0 s t H1 H2
    ltac:(unfold MAX_BAD_PAGE_THRESHOLD; lia) ltac:(unfold MAX_BAD_PAGE_THRESHOLD; lia) ltac:(by vm_compute) ltac:(by vm_compute)
    Hab eq_refl ltac:(cbn [bad t]; by rewrite Ha2)) as (sec & t' & He & Hi & _).
  by exists s, t, T1, T2, sec, t'.
Defined.

(** ** Behaviour that departs from what the code means to do *)

Definition after (os : list bp_op) : bad_pages :=
  match run_ops (E := demo_oss) (U := demo_umc 0) os demo_loaded with Ret (_, s) => s | Fault => demo_unloaded end.
Definition add_one (page : Z) (s : bad_pages) : outcome (Z * bad_pages) :=
  amdgv_umc_add_bad_pages (E := demo_oss) (U := demo_umc 0) (Some [error_at page]) false s.

(** With three records of two pages each the next one needs room for eight
    pages, as many as were allocated: the array of pages is doubled, and then
    as many entries are copied from the sorted array, which is half as long. *)
Lemma bad_page_growth_overreads :
  add_one 0x1300 (after [OpAdd (Some (error_at <$> [0x1000; 0x1100; 0x1200])) false]) = Fault.
Proof. by vm_compute. Qed.

(** A list of one bad page is sorted to a list of -1 pages. *)
Lemma one_page_sorts_to_failure p : amdgv_umc_sort_bp_offsets [p] = Some (AMDGV_FAILURE, [p]).
Proof. done. Qed.

(** While the memory-partition mode cannot be read, new errors are dropped and
    success is reported. *)
Lemma unreadable_mode_drops_pages page s : nps s = None -> eh_data s <> None -> add_one page s = Ret (0, s).
Proof.
  intros Hn Hd. destruct s as [[d|] ea mx np o]; cbn in *; [|done]. subst np. done.
Qed.
