(* ===== verification/SharedExcl.v ===== *)
(** * The shared exclusion lock (src/libgv/core/amdgv_task_barrier.c)

    Threads of one group may be inside together, threads of different groups
    may not: function-level resets and copies by DMA exclude each other on a
    hive of GPUs.  One step below is one statement of
    [shared_exclusion_enter] or [shared_exclusion_exit] that touches shared
    state, with the branch that follows it; a thread's [at_] is where it is.
    [Outside] and [Inside] are the places from which its caller goes on. *)
From S2P Require Import Prelude Oss Threads.
#[local] Open Scope Z_scope.

Definition SHARED_EXCLUSION_NUM_GROUPS : nat := 2.

(** The semaphores and atomic counters by their values, the mutex by the
    thread that holds it. *)
Record shared_exclusion_lock := mk_lock {
  sem : Z;
  gate : list Z;
  count : list Z;
  active : list bool;
  holder : option nat;
}.
#[export] Instance eta_shared_exclusion_lock : Eta shared_exclusion_lock := fun r =>
  mk_lock (sem r) (gate r) (count r) (active r) (holder r).

Inductive pc :=
| Outside
(* shared_exclusion_enter *)
| EnterLock | EnterInc
| FirstUnlock | FirstDown | FirstLock | FirstActivate | FirstRead | FirstWake (waiters : Z)
| FirstDone
| WaitUnlock | WaitDown
| GoUnlock
| Inside
(* shared_exclusion_exit *)
| ExitLock | ExitDec | ExitInactive | ExitUp | ExitUnlock.

Record thread := mk_thread { group : nat; at_ : pc }.
#[export] Instance eta_thread : Eta thread := fun r => mk_thread (group r) (at_ r).

Section steps.
Implicit Types (s : shared_exclusion_lock).

Definition mutex_lock (t : nat) s : option shared_exclusion_lock :=
  match holder s with None => Some (s <| holder := Some t |>) | Some _ => None end.
Definition mutex_unlock s : shared_exclusion_lock := s <| holder := None |>.

(** [oss_sema_down] waits until the value is positive. *)
Definition sema_down (v : Z) : option Z := if 0 <? v then Some (v - 1) else None.

(** [shared_exclusion_enter] from [EnterLock], and from [Outside], where the
    group is tested. *)
Definition enter_step (t : nat) s (g : nat) (p : pc) : option (shared_exclusion_lock * pc) :=
  match p with
  | Outside => Some (s, if bool_decide (SHARED_EXCLUSION_NUM_GROUPS <= g)%nat then Inside else EnterLock)
  | EnterLock => s ← mutex_lock t s; Some (s, EnterInc)
  | EnterInc =>
      c ← count s !! g; a ← active s !! g;
      let c := u64 (c + 1) in
      Some (s <| count := <[g := c]> (count s) |>,
            if u8 c =? 1 then FirstUnlock else if negb a then WaitUnlock else GoUnlock)
  | FirstUnlock => Some (mutex_unlock s, FirstDown)
  | FirstDown => v ← sema_down (sem s); Some (s <| sem := v |>, FirstLock)
  | FirstLock => s ← mutex_lock t s; Some (s, FirstActivate)
  | FirstActivate => Some (s <| active := <[g := true]> (active s) |>, FirstRead)
  | FirstRead => c ← count s !! g; Some (s, FirstWake (u8 (c - 1)))
  | FirstWake waiters =>
      if 0 <? waiters then
        v ← gate s !! g; Some (s <| gate := <[g := v + 1]> (gate s) |>, FirstWake (u8 (waiters - 1)))
      else Some (s, FirstDone)
  | FirstDone => Some (mutex_unlock s, Inside)
  | WaitUnlock => Some (mutex_unlock s, WaitDown)
  | WaitDown => v ← gate s !! g; v ← sema_down v; Some (s <| gate := <[g := v]> (gate s) |>, Inside)
  | GoUnlock => Some (mutex_unlock s, Inside)
  | _ => None
  end.

Definition exit_step (t : nat) s (g : nat) (p : pc) : option (shared_exclusion_lock * pc) :=
  match p with
  | Inside => Some (s, if bool_decide (SHARED_EXCLUSION_NUM_GROUPS <= g)%nat then Outside else ExitLock)
  | ExitLock => s ← mutex_lock t s; Some (s, ExitDec)
  | ExitDec =>
      c ← count s !! g;
      let c := u64 (c - 1) in
      Some (s <| count := <[g := c]> (count s) |>, if u8 c =? 0 then ExitInactive else ExitUnlock)
  | ExitInactive => Some (s <| active := <[g := false]> (active s) |>, ExitUp)
  | ExitUp => Some (s <| sem := sem s + 1 |>, ExitUnlock)
  | ExitUnlock => Some (mutex_unlock s, Outside)
  | _ => None
  end.

Definition tstep (t : nat) s (l : thread) : option (shared_exclusion_lock * thread) :=
  r ← (match at_ l with
       | Inside | ExitLock | ExitDec | ExitInactive | ExitUp | ExitUnlock => exit_step t s (group l) (at_ l)
       | _ => enter_step t s (group l) (at_ l)
       end);
  Some (fst r, l <| at_ := snd r |>).
End steps.

(** After [shared_exclusion_init], with the threads that will use the lock. *)
Definition ready : shared_exclusion_lock :=
  mk_lock 1 (replicate SHARED_EXCLUSION_NUM_GROUPS 0) (replicate SHARED_EXCLUSION_NUM_GROUPS 0)
    (replicate SHARED_EXCLUSION_NUM_GROUPS false) None.
Definition at_start (groups : list nat) : system shared_exclusion_lock thread :=
  mk_system ready ((fun g => mk_thread g Outside) <$> groups).

(** Inside a call. *)
Definition in_call (l : thread) : bool := match at_ l with Outside | Inside => false | _ => true end.

(** ** Creating and destroying the lock

    Which of the handles are valid, the values behind them, and the kernel
    objects alive. *)

Record handles := mk_handles { h_sem : bool; h_gate : list bool; h_count : list bool; h_lock : bool }.
#[export] Instance eta_handles : Eta handles := fun r =>
  mk_handles (h_sem r) (h_gate r) (h_count r) (h_lock r).

Record sel_state := mk_sel { sel : handles; values : shared_exclusion_lock; sel_oss : oss_state }.
#[export] Instance eta_sel_state : Eta sel_state := fun r => mk_sel (sel r) (values r) (sel_oss r).

Definition no_handles : handles :=
  mk_handles false (replicate SHARED_EXCLUSION_NUM_GROUPS false) (replicate SHARED_EXCLUSION_NUM_GROUPS false) false.

Section creation.
Context {E : OssEnv}.

Definition on_oss {A} (m : M oss_state A) : M sel_state A :=
  zoom sel_oss (fun o s => s <| sel_oss := o |>) m.
Definition set_sel (f : handles -> handles) : M sel_state unit := modify (fun s => s <| sel := f (sel s) |>).
Definition set_values (f : shared_exclusion_lock -> shared_exclusion_lock) : M sel_state unit :=
  modify (fun s => s <| values := f (values s) |>).

(** [oss_sema_init v], [oss_atomic_init] and [oss_mutex_init]: the object, and
    whether there is one. *)
Definition sema_init_main : M sel_state bool :=
  ok ← on_oss oss_alloc;
  _ ← set_sel (fun h => h <| h_sem := ok |>);
  if negb ok then mret false else
  _ ← set_values (fun v => v <| sem := 1 |>);
  mret true.
Definition sema_init_gate (i : nat) : M sel_state bool :=
  ok ← on_oss oss_alloc;
  _ ← set_sel (fun h => h <| h_gate := <[i := ok]> (h_gate h) |>);
  if negb ok then mret false else
  _ ← set_values (fun v => v <| gate := <[i := 0]> (gate v) |>);
  mret true.
Definition atomic_init (i : nat) : M sel_state bool :=
  ok ← on_oss oss_alloc;
  _ ← set_sel (fun h => h <| h_count := <[i := ok]> (h_count h) |>);
  mret ok.
Definition mutex_init : M sel_state bool :=
  ok ← on_oss oss_lock_init;
  _ ← set_sel (fun h => h <| h_lock := ok |>);
  if negb ok then mret false else
  _ ← set_values (fun v => v <| holder := None |>);
  mret true.

Definition shared_exclusion_fini : M sel_state unit :=
  h ← gets sel;
  _ ← when (h_sem h) (_ ← on_oss oss_free; set_sel (fun h => h <| h_sem := false |>));
  _ ← for_each (seq 0 SHARED_EXCLUSION_NUM_GROUPS) (fun i =>
        h ← gets sel;
        g ← require (h_gate h !! i);
        _ ← when g (_ ← on_oss oss_free; set_sel (fun h => h <| h_gate := <[i := false]> (h_gate h) |>));
        c ← require (h_count h !! i);
        _ ← when c (_ ← on_oss oss_free; set_sel (fun h => h <| h_count := <[i := false]> (h_count h) |>));
        set_values (fun v => v <| active := <[i := false]> (active v) |>));
  h ← gets sel;
  when (h_lock h) (_ ← on_oss oss_lock_fini; set_sel (fun h => h <| h_lock := false |>)).

(** The loop over the groups; [false] at the first failure. *)
Fixpoint init_groups (is_ : list nat) : M sel_state bool :=
  match is_ with
  | [] => mret true
  | i :: is_ =>
      g ← sema_init_gate i;
      if negb g then mret false else
      c ← atomic_init i;
      if negb c then mret false else
      _ ← set_values (fun v => v <| count := <[i := 0]> (count v) |>);
      _ ← set_values (fun v => v <| active := <[i := false]> (active v) |>);
      init_groups is_
  end.

Definition shared_exclusion_init : M sel_state Z :=
  let fail := _ ← shared_exclusion_fini; mret (-1) in
  s ← sema_init_main;
  if negb s then fail else
  ok ← init_groups (seq 0 SHARED_EXCLUSION_NUM_GROUPS);
  if negb ok then fail else
  l ← mutex_init;
  if negb l then fail else mret 0.
End creation.
