(* ===== verification/SharedExclInv.v ===== *)
(** * The shared exclusion lock: the invariant

    Everything is counted over the threads: [number g f] is the sum of [f]
    over the threads of group [g], by the place where they are. *)
From S2P Require Import Prelude Threads SharedExcl.
#[local] Open Scope Z_scope.

Implicit Types (s : shared_exclusion_lock) (ts : list thread) (l : thread) (g t : nat).

(** ** Places *)

(** On the way to the main semaphore, as the first of the group. *)
Definition leading (p : pc) : nat :=
  match p with FirstUnlock | FirstDown | FirstLock | FirstActivate => 1 | _ => 0 end.
(** At the gate of the group. *)
Definition waiting (p : pc) : nat := match p with WaitUnlock | WaitDown => 1 | _ => 0 end.
(** Past it. *)
Definition entered (p : pc) : nat :=
  match p with FirstRead | FirstWake _ | FirstDone | GoUnlock | Inside | ExitLock | ExitDec => 1 | _ => 0 end.
Definition reading (p : pc) : nat := match p with FirstRead => 1 | _ => 0 end.
Definition draining (p : pc) : nat := match p with ExitInactive => 1 | _ => 0 end.
(** Signals still to be given. *)
Definition to_wake (p : pc) : nat := match p with FirstWake w => Z.to_nat w | _ => 0 end.
(** Holding the mutex. *)
Definition locked (p : pc) : nat :=
  match p with
  | EnterInc | FirstUnlock | FirstActivate | FirstRead | FirstWake _ | FirstDone | WaitUnlock | GoUnlock
  | ExitDec | ExitInactive | ExitUp | ExitUnlock => 1
  | _ => 0
  end.
(** Where the fields of a group are read or written besides. *)
Definition updating (p : pc) : nat :=
  match p with EnterInc | FirstActivate | FirstWake _ | ExitDec => 1 | _ => 0 end.
Definition counting (p : pc) : nat := match p with EnterInc => 1 | _ => 0 end.
(** Holding the main semaphore for the group while it is not active. *)
Definition owning (p : pc) : nat := match p with FirstLock | FirstActivate | ExitUp => 1 | _ => 0 end.

Definition on_group g (f : pc -> nat) l : nat := if decide (group l = g) then f (at_ l) else 0%nat.
Definition number g f ts : nat := total (on_group g f) ts.
Definition overall (f : pc -> nat) ts : nat := total (fun l => f (at_ l)) ts.

Lemma number_le g f ts : (number g f ts <= overall f ts)%nat.
Proof. apply total_le, Forall_forall. intros l _. unfold on_group. case_decide; lia. Qed.

Lemma number_add g f1 f2 ts : number g (fun p => f1 p + f2 p)%nat ts = (number g f1 ts + number g f2 ts)%nat.
Proof.
  unfold number. rewrite <- total_add. apply total_ext. intros l. unfold on_group. by case_decide.
Qed.

Lemma number_mono g f1 f2 ts : (forall p, f1 p <= f2 p)%nat -> (number g f1 ts <= number g f2 ts)%nat.
Proof. intros H. apply total_le, Forall_forall. intros l _. unfold on_group. case_decide; auto. Qed.

Lemma number_size g f ts : (forall p, f p <= 1)%nat -> (number g f ts <= length ts)%nat.
Proof.
  intros H. unfold number. rewrite <- (Nat.mul_1_r (length ts)), <- (total_const ts 1). apply total_le, Forall_forall.
  intros l _. unfold on_group. case_decide; [apply H|lia].
Qed.

(** One thread moves. *)
Lemma overall_move f ts t l p : ts !! t = Some l ->
  (overall f (<[t := l <| at_ := p |> ]> ts) + f (at_ l) = overall f ts + f p)%nat.
Proof. intros Ht. exact (total_insert (fun l => f (at_ l)) ts t l (l <| at_ := p |>) Ht). Qed.

Lemma number_move g f ts t l p : ts !! t = Some l ->
  (number g f (<[t := l <| at_ := p |> ]> ts) + on_group g f l = number g f ts + on_group g f (l <| at_ := p |>))%nat.
Proof. apply (total_insert (on_group g f)). Qed.

Lemma number_move_same g f ts t l p : ts !! t = Some l -> group l = g ->
  (number g f (<[t := l <| at_ := p |> ]> ts) + f (at_ l) = number g f ts + f p)%nat.
Proof.
  intros Ht Hg. pose proof (number_move g f ts t l p Ht) as H. unfold on_group in H.
  rewrite !decide_True in H by done. exact H.
Qed.

Lemma number_move_other g f ts t l p : ts !! t = Some l -> group l <> g ->
  number g f (<[t := l <| at_ := p |> ]> ts) = number g f ts.
Proof.
  intros Ht Hg. pose proof (number_move g f ts t l p Ht) as H. unfold on_group in H.
  rewrite !decide_False in H by done. lia.
Qed.

(** ** The invariant *)

(** One group: gate, counter, flag and the places of its threads. *)
Record group_ok g ts (gt cn : Z) (ac : bool) : Prop := {
  go_count : cn = Z.of_nat (number g leading ts + number g entered ts + number g waiting ts);
  go_gate : 0 <= gt;
  go_leading : number g leading ts = (if negb ac && (0 <? cn)%Z then 1 else 0)%nat;
  go_draining : number g draining ts = (if ac && (cn =? 0)%Z then 1 else 0)%nat;
  go_inactive : ac = false -> number g entered ts = 0%nat /\ gt = 0;
  go_reading : (0 < number g reading ts)%nat -> gt = 0 /\ number g entered ts = 1%nat;
  go_waiting : ac = true -> number g reading ts = 0%nat ->
    gt + Z.of_nat (number g to_wake ts) = Z.of_nat (number g waiting ts);
}.

Record lock_ok s ts : Prop := {
  lo_gates : length (gate s) = SHARED_EXCLUSION_NUM_GROUPS;
  lo_counts : length (count s) = SHARED_EXCLUSION_NUM_GROUPS;
  lo_actives : length (active s) = SHARED_EXCLUSION_NUM_GROUPS;
  lo_size : (length ts < 256)%nat;
  lo_valid : forall t l, ts !! t = Some l -> (SHARED_EXCLUSION_NUM_GROUPS <= group l)%nat -> in_call l = false;
  lo_mutex : overall locked ts = (match holder s with Some _ => 1 | None => 0 end)%nat;
  lo_sem : 0 <= sem s;
  lo_owner : sem s + Z.of_nat (overall owning ts) + Z.of_nat (total Nat.b2n (active s)) = 1;
  lo_groups : forall g gt cn ac, gate s !! g = Some gt -> count s !! g = Some cn -> active s !! g = Some ac ->
    group_ok g ts gt cn ac;
}.

Definition sys_ok (c : system shared_exclusion_lock thread) : Prop := lock_ok (shared c) (threads c).

(** The mutex: at most one thread of a group is in these places together. *)
Lemma locked_once g ts s : lock_ok s ts ->
  (number g reading ts + number g draining ts + number g updating ts <= 1)%nat.
Proof.
  intros H. pose proof (lo_mutex _ _ H) as Hm. pose proof (number_le g locked ts) as Hl.
  rewrite <- !number_add. eapply Nat.le_trans; [apply (number_mono g _ locked)|destruct (holder s); lia].
  intros []; cbn; lia.
Qed.

Lemma number_ge_same g f ts t l : ts !! t = Some l -> group l = g -> (f (at_ l) <= number g f ts)%nat.
Proof.
  intros Ht Hg. pose proof (total_ge (on_group g f) ts t l Ht) as H. unfold on_group in H at 1.
  by rewrite decide_True in H.
Qed.

Lemma ready_ok groups : (length groups < 256)%nat -> sys_ok (at_start groups).
Proof.
  intros Hn.
  assert (forall f : thread -> nat, (forall g, f (mk_thread g Outside) = 0%nat) ->
    total f (threads (at_start groups)) = 0%nat) as H0.
  { intros f Hf. apply total_zero. cbn. apply Forall_fmap, Forall_forall. intros g _. apply Hf. }
  assert (forall g f, f Outside = 0%nat -> number g f (threads (at_start groups)) = 0%nat) as Hg.
  { intros g f Hf. apply H0. intros g'. unfold on_group. cbn. by case_decide. }
  split; cbn [shared at_start ready sem gate count active holder]; try done.
  - cbn. by rewrite length_fmap.
  - intros t l Hl _. cbn in Hl. rewrite list_lookup_fmap in Hl.
    destruct (groups !! t); [|done]. by injection Hl as <-.
  - by apply H0.
  - unfold overall. rewrite H0 by done. done.
  - intros g gt cn ac Hgt Hcn Hac. apply lookup_replicate in Hgt as [-> _].
    apply lookup_replicate in Hcn as [-> _]. apply lookup_replicate in Hac as [-> _].
    split; intros; rewrite ?Hg in * by done; try done; try lia.
Qed.

(** ** A step keeps the invariant *)

(** What has to be shown of a thread that moves to [p]: the mutex, the main
    semaphore, and its own group. *)
Lemma moved_ok s s' ts t l p : lock_ok s ts -> ts !! t = Some l ->
  ((SHARED_EXCLUSION_NUM_GROUPS <= group l)%nat -> in_call (l <| at_ := p |>) = false) ->
  length (gate s') = length (gate s) -> length (count s') = length (count s) ->
  length (active s') = length (active s) ->
  ((match holder s' with Some _ => 1 | None => 0 end) + locked (at_ l) =
     (match holder s with Some _ => 1 | None => 0 end) + locked p)%nat ->
  0 <= sem s' ->
  sem s' + Z.of_nat (owning p) + Z.of_nat (total Nat.b2n (active s')) =
    sem s + Z.of_nat (owning (at_ l)) + Z.of_nat (total Nat.b2n (active s)) ->
  (forall g, g <> group l -> gate s' !! g = gate s !! g /\ count s' !! g = count s !! g /\ active s' !! g = active s !! g) ->
  (forall gt cn ac gt' cn' ac', gate s !! group l = Some gt -> count s !! group l = Some cn ->
     active s !! group l = Some ac -> gate s' !! group l = Some gt' -> count s' !! group l = Some cn' ->
     active s' !! group l = Some ac' -> group_ok (group l) ts gt cn ac ->
     group_ok (group l) (<[t := l <| at_ := p |> ]> ts) gt' cn' ac') ->
  lock_ok s' (<[t := l <| at_ := p |> ]> ts).
Proof.
  intros H Ht Hv Hlg Hlc Hla Hm Hs0 Hs Hoth Hown. pose proof H as [Lg Lc La Ln Lv Lm Ls Lo LG].
  split; [congruence..|by rewrite length_insert| | |done| |].
  - intros u k Hu. destruct (decide (u = t)) as [->|Hne].
    + rewrite list_lookup_insert_eq in Hu by (by eapply lookup_lt_Some). by injection Hu as <-.
    + rewrite list_lookup_insert_ne in Hu by done. by apply (Lv u).
  - pose proof (overall_move locked ts t l p Ht). lia.
  - pose proof (overall_move owning ts t l p Ht). lia.
  - intros g gt' cn' ac' Hg Hc Ha. destruct (decide (g = group l)) as [->|Hne].
    + pose proof (lookup_lt_Some _ _ _ Hg) as Hlt. rewrite Hlg, Lg in Hlt.
      destruct (lookup_lt_is_Some_2 (gate s) (group l)) as [gt Hgt]; [by rewrite Lg|].
      destruct (lookup_lt_is_Some_2 (count s) (group l)) as [cn Hcn]; [by rewrite Lc|].
      destruct (lookup_lt_is_Some_2 (active s) (group l)) as [ac Hac]; [by rewrite La|].
      eapply Hown; eauto.
    + destruct (Hoth g Hne) as (Eg & Ec & Ea). rewrite Eg in Hg. rewrite Ec in Hc. rewrite Ea in Ha.
      destruct (LG g gt' cn' ac' Hg Hc Ha) as [G1 G2 G3 G4 G5 G6 G7].
      split; rewrite ?(number_move_other g _ ts t l p Ht) by congruence; assumption.
Qed.

(** The numbers of the group of a thread that moves. *)
Ltac count_moves Ht p :=
  pose proof (number_move_same _ leading _ _ _ p Ht eq_refl);
  pose proof (number_move_same _ waiting _ _ _ p Ht eq_refl);
  pose proof (number_move_same _ entered _ _ _ p Ht eq_refl);
  pose proof (number_move_same _ reading _ _ _ p Ht eq_refl);
  pose proof (number_move_same _ draining _ _ _ p Ht eq_refl);
  pose proof (number_move_same _ to_wake _ _ _ p Ht eq_refl).

(** A move that changes no number, and none of the arrays. *)
Lemma plain_move s s' ts t l p : lock_ok s ts -> ts !! t = Some l ->
  ((SHARED_EXCLUSION_NUM_GROUPS <= group l)%nat -> in_call (l <| at_ := p |>) = false) ->
  gate s' = gate s -> count s' = count s -> active s' = active s ->
  ((match holder s' with Some _ => 1 | None => 0 end) + locked (at_ l) =
     (match holder s with Some _ => 1 | None => 0 end) + locked p)%nat ->
  0 <= sem s' -> sem s' + Z.of_nat (owning p) = sem s + Z.of_nat (owning (at_ l)) ->
  leading p = leading (at_ l) -> waiting p = waiting (at_ l) -> entered p = entered (at_ l) ->
  reading p = reading (at_ l) -> draining p = draining (at_ l) -> to_wake p = to_wake (at_ l) ->
  lock_ok s' (<[t := l <| at_ := p |> ]> ts).
Proof.
  intros H Ht Hv Eg Ec Ea Hm Hs0 Hs H1 H2 H3 H4 H5 H6. apply (moved_ok s); rewrite ?Eg, ?Ec, ?Ea; try done; [lia|].
  intros gt cn ac gt' cn' ac' -> -> -> [= <-] [= <-] [= <-] [G1 G2 G3 G4 G5 G6 G7].
  count_moves Ht p.
  split.
  all: replace (number (group l) leading (<[t := l <| at_ := p |> ]> ts)) with (number (group l) leading ts) by lia.
  all: replace (number (group l) waiting (<[t := l <| at_ := p |> ]> ts)) with (number (group l) waiting ts) by lia.
  all: replace (number (group l) entered (<[t := l <| at_ := p |> ]> ts)) with (number (group l) entered ts) by lia.
  all: replace (number (group l) reading (<[t := l <| at_ := p |> ]> ts)) with (number (group l) reading ts) by lia.
  all: replace (number (group l) draining (<[t := l <| at_ := p |> ]> ts)) with (number (group l) draining ts) by lia.
  all: replace (number (group l) to_wake (<[t := l <| at_ := p |> ]> ts)) with (number (group l) to_wake ts) by lia.
  all: assumption.
Qed.

Lemma out_of_groups s ts g gt : lock_ok s ts -> (SHARED_EXCLUSION_NUM_GROUPS <= g)%nat -> gate s !! g <> Some gt.
Proof. intros H Hg E. apply lookup_lt_Some in E. rewrite (lo_gates _ _ H) in E. lia. Qed.

Lemma free_total ts s : lock_ok s ts -> holder s = None -> overall locked ts = 0%nat.
Proof. intros H Hh. rewrite (lo_mutex _ _ H), Hh. done. Qed.

Lemma mutex_lock_inv t s s' : mutex_lock t s = Some s' -> holder s = None /\ s' = s <| holder := Some t |>.
Proof. unfold mutex_lock. destruct (holder s); [done|]. by intros [= <-]. Qed.

Lemma sema_down_inv v v' : sema_down v = Some v' -> 0 < v /\ v' = v - 1.
Proof. unfold sema_down. destruct (Z.ltb_spec 0 v); [|done]. by intros [= <-]. Qed.

(** A caller enters or leaves; with a group out of range the functions return
    at once. *)
Lemma call_ok s ts t g p q : lock_ok s ts -> ts !! t = Some (mk_thread g p) ->
  in_call (mk_thread g p) = false -> (q = EnterLock /\ p = Outside \/ q = ExitLock /\ p = Inside) ->
  lock_ok s (<[t := mk_thread g (if bool_decide (SHARED_EXCLUSION_NUM_GROUPS <= g)%nat
                                 then match p with Outside => Inside | _ => Outside end else q)]> ts).
Proof.
  intros H Ht Hc Hq. case_bool_decide as Hg.
  - apply (moved_ok s s ts t (mk_thread g p) _ H Ht); try done.
    + by destruct Hq as [[_ ->]|[_ ->]].
    + by destruct Hq as [[_ ->]|[_ ->]].
    + apply (lo_sem _ _ H).
    + by destruct Hq as [[_ ->]|[_ ->]].
    + intros gt cn ac gt' cn' ac' E. by apply (out_of_groups _ _ _ gt H) in Hg.
  - destruct Hq as [[-> ->]|[-> ->]]; apply (plain_move s s ts t (mk_thread g _) _ H Ht); try done; apply (lo_sem _ _ H).
Qed.

Ltac lists := cbn; rewrite ?length_insert; try done.

(** Where [f2] counts nothing, a function that is zero outside it does not either. *)
Lemma number_none g f1 f2 ts : number g f2 ts = 0%nat -> (forall p, f2 p = 0%nat -> f1 p = 0%nat) ->
  number g f1 ts = 0%nat.
Proof.
  intros H0 H. apply total_zero, Forall_lookup. intros t l Ht. pose proof (total_zero_inv _ _ _ _ H0 Ht) as Hl.
  unfold on_group in *. case_decide; auto.
Qed.

Section one_step.
Context (s : shared_exclusion_lock) (ts : list thread) (t g : nat).
Hypothesis H : lock_ok s ts.

(** The group of a thread in a call has its three fields. *)
Lemma group_lookup p : ts !! t = Some (mk_thread g p) -> in_call (mk_thread g p) = true ->
  (g < SHARED_EXCLUSION_NUM_GROUPS)%nat.
Proof. intros Ht Hc. destruct (Nat.lt_ge_cases g SHARED_EXCLUSION_NUM_GROUPS); [done|]. by rewrite (lo_valid _ _ H t _ Ht) in Hc. Qed.

(** Where the arrays of the group change, the other groups keep theirs. *)
Lemma group_move s' p q gt cn ac gt' cn' ac' : ts !! t = Some (mk_thread g p) -> in_call (mk_thread g p) = true ->
  gate s !! g = Some gt -> count s !! g = Some cn -> active s !! g = Some ac ->
  gate s' = <[g := gt']> (gate s) -> count s' = <[g := cn']> (count s) -> active s' = <[g := ac']> (active s) ->
  (match holder s' with Some _ => 1 | None => 0 end + locked p = match holder s with Some _ => 1 | None => 0 end + locked q)%nat ->
  0 <= sem s' ->
  sem s' + Z.of_nat (owning q) + Z.of_nat (Nat.b2n ac') = sem s + Z.of_nat (owning p) + Z.of_nat (Nat.b2n ac) ->
  (group_ok g ts gt cn ac -> group_ok g (<[t := mk_thread g q]> ts) gt' cn' ac') ->
  lock_ok s' (<[t := mk_thread g q]> ts).
Proof.
  intros Ht Hc Eg Ec Ea Eg' Ec' Ea' Hm Hs0 Hs Hok. pose proof (group_lookup p Ht Hc) as Hlt.
  apply (moved_ok s _ ts t (mk_thread g p) q H Ht); rewrite ?Eg', ?Ec', ?Ea'; lists.
  - intros ?. cbn [group] in *. lia.
  - pose proof (total_insert Nat.b2n (active s) g ac ac' Ea). lia.
  - intros g' Hne. rewrite !list_lookup_insert_ne by done. done.
  - intros gt0 cn0 ac0 gt1 cn1 ac1 E1 E2 E3.
    rewrite !list_lookup_insert_eq by (by eapply lookup_lt_Some). intros [= <-] [= <-] [= <-] Hgo.
    simplify_eq. by apply Hok.
Qed.

(** The counter cannot overflow: there are fewer threads than it can count. *)
Lemma count_room :
  (number g leading ts + number g entered ts + number g waiting ts +
   number g counting ts <= length ts)%nat.
Proof. rewrite <- !number_add. apply number_size. intros []; cbn; lia. Qed.

Ltac known_places Ht :=
  pose proof (locked_once g ts s H);
  pose proof count_room;
  pose proof (lo_size _ _ H);
  pose proof (number_ge_same g leading ts t _ Ht eq_refl);
  pose proof (number_ge_same g waiting ts t _ Ht eq_refl);
  pose proof (number_ge_same g entered ts t _ Ht eq_refl);
  pose proof (number_ge_same g reading ts t _ Ht eq_refl);
  pose proof (number_ge_same g draining ts t _ Ht eq_refl);
  pose proof (number_ge_same g counting ts t _ Ht eq_refl);
  pose proof (number_ge_same g updating ts t _ Ht eq_refl).

Lemma number_moved f p q : ts !! t = Some (mk_thread g p) ->
  (number g f (<[t := mk_thread g q]> ts) + f p = number g f ts + f q)%nat.
Proof. intros Ht. exact (number_move_same g f ts t _ q Ht eq_refl). Qed.

(** The arithmetic of one move. *)
Ltac group_arith Ht q :=
  intros [G1 G2 G3 G4 G5 G6 G7]; known_places Ht;
  pose proof (number_moved leading _ q Ht); pose proof (number_moved waiting _ q Ht);
  pose proof (number_moved entered _ q Ht); pose proof (number_moved reading _ q Ht);
  pose proof (number_moved draining _ q Ht); pose proof (number_moved to_wake _ q Ht);
  cbn [at_ group leading waiting entered reading draining to_wake updating counting] in *;
  split; intros; cbn [negb andb] in *.

Ltac same_array := by cbn; rewrite list_insert_id.

Lemma gate_lookup p : ts !! t = Some (mk_thread g p) -> in_call (mk_thread g p) = true ->
  exists gt cn ac, gate s !! g = Some gt /\ count s !! g = Some cn /\ active s !! g = Some ac /\ group_ok g ts gt cn ac.
Proof.
  intros Ht Hc. pose proof (group_lookup p Ht Hc) as Hlt.
  destruct (lookup_lt_is_Some_2 (gate s) g) as [gt Hgt]; [by rewrite (lo_gates _ _ H)|].
  destruct (lookup_lt_is_Some_2 (count s) g) as [cn Hcn]; [by rewrite (lo_counts _ _ H)|].
  destruct (lookup_lt_is_Some_2 (active s) g) as [ac Hac]; [by rewrite (lo_actives _ _ H)|].
  exists gt, cn, ac. split_and!; try done. by apply (lo_groups _ _ H).
Qed.

Lemma inc_ok cn ac : ts !! t = Some (mk_thread g EnterInc) -> count s !! g = Some cn -> active s !! g = Some ac ->
  lock_ok (s <| count := <[g := u64 (cn + 1)]> (count s) |>)
    (<[t := mk_thread g (if u8 (u64 (cn + 1)) =? 1 then FirstUnlock else if negb ac then WaitUnlock else GoUnlock)]> ts).
Proof.
  intros Ht Hcn Hac. destruct (gate_lookup _ Ht eq_refl) as (gt & cn' & ac' & Hgt & Hcn' & Hac' & Hg). simplify_eq.
  assert (0 <= cn < 255) as Hr.
  { destruct Hg as [G1 _ _ _ _ _ _]. known_places Ht. cbn in *. lia. }
  rewrite (wrap_id 64), (wrap_id 8) by (unfold in_width; lia).
  eapply (group_move _ _ _ gt cn ac gt (cn + 1) ac Ht eq_refl); try done; try same_array.
  - destruct (cn + 1 =? 1); [|destruct ac]; cbn; destruct (holder s); lia.
  - apply (lo_sem _ _ H).
  - destruct (cn + 1 =? 1); [|destruct ac]; cbn; lia.
  - destruct (Z.eqb_spec (cn + 1) 1) as [H1|H1]; [|destruct ac].
    + group_arith Ht FirstUnlock; destruct ac; cbn [negb andb] in *; repeat case_match; lia.
    + group_arith Ht GoUnlock; cbn in *; repeat case_match; lia.
    + group_arith Ht WaitUnlock; cbn in *; repeat case_match; lia.
Qed.

Lemma dec_ok cn : ts !! t = Some (mk_thread g ExitDec) -> count s !! g = Some cn ->
  lock_ok (s <| count := <[g := u64 (cn - 1)]> (count s) |>)
    (<[t := mk_thread g (if u8 (u64 (cn - 1)) =? 0 then ExitInactive else ExitUnlock)]> ts).
Proof.
  intros Ht Hcn. destruct (gate_lookup _ Ht eq_refl) as (gt & cn' & ac & Hgt & Hcn' & Hac & Hg). simplify_eq.
  assert (0 < cn < 256) as Hr.
  { destruct Hg as [G1 _ _ _ _ _ _]. known_places Ht. cbn in *. lia. }
  rewrite (wrap_id 64), (wrap_id 8) by (unfold in_width; lia).
  eapply (group_move _ _ _ gt cn ac gt (cn - 1) ac Ht eq_refl); try done; try same_array.
  - destruct (cn - 1 =? 0); cbn; destruct (holder s); lia.
  - apply (lo_sem _ _ H).
  - destruct (cn - 1 =? 0); cbn; lia.
  - destruct (Z.eqb_spec (cn - 1) 0) as [H1|H1].
    + group_arith Ht ExitInactive; destruct ac; cbn [negb andb] in *; repeat case_match; lia.
    + group_arith Ht ExitUnlock; destruct ac; cbn [negb andb] in *; repeat case_match; lia.
Qed.

Lemma activate_ok : ts !! t = Some (mk_thread g FirstActivate) ->
  lock_ok (s <| active := <[g := true]> (active s) |>) (<[t := mk_thread g FirstRead]> ts).
Proof.
  intros Ht. destruct (gate_lookup _ Ht eq_refl) as (gt & cn & ac & Hgt & Hcn & Hac & Hg).
  assert (ac = false) as ->.
  { destruct Hg as [_ _ G3 _ _ _ _]. known_places Ht. destruct ac; [|done]. cbn in *. lia. }
  eapply (group_move _ _ _ gt cn false gt cn true Ht eq_refl); try done; try same_array.
  - apply (lo_sem _ _ H).
  - cbn. lia.
  - group_arith Ht FirstRead; cbn in *; repeat case_match; lia.
Qed.

Lemma read_ok cn : ts !! t = Some (mk_thread g FirstRead) -> count s !! g = Some cn ->
  lock_ok s (<[t := mk_thread g (FirstWake (u8 (cn - 1)))]> ts).
Proof.
  intros Ht Hcn. destruct (gate_lookup _ Ht eq_refl) as (gt & cn' & ac & Hgt & Hcn' & Hac & Hg). simplify_eq.
  assert (0 < cn < 256) as Hr.
  { destruct Hg as [G1 _ _ _ _ _ _]. known_places Ht. cbn in *. lia. }
  rewrite wrap_id by (unfold in_width; lia).
  eapply (group_move _ _ _ gt cn ac gt cn ac Ht eq_refl); try done; try same_array.
  - apply (lo_sem _ _ H).
  - intros Hgo. assert (number g to_wake ts = 0%nat /\ gt = 0 /\ number g entered ts = 1%nat) as (H0 & -> & H1).
    { destruct Hgo as [_ _ _ _ _ G6 _]. known_places Ht. cbn in *. split; [|apply G6; lia].
      apply (number_none g to_wake updating); [lia|by intros []]. }
    revert Hgo. group_arith Ht (FirstWake (cn - 1)); destruct ac; cbn [negb andb] in *; repeat case_match; lia.
Qed.

Lemma wake_ok gt w : ts !! t = Some (mk_thread g (FirstWake w)) -> gate s !! g = Some gt -> 0 < w ->
  lock_ok (s <| gate := <[g := gt + 1]> (gate s) |>) (<[t := mk_thread g (FirstWake (u8 (w - 1)))]> ts).
Proof.
  intros Ht Hgt Hw. destruct (gate_lookup _ Ht eq_refl) as (gt' & cn & ac & Hgt' & Hcn & Hac & Hg). simplify_eq.
  assert (ac = true) as ->.
  { destruct Hg as [_ _ _ _ G5 _ _]. known_places Ht. destruct ac; [done|]. destruct (G5 eq_refl). cbn in *. lia. }
  assert (w < 256) as Hw'.
  { destruct Hg as [G1 G2 _ _ _ _ G7]. known_places Ht. pose proof (number_ge_same g to_wake ts t _ Ht eq_refl).
    specialize (G7 eq_refl). cbn [at_ to_wake updating reading] in *. lia. }
  rewrite wrap_id by (unfold in_width; lia).
  eapply (group_move _ _ _ gt cn true (gt + 1) cn true Ht eq_refl); try done; try same_array.
  - apply (lo_sem _ _ H).
  - group_arith Ht (FirstWake (w - 1)); cbn [negb andb] in *; repeat case_match; lia.
Qed.

Lemma gate_ok gt : ts !! t = Some (mk_thread g WaitDown) -> gate s !! g = Some gt -> 0 < gt ->
  lock_ok (s <| gate := <[g := gt - 1]> (gate s) |>) (<[t := mk_thread g Inside]> ts).
Proof.
  intros Ht Hgt Hp. destruct (gate_lookup _ Ht eq_refl) as (gt' & cn & ac & Hgt' & Hcn & Hac & Hg). simplify_eq.
  assert (ac = true) as ->.
  { destruct Hg as [_ _ _ _ G5 _ _]. destruct ac; [done|]. destruct (G5 eq_refl). lia. }
  eapply (group_move _ _ _ gt cn true (gt - 1) cn true Ht eq_refl); try done; try same_array.
  - apply (lo_sem _ _ H).
  - group_arith Ht Inside; cbn [negb andb] in *; repeat case_match; lia.
Qed.

Lemma inactive_ok : ts !! t = Some (mk_thread g ExitInactive) ->
  lock_ok (s <| active := <[g := false]> (active s) |>) (<[t := mk_thread g ExitUp]> ts).
Proof.
  intros Ht. destruct (gate_lookup _ Ht eq_refl) as (gt & cn & ac & Hgt & Hcn & Hac & Hg).
  assert (ac = true) as ->.
  { destruct Hg as [_ _ _ G4 _ _ _]. known_places Ht. destruct ac; [done|]. cbn in *. lia. }
  eapply (group_move _ _ _ gt cn true gt cn false Ht eq_refl); try done; try same_array.
  - apply (lo_sem _ _ H).
  - cbn. lia.
  - group_arith Ht ExitUp; cbn in *; repeat case_match; lia.
Qed.
End one_step.

(** The places from which a thread just goes on: mutex and main semaphore
    apart, nothing changes. *)
Ltac plain H Ht :=
  apply (plain_move _ _ _ _ _ _ H Ht); cbn [at_ group in_call upd locked owning holder sem]; try done; try lia.

Lemma free_lock s ts t g p : lock_ok s ts -> ts !! t = Some (mk_thread g p) -> locked p = 1%nat ->
  exists u, holder s = Some u.
Proof.
  intros H Ht Hp. pose proof (total_ge (fun l => locked (at_ l)) ts t _ Ht) as Hl. cbn in Hl. rewrite Hp in Hl.
  pose proof (lo_mutex _ _ H) as Hm. unfold overall in Hm. destruct (holder s) as [u|]; [by exists u|lia].
Qed.

Lemma lock_step_ok t c d : sys_ok c -> step tstep t c = Some d -> sys_ok d.
Proof.
  unfold sys_ok. intros H Hst. apply step_inv in Hst as (l & s' & l' & Ht & Hs & ->). destruct c as [s ts].
  cbn [shared threads] in *. destruct l as [g p].
  assert (in_call (mk_thread g p) = true -> (g < SHARED_EXCLUSION_NUM_GROUPS)%nat) as Hv by (by eapply group_lookup).
  pose proof (lo_sem _ _ H) as Hs0.
  assert (locked p = 1%nat -> exists u, holder s = Some u) as Hh by (by eapply free_lock).
  destruct p; cbn in Hs; try done; try specialize (Hv eq_refl); try (destruct (Hh eq_refl) as [u Hu]).
  - injection Hs as <- <-. by apply (call_ok s ts t g Outside EnterLock H Ht); auto.
  - destruct (mutex_lock t s) as [s1|] eqn:Hl; cbn in Hs; [|done]. injection Hs as <- <-.
    apply mutex_lock_inv in Hl as [E ->]. plain H Ht. by rewrite E.
  - destruct (count s !! g) as [cn|] eqn:Hcn; cbn in Hs; [|done].
    destruct (active s !! g) as [ac|] eqn:Hac; cbn in Hs; [|done]. injection Hs as <- <-.
    exact (inc_ok s ts t g H cn ac Ht Hcn Hac).
  - injection Hs as <- <-. plain H Ht. by rewrite Hu.
  - destruct (sema_down (sem s)) as [v|] eqn:Hd; cbn in Hs; [|done]. injection Hs as <- <-.
    apply sema_down_inv in Hd as [? ->]. plain H Ht.
  - destruct (mutex_lock t s) as [s1|] eqn:Hl; cbn in Hs; [|done]. injection Hs as <- <-.
    apply mutex_lock_inv in Hl as [E ->]. plain H Ht. by rewrite E.
  - injection Hs as <- <-. exact (activate_ok s ts t g H Ht).
  - destruct (count s !! g) as [cn|] eqn:Hcn; cbn in Hs; [|done]. injection Hs as <- <-.
    exact (read_ok s ts t g H cn Ht Hcn).
  - destruct (Z.ltb_spec 0 waiters) as [Hw|Hw]; cbn in Hs.
    + destruct (gate s !! g) as [gt|] eqn:Hgt; cbn in Hs; [|done]. injection Hs as <- <-.
      exact (wake_ok s ts t g H gt _ Ht Hgt Hw).
    + injection Hs as <- <-. plain H Ht. cbn. lia.
  - injection Hs as <- <-. plain H Ht. by rewrite Hu.
  - injection Hs as <- <-. plain H Ht. by rewrite Hu.
  - destruct (gate s !! g) as [gt|] eqn:Hgt; cbn in Hs; [|done].
    destruct (sema_down gt) as [v|] eqn:Hd; cbn in Hs; [|done]. injection Hs as <- <-.
    apply sema_down_inv in Hd as [? ->]. exact (gate_ok s ts t g H gt Ht Hgt ltac:(lia)).
  - injection Hs as <- <-. plain H Ht. by rewrite Hu.
  - injection Hs as <- <-. by apply (call_ok s ts t g Inside ExitLock H Ht); auto.
  - destruct (mutex_lock t s) as [s1|] eqn:Hl; cbn in Hs; [|done]. injection Hs as <- <-.
    apply mutex_lock_inv in Hl as [E ->]. plain H Ht. by rewrite E.
  - destruct (count s !! g) as [cn|] eqn:Hcn; cbn in Hs; [|done]. injection Hs as <- <-.
    exact (dec_ok s ts t g H cn Ht Hcn).
  - injection Hs as <- <-. exact (inactive_ok s ts t g H Ht).
  - injection Hs as <- <-. plain H Ht.
  - injection Hs as <- <-. plain H Ht. by rewrite Hu.
Qed.
