(* ===== verification/SharedExclProps.v ===== *)
(** * The shared exclusion lock: the properties *)
From S2P Require Import Prelude Oss Threads SharedExcl SharedExclInv.
#[local] Open Scope Z_scope.

Implicit Types (c d : system shared_exclusion_lock thread) (l k : thread) (g t u : nat).

(** Inside, of a group the lock knows. *)
Definition holds (l : thread) : Prop := at_ l = Inside /\ (group l < SHARED_EXCLUSION_NUM_GROUPS)%nat.

Lemma lock_reachable_ok groups c : (length groups < 256)%nat -> reachable tstep (at_start groups) c -> sys_ok c.
Proof. intros Hn Hr. eapply reachable_invariant; [|by apply ready_ok|exact Hr]. intros t a b. apply lock_step_ok. Qed.

(** A thread past the gate makes its group active. *)
Lemma entered_active s ts t l : lock_ok s ts -> ts !! t = Some l -> (group l < SHARED_EXCLUSION_NUM_GROUPS)%nat ->
  (0 < entered (at_ l))%nat -> active s !! group l = Some true.
Proof.
  intros H Ht Hg He.
  destruct (lookup_lt_is_Some_2 (gate s) (group l)) as [gt Hgt]; [by rewrite (lo_gates _ _ H)|].
  destruct (lookup_lt_is_Some_2 (count s) (group l)) as [cn Hcn]; [by rewrite (lo_counts _ _ H)|].
  destruct (lookup_lt_is_Some_2 (active s) (group l)) as [ac Hac]; [by rewrite (lo_actives _ _ H)|].
  destruct ac; [done|]. destruct (lo_groups _ _ H _ _ _ _ Hgt Hcn Hac) as [_ _ _ _ G5 _ _].
  destruct (G5 eq_refl) as [G0 _]. pose proof (number_ge_same (group l) entered ts t l Ht eq_refl). lia.
Qed.

Lemma one_active s ts g g' : lock_ok s ts -> active s !! g = Some true -> active s !! g' = Some true -> g = g'.
Proof.
  intros H Hg Hg'. destruct (decide (g = g')) as [|Hne]; [done|]. exfalso.
  pose proof (total_insert Nat.b2n (active s) g true false Hg) as H1.
  assert (<[g := false]> (active s) !! g' = Some true) as Hg1 by by rewrite list_lookup_insert_ne.
  pose proof (total_ge Nat.b2n _ _ _ Hg1) as H2. cbn in H1, H2.
  pose proof (lo_owner _ _ H). pose proof (lo_sem _ _ H). lia.
Qed.

(** ** Progress *)

(** The steps a call has before it at most. *)
Definition rank (l : thread) : nat :=
  match at_ l with
  | Outside | Inside => 0
  | EnterLock => 300 | EnterInc => 299 | FirstUnlock => 298 | FirstDown => 297 | FirstLock => 296
  | FirstActivate => 295 | FirstRead => 294 | FirstWake w => 2 + Z.to_nat w | FirstDone => 1
  | WaitUnlock => 2 | WaitDown => 1 | GoUnlock => 1
  | ExitLock => 5 | ExitDec => 4 | ExitInactive => 3 | ExitUp => 2 | ExitUnlock => 1
  end.

Lemma u8_below z : (Z.to_nat (u8 z) < 256)%nat.
Proof. pose proof (wrap_range 8 z ltac:(lia)) as H. unfold in_width in H. lia. Qed.

Lemma u8_le z : 0 <= z -> u8 z <= z.
Proof. intros. unfold wrap. by apply Z.mod_le. Qed.

Lemma rank_step t s l s' l' : in_call l = true -> tstep t s l = Some (s', l') -> (rank l' < rank l)%nat.
Proof.
  destruct l as [g p]. intros Hi Hs. unfold tstep in Hs. apply bind_Some in Hs as ([s1 q] & Hr & [= <- <-]).
  destruct p; cbn in Hi; try done; cbn [at_ group enter_step exit_step] in Hr; simplify_option_eq;
    repeat case_match; simplify_eq/=; cbn; try lia.
  - match goal with |- context [u8 ?z] => pose proof (u8_below z) end. lia.
  - rename select ((0 <? _) = true) into Hw. apply bind_Some in Hr as (v & _ & [= <- <-]). cbn. apply Z.ltb_lt in Hw. pose proof (u8_le (waiters - 1) ltac:(lia)).
    pose proof (wrap_range 8 (waiters - 1) ltac:(lia)) as Hu. unfold in_width in Hu. lia.
Qed.

Lemma rank_down c d : sys_ok c -> internal_step tstep in_call c d ->
  sys_ok d /\ (total rank (threads d) < total rank (threads c))%nat.
Proof.
  intros H (t & l & Ht & Hi & Hs). split; [by eapply lock_step_ok|].
  apply step_inv in Hs as (l0 & s' & l' & Ht0 & Hs & ->). simplify_eq. cbn [threads].
  pose proof (total_insert rank (threads c) t l l' Ht). pose proof (rank_step t _ l s' l' Hi Hs). lia.
Qed.

(** A call never has more than 300 steps before it: the largest number of
    signals is 255. *)
Lemma rank_bound s ts t l : lock_ok s ts -> ts !! t = Some l -> (rank l <= 300)%nat.
Proof.
  intros H Ht. destruct l as [g p]. destruct p; cbn; try lia.
  destruct (gate_lookup s ts t g H _ Ht eq_refl) as (gt & cn & ac & Hgt & Hcn & Hac & [G1 G2 _ _ G5 _ G7]).
  pose proof (number_ge_same g entered ts t _ Ht eq_refl) as He. pose proof (number_ge_same g to_wake ts t _ Ht eq_refl) as Hw.
  pose proof (number_ge_same g updating ts t _ Ht eq_refl) as Hu. pose proof (locked_once g ts s H).
  pose proof (number_size g waiting ts ltac:(intros []; cbn; lia)). pose proof (lo_size _ _ H).
  cbn [at_ entered to_wake updating] in *.
  destruct ac; [|destruct (G5 eq_refl); lia]. specialize (G7 eq_refl). lia.
Qed.

Section quiescence.
Context (s : shared_exclusion_lock) (ts : list thread).
Hypothesis H : lock_ok s ts.
Hypothesis Hq : quiescent tstep in_call (mk_system s ts).

(** The thread that holds the mutex can always go on. *)
Lemma nobody_locked : overall locked ts = 0%nat.
Proof.
  destruct (decide (overall locked ts = 0%nat)) as [|Hne]; [done|]. exfalso.
  destruct (total_pos (fun l => locked (at_ l)) ts) as (t & [g p] & Ht & Hl); [unfold overall in Hne; lia|].
  assert (in_call (mk_thread g p) = true) as Hi by (destruct p; cbn in *; done || lia).
  specialize (Hq t _ Ht Hi). destruct (gate_lookup s ts t g H p Ht Hi) as (gt & cn & ac & Hgt & Hcn & Hac & _).
  cbn [shared] in Hq. destruct p; cbn in Hl; try lia; cbn in Hq; rewrite ?Hcn, ?Hac, ?Hgt in Hq; cbn in Hq; try done.
  by destruct (0 <? waiters).
Qed.

Lemma mutex_free : holder s = None.
Proof. pose proof (lo_mutex _ _ H) as Hm. rewrite nobody_locked in Hm. by destruct (holder s). Qed.

(** A thread in a call waits for the main semaphore or at its gate. *)
Lemma blocked_places t l : ts !! t = Some l -> in_call l = true ->
  at_ l = FirstDown /\ sem s = 0 \/ at_ l = WaitDown /\ gate s !! group l = Some 0.
Proof.
  intros Ht Hi. pose proof (total_zero_inv _ _ _ _ nobody_locked Ht) as Hl. pose proof (Hq t l Ht Hi) as Hs.
  destruct l as [g p]. destruct (gate_lookup s ts t g H p Ht Hi) as (gt & cn & ac & Hgt & Hcn & Hac & Hg).
  cbn in Hl. destruct p; cbn in Hi, Hl; try done; cbn in Hs; unfold mutex_lock in Hs; rewrite ?mutex_free in Hs; try done.
  - left. split; [done|]. pose proof (lo_sem _ _ H). unfold sema_down in Hs.
    destruct (Z.ltb_spec 0 (sem s)); [done|lia].
  - right. split; [done|]. cbn [group]. rewrite Hgt in Hs |- *. cbn in Hs. pose proof (go_gate _ _ _ _ _ Hg).
    unfold sema_down in Hs. destruct (Z.ltb_spec 0 gt); [done|]. f_equal. lia.
Qed.

Lemma no_number g f : f FirstDown = 0%nat -> f WaitDown = 0%nat -> f Outside = 0%nat -> f Inside = 0%nat ->
  number g f ts = 0%nat.
Proof.
  intros H1 H2 H3 H4. apply total_zero, Forall_lookup. intros t l Ht. unfold on_group. case_decide; [|done].
  destruct (in_call l) eqn:Hi.
  - by destruct (blocked_places t l Ht Hi) as [[-> _]|[-> _]].
  - unfold in_call in Hi. by destruct (at_ l).
Qed.

(** In an active group everybody is inside. *)
Lemma active_inside g : active s !! g = Some true ->
  number g leading ts = 0%nat /\ number g waiting ts = 0%nat /\ exists u k, ts !! u = Some k /\ holds k /\ group k = g.
Proof.
  intros Hac. pose proof (lookup_lt_Some _ _ _ Hac) as Hlt. rewrite (lo_actives _ _ H) in Hlt.
  destruct (lookup_lt_is_Some_2 (gate s) g) as [gt Hgt]; [by rewrite (lo_gates _ _ H)|].
  destruct (lookup_lt_is_Some_2 (count s) g) as [cn Hcn]; [by rewrite (lo_counts _ _ H)|].
  destruct (lo_groups _ _ H _ _ _ _ Hgt Hcn Hac) as [G1 G2 G3 G4 _ _ G7].
  rewrite (no_number g draining) in G4 by done. specialize (G7 eq_refl (no_number g reading eq_refl eq_refl eq_refl eq_refl)).
  rewrite (no_number g to_wake) in G7 by done. cbn [negb andb] in G3, G4.
  assert (number g waiting ts = 0%nat) as Hw.
  { destruct (decide (number g waiting ts = 0%nat)) as [|Hne]; [done|].
    destruct (total_pos (on_group g waiting) ts) as (t & l & Ht & Hl); [unfold number in Hne; lia|].
    unfold on_group in Hl. case_decide as Hg; [|lia].
    assert (in_call l = true) as Hi by (unfold in_call; destruct (at_ l); cbn in Hl; done || lia).
    destruct (blocked_places t l Ht Hi) as [[E _]|[_ E]]; [rewrite E in Hl; cbn in Hl; lia|].
    rewrite Hg, Hgt in E. injection E as ->. lia. }
  split; [done|]. split; [done|].
  destruct (Z.eqb_spec cn 0) as [|Hne]; [lia|].
  destruct (total_pos (on_group g entered) ts) as (u & k & Hu & Hk); [unfold number in *; lia|].
  unfold on_group in Hk. case_decide as Hg; [|lia]. exists u, k. split; [done|]. split; [|done]. split; [|by rewrite Hg].
  destruct (in_call k) eqn:Hi.
  - destruct (blocked_places u k Hu Hi) as [[E _]|[E _]]; rewrite E in Hk; cbn in Hk; lia.
  - unfold in_call in Hi. destruct (at_ k); cbn in Hk; done || lia.
Qed.

(** One that waits for the main semaphore waits for another group. *)
Lemma semaphore_taken g : (0 < number g leading ts)%nat -> sem s = 0 ->
  exists u k, ts !! u = Some k /\ holds k /\ group k <> g.
Proof.
  intros Hl Hs. pose proof (lo_owner _ _ H) as Ho. rewrite Hs in Ho.
  assert (overall owning ts = 0%nat) as H0.
  { apply total_zero, Forall_lookup. intros t l Ht. destruct (in_call l) eqn:Hi.
    - by destruct (blocked_places t l Ht Hi) as [[-> _]|[-> _]].
    - unfold in_call in Hi. by destruct (at_ l). }
  destruct (total_pos Nat.b2n (active s)) as (g' & a & Ha & Hp); [lia|]. destruct a; [|cbn in Hp; lia].
  destruct (active_inside g' Ha) as (Hnl & _ & u & k & Hu & Hk & Hg). exists u, k. split_and!; [done..|].
  rewrite Hg. intros ->. lia.
Qed.

Lemma waits_for_others t l : ts !! t = Some l -> in_call l = true ->
  exists u k, ts !! u = Some k /\ holds k /\ group k <> group l.
Proof.
  intros Ht Hi. destruct (blocked_places t l Ht Hi) as [[E Hs]|[E Hg0]].
  - apply semaphore_taken; [|done]. pose proof (number_ge_same (group l) leading ts t l Ht eq_refl) as Hn.
    rewrite E in Hn. cbn in Hn. lia.
  - destruct l as [g p]. cbn [group at_] in *. subst p.
    destruct (gate_lookup s ts t g H _ Ht Hi) as (gt & cn & ac & Hgt & Hcn & Hac & [G1 G2 G3 _ _ _ _]).
    pose proof (number_ge_same g waiting ts t _ Ht eq_refl) as Hn. cbn in Hn.
    destruct ac; [destruct (active_inside g Hac) as (_ & ? & _); lia|]. cbn in G3.
    destruct (Z.ltb_spec 0 cn); [|lia].
    destruct (total_pos (on_group g leading) ts) as (u & k & Hu & Hk); [unfold number in *; lia|].
    unfold on_group in Hk. case_decide as Hg; [|lia].
    assert (in_call k = true) as Hik by (unfold in_call; destruct (at_ k); cbn in Hk; done || lia).
    destruct (blocked_places u k Hu Hik) as [[_ Hs]|[E _]]; [|rewrite E in Hk; cbn in Hk; lia].
    apply semaphore_taken; [lia|done].
Qed.
End quiescence.

(** ** The properties *)

(** C8: threads of different groups are never inside the lock together,
    however up to 255 threads of any groups interleave their calls. *)
Theorem shared_exclusion_safe groups c t u l k (Hn : (length groups < 256)%nat)
  (Hr : reachable tstep (at_start groups) c) (Ht : threads c !! t = Some l) (Hu : threads c !! u = Some k)
  (Hl : holds l) (Hk : holds k) : group l = group k.
Proof.
  pose proof (lock_reachable_ok _ _ Hn Hr) as H. destruct Hl as [El Hl], Hk as [Ek Hk].
  eapply one_active; [exact H| |].
  - eapply (entered_active _ _ t l H Ht Hl). rewrite El. cbn. lia.
  - eapply (entered_active _ _ u k H Hu Hk). rewrite Ek. cbn. lia.
Qed.

(** C15: no call of the lock hangs and no wake-up is lost: whatever happened
    before, the threads in a call come to rest after 300 steps each at most,
    and then each of them waits for a thread of another group that is inside. *)
Theorem shared_exclusion_progress groups c (Hn : (length groups < 256)%nat)
  (Hr : reachable tstep (at_start groups) c) :
  (forall n d, nsteps (internal_step tstep in_call) n c d -> (n <= 300 * length (threads c))%nat) /\
  (quiescent tstep in_call c -> forall t l, threads c !! t = Some l -> in_call l = true ->
     exists u k, threads c !! u = Some k /\ holds k /\ group k <> group l).
Proof.
  pose proof (lock_reachable_ok _ _ Hn Hr) as H. split.
  - intros n d Hd. eapply Nat.le_trans; [eapply (internal_bounded tstep in_call sys_ok rank); [apply rank_down|done|done]|].
    rewrite Nat.mul_comm, <- (total_const (threads c) 300). apply total_le, Forall_lookup.
    intros t l Ht. by eapply rank_bound.
  - intros Hq. destruct c as [s ts]. by apply (waits_for_others s ts H Hq).
Qed.

(** Creation either yields all six kernel objects and a lock as the theorems
    above start from, whatever was there before, or leaves no object behind;
    destruction releases them. *)
Section creation.
Context {E : OssEnv}.

Lemma wp_on_alloc h v ti al li he lo (Q : bool -> sel_state -> Prop) :
  (forall ok : bool, Q ok (mk_sel h v (mk_oss ti (S al) li (if ok then he + 1 else he) lo))) ->
  wp (on_oss oss_alloc) Q (mk_sel h v (mk_oss ti al li he lo)).
Proof. intros H. apply (H (oss_alloc_ok al)). Qed.
Lemma wp_on_lock_init h v ti al li he lo (Q : bool -> sel_state -> Prop) :
  (forall ok : bool, Q ok (mk_sel h v (mk_oss ti al (S li) he (if ok then lo + 1 else lo)))) ->
  wp (on_oss oss_lock_init) Q (mk_sel h v (mk_oss ti al li he lo)).
Proof. intros H. apply (H (oss_lock_ok li)). Qed.

(** Runs a call on a concrete state. *)
#[local] Ltac run_call :=
  repeat (lazymatch goal with
  | |- wp (on_oss oss_alloc) _ _ => apply wp_on_alloc; intros []
  | |- wp (on_oss oss_lock_init) _ _ => apply wp_on_lock_init; intros []
  | |- wp (on_oss _) _ _ => apply wp_zoom, wp_modify
  | |- wp (require _) _ _ => eapply wp_require; [reflexivity|]
  | |- wp (when _ _) _ _ => unfold when
  | |- wp (if ?b then _ else _) _ _ => let c := eval cbv in b in change b with c
  | |- wp shared_exclusion_fini _ _ => unfold shared_exclusion_fini
  | |- wp (set_sel _) _ _ => apply wp_modify
  | |- wp (set_values _) _ _ => apply wp_modify
  | |- wp (for_each (seq _ _) _) _ _ => change (seq 0 SHARED_EXCLUSION_NUM_GROUPS) with [0; 1]%nat; cbn [for_each]
  | |- _ => wp_step
  end; cbn beta iota delta [negb];
  match goal with |- wp ?m ?Q ?s => let t := eval cbv -[Z.add Z.sub] in s in change (wp m Q t) | _ => idtac end).

Definition sized (v : shared_exclusion_lock) : Prop :=
  length (gate v) = SHARED_EXCLUSION_NUM_GROUPS /\ length (count v) = SHARED_EXCLUSION_NUM_GROUPS /\
  length (active v) = SHARED_EXCLUSION_NUM_GROUPS.

Lemma shared_exclusion_init_outcome v o : sized v -> exists r st, shared_exclusion_init (mk_sel no_handles v o) = Ret (r, st) /\
  ((r = 0 /\ values st = ready /\ os_heap (sel_oss st) = os_heap o + 5 /\ os_locks (sel_oss st) = os_locks o + 1 /\
    exists st', shared_exclusion_fini st = Ret (tt, st') /\ sel st' = no_handles /\
      os_heap (sel_oss st') = os_heap o /\ os_locks (sel_oss st') = os_locks o) \/
   (r = -1 /\ sel st = no_handles /\ os_heap (sel_oss st) = os_heap o /\ os_locks (sel_oss st) = os_locks o)).
Proof.
  intros (Hg & Hc & Ha). match goal with |- exists r st, _ /\ @?Q r st => enough (wp shared_exclusion_init Q (mk_sel no_handles v o)) as Hwp end.
  { apply wp_returns in Hwp as (r & st & Ex & HQ). by exists r, st. }
  match goal with |- wp _ ?Q _ => set (post := Q) end. destruct o as [ti al li he lo].
  destruct v as [? [|? [|? []]] [|? [|? []]] [|? [|? []]] ?]; cbn in Hg, Hc, Ha; try discriminate.
  unfold shared_exclusion_init. change (seq 0 SHARED_EXCLUSION_NUM_GROUPS) with [0; 1]%nat. cbn [init_groups].
  unfold sema_init_main, sema_init_gate, atomic_init, mutex_init, set_sel, set_values.
  run_call; subst post; cbv beta.
  all: first [left; split_and!; [done|done|cbn; lia|cbn; lia|]
             |right; cbn; split_and!; [done|done|lia|lia]].
  match goal with |- exists st', _ = _ /\ @?Q st' => enough (wp shared_exclusion_fini (fun _ st' => Q st')
    (mk_sel (mk_handles true [true; true] [true; true] true) ready (mk_oss ti (5 + al) (S li) (he + 1 + 1 + 1 + 1 + 1) (lo + 1)))) as Hf end.
  { apply wp_returns in Hf as ([] & st & Ex & HQ). by exists st. }
  run_call. cbn. split_and!; [done|lia|lia].
Qed.
End creation.

(** ** Witnesses *)

(** Threads 0 and 2 of group 0, thread 1 of group 1: thread 2 reaches the gate
    and thread 1 the main semaphore while thread 0 is on its way in. *)
Definition three : system shared_exclusion_lock thread := at_start [0; 1; 0]%nat.
Definition meeting : list nat := [0; 0; 0; 0; 2; 2; 2; 2; 1; 1; 1; 1; 0; 0; 0; 0; 0; 0; 0; 2]%nat.
Definition met : system shared_exclusion_lock thread := Eval vm_compute in default three (run tstep meeting three).

Lemma met_reachable : reachable tstep three met.
Proof. exists meeting. vm_compute. reflexivity. Qed.

Lemma shared_exclusion_safe_witness :
  at_ <$> threads met = [Inside; FirstDown; Inside] /\ group <$> threads met !! 0%nat = group <$> threads met !! 2%nat.
Proof.
  split; [reflexivity|]. refine (f_equal Some (shared_exclusion_safe [0; 1; 0]%nat met 0 2
    (mk_thread 0 Inside) (mk_thread 0 Inside) _ met_reachable eq_refl eq_refl _ _)); [cbn; lia|(split; [done|cbn; unfold SHARED_EXCLUSION_NUM_GROUPS; lia])..].
Defined.

Lemma met_quiescent : quiescent tstep in_call met.
Proof.
  intros t l Ht Hi. destruct t as [|[|[|t]]]; [| | |done]; injection Ht as <-; done.
Qed.

Lemma shared_exclusion_progress_witness :
  exists u k, threads met !! u = Some k /\ holds k /\ group k <> 1%nat.
Proof.
  destruct (shared_exclusion_progress [0; 1; 0]%nat met ltac:(cbn; lia) met_reachable) as [_ H].
  exact (H met_quiescent 1%nat (mk_thread 1 FirstDown) eq_refl eq_refl).
Defined.
