(* ===== verification/TaskBarrier.v ===== *)
(** * The task barrier (src/libgv/core/amdgv_task_barrier.h)

    The GPUs of a hive meet at a barrier during a chain reset:
    [task_barrier_enter] returns when [count] threads have entered,
    [task_barrier_exit] when all have left.  Both poll atomic counters; one
    step is one access to a counter, and a polling loop waits until its
    condition is false.  [left_] is the number of rounds a thread still makes. *)
From S2P Require Import Prelude Threads.
#[local] Open Scope Z_scope.

Record task_barrier := mk_barrier {
  tb_count : Z;
  thread_count : Z;
  thread_yield_count : Z;
  terminate : Z;
}.
#[export] Instance eta_task_barrier : Eta task_barrier := fun r =>
  mk_barrier (tb_count r) (thread_count r) (thread_yield_count r) (terminate r).

Definition task_barrier_init : task_barrier := mk_barrier 0 0 0 0.

Inductive pc :=
| Outside
| EnterInc | EnterWait
| Between
| ExitInc | ExitWait | ExitDec | ExitWaitZero | ExitDecYield.

Record thread := mk_thread { left_ : nat; at_ : pc }.

Section steps.
Variable (n : Z).   (* the argument [count] *)
Implicit Types (b : task_barrier).

Definition enter_step b (p : pc) : option (task_barrier * pc) :=
  match p with
  | EnterInc => Some (b <| thread_count := u64 (thread_count b + 1) |>, EnterWait)
  | EnterWait => if thread_count b <? n then None else Some (b, Between)
  | _ => None
  end.

Definition exit_step b (p : pc) : option (task_barrier * pc) :=
  match p with
  | ExitInc => Some (b <| thread_yield_count := u64 (thread_yield_count b + 1) |>, ExitWait)
  | ExitWait => if thread_yield_count b <? n then None else Some (b, ExitDec)
  | ExitDec => Some (b <| thread_count := u64 (thread_count b - 1) |>, ExitWaitZero)
  | ExitWaitZero => if 0 <? thread_count b then None else Some (b, ExitDecYield)
  | ExitDecYield => Some (b <| thread_yield_count := u64 (thread_yield_count b - 1) |>, Outside)
  | _ => None
  end.

Definition tstep (t : nat) b (l : thread) : option (task_barrier * thread) :=
  match at_ l with
  | Outside => match left_ l with O => None | S k => Some (b, mk_thread k EnterInc) end
  | Between => Some (b, mk_thread (left_ l) ExitInc)
  | EnterInc | EnterWait => r ← enter_step b (at_ l); Some (fst r, mk_thread (left_ l) (snd r))
  | _ => r ← exit_step b (at_ l); Some (fst r, mk_thread (left_ l) (snd r))
  end.
End steps.

(** [n] threads that make [rounds] rounds each. *)
Definition at_start (n rounds : nat) : system task_barrier thread :=
  mk_system task_barrier_init (replicate n (mk_thread rounds Outside)).

Definition finished (l : thread) : bool :=
  match at_ l, left_ l with Outside, O => true | _, _ => false end.
Definition busy (l : thread) : bool := negb (finished l).

(** ** One round *)

Definition place (f : pc -> nat) (l : thread) : nat := f (at_ l).

(** Not counted yet: one that has a round to make, or is about to enter. *)
Definition early (l : thread) : nat :=
  match at_ l with EnterInc => 1 | Outside => left_ l | _ => 0 end.
Definition entering (p : pc) : nat := match p with EnterWait => 1 | _ => 0 end.
Definition inside (p : pc) : nat := match p with Between | ExitInc => 1 | _ => 0 end.
Definition leaving (p : pc) : nat := match p with ExitWait => 1 | _ => 0 end.
Definition agreed (p : pc) : nat := match p with ExitDec => 1 | _ => 0 end.
Definition parting (p : pc) : nat := match p with ExitWaitZero => 1 | _ => 0 end.
Definition parted (p : pc) : nat := match p with ExitDecYield => 1 | _ => 0 end.
Definition gone (l : thread) : nat := if finished l then 1 else 0.

Definition amount (f : pc -> nat) (ts : list thread) : nat := total (place f) ts.

Record round_ok (n : nat) (b : task_barrier) (ts : list thread) : Prop := {
  ro_rounds : forall t l, ts !! t = Some l -> (left_ l <= match at_ l with Outside => 1 | _ => 0 end)%nat;
  ro_all : (total early ts + amount entering ts + amount inside ts + amount leaving ts + amount agreed ts
            + amount parting ts + amount parted ts + total gone ts = n)%nat;
  ro_count : thread_count b = Z.of_nat (amount entering ts + amount inside ts + amount leaving ts + amount agreed ts);
  ro_yield : thread_yield_count b = Z.of_nat (amount leaving ts + amount agreed ts + amount parting ts + amount parted ts);
  ro_rest : tb_count b = 0 /\ terminate b = 0;
  ro_entered : (0 < amount inside ts + amount leaving ts + amount agreed ts + amount parting ts + amount parted ts
                 + total gone ts)%nat -> total early ts = 0%nat;
  ro_agreed : (0 < amount agreed ts + amount parting ts + amount parted ts + total gone ts)%nat ->
              (amount entering ts + amount inside ts = 0)%nat;
  ro_parted : (0 < amount parted ts + total gone ts)%nat -> (amount leaving ts + amount agreed ts = 0)%nat;
}.

Definition sys_ok (n : nat) (c : system task_barrier thread) : Prop := round_ok n (shared c) (threads c).

Lemma amount_replicate n (f : thread -> nat) l : total f (replicate n l) = (n * f l)%nat.
Proof. unfold total. induction n as [|n IH]; cbn; lia. Qed.

Lemma start_ok n : sys_ok n (at_start n 1).
Proof.
  split; cbn [shared threads at_start task_barrier_init tb_count thread_count thread_yield_count terminate]; unfold amount;
    rewrite ?amount_replicate; cbn; try lia.
  intros t l Ht. apply lookup_replicate in Ht as [-> _]. cbn. lia.
Qed.

Lemma barrier_step_ok n t c d : Z.of_nat n < 2 ^ 32 -> sys_ok n c -> step (tstep (Z.of_nat n)) t c = Some d -> sys_ok n d.
Proof.
  intros Hn H Hst. apply step_inv in Hst as (l & b' & l' & Ht & Hs & ->). destruct c as [b ts].
  unfold sys_ok in *. cbn [shared threads] in *. destruct H as [R1 R2 R3 R4 R0 R5 R6 R7].
  pose proof (R1 _ _ Ht) as Hl.
  assert (forall f, total f (<[t := l']> ts) + f l = total f ts + f l')%nat as Hf by (intros f; by apply total_insert).
  pose proof (Hf early) as F1. pose proof (Hf (place entering)) as F2. pose proof (Hf (place inside)) as F3.
  pose proof (Hf (place leaving)) as F4. pose proof (Hf (place agreed)) as F5. pose proof (Hf (place parting)) as F6.
  pose proof (Hf (place parted)) as F7. pose proof (Hf gone) as F8. clear Hf.
  assert (forall u k, <[t := l']> ts !! u = Some k -> (left_ l' <= match at_ l' with Outside => 1 | _ => 0 end)%nat ->
    (left_ k <= match at_ k with Outside => 1 | _ => 0 end)%nat) as Hrounds.
  { intros u k Hu Hl'. destruct (decide (u = t)) as [->|Hne].
    - rewrite list_lookup_insert_eq in Hu by (by eapply lookup_lt_Some). by injection Hu as <-.
    - rewrite list_lookup_insert_ne in Hu by done. by eapply R1. }
  unfold amount in *. destruct b as [cnt tc yc te]. cbn [tb_count thread_count thread_yield_count terminate] in *.
  destruct l as [k p]. unfold tstep in Hs. cbn [at_ left_] in *.
  assert (k = 0 \/ p = Outside /\ k = 1)%nat as Hk by (destruct p; cbn in Hl; try (left; lia); destruct k as [|[]]; auto; lia).
  destruct p; cbn [enter_step exit_step tb_count thread_count thread_yield_count terminate] in Hs;
    (destruct Hk as [->|[E ->]]; [|try discriminate E]); try discriminate Hs; try (match type of Hs with context [if ?b then _ else _] => destruct b eqn:Hb end); try discriminate Hs;
    injection Hs as <- <-; try apply Z.ltb_ge in Hb;
    cbn [place early gone finished entering inside leaving agreed parting parted at_ left_] in F1, F2, F3, F4, F5, F6, F7, F8.
  all: split; unfold amount; cbn [tb_count thread_count thread_yield_count terminate upd]; rewrite ?wrap_id by (unfold in_width; lia);
    try exact R0; try (intros ??; intros; eapply Hrounds; [eassumption|cbn; lia]); lia.
Qed.

(** ** The task barrier: the properties *)

Implicit Types (c d : system task_barrier thread) (l k : thread).

(** The thread has returned from [task_barrier_enter]. *)
Definition has_entered (l : thread) : bool :=
  match at_ l with Outside => finished l | EnterInc | EnterWait => false | _ => true end.
(** It has called it. *)
Definition has_come (l : thread) : bool :=
  match at_ l with Outside => finished l | EnterInc => false | _ => true end.

Section round.
Variable n : nat.
Hypothesis Hpos : (0 < n)%nat.
Hypothesis Hn : Z.of_nat n < 2 ^ 32.

Lemma barrier_reachable_ok c : reachable (tstep (Z.of_nat n)) (at_start n 1) c -> sys_ok n c.
Proof. intros Hr. eapply reachable_invariant; [|apply start_ok|exact Hr]. intros t a b ? ?. by eapply barrier_step_ok. Qed.

Lemma amount_pos (f : pc -> nat) ts t l : ts !! t = Some l -> (f (at_ l) <= amount f ts)%nat.
Proof. apply (total_ge (place f)). Qed.

Lemma entered_all c t u l k : sys_ok n c -> threads c !! t = Some l -> threads c !! u = Some k ->
  has_entered l = true -> has_come k = true.
Proof.
  intros [R1 R2 R3 R4 R0 R5 R6 R7] Ht Hu Hl.
  assert (total early (threads c) = 0%nat) as He.
  { apply R5. pose proof (amount_pos inside _ _ _ Ht). pose proof (amount_pos leaving _ _ _ Ht).
    pose proof (amount_pos agreed _ _ _ Ht). pose proof (amount_pos parting _ _ _ Ht).
    pose proof (amount_pos parted _ _ _ Ht). pose proof (total_ge gone _ _ _ Ht) as Hg.
    unfold has_entered, gone in *. destruct (at_ l); cbn in *; try lia. rewrite Hl in Hg. lia. }
  pose proof (total_zero_inv _ _ _ _ He Hu) as Hk. unfold has_come, early, finished in *.
  destruct (at_ k); try done. by rewrite Hk.
Qed.

(** The accesses a thread has still to make. *)
Definition to_do (l : thread) : nat :=
  match at_ l with
  | Outside => 9 * left_ l
  | EnterInc => 8 | EnterWait => 7 | Between => 6 | ExitInc => 5 | ExitWait => 4 | ExitDec => 3
  | ExitWaitZero => 2 | ExitDecYield => 1
  end.

Lemma to_do_down c d : sys_ok n c -> internal_step (tstep (Z.of_nat n)) busy c d ->
  sys_ok n d /\ (total to_do (threads d) < total to_do (threads c))%nat.
Proof.
  intros H (t & l & Ht & _ & Hs). split; [by eapply barrier_step_ok|].
  apply step_inv in Hs as (l0 & b' & l' & Ht0 & Hs & ->). simplify_eq. cbn [threads].
  pose proof (total_insert to_do (threads c) t l l' Ht) as Hsum. pose proof (ro_rounds _ _ _ H t l Ht) as Hr.
  enough (to_do l' < to_do l)%nat by lia. clear Hsum. destruct l as [k p]. unfold tstep in Hs. cbn [at_ left_] in *.
  destruct p; cbn [enter_step exit_step] in Hs; [destruct k|..]; try discriminate Hs;
    try (match type of Hs with context [if ?b then _ else _] => destruct b end); try discriminate Hs;
    injection Hs as <- <-; cbn in *; lia.
Qed.

(** When nobody can go on, everybody has finished. *)
Lemma all_finished c : sys_ok n c -> quiescent (tstep (Z.of_nat n)) busy c ->
  total gone (threads c) = n /\ thread_count (shared c) = 0 /\ thread_yield_count (shared c) = 0.
Proof.
  intros H Hq. destruct H as [R1 R2 R3 R4 R0 R5 R6 R7]. set (ts := threads c) in *.
  assert (forall f : pc -> nat, (forall t l, ts !! t = Some l -> (0 < f (at_ l))%nat -> busy l = true /\
            tstep (Z.of_nat n) t (shared c) l <> None) -> amount f ts = 0%nat) as Hnone.
  { intros f Hf. destruct (decide (amount f ts = 0%nat)) as [|Hne]; [done|]. exfalso.
    destruct (total_pos (place f) ts) as (t & l & Ht & Hl); [unfold amount in Hne; lia|].
    destruct (Hf t l Ht Hl) as [Hb Hs]. by apply Hs, (Hq t l). }
  assert (forall f : pc -> nat, (forall p, (0 < f p)%nat -> p <> Outside /\
            forall (r t : nat), tstep (Z.of_nat n) t (shared c) (mk_thread r p) <> None) -> amount f ts = 0%nat) as Hplace.
  { intros f Hf. apply Hnone. intros t [k p] _ Hp. destruct (Hf p Hp) as [Hp' Hs]. split; [|apply Hs].
    by destruct p. }
  assert (total early ts = 0%nat) as He.
  { destruct (decide (total early ts = 0%nat)) as [|Hne]; [done|]. exfalso.
    destruct (total_pos early ts) as (t & [k p] & Ht & Hl); [lia|].
    assert (tstep (Z.of_nat n) t (shared c) (mk_thread k p) <> None) as Hs by (destruct p; cbn in *; try lia; destruct k; done || lia).
    apply Hs, (Hq t _ Ht). destruct p; cbn in *; try lia; destruct k; done || lia. }
  assert (amount inside ts = 0%nat) as Hi by (apply Hplace; intros []; cbn; try lia; done).
  assert (amount agreed ts = 0%nat) as Ha by (apply Hplace; intros []; cbn; try lia; done).
  assert (amount parted ts = 0%nat) as Hp by (apply Hplace; intros []; cbn; try lia; done).
  assert (amount entering ts = 0%nat) as Hen.
  { destruct (decide (thread_count (shared c) < Z.of_nat n)) as [Hlt|Hge].
    - lia.
    - apply Hplace. intros []; cbn; try lia. intros _. split; [done|]. intros k t. cbn.
      destruct (Z.ltb_spec (thread_count (shared c)) (Z.of_nat n)); [lia|done]. }
  assert (amount leaving ts = 0%nat) as Hle.
  { destruct (decide (thread_yield_count (shared c) < Z.of_nat n)) as [Hlt|Hge].
    - lia.
    - apply Hplace. intros []; cbn; try lia. intros _. split; [done|]. intros k t. cbn.
      destruct (Z.ltb_spec (thread_yield_count (shared c)) (Z.of_nat n)); [lia|done]. }
  assert (amount parting ts = 0%nat) as Hpa.
  { apply Hplace. intros []; cbn; try lia. intros _. split; [done|]. intros k t. cbn.
    destruct (Z.ltb_spec 0 (thread_count (shared c))); [lia|done]. }
  lia.
Qed.
End round.

(** C32: one round of the barrier: when each of [n] threads enters and exits it
    once, nobody returns from
    [task_barrier_enter] before all have called it; the calls end, after nine
    accesses per thread at most; and then everybody has returned from
    [task_barrier_exit] and the counters are back at zero.  Used again at once
    by a thread that has left, the barrier can hang
    ([task_barrier_reuse_hangs]). *)
Theorem task_barrier_round n c (Hpos : (0 < n)%nat) (Hn : Z.of_nat n < 2 ^ 32)
  (Hr : reachable (tstep (Z.of_nat n)) (at_start n 1) c) :
  (forall t u l k, threads c !! t = Some l -> threads c !! u = Some k -> has_entered l = true -> has_come k = true) /\
  (forall i d, nsteps (internal_step (tstep (Z.of_nat n)) busy) i c d -> (i <= 9 * length (threads c))%nat) /\
  (quiescent (tstep (Z.of_nat n)) busy c ->
     Forall (fun l => finished l = true) (threads c) /\ shared c = task_barrier_init).
Proof.
  pose proof (barrier_reachable_ok n Hn c Hr) as H. split; [|split].
  - intros t u l k. by apply (entered_all n).
  - intros i d Hd. eapply Nat.le_trans.
    + eapply (internal_bounded _ busy (sys_ok n) to_do); [by apply to_do_down|done|exact Hd].
    + rewrite Nat.mul_comm, <- (total_const (threads c) 9). apply total_le, Forall_lookup. intros t l Ht.
      pose proof (ro_rounds _ _ _ H t l Ht) as Hl. unfold to_do. destruct (at_ l); cbn in *; lia.
  - intros Hq. destruct (all_finished n Hpos c H Hq) as (Hg & Hc & Hy). split.
    + apply Forall_lookup. intros t l Ht. destruct (finished l) eqn:Hf; [done|exfalso].
      pose proof (ro_all _ _ _ H). pose proof (amount_pos entering _ _ _ Ht). pose proof (amount_pos inside _ _ _ Ht).
      pose proof (amount_pos leaving _ _ _ Ht). pose proof (amount_pos agreed _ _ _ Ht). pose proof (amount_pos parting _ _ _ Ht).
      pose proof (amount_pos parted _ _ _ Ht). pose proof (total_ge early _ _ _ Ht). unfold early, finished in *.
      destruct (at_ l); cbn in *; try lia. destruct (left_ l); [done|lia].
    + pose proof (ro_rest _ _ _ H) as [? ?]. destruct (shared c). cbn in *. by subst.
Qed.

(** A barrier that is used again at once can hang: thread 0 leaves, comes back
    and counts itself while thread 1 still polls for the counter to be zero. *)
Definition early_return : list nat :=
  [0; 0; 1; 1; 0; 1; 0; 1; 0; 1; 0; 1; 0; 1; 0; 0; 0; 0]%nat.
Lemma task_barrier_reuse_hangs :
  exists c, run (tstep 2) early_return (at_start 2 2) = Some c /\
    at_ <$> threads c = [EnterWait; ExitWaitZero] /\ forall t, step (tstep 2) t c = None.
Proof.
  eexists. split; [vm_compute; reflexivity|]. split; [reflexivity|]. by intros [|[|t]].
Qed.

(** ** Witness *)

Definition two_met : system task_barrier thread := Eval vm_compute in
  default (at_start 2 1) (run (tstep 2) [0; 0; 1; 1; 0]%nat (at_start 2 1)).

Lemma task_barrier_round_witness :
  at_ <$> threads two_met = [Between; EnterWait] /\ has_come (mk_thread 0 EnterWait) = true.
Proof.
  split; [reflexivity|].
  destruct (task_barrier_round 2 two_met ltac:(lia) ltac:(lia) ltac:(exists [0; 0; 1; 1; 0]%nat; vm_compute; reflexivity))
    as [H _].
  exact (H 0%nat 1%nat (mk_thread 0 Between) (mk_thread 0 EnterWait) eq_refl eq_refl eq_refl).
Defined.
