(* ===== verification/Mask.v ===== *)
(** * Iterating over the bits of a mask (src/libgv/core/amdgv_device.h)

    libgv walks sets of schedulers and partitions with [for_each_id], a loop
    header over [amdgv_ffs] (find first set, by a table lookup) and
    [amdgv_fill] (the bits above an index, a table).  The file has the three as
    the code computes them; [for_each_id_filter] gives the list of indices the
    loop visits. *)
From S2P Require Import Prelude.
#[local] Open Scope Z_scope.

(** [amdgv_ffs]: isolate the lowest set bit with [n & -n], find its nibble, and
    look its position up. *)
Definition ffs_16bit_lookup : list Z := [0; 1; 2; 0; 3; 0; 0; 0; 4].

Definition ffs_lookup (i : Z) : Z :=
  let '(i, c) := if 0xffff <? i then (Z.shiftr i 16, 16) else (i, 0) in
  let shift := if i <=? 0xff then (if i <=? 0xf then 0 else 4)
               else (if i <=? 0xfff then 8 else 12) in
  u32 (default 0 (ffs_16bit_lookup !! Z.to_nat (Z.shiftr i shift)) + shift + c).

Definition amdgv_ffs (n : Z) : Z :=
  if n =? 0 then 0 else ffs_lookup (Z.land n (u32 (- n))).

(** [amdgv_fill]: all bits above [idx]. *)
Definition amdgv_fill_table : list Z :=
  [0xfffffffe; 0xfffffffc; 0xfffffff8; 0xfffffff0;
   0xffffffe0; 0xffffffc0; 0xffffff80; 0xffffff00;
   0xfffffe00; 0xfffffc00; 0xfffff800; 0xfffff000;
   0xffffe000; 0xffffc000; 0xffff8000; 0xffff0000;
   0xfffe0000; 0xfffc0000; 0xfff80000; 0xfff00000;
   0xffe00000; 0xffc00000; 0xff800000; 0xff000000;
   0xfe000000; 0xfc000000; 0xf8000000; 0xf0000000;
   0xe0000000; 0xc0000000; 0x80000000; 0x0].
Definition amdgv_fill (idx : Z) : Z :=
  if 31 <? idx then 0 else default 0 (amdgv_fill_table !! Z.to_nat idx).

(** [for_each_id(i, mask)]: the indices the header produces.  Every round
    moves to a higher bit, so 33 rounds are enough. *)
Fixpoint ids_from (fuel : nat) (i mask : Z) : list Z :=
  match fuel with
  | O => []
  | S fuel' =>
      if i =? 0xFFFFFFFF then []
      else i :: ids_from fuel' (u32 (amdgv_ffs (Z.land mask (amdgv_fill i)) - 1)) mask
  end.
Definition for_each_id (mask : Z) : list Z :=
  ids_from 33 (u32 (amdgv_ffs mask - 1)) mask.

(** ** The lowest set bit *)

(** [n & -n] is the power of two of the lowest set bit. *)
Lemma land_neg_lowest n k :
  0 <= k < 32 -> in_width 32 n -> Z.testbit n k = true ->
  (forall j, 0 <= j < k -> Z.testbit n j = false) ->
  Z.land n (u32 (- n)) = 2 ^ k.
Proof.
  intros Hk Hn Hb Hlow. unfold u32, wrap.
  assert (n <> 0) as Hn0 by (intros ->; by rewrite Z.bits_0 in Hb).
  assert (n mod 2 ^ k = 0) as Hmod.
  { apply Z.bits_inj'. intros j Hj. rewrite Z.bits_0.
    destruct (Z.lt_ge_cases j k).
    - rewrite Z.mod_pow2_bits_low by lia. apply Hlow. lia.
    - apply Z.mod_pow2_bits_high. lia. }
  set (q := n / 2 ^ k).
  assert (n = 2 ^ k * q) as Hq by (rewrite (Z.div_mod n (2 ^ k)) at 1; [lia|lia]).
  assert (Z.odd q = true) as Hodd.
  { rewrite <- Z.bit0_odd. unfold q. rewrite <- Z.shiftr_div_pow2, Z.shiftr_spec by lia.
    by rewrite Z.add_0_l. }
  clearbody q. apply Z.bits_inj'. intros j Hj. rewrite Z.land_spec, Z.pow2_bits_eqb by lia.
  destruct (Z.lt_ge_cases j 32) as [Hj32|Hj32].
  - rewrite Z.mod_pow2_bits_low by lia. destruct (Z.lt_ge_cases j k) as [Hjk|Hjk].
    + rewrite Hlow by lia. cbn. symmetry. apply Z.eqb_neq. lia.
    + replace n with (Z.shiftl q k) by (rewrite Z.shiftl_mul_pow2; lia).
      replace (- Z.shiftl q k) with (Z.shiftl (- q) k) by (rewrite !Z.shiftl_mul_pow2; lia).
      rewrite !Z.shiftl_spec by lia. rewrite Z.bits_opp by lia.
      destruct (Z.eqb_spec k j) as [->|Hne].
      * rewrite Z.sub_diag, !Z.bit0_odd, Hodd. cbn.
        replace (Z.pred q) with (q - 1) by lia. rewrite Z.odd_sub, Hodd. done.
      * assert (Z.testbit (Z.pred q) (j - k) = Z.testbit q (j - k)) as ->.
        { apply Z.odd_spec in Hodd as [m ->].
          replace (Z.pred (2 * m + 1)) with (2 * m) by lia.
          replace (j - k) with (Z.succ (j - k - 1)) by lia.
          by rewrite Z.testbit_odd_succ, Z.testbit_even_succ by lia. }
        by destruct (Z.testbit q (j - k)).
  - rewrite Z.mod_pow2_bits_high by lia. rewrite andb_false_r. symmetry. apply Z.eqb_neq. lia.
Qed.

Lemma ffs_powers :
  forallb (fun k => ffs_lookup (2 ^ k) =? k + 1) (Z.of_nat <$> seq 0 32) = true.
Proof. vm_compute. reflexivity. Qed.

Lemma amdgv_ffs_spec n k :
  0 <= k < 32 -> in_width 32 n -> Z.testbit n k = true ->
  (forall j, 0 <= j < k -> Z.testbit n j = false) -> amdgv_ffs n = k + 1.
Proof.
  intros Hk Hn Hb Hlow. unfold amdgv_ffs.
  destruct (Z.eqb_spec n 0) as [->|_]; [by rewrite Z.bits_0 in Hb|].
  rewrite (land_neg_lowest n k) by done.
  pose proof ffs_powers as H. rewrite forallb_forall in H. apply Z.eqb_eq, (H k).
  apply in_map_iff. exists (Z.to_nat k). split; [lia|]. apply in_seq. lia.
Qed.

Lemma fill_bits : forallb (fun i => forallb (fun j =>
  Bool.eqb (Z.testbit (amdgv_fill i) j) (i <? j)) (Z.of_nat <$> seq 0 32))
  (Z.of_nat <$> seq 0 32) = true.
Proof. vm_compute. reflexivity. Qed.

Lemma amdgv_fill_spec i j :
  0 <= i < 32 -> 0 <= j < 32 -> Z.testbit (amdgv_fill i) j = (i <? j).
Proof.
  intros Hi Hj. pose proof fill_bits as H. rewrite forallb_forall in H.
  assert (forall x, 0 <= x < 32 -> In x (Z.of_nat <$> seq 0 32)) as Hin.
  { intros x Hx. apply in_map_iff. exists (Z.to_nat x). split; [lia|]. apply in_seq. lia. }
  specialize (H i (Hin i Hi)). rewrite forallb_forall in H.
  by apply eqb_prop, (H j), Hin.
Qed.

(** ** The indices visited *)

(** Bits [i] to 31, in order. *)
Definition bits_from (i : Z) : list Z := Z.of_nat <$> seq (Z.to_nat i) (32 - Z.to_nat i).

Lemma bits_from_cons i : 0 <= i < 32 -> bits_from i = i :: bits_from (i + 1).
Proof.
  intros. unfold bits_from. replace (32 - Z.to_nat i)%nat with (S (31 - Z.to_nat i)) by lia.
  cbn [seq fmap list_fmap]. rewrite Z2Nat.id by lia.
  replace (Z.to_nat (i + 1)) with (S (Z.to_nat i)) by lia.
  by replace (32 - S (Z.to_nat i))%nat with (31 - Z.to_nat i)%nat by lia.
Qed.

Lemma filter_cons_b {A} (p : A -> bool) x l :
  List.filter p (x :: l) = if p x then x :: List.filter p l else List.filter p l.
Proof. done. Qed.

(** The next index from a word whose bits below [i] are clear, and whose other
    bits are the mask's. *)
Lemma ids_from_filter mask w fuel d i :
  d = Z.to_nat (32 - i) -> 0 <= i <= 32 -> (d < fuel)%nat -> in_width 32 w ->
  (forall j, 0 <= j < 32 -> Z.testbit w j = Z.testbit mask j && (i <=? j)) ->
  in_width 32 mask ->
  ids_from fuel (u32 (amdgv_ffs w - 1)) mask = List.filter (Z.testbit mask) (bits_from i).
Proof.
  intros Hd Hi Hf Hw Hbits Hmask. revert w fuel i Hd Hi Hf Hw Hbits.
  induction d as [|d IH]; intros w fuel i Hd Hi Hf Hw Hbits; destruct fuel as [|fuel]; try lia.
  - assert (i = 32) as -> by lia. assert (w = 0) as ->; [|reflexivity].
    apply Z.bits_inj'. intros j Hj. rewrite Z.bits_0. destruct (Z.lt_ge_cases j 32).
    + rewrite Hbits by lia. destruct (Z.leb_spec 32 j); [lia|apply andb_false_r].
    + rewrite <- (Z.mod_small w (2 ^ 32)) by exact Hw. apply Z.mod_pow2_bits_high. lia.
  - rewrite bits_from_cons, filter_cons_b by lia. destruct (Z.testbit mask i) eqn:Hb.
    + assert (amdgv_ffs w = i + 1) as ->.
      { apply amdgv_ffs_spec; [lia|done| |].
        - rewrite Hbits, Hb by lia. destruct (Z.leb_spec i i); [done|lia].
        - intros j Hj. rewrite Hbits by lia. destruct (Z.leb_spec i j); [lia|apply andb_false_r]. }
      replace (i + 1 - 1) with i by lia. rewrite wrap_id by (unfold in_width; lia).
      cbn [ids_from]. destruct (Z.eqb_spec i 0xFFFFFFFF); [lia|]. f_equal.
      apply IH; [lia|lia|lia| |].
      * unfold in_width in *. split; [by apply Z.land_nonneg; left; lia|].
        destruct (Z.eq_dec (Z.land mask (amdgv_fill i)) 0) as [->|]; [lia|].
        apply Z.log2_lt_pow2; [|].
        { assert (0 <= Z.land mask (amdgv_fill i)) by (apply Z.land_nonneg; left; lia). lia. }
        eapply Z.le_lt_trans; [apply Z.log2_land; [lia|]|].
        { unfold amdgv_fill. destruct (31 <? i); [lia|].
          destruct (amdgv_fill_table !! Z.to_nat i) as [x|] eqn:E; [|cbn; lia]. cbn.
          apply list_elem_of_lookup_2, list_elem_of_In in E. cbn in E. intuition lia. }
        destruct (Z.eq_dec mask 0) as [->|]; [by rewrite Z.bits_0 in Hb|].
        assert (Z.log2 mask < 32) by (apply Z.log2_lt_pow2; lia). lia.
      * intros j Hj. rewrite Z.land_spec, amdgv_fill_spec by lia.
        f_equal. destruct (Z.ltb_spec i j), (Z.leb_spec (i + 1) j); lia.
    + apply IH; [lia|lia|lia|done|].
      intros j Hj. rewrite Hbits by lia.
      destruct (Z.leb_spec i j), (Z.leb_spec (i + 1) j); try done; try lia.
      assert (i = j) as <- by lia. by rewrite Hb.
Qed.

(** The loop visits the set bits of the mask, lowest first, once each. *)
Lemma for_each_id_filter mask :
  in_width 32 mask ->
  for_each_id mask = List.filter (Z.testbit mask) (Z.of_nat <$> seq 0 32).
Proof.
  intros Hm. unfold for_each_id. apply (ids_from_filter mask mask 33 32 0); try done; try lia.
  intros j Hj. destruct (Z.leb_spec 0 j); [by rewrite andb_true_r|lia].
Qed.

Lemma elem_of_for_each_id mask h :
  in_width 32 mask -> h ∈ for_each_id mask <-> 0 <= h < 32 /\ Z.testbit mask h = true.
Proof.
  intros Hm. rewrite for_each_id_filter, list_elem_of_In, filter_In, in_map_iff by done. split.
  - intros [(k & <- & Hk%in_seq) Hb]. split; [lia|done].
  - intros [Hh Hb]. split; [|done]. exists (Z.to_nat h). split; [lia|]. apply in_seq. lia.
Qed.

Lemma NoDup_for_each_id mask : in_width 32 mask -> NoDup (for_each_id mask).
Proof.
  intros Hm. rewrite for_each_id_filter by done. apply NoDup_ListNoDup, List.NoDup_filter.
  apply NoDup_ListNoDup, (NoDup_fmap_2 Z.of_nat), NoDup_seq.
Qed.
