(* ===== verification/Gpuiov.v ===== *)
(** * World-switch commands to the GPU schedulers (src/libgv/core/amdgv_gpuiov.c)

    The scheduler state the world switch works on (struct amdgv_sched and its
    parts in amdgv_sched.h, the GPU IOV control blocks of amdgv_gpuiov.h) and
    the commands amdgv_gpuiov.c sends to the firmware of one hardware
    scheduler: INIT, LOAD, RUN, IDLE, SAVE, SHUTDOWN and the auto-scheduling
    switches.  [check_state_transition] is the debug build's table of the
    transitions a VF may make.

    The registers behind [gpuiov.funcs] and the polling waits are the device:
    the class [WsHw].  [cmds] is the history of what was written to the
    command registers, newest first. *)
From S2P Require Import Prelude Api Mask.
#[local] Open Scope Z_scope.

(** ** Constants *)

Definition AMDGV_IDLE_GPU : Z := 0x01.
Definition AMDGV_SAVE_GPU_STATE : Z := 0x02.
Definition AMDGV_LOAD_GPU_STATE : Z := 0x03.
Definition AMDGV_RUN_GPU : Z := 0x04.
Definition AMDGV_ENABLE_AUTO_HW_SWITCH : Z := 0x06.
Definition AMDGV_INIT_GPU : Z := 0x07.
Definition AMDGV_SAVE_RLCV_STATE : Z := 0x08.
Definition AMDGV_LOAD_RLCV_STATE : Z := 0x09.
Definition AMDGV_DISABLE_AUTO_HW_SCHED : Z := 0x0B.
Definition AMDGV_SHUTDOWN_GPU : Z := 0x0D.

Definition AMDGV_SCHED_UNAVAL : Z := 0.
Definition AMDGV_SCHED_AVAIL : Z := 1.
Definition AMDGV_SCHED_ACTIVE : Z := 2.
Definition AMDGV_SCHED_SUSPEND : Z := 3.

Definition AMDGV_HW_SCHED_TYPE_GFX : Z := 0.
Definition AMDGV_HW_SCHED_TYPE_MM : Z := 1.
Definition AMDGV_SCHED_BLOCK_GFX : Z := 0.
Definition AMDGV_SCHED_LIQUID_MODE : Z := 2.
Definition AMDGV_SCHED_HYBRID_LIQUID_MODE : Z := 5.
Definition AMDGV_MAX_NUM_HW_SCHED : Z := 32.

Definition AMDGV_FLAG_USE_PF : Z := Z.shiftl 1 0.
Definition AMDGV_FLAG_DISABLE_SELF_SWITCH : Z := Z.shiftl 1 5.
Definition AMDGV_FLAG_USE_LEGACY_FLR_SEQUENCE : Z := Z.shiftl 1 8.

(** A [uint32_t] VF index of -1. *)
Definition AMDGV_NO_VF : Z := 0xFFFFFFFF.
Definition AMDGV_FLAG_PERF_LOG_ENABLE : Z := Z.shiftl 1 32.
Definition AMDGV_FLAG_DEBUG_DUMP_ENABLE : Z := Z.shiftl 1 33.
Definition AMDGV_ALREADY_SET : Z := -3.
Definition AMDGV_EVENT_PERF_LOG : Z := 0x2.
Definition AMDGV_EVENT_DEBUG_LOG : Z := 0x3.

(** enum AMDGV_LOG_IOV as the [int] the functions return: bit 31 set, category
    7, subcode [k]. *)
Definition iov_code (k : Z) : Z := - 2 ^ 31 + Z.shiftl 7 12 + k.
Definition AMDGV_LOG_IOV_CMD_ERROR : Z := iov_code 4.
Definition AMDGV_LOG_IOV_WS_SAVE_TIMEOUT : Z := iov_code 7.
Definition AMDGV_LOG_IOV_WS_IDLE_TIMEOUT : Z := iov_code 8.
Definition AMDGV_LOG_IOV_WS_RUN_TIMEOUT : Z := iov_code 9.
Definition AMDGV_LOG_IOV_WS_LOAD_TIMEOUT : Z := iov_code 10.
Definition AMDGV_LOG_IOV_WS_SHUTDOWN_TIMEOUT : Z := iov_code 11.
Definition AMDGV_LOG_IOV_WS_INFINITE_LOOP : Z := iov_code 13.
Definition AMDGV_LOG_IOV_WS_REENTRANT_ERROR : Z := iov_code 14.

(** ** Scheduler state *)

(** struct amdgv_sched_vf_info: the state of a VF and, per hardware scheduler,
    the last world-switch state it reached. *)
Record sched_vf_info := mk_sched_vf {
  sv_state : Z;
  cur_vf_state : list Z;
}.
#[export] Instance eta_sched_vf_info : Eta sched_vf_info := fun r =>
  mk_sched_vf (sv_state r) (cur_vf_state r).

(** The two functions [goto_state] can point to. *)
Inductive goto_fn :=
| world_switch_goto_state_manual_ptr
| world_switch_goto_state_auto_ptr.

(** struct world_switch_state: one hardware scheduler's state machine.
    [ws_locked]: the reader-writer semaphore [ws_lock] is held for writing. *)
Record world_switch_state := mk_wss {
  cur_gpu_state : Z;
  cur_vf_id : Z;
  mode : Z;
  ws_locked : bool;
  goto_state : option goto_fn;
}.
#[export] Instance eta_world_switch_state : Eta world_switch_state := fun r =>
  mk_wss (cur_gpu_state r) (cur_vf_id r) (mode r) (ws_locked r) (goto_state r).

(** struct amdgv_sched_world_switch: one logical engine.  [bulk_goto_state]:
    the bulk state machine is installed. *)
Record world_switch := mk_ws {
  ws_enabled : bool;
  switch_running : bool;
  sched_block : Z;
  curr_idx_vf : Z;
  curr_vf_state : Z;
  use_active_status : bool;
  vf_inited : Z;
  ws_hw_sched_mask : Z;
  vf_busy_status : Z;
  bulk_goto_state : bool;
}.
#[export] Instance eta_world_switch : Eta world_switch := fun r =>
  mk_ws (ws_enabled r) (switch_running r) (sched_block r) (curr_idx_vf r)
    (curr_vf_state r) (use_active_status r) (vf_inited r) (ws_hw_sched_mask r)
    (vf_busy_status r) (bulk_goto_state r).

(** struct amdgv_vf_device, the two fields the world switch reads. *)
Record vf_entry := mk_vf_entry { auto_run : bool; skip_run : bool }.
#[export] Instance eta_vf_entry : Eta vf_entry := fun r =>
  mk_vf_entry (auto_run r) (skip_run r).

(** struct amdgv_gpuiov_ctrl_block. *)
Record ctrl_block := mk_ctrl_block { hw_sched_type : Z; cb_sched_mode : Z }.

(** What initialisation fixed. *)
Record ws_config := mk_ws_config {
  flags : Z;
  max_num_vf : Z;
  num_ctrl_blocks : Z;
  ctrl_blocks : list ctrl_block;
  num_vf_per_gfx_sched : Z;
  support_shutdown_cmd : bool;     (* mmsch.is_feature_enabled *)
  has_busy_status : bool;          (* gpuiov.funcs->update_vf_busy_status *)
  allow_time_cmd_complete : Z;
}.

Record adapter {hw : Type} := mk_adapter {
  config : ws_config;
  sched_vfs : list sched_vf_info;              (* sched.array_vf *)
  hw_state_machine : list world_switch_state;  (* sched.hw_state_machine *)
  world_switches : list world_switch;          (* sched.world_switch *)
  perf_log_enabled : list bool;                (* sched.perf_log_enabled *)
  array_vf : list vf_entry;                    (* adapt->array_vf *)
  cmds : list (Z * Z * Z);                     (* set_cmd: command, scheduler, VF *)
  device : hw;
}.
Arguments adapter : clear implicits.
Arguments mk_adapter {hw}.
#[export] Instance eta_adapter {hw} : Eta (adapter hw) := fun r =>
  mk_adapter (config r) (sched_vfs r) (hw_state_machine r) (world_switches r)
    (perf_log_enabled r) (array_vf r) (cmds r) (device r).

(** The device: the function table [gpuiov.funcs], the waits on it, the clock
    and the performance-log memory.  Booleans are "it worked";
    [hw_wait_first mask timeout] waits until a scheduler of [mask] is done or
    the time is over and gives the schedulers that report completion at that
    moment, as a mask. *)
Class WsHw (hw : Type) := {
  hw_set_cmd : Z -> Z -> Z -> hw -> hw;
  hw_wait_cmd_complete : Z -> Z -> hw -> bool * hw;
  hw_wait_first : Z -> Z -> hw -> Z * hw;
  hw_time : hw -> Z * hw;
  hw_get_active_vfs : Z -> hw -> Z;
  hw_get_active_vf_idx : Z -> hw -> Z;
  hw_get_active_vf_status : Z -> hw -> option Z;
  hw_wait_auto_sched_stop : Z -> hw -> bool * hw;
  hw_update_vf_busy_status : Z -> hw -> Z * hw;
  hw_event_notification : Z -> Z -> Z -> bool -> hw -> bool * hw;
  hw_read_perf_log_data : hw -> bool * hw;
}.

Section gpuiov.
Context {hw : Type} `{HW : WsHw hw}.
Abbreviation MA := (M (adapter hw)).

(** ** Access to the state *)

Definition dev {A} (f : hw -> A * hw) : MA A := fun s =>
  let '(a, d) := f (device s) in Ret (a, s <| device := d |>).

Definition vf_info (idx_vf : Z) : MA sched_vf_info := fun s =>
  require (sched_vfs s !! Z.to_nat idx_vf) s.
Definition machine (hw_sched_id : Z) : MA world_switch_state := fun s =>
  require (hw_state_machine s !! Z.to_nat hw_sched_id) s.
Definition ctrl (hw_sched_id : Z) : MA ctrl_block := fun s =>
  require (ctrl_blocks (config s) !! Z.to_nat hw_sched_id) s.
Definition ws_at (i : Z) : MA world_switch := fun s =>
  require (world_switches s !! Z.to_nat i) s.
Definition vf_entry_at (idx_vf : Z) : MA vf_entry := fun s =>
  require (array_vf s !! Z.to_nat idx_vf) s.

Definition IS_HW_SCHED_TYPE_GFX (hw_sched_id : Z) : MA bool :=
  cb ← ctrl hw_sched_id; mret (hw_sched_type cb =? AMDGV_HW_SCHED_TYPE_GFX).
Definition IS_HW_SCHED_TYPE_MM (hw_sched_id : Z) : MA bool :=
  cb ← ctrl hw_sched_id; mret (hw_sched_type cb =? AMDGV_HW_SCHED_TYPE_MM).
Definition has_flag (f : Z) : MA bool :=
  gets (fun s => negb (Z.land (flags (config s)) f =? 0)).

(** [sched.array_vf[idx].cur_vf_state[h]], a [uint8_t]. *)
Definition get_vf_state (idx_vf hw_sched_id : Z) : MA Z :=
  v ← vf_info idx_vf; require (cur_vf_state v !! Z.to_nat hw_sched_id).
Definition set_vf_state (idx_vf hw_sched_id st : Z) : MA unit :=
  v ← vf_info idx_vf;
  _ ← require (cur_vf_state v !! Z.to_nat hw_sched_id);
  modify (fun s => s <| sched_vfs := <[Z.to_nat idx_vf :=
    v <| cur_vf_state := <[Z.to_nat hw_sched_id := u8 st]> (cur_vf_state v) |> ]>
      (sched_vfs s) |>).

(** One field of one state machine. *)
Definition upd_machine (hw_sched_id : Z) (f : world_switch_state -> world_switch_state) : MA unit :=
  m ← machine hw_sched_id;
  modify (fun s => s <| hw_state_machine :=
    <[Z.to_nat hw_sched_id := f m]> (hw_state_machine s) |>).
Definition upd_ws (i : Z) (f : world_switch -> world_switch) : MA unit :=
  w ← ws_at i;
  modify (fun s => s <| world_switches := <[Z.to_nat i := f w]> (world_switches s) |>).

Definition is_active_vf (idx_vf : Z) : MA bool :=
  v ← vf_info idx_vf; mret (sv_state v =? AMDGV_SCHED_ACTIVE).
Definition is_suspend_vf (idx_vf : Z) : MA bool :=
  v ← vf_info idx_vf; mret (sv_state v =? AMDGV_SCHED_SUSPEND).

(** ** Commands *)

Definition set_cmd (cmd hw_sched_id idx_vf : Z) : MA unit :=
  modify (fun s => s <| cmds := (cmd, hw_sched_id, idx_vf) :: cmds s |>
                     <| device := hw_set_cmd cmd hw_sched_id idx_vf (device s) |>).

(** The wait polls [is_cmd_complete] until the allowed time has passed and
    gives 0 or [AMDGV_FAILURE]. *)
Definition wait_cmd_complete (idx_vf hw_sched_id : Z) : MA Z :=
  ok ← dev (hw_wait_cmd_complete idx_vf hw_sched_id);
  mret (if (ok : bool) then 0 else AMDGV_FAILURE).

(** The callback of the wait takes the first scheduler of the mask that is
    done; none at the end of the wait is a timeout. *)
Definition wait_for_first_cmd_complete (hw_sched_mask timeout : Z) : MA (option Z) :=
  done ← dev (hw_wait_first hw_sched_mask timeout);
  mret (List.find (fun h => Z.testbit done h) (for_each_id hw_sched_mask)).

(** The debug build's check of a transition: [current] is the state the VF is
    in on this scheduler, [next] the command.  The local [ret] is what the
    table says; the function returns 0. *)
Definition transition_ret (current next : Z) : Z :=
  let current := Z.land current 0xF in
  let next := Z.land next 0xF in
  if next =? AMDGV_INIT_GPU then
    if negb (current =? AMDGV_SHUTDOWN_GPU) then AMDGV_FAILURE else 0
  else if next =? AMDGV_RUN_GPU then
    if negb (current =? AMDGV_INIT_GPU) && negb (current =? AMDGV_LOAD_GPU_STATE)
    then AMDGV_FAILURE else 0
  else if next =? AMDGV_IDLE_GPU then
    if negb (current =? AMDGV_RUN_GPU) then AMDGV_FAILURE else 0
  else if next =? AMDGV_LOAD_GPU_STATE then
    if negb (current =? AMDGV_SAVE_GPU_STATE) && negb (current =? AMDGV_SAVE_RLCV_STATE)
    then AMDGV_FAILURE else 0
  else if next =? AMDGV_SAVE_GPU_STATE then
    if negb (current =? AMDGV_IDLE_GPU) then AMDGV_FAILURE else 0
  else if next =? AMDGV_SHUTDOWN_GPU then
    if negb (current =? AMDGV_SAVE_GPU_STATE) then AMDGV_FAILURE else 0
  else 0.
Definition check_state_transition (next idx_vf hw_sched_id : Z) : MA Z :=
  _ ← machine hw_sched_id;
  current ← get_vf_state idx_vf hw_sched_id;
  let ret := transition_ret current next in
  mret 0.

Definition amdgv_gpuiov_init_vf_no_wait (idx_vf hw_sched_id : Z) : MA Z :=
  _ ← set_cmd AMDGV_INIT_GPU hw_sched_id idx_vf; mret 0.
Definition amdgv_gpuiov_load_vf_no_wait (idx_vf hw_sched_id : Z) : MA Z :=
  _ ← set_cmd AMDGV_LOAD_GPU_STATE hw_sched_id idx_vf; mret 0.
Definition amdgv_gpuiov_idle_vf_no_wait (idx_vf hw_sched_id : Z) : MA Z :=
  _ ← set_cmd AMDGV_IDLE_GPU hw_sched_id idx_vf; mret 0.
Definition amdgv_gpuiov_save_vf_no_wait (idx_vf hw_sched_id : Z) : MA Z :=
  _ ← set_cmd AMDGV_SAVE_GPU_STATE hw_sched_id idx_vf; mret 0.
Definition amdgv_gpuiov_run_vf_no_wait (idx_vf hw_sched_id : Z) : MA Z :=
  _ ← set_cmd AMDGV_RUN_GPU hw_sched_id idx_vf; mret 0.

(** The scheduler takes a SHUTDOWN command: graphics always, multimedia when
    its firmware has the feature. *)
Definition takes_shutdown (hw_sched_id : Z) : MA bool :=
  gfx ← IS_HW_SCHED_TYPE_GFX hw_sched_id;
  mm ← IS_HW_SCHED_TYPE_MM hw_sched_id;
  sup ← gets (fun s => support_shutdown_cmd (config s));
  mret (gfx || mm && sup).

Definition amdgv_gpuiov_shutdown_vf_no_wait (idx_vf hw_sched_id : Z) : MA Z :=
  legacy ← has_flag AMDGV_FLAG_USE_LEGACY_FLR_SEQUENCE;
  if (legacy : bool) then mret 0 else
  takes ← takes_shutdown hw_sched_id;
  _ ← when takes (set_cmd AMDGV_SHUTDOWN_GPU hw_sched_id idx_vf);
  mret 0.

Definition amdgv_gpuiov_init_vf (idx_vf hw_sched_id : Z) : MA Z :=
  _ ← amdgv_gpuiov_init_vf_no_wait idx_vf hw_sched_id;
  ret ← wait_cmd_complete idx_vf hw_sched_id;
  _ ← when (ret =? 0) (set_vf_state idx_vf hw_sched_id AMDGV_INIT_GPU);
  mret ret.

Definition amdgv_gpuiov_load_vf (idx_vf hw_sched_id : Z) : MA Z :=
  _ ← amdgv_gpuiov_load_vf_no_wait idx_vf hw_sched_id;
  ret ← wait_cmd_complete idx_vf hw_sched_id;
  if negb (ret =? AMDGV_FAILURE) then
    if AMDGV_MAX_VF_SLOT <=? idx_vf then mret AMDGV_FAILURE else
    _ ← set_vf_state idx_vf hw_sched_id AMDGV_LOAD_GPU_STATE;
    mret 0
  else mret AMDGV_FAILURE.

(** The busy status of the graphics engines is read afresh from the device. *)
Definition amdgv_gpuiov_update_vf_busy_status : MA Z :=
  has ← gets (fun s => has_busy_status (config s));
  if negb has then mret 0 else
  n ← gets (fun s => length (world_switches s));
  _ ← for_each (Z.of_nat <$> seq 0 n) (fun i =>
    w ← ws_at i;
    if negb (sched_block w =? AMDGV_SCHED_BLOCK_GFX) then mret tt else
    _ ← upd_ws i (fun w => w <| vf_busy_status := 0 |>);
    for_each (for_each_id (ws_hw_sched_mask w)) (fun h =>
      b ← dev (hw_update_vf_busy_status h);
      upd_ws i (fun w => w <| vf_busy_status := Z.lor (vf_busy_status w) (u32 b) |>)));
  mret 0.

Definition amdgv_gpuiov_idle_vf (idx_vf hw_sched_id : Z) : MA Z :=
  _ ← amdgv_gpuiov_idle_vf_no_wait idx_vf hw_sched_id;
  ret ← wait_cmd_complete idx_vf hw_sched_id;
  if negb (ret =? AMDGV_FAILURE) then
    if AMDGV_MAX_VF_SLOT <=? idx_vf then mret AMDGV_FAILURE else
    _ ← set_vf_state idx_vf hw_sched_id AMDGV_IDLE_GPU;
    cb ← ctrl hw_sched_id;
    _ ← (if cb_sched_mode cb =? AMDGV_SCHED_HYBRID_LIQUID_MODE
         then amdgv_gpuiov_update_vf_busy_status else mret 0);
    mret 0
  else mret AMDGV_FAILURE.

Definition amdgv_gpuiov_save_vf (idx_vf hw_sched_id : Z) : MA Z :=
  _ ← amdgv_gpuiov_save_vf_no_wait idx_vf hw_sched_id;
  ret ← wait_cmd_complete idx_vf hw_sched_id;
  if negb (ret =? AMDGV_FAILURE) then
    _ ← set_vf_state idx_vf hw_sched_id AMDGV_SAVE_GPU_STATE;
    mret 0
  else mret AMDGV_FAILURE.

Definition amdgv_gpuiov_run_vf (idx_vf hw_sched_id : Z) : MA Z :=
  _ ← amdgv_gpuiov_run_vf_no_wait idx_vf hw_sched_id;
  ret ← wait_cmd_complete idx_vf hw_sched_id;
  if negb (ret =? AMDGV_FAILURE) then
    _ ← set_vf_state idx_vf hw_sched_id AMDGV_RUN_GPU;
    mret 0
  else mret AMDGV_FAILURE.

Definition amdgv_gpuiov_shutdown_vf (idx_vf hw_sched_id : Z) : MA Z :=
  legacy ← has_flag AMDGV_FLAG_USE_LEGACY_FLR_SEQUENCE;
  if (legacy : bool) then mret 0 else
  takes ← takes_shutdown hw_sched_id;
  ret ← (if (takes : bool) then
           _ ← set_cmd AMDGV_SHUTDOWN_GPU hw_sched_id idx_vf;
           wait_cmd_complete idx_vf hw_sched_id
         else mret 0);
  _ ← when (ret =? 0) (set_vf_state idx_vf hw_sched_id AMDGV_SHUTDOWN_GPU);
  mret ret.

(** Auto-scheduling: the VF argument is the invalid index. *)
Definition amdgv_gpuiov_enable_auto_sched (hw_sched_id : Z) : MA Z :=
  n ← gets (fun s => max_num_vf (config s) + 1);
  _ ← set_cmd AMDGV_ENABLE_AUTO_HW_SWITCH hw_sched_id n;
  wait_cmd_complete AMDGV_PF_IDX hw_sched_id.
Definition amdgv_gpuiov_disable_auto_sched (hw_sched_id : Z) : MA Z :=
  n ← gets (fun s => max_num_vf (config s) + 1);
  _ ← set_cmd AMDGV_DISABLE_AUTO_HW_SCHED hw_sched_id n;
  wait_cmd_complete AMDGV_PF_IDX hw_sched_id.
Definition amdgv_gpuiov_wait_auto_sched_stop (hw_sched_id : Z) : MA Z :=
  ok ← dev (hw_wait_auto_sched_stop hw_sched_id);
  mret (if (ok : bool) then 0 else AMDGV_FAILURE).
Definition amdgv_gpuiov_get_active_vfs (hw_sched_id : Z) : MA Z :=
  gets (fun s => hw_get_active_vfs hw_sched_id (device s)).
Definition amdgv_gpuiov_get_active_vf_idx (hw_sched_id : Z) : MA Z :=
  gets (fun s => hw_get_active_vf_idx hw_sched_id (device s)).
End gpuiov.
