(* ===== verification/WsState.v ===== *)
(** * World-switch state machines (src/libgv/core/amdgv_ws_state.c)

    A graphics or multimedia engine is shared by giving it to one VF at a
    time.  Each hardware scheduler has a state machine that walks the engine
    from the state it is in to the state a caller asks for on a VF: the manual
    machine ([world_switch_goto_state_manual]), its version that drives
    several schedulers at once ([world_switch_bulk_goto_state_manual]) and the
    machine for schedulers whose firmware switches by itself
    ([world_switch_goto_state_auto]).  The file has these machines, the entry
    points above them and the save and restore of their state over a live
    update.  Log and dump calls and the gpumon time accounting are left out. *)
From S2P Require Import Prelude Api Mask Gpuiov.
#[local] Open Scope Z_scope.

Section ws_state.
Context {hw : Type} `{HW : WsHw hw}.
Abbreviation MA := (M (adapter hw)).

(** ** Helpers of amdgv_sched.c and amdgv_sched_switch.c *)

Fixpoint find_ws (h : Z) (i : nat) (l : list world_switch) : option Z :=
  match l with
  | [] => None
  | w :: l' => if Z.testbit (ws_hw_sched_mask w) h then Some (Z.of_nat i) else find_ws h (S i) l'
  end.

(** The index of the logical engine a scheduler belongs to. *)
Definition amdgv_sched_get_world_switch_by_hw_sched_id (h : Z) : MA (option Z) :=
  gets (fun s => find_ws h 0 (world_switches s)).

(** [None] is [AMDGV_FAILURE], with the out parameter untouched. *)
Definition amdgv_sched_world_context_get_hw_curr_state (h : Z) : MA (option Z) :=
  i ← amdgv_sched_get_world_switch_by_hw_sched_id h;
  match i with
  | None => mret None
  | Some i =>
      w ← ws_at i;
      if negb (ws_enabled w) then mret None else
      if use_active_status w && switch_running w then
        st ← gets (fun s => hw_get_active_vf_status h (device s));
        mret (Some (match st with
          | None => 3                    (* ABNORMAL *)
          | Some st =>
              if st =? 0x05 then 3       (* STALLED: ABNORMAL *)
              else if st =? 0x00 then 0  (* IDLE: CLEAR *)
              else if st =? 0x02 then 0  (* IDLING: CLEAR *)
              else if st =? 0x03 then 2  (* SAVE: SAVED *)
              else if st =? 0x04 then 1  (* LOAD: LOADED *)
              else if st =? 0x01 then 1  (* ACTIVE: LOADED *)
              else 3
          end))
      else mret (Some (curr_vf_state w))
  end.
Definition AMDGV_VF_CONTEXT_CLEAR : Z := 0.
Definition AMDGV_VF_CONTEXT_LOADED : Z := 1.
Definition AMDGV_VF_CONTEXT_SAVED : Z := 2.

Definition amdgv_sched_active_vf_num : MA Z :=
  gets (fun s => Z.of_nat (length (List.filter
    (fun v => sv_state v =? AMDGV_SCHED_ACTIVE) (sched_vfs s)))).

Definition amdgv_sched_set_auto_sched_log_feature (h event : Z) (enable : bool) : MA Z :=
  ok ← dev (hw_event_notification AMDGV_PF_IDX h event enable);
  mret (if (ok : bool) then 0 else AMDGV_FAILURE).

Definition amdgv_sched_toggle_perflog (enable : bool) (h : Z) : MA Z :=
  fl ← has_flag AMDGV_FLAG_PERF_LOG_ENABLE;
  on ← (fun s => require (perf_log_enabled s !! Z.to_nat h) s);
  if negb fl && (negb on || enable) then mret 0 else
  if Bool.eqb on enable then mret AMDGV_ALREADY_SET else
  ret ← amdgv_sched_set_auto_sched_log_feature h AMDGV_EVENT_PERF_LOG enable;
  if negb (ret =? 0) then mret ret else
  _ ← modify (fun s => s <| perf_log_enabled := <[Z.to_nat h := enable]> (perf_log_enabled s) |>);
  _ ← (if enable then mret true else dev hw_read_perf_log_data);
  mret ret.

(** ** The next state on the way to a target *)

(** [world_switch_get_next_state]: return code, next state, next VF (the last
    two untouched when it fails). *)
Definition world_switch_get_next_state (h target_vf target_state cur_state cur_vf : Z) :
    MA (Z * option (Z * Z)) :=
  let shutdown_gpu :=
    tv ← get_vf_state target_vf h;
    mret (0, Some (
      (if (target_state =? AMDGV_SHUTDOWN_GPU) && negb (cur_vf =? target_vf)
          && (tv =? AMDGV_SAVE_GPU_STATE) then AMDGV_SHUTDOWN_GPU
       else if tv =? AMDGV_SAVE_GPU_STATE then AMDGV_LOAD_GPU_STATE
       else AMDGV_INIT_GPU), target_vf)) in
  if cur_state =? AMDGV_IDLE_GPU then mret (0, Some (AMDGV_SAVE_GPU_STATE, cur_vf))
  else if cur_state =? AMDGV_SAVE_GPU_STATE then
    if (target_state =? AMDGV_SHUTDOWN_GPU) && (cur_vf =? target_vf) then
      mret (0, Some (AMDGV_SHUTDOWN_GPU, cur_vf))
    else if (target_state =? AMDGV_SHUTDOWN_GPU) && negb (cur_vf =? target_vf) then
      susp ← is_suspend_vf target_vf;
      if (susp : bool) then mret (0, Some (AMDGV_SHUTDOWN_GPU, target_vf)) else shutdown_gpu
    else shutdown_gpu
  else if cur_state =? AMDGV_SHUTDOWN_GPU then shutdown_gpu
  else if (cur_state =? AMDGV_LOAD_GPU_STATE) || (cur_state =? AMDGV_INIT_GPU) then
    mret (0, Some (AMDGV_RUN_GPU, cur_vf))
  else if cur_state =? AMDGV_RUN_GPU then mret (0, Some (AMDGV_IDLE_GPU, cur_vf))
  else mret (AMDGV_FAILURE, None).

(** ** Manual machine *)

(** The first [switch] of the loop of [world_switch_goto_state_manual]; [None]
    is its default case. *)
Definition manual_decide (h target_vf target_state cur_state cur_vf : Z) : MA (option (Z * Z)) :=
  let shutdown_gpu :=
    tv ← get_vf_state target_vf h;
    mret (Some (
      (if (target_state =? AMDGV_SHUTDOWN_GPU) && negb (cur_vf =? target_vf)
          && (tv =? AMDGV_SAVE_GPU_STATE) then AMDGV_SHUTDOWN_GPU
       else if tv =? AMDGV_SAVE_GPU_STATE then AMDGV_LOAD_GPU_STATE
       else AMDGV_INIT_GPU), target_vf)) in
  if cur_state =? AMDGV_IDLE_GPU then mret (Some (AMDGV_SAVE_GPU_STATE, cur_vf))
  else if cur_state =? AMDGV_SAVE_GPU_STATE then
    if (target_state =? AMDGV_SHUTDOWN_GPU) && (cur_vf =? target_vf) then
      mret (Some (AMDGV_SHUTDOWN_GPU, cur_vf))
    else if (target_state =? AMDGV_SHUTDOWN_GPU) && negb (cur_vf =? target_vf) then
      susp ← is_suspend_vf target_vf;
      if (susp : bool) then mret (Some (AMDGV_SHUTDOWN_GPU, target_vf)) else shutdown_gpu
    else shutdown_gpu
  else if cur_state =? AMDGV_SHUTDOWN_GPU then shutdown_gpu
  else if (cur_state =? AMDGV_LOAD_GPU_STATE) || (cur_state =? AMDGV_INIT_GPU) then
    mret (Some (AMDGV_RUN_GPU, cur_vf))
  else if cur_state =? AMDGV_RUN_GPU then mret (Some (AMDGV_IDLE_GPU, cur_vf))
  else mret None.

(** Its second [switch]: send the command and wait; a failure becomes the
    error code of that command. *)
Definition or_code (code : Z) (m : MA Z) : MA Z :=
  r ← m; mret (if r =? 0 then 0 else code).
Definition manual_command (h next_state next_vf : Z) : MA Z :=
  if next_state =? AMDGV_IDLE_GPU then
    or_code AMDGV_LOG_IOV_WS_IDLE_TIMEOUT (amdgv_gpuiov_idle_vf next_vf h)
  else if next_state =? AMDGV_RUN_GPU then
    or_code AMDGV_LOG_IOV_WS_RUN_TIMEOUT (amdgv_gpuiov_run_vf next_vf h)
  else if next_state =? AMDGV_SAVE_GPU_STATE then
    or_code AMDGV_LOG_IOV_WS_SAVE_TIMEOUT (amdgv_gpuiov_save_vf next_vf h)
  else if next_state =? AMDGV_INIT_GPU then
    or_code AMDGV_LOG_IOV_WS_LOAD_TIMEOUT (amdgv_gpuiov_init_vf next_vf h)
  else if next_state =? AMDGV_LOAD_GPU_STATE then
    or_code AMDGV_LOG_IOV_WS_LOAD_TIMEOUT (amdgv_gpuiov_load_vf next_vf h)
  else if next_state =? AMDGV_SHUTDOWN_GPU then
    or_code AMDGV_LOG_IOV_WS_SHUTDOWN_TIMEOUT (amdgv_gpuiov_shutdown_vf next_vf h)
  else mret AMDGV_LOG_IOV_CMD_ERROR.

(** One round of the loop: 0 to go on, or the code to leave with. *)
Definition manual_round (target_vf h target_state : Z) : MA Z :=
  m ← machine h;
  next ← manual_decide h target_vf target_state (cur_gpu_state m) (cur_vf_id m);
  match next with
  | None => mret AMDGV_LOG_IOV_CMD_ERROR
  | Some (next_state, next_vf) =>
      ret ← manual_command h next_state next_vf;
      if negb (ret =? 0) then mret ret else
      _ ← upd_machine h (fun m => m <| cur_gpu_state := next_state |>
                                    <| cur_vf_id := next_vf |>);
      mret 0
  end.

Definition at_target (target_vf h target_state : Z) : MA bool :=
  m ← machine h;
  mret ((cur_gpu_state m =? target_state) && (cur_vf_id m =? target_vf)).

(** The loop; [loop_okay] is the code's own counter. *)
Fixpoint manual_loop (loop_okay : nat) (target_vf h target_state : Z) : MA Z :=
  there ← at_target target_vf h target_state;
  if (there : bool) then mret 0 else
  match loop_okay with
  | O => mret AMDGV_LOG_IOV_WS_INFINITE_LOOP
  | S loop_okay' =>
      ret ← manual_round target_vf h target_state;
      if negb (ret =? 0) then mret ret else
      manual_loop loop_okay' target_vf h target_state
  end.

(** [oss_rwsema_write_trylock] and unlock of one machine's [ws_lock]: [true]
    when the lock was already held. *)
Definition ws_trylock (h : Z) : MA bool :=
  m ← machine h;
  if ws_locked m then mret true else
  _ ← upd_machine h (fun m => m <| ws_locked := true |>);
  mret false.
Definition ws_unlock (h : Z) : MA unit :=
  upd_machine h (fun m => m <| ws_locked := false |>).

Definition world_switch_goto_state_manual (target_vf h target_state : Z) : MA Z :=
  busy ← ws_trylock h;
  if (busy : bool) then mret AMDGV_LOG_IOV_WS_REENTRANT_ERROR else
  ret ← manual_loop 20 target_vf h target_state;
  _ ← ws_unlock h;
  mret ret.

(** ** Bulk machine *)

(** The locals of [world_switch_bulk_goto_state_manual] that live across its
    loops. *)
Record bulk := mk_bulk {
  bk_mask : Z;             (* hw_sched_mask *)
  bk_bad : Z;              (* bad_hw_sched_mask *)
  bk_next : Z -> Z * Z;    (* next_state and next_vf of each scheduler *)
  bk_okay : nat;           (* loop_okay *)
  bk_ret : Z;
}.
#[export] Instance eta_bulk : Eta bulk := fun r =>
  mk_bulk (bk_mask r) (bk_bad r) (bk_next r) (bk_okay r) (bk_ret r).

Definition mask_clear (mask h : Z) : Z := Z.clearbit mask h.
Definition mask_set (mask h : Z) : Z := Z.setbit mask h.

(** "Mark HW sched as bad and continue". *)
Definition bulk_mark_bad (h : Z) (b : bulk) : bulk :=
  b <| bk_bad := mask_set (bk_bad b) h |> <| bk_mask := mask_clear (bk_mask b) h |>.

(** Step 1: the next state of every scheduler of the mask.  A body only clears
    the bit of its own scheduler, so the ids visited are those of the mask at
    the start.  [true]: the loop counter ran out. *)
Fixpoint bulk_get_next (ids : list Z) (target_vf target_state : Z) (b : bulk) : MA (bool * bulk) :=
  match ids with
  | [] => mret (false, b)
  | h :: ids' =>
      m ← machine h;
      if (cur_gpu_state m =? target_state) && (cur_vf_id m =? target_vf) then
        bulk_get_next ids' target_vf target_state
          (b <| bk_mask := mask_clear (bk_mask b) h |>)
      else
        r ← world_switch_get_next_state h target_vf target_state (cur_gpu_state m) (cur_vf_id m);
        let '(ret, next) := r in
        let b := b <| bk_ret := ret |> in
        let b := match next with
                 | Some n => b <| bk_next := fun i => if i =? h then n else bk_next b i |>
                 | None => b
                 end in
        let b := if negb (ret =? 0) then bulk_mark_bad h b else b in
        match bk_okay b with
        | O => mret (true, b <| bk_ret := AMDGV_LOG_IOV_WS_INFINITE_LOOP |>)
        | S n => bulk_get_next ids' target_vf target_state (b <| bk_okay := n |>)
        end
  end.

(** Step 2: send the commands. *)
Definition bulk_send_cmd (h next_state next_vf : Z) : MA Z :=
  if next_state =? AMDGV_IDLE_GPU then amdgv_gpuiov_idle_vf_no_wait next_vf h
  else if next_state =? AMDGV_RUN_GPU then amdgv_gpuiov_run_vf_no_wait next_vf h
  else if next_state =? AMDGV_SAVE_GPU_STATE then amdgv_gpuiov_save_vf_no_wait next_vf h
  else if next_state =? AMDGV_INIT_GPU then amdgv_gpuiov_init_vf_no_wait next_vf h
  else if next_state =? AMDGV_LOAD_GPU_STATE then amdgv_gpuiov_load_vf_no_wait next_vf h
  else if next_state =? AMDGV_SHUTDOWN_GPU then amdgv_gpuiov_shutdown_vf_no_wait next_vf h
  else mret AMDGV_LOG_IOV_CMD_ERROR.

Fixpoint bulk_send (ids : list Z) (b : bulk) : MA bulk :=
  match ids with
  | [] => mret b
  | h :: ids' =>
      _ ← dev hw_time;
      ret ← bulk_send_cmd h (fst (bk_next b h)) (snd (bk_next b h));
      let b := b <| bk_ret := ret |> in
      bulk_send ids' (if negb (ret =? 0) then bulk_mark_bad h b else b)
  end.

(** Step 3: wait for the schedulers of [wait_mask], one completion at a time;
    a timeout gives up on all that are left.  Every round takes one bit out of
    the mask, so 33 rounds are enough. *)
Fixpoint bulk_wait (fuel : nat) (wait_start wait_left wait_mask : Z) (b : bulk) : MA bulk :=
  if wait_mask =? 0 then mret b else
  match fuel with
  | O => fault
  | S fuel' =>
      r ← wait_for_first_cmd_complete wait_mask wait_left;
      now ← dev hw_time;
      allow ← gets (fun s => allow_time_cmd_complete (config s));
      let wait_delta := u64 (now - wait_start) in
      match r with
      | Some h =>
          let b := b <| bk_ret := 0 |> in
          if allow <=? wait_delta then
            mret (b <| bk_bad := Z.lor (bk_bad b) wait_mask |>
                    <| bk_mask := Z.ldiff (bk_mask b) wait_mask |>)
          else
            let '(next_state, next_vf) := bk_next b h in
            _ ← upd_machine h (fun m => m <| cur_gpu_state := next_state |>
                                          <| cur_vf_id := next_vf |>);
            _ ← set_vf_state next_vf h next_state;
            bulk_wait fuel' wait_start (u64 (allow - wait_delta)) (mask_clear wait_mask h) b
      | None =>
          let b := b <| bk_ret := AMDGV_FAILURE |> in
          mret (b <| bk_bad := Z.lor (bk_bad b) wait_mask |>
                  <| bk_mask := Z.ldiff (bk_mask b) wait_mask |>)
      end
  end.

(** Steps 1 to 4.  A round that is followed by another has a scheduler left
    in the mask after step 1 and so has counted [loop_okay] down: the counter
    bounds the rounds. *)
Fixpoint bulk_rounds (fuel : nat) (target_vf target_state : Z) (b : bulk) : MA bulk :=
  match fuel with
  | O => fault
  | S fuel' =>
      r ← bulk_get_next (for_each_id (bk_mask b)) target_vf target_state b;
      let '(exhausted, b) := r in
      if (exhausted : bool) then mret b else
      b ← bulk_send (for_each_id (bk_mask b)) b;
      wait_start ← dev hw_time;
      allow ← gets (fun s => allow_time_cmd_complete (config s));
      b ← bulk_wait 33 wait_start allow (bk_mask b) b;
      if bk_mask b =? 0 then mret b else
      bulk_rounds fuel' target_vf target_state b
  end.

(** Taking the locks, in order.  When one is held the function returns at
    once. *)
Fixpoint bulk_lock (ids : list Z) : MA bool :=
  match ids with
  | [] => mret false
  | h :: ids' =>
      busy ← ws_trylock h;
      if (busy : bool) then mret true else bulk_lock ids'
  end.

Definition world_switch_bulk_goto_state_manual (target_vf hw_sched_mask target_state : Z) : MA Z :=
  n ← gets (fun s => num_ctrl_blocks (config s));
  let loop_okay := Z.to_nat (u32 (20 * n)) in
  busy ← bulk_lock (for_each_id hw_sched_mask);
  if (busy : bool) then mret AMDGV_LOG_IOV_WS_REENTRANT_ERROR else
  b ← bulk_rounds (S (S loop_okay)) target_vf target_state
        (mk_bulk hw_sched_mask 0 (fun _ => (0, 0)) loop_okay 0);
  let ret := if negb (bk_bad b =? 0) then AMDGV_FAILURE else bk_ret b in
  _ ← for_each (for_each_id hw_sched_mask) ws_unlock;
  mret ret.

(** ** Auto machine *)

Definition set_gpu_state (h st : Z) : MA unit :=
  upd_machine h (fun m => m <| cur_gpu_state := st |>).
Definition set_cur_vf (h vf : Z) : MA unit :=
  upd_machine h (fun m => m <| cur_vf_id := vf |>).

(** Run a command of the auto machine; a failure leaves with its code. *)
Definition guarded {A} (m : MA Z) (code : Z) (bad : Z -> A) (k : MA A) : MA A :=
  r ← m; if negb (r =? 0) then mret (bad code) else k.

(** Every VF that runs under the auto scheduler is marked with a state. *)
Definition mark_auto_run_vfs (h : Z) (st : Z -> Z) (also_pf : bool) : MA unit :=
  for_each (Z.of_nat <$> seq 0 (Z.to_nat AMDGV_MAX_VF_SLOT)) (fun i =>
    e ← vf_entry_at i;
    when (auto_run e || (i =? AMDGV_PF_IDX) && also_pf) (set_vf_state i h (st i))).

Definition amdgv_world_switch_do_enable_auto_sched (h cur_vf cur_state target_vf : Z) : MA Z :=
  active_vfs ← amdgv_gpuiov_get_active_vfs h;
  r ← (if active_vfs =? 0 then mret 0 else
       pf ← has_flag AMDGV_FLAG_USE_PF;
       dump ← has_flag AMDGV_FLAG_DEBUG_DUMP_ENABLE;
       gfx ← IS_HW_SCHED_TYPE_GFX h;
       _ ← (if pf && dump && gfx
            then amdgv_sched_set_auto_sched_log_feature h AMDGV_EVENT_DEBUG_LOG true
            else mret 0);
       e ← amdgv_gpuiov_enable_auto_sched h;
       if negb (e =? 0) then mret (-1) else
       _ ← (if (gfx : bool) then amdgv_sched_toggle_perflog true h else mret 0);
       mret 0);
  if negb (r =? 0) then mret (-1) else
  _ ← upd_machine h (fun m => m <| cur_vf_id := target_vf |>
                                <| cur_gpu_state := AMDGV_ENABLE_AUTO_HW_SWITCH |>);
  _ ← mark_auto_run_vfs h (fun _ => AMDGV_RUN_GPU) false;
  mret 0.

(** "Self switch is disabled": one VF per graphics scheduler and the flag. *)
Definition self_switch_disabled (h : Z) : MA bool :=
  gfx ← IS_HW_SCHED_TYPE_GFX h;
  one ← gets (fun s => num_vf_per_gfx_sched (config s) =? 1);
  dis ← has_flag AMDGV_FLAG_DISABLE_SELF_SWITCH;
  mret (gfx && one && dis).

(** A round ends by leaving with a code or by going on with the target, which
    the round may have changed. *)
Inductive auto_next :=
| Leave (ret : Z)
| Continue (target_vf target_state : Z).

(** The tail of the SAVE and SHUTDOWN cases that loads or initialises the
    target ([load_gpu] enters at the LOAD). *)
Definition auto_load_gpu (h target_vf target_state : Z) : MA auto_next :=
  guarded (amdgv_gpuiov_load_vf target_vf h) AMDGV_LOG_IOV_WS_LOAD_TIMEOUT Leave (
    _ ← set_gpu_state h AMDGV_LOAD_GPU_STATE;
    _ ← set_cur_vf h target_vf;
    mret (Continue target_vf target_state)).

Definition auto_enable (h cur_vf cur_state target_vf target_state : Z) : MA auto_next :=
  guarded (amdgv_world_switch_do_enable_auto_sched h cur_vf cur_state target_vf) AMDGV_FAILURE
    Leave (mret (Continue target_vf target_state)).

Definition auto_shutdown_gpu (h ws cur_vf cur_state target_vf target_state : Z) : MA auto_next :=
  if (cur_state =? AMDGV_SHUTDOWN_GPU) && (target_state =? AMDGV_ENABLE_AUTO_HW_SWITCH) then
    dis ← self_switch_disabled h;
    if (dis : bool) then auto_load_gpu h target_vf AMDGV_RUN_GPU else
    auto_enable h cur_vf cur_state target_vf target_state
  else if AMDGV_MAX_VF_SLOT <=? target_vf then mret (Leave AMDGV_FAILURE) else
  tv ← get_vf_state target_vf h;
  w ← ws_at ws;
  act ← is_active_vf target_vf;
  if (tv =? AMDGV_SAVE_GPU_STATE)
     && (if target_vf =? AMDGV_PF_IDX then Z.testbit (vf_inited w) target_vf else act) then
    auto_load_gpu h target_vf target_state
  else
    guarded (amdgv_gpuiov_init_vf target_vf h) AMDGV_LOG_IOV_WS_LOAD_TIMEOUT Leave (
      _ ← set_gpu_state h AMDGV_INIT_GPU;
      _ ← set_cur_vf h target_vf;
      mret (Continue target_vf target_state)).

Definition auto_save (h ws cur_vf target_vf target_state : Z) : MA auto_next :=
  susp ← is_suspend_vf target_vf;
  let jump := susp && negb (target_vf =? cur_vf) && negb (target_vf =? AMDGV_PF_IDX) in
  let cur_vf := if jump then target_vf else cur_vf in
  _ ← when jump (set_cur_vf h target_vf);
  if (target_state =? AMDGV_SHUTDOWN_GPU) && (cur_vf =? target_vf) then
    guarded (amdgv_gpuiov_shutdown_vf cur_vf h) AMDGV_LOG_IOV_WS_SHUTDOWN_TIMEOUT Leave (
      _ ← set_gpu_state h AMDGV_SHUTDOWN_GPU;
      mret (Continue target_vf target_state))
  else if target_state =? AMDGV_ENABLE_AUTO_HW_SWITCH then
    dis ← self_switch_disabled h;
    if (dis : bool) then auto_load_gpu h target_vf AMDGV_RUN_GPU else
    auto_enable h cur_vf AMDGV_SAVE_GPU_STATE target_vf target_state
  else auto_shutdown_gpu h ws cur_vf AMDGV_SAVE_GPU_STATE target_vf target_state.

Definition auto_run_case (h ws cur_vf target_vf target_state : Z) : MA auto_next :=
  w ← ws_at ws;
  let stop k := (_ ← upd_ws ws (fun w => w <| switch_running := false |>); k : MA auto_next) in
  if (target_state =? AMDGV_ENABLE_AUTO_HW_SWITCH) && negb (sched_block w =? AMDGV_SCHED_BLOCK_GFX) then
    guarded (amdgv_world_switch_do_enable_auto_sched h cur_vf AMDGV_RUN_GPU target_vf)
      AMDGV_FAILURE Leave (stop (mret (Continue target_vf target_state)))
  else
    dis ← self_switch_disabled h;
    let target_state := if dis && (target_state =? AMDGV_ENABLE_AUTO_HW_SWITCH)
                        then AMDGV_RUN_GPU else target_state in
    guarded (amdgv_gpuiov_idle_vf cur_vf h) AMDGV_LOG_IOV_WS_IDLE_TIMEOUT Leave (
      _ ← set_gpu_state h AMDGV_IDLE_GPU;
      stop (mret (Continue target_vf target_state))).

(** Leaving auto scheduling when a command failed: the VF is what the hardware
    says. *)
Definition auto_disable_failed (h ws : Z) : MA auto_next :=
  vf ← amdgv_gpuiov_get_active_vf_idx h;
  _ ← set_cur_vf h vf;
  _ ← upd_ws ws (fun w => w <| curr_idx_vf := vf |>);
  mret (Leave AMDGV_FAILURE).

Definition auto_disable_done (h ws cur_vf target_vf target_state : Z) : MA auto_next :=
  _ ← set_cur_vf h cur_vf;
  let target_vf := if target_vf =? AMDGV_NO_VF then cur_vf else target_vf in
  _ ← upd_ws ws (fun w => w <| curr_idx_vf := cur_vf |>);
  _ ← set_gpu_state h AMDGV_DISABLE_AUTO_HW_SCHED;
  _ ← upd_ws ws (fun w => w <| switch_running := false |>);
  mret (Continue target_vf target_state).

Definition auto_enabled_case (h ws target_vf target_state : Z) : MA auto_next :=
  active_vfs ← amdgv_gpuiov_get_active_vfs h;
  if active_vfs =? 0 then auto_disable_done h ws AMDGV_PF_IDX target_vf target_state else
  dis ← self_switch_disabled h;
  if dis && (target_state =? AMDGV_DISABLE_AUTO_HW_SCHED) then
    _ ← set_gpu_state h AMDGV_RUN_GPU;
    mret (Continue target_vf AMDGV_SAVE_GPU_STATE)
  else
  gfx ← IS_HW_SCHED_TYPE_GFX h;
  _ ← (if (gfx : bool) then amdgv_sched_toggle_perflog false h else mret 0);
  r ← amdgv_gpuiov_disable_auto_sched h;
  if negb (r =? 0) then auto_disable_failed h ws else
  r ← amdgv_gpuiov_wait_auto_sched_stop h;
  if negb (r =? 0) then auto_disable_failed h ws else
  pf ← has_flag AMDGV_FLAG_USE_PF;
  dump ← has_flag AMDGV_FLAG_DEBUG_DUMP_ENABLE;
  _ ← (if pf && dump && gfx
       then amdgv_sched_set_auto_sched_log_feature h AMDGV_EVENT_DEBUG_LOG false
       else mret 0);
  vf ← amdgv_gpuiov_get_active_vf_idx h;
  auto_disable_done h ws vf target_vf target_state.

(** After auto scheduling was disabled: every VF is saved, except the current
    one when the engine still has to be idled.  [hw_vf_state] is a local that
    is read uninitialised when its query fails. *)
Definition auto_disabled_case (h ws cur_vf target_vf target_state : Z) : MA auto_next :=
  st ← amdgv_sched_world_context_get_hw_curr_state h;
  w ← ws_at ws;
  let st := if sched_block w =? AMDGV_SCHED_BLOCK_GFX then Some AMDGV_VF_CONTEXT_SAVED else st in
  hw_vf_state ← require st;
  pf ← has_flag AMDGV_FLAG_USE_PF;
  let auto_needs_idle := negb (hw_vf_state =? AMDGV_VF_CONTEXT_SAVED) in
  let finish := (
    _ ← mark_auto_run_vfs h (fun i => if (i =? cur_vf) && auto_needs_idle
          then AMDGV_IDLE_GPU else AMDGV_SAVE_GPU_STATE) pf;
    mret (Continue target_vf target_state)) in
  if auto_needs_idle then
    guarded (if negb (hw_vf_state =? AMDGV_VF_CONTEXT_CLEAR)
             then amdgv_gpuiov_idle_vf cur_vf h else mret 0)
      AMDGV_LOG_IOV_WS_IDLE_TIMEOUT Leave (
      _ ← set_gpu_state h AMDGV_IDLE_GPU; finish)
  else
    _ ← set_gpu_state h AMDGV_SAVE_GPU_STATE; finish.

Definition auto_round (h ws target_vf target_state : Z) : MA auto_next :=
  m ← machine h;
  let cur_vf := cur_vf_id m in
  let cur_state := cur_gpu_state m in
  if cur_state =? AMDGV_IDLE_GPU then
    guarded (amdgv_gpuiov_save_vf cur_vf h) AMDGV_LOG_IOV_WS_SAVE_TIMEOUT Leave (
      _ ← set_gpu_state h AMDGV_SAVE_GPU_STATE;
      mret (Continue target_vf target_state))
  else if cur_state =? AMDGV_SAVE_GPU_STATE then
    auto_save h ws cur_vf target_vf target_state
  else if cur_state =? AMDGV_SHUTDOWN_GPU then
    auto_shutdown_gpu h ws cur_vf AMDGV_SHUTDOWN_GPU target_vf target_state
  else if (cur_state =? AMDGV_LOAD_GPU_STATE) || (cur_state =? AMDGV_INIT_GPU) then
    guarded (amdgv_gpuiov_run_vf cur_vf h) AMDGV_LOG_IOV_WS_RUN_TIMEOUT Leave (
      _ ← set_gpu_state h AMDGV_RUN_GPU;
      mret (Continue target_vf target_state))
  else if cur_state =? AMDGV_RUN_GPU then
    auto_run_case h ws cur_vf target_vf target_state
  else if cur_state =? AMDGV_ENABLE_AUTO_HW_SWITCH then
    auto_enabled_case h ws target_vf target_state
  else if cur_state =? AMDGV_DISABLE_AUTO_HW_SCHED then
    auto_disabled_case h ws cur_vf target_vf target_state
  else mret (Leave AMDGV_LOG_IOV_CMD_ERROR).

Fixpoint auto_loop (loop_okay : nat) (h ws target_vf target_state : Z) : MA Z :=
  there ← at_target target_vf h target_state;
  if (there : bool) then mret 0 else
  match loop_okay with
  | O => mret AMDGV_LOG_IOV_WS_INFINITE_LOOP
  | S loop_okay' =>
      n ← auto_round h ws target_vf target_state;
      match n with
      | Leave ret => mret ret
      | Continue target_vf target_state => auto_loop loop_okay' h ws target_vf target_state
      end
  end.

Definition world_switch_goto_state_auto (target_vf h target_state : Z) : MA Z :=
  i ← amdgv_sched_get_world_switch_by_hw_sched_id h;
  match i with
  | None => mret AMDGV_FAILURE
  | Some ws =>
      busy ← ws_trylock h;
      if (busy : bool) then mret AMDGV_LOG_IOV_WS_REENTRANT_ERROR else
      m ← machine h;
      vf ← amdgv_gpuiov_get_active_vf_idx h;
      let unknown := (target_vf =? AMDGV_NO_VF)
                     && negb (cur_gpu_state m =? AMDGV_ENABLE_AUTO_HW_SWITCH) in
      let target_vf := if unknown then vf else target_vf in
      _ ← when unknown (upd_ws ws (fun w => w <| curr_idx_vf := vf |>));
      ret ← auto_loop 20 h ws target_vf target_state;
      _ ← ws_unlock h;
      mret ret
  end.

(** ** Entry points *)

(** A call through [hw_state_machine[h].goto_state]. *)
Definition goto_state_call (target_vf h target_state : Z) : MA Z :=
  m ← machine h;
  f ← require (goto_state m);
  match f with
  | world_switch_goto_state_manual_ptr => world_switch_goto_state_manual target_vf h target_state
  | world_switch_goto_state_auto_ptr => world_switch_goto_state_auto target_vf h target_state
  end.

Definition amdgv_hw_sched_state_run (idx_vf h : Z) : MA Z :=
  m ← machine h;
  gfx ← IS_HW_SCHED_TYPE_GFX h;
  ret ← (if (cur_gpu_state m =? AMDGV_RUN_GPU) && gfx then
           r ← or_code AMDGV_LOG_IOV_WS_IDLE_TIMEOUT (amdgv_gpuiov_idle_vf (cur_vf_id m) h);
           _ ← when (r =? 0) (set_gpu_state h AMDGV_IDLE_GPU);
           mret r
         else mret 0);
  if negb (ret =? 0) then mret ret else
  e ← vf_entry_at idx_vf;
  goto_state_call idx_vf h (if skip_run e then AMDGV_LOAD_GPU_STATE else AMDGV_RUN_GPU).

Definition amdgv_hw_sched_state_pause (idx_vf h : Z) : MA Z :=
  goto_state_call idx_vf h AMDGV_SAVE_GPU_STATE.
Definition amdgv_hw_sched_state_shutdown (idx_vf h : Z) : MA Z :=
  goto_state_call idx_vf h AMDGV_SHUTDOWN_GPU.

(** A request to every scheduler of a mask: all are tried, and one failure
    makes the whole fail. *)
Fixpoint each_sched (ids : list Z) (f : Z -> MA Z) (mark_bad : bool) : MA bool :=
  match ids with
  | [] => mret mark_bad
  | h :: ids' => r ← f h; each_sched ids' f (mark_bad || negb (r =? 0))
  end.

(** The logical-engine versions; [ws] is the index of the world switch. *)
Definition amdgv_logical_sched_state_run (idx_vf ws : Z) : MA Z :=
  w ← ws_at ws;
  if negb (bulk_goto_state w) then
    bad ← each_sched (for_each_id (ws_hw_sched_mask w)) (amdgv_hw_sched_state_run idx_vf) false;
    mret (if (bad : bool) then AMDGV_FAILURE else 0)
  else
    ret ← (if (curr_vf_state w =? AMDGV_VF_CONTEXT_LOADED) && (curr_idx_vf w =? idx_vf) then
             world_switch_bulk_goto_state_manual idx_vf (ws_hw_sched_mask w) AMDGV_IDLE_GPU
           else mret 0);
    if negb (ret =? 0) then mret ret else
    e ← vf_entry_at idx_vf;
    world_switch_bulk_goto_state_manual idx_vf (ws_hw_sched_mask w)
      (if skip_run e then AMDGV_LOAD_GPU_STATE else AMDGV_RUN_GPU).

Definition amdgv_logical_sched_state_pause (idx_vf ws : Z) : MA Z :=
  w ← ws_at ws;
  if negb (bulk_goto_state w) then
    bad ← each_sched (for_each_id (ws_hw_sched_mask w)) (amdgv_hw_sched_state_pause idx_vf) false;
    mret (if (bad : bool) then AMDGV_FAILURE else 0)
  else world_switch_bulk_goto_state_manual idx_vf (ws_hw_sched_mask w) AMDGV_SAVE_GPU_STATE.

Definition amdgv_logical_sched_state_shutdown (idx_vf ws : Z) : MA Z :=
  w ← ws_at ws;
  if negb (bulk_goto_state w) then
    bad ← each_sched (for_each_id (ws_hw_sched_mask w)) (amdgv_hw_sched_state_shutdown idx_vf) false;
    mret (if (bad : bool) then AMDGV_FAILURE else 0)
  else world_switch_bulk_goto_state_manual idx_vf (ws_hw_sched_mask w) AMDGV_SHUTDOWN_GPU.

(** The first VF that runs under the auto scheduler. *)
Fixpoint first_auto_run (l : list vf_entry) (i : Z) : option Z :=
  match l with
  | [] => None
  | e :: l' => if auto_run e then Some i else first_auto_run l' (i + 1)
  end.

Definition amdgv_hw_sched_state_run_auto (idx_vf h : Z) : MA Z :=
  gfx ← IS_HW_SCHED_TYPE_GFX h;
  if negb gfx then goto_state_call idx_vf h AMDGV_ENABLE_AUTO_HW_SWITCH else
  idx_vf ← gets (fun s => if idx_vf =? AMDGV_NO_VF
                          then default idx_vf (first_auto_run (array_vf s) 0) else idx_vf);
  n ← amdgv_sched_active_vf_num;
  cb ← ctrl h;
  if (n =? 1) && (cb_sched_mode cb =? AMDGV_SCHED_LIQUID_MODE) then
    goto_state_call idx_vf h AMDGV_RUN_GPU
  else if idx_vf =? AMDGV_NO_VF then goto_state_call AMDGV_PF_IDX h AMDGV_RUN_GPU
  else goto_state_call idx_vf h AMDGV_ENABLE_AUTO_HW_SWITCH.

(** ** Initialisation and live update *)

Definition AMDGV_WS_MODE_AUTO : Z := 2.

Definition amdgv_hw_sched_init : MA Z :=
  _ ← for_each (Z.of_nat <$> seq 0 (Z.to_nat AMDGV_MAX_NUM_HW_SCHED)) (fun h =>
    _ ← upd_machine h (fun m => m <| goto_state := Some (
          if mode m =? AMDGV_WS_MODE_AUTO then world_switch_goto_state_auto_ptr
          else world_switch_goto_state_manual_ptr) |>
          <| cur_gpu_state := AMDGV_SHUTDOWN_GPU |>);
    set_vf_state AMDGV_PF_IDX h AMDGV_SHUTDOWN_GPU);
  n ← gets (fun s => max_num_vf (config s));
  _ ← for_each (Z.of_nat <$> seq 0 (Z.to_nat n)) (fun i =>
    _ ← for_each (Z.of_nat <$> seq 0 (Z.to_nat AMDGV_MAX_NUM_HW_SCHED)) (fun h =>
      set_vf_state i h AMDGV_SHUTDOWN_GPU);
    e ← vf_entry_at i;
    modify (fun s => s <| array_vf := <[Z.to_nat i := e <| auto_run := false |> ]> (array_vf s) |>));
  mret 0.

(** struct amdgv_live_info_ws_state, one per scheduler. *)
Record live_info_ws_state := mk_live {
  li_cur_gpu_state : Z; li_cur_vf_id : Z; li_mode : Z }.
#[export] Instance eta_live : Eta live_info_ws_state := fun r =>
  mk_live (li_cur_gpu_state r) (li_cur_vf_id r) (li_mode r).

Definition AMDGV_LIVE_INFO_STATUS_SUCCESS : Z := 0.

(** The export writes the table entry by entry. *)
Fixpoint export_loop (ids : list nat) (ws_state : list live_info_ws_state)
    : MA (Z * list live_info_ws_state) :=
  match ids with
  | [] => mret (AMDGV_LIVE_INFO_STATUS_SUCCESS, ws_state)
  | h :: ids' =>
      m ← machine (Z.of_nat h);
      _ ← require (ws_state !! h);
      export_loop ids' (<[h := mk_live (cur_gpu_state m) (cur_vf_id m) (mode m)]> ws_state)
  end.
Definition amdgv_ws_state_export_live_data (ws_state : list live_info_ws_state) :
    MA (Z * list live_info_ws_state) :=
  n ← gets (fun s => num_ctrl_blocks (config s));
  export_loop (seq 0 (Z.to_nat n)) ws_state.

Definition amdgv_ws_state_import_live_data (ws_state : list live_info_ws_state) : MA Z :=
  n ← gets (fun s => num_ctrl_blocks (config s));
  _ ← for_each (seq 0 (Z.to_nat n)) (fun h =>
    l ← require (ws_state !! h);
    upd_machine (Z.of_nat h) (fun m => m <| cur_gpu_state := li_cur_gpu_state l |>
      <| cur_vf_id := li_cur_vf_id l |> <| mode := li_mode l |>));
  mret AMDGV_LIVE_INFO_STATUS_SUCCESS.
End ws_state.
