(* ===== verification/WsInv.v ===== *)
(** * World switch: views of the state and the commands' effect

    [vs_get]/[vs_set] read and write one entry of the table of VF states;
    [ws_shape] says the arrays have the sizes the C declares.  The lemmas
    [wp_*] give the effect of every command of Gpuiov.v: on success the VF is
    recorded in the commanded state, on failure the table is untouched, and
    nothing else the state machines read changes. *)
From S2P Require Import Prelude Api Mask Gpuiov WsState.
#[local] Open Scope Z_scope.

(** ** The table of VF states *)

Definition vs_get (l : list sched_vf_info) (vf h : Z) : option Z :=
  match l !! Z.to_nat vf with
  | Some v => cur_vf_state v !! Z.to_nat h
  | None => None
  end.
Definition vs_set (l : list sched_vf_info) (vf h st : Z) : list sched_vf_info :=
  match l !! Z.to_nat vf with
  | Some v => <[Z.to_nat vf := v <| cur_vf_state :=
                  <[Z.to_nat h := u8 st]> (cur_vf_state v) |> ]> l
  | None => l
  end.
Definition vs_susp (l : list sched_vf_info) (vf : Z) : bool :=
  match l !! Z.to_nat vf with
  | Some v => sv_state v =? AMDGV_SCHED_SUSPEND
  | None => false
  end.

Definition vs_shape (l : list sched_vf_info) : Prop :=
  length l = 32%nat /\ Forall (fun v => length (cur_vf_state v) = 32%nat) l.

Lemma vs_get_some l vf h :
  vs_shape l -> 0 <= vf < 32 -> 0 <= h < 32 -> is_Some (vs_get l vf h).
Proof.
  intros [Hl Hf] ??. unfold vs_get.
  destruct (lookup_lt_is_Some_2 l (Z.to_nat vf)) as [v Hv]; [lia|]. rewrite Hv.
  apply lookup_lt_is_Some_2. rewrite Forall_lookup in Hf. rewrite (Hf _ _ Hv). lia.
Qed.

Lemma vs_set_shape l vf h st : vs_shape l -> vs_shape (vs_set l vf h st).
Proof.
  intros [Hl Hf]. unfold vs_set. destruct (l !! _) as [v|] eqn:Hv; [|done]. split.
  - by rewrite length_insert.
  - apply Forall_insert; [done|]. cbn. rewrite length_insert.
    rewrite Forall_lookup in Hf. exact (Hf _ _ Hv).
Qed.

Lemma vs_get_set l vf h st vf' h' :
  vs_shape l -> 0 <= vf < 32 -> 0 <= h < 32 -> 0 <= vf' -> 0 <= h' ->
  vs_get (vs_set l vf h st) vf' h' =
  if decide (vf' = vf /\ h' = h) then Some (u8 st) else vs_get l vf' h'.
Proof.
  intros Hs Hvf Hh ??. destruct Hs as [Hl Hf]. unfold vs_set, vs_get.
  destruct (lookup_lt_is_Some_2 l (Z.to_nat vf)) as [v Hv]; [lia|]. rewrite Hv.
  assert (length (cur_vf_state v) = 32%nat) by (rewrite Forall_lookup in Hf; eauto).
  destruct (decide (vf' = vf)) as [->|Hne].
  - rewrite list_lookup_insert_eq by lia. cbn. rewrite Hv.
    destruct (decide (vf = vf /\ h' = h)) as [[_ ->]|Hn].
    + by rewrite list_lookup_insert_eq by lia.
    + rewrite list_lookup_insert_ne; [done|]. intros Heq. apply Hn. split; [done|lia].
  - rewrite list_lookup_insert_ne by lia. by destruct (decide _) as [[??]|].
Qed.

Lemma vs_susp_set l vf h st vf' : vs_susp (vs_set l vf h st) vf' = vs_susp l vf'.
Proof.
  unfold vs_susp, vs_set. destruct (l !! Z.to_nat vf) as [v|] eqn:Hv; [|done].
  destruct (decide (Z.to_nat vf' = Z.to_nat vf)) as [He|He].
  - rewrite He, list_lookup_insert_eq by (by eapply lookup_lt_Some). by rewrite Hv.
  - by rewrite list_lookup_insert_ne by done.
Qed.

Section inv.
Context {hw : Type} `{HW : WsHw hw}.
Implicit Types (s t : adapter hw).

Record ws_shape s : Prop := {
  sh_vfs : vs_shape (sched_vfs s);
  sh_machines : length (hw_state_machine s) = 32%nat;
  sh_ctrl : length (ctrl_blocks (config s)) = 32%nat;
}.

(** What a command leaves alone. *)
Record cmd_frame s t : Prop := {
  fr_config : config t = config s;
  fr_machines : hw_state_machine t = hw_state_machine s;
  fr_array : array_vf t = array_vf s;
  fr_perf : perf_log_enabled t = perf_log_enabled s;
}.

Lemma cmd_frame_refl s : cmd_frame s s.
Proof. done. Qed.
Lemma cmd_frame_trans s t u : cmd_frame s t -> cmd_frame t u -> cmd_frame s u.
Proof. intros [] []. split; congruence. Qed.

Lemma ws_shape_frame s t :
  cmd_frame s t -> vs_shape (sched_vfs t) -> ws_shape s -> ws_shape t.
Proof. intros [] ? []. split; congruence. Qed.

(** ** Rules for the accessors *)

Lemma wp_machine h m (Q : _ -> _ -> Prop) s :
  hw_state_machine s !! Z.to_nat h = Some m -> Q m s -> wp (machine h) Q s.
Proof. intros H ?. unfold wp, machine. rewrite H. done. Qed.

Lemma wp_get_vf_state vf h c (Q : _ -> _ -> Prop) s :
  vs_get (sched_vfs s) vf h = Some c -> Q c s -> wp (get_vf_state vf h) Q s.
Proof.
  unfold vs_get, wp, get_vf_state, vf_info, mbind, M_bind.
  destruct (sched_vfs s !! _) as [v|]; [|done]. cbn.
  by intros ->.
Qed.

Lemma wp_set_vf_state vf h st (Q : unit -> adapter hw -> Prop) s :
  is_Some (vs_get (sched_vfs s) vf h) ->
  Q tt (s <| sched_vfs := vs_set (sched_vfs s) vf h st |>) ->
  wp (set_vf_state vf h st) Q s.
Proof.
  unfold vs_get, vs_set, wp, set_vf_state, vf_info, mbind, M_bind.
  destruct (sched_vfs s !! _) as [v|] eqn:Hv; [|by intros [? ?]]. cbn.
  intros [c ->]. cbn. done.
Qed.

Lemma wp_is_suspend vf (Q : bool -> adapter hw -> Prop) s :
  is_Some (sched_vfs s !! Z.to_nat vf) ->
  Q (vs_susp (sched_vfs s) vf) s -> wp (is_suspend_vf vf) Q s.
Proof.
  unfold vs_susp, wp, is_suspend_vf, vf_info, mbind, M_bind. intros [v ->]. done.
Qed.

Lemma wp_upd_machine h f m (Q : unit -> adapter hw -> Prop) s :
  hw_state_machine s !! Z.to_nat h = Some m ->
  Q tt (s <| hw_state_machine := <[Z.to_nat h := f m]> (hw_state_machine s) |>) ->
  wp (upd_machine h f) Q s.
Proof. intros H ?. unfold wp, upd_machine, machine, mbind, M_bind. rewrite H. done. Qed.

Lemma wp_ctrl h (Q : ctrl_block -> adapter hw -> Prop) s :
  ws_shape s -> 0 <= h < 32 -> (forall cb, Q cb s) -> wp (ctrl h) Q s.
Proof.
  intros Hs ? HQ. destruct (lookup_lt_is_Some_2 (ctrl_blocks (config s)) (Z.to_nat h)) as [cb Hcb].
  { rewrite (sh_ctrl _ Hs). lia. }
  unfold wp, ctrl. rewrite Hcb. apply HQ.
Qed.

(** ** Effect of the commands *)

(** A device whose commands all complete in time. *)
Definition hw_completes : Prop := forall vf h d, fst (hw_wait_cmd_complete vf h d) = true.

Definition legacy_flr s : bool :=
  negb (Z.land (flags (config s)) AMDGV_FLAG_USE_LEGACY_FLR_SEQUENCE =? 0).

(** The table after a command that succeeded.  The legacy reset sequence has
    no SHUTDOWN: the call returns 0 without recording anything. *)
Definition after_cmd (legacy : bool) (l : list sched_vf_info) (cmd vf h : Z) :=
  if (cmd =? AMDGV_SHUTDOWN_GPU) && legacy then l else vs_set l vf h cmd.

Record cmd_effect (cmd vf h : Z) s (ret : Z) t : Prop := {
  ce_frame : cmd_frame s t;
  ce_cmds : cmds t = (cmd, h, vf) :: cmds s \/ (cmd = AMDGV_SHUTDOWN_GPU /\ cmds t = cmds s);
  ce_vfs :
    (ret = 0 /\ sched_vfs t = after_cmd (legacy_flr s) (sched_vfs s) cmd vf h)
    \/ (ret <> 0 /\ sched_vfs t = sched_vfs s /\ ~ hw_completes /\ cmds t = (cmd, h, vf) :: cmds s);
}.

Lemma wp_wait vf h (Q : Z -> adapter hw -> Prop) s :
  (forall d, Q 0 (s <| device := d |>)) ->
  (~ hw_completes -> forall d, Q AMDGV_FAILURE (s <| device := d |>)) ->
  wp (wait_cmd_complete vf h) Q s.
Proof.
  intros H0 H1. unfold wp, wait_cmd_complete, dev, mbind, M_bind.
  destruct (hw_wait_cmd_complete vf h (device s)) as [ok d] eqn:E. cbn.
  destruct ok; [apply H0|]. apply H1. intros Hok. specialize (Hok vf h (device s)).
  rewrite E in Hok. done.
Qed.

(** Only the logical engines' busy masks and the device change. *)
Record busy_frame s t : Prop := {
  bf_cmd : cmd_frame s t;
  bf_cmds : cmds t = cmds s;
  bf_vfs : sched_vfs t = sched_vfs s;
  bf_ws : length (world_switches t) = length (world_switches s);
}.

Lemma wp_dev {A} (f : hw -> A * hw) (Q : A -> adapter hw -> Prop) s :
  (forall a d, Q a (s <| device := d |>)) -> wp (dev f) Q s.
Proof. intros H. unfold wp, dev. destruct (f (device s)) as [a d]. apply H. Qed.

Lemma wp_upd_ws i f (Q : unit -> adapter hw -> Prop) s :
  (Z.to_nat i < length (world_switches s))%nat ->
  (forall w, Q tt (s <| world_switches := <[Z.to_nat i := f w]> (world_switches s) |>)) ->
  wp (upd_ws i f) Q s.
Proof.
  intros Hi HQ. destruct (lookup_lt_is_Some_2 _ _ Hi) as [w Hw].
  unfold wp, upd_ws, ws_at, mbind, M_bind. rewrite Hw. apply HQ.
Qed.

Lemma wp_busy s0 (Q : Z -> adapter hw -> Prop) s :
  busy_frame s0 s ->
  (forall t, busy_frame s0 t -> Q 0 t) -> wp amdgv_gpuiov_update_vf_busy_status Q s.
Proof.
  intros Hs HQ. unfold amdgv_gpuiov_update_vf_busy_status.
  wp_step. wp_step. destruct (has_busy_status (config s)); cbn [negb]; [|by apply HQ].
  wp_step. wp_step. wp_step. eapply wp_mono.
  - apply (wp_for_each (busy_frame s0)); [|done].
    intros i t Hin Ht. apply list_elem_of_fmap in Hin as (k & -> & Hk%elem_of_seq).
    assert (k < length (world_switches t))%nat as Hlt.
    { destruct Ht, Hs. congruence || lia. }
    wp_step. destruct (lookup_lt_is_Some_2 _ _ Hlt) as [w Hw].
    apply (wp_intro _ w t t); [unfold ws_at; rewrite Nat2Z.id, Hw; done|].
    destruct (negb _); [done|].
    wp_step. apply wp_upd_ws; [by rewrite Nat2Z.id|]. intros w'.
    apply (wp_for_each (busy_frame s0)).
    + intros h u _ Hu. wp_step. apply wp_dev. intros b d.
      apply wp_upd_ws; [rewrite Nat2Z.id; cbn; destruct Hu, Ht; congruence || lia|].
      intros w''. destruct Hu as [[] ???]. split; [split|..]; cbn; try done.
      by rewrite length_insert.
    + destruct Ht as [[] ???]. split; [split|..]; cbn; try done. by rewrite length_insert.
  - intros [] t Ht. wp_step. by apply HQ.
Qed.

Section command_rules.
Variables (vf h : Z) (s : adapter hw).
Hypotheses (Hs : ws_shape s) (Hvf : 0 <= vf < 32) (Hh : 0 <= h < 32).

Lemma table_entry : is_Some (vs_get (sched_vfs s) vf h).
Proof using Hs Hvf Hh. apply vs_get_some; [apply Hs|lia|lia]. Qed.

Lemma effect_failed cmd d :
  ~ hw_completes ->
  cmd_effect cmd vf h s AMDGV_FAILURE
    (s <| cmds := (cmd, h, vf) :: cmds s |> <| device := hw_set_cmd cmd h vf (device s) |>
       <| device := d |>).
Proof using. intros. split; [done|by left|right; by split_and!]. Qed.

Lemma effect_done cmd d :
  (cmd =? AMDGV_SHUTDOWN_GPU) && legacy_flr s = false ->
  cmd_effect cmd vf h s 0
    (s <| cmds := (cmd, h, vf) :: cmds s |> <| device := hw_set_cmd cmd h vf (device s) |>
       <| device := d |> <| sched_vfs := vs_set (sched_vfs s) vf h cmd |>).
Proof using.
  intros He. split; [done|by left|left]. split; [done|]. unfold after_cmd. by rewrite He.
Qed.

(** The commands that test the wait's result and then record the state. *)
Ltac solve_cmd :=
  repeat wp_step; unfold set_cmd; repeat wp_step;
  apply wp_wait; [intros d|intros Hno d];
  [change (0 =? AMDGV_FAILURE) with false; change (0 =? 0) with true; cbn [negb]
  |change (AMDGV_FAILURE =? AMDGV_FAILURE) with true; change (AMDGV_FAILURE =? 0) with false;
   cbn [negb when]; repeat wp_step; by apply effect_failed];
  try (replace (AMDGV_MAX_VF_SLOT <=? vf) with false
         by (symmetry; apply Z.leb_gt; unfold AMDGV_MAX_VF_SLOT; lia));
  cbn [when]; wp_step; apply wp_set_vf_state; [by apply table_entry|];
  repeat wp_step; try (apply effect_done; reflexivity).

Lemma wp_init_vf : wp (amdgv_gpuiov_init_vf vf h) (cmd_effect AMDGV_INIT_GPU vf h s) s.
Proof using Hs Hvf Hh. unfold amdgv_gpuiov_init_vf, amdgv_gpuiov_init_vf_no_wait. solve_cmd. Qed.

Lemma wp_load_vf : wp (amdgv_gpuiov_load_vf vf h) (cmd_effect AMDGV_LOAD_GPU_STATE vf h s) s.
Proof using Hs Hvf Hh. unfold amdgv_gpuiov_load_vf, amdgv_gpuiov_load_vf_no_wait. solve_cmd. Qed.

Lemma wp_save_vf : wp (amdgv_gpuiov_save_vf vf h) (cmd_effect AMDGV_SAVE_GPU_STATE vf h s) s.
Proof using Hs Hvf Hh. unfold amdgv_gpuiov_save_vf, amdgv_gpuiov_save_vf_no_wait. solve_cmd. Qed.

Lemma wp_run_vf : wp (amdgv_gpuiov_run_vf vf h) (cmd_effect AMDGV_RUN_GPU vf h s) s.
Proof using Hs Hvf Hh. unfold amdgv_gpuiov_run_vf, amdgv_gpuiov_run_vf_no_wait. solve_cmd. Qed.

Lemma wp_idle_vf : wp (amdgv_gpuiov_idle_vf vf h) (cmd_effect AMDGV_IDLE_GPU vf h s) s.
Proof using Hs Hvf Hh.
  unfold amdgv_gpuiov_idle_vf, amdgv_gpuiov_idle_vf_no_wait.
  solve_cmd. eapply wp_ctrl; [|exact Hh|].
  { eapply ws_shape_frame; [..|exact Hs]; [done|]. apply vs_set_shape, Hs. }
  intros cb. wp_step. destruct (_ =? _).
  - eapply wp_busy; [done|]. intros t [Hf Hc Hv _]. wp_step. split.
    + eapply cmd_frame_trans; [|exact Hf]. done.
    + left. by rewrite Hc.
    + left. split; [done|]. by rewrite Hv.
  - repeat wp_step. by apply effect_done.
Qed.

Lemma wp_takes_shutdown (Q : bool -> adapter hw -> Prop) :
  (forall b, Q b s) -> wp (takes_shutdown h) Q s.
Proof using Hs Hh.
  intros HQ. unfold takes_shutdown, IS_HW_SCHED_TYPE_GFX, IS_HW_SCHED_TYPE_MM.
  wp_step. wp_step. apply wp_ctrl; [done|done|intros ?].
  wp_step. wp_step. wp_step. apply wp_ctrl; [done|done|intros ?].
  repeat wp_step. apply HQ.
Qed.

Lemma wp_shutdown_vf : wp (amdgv_gpuiov_shutdown_vf vf h) (cmd_effect AMDGV_SHUTDOWN_GPU vf h s) s.
Proof using Hs Hvf Hh.
  unfold amdgv_gpuiov_shutdown_vf, has_flag. wp_step. wp_step.
  fold (legacy_flr s). destruct (legacy_flr s) eqn:Hl.
  - wp_step. split; [done|right; done|left; split; [done|]]. unfold after_cmd. by rewrite Hl.
  - wp_step. apply wp_takes_shutdown. intros []; wp_step.
    + unfold set_cmd. wp_step. wp_step. apply wp_wait; [intros d|intros Hno d].
      * cbn. wp_step. apply wp_set_vf_state; [by apply table_entry|].
        repeat wp_step. by apply effect_done.
      * cbn. repeat wp_step. by apply effect_failed.
    + wp_step. cbn. wp_step. apply wp_set_vf_state; [by apply table_entry|].
      repeat wp_step. split; [done|right; done|left; split; [done|]].
      unfold after_cmd. by rewrite Hl.
Qed.
End command_rules.
End inv.
