(* ===== verification/WsManual.v ===== *)
(** * World switch: the manual machine reaches its target

    The manual machine's decisions depend on six facts only ([wsabs]): the
    state of the engine, whether the engine is on the target VF, the recorded
    states of the target and of the current VF, whether the target is
    suspended and the reset sequence in use.  On this finite machine the
    progress measure [rank] (the number of commands still to send) and the
    legality of every command are checked by computation; [wp_manual_loop]
    lifts the result to the code. *)
From S2P Require Import Prelude Api Mask Gpuiov WsState WsInv.
#[local] Open Scope Z_scope.

(** ** The finite machine *)

Definition ws_states : list Z :=
  [AMDGV_IDLE_GPU; AMDGV_SAVE_GPU_STATE; AMDGV_LOAD_GPU_STATE; AMDGV_RUN_GPU;
   AMDGV_INIT_GPU; AMDGV_SHUTDOWN_GPU].

(** The states callers ask for ([amdgv_hw_sched_state_run] and the other entry
    points). *)
Definition ws_targets : list Z :=
  [AMDGV_IDLE_GPU; AMDGV_SAVE_GPU_STATE; AMDGV_LOAD_GPU_STATE; AMDGV_RUN_GPU;
   AMDGV_SHUTDOWN_GPU].

Definition mem (x : Z) (l : list Z) : bool := existsb (Z.eqb x) l.
Lemma mem_true x l : mem x l = true <-> In x l.
Proof.
  unfold mem. rewrite existsb_exists. split.
  - by intros (y & Hy & ->%Z.eqb_eq).
  - intros H. exists x. split; [done|apply Z.eqb_refl].
Qed.

(** VFs that do not own the engine are saved or shut down. *)
Definition parked (c : Z) : bool := (c =? AMDGV_SAVE_GPU_STATE) || (c =? AMDGV_SHUTDOWN_GPU).

Record wsabs := mk_wsabs {
  a_st : Z; a_same : bool; a_tv : Z; a_cv : Z; a_susp : bool; a_legacy : bool }.

(** The owner's recorded state is the engine's; after a legacy shutdown it is
    still SAVE. *)
Definition owner_ok (st c : Z) : bool :=
  mem st ws_states &&
  ((c =? st) || (st =? AMDGV_SHUTDOWN_GPU) && (c =? AMDGV_SAVE_GPU_STATE)).

Definition abs_ok (tgt : Z) (a : wsabs) : bool :=
  owner_ok (a_st a) (a_cv a) &&
  (if a_same a then a_tv a =? a_cv a else parked (a_tv a)) &&
  implb (negb (a_same a) && a_susp a && (tgt =? AMDGV_SHUTDOWN_GPU))
        (a_tv a =? AMDGV_SAVE_GPU_STATE).

(** The next state, and whether it is a state of the target VF. *)
Definition abs_next (tgt : Z) (a : wsabs) : Z * bool :=
  let shutdown_gpu :=
    ((if (tgt =? AMDGV_SHUTDOWN_GPU) && negb (a_same a) && (a_tv a =? AMDGV_SAVE_GPU_STATE)
      then AMDGV_SHUTDOWN_GPU
      else if a_tv a =? AMDGV_SAVE_GPU_STATE then AMDGV_LOAD_GPU_STATE
      else AMDGV_INIT_GPU), true) in
  if a_st a =? AMDGV_IDLE_GPU then (AMDGV_SAVE_GPU_STATE, a_same a)
  else if a_st a =? AMDGV_SAVE_GPU_STATE then
    if (tgt =? AMDGV_SHUTDOWN_GPU) && a_same a then (AMDGV_SHUTDOWN_GPU, a_same a)
    else if (tgt =? AMDGV_SHUTDOWN_GPU) && negb (a_same a) then
      if a_susp a then (AMDGV_SHUTDOWN_GPU, true) else shutdown_gpu
    else shutdown_gpu
  else if a_st a =? AMDGV_SHUTDOWN_GPU then shutdown_gpu
  else if (a_st a =? AMDGV_LOAD_GPU_STATE) || (a_st a =? AMDGV_INIT_GPU) then
    (AMDGV_RUN_GPU, a_same a)
  else (AMDGV_IDLE_GPU, a_same a).

Definition abs_step (tgt : Z) (a : wsabs) : wsabs :=
  let '(n, ns) := abs_next tgt a in
  let tv := if ns then (if (n =? AMDGV_SHUTDOWN_GPU) && a_legacy a then a_tv a else n)
            else a_tv a in
  mk_wsabs n ns tv (if ns then tv else n) (a_susp a) (a_legacy a).

Definition abs_at (tgt : Z) (a : wsabs) : bool := (a_st a =? tgt) && a_same a.

Fixpoint abs_rank (fuel : nat) (tgt : Z) (a : wsabs) : nat :=
  match fuel with
  | O => O
  | S fuel' => if abs_at tgt a then O else S (abs_rank fuel' tgt (abs_step tgt a))
  end.

(** Eight commands are enough from anywhere. *)
Definition rank (tgt : Z) (a : wsabs) : nat := abs_rank 12 tgt a.

(** What one round must satisfy. *)
Definition round_ok (tgt : Z) (a : wsabs) : bool :=
  let '(n, ns) := abs_next tgt a in
  let a' := abs_step tgt a in
  implb (abs_ok tgt a && negb (abs_at tgt a))
    ((transition_ret (if ns then a_tv a else a_cv a) n =? 0)
     && abs_ok tgt a'
     && (rank tgt a' <? rank tgt a)%nat
     && (rank tgt a <=? 8)%nat
     && mem n ws_states
     && implb (negb (a_same a) && ns) (parked (a_cv a))
     && implb (a_same a) ns
     && implb (n =? AMDGV_SHUTDOWN_GPU) (ns && (rank tgt a' =? 0)%nat)).

Definition all_abs : list wsabs :=
  flat_map (fun st => flat_map (fun same => flat_map (fun tv => flat_map (fun cv =>
    flat_map (fun susp => map (fun leg => mk_wsabs st same tv cv susp leg) [true; false])
      [true; false]) ws_states) ws_states) [true; false]) ws_states.

Lemma all_rounds_ok : forallb (fun tgt => forallb (round_ok tgt) all_abs) ws_targets = true.
Proof. vm_compute. reflexivity. Qed.

Lemma in_flat_map_intro {A B} (x : A) (f : A -> list B) l y :
  In x l -> In y (f x) -> In y (flat_map f l).
Proof. intros. apply in_flat_map. eauto. Qed.

Lemma all_abs_complete tgt a : abs_ok tgt a = true -> In a all_abs.
Proof.
  destruct a as [st same tv cv susp leg]. unfold abs_ok, owner_ok. intros H. cbn in H. zb.
  assert (In st ws_states) by (by apply mem_true).
  assert (In cv ws_states) as Hcv.
  { match goal with H : _ || _ = true |- _ => apply orb_true_iff in H as [?|?] end; zb; subst;
      [done|]. vm_compute. tauto. }
  assert (In tv ws_states).
  { destruct same; zb; [by subst|].
    match goal with H : parked _ = true |- _ => apply orb_true_iff in H as [?|?] end; zb; subst;
      vm_compute; tauto. }
  assert (forall b, In b [true; false]) as Hb by (intros []; cbn; auto).
  unfold all_abs.
  apply (in_flat_map_intro st); [done|]. apply (in_flat_map_intro same); [apply Hb|].
  apply (in_flat_map_intro tv); [done|]. apply (in_flat_map_intro cv); [done|].
  apply (in_flat_map_intro susp); [apply Hb|].
  exact (in_map (fun leg => mk_wsabs st same tv cv susp leg) _ _ (Hb leg)).
Qed.

Lemma implb_true (a b : bool) : implb a b = true -> a = true -> b = true.
Proof. by destruct a. Qed.

Lemma round_facts tgt a n ns :
  In tgt ws_targets -> abs_ok tgt a = true -> abs_at tgt a = false -> abs_next tgt a = (n, ns) ->
  (transition_ret (if ns then a_tv a else a_cv a) n = 0 /\ In n ws_states) /\
  (abs_ok tgt (abs_step tgt a) = true /\ (rank tgt (abs_step tgt a) < rank tgt a <= 8)%nat) /\
  ((a_same a = false -> ns = true -> parked (a_cv a) = true) /\ (a_same a = true -> ns = true)) /\
  (n = AMDGV_SHUTDOWN_GPU -> ns = true /\ rank tgt (abs_step tgt a) = 0%nat).
Proof.
  intros Ht Ha Hat Hn. pose proof all_rounds_ok as H. rewrite forallb_forall in H.
  specialize (H _ Ht). rewrite forallb_forall in H.
  specialize (H _ (all_abs_complete _ _ Ha)). unfold round_ok in H. rewrite Hn, Ha, Hat in H.
  remember (rank tgt (abs_step tgt a)) as r'. remember (rank tgt a) as r.
  apply (fun E => implb_true _ _ E eq_refl), andb_true_iff in H as [H H8].
  apply andb_true_iff in H as [H H7]. apply andb_true_iff in H as [H H6].
  apply andb_true_iff in H as [H H5]. apply andb_true_iff in H as [H H4].
  apply andb_true_iff in H as [H H3]. apply andb_true_iff in H as [H1 H2].
  apply Z.eqb_eq in H1. apply Nat.ltb_lt in H3. apply Nat.leb_le in H4. apply mem_true in H5.
  split_and!; try done.
  - intros Hs Hns. apply (implb_true _ _ H6). by rewrite Hs, Hns.
  - intros Hs. by apply (implb_true _ _ H7).
  - intros E%Z.eqb_eq. by apply (implb_true _ _ H8), andb_true_iff in E as [? ?%Nat.eqb_eq].
Qed.

Lemma rank_le_8 tgt a : In tgt ws_targets -> abs_ok tgt a = true -> (rank tgt a <= 8)%nat.
Proof.
  intros Ht Ha. destruct (abs_at tgt a) eqn:Hat.
  - unfold rank. cbn [abs_rank]. rewrite Hat. lia.
  - destruct (abs_next tgt a) as [n ns] eqn:Hnext.
    by destruct (round_facts _ _ _ _ Ht Ha Hat Hnext) as (_ & [_ [_ ?]] & _).
Qed.

(** ** The code *)

Section manual.
Context {hw : Type} `{HW : WsHw hw}.
Implicit Types (s t : adapter hw).

(** The VFs of the device: the enabled ones and the physical function. *)
Definition vf_present s (v : Z) : Prop := 0 <= v < max_num_vf (config s) \/ v = AMDGV_PF_IDX.

(** The scheduler [h] is consistent: its engine belongs to one VF whose
    recorded state is the engine's, and every other VF is parked. *)
Record sched_inv (h : Z) s : Prop := {
  si_shape : ws_shape s;
  si_h : 0 <= h < 32;
  si_max : max_num_vf (config s) <= AMDGV_PF_IDX;
  si_machine : exists m c,
    hw_state_machine s !! Z.to_nat h = Some m /\ 0 <= cur_vf_id m < 32 /\
    vs_get (sched_vfs s) (cur_vf_id m) h = Some c /\ owner_ok (cur_gpu_state m) c = true /\
    (forall v c, vf_present s v -> v <> cur_vf_id m ->
       vs_get (sched_vfs s) v h = Some c -> parked c = true);
}.

(** A suspended VF was saved when it was suspended. *)
Definition suspend_saved (h v : Z) s : Prop :=
  vs_susp (sched_vfs s) v = true -> vs_get (sched_vfs s) v h = Some AMDGV_SAVE_GPU_STATE.

Definition abs_of (leg : bool) (target_vf h : Z) (m : world_switch_state) s : wsabs :=
  mk_wsabs (cur_gpu_state m) (cur_vf_id m =? target_vf)
    (default 0 (vs_get (sched_vfs s) target_vf h))
    (default 0 (vs_get (sched_vfs s) (cur_vf_id m) h))
    (vs_susp (sched_vfs s) target_vf) leg.

Definition on_target (target_vf h tgt : Z) s : Prop :=
  exists m, hw_state_machine s !! Z.to_nat h = Some m /\
            cur_gpu_state m = tgt /\ cur_vf_id m = target_vf.

(** Everything but scheduler [h] (its machine's state and VF, its column of
    the VF table) stays; the locks and the other fields of [h]'s machine
    too. *)
Record goto_frame (h : Z) s t : Prop := {
  gf_config : config t = config s;
  gf_array : array_vf t = array_vf s;
  gf_perf : perf_log_enabled t = perf_log_enabled s;
  gf_others : forall i, i <> Z.to_nat h -> hw_state_machine t !! i = hw_state_machine s !! i;
  gf_machine : forall m, hw_state_machine s !! Z.to_nat h = Some m ->
     exists m', hw_state_machine t !! Z.to_nat h = Some m' /\
       ws_locked m' = ws_locked m /\ mode m' = mode m /\ goto_state m' = goto_state m;
  gf_vfs : forall v h', 0 <= v -> 0 <= h' -> h' <> h ->
     vs_get (sched_vfs t) v h' = vs_get (sched_vfs s) v h';
  gf_susp : forall v, vs_susp (sched_vfs t) v = vs_susp (sched_vfs s) v;
}.

(** The commands [l], in order, are transitions the table of
    [check_state_transition] allows from the VF states [tbl]. *)
Fixpoint legal (h : Z) (tbl : list sched_vf_info) (l : list (Z * Z * Z)) : Prop :=
  match l with
  | [] => True
  | (c, h', v) :: l' =>
      h' = h /\ (exists cur, vs_get tbl v h = Some cur /\ transition_ret cur c = 0) /\
      legal h (vs_set tbl v h c) l'
  end.

(** The error code of each command that runs out of time. *)
Definition ws_timeouts : list (Z * Z) :=
  [(AMDGV_IDLE_GPU, AMDGV_LOG_IOV_WS_IDLE_TIMEOUT); (AMDGV_RUN_GPU, AMDGV_LOG_IOV_WS_RUN_TIMEOUT);
   (AMDGV_SAVE_GPU_STATE, AMDGV_LOG_IOV_WS_SAVE_TIMEOUT); (AMDGV_LOAD_GPU_STATE, AMDGV_LOG_IOV_WS_LOAD_TIMEOUT);
   (AMDGV_INIT_GPU, AMDGV_LOG_IOV_WS_LOAD_TIMEOUT); (AMDGV_SHUTDOWN_GPU, AMDGV_LOG_IOV_WS_SHUTDOWN_TIMEOUT)].

(** The last command sent after [s] is the one that failed, and the result is
    its code. *)
Definition timed_out (h : Z) s (ret : Z) t : Prop :=
  (exists c v l, cmds t = (c, h, v) :: l ++ cmds s /\ In (c, ret) ws_timeouts) /\ ~ hw_completes.
Lemma timeout_nonzero c ret : In (c, ret) ws_timeouts -> ret <> 0.
Proof. intros H ->. repeat destruct H as [H|H]; try discriminate H; destruct H. Qed.

(** What a walk of the manual machine guarantees, with [n] a bound on the
    commands it may send. *)
Record walk_post (target_vf h tgt : Z) (n : nat) s (ret : Z) t : Prop := {
  wk_inv : sched_inv h t;
  wk_frame : goto_frame h s t;
  wk_cmds : exists l, cmds t = rev l ++ cmds s /\ (length l <= n)%nat /\ legal h (sched_vfs s) l;
  wk_ret : (ret = 0 /\ on_target target_vf h tgt t) \/ timed_out h s ret t;
}.

(** ** One round *)

Lemma u8_state st : In st ws_states -> u8 st = st.
Proof. intros H. repeat destruct H as [<-|H]; try reflexivity. destruct H. Qed.

Lemma goto_frame_refl h s : goto_frame h s s.
Proof. split; try done. eauto 10. Qed.

Lemma goto_frame_trans h s t u : goto_frame h s t -> goto_frame h t u -> goto_frame h s u.
Proof.
  intros [? ? ? Ho Hm Hv Hsu] [? ? ? Ho' Hm' Hv' Hsu']. split; try congruence.
  - intros i ?. rewrite Ho', Ho; auto.
  - intros m Em. destruct (Hm m Em) as (m1 & E1 & ?&?&?).
    destruct (Hm' m1 E1) as (m2 & E2 & ?&?&?). exists m2. split_and!; congruence.
  - intros v h' ???. rewrite Hv', Hv; auto.
Qed.

(** The second [switch] dispatches to the command. *)
Lemma wp_manual_command st vf h s :
  ws_shape s -> 0 <= vf < 32 -> 0 <= h < 32 -> In st ws_states ->
  wp (manual_command h st vf)
     (fun ret t => exists r, cmd_effect st vf h s r t /\
        ((r = 0 /\ ret = 0) \/ (r <> 0 /\ In (st, ret) ws_timeouts))) s.
Proof.
  intros Hs Hvf Hh Hst. unfold manual_command.
  assert (forall code m cmd, In (cmd, code) ws_timeouts -> wp m (cmd_effect cmd vf h s) s ->
    wp (or_code code m) (fun ret t => exists r, cmd_effect cmd vf h s r t /\
      ((r = 0 /\ ret = 0) \/ (r <> 0 /\ In (cmd, ret) ws_timeouts))) s) as Hor.
  { intros code m cmd Hc Hm. unfold or_code. wp_step. eapply wp_mono; [exact Hm|].
    intros r t Hr. wp_step. exists r. split; [done|]. destruct (Z.eqb_spec r 0); auto. }
  repeat destruct Hst as [<-|Hst]; try done; cbn [Z.eqb AMDGV_IDLE_GPU AMDGV_RUN_GPU
    AMDGV_SAVE_GPU_STATE AMDGV_INIT_GPU AMDGV_LOAD_GPU_STATE AMDGV_SHUTDOWN_GPU Pos.eqb];
  apply Hor; try (unfold ws_timeouts; cbn; tauto).
  - by apply wp_idle_vf.
  - by apply wp_save_vf.
  - by apply wp_load_vf.
  - by apply wp_run_vf.
  - by apply wp_init_vf.
  - by apply wp_shutdown_vf.
Qed.

(** The first [switch] follows the finite machine. *)
Lemma wp_manual_decide leg target_vf h tgt m s (Q : option (Z * Z) -> adapter hw -> Prop) :
  ws_shape s -> 0 <= target_vf < 32 -> 0 <= h < 32 -> In (cur_gpu_state m) ws_states ->
  (let '(n, ns) := abs_next tgt (abs_of leg target_vf h m s) in
   Q (Some (n, if ns : bool then target_vf else cur_vf_id m)) s) ->
  wp (manual_decide h target_vf tgt (cur_gpu_state m) (cur_vf_id m)) Q s.
Proof.
  intros Hs Hv Hh Hst HQ.
  destruct (vs_get_some (sched_vfs s) target_vf h) as [tv Htv]; [apply Hs|lia|lia|].
  assert (is_Some (sched_vfs s !! Z.to_nat target_vf)) as Hsome.
  { unfold vs_get in Htv. destruct (_ !! _); [by eexists|done]. }
  unfold manual_decide. unfold abs_next, abs_of in HQ. cbn [a_st a_same a_tv a_cv a_susp] in HQ.
  rewrite Htv in HQ. cbn [default] in HQ.
  assert (forall b, (cur_vf_id m =? target_vf) = b -> (if b then target_vf else cur_vf_id m) = cur_vf_id m) as Heq.
  { intros [] He; [|done]. by apply Z.eqb_eq in He. }
  destruct (cur_gpu_state m =? AMDGV_IDLE_GPU) eqn:E1; [wp_step; by rewrite (Heq _ eq_refl) in HQ|].
  destruct (cur_gpu_state m =? AMDGV_SAVE_GPU_STATE) eqn:E2.
  - destruct (tgt =? AMDGV_SHUTDOWN_GPU); cbn [andb] in *.
    + destruct (cur_vf_id m =? target_vf) eqn:He; cbn [negb andb] in *.
      * wp_step. by rewrite (Heq true eq_refl) in HQ.
      * wp_step. apply wp_is_suspend; [done|]. destruct (vs_susp _ _); [by wp_step|].
        wp_step. eapply wp_get_vf_state; [exact Htv|]. by wp_step.
    + wp_step. eapply wp_get_vf_state; [exact Htv|]. by wp_step.
  - destruct (cur_gpu_state m =? AMDGV_SHUTDOWN_GPU) eqn:E3.
    { wp_step. eapply wp_get_vf_state; [exact Htv|]. by wp_step. }
    destruct (_ || _) eqn:E4; [wp_step; by rewrite (Heq _ eq_refl) in HQ|].
    destruct (cur_gpu_state m =? AMDGV_RUN_GPU) eqn:E5; [wp_step; by rewrite (Heq _ eq_refl) in HQ|].
    zb. exfalso. repeat destruct Hst as [Hst|Hst]; try done; congruence.
Qed.

(** The two copies of the decision agree, failures included. *)
Lemma next_state_manual h target_vf tgt cur_state cur_vf s :
  world_switch_get_next_state h target_vf tgt cur_state cur_vf s =
  match manual_decide h target_vf tgt cur_state cur_vf s with
  | Ret (Some next, t) => Ret ((0, Some next), t)
  | Ret (None, t) => Ret ((AMDGV_FAILURE, None), t)
  | Fault => Fault
  end.
Proof.
  unfold world_switch_get_next_state, manual_decide, get_vf_state, is_suspend_vf, vf_info,
    mbind, M_bind.
  destruct (cur_state =? AMDGV_IDLE_GPU); [done|].
  destruct (sched_vfs s !! Z.to_nat target_vf) as [v|] eqn:Ev;
    [destruct (cur_vf_state v !! Z.to_nat h) eqn:Ec|];
    repeat (cbn; rewrite ?Ev; cbn; rewrite ?Ec; cbn;
            try match goal with |- context [if ?b then _ else _] => destruct b end); done.
Qed.
Lemma after_cmd_get leg l n v h v' h' :
  vs_shape l -> 0 <= v < 32 -> 0 <= h < 32 -> 0 <= v' -> 0 <= h' -> In n ws_states ->
  vs_get (after_cmd leg l n v h) v' h' =
  if decide (v' = v /\ h' = h) then
    if (n =? AMDGV_SHUTDOWN_GPU) && leg then vs_get l v' h' else Some n
  else vs_get l v' h'.
Proof.
  intros Hl Hv Hh ?? Hn. unfold after_cmd. destruct (_ && _); [by destruct (decide _)|].
  rewrite vs_get_set by (done || lia). by rewrite u8_state.
Qed.

Lemma after_cmd_shape leg l n v h : vs_shape l -> vs_shape (after_cmd leg l n v h).
Proof. intros. unfold after_cmd. destruct (_ && _); [done|]. by apply vs_set_shape. Qed.

Lemma after_cmd_susp leg l n v h v' : vs_susp (after_cmd leg l n v h) v' = vs_susp l v'.
Proof. unfold after_cmd. destruct (_ && _); [done|]. apply vs_susp_set. Qed.

(** The state after a command that succeeded and the machine's update. *)
Lemma abs_of_step leg target_vf h tgt m s t n ns :
  ws_shape s -> 0 <= h < 32 -> 0 <= target_vf < 32 -> 0 <= cur_vf_id m < 32 ->
  In n ws_states -> abs_next tgt (abs_of leg target_vf h m s) = (n, ns) ->
  implb (cur_vf_id m =? target_vf) ns = true ->
  config t = config s ->
  sched_vfs t = after_cmd leg (sched_vfs s) n (if ns then target_vf else cur_vf_id m) h ->
  n <> AMDGV_SHUTDOWN_GPU \/ ns = true ->
  abs_of leg target_vf h (m <| cur_gpu_state := n |>
     <| cur_vf_id := if ns then target_vf else cur_vf_id m |>) t
  = abs_step tgt (abs_of leg target_vf h m s).
Proof.
  intros Hs Hh Ht Hc Hn Hnext Himp Hcfg Hvfs Hsd. unfold abs_step. rewrite Hnext.
  unfold abs_of. cbn [cur_gpu_state cur_vf_id upd a_tv a_legacy a_susp a_cv].
  rewrite Hvfs, after_cmd_susp.
  rewrite !after_cmd_get by (try done; try apply Hs; destruct ns; lia).
  destruct ns; cbn.
  - rewrite Z.eqb_refl, decide_True by done.
    destruct (_ && _); cbn; reflexivity.
  - destruct (Z.eqb_spec (cur_vf_id m) target_vf) as [He|He]; [done|].
    rewrite decide_False by (intros [? _]; congruence). rewrite decide_True by done.
    destruct (Z.eqb_spec n AMDGV_SHUTDOWN_GPU) as [->|]; [by destruct Hsd|]. done.
Qed.

Lemma sched_inv_abs leg target_vf h tgt m s :
  sched_inv h s -> hw_state_machine s !! Z.to_nat h = Some m ->
  vf_present s target_vf -> (tgt = AMDGV_SHUTDOWN_GPU -> suspend_saved h target_vf s) ->
  abs_ok tgt (abs_of leg target_vf h m s) = true.
Proof.
  intros [Hs Hh Hmax (m' & c & Hm' & Hcv & Hc & Hok & Hoth)] Hm Hp Hsus.
  assert (m' = m) as -> by congruence.
  unfold abs_ok, abs_of. cbn. rewrite Hc. cbn. rewrite Hok. cbn.
  assert (0 <= target_vf < 32) as Ht.
  { unfold AMDGV_PF_IDX in *. destruct Hp as [?|Hp]; [lia|rewrite Hp; unfold AMDGV_PF_IDX; lia]. }
  destruct (vs_get_some (sched_vfs s) target_vf h) as [tv Htv]; [apply Hs|lia|lia|].
  rewrite Htv. cbn.
  destruct (Z.eqb_spec (cur_vf_id m) target_vf) as [He|He]; cbn.
  - rewrite He, Htv in Hc. injection Hc as ->. by rewrite Z.eqb_refl.
  - rewrite (Hoth target_vf tv) by (done || congruence). cbn.
    destruct (vs_susp _ _) eqn:Es; [|done]. cbn.
    destruct (Z.eqb_spec tgt AMDGV_SHUTDOWN_GPU) as [Eq|]; [|done]. cbn.
    specialize (Hsus Eq Es). rewrite Htv in Hsus. by injection Hsus as ->.
Qed.

Lemma present_range s v : max_num_vf (config s) <= AMDGV_PF_IDX -> vf_present s v -> 0 <= v < 32.
Proof. unfold vf_present, AMDGV_PF_IDX. lia. Qed.

(** What a round guarantees. *)
Record round_post (leg : bool) (target_vf h tgt : Z) (m : world_switch_state) s (ret : Z) t : Prop := {
  rp_inv : sched_inv h t;
  rp_frame : goto_frame h s t;
  rp_cmds : exists n v cur, vs_get (sched_vfs s) v h = Some cur /\ transition_ret cur n = 0 /\
     0 <= v /\
     (cmds t = (n, h, v) :: cmds s \/ (n = AMDGV_SHUTDOWN_GPU /\ cmds t = cmds s)) /\
     (ret = 0 -> sched_vfs t = after_cmd leg (sched_vfs s) n v h /\
        (n = AMDGV_SHUTDOWN_GPU -> rank tgt (abs_step tgt (abs_of leg target_vf h m s)) = 0%nat));
  rp_ret :
    (ret = 0 /\ exists m', hw_state_machine t !! Z.to_nat h = Some m' /\
       abs_of leg target_vf h m' t = abs_step tgt (abs_of leg target_vf h m s)) \/
    timed_out h s ret t;
}.

(** The invariant after a command that succeeded. *)
Lemma sched_inv_step leg target_vf h m c s t n ns :
  let nvf := if ns : bool then target_vf else cur_vf_id m in
  sched_inv h s -> hw_state_machine s !! Z.to_nat h = Some m ->
  vs_get (sched_vfs s) (cur_vf_id m) h = Some c ->
  0 <= nvf < 32 -> In n ws_states ->
  (nvf <> cur_vf_id m -> parked c = true) ->
  config t = config s ->
  sched_vfs t = after_cmd leg (sched_vfs s) n nvf h ->
  hw_state_machine t =
    <[Z.to_nat h := m <| cur_gpu_state := n |> <| cur_vf_id := nvf |> ]> (hw_state_machine s) ->
  owner_ok n (default 0 (vs_get (sched_vfs t) nvf h)) = true ->
  sched_inv h t.
Proof.
  intros nvf [Hs Hh Hmax (m0 & c0 & Hm0 & Hcv & Hc0 & Hok & Hoth)] Hm Hc Hn Hns Hpk Hcfg Hvfs Hsm Hown.
  assert (m0 = m) as -> by congruence. assert (c0 = c) as -> by congruence.
  assert (ws_shape t) as Hst.
  { split; [rewrite Hvfs; apply after_cmd_shape, Hs| |by rewrite Hcfg; apply Hs].
    rewrite Hsm, length_insert. apply Hs. }
  destruct (vs_get_some (sched_vfs t) nvf h) as [c' Hc']; [apply Hst|lia|lia|].
  split; [done|done|by rewrite Hcfg|].
  exists (m <| cur_gpu_state := n |> <| cur_vf_id := nvf |>), c'. rewrite Hc' in Hown.
  split_and!; try done; try (cbn; lia).
  - rewrite Hsm. rewrite list_lookup_insert_eq; [done|]. rewrite (sh_machines _ Hs). lia.
  - cbn. intros v cc Hp Hne Hget.
    assert (vf_present s v) as Hp' by (unfold vf_present in *; by rewrite <- Hcfg).
    pose proof (present_range _ _ Hmax Hp').
    rewrite Hvfs, after_cmd_get in Hget by (done || apply Hs || lia).
    rewrite decide_False in Hget by (intros [? _]; contradiction).
    destruct (decide (v = cur_vf_id m)) as [->|Hv]; [|by apply (Hoth v)].
    rewrite Hc in Hget. injection Hget as <-. apply Hpk. congruence.
Qed.

Lemma goto_frame_step leg h m s t n nvf :
  ws_shape s -> 0 <= h < 32 -> 0 <= nvf < 32 -> In n ws_states ->
  hw_state_machine s !! Z.to_nat h = Some m ->
  config t = config s -> array_vf t = array_vf s -> perf_log_enabled t = perf_log_enabled s ->
  sched_vfs t = after_cmd leg (sched_vfs s) n nvf h ->
  hw_state_machine t =
    <[Z.to_nat h := m <| cur_gpu_state := n |> <| cur_vf_id := nvf |> ]> (hw_state_machine s) ->
  goto_frame h s t.
Proof.
  intros Hs Hh Hn Hns Hm Hc Ha Hp Hv Hsm. split; try done.
  - intros i ?. by rewrite Hsm, list_lookup_insert_ne.
  - intros m0 Hm0. assert (m0 = m) as -> by congruence. eexists.
    rewrite Hsm, list_lookup_insert_eq; [done|]. rewrite (sh_machines _ Hs). lia.
  - intros v h' ???. rewrite Hv, after_cmd_get by (done || apply Hs).
    rewrite decide_False; [done|]. by intros [_ ?].
  - intros v. rewrite Hv. apply after_cmd_susp.
Qed.

Lemma sched_inv_frame h s t :
  cmd_frame s t -> sched_vfs t = sched_vfs s -> sched_inv h s -> sched_inv h t.
Proof.
  intros Hf Hv [Hs Hh Hmax (m & c & Hm & Hcv & Hc & Hok & Hoth)].
  assert (ws_shape t) by (eapply ws_shape_frame; [done| |done]; rewrite Hv; apply Hs).
  destruct Hf as [Hcfg Hm' _ _]. split; [done|done|by rewrite Hcfg|].
  exists m, c. rewrite Hm', Hv. split_and!; try done; try apply Hcv.
  intros v cc Hp. apply Hoth. unfold vf_present in *. by rewrite <- Hcfg.
Qed.

Lemma goto_frame_cmd h s t :
  cmd_frame s t -> sched_vfs t = sched_vfs s -> goto_frame h s t.
Proof.
  intros [Hc Hm Ha Hp] Hv. split; try done.
  - intros i _. by rewrite Hm.
  - intros m E. exists m. by rewrite Hm.
  - intros v h' _ _ _. by rewrite Hv.
  - intros v. by rewrite Hv.
Qed.

(** One round from a consistent state: the command is legal; when it completes
    the finite machine has made one step, when it does not the code is that
    command's timeout and the table is as before. *)
Lemma wp_manual_round leg target_vf h tgt m s :
  legacy_flr s = leg -> sched_inv h s -> hw_state_machine s !! Z.to_nat h = Some m ->
  0 <= target_vf < 32 -> In tgt ws_targets ->
  abs_ok tgt (abs_of leg target_vf h m s) = true -> abs_at tgt (abs_of leg target_vf h m s) = false ->
  wp (manual_round target_vf h tgt) (round_post leg target_vf h tgt m s) s.
Proof.
  intros Hlegacy Hinv Hm Ht Htg Hok Hat.
  destruct (abs_next tgt (abs_of leg target_vf h m s)) as [n ns] eqn:Hnext.
  destruct (round_facts _ _ _ _ Htg Hok Hat Hnext) as ([Hleg Hn] & [Hok' _] & [Hpark Hsame] & Hsd').
  pose proof Hinv as [Hs Hh Hmax (m0 & c & Hm0 & Hcv & Hc & Hown & Hoth)].
  assert (m0 = m) as -> by congruence. clear Hm0.
  set (nvf := if ns then target_vf else cur_vf_id m).
  assert (0 <= nvf < 32) as Hnvf by (unfold nvf; destruct ns; lia).
  assert (n <> AMDGV_SHUTDOWN_GPU \/ ns = true) as Hsd.
  { destruct ns; [by right|left]. intros E. by destruct (Hsd' E). }
  destruct (vs_get_some (sched_vfs s) nvf h) as [cur Hcur]; [apply Hs|lia|lia|].
  assert (transition_ret cur n = 0) as Hlegal.
  { revert Hcur. unfold nvf. destruct ns; cbn [abs_of a_tv a_cv] in Hleg.
    - intros E. by rewrite E in Hleg.
    - rewrite Hc. intros [= <-]. by rewrite Hc in Hleg. }
  unfold manual_round. wp_step. eapply wp_machine; [exact Hm|]. wp_step.
  apply (wp_manual_decide leg); [done|done|done| |].
  { unfold owner_ok in Hown. zb. by apply mem_true. }
  rewrite Hnext. cbv zeta. fold nvf. wp_step.
  eapply wp_mono; [by apply wp_manual_command|].
  intros ret t0 (r & [Hf Hcm Hvf] & Hret).
  destruct Hret as [[-> ->]|[Hr0 Hin]].
  - cbn [Z.eqb negb]. destruct Hvf as [[_ Hvf]|[? _]]; [|done]. rewrite Hlegacy in Hvf. destruct Hf as [Fc Fm Fa Fp].
    assert (hw_state_machine t0 !! Z.to_nat h = Some m) as Hm' by congruence.
    wp_step. eapply wp_upd_machine; [exact Hm'|]. wp_step.
    set (t := t0 <| hw_state_machine := _ |>).
    assert (hw_state_machine t = <[Z.to_nat h := m <| cur_gpu_state := n |> <| cur_vf_id := nvf |> ]>
      (hw_state_machine s)) as Hsm by (cbn; by rewrite Fm).
    assert (abs_of leg target_vf h (m <| cur_gpu_state := n |> <| cur_vf_id := nvf |>) t
            = abs_step tgt (abs_of leg target_vf h m s)) as Habs
.
    { apply (abs_of_step _ _ _ tgt m s t n ns); try done.
      destruct (cur_vf_id m =? target_vf) eqn:E; [|done]. cbn. by apply Hsame. }
    assert (owner_ok n (default 0 (vs_get (sched_vfs t) nvf h)) = true) as Hown'.
    { rewrite <- Habs in Hok'. unfold abs_ok in Hok'. cbn [abs_of a_st a_cv] in Hok'. by zb. }
    split.
    + eapply (sched_inv_step leg target_vf h m c s t n ns); try done.
      intros Hne. fold nvf in Hne. unfold nvf in Hne. destruct ns; [|done].
      cbn [abs_of a_same a_cv] in Hpark. rewrite Hc in Hpark.
      apply Hpark; [|done]. apply Z.eqb_neq. congruence.
    + by eapply (goto_frame_step leg h m s t n nvf).
    + exists n, nvf, cur. split_and!; try done; [lia|]. intros _. split; [done|]. intros E.
      apply (Hsd' E).
    + left. split; [done|]. eexists. split; [|exact Habs].
      rewrite Hsm, list_lookup_insert_eq; [done|]. rewrite (sh_machines _ Hs). lia.
  - assert ((ret =? 0) = false) as ->.
    { apply Z.eqb_neq. by apply (timeout_nonzero n). }
    cbn [negb]. wp_step. destruct Hvf as [[? _]|(_ & Hvf & Hno & Hcs)]; [done|].
    split; [by eapply sched_inv_frame|by apply goto_frame_cmd| |].
    + exists n, nvf, cur. split_and!; try done; [lia|]. intros ->. by apply timeout_nonzero in Hin.
    + right. split; [|done]. by exists n, nvf, [].
Qed.

(** ** The loop *)

Lemma legal_cons h tbl leg n v cur l :
  vs_get tbl v h = Some cur -> transition_ret cur n = 0 ->
  legal h (after_cmd leg tbl n v h) l -> (n = AMDGV_SHUTDOWN_GPU -> l = []) ->
  legal h tbl ((n, h, v) :: l).
Proof.
  intros Hc Ht Hl Hn. cbn. split_and!; eauto. unfold after_cmd in Hl.
  destruct (Z.eqb_spec n AMDGV_SHUTDOWN_GPU) as [->|]; [|done]. by rewrite Hn.
Qed.

Lemma at_target_spec leg target_vf h tgt m s (Q : bool -> adapter hw -> Prop) :
  hw_state_machine s !! Z.to_nat h = Some m ->
  Q (abs_at tgt (abs_of leg target_vf h m s)) s -> wp (at_target target_vf h tgt) Q s.
Proof. intros Hm HQ. unfold at_target. wp_step. eapply wp_machine; [exact Hm|]. by wp_step. Qed.

Lemma wp_manual_loop leg target_vf h tgt okay s m :
  legacy_flr s = leg -> sched_inv h s -> hw_state_machine s !! Z.to_nat h = Some m ->
  0 <= target_vf < 32 -> In tgt ws_targets ->
  abs_ok tgt (abs_of leg target_vf h m s) = true ->
  (rank tgt (abs_of leg target_vf h m s) <= okay)%nat ->
  wp (manual_loop okay target_vf h tgt)
     (walk_post target_vf h tgt (rank tgt (abs_of leg target_vf h m s)) s) s.
Proof.
  intros Hlegacy Hinv Hm Ht Htg. revert s m Hlegacy Hinv Hm.
  induction okay as [|okay IH]; intros s m Hlegacy Hinv Hm Hok Hrk; cbn [manual_loop];
    wp_step; (eapply (at_target_spec leg); [exact Hm|]);
    destruct (abs_at tgt (abs_of leg target_vf h m s)) eqn:Hat.
  1, 3: wp_step; split; [done|apply goto_frame_refl|by exists []; split_and!; cbn; auto with lia|];
    left; split; [done|]; exists m; unfold abs_at in Hat; cbn in Hat; by zb.
  all: destruct (abs_next tgt (abs_of leg target_vf h m s)) as [n ns] eqn:Hnext;
    destruct (round_facts _ _ _ _ Htg Hok Hat Hnext) as (_ & [Hok' [Hlt _]] & _);
    try lia.
  wp_step. eapply wp_mono; [by apply (wp_manual_round leg target_vf h tgt m)|].
  intros ret t [Ti Tf (n' & v & cur & Hcur & Hleg & Hv0 & Hcm & Htab) Tret].
  destruct Tret as [[-> (m' & Hm' & Habs)]|[(c & v0 & l0 & Hc0 & Hin) Hno]].
  - cbn [Z.eqb negb]. destruct (Htab eq_refl) as [Hvt Hsd].
    eapply wp_mono; [apply (IH t m'); [unfold legacy_flr; by rewrite (gf_config _ _ _ Tf)|done|done|by rewrite Habs|rewrite Habs; lia]|].
    intros ret u [Ui Uf (l & Hl & Hlen & Hll) Ur]. rewrite Habs in Hlen. rewrite Hvt in Hll.
    split; [done|by eapply goto_frame_trans| |].
    2: { destruct Ur as [?|[(c & v0 & l0 & Hc0 & Hin) Hno]]; [by left|right]. split; [|done].
         destruct Hcm as [Hcm|[_ Hcm]]; rewrite Hcm in Hc0; [exists c, v0, (l0 ++ [(n', h, v)])|by exists c, v0, l0].
         by rewrite <- app_assoc. }
    assert (n' = AMDGV_SHUTDOWN_GPU -> l = []) as Hnil.
    { intros E. rewrite (Hsd E) in Hlen. destruct l; [done|cbn [length] in Hlen; lia]. }
    destruct Hcm as [Hcm|[E Hcm]].
    + exists ((n', h, v) :: l). split_and!; [|cbn [length]; lia|by eapply legal_cons].
      cbn. rewrite Hl, Hcm. by rewrite <- app_assoc.
    + exists l. rewrite (Hnil E) in *. split_and!; [by rewrite Hl, Hcm|cbn [length]; lia|done].
  - assert ((ret =? 0) = false) as ->.
    { apply Z.eqb_neq. by apply (timeout_nonzero c). }
    cbn [negb]. wp_step. split; [done|done| |right; split; [by exists c, v0, l0|done]].
    destruct Hcm as [Hcm|[E Hcm]].
    + exists [(n', h, v)]. split_and!; [done|cbn [length]; lia|]. cbn. eauto.
    + exists []. split_and!; [done|cbn [length]; lia|done].
Qed.

(** ** The whole function *)

Definition locked (h : Z) (b : bool) s : Prop :=
  exists m, hw_state_machine s !! Z.to_nat h = Some m /\ ws_locked m = b.

(** Taking or leaving the lock changes no state the machine walks on. *)
Definition put_lock (h : Z) (m : world_switch_state) (b : bool) s : adapter hw :=
  s <| hw_state_machine := <[Z.to_nat h := m <| ws_locked := b |> ]> (hw_state_machine s) |>.

Lemma put_lock_lookup h m b s :
  hw_state_machine s !! Z.to_nat h = Some m ->
  hw_state_machine (put_lock h m b s) !! Z.to_nat h = Some (m <| ws_locked := b |>).
Proof. intros Hm. cbn. rewrite list_lookup_insert_eq; [done|]. by eapply lookup_lt_Some. Qed.

Lemma sched_inv_put_lock h m b s :
  hw_state_machine s !! Z.to_nat h = Some m -> sched_inv h s -> sched_inv h (put_lock h m b s).
Proof.
  intros Hm [Hs Hh Hmax (m0 & c & Hm0 & Hcv & Hc & Hok & Hoth)].
  assert (m0 = m) as -> by congruence.
  split; [|done|done|].
  - destruct Hs. split; [done| |done]. cbn. by rewrite length_insert.
  - exists (m <| ws_locked := b |>), c. split; [by apply put_lock_lookup|]. done.
Qed.

Lemma wp_trylock h m s (Q : bool -> adapter hw -> Prop) :
  hw_state_machine s !! Z.to_nat h = Some m ->
  (ws_locked m = true -> Q true s) ->
  (ws_locked m = false -> Q false (put_lock h m true s)) -> wp (ws_trylock h) Q s.
Proof.
  intros Hm H1 H0. unfold ws_trylock. wp_step. eapply wp_machine; [exact Hm|].
  destruct (ws_locked m); [wp_step; by apply H1|].
  wp_step. eapply wp_upd_machine; [exact Hm|]. wp_step. by apply H0.
Qed.

(** The walk from a free machine, lock and unlock included. *)
Lemma wp_goto_manual target_vf h tgt s :
  sched_inv h s -> vf_present s target_vf -> In tgt ws_targets ->
  (tgt = AMDGV_SHUTDOWN_GPU -> suspend_saved h target_vf s) -> locked h false s ->
  wp (world_switch_goto_state_manual target_vf h tgt) (walk_post target_vf h tgt 8 s) s.
Proof.
  intros Hinv Hp Htg Hsus (m & Hm & Hlk).
  pose proof (present_range _ _ (si_max _ _ Hinv) Hp) as Ht.
  unfold world_switch_goto_state_manual. wp_step. eapply wp_trylock; [exact Hm|congruence|].
  intros _. pose proof (put_lock_lookup _ _ true _ Hm) as Hm1.
  pose proof (sched_inv_put_lock _ _ true _ Hm Hinv) as Hinv1.
  set (leg := legacy_flr s).
  assert (abs_ok tgt (abs_of leg target_vf h (m <| ws_locked := true |>) (put_lock h m true s)) = true) as Hok.
  { eapply sched_inv_abs; [done|done|exact Hp|exact Hsus]. }
  pose proof (rank_le_8 _ _ Htg Hok) as Hrk.
  wp_step. eapply wp_mono; [eapply (wp_manual_loop leg); [done|done|exact Hm1|done|done|done|lia]|].
  intros ret t [Ti [Fc Fa Fp Fo Fm Fv Fs] (l & Hl & Hlen & Hll) Tr].
  destruct (Fm _ Hm1) as (m2 & Hm2 & _ & Hmode & Hgoto).
  wp_step. eapply wp_upd_machine; [exact Hm2|]. wp_step. fold (put_lock h m2 false t).
  split.
  - by apply sched_inv_put_lock.
  - split; try done.
    + intros i Hi. cbn. rewrite list_lookup_insert_ne, Fo by done. cbn.
      by rewrite list_lookup_insert_ne.
    + intros m' Hm'. assert (m' = m) as -> by congruence. eexists.
      split; [by apply put_lock_lookup|]. by rewrite Hlk.
  - exists l. split_and!; [done|lia|done].
  - destruct Tr as [[-> (m3 & Hm3 & H1 & H2)]|?]; [|by right]. left. split; [done|].
    assert (m3 = m2) as -> by congruence. eexists. split; [by apply put_lock_lookup|done].
Qed.
End manual.
