(* ===== verification/WsBulk.v ===== *)
(** * World switch: the bulk machine reaches its target

    [world_switch_bulk_goto_state_manual] walks several schedulers at once,
    waiting for whichever completes first.  Each scheduler makes the steps of
    the finite machine of WsManual.v (without the legacy reset exception,
    which the bulk machine does not have); a timeout drops the schedulers that
    are still waiting.  The loop counter, twenty per control block, covers the
    eight commands each scheduler can need. *)
From S2P Require Import Prelude Api Mask Gpuiov WsState WsInv WsManual.
#[local] Open Scope Z_scope.
#[local] Set Warnings "-clear-no-such-hyp".

(** ** Sums over a mask *)

Lemma sum_filter_mono {A} (f g : A -> nat) (p q : A -> bool) (l : list A) :
  (forall x, x ∈ l -> p x = true -> q x = true /\ (f x <= g x)%nat) ->
  (sum_list_with f (List.filter p l) <= sum_list_with g (List.filter q l))%nat.
Proof.
  induction l as [|x l IH]; intros H; cbn; [lia|].
  assert (sum_list_with f (List.filter p l) <= sum_list_with g (List.filter q l))%nat.
  { apply IH. intros y Hy. apply H. by right. }
  destruct (p x) eqn:Hp.
  - destruct (H x) as [-> ?]; [by left|done|]. cbn. lia.
  - destruct (q x); cbn; lia.
Qed.

Lemma sum_list_with_plus {A} (f g : A -> nat) (l : list A) :
  sum_list_with (fun x => f x + g x)%nat l = (sum_list_with f l + sum_list_with g l)%nat.
Proof. induction l; cbn; lia. Qed.

Lemma sum_list_with_one {A} (l : list A) : sum_list_with (fun _ => 1%nat) l = length l.
Proof. induction l; cbn; lia. Qed.

Lemma filter_and {A} (p q : A -> bool) (l : list A) :
  List.filter (fun x => p x && q x) l = List.filter q (List.filter p l).
Proof. induction l as [|x l IH]; [done|]. cbn. destruct (p x); cbn; by rewrite IH. Qed.

(** ** Masks *)

Definition in_mask (mask h : Z) : Prop := 0 <= h < 32 /\ Z.testbit mask h = true.

Lemma mask_zero mask : in_width 32 mask -> (forall h, ~ in_mask mask h) -> mask = 0.
Proof.
  intros Hm Hn. apply Z.bits_inj'. intros j Hj. rewrite Z.bits_0.
  destruct (Z.lt_ge_cases j 32).
  - apply not_true_is_false. intros Hb. apply (Hn j). split; [lia|done].
  - rewrite <- (Z.mod_small mask (2 ^ 32)) by exact Hm. apply Z.mod_pow2_bits_high. lia.
Qed.

Lemma mask_clear_bit mask h j : 0 <= j ->
  Z.testbit (mask_clear mask h) j = Z.testbit mask j && negb (h =? j).
Proof. intros. unfold mask_clear. by rewrite Z.clearbit_eqb. Qed.

Lemma mask_clear_width mask h : in_width 32 mask -> in_width 32 (mask_clear mask h).
Proof.
  intros Hm. apply (in_width_sub 32 mask); [done|done| |].
  - unfold mask_clear, Z.clearbit. apply Z.ldiff_nonneg. left. apply Hm.
  - intros j Hj. rewrite mask_clear_bit by done. by intros [? _]%andb_true_iff.
Qed.

(** The ids of a mask that is another one cut down by a test. *)
Lemma for_each_id_sub mask mask' (p : Z -> bool) :
  in_width 32 mask -> in_width 32 mask' ->
  (forall j, 0 <= j < 32 -> Z.testbit mask' j = Z.testbit mask j && p j) ->
  for_each_id mask' = List.filter p (for_each_id mask).
Proof.
  intros Hm Hm' Hb. rewrite !for_each_id_filter by done. rewrite <- filter_and.
  assert (forall x, In x (Z.of_nat <$> seq 0 32) -> 0 <= x < 32) as Hr.
  { intros x (k & <- & Hk%in_seq)%in_map_iff. lia. }
  revert Hr. generalize (Z.of_nat <$> seq 0 32). induction l as [|x l IH]; intros Hr; [done|].
  cbn. rewrite Hb by (apply Hr; by left). rewrite IH; [done|]. intros y Hy. apply Hr. by right.
Qed.

Section bulk.
Context {hw : Type} `{HW : WsHw hw}.
Implicit Types (s t : adapter hw) (b : bulk).

(** What happens on the schedulers of [P] is invisible to the others. *)
Record bulk_frame (P : Z -> Prop) s t : Prop := {
  bf_config : config t = config s;
  bf_array : array_vf t = array_vf s;
  bf_perf : perf_log_enabled t = perf_log_enabled s;
  bf_shape : ws_shape s -> ws_shape t;
  bf_others : forall h, 0 <= h -> ~ P h ->
    hw_state_machine t !! Z.to_nat h = hw_state_machine s !! Z.to_nat h;
  bf_machine : forall h m, 0 <= h -> hw_state_machine s !! Z.to_nat h = Some m ->
    exists m', hw_state_machine t !! Z.to_nat h = Some m' /\
      ws_locked m' = ws_locked m /\ mode m' = mode m /\ goto_state m' = goto_state m;
  bf_vfs : forall v h, 0 <= v -> 0 <= h -> ~ P h ->
    vs_get (sched_vfs t) v h = vs_get (sched_vfs s) v h;
  bf_susp : forall v, vs_susp (sched_vfs t) v = vs_susp (sched_vfs s) v;
}.

Lemma bulk_frame_refl P s : bulk_frame P s s.
Proof. split; try done. eauto 10. Qed.

Lemma bulk_frame_trans P s t u : bulk_frame P s t -> bulk_frame P t u -> bulk_frame P s u.
Proof.
  intros [? ? ? Hs Ho Hm Hv Hsu] [? ? ? Hs' Ho' Hm' Hv' Hsu']. split; try congruence; auto.
  - intros h ??. rewrite Ho', Ho; auto.
  - intros h m ? Em. destruct (Hm h m) as (m1 & E1 & ?&?&?); [done..|].
    destruct (Hm' h m1) as (m2 & E2 & ?&?&?); [done..|]. exists m2. split_and!; congruence.
  - intros v h ???. rewrite Hv', Hv; auto.
Qed.

Lemma bulk_frame_weaken (P Q : Z -> Prop) s t :
  (forall h, P h -> Q h) -> bulk_frame P s t -> bulk_frame Q s t.
Proof. intros Hi []. split; auto. Qed.

(** The core the schedulers live in is untouched: only the device, the command
    history and the engines' busy masks move. *)
Definition same_core s t : Prop :=
  config t = config s /\ array_vf t = array_vf s /\ perf_log_enabled t = perf_log_enabled s /\
  hw_state_machine t = hw_state_machine s /\ sched_vfs t = sched_vfs s.

Lemma same_core_frame P s t : same_core s t -> bulk_frame P s t.
Proof.
  intros (Hc & Ha & Hp & Hm & Hv). split; try done.
  - intros []. split; congruence.
  - intros. by rewrite Hm.
  - intros h m _ E. exists m. by rewrite Hm.
  - intros. by rewrite Hv.
  - intros. by rewrite Hv.
Qed.

(** What a scheduler outside [P] sees is the same before and after. *)
Lemma sched_inv_bulk_frame P h s t :
  bulk_frame P s t -> ~ P h -> sched_inv h s -> sched_inv h t.
Proof.
  intros Hf Hn [Hs Hh Hmax (m & c & Hm & Hcv & Hc & Hok & Hoth)]. destruct Hf.
  split; [auto|done|congruence|]. exists m, c. split_and!; try done; try lia.
  - rewrite bf_others0 by (done || lia). done.
  - rewrite bf_vfs0 by (done || lia). done.
  - intros v c' Hp Hne Hg. assert (vf_present s v) as Hp' by (unfold vf_present in *; by rewrite <- bf_config0).
    pose proof (present_range _ _ Hmax Hp'). rewrite bf_vfs0 in Hg by (done || lia). by eapply Hoth.
Qed.

Lemma abs_of_bulk_frame P leg target_vf h m s t :
  bulk_frame P s t -> ~ P h -> 0 <= h -> 0 <= target_vf -> 0 <= cur_vf_id m ->
  abs_of leg target_vf h m t = abs_of leg target_vf h m s.
Proof. intros [] ????. unfold abs_of. by rewrite !bf_vfs0, bf_susp0. Qed.

Lemma bool_decide_cons (h j : Z) ids :
  h <> j -> bool_decide (j ∈ h :: ids) = bool_decide (j ∈ ids).
Proof.
  intros Hne. apply bool_decide_ext. rewrite elem_of_cons. split; [|tauto].
  intros [->|?]; [done|done].
Qed.

(** Step 2 sends without waiting and cannot fail. *)
Lemma same_core_trans s t u : same_core s t -> same_core t u -> same_core s u.
Proof. unfold same_core. intuition congruence. Qed.

Lemma wp_bulk_send_cmd h n v s :
  ws_shape s -> 0 <= h < 32 -> In n ws_states ->
  wp (bulk_send_cmd h n v) (fun ret t => ret = 0 /\ same_core s t) s.
Proof.
  intros Hs Hh Hn. unfold bulk_send_cmd.
  assert (forall c, wp (_ ← set_cmd c h v; mret 0) (fun ret t => ret = 0 /\ same_core s t) s) as Hc.
  { intros c. wp_step. unfold set_cmd. wp_step. by wp_step. }
  repeat destruct Hn as [<-|Hn]; try done; try apply Hc.
  cbn [Z.eqb AMDGV_IDLE_GPU AMDGV_RUN_GPU AMDGV_SAVE_GPU_STATE AMDGV_INIT_GPU
    AMDGV_LOAD_GPU_STATE AMDGV_SHUTDOWN_GPU Pos.eqb].
  unfold amdgv_gpuiov_shutdown_vf_no_wait, has_flag. wp_step. wp_step. destruct (negb _); [by wp_step|].
  wp_step. apply wp_takes_shutdown; [done|done|]. intros []; wp_step; cbn [when].
  - unfold set_cmd. wp_step. by wp_step.
  - wp_step. by wp_step.
Qed.

Lemma wp_bulk_send ids b s :
  ws_shape s -> Forall (fun h => 0 <= h < 32 /\ In (fst (bk_next b h)) ws_states) ids ->
  wp (bulk_send ids b) (fun b' t => same_core s t /\
    (b' = b \/ b' = (b <| bk_ret := 0 |>))) s.
Proof.
  intros Hs Hids.
  enough (forall ids s, ws_shape s ->
    Forall (fun h => 0 <= h < 32 /\ In (fst (bk_next b h)) ws_states) ids ->
    forall b0, b0 = b \/ b0 = (b <| bk_ret := 0 |>) ->
    wp (bulk_send ids b0) (fun b' t => same_core s t /\ (b' = b \/ b' = (b <| bk_ret := 0 |>))) s) as H.
  { apply H; auto. }
  clear ids s Hs Hids. induction ids as [|h ids IH]; intros s Hs Hids b0 Hb; cbn [bulk_send].
  - by wp_step.
  - inversion Hids as [|? ? [Hh Hn] Hids']; subst.
    assert (bk_next b0 = bk_next b) as Hnext by (by destruct Hb as [-> | ->]).
    wp_step. apply wp_dev. intros _ d. wp_step. rewrite Hnext. eapply wp_mono.
    { apply wp_bulk_send_cmd; [|exact Hh|exact Hn]. destruct Hs. by split. }
    intros ret t [-> Hc]. cbn [Z.eqb negb].
    assert (same_core s t) as Hc' by (eapply same_core_trans; [|exact Hc]; done).
    eapply wp_mono; [apply IH; [|done|]|].
    + destruct Hc' as (Hc1 & _ & _ & Hc2 & Hc3), Hs. split; congruence.
    + right. by destruct Hb as [-> | ->].
    + intros b' u [Hu Hb']. split; [|done]. by eapply same_core_trans.
Qed.

Lemma wp_dev_eq {A} (f : hw -> A * hw) a d (Q : A -> adapter hw -> Prop) s :
  f (device s) = (a, d) -> Q a (s <| device := d |>) -> wp (dev f) Q s.
Proof. intros E ?. unfold wp, dev. by rewrite E. Qed.

(** A device that answers in time.  The clock runs: a wait for the next
    completion and a reading of the clock each take up to [delta]; when the
    wait returns some scheduler that was waited for is done; and the up to 32
    waits of a round, with a reading each, fit into the time allowed. *)
Definition hw_clock (d : hw) : Z := fst (hw_time d).
Record hw_prompt (allow delta : Z) : Prop := {
  pr_first : forall mask timeout d, (exists h, in_mask mask h) ->
    exists h, in_mask mask h /\ Z.testbit (fst (hw_wait_first mask timeout d)) h = true;
  pr_wait : forall mask timeout d, u64 (hw_clock (snd (hw_wait_first mask timeout d)) - hw_clock d) <= delta;
  pr_read : forall d, u64 (hw_clock (snd (hw_time d)) - hw_clock d) <= delta;
  pr_allow : 65 * delta < allow;
}.
Definition hw_bulk_completes (allow : Z) : Prop := exists delta, hw_prompt allow delta.

(** Elapsed times add up, whatever wraps. *)
Lemma elapsed_add (t0 t1 t2 : Z) : u64 (t2 - t0) <= u64 (t1 - t0) + u64 (t2 - t1).
Proof.
  unfold wrap. replace (t2 - t0) with ((t1 - t0) + (t2 - t1)) by lia. rewrite Z.add_mod by lia.
  apply Z.mod_le; [|lia]. pose proof (Z.mod_pos_bound (t1 - t0) (2 ^ 64)). pose proof (Z.mod_pos_bound (t2 - t1) (2 ^ 64)). lia.
Qed.

Lemma wp_wait_first mask timeout (Q : option Z -> adapter hw -> Prop) s :
  in_width 32 mask ->
  (forall h, in_mask mask h -> Q (Some h) (s <| device := snd (hw_wait_first mask timeout (device s)) |>)) ->
  (forall d, (forall allow, ~ hw_bulk_completes allow) \/ (forall h, ~ in_mask mask h) ->
     Q None (s <| device := d |>)) ->
  wp (wait_for_first_cmd_complete mask timeout) Q s.
Proof.
  intros Hm HS HN. unfold wait_for_first_cmd_complete, dev. wp_step. unfold wp at 1.
  destruct (hw_wait_first mask timeout (device s)) as [done d] eqn:E. wp_step.
  destruct (List.find _ _) as [h|] eqn:Ef.
  - apply find_some in Ef as [Hin _]. apply HS. apply elem_of_for_each_id; [done|].
    by apply list_elem_of_In.
  - apply HN. destruct (decide (mask = 0)) as [->|Hne].
    { right. intros h [_ Hb]. by rewrite Z.bits_0 in Hb. }
    left. intros allow [delta [Hc _ _ _]]. destruct (Hc mask timeout (device s)) as (h & Hh & Hd).
    { destruct (for_each_id mask) as [|h l] eqn:El.
      - exfalso. apply Hne, mask_zero; [done|]. intros h Hh.
        apply elem_of_for_each_id in Hh; [|done]. rewrite El in Hh. by apply elem_of_nil in Hh.
      - exists h. apply elem_of_for_each_id; [done|]. rewrite El. by left. }
    rewrite E in Hd. cbn in Hd. pose proof (find_none _ _ Ef h) as Hnone. cbn in Hnone.
    rewrite Hnone in Hd; [done|]. by apply list_elem_of_In, elem_of_for_each_id.
Qed.

Lemma length_filter_ne (h : Z) l :
  h ∈ l -> (length (List.filter (fun j => negb (h =? j)%Z) l) < length l)%nat.
Proof.
  induction l as [|x l IH]; intros Hin; [by apply elem_of_nil in Hin|].
  cbn. apply elem_of_cons in Hin as [<-|Hin].
  - rewrite Z.eqb_refl. cbn. pose proof (filter_length_le (fun j => negb (h =? j)) l). lia.
  - destruct (negb _); cbn; specialize (IH Hin); lia.
Qed.

Section walk.
Variables (target_vf tgt : Z).
Hypotheses (Htv : 0 <= target_vf < 32) (Htgt : In tgt ws_targets).

(** One scheduler in the finite machine. *)
Definition babs (h : Z) (m : world_switch_state) s : wsabs := abs_of false target_vf h m s.

Definition bgood (h : Z) s : Prop :=
  sched_inv h s /\ exists m, hw_state_machine s !! Z.to_nat h = Some m /\
                            abs_ok tgt (babs h m s) = true.

Definition unfinished s (h : Z) : bool :=
  match hw_state_machine s !! Z.to_nat h with
  | Some m => negb (abs_at tgt (babs h m s))
  | None => false
  end.

Definition brank s (h : Z) : nat :=
  match hw_state_machine s !! Z.to_nat h with
  | Some m => rank tgt (babs h m s)
  | None => O
  end.

(** The command of the next round. *)
Definition bnext (h : Z) (m : world_switch_state) s : Z * Z :=
  let '(n, ns) := abs_next tgt (babs h m s) in (n, if ns : bool then target_vf else cur_vf_id m).

Lemma bgood_core h s t : same_core s t -> bgood h s -> bgood h t.
Proof using.
  intros Hc [Hi (m & Hm & Hok)]. split.
  - eapply (sched_inv_bulk_frame (fun _ => False)); [by apply same_core_frame|auto|done].
  - exists m. destruct Hc as (? & ? & ? & Hm' & Hv). rewrite Hm'. split; [done|].
    unfold babs, abs_of in *. by rewrite Hv.
Qed.

Lemma bgood_frame P h s t :
  bulk_frame P s t -> ~ P h -> bgood h s -> bgood h t.
Proof using Htv.
  intros Hf Hn [Hi (m & Hm & Hok)].
  pose proof Hi as [_ Hh _ (m' & c & Hm' & Hcv & _)]. assert (m' = m) as -> by congruence.
  split; [by eapply sched_inv_bulk_frame|]. exists m.
  rewrite (bf_others _ _ _ Hf) by (done || lia). split; [done|].
  unfold babs. by rewrite (abs_of_bulk_frame P _ _ _ _ s t) by (done || lia).
Qed.

(** Step 1 on a good scheduler is the finite machine's decision. *)
Lemma wp_next_good h m s (Q : Z * option (Z * Z) -> adapter hw -> Prop) :
  bgood h s -> hw_state_machine s !! Z.to_nat h = Some m ->
  Q (0, Some (bnext h m s)) s ->
  wp (world_switch_get_next_state h target_vf tgt (cur_gpu_state m) (cur_vf_id m)) Q s.
Proof using Htv.
  intros [Hi _] Hm HQ. pose proof Hi as [Hs Hh _ (m' & c & Hm' & _ & _ & Hok & _)].
  assert (m' = m) as -> by congruence.
  assert (wp (manual_decide h target_vf tgt (cur_gpu_state m) (cur_vf_id m))
    (fun r t => r = Some (bnext h m s) /\ t = s) s) as Hd.
  { apply (wp_manual_decide false); [done|done|done| |].
    - unfold owner_ok in Hok. zb. by apply mem_true.
    - unfold bnext, babs. by destruct (abs_next _ _). }
  unfold wp in *. rewrite next_state_manual.
  destruct (manual_decide _ _ _ _ _ s) as [[r t]|]; [|done].
  by destruct Hd as [-> ->].
Qed.

Lemma wp_bulk_get_next ids b s :
  Forall (fun h => bgood h s) ids -> NoDup ids ->
  in_width 32 (bk_mask b) ->
  (length (List.filter (unfinished s) ids) <= bk_okay b)%nat ->
  wp (bulk_get_next ids target_vf tgt b) (fun r t => t = s /\ fst r = false /\
    let b' := snd r in
    bk_bad b' = bk_bad b /\
    bk_okay b' = (bk_okay b - length (List.filter (unfinished s) ids))%nat /\
    (bk_ret b = 0 -> bk_ret b' = 0) /\ in_width 32 (bk_mask b') /\
    (forall h, 0 <= h -> Z.testbit (bk_mask b') h =
       Z.testbit (bk_mask b) h && (negb (bool_decide (h ∈ ids)) || unfinished s h)) /\
    (forall h m, h ∈ ids -> unfinished s h = true -> hw_state_machine s !! Z.to_nat h = Some m ->
       bk_next b' h = bnext h m s) /\
    (forall h, h ∉ ids -> bk_next b' h = bk_next b h)) s.
Proof using Htv.
  revert b. induction ids as [|h ids IH]; intros b Hg Hnd Hw Hok; cbn [bulk_get_next].
  - wp_step. cbn. split_and!; try done; try lia; try (by intros ??[]%elem_of_nil).
    intros h Hh. by rewrite andb_true_r.
  - inversion Hg as [|? ? Hgh Hg']; subst. inversion Hnd as [|? ? Hnin Hnd']; subst.
    pose proof Hgh as [_ (m & Hm & _)]. pose proof Hgh as [[_ Hh _ _] _].
    wp_step. eapply wp_machine; [exact Hm|].
    assert (unfinished s h = negb ((cur_gpu_state m =? tgt) && (cur_vf_id m =? target_vf))) as Hu.
    { unfold unfinished. by rewrite Hm. }
    cbn [List.filter] in Hok |- *. rewrite Hu in Hok |- *.
    destruct ((cur_gpu_state m =? tgt) && (cur_vf_id m =? target_vf)) eqn:Hat; cbn [negb] in *.
    + eapply wp_mono; [apply IH; [done|done|by apply mask_clear_width|done]|].
      intros [ex b'] t (-> & Hex & Hb & Ho & Hr & Hw' & Hbits & Hn1 & Hn2).
      split_and!; try done.
      * intros j Hj. rewrite Hbits by done. cbn. rewrite mask_clear_bit by done.
        destruct (Z.eqb_spec h j) as [<-|Hne].
        -- rewrite Hu, (bool_decide_eq_true_2 (h ∈ h :: ids)) by (by left).
           cbn. by rewrite !andb_false_r.
        -- cbn. rewrite andb_true_r, (bool_decide_cons h j ids) by done. done.
      * intros j mj Hj Hj2. apply Hn1; [|done]. apply elem_of_cons in Hj as [->|]; [congruence|done].
      * intros j [_ Hj]%not_elem_of_cons. by apply Hn2.
    + wp_step. eapply wp_next_good; [done|exact Hm|]. cbn.
      destruct (bk_okay b) as [|okay] eqn:Eok; [cbn in Hok; lia|]. cbn.
      eapply wp_mono; [apply IH; [done|done|done|cbn in *; lia]|].
      intros [ex b'] t (-> & Hex & Hb & Ho & Hr & Hw' & Hbits & Hn1 & Hn2).
      split_and!; try done.
      * intros _. by apply Hr.
      * intros j Hj. rewrite Hbits by done. cbn. destruct (decide (h = j)) as [<-|Hne].
        -- rewrite Hu, !orb_true_r. done.
        -- by rewrite (bool_decide_cons h j ids).
      * intros j mj Hj Hju Hmj. destruct (decide (j ∈ ids)) as [Hj'|Hj'].
        -- by apply Hn1.
        -- apply elem_of_cons in Hj as [->|]; [|done]. rewrite Hn2 by done. cbn. rewrite Z.eqb_refl.
           by assert (mj = m) as -> by congruence.
      * intros j [Hj1 Hj2]%not_elem_of_cons. rewrite Hn2 by done. cbn.
        by destruct (Z.eqb_spec j h) as [->|].
Qed.

(** Step 3: a completion moves one scheduler of the finite machine. *)
Definition stepped (h : Z) s t : Prop :=
  sched_inv h t /\ exists m m', hw_state_machine s !! Z.to_nat h = Some m /\
    hw_state_machine t !! Z.to_nat h = Some m' /\ babs h m' t = abs_step tgt (babs h m s).

Lemma complete_step h m s :
  bgood h s -> hw_state_machine s !! Z.to_nat h = Some m -> unfinished s h = true ->
  let '(n, nvf) := bnext h m s in
  let t := (s <| hw_state_machine := <[Z.to_nat h := m <| cur_gpu_state := n |>
                  <| cur_vf_id := nvf |> ]> (hw_state_machine s) |>
              <| sched_vfs := vs_set (sched_vfs s) nvf h n |>) in
  In n ws_states /\ 0 <= nvf < 32 /\ stepped h s t /\ bulk_frame (eq h) s t.
Proof using Htv Htgt.
  intros [Hinv (m0 & Hm0 & Hok)] Hm Hunf. assert (m0 = m) as -> by congruence. clear Hm0.
  unfold unfinished in Hunf. rewrite Hm in Hunf. apply negb_true_iff in Hunf.
  unfold bnext. destruct (abs_next tgt (babs h m s)) as [n ns] eqn:Hnext.
  destruct (round_facts _ _ _ _ Htgt Hok Hunf Hnext) as ([_ Hn] & [Hok' _] & [Hpark Hsame] & Hsd').
  pose proof Hinv as [Hs Hh Hmax (m0 & c & Hm0 & Hcv & Hc & Hown & Hoth)].
  assert (m0 = m) as -> by congruence. clear Hm0.
  set (nvf := if ns then target_vf else cur_vf_id m).
  assert (0 <= nvf < 32) as Hnvf by (unfold nvf; destruct ns; lia).
  cbv zeta. set (t := s <| hw_state_machine := _ |> <| sched_vfs := _ |>).
  assert (sched_vfs t = after_cmd false (sched_vfs s) n nvf h) as Hvs
    by (unfold after_cmd; by rewrite andb_false_r).
  assert (babs h (m <| cur_gpu_state := n |> <| cur_vf_id := nvf |>) t = abs_step tgt (babs h m s)) as Habs.
  { apply (abs_of_step false target_vf h tgt m s t n ns); try done.
    - destruct (cur_vf_id m =? target_vf) eqn:E; [|done]. cbn. by apply Hsame.
    - destruct ns; [by right|left]. intros E. by destruct (Hsd' E). }
  assert (owner_ok n (default 0 (vs_get (sched_vfs t) nvf h)) = true) as Hown'.
  { rewrite <- Habs in Hok'. unfold abs_ok, babs in Hok'. cbn [abs_of a_st a_cv] in Hok'. by zb. }
  split_and!; try done; try lia; [split|].
  - eapply (sched_inv_step false target_vf h m c s t n ns); try done.
    intros Hne. fold nvf in Hne. unfold nvf in Hne. destruct ns; [|done].
    unfold babs in Hpark. cbn [abs_of a_same a_cv] in Hpark. rewrite Hc in Hpark.
    apply Hpark; [|done]. apply Z.eqb_neq. congruence.
  - exists m. eexists. split_and!; [done| |exact Habs].
    cbn. rewrite list_lookup_insert_eq; [done|]. rewrite (sh_machines _ Hs). lia.
  - destruct (goto_frame_step false h m s t n nvf) as [? ? ? Ho Hmm Hv Hsu]; try done.
    split; try done.
    + intros _. split; [rewrite Hvs; by apply after_cmd_shape, Hs| |by destruct Hs].
      cbn. rewrite length_insert. by destruct Hs.
    + intros h' ? Hne. apply Ho. lia.
    + intros h' m' ? Hm'. destruct (decide (h' = h)) as [->|]; [by apply Hmm|].
      exists m'. by rewrite Ho by lia.
    + intros v h' ?? Hne. apply Hv; [done|done|congruence].
Qed.

(** What the waits of one round do to the schedulers of [wm]. *)
Record wait_post (allow wm : Z) s b b' t : Prop := {
  wp_frame : bulk_frame (in_mask wm) s t;
  wp_okay : bk_okay b' = bk_okay b;
  wp_width : in_width 32 (bk_mask b) -> in_width 32 (bk_mask b');
  wp_each : forall h, in_mask wm h ->
    (Z.testbit (bk_mask b') h = Z.testbit (bk_mask b) h /\ stepped h s t) \/
    (Z.testbit (bk_mask b') h = false /\ Z.testbit (bk_bad b') h = true /\ bgood h t);
  wp_rest : forall h, 0 <= h -> ~ in_mask wm h ->
    Z.testbit (bk_mask b') h = Z.testbit (bk_mask b) h;
  wp_bad : forall h, 0 <= h -> Z.testbit (bk_bad b) h = true -> Z.testbit (bk_bad b') h = true;
  wp_outcome : (bk_bad b' = bk_bad b /\ (bk_ret b = 0 -> bk_ret b' = 0)) \/
               (bk_bad b' <> 0 /\ ~ hw_bulk_completes allow);
}.

Definition wait_ready (wm : Z) b s : Prop :=
  forall h, in_mask wm h -> bgood h s /\ unfinished s h = true /\
    forall m, hw_state_machine s !! Z.to_nat h = Some m -> bk_next b h = bnext h m s.

Lemma wait_post_none allow s b : wait_post allow 0 s b b s.
Proof using.
  split; try done; [apply bulk_frame_refl| |by left].
  intros h [_ Hb]. by rewrite Z.bits_0 in Hb.
Qed.

(** Giving up on the schedulers that are left. *)
Lemma wait_post_timeout allow wm s b r t :
  in_width 32 wm -> wm <> 0 -> same_core s t -> wait_ready wm b s -> ~ hw_bulk_completes allow ->
  wait_post allow wm s b
    (b <| bk_ret := r |> <| bk_bad := Z.lor (bk_bad b) wm |>
       <| bk_mask := Z.ldiff (bk_mask b) wm |>) t.
Proof using.
  intros Hw Hne Hc Hr Hno. split; cbn.
  - by apply same_core_frame.
  - done.
  - intros Hm. apply (in_width_sub 32 (bk_mask b)); [done|done| |].
    + apply Z.ldiff_nonneg. left. apply Hm.
    + intros j Hj. rewrite Z.ldiff_spec. by intros [? _]%andb_true_iff.
  - intros h [Hh Hb]. right. rewrite Z.ldiff_spec, Z.lor_spec, Hb, andb_false_r, orb_true_r.
    split_and!; try done. apply (bgood_core h s t); [done|]. by apply Hr.
  - intros h Hh Hn. rewrite Z.ldiff_spec.
    assert (Z.testbit wm h = false) as ->; [|by rewrite andb_true_r].
    apply not_true_is_false. intros Hb. apply Hn. split; [|done]. split; [done|].
    destruct (Z.lt_ge_cases h 32); [done|].
    rewrite <- (Z.mod_small wm (2 ^ 32)), Z.mod_pow2_bits_high in Hb by (done || lia). done.
  - intros h Hh Hb. by rewrite Z.lor_spec, Hb.
  - right. split; [|done]. intros E. apply Z.lor_eq_0_iff in E as [_ ?]. done.
Qed.

Lemma stepped_frame_l h s s1 t :
  same_core s s1 -> stepped h s1 t -> stepped h s t.
Proof using.
  intros (_ & _ & _ & Hm & Hv) [Hi (m & m' & Em & Em' & Ha)]. split; [done|]. exists m, m'.
  unfold babs, abs_of in *. by rewrite <- Hm, <- Hv.
Qed.

Lemma bulk_frame_core P s s1 t : same_core s s1 -> bulk_frame P s1 t -> bulk_frame P s t.
Proof using. intros Hc Hf. eapply bulk_frame_trans; [by apply same_core_frame|exact Hf]. Qed.

(** One completion, then the rest of the waits. *)
Lemma wait_post_step allow wm h s s1 b b' t :
  in_width 32 wm -> in_mask wm h -> wait_ready wm b s ->
  stepped h s s1 -> bulk_frame (eq h) s s1 ->
  wait_post allow (mask_clear wm h) s1 (b <| bk_ret := 0 |>) b' t ->
  wait_post allow wm s b b' t.
Proof using Htv Htgt.
  intros Hw Hin Hr Hst Hf [Tf To Tw Te Tr Tb Tout].
  pose proof Hin as [Hh Hb].
  assert (forall j, in_mask (mask_clear wm h) j <-> in_mask wm j /\ j <> h) as Hm.
  { intros j. unfold in_mask. split.
    - intros [Hj Hbj]. rewrite mask_clear_bit in Hbj by lia. apply andb_true_iff in Hbj as [? Hn].
      apply negb_true_iff, Z.eqb_neq in Hn. split; [done|congruence].
    - intros [[Hj Hbj] Hn]. rewrite mask_clear_bit, Hbj by lia. split; [done|]. cbn.
      by apply negb_true_iff, Z.eqb_neq. }
  assert (~ in_mask (mask_clear wm h) h) as Hnh by (rewrite Hm; tauto).
  split; try done.
  - eapply bulk_frame_trans.
    + eapply bulk_frame_weaken; [|exact Hf]. by intros ? <-.
    + eapply bulk_frame_weaken; [|exact Tf]. intros j Hj. by apply Hm in Hj as [? _].
  - intros j Hj. destruct (decide (j = h)) as [->|Hne].
    + left. rewrite (Tr h) by (done || lia). split; [done|].
      destruct Hst as [Hi1 (m & m' & Em & Em' & Ha)].
      split; [by eapply sched_inv_bulk_frame|]. exists m, m'.
      pose proof Hi1 as [_ _ _ (m1 & c1 & Em1 & Hcv & _)]. assert (m1 = m') as -> by congruence.
      rewrite (bf_others _ _ _ Tf) by (done || lia). split_and!; try done.
      unfold babs in *. by rewrite (abs_of_bulk_frame _ _ _ _ _ _ _ Tf) by (done || lia).
    + destruct (Te j) as [[Hb1 Hs1]|Hg]; [by apply Hm| |by right].
      left. split; [done|]. destruct Hs1 as [Hi1 (m & m' & Em & Em' & Ha)].
      split; [done|]. exists m, m'.
      assert (0 <= j) as Hj0 by (destruct Hj; lia).
      rewrite (bf_others _ _ _ Hf) in Em by (done || congruence). split_and!; try done.
      rewrite Ha. f_equal. destruct (Hr j Hj) as [[Hij _] _].
      pose proof Hij as [_ _ _ (m1 & c1 & Em1 & Hcv & _)]. assert (m1 = m) as -> by congruence.
      unfold babs. apply (abs_of_bulk_frame (eq h)); [done|congruence|destruct Hj; lia..].
  - intros j Hj Hn. apply Tr; [done|]. rewrite Hm. tauto.
  - destruct Tout as [[? Hret]|?]; [left|by right]. split; [done|]. intros _. by apply Hret.
Qed.

Lemma ids_nonempty wm : in_width 32 wm -> wm <> 0 -> (1 <= length (for_each_id wm))%nat.
Proof using.
  intros Hw Hne. destruct (for_each_id wm) as [|h l] eqn:El; [|cbn; lia].
  exfalso. apply Hne, mask_zero; [done|]. intros h Hh.
  apply elem_of_for_each_id in Hh; [|done]. rewrite El in Hh. by apply elem_of_nil in Hh.
Qed.

(** The stepped scheduler aside, the others are as ready as before. *)
Lemma wait_ready_step wm h s s1 b b1 :
  in_width 32 wm -> wait_ready wm b s -> bulk_frame (eq h) s s1 -> bk_next b1 = bk_next b ->
  wait_ready (mask_clear wm h) b1 s1.
Proof using Htv.
  intros Hw Hr Hf Hnext j [Hj Hb]. rewrite mask_clear_bit in Hb by lia.
  apply andb_true_iff in Hb as [Hb Hne%negb_true_iff%Z.eqb_neq].
  destruct (Hr j) as (Hg & Hu & Hn); [done|].
  assert (hw_state_machine s1 !! Z.to_nat j = hw_state_machine s !! Z.to_nat j) as Hm
    by (apply (bf_others _ _ _ Hf); [lia|congruence]).
  assert (forall m, hw_state_machine s !! Z.to_nat j = Some m -> babs j m s1 = babs j m s) as Ha.
  { intros m Em. destruct Hg as [[_ _ _ (m1 & c1 & Em1 & Hcv & _)] _].
    assert (m1 = m) as -> by congruence. apply (abs_of_bulk_frame (eq h)); [done|congruence|lia..]. }
  split_and!.
  - by eapply bgood_frame.
  - unfold unfinished in *. rewrite Hm. destruct (hw_state_machine s !! Z.to_nat j) as [m|]; [|done].
    by rewrite Ha.
  - intros m Em. rewrite Hm in Em. rewrite Hnext, (Hn m Em). unfold bnext. by rewrite Ha.
Qed.

Lemma bulk_frame_allow P s t :
  bulk_frame P s t ->
  allow_time_cmd_complete (config t) = allow_time_cmd_complete (config s).
Proof using. intros []. congruence. Qed.

Lemma length_ids_le wm : in_width 32 wm -> (length (for_each_id wm) <= 32)%nat.
Proof using.
  intros Hw. rewrite for_each_id_filter by done. etransitivity; [apply filter_length_le|]. by vm_compute; lia.
Qed.
Lemma length_clear wm h : in_width 32 wm -> in_mask wm h ->
  (length (for_each_id (mask_clear wm h)) < length (for_each_id wm))%nat.
Proof using.
  intros Hw Hin. rewrite (for_each_id_sub wm _ (fun j => negb (h =? j))).
  - apply length_filter_ne. by apply elem_of_for_each_id.
  - done.
  - by apply mask_clear_width.
  - intros j Hj. apply mask_clear_bit. lia.
Qed.

Lemma wp_bulk_wait fuel wait_start wait_left wm b s :
  in_width 32 wm -> (length (for_each_id wm) <= fuel)%nat ->
  ws_shape s -> wait_ready wm b s ->
  (exists k : nat, (k + length (for_each_id wm) <= 32)%nat /\
     forall delta, hw_prompt (allow_time_cmd_complete (config s)) delta ->
       u64 (hw_clock (device s) - wait_start) <= (2 * Z.of_nat k + 1) * delta) ->
  wp (bulk_wait fuel wait_start wait_left wm b)
     (wait_post (allow_time_cmd_complete (config s)) wm s b) s.
Proof using Htv Htgt.
  revert wait_left wm b s.
  induction fuel as [|fuel IH]; intros wait_left wm b s Hw Hlen Hs Hr (k & Hk & Hel); cbn [bulk_wait].
  - destruct (Z.eqb_spec wm 0) as [->|Hne]; [wp_step; apply wait_post_none|].
    pose proof (ids_nonempty wm Hw Hne). lia.
  - destruct (Z.eqb_spec wm 0) as [->|Hne]; [wp_step; apply wait_post_none|].
    wp_step. apply wp_wait_first; [done| |].
    + intros h Hin. set (d := snd (hw_wait_first wm wait_left (device s))).
      destruct (hw_time d) as [now d1] eqn:Etime.
      pose proof (ids_nonempty wm Hw Hne) as Hpos.
      assert (forall delta, hw_prompt (allow_time_cmd_complete (config s)) delta ->
        u64 (now - wait_start) <= (2 * Z.of_nat k + 2) * delta /\
        u64 (hw_clock d1 - wait_start) <= (2 * Z.of_nat k + 3) * delta) as Hel1.
      { intros delta Hpr. specialize (Hel delta Hpr). pose proof (pr_wait _ _ Hpr wm wait_left (device s)) as H1.
        pose proof (pr_read _ _ Hpr d) as H2. fold d in H1. unfold hw_clock in *. rewrite Etime in *. cbn [fst snd] in *.
        pose proof (elapsed_add wait_start (fst (hw_time (device s))) now).
        pose proof (elapsed_add wait_start now (fst (hw_time d1))). lia. }
      wp_step. eapply wp_dev_eq; [exact Etime|]. wp_step. wp_step. cbv zeta.
      set (s0 := _ <| device := d1 |>). assert (same_core s s0) as Hc by done.
      destruct (Z.leb_spec (allow_time_cmd_complete (config s0)) (u64 (now - wait_start))) as [Hge|_].
      { wp_step. apply (wait_post_timeout _ wm s b 0); [done|done|done|done|]. intros [delta Hpr].
        pose proof (Hel1 delta Hpr) as [Hnow _]. pose proof (pr_allow _ _ Hpr).
        pose proof (pr_read _ _ Hpr d). pose proof (wrap_range 64 (hw_clock (snd (hw_time d)) - hw_clock d) ltac:(lia)) as [? _].
        cbn in Hge. nia. }
      destruct (Hr h Hin) as (Hg & Hu & Hn).
      pose proof Hg as [[_ _ _ (m & c & Hm & _)] _].
      change (bk_next (b <| bk_ret := 0 |>) h) with (bk_next b h). rewrite (Hn m Hm).
      assert (bgood h s0) as Hg0 by by apply (bgood_core h s).
      pose proof (complete_step h m s0 Hg0 Hm) as Hstep.
      change (bnext h m s0) with (bnext h m s) in Hstep.
      destruct (bnext h m s) as [n nvf] eqn:Enext.
      destruct Hstep as (Hn_in & Hnvf & Hst & Hf); [done|].
      wp_step. eapply wp_upd_machine; [exact Hm|]. wp_step. apply wp_set_vf_state.
      { apply vs_get_some; [apply Hs|lia|apply Hin]. }
      set (s1 := _ <| sched_vfs := _ |>).
      assert (bulk_frame (eq h) s s1) as Hf1 by (eapply bulk_frame_core; [exact Hc|exact Hf]).
      eapply wp_mono; [apply IH|].
      * by apply mask_clear_width.
      * pose proof (length_clear wm h Hw Hin). lia.
      * by apply Hf1.
      * eapply wait_ready_step; [done|exact Hr|exact Hf1|done].
      * exists (S k). split.
        -- pose proof (length_clear wm h Hw Hin). lia.
        -- rewrite (bulk_frame_allow _ _ _ Hf1). intros delta Hpr. destruct (Hel1 delta Hpr) as [_ H3].
           change (device s1) with d1. lia.
      * intros b' t Hpost. rewrite (bulk_frame_allow _ _ _ Hf1) in Hpost.
        eapply (wait_post_step _ wm h s s1); [done|done|done| |done|exact Hpost].
        by eapply stepped_frame_l.
    + intros d Hno. wp_step. apply wp_dev. intros now d1. wp_step. wp_step. cbv zeta. wp_step.
      apply (wait_post_timeout _ wm s b AMDGV_FAILURE); [done|done|done|done|].
      destruct Hno as [Hno|Hno]; [apply Hno|]. exfalso. by apply Hne, mask_zero.
Qed.

(** *** Progress *)

Lemma bgood_round h m s :
  bgood h s -> hw_state_machine s !! Z.to_nat h = Some m -> unfinished s h = true ->
  In (fst (bnext h m s)) ws_states /\ abs_ok tgt (abs_step tgt (babs h m s)) = true /\
  (rank tgt (abs_step tgt (babs h m s)) < rank tgt (babs h m s))%nat.
Proof using Htgt.
  intros [_ (m0 & Hm0 & Hok)] Hm Hu. assert (m0 = m) as -> by congruence.
  unfold unfinished in Hu. rewrite Hm in Hu. apply negb_true_iff in Hu.
  unfold bnext. destruct (abs_next tgt (babs h m s)) as [n ns] eqn:Hn.
  destruct (round_facts _ _ _ _ Htgt Hok Hu Hn) as ([_ ?] & [? [? _]] & _). done.
Qed.

Lemma unfinished_rank h s : bgood h s -> unfinished s h = true -> (1 <= brank s h)%nat.
Proof using Htgt.
  intros Hg Hu. pose proof Hg as [_ (m & Hm & _)].
  destruct (bgood_round h m s Hg Hm Hu) as (_ & _ & ?). unfold brank. rewrite Hm. lia.
Qed.

Lemma stepped_progress h s t :
  bgood h s -> unfinished s h = true -> stepped h s t ->
  bgood h t /\ (brank t h <= brank s h - 1)%nat.
Proof using Htgt.
  intros Hg Hu [Hi (m & m' & Hm & Hm' & Ha)].
  destruct (bgood_round h m s Hg Hm Hu) as (_ & Hok & Hlt).
  split; [split; [done|]|].
  - exists m'. by rewrite Ha.
  - unfold brank. rewrite Hm, Hm', Ha. lia.
Qed.

Lemma finished_on_target h s : bgood h s -> unfinished s h = false -> on_target target_vf h tgt s.
Proof using.
  intros [_ (m & Hm & _)] Hu. unfold unfinished in Hu. rewrite Hm in Hu.
  apply negb_false_iff in Hu. unfold abs_at, babs in Hu. cbn in Hu. zb. by exists m.
Qed.

Lemma on_target_frame P h s t :
  bulk_frame P s t -> ~ P h -> 0 <= h -> on_target target_vf h tgt s -> on_target target_vf h tgt t.
Proof using. intros Hf Hn Hh (m & Hm & ?). exists m. by rewrite (bf_others _ _ _ Hf). Qed.

Record rounds_inv (mask0 allow : Z) b s : Prop := {
  ri_width : in_width 32 (bk_mask b);
  ri_sub : forall h, in_mask (bk_mask b) h -> in_mask mask0 h;
  ri_good : forall h, in_mask mask0 h -> bgood h s;
  ri_cover : forall h, in_mask mask0 h ->
    in_mask (bk_mask b) h \/ on_target target_vf h tgt s \/ Z.testbit (bk_bad b) h = true;
  ri_ret : bk_bad b = 0 -> bk_ret b = 0;
  ri_outcome : bk_bad b = 0 \/ ~ hw_bulk_completes allow;
  ri_rank : (sum_list_with (brank s) (for_each_id (bk_mask b)) <= bk_okay b)%nat;
}.

(** The schedulers that still have to move: counted by the loop counter. *)
Lemma count_unfinished ids s :
  Forall (fun h => bgood h s) ids ->
  (sum_list_with (fun h => brank s h - 1)%nat (List.filter (unfinished s) ids)
   + length (List.filter (unfinished s) ids) <= sum_list_with (brank s) ids)%nat.
Proof using Htgt.
  induction 1 as [|h ids Hg Hgs IH]; cbn; [lia|].
  destruct (unfinished s h) eqn:Hu; cbn; [|lia].
  pose proof (unfinished_rank h s Hg Hu). lia.
Qed.

(** The rank left after a round of waits. *)
Lemma rank_after_round mask1 mask3 s t :
  in_width 32 mask1 -> in_width 32 mask3 ->
  (forall h, in_mask mask3 h -> in_mask mask1 h /\ (brank t h <= brank s h - 1)%nat) ->
  (sum_list_with (brank t) (for_each_id mask3)
   <= sum_list_with (fun h => brank s h - 1)%nat (for_each_id mask1))%nat.
Proof using.
  intros H1 H3 Hsub. rewrite !for_each_id_filter by done. apply sum_filter_mono.
  intros h (k & -> & Hk%elem_of_seq)%list_elem_of_fmap Hb.
  destruct (Hsub (Z.of_nat k)) as [[_ ?] ?]; [|done]. split; [lia|done].
Qed.

(** The state between step 1 and step 3 of a round. *)
Record after_next (mask0 allow : Z) b b1 s : Prop := {
  an_width : in_width 32 (bk_mask b1);
  an_mask : forall h, in_mask (bk_mask b1) h <-> in_mask (bk_mask b) h /\ unfinished s h = true;
  an_bad : bk_bad b1 = bk_bad b;
  an_ret : bk_ret b = 0 -> bk_ret b1 = 0;
  an_ready : wait_ready (bk_mask b1) b1 s;
  an_rank : (sum_list_with (fun h => brank s h - 1)%nat (for_each_id (bk_mask b1))
             <= bk_okay b1)%nat;
  an_okay : bk_okay b1 = bk_okay b \/ (bk_okay b1 < bk_okay b)%nat;
  an_less : bk_mask b1 <> 0 -> (bk_okay b1 < bk_okay b)%nat;
}.

Lemma wp_round_next mask0 allow b s :
  in_width 32 mask0 -> rounds_inv mask0 allow b s ->
  wp (bulk_get_next (for_each_id (bk_mask b)) target_vf tgt b)
     (fun r t => t = s /\ fst r = false /\ after_next mask0 allow b (snd r) s) s.
Proof using Htv Htgt.
  intros Hw0 [Rw Rs Rg Rc Rret Rout Rrank].
  set (ids := for_each_id (bk_mask b)) in *.
  assert (forall h, h ∈ ids <-> in_mask (bk_mask b) h) as Hids
    by (intros; unfold ids, in_mask; by apply elem_of_for_each_id).
  assert (Forall (fun h => bgood h s) ids) as Hg
    by (apply Forall_forall; intros h Hh; by apply Rg, Rs, Hids).
  pose proof (count_unfinished ids s Hg) as Hcount.
  eapply wp_mono; [apply wp_bulk_get_next; [done|by apply NoDup_for_each_id|done|lia]|].
  intros [ex b1] t (-> & Hex & Hbad & Hok & Hret & Hw1 & Hbits & Hnext & _). cbn [fst snd] in *.
  split_and!; [done|done|].
  assert (forall h, 0 <= h < 32 -> Z.testbit (bk_mask b1) h =
            Z.testbit (bk_mask b) h && unfinished s h) as Hbits'.
  { intros h Hh. rewrite Hbits by lia. destruct (Z.testbit (bk_mask b) h) eqn:Eb; [|done].
    rewrite bool_decide_eq_true_2; [done|]. by apply Hids. }
  assert (forall h, in_mask (bk_mask b1) h <-> in_mask (bk_mask b) h /\ unfinished s h = true) as Hm.
  { intros h. unfold in_mask. split.
    - intros [Hh Hb]. rewrite Hbits' in Hb by done. apply andb_true_iff in Hb. tauto.
    - intros [[Hh Hb] Hu]. split; [done|]. by rewrite Hbits', Hb, Hu by done. }
  assert (for_each_id (bk_mask b1) = List.filter (unfinished s) ids) as Eids
    by (by apply for_each_id_sub).
  split; try done.
  - intros h Hh. apply Hm in Hh as [Hin Hu]. split_and!; [by apply Rg, Rs|done|].
    intros m Em. apply Hnext; [by apply Hids|done|done].
  - rewrite Eids. lia.
  - lia.
  - intros Hne. pose proof (ids_nonempty _ Hw1 Hne) as Hl. rewrite Eids in Hl. lia.
Qed.

(** Steps 2 and 3 re-establish the invariant. *)
Lemma rounds_inv_after mask0 allow b b1 b2 b3 s s2 t :
  in_width 32 mask0 -> rounds_inv mask0 allow b s -> after_next mask0 allow b b1 s ->
  same_core s s2 -> b2 = b1 \/ b2 = (b1 <| bk_ret := 0 |>) ->
  wait_post allow (bk_mask b1) s2 b2 b3 t ->
  rounds_inv mask0 allow b3 t /\ bulk_frame (in_mask (bk_mask b1)) s t.
Proof using Htv Htgt.
  intros Hw0 [Rw Rs Rg Rc Rret Rout Rrank] [Aw Am Abad Aret Ar Arank _ _] Hcore Hb2
    [Wf Wo Ww We Wr Wb Wout].
  assert (bk_mask b2 = bk_mask b1 /\ bk_bad b2 = bk_bad b1 /\ bk_okay b2 = bk_okay b1 /\
          (bk_ret b1 = 0 -> bk_ret b2 = 0)) as (Em & Eb & Eo & Er) by (by destruct Hb2 as [-> | ->]).
  assert (forall h, bgood h s -> bgood h s2) as Hg2 by (intros h; by apply bgood_core).
  assert (bulk_frame (in_mask (bk_mask b1)) s t) as Hf by (by eapply bulk_frame_core).
  assert (forall h, in_mask (bk_mask b3) h -> in_mask (bk_mask b1) h /\ stepped h s t) as H3.
  { intros h [Hh Hb]. destruct (Z.testbit (bk_mask b1) h) eqn:E1.
    - split; [done|]. destruct (We h) as [[_ Hst]|[Hb' _]]; [done| |congruence].
      by eapply stepped_frame_l.
    - rewrite Wr, Em in Hb; [congruence|lia|]. intros [_ ?]. congruence. }
  assert (forall h, in_mask (bk_mask b3) h -> bgood h t /\ (brank t h <= brank s h - 1)%nat) as Hprog.
  { intros h Hh. apply H3 in Hh as [Hin Hst]. apply Am in Hin as [Hin Hu].
    apply (stepped_progress h s t); [by apply Rg, Rs|done|done]. }
  assert (in_width 32 (bk_mask b3)) as Hw3 by (apply Ww; by rewrite Em).
  split; [|done]. split; try done.
  - intros h Hh. apply H3 in Hh as [Hin _]. apply Am in Hin as [Hin _]. by apply Rs.
  - intros h Hh. destruct (Z.testbit (bk_mask b1) h) eqn:E1.
    + destruct (We h) as [[Hb Hst]|(_ & _ & Hg)]; [by split; [apply Hh|]| |done].
      apply Hprog. split; [apply Hh|]. by rewrite Hb, Em.
    + eapply bgood_frame; [exact Hf|intros [_ ?]; congruence|by apply Rg].
  - intros h Hh. pose proof Hh as [Hr _]. destruct (Z.testbit (bk_mask b1) h) eqn:E1.
    + destruct (We h) as [[Hb Hst]|(_ & Hb & _)]; [by split| |auto].
      left. split; [done|]. by rewrite Hb, Em.
    + destruct (Rc h Hh) as [Hin|[Hon|Hbad]].
      * right. left. eapply on_target_frame; [exact Hf|intros [_ ?]; congruence|lia|].
        apply finished_on_target; [by apply Rg|]. apply not_true_is_false. intros Hu.
        assert (in_mask (bk_mask b1) h) as [_ ?] by (by apply Am). congruence.
      * right. left. eapply on_target_frame; [exact Hf|intros [_ ?]; congruence|lia|done].
      * right. right. apply Wb; [lia|]. by rewrite Eb, Abad.
  - intros H0. destruct Wout as [[Hb Hr]|[? _]]; [|done]. apply Hr, Er, Aret, Rret. congruence.
  - destruct Wout as [[Hb _]|[_ ?]]; [|by right]. rewrite Hb, Eb, Abad. done.
  - etransitivity; [|etransitivity; [exact Arank|lia]].
    apply rank_after_round; [done|done|]. intros h Hh. split; [by apply H3|by apply Hprog].
Qed.

Lemma wp_bulk_rounds mask0 fuel b s :
  in_width 32 mask0 -> ws_shape s ->
  rounds_inv mask0 (allow_time_cmd_complete (config s)) b s -> (bk_okay b < fuel)%nat ->
  wp (bulk_rounds fuel target_vf tgt b) (fun b' t => bk_mask b' = 0 /\
    rounds_inv mask0 (allow_time_cmd_complete (config s)) b' t /\
    bulk_frame (in_mask mask0) s t) s.
Proof using Htv Htgt.
  intros Hw0. revert b s. induction fuel as [|fuel IH]; intros b s Hs Hri Hfuel; [lia|].
  cbn [bulk_rounds]. wp_step. eapply wp_mono; [by apply (wp_round_next mask0 (allow_time_cmd_complete (config s)))|].
  intros [ex b1] s0 (-> & Hex & Han). cbn [fst snd] in *. subst ex.
  pose proof Han as [Aw Am Abad Aret Ar Arank Aok Aless].
  wp_step. eapply wp_mono; [apply wp_bulk_send; [done|]|].
  { apply Forall_forall. intros h Hh. apply elem_of_for_each_id in Hh; [|done].
    destruct (Ar h Hh) as (Hg & Hu & Hn). pose proof Hg as [_ (m & Hm & _)].
    rewrite (Hn m Hm). split; [apply Hh|]. by apply bgood_round. }
  intros b2 s2 [Hcore Hb2].
  assert (bk_mask b2 = bk_mask b1 /\ bk_next b2 = bk_next b1) as [Em En] by (by destruct Hb2 as [-> | ->]).
  wp_step. destruct (hw_time (device s2)) as [now d] eqn:Etime.
  eapply wp_dev_eq; [exact Etime|]. wp_step. wp_step. wp_step.
  set (s3 := s2 <| device := d |>). assert (same_core s s3) as Hcore3 by exact Hcore.
  rewrite Em. eapply wp_mono; [apply wp_bulk_wait|].
  - done.
  - pose proof (length_ids_le (bk_mask b1) Aw). lia.
  - destruct Hcore3 as (Hc & _ & _ & Hm & Hv), Hs. split; congruence.
  - intros h Hh. destruct (Ar h Hh) as (Hg & Hu & Hn). destruct Hcore3 as (Hc & Ha & Hp & Hm & Hv).
    split_and!.
    + by apply (bgood_core h s).
    + unfold unfinished, babs, abs_of in *. by rewrite Hm, Hv.
    + intros m Emm. rewrite Hm in Emm. rewrite En, (Hn m Emm). unfold bnext, babs, abs_of.
      by rewrite Hv.
  - exists 0%nat. split; [by apply length_ids_le|]. intros delta Hpr.
    pose proof (pr_read _ _ Hpr (device s2)) as H. unfold hw_clock in *. rewrite Etime in H. cbn [fst snd] in H.
    change (device s3) with d. lia.
  - intros b3 t Hpost.
    assert (config s3 = config s) as Ecfg by apply Hcore3. rewrite Ecfg in Hpost.
    destruct (rounds_inv_after mask0 (allow_time_cmd_complete (config s)) b b1 b2 b3 s s3 t) as [Hri3 Hf]; try done.
    assert (bulk_frame (in_mask mask0) s t) as Hf0.
    { eapply bulk_frame_weaken; [|exact Hf]. intros h Hh. apply Am in Hh as [Hh _].
      by apply (ri_sub _ _ _ _ Hri). }
    destruct (Z.eqb_spec (bk_mask b3) 0) as [E0|Hne]; [by wp_step|].
    assert (bk_mask b1 <> 0) as Hne1.
    { intros E1. apply Hne. apply mask_zero; [apply Hri3|]. intros h [Hh Hb].
      destruct Hpost as [_ _ _ _ Hrest _ _]. rewrite Hrest, Em, E1, Z.bits_0 in Hb; [done|lia|].
      rewrite E1. intros [_ Hb']. by rewrite Z.bits_0 in Hb'. }
    specialize (Aless Hne1).
    assert (allow_time_cmd_complete (config t) = allow_time_cmd_complete (config s)) as Eal
      by (by eapply bulk_frame_allow).
    eapply wp_mono; [apply IH|].
    + by apply Hf.
    + by rewrite Eal.
    + rewrite (wp_okay _ _ _ _ _ _ Hpost). destruct Hb2 as [-> | ->]; cbn; lia.
    + intros b' u (H0 & Hu & Hfu). rewrite Eal in Hu. split_and!; try done.
      by eapply bulk_frame_trans.
Qed.
End walk.

(** ** Locks *)

(** The locks of [ids] are [v]; nothing else changed. *)
Record relocked (ids : list Z) (v : bool) s t : Prop := {
  rl_core : config t = config s /\ array_vf t = array_vf s /\
            perf_log_enabled t = perf_log_enabled s /\ sched_vfs t = sched_vfs s /\
            cmds t = cmds s /\ device t = device s;
  rl_length : length (hw_state_machine t) = length (hw_state_machine s);
  rl_in : forall h m, 0 <= h -> h ∈ ids -> hw_state_machine s !! Z.to_nat h = Some m ->
    hw_state_machine t !! Z.to_nat h = Some (m <| ws_locked := v |>);
  rl_out : forall h, 0 <= h -> h ∉ ids ->
    hw_state_machine t !! Z.to_nat h = hw_state_machine s !! Z.to_nat h;
}.

Lemma relocked_nil v s : relocked [] v s s.
Proof. split; try done. by intros h m _ ?%elem_of_nil. Qed.

Lemma relocked_snoc ids h m v s t :
  0 <= h -> h ∉ ids -> hw_state_machine t !! Z.to_nat h = Some m ->
  relocked ids v s t -> relocked (ids ++ [h]) v s (put_lock h m v t).
Proof.
  intros Hh Hn Hm [Hc Hl Hi Ho]. split; [done|cbn; by rewrite length_insert| |].
  - intros h' m' Hh' Hin Hm'. cbn. destruct (decide (h' = h)) as [->|Hne].
    + rewrite list_lookup_insert_eq by (by eapply lookup_lt_Some).
      rewrite Ho in Hm by done. by assert (m' = m) as -> by congruence.
    + rewrite list_lookup_insert_ne by lia.
      apply elem_of_app in Hin as [Hin|?%list_elem_of_singleton]; [by apply Hi|done].
  - intros h' Hh' Hin. rewrite elem_of_app, list_elem_of_singleton in Hin. cbn.
    rewrite list_lookup_insert_ne by (intros ?; apply Hin; right; lia). apply Ho; tauto.
Qed.

Lemma sched_inv_relocked ids v h s t : relocked ids v s t -> sched_inv h s -> sched_inv h t.
Proof.
  intros [(Hc & _ & _ & Hv & _) Hl Hi Ho] [Hs Hh Hmax (m & c & Hm & Hcv & Hcc & Hok & Hoth)].
  split; [|done|by rewrite Hc|].
  { destruct Hs. split; congruence. }
  destruct (decide (h ∈ ids)) as [Hin|Hin].
  - exists (m <| ws_locked := v |>), c. rewrite (Hi h m) by (done || lia). rewrite Hv.
    split_and!; try done; try apply Hcv.
    intros v' c' Hp. apply Hoth. unfold vf_present in *. by rewrite <- Hc.
  - exists m, c. rewrite Ho by (done || lia). rewrite Hv. split_and!; try done; try apply Hcv.
    intros v' c' Hp. apply Hoth. unfold vf_present in *. by rewrite <- Hc.
Qed.

Lemma wp_bulk_lock ids s :
  NoDup ids -> Forall (fun h => 0 <= h /\ locked h false s) ids ->
  wp (bulk_lock ids) (fun r t => r = false /\ relocked ids true s t) s.
Proof.
  intros Hnd Hall. enough (forall pre post t, ids = pre ++ post -> relocked pre true s t ->
    wp (bulk_lock post) (fun r t => r = false /\ relocked ids true s t) t) as H.
  { apply (H [] ids s); [done|apply relocked_nil]. }
  intros pre post. revert pre. induction post as [|h post IH]; intros pre t E Ht; cbn [bulk_lock].
  - wp_step. rewrite app_nil_r in E. by subst.
  - assert (0 <= h /\ locked h false s) as [Hh (m & Hm & Hlk)].
    { rewrite Forall_forall in Hall. apply Hall. rewrite E. apply elem_of_app. right. by left. }
    assert (h ∉ pre) as Hnin.
    { rewrite E in Hnd. apply NoDup_app in Hnd as (_ & Hnd & _). intros Hin. apply (Hnd h Hin). by left. }
    assert (hw_state_machine t !! Z.to_nat h = Some m) as Hmt by (by rewrite (rl_out _ _ _ _ Ht)).
    wp_step. eapply wp_trylock; [exact Hmt|congruence|]. intros _.
    apply (IH (pre ++ [h])); [by rewrite <- app_assoc|]. by apply relocked_snoc.
Qed.

Lemma wp_bulk_unlock ids s :
  NoDup ids -> Forall (fun h => 0 <= h /\ is_Some (hw_state_machine s !! Z.to_nat h)) ids ->
  wp (for_each ids ws_unlock) (fun _ t => relocked ids false s t) s.
Proof.
  intros Hnd Hall.
  apply (wp_for_each_pre (fun pre t => relocked pre false s t)); [|apply relocked_nil].
  intros pre h post t E Ht.
  assert (0 <= h /\ is_Some (hw_state_machine s !! Z.to_nat h)) as [Hh [m Hm]].
  { rewrite Forall_forall in Hall. apply Hall. rewrite E. apply elem_of_app. right. by left. }
  assert (h ∉ pre) as Hnin.
  { rewrite E in Hnd. apply NoDup_app in Hnd as (_ & Hnd & _). intros Hin. apply (Hnd h Hin). by left. }
  assert (hw_state_machine t !! Z.to_nat h = Some m) as Hmt by (by rewrite (rl_out _ _ _ _ Ht)).
  unfold ws_unlock. eapply wp_upd_machine; [exact Hmt|]. by apply relocked_snoc.
Qed.

(** ** The whole function *)

Lemma sum_rank_le tgt target_vf ids s :
  In tgt ws_targets -> Forall (fun h => bgood target_vf tgt h s) ids ->
  (sum_list_with (brank target_vf tgt s) ids <= 8 * length ids)%nat.
Proof.
  intros Ht. induction 1 as [|h ids [_ (m & Hm & Hok)] Hgs IH]; cbn; [lia|].
  unfold brank at 1. rewrite Hm. pose proof (rank_le_8 _ _ Ht Hok). lia.
Qed.

(** A request for the schedulers of [mask]. *)
Record bulk_request (target_vf mask tgt : Z) s : Prop := {
  br_mask : in_width 32 mask;
  br_target : In tgt ws_targets;
  br_present : vf_present s target_vf;
  br_sched : forall h, in_mask mask h -> sched_inv h s /\ locked h false s /\
    (tgt = AMDGV_SHUTDOWN_GPU -> suspend_saved h target_vf s);
  br_count : Z.of_nat (length (for_each_id mask)) <= num_ctrl_blocks (config s) <= 32;
  br_shape : ws_shape s;
  br_max : max_num_vf (config s) <= AMDGV_PF_IDX;
}.

(** What it guarantees. *)
Record bulk_result (target_vf mask tgt : Z) s (ret : Z) t : Prop := {
  bres_inv : forall h, in_mask mask h -> sched_inv h t;
  bres_lock : forall h, in_mask mask h -> locked h false t;
  bres_done : ret = 0 -> forall h, in_mask mask h -> on_target target_vf h tgt t;
  bres_ret : ret = 0 \/ (ret = AMDGV_FAILURE /\
                         ~ hw_bulk_completes (allow_time_cmd_complete (config s)));
  bres_others : forall h, 0 <= h -> ~ in_mask mask h ->
    hw_state_machine t !! Z.to_nat h = hw_state_machine s !! Z.to_nat h /\
    forall v, 0 <= v -> vs_get (sched_vfs t) v h = vs_get (sched_vfs s) v h;
}.

Lemma bulk_start target_vf mask tgt s s1 :
  bulk_request target_vf mask tgt s -> relocked (for_each_id mask) true s s1 ->
  rounds_inv target_vf tgt mask (allow_time_cmd_complete (config s1))
    (mk_bulk mask 0 (fun _ => (0, 0)) (Z.to_nat (u32 (20 * num_ctrl_blocks (config s)))) 0) s1.
Proof.
  intros [Bm Bt Bp Bs Bc Bsh Bmax] Hrl.
  assert (forall h, in_mask mask h -> bgood target_vf tgt h s1) as Hg.
  { intros h Hh. destruct (Bs h Hh) as (Hi & (m & Hm & _) & Hsus).
    pose proof (sched_inv_relocked _ _ _ _ _ Hrl Hi) as Hi1. split; [done|].
    exists (m <| ws_locked := true |>).
    assert (hw_state_machine s1 !! Z.to_nat h = Some (m <| ws_locked := true |>)) as Hm1.
    { apply (rl_in _ _ _ _ Hrl); [destruct Hh; lia|by apply elem_of_for_each_id|done]. }
    destruct Hrl as [(Hc & _ & _ & Hv & _) _ _ _].
    split; [done|]. apply sched_inv_abs; [done|done| |].
    - unfold vf_present in *. by rewrite Hc.
    - unfold suspend_saved in *. by rewrite Hv. }
  split; cbn [bk_mask bk_bad bk_okay bk_ret]; auto.
  assert (Forall (fun h => bgood target_vf tgt h s1) (for_each_id mask)) as Hall.
  { apply Forall_forall. intros h Hh. apply Hg. by apply elem_of_for_each_id in Hh. }
  pose proof (sum_rank_le tgt target_vf _ s1 Bt Hall).
  rewrite wrap_id by (unfold in_width; lia). lia.
Qed.

Lemma wp_bulk_goto target_vf mask tgt s :
  bulk_request target_vf mask tgt s ->
  wp (world_switch_bulk_goto_state_manual target_vf mask tgt) (bulk_result target_vf mask tgt s) s.
Proof.
  intros Hreq. pose proof Hreq as [Bm Bt Bp Bs Bc Bsh Bmax].
  pose proof (present_range _ _ Bmax Bp) as Htv.
  assert (forall h, h ∈ for_each_id mask <-> in_mask mask h) as Hids
    by (intros; by apply elem_of_for_each_id).
  pose proof (NoDup_for_each_id mask Bm) as Hnd.
  unfold world_switch_bulk_goto_state_manual. wp_step. wp_step. wp_step.
  eapply wp_mono; [apply wp_bulk_lock; [done|]|].
  { apply Forall_forall. intros h Hh%Hids. split; [destruct Hh; lia|]. by apply Bs. }
  intros r s1 [-> Hrl]. pose proof (bulk_start _ _ _ _ _ Hreq Hrl) as Hri.
  pose proof Hrl as [(Hc & _ & _ & Hv & _) Hl Hin Hout].
  wp_step. eapply wp_mono; [apply (wp_bulk_rounds target_vf tgt Htv Bt mask); [done| |exact Hri|cbn; lia]|].
  { destruct Bsh. split; congruence. }
  intros b t1 (H0 & [_ _ Rg Rc Rret Rout _] & Hf). wp_step.
  eapply wp_mono; [apply wp_bulk_unlock; [done|]|].
  { apply Forall_forall. intros h Hh%Hids. split; [destruct Hh; lia|].
    destruct (Rg h Hh) as [_ (m & Hm & _)]. by rewrite Hm. }
  intros [] t Hul. pose proof Hul as [(Hc' & _ & _ & Hv' & _) Hl' Hin' Hout']. wp_step.
  split.
  - intros h Hh. eapply sched_inv_relocked; [exact Hul|]. by apply Rg.
  - intros h Hh. destruct (Rg h Hh) as [_ (m & Hm & _)]. exists (m <| ws_locked := false |>).
    split; [|done]. apply Hin'; [destruct Hh; lia|by apply Hids|done].
  - intros Hz h Hh. destruct (Z.eqb_spec (bk_bad b) 0) as [Eb|]; [|done].
    destruct (Rc h Hh) as [[_ Hb]|[(m & Hm & Hg & Hcv)|Hb]].
    + by rewrite H0, Z.bits_0 in Hb.
    + exists (m <| ws_locked := false |>). split; [|done].
      apply Hin'; [destruct Hh; lia|by apply Hids|done].
    + by rewrite Eb, Z.bits_0 in Hb.
  - destruct (Z.eqb_spec (bk_bad b) 0) as [Eb|Eb]; [left; by apply Rret|right].
    split; [done|]. destruct Rout as [?|Hno]; [done|]. by rewrite <- Hc.
  - intros h Hh Hn. split.
    + rewrite Hout' by (done || by rewrite Hids). rewrite (bf_others _ _ _ Hf) by done.
      apply Hout; [done|by rewrite Hids].
    + intros v Hv0. rewrite Hv', (bf_vfs _ _ _ Hf) by done. by rewrite Hv.
Qed.
End bulk.
