(* ===== verification/WsLive.v ===== *)
(** * World switch: initialisation and live update

    [amdgv_hw_sched_init] leaves every scheduler consistent; exporting the
    state machines and importing the table into another instance of the
    driver gives that instance the same machines. *)
From S2P Require Import Prelude Api Mask Gpuiov WsState WsInv WsManual.
#[local] Open Scope Z_scope.

Section live.
Context {hw : Type} `{HW : WsHw hw}.
Implicit Types (s t : adapter hw).

(** ** Initialisation *)

Definition init_machine (m : world_switch_state) : world_switch_state :=
  m <| goto_state := Some (if mode m =? AMDGV_WS_MODE_AUTO
                           then world_switch_goto_state_auto_ptr
                           else world_switch_goto_state_manual_ptr) |>
    <| cur_gpu_state := AMDGV_SHUTDOWN_GPU |>.

(** The state with the machines of [hs] initialised and the VF states [done]
    shut down. *)
Record init_post (hs : list Z) (done : Z -> Z -> Prop) s t : Prop := {
  ip_shape : ws_shape t;
  ip_config : config t = config s;
  ip_array : length (array_vf t) = length (array_vf s);
  ip_hs : forall h m, 0 <= h -> h ∈ hs -> hw_state_machine s !! Z.to_nat h = Some m ->
            hw_state_machine t !! Z.to_nat h = Some (init_machine m);
  ip_rest : forall h, 0 <= h -> h ∉ hs ->
            hw_state_machine t !! Z.to_nat h = hw_state_machine s !! Z.to_nat h;
  ip_done : forall v h, done v h -> 0 <= v -> 0 <= h ->
            vs_get (sched_vfs t) v h = Some AMDGV_SHUTDOWN_GPU;
}.

Lemma init_post_set hs done s t v h :
  init_post hs done s t -> 0 <= v < 32 -> 0 <= h < 32 ->
  init_post hs (fun v' h' => done v' h' \/ (v' = v /\ h' = h)) s
    (t <| sched_vfs := vs_set (sched_vfs t) v h AMDGV_SHUTDOWN_GPU |>).
Proof.
  intros [Hs ? ? ? ? Hd] Hv Hh. split; try done.
  - destruct Hs. split; [by apply vs_set_shape|done..].
  - cbn. intros v' h' Hdone ??. rewrite vs_get_set by (done || apply Hs).
    destruct (decide _) as [_|Hn]; [done|]. destruct Hdone as [Hd'|?]; [by apply Hd|done].
Qed.

Lemma init_post_weaken hs (d1 d2 : Z -> Z -> Prop) s t :
  (forall v h, 0 <= h -> d2 v h -> d1 v h) -> init_post hs d1 s t -> init_post hs d2 s t.
Proof. intros Hi []. split; auto. Qed.

(** Numbers below a bound, as the loops enumerate them. *)
Lemma elem_of_ids (n : nat) x : x ∈ Z.of_nat <$> seq 0 n <-> 0 <= x < Z.of_nat n.
Proof.
  rewrite list_elem_of_fmap. setoid_rewrite elem_of_seq. split.
  - intros (k & -> & ?). lia.
  - intros. exists (Z.to_nat x). lia.
Qed.
Lemma ids_split (n : nat) pre x post :
  Z.of_nat <$> seq 0 n = pre ++ x :: post -> 0 <= x < Z.of_nat n /\ x ∉ pre.
Proof.
  intros E. split.
  - apply elem_of_ids. rewrite E. apply elem_of_app. right. by left.
  - assert (NoDup (Z.of_nat <$> seq 0 n)) as Hnd.
    { apply (NoDup_fmap_2 Z.of_nat), NoDup_seq. }
    rewrite E in Hnd. apply NoDup_app in Hnd as (_ & Hnd & _).
    intros Hin. apply (Hnd x Hin). by left.
Qed.

Lemma wp_init_machines s :
  ws_shape s ->
  wp (for_each (Z.of_nat <$> seq 0 (Z.to_nat AMDGV_MAX_NUM_HW_SCHED)) (fun h =>
    _ ← upd_machine h init_machine;
    set_vf_state AMDGV_PF_IDX h AMDGV_SHUTDOWN_GPU))
  (fun _ => init_post (Z.of_nat <$> seq 0 32) (fun v h => v = AMDGV_PF_IDX /\ h < 32) s) s.
Proof.
  intros Hs. eapply wp_mono; [apply (wp_for_each_pre
    (fun pre => init_post pre (fun v h => v = AMDGV_PF_IDX /\ h ∈ pre) s))|].
  - intros pre h post t E Ht. apply ids_split in E as [Hh Hnin]. change (Z.of_nat (Z.to_nat AMDGV_MAX_NUM_HW_SCHED)) with 32 in Hh.
    destruct (lookup_lt_is_Some_2 (hw_state_machine t) (Z.to_nat h)) as [m Hm].
    { rewrite (sh_machines _ (ip_shape _ _ _ _ Ht)). lia. }
    wp_step. eapply wp_upd_machine; [exact Hm|].
    apply wp_set_vf_state.
    { apply vs_get_some; [apply Ht|unfold AMDGV_PF_IDX; lia|lia]. }
    apply (init_post_weaken _ (fun v h' => (v = AMDGV_PF_IDX /\ h' ∈ pre) \/ (v = AMDGV_PF_IDX /\ h' = h))).
    { intros v h' _ [-> Hin]. apply elem_of_app in Hin as [?|?%list_elem_of_singleton]; auto. }
    apply init_post_set; [|unfold AMDGV_PF_IDX; lia|lia].
    destruct Ht as [Hsh Hc Ha Hhs Hrest Hd]. split; try done.
    + destruct Hsh. split; [done| |done]. cbn. by rewrite length_insert.
    + intros h' m' Hp Hin Hm'. cbn. destruct (decide (h' = h)) as [->|Hne].
      * rewrite list_lookup_insert_eq by (by eapply lookup_lt_Some).
        rewrite Hrest in Hm by (done || lia). congruence.
      * apply elem_of_app in Hin as [Hin|?%list_elem_of_singleton]; [|done].
        rewrite list_lookup_insert_ne by lia. by apply Hhs.
    + intros h' Hp Hin. cbn. rewrite list_lookup_insert_ne; [apply Hrest; [done|]|].
      * intros ?. apply Hin. apply elem_of_app. by left.
      * intros He. apply Hin. apply elem_of_app. right. apply list_elem_of_singleton. lia.
  - split; try done; [set_solver|]. by intros v h [_ ?%elem_of_nil].
  - intros [] t Ht. eapply init_post_weaken; [|exact Ht].
    intros v h ? [-> ?]. split; [done|]. apply (elem_of_ids 32). lia.
Qed.

(** One VF: its row is shut down and it is taken out of auto scheduling. *)
Lemma wp_init_row hs done s t i :
  init_post hs done s t -> 0 <= i < 32 -> length (array_vf s) = 32%nat ->
  wp (_ ← for_each (Z.of_nat <$> seq 0 (Z.to_nat AMDGV_MAX_NUM_HW_SCHED)) (fun h =>
        set_vf_state i h AMDGV_SHUTDOWN_GPU);
      e ← vf_entry_at i;
      modify (fun s : adapter hw => s <| array_vf := <[Z.to_nat i := e <| auto_run := false |> ]> (array_vf s) |>))
  (fun _ => init_post hs (fun v h => done v h \/ (v = i /\ h < 32)) s) t.
Proof.
  intros Ht Hi Ha. wp_step. eapply wp_mono; [apply (wp_for_each_pre
    (fun pre => init_post hs (fun v h => done v h \/ (v = i /\ h ∈ pre)) s))|].
  - intros pre h post u E Hu. apply ids_split in E as [Hh _].
    change (Z.of_nat (Z.to_nat AMDGV_MAX_NUM_HW_SCHED)) with 32 in Hh.
    apply wp_set_vf_state; [apply vs_get_some; [apply Hu|lia|lia]|].
    eapply init_post_weaken; [|apply init_post_set; [exact Hu|exact Hi|exact Hh]].
    intros v h' _ [?|[-> Hin]]; [by left; left|].
    apply elem_of_app in Hin as [?|?%list_elem_of_singleton]; auto.
  - eapply init_post_weaken; [|exact Ht]. intros v h _ [?|[_ ?%elem_of_nil]]; done.
  - intros [] u Hu. destruct (lookup_lt_is_Some_2 (array_vf u) (Z.to_nat i)) as [e He].
    { rewrite (ip_array _ _ _ _ Hu). lia. }
    wp_step. apply (wp_intro _ e u u); [unfold vf_entry_at; by rewrite He|]. wp_step.
    destruct Hu as [[] ? ? ? ? Hd]. split; try done.
    + cbn. by rewrite length_insert.
    + intros v h [Hdn|[-> ?]] ??; apply Hd; auto. right. split; [done|].
      apply (elem_of_ids 32). lia.
Qed.

Lemma wp_hw_sched_init s :
  ws_shape s -> length (array_vf s) = 32%nat -> 0 <= max_num_vf (config s) <= AMDGV_PF_IDX ->
  wp amdgv_hw_sched_init (fun ret t => ret = 0 /\
    init_post (Z.of_nat <$> seq 0 32) (fun v h => vf_present s v /\ h < 32) s t) s.
Proof.
  intros Hs Ha Hn. unfold amdgv_hw_sched_init. wp_step.
  eapply wp_mono; [by apply wp_init_machines|]. intros [] t Ht.
  wp_step. wp_step. wp_step. eapply wp_mono; [apply (wp_for_each_pre
    (fun pre => init_post (Z.of_nat <$> seq 0 32)
       (fun v h => (v = AMDGV_PF_IDX \/ v ∈ pre) /\ h < 32) s))|].
  - intros pre i post u E Hu. apply ids_split in E as [Hi _].
    rewrite (ip_config _ _ _ _ Ht) in Hi. unfold AMDGV_PF_IDX in Hn.
    eapply wp_mono; [apply (wp_init_row _ _ _ _ _ Hu); [lia|done]|].
    intros [] u' Hu'. eapply init_post_weaken; [|exact Hu'].
    intros v h _ [Hv ?]. rewrite elem_of_app, list_elem_of_singleton in Hv. tauto.
  - eapply init_post_weaken; [|exact Ht]. intros v h _ [[?|?%elem_of_nil] ?]; done.
  - intros [] u Hu. wp_step. split; [done|]. eapply init_post_weaken; [|exact Hu].
    intros v h _ [Hp ?]. split; [|done]. destruct Hp as [?|?]; [right|by left].
    apply elem_of_ids. rewrite (ip_config _ _ _ _ Ht). lia.
Qed.

(** An initialised scheduler whose engine is on a VF of the device is
    consistent. *)
Lemma init_post_inv s t h m :
  init_post (Z.of_nat <$> seq 0 32) (fun v h => vf_present s v /\ h < 32) s t ->
  max_num_vf (config s) <= AMDGV_PF_IDX -> 0 <= h < 32 ->
  hw_state_machine s !! Z.to_nat h = Some m -> vf_present s (cur_vf_id m) ->
  sched_inv h t.
Proof.
  intros [Hs Hc Ha Hhs _ Hd] Hn Hh Hm Hp.
  assert (forall v, vf_present s v -> 0 <= v < 32) as Hr by (intros; by apply (present_range s)).
  split; [done|done|by rewrite Hc|].
  exists (init_machine m), AMDGV_SHUTDOWN_GPU. split_and!.
  - apply Hhs; [lia| |done]. apply (elem_of_ids 32). lia.
  - cbn. apply Hr in Hp. lia.
  - cbn. apply Hr in Hp. lia.
  - cbn. apply Hd; [split; [done|lia]| |lia]. apply Hr in Hp. lia.
  - done.
  - intros v c Hv _ Hget. assert (vf_present s v) as Hv' by (unfold vf_present in *; by rewrite <- Hc).
    rewrite Hd in Hget; [by injection Hget as <-|split; [done|lia]| |lia].
    apply Hr in Hv'. lia.
Qed.

(** ** Live update *)

Definition live_of (m : world_switch_state) : live_info_ws_state :=
  mk_live (cur_gpu_state m) (cur_vf_id m) (mode m).

Definition live_into (l : live_info_ws_state) (m : world_switch_state) : world_switch_state :=
  m <| cur_gpu_state := li_cur_gpu_state l |> <| cur_vf_id := li_cur_vf_id l |>
    <| mode := li_mode l |>.

Lemma live_of_into l m : live_of (live_into l m) = l.
Proof. by destruct l. Qed.

Lemma wp_export_loop ids tab s :
  length (hw_state_machine s) = 32%nat -> length tab = 32%nat ->
  Forall (fun h => (h < 32)%nat) ids ->
  wp (export_loop ids tab) (fun r t => t = s /\ fst r = AMDGV_LIVE_INFO_STATUS_SUCCESS /\
    length (snd r) = 32%nat /\
    forall h, snd r !! h = if decide (h ∈ ids) then live_of <$> hw_state_machine s !! h
                           else tab !! h) s.
Proof.
  intros Hm. revert tab. induction ids as [|h ids IH]; intros tab Ht Hids; cbn [export_loop].
  - wp_step. split_and!; try done. 
  - inversion Hids as [|? ? Hh Hids']; subst.
    destruct (lookup_lt_is_Some_2 (hw_state_machine s) h) as [m Em]; [lia|].
    destruct (lookup_lt_is_Some_2 tab h) as [e Ee]; [lia|].
    wp_step. eapply wp_machine; [by rewrite Nat2Z.id|].
    wp_step. eapply wp_require; [exact Ee|].
    eapply wp_mono; [apply IH; [by rewrite length_insert|done]|].
    intros r t (-> & Hr & Hl & Htab). split_and!; try done. intros h'. rewrite Htab.
    destruct (decide (h' ∈ ids)) as [Hi|Hi].
    { rewrite decide_True; [done|by right]. }
    destruct (decide (h' = h)) as [->|Hne].
    + rewrite decide_True by by left. rewrite list_lookup_insert_eq by lia. by rewrite Em.
    + rewrite decide_False by (intros [?|?]%elem_of_cons; done).
      by rewrite list_lookup_insert_ne.
Qed.

(** Importing a table: the machines of the control blocks get its entries. *)
Record import_post (ids : list nat) (tab : list live_info_ws_state) s t : Prop := {
  im_frame : sched_vfs t = sched_vfs s /\ config t = config s /\ cmds t = cmds s;
  im_in : forall h m l, h ∈ ids -> hw_state_machine s !! h = Some m -> tab !! h = Some l ->
            hw_state_machine t !! h = Some (live_into l m);
  im_out : forall h, h ∉ ids -> hw_state_machine t !! h = hw_state_machine s !! h;
}.

Lemma wp_import tab s :
  length (hw_state_machine s) = 32%nat -> length tab = 32%nat ->
  0 <= num_ctrl_blocks (config s) <= 32 ->
  wp (amdgv_ws_state_import_live_data tab) (fun ret t =>
    ret = AMDGV_LIVE_INFO_STATUS_SUCCESS /\
    import_post (seq 0 (Z.to_nat (num_ctrl_blocks (config s)))) tab s t) s.
Proof.
  intros Hm Ht Hn. unfold amdgv_ws_state_import_live_data. wp_step. wp_step. wp_step.
  eapply wp_mono; [apply (wp_for_each_pre (fun pre => import_post pre tab s))|].
  - intros pre h post t E Hi.
    assert (h < 32 /\ h ∉ pre)%nat as [Hh Hnin].
    { split.
      - enough (h ∈ seq 0 (Z.to_nat (num_ctrl_blocks (config s)))) as Hin by (apply elem_of_seq in Hin; lia).
        rewrite E. apply elem_of_app. right. by left.
      - pose proof (NoDup_seq 0 (Z.to_nat (num_ctrl_blocks (config s)))) as Hnd.
        rewrite E in Hnd. apply NoDup_app in Hnd as (_ & Hnd & _).
        intros Hin. apply (Hnd h Hin). by left. }
    destruct (lookup_lt_is_Some_2 (hw_state_machine s) h) as [m Em]; [lia|].
    destruct (lookup_lt_is_Some_2 tab h) as [e Ee]; [lia|].
    wp_step. eapply wp_require; [exact Ee|].
    destruct Hi as [Hf Hin Hout].
    eapply wp_upd_machine; [rewrite Nat2Z.id, Hout by done; exact Em|]. rewrite Nat2Z.id.
    assert (h < length (hw_state_machine t))%nat.
    { apply lookup_lt_is_Some_1. rewrite Hout by done. eauto. }
    split; [done| |]; cbn; intros h'.
    + intros m' l Hin' Em' El. destruct (decide (h' = h)) as [->|].
      * rewrite list_lookup_insert_eq by done. assert (m' = m) as -> by congruence.
        by assert (l = e) as -> by congruence.
      * rewrite list_lookup_insert_ne by done.
        apply elem_of_app in Hin' as [?|?%list_elem_of_singleton]; [by apply Hin|done].
    + intros Hn'. rewrite elem_of_app, list_elem_of_singleton in Hn'.
      rewrite list_lookup_insert_ne by (intros ->; tauto). apply Hout. tauto.
  - split; [done| |done]. intros ??? ?%elem_of_nil. done.
  - intros [] t Hi. wp_step. done.
Qed.
End live.
