(* ===== verification/WsBoot.v ===== *)
(** * World switch: a concrete device

    A device that completes every command, one that never does, the state of
    an adapter with two VFs and two graphics schedulers after
    [amdgv_hw_sched_init], and a checker for the consistency of a concrete
    state. *)
From S2P Require Import Prelude Api Mask Gpuiov WsState WsInv WsManual WsBulk.
#[local] Open Scope Z_scope.

(** ** Checking consistency by computation *)

Section checker.
Context {hw : Type} `{HW : WsHw hw}.
Implicit Types s : adapter hw.

Definition vs_shape_b (l : list sched_vf_info) : bool :=
  (length l =? 32)%nat && forallb (fun v => (length (cur_vf_state v) =? 32)%nat) l.

Definition sched_inv_b (h : Z) s : bool :=
  vs_shape_b (sched_vfs s) && (length (hw_state_machine s) =? 32)%nat
  && (length (ctrl_blocks (config s)) =? 32)%nat
  && (0 <=? h) && (h <? 32) && (max_num_vf (config s) <=? AMDGV_PF_IDX)
  && match hw_state_machine s !! Z.to_nat h with
     | None => false
     | Some m =>
         (0 <=? cur_vf_id m) && (cur_vf_id m <? 32)
         && match vs_get (sched_vfs s) (cur_vf_id m) h with
            | Some c => owner_ok (cur_gpu_state m) c | None => false end
         && forallb (fun v =>
              (v =? cur_vf_id m) ||
              match vs_get (sched_vfs s) v h with Some c => parked c | None => true end)
              (AMDGV_PF_IDX :: (Z.of_nat <$> seq 0 (Z.to_nat (max_num_vf (config s)))))
     end.

Lemma sched_inv_b_sound h s : sched_inv_b h s = true -> sched_inv h s.
Proof.
  unfold sched_inv_b, vs_shape_b. intros H.
  destruct (hw_state_machine s !! Z.to_nat h) as [m|] eqn:Hm; [|by rewrite andb_false_r in H].
  destruct (vs_get (sched_vfs s) (cur_vf_id m) h) as [c|] eqn:Hc;
    [|rewrite !andb_false_r in H; done].
  zb. rewrite !forallb_forall in *.
  repeat match goal with H : (_ =? _)%nat = true |- _ => apply Nat.eqb_eq in H end.
  split; [split; [split; [done|]|done..]|lia|lia|].
  - apply Forall_forall. intros v Hv.
    match goal with H : forall x, In x (sched_vfs s) -> _ |- _ => apply Nat.eqb_eq, H end.
    by apply list_elem_of_In.
  - exists m, c. split_and!; try done.
    intros v c' Hp Hne Hg.
    match goal with H : forall x, In x (_ :: _) -> _ |- _ => specialize (H v); rename H into Hall end.
    rewrite Hg in Hall. assert ((v =? cur_vf_id m) = false) as E by by apply Z.eqb_neq.
    rewrite E in Hall. apply Hall. destruct Hp as [Hp| ->]; [right|by left].
    apply in_map_iff. exists (Z.to_nat v). split; [lia|]. apply in_seq. lia.
Qed.
End checker.

(** ** Devices *)

(** The device's state is its clock: every command takes 40 microseconds, a
    reading of the clock one; VF 1 is the one the hardware reports. *)
#[export] Instance ok_hw : WsHw Z := {|
  hw_set_cmd _ _ _ d := d;
  hw_wait_cmd_complete _ _ d := (true, d + 40);
  hw_wait_first mask _ d := (mask, d + 40);
  hw_time d := (d, d + 1);
  hw_get_active_vfs _ _ := 3;
  hw_get_active_vf_idx _ _ := 1;
  hw_get_active_vf_status _ _ := Some 0;
  hw_wait_auto_sched_stop _ d := (true, d);
  hw_update_vf_busy_status _ d := (0, d);
  hw_event_notification _ _ _ _ d := (true, d);
  hw_read_perf_log_data d := (true, d);
|}.

Lemma ok_hw_completes : @hw_completes Z ok_hw.
Proof. done. Qed.
Lemma ok_hw_prompt allow : 65 * 40 < allow -> @hw_bulk_completes Z ok_hw allow.
Proof.
  intros Ha. exists 40. split; [|intros; unfold hw_clock; cbn; rewrite wrap_id; unfold in_width; lia..|done].
  intros mask timeout d [h Hh]. exists h. split; [done|]. apply Hh.
Qed.

(** ** An adapter with two VFs *)

Definition boot_config : ws_config := {|
  flags := 0; max_num_vf := 2; num_ctrl_blocks := 2;
  ctrl_blocks := replicate 32 (mk_ctrl_block AMDGV_HW_SCHED_TYPE_GFX 3);
  num_vf_per_gfx_sched := 2; support_shutdown_cmd := false; has_busy_status := false;
  allow_time_cmd_complete := 500000 |}.

(** The zeroed state the allocation gives, VF 0 and 1 active, with one logical
    engine over schedulers 0 and 1. *)
Definition s_zero : adapter Z := {|
  config := boot_config;
  sched_vfs := replicate 2 (mk_sched_vf AMDGV_SCHED_ACTIVE (replicate 32 0)) ++
               replicate 30 (mk_sched_vf AMDGV_SCHED_UNAVAL (replicate 32 0));
  hw_state_machine := replicate 32 (mk_wss 0 0 1 false None);
  world_switches := [mk_ws true false AMDGV_SCHED_BLOCK_GFX 0 0 false 0 3 0 true];
  perf_log_enabled := replicate 32 false;
  array_vf := replicate 32 (mk_vf_entry false false);
  cmds := []; device := 0 |}.

Definition state_of {A} (o : outcome (A * adapter Z)) : adapter Z :=
  match o with Ret (_, s) => s | Fault => s_zero end.

Definition s_ws : adapter Z := Eval vm_compute in state_of (amdgv_hw_sched_init s_zero).

(** VF 0 running on scheduler 0. *)
Definition s_ws_run : adapter Z := Eval vm_compute in
  state_of (world_switch_goto_state_manual 0 0 AMDGV_RUN_GPU s_ws).

Lemma inv_ws h : h = 0 \/ h = 1 -> sched_inv h s_ws.
Proof. intros [-> | ->]; apply sched_inv_b_sound; vm_compute; reflexivity. Qed.

Lemma inv_ws_run : sched_inv 0 s_ws_run.
Proof. apply sched_inv_b_sound. vm_compute. reflexivity. Qed.
