(* ===== verification/WsProps.v ===== *)
(** * World switch: properties

    What the scheduler state machines guarantee their callers: the manual
    machine reaches its target or reports the command that timed out, sends
    only legal transitions, and leaves the other schedulers alone; the bulk
    machine decides as it does; initialisation and live update keep the
    machines consistent. *)
From S2P Require Import Prelude Api Mask Gpuiov WsState WsInv WsManual WsBulk WsLive WsBoot.
#[local] Open Scope Z_scope.

Section properties.
Context {hw : Type} `{HW : WsHw hw}.
Implicit Types (s t : adapter hw).

(** C6: whatever the device answers, a request to the manual machine of a
    consistent scheduler returns after at most eight commands with the lock
    released and the scheduler consistent.  The result is 0 and the engine is
    in the requested state on the requested VF, or the timeout code of the last
    command sent, which is the one that failed; the loop guard never fires.
    On hardware that completes its commands it is 0. *)
Theorem ws_manual_reaches_target (target_vf h tgt : Z) s :
  sched_inv h s -> vf_present s target_vf -> In tgt ws_targets ->
  (tgt = AMDGV_SHUTDOWN_GPU -> suspend_saved h target_vf s) -> locked h false s ->
  exists ret t, world_switch_goto_state_manual target_vf h tgt s = Ret (ret, t) /\
    sched_inv h t /\ locked h false t /\
    (length (cmds t) <= length (cmds s) + 8)%nat /\
    ((ret = 0 /\ on_target target_vf h tgt t) \/ timed_out h s ret t).
Proof.
  intros Hi Hp Ht Hs Hl.
  destruct (wp_returns _ _ _ (wp_goto_manual _ _ _ _ Hi Hp Ht Hs Hl))
    as (ret & t & E & [Ti Tf (l & Hc & Hlen & _) Tr]).
  exists ret, t. split_and!; try done.
  - destruct Hl as (m & Hm & Hlk). destruct (gf_machine _ _ _ Tf m Hm) as (m' & Hm' & ? & _).
    exists m'. split; [done|congruence].
  - rewrite Hc, length_app, length_rev. lia.
Qed.

(** C26: every command the manual machine sends is, in the state the VF then
    has, a transition that the table of [check_state_transition] allows; and
    nothing of another scheduler changes, nor any VF's scheduling state. *)
Theorem ws_manual_commands_legal (target_vf h tgt : Z) s :
  sched_inv h s -> vf_present s target_vf -> In tgt ws_targets ->
  (tgt = AMDGV_SHUTDOWN_GPU -> suspend_saved h target_vf s) -> locked h false s ->
  exists ret t l, world_switch_goto_state_manual target_vf h tgt s = Ret (ret, t) /\
    cmds t = rev l ++ cmds s /\ legal h (sched_vfs s) l /\
    (forall i, i <> Z.to_nat h -> hw_state_machine t !! i = hw_state_machine s !! i) /\
    (forall v h', 0 <= v -> 0 <= h' -> h' <> h ->
       vs_get (sched_vfs t) v h' = vs_get (sched_vfs s) v h') /\
    (forall v, vs_susp (sched_vfs t) v = vs_susp (sched_vfs s) v).
Proof.
  intros Hi Hp Ht Hs Hl.
  destruct (wp_returns _ _ _ (wp_goto_manual _ _ _ _ Hi Hp Ht Hs Hl))
    as (ret & t & E & [_ [] (l & Hc & _ & Hleg) _]).
  exists ret, t, l. by split_and!.
Qed.

(** The bulk machine's [world_switch_get_next_state] and the switch
    inside the manual machine are the same function: same next state and VF
    in the same state, and failure on the same inputs (with the codes
    [AMDGV_FAILURE] and [AMDGV_LOG_IOV_CMD_ERROR]). *)
Theorem ws_next_state_agrees (h target_vf tgt cur_state cur_vf : Z) s :
  world_switch_get_next_state h target_vf tgt cur_state cur_vf s =
  match manual_decide h target_vf tgt cur_state cur_vf s with
  | Ret (Some next, t) => Ret ((0, Some next), t)
  | Ret (None, t) => Ret ((AMDGV_FAILURE, None), t)
  | Fault => Fault
  end.
Proof.
  apply next_state_manual.
Qed.

(** C14: whatever the device answers, a bulk request on consistent schedulers,
    none of which is locked, returns with every lock released and every
    scheduler consistent.  The result is 0, and then all of them are in the
    requested state on the requested VF, or [AMDGV_FAILURE], which a device
    whose completions come in time ([hw_prompt], a bound on each wait of a
    running clock) never causes; the loop guard never fires and schedulers
    outside the mask are untouched. *)
Theorem ws_bulk_reaches_target (target_vf mask tgt : Z) s :
  bulk_request target_vf mask tgt s ->
  exists ret t, world_switch_bulk_goto_state_manual target_vf mask tgt s = Ret (ret, t) /\
    (forall h, in_mask mask h -> sched_inv h t /\ locked h false t) /\
    (ret = 0 -> forall h, in_mask mask h -> on_target target_vf h tgt t) /\
    (ret = 0 \/ (ret = AMDGV_FAILURE /\
                 ~ hw_bulk_completes (allow_time_cmd_complete (config s)))) /\
    (forall h v, 0 <= h -> 0 <= v -> ~ in_mask mask h ->
       hw_state_machine t !! Z.to_nat h = hw_state_machine s !! Z.to_nat h /\
       vs_get (sched_vfs t) v h = vs_get (sched_vfs s) v h).
Proof.
  intros Hr. destruct (wp_returns _ _ _ (wp_bulk_goto _ _ _ _ Hr)) as (ret & t & E & [Hi Hl Hd Hret Ho]).
  exists ret, t. split_and!; try done; try (by split; auto).
  intros h v ???. destruct (Ho h) as [? Hv]; [done..|]. auto.
Qed.

(** When a later scheduler of the mask is busy, the bulk machine reports
    it but keeps the locks it has already taken: the first scheduler stays
    locked, and every later request for it is refused. *)
Theorem ws_bulk_trylock_leaks (target_vf tgt mask h1 h2 : Z) rest s :
  for_each_id mask = h1 :: h2 :: rest -> 0 <= h1 -> 0 <= h2 -> h1 <> h2 ->
  locked h1 false s -> locked h2 true s ->
  exists t, world_switch_bulk_goto_state_manual target_vf mask tgt s
              = Ret (AMDGV_LOG_IOV_WS_REENTRANT_ERROR, t) /\
    locked h1 true t /\
    forall vf st, exists u, world_switch_goto_state_manual vf h1 st t
                            = Ret (AMDGV_LOG_IOV_WS_REENTRANT_ERROR, u) /\ u = t.
Proof.
  intros Hids H1 H2 Hne (m1 & Hm1 & Hl1) (m2 & Hm2 & Hl2).
  exists (put_lock h1 m1 true s).
  assert (hw_state_machine (put_lock h1 m1 true s) !! Z.to_nat h1 = Some (m1 <| ws_locked := true |>))
    as Hm1' by by apply put_lock_lookup.
  assert (hw_state_machine (put_lock h1 m1 true s) !! Z.to_nat h2 = Some m2) as Hm2'
    by (cbn; by rewrite list_lookup_insert_ne by lia).
  assert (forall h m t, hw_state_machine t !! Z.to_nat h = Some m -> ws_locked m = true ->
    ws_trylock h t = Ret (true, t)) as Hbusy.
  { intros h m t Hm Hl. unfold ws_trylock, machine, mbind, M_bind. rewrite Hm. cbn. by rewrite Hl. }
  split_and!.
  - unfold world_switch_bulk_goto_state_manual. rewrite Hids.
    erewrite run_bind by done. cbv zeta. cbn [bulk_lock].
    erewrite (run_bind _ _ true); [done|].
    erewrite (run_bind (ws_trylock h1) _ false).
    2: { unfold ws_trylock, upd_machine, machine, mbind, M_bind. rewrite Hm1. cbn.
         rewrite Hl1. cbn. by rewrite Hm1. }
    fold (put_lock h1 m1 true s). by erewrite run_bind by (by eapply Hbusy).
  - eexists. split; [exact Hm1'|done].
  - intros vf st. exists (put_lock h1 m1 true s). split; [|done].
    unfold world_switch_goto_state_manual. by erewrite run_bind by (by eapply Hbusy).
Qed.

(** Software initialisation succeeds and leaves every scheduler whose
    engine is on a VF of the device consistent, in state SHUTDOWN, its request
    function chosen by its mode, and every VF of the device shut down. *)
Theorem ws_init_consistent s :
  ws_shape s -> length (array_vf s) = 32%nat -> 0 <= max_num_vf (config s) <= AMDGV_PF_IDX ->
  exists t, amdgv_hw_sched_init s = Ret (0, t) /\
    forall h m, 0 <= h < 32 -> hw_state_machine s !! Z.to_nat h = Some m ->
      hw_state_machine t !! Z.to_nat h = Some (init_machine m) /\
      (forall v, vf_present s v -> vs_get (sched_vfs t) v h = Some AMDGV_SHUTDOWN_GPU) /\
      (vf_present s (cur_vf_id m) -> sched_inv h t).
Proof.
  intros Hs Ha Hn. destruct (wp_returns _ _ _ (wp_hw_sched_init s Hs Ha Hn)) as (ret & t & E & -> & Hp).
  exists t. split; [done|]. intros h m Hh Hm. split_and!.
  - apply (ip_hs _ _ _ _ Hp); [lia| |done]. apply (elem_of_ids 32). lia.
  - intros v Hv. apply (ip_done _ _ _ _ Hp); [split; [done|lia]| |lia].
    apply (present_range s) in Hv; lia.
  - intros Hv. eapply init_post_inv; try done. lia.
Qed.

(** C38: exporting the state machines and importing the table into a second
    instance of the driver gives that instance the engine states, VFs and
    modes of the first, and keeps its locks and request functions. *)
Theorem ws_live_update_roundtrip s1 s2 tab0 :
  length (hw_state_machine s1) = 32%nat -> length (hw_state_machine s2) = 32%nat ->
  length tab0 = 32%nat ->
  num_ctrl_blocks (config s2) = num_ctrl_blocks (config s1) ->
  0 <= num_ctrl_blocks (config s1) <= 32 ->
  exists tab t, amdgv_ws_state_export_live_data tab0 s1 = Ret ((AMDGV_LIVE_INFO_STATUS_SUCCESS, tab), s1) /\
    amdgv_ws_state_import_live_data tab s2 = Ret (AMDGV_LIVE_INFO_STATUS_SUCCESS, t) /\
    forall h m1 m2, Z.of_nat h < num_ctrl_blocks (config s1) ->
      hw_state_machine s1 !! h = Some m1 -> hw_state_machine s2 !! h = Some m2 ->
      exists m, hw_state_machine t !! h = Some m /\ live_of m = live_of m1 /\
        ws_locked m = ws_locked m2 /\ goto_state m = goto_state m2.
Proof.
  intros H1 H2 H0 Hn Hr. set (n := Z.to_nat (num_ctrl_blocks (config s1))).
  assert (Forall (fun h => (h < 32)%nat) (seq 0 n)) as Hids.
  { apply Forall_forall. intros h Hh%elem_of_seq. unfold n in Hh. lia. }
  destruct (wp_returns _ _ _ (wp_export_loop _ tab0 s1 H1 H0 Hids)) as ([st tab] & t1 & E & -> & Hst & Hl & Htab).
  cbn [fst snd] in *. subst st.
  assert (0 <= num_ctrl_blocks (config s2) <= 32) as Hr2 by lia.
  destruct (wp_returns _ _ _ (wp_import tab s2 H2 Hl Hr2)) as (ret & t & E2 & -> & [_ Hin _]).
  exists tab, t. split_and!; [exact E|exact E2|].
  intros h m1 m2 Hh Hm1 Hm2. exists (live_into (live_of m1) m2). split_and!; try done.
  assert (h ∈ seq 0 n) as Hmem by (apply elem_of_seq; unfold n; lia).
  apply Hin; [rewrite Hn; exact Hmem|done|]. rewrite Htab, decide_True by done. by rewrite Hm1.
Qed.
End properties.

(** A mask loop visits exactly the set bits of the mask, each once. *)
Theorem for_each_id_visits_bits (mask : Z) :
  in_width 32 mask ->
  NoDup (for_each_id mask) /\
  (forall h, h ∈ for_each_id mask <-> 0 <= h < 32 /\ Z.testbit mask h = true) /\
  (forall k, 0 <= k < 32 -> Z.testbit mask k = true ->
     (forall j, 0 <= j < k -> Z.testbit mask j = false) -> amdgv_ffs mask = k + 1).
Proof.
  intros Hm. split_and!; [by apply NoDup_for_each_id|intros; by apply elem_of_for_each_id|].
  intros. by apply amdgv_ffs_spec.
Qed.

(** ** Witnesses *)

Lemma free_ws (h : Z) : h = 0 \/ h = 1 -> locked h false s_ws.
Proof. by intros [-> | ->]; eexists; split. Qed.

Lemma present_ws (v : Z) : 0 <= v < 2 -> vf_present s_ws v.
Proof. by left. Qed.

Lemma not_suspended_ws (h v : Z) : 0 <= v < 2 -> suspend_saved h v s_ws.
Proof. intros Hv Hs. assert (v = 0 \/ v = 1) as [-> | ->] by lia; by vm_compute in Hs. Qed.

(** VF 0 is brought to RUN on scheduler 0. *)
Lemma ws_manual_reaches_target_witness :
  exists t, world_switch_goto_state_manual 0 0 AMDGV_RUN_GPU s_ws = Ret (0, t) /\
    on_target 0 0 AMDGV_RUN_GPU t /\ (length (cmds t) <= 8)%nat.
Proof.
  destruct (ws_manual_reaches_target 0 0 AMDGV_RUN_GPU s_ws (inv_ws 0 (or_introl eq_refl))
    (present_ws 0 ltac:(lia)) ltac:(vm_compute; tauto) ltac:(intros; by apply not_suspended_ws)
    (free_ws 0 (or_introl eq_refl)))
    as (ret & t & E & _ & _ & Hlen & [[-> Hon]|[_ Hno]]).
  - exists t. split; [exact E|]. split; [exact Hon|exact Hlen].
  - exfalso. apply Hno. exact ok_hw_completes.
Defined.

Lemma ws_manual_commands_legal_witness :
  exists ret t l, world_switch_goto_state_manual 1 0 AMDGV_SHUTDOWN_GPU s_ws = Ret (ret, t) /\
    cmds t = rev l ++ cmds s_ws /\ legal 0 (sched_vfs s_ws) l.
Proof.
  destruct (ws_manual_commands_legal 1 0 AMDGV_SHUTDOWN_GPU s_ws (inv_ws 0 (or_introl eq_refl))
    (present_ws 1 ltac:(lia)) ltac:(vm_compute; tauto) ltac:(intros; by apply not_suspended_ws)
    (free_ws 0 (or_introl eq_refl)))
    as (ret & t & l & E & Hc & Hl & _).
  exists ret, t, l. split; [exact E|]. split; [exact Hc|exact Hl].
Defined.

Lemma mask3 (h : Z) : in_mask 3 h -> h = 0 \/ h = 1.
Proof.
  intros [Hh Hb]. assert (h = 0 \/ h = 1 \/ 2 <= h) as [?|[?|?]] by lia; auto.
  rewrite <- (Z.mod_small 3 (2 ^ 2)), Z.mod_pow2_bits_high in Hb by lia. done.
Qed.

Lemma request_ws : bulk_request 1 3 AMDGV_RUN_GPU s_ws.
Proof.
  split; try (vm_compute; intuition congruence).
  - intros h Hh. apply mask3 in Hh. split_and!; [by apply inv_ws|by apply free_ws|].
    intros _. by apply not_suspended_ws.
  - apply (inv_ws 0). by left.
Qed.

Lemma ok_hw_bulk : @hw_bulk_completes Z ok_hw 500000.
Proof. apply ok_hw_prompt. lia. Qed.

(** Both schedulers end in RUN on VF 1. *)
Lemma ws_bulk_reaches_target_witness :
  exists t, world_switch_bulk_goto_state_manual 1 3 AMDGV_RUN_GPU s_ws = Ret (0, t) /\
    on_target 1 0 AMDGV_RUN_GPU t /\ on_target 1 1 AMDGV_RUN_GPU t.
Proof.
  destruct (ws_bulk_reaches_target 1 3 AMDGV_RUN_GPU s_ws request_ws)
    as (ret & t & E & _ & Hon & [-> |[_ Hno]] & _).
  - assert (in_mask 3 0) as H0 by (split; [lia|reflexivity]).
    assert (in_mask 3 1) as H1 by (split; [lia|reflexivity]).
    exists t. split; [exact E|]. split; [exact (Hon eq_refl 0 H0)|exact (Hon eq_refl 1 H1)].
  - exfalso. apply Hno. exact ok_hw_bulk.
Defined.

(** Scheduler 1 busy, scheduler 0 free. *)
Definition s_ws_busy : adapter Z := Eval vm_compute in
  s_ws <| hw_state_machine := <[1%nat := mk_wss AMDGV_SHUTDOWN_GPU 0 1 true
    (Some world_switch_goto_state_manual_ptr)]> (hw_state_machine s_ws) |>.

Lemma ws_bulk_trylock_leaks_witness :
  exists t, world_switch_bulk_goto_state_manual 0 3 AMDGV_SAVE_GPU_STATE s_ws_busy
              = Ret (AMDGV_LOG_IOV_WS_REENTRANT_ERROR, t) /\ locked 0 true t.
Proof.
  assert (locked 0 false s_ws_busy) as Hf by (by eexists; split).
  assert (locked 1 true s_ws_busy) as Hb by (by eexists; split).
  destruct (ws_bulk_trylock_leaks 0 AMDGV_SAVE_GPU_STATE 3 0 1 [] s_ws_busy eq_refl
    ltac:(lia) ltac:(lia) ltac:(lia) Hf Hb) as (t & E & Hl & _).
  exists t. split; [exact E|exact Hl].
Defined.

Lemma ws_init_consistent_witness :
  exists t, amdgv_hw_sched_init s_zero = Ret (0, t) /\ sched_inv 0 t.
Proof.
  assert (ws_shape s_zero) as Hs.
  { split; [split|..]; [reflexivity| |reflexivity..]. by repeat constructor. }
  destruct (ws_init_consistent s_zero Hs eq_refl ltac:(vm_compute; intuition congruence))
    as (t & E & H).
  exists t. split; [exact E|]. eapply (H 0 (mk_wss 0 0 1 false None)); [lia|reflexivity|].
  left. cbn. lia.
Defined.

(** The first adapter has VF 0 running; the second was just initialised. *)
Lemma ws_live_update_roundtrip_witness :
  exists tab t, amdgv_ws_state_export_live_data (replicate 32 (mk_live 0 0 0)) s_ws_run
                  = Ret ((AMDGV_LIVE_INFO_STATUS_SUCCESS, tab), s_ws_run) /\
    amdgv_ws_state_import_live_data tab s_ws = Ret (AMDGV_LIVE_INFO_STATUS_SUCCESS, t).
Proof.
  destruct (ws_live_update_roundtrip s_ws_run s_ws (replicate 32 (mk_live 0 0 0)) eq_refl eq_refl
    eq_refl eq_refl ltac:(vm_compute; intuition congruence)) as (tab & t & E1 & E2 & _).
  exists tab, t. split; [exact E1|exact E2].
Defined.

Lemma for_each_id_visits_bits_witness : NoDup (for_each_id 0x80000005) /\ amdgv_ffs 0x80000005 = 1.
Proof.
  destruct (for_each_id_visits_bits 0x80000005 ltac:(split; [lia|reflexivity])) as (Hnd & _ & Hf).
  split; [exact Hnd|]. apply (Hf 0); [lia|reflexivity|lia].
Defined.

(** VF 0 running, with the legacy reset sequence. *)
Definition s_legacy : adapter Z := Eval vm_compute in
  s_ws_run <| config := {|
    flags := AMDGV_FLAG_USE_LEGACY_FLR_SEQUENCE; max_num_vf := 2; num_ctrl_blocks := 2;
    ctrl_blocks := replicate 32 (mk_ctrl_block AMDGV_HW_SCHED_TYPE_GFX 3);
    num_vf_per_gfx_sched := 2; support_shutdown_cmd := false; has_busy_status := false;
    allow_time_cmd_complete := 500000 |} |> <| cmds := [] |>.

Definition last_commands {A} (n : nat) (o : outcome (A * adapter Z)) : list (Z * Z * Z) :=
  match o with Ret (_, s) => take n (cmds s) | Fault => [] end.

(** With the legacy reset sequence the two machines record different
    things for the same SHUTDOWN request.  The manual machine leaves the VF's
    recorded state at SAVE, so its next RUN loads the context that was shut
    down; the bulk machine records SHUTDOWN, so its next RUN initialises. *)
Theorem ws_legacy_shutdown_differs :
  last_commands 2 ((_ ← world_switch_goto_state_manual 0 0 AMDGV_SHUTDOWN_GPU;
                    world_switch_goto_state_manual 0 0 AMDGV_RUN_GPU) s_legacy)
    = [(AMDGV_RUN_GPU, 0, 0); (AMDGV_LOAD_GPU_STATE, 0, 0)] /\
  last_commands 2 ((_ ← world_switch_bulk_goto_state_manual 0 1 AMDGV_SHUTDOWN_GPU;
                    world_switch_bulk_goto_state_manual 0 1 AMDGV_RUN_GPU) s_legacy)
    = [(AMDGV_RUN_GPU, 0, 0); (AMDGV_INIT_GPU, 0, 0)].
Proof. split; reflexivity. Qed.
