(* ===== verification/Memmgr.v ===== *)
(** * Frame-buffer memory manager (src/libgv/core/amdgv_memmgr.c, .h)

    Each manager keeps its allocations in an intrusive list ordered by
    address; an allocation is tracked by the offset of its end.  The manager
    one runs in is [mgr]; the table of memory ids is shared by all managers of
    the adapter.  [Allocs] and [Reserves] are the list heads, [MemNode p] the
    node of the allocation record at [p].  Kernel allocations, locks and DMA
    buffers are the environment; locks are sequential and logs are left out. *)
From S2P Require Import Prelude Api Oss Dlist ListScan.
Import Dlist ListScan.
#[local] Open Scope Z_scope.

Module Memmgr.

(** ** Data *)

Inductive node := Allocs | Reserves | MemNode (p : nat).
#[export] Instance node_eq_dec : EqDecision node.
Proof. solve_decision. Defined.
#[export] Instance node_countable : Countable node.
Proof.
  refine (inj_countable' (fun n => match n with Allocs => inl false | Reserves => inl true | MemNode p => inr p end)
    (fun x => match x with inl false => Allocs | inl true => Reserves | inr p => MemNode p end) _).
  by intros [].
Defined.

(** [struct amdgv_memmgr_mem] without its list node; [sys_mem] is the handle
    of the DMA buffer behind it. *)
Record mem := mk_mem { alloc_off : Z; len : Z; align : Z; m_id : Z; sys_mem : option nat }.
#[export] Instance eta_mem : Eta mem := fun r =>
  mk_mem (alloc_off r) (len r) (align r) (m_id r) (sys_mem r).

(** [struct amdgv_mem_reservation]; [reservations_pending] and
    [reserved_pages] only ever grow at the tail, and are kept as lists. *)
Record reservation := mk_rsv { start : Z; rsv_size : Z; rsv_mem : option nat }.

(** [struct amdgv_memmgr].  [allocs] and [reserves] hold the [alloc_off] of
    the two head records, [None] for a NULL pointer. *)
Record memmgr := mk_memmgr {
  offset : Z; msize : Z; shift : Z; down : bool; is_init : bool; is_sys : bool; mc_base : Z;
  allocs : option Z; reserves : option Z; tom : Z; reserve_count : Z;
  lnk : links (N := node); heap : gmap nat mem; fresh : nat;
  reservations_pending : list reservation; reserved_pages : list reservation;
  lock : bool; rsv_lock : bool               (* the handles are valid *)
}.
#[export] Instance eta_memmgr : Eta memmgr := fun r =>
  mk_memmgr (offset r) (msize r) (shift r) (down r) (is_init r) (is_sys r) (mc_base r)
    (allocs r) (reserves r) (tom r) (reserve_count r) (lnk r) (heap r) (fresh r)
    (reservations_pending r) (reserved_pages r) (lock r) (rsv_lock r).

(** [struct amdgv_mem_with_bitmap] *)
Record mem_with_bitmap := mk_bitmap { mem_id : Z; bitmaps : list Z }.
#[export] Instance eta_bitmap : Eta mem_with_bitmap := fun r => mk_bitmap (mem_id r) (bitmaps r).

Inductive call :=
| DmaAlloc (h : nat) (bytes : Z) | DmaFree (h : option nat)
| GartMap (at_ bytes : Z) | GartUnmap (at_ bytes : Z).

Record adapter := mk_adapter {
  mgr : memmgr;
  mem_id_list : list mem_with_bitmap; valid_mem_id_count : Z;  (* adapt->mems *)
  skip_hw_init : bool;       (* amdgv_in_live_update_seq *)
  defer_alloc : bool;        (* a CHIP_MI350X that is not up yet *)
  gart_ready : bool;
  os : oss_state; dma_count : nat; calls : list call
}.
#[export] Instance eta_adapter : Eta adapter := fun r =>
  mk_adapter (mgr r) (mem_id_list r) (valid_mem_id_count r) (skip_hw_init r) (defer_alloc r)
    (gart_ready r) (os r) (dma_count r) (calls r).

Definition DEFAULT_ALIGN_SHIFT : Z := 12.
Definition DEFAULT_SIZE : Z := 2 ^ 36.
Definition DEFAULT_MEMORY_MANAGER_SIZE : Z := 256 * 2 ^ 20.
Definition AMDGV_GPU_PAGE_SHIFT : Z := 12.
Definition AMDGV_GPU_PAGE_SIZE : Z := 4096.
Definition MEM_ID_COUNT_MAX : Z := 256.
Definition MEM_ID_NOT_AVAILABLE : Z := u32 (-1).
Definition MAX_MEM_COUNT : Z := 256.
Definition MAX_BITMAP_COUNT : nat := 4.
Definition MEM_ECC_BAD_PAGE : Z := 1024.
Definition MEM_ECC_BAD_PAGE_NPS_CANDIDATE : Z := 1025.
Definition MEM_ALLOCS_MAX : Z := 128.
Definition AMDGV_ERR_BUSY : Z := -16.
Definition MEM_ID_GET_ID (i : Z) : Z := Z.land i 65535.
Definition MEM_ID_GET_INDEX (i : Z) : Z := Z.land (Z.shiftr i 16) 65535.

(** [AMDGV_MEMMGR_ALIGN(addr, align)] for a 64-bit [align], and for a 32-bit
    one: the mask then is 32 bits wide and clears the high half. *)
Definition AMDGV_MEMMGR_ALIGN (addr a : Z) : Z := Z.land (u64 (addr + a - 1)) (u64 (Z.lnot (a - 1))).
Definition AMDGV_MEMMGR_ALIGN32 (addr a : Z) : Z := Z.land (u64 (addr + a - 1)) (u32 (Z.lnot (u32 (a - 1)))).
Definition roundup64 (x y : Z) : Z := u64 (u64 (x + (y - 1)) / y * y).

(** ** Access *)

Definition get {A} (f : memmgr -> A) : M adapter A := gets (fun s => f (mgr s)).
Definition set (f : memmgr -> memmgr) : M adapter unit := modify (fun s => s <| mgr := f (mgr s) |>).
Definition mlnk (s : adapter) : links (N := node) := lnk (mgr s).
Definition oss {A} (m : M oss_state A) : M adapter A := zoom os (fun t s => s <| os := t |>) m.
Definition emit (c : call) : M adapter unit := modify (fun s => s <| calls := c :: calls s |>).

Definition mem_at (p : nat) : M adapter mem := fun s =>
  match heap (mgr s) !! p with Some m => Ret (m, s) | None => Fault end.
Definition upd_mem (p : nat) (f : mem -> mem) : M adapter unit :=
  m ← mem_at p; set (fun g => g <| heap := <[p := f m]> (heap g) |>).
Definition link (f : links -> option links) : M adapter unit := fun s =>
  match f (mlnk s) with
  | Some h => Ret (tt, s <| mgr := (mgr s) <| lnk := h |> |>)
  | None => Fault
  end.
(** The record a list pointer is part of. *)
Definition entry (n : node) : M adapter nat := match n with MemNode p => mret p | _ => fault end.
(** [alloc_off] of the record a list pointer is part of. *)
Definition off_of (n : node) : M adapter Z :=
  match n with
  | Allocs => o ← get allocs; require o
  | Reserves => o ← get reserves; require o
  | MemNode p => m ← mem_at p; mret (alloc_off m)
  end.

(** Every node of a list was allocated, so [fresh] bounds a list's length. *)
Definition mem_fuel (s : adapter) : nat := S (fresh (mgr s)).
Definition empty (head : node) : M adapter bool := gets (fun s => amdgv_list_empty head (mlnk s)).
Definition test_mem (f : mem -> bool) (n : node) : M adapter bool := p ← entry n; m ← mem_at p; mret (f m).
Definition find_mem (head : node) (f : mem -> bool) : M adapter (option nat) :=
  fuel ← gets mem_fuel;
  n ← find_node mlnk fuel head (test_mem f);
  if decide (n = head) then mret None else p ← entry n; mret (Some p).

(** ** Memory ids *)

Fixpoint id_index (i : nat) (x : Z) (l : list mem_with_bitmap) : option nat :=
  match l with
  | [] => None
  | e :: l' => if mem_id e =? x then Some i else id_index (S i) x l'
  end.

Definition amdgv_memmgr_mem_id_list_add (x : Z) : M adapter Z :=
  n ← gets valid_mem_id_count;
  if n <? MEM_ID_COUNT_MAX then
    _ ← modify (fun s => s <| valid_mem_id_count := wrap 8 (n + 1) |>
          <| mem_id_list := <[Z.to_nat n := mk_bitmap x (replicate MAX_BITMAP_COUNT 0)]> (mem_id_list s) |>);
    mret 0
  else mret MEM_ID_NOT_AVAILABLE.

(** The first bitmap with a clear bit, and that bit. *)
Fixpoint first_word (i : nat) (l : list Z) : option (nat * Z) :=
  match l with
  | [] => None
  | w :: l' => if w =? 2 ^ 64 - 1 then first_word (S i) l' else Some (i, w)
  end.
Fixpoint first_clear (fuel : nat) (w i : Z) : Z :=
  match fuel with
  | O => i
  | S f => if Z.odd w then first_clear f (Z.shiftr w 1) (i + 1) else i
  end.

Definition amdgv_memmgr_mem_id_add (x : Z) : M adapter Z :=
  n ← gets valid_mem_id_count;
  l ← gets mem_id_list;
  let o := id_index 0 x (take (Z.to_nat n) l) in
  ret ← match o with Some _ => mret 0 | None => amdgv_memmgr_mem_id_list_add x end;
  if negb (ret =? 0) then mret ret else
  let i := default (Z.to_nat n) o in
  l ← gets mem_id_list;
  e ← require (l !! i);
  match first_word 0 (bitmaps e) with
  | None => mret MEM_ID_NOT_AVAILABLE
  | Some (k, w) =>
      let index := first_clear 64 w (Z.of_nat k * 64) in
      let e' := e <| bitmaps := <[k := Z.lor w (Z.shiftl 1 (index mod 64))]> (bitmaps e) |> in
      _ ← modify (fun s => s <| mem_id_list := <[i := e']> (mem_id_list s) |>);
      mret (Z.lor (Z.land x 65535) (Z.shiftl (Z.land index 65535) 16))
  end.

Definition amdgv_memmgr_mem_id_remove (mid : Z) : M adapter Z :=
  let index := MEM_ID_GET_INDEX mid in
  if MAX_MEM_COUNT <=? index then mret MEM_ID_NOT_AVAILABLE else
  n ← gets valid_mem_id_count;
  l ← gets mem_id_list;
  match id_index 0 (MEM_ID_GET_ID mid) (take (Z.to_nat n) l) with
  | None => mret MEM_ID_NOT_AVAILABLE
  | Some i =>
      e ← require (l !! i);
      let k := Z.to_nat (index / 64) in
      w ← require (bitmaps e !! k);
      let e' := e <| bitmaps := <[k := Z.land w (u64 (Z.lnot (Z.shiftl 1 (index mod 64))))]> (bitmaps e) |> in
      _ ← modify (fun s => s <| mem_id_list := <[i := e']> (mem_id_list s) |>);
      mret 0
  end.

Definition amdgv_memmgr_always_alloc_new (x : Z) : bool :=
  (x =? MEM_ECC_BAD_PAGE) || (x =? MEM_ECC_BAD_PAGE_NPS_CANDIDATE).

(** ** Finding *)

Fixpoint find_size_loop (fuel : nat) (pos : node) (t sz a : Z) : M adapter node :=
  if decide (pos = Allocs) then prev_of mlnk pos else
  match fuel with
  | O => fault
  | S f =>
      p ← entry pos; m ← mem_at p;
      if alloc_off m <? t then n ← next_of mlnk pos; find_size_loop f n t sz a
      else if u64 (t + sz) <? u64 (alloc_off m - len m) then prev_of mlnk pos
      else n ← next_of mlnk pos; find_size_loop f n (AMDGV_MEMMGR_ALIGN (alloc_off m) a) sz a
  end.

(** The record after which an aligned block of [sz] bytes goes. *)
Definition amdgv_memmgr_find_size (sz a : Z) : M adapter node :=
  o ← get offset;
  b ← empty Allocs;
  if (b : bool) then mret Allocs else
  fuel ← gets mem_fuel;
  n ← next_of mlnk Allocs;
  find_size_loop fuel n (AMDGV_MEMMGR_ALIGN o a) sz a.

Fixpoint find_at_loop (fuel : nat) (pos : node) (t sz : Z) : M adapter (option node) :=
  if decide (pos = Allocs) then (n ← prev_of mlnk pos; mret (Some n)) else
  match fuel with
  | O => fault
  | S f =>
      p ← entry pos; m ← mem_at p;
      if alloc_off m <? t then n ← next_of mlnk pos; find_at_loop f n t sz
      else if (t <? alloc_off m) && (u64 (alloc_off m - len m) <? u64 (t + sz)) then mret None
      else if u64 (t + sz) <=? u64 (alloc_off m - len m) then (n ← prev_of mlnk pos; mret (Some n))
      else n ← next_of mlnk pos; find_at_loop f n t sz
  end.

Definition amdgv_memmgr_find_size_at (at_ sz a : Z) : M adapter (option node) :=
  b ← empty Allocs;
  if (b : bool) then mret (Some Allocs) else
  fuel ← gets mem_fuel;
  n ← next_of mlnk Allocs;
  find_at_loop fuel n (AMDGV_MEMMGR_ALIGN at_ a) sz.

Definition amdgv_memmgr_find_mem_id (x : Z) : M adapter (option nat) :=
  o ← get allocs;
  match o with None => mret None | Some _ => find_mem Allocs (fun m => m_id m =? x) end.

Definition amdgv_memmgr_find_id (x : Z) : M adapter (option nat) :=
  o ← get allocs;
  match o with None => mret None | Some _ => find_mem Allocs (fun m => MEM_ID_GET_ID (m_id m) =? x) end.

Definition amdgv_memmgr_find_mem_at_offset (at_ sz : Z) : M adapter (option nat) :=
  if sz =? 0 then mret None else
  find_mem Allocs (fun m => negb (len m =? 0) && (at_ <? alloc_off m)
                            && (u64 (alloc_off m - len m) <? u64 (at_ + sz))).

Definition amdgv_memmgr_check_critical_address (addr : Z) : M adapter bool :=
  o ← find_mem Allocs (fun m => (u64 (alloc_off m - len m) <=? addr) && (addr <? alloc_off m));
  mret (match o with Some _ => true | None => false end).

(** ** Placing *)

Section placing.
Context {E : OssEnv} (dma_ok : nat -> bool).

Definition oss_malloc : M adapter (option nat) :=
  ok ← oss oss_alloc;
  if (ok : bool) then
    p ← get fresh; _ ← set (fun g => g <| fresh := S p |>); mret (Some p)
  else mret None.
Definition oss_free_mem (p : nat) : M adapter unit :=
  _ ← oss oss_free; set (fun g => g <| heap := delete p (heap g) |>).

(** A 64-bit value stored in an [int]. *)
Definition s32 (x : Z) : Z := let m := u32 x in if m <? 2 ^ 31 then m else m - 2 ^ 32.

(** [amdgv_map_mem_gart]: it never fails; the page count and the offset are
    [int]s. *)
Definition amdgv_map_mem_gart (p : nat) (map : bool) : M adapter unit :=
  m ← mem_at p; d ← get down;
  let o := if (d : bool) then alloc_off m else u64 (alloc_off m - len m) in
  let pages := s32 (Z.shiftr (len m) AMDGV_GPU_PAGE_SHIFT) in
  emit ((if map then GartMap else GartUnmap) (u64 (s32 o)) (Z.shiftl pages AMDGV_GPU_PAGE_SHIFT)).

(** The end of the block placed after the record of [prev], [None] when the
    heap is full; [al] is [AMDGV_MEMMGR_ALIGN] at the width of the alignment. *)
Definition placement (al : Z -> Z -> Z) (prv : node) (l a : Z) : M adapter (option Z) :=
  po ← off_of prv; t ← get tom; o ← get offset; sz ← get msize; d ← get down;
  if (po =? t) && (u64 (o + sz) <? u64 (al t a + l)) then mret None else
  let addr := if (d : bool) then u64 (al (u64 (po + l)) a - l) else al po a in
  mret (Some (u64 (addr + l))).

(** Linking [p] in after [prv]. *)
Definition place_after (p : nat) (prv : node) (po new_off : Z) : M adapter unit :=
  _ ← link (amdgv_list_add (MemNode p) prv);
  t ← get tom;
  when (po =? t) (set (fun g => g <| tom := new_off |>)).

Definition alloc_new (l a mid : Z) : M adapter (option nat) :=
  o ← oss_malloc;
  match o with
  | None => mret None
  | Some p =>
      prv ← amdgv_memmgr_find_size l a;
      e ← placement AMDGV_MEMMGR_ALIGN prv l a;
      match e with
      | None => _ ← oss_free_mem p; mret None
      | Some e =>
          _ ← set (fun g => g <| heap := <[p := mk_mem e l a mid None]> (heap g) |>);
          sys ← get is_sys;
          ok ← (if (sys : bool) then
                  k ← gets dma_count;
                  _ ← modify (fun s => s <| dma_count := S k |>);
                  if dma_ok k then
                    _ ← emit (DmaAlloc k l);
                    _ ← upd_mem p (fun m => m <| sys_mem := Some k |>);
                    r ← gets gart_ready;
                    _ ← when r (amdgv_map_mem_gart p true);
                    mret true
                  else mret false
                else mret true);
          if (ok : bool) then
            po ← off_of prv;
            _ ← place_after p prv po e; mret (Some p)
          else _ ← oss_free_mem p; mret None
      end
  end.

Definition amdgv_memmgr_alloc_unify_align (l a x : Z) : M adapter (option nat) :=
  i ← get is_init;
  if negb i then mret None else
  sys ← get is_sys;
  if (sys : bool) then alloc_new (roundup64 l AMDGV_GPU_PAGE_SIZE) (roundup64 a AMDGV_GPU_PAGE_SIZE) x else
  mid ← amdgv_memmgr_mem_id_add x;
  if mid =? MEM_ID_NOT_AVAILABLE then mret None else
  lu ← gets skip_hw_init;
  if negb lu || amdgv_memmgr_always_alloc_new x then alloc_new l a mid else
  o ← amdgv_memmgr_find_mem_id mid;
  match o with Some p => mret (Some p) | None => alloc_new l a mid end.

(** Insertion by descending length. *)
Definition amdgv_memmgr_reserve_attrs (l a x : Z) : M adapter (option nat) :=
  i ← get is_init;
  if negb i then mret None else
  mid ← amdgv_memmgr_mem_id_add x;
  if mid =? MEM_ID_NOT_AVAILABLE then mret None else
  o ← oss_malloc;
  match o with
  | None => _ ← amdgv_memmgr_mem_id_remove mid; mret None
  | Some p =>
      _ ← set (fun g => g <| heap := <[p := mk_mem 0 l a mid None]> (heap g) |>);
      b ← empty Reserves;
      _ ← (if (b : bool) then link (amdgv_list_add_tail (MemNode p) Reserves) else
           o ← find_mem Reserves (fun m => len m <=? l);
           match o with
           | Some q => prv ← prev_of mlnk (MemNode q); link (amdgv_list_add (MemNode p) prv)
           | None => link (amdgv_list_add_tail (MemNode p) Reserves)
           end);
      _ ← set (fun g => g <| reserve_count := reserve_count g + 1 |>);
      mret (Some p)
  end.

Definition amdgv_memmgr_alloc_align (l a x : Z) : M adapter (option nat) :=
  d ← gets defer_alloc;
  if (d : bool) then amdgv_memmgr_reserve_attrs l a x else amdgv_memmgr_alloc_unify_align l a x.

Definition amdgv_memmgr_alloc (l x : Z) : M adapter (option nat) :=
  sh ← get shift; amdgv_memmgr_alloc_align l (u64 (Z.shiftl 1 sh)) x.

(** Placing at a given offset; the alignment is a 32-bit variable here. *)
Definition amdgv_memmgr_alloc_align_at (at_ l x : Z) : M adapter (option nat) :=
  sh ← get shift;
  let a := u32 (Z.shiftl 1 sh) in
  o ← oss_malloc;
  match o with
  | None => mret None
  | Some p =>
      mid ← amdgv_memmgr_mem_id_add x;
      if mid =? MEM_ID_NOT_AVAILABLE then _ ← oss_free_mem p; mret None else
      o ← get offset; sz ← get msize; d ← get down;
      if u64 (o + sz) <? u64 (AMDGV_MEMMGR_ALIGN32 at_ a + l) then _ ← oss_free_mem p; mret None else
      prv ← amdgv_memmgr_find_size_at at_ l a;
      match prv with
      | None => _ ← oss_free_mem p; mret None
      | Some prv =>
          let addr := if (d : bool) then u64 (AMDGV_MEMMGR_ALIGN32 (u64 (at_ + l)) a - l)
                      else AMDGV_MEMMGR_ALIGN32 at_ a in
          let e := u64 (addr + l) in
          _ ← set (fun g => g <| heap := <[p := mk_mem e l a mid None]> (heap g) |>);
          po ← off_of prv;
          _ ← place_after p prv po e; mret (Some p)
      end
  end.

(** Giving a reserved record its place. *)
Definition amdgv_memmgr_assign_reserved_region (p : nat) : M adapter Z :=
  m ← mem_at p;
  let a := u32 (align m) in
  prv ← amdgv_memmgr_find_size (len m) a;
  e ← placement AMDGV_MEMMGR_ALIGN32 prv (len m) a;
  match e with
  | None => mret AMDGV_FAILURE
  | Some e =>
      _ ← upd_mem p (fun m => m <| alloc_off := e |>);
      _ ← link (amdgv_list_del (MemNode p));
      po ← off_of prv;
      _ ← place_after p prv po e; mret 0
  end.

Fixpoint deferred_loop (fuel : nat) : M adapter Z :=
  b ← empty Reserves;
  if (b : bool) then
    c ← get reserve_count; mret (if c =? 0 then 0 else AMDGV_FAILURE)
  else
    match fuel with
    | O => fault
    | S f =>
        n ← next_of mlnk Reserves;
        p ← entry n;
        ret ← amdgv_memmgr_assign_reserved_region p;
        if negb (ret =? 0) then mret AMDGV_FAILURE else
        _ ← set (fun g => g <| reserve_count := reserve_count g - 1 |>);
        deferred_loop f
    end.
Definition amdgv_memmgr_alloc_deferred_region : M adapter Z :=
  fuel ← gets mem_fuel; deferred_loop fuel.

(** ** Freeing *)

Definition amdgv_memmgr_free (o : option nat) : M adapter Z :=
  match o with
  | None => mret 0
  | Some p =>
      m ← mem_at p;
      _ ← link (amdgv_list_del (MemNode p));
      c ← get reserve_count;
      _ ← when ((alloc_off m =? 0) && negb (c =? 0)) (set (fun g => g <| reserve_count := c - 1 |>));
      t ← get tom;
      _ ← when (t <=? alloc_off m) (
            prv ← prev_of mlnk (MemNode p); po ← off_of prv;
            set (fun g => g <| tom := po |>));
      sys ← get is_sys;
      _ ← (if (sys : bool) then
             _ ← emit (DmaFree (sys_mem m));
             r ← gets gart_ready;
             _ ← when r (amdgv_map_mem_gart p false);
             upd_mem p (fun m => m <| sys_mem := None |>)
           else _ ← amdgv_memmgr_mem_id_remove (m_id m); mret tt);
      _ ← oss_free_mem p; mret 0
  end.

Fixpoint free_by_id_loop (fuel : nat) (x : Z) : M adapter Z :=
  o ← amdgv_memmgr_find_id x;
  match o with
  | None => mret 0
  | Some p => match fuel with O => fault | S f => _ ← amdgv_memmgr_free (Some p); free_by_id_loop f x end
  end.
Definition amdgv_memmgr_free_by_id (x : Z) : M adapter Z :=
  i ← get is_init;
  if negb i then mret AMDGV_FAILURE else
  fuel ← gets mem_fuel; free_by_id_loop fuel x.

(** ** Moving an allocation elsewhere *)

Definition amdgv_memmgr_alloc_and_replace (o : option nat) (x : Z) : M adapter (option nat) :=
  match o with
  | None => mret None
  | Some p =>
      m ← mem_at p;
      o ← amdgv_memmgr_alloc_align (len m) (align m) x;
      match o with
      | None => mret None
      | Some q =>
          old ← mem_at p; new ← mem_at q;
          _ ← upd_mem p (fun r => r <| alloc_off := alloc_off new |> <| sys_mem := sys_mem new |>);
          _ ← upd_mem q (fun r => r <| alloc_off := alloc_off old |> <| sys_mem := sys_mem old |>);
          _ ← link (amdgv_list_swap_entries (MemNode q) (MemNode p));
          mret (Some q)
      end
  end.

(** ** Reserving bad pages *)

Definition covers (addr : Z) (r : reservation) : bool :=
  (start r <=? addr) && (addr <? u64 (start r + rsv_size r)).

Definition amdgv_memmgr_page_reserve_status_locked (pfn : Z) : M adapter Z :=
  let addr := u64 (Z.shiftl pfn AMDGV_GPU_PAGE_SHIFT) in
  p ← get reservations_pending; r ← get reserved_pages;
  mret (if List.existsb (covers addr) p then AMDGV_ERR_BUSY
        else if List.existsb (covers addr) r then 0 else AMDGV_FAILURE).

Definition amdgv_memmgr_query_page_reserve_status (pfn : Z) : M adapter Z :=
  amdgv_memmgr_page_reserve_status_locked pfn.

Definition amdgv_memmgr_reserve_page (pfn : Z) : M adapter Z :=
  ret ← amdgv_memmgr_page_reserve_status_locked pfn;
  if negb (ret =? AMDGV_FAILURE) then mret ret else
  ok ← oss oss_alloc;
  if negb ok then mret AMDGV_FAILURE else
  let st := u64 (Z.shiftl pfn AMDGV_GPU_PAGE_SHIFT) in
  o ← amdgv_memmgr_alloc_align_at st AMDGV_GPU_PAGE_SIZE MEM_ECC_BAD_PAGE;
  let r := mk_rsv st AMDGV_GPU_PAGE_SIZE o in
  match o with
  | Some _ => _ ← set (fun g => g <| reserved_pages := reserved_pages g ++ [r] |>); mret 0
  | None => _ ← set (fun g => g <| reservations_pending := reservations_pending g ++ [r] |>);
            mret AMDGV_ERR_BUSY
  end.

(** ** Making and unmaking a manager *)

(** The labels [reserves_fail] and [allocs_fail]. *)
Definition allocs_fail : M adapter Z :=
  _ ← oss oss_lock_fini; _ ← set (fun g => g <| lock := false |>); mret AMDGV_FAILURE.
Definition free_allocs_head : M adapter unit :=
  _ ← oss oss_free; set (fun g => g <| allocs := None |>).

Definition amdgv_memmgr_init (o sz sh : Z) (dn : bool) : M adapter Z :=
  _ ← set (fun g => g <| offset := o |> <| msize := if sz =? 0 then DEFAULT_SIZE else sz |>
                      <| shift := if sh =? 0 then DEFAULT_ALIGN_SHIFT else sh |> <| down := dn |>);
  lk ← oss oss_lock_init;
  _ ← set (fun g => g <| lock := lk |>);
  if negb lk then mret AMDGV_FAILURE else
  a ← oss oss_alloc;
  if negb a then _ ← set (fun g => g <| allocs := None |>); allocs_fail else
  _ ← set (fun g => g <| reservations_pending := [] |> <| reserved_pages := [] |>);
  rl ← oss oss_lock_init;
  _ ← set (fun g => g <| rsv_lock := rl |>);
  if negb rl then _ ← allocs_fail; _ ← free_allocs_head; mret AMDGV_FAILURE else
  _ ← link (fun h => Some (AMDGV_INIT_LIST_HEAD Allocs h));
  _ ← set (fun g => g <| allocs := Some o |>);
  r ← oss oss_alloc;
  if negb r then
    _ ← set (fun g => g <| reserves := None |>); _ ← free_allocs_head; allocs_fail
  else
    _ ← link (fun h => Some (AMDGV_INIT_LIST_HEAD Reserves h));
    _ ← set (fun g => g <| reserves := Some o |> <| reserve_count := 0 |> <| tom := o |> <| is_init := true |>);
    mret 0.

(** Taking every record off a list and freeing it. *)
Definition drop_mem (n : node) : M adapter unit :=
  p ← entry n; _ ← link (amdgv_list_del n); oss_free_mem p.
Definition drop_all (head : node) : M adapter unit :=
  fuel ← gets mem_fuel; each_node_safe mlnk fuel head drop_mem.

Definition amdgv_memmgr_fini : M adapter Z :=
  p ← get reservations_pending;
  _ ← for_each p (fun _ => oss oss_free);
  r ← get reserved_pages;
  _ ← for_each r (fun v => _ ← amdgv_memmgr_free (rsv_mem v); oss oss_free);
  _ ← set (fun g => g <| reservations_pending := [] |> <| reserved_pages := [] |>);
  rl ← get rsv_lock;
  _ ← when rl (_ ← oss oss_lock_fini; set (fun g => g <| rsv_lock := false |>));
  h ← get reserves;
  _ ← when (bool_decide (h <> None)) (
        _ ← drop_all Reserves; _ ← oss oss_free; set (fun g => g <| reserves := None |>));
  h ← get allocs;
  _ ← when (bool_decide (h <> None)) (_ ← drop_all Allocs; free_allocs_head);
  _ ← set (fun g => g <| offset := 0 |> <| msize := 0 |> <| tom := 0 |> <| is_init := false |>);
  lk ← get lock;
  _ ← when lk (_ ← oss oss_lock_fini; set (fun g => g <| lock := false |>));
  mret 0.

(** [AMDGV_USE_DEFAULT_MEMMGR] is [None]. *)
Definition amdgv_memmgr_pf_init (res : option (Z * Z)) : M adapter Z :=
  match res with
  | Some (o, sz) => amdgv_memmgr_init o sz 0 false
  | None => amdgv_memmgr_init 0 DEFAULT_MEMORY_MANAGER_SIZE 0 false
  end.
Definition amdgv_memmgr_pf_fini : M adapter Z :=
  i ← get is_init; if negb i then mret 0 else amdgv_memmgr_fini.

(** ** Reading and setting *)

Definition amdgv_memmgr_get_limit : M adapter Z := get msize.
Definition amdgv_memmgr_get_tom : M adapter Z := get tom.
Definition amdgv_memmgr_set_size (limit : Z) : M adapter Z :=
  t ← get tom;
  if limit <? t then mret AMDGV_FAILURE else _ ← set (fun g => g <| msize := limit |>); mret 0.
Definition amdgv_memmgr_set_gpu_base (base : Z) : M adapter Z := _ ← set (fun g => g <| mc_base := base |>); mret 0.

Definition amdgv_memmgr_get_gpu_addr (o : option nat) : M adapter Z :=
  match o with
  | None => mret (u64 (-1))
  | Some p => m ← mem_at p; b ← get mc_base; d ← get down;
              mret (if (d : bool) then u64 (b - alloc_off m) else u64 (b + alloc_off m - len m))
  end.
Definition amdgv_memmgr_get_offset (o : option nat) : M adapter Z :=
  match o with
  | None => mret (u64 (-1))
  | Some p => m ← mem_at p; d ← get down;
              mret (if (d : bool) then alloc_off m else u64 (alloc_off m - len m))
  end.
Definition amdgv_memmgr_get_size (o : option nat) : M adapter Z :=
  match o with None => mret 0 | Some p => m ← mem_at p; mret (len m) end.
Definition amdgv_memmgr_get_align (o : option nat) : M adapter Z :=
  match o with None => mret 0 | Some p => m ← mem_at p; mret (align m) end.

(** [mb] is the configured memory size in MB. *)
Definition amdgv_memmgr_addr_in_range (mb addr : Z) : M adapter bool :=
  limit ← amdgv_memmgr_get_limit; d ← get down;
  let total := MBYTES_TO_BYTES mb in
  mret (if (d : bool) then (u64 (total - limit) <=? addr) && (addr <? total)
        else (0 <=? addr) && (addr <? limit)).

Definition map_sys_mem (map : bool) (n : node) : M adapter unit :=
  p ← entry n; m ← mem_at p; when (bool_decide (sys_mem m <> None)) (amdgv_map_mem_gart p map).
Definition amdgv_map_sys_mem_allocs (map : bool) : M adapter Z :=
  i ← get is_init; sys ← get is_sys;
  if negb i || negb sys then mret AMDGV_FAILURE else
  fuel ← gets mem_fuel;
  _ ← each_node mlnk fuel Allocs (map_sys_mem map);
  mret 0.

(** ** Live update *)

(** [struct amdgv_live_info_memmgr_mem] *)
Record live_mem := mk_live { li_id : Z; li_owner : Z; li_off : Z; li_len : Z; li_align : Z }.
Definition MEM_OWNER_PF : Z := 16.
Definition MEM_OWNER_GPU : Z := 32.
Definition MEM_OWNER_SYS : Z := 48.

Definition is_bad_page (x : Z) : bool := MEM_ID_GET_ID x =? MEM_ECC_BAD_PAGE.

(** The loop of the export: whether it fitted, the next index, the table. *)
Fixpoint export_loop (ns : list node) (owner i : Z) (t : list live_mem) : M adapter (bool * Z * list live_mem) :=
  match ns with
  | [] => mret (true, i, t)
  | n :: ns' =>
      if MEM_ALLOCS_MAX <=? i then mret (false, i, t) else
      p ← entry n; m ← mem_at p;
      if is_bad_page (m_id m) then export_loop ns' owner i t else
      export_loop ns' owner (i + 1)
        (<[Z.to_nat i := mk_live (m_id m) owner (alloc_off m) (len m) (align m)]> t)
  end.

(** Result, next index and table. *)
Definition amdgv_memmgr_export_mem_allocs (owner i : Z) (t : list live_mem) : M adapter (Z * Z * list live_mem) :=
  o ← get allocs;
  match o with
  | None => mret (AMDGV_FAILURE, i, t)
  | Some _ =>
      b ← empty Allocs;
      if (b : bool) then mret (0, i, t) else
      fuel ← gets mem_fuel;
      h ← gets mlnk;
      ns ← require (amdgv_list_for_each_entry fuel Allocs h);
      r ← export_loop ns owner i t;
      let '(ok, j, t') := r in
      mret (if (ok : bool) then (0, j, t') else (AMDGV_FAILURE, i, t'))
  end.

Fixpoint import_loop (es : list live_mem) (owner : Z) : M adapter Z :=
  match es with
  | [] => mret 0
  | e :: es' =>
      if negb (li_owner e =? owner) || is_bad_page (li_id e) then import_loop es' owner else
      o ← amdgv_memmgr_find_mem_id (li_id e);
      match o with
      | Some p =>
          _ ← upd_mem p (fun m => mk_mem (li_off e) (li_len e) (li_align e) (li_id e) (sys_mem m));
          import_loop es' owner
      | None =>
          o ← oss_malloc;
          match o with
          | None => mret AMDGV_FAILURE
          | Some p =>
              _ ← set (fun g => g <| heap := <[p := mk_mem (li_off e) (li_len e) (li_align e) (li_id e) None]> (heap g) |>);
              _ ← link (amdgv_list_add_tail (MemNode p) Allocs);
              import_loop es' owner
          end
      end
  end.

Definition amdgv_memmgr_import_mem_allocs (owner n : Z) (t : list live_mem) : M adapter Z :=
  o ← get allocs;
  match o with
  | None => mret AMDGV_FAILURE
  | Some _ => _ ← demand (n <=? Z.of_nat (length t)); import_loop (take (Z.to_nat n) t) owner
  end.

(** Bad pages get an id again; [i] counts the entries of [bps_mem]. *)
Fixpoint fill_loop (ns : list node) (max i : Z) : M adapter (bool * list nat) :=
  match ns with
  | [] => mret (true, [])
  | n :: ns' =>
      if max <=? i then mret (false, []) else
      p ← entry n; m ← mem_at p;
      if is_bad_page (m_id m) then
        mid ← amdgv_memmgr_mem_id_add MEM_ECC_BAD_PAGE;
        _ ← upd_mem p (fun m => m <| m_id := if mid =? MEM_ID_NOT_AVAILABLE then MEM_ECC_BAD_PAGE else mid |>);
        r ← fill_loop ns' max (i + 1); mret (r.1, p :: r.2)
      else fill_loop ns' max i
  end.
Definition amdgv_memmgr_fill_reserved_bad_pages (max i : Z) : M adapter (Z * list nat) :=
  o ← get allocs;
  match o with
  | None => mret (AMDGV_FAILURE, [])
  | Some _ =>
      fuel ← gets mem_fuel;
      h ← gets mlnk;
      ns ← require (amdgv_list_for_each_entry fuel Allocs h);
      r ← fill_loop ns max i;
      mret (if r.1 : bool then 0 else AMDGV_FAILURE, r.2)
  end.
End placing.

(** ** The managers of an adapter *)

Record managers := mk_managers { base : adapter; pf : memmgr; gpu : memmgr; sys : memmgr; mc_addrs : list Z }.
#[export] Instance eta_managers : Eta managers := fun r =>
  mk_managers (base r) (pf r) (gpu r) (sys r) (mc_addrs r).

Definition with_pf {A} : M adapter A -> M managers A :=
  zoom (fun s => (base s) <| mgr := pf s |>) (fun t s => s <| base := t |> <| pf := mgr t |>).
Definition with_gpu {A} : M adapter A -> M managers A :=
  zoom (fun s => (base s) <| mgr := gpu s |>) (fun t s => s <| base := t |> <| gpu := mgr t |>).
Definition with_sys {A} : M adapter A -> M managers A :=
  zoom (fun s => (base s) <| mgr := sys s |>) (fun t s => s <| base := t |> <| sys := mgr t |>).

Record live_mgr := mk_live_mgr {
  lg_mc_base : Z; lg_offset : Z; lg_size : Z; lg_shift : Z; lg_tom : Z; lg_down : bool
}.
Record live_memmgr := mk_live_memmgr {
  lm_addrs : list Z; lm_pf : live_mgr; lm_gpu : option live_mgr;
  lm_count : Z; lm_allocs : list live_mem
}.

Section live.
Context {E : OssEnv}.

(** One manager's turn: nothing once a previous one has failed. *)
Definition export_one (init : bool) (owner : Z) (m : M adapter (Z * Z * list live_mem) -> M managers (Z * Z * list live_mem))
    (r : Z * Z * list live_mem) : M managers (Z * Z * list live_mem) :=
  let '(ret, i, t) := r in
  if (init : bool) && (ret =? 0) then m (amdgv_memmgr_export_mem_allocs owner i t) else mret r.

Definition amdgv_memmgr_export_mem_allocs_all (t : list live_mem) : M managers (Z * Z * list live_mem) :=
  r ← with_pf (amdgv_memmgr_export_mem_allocs MEM_OWNER_PF 0 t);
  g ← gets (fun s => is_init (gpu s));
  r ← export_one g MEM_OWNER_GPU with_gpu r;
  y ← gets (fun s => is_init (sys s));
  export_one y MEM_OWNER_SYS with_sys r.

Definition import_one (init : bool) (m : M managers Z) (ret : Z) : M managers Z :=
  if (init : bool) && (ret =? 0) then m else mret ret.

Definition amdgv_memmgr_import_mem_allocs_all (n : Z) (t : list live_mem) : M managers Z :=
  r ← with_pf (amdgv_memmgr_import_mem_allocs MEM_OWNER_PF n t);
  g ← gets (fun s => is_init (gpu s));
  r ← import_one g (with_gpu (amdgv_memmgr_import_mem_allocs MEM_OWNER_GPU n t)) r;
  y ← gets (fun s => is_init (sys s));
  import_one y (with_sys (amdgv_memmgr_import_mem_allocs MEM_OWNER_SYS n t)) r.

(** The header a manager leaves; [a] is the alignment in bytes. *)
Definition live_of (a : Z) (g : memmgr) : live_mgr :=
  mk_live_mgr (mc_base g) (offset g) (roundup64 (tom g) a) (shift g) (tom g) (down g).
Definition of_live (l : live_mgr) (g : memmgr) : memmgr :=
  g <| mc_base := lg_mc_base l |> <| offset := lg_offset l |> <| msize := lg_size l |>
    <| shift := lg_shift l |> <| tom := lg_tom l |> <| down := lg_down l |>.

(** [fb] is [AMDGV_FUNCTION_FB_ALIGNMENT]; [t] the table as it was. *)
Definition amdgv_memmgr_export_live_data (fb : Z) (t : list live_mem) : M managers (Z * live_memmgr) :=
  s ← gets (fun s => s);
  let a := MBYTES_TO_BYTES fb in
  r ← amdgv_memmgr_export_mem_allocs_all t;
  let '(ret, n, t') := r in
  mret (if ret =? 0 then 0 else 1,
        mk_live_memmgr (mc_addrs s) (live_of a (pf s))
          (if is_init (gpu s) then Some (live_of a (gpu s)) else None) n t').

Definition amdgv_memmgr_import_live_data (l : live_memmgr) : M managers Z :=
  _ ← modify (fun s => s <| mc_addrs := lm_addrs l |> <| pf := of_live (lm_pf l) (pf s) |>);
  g ← gets (fun s => is_init (gpu s));
  _ ← when g (modify (fun s => s <| gpu := of_live (default (mk_live_mgr 0 0 0 0 0 false) (lm_gpu l)) (gpu s) |>));
  ret ← amdgv_memmgr_import_mem_allocs_all (lm_count l) (lm_allocs l);
  mret (if ret =? 0 then 0 else 1).
End live.

End Memmgr.
