(* ===== verification/MemmgrInv.v ===== *)
(** * The memory manager as a sequence of allocations

    The abstract view of [Memmgr]: the records of a manager that grows upwards
    in address order, and the first gap an allocation fits.  [repr] relates it
    to the intrusive list and the heap of records. *)
From S2P Require Import Prelude Api Oss Dlist ListScan Memmgr.
Import Dlist ListScan Memmgr.
#[local] Open Scope Z_scope.
#[local] Set Warnings "-clear-no-such-hyp".

(** ** Alignment *)

(** The least multiple of [a] from [x] on. *)
Definition align_up (x a : Z) : Z := (x + a - 1) / a * a.

Lemma align_up_bounds x a : 0 < a -> x <= align_up x a < x + a.
Proof.
  intros Ha. unfold align_up. pose proof (Z.div_mod (x + a - 1) a).
  pose proof (Z.mod_pos_bound (x + a - 1) a). lia.
Qed.

Lemma align_up_mono x y a : 0 < a -> x <= y -> align_up x a <= align_up y a.
Proof. intros Ha H. unfold align_up. apply Z.mul_le_mono_nonneg_r; [lia|]. apply Z.div_le_mono; lia. Qed.

Lemma align_up_least x k a : 0 < a -> x <= k * a -> align_up x a <= k * a.
Proof.
  intros Ha H. unfold align_up. apply Z.mul_le_mono_nonneg_r; [lia|].
  assert ((x + a - 1) / a < k + 1); [|lia]. apply Z.div_lt_upper_bound; lia.
Qed.

Lemma land_floor w y k : 0 <= k < w -> 0 <= y < 2 ^ w ->
  Z.land y (wrap w (Z.lnot (2 ^ k - 1))) = y / 2 ^ k * 2 ^ k.
Proof.
  intros Hk Hy. unfold wrap.
  assert (Z.land y (Z.lnot (2 ^ k - 1) mod 2 ^ w) = Z.ldiff y (Z.ones k)) as ->.
  { rewrite Z.ones_equiv. apply Z.bits_inj'. intros n Hn.
    rewrite Z.ldiff_spec, Z.land_spec. rewrite <- (Z.land_ones _ w) by lia.
    rewrite Z.land_spec, Z.lnot_spec, Z.testbit_ones_nonneg by lia.
    replace (Z.pred (2 ^ k)) with (2 ^ k - 1) by lia.
    destruct (Z.ltb_spec n w); [by rewrite andb_true_r|].
    rewrite andb_false_r, andb_false_r. symmetry. apply andb_false_iff. left.
    destruct (Z.eq_dec y 0) as [->|]; [apply Z.testbit_0_l|].
    apply Z.bits_above_log2; [lia|]. apply Z.log2_lt_pow2; [lia|].
    eapply Z.lt_le_trans; [apply Hy|]. apply Z.pow_le_mono_r; lia. }
  rewrite Z.ldiff_ones_r, Z.shiftl_mul_pow2, Z.shiftr_div_pow2 by lia. done.
Qed.

Lemma ALIGN_up x k : 0 <= k <= 40 -> 0 <= x <= 2 ^ 62 -> AMDGV_MEMMGR_ALIGN x (2 ^ k) = align_up x (2 ^ k).
Proof.
  intros Hk Hx. assert (0 < 2 ^ k <= 2 ^ 40).
  { split; [lia|]. apply Z.pow_le_mono_r; lia. }
  unfold AMDGV_MEMMGR_ALIGN, align_up. rewrite (wrap_id 64 (x + 2 ^ k - 1)) by (unfold in_width; lia).
  apply land_floor; lia.
Qed.

(** With a 32-bit alignment, only up to 4 GB. *)
Lemma ALIGN32_up x k : 0 <= k <= 31 -> 0 <= x -> x + 2 ^ k <= 2 ^ 32 ->
  AMDGV_MEMMGR_ALIGN32 x (2 ^ k) = align_up x (2 ^ k).
Proof.
  intros Hk Hx Hlt. unfold AMDGV_MEMMGR_ALIGN32, align_up.
  rewrite (wrap_id 64 (x + 2 ^ k - 1)), (wrap_id 32 (2 ^ k - 1)) by (unfold in_width; lia).
  apply land_floor; lia.
Qed.

(** ** Abstract allocations *)

Abbreviation block := (nat * mem)%type.
Definition b_start (b : block) : Z := alloc_off b.2 - len b.2.
Definition b_end (b : block) : Z := alloc_off b.2.
Definition node_of (b : block) : node := MemNode b.1.
Definition ptrs (A : list block) : list nat := A.*1.

(** The blocks lie one after the other from [lo] on. *)
Fixpoint spaced (lo : Z) (A : list block) : Prop :=
  match A with
  | [] => True
  | b :: A' => lo <= b_start b /\ 0 < len b.2 /\ spaced (b_end b) A'
  end.
(** Where the last one ends. *)
Definition top (lo : Z) (A : list block) : Z := match last A with Some b => b_end b | None => lo end.

(** How many blocks precede the first gap of more than [l] bytes from an
    [a]-aligned offset on; all of them when there is none. *)
Fixpoint first_fit (a l lo : Z) (A : list block) : nat :=
  match A with
  | [] => O
  | b :: A' => if align_up lo a + l <? b_start b then O else S (first_fit a l (b_end b) A')
  end.

(** How many blocks precede the bytes from [t] to [t + l]; [None] when one
    overlaps them. *)
Fixpoint fit_at (t l : Z) (A : list block) : option nat :=
  match A with
  | [] => Some O
  | b :: A' => if b_end b <=? t then S <$> fit_at t l A' else if t + l <=? b_start b then Some O else None
  end.

Lemma top_nil lo : top lo [] = lo.
Proof. done. Qed.

Lemma top_cons lo b A : top lo (b :: A) = top (b_end b) A.
Proof. unfold top. rewrite last_cons. by destruct (last A). Qed.

Lemma top_app lo A B : top lo (A ++ B) = top (top lo A) B.
Proof. revert lo. induction A as [|b A IH]; intros lo; [done|]. cbn [app]. by rewrite !top_cons, IH. Qed.

Lemma spaced_app lo A B : spaced lo (A ++ B) <-> spaced lo A /\ spaced (top lo A) B.
Proof.
  revert lo. induction A as [|b A IH]; intros lo; cbn [app spaced]; [by split; [|intros [_ ?]]|].
  rewrite IH, top_cons. tauto.
Qed.

Lemma spaced_top lo A : spaced lo A -> lo <= top lo A.
Proof.
  revert lo. induction A as [|b A IH]; intros lo; [by unfold top|].
  cbn [spaced]. rewrite top_cons. unfold b_start. intros (H1 & H2 & H3%IH). unfold b_end in *. lia.
Qed.

Lemma top_take n lo A : spaced lo A -> lo <= top lo (take n A) <= top lo A.
Proof.
  intros H. rewrite <- (take_drop n A) in H. apply spaced_app in H as [HU HV].
  split; [by apply spaced_top|]. rewrite <- (take_drop n A) at 2. rewrite top_app. by apply spaced_top.
Qed.

Lemma spaced_lower lo lo' A : lo' <= lo -> spaced lo A -> spaced lo' A.
Proof. destruct A as [|b A]; cbn; [done|]. intros H (? & ? & ?). split_and!; [lia|done|done]. Qed.

Lemma first_fit_le a l A : forall lo, (first_fit a l lo A <= length A)%nat.
Proof. induction A as [|b A IH]; intros lo; cbn; [lia|]. destruct (_ <? _); [lia|]. specialize (IH (b_end b)). lia. Qed.

(** The gap found. *)
Lemma first_fit_gap a l A : forall lo b B,
  drop (first_fit a l lo A) A = b :: B -> align_up (top lo (take (first_fit a l lo A) A)) a + l < b_start b.
Proof.
  induction A as [|c A IH]; intros lo b B; cbn [first_fit]; [done|].
  destruct (Z.ltb_spec (align_up lo a + l) (b_start c)); cbn [take drop].
  - intros [= -> ->]. done.
  - rewrite top_cons. apply IH.
Qed.

Lemma fit_at_gap t l A : forall lo n, lo <= t -> fit_at t l A = Some n ->
  top lo (take n A) <= t /\ (forall b B, drop n A = b :: B -> t + l <= b_start b).
Proof.
  induction A as [|c A IH]; intros lo n Hlo; cbn [fit_at].
  - intros [= <-]. done.
  - destruct (Z.leb_spec (b_end c) t).
    + destruct (fit_at t l A) as [k|] eqn:E; [|done]. intros [= <-]. cbn [take drop]. rewrite top_cons. by apply IH.
    + destruct (Z.leb_spec (t + l) (b_start c)); [|done]. intros [= <-]. cbn [take drop]. split; [done|].
      by intros ? ? [= <- <-].
Qed.

Lemma fit_at_le t l A : forall n, fit_at t l A = Some n -> (n <= length A)%nat.
Proof.
  induction A as [|c A IH]; cbn; intros n; [by intros [= <-]|]. destruct (_ <=? _).
  - destruct (fit_at t l A) as [k|]; [|done]. intros [= <-]. specialize (IH k eq_refl). lia.
  - destruct (_ <=? _); [|done]. intros [= <-]. lia.
Qed.

(** ** Representation *)

Record repr (A R : list block) (s : adapter) : Prop := {
  rp_allocs : dlist (mlnk s) Allocs (node_of <$> A);
  rp_reserves : dlist (mlnk s) Reserves (node_of <$> R);
  rp_nodup : NoDup (ptrs (A ++ R));
  rp_heap : Forall (fun b : block => heap (mgr s) !! b.1 = Some b.2) (A ++ R);
  rp_fresh : Forall (fun b : block => (b.1 < fresh (mgr s))%nat) (A ++ R);
  rp_head : allocs (mgr s) = Some (offset (mgr s));
}.

(** The sizes C's arithmetic is exact for. *)
Definition mem_limit : Z := 2 ^ 60.

(** A manager in use, that grows upwards in frame-buffer memory. *)
Record up_mgr (g : memmgr) : Prop := {
  up_down : down g = false;
  up_sys : is_sys g = false;
  up_init : is_init g = true;
  up_offset : 0 <= offset g;
  up_limit : offset g + msize g <= mem_limit;
  up_shift : 0 <= shift g <= 31;
}.

Record wf (A R : list block) (s : adapter) : Prop := {
  wf_repr : repr A R s;
  wf_up : up_mgr (mgr s);
  wf_spaced : spaced (offset (mgr s)) A;
  wf_tom : tom (mgr s) = top (offset (mgr s)) A;
  wf_top : top (offset (mgr s)) A <= offset (mgr s) + msize (mgr s);
}.

(** ** Elementary steps *)

Lemma wp_get {A} (f : memmgr -> A) (Q : A -> adapter -> Prop) s : Q (f (mgr s)) s -> wp (get f) Q s.
Proof. done. Qed.
Lemma wp_set f (Q : unit -> adapter -> Prop) s : Q tt (s <| mgr := f (mgr s) |>) -> wp (set f) Q s.
Proof. done. Qed.
Lemma wp_mem_at p m (Q : mem -> adapter -> Prop) s : heap (mgr s) !! p = Some m -> Q m s -> wp (mem_at p) Q s.
Proof. intros E HQ. unfold wp, mem_at. by rewrite E. Qed.
Lemma wp_entry b (Q : nat -> adapter -> Prop) s : Q b.1 s -> wp (entry (node_of b)) Q s.
Proof. done. Qed.
Lemma wp_mem_link f h (Q : unit -> adapter -> Prop) s :
  f (mlnk s) = Some h -> Q tt (s <| mgr := (mgr s) <| lnk := h |> |>) -> wp (link f) Q s.
Proof. intros E HQ. unfold wp, link. by rewrite E. Qed.
Lemma wp_empty A head (Q : bool -> adapter -> Prop) s :
  dlist (mlnk s) head (node_of <$> A) -> Q (bool_decide (A = [])) s -> wp (empty head) Q s.
Proof.
  intros Hd HQ. unfold empty. apply wp_gets. rewrite (dlist_empty _ _ _ Hd). by destruct A.
Qed.

Lemma repr_block A R s b : repr A R s -> b ∈ A ++ R -> heap (mgr s) !! b.1 = Some b.2.
Proof. intros Hr Hb. pose proof (rp_heap _ _ _ Hr) as Hh. rewrite Forall_forall in Hh. by apply Hh. Qed.

Lemma repr_fuel A R s : repr A R s -> (length (A ++ R) <= mem_fuel s)%nat.
Proof.
  intros Hr. enough (length (ptrs (A ++ R)) <= length (seq 0 (fresh (mgr s))))%nat as H.
  { unfold ptrs in H. rewrite length_fmap, length_seq in H. unfold mem_fuel. lia. }
  apply submseteq_length, NoDup_submseteq; [apply Hr|]. intros p (b & -> & Hb)%list_elem_of_fmap.
  pose proof (rp_fresh _ _ _ Hr) as Hf. rewrite Forall_forall in Hf. apply elem_of_seq. specialize (Hf _ Hb). lia.
Qed.

Lemma fmap_snoc_node U b : node_of <$> (U ++ [b]) = (node_of <$> U) ++ [node_of b].
Proof. by rewrite fmap_app. Qed.

(** The neighbours of a block of a list. *)
Lemma next_of_block h head U b V : dlist h head (node_of <$> U ++ b :: V) ->
  next h !! node_of b = Some (after (node_of <$> V) head).
Proof.
  intros Hd. assert (dlist h head ((node_of <$> U ++ [b]) ++ (node_of <$> V))) as Hd'.
  { by rewrite <- fmap_app, <- app_assoc. }
  pose proof (dlist_after _ _ _ _ Hd') as Hn. by rewrite fmap_snoc_node, before_snoc in Hn.
Qed.

Lemma prev_of_pos h head U V : dlist h head (node_of <$> U ++ V) ->
  prev h !! after (node_of <$> V) head = Some (before head (node_of <$> U)).
Proof. rewrite fmap_app. apply dlist_before. Qed.

(** ** The search for a gap *)

Lemma wp_find_size_loop k l lo (Q : node -> adapter -> Prop) s : 0 <= k <= 40 -> 0 <= l <= mem_limit -> 0 <= lo ->
  forall V fuel U, dlist (mlnk s) Allocs (node_of <$> U ++ V) ->
  Forall (fun b : block => heap (mgr s) !! b.1 = Some b.2) V -> (length V <= fuel)%nat ->
  spaced lo (U ++ V) -> top lo (U ++ V) <= mem_limit ->
  Q (before Allocs (node_of <$> U ++ take (first_fit (2 ^ k) l (top lo U) V) V)) s ->
  wp (find_size_loop fuel (after (node_of <$> V) Allocs) (align_up (top lo U) (2 ^ k)) l (2 ^ k)) Q s.
Proof.
  intros Hk Hl Hlo. assert (0 < 2 ^ k <= 2 ^ 40) as Ha by (split; [lia|apply Z.pow_le_mono_r; lia]).
  induction V as [|b V IH]; intros fuel U Hd Hh Hf Hsp Htop HQ.
  { pose proof (prev_of_pos _ _ _ _ Hd) as Hp. destruct fuel; cbn; rewrite decide_True by done;
      (eapply wp_prev_of; [exact Hp|]); by rewrite app_nil_r in HQ. }
  destruct fuel as [|fuel]; [cbn in Hf; lia|]. cbn [length] in Hf.
  pose proof (next_of_block _ _ _ _ _ Hd) as Hn. pose proof (prev_of_pos _ _ _ _ Hd) as Hp.
  apply Forall_cons in Hh as [Hb Hh]. apply spaced_app in Hsp as [HspU HspV].
  pose proof HspV as (H1 & H2 & H3). pose proof (spaced_top _ _ HspU). pose proof (spaced_top _ _ H3) as Hbt.
  rewrite top_app, top_cons in Htop. unfold b_start, b_end, mem_limit in *.
  pose proof (align_up_bounds (top lo U) (2 ^ k) (proj1 Ha)).
  assert (forall t, t = align_up (alloc_off b.2) (2 ^ k) ->
    first_fit (2 ^ k) l (top lo U) (b :: V) = S (first_fit (2 ^ k) l (b_end b) V) ->
    wp (n ← next_of mlnk (node_of b); find_size_loop fuel n t l (2 ^ k)) Q s) as Hnext.
  { intros t -> Hff. apply wp_bind. eapply wp_next_of; [exact Hn|].
    assert (top lo (U ++ [b]) = alloc_off b.2) as Et by by rewrite top_app.
    rewrite <- Et. apply IH; try done; try lia.
    - by rewrite <- app_assoc.
    - rewrite <- app_assoc. by apply spaced_app.
    - rewrite <- app_assoc, top_app. cbn [app]. rewrite top_cons. done.
    - rewrite Hff in HQ. cbn [take] in HQ. rewrite Et, <- app_assoc. exact HQ. }
  cbn [fmap list_fmap after default head find_size_loop]. unfold after in *. cbn in Hp.
  rewrite decide_False by done. apply wp_bind, wp_entry, wp_bind.
  eapply wp_mem_at; [exact Hb|]. cbn [first_fit] in Hnext, HQ. unfold b_start in Hnext, HQ.
  destruct (Z.ltb_spec (alloc_off b.2) (align_up (top lo U) (2 ^ k))) as [Hlt|Hge].
  - apply Hnext; [|destruct (Z.ltb_spec (align_up (top lo U) (2 ^ k) + l) (alloc_off b.2 - len b.2)); [lia|done]].
    apply Z.le_antisymm; [apply align_up_mono; lia|]. apply align_up_least; [lia|]. unfold align_up in Hlt. lia.
  - rewrite !wrap_id by (unfold in_width; lia).
    destruct (align_up (top lo U) (2 ^ k) + l <? alloc_off b.2 - len b.2).
    + eapply wp_prev_of; [exact Hp|]. by rewrite app_nil_r in HQ.
    + apply Hnext; [|done]. by rewrite ALIGN_up by lia.
Qed.

(** ** The search at an offset *)

Lemma wp_find_at_loop t l lo (Q : option node -> adapter -> Prop) s : 0 <= t <= mem_limit -> 0 < l <= mem_limit -> 0 <= lo ->
  forall V fuel U, dlist (mlnk s) Allocs (node_of <$> U ++ V) ->
  Forall (fun b : block => heap (mgr s) !! b.1 = Some b.2) V -> (length V <= fuel)%nat ->
  spaced lo V -> top lo V <= mem_limit ->
  Q ((fun n => before Allocs (node_of <$> U ++ take n V)) <$> fit_at t l V) s ->
  wp (find_at_loop fuel (after (node_of <$> V) Allocs) t l) Q s.
Proof.
  intros Ht Hl Hlo V. revert lo Hlo. induction V as [|b V IH]; intros lo Hlo fuel U Hd Hh Hf Hsp Htop HQ.
  { pose proof (prev_of_pos _ _ _ _ Hd) as Hp. destruct fuel; cbn; rewrite decide_True by done;
      apply wp_bind; (eapply wp_prev_of; [exact Hp|]); apply wp_ret; by rewrite <- (app_nil_r U). }
  destruct fuel as [|fuel]; [cbn in Hf; lia|]. cbn [length] in Hf.
  pose proof (next_of_block _ _ _ _ _ Hd) as Hn. pose proof (prev_of_pos _ _ _ _ Hd) as Hp.
  apply Forall_cons in Hh as [Hb Hh]. destruct Hsp as (H1 & H2 & H3). pose proof (spaced_top _ _ H3) as Hbt.
  rewrite top_cons in Htop. unfold b_start, b_end, mem_limit in *.
  cbn [fmap list_fmap after default head find_at_loop]. unfold after in *. cbn in Hp.
  rewrite decide_False by done. apply wp_bind, wp_entry, wp_bind.
  eapply wp_mem_at; [exact Hb|]. cbn [fit_at] in HQ. unfold b_end, b_start in HQ. rewrite !wrap_id by (unfold in_width; lia).
  assert (alloc_off b.2 <= t -> wp (n ← next_of mlnk (node_of b); find_at_loop fuel n t l) Q s) as Hnext.
  { intros Hle. apply wp_bind. eapply wp_next_of; [exact Hn|]. apply (IH (alloc_off b.2) ltac:(lia) fuel (U ++ [b]));
      rewrite <- ?app_assoc; try done; try lia. apply Z.leb_le in Hle. rewrite Hle in HQ.
    destruct (fit_at t l V); cbn in *; by rewrite <- ?app_assoc. }
  destruct (Z.leb_spec (alloc_off b.2) t) as [Hle|Hgt].
  - destruct (Z.ltb_spec (alloc_off b.2) t); [by apply Hnext|].
    destruct (Z.ltb_spec t (alloc_off b.2)); [lia|]. cbn [andb].
    destruct (Z.leb_spec (t + l) (alloc_off b.2 - len b.2)); [lia|]. by apply Hnext.
  - destruct (Z.ltb_spec (alloc_off b.2) t); [lia|]. destruct (Z.ltb_spec t (alloc_off b.2)); [|lia]. cbn [andb].
    rewrite Z.leb_antisym in *. destruct (alloc_off b.2 - len b.2 <? t + l); cbn [negb] in *; [by apply wp_ret|].
    apply wp_bind. eapply wp_prev_of; [exact Hp|]. apply wp_ret. by rewrite <- (app_nil_r U).
Qed.
