(* ===== verification/MemmgrIds.v ===== *)
(** * Memory ids

    Every allocation of frame-buffer memory carries an id made of a block user
    and an index; a bitmap per user records the indices given out. *)
From S2P Require Import Prelude Api Oss Memmgr.
Import Memmgr.
#[local] Open Scope Z_scope.
#[local] Set Warnings "-clear-no-such-hyp".

(** ** Bits *)

Lemma first_clear_spec f : forall w i,
  exists n, first_clear f w i = i + n /\ 0 <= n <= Z.of_nat f /\
    (forall m, 0 <= m < n -> Z.testbit w m = true) /\ (n < Z.of_nat f -> Z.testbit w n = false).
Proof.
  induction f as [|f IH]; intros w i; cbn [first_clear].
  { exists 0. split_and!; [lia|lia|lia|intros m; lia|lia]. }
  rewrite <- Z.bit0_odd. destruct (Z.testbit w 0) eqn:E0.
  - destruct (IH (Z.shiftr w 1) (i + 1)) as (n & -> & Hn & Hlo & Hhi). exists (n + 1).
    split_and!; [lia|lia|lia| |].
    + intros m Hm. destruct (Z.eq_dec m 0) as [->|]; [done|]. specialize (Hlo (m - 1)).
      rewrite Z.shiftr_spec in Hlo by lia. rewrite <- Hlo by lia. f_equal. lia.
    + intros Hf. rewrite Z.shiftr_spec in Hhi by lia. apply Hhi. lia.
  - exists 0. split_and!; [lia|lia|lia|intros m; lia|done].
Qed.

(** A 64-bit word that is not all ones has a clear bit. *)
Lemma all_ones w : in_width 64 w -> (forall m, 0 <= m < 64 -> Z.testbit w m = true) -> w = 2 ^ 64 - 1.
Proof.
  intros Hw Hall. replace (2 ^ 64 - 1) with (Z.ones 64) by (rewrite Z.ones_equiv; lia).
  apply Z.bits_inj'. intros m Hm. rewrite Z.testbit_ones_nonneg by lia.
  destruct (Z.ltb_spec m 64); [by apply Hall|].
  destruct (Z.eq_dec w 0) as [->|]; [apply Z.testbit_0_l|]. unfold in_width in Hw.
  apply Z.bits_above_log2; [lia|]. apply Z.log2_lt_pow2; [lia|].
  eapply Z.lt_le_trans; [apply Hw|]. apply Z.pow_le_mono_r; lia.
Qed.

Lemma first_clear_64 w i : in_width 64 w -> w <> 2 ^ 64 - 1 ->
  exists n, first_clear 64 w i = i + n /\ 0 <= n < 64 /\ Z.testbit w n = false /\
    (forall m, 0 <= m < n -> Z.testbit w m = true).
Proof.
  intros Hw Hne. destruct (first_clear_spec 64 w i) as (n & -> & Hn & Hlo & Hhi). exists n.
  destruct (Z.eq_dec n 64) as [->|]; [destruct Hne; by apply all_ones|].
  split_and!; [done|lia|lia|apply Hhi; lia|done].
Qed.

Lemma first_word_spec ws : forall i,
  match first_word i ws with
  | Some (k, w) => exists j, k = (i + j)%nat /\ ws !! j = Some w /\ w <> 2 ^ 64 - 1 /\
      (forall m v, (m < j)%nat -> ws !! m = Some v -> v = 2 ^ 64 - 1)
  | None => forall m v, ws !! m = Some v -> v = 2 ^ 64 - 1
  end.
Proof.
  induction ws as [|w ws IH]; intros i; cbn [first_word]; [done|].
  destruct (Z.eqb_spec w (2 ^ 64 - 1)) as [->|Hne].
  - specialize (IH (S i)). destruct (first_word (S i) ws) as [[k v]|].
    + destruct IH as (j & -> & Hj & Hv & Hlo). exists (S j). split_and!; [lia|done|done|].
      intros [|m] u Hm Hu; [by cbn in Hu; simplify_eq|]. apply (Hlo m); [lia|done].
    + intros [|m] v Hv; [by cbn in Hv; simplify_eq|by apply (IH m)].
  - exists 0%nat. split_and!; [lia|done|done|]. intros m v Hm. lia.
Qed.

(** Bit [j] of a bitmap of 64-bit words. *)
Definition bit_of (ws : list Z) (j : Z) : bool := Z.testbit (nth (Z.to_nat (j / 64)) ws 0) (j mod 64).

Lemma bit_of_word ws (k : nat) n : 0 <= n < 64 -> bit_of ws (Z.of_nat k * 64 + n) = Z.testbit (nth k ws 0) n.
Proof.
  intros Hn. unfold bit_of. rewrite Z.add_comm, Z.div_add, Z.mod_add, Z.div_small, Z.mod_small by lia.
  do 2 f_equal. lia.
Qed.

Lemma bit_of_zero k j : bit_of (replicate k 0) j = false.
Proof.
  unfold bit_of. rewrite nth_lookup. destruct (replicate k 0 !! Z.to_nat (j / 64)) as [w|] eqn:E; [|apply Z.testbit_0_l].
  apply lookup_replicate in E as [-> _]. apply Z.testbit_0_l.
Qed.

Lemma nth_insert ws k j (w : Z) : (k < length ws)%nat ->
  nth j (<[k := w]> ws) 0 = if decide (j = k) then w else nth j ws 0.
Proof.
  intros Hk. rewrite !nth_lookup. destruct (decide (j = k)) as [->|].
  - by rewrite list_lookup_insert_eq.
  - by rewrite list_lookup_insert_ne.
Qed.

Lemma bit_of_update ws k (f : Z -> Z) j n (g : bool -> bool) :
  (k < length ws)%nat -> 0 <= n < 64 -> 0 <= j ->
  (forall w m, 0 <= m < 64 -> Z.testbit (f w) m = if m =? n then g (Z.testbit w m) else Z.testbit w m) ->
  bit_of (<[k := f (nth k ws 0)]> ws) j = if j =? Z.of_nat k * 64 + n then g (bit_of ws j) else bit_of ws j.
Proof.
  intros Hk Hn Hj Hf. unfold bit_of. rewrite nth_insert by done.
  pose proof (Z.div_mod j 64). pose proof (Z.mod_pos_bound j 64). pose proof (Z.div_pos j 64).
  destruct (decide (Z.to_nat (j / 64) = k)) as [E|Hne].
  - rewrite Hf, E by lia. destruct (Z.eqb_spec (j mod 64) n), (Z.eqb_spec j (Z.of_nat k * 64 + n)); try done; lia.
  - destruct (Z.eqb_spec j (Z.of_nat k * 64 + n)); [lia|done].
Qed.

Lemma set_bit n w m : 0 <= n -> 0 <= m ->
  Z.testbit (Z.lor w (Z.shiftl 1 n)) m = if m =? n then true else Z.testbit w m.
Proof.
  intros Hn Hm. rewrite Z.lor_spec, Z.shiftl_1_l, Z.pow2_bits_eqb by lia. rewrite Z.eqb_sym.
  destruct (m =? n); [apply orb_true_r|apply orb_false_r].
Qed.

Lemma clear_bit_width n w : in_width 64 w -> in_width 64 (Z.land w n).
Proof.
  intros Hw. apply (in_width_sub 64 w); [done|done|apply Z.land_nonneg; left; apply Hw|].
  intros j _. rewrite Z.land_spec. by intros [? _]%andb_true_iff.
Qed.

Lemma set_bit_width n w : 0 <= n < 64 -> in_width 64 w -> in_width 64 (Z.lor w (Z.shiftl 1 n)).
Proof.
  intros Hn [H0 H1]. assert (0 <= Z.shiftl 1 n) by (apply Z.shiftl_nonneg; lia). split; [by apply Z.lor_nonneg|].
  destruct (Z.eq_dec (Z.lor w (Z.shiftl 1 n)) 0) as [->|]; [lia|].
  assert (0 <= Z.lor w (Z.shiftl 1 n)) by by apply Z.lor_nonneg.
  apply Z.log2_lt_pow2; [lia|]. rewrite Z.log2_lor by done.
  apply Z.max_lub_lt; [|rewrite Z.shiftl_1_l, Z.log2_pow2; lia].
  destruct (Z.eq_dec w 0) as [->|]; [by vm_compute|]. apply Z.log2_lt_pow2; lia.
Qed.

Lemma clear_bit n w m : 0 <= n < 64 -> 0 <= m < 64 ->
  Z.testbit (Z.land w (u64 (Z.lnot (Z.shiftl 1 n)))) m = if m =? n then false else Z.testbit w m.
Proof.
  intros Hn Hm. rewrite Z.land_spec. unfold wrap. rewrite <- (Z.land_ones _ 64) by lia.
  rewrite Z.land_spec, Z.lnot_spec, Z.testbit_ones_nonneg, Z.shiftl_1_l, Z.pow2_bits_eqb by lia.
  rewrite (Z.eqb_sym n m). destruct (Z.ltb_spec m 64); [|lia]. destruct (m =? n); cbn; [apply andb_false_r|apply andb_true_r].
Qed.

(** ** The table *)

Record ids_wf (s : adapter) : Prop := {
  iw_len : length (mem_id_list s) = 256%nat;
  iw_count : 0 <= valid_mem_id_count s <= 255;
  iw_words : Forall (fun e => length (bitmaps e) = MAX_BITMAP_COUNT /\ Forall (in_width 64) (bitmaps e)) (mem_id_list s);
}.

Definition valid_ids (s : adapter) : list mem_with_bitmap := take (Z.to_nat (valid_mem_id_count s)) (mem_id_list s).
(** Block user [x] has an entry. *)
Definition known (x : Z) (s : adapter) : bool := match id_index 0 x (valid_ids s) with Some _ => true | None => false end.
(** Index [j] of block user [x] is given out. *)
Definition index_used (s : adapter) (x j : Z) : bool :=
  match id_index 0 x (valid_ids s) with
  | Some i => match mem_id_list s !! i with Some e => bit_of (bitmaps e) j | None => false end
  | None => false
  end.
Definition make_id (x j : Z) : Z := Z.lor (Z.land x 65535) (Z.shiftl (Z.land j 65535) 16).

Definition ids_frame (s s' : adapter) : Prop :=
  s' = s <| mem_id_list := mem_id_list s' |> <| valid_mem_id_count := valid_mem_id_count s' |>.

Lemma ids_frame_refl s : ids_frame s s.
Proof. by destruct s. Qed.
Lemma ids_frame_trans s1 s2 s3 : ids_frame s1 s2 -> ids_frame s2 s3 -> ids_frame s1 s3.
Proof. unfold ids_frame. intros -> H. rewrite H. done. Qed.

Lemma id_index_spec x l : forall i,
  match id_index i x l with
  | Some k => exists j e, k = (i + j)%nat /\ l !! j = Some e /\ mem_id e = x
  | None => forall e, e ∈ l -> mem_id e <> x
  end.
Proof.
  induction l as [|e l IH]; intros i; cbn [id_index]; [by intros e ?%elem_of_nil|].
  destruct (Z.eqb_spec (mem_id e) x) as [<-|Hne]; [exists 0%nat, e; split_and!; [lia|done|done]|].
  specialize (IH (S i)). destruct (id_index (S i) x l) as [k|].
  - destruct IH as (j & e' & -> & Hj & He). exists (S j), e'. split_and!; [lia|done|done].
  - intros e' [->|He']%elem_of_cons; [done|by apply IH].
Qed.

(** Only the users of the entries matter. *)
Lemma id_index_ext x l l' i : mem_id <$> l = mem_id <$> l' -> id_index i x l = id_index i x l'.
Proof.
  revert l' i. induction l as [|e l IH]; intros [|e' l'] i H; try done. injection H as He Hl.
  cbn. rewrite He. destruct (_ =? _); [done|by apply IH].
Qed.

Lemma id_index_app x l l' i : id_index i x (l ++ l') =
  match id_index i x l with Some k => Some k | None => id_index (i + length l) x l' end.
Proof.
  revert i. induction l as [|e l IH]; intros i; cbn [app id_index length]; [by rewrite Nat.add_0_r|].
  destruct (_ =? _); [done|]. by rewrite IH, Nat.add_succ_comm.
Qed.

Lemma fmap_insert_id (l : list mem_with_bitmap) (i : nat) e e' : l !! i = Some e -> mem_id e' = mem_id e ->
  mem_id <$> <[i := e']> l = mem_id <$> l.
Proof.
  intros Hi He. rewrite list_fmap_insert, He. apply list_insert_id. by rewrite list_lookup_fmap, Hi.
Qed.

Lemma known_lt x s i : ids_wf s -> id_index 0 x (valid_ids s) = Some i ->
  exists e, mem_id_list s !! i = Some e /\ (i < Z.to_nat (valid_mem_id_count s))%nat /\
    length (bitmaps e) = MAX_BITMAP_COUNT /\ Forall (in_width 64) (bitmaps e).
Proof.
  intros [Hl Hc Hw] Hi. pose proof (id_index_spec x (valid_ids s) 0) as Hs. rewrite Hi in Hs.
  destruct Hs as (j & e & -> & Hj & _). unfold valid_ids in Hj. apply lookup_take_Some in Hj as [Hj Hlt].
  exists e. split_and!; [done|lia|..]; rewrite Forall_forall in Hw; apply Hw; by eapply list_elem_of_lookup_2.
Qed.

(** Writing the bitmaps of the entry of user [x]. *)
Lemma update_entry x s i e ws (s' := s <| mem_id_list := <[i := e <| bitmaps := ws |>]> (mem_id_list s) |>) :
  ids_wf s -> id_index 0 x (valid_ids s) = Some i -> mem_id_list s !! i = Some e ->
  length ws = MAX_BITMAP_COUNT -> Forall (in_width 64) ws ->
  ids_wf s' /\ (forall y j, index_used s' y j = if y =? x then bit_of ws j else index_used s y j) /\
  (forall y, known y s' = known y s).
Proof.
  intros Hwf Hi He Hlen Hwd. destruct (known_lt _ _ _ Hwf Hi) as (e0 & He0 & Hlt & _). simplify_eq.
  assert (forall y, id_index 0 y (valid_ids s') = id_index 0 y (valid_ids s)) as Hidx.
  { intros y. apply id_index_ext. unfold valid_ids. cbn. rewrite !fmap_take. f_equal. by eapply fmap_insert_id. }
  split_and!.
  - destruct Hwf as [Hl Hc Hw]. split; cbn; [by rewrite length_insert|done|].
    apply list_insert_Forall; [done|]. by split.
  - intros y j. unfold index_used. rewrite Hidx. destruct (Z.eqb_spec y x) as [->|Hne].
    + rewrite Hi. cbn. by rewrite list_lookup_insert_eq by (by eapply lookup_lt_Some).
    + destruct (id_index 0 y (valid_ids s)) as [k|] eqn:Hk; [|done]. cbn.
      rewrite list_lookup_insert_ne; [done|]. intros Hik.
      pose proof (id_index_spec x (valid_ids s) 0) as H1. pose proof (id_index_spec y (valid_ids s) 0) as H2.
      rewrite Hi in H1. rewrite Hk in H2.
      destruct H1 as (j1 & e1 & E1 & L1 & U1), H2 as (j2 & e2 & E2 & L2 & U2).
      assert (j1 = j2) as -> by lia. congruence.
  - intros y. unfold known. by rewrite Hidx.
Qed.

(** A new user's entry. *)
Lemma wp_list_add x s : ids_wf s -> valid_mem_id_count s < 255 -> id_index 0 x (valid_ids s) = None ->
  wp (amdgv_memmgr_mem_id_list_add x) (fun r s' => r = 0 /\ ids_frame s s' /\ ids_wf s' /\
    (forall y j, index_used s' y j = index_used s y j) /\
    id_index 0 x (valid_ids s') = Some (Z.to_nat (valid_mem_id_count s))) s.
Proof.
  intros [Hl Hc Hw] Hn Hno. unfold amdgv_memmgr_mem_id_list_add, MEM_ID_COUNT_MAX. apply wp_bind, wp_gets.
  destruct (Z.ltb_spec (valid_mem_id_count s) 256); [|lia].
  apply wp_bind, wp_modify, wp_ret. rewrite wrap_id by (unfold in_width; lia).
  set (n := Z.to_nat (valid_mem_id_count s)). set (e := mk_bitmap x (replicate MAX_BITMAP_COUNT 0)).
  match goal with |- _ /\ ids_frame _ ?t /\ _ => set (s' := t) end.
  assert ((n < length (mem_id_list s))%nat) as Hlt by (rewrite Hl; lia).
  assert (valid_ids s' = valid_ids s ++ [e]) as Hv.
  { unfold valid_ids. cbn. fold n e. replace (Z.to_nat (valid_mem_id_count s + 1)) with (S n) by lia.
    rewrite (take_S_r _ _ e) by by rewrite list_lookup_insert_eq. f_equal. apply take_insert_ge. lia. }
  split_and!; [done|done| | |].
  - split; cbn; [by rewrite length_insert|lia|]. apply list_insert_Forall; [done|]. split; [done|].
    apply Forall_replicate. unfold in_width. lia.
  - intros y j. unfold index_used. rewrite Hv, id_index_app. cbn [id_index].
    destruct (id_index 0 y (valid_ids s)) as [k|] eqn:Hk.
    + pose proof (id_index_spec y (valid_ids s) 0) as H1. rewrite Hk in H1. destruct H1 as (j' & ? & -> & E & _).
      unfold valid_ids in E. apply lookup_take_Some in E as [_ E]. cbn. by rewrite list_lookup_insert_ne by lia.
    + change (mem_id e) with x. destruct (Z.eqb_spec x y); [|done]. unfold valid_ids. rewrite length_take.
      rewrite Nat.min_l by lia. cbn. rewrite list_lookup_insert_eq by done.
      apply bit_of_zero.
  - rewrite Hv, id_index_app, Hno. cbn [id_index]. change (mem_id e) with x. rewrite Z.eqb_refl.
    unfold valid_ids. rewrite length_take. f_equal. lia.
Qed.

(** Giving out the first free index of a user that has an entry. *)
Definition given (s s' : adapter) (x j : Z) : Prop :=
  ids_frame s s' /\ ids_wf s' /\ 0 <= j < 256 /\ index_used s x j = false /\
  (forall m, 0 <= m < j -> index_used s x m = true) /\
  (forall y m, 0 <= m < 256 -> index_used s' y m = index_used s y m || ((y =? x) && (m =? j))).

(** Nothing given out: every index is. *)
Definition exhausted (s s' : adapter) (x : Z) : Prop :=
  ids_frame s s' /\ ids_wf s' /\ (forall m, 0 <= m < 256 -> index_used s x m = true) /\
  (forall y m, index_used s' y m = index_used s y m).

Definition add_post (s : adapter) (x r : Z) (s' : adapter) : Prop :=
  (r = MEM_ID_NOT_AVAILABLE /\ exhausted s s' x) \/ (exists j, r = make_id x j /\ given s s' x j).

Lemma full_word ws j k : (forall m v, (m < k)%nat -> ws !! m = Some v -> v = 2 ^ 64 - 1) ->
  (k <= length ws)%nat -> 0 <= j < Z.of_nat k * 64 -> bit_of ws j = true.
Proof.
  intros Hall Hk Hj. unfold bit_of. rewrite nth_lookup. pose proof (Z.div_mod j 64). pose proof (Z.mod_pos_bound j 64).
  pose proof (Z.div_pos j 64). destruct (lookup_lt_is_Some_2 ws (Z.to_nat (j / 64))) as [v Hv]; [lia|].
  rewrite Hv. rewrite (Hall (Z.to_nat (j / 64)) v) by (done || lia). cbn [default from_option id].
  replace (2 ^ 64 - 1) with (Z.ones 64) by (rewrite Z.ones_equiv; lia). rewrite Z.testbit_ones_nonneg by lia. lia.
Qed.

Lemma wp_give x s i e : ids_wf s -> id_index 0 x (valid_ids s) = Some i -> mem_id_list s !! i = Some e ->
  wp (match first_word 0 (bitmaps e) with
      | None => mret MEM_ID_NOT_AVAILABLE
      | Some (k, w) =>
          let index := first_clear 64 w (Z.of_nat k * 64) in
          let e' := e <| bitmaps := <[k := Z.lor w (Z.shiftl 1 (index mod 64))]> (bitmaps e) |> in
          _ ← modify (fun s => s <| mem_id_list := <[i := e']> (mem_id_list s) |>);
          mret (Z.lor (Z.land x 65535) (Z.shiftl (Z.land index 65535) 16))
      end) (add_post s x) s.
Proof.
  intros Hwf Hi He. destruct (known_lt _ _ _ Hwf Hi) as (e0 & He0 & _ & Hlen & Hwd). simplify_eq.
  assert (forall j, index_used s x j = bit_of (bitmaps e) j) as Hx by (intros j; unfold index_used; by rewrite Hi, He).
  pose proof (first_word_spec (bitmaps e) 0) as Hfw. destruct (first_word 0 (bitmaps e)) as [[k w]|].
  - destruct Hfw as (j & -> & Hw & Hne & Hlo). rewrite Nat.add_0_l. cbv zeta.
    assert ((j < 4)%nat) as Hj4 by (apply lookup_lt_Some in Hw; by rewrite Hlen in Hw).
    assert (nth j (bitmaps e) 0 = w) as Hnth by by rewrite nth_lookup, Hw.
    destruct (first_clear_64 w (Z.of_nat j * 64)) as (n & -> & Hn & Hbit & Hbelow); [|done|].
    { rewrite Forall_forall in Hwd. apply Hwd. by eapply list_elem_of_lookup_2. }
    replace ((Z.of_nat j * 64 + n) mod 64) with n by (apply (Z.mod_unique _ _ (Z.of_nat j)); lia).
    set (ws := <[j := Z.lor w (Z.shiftl 1 n)]> (bitmaps e)).
    destruct (update_entry x s i e ws Hwf Hi He) as (Hwf' & Hu & _).
    { unfold ws. by rewrite length_insert. }
    { unfold ws. apply list_insert_Forall; [done|]. apply set_bit_width; [lia|]. rewrite Forall_forall in Hwd. apply Hwd.
      by eapply list_elem_of_lookup_2. }
    apply wp_bind, wp_modify, wp_ret. right. exists (Z.of_nat j * 64 + n). split; [done|].
    split_and!; [done|exact Hwf'|lia|lia| | |].
    + by rewrite Hx, bit_of_word, Hnth.
    + intros m Hm. rewrite Hx. destruct (Z.lt_ge_cases m (Z.of_nat j * 64)).
      * apply (full_word _ _ j); [done|rewrite Hlen; unfold MAX_BITMAP_COUNT; lia|lia].
      * replace m with (Z.of_nat j * 64 + (m - Z.of_nat j * 64)) by lia. rewrite bit_of_word, Hnth by lia.
        apply Hbelow. lia.
    + intros y m Hm. cbn in Hu. rewrite Hu. destruct (Z.eqb_spec y x) as [->|]; [|by rewrite andb_false_l, orb_false_r].
      rewrite andb_true_l, Hx. unfold ws. rewrite <- Hnth.
      rewrite (bit_of_update _ j (fun w => Z.lor w (Z.shiftl 1 n)) m n (fun _ => true)); try lia.
      * destruct (_ =? _); [by rewrite orb_true_r|by rewrite orb_false_r].
      * rewrite Hlen. unfold MAX_BITMAP_COUNT. lia.
      * intros u k Hk. apply set_bit; lia.
  - apply wp_ret. left. split; [done|]. split_and!; [apply ids_frame_refl|done| |done].
    intros m Hm. rewrite Hx. apply (full_word _ _ 4); [intros; by eapply Hfw|by rewrite Hlen|lia].
Qed.

Lemma wp_mem_id_add x s : ids_wf s -> known x s = true \/ valid_mem_id_count s < 255 ->
  wp (amdgv_memmgr_mem_id_add x) (add_post s x) s.
Proof.
  intros Hwf Hk. unfold amdgv_memmgr_mem_id_add. apply wp_bind, wp_gets, wp_bind, wp_gets. cbv zeta.
  fold (valid_ids s). apply wp_bind. unfold known in Hk.
  destruct (id_index 0 x (valid_ids s)) as [i|] eqn:Hi.
  - apply wp_ret. cbn [negb Z.eqb default from_option id].
    destruct (known_lt _ _ _ Hwf Hi) as (e & He & _). apply wp_bind, wp_gets, wp_bind.
    eapply wp_require; [exact He|]. by apply wp_give.
  - destruct Hk as [|Hk]; [done|]. eapply wp_mono; [by apply wp_list_add|].
    intros r s1 (-> & Hf1 & Hwf1 & Hu1 & Hi1). cbn [negb Z.eqb default from_option id].
    destruct (known_lt _ _ _ Hwf1 Hi1) as (e & He & _). apply wp_bind, wp_gets, wp_bind.
    eapply wp_require; [exact He|]. eapply wp_mono; [by apply wp_give|].
    intros r s2 [[-> (Hf2 & Hwf2 & Hall & Hsame)]|(j & -> & Hf2 & Hwf2 & Hj & Hfree & Hbelow & Hu2)].
    + left. split; [done|]. split_and!; [by eapply ids_frame_trans|done| |].
      * intros m Hm. rewrite <- Hu1. by apply Hall.
      * intros y m. by rewrite Hsame, Hu1.
    + right. exists j. split; [done|]. split_and!; [by eapply ids_frame_trans|done|lia|lia|by rewrite <- Hu1| |].
      * intros m Hm. rewrite <- Hu1. by apply Hbelow.
      * intros y m Hm. by rewrite Hu2, Hu1.
Qed.

(** *** Ids as numbers *)

Lemma id_of_make x j : 0 <= x < 65536 -> MEM_ID_GET_ID (make_id x j) = x.
Proof.
  intros Hx. unfold MEM_ID_GET_ID, make_id. change 65535 with (Z.ones 16).
  rewrite Z.land_lor_distr_l, !Z.land_ones, Z.shiftl_mul_pow2, Z.mod_mul, Z.lor_0_r by lia.
  by rewrite Z.mod_mod, Z.mod_small by lia.
Qed.

Lemma index_of_make x j : 0 <= x < 65536 -> 0 <= j < 65536 -> MEM_ID_GET_INDEX (make_id x j) = j.
Proof.
  intros Hx Hj. unfold MEM_ID_GET_INDEX, make_id. change 65535 with (Z.ones 16).
  rewrite Z.shiftr_lor, Z.shiftr_shiftl_l, !Z.land_ones, Z.shiftr_div_pow2 by lia.
  rewrite (Z.mod_small x), (Z.div_small x), (Z.mod_small j) by lia.
  rewrite Z.lor_0_l, Z.shiftl_0_r. by apply Z.mod_small.
Qed.

Lemma make_available x j : 0 <= x < 65536 -> 0 <= j < 256 -> make_id x j <> MEM_ID_NOT_AVAILABLE.
Proof.
  intros Hx Hj E. assert (MEM_ID_GET_INDEX (make_id x j) = 65535) as H by by rewrite E.
  rewrite index_of_make in H; lia.
Qed.

Lemma make_id_inj x j y m : 0 <= x < 65536 -> 0 <= y < 65536 -> 0 <= j < 256 -> 0 <= m < 256 ->
  make_id x j = make_id y m -> x = y /\ j = m.
Proof.
  intros Hx Hy Hj Hm E. split.
  - rewrite <- (id_of_make x j), <- (id_of_make y m) by lia. by rewrite E.
  - rewrite <- (index_of_make x j), <- (index_of_make y m) by lia. by rewrite E.
Qed.

(** Taking an index back. *)
Definition taken_back (s s' : adapter) (mid : Z) : Prop :=
  ids_frame s s' /\ ids_wf s' /\
  (forall y m, 0 <= m < 256 -> index_used s' y m =
     index_used s y m && negb ((y =? MEM_ID_GET_ID mid) && (m =? MEM_ID_GET_INDEX mid))) /\
  (forall y, known y s' = known y s).

Lemma wp_mem_id_remove mid s : ids_wf s -> 0 <= MEM_ID_GET_INDEX mid < 256 ->
  wp (amdgv_memmgr_mem_id_remove mid) (fun _ s' => taken_back s s' mid) s.
Proof.
  intros Hwf Hidx. unfold amdgv_memmgr_mem_id_remove. cbv zeta.
  set (index := MEM_ID_GET_INDEX mid) in *. set (x := MEM_ID_GET_ID mid).
  destruct (Z.leb_spec MAX_MEM_COUNT index) as [H|_]; [unfold MAX_MEM_COUNT in H; lia|].
  apply wp_bind, wp_gets, wp_bind, wp_gets. fold (valid_ids s).
  destruct (id_index 0 x (valid_ids s)) as [i|] eqn:Hi.
  2: { apply wp_ret. split_and!; [apply ids_frame_refl|done| |done]. intros y m Hm. fold x index.
    destruct (Z.eqb_spec y x) as [->|]; [|cbn; by rewrite andb_true_r]. unfold index_used. by rewrite Hi. }
  destruct (known_lt _ _ _ Hwf Hi) as (e & He & _ & Hlen & Hwd).
  apply wp_bind. eapply wp_require; [exact He|]. pose proof (Z.div_mod index 64). pose proof (Z.mod_pos_bound index 64).
  assert ((Z.to_nat (index / 64) < length (bitmaps e))%nat) as Hk.
  { rewrite Hlen. unfold MAX_BITMAP_COUNT. assert (index / 64 < 4) by (apply Z.div_lt_upper_bound; lia). lia. }
  destruct (lookup_lt_is_Some_2 _ _ Hk) as [w Hw]. apply wp_bind. eapply wp_require; [exact Hw|].
  set (n := index mod 64) in *. set (k := Z.to_nat (index / 64)) in *.
  assert (nth k (bitmaps e) 0 = w) as Hnth by by rewrite nth_lookup, Hw.
  destruct (update_entry x s i e (<[k := Z.land w (u64 (Z.lnot (Z.shiftl 1 n)))]> (bitmaps e)) Hwf Hi He) as (Hwf' & Hu & Hkn).
  { by rewrite length_insert. }
  { apply list_insert_Forall; [done|]. apply clear_bit_width. rewrite Forall_forall in Hwd. apply Hwd.
    by eapply list_elem_of_lookup_2. }
  apply wp_bind, wp_modify, wp_ret. split_and!; [done|exact Hwf'| |exact Hkn].
  intros y m Hm. cbn in Hu. rewrite Hu. fold x index. destruct (Z.eqb_spec y x) as [->|]; [|cbn; by rewrite andb_true_r].
  rewrite <- Hnth. rewrite (bit_of_update _ k (fun w => Z.land w (u64 (Z.lnot (Z.shiftl 1 n)))) m n (fun _ => false)); try lia.
  - replace (Z.of_nat k * 64 + n) with index by (unfold k, n; rewrite Z2Nat.id by (apply Z.div_pos; lia); lia).
    unfold index_used. rewrite Hi, He. destruct (m =? index); cbn; [by rewrite andb_false_r|by rewrite andb_true_r].
  - intros u j Hj. apply clear_bit; lia.
Qed.
