(* ===== verification/MemmgrRun.v ===== *)
(** * Running the memory manager

    The operations of [Memmgr] on a manager that grows upwards, as operations
    on the sequence of blocks of [MemmgrInv]. *)
From S2P Require Import Prelude Api Oss Dlist ListScan Memmgr MemmgrInv MemmgrIds.
Import Dlist ListScan Memmgr.
#[local] Open Scope Z_scope.
#[local] Set Warnings "-clear-no-such-hyp".

(** ** What an operation may touch *)

Record mstep (s s' : adapter) : Prop := {
  ms_mgr : mgr s' = (mgr s) <| lnk := lnk (mgr s') |> <| heap := heap (mgr s') |>
                            <| fresh := fresh (mgr s') |> <| tom := tom (mgr s') |>;
  ms_rest : s' = s <| mgr := mgr s' |> <| mem_id_list := mem_id_list s' |>
                   <| valid_mem_id_count := valid_mem_id_count s' |> <| os := os s' |>;
}.

Lemma mstep_refl s : mstep s s.
Proof. split; [by destruct (mgr s)|by destruct s]. Qed.
Lemma mstep_trans s1 s2 s3 : mstep s1 s2 -> mstep s2 s3 -> mstep s1 s3.
Proof. intros [A1 B1] [A2 B2]. split; [rewrite A2, A1; done|rewrite B2, B1; done]. Qed.

Lemma mstep_ids s s' : ids_frame s s' -> mstep s s'.
Proof.
  unfold ids_frame. intros H. assert (mgr s' = mgr s) as E by by rewrite H.
  split; [rewrite E; by destruct (mgr s)|]. destruct s, s'. injection H; intros; by subst.
Qed.
Lemma mstep_os s o : mstep s (s <| os := o |>).
Proof. split; by destruct s as [[]]. Qed.

(** What the operations of a manager see of its settings. *)
Lemma up_step s s' : mstep s s' -> up_mgr (mgr s) -> up_mgr (mgr s').
Proof. intros [E _] []. by split; rewrite E. Qed.
Lemma mstep_offset s s' : mstep s s' -> offset (mgr s') = offset (mgr s).
Proof. intros [E _]. by rewrite E. Qed.
Lemma mstep_size s s' : mstep s s' -> msize (mgr s') = msize (mgr s).
Proof. intros [E _]. by rewrite E. Qed.

(** The representation only depends on the manager. *)
Lemma repr_mgr A R s s' : mgr s' = mgr s -> repr A R s -> repr A R s'.
Proof. intros E []. unfold mlnk in *. by split; unfold mlnk; rewrite ?E. Qed.
Lemma wf_mgr A R s s' : mgr s' = mgr s -> wf A R s -> wf A R s'.
Proof. intros E []. split; rewrite ?E; try done. by eapply repr_mgr. Qed.

(** ** Placing *)

Lemma wp_find_size A R l k s : wf A R s -> 0 <= k <= 40 -> 0 <= l <= mem_limit ->
  wp (amdgv_memmgr_find_size l (2 ^ k))
    (fun n s' => s' = s /\ n = before Allocs (node_of <$> take (first_fit (2 ^ k) l (offset (mgr s)) A) A)) s.
Proof.
  intros [Hr Hup Hsp Htom Htop] Hk Hl. destruct Hup. unfold amdgv_memmgr_find_size.
  apply wp_bind, wp_get, wp_bind. eapply wp_empty; [exact (rp_allocs _ _ _ Hr)|].
  destruct A as [|b A]; [by apply wp_ret|]. rewrite bool_decide_eq_false_2 by done.
  apply wp_bind, wp_gets, wp_bind.
  pose proof (rp_allocs _ _ _ Hr) as Hd. eapply wp_next_of; [by apply (dlist_after _ _ [])|].
  pose proof (repr_fuel _ _ _ Hr) as Hf. rewrite length_app in Hf. pose proof (rp_heap _ _ _ Hr) as Hh.
  apply Forall_app in Hh as [Hh _]. pose proof (spaced_top _ _ Hsp).
  rewrite (ALIGN_up _ _ Hk) by (unfold mem_limit in *; lia).
  apply (wp_find_size_loop k l (offset (mgr s)) _ s Hk Hl up_offset (b :: A) _ []); try done; cbn [app]; lia.
Qed.

(** The end of the record a position follows. *)
Lemma wp_off_of_before U V R (Q : Z -> adapter -> Prop) s : repr (U ++ V) R s ->
  Q (top (offset (mgr s)) U) s -> wp (off_of (before Allocs (node_of <$> U))) Q s.
Proof.
  intros Hr HQ. destruct U as [|b U _] using rev_ind.
  - cbn. apply wp_bind, wp_get. eapply wp_require; [apply Hr|done].
  - rewrite fmap_snoc_node, before_snoc. unfold top in HQ. rewrite last_snoc in HQ. cbn.
    apply wp_bind. eapply wp_mem_at; [|by apply wp_ret].
    eapply repr_block; [exact Hr|]. set_solver.
Qed.

Lemma spaced_strict lo A V : spaced lo (A ++ V) -> V <> [] -> top lo A < top lo (A ++ V).
Proof.
  rewrite spaced_app, top_app. intros [_ Hs] Hne. destruct V as [|b V]; [done|].
  rewrite top_cons. destruct Hs as (H1 & H2 & H3). apply spaced_top in H3. unfold b_start, b_end in *. lia.
Qed.

(** The two lists have no node in common. *)
Lemma apart A R n : NoDup (ptrs (A ++ R)) -> n ∈ Allocs :: (node_of <$> A) -> n ∉ Reserves :: (node_of <$> R).
Proof.
  intros Hnd Hn Hr. unfold ptrs in Hnd. rewrite fmap_app in Hnd. apply NoDup_app in Hnd as (_ & Hdis & _).
  apply elem_of_cons in Hn as [->|(b & -> & Hb)%list_elem_of_fmap];
    apply elem_of_cons in Hr as [?|(c & E & Hc)%list_elem_of_fmap]; try done.
  injection E as E. apply (Hdis b.1); [by apply list_elem_of_fmap_2|]. rewrite E. by apply list_elem_of_fmap_2.
Qed.

Lemma fresh_node p X head : MemNode p <> head -> p ∉ ptrs X -> MemNode p ∉ head :: (node_of <$> X).
Proof.
  intros Hne Hp [?|(b & Eb & Hb)%list_elem_of_fmap]%elem_of_cons; [done|]. injection Eb as ->.
  apply Hp. by apply list_elem_of_fmap_2.
Qed.

(** Inserting a new record into the representation. *)
Lemma repr_insert U V R p m s h s' : repr (U ++ V) R s ->
  p ∉ ptrs ((U ++ V) ++ R) -> (p < fresh (mgr s))%nat -> heap (mgr s) !! p = Some m ->
  dlist h Allocs (node_of <$> U ++ (p, m) :: V) -> dlist h Reserves (node_of <$> R) ->
  (exists t, mgr s' = (mgr s) <| lnk := h |> <| tom := t |>) -> repr (U ++ (p, m) :: V) R s'.
Proof.
  intros [Ha Hre Hnd Hh Hf Hhd] Hp Hfr Hm Hd1 Hd2 [t Eg].
  assert (((U ++ (p, m) :: V) ++ R) ≡ₚ (p, m) :: (U ++ V) ++ R) as Hperm by by rewrite <- !app_assoc, Permutation_middle.
  split; unfold mlnk; rewrite ?Eg; cbn; try done.
  - unfold ptrs. rewrite Hperm. by apply NoDup_cons.
  - rewrite Hperm. by constructor.
  - rewrite Hperm. by constructor.
Qed.

(** Linking in a record at a position of the list. *)
Lemma wp_place_after U V R p m s : repr (U ++ V) R s -> spaced (offset (mgr s)) (U ++ V) ->
  tom (mgr s) = top (offset (mgr s)) (U ++ V) ->
  p ∉ ptrs ((U ++ V) ++ R) -> (p < fresh (mgr s))%nat -> heap (mgr s) !! p = Some m ->
  wp (place_after p (before Allocs (node_of <$> U)) (top (offset (mgr s)) U) (alloc_off m))
    (fun _ s' => s' = s <| mgr := (mgr s) <| lnk := lnk (mgr s') |> <| tom := top (offset (mgr s)) (U ++ (p, m) :: V) |> |> /\
       repr (U ++ (p, m) :: V) R s') s.
Proof.
  intros Hr Hsp Htom Hp Hfr Hm. pose proof Hr as [Ha Hre Hnd _ _ _].
  assert ((p ∉ ptrs (U ++ V)) /\ (p ∉ ptrs R)) as [HpA HpR].
  { unfold ptrs in *. rewrite fmap_app in Hp. by apply not_elem_of_app in Hp. }
  pose proof (fresh_node p _ Allocs ltac:(done) HpA) as HnA. pose proof (fresh_node p _ Reserves ltac:(done) HpR) as HnR.
  rewrite fmap_app in Ha, HnA. destruct (dlist_add _ _ _ _ _ Ha HnA) as (h & Hadd & Eh & Hd).
  assert (dlist h Reserves (node_of <$> R)) as Hd2.
  { rewrite Eh. pose proof (before_elem Allocs (node_of <$> U)). pose proof (after_elem (node_of <$> V) Allocs).
    apply dlist_add_frame; [done|done|..]; apply (apart (U ++ V)); try done; rewrite fmap_app; set_solver. }
  assert (dlist h Allocs (node_of <$> U ++ (p, m) :: V)) as Hd1 by by rewrite fmap_app.
  unfold place_after. apply wp_bind. eapply wp_mem_link; [exact Hadd|]. apply wp_bind, wp_get. cbn.
  rewrite Htom, !top_app, top_cons. destruct (Z.eqb_spec (top (offset (mgr s)) U) (top (top (offset (mgr s)) U) V)) as [E|Hne].
  - assert (V = []) as ->.
    { destruct V as [|b V]; [done|]. pose proof (spaced_strict _ _ _ Hsp ltac:(done)). rewrite top_app in *. lia. }
    apply wp_set. split; [by destruct s|]. apply (repr_insert U [] R p m s h); try done. by eexists.
  - assert (V <> []) as Hne' by by intros ->. apply wp_ret.
    assert (top (b_end (p, m)) V = tom (mgr s)) as Et.
    { rewrite Htom, top_app. destruct V as [|b V]; [done|]. by rewrite !top_cons. }
    rewrite Et. split; [by destruct s as [[]]|]. apply (repr_insert U V R p m s h); try done. exists (tom (mgr s)). by destruct s as [[]].
Qed.

(** ** Allocating *)

(** The partition with a block of [l] bytes in the first gap. *)
Definition gap (a l : Z) (g : memmgr) (A : list block) : nat := first_fit a l (offset g) A.
Definition placed_end (a l : Z) (g : memmgr) (A : list block) : Z :=
  align_up (top (offset g) (take (gap a l g A) A)) a + l.
Definition put_block (a l : Z) (g : memmgr) (b : block) (A : list block) : list block :=
  take (gap a l g A) A ++ b :: drop (gap a l g A) A.
Definition room (a l : Z) (g : memmgr) (A : list block) : bool :=
  if decide (gap a l g A = length A) then placed_end a l g A <=? offset g + msize g else true.

Lemma gap_end a l g A : gap a l g A = length A -> take (gap a l g A) A = A /\ drop (gap a l g A) A = [].
Proof. intros ->. split; [by apply take_ge|by apply drop_ge]. Qed.

Lemma gap_inner a l g A : gap a l g A <> length A -> drop (gap a l g A) A <> [].
Proof.
  intros Hne H. apply (f_equal length) in H. rewrite length_drop in H. cbn in H.
  pose proof (first_fit_le a l A (offset g)). unfold gap in *. lia.
Qed.

Lemma put_block_wf a l g A p m : 0 < a -> 0 < l -> room a l g A = true ->
  spaced (offset g) A -> top (offset g) A <= offset g + msize g ->
  len m = l -> alloc_off m = placed_end a l g A ->
  spaced (offset g) (put_block a l g (p, m) A) /\ top (offset g) (put_block a l g (p, m) A) <= offset g + msize g.
Proof.
  intros Ha Hl Hroom Hsp Htop Hlen Hend. unfold put_block. pose proof Hsp as Hsp'.
  rewrite <- (take_drop (gap a l g A) A), spaced_app in Hsp'. destruct Hsp' as [HU HV].
  pose proof (align_up_bounds (top (offset g) (take (gap a l g A) A)) a Ha) as Hal.
  rewrite spaced_app, top_app, top_cons. cbn [spaced]. unfold b_start, b_end. cbn [fst snd]. rewrite Hlen, Hend.
  unfold room in Hroom. destruct (decide (gap a l g A = length A)) as [E|Hne].
  - destruct (gap_end _ _ _ _ E) as [_ ->]. apply Z.leb_le in Hroom. unfold placed_end in *. cbn [spaced].
    split_and!; [done|lia|lia|done|]. rewrite top_nil. lia.
  - pose proof (first_fit_gap a l A (offset g)) as Hgap. fold (gap a l g A) in Hgap.
    rewrite <- (take_drop (gap a l g A) A), top_app in Htop.
    pose proof (gap_inner _ _ _ _ Hne) as Hin. destruct (drop (gap a l g A) A) as [|b B]; [done|].
    specialize (Hgap b B eq_refl). destruct HV as (H1 & H2 & H3). rewrite top_cons in *. unfold placed_end in *. cbn.
    split_and!; try done; lia.
Qed.

(** The state of the ids is not touched. *)
Definition same_ids (s s' : adapter) : Prop :=
  mem_id_list s' = mem_id_list s /\ valid_mem_id_count s' = valid_mem_id_count s.

Lemma wf_frame A R s s' : wf A R s -> mlnk s' = mlnk s -> (fresh (mgr s) <= fresh (mgr s'))%nat ->
  (forall b, b ∈ A ++ R -> heap (mgr s') !! b.1 = heap (mgr s) !! b.1) ->
  mstep s s' -> tom (mgr s') = tom (mgr s) -> wf A R s'.
Proof.
  intros [[Ha Hre Hnd Hh Hf Hhd] Hup Hsp Htom Htop] El Ef Eh Hst Et.
  pose proof (mstep_offset _ _ Hst) as Eo. pose proof (mstep_size _ _ Hst) as Ez.
  split; rewrite ?Eo, ?Ez, ?Et; try done; [|by eapply up_step].
  split; rewrite ?El; try done.
  - rewrite Forall_forall in *. intros b Hb. rewrite Eh by done. by apply Hh.
  - rewrite Forall_forall in *. intros b Hb. specialize (Hf _ Hb). lia.
  - destruct Hst as [Em _]. by rewrite Em.
Qed.

Lemma fresh_ptr A R s : repr A R s -> fresh (mgr s) ∉ ptrs (A ++ R).
Proof.
  intros Hr (b & E & Hb)%list_elem_of_fmap. pose proof (rp_fresh _ _ _ Hr) as Hf.
  rewrite Forall_forall in Hf. specialize (Hf _ Hb). lia.
Qed.

Lemma wp_placement A R a k l s (Q : option Z -> adapter -> Prop) : wf A R s -> a = 2 ^ k -> 0 <= k <= 40 -> 0 < l <= mem_limit ->
  Q (if room a l (mgr s) A then Some (placed_end a l (mgr s) A) else None) s ->
  wp (placement AMDGV_MEMMGR_ALIGN (before Allocs (node_of <$> take (gap a l (mgr s) A) A)) l a) Q s.
Proof.
  intros [Hr Hup Hsp Htom Htop] -> Hk Hl HQ. destruct Hup. pose proof (spaced_top _ _ Hsp) as Hlo.
  assert (0 < 2 ^ k <= 2 ^ 40) as Ha by (split; [lia|apply Z.pow_le_mono_r; lia]).
  unfold placement. apply wp_bind. set (n := gap (2 ^ k) l (mgr s) A) in *.
  eapply (wp_off_of_before (take n A) (drop n A)); [by rewrite take_drop|].
  apply wp_bind, wp_get, wp_bind, wp_get, wp_bind, wp_get, wp_bind, wp_get. rewrite up_down.
  pose proof (top_take n _ _ Hsp) as Hle.
  pose proof (align_up_bounds (top (offset (mgr s)) (take n A)) (2 ^ k) (proj1 Ha)).
  pose proof (align_up_bounds (top (offset (mgr s)) A) (2 ^ k) (proj1 Ha)).
  unfold mem_limit in *. rewrite Htom, !ALIGN_up by lia. rewrite !wrap_id by (unfold in_width; lia).
  unfold room, placed_end in HQ. fold n in HQ. destruct (decide (n = length A)) as [E|Hne].
  - destruct (gap_end _ _ _ _ E) as [Et _]. fold n in Et. rewrite Et in *. rewrite Z.eqb_refl. cbn.
    rewrite Z.leb_antisym in HQ. destruct (_ <? _); apply wp_ret, HQ.
  - pose proof Hsp as H'. rewrite <- (take_drop n A) in H'.
    pose proof (spaced_strict _ _ _ H' (gap_inner _ _ _ _ Hne)) as Hlt. rewrite take_drop in Hlt.
    destruct (Z.eqb_spec (top (offset (mgr s)) (take n A)) (top (offset (mgr s)) A)); [lia|]. by apply wp_ret.
Qed.

Lemma mstep_heap s h : mstep s (s <| mgr := (mgr s) <| heap := h |> |>).
Proof. split; by destruct s as [[]]. Qed.
Lemma mstep_heap_os s o h : mstep s (s <| os := o |> <| mgr := (mgr s) <| heap := h |> |>).
Proof. split; by destruct s as [[]]. Qed.

(** What an attempt to place a block of [l] bytes with id [mid] leaves. *)
Definition new_post (ok : bool) (a l mid : Z) (A R : list block) (s : adapter) (r : option nat) (s' : adapter) : Prop :=
  mstep s s' /\ same_ids s s' /\
  if ok && room a l (mgr s) A then
    r = Some (fresh (mgr s)) /\
    wf (put_block a l (mgr s) (fresh (mgr s), mk_mem (placed_end a l (mgr s) A) l a mid None) A) R s'
  else r = None /\ wf A R s'.

Definition malloc_ok `{OssEnv} (s : adapter) : bool := oss_alloc_ok (os_allocs (os s)).

Lemma wp_malloc_ok `{OssEnv} (Q : option nat -> adapter -> Prop) s :
  (forall o, malloc_ok s = true -> Q (Some (fresh (mgr s))) (s <| os := o |> <| mgr := (mgr s) <| fresh := S (fresh (mgr s)) |> |>)) ->
  (forall o, malloc_ok s = false -> Q None (s <| os := o |>)) ->
  wp oss_malloc Q s.
Proof.
  intros H1 H2. unfold oss_malloc, oss. apply wp_bind, wp_zoom. unfold wp, oss_alloc, malloc_ok in *.
  destruct (oss_alloc_ok (os_allocs (os s))).
  - apply wp_bind, wp_get, wp_bind, wp_set, wp_ret. by apply H1.
  - by apply wp_ret, H2.
Qed.

Lemma wp_free_fresh p (Q : unit -> adapter -> Prop) s :
  (forall o, Q tt (s <| os := o |> <| mgr := (mgr s) <| heap := delete p (heap (mgr s)) |> |>)) -> wp (oss_free_mem p) Q s.
Proof. intros HQ. unfold oss_free_mem, oss. apply wp_bind, wp_zoom. apply wp_set. apply HQ. Qed.

Lemma wf_fresh A R s o : wf A R s -> wf A R (s <| os := o |> <| mgr := (mgr s) <| fresh := S (fresh (mgr s)) |> |>).
Proof.
  intros Hwf. eapply (wf_frame _ _ s); [done|done|cbn; lia|done|by split; destruct s as [[]]|done].
Qed.

(** Dropping a record that is on no list. *)
Lemma wf_drop A R s o p : wf A R s -> p ∉ ptrs (A ++ R) ->
  wf A R (s <| os := o |> <| mgr := (mgr s) <| heap := delete p (heap (mgr s)) |> |>).
Proof.
  intros Hwf Hp. eapply (wf_frame _ _ s); [done|done|cbn; lia| |by split; destruct s as [[]]|done].
  intros b Hb. cbn. rewrite lookup_delete_ne; [done|]. intros ->. apply Hp. by apply list_elem_of_fmap_2.
Qed.

Lemma wf_write A R s p m : wf A R s -> p ∉ ptrs (A ++ R) ->
  wf A R (s <| mgr := (mgr s) <| heap := <[p := m]> (heap (mgr s)) |> |>).
Proof.
  intros Hwf Hp. eapply (wf_frame _ _ s); [done|done|cbn; lia| |by split; destruct s as [[]]|done].
  intros b Hb. cbn. rewrite lookup_insert_ne; [done|]. intros ->. apply Hp. by apply list_elem_of_fmap_2.
Qed.

(** Linking in the record of a block that fits. *)
Lemma wp_put U V R p m s : wf (U ++ V) R s -> p ∉ ptrs ((U ++ V) ++ R) -> (p < fresh (mgr s))%nat ->
  heap (mgr s) !! p = Some m -> spaced (offset (mgr s)) (U ++ (p, m) :: V) ->
  top (offset (mgr s)) (U ++ (p, m) :: V) <= offset (mgr s) + msize (mgr s) ->
  wp (po ← off_of (before Allocs (node_of <$> U));
      _ ← place_after p (before Allocs (node_of <$> U)) po (alloc_off m); mret (Some p))
    (fun r s' => r = Some p /\ mstep s s' /\ same_ids s s' /\ wf (U ++ (p, m) :: V) R s') s.
Proof.
  intros [Hr Hup Hsp Htom Htop] Hp Hf Hm Hsp' Htop'. apply wp_bind. eapply wp_off_of_before; [exact Hr|]. apply wp_bind.
  eapply wp_mono; [by apply (wp_place_after U V R p m s)|]. intros [] s' [E Hr']. apply wp_ret.
  assert (mstep s s') as Hms by (split; rewrite E; by destruct s as [[]]).
  pose proof (mstep_offset _ _ Hms) as Eo. pose proof (mstep_size _ _ Hms) as Ez.
  split; [done|]. split; [done|]. split; [unfold same_ids; by rewrite E|].
  split; rewrite ?Eo, ?Ez; [exact Hr'|by eapply up_step|exact Hsp'| |exact Htop']. by rewrite E.
Qed.

Lemma wp_alloc_new `{OssEnv} dma a k l mid A R s : wf A R s -> a = 2 ^ k -> 0 <= k <= 40 -> 0 < l <= mem_limit ->
  wp (alloc_new dma l a mid) (new_post (malloc_ok s) a l mid A R s) s.
Proof.
  intros Hwf Ea Hk Hl. pose proof (fresh_ptr _ _ _ (wf_repr _ _ _ Hwf)) as Hp.
  unfold alloc_new, new_post. apply wp_bind, wp_malloc_ok; intros o ->; cbn [andb].
  2: { apply wp_ret. split_and!; try done; [apply mstep_os|by apply (wf_mgr _ _ s)]. }
  set (p := fresh (mgr s)) in *. set (s1 := s <| os := o |> <| mgr := _ |>).
  assert (wf A R s1) as Hwf1 by by apply wf_fresh.
  assert (mstep s s1) as Hm1 by by split; destruct s as [[]].
  rewrite Ea. apply wp_bind. eapply wp_mono; [apply (wp_find_size A R l k s1); [done|done|lia]|]. intros n t [-> ->].
  apply wp_bind. eapply (wp_placement A R (2 ^ k) k); [done..|]. rewrite <- Ea.
  change (room a l (mgr s1) A) with (room a l (mgr s) A). change (placed_end a l (mgr s1) A) with (placed_end a l (mgr s) A).
  destruct (room a l (mgr s) A) eqn:Hroom.
  2: { apply wp_bind, wp_free_fresh. intros o2. apply wp_ret. split; [|split; [done|split; [done|by apply wf_drop]]].
    eapply mstep_trans; [exact Hm1|apply mstep_heap_os]. }
  set (e := placed_end a l (mgr s) A). set (m := mk_mem e l a mid None).
  apply wp_bind, wp_set. match goal with |- wp _ _ ?t => set (s2 := t) end.
  assert (wf A R s2) as Hwf2 by by apply wf_write.
  assert (mstep s s2) as Hm2 by (eapply mstep_trans; [exact Hm1|apply mstep_heap]).
  assert (heap (mgr s2) !! p = Some m) as Hpm by (cbn; by rewrite lookup_insert_eq).
  assert (0 < a) as Ha by (rewrite Ea; lia).
  destruct (put_block_wf a l (mgr s) A p m Ha ltac:(lia) Hroom) as [Hsp3 Htop3]; [apply Hwf|apply Hwf|done|done|].
  pose proof (take_drop (gap a l (mgr s) A) A) as Htd.
  apply wp_bind, wp_get. rewrite (up_sys _ (wf_up _ _ _ Hwf2)). apply wp_bind, wp_ret. change e with (alloc_off m).
  eapply wp_mono; [apply (wp_put (take (gap a l (mgr s) A) A) (drop (gap a l (mgr s) A) A) R p m s2)|];
    rewrite ?Htd; try done; [cbn; lia|]. intros r s3 (-> & Hm3 & Hs3 & Hwf3).
  split; [by eapply mstep_trans|]. split; [exact Hs3|]. done.
Qed.

(** ** Ids of the blocks *)

Definition made (s : adapter) (b : block) : Prop :=
  exists x j, 0 <= x < 65536 /\ 0 <= j < 256 /\ m_id b.2 = make_id x j /\ index_used s x j = true.
Definition ids_of (B : list block) : list Z := (fun b : block => m_id b.2) <$> B.

(** The ids of the blocks are given out, each to one block. *)
Record ids_live (B : list block) (s : adapter) : Prop := {
  il_wf : ids_wf s;
  il_nodup : NoDup (ids_of B);
  il_made : Forall (made s) B;
}.

(** Room in the id table for block user [x]. *)
Definition id_room (x : Z) (s : adapter) : Prop := known x s = true \/ valid_mem_id_count s < 255.

Lemma index_used_ids s s' : same_ids s s' -> forall y m, index_used s' y m = index_used s y m.
Proof. intros [E1 E2] y m. unfold index_used, valid_ids. by rewrite E1, E2. Qed.

Lemma ids_wf_same s s' : same_ids s s' -> ids_wf s -> ids_wf s'.
Proof. intros [E1 E2] []. by split; rewrite ?E1, ?E2. Qed.

Lemma made_mono s s' b : (forall y m, 0 <= m < 256 -> index_used s y m = true -> index_used s' y m = true) ->
  made s b -> made s' b.
Proof. intros Hm (x & j & Hx & Hj & E & Hu). exists x, j. split; [done|split; [done|split; [done|by apply Hm]]]. Qed.

Lemma ids_live_mono B s s' : ids_wf s' ->
  (forall y m, 0 <= m < 256 -> index_used s y m = true -> index_used s' y m = true) ->
  ids_live B s -> ids_live B s'.
Proof.
  intros Hwf Hm [_ Hnd Hmade]. split; [done|done|]. eapply Forall_impl; [exact Hmade|]. intros b. by apply made_mono.
Qed.

Lemma ids_live_same B s s' : same_ids s s' -> ids_live B s -> ids_live B s'.
Proof.
  intros Hs Hl. eapply (ids_live_mono _ s); [by eapply ids_wf_same, Hl| |done].
  intros y m _. by rewrite (index_used_ids _ _ Hs).
Qed.

Lemma ids_live_add B s s' x j : ids_live B s -> given s s' x j -> ids_live B s'.
Proof.
  intros Hl (_ & Hwf & _ & _ & _ & Hu). eapply (ids_live_mono _ s); [done| |done].
  intros y m Hm H. rewrite Hu, H by done. done.
Qed.

(** A new id is not the id of a block. *)
Lemma given_fresh B s s' x j : ids_live B s -> given s s' x j -> 0 <= x < 65536 -> make_id x j ∉ ids_of B.
Proof.
  intros [_ _ Hm] (_ & _ & Hj & Hno & _) Hx (b & E & Hb)%list_elem_of_fmap.
  rewrite Forall_forall in Hm. destruct (Hm _ Hb) as (y & m & Hy & Hm' & E' & Hu). rewrite E' in E.
  destruct (make_id_inj x j y m) as [<- <-]; try done. congruence.
Qed.

Lemma ids_live_perm B B' s : B ≡ₚ B' -> ids_live B s -> ids_live B' s.
Proof. intros HP []. split; [done| |by rewrite <- HP]. unfold ids_of in *. by rewrite <- HP. Qed.

(** A manager with the ids of its blocks, outside a live update. *)
Record good (A R : list block) (s : adapter) : Prop := {
  gd_wf : wf A R s;
  gd_ids : ids_live (A ++ R) s;
  gd_update : skip_hw_init s = false;
  gd_defer : defer_alloc s = false;
}.

Lemma mstep_flags s s' : mstep s s' -> skip_hw_init s' = skip_hw_init s /\ defer_alloc s' = defer_alloc s.
Proof. intros [_ ->]. done. Qed.

Lemma put_block_perm a l g b A R : put_block a l g b A ++ R ≡ₚ b :: A ++ R.
Proof.
  unfold put_block. rewrite <- app_assoc. cbn. rewrite <- Permutation_middle, app_assoc, take_drop. done.
Qed.

(** A new block with an id just given out. *)
Lemma good_put A A' R s s1 s2 x j b : good A R s -> given s s1 x j -> same_ids s1 s2 -> mstep s s2 -> 0 <= x < 65536 ->
  A' ++ R ≡ₚ b :: A ++ R -> m_id b.2 = make_id x j -> wf A' R s2 -> good A' R s2.
Proof.
  intros [Hwf Hids Hlu Hdef] Hg Hs Hms Hx HP Hid Hwf'. pose proof (mstep_flags _ _ Hms) as [E1 E2].
  split; [done| |congruence|congruence]. eapply ids_live_perm; [symmetry; exact HP|].
  destruct (ids_live_same _ _ _ Hs (ids_live_add _ _ _ _ _ Hids Hg)) as [W2 N2 M2]. pose proof Hg as (_ & _ & Hj & _ & _ & Hu).
  split; [done| |].
  - apply NoDup_cons. rewrite Hid. split; [by eapply given_fresh|done].
  - constructor; [|done]. exists x, j. split_and!; try done; try lia.
    rewrite (index_used_ids _ _ Hs), Hu, !Z.eqb_refl by lia. by rewrite orb_true_r.
Qed.

(** Nothing placed, whether or not an id was given out. *)
Lemma good_none A R s s1 s2 : good A R s -> (forall B, ids_live B s -> ids_live B s1) -> same_ids s1 s2 -> mstep s s2 ->
  wf A R s2 -> good A R s2.
Proof.
  intros [Hwf Hids Hlu Hdef] Hadd Hs Hms Hwf'. pose proof (mstep_flags _ _ Hms) as [E1 E2].
  split; [done| |congruence|congruence]. eapply ids_live_same; [exact Hs|]. by apply Hadd.
Qed.

Lemma ids_live_exhausted s s' x : exhausted s s' x -> forall B, ids_live B s -> ids_live B s'.
Proof.
  intros (_ & Hwf & _ & Hsame) B. apply ids_live_mono; [done|]. intros y m _. by rewrite Hsame.
Qed.

(** What an allocation of [l] bytes for block user [x] leaves. *)
Definition alloc_post (ok : bool) (a l x : Z) (A R : list block) (s : adapter) (r : option nat) (s' : adapter) : Prop :=
  mstep s s' /\
  ((r = None /\ (ok && room a l (mgr s) A = false \/ forall m, 0 <= m < 256 -> index_used s x m = true) /\ good A R s') \/
   exists j, r = Some (fresh (mgr s)) /\ ok && room a l (mgr s) A = true /\
     0 <= j < 256 /\ index_used s x j = false /\ (forall m, 0 <= m < j -> index_used s x m = true) /\
     (forall y m, 0 <= m < 256 -> index_used s' y m = index_used s y m || ((y =? x) && (m =? j))) /\
     good (put_block a l (mgr s) (fresh (mgr s), mk_mem (placed_end a l (mgr s) A) l a (make_id x j) None) A) R s').

Lemma wp_alloc_unify `{OssEnv} dma a k l x A R s : good A R s -> a = 2 ^ k -> 0 <= k <= 40 -> 0 < l <= mem_limit ->
  0 <= x < 65536 -> id_room x s ->
  wp (amdgv_memmgr_alloc_unify_align dma l a x) (alloc_post (malloc_ok s) a l x A R s) s.
Proof.
  intros Hgood Ea Hk Hl Hx Hroom. pose proof Hgood as [Hwf Hids Hlu Hdef]. destruct (wf_up _ _ _ Hwf) as [_ Hsys Hinit _ _ _].
  unfold amdgv_memmgr_alloc_unify_align. apply wp_bind, wp_get. rewrite Hinit. cbn [negb].
  apply wp_bind, wp_get. rewrite Hsys. apply wp_bind.
  eapply wp_mono; [by apply wp_mem_id_add; [apply Hids|]|].
  intros r s1 [[-> He]|(j & -> & Hg)].
  - rewrite Z.eqb_refl. apply wp_ret. pose proof He as (Hf & Hwf1 & Hall & Hsame). split; [by apply mstep_ids|]. left.
    split; [done|]. split; [by right|]. apply (good_none _ _ s s1); [done|by eapply ids_live_exhausted|done|by apply mstep_ids|].
    apply (wf_mgr _ _ s); [by rewrite Hf|done].
  - pose proof Hg as (Hf & Hwf1 & Hj & Hfree & Hbelow & Hu).
    destruct (Z.eqb_spec (make_id x j) MEM_ID_NOT_AVAILABLE) as [E|_]; [by apply make_available in E|].
    apply wp_bind, wp_gets. pose proof (mstep_flags _ _ (mstep_ids _ _ Hf)) as [E1 E2].
    rewrite E1, Hlu. cbn [negb orb]. assert (mgr s1 = mgr s) as Em by by rewrite Hf.
    assert (malloc_ok s1 = malloc_ok s) as Eo by (unfold malloc_ok; by rewrite Hf).
    eapply wp_mono; [apply (wp_alloc_new dma a k l _ A R s1); [by apply (wf_mgr _ _ s)|done..]|].
    rewrite Eo. intros r s2 (Hm2 & Hs2 & Hres). rewrite Em in Hres.
    assert (mstep s s2) as Hms by (eapply mstep_trans; [by apply mstep_ids|done]). split; [done|].
    destruct (malloc_ok s && room a l (mgr s) A) eqn:Hok; destruct Hres as [-> Hwf2].
    + right. exists j. split_and!; try done; try lia.
      * intros y m Hm. by rewrite (index_used_ids _ _ Hs2), Hu.
      * eapply good_put; [exact Hgood|exact Hg|done..|apply put_block_perm|done|done].
    + left. split; [done|]. split; [by left|]. eapply good_none; [done| |done..]. intros B HB. by eapply ids_live_add.
Qed.
