(* ===== verification/MemmgrFree.v ===== *)
(** * Freeing and placing at an offset

    [amdgv_memmgr_free] and [amdgv_memmgr_alloc_align_at] on a manager that
    grows upwards, as operations on the sequence of blocks. *)
From S2P Require Import Prelude Api Oss Dlist ListScan Memmgr MemmgrInv MemmgrIds MemmgrRun.
Import Dlist ListScan Memmgr.
#[local] Open Scope Z_scope.
#[local] Set Warnings "-clear-no-such-hyp".

(** ** Taking a block out *)

Lemma spaced_remove lo U b V : spaced lo (U ++ b :: V) -> spaced lo (U ++ V).
Proof.
  rewrite !spaced_app. intros [HU HV]. split; [done|]. destruct HV as (H1 & H2 & H3).
  eapply spaced_lower; [|exact H3]. unfold b_start, b_end in *. lia.
Qed.

Lemma top_remove lo U b V : spaced lo (U ++ b :: V) ->
  top lo (U ++ V) = if decide (V = []) then top lo U else top lo (U ++ b :: V).
Proof.
  intros _. rewrite !top_app. destruct V as [|c V]; [done|]. rewrite decide_False by done. by rewrite !top_cons.
Qed.

Lemma top_remove_le lo U b V : spaced lo (U ++ b :: V) -> top lo (U ++ V) <= top lo (U ++ b :: V).
Proof.
  intros H. rewrite (top_remove _ _ _ _ H). destruct (decide (V = [])) as [->|]; [|lia].
  pose proof (spaced_strict _ _ _ H ltac:(done)). lia.
Qed.

(** The block whose end is the top of the heap is the last one. *)
Lemma tom_last lo U b V : spaced lo (U ++ b :: V) -> (top lo (U ++ b :: V) <=? b_end b) = bool_decide (V = []).
Proof.
  intros H. rewrite top_app, top_cons. destruct V as [|c V]; cbn.
  - apply Z.leb_refl.
  - apply Z.leb_gt. assert (top lo (U ++ [b]) < top lo ((U ++ [b]) ++ c :: V)) as Ht.
    { apply spaced_strict; [by rewrite <- app_assoc|done]. }
    rewrite !top_app, top_cons in Ht. done.
Qed.

(** The representation without a block, in an arbitrary later state. *)
Lemma repr_remove U b V R s h s' : repr (U ++ b :: V) R s ->
  dlist h Allocs (node_of <$> U ++ V) -> dlist h Reserves (node_of <$> R) ->
  lnk (mgr s') = h -> fresh (mgr s') = fresh (mgr s) -> offset (mgr s') = offset (mgr s) ->
  allocs (mgr s') = allocs (mgr s) -> (forall q, q <> b.1 -> heap (mgr s') !! q = heap (mgr s) !! q) ->
  repr (U ++ V) R s'.
Proof.
  intros [_ _ Hnd Hh Hf Hhd] Hd1 Hd2 El Ef Eo Ea Eh.
  assert (((U ++ b :: V) ++ R) ≡ₚ b :: (U ++ V) ++ R) as Hp by by rewrite <- !app_assoc, Permutation_middle.
  unfold ptrs in Hnd. rewrite Hp in Hnd. rewrite Hp in Hh, Hf. cbn in Hnd. apply NoDup_cons in Hnd as [Hb Hnd].
  apply Forall_cons in Hh as [_ Hh]. apply Forall_cons in Hf as [_ Hf].
  split; unfold mlnk; rewrite ?El, ?Ef, ?Eo, ?Ea; try done.
  rewrite Forall_forall in *. intros c Hc. rewrite Eh; [by apply Hh|].
  intros E. apply Hb. rewrite <- E. by apply list_elem_of_fmap_2.
Qed.

(** The node unlinked still knows what preceded it. *)
Lemma wp_unlink U b V R s (Q : unit -> adapter -> Prop) : repr (U ++ b :: V) R s ->
  (forall h, dlist h Allocs (node_of <$> U ++ V) -> dlist h Reserves (node_of <$> R) ->
     prev h !! node_of b = Some (before Allocs (node_of <$> U)) -> Q tt (s <| mgr := (mgr s) <| lnk := h |> |>)) ->
  wp (link (amdgv_list_del (node_of b))) Q s.
Proof.
  intros Hr HQ. pose proof (rp_allocs _ _ _ Hr) as Hd. rewrite fmap_app in Hd. cbn in Hd.
  destruct (dlist_del _ _ _ _ _ Hd) as (h & Hdel & Eh & Hd1).
  eapply wp_mem_link; [exact Hdel|]. apply HQ; [by rewrite fmap_app|..]; rewrite Eh.
  - apply dlist_del_frame; [apply Hr|..]; apply (apart (U ++ b :: V)); try apply Hr.
    + rewrite fmap_app. pose proof (before_elem Allocs (node_of <$> U)). set_solver.
    + rewrite fmap_app. pose proof (after_elem (node_of <$> V) Allocs). cbn. set_solver.
  - rewrite list_del_prev. rewrite decide_False.
    + by pose proof (dlist_before _ _ _ _ Hd).
    + destruct Hd as [_ Hnd]. pose proof (after_elem (node_of <$> V) Allocs) as Ha. intros E. rewrite <- E in Ha.
      apply (NoDup_Permutation_proper _ (node_of b :: Allocs :: (node_of <$> U) ++ (node_of <$> V))) in Hnd;
        [|by solve_Permutation]. apply NoDup_cons in Hnd as [Hno _]. apply Hno.
      rewrite elem_of_cons, elem_of_app. apply elem_of_app in Ha as [?|Ha%list_elem_of_singleton]; tauto.
Qed.

(** ** Ids *)

Lemma ids_live_taken B b s s' : ids_live (b :: B) s -> taken_back s s' (m_id b.2) -> ids_live B s'.
Proof.
  intros [Hwf Hnd Hm] (Hf & Hwf' & Hu & _). cbn in Hnd. apply NoDup_cons in Hnd as [Hno Hnd].
  apply Forall_cons in Hm as [(x & j & Hx & Hj & E & _) Hm]. split; [done|done|].
  rewrite Forall_forall in *. intros c Hc. destruct (Hm c Hc) as (y & m & Hy & Hm' & Ec & Huse).
  exists y, m. split_and!; try done; try lia. rewrite Hu, Huse by done. cbn.
  rewrite E, id_of_make, index_of_make by lia.
  destruct (Z.eqb_spec y x) as [->|]; [|done]. destruct (Z.eqb_spec m j) as [->|]; [|done].
  exfalso. apply Hno. unfold ids_of. rewrite E, <- Ec. by apply (list_elem_of_fmap_2 (fun b : block => m_id b.2)).
Qed.

Lemma made_index s b : made s b -> 0 <= MEM_ID_GET_INDEX (m_id b.2) < 256.
Proof. intros (x & j & Hx & Hj & -> & _). rewrite index_of_make by lia. done. Qed.

(** ** Freeing *)

(** Lowering the top of the heap when the last block goes. *)
Lemma wp_drop_tom U V R s (last : bool) n : repr (U ++ V) R s -> prev (mlnk s) !! n = Some (before Allocs (node_of <$> U)) ->
  (last = false -> tom (mgr s) = top (offset (mgr s)) (U ++ V)) -> (last = true -> V = []) ->
  wp (when last (prv ← prev_of mlnk n; po ← off_of prv; set (fun g => g <| tom := po |>)))
    (fun _ t => t = s <| mgr := (mgr s) <| tom := top (offset (mgr s)) (U ++ V) |> |>) s.
Proof.
  intros Hr Hp Ht HV. destruct last; cbn.
  - apply wp_bind. eapply wp_prev_of; [exact Hp|]. apply wp_bind.
    eapply wp_off_of_before; [exact Hr|]. apply wp_set. by rewrite HV, app_nil_r.
  - apply wp_ret. rewrite <- Ht by done. by destruct s as [[]].
Qed.

Definition free_post (b : block) (U V R : list block) (s : adapter) (r : Z) (s' : adapter) : Prop :=
  r = 0 /\ mstep s s' /\ good (U ++ V) R s' /\
  (forall y m, 0 <= m < 256 -> index_used s' y m =
     index_used s y m && negb ((y =? MEM_ID_GET_ID (m_id b.2)) && (m =? MEM_ID_GET_INDEX (m_id b.2)))) /\
  (forall y, known y s' = known y s).

Lemma wp_memmgr_free `{OssEnv} U b V R s : good (U ++ b :: V) R s ->
  wp (amdgv_memmgr_free (Some b.1)) (free_post b U V R s) s.
Proof.
  intros [Hwf Hids Hlu Hdef]. pose proof Hwf as [Hr Hup Hsp Htom Htop]. unfold amdgv_memmgr_free.
  assert (heap (mgr s) !! b.1 = Some b.2) as Hb by (eapply repr_block; [exact Hr|set_solver]).
  apply wp_bind. eapply wp_mem_at; [exact Hb|]. apply wp_bind.
  apply (wp_unlink U b V R); [done|]. intros h Hd1 Hd2 Hprev. set (s1 := s <| mgr := _ |>).
  assert (0 < b_end b) as Hpos.
  { pose proof Hsp as H'. apply spaced_app in H' as [HU (H1 & H2 & _)]. apply spaced_top in HU.
    destruct Hup. unfold b_start, b_end in *. lia. }
  apply wp_bind, wp_get. change (alloc_off b.2) with (b_end b).
  destruct (Z.eqb_spec (b_end b) 0) as [|_]; [lia|]. cbn [andb]. apply wp_bind, wp_ret.
  apply wp_bind, wp_get. change (tom (mgr s1)) with (tom (mgr s)). rewrite Htom, (tom_last _ _ _ _ Hsp).
  assert (repr (U ++ V) R s1) as Hr1 by (eapply repr_remove; [exact Hr|done..]).
  apply wp_bind. eapply wp_mono; [apply (wp_drop_tom U V R s1 (bool_decide (V = [])) (node_of b)); [exact Hr1|exact Hprev|..]|].
  { cbn. rewrite Htom, (top_remove _ _ _ _ Hsp). by destruct V. }
  { by intros ?%bool_decide_eq_true_1. }
  intros [] s2 ->. apply wp_bind, wp_get. cbn. rewrite (up_sys _ Hup). apply wp_bind, wp_bind.
  assert (made s b) as Hmade.
  { destruct Hids as [_ _ Hm]. rewrite Forall_forall in Hm. apply Hm. set_solver. }
  match goal with |- wp _ _ ?t => set (s2 := t) end.
  eapply wp_mono; [apply wp_mem_id_remove; [apply (ids_wf_same s); [done|apply Hids]|by eapply made_index]|].
  intros ? s3 Ht. apply wp_ret, wp_bind, wp_free_fresh. intros o. apply wp_ret.
  pose proof Ht as (Hf3 & Hwf3 & Hu3 & Hk3). match goal with |- free_post _ _ _ _ _ _ ?t => set (s4 := t) end.
  assert (mgr s3 = mgr s2) as E3 by by rewrite Hf3.
  assert (mstep s s4) as Hms.
  { eapply mstep_trans; [|eapply mstep_trans; [apply mstep_ids, Hf3|apply mstep_heap_os]]. split; by destruct s as [[]]. }
  pose proof (mstep_flags _ _ Hms) as [E4 E5]. pose proof (mstep_offset _ _ Hms) as Eo. pose proof (mstep_size _ _ Hms) as Ez.
  assert (mgr s4 = (mgr s2) <| heap := delete b.1 (heap (mgr s)) |>) as Em by (unfold s4; cbn; by rewrite E3).
  split; [done|]. split; [done|]. split; [|split; [exact Hu3|exact Hk3]].
  split; [..|by rewrite E4|by rewrite E5].
  - pose proof (top_remove_le _ _ _ _ Hsp). split; rewrite ?Eo, ?Ez; [|by eapply up_step|by eapply spaced_remove|by rewrite Em|lia].
    eapply repr_remove; [exact Hr|exact Hd1|exact Hd2|by rewrite Em..|]. intros q Hq. rewrite Em. cbn. by apply lookup_delete_ne.
  - apply (ids_live_same _ s3); [done|]. eapply (ids_live_taken _ b s2); [|exact Ht].
    apply (ids_live_same _ s); [done|]. eapply ids_live_perm; [|exact Hids].
    by rewrite <- !app_assoc, Permutation_middle.
Qed.

(** ** Placing at an offset *)

(** The bytes from [t] to [t + l] are free and in range. *)
Definition free_at (t l : Z) (g : memmgr) (A : list block) : option nat :=
  if t + l <=? offset g + msize g then fit_at t l A else None.

Definition at_post (ok : bool) (a t l x : Z) (A R : list block) (s : adapter) (r : option nat) (s' : adapter) : Prop :=
  mstep s s' /\
  ((r = None /\ (ok = false \/ free_at t l (mgr s) A = None \/ forall m, 0 <= m < 256 -> index_used s x m = true) /\ good A R s') \/
   exists j n, r = Some (fresh (mgr s)) /\ free_at t l (mgr s) A = Some n /\ 0 <= j < 256 /\ index_used s x j = false /\
     (forall y m, 0 <= m < 256 -> index_used s' y m = index_used s y m || ((y =? x) && (m =? j))) /\
     good (take n A ++ (fresh (mgr s), mk_mem (t + l) l a (make_id x j) None) :: drop n A) R s').

Lemma free_at_wf t l g A n p m : 0 < l -> offset g <= t -> free_at t l g A = Some n ->
  spaced (offset g) A -> top (offset g) A <= offset g + msize g -> len m = l -> alloc_off m = t + l ->
  spaced (offset g) (take n A ++ (p, m) :: drop n A) /\
  top (offset g) (take n A ++ (p, m) :: drop n A) <= offset g + msize g.
Proof.
  intros Hl Ht Hfree Hsp Htop Hlen Hend. unfold free_at in Hfree.
  destruct (Z.leb_spec (t + l) (offset g + msize g)); [|done].
  destruct (fit_at_gap t l A (offset g) n Ht Hfree) as [Hlo Hgap].
  rewrite <- (take_drop n A), spaced_app in Hsp. destruct Hsp as [HU HV].
  rewrite spaced_app, top_app, top_cons. cbn [spaced]. unfold b_start, b_end. cbn [fst snd]. rewrite Hlen, Hend.
  rewrite <- (take_drop n A), top_app in Htop. destruct (drop n A) as [|b B].
  - cbn [spaced]. rewrite top_nil. split_and!; try done; lia.
  - specialize (Hgap b B eq_refl). destruct HV as (H1 & H2 & H3). rewrite top_cons in *. cbn [spaced].
    split_and!; try done; lia.
Qed.

Lemma wp_find_size_at A R at_ l k s : wf A R s -> 0 <= k <= 31 -> 0 < l <= mem_limit -> 0 <= at_ <= 2 ^ 32 ->
  wp (amdgv_memmgr_find_size_at at_ l (2 ^ k))
    (fun n s' => s' = s /\ n = (fun n => before Allocs (node_of <$> take n A)) <$> fit_at (align_up at_ (2 ^ k)) l A) s.
Proof.
  intros [Hr Hup Hsp Htom Htop] Hk Hl Hat. destruct Hup. unfold amdgv_memmgr_find_size_at.
  assert (0 < 2 ^ k <= 2 ^ 31) as Ha by (split; [lia|apply Z.pow_le_mono_r; lia]).
  pose proof (align_up_bounds at_ (2 ^ k) (proj1 Ha)).
  apply wp_bind. eapply wp_empty; [exact (rp_allocs _ _ _ Hr)|].
  destruct A as [|b A]; [by apply wp_ret|]. rewrite bool_decide_eq_false_2 by done.
  apply wp_bind, wp_gets, wp_bind.
  pose proof (rp_allocs _ _ _ Hr) as Hd. eapply wp_next_of; [by apply (dlist_after _ _ [])|].
  pose proof (repr_fuel _ _ _ Hr) as Hf. rewrite length_app in Hf. pose proof (rp_heap _ _ _ Hr) as Hh.
  apply Forall_app in Hh as [Hh _]. rewrite ALIGN_up by lia. unfold mem_limit in *.
  apply (wp_find_at_loop (align_up at_ (2 ^ k)) l (offset (mgr s)) _ s ltac:(unfold mem_limit; lia) ltac:(unfold mem_limit; lia)
    up_offset (b :: A) _ []); try done; cbn [app]; unfold mem_limit; lia.
Qed.

Lemma good_fresh A R s o : good A R s -> good A R (s <| os := o |> <| mgr := (mgr s) <| fresh := S (fresh (mgr s)) |> |>).
Proof. intros [Hwf Hids Hlu Hdef]. split; [by apply wf_fresh|by apply (ids_live_same _ s)|done|done]. Qed.

(** Giving up on a record that is on no list. *)
Lemma wp_give_up A R s s1 p (Q : option nat -> adapter -> Prop) : good A R s1 -> p ∉ ptrs (A ++ R) -> mstep s s1 ->
  (forall s', mstep s s' -> good A R s' -> Q None s') -> wp (_ ← oss_free_mem p; mret None) Q s1.
Proof.
  intros Hg Hp Hms HQ. apply wp_bind, wp_free_fresh. intros o. apply wp_ret, HQ.
  - eapply mstep_trans; [exact Hms|apply mstep_heap_os].
  - destruct Hg as [Hwf Hids Hlu Hdef]. split; [by apply wf_drop|by apply (ids_live_same _ s1)|done|done].
Qed.

Lemma wp_alloc_align_at `{OssEnv} at_ l x A R s (a := 2 ^ shift (mgr s)) : good A R s -> 0 < l <= mem_limit ->
  0 <= x < 65536 -> id_room x s -> offset (mgr s) <= at_ -> at_ + a <= 2 ^ 32 ->
  wp (amdgv_memmgr_alloc_align_at at_ l x) (at_post (malloc_ok s) a (align_up at_ a) l x A R s) s.
Proof.
  intros Hgood Hl Hx Hroom Hlo Hat. pose proof (wf_up _ _ _ (gd_wf _ _ _ Hgood)) as [Hdown _ _ Ho0 Hlim Hsh].
  assert (0 < a <= 2 ^ 31) as Ha by (unfold a; split; [lia|apply Z.pow_le_mono_r; lia]).
  pose proof (align_up_bounds at_ a (proj1 Ha)) as Hal. set (t := align_up at_ a) in *.
  pose proof (fresh_ptr _ _ _ (wf_repr _ _ _ (gd_wf _ _ _ Hgood))) as Hp. set (p := fresh (mgr s)) in *.
  unfold amdgv_memmgr_alloc_align_at. apply wp_bind, wp_get. cbv zeta.
  assert (u32 (Z.shiftl 1 (shift (mgr s))) = a) as ->.
  { unfold a in *. rewrite Z.shiftl_mul_pow2 by lia. rewrite wrap_id by (unfold in_width; lia). lia. }
  apply wp_bind, wp_malloc_ok; intros o Hok.
  2: { apply wp_ret. split; [apply mstep_os|]. left. split; [done|]. split; [by left|].
    apply (good_none _ _ s s); [done|done|done|apply mstep_os|by apply (wf_mgr _ _ s), Hgood]. }
  set (s1 := s <| os := o |> <| mgr := _ |>). assert (mstep s s1) as Hm1 by by split; destruct s as [[]].
  assert (good A R s1) as Hg1 by by apply good_fresh. apply wp_bind.
  eapply wp_mono; [by apply (wp_mem_id_add x s1); [apply Hg1|]|].
  intros r s2 [[-> He]|(j & -> & Hg)].
  { rewrite Z.eqb_refl. pose proof He as (Hf & _ & Hall & _). eapply (wp_give_up A R s s2 p).
    - apply (good_none _ _ s1 s2); [done|by eapply ids_live_exhausted|done|by apply mstep_ids|].
      apply (wf_mgr _ _ s1); [by rewrite Hf|apply Hg1].
    - done.
    - eapply mstep_trans; [exact Hm1|by apply mstep_ids].
    - intros s' Hms Hgd. split; [done|]. left. split; [done|]. split; [|done]. right. by right. }
  pose proof Hg as (Hf & Hwf2 & Hj & Hfree & _ & Hu). assert (mstep s s2) as Hm2 by (eapply mstep_trans; [exact Hm1|by apply mstep_ids]).
  destruct (Z.eqb_spec (make_id x j) MEM_ID_NOT_AVAILABLE) as [E|_]; [by apply make_available in E|].
  assert (mgr s2 = mgr s1) as Em by by rewrite Hf.
  assert (good A R s2) as Hg2.
  { apply (good_none _ _ s1 s2); [done|by intros ? ?; eapply ids_live_add|done|by apply mstep_ids|].
    by apply (wf_mgr _ _ s1), Hg1. }
  apply wp_bind, wp_get, wp_bind, wp_get, wp_bind, wp_get. rewrite !Em. cbn. rewrite Hdown. unfold mem_limit in *.
  assert (AMDGV_MEMMGR_ALIGN32 at_ a = t) as -> by (apply (ALIGN32_up at_ (shift (mgr s))); unfold a in *; lia).
  pose proof (wf_top _ _ _ (gd_wf _ _ _ Hgood)). pose proof (spaced_top _ _ (wf_spaced _ _ _ (gd_wf _ _ _ Hgood))).
  rewrite !wrap_id by (unfold in_width; lia).
  assert (free_at t l (mgr s) A = None ->
    wp (_ ← oss_free_mem p; mret None) (at_post (malloc_ok s) a t l x A R s) s2) as Hno.
  { intros HN. eapply wp_give_up; [exact Hg2|done|exact Hm2|]. intros s' Hms Hgd. split; [done|]. left.
    split; [done|]. split; [right; by left|done]. }
  destruct (Z.ltb_spec (offset (mgr s) + msize (mgr s)) (t + l)) as [Hout|Hin].
  { apply Hno. unfold free_at. by destruct (Z.leb_spec (t + l) (offset (mgr s) + msize (mgr s))); [lia|]. }
  assert (free_at t l (mgr s) A = fit_at t l A) as Efree.
  { unfold free_at. by destruct (Z.leb_spec (t + l) (offset (mgr s) + msize (mgr s))); [|lia]. }
  apply wp_bind. eapply wp_mono; [apply (wp_find_size_at A R at_ l (shift (mgr s)) s2); [apply Hg2|done|done|lia]|].
  fold a t. intros r s3 [-> ->]. destruct (fit_at t l A) as [n|] eqn:Hn; cbn [fmap option_fmap option_map].
  2: { apply Hno. by rewrite Efree. }
  set (m := mk_mem (t + l) l a (make_id x j) None). apply wp_bind, wp_set.
  match goal with |- wp _ _ ?t => set (s3 := t) end. pose proof (gd_wf _ _ _ Hg2) as Hwf.
  assert (wf A R s3) as Hwf3 by by apply wf_write.
  assert (mstep s s3) as Hm3 by (eapply mstep_trans; [exact Hm2|apply mstep_heap]).
  destruct (free_at_wf t l (mgr s) A n p m ltac:(lia) ltac:(lia) Efree) as [Hsp' Htop'];
    [apply Hgood|apply Hgood|done|done|].
  pose proof (mstep_offset _ _ Hm3) as Eo. pose proof (mstep_size _ _ Hm3) as Ez.
  eapply wp_mono; [apply (wp_put (take n A) (drop n A) R p m s3)|]; rewrite ?take_drop, ?Eo, ?Ez; try done.
  { cbn. rewrite Em. cbn. lia. }
  { cbn. by rewrite lookup_insert_eq. }
  intros r s4 (-> & Hm4 & Hs4 & Hwf4). assert (mstep s s4) as Hms by by eapply mstep_trans. split; [done|]. right.
  exists j, n. assert (same_ids s2 s4) as Hs24 by (destruct Hs4 as [E1 E2]; split; [by rewrite E1|by rewrite E2]).
  split_and!; try done; try lia.
  - intros y q Hq. by rewrite (index_used_ids _ _ Hs24), Hu.
  - assert (mstep s1 s4) as Hm14.
    { eapply mstep_trans; [by apply mstep_ids|]. eapply mstep_trans; [apply mstep_heap|exact Hm4]. }
    eapply (good_put A _ R s1 s2 s4 x j (p, m)); [exact Hg1|exact Hg|exact Hs24|exact Hm14|exact Hx| |done|exact Hwf4].
    rewrite <- app_assoc. cbn. rewrite <- Permutation_middle, app_assoc, take_drop. done.
Qed.
