(* ===== verification/MemmgrOps.v ===== *)
(** * Histories of a memory manager

    Every request a client can make of a manager that grows upwards, and what
    any sequence of them keeps. *)
From S2P Require Import Prelude Api Oss Dlist ListScan Memmgr MemmgrInv MemmgrIds MemmgrRun MemmgrFree.
Import Dlist ListScan Memmgr.
#[local] Open Scope Z_scope.
#[local] Set Warnings "-clear-no-such-hyp".

(** ** Reading the allocations back *)

(** The records the list holds, in order. *)
Definition block_of (s : adapter) (n : node) : option block :=
  match n with MemNode p => m ← heap (mgr s) !! p; Some (p, m) | _ => None end.
Definition blocks (s : adapter) : option (list block) :=
  ns ← amdgv_list_for_each_entry (mem_fuel s) Allocs (mlnk s); mapM (block_of s) ns.

Lemma repr_blocks A R s : repr A R s -> blocks s = Some A.
Proof.
  intros Hr. unfold blocks. rewrite (dlist_for_each _ _ _ _ (rp_allocs _ _ _ Hr)).
  2: { rewrite length_fmap. pose proof (repr_fuel _ _ _ Hr) as H. rewrite length_app in H. lia. }
  cbn. pose proof (rp_heap _ _ _ Hr) as Hh. apply Forall_app in Hh as [Hh _].
  apply mapM_Some. clear Hr. induction Hh as [|[p m] A Hb _ IH]; cbn; constructor; [|done]. cbn in *. by rewrite Hb.
Qed.

(** ** Requests *)

Inductive request :=
| AllocReq (l x : Z)
| AllocAlignReq (k l x : Z)                 (* alignment 2^k *)
| AllocAtReq (at_ l x : Z)
| FreeReq (p : nat)
| SetSizeReq (limit : Z)
| ReservePageReq (pfn : Z).

Section requests.
Context `{OssEnv} (dma : nat -> bool).

Definition run_request (o : request) : M adapter unit :=
  match o with
  | AllocReq l x => _ ← amdgv_memmgr_alloc dma l x; mret tt
  | AllocAlignReq k l x => _ ← amdgv_memmgr_alloc_align dma l (2 ^ k) x; mret tt
  | AllocAtReq at_ l x => _ ← amdgv_memmgr_alloc_align_at at_ l x; mret tt
  | FreeReq p => _ ← amdgv_memmgr_free (Some p); mret tt
  | SetSizeReq n => _ ← amdgv_memmgr_set_size n; mret tt
  | ReservePageReq pfn => _ ← amdgv_memmgr_reserve_page pfn; mret tt
  end.

Definition alloc_ok (l x : Z) (s : adapter) : Prop := 0 < l <= mem_limit /\ 0 <= x < 65536 /\ id_room x s.
Definition at_ok (at_ : Z) (s : adapter) : Prop := offset (mgr s) <= at_ /\ at_ + 2 ^ shift (mgr s) <= 2 ^ 32.

(** What the callers see to: sizes and block users in range, room in the table
    of block users, offsets inside the manager's range and below 4 GB, and
    only live allocations are freed. *)
Definition request_ok (o : request) (s : adapter) : Prop :=
  match o with
  | AllocReq l x => alloc_ok l x s
  | AllocAlignReq k l x => 0 <= k <= 40 /\ alloc_ok l x s
  | AllocAtReq at_ l x => alloc_ok l x s /\ at_ok at_ s
  | FreeReq p => exists A, blocks s = Some A /\ p ∈ ptrs A
  | SetSizeReq n => offset (mgr s) + n <= mem_limit
  | ReservePageReq pfn => 0 <= pfn /\ alloc_ok 4096 MEM_ECC_BAD_PAGE s /\ at_ok (pfn * 4096) s
  end.

(** ** What they keep *)

Definition aligned (b : block) : Prop := exists k, 0 <= k /\ align b.2 = 2 ^ k /\ (align b.2 | b_start b).

Definition kept (s : adapter) : Prop := exists A, good A [] s /\ Forall aligned A.

Lemma align_up_divide x a : 0 < a -> (a | align_up x a).
Proof. intros Ha. unfold align_up. apply Z.divide_factor_r. Qed.

Lemma aligned_at p t l k x : 0 <= k -> (2 ^ k | t) -> aligned (p, mk_mem (t + l) l (2 ^ k) x None).
Proof. intros Hk Ht. exists k. unfold b_start. cbn. split; [done|split; [done|]]. by replace (t + l - l) with t by lia. Qed.

Lemma kept_put U V b s : Forall aligned (U ++ V) -> aligned b -> good (U ++ b :: V) [] s -> kept s.
Proof.
  intros Ha Hb Hg. eexists. split; [exact Hg|]. rewrite Forall_app in *. destruct Ha. by repeat constructor.
Qed.

Lemma wp_alloc_request k l x s : kept s -> 0 <= k <= 40 -> alloc_ok l x s ->
  wp (amdgv_memmgr_alloc_align dma l (2 ^ k) x) (fun _ => kept) s.
Proof.
  intros (A & Hg & Ha) Hk (Hl & Hx & Hr). unfold amdgv_memmgr_alloc_align. apply wp_bind, wp_gets.
  rewrite (gd_defer _ _ _ Hg). eapply wp_mono; [by apply (wp_alloc_unify dma (2 ^ k) k l x A [])|].
  intros r s' [Hms [(_ & _ & Hg')|(j & _ & _ & _ & _ & _ & _ & Hg')]]; [by exists A|].
  unfold put_block, placed_end in Hg'. eapply kept_put; [| |exact Hg']; [by rewrite take_drop|].
  apply aligned_at; [lia|apply align_up_divide; lia].
Qed.

Lemma wp_alloc_at_request at_ l x s : kept s -> alloc_ok l x s -> at_ok at_ s ->
  wp (amdgv_memmgr_alloc_align_at at_ l x) (fun _ => kept) s.
Proof.
  intros (A & Hg & Ha) (Hl & Hx & Hr) (Hlo & Hhi). destruct (up_shift _ (wf_up _ _ _ (gd_wf _ _ _ Hg))).
  eapply wp_mono; [by apply (wp_alloc_align_at at_ l x A [] s)|].
  intros r s' [Hms [(_ & _ & Hg')|(j & n & _ & _ & _ & _ & _ & Hg')]]; [by exists A|].
  unfold put_block, placed_end in Hg'. eapply kept_put; [| |exact Hg']; [by rewrite take_drop|].
  apply aligned_at; [lia|apply align_up_divide; lia].
Qed.

Lemma wp_free_request p s : kept s -> (exists A, blocks s = Some A /\ p ∈ ptrs A) ->
  wp (amdgv_memmgr_free (Some p)) (fun _ => kept) s.
Proof.
  intros (A & Hg & Ha) (A' & HA & Hp). rewrite (repr_blocks A [] s) in HA by apply Hg. injection HA as <-.
  apply list_elem_of_fmap in Hp as (b & -> & Hb). apply list_elem_of_split in Hb as (U & V & ->).
  eapply wp_mono; [by apply (wp_memmgr_free U b V [])|]. intros r s' (_ & _ & Hg' & _). exists (U ++ V). split; [done|].
  rewrite Forall_app in *. destruct Ha as [? Ha]. by apply Forall_cons in Ha as [_ ?].
Qed.

(** Settings that no block depends on. *)
Lemma kept_settings s g : kept s -> msize g = msize (mgr s) ->
  g = (mgr s) <| reservations_pending := reservations_pending g |> <| reserved_pages := reserved_pages g |> ->
  kept (s <| mgr := g |>).
Proof.
  intros (A & [[[Ha Hre Hnd Hh Hf Hhd] [] Hsp Htom Htop] Hids Hlu Hdef] & Hal) Hz ->. exists A. split; [|done].
  split; [|by apply (ids_live_same _ s)|done|done]. split; [split|split|..]; done.
Qed.

Lemma wp_set_size_request n s : kept s -> offset (mgr s) + n <= mem_limit ->
  wp (amdgv_memmgr_set_size n) (fun _ => kept) s.
Proof.
  intros (A & [[Hr Hup Hsp Htom Htop] Hids Hlu Hdef] & Hal) Hn. unfold amdgv_memmgr_set_size.
  assert (kept s) as Hk by by exists A.
  apply wp_bind, wp_get. destruct (Z.ltb_spec n (tom (mgr s))); [by apply wp_ret|]. apply wp_bind, wp_set, wp_ret.
  exists A. split; [|done]. split; [|by apply (ids_live_same _ s)|done|done].
  destruct Hup. split; [destruct Hr; split|split|..]; try done. cbn. lia.
Qed.

Lemma wp_reserve_page_request pfn s : kept s -> 0 <= pfn -> alloc_ok 4096 MEM_ECC_BAD_PAGE s -> at_ok (pfn * 4096) s ->
  wp (amdgv_memmgr_reserve_page pfn) (fun _ => kept) s.
Proof.
  intros Hk Hp Hok Hat. unfold amdgv_memmgr_reserve_page, amdgv_memmgr_page_reserve_status_locked. cbv zeta.
  apply wp_bind, wp_bind, wp_get, wp_bind, wp_get, wp_ret. destruct (negb _); [by apply wp_ret|].
  apply wp_bind, wp_zoom. unfold wp at 1, oss_alloc. set (ok := oss_alloc_ok _).
  set (s1 := s <| os := _ |>). assert (kept s1) as Hk1.
  { destruct Hk as (A & [Hwf Hids Hlu Hdef] & Hal). exists A. split; [|done].
    split; [by apply (wf_mgr _ _ s)|by apply (ids_live_same _ s)|done|done]. }
  destruct ok; cbn [negb]; [|by apply wp_ret].
  assert (u64 (Z.shiftl pfn AMDGV_GPU_PAGE_SHIFT) = pfn * 4096) as ->.
  { unfold AMDGV_GPU_PAGE_SHIFT. rewrite Z.shiftl_mul_pow2 by lia. change (2 ^ 12) with 4096. destruct Hat as [_ Hat].
    destruct Hk as (A & Hg & _). destruct (up_shift _ (wf_up _ _ _ (gd_wf _ _ _ Hg))).
    rewrite wrap_id; [done|]. unfold in_width. lia. }
  apply wp_bind. eapply wp_mono; [by apply wp_alloc_at_request|]. intros o s2 Hk2.
  destruct o; apply wp_bind, wp_set, wp_ret; apply kept_settings; try done; by destruct (mgr s2).
Qed.

Lemma wp_request o s : kept s -> request_ok o s -> wp (run_request o) (fun _ => kept) s.
Proof.
  intros Hk Ho. destruct o as [l x|k l x|at_ l x|p|n|pfn]; cbn in Ho; apply wp_bind.
  - unfold amdgv_memmgr_alloc. apply wp_bind, wp_get. pose proof Hk as (A & Hg & _).
    destruct (up_shift _ (wf_up _ _ _ (gd_wf _ _ _ Hg))). rewrite Z.shiftl_mul_pow2, Z.mul_1_l by lia.
    assert (2 ^ shift (mgr s) <= 2 ^ 31) by (apply Z.pow_le_mono_r; lia).
    rewrite wrap_id by (unfold in_width; lia). eapply wp_mono; [apply wp_alloc_request; [done|lia|done]|]. done.
  - destruct Ho. eapply wp_mono; [by apply wp_alloc_request|]. done.
  - destruct Ho. eapply wp_mono; [by apply wp_alloc_at_request|]. done.
  - eapply wp_mono; [by apply wp_free_request|]. done.
  - eapply wp_mono; [by apply wp_set_size_request|]. done.
  - destruct Ho as (? & ? & ?). eapply wp_mono; [by apply wp_reserve_page_request|]. done.
Qed.
End requests.

(** ** Making a manager *)

Definition init_size (sz : Z) : Z := if sz =? 0 then DEFAULT_SIZE else sz.

(** The manager's range is a 60-bit one, and the adapter's id table is. *)
Record init_pre (o sz sh : Z) (s : adapter) : Prop := {
  ip_offset : 0 <= o;
  ip_size : 0 <= sz /\ o + init_size sz <= mem_limit;
  ip_shift : 0 <= sh <= 31;
  ip_frame : is_sys (mgr s) = false;
  ip_ids : ids_wf s;
  ip_update : skip_hw_init s = false;
  ip_defer : defer_alloc s = false;
}.

(** A state with its manager and kernel calls replaced. *)
Definition at_mgr (s : adapter) (o : oss_state) (g : memmgr) : adapter := s <| os := o |> <| mgr := g |>.

Lemma wp_set_at f (Q : unit -> adapter -> Prop) s o g : Q tt (at_mgr s o (f g)) -> wp (set f) Q (at_mgr s o g).
Proof. done. Qed.
Lemma wp_link_at f h (Q : unit -> adapter -> Prop) s o g : f (lnk g) = Some h ->
  Q tt (at_mgr s o (g <| lnk := h |>)) -> wp (link f) Q (at_mgr s o g).
Proof. intros E HQ. eapply wp_mem_link; [exact E|exact HQ]. Qed.
Lemma wp_oss_at {A} (m : M oss_state A) (Q : A -> adapter -> Prop) s o g :
  wp m (fun _ _ => True) o -> (forall a o', Q a (at_mgr s o' g)) -> wp (oss m) Q (at_mgr s o g).
Proof.
  intros Hm HQ. apply wp_zoom. change (os (at_mgr s o g)) with o. eapply wp_mono; [exact Hm|]. intros a o' _. exact (HQ a o').
Qed.

(** An initialisation that succeeds leaves a manager with no blocks. *)
Lemma wp_init `{OssEnv} o sz sh s : init_pre o sz sh s ->
  wp (amdgv_memmgr_init o sz sh false) (fun r s' => r = 0 -> good [] [] s') s.
Proof.
  intros [Ho [Hz Hlim] Hsh Hfr Hids Hlu Hdef].
  assert (0 <= init_size sz) as Hz' by (unfold init_size, DEFAULT_SIZE; destruct (sz =? 0); lia).
  unfold amdgv_memmgr_init. fold (init_size sz). set (z := init_size sz) in *. clearbody z.
  set (k := if sh =? 0 then _ else _).
  assert (0 <= k <= 31) as Hk by (unfold k, DEFAULT_ALIGN_SHIFT; destruct (sh =? 0); lia). clearbody k.
  assert (s = at_mgr s (os s) (mgr s)) as E by by destruct s. rewrite E at 1. clear E.
  apply wp_bind, wp_set_at, wp_bind, wp_oss_at; [done|]. intros b1 o1. apply wp_bind, wp_set_at.
  destruct b1; cbn [negb]; [|by apply wp_ret].
  apply wp_bind, wp_oss_at; [done|]. intros b2 o2. destruct b2; cbn [negb].
  2: { apply wp_bind, wp_set_at, wp_bind, wp_oss_at; [done|]. intros [] o3. apply wp_bind, wp_set_at. by apply wp_ret. }
  apply wp_bind, wp_set_at, wp_bind, wp_oss_at; [done|]. intros b3 o3. apply wp_bind, wp_set_at. destruct b3; cbn [negb].
  2: { apply wp_bind, wp_bind, wp_oss_at; [done|]. intros [] o4. apply wp_bind, wp_set_at, wp_ret.
    apply wp_bind, wp_bind, wp_oss_at; [done|]. intros [] o5. apply wp_set_at. by apply wp_ret. }
  apply wp_bind. eapply wp_link_at; [done|]. apply wp_bind, wp_set_at, wp_bind, wp_oss_at; [done|].
  intros b4 o4. destruct b4; cbn [negb].
  2: { apply wp_bind, wp_set_at, wp_bind, wp_bind, wp_oss_at; [done|]. intros [] o5. apply wp_set_at.
    apply wp_bind, wp_oss_at; [done|]. intros [] o6. apply wp_bind, wp_set_at. by apply wp_ret. }
  apply wp_bind. eapply wp_link_at; [done|]. apply wp_bind, wp_set_at, wp_ret. intros _.
  split; [|split; [by apply (ids_wf_same s)|constructor|constructor]|done|done].
  split; [split|split| | |]; try done; try (by constructor); try (cbn; lia).
  - apply (dlist_frame (AMDGV_INIT_LIST_HEAD Allocs (lnk (mgr s)))); [..|apply init_dlist];
      intros x Hx; cbn; apply lookup_insert_ne; set_solver.
  - apply init_dlist.
Qed.

(** ** Histories *)

(** Everything that can follow [s0]. *)
Inductive history `{OssEnv} (dma : nat -> bool) (s0 : adapter) : adapter -> Prop :=
| history_start : history dma s0 s0
| history_request o s s' :
    history dma s0 s -> request_ok o s -> run_request dma o s = Ret (tt, s') -> history dma s0 s'.

Lemma history_kept `{OssEnv} dma s0 s : kept s0 -> history dma s0 s -> kept s.
Proof.
  intros H0. induction 1 as [|o s s' _ IH Ho E]; [done|].
  pose proof (wp_request dma o s IH Ho) as HQ. unfold wp in HQ. by rewrite E in HQ.
Qed.

(** ** The guarantee in terms of the state *)

(** Every allocation lies in the manager's range at its alignment, the later
    in the list the higher, with an id of its own. *)
Record memory_safe (s : adapter) (A : list block) : Prop := {
  sf_blocks : blocks s = Some A;
  sf_range : forall b, b ∈ A -> offset (mgr s) <= b_start b < b_end b /\ b_end b <= offset (mgr s) + msize (mgr s);
  sf_aligned : Forall aligned A;
  sf_disjoint : forall i j b c, (i < j)%nat -> A !! i = Some b -> A !! j = Some c -> b_end b <= b_start c;
  sf_ids : NoDup (ids_of A);
  sf_tom : tom (mgr s) = top (offset (mgr s)) A;
}.

Lemma spaced_elem lo A b : spaced lo A -> b ∈ A -> lo <= b_start b < b_end b /\ b_end b <= top lo A.
Proof.
  intros Hs (U & V & ->)%list_elem_of_split. apply spaced_app in Hs as [HU (H1 & H2 & H3)].
  apply spaced_top in HU. rewrite top_app, top_cons. apply spaced_top in H3. unfold b_start, b_end in *. lia.
Qed.

Lemma spaced_pair lo A i j b c : spaced lo A -> (i < j)%nat -> A !! i = Some b -> A !! j = Some c ->
  b_end b <= b_start c.
Proof.
  intros Hs Hij Hb Hc. rewrite <- (take_drop_middle A i b Hb) in Hs. apply spaced_app in Hs as [_ (_ & _ & Hs)].
  assert (c ∈ drop (S i) A) as Hin.
  { apply list_elem_of_lookup. exists (j - S i)%nat. rewrite lookup_drop. by replace (S i + (j - S i))%nat with j by lia. }
  destruct (spaced_elem _ _ _ Hs Hin) as [? _]. lia.
Qed.

Lemma kept_safe s : kept s -> exists A, memory_safe s A.
Proof.
  intros (A & [[Hr Hup Hsp Htom Htop] [_ Hnd _] _ _] & Hal). exists A. rewrite app_nil_r in Hnd. split; try done.
  - by eapply repr_blocks.
  - intros b Hb. destruct (spaced_elem _ _ _ Hsp Hb). lia.
  - intros i j b c. by apply (spaced_pair _ _ _ _ _ _ Hsp).
Qed.
