(* ===== verification/MemmgrLive.v ===== *)
(** * Memory managers across a live update

    Writing the blocks of the managers to the table a live update leaves in
    memory, and reading them back in the new driver. *)
From S2P Require Import Prelude Api Oss Dlist ListScan Memmgr MemmgrInv MemmgrIds MemmgrRun MemmgrFree MemmgrOps.
Import Dlist ListScan Memmgr.
#[local] Open Scope Z_scope.
#[local] Set Warnings "-clear-no-such-hyp".

(** ** The entries *)

Definition bad_block (b : block) : bool := is_bad_page (m_id b.2).
(** The blocks that travel: bad pages are reserved again from their own list. *)
Definition carried (A : list block) : list block := filter (fun b => bad_block b = false) A.
Definition live_entry (owner : Z) (b : block) : live_mem :=
  mk_live (m_id b.2) owner (alloc_off b.2) (len b.2) (align b.2).
Definition entries (owner : Z) (A : list block) : list live_mem := live_entry owner <$> carried A.
(** The record an entry is read back as. *)
Definition read_back (e : live_mem) : mem := mk_mem (li_off e) (li_len e) (li_align e) (li_id e) None.
Definition selected (owner : Z) (es : list live_mem) : list live_mem :=
  filter (fun e => li_owner e = owner /\ is_bad_page (li_id e) = false) es.

Lemma carried_cons b A : carried (b :: A) = if bad_block b then carried A else b :: carried A.
Proof. unfold carried. rewrite filter_cons. destruct (bad_block b); [by rewrite decide_False by done|by rewrite decide_True by done]. Qed.

Lemma spaced_carried lo A : spaced lo A -> spaced lo (carried A).
Proof.
  revert lo. induction A as [|b A IH]; intros lo; [done|]. cbn [spaced]. rewrite carried_cons. intros (H1 & H2 & H3).
  destruct (bad_block b); [|split_and!; [done|done|by apply IH]].
  apply IH. eapply spaced_lower; [|exact H3]. unfold b_start, b_end in *. lia.
Qed.

Lemma selected_own owner A : selected owner (entries owner A) = entries owner A.
Proof.
  unfold selected, entries. induction A as [|b A IH]; [done|]. rewrite carried_cons.
  destruct (bad_block b) eqn:E; [done|].
  rewrite !fmap_cons, filter_cons, decide_True by done. by rewrite IH.
Qed.

Lemma selected_other owner o A : owner <> o -> selected owner (entries o A) = [].
Proof.
  intros Hne. unfold selected, entries. induction (carried A) as [|b B IH]; [done|].
  rewrite fmap_cons, filter_cons, decide_False; [done|]. cbn. by intros [-> _].
Qed.

Lemma selected_app owner es fs : selected owner (es ++ fs) = selected owner es ++ selected owner fs.
Proof. apply filter_app. Qed.

Lemma ids_entries owner A : li_id <$> entries owner A = ids_of (carried A).
Proof. unfold entries, ids_of. by rewrite <- list_fmap_compose. Qed.

Lemma ids_carried A : NoDup (ids_of A) -> NoDup (ids_of (carried A)).
Proof.
  unfold ids_of. intros H. eapply sublist_NoDup; [exact H|]. apply fmap_sublist, sublist_filter.
Qed.

(** ** Writing *)

Lemma wp_mem_export_loop owner A s : Forall (fun b : block => heap (mgr s) !! b.1 = Some b.2) A ->
  forall es rest, Z.of_nat (length es + length (carried A)) < MEM_ALLOCS_MAX -> (length (carried A) <= length rest)%nat ->
  wp (export_loop (node_of <$> A) owner (Z.of_nat (length es)) (es ++ rest))
    (fun r s' => s' = s /\ r = (true, Z.of_nat (length es + length (carried A)),
       (es ++ entries owner A) ++ drop (length (carried A)) rest)) s.
Proof.
  induction 1 as [|b A Hb _ IH]; intros es rest Hmax Hlen.
  { apply wp_ret. split; [done|]. cbn. by rewrite Nat.add_0_r, app_nil_r. }
  unfold entries in *. rewrite carried_cons in *. cbn [fmap list_fmap export_loop].
  destruct (Z.leb_spec MEM_ALLOCS_MAX (Z.of_nat (length es))) as [|_]; [lia|].
  apply wp_bind, wp_entry, wp_bind. eapply wp_mem_at; [exact Hb|]. change (is_bad_page (m_id b.2)) with (bad_block b).
  destruct (bad_block b); [by apply IH|]. cbn [length] in *. destruct rest as [|r rest]; [cbn in Hlen; lia|].
  assert (<[Z.to_nat (Z.of_nat (length es)) := live_entry owner b]> (es ++ r :: rest) = (es ++ [live_entry owner b]) ++ rest) as E.
  { rewrite Nat2Z.id, insert_app_r_alt, Nat.sub_diag by lia. by rewrite <- app_assoc. }
  fold (live_entry owner b). rewrite E. replace (Z.of_nat (length es) + 1) with (Z.of_nat (length (es ++ [live_entry owner b])))
    by (rewrite length_app; cbn; lia).
  eapply wp_mono; [apply IH; rewrite ?length_app; cbn in *; lia|]. intros r' s' [-> ->]. split; [done|].
  rewrite length_app. cbn [length fmap list_fmap drop]. rewrite <- !app_assoc. cbn. do 2 f_equal. lia.
Qed.

Lemma wp_export owner A R es rest s : repr A R s ->
  Z.of_nat (length es + length (carried A)) < MEM_ALLOCS_MAX -> (length (carried A) <= length rest)%nat ->
  wp (amdgv_memmgr_export_mem_allocs owner (Z.of_nat (length es)) (es ++ rest))
    (fun r s' => s' = s /\ r = (0, Z.of_nat (length es + length (carried A)),
       (es ++ entries owner A) ++ drop (length (carried A)) rest)) s.
Proof.
  intros Hr Hmax Hlen. unfold amdgv_memmgr_export_mem_allocs. apply wp_bind, wp_get. rewrite (rp_head _ _ _ Hr).
  apply wp_bind. eapply wp_empty; [apply Hr|]. destruct (bool_decide_reflect (A = [])) as [->|_].
  { apply wp_ret. split; [done|]. cbn. by rewrite Nat.add_0_r, app_nil_r. }
  apply wp_bind, wp_gets, wp_bind, wp_gets, wp_bind. eapply wp_require.
  { apply (dlist_for_each _ _ _ _ (rp_allocs _ _ _ Hr)). rewrite length_fmap.
    pose proof (repr_fuel _ _ _ Hr) as H. rewrite length_app in H. lia. }
  apply wp_bind. pose proof (rp_heap _ _ _ Hr) as Hh. apply Forall_app in Hh as [Hh _].
  eapply wp_mono; [by apply wp_mem_export_loop|]. intros r s' [-> ->]. by apply wp_ret.
Qed.

(** ** Reading *)

(** Searching the blocks. *)
Lemma wp_find_record A R f s (Q : option nat -> adapter -> Prop) : repr A R s ->
  Q (fst <$> List.find (fun b : block => f b.2) A) s -> wp (find_mem Allocs f) Q s.
Proof.
  intros Hr HQ. unfold find_mem. apply wp_bind, wp_gets, wp_bind.
  set (g := fun n => match n with MemNode p => match heap (mgr s) !! p with Some m => f m | None => false end | _ => false end).
  pose proof (rp_heap _ _ _ Hr) as Hh. apply Forall_app in Hh as [Hh _]. rewrite Forall_forall in Hh.
  eapply (wp_find_node mlnk g); [apply Hr| | |].
  - rewrite length_fmap. pose proof (repr_fuel _ _ _ Hr) as H. rewrite length_app in H. lia.
  - intros n (b & -> & Hb)%list_elem_of_fmap. specialize (Hh _ Hb). unfold test_mem, mbind, M_bind, mret, M_ret.
    cbn. unfold mem_at. by rewrite Hh.
  - enough (found g Allocs (node_of <$> A) = default Allocs (node_of <$> List.find (fun b : block => f b.2) A)) as ->.
    { destruct (List.find _ A) as [b|]; cbn in *; [|rewrite decide_True by done; by apply wp_ret].
      rewrite decide_False by done. apply wp_bind, (wp_entry b). by apply wp_ret. }
    unfold found. f_equal. clear HQ Hr. induction A as [|b A IH]; [done|]. cbn. rewrite Hh by set_solver.
    destruct (f b.2); [done|]. apply IH. intros c Hc. apply Hh. set_solver.
Qed.

Lemma wp_find_new_id A R x s (Q : option nat -> adapter -> Prop) : repr A R s -> x ∉ ids_of A ->
  Q None s -> wp (amdgv_memmgr_find_mem_id x) Q s.
Proof.
  intros Hr Hx HQ. unfold amdgv_memmgr_find_mem_id. apply wp_bind, wp_get. rewrite (rp_head _ _ _ Hr).
  eapply wp_find_record; [exact Hr|]. destruct (List.find _ A) as [b|] eqn:E; [|done].
  apply List.find_some in E as [Hb E]. apply Z.eqb_eq in E. exfalso. apply Hx. rewrite <- E.
  apply (list_elem_of_fmap_2 (fun b : block => m_id b.2)). by apply list_elem_of_In.
Qed.

(** The representation in a state that differs only outside the blocks. *)
Lemma repr_same A R s s' : repr A R s -> mlnk s' = mlnk s -> (fresh (mgr s) <= fresh (mgr s'))%nat ->
  (forall b, b ∈ A ++ R -> heap (mgr s') !! b.1 = heap (mgr s) !! b.1) ->
  allocs (mgr s') = allocs (mgr s) -> offset (mgr s') = offset (mgr s) -> repr A R s'.
Proof.
  intros [Ha Hre Hnd Hh Hf Hhd] El Ef Eh Ea Eo. split; rewrite ?El, ?Ea, ?Eo; try done.
  - rewrite Forall_forall in *. intros b Hb. rewrite Eh by done. by apply Hh.
  - rewrite Forall_forall in *. intros b Hb. specialize (Hf _ Hb). lia.
Qed.

(** What reading changes. *)
Record istep (s s' : adapter) : Prop := {
  is_step : mstep s s';
  is_tom : tom (mgr s') = tom (mgr s);
  is_ids : same_ids s s';
}.
Lemma istep_refl s : istep s s.
Proof. split; [apply mstep_refl|done|done]. Qed.
Lemma istep_trans s1 s2 s3 : istep s1 s2 -> istep s2 s3 -> istep s1 s3.
Proof.
  intros [A1 B1 [C1 D1]] [A2 B2 [C2 D2]]. split; [by eapply mstep_trans|congruence|split; congruence].
Qed.

(** One record read back at the end of the list. *)
Lemma wp_append A R p m s : repr A R s -> p ∉ ptrs (A ++ R) -> (p < fresh (mgr s))%nat -> heap (mgr s) !! p = Some m ->
  wp (link (amdgv_list_add_tail (MemNode p) Allocs)) (fun _ s' => istep s s' /\ repr (A ++ [(p, m)]) R s') s.
Proof.
  intros Hr Hp Hf Hm. pose proof Hr as [Ha Hre Hnd _ _ _].
  assert ((p ∉ ptrs A) /\ (p ∉ ptrs R)) as [HpA HpR].
  { unfold ptrs in *. rewrite fmap_app in Hp. by apply not_elem_of_app in Hp. }
  pose proof (fresh_node p _ Allocs ltac:(done) HpA) as HnA. pose proof (fresh_node p _ Reserves ltac:(done) HpR) as HnR.
  rewrite <- (app_nil_r (node_of <$> A)) in Ha, HnA.
  destruct (dlist_add_tail _ _ _ _ _ Ha HnA) as (h & Hadd & Eh & Hd). eapply wp_mem_link; [exact Hadd|].
  split; [split; [split; by destruct s as [[]]|done|done]|].
  apply (repr_insert A [] R p m s h); rewrite ?app_nil_r; try done.
  - by rewrite fmap_app.
  - rewrite Eh. pose proof (before_elem Allocs (node_of <$> A)). apply dlist_add_frame; [done|done|..];
      apply (apart A); try done; set_solver.
  - exists (tom (mgr s)). by destruct s as [[]].
Qed.

Lemma selected_cons owner e es : selected owner (e :: es) =
  if negb (li_owner e =? owner) || is_bad_page (li_id e) then selected owner es else e :: selected owner es.
Proof.
  unfold selected. rewrite filter_cons. destruct (Z.eqb_spec (li_owner e) owner), (is_bad_page (li_id e)); cbn [negb orb];
    first [rewrite decide_True by done|rewrite decide_False by (by intros [])]; done.
Qed.

Section reading.
Context `{OssEnv} (Hos : forall n, oss_alloc_ok n = true).

Lemma wp_import_loop owner es : forall A s, repr A [] s -> NoDup (ids_of A ++ (li_id <$> selected owner es)) ->
  wp (import_loop es owner) (fun r s' => r = 0 /\ istep s s' /\
    exists B, repr (A ++ B) [] s' /\ B.*2 = read_back <$> selected owner es) s.
Proof.
  induction es as [|e es IH]; intros A s Hr Hnd.
  { apply wp_ret. split; [done|]. split; [apply istep_refl|]. exists []. by rewrite app_nil_r. }
  cbn [import_loop]. rewrite selected_cons in *. destruct (negb _ || _); [by apply IH|].
  apply wp_bind. eapply wp_find_new_id; [exact Hr| |].
  { apply NoDup_app in Hnd as (_ & Hdis & _). intros Hin. apply (Hdis _ Hin). cbn. set_solver. }
  apply wp_bind, wp_malloc_ok; intros o Hok; [|unfold malloc_ok in Hok; by rewrite Hos in Hok].
  set (p := fresh (mgr s)). pose proof (fresh_ptr _ _ _ Hr) as Hp. fold p in Hp.
  apply wp_bind, wp_set, wp_bind. match goal with |- wp _ _ ?t => set (s1 := t) end.
  assert (repr A [] s1) as Hr1.
  { eapply repr_same; [exact Hr|done|cbn; lia| |done|done]. intros b Hb. cbn. rewrite lookup_insert_ne; [done|].
    intros E. apply Hp. fold p in E. rewrite E. by apply list_elem_of_fmap_2. }
  assert (istep s s1) as Hs1 by (split; [split; by destruct s as [[]]|done|done]).
  eapply wp_mono; [apply (wp_append A [] p (read_back e) s1 Hr1 Hp); [cbn; lia|cbn; by rewrite lookup_insert_eq]|].
  intros [] s2 [Hs2 Hr2]. eapply wp_mono; [apply (IH _ _ Hr2)|].
  { unfold ids_of in *. rewrite fmap_app, <- app_assoc. exact Hnd. }
  intros r s3 (-> & Hs3 & B & Hr3 & HB). split; [done|]. split; [by eapply istep_trans, istep_trans|].
  exists ((p, read_back e) :: B). rewrite <- app_assoc in Hr3. split; [exact Hr3|]. cbn. by rewrite HB.
Qed.

Lemma wp_mem_import owner n t s : repr [] [] s -> 0 <= n <= Z.of_nat (length t) ->
  NoDup (li_id <$> selected owner (take (Z.to_nat n) t)) ->
  wp (amdgv_memmgr_import_mem_allocs owner n t) (fun r s' => r = 0 /\ istep s s' /\
    exists B, repr B [] s' /\ B.*2 = read_back <$> selected owner (take (Z.to_nat n) t)) s.
Proof.
  intros Hr Hn Hnd. unfold amdgv_memmgr_import_mem_allocs. apply wp_bind, wp_get. rewrite (rp_head _ _ _ Hr).
  apply wp_bind, wp_demand; [apply Z.leb_le; lia|]. by apply (wp_import_loop owner _ [] s).
Qed.
End reading.

(** ** All the managers *)

(** The adapter as one of its managers sees it. *)
Definition view (f : managers -> memmgr) (s : managers) : adapter := (base s) <| mgr := f s |>.
(** A record without the buffer behind it. *)
Definition unmapped (m : mem) : mem := m <| sys_mem := None |>.

Lemma read_back_entries owner A : read_back <$> entries owner A = unmapped <$> (carried A).*2.
Proof. unfold entries. rewrite <- !list_fmap_compose. by apply list_fmap_ext. Qed.

Lemma wp_export_all A B s t : repr A [] (view pf s) -> repr B [] (view gpu s) ->
  is_init (gpu s) = true -> is_init (sys s) = false ->
  Z.of_nat (length (carried A) + length (carried B)) < MEM_ALLOCS_MAX -> Z.of_nat (length t) = MEM_ALLOCS_MAX ->
  wp (amdgv_memmgr_export_mem_allocs_all t)
    (fun r _ => r = (0, Z.of_nat (length (carried A) + length (carried B)),
       (entries MEM_OWNER_PF A ++ entries MEM_OWNER_GPU B) ++ drop (length (carried A) + length (carried B)) t)) s.
Proof.
  intros HA HB Hg Hy Hmax Ht. unfold MEM_ALLOCS_MAX in *. unfold amdgv_memmgr_export_mem_allocs_all.
  apply wp_bind, wp_zoom. eapply wp_mono; [apply (wp_export MEM_OWNER_PF A [] [] t); [exact HA|unfold MEM_ALLOCS_MAX; cbn; lia|lia]|].
  intros r s1 [-> ->]. cbn [length Nat.add app]. set (s2 := s <| base := _ |> <| pf := _ |>).
  apply wp_bind, wp_gets. change (is_init (gpu s2)) with (is_init (gpu s)). rewrite Hg. unfold export_one at 1. cbn [andb Z.eqb].
  apply wp_bind, wp_zoom. assert (length (entries MEM_OWNER_PF A) = length (carried A)) as El by apply length_fmap.
  rewrite <- El. eapply wp_mono.
  { apply (wp_export MEM_OWNER_GPU B [] (entries MEM_OWNER_PF A)).
    - by apply (repr_mgr B [] (view gpu s)).
    - rewrite El. unfold MEM_ALLOCS_MAX. lia.
    - rewrite El, length_drop. lia. }
  intros r s3 [-> ->]. apply wp_bind, wp_gets. change (is_init (sys _)) with (is_init (sys s)). rewrite Hy.
  unfold export_one. cbn [andb]. apply wp_ret. by rewrite El, drop_drop.
Qed.

Lemma selected_pf A B : selected MEM_OWNER_PF (entries MEM_OWNER_PF A ++ entries MEM_OWNER_GPU B) = entries MEM_OWNER_PF A.
Proof. by rewrite selected_app, selected_own, selected_other, app_nil_r by done. Qed.
Lemma selected_gpu A B : selected MEM_OWNER_GPU (entries MEM_OWNER_PF A ++ entries MEM_OWNER_GPU B) = entries MEM_OWNER_GPU B.
Proof. by rewrite selected_app, selected_own, selected_other by done. Qed.

(** A manager that holds what another held before the update, its size cut
    down to the used part. *)
Definition carried_over (a : Z) (g g' : memmgr) : Prop :=
  offset g' = offset g /\ shift g' = shift g /\ tom g' = tom g /\ down g' = down g /\ mc_base g' = mc_base g /\
  msize g' = roundup64 (tom g) a.

Lemma istep_over a g s s' : istep s s' -> mgr s = of_live (live_of a g) (mgr s) -> carried_over a g (mgr s').
Proof. intros [[Em _] Et _] E. rewrite E in Et, Em. unfold carried_over. rewrite Et, Em. done. Qed.

Lemma repr_of_live a g f s : repr [] [] (view f s) -> offset (f s) = offset g ->
  forall t, mgr t = of_live (live_of a g) (f s) -> repr [] [] t.
Proof.
  intros Hr Ho t Et. assert (repr [] [] (t <| mgr := f s |>)) as Hr' by by apply (repr_mgr _ _ (view f s)).
  eapply repr_same; [exact Hr'|unfold mlnk; cbn; by rewrite Et|cbn; rewrite Et; cbn; lia|by intros b ?%elem_of_nil|by rewrite Et|].
  rewrite Et. by cbn.
Qed.

Lemma wp_import_live `{OssEnv} (Hos : forall n, oss_alloc_ok n = true) A B (g1 g2 : memmgr) a l rest s :
  repr [] [] (view pf s) -> repr [] [] (view gpu s) -> is_init (gpu s) = true -> is_init (sys s) = false ->
  offset (pf s) = offset g1 -> offset (gpu s) = offset g2 ->
  NoDup (ids_of A) -> NoDup (ids_of B) ->
  lm_pf l = live_of a g1 -> lm_gpu l = Some (live_of a g2) ->
  lm_count l = Z.of_nat (length (carried A) + length (carried B)) ->
  lm_allocs l = (entries MEM_OWNER_PF A ++ entries MEM_OWNER_GPU B) ++ rest ->
  wp (amdgv_memmgr_import_live_data l) (fun r s' => r = 0 /\
    carried_over a g1 (pf s') /\ carried_over a g2 (gpu s') /\
    exists A' B', repr A' [] (view pf s') /\ repr B' [] (view gpu s') /\
      A'.*2 = unmapped <$> (carried A).*2 /\ B'.*2 = unmapped <$> (carried B).*2) s.
Proof.
  intros HA HB Hg Hy Ho1 Ho2 HndA HndB Hl1 Hl2 Hn Ht. unfold amdgv_memmgr_import_live_data.
  apply wp_bind, wp_modify, wp_bind, wp_gets. cbn [gpu is_init]. change (is_init (gpu _)) with (is_init (gpu s)). rewrite Hg.
  apply wp_bind, wp_modify. rewrite Hl1, Hl2. cbn [default from_option id]. match goal with |- wp _ _ ?t => set (s1 := t) end.
  assert (repr [] [] (view pf s1)) as HA1 by by eapply (repr_of_live a g1 pf s).
  assert (repr [] [] (view gpu s1)) as HB1 by by eapply (repr_of_live a g2 gpu s).
  assert (take (Z.to_nat (lm_count l)) (lm_allocs l) = entries MEM_OWNER_PF A ++ entries MEM_OWNER_GPU B) as Htake.
  { rewrite Hn, Ht, Nat2Z.id. rewrite <- (length_fmap (live_entry MEM_OWNER_PF) (carried A)).
    rewrite <- (length_fmap (live_entry MEM_OWNER_GPU) (carried B)), <- length_app. by rewrite take_app_length. }
  assert (0 <= lm_count l <= Z.of_nat (length (lm_allocs l))) as Hlen.
  { apply (f_equal length) in Htake. rewrite length_take, length_app in Htake. unfold entries in Htake.
    rewrite !length_fmap in Htake. lia. }
  unfold amdgv_memmgr_import_mem_allocs_all. apply wp_bind, wp_bind, wp_zoom. eapply wp_mono.
  { apply (wp_mem_import Hos MEM_OWNER_PF); [exact HA1|exact Hlen|]. rewrite Htake, selected_pf, ids_entries. by apply ids_carried. }
  intros r t (-> & Hs & A' & HA' & EA). rewrite Htake, selected_pf, read_back_entries in EA.
  set (s2 := s1 <| base := _ |> <| pf := _ |>). apply wp_bind, wp_gets.
  change (is_init (gpu s2)) with (is_init (gpu s)). rewrite Hg. unfold import_one at 1. cbn [andb Z.eqb].
  apply wp_bind, wp_zoom. eapply wp_mono.
  { apply (wp_mem_import Hos MEM_OWNER_GPU); [by apply (repr_mgr [] [] (view gpu s1))|exact Hlen|].
    rewrite Htake, selected_gpu, ids_entries. by apply ids_carried. }
  intros r u (-> & Hs' & B' & HB' & EB). rewrite Htake, selected_gpu, read_back_entries in EB.
  apply wp_bind, wp_gets. change (is_init (sys _)) with (is_init (sys s)). rewrite Hy. unfold import_one. cbn [andb].
  apply wp_ret, wp_ret. split; [done|]. split; [by apply (istep_over a g1 _ _ Hs)|]. split; [by apply (istep_over a g2 _ _ Hs')|].
  exists A', B'. split; [by apply (repr_mgr _ _ t)|]. split; [by apply (repr_mgr _ _ u)|]. done.
Qed.

Lemma spaced_same lo A A' : A'.*2 = unmapped <$> A.*2 -> spaced lo A -> spaced lo A'.
Proof.
  revert lo A'. induction A as [|[p m] A IH]; intros lo [|[q r] A'] E; try done. cbn in E. injection E as -> E.
  cbn [spaced]. intros (H1 & H2 & H3). split; [exact H1|]. split; [exact H2|]. by apply IH.
Qed.
