(* ===== verification/MemmgrProps.v ===== *)
(** * Frame-buffer memory manager: properties

    What the clients of a memory manager rely on, for managers that grow
    upwards in frame-buffer memory. *)
From S2P Require Import Prelude Api Oss Dlist ListScan Memmgr MemmgrInv MemmgrIds MemmgrRun MemmgrFree MemmgrOps MemmgrLive.
Import Dlist ListScan Memmgr.
#[local] Open Scope Z_scope.
#[local] Set Warnings "-clear-no-such-hyp".

(** ** Every history is safe *)

(** C7: after a successful initialisation and any sequence of allocations,
    placements below 4 GB, frees, changes of the size and page reservations
    with arguments in range, the list holds blocks that lie in the manager's
    range, are aligned as asked, do not overlap, are in address order with
    the top of memory at the last one's end, and have pairwise different ids;
    and the next such request does not fault. *)
Theorem memmgr_reachable_safe `{OssEnv} dma o sz sh s0 s1 s (Hpre : init_pre o sz sh s0)
  (Hinit : amdgv_memmgr_init o sz sh false s0 = Ret (0, s1)) (Hh : history dma s1 s) :
  (exists A, memory_safe s A) /\
  (forall q, request_ok q s -> exists s', run_request dma q s = Ret (tt, s')).
Proof.
  assert (kept s) as Hk.
  { eapply history_kept; [|exact Hh]. exists []. split; [|constructor].
    pose proof (wp_init o sz sh s0 Hpre) as HQ. unfold wp in HQ. rewrite Hinit in HQ. by apply HQ. }
  split; [by apply kept_safe|]. intros q Hq.
  destruct (wp_returns _ _ _ (wp_request dma q s Hk Hq)) as ([] & s' & E & _). by exists s'.
Qed.

(** ** First fit *)

(** C19: an allocation of [l] bytes for block user [x] with alignment [2^k]
    implements the first-fit operation on the sequence of blocks.  It fails
    with the blocks unchanged exactly when the kernel has no memory for its
    record, all 256 indices of the user are given out, or no gap takes it and
    it does not fit above the last block; otherwise it returns a new record,
    put in the first gap larger than it from the aligned end of the preceding
    block on, under the lowest free index of the user. *)
Theorem memmgr_alloc_first_fit `{OssEnv} dma k l x A s (Hs : good A [] s) (Hk : 0 <= k <= 40)
  (Hl : 0 < l <= mem_limit) (Hx : 0 <= x < 65536) (Hid : id_room x s) :
  exists r s', amdgv_memmgr_alloc_align dma l (2 ^ k) x s = Ret (r, s') /\
  match r with
  | None => (malloc_ok s && room (2 ^ k) l (mgr s) A = false \/ forall m, 0 <= m < 256 -> index_used s x m = true) /\
      good A [] s'
  | Some p => malloc_ok s && room (2 ^ k) l (mgr s) A = true /\ (p ∉ ptrs A) /\
      exists j, 0 <= j < 256 /\ index_used s x j = false /\ (forall m, 0 <= m < j -> index_used s x m = true) /\
        good (put_block (2 ^ k) l (mgr s) (p, mk_mem (placed_end (2 ^ k) l (mgr s) A) l (2 ^ k) (make_id x j) None) A) [] s'
  end.
Proof.
  destruct (wp_returns _ _ _ (wp_alloc_unify dma (2 ^ k) k l x A [] s Hs eq_refl Hk Hl Hx Hid)) as (r & s' & E & _ & HQ).
  exists r, s'. unfold amdgv_memmgr_alloc_align, mbind, M_bind, gets. rewrite (gd_defer _ _ _ Hs). split; [exact E|].
  destruct HQ as [(-> & HN & Hg)|(j & -> & Hok & Hj & Hf & Hlow & _ & Hg)]; [done|]. split; [done|].
  pose proof (fresh_ptr _ _ _ (wf_repr _ _ _ (gd_wf _ _ _ Hs))) as Hp. rewrite app_nil_r in Hp. split; [done|].
  by exists j.
Qed.

(** ** Allocating and freeing *)

(** C29: freeing what an allocation returned gives back the blocks, the top of
    memory and every index of the id table, whichever gap it came from and
    whatever it is for; an allocation that failed is freed as nothing. *)
Theorem memmgr_alloc_free_roundtrip `{OssEnv} dma k l x A s (Hs : good A [] s) (Hk : 0 <= k <= 40)
  (Hl : 0 < l <= mem_limit) (Hx : 0 <= x < 65536) (Hid : id_room x s) :
  exists r s1 s2, amdgv_memmgr_alloc_align dma l (2 ^ k) x s = Ret (r, s1) /\
    amdgv_memmgr_free r s1 = Ret (0, s2) /\ blocks s2 = Some A /\ good A [] s2 /\
    tom (mgr s2) = tom (mgr s) /\
    (r <> None -> forall y m, 0 <= m < 256 -> index_used s2 y m = index_used s y m).
Proof.
  destruct (wp_returns _ _ _ (wp_alloc_unify dma (2 ^ k) k l x A [] s Hs eq_refl Hk Hl Hx Hid)) as (r & s1 & E & Hms & HQ).
  assert (amdgv_memmgr_alloc_align dma l (2 ^ k) x s = Ret (r, s1)) as E'.
  { unfold amdgv_memmgr_alloc_align, mbind, M_bind, gets. by rewrite (gd_defer _ _ _ Hs). }
  exists r, s1. pose proof (wf_tom _ _ _ (gd_wf _ _ _ Hs)) as Ht.
  destruct HQ as [(-> & HN & Hg)|(j & -> & Hok & Hj & Hfree & Hlow & Hu & Hg)].
  - exists s1. pose proof (wf_tom _ _ _ (gd_wf _ _ _ Hg)) as Ht1. rewrite (mstep_offset _ _ Hms) in Ht1.
    split; [done|]. split; [done|]. split; [by eapply repr_blocks, Hg|]. split; [done|]. split; [congruence|done].
  - destruct (wp_returns _ _ _ (wp_memmgr_free _ _ _ _ s1 Hg)) as (r2 & s2 & E2 & -> & Hms2 & Hg2 & Hu2 & _).
    rewrite take_drop in Hg2. exists s2. pose proof (wf_tom _ _ _ (gd_wf _ _ _ Hg2)) as Ht2.
    rewrite (mstep_offset _ _ Hms2), (mstep_offset _ _ Hms) in Ht2.
    split; [done|]. split; [done|]. split; [by eapply repr_blocks, Hg2|]. split; [done|]. split; [congruence|].
    intros _ y m Hm. rewrite Hu2, Hu by done. cbn [snd m_id]. rewrite id_of_make, index_of_make by lia.
    destruct (Z.eqb_spec y x) as [->|]; [|by rewrite orb_false_r, andb_true_r].
    destruct (Z.eqb_spec m j) as [->|]; [by rewrite Hfree|by rewrite orb_false_r, andb_true_r].
Qed.

(** ** Memory ids *)

(** [n] ids for block user [x], one after the other. *)
Fixpoint add_ids (n : nat) (x : Z) : M adapter (list Z) :=
  match n with
  | O => mret []
  | S n' => i ← amdgv_memmgr_mem_id_add x; l ← add_ids n' x; mret (i :: l)
  end.
Definition nth_id (x : Z) (i : nat) : Z :=
  if (i <? 256)%nat then make_id x (Z.of_nat i) else MEM_ID_NOT_AVAILABLE.

Lemma index_used_known s x j : index_used s x j = true -> known x s = true.
Proof. unfold index_used, known. by destruct (id_index 0 x (valid_ids s)). Qed.

Lemma wp_add_ids x n : forall i s, ids_wf s -> 0 <= x < 65536 -> id_room x s ->
  (forall m, 0 <= m < 256 -> index_used s x m = (m <? Z.of_nat i)) ->
  wp (add_ids n x) (fun l s' => l = nth_id x <$> seq i n /\ ids_wf s' /\
    (forall m, 0 <= m < 256 -> index_used s' x m = (m <? Z.of_nat (i + n))) /\
    (forall y m, y <> x -> 0 <= m < 256 -> index_used s' y m = index_used s y m)) s.
Proof.
  induction n as [|n IH]; intros i s Hwf Hx Hroom Hu; [by rewrite Nat.add_0_r; apply wp_ret|].
  apply wp_bind. eapply wp_mono; [by apply wp_mem_id_add|]. intros r s1 Hadd.
  assert (r = nth_id x i /\ ids_wf s1 /\ known x s1 = true /\
    (forall m, 0 <= m < 256 -> index_used s1 x m = (m <? Z.of_nat (S i))) /\
    (forall y m, y <> x -> 0 <= m < 256 -> index_used s1 y m = index_used s y m)) as (Er & Hwf1 & Hk1 & Hu1 & Ho1).
  { destruct Hadd as [(-> & Hf & Hwf1 & Hall & Hsame)|(j & -> & Hf & Hwf1 & Hj & Hfree & Hlow & Hnew)].
    - assert (256 <= i)%nat as Hi.
      { pose proof (Hall 255 ltac:(lia)) as H. rewrite Hu in H by lia. apply Z.ltb_lt in H. lia. }
      split_and!; [unfold nth_id; by destruct (Nat.ltb_spec i 256); [lia|]|done| | |by intros; rewrite Hsame].
      + eapply (index_used_known _ _ 0). rewrite Hsame, Hu by lia. apply Z.ltb_lt. lia.
      + intros m Hm. rewrite Hsame, Hu by done. destruct (Z.ltb_spec m (Z.of_nat i)), (Z.ltb_spec m (Z.of_nat (S i))); lia.
    - rewrite Hu in Hfree by lia. apply Z.ltb_ge in Hfree.
      assert (j = Z.of_nat i) as ->.
      { destruct (Z.eq_dec j (Z.of_nat i)) as [|Hne]; [done|]. pose proof (Hlow (Z.of_nat i) ltac:(lia)) as H.
        rewrite Hu in H by lia. apply Z.ltb_lt in H. lia. }
      split_and!; [unfold nth_id; by destruct (Nat.ltb_spec i 256); [|lia]|done| | |].
      + eapply (index_used_known _ _ (Z.of_nat i)). rewrite Hnew, !Z.eqb_refl by lia. apply orb_true_r.
      + intros m Hm. rewrite Hnew, Hu, Z.eqb_refl by done. cbn [andb].
        destruct (Z.ltb_spec m (Z.of_nat i)), (Z.eqb_spec m (Z.of_nat i)), (Z.ltb_spec m (Z.of_nat (S i))); done || lia.
      + intros y m Hy Hm. rewrite Hnew by done. destruct (Z.eqb_spec y x); [done|]. apply orb_false_r. }
  apply wp_bind. eapply wp_mono; [apply (IH (S i) s1 Hwf1 Hx ltac:(by left) Hu1)|].
  intros l s2 (-> & Hwf2 & Hu2 & Ho2). apply wp_ret. rewrite Er. split; [done|]. split; [done|]. split.
  - intros m Hm. rewrite Hu2 by done. f_equal. lia.
  - intros y m Hy Hm. by rewrite Ho2, Ho1.
Qed.

(** A block user that holds no id gets its indices in the order 0 to 255
    and then [MEM_ID_NOT_AVAILABLE], however many it asks for: the 64-bit words
    of its bitmap are filled one after the other, the result is the user's
    number with the index in the high half, and no index of another user
    changes. *)
Theorem mem_ids_in_order x n s (Hwf : ids_wf s) (Hx : 0 <= x < 65536) (Hid : id_room x s)
  (Hnone : forall m, 0 <= m < 256 -> index_used s x m = false) :
  exists s', add_ids n x s = Ret (nth_id x <$> seq 0 n, s') /\
    NoDup (nth_id x <$> seq 0 (min n 256)) /\
    (forall m, 0 <= m < 256 -> index_used s' x m = (m <? Z.of_nat n)) /\
    (forall y m, y <> x -> 0 <= m < 256 -> index_used s' y m = index_used s y m).
Proof.
  assert (forall m, 0 <= m < 256 -> index_used s x m = (m <? Z.of_nat 0)) as Hu.
  { intros m Hm. rewrite Hnone by done. symmetry. apply Z.ltb_ge. lia. }
  destruct (wp_returns _ _ _ (wp_add_ids x n 0 s Hwf Hx Hid Hu)) as (l & s' & E & -> & _ & H1 & H2).
  exists s'. split; [done|]. split; [|done].
  apply NoDup_fmap_2_strong; [|apply NoDup_seq]. intros i j Hi%elem_of_seq Hj%elem_of_seq. unfold nth_id.
  destruct (Nat.ltb_spec i 256), (Nat.ltb_spec j 256); try lia. intros Eij.
  destruct (make_id_inj x (Z.of_nat i) x (Z.of_nat j)); lia.
Qed.

(** ** Live update *)

(** The two managers of an adapter before an update hold [A] and [B]; after
    it the new driver has initialised both at the same offsets. *)
Record update_ready (A B : list block) (t : list live_mem) (old new : managers) : Prop := {
  ur_pf : repr A [] (view pf old);
  ur_gpu : repr B [] (view gpu old);
  ur_ids : NoDup (ids_of A) /\ NoDup (ids_of B);
  ur_fits : Z.of_nat (length (carried A) + length (carried B)) < MEM_ALLOCS_MAX;
  ur_table : Z.of_nat (length t) = MEM_ALLOCS_MAX;
  ur_old : is_init (gpu old) = true /\ is_init (sys old) = false;
  ur_new : is_init (gpu new) = true /\ is_init (sys new) = false;
  ur_empty : repr [] [] (view pf new) /\ repr [] [] (view gpu new);
  ur_offsets : offset (pf new) = offset (pf old) /\ offset (gpu new) = offset (gpu old);
}.

(** C30: a live update carries the memory of both managers over.  The PF's and
    the GPU's manager are in use and the system manager is not, fewer than 128
    blocks are to be written, the ids are distinct, the new driver has set up
    both managers empty at the same offsets, and its allocations succeed
    ([update_ready]).  Then writing the blocks and reading them back
    succeeds, and each manager has the offset, shift, direction, base and top
    of memory it had; its size is not the old one but the top of memory rounded
    up to the frame-buffer alignment ([carried_over]).  Its blocks are those
    it had, in order, with their places, sizes, alignments and ids, unmapped
    and without the retired pages (which are reserved again from their own
    list), and they still do not overlap. *)
Theorem memmgr_live_update_roundtrip `{OssEnv} (Hos : forall n, oss_alloc_ok n = true) fb A B t old new
  (Hr : update_ready A B t old new) :
  exists l old' new', amdgv_memmgr_export_live_data fb t old = Ret ((0, l), old') /\
    amdgv_memmgr_import_live_data l new = Ret (0, new') /\
    carried_over (MBYTES_TO_BYTES fb) (pf old) (pf new') /\ carried_over (MBYTES_TO_BYTES fb) (gpu old) (gpu new') /\
    exists A' B', blocks (view pf new') = Some A' /\ blocks (view gpu new') = Some B' /\
      A'.*2 = unmapped <$> (carried A).*2 /\ B'.*2 = unmapped <$> (carried B).*2 /\
      (spaced (offset (pf old)) A -> spaced (offset (pf new')) A') /\
      (spaced (offset (gpu old)) B -> spaced (offset (gpu new')) B').
Proof.
  destruct Hr as [HA HB [HndA HndB] Hfit Ht [Hg Hy] [Hg' Hy'] [HA' HB'] [Ho1 Ho2]].
  destruct (wp_returns _ _ _ (wp_export_all A B old t HA HB Hg Hy Hfit Ht)) as (r & old' & E & ->).
  set (n := Z.of_nat (length (carried A) + length (carried B))) in *.
  set (table := (entries MEM_OWNER_PF A ++ _) ++ _) in *. set (a := MBYTES_TO_BYTES fb).
  set (l := mk_live_memmgr (mc_addrs old) (live_of a (pf old)) (Some (live_of a (gpu old))) n table).
  assert (amdgv_memmgr_export_live_data fb t old = Ret ((0, l), old')) as Ex.
  { unfold amdgv_memmgr_export_live_data, mbind, M_bind, gets. rewrite E, Hg. done. }
  destruct (wp_returns _ _ _ (wp_import_live Hos A B (pf old) (gpu old) a l _ new HA' HB' Hg' Hy' Ho1 Ho2 HndA HndB
    eq_refl eq_refl eq_refl eq_refl)) as (r & new' & E' & -> & H1 & H2 & A' & B' & HrA & HrB & EA & EB).
  exists l, old', new'. split; [exact Ex|]. split; [exact E'|]. split; [exact H1|]. split; [exact H2|].
  exists A', B'. split; [by eapply repr_blocks|]. split; [by eapply repr_blocks|]. split; [exact EA|]. split; [exact EB|].
  destruct H1 as [-> _], H2 as [-> _]. split; intros Hs; eapply spaced_same; try done; by apply spaced_carried.
Qed.

(** ** Offsets above 4 GB *)

Definition mem_env : OssEnv := env_of 0 1 [] [].
Definition no_dma (n : nat) : bool := false.
Definition blank_mgr : memmgr :=
  mk_memmgr 0 0 0 false false false 0 None None 0 0 (mk_links ∅ ∅) ∅ 0 [] [] false false.
Definition blank : adapter :=
  mk_adapter blank_mgr (replicate 256 (mk_bitmap 0 (replicate 4 0))) 0 false false false oss_boot 0 [].
Definition result {A} (d : A) (m : M adapter A) (s : adapter) : A * adapter :=
  match m s with Ret r => r | Fault => (d, s) end.
(** A VF's manager of 256 MB at offset 4 GB, and the sixth page of it. *)
Definition high_mgr : adapter := (result 1 (amdgv_memmgr_init (E := mem_env) (2 ^ 32) (2 ^ 28) 0 false) blank).2.
Definition high_page : Z := (2 ^ 32 + 20480) / 4096.
Definition after_reserve : adapter := (result 1 (amdgv_memmgr_reserve_page (E := mem_env) high_page) high_mgr).2.
Definition after_alloc : option nat * adapter :=
  result None (amdgv_memmgr_alloc (E := mem_env) no_dma 4096 7) after_reserve.

(** The alignment in [amdgv_memmgr_alloc_align_at] is a 32-bit variable,
    so an offset above 4 GB loses its high half.  Reserving a page of a VF's
    manager that lies there reports success, and the page is said to be
    reserved, but the block stands 4 GB lower, below the manager's range: the
    page itself is not protected, the top of memory falls below the range, and
    the next allocation is placed outside the VF's memory. *)
Theorem memmgr_reserve_page_truncated :
  amdgv_memmgr_reserve_page (E := mem_env) high_page high_mgr = Ret (0, after_reserve) /\
  amdgv_memmgr_query_page_reserve_status high_page after_reserve = Ret (0, after_reserve) /\
  amdgv_memmgr_check_critical_address (2 ^ 32 + 20480) after_reserve = Ret (false, after_reserve) /\
  amdgv_memmgr_get_tom after_reserve = Ret (24576, after_reserve) /\
  amdgv_memmgr_get_offset after_alloc.1 after_alloc.2 = Ret (24576, after_alloc.2) /\
  24576 < offset (mgr after_alloc.2).
Proof. vm_compute. repeat split. Qed.

(** ** Concrete runs *)

(** A PF manager of 256 MB, and a history of it: a table of 1 MB, one of a
    page after it, a retired page inside the rest, and the first table freed
    and replaced by a smaller one. *)
Definition mem0 : adapter := (result 1 (amdgv_memmgr_init (E := mem_env) 0 (2 ^ 28) 0 false) blank).2.
Definition next_state (q : request) (s : adapter) : adapter := (result tt (run_request (H := mem_env) no_dma q) s).2.
Definition mem1 : adapter := next_state (AllocReq (2 ^ 20) 3) mem0.
Definition mem2 : adapter := next_state (AllocAlignReq 16 4096 5) mem1.
Definition mem3 : adapter := next_state (ReservePageReq 512) mem2.
Definition mem4 : adapter := next_state (FreeReq 0) mem3.
Definition mem5 : adapter := next_state (AllocReq 8192 3) mem4.

Lemma blank_ids : ids_wf blank.
Proof.
  split; [done|cbn; lia|]. by repeat constructor.
Qed.
Lemma blank_pre o sz : 0 <= o -> 0 <= sz -> o + init_size sz <= mem_limit -> init_pre o sz 0 blank.
Proof. intros. split; [done|done|lia|done|apply blank_ids|done|done]. Qed.

Lemma mem0_init : amdgv_memmgr_init (E := mem_env) 0 (2 ^ 28) 0 false blank = Ret (0, mem0).
Proof. vm_compute. reflexivity. Qed.
Lemma mem0_pre : init_pre 0 (2 ^ 28) 0 blank.
Proof. apply blank_pre; [lia|lia|vm_compute; discriminate]. Qed.

Lemma mem0_good : good [] [] mem0.
Proof.
  pose proof (wp_init (H := mem_env) _ _ _ _ mem0_pre) as HQ. unfold wp in HQ. rewrite mem0_init in HQ. by apply HQ.
Qed.

Lemma next_history q s : history (H := mem_env) no_dma mem0 s -> request_ok q s ->
  history (H := mem_env) no_dma mem0 (next_state q s).
Proof.
  intros Hh Hq. eapply history_request; [exact Hh|exact Hq|].
  assert (kept s) as Hk.
  { eapply history_kept; [|exact Hh]. exists []. split; [apply mem0_good|constructor]. }
  pose proof (wp_request (H := mem_env) no_dma q s Hk Hq) as HQ. unfold next_state, result, wp in *.
  by destruct (run_request _ q s) as [[[] s']|].
Qed.

Ltac room := unfold alloc_ok, at_ok, mem_limit; split_and?;
  first [lia | right; vm_compute; reflexivity | vm_compute; reflexivity | vm_compute; discriminate].

Lemma mem5_history : history (H := mem_env) no_dma mem0 mem5.
Proof.
  apply next_history; [apply next_history|]; [apply next_history|..]; [apply next_history|..]; [apply next_history|..].
  - constructor.
  - cbn [request_ok]. room.
  - cbn [request_ok]. room.
  - cbn [request_ok]. room.
  - eexists. split; [vm_compute; reflexivity|]. cbn. set_solver.
  - cbn [request_ok]. room.
Qed.

Lemma mem5_blocks : blocks mem5 = Some [
  (3%nat, mk_mem 8192 8192 4096 (make_id 3 0) None);
  (1%nat, mk_mem 1052672 4096 65536 (make_id 5 0) None);
  (2%nat, mk_mem 2101248 4096 4096 (make_id MEM_ECC_BAD_PAGE 0) None)].
Proof. vm_compute. reflexivity. Qed.

Lemma memmgr_reachable_safe_witness :
  history (H := mem_env) no_dma mem0 mem5 /\ request_ok (FreeReq 3) mem5 /\
  (exists A, memory_safe mem5 A) /\ exists s', run_request (H := mem_env) no_dma (FreeReq 3) mem5 = Ret (tt, s').
Proof.
  assert (request_ok (FreeReq 3) mem5) as Hq.
  { eexists. split; [exact mem5_blocks|]. cbn. set_solver. }
  destruct (memmgr_reachable_safe (H := mem_env) no_dma 0 (2 ^ 28) 0 blank mem0 mem5 mem0_pre mem0_init mem5_history) as [H1 H2].
  split; [exact mem5_history|]. split; [exact Hq|]. split; [exact H1|]. by apply H2.
Defined.

Lemma memmgr_alloc_first_fit_witness : exists r s', 
  amdgv_memmgr_alloc_align (E := mem_env) no_dma 4096 (2 ^ 16) 5 mem0 = Ret (r, s') /\ r = Some 0%nat.
Proof.
  destruct (memmgr_alloc_first_fit (H := mem_env) no_dma 16 4096 5 [] mem0 mem0_good) as (r & s' & E & _);
    [lia|unfold mem_limit; lia|lia|right; vm_compute; reflexivity|].
  exists r, s'. split; [exact E|]. revert E. vm_compute. intros [= <- _]. reflexivity.
Defined.

Lemma memmgr_alloc_free_roundtrip_witness : exists r s1 s2,
  amdgv_memmgr_alloc_align (E := mem_env) no_dma 4096 (2 ^ 16) 5 mem0 = Ret (r, s1) /\
  amdgv_memmgr_free r s1 = Ret (0, s2) /\ blocks s2 = Some [].
Proof.
  destruct (memmgr_alloc_free_roundtrip (H := mem_env) no_dma 16 4096 5 [] mem0 mem0_good) as (r & s1 & s2 & H1 & H2 & H3 & _);
    [lia|unfold mem_limit; lia|lia|right; vm_compute; reflexivity|].
  exists r, s1, s2. split; [exact H1|]. split; [exact H2|exact H3].
Defined.

Lemma mem_ids_in_order_witness : exists s', add_ids 258 3 blank = Ret (nth_id 3 <$> seq 0 258, s').
Proof.
  destruct (mem_ids_in_order 3 258 blank blank_ids) as (s' & E & _);
    [lia|right; vm_compute; reflexivity|done|]. by exists s'.
Defined.

(** Before the update the PF manager is [mem5] and the GPU manager is the one
    after the first two requests; the new driver has only initialised them. *)
Definition old_driver : managers := mk_managers blank (mgr mem5) (mgr mem2) blank_mgr [1; 2].
Definition new_driver : managers := mk_managers blank (mgr mem0) (mgr mem0) blank_mgr [].
Definition no_entry : live_mem := mk_live 0 0 0 0 0.

Lemma mem2_blocks : blocks mem2 = Some [
  (0%nat, mk_mem 1048576 1048576 4096 (make_id 3 0) None); (1%nat, mk_mem 1052672 4096 65536 (make_id 5 0) None)].
Proof. vm_compute. reflexivity. Qed.

Lemma mem2_history : history (H := mem_env) no_dma mem0 mem2.
Proof.
  apply next_history; [apply next_history|]; [constructor|..]; cbn [request_ok]; room.
Qed.

(** The blocks a concrete state of a history is known to hold. *)
Lemma history_blocks s A : history (H := mem_env) no_dma mem0 s -> blocks s = Some A -> repr A [] s /\ NoDup (ids_of A).
Proof.
  intros Hh HA. assert (kept s) as (A' & Hg & _).
  { eapply history_kept; [|exact Hh]. exists []. split; [apply mem0_good|constructor]. }
  pose proof (wf_repr _ _ _ (gd_wf _ _ _ Hg)) as Hr. rewrite (repr_blocks _ _ _ Hr) in HA. injection HA as <-.
  split; [done|]. pose proof (il_nodup _ _ (gd_ids _ _ _ Hg)) as Hn. by rewrite app_nil_r in Hn.
Qed.

Lemma memmgr_live_update_roundtrip_witness :
  exists l old' new', amdgv_memmgr_export_live_data 16 (replicate 128 no_entry) old_driver = Ret ((0, l), old') /\
    amdgv_memmgr_import_live_data (E := mem_env) l new_driver = Ret (0, new') /\ lm_count l = 4.
Proof.
  destruct (history_blocks mem5 _ mem5_history mem5_blocks) as [HrA HnA].
  destruct (history_blocks mem2 _ mem2_history mem2_blocks) as [HrB HnB].
  pose proof (wf_repr _ _ _ (gd_wf _ _ _ mem0_good)) as Hr0.
  match type of HrA with repr ?A _ _ => match type of HrB with repr ?B _ _ =>
    assert (update_ready A B (replicate 128 no_entry) old_driver new_driver) as Hu end end.
  { split; [by apply (repr_mgr _ _ mem5)|by apply (repr_mgr _ _ mem2)|done|vm_compute; reflexivity|vm_compute; reflexivity
      |split; vm_compute; reflexivity|split; vm_compute; reflexivity
      |split; by apply (repr_mgr _ _ mem0)|split; vm_compute; reflexivity]. }
  destruct (memmgr_live_update_roundtrip (H := mem_env) (fun _ => eq_refl) 16 _ _ _ _ _ Hu) as (l & old' & new' & H1 & H2 & _).
  exists l, old', new'. split; [exact H1|]. split; [exact H2|]. revert H1. vm_compute. intros [= <- _]. reflexivity.
Defined.
