(* ===== verification/EventQ.v ===== *)
(** * The event queue of the scheduler (src/libgv/core/amdgv_sched_event.c)

    Interrupts, the mailbox and the management API put requests in a ring of
    [AMDGV_EVENT_QUEUE_ENTRY_NUM] slots; the event thread empties the ring into
    six lists by priority, one entry per event, and takes events from them one
    at a time.  The file has the ring, the lists and the live-update table of
    events that were not processed; the handlers of the events are not
    modelled.  Spin locks are sequential: an operation is one step.  Every
    place a signal is given to a waiter, the event thread is woken or live
    migration is told of an event is recorded in [calls]. *)
From S2P Require Import Prelude Api Oss Dlist ListScan.
Import Dlist ListScan.
#[local] Open Scope Z_scope.

Module EventQ.

(** ** Event ids (enum amdgv_sched_event_id, amdgv_sched.h) *)

Definition AMDGV_EVENT_READY_TO_ACCESS_GPU : Z := 1.
Definition AMDGV_EVENT_IP_DATA_READY : Z := 4.
Definition AMDGV_EVENT_TEXT_MESSAGE : Z := 255.
Definition AMDGV_EVENT_REQ_GPU_INIT : Z := 61184.
Definition AMDGV_EVENT_REL_GPU_INIT : Z := 61185.
Definition AMDGV_EVENT_REQ_GPU_FINI : Z := 61186.
Definition AMDGV_EVENT_REL_GPU_FINI : Z := 61187.
Definition AMDGV_EVENT_REQ_GPU_RESET : Z := 61188.
Definition AMDGV_EVENT_LOG_VF_ERROR : Z := 61189.
Definition AMDGV_EVENT_REQ_GPU_INIT_DATA : Z := 61190.
Definition AMDGV_EVENT_READY_TO_RESET : Z := 61191.
Definition AMDGV_EVENT_REQ_GPU_DEBUG : Z := 61192.
Definition AMDGV_EVENT_REL_GPU_DEBUG : Z := 61193.
Definition AMDGV_EVENT_VF_REQ_PTL_UPDATE : Z := 61194.
Definition AMDGV_EVENT_SCHED_FORCE_RESET_VF : Z := 65281.
Definition AMDGV_EVENT_SCHED_RESET_VF : Z := 65282.
Definition AMDGV_EVENT_HW_SCHED_RESET_VF : Z := 65283.
Definition AMDGV_EVENT_SCHED_SUSPEND_VF : Z := 65284.
Definition AMDGV_EVENT_SCHED_RESUME_VF : Z := 65285.
Definition AMDGV_EVENT_SCHED_REMOVE_VF : Z := 65286.
Definition AMDGV_EVENT_SCHED_FORCE_RESET_GPU : Z := 65287.
Definition AMDGV_EVENT_SCHED_STOP_VF : Z := 65288.
Definition AMDGV_EVENT_SCHED_INIT_VF_FB : Z := 65289.
Definition AMDGV_EVENT_SCHED_RAS_UMC : Z := 65290.
Definition AMDGV_EVENT_SCHED_SUSPEND : Z := 65291.
Definition AMDGV_EVENT_SCHED_RESUME : Z := 65292.
Definition AMDGV_EVENT_SCHED_FW_LIVE_UPDATE_DFC : Z := 65293.
Definition AMDGV_EVENT_SCHED_GPUMON : Z := 65294.
Definition AMDGV_EVENT_SCHED_SET_VF_ACCESS : Z := 65295.
Definition AMDGV_EVENT_SCHED_MMSCH_GENERAL_NOTIFICATION : Z := 65296.
Definition AMDGV_EVENT_SCHED_PSP_VF_GATE : Z := 65297.
Definition AMDGV_EVENT_SCHED_PSP_VF_CMD_RELAY : Z := 65298.
Definition AMDGV_EVENT_HANDLE_CRASH : Z := 65299.
Definition AMDGV_EVENT_SCHED_FORCE_RESET_GPU_INTERNAL : Z := 65300.
Definition AMDGV_EVENT_SCHED_SUSPEND_LIVE : Z := 65312.
Definition AMDGV_EVENT_SCHED_RESUME_LIVE : Z := 65313.
Definition AMDGV_EVENT_COLLECT_DIAG_DATA : Z := 65344.
Definition AMDGV_EVENT_ENTER_POWER_SAVING : Z := 65360.
Definition AMDGV_EVENT_EXIT_POWER_SAVING : Z := 65361.
Definition AMDGV_EVENT_SCHED_RAS_POISON_CONSUMPTION : Z := 65376.
Definition AMDGV_EVENT_SCHED_RAS_FED : Z := 65377.
Definition AMDGV_EVENT_CUR_VF_CTX_EMPTY : Z := 65378.
Definition AMDGV_EVENT_SCHED_UPDATE_TOPOLOGY : Z := 65379.
Definition AMDGV_EVENT_SCHED_UPDATE_MCA_BANKS : Z := 65380.
Definition AMDGV_EVENT_SCHED_GET_TOPOLOGY : Z := 65381.
Definition AMDGV_EVENT_SCHED_RMA : Z := 65382.
Definition AMDGV_EVENT_SCHED_VF_REQ_RAS_ERROR_COUNT : Z := 65383.
Definition AMDGV_EVENT_SCHED_VF_REQ_RAS_CPER_DUMP : Z := 65384.
Definition AMDGV_EVENT_SCHED_RAS_POISON_CREATION : Z := 65385.
Definition AMDGV_EVENT_SCHED_VF_REQ_RAS_BAD_PAGES : Z := 65386.
Definition AMDGV_EVENT_LIVE_MIGRATION_MANIFEST_DATA : Z := 65387.
Definition AMDGV_EVENT_VF_FB_COPY : Z := 65388.
Definition AMDGV_EVENT_VF_FB_COPY_ASYNC : Z := 65389.
Definition AMDGV_EVENT_QUERY_DIRTYBIT_DATA : Z := 65390.
Definition AMDGV_EVENT_SET_VF_MIGRATION_STATE : Z := 65391.
Definition AMDGV_EVENT_VF_MIGRATION_SET_ABORT : Z := 65392.
Definition AMDGV_EVENT_SCHED_VF_REQ_RAS_CHK_CRITI_REGION : Z := 65393.
Definition AMDGV_EVENT_SCHED_SET_VF_COND_AVAIL : Z := 65394.
Definition AMDGV_EVENT_SCHED_UAL_PAUSE_REQ : Z := 65408.
Definition AMDGV_EVENT_SCHED_UAL_RESUME_REQ : Z := 65409.
Definition AMDGV_EVENT_SCHED_VF_REQ_GPU_INIT_XCHG_REGION : Z := 65410.
Definition AMDGV_EVENT_SCHED_RAS_EVENT : Z := 65411.
Definition AMDGV_EVENT_SCHED_VF_RAS_REMOTE_CMD : Z := 65412.
Definition AMDGV_EVENT_INVALID_EVENT : Z := 4294967295.

(** The cases of the switch in [amdgv_sched_event_arrange_event_list], by list. *)
Definition list_0_events : list Z :=
  [AMDGV_EVENT_SCHED_FORCE_RESET_GPU; AMDGV_EVENT_SCHED_FORCE_RESET_GPU_INTERNAL; AMDGV_EVENT_SCHED_RAS_EVENT;
   AMDGV_EVENT_SCHED_VF_RAS_REMOTE_CMD; AMDGV_EVENT_SCHED_RAS_UMC; AMDGV_EVENT_EXIT_POWER_SAVING;
   AMDGV_EVENT_ENTER_POWER_SAVING; AMDGV_EVENT_SCHED_RAS_POISON_CONSUMPTION;
   AMDGV_EVENT_SCHED_RAS_POISON_CREATION; AMDGV_EVENT_SCHED_RAS_FED].
Definition list_1_events : list Z :=
  [AMDGV_EVENT_SCHED_SUSPEND_VF; AMDGV_EVENT_SCHED_RESUME_VF; AMDGV_EVENT_SCHED_REMOVE_VF;
   AMDGV_EVENT_SCHED_STOP_VF; AMDGV_EVENT_SCHED_SUSPEND; AMDGV_EVENT_SCHED_RESUME;
   AMDGV_EVENT_SCHED_SUSPEND_LIVE; AMDGV_EVENT_SCHED_RESUME_LIVE; AMDGV_EVENT_CUR_VF_CTX_EMPTY;
   AMDGV_EVENT_COLLECT_DIAG_DATA].
Definition list_2_events : list Z :=
  [AMDGV_EVENT_REL_GPU_INIT; AMDGV_EVENT_REL_GPU_FINI; AMDGV_EVENT_SCHED_UPDATE_TOPOLOGY;
   AMDGV_EVENT_REL_GPU_DEBUG].
Definition list_3_events : list Z :=
  [AMDGV_EVENT_SCHED_RMA; AMDGV_EVENT_SCHED_SET_VF_COND_AVAIL; AMDGV_EVENT_SCHED_RESET_VF;
   AMDGV_EVENT_SCHED_FORCE_RESET_VF; AMDGV_EVENT_HW_SCHED_RESET_VF; AMDGV_EVENT_SCHED_INIT_VF_FB;
   AMDGV_EVENT_SCHED_FW_LIVE_UPDATE_DFC; AMDGV_EVENT_SCHED_SET_VF_ACCESS;
   AMDGV_EVENT_SCHED_MMSCH_GENERAL_NOTIFICATION; AMDGV_EVENT_SCHED_PSP_VF_GATE;
   AMDGV_EVENT_SCHED_PSP_VF_CMD_RELAY; AMDGV_EVENT_HANDLE_CRASH; AMDGV_EVENT_LIVE_MIGRATION_MANIFEST_DATA;
   AMDGV_EVENT_VF_FB_COPY; AMDGV_EVENT_VF_FB_COPY_ASYNC; AMDGV_EVENT_QUERY_DIRTYBIT_DATA].
Definition list_4_events : list Z :=
  [AMDGV_EVENT_REQ_GPU_INIT; AMDGV_EVENT_REQ_GPU_FINI; AMDGV_EVENT_REQ_GPU_RESET;
   AMDGV_EVENT_REQ_GPU_INIT_DATA; AMDGV_EVENT_SCHED_VF_REQ_RAS_ERROR_COUNT;
   AMDGV_EVENT_SCHED_VF_REQ_RAS_CPER_DUMP; AMDGV_EVENT_REQ_GPU_DEBUG; AMDGV_EVENT_SCHED_VF_REQ_RAS_BAD_PAGES;
   AMDGV_EVENT_SCHED_VF_REQ_RAS_CHK_CRITI_REGION; AMDGV_EVENT_VF_REQ_PTL_UPDATE;
   AMDGV_EVENT_SCHED_VF_REQ_GPU_INIT_XCHG_REGION].
Definition list_5_events : list Z :=
  [AMDGV_EVENT_SCHED_GPUMON; AMDGV_EVENT_SCHED_UPDATE_MCA_BANKS; AMDGV_EVENT_SCHED_GET_TOPOLOGY;
   AMDGV_EVENT_VF_MIGRATION_SET_ABORT; AMDGV_EVENT_SET_VF_MIGRATION_STATE; AMDGV_EVENT_SCHED_UAL_PAUSE_REQ;
   AMDGV_EVENT_SCHED_UAL_RESUME_REQ].
(** The ids of list 4 that [amdgv_sched_push_back_event] does not know. *)
Definition not_pushed_back : list Z :=
  [AMDGV_EVENT_SCHED_VF_REQ_RAS_ERROR_COUNT; AMDGV_EVENT_SCHED_VF_REQ_RAS_CPER_DUMP;
   AMDGV_EVENT_SCHED_VF_REQ_RAS_BAD_PAGES; AMDGV_EVENT_SCHED_VF_REQ_RAS_CHK_CRITI_REGION].
(** The ids of list 3 for which older events of the same VF are taken off it. *)
Definition deduped_in_list_3 : list Z := [AMDGV_EVENT_SCHED_RMA; AMDGV_EVENT_SCHED_SET_VF_COND_AVAIL].

Definition listed (id : Z) (l : list Z) : bool := bool_decide (id ∈ l).

(** The list an event goes to. *)
Definition event_list_of (id : Z) : option nat :=
  if listed id list_0_events then Some 0%nat else if listed id list_1_events then Some 1%nat
  else if listed id list_2_events then Some 2%nat else if listed id list_3_events then Some 3%nat
  else if listed id list_4_events then Some 4%nat else if listed id list_5_events then Some 5%nat else None.
(** Whether older events of the same VF on that list are dropped. *)
Definition drops_older (id : Z) : bool :=
  listed id list_0_events || listed id list_2_events || listed id deduped_in_list_3 || listed id list_4_events.
Definition push_back_list (id : Z) : option nat :=
  if listed id not_pushed_back then None else event_list_of id.

Definition AMDGV_EVENT_QUEUE_ENTRY_NUM : nat := 256.
Definition AMDGV_SCHED_EVENT_LIST_MAX : nat := 6.
Definition AMDGV_EVENT_STATUS_NORMAL : Z := 0.
Definition AMDGV_EVENT_STATUS_FINISHED : Z := 1.
Definition EVENT_FLAGS_SKIPPED : Z := 1.
Definition AMDGV_EVENT_THREAD_IDLE : Z := 0.
Definition AMDGV_EVENT_THREAD_WAKINGUP : Z := 3.
Definition GPUMON_CPER_GET_COUNT : Z := 55.
Definition GPUMON_CPER_GET_ENTRIES : Z := 56.
Definition gpumon_unrecov_err_whitelist : list Z := [GPUMON_CPER_GET_ENTRIES; GPUMON_CPER_GET_COUNT].

(** ** Data *)

(** [union amdgv_sched_event_data]: the queue reads [gpumon_data.type] only;
    the other words are carried unread. *)
Record event_data := mk_data { gpumon_type : Z; words : list Z }.
Definition zero_data : event_data := mk_data 0 [].

Record sched_event := mk_event {
  idx_vf : Z; id : Z; status : Z; sched_block : Z; timestamp : Z;
  signal : option nat;                      (* OSS_INVALID_HANDLE is None *)
  data : event_data
}.
#[export] Instance eta_sched_event : Eta sched_event := fun r =>
  mk_event (idx_vf r) (id r) (status r) (sched_block r) (timestamp r) (signal r) (data r).
Definition zero_event : sched_event := mk_event 0 0 0 0 0 None zero_data.

(** [struct amdgv_sched_event_wrapper]; [entry] is [None] for NULL. *)
Record wrapper := mk_wrapper { event : sched_event; entry : option nat }.
#[export] Instance eta_wrapper : Eta wrapper := fun r => mk_wrapper (event r) (entry r).

(** The heads of the lists, the local head events are popped to, and the node
    of the entry at [p]. *)
Inductive node := EventList (i : nat) | QueueEvents | EventEntry (p : nat).
#[export] Instance node_eq_dec : EqDecision node.
Proof. solve_decision. Defined.
#[export] Instance node_countable : Countable node.
Proof.
  refine (inj_countable' (fun n => match n with EventList i => inl i | QueueEvents => inr None | EventEntry p => inr (Some p) end)
    (fun x => match x with inl i => EventList i | inr None => QueueEvents | inr (Some p) => EventEntry p end) _).
  by intros [].
Defined.

Inductive call :=
| Signal (h : nat) (flags : Z) | WakeThread | AbortCheck (vf id : Z).

(** The part of [struct amdgv_sched] and of the adapter the queue works on.
    [heap] holds the entries allocated, [None] until an event is copied in. *)
Record adapter := mk_adapter {
  event_queue : option (list wrapper);
  queue_rptr : Z; queue_wptr : Z;            (* unsigned char *)
  queue_lock : bool;
  lnk : links (N := node); heap : gmap nat (option sched_event); fresh : nat;
  curr_event_list_idx : nat; next_event : option nat;
  is_in_powersaving : bool; flag_live_migration : bool;
  event_thread_status : Z;
  os : oss_state; calls : list call
}.
#[export] Instance eta_adapter : Eta adapter := fun r =>
  mk_adapter (event_queue r) (queue_rptr r) (queue_wptr r) (queue_lock r) (lnk r) (heap r) (fresh r)
    (curr_event_list_idx r) (next_event r) (is_in_powersaving r) (flag_live_migration r)
    (event_thread_status r) (os r) (calls r).

(** ** Access *)

Definition oss {A} (m : M oss_state A) : M adapter A := zoom os (fun t s => s <| os := t |>) m.
Definition emit (c : call) : M adapter unit := modify (fun s => s <| calls := c :: calls s |>).
Definition link (f : links -> option links) : M adapter unit := fun s =>
  match f (lnk s) with Some h => Ret (tt, s <| lnk := h |>) | None => Fault end.

Definition slot (r : Z) : M adapter wrapper :=
  q ← gets event_queue; q ← require q; require (q !! Z.to_nat r).
Definition upd_slot (r : Z) (f : wrapper -> wrapper) : M adapter unit :=
  w ← slot r;
  modify (fun s => s <| event_queue := (fun q => <[Z.to_nat r := f w]> q) <$> event_queue s |>).

(** The event inside an entry; reading a freed or unfilled entry is a fault. *)
Definition event_at (p : nat) : M adapter sched_event := fun s =>
  match heap s !! p with Some (Some e) => Ret (e, s) | _ => Fault end.
Definition entry_of (n : node) : M adapter nat := match n with EventEntry p => mret p | _ => fault end.
(** Writing the event of an entry that is allocated. *)
Definition put_event (p : nat) (e : sched_event) : M adapter unit := fun s =>
  match heap s !! p with Some _ => Ret (tt, s <| heap := <[p := Some e]> (heap s) |>) | None => Fault end.

(** Freeing twice is a fault. *)
Definition free_entry (p : nat) : M adapter unit := fun s =>
  match heap s !! p with
  | Some _ => (_ ← oss oss_free; modify (fun s => s <| heap := delete p (heap s) |>)) s
  | None => Fault
  end.

(** [for (; wptr != rptr; rptr++)] on [uint8_t] indices. *)
Fixpoint for_ring (fuel : nat) (r w : Z) (body : Z -> M adapter unit) : M adapter unit :=
  if w =? r then mret tt else
  match fuel with O => fault | S f => _ ← body r; for_ring f (u8 (r + 1)) w body end.
Definition ring_loop (body : Z -> M adapter unit) : M adapter unit :=
  r ← gets queue_rptr; w ← gets queue_wptr; for_ring AMDGV_EVENT_QUEUE_ENTRY_NUM r w body.

(** Every node of a list was allocated, so [fresh] bounds its length. *)
Definition list_fuel (s : adapter) : nat := S (fresh s).
Definition each_entry_safe (head : node) (body : node -> M adapter unit) : M adapter unit :=
  fuel ← gets list_fuel; each_node_safe lnk fuel head body.
Definition test_event (f : sched_event -> bool) (n : node) : M adapter bool := p ← entry_of n; e ← event_at p; mret (f e).
Definition empty (head : node) : M adapter bool := gets (fun s => amdgv_list_empty head (lnk s)).

(** ** The ring *)

Section queue.
Context {E : OssEnv}.

Definition amdgv_sched_event_queue_init : M adapter Z :=
  ok ← oss oss_alloc;
  if negb ok then _ ← modify (fun s => s <| event_queue := None |>); mret AMDGV_FAILURE else
  _ ← modify (fun s => s <| event_queue := Some (replicate AMDGV_EVENT_QUEUE_ENTRY_NUM (mk_wrapper zero_event None)) |>
                         <| queue_rptr := 0 |> <| queue_wptr := 0 |>);
  lk ← oss oss_lock_init;
  _ ← modify (fun s => s <| queue_lock := lk |>);
  if negb lk then _ ← oss oss_free; mret AMDGV_FAILURE else mret 0.

(** The six lists, as [amdgv_sched_event_queue_process_init] sets them up. *)
Definition init_event_lists : M adapter unit :=
  for_each (seq 0 AMDGV_SCHED_EVENT_LIST_MAX) (fun i => link (fun h => Some (AMDGV_INIT_LIST_HEAD (EventList i) h))).

Definition amdgv_sched_event_queue_fini : M adapter unit :=
  lk ← gets queue_lock;
  _ ← when lk (_ ← oss oss_lock_fini; modify (fun s => s <| queue_lock := false |>));
  q ← gets event_queue;
  match q with
  | None => mret tt
  | Some _ =>
      _ ← ring_loop (fun r => w ← slot r; match entry w with Some p => free_entry p | None => mret tt end);
      _ ← oss oss_free; modify (fun s => s <| event_queue := None |>)
  end.

Definition oss_malloc : M adapter (option nat) :=
  ok ← oss oss_alloc;
  if (ok : bool) then
    p ← gets fresh; _ ← modify (fun s => s <| fresh := S p |> <| heap := <[p := None]> (heap s) |>); mret (Some p)
  else mret None.

Definition amdgv_sched_event_queue_push_ex (vf eid block : Z) (sg : option nat) (d : event_data) (wake : bool) : M adapter Z :=
  ps ← gets is_in_powersaving;
  if negb (eid =? AMDGV_EVENT_EXIT_POWER_SAVING) && (ps : bool) then mret AMDGV_FAILURE else
  w ← gets queue_wptr; r ← gets queue_rptr;
  if u8 (w + 1) =? r then mret AMDGV_FAILURE else
  o ← oss_malloc;
  _ ← upd_slot w (fun x => x <| entry := o |>);
  match o with
  | None => mret AMDGV_FAILURE
  | Some _ =>
      _ ← modify (fun s => s <| queue_wptr := u8 (queue_wptr s + 1) |>);
      t ← oss oss_get_time_stamp;
      _ ← upd_slot w (fun x => x <| event := mk_event vf eid AMDGV_EVENT_STATUS_NORMAL block t sg d |>);
      _ ← when wake (
            st ← gets event_thread_status;
            _ ← when (st =? AMDGV_EVENT_THREAD_IDLE) (modify (fun s => s <| event_thread_status := AMDGV_EVENT_THREAD_WAKINGUP |>));
            emit WakeThread);
      mret 0
  end.

(** One slot of the ring to the end of the popped list. *)
Definition pop_slot (r : Z) : M adapter unit :=
  w ← slot r;
  _ ← upd_slot r (fun x => x <| entry := None |>);
  p ← require (entry w);
  _ ← put_event p (event w);
  _ ← link (fun h => Some (AMDGV_INIT_LIST_HEAD (EventEntry p) h));
  _ ← link (amdgv_list_add_tail (EventEntry p) QueueEvents);
  modify (fun s => s <| queue_rptr := u8 (queue_rptr s + 1) |>).

Definition amdgv_sched_event_queue_pop_event_list : M adapter unit :=
  _ ← link (fun h => Some (AMDGV_INIT_LIST_HEAD QueueEvents h));
  ring_loop pop_slot.

Definition amdgv_sched_free_event (p : nat) : M adapter unit := free_entry p.

Definition amdgv_sched_event_queue_empty : M adapter bool := gets (fun s => queue_rptr s =? queue_wptr s).

(** ** Searching and marking *)

Fixpoint find_in_ring (fuel : nat) (r w vf eid : Z) : M adapter bool :=
  if w =? r then mret false else
  match fuel with
  | O => fault
  | S f =>
      x ← slot r;
      if (id (event x) =? eid) && (idx_vf (event x) =? vf) then mret true else find_in_ring f (u8 (r + 1)) w vf eid
  end.

Fixpoint find_in_lists (ls : list nat) (vf eid : Z) : M adapter bool :=
  match ls with
  | [] => mret false
  | i :: ls' =>
      fuel ← gets list_fuel;
      n ← find_node lnk fuel (EventList i) (test_event (fun e => (id e =? eid) && (idx_vf e =? vf)));
      if decide (n = EventList i) then find_in_lists ls' vf eid else mret true
  end.

Definition amdgv_sched_is_find_event (vf eid : Z) : M adapter bool :=
  r ← gets queue_rptr; w ← gets queue_wptr;
  b ← find_in_ring AMDGV_EVENT_QUEUE_ENTRY_NUM r w vf eid;
  if (b : bool) then mret true else find_in_lists (seq 0 AMDGV_SCHED_EVENT_LIST_MAX) vf eid.

Definition amdgv_sched_mark_event_in_ring (vf eid st : Z) (match_idx_vf : bool) : M adapter unit :=
  ring_loop (fun r =>
    x ← slot r;
    if negb (id (event x) =? eid) then mret tt
    else if (match_idx_vf : bool) && negb (idx_vf (event x) =? vf) then mret tt
    else upd_slot r (fun x => x <| event := (event x) <| status := st |> |>)).

Definition finish_entry (eid : Z) (n : node) : M adapter unit :=
  p ← entry_of n; e ← event_at p;
  when (id e =? eid) (put_event p (e <| status := AMDGV_EVENT_STATUS_FINISHED |>)).
Definition amdgv_sched_finish_event (i : nat) (eid : Z) : M adapter unit :=
  each_entry_safe (EventList i) (finish_entry eid).

(** The events a whole-GPU reset makes stale, and the list each is on. *)
Definition stale_events : list (nat * Z) :=
  [(0%nat, AMDGV_EVENT_SCHED_FORCE_RESET_GPU); (0%nat, AMDGV_EVENT_SCHED_FORCE_RESET_GPU_INTERNAL);
   (0%nat, AMDGV_EVENT_SCHED_RAS_POISON_CONSUMPTION); (0%nat, AMDGV_EVENT_SCHED_RAS_POISON_CREATION);
   (4%nat, AMDGV_EVENT_SCHED_VF_REQ_RAS_ERROR_COUNT); (4%nat, AMDGV_EVENT_SCHED_VF_REQ_RAS_CPER_DUMP);
   (4%nat, AMDGV_EVENT_SCHED_VF_REQ_RAS_BAD_PAGES); (4%nat, AMDGV_EVENT_SCHED_VF_REQ_RAS_CHK_CRITI_REGION)].
Definition amdgv_sched_remove_stale_events_after_wgr : M adapter unit :=
  for_each stale_events (fun x =>
    _ ← amdgv_sched_finish_event x.1 x.2;
    amdgv_sched_mark_event_in_ring AMDGV_PF_IDX x.2 AMDGV_EVENT_STATUS_FINISHED false).

(** ** Arranging *)

Definition remove_older (vf : Z) (n : node) : M adapter unit :=
  p ← entry_of n; e ← event_at p;
  when (idx_vf e =? vf) (_ ← link (amdgv_list_del n); free_entry p).
Definition amdgv_sched_remove_duplicated_event (i : nat) (new_entry : nat) : M adapter unit :=
  each_entry_safe (EventList i) (fun n => e ← event_at new_entry; remove_older (idx_vf e) n).

Definition arrange_entry (n : node) : M adapter unit :=
  p ← entry_of n; e ← event_at p;
  _ ← match event_list_of (id e) with
      | Some i =>
          _ ← when (drops_older (id e)) (amdgv_sched_remove_duplicated_event i p);
          link (amdgv_list_move_tail n (EventList i))
      | None => _ ← link (amdgv_list_del n); free_entry p
      end;
  lm ← gets flag_live_migration;
  when lm (e ← event_at p; emit (AbortCheck (idx_vf e) (id e))).

Definition amdgv_sched_event_arrange_event_list : M adapter unit :=
  _ ← each_entry_safe QueueEvents arrange_entry;
  _ ← link (amdgv_list_del QueueEvents);
  modify (fun s => s <| curr_event_list_idx := 0%nat |> <| next_event := None |>).

(** ** Taking and giving back *)

(** The first list of [is] that is not empty. *)
Fixpoint first_nonempty (ls : list nat) : M adapter (option nat) :=
  match ls with
  | [] => mret None
  | i :: ls' => b ← empty (EventList i); if (b : bool) then first_nonempty ls' else mret (Some i)
  end.
Definition lists_from (i : nat) : list nat := seq i (AMDGV_SCHED_EVENT_LIST_MAX - i).
Definition first_entry (i : nat) : M adapter nat := n ← next_of lnk (EventList i); entry_of n.

(** Where the event after [p], in list [i], is. *)
Definition advance (i : nat) (p : nat) : M adapter unit :=
  n ← next_of lnk (EventEntry p);
  if decide (n = EventList i) then
    o ← first_nonempty (lists_from (S i));
    match o with
    | None => modify (fun s => s <| curr_event_list_idx := 0%nat |> <| next_event := None |>)
    | Some j =>
        _ ← modify (fun s => s <| curr_event_list_idx := j |>);
        q ← first_entry j; modify (fun s => s <| next_event := Some q |>)
    end
  else q ← entry_of n; modify (fun s => s <| next_event := Some q |>).

Definition take_event (p : nat) : M adapter (option nat) :=
  i ← gets curr_event_list_idx;
  _ ← advance i p;
  _ ← link (amdgv_list_del (EventEntry p));
  mret (Some p).

(** The entry of the event to process next; it is on no list any more. *)
Definition amdgv_sched_pick_up_next_event : M adapter (option nat) :=
  b ← amdgv_sched_event_queue_empty;
  _ ← when (negb b) (_ ← amdgv_sched_event_queue_pop_event_list; amdgv_sched_event_arrange_event_list);
  c ← gets next_event;
  match c with
  | Some p => take_event p
  | None =>
      o ← first_nonempty (lists_from 0);
      match o with
      | None => mret None
      | Some i =>
          _ ← modify (fun s => s <| curr_event_list_idx := i |>);
          p ← first_entry i; take_event p
      end
  end.

Definition amdgv_sched_push_back_event (p : nat) : M adapter unit :=
  e ← event_at p;
  match push_back_list (id e) with
  | None => free_entry p
  | Some i =>
      _ ← modify (fun s => s <| curr_event_list_idx := i |>);
      _ ← link (amdgv_list_add (EventEntry p) (EventList i));
      modify (fun s => s <| next_event := Some p |>)
  end.

(** ** Draining *)

Definition notify (e : sched_event) (flags : Z) : M adapter unit :=
  match signal e with Some h => emit (Signal h flags) | None => mret tt end.

Fixpoint drain_loop (fuel : nat) : M adapter unit :=
  o ← amdgv_sched_pick_up_next_event;
  match o with
  | None => mret tt
  | Some p =>
      match fuel with
      | O => fault
      | S f => e ← event_at p; _ ← notify e EVENT_FLAGS_SKIPPED; _ ← amdgv_sched_free_event p; drain_loop f
      end
  end.
Definition amdgv_sched_process_event_fini : M adapter Z :=
  _ ← amdgv_sched_event_queue_pop_event_list;
  _ ← amdgv_sched_event_arrange_event_list;
  fuel ← gets list_fuel; _ ← drain_loop fuel; mret 0.

(** ** Live update *)

Record live_event := mk_live { le_idx_vf : Z; le_id : Z; le_sched_id : Z }.
(** [struct amdgv_live_info_unprocessed_event] *)
Record live_events := mk_lives { unprocessed_event_count : Z; unprocessed_events : list live_event }.

Fixpoint count_lists (ls : list nat) (n : Z) : M adapter Z :=
  match ls with
  | [] => mret n
  | i :: ls' =>
      fuel ← gets list_fuel; h ← gets lnk;
      ns ← require (amdgv_list_for_each_entry fuel (EventList i) h);
      count_lists ls' (u32 (n + Z.of_nat (length ns)))
  end.

(** The number of events left; the ring is emptied first. *)
Definition amdgv_sched_export_unprocessed_event_size : M adapter Z :=
  b ← amdgv_sched_event_queue_empty;
  _ ← when (negb b) (_ ← amdgv_sched_event_queue_pop_event_list; amdgv_sched_event_arrange_event_list);
  count_lists (seq 0 AMDGV_SCHED_EVENT_LIST_MAX) 0.

(** The number of events written and the table. *)
Fixpoint export_loop (fuel : nat) (i : nat) (t : list live_event) : M adapter (nat * list live_event) :=
  o ← amdgv_sched_pick_up_next_event;
  match o with
  | None => mret (i, t)
  | Some p =>
      match fuel with
      | O => fault
      | S f =>
          e ← event_at p;
          _ ← notify e 0;
          if (AMDGV_EVENT_QUEUE_ENTRY_NUM <=? i)%nat then mret (i, t) else
          let gpumon := id e =? AMDGV_EVENT_SCHED_GPUMON in
          _ ← amdgv_sched_free_event p;
          if gpumon then export_loop f i t
          else export_loop f (S i) (<[i := mk_live (idx_vf e) (id e) (sched_block e)]> t)
      end
  end.
Definition amdgv_sched_export_unprocessed_event (t : live_events) : M adapter live_events :=
  _ ← amdgv_sched_export_unprocessed_event_size;
  fuel ← gets list_fuel;
  r ← export_loop fuel 0 (unprocessed_events t);
  mret (mk_lives (Z.of_nat r.1) r.2).

Definition amdgv_sched_import_unprocessed_event (t : live_events) : M adapter unit :=
  _ ← demand (unprocessed_event_count t <=? Z.of_nat (length (unprocessed_events t)));
  for_each (take (Z.to_nat (unprocessed_event_count t)) (unprocessed_events t)) (fun l =>
    _ ← amdgv_sched_event_queue_push_ex (le_idx_vf l) (le_id l) (le_sched_id l) None zero_data true; mret tt).
End queue.
End EventQ.
