(* ===== verification/EventQInv.v ===== *)
(** * The event queue as sequences

    The abstract queue behind the ring and the six lists of [EventQ], and what
    it means for a state to represent it: [ring] are the requests not popped
    yet, [evs] the six lists, [cursor] the list and position of the event to
    take next, [out] the events handed to the event thread and not given back.
    An item is an entry with its event. *)
From S2P Require Import Prelude Oss Api Dlist ListScan EventQ.
Import Dlist ListScan EventQ.
#[local] Open Scope Z_scope.
#[local] Set Warnings "-clear-no-such-hyp".

Abbreviation item := (nat * sched_event)%type.
Record queue := mk_queue { ring : list item; evs : list (list item); cursor : option (nat * nat); out : list item }.
Definition empty_queue : queue := mk_queue [] (replicate AMDGV_SCHED_EVENT_LIST_MAX []) None [].

(** ** Representation *)

Definition ptr_nodes (l : list item) : list node := (fun x => EventEntry x.1) <$> l.
Definition heads (evs : list (list item)) : list (node * list node) :=
  (fun i => (EventList i, ptr_nodes (evs !!! i))) <$> seq 0 AMDGV_SCHED_EVENT_LIST_MAX.
Definition popped (pop : option (list item)) : list (node * list node) :=
  match pop with Some l => [(QueueEvents, ptr_nodes l)] | None => [] end.

(** The entries allocated: an entry in the ring has no event copied in yet. *)
Abbreviation cell := (nat * option sched_event)%type.
Definition waiting (l : list item) : list cell := (fun x => (x.1, None)) <$> l.
Definition filled (l : list item) : list cell := (fun x => (x.1, Some x.2)) <$> l.
Definition cells (rg : list item) (pop : option (list item)) (evs : list (list item)) (out : list item) : list cell :=
  waiting rg ++ filled (default [] pop ++ concat evs ++ out).

Definition ring_rep (rg : list item) (s : adapter) : Prop :=
  exists q, event_queue s = Some q /\ length q = AMDGV_EVENT_QUEUE_ENTRY_NUM /\
    0 <= queue_rptr s < 256 /\ (length rg <= 255)%nat /\
    queue_wptr s = u8 (queue_rptr s + Z.of_nat (length rg)) /\
    forall k x, rg !! k = Some x -> q !! Z.to_nat (u8 (queue_rptr s + Z.of_nat k)) = Some (mk_wrapper x.2 (Some x.1)).

(** [base] is the number of other live allocations. *)
Record heap_rep (base : Z) (cs : list cell) (s : adapter) : Prop := {
  hr_cells : map_to_list (heap s) ≡ₚ cs;
  hr_fresh : Forall (fun c => (c.1 < fresh s)%nat) cs;
  hr_live : os_heap (os s) = base + Z.of_nat (length cs);
}.

Record shape (base : Z) (rg : list item) (pop : option (list item)) (evs : list (list item)) (out : list item)
    (s : adapter) : Prop := {
  sh_ring : ring_rep rg s;
  sh_lists : lists (lnk s) (popped pop ++ heads evs);
  sh_six : length evs = AMDGV_SCHED_EVENT_LIST_MAX;
  sh_heap : heap_rep base (cells rg pop evs out) s;
}.

Definition at_cursor (evs : list (list item)) (c : nat * nat) : option item := (evs !!! c.1) !! c.2.
Definition cursor_rep (evs : list (list item)) (c : option (nat * nat)) (s : adapter) : Prop :=
  match c with
  | None => next_event s = None
  | Some c => (c.1 < AMDGV_SCHED_EVENT_LIST_MAX)%nat /\ curr_event_list_idx s = c.1 /\
      exists x, at_cursor evs c = Some x /\ next_event s = Some x.1
  end.

Definition repr (base : Z) (q : queue) (s : adapter) : Prop :=
  shape base (ring q) None (evs q) (out q) s /\ cursor_rep (evs q) (cursor q) s.

(** What no operation on the lists changes: the flags, and the signals given. *)
Definition is_signal (c : call) : bool := match c with Signal _ _ => true | _ => false end.
Definition env (s : adapter) : bool * bool * bool * list call :=
  (is_in_powersaving s, flag_live_migration s, queue_lock s, filter is_signal (calls s)).

(** ** Bytes *)

Lemma u8_small z : 0 <= z < 256 -> u8 z = z.
Proof. intros. by apply wrap_id. Qed.
Lemma u8_range z : 0 <= u8 z < 256.
Proof. exact (wrap_range 8 z ltac:(lia)). Qed.
Lemma u8_inj r a b : 0 <= a < 256 -> 0 <= b < 256 -> u8 (r + a) = u8 (r + b) -> a = b.
Proof. unfold wrap. change (2 ^ 8) with 256. intros. Z.div_mod_to_equations. lia. Qed.
Lemma u8_add r a b : u8 (u8 (r + a) + b) = u8 (r + (a + b)).
Proof. unfold wrap. rewrite Z.add_mod_idemp_l by done. f_equal. lia. Qed.

(** ** Lists of lists *)

Lemma concat_split {A} (ls : list (list A)) i : (i < length ls)%nat -> concat ls ≡ₚ (ls !!! i) ++ concat (delete i ls).
Proof.
  intros Hi. destruct (lookup_lt_is_Some_2 ls i Hi) as [l Hl]. rewrite (list_lookup_total_correct _ _ _ Hl).
  rewrite <- (take_drop_middle _ _ _ Hl) at 1. rewrite delete_take_drop, !concat_app. cbn.
  by rewrite Permutation_app_swap_app.
Qed.
Lemma concat_insert {A} (ls : list (list A)) i l :
  (i < length ls)%nat -> concat (<[i := l]> ls) ≡ₚ l ++ concat (delete i ls).
Proof.
  intros Hi. rewrite (concat_split _ i) by by rewrite length_insert. rewrite list_lookup_total_insert, decide_True by done.
  rewrite !delete_take_drop. by rewrite take_insert_ge, drop_insert_lt by lia.
Qed.
Lemma elem_of_concat {A} (ls : list (list A)) i x : x ∈ ls !!! i -> (i < length ls)%nat -> x ∈ concat ls.
Proof. intros Hx Hi. rewrite (concat_split _ i) by done. set_solver. Qed.

(** ** Entries *)

Lemma cells_elem_evs x i rg pop evs out : x ∈ evs !!! i -> (i < length evs)%nat -> (x.1, Some x.2) ∈ cells rg pop evs out.
Proof.
  intros Hx Hi. pose proof (elem_of_concat _ _ _ Hx Hi). unfold cells, filled.
  rewrite elem_of_app. right. apply list_elem_of_fmap. exists x. split; [done|]. set_solver.
Qed.
Lemma cells_elem_out x rg pop evs out : x ∈ out -> (x.1, Some x.2) ∈ cells rg pop evs out.
Proof.
  intros Hx. unfold cells, filled. rewrite elem_of_app. right. apply list_elem_of_fmap. exists x. split; [done|]. set_solver.
Qed.
Lemma cells_elem_pop x rg pop evs out : x ∈ pop -> (x.1, Some x.2) ∈ cells rg (Some pop) evs out.
Proof.
  intros Hx. unfold cells, filled. rewrite elem_of_app. right. apply list_elem_of_fmap. exists x. split; [done|]. cbn. set_solver.
Qed.

Lemma hr_nodup base cs s : heap_rep base cs s -> NoDup cs.*1.
Proof. intros [H _ _]. rewrite <- H. apply NoDup_fst_map_to_list. Qed.

Lemma hr_lookup base cs s p o : heap_rep base cs s -> (p, o) ∈ cs -> heap s !! p = Some o.
Proof. intros [H _ _] Hin. apply elem_of_map_to_list. by rewrite H. Qed.

Lemma hr_perm base cs cs' s : cs ≡ₚ cs' -> heap_rep base cs s -> heap_rep base cs' s.
Proof. intros HP [H1 H2 H3]. split; by rewrite <- HP. Qed.

Lemma hr_frame base cs s s' : heap_rep base cs s -> heap s' = heap s -> fresh s' = fresh s ->
  os_heap (os s') = os_heap (os s) -> heap_rep base cs s'.
Proof. intros [H1 H2 H3] E1 E2 E3. split; by rewrite ?E1, ?E2, ?E3. Qed.

(** The pointers of allocated entries are below [fresh], so there are at most that many. *)
Lemma hr_length base cs s : heap_rep base cs s -> (length cs <= fresh s)%nat.
Proof.
  intros Hr. pose proof (hr_nodup _ _ _ Hr) as Hn. rewrite <- (length_fmap fst cs), <- (length_seq (fresh s) 0).
  apply NoDup_incl_length; [by apply NoDup_ListNoDup|]. intros p. rewrite <- list_elem_of_In, in_seq.
  intros (c & -> & Hc)%list_elem_of_fmap. pose proof (hr_fresh _ _ _ Hr) as Hf. rewrite Forall_forall in Hf.
  specialize (Hf c Hc). lia.
Qed.

Lemma hr_update base p o o' cs s : heap_rep base ((p, o) :: cs) s -> forall s', heap s' = <[p := o']> (heap s) ->
  fresh s' = fresh s -> os_heap (os s') = os_heap (os s) -> heap_rep base ((p, o') :: cs) s'.
Proof.
  intros Hr s' E1 E2 E3. pose proof (hr_nodup _ _ _ Hr) as Hn. cbn in Hn. apply NoDup_cons in Hn as [Hp Hn].
  destruct Hr as [H1 H2 H3]. split; rewrite ?E1, ?E2, ?E3; [| |done].
  - assert (heap s = <[p := o]> (list_to_map cs)) as ->.
    { rewrite <- (list_to_map_to_list (heap s)). symmetry. rewrite <- list_to_map_cons.
      apply list_to_map_proper; [cbn; by apply NoDup_cons|done]. }
    rewrite insert_insert_eq, map_to_list_insert by by apply not_elem_of_list_to_map.
    by rewrite map_to_list_to_map.
  - apply Forall_cons in H2 as [? ?]. by apply Forall_cons.
Qed.

Lemma hr_delete base p o cs s : heap_rep base ((p, o) :: cs) s -> forall s', heap s' = delete p (heap s) ->
  fresh s' = fresh s -> os_heap (os s') = os_heap (os s) - 1 -> heap_rep base cs s'.
Proof.
  intros Hr s' E1 E2 E3. pose proof (hr_lookup _ _ _ p o Hr ltac:(set_solver)) as Hl.
  destruct Hr as [H1 H2 H3]. split; rewrite ?E1, ?E2, ?E3.
  - apply (Permutation_cons_inv (a := (p, o))). rewrite <- H1. by apply map_to_list_delete.
  - by apply Forall_cons in H2 as [_ ?].
  - rewrite H3. cbn [length]. lia.
Qed.

Lemma hr_new base cs s : heap_rep base cs s -> forall s', heap s' = <[fresh s := None]> (heap s) ->
  fresh s' = S (fresh s) -> os_heap (os s') = os_heap (os s) + 1 -> heap_rep base ((fresh s, None) :: cs) s'.
Proof.
  intros [H1 H2 H3] s' E1 E2 E3. split; rewrite ?E1, ?E2, ?E3.
  - rewrite map_to_list_insert; [by rewrite H1|]. apply eq_None_not_Some. intros [o Ho].
    apply elem_of_map_to_list in Ho. rewrite H1 in Ho. rewrite Forall_forall in H2. apply H2 in Ho. cbn in Ho. lia.
  - apply Forall_cons. split; [cbn; lia|]. eapply Forall_impl; [exact H2|]. cbn. lia.
  - rewrite H3. cbn [length]. lia.
Qed.

(** ** Cells of the parts *)

Section cells.
Implicit Types (x : item) (rg l out : list item) (pop : option (list item)) (evs : list (list item)).

Lemma cells_filled x rg l : waiting rg ++ filled (x :: l) ≡ₚ (x.1, Some x.2) :: waiting rg ++ filled l.
Proof. cbn. by rewrite Permutation_middle. Qed.
Lemma filled_perm l1 l2 : l1 ≡ₚ l2 -> filled l1 ≡ₚ filled l2.
Proof. intros HP. unfold filled. by rewrite HP. Qed.
Lemma cells_move x rg l1 l2 : l1 ≡ₚ x :: l2 -> waiting rg ++ filled l1 ≡ₚ (x.1, Some x.2) :: waiting rg ++ filled l2.
Proof. intros HP. by rewrite (filled_perm _ _ HP), cells_filled. Qed.

Lemma cells_ring x rg pop evs out : cells (x :: rg) pop evs out ≡ₚ (x.1, None) :: cells rg pop evs out.
Proof. done. Qed.
Lemma cells_pop x rg l1 l2 evs out : cells rg (Some (l1 ++ x :: l2)) evs out ≡ₚ (x.1, Some x.2) :: cells rg (Some (l1 ++ l2)) evs out.
Proof. apply cells_move. cbn. by rewrite <- !app_assoc, Permutation_middle. Qed.
Lemma cells_out x rg pop evs out : cells rg pop evs (x :: out) ≡ₚ (x.1, Some x.2) :: cells rg pop evs out.
Proof. apply cells_move. by rewrite !app_assoc, Permutation_middle. Qed.
Lemma cells_list x i l1 l2 rg pop evs out : (i < length evs)%nat ->
  cells rg pop (<[i := l1 ++ x :: l2]> evs) out ≡ₚ (x.1, Some x.2) :: cells rg pop (<[i := l1 ++ l2]> evs) out.
Proof.
  intros Hi. apply cells_move. rewrite !concat_insert by done. rewrite <- !app_assoc. cbn.
  rewrite !(Permutation_app_comm (default [] pop)), <- !app_assoc. cbn. by rewrite <- Permutation_middle, <- !app_assoc.
Qed.
Lemma cells_of_list x i l1 l2 rg pop evs out : (i < length evs)%nat -> evs !!! i = l1 ++ x :: l2 ->
  cells rg pop evs out ≡ₚ (x.1, Some x.2) :: cells rg pop (<[i := l1 ++ l2]> evs) out.
Proof.
  intros Hi E. rewrite <- (cells_list _ _ _ _ _ _ _ _ Hi), <- E. by rewrite list_insert_id by (by apply list_lookup_lookup_total_lt).
Qed.
End cells.

(** ** The heads *)

Definition others (i : nat) (evs : list (list item)) : list (node * list node) :=
  (fun j => (EventList j, ptr_nodes (evs !!! j))) <$> filter (fun j => j <> i) (seq 0 AMDGV_SCHED_EVENT_LIST_MAX).

Lemma heads_split i evs : (i < AMDGV_SCHED_EVENT_LIST_MAX)%nat ->
  heads evs ≡ₚ (EventList i, ptr_nodes (evs !!! i)) :: others i evs.
Proof.
  intros Hi. apply (fmap_Permutation (fun j => (EventList j, ptr_nodes (evs !!! j))) _ (i :: filter (fun j => j <> i) _)).
  unfold AMDGV_SCHED_EVENT_LIST_MAX in *.
  assert (i = 0 \/ i = 1 \/ i = 2 \/ i = 3 \/ i = 4 \/ i = 5)%nat as Hc by lia.
  destruct Hc as [->|[->|[->|[->|[->| ->]]]]]; vm_compute; solve_Permutation.
Qed.

Lemma heads_insert i l evs : (i < length evs)%nat -> length evs = AMDGV_SCHED_EVENT_LIST_MAX ->
  heads (<[i := l]> evs) ≡ₚ (EventList i, ptr_nodes l) :: others i evs.
Proof.
  intros Hi Hl. rewrite (heads_split i) by lia. rewrite list_lookup_total_insert, decide_True by done.
  enough (others i (<[i:=l]> evs) = others i evs) as -> by done. apply list_fmap_ext. intros k j Hj.
  apply list_elem_of_lookup_2, list_elem_of_filter in Hj as [Hj _]. by rewrite list_lookup_total_insert_ne.
Qed.

Lemma heads_nodes n evs : length evs = AMDGV_SCHED_EVENT_LIST_MAX -> n ∈ nodes (heads evs) ->
  (exists i, n = EventList i) \/ exists x, n = EventEntry x.1 /\ x ∈ concat evs.
Proof.
  intros Hl Hn. unfold nodes, heads in Hn. rewrite list_elem_of_In, in_flat_map in Hn.
  destruct Hn as (l & Hlin & Hn). rewrite <- !list_elem_of_In in *.
  apply list_elem_of_fmap in Hlin as (i & -> & Hi). cbn in Hn. apply elem_of_cons in Hn as [->|Hn]; [by left; eexists|].
  right. apply list_elem_of_fmap in Hn as (x & -> & Hx). exists x. split; [done|]. eapply elem_of_concat; [done|].
  apply elem_of_seq in Hi. lia.
Qed.
