(* ===== verification/EventQRun.v ===== *)
(** * Steps of the event queue on the represented sequences

    What the pointer operations, the allocation and freeing of entries and the
    loops over the ring do to the [shape] of [EventQInv]. *)
From S2P Require Import Prelude Oss Api Dlist ListScan EventQ EventQInv.
Import Dlist ListScan EventQ.
#[local] Open Scope Z_scope.
#[local] Set Warnings "-clear-no-such-hyp".

(** ** Primitives *)

Lemma wp_event_at p e (Q : sched_event -> adapter -> Prop) s :
  heap s !! p = Some (Some e) -> Q e s -> wp (event_at p) Q s.
Proof. intros E HQ. unfold wp, event_at. by rewrite E. Qed.

Lemma wp_eq_link f h (Q : unit -> adapter -> Prop) s :
  f (lnk s) = Some h -> Q tt (s <| lnk := h |>) -> wp (link f) Q s.
Proof. intros E HQ. unfold wp, link. by rewrite E. Qed.

Lemma wp_eq_free base p o cs s (Q : unit -> adapter -> Prop) : heap_rep base ((p, o) :: cs) s ->
  (forall s', s' = (s <| os := (os s) <| os_heap := os_heap (os s) - 1 |> |> <| heap := delete p (heap s) |>) ->
     heap_rep base cs s' -> Q tt s') ->
  wp (free_entry p) Q s.
Proof.
  intros Hr HQ. unfold wp, free_entry. rewrite (hr_lookup _ _ _ _ _ Hr (list_elem_of_here _ _)). cbn.
  apply HQ; [done|]. by eapply hr_delete.
Qed.

Lemma wp_put_event base p o e cs s (Q : unit -> adapter -> Prop) : heap_rep base ((p, o) :: cs) s ->
  (forall s', s' = (s <| heap := <[p := Some e]> (heap s) |>) -> heap_rep base ((p, Some e) :: cs) s' -> Q tt s') ->
  wp (put_event p e) Q s.
Proof.
  intros Hr HQ. unfold wp, put_event. rewrite (hr_lookup _ _ _ _ _ Hr (list_elem_of_here _ _)).
  apply HQ; [done|]. by eapply hr_update.
Qed.

Lemma wp_slot q r w (Q : wrapper -> adapter -> Prop) s :
  event_queue s = Some q -> q !! Z.to_nat r = Some w -> Q w s -> wp (slot r) Q s.
Proof. intros E1 E2 HQ. unfold slot. apply wp_bind, wp_gets, wp_bind. eapply wp_require; [done|]. by eapply wp_require. Qed.

Lemma wp_upd_slot q r f w (Q : unit -> adapter -> Prop) s :
  event_queue s = Some q -> q !! Z.to_nat r = Some w ->
  Q tt (s <| event_queue := Some (<[Z.to_nat r := f w]> q) |>) -> wp (upd_slot r f) Q s.
Proof.
  intros E1 E2 HQ. unfold upd_slot. apply wp_bind. eapply wp_slot; [done..|]. apply wp_modify. by rewrite E1.
Qed.

(** ** The ring *)

(** The loop over the ring runs its body once per pending slot. *)
Lemma wp_for_ring (I : nat -> adapter -> Prop) body r n s fuel : (n <= 255)%nat -> (n <= fuel)%nat ->
  (forall k s, (k < n)%nat -> I k s -> wp (body (u8 (r + Z.of_nat k))) (fun _ => I (S k)) s) ->
  I 0%nat s -> wp (for_ring fuel (u8 r) (u8 (r + Z.of_nat n)) body) (fun _ => I n) s.
Proof.
  intros Hn Hf Hb H0. enough (forall m k s fuel, (n = k + m)%nat -> (m <= fuel)%nat -> I k s ->
    wp (for_ring fuel (u8 (r + Z.of_nat k)) (u8 (r + Z.of_nat n)) body) (fun _ => I n) s) as H.
  { specialize (H n 0%nat s fuel eq_refl Hf H0). by rewrite Z.add_0_r in H. }
  clear s fuel Hf H0. induction m as [|m IH]; intros k s fuel E Hf HI.
  - assert (n = k) as <- by lia. destruct fuel; cbn; by rewrite Z.eqb_refl.
  - destruct fuel as [|fuel]; [lia|]. cbn. destruct (Z.eqb_spec (u8 (r + Z.of_nat n)) (u8 (r + Z.of_nat k))) as [E'|_].
    { apply u8_inj in E'; lia. }
    apply wp_bind. eapply wp_mono; [by apply Hb; [lia|]|]. intros u s' Hs'.
    rewrite u8_add. replace (Z.of_nat k + 1) with (Z.of_nat (S k)) by lia. apply IH; [lia..|done].
Qed.

Lemma wp_ring_loop (I : nat -> adapter -> Prop) body rg s : ring_rep rg s ->
  (forall k s', (k < length rg)%nat -> I k s' -> wp (body (u8 (queue_rptr s + Z.of_nat k))) (fun _ => I (S k)) s') ->
  I 0%nat s -> wp (ring_loop body) (fun _ => I (length rg)) s.
Proof.
  intros (q & Eq & Hl & Hr & Hn & Hw & Hs) Hb H0. unfold ring_loop. wp_steps. rewrite Hw.
  rewrite <- (u8_small (queue_rptr s)) at 1 by done. apply wp_for_ring; [done| |done..].
  unfold AMDGV_EVENT_QUEUE_ENTRY_NUM. lia.
Qed.

Lemma ring_slot rg s k x : ring_rep rg s -> rg !! k = Some x -> exists q, event_queue s = Some q /\
  q !! Z.to_nat (u8 (queue_rptr s + Z.of_nat k)) = Some (mk_wrapper x.2 (Some x.1)).
Proof. intros (q & Eq & Hl & Hr & Hn & Hw & Hs) Hx. eauto. Qed.

Lemma ring_frame rg s s' : ring_rep rg s -> event_queue s' = event_queue s -> queue_rptr s' = queue_rptr s ->
  queue_wptr s' = queue_wptr s -> ring_rep rg s'.
Proof. intros Hr E1 E2 E3. unfold ring_rep. by rewrite E1, E2, E3. Qed.

(** Taking the first slot. *)
Lemma ring_pop x rg s s' q w : ring_rep (x :: rg) s -> event_queue s = Some q ->
  event_queue s' = Some (<[Z.to_nat (queue_rptr s) := w]> q) -> queue_rptr s' = u8 (queue_rptr s + 1) ->
  queue_wptr s' = queue_wptr s -> ring_rep rg s'.
Proof.
  intros (q' & Eq & Hl & Hr & Hn & Hw & Hs) Eq' E1 E2 E3. rewrite Eq in Eq'. injection Eq' as ->.
  exists (<[Z.to_nat (queue_rptr s) := w]> q). cbn [length] in *. rewrite E2. split_and!; try done.
  - by rewrite length_insert.
  - apply u8_range.
  - apply u8_range.
  - lia.
  - rewrite E3, Hw, u8_add. f_equal. lia.
  - intros k y Hk. rewrite u8_add. specialize (Hs (S k) y Hk). rewrite <- Hs.
    replace (Z.of_nat (S k)) with (1 + Z.of_nat k) by lia. apply list_lookup_insert_ne. intros E.
    pose proof (u8_range (queue_rptr s + (1 + Z.of_nat k))). apply lookup_lt_Some in Hk.
    assert (queue_rptr s = u8 (queue_rptr s + (1 + Z.of_nat k))) as E' by lia.
    rewrite <- (u8_small (queue_rptr s)) in E' at 1 by done. rewrite <- (Z.add_0_r (queue_rptr s)) in E' at 1.
    apply u8_inj in E'; lia.
Qed.

(** Filling the free slot at the write index. *)
Lemma ring_push x rg s s' q : ring_rep rg s -> event_queue s = Some q -> (length rg < 255)%nat ->
  event_queue s' = Some (<[Z.to_nat (queue_wptr s) := mk_wrapper x.2 (Some x.1)]> q) -> queue_rptr s' = queue_rptr s ->
  queue_wptr s' = u8 (queue_wptr s + 1) -> ring_rep (rg ++ [x]) s'.
Proof.
  intros (q' & Eq & Hl & Hr & Hn & Hw & Hs) Eq' Hlt E1 E2 E3. rewrite Eq in Eq'. injection Eq' as ->.
  eexists. rewrite (length_app rg), E2. cbn [length]. split_and!; [done|by rewrite length_insert|lia|lia|lia|..].
  - rewrite E3, Hw, u8_add. f_equal. lia.
  - intros k y Hk. apply lookup_app_Some in Hk as [Hk|[Hge Hk]].
    + rewrite <- (Hs k y Hk). apply list_lookup_insert_ne. apply lookup_lt_Some in Hk. rewrite Hw. intros E.
      pose proof (u8_range (queue_rptr s + Z.of_nat k)). pose proof (u8_range (queue_rptr s + Z.of_nat (length rg))).
      assert (u8 (queue_rptr s + Z.of_nat (length rg)) = u8 (queue_rptr s + Z.of_nat k)) as E' by lia.
      apply u8_inj in E'; lia.
    + apply list_lookup_singleton_Some in Hk as [E <-]. assert (k = length rg) as -> by lia. rewrite <- Hw.
      apply list_lookup_insert_eq. rewrite Hl, Hw. pose proof (u8_range (queue_rptr s + Z.of_nat (length rg))).
      unfold AMDGV_EVENT_QUEUE_ENTRY_NUM. lia.
Qed.

(** Rewriting a pending slot. *)
Lemma ring_update rg s s' q k x y : ring_rep rg s -> event_queue s = Some q -> rg !! k = Some x ->
  event_queue s' = Some (<[Z.to_nat (u8 (queue_rptr s + Z.of_nat k)) := mk_wrapper y.2 (Some y.1)]> q) ->
  queue_rptr s' = queue_rptr s -> queue_wptr s' = queue_wptr s -> ring_rep (<[k := y]> rg) s'.
Proof.
  intros (q' & Eq & Hl & Hr & Hn & Hw & Hs) Eq' Hx E1 E2 E3. rewrite Eq in Eq'. injection Eq' as ->.
  eexists. rewrite E2, E3, (length_insert rg). split_and!; [done|by rewrite length_insert|lia|lia|done|done|].
  intros j z Hj. apply list_lookup_insert_Some in Hj as [(-> & -> & Hj)|[Hne Hj]].
  - apply list_lookup_insert_eq. rewrite Hl. pose proof (u8_range (queue_rptr s + Z.of_nat j)).
    unfold AMDGV_EVENT_QUEUE_ENTRY_NUM. lia.
  - rewrite <- (Hs j z Hj). apply list_lookup_insert_ne. apply lookup_lt_Some in Hj, Hx. intros E.
    pose proof (u8_range (queue_rptr s + Z.of_nat k)). pose proof (u8_range (queue_rptr s + Z.of_nat j)).
    assert (u8 (queue_rptr s + Z.of_nat k) = u8 (queue_rptr s + Z.of_nat j)) as E' by lia. apply u8_inj in E'; lia.
Qed.

(** The write index of a ring with no free slot. *)
Lemma ring_full rg s : ring_rep rg s -> (u8 (queue_wptr s + 1) =? queue_rptr s) = (255 <=? Z.of_nat (length rg)).
Proof.
  intros (q & Eq & Hl & Hr & Hn & Hw & Hs). rewrite Hw, u8_add. destruct (Z.leb_spec 255 (Z.of_nat (length rg))).
  - apply Z.eqb_eq. replace (Z.of_nat (length rg)) with 255 by lia. unfold wrap. change (2 ^ 8) with 256.
    rewrite <- Z.add_mod_idemp_r by done. rewrite Z.mod_same, Z.add_0_r by done. by apply Z.mod_small.
  - apply Z.eqb_neq. intros E. assert (u8 (queue_rptr s + (Z.of_nat (length rg) + 1)) = u8 (queue_rptr s + 0)) as E'.
    { rewrite Z.add_0_r, (u8_small (queue_rptr s)) by done. exact E. }
    apply u8_inj in E'; lia.
Qed.

(** ** The lists *)

Lemma shape_lists i base rg pop evs out s : (i < AMDGV_SCHED_EVENT_LIST_MAX)%nat -> shape base rg pop evs out s ->
  lists (lnk s) ((EventList i, ptr_nodes (evs !!! i)) :: popped pop ++ others i evs).
Proof.
  intros Hi Hs. eapply lists_perm; [|apply Hs]. by rewrite (heads_split i), <- Permutation_middle.
Qed.

Lemma shape_lists_insert i l base rg pop evs out s h : (i < AMDGV_SCHED_EVENT_LIST_MAX)%nat ->
  shape base rg pop evs out s -> lists h ((EventList i, ptr_nodes l) :: popped pop ++ others i evs) ->
  lists h (popped pop ++ heads (<[i := l]> evs)).
Proof.
  intros Hi Hs Hl. eapply lists_perm; [|exact Hl]. pose proof (sh_six _ _ _ _ _ _ Hs) as H6.
  by rewrite heads_insert, <- Permutation_middle by lia.
Qed.

Lemma shape_dlist i base rg pop evs out s : (i < AMDGV_SCHED_EVENT_LIST_MAX)%nat -> shape base rg pop evs out s ->
  dlist (lnk s) (EventList i) (ptr_nodes (evs !!! i)).
Proof. intros Hi Hs. eapply lists_head. by eapply shape_lists. Qed.

(** Only these fields matter. *)
Lemma shape_frame base rg pop evs out s s' : shape base rg pop evs out s -> event_queue s' = event_queue s ->
  queue_rptr s' = queue_rptr s -> queue_wptr s' = queue_wptr s -> lnk s' = lnk s -> heap s' = heap s ->
  fresh s' = fresh s -> os_heap (os s') = os_heap (os s) -> shape base rg pop evs out s'.
Proof.
  intros Hs E1 E2 E3 E4 E5 E6 E7. split; [by eapply ring_frame; [apply Hs|..]|rewrite E4; apply Hs|apply Hs|].
  by eapply hr_frame; [apply Hs|..].
Qed.

(** The entry of a node that is on some list. *)
Lemma shape_nodes p base rg pop evs out s : shape base rg pop evs out s -> EventEntry p ∈ nodes (popped pop ++ heads evs) ->
  exists x, p = x.1 /\ x ∈ default [] pop ++ concat evs.
Proof.
  intros Hs Hn. unfold nodes in Hn. rewrite flat_map_app in Hn. apply elem_of_app in Hn as [Hn|Hn].
  - destruct pop as [pop|]; cbn in Hn; [|set_solver]. rewrite app_nil_r in Hn.
    apply elem_of_cons in Hn as [?|Hn]; [done|]. apply list_elem_of_fmap in Hn as (x & E & Hx). injection E as ->.
    exists x. split; [done|]. cbn. set_solver.
  - apply heads_nodes in Hn as [[i ?]|(x & E & Hx)]; [done| |apply Hs]. injection E as ->. exists x. set_solver.
Qed.

Lemma shape_fresh_node x ws cs base rg pop evs out s : shape base rg pop evs out s -> heap_rep base cs s ->
  cs ≡ₚ x :: ws ++ filled (default [] pop ++ concat evs) -> EventEntry x.1 ∉ nodes (popped pop ++ heads evs).
Proof.
  intros Hs Hr HP Hn. eapply shape_nodes in Hn as (y & E & Hy); [|done].
  pose proof (hr_nodup _ _ _ Hr) as Hnd. rewrite HP in Hnd. cbn in Hnd. apply NoDup_cons in Hnd as [Hx _].
  apply Hx. rewrite E, fmap_app, elem_of_app. right. unfold filled. rewrite <- list_fmap_compose.
  apply list_elem_of_fmap. exists y. split; [done|]. set_solver.
Qed.

(** Taking an entry off a list. *)
Lemma wp_take_off i x l1 l2 base rg pop evs out s (Q : unit -> adapter -> Prop) : shape base rg pop evs out s ->
  (i < AMDGV_SCHED_EVENT_LIST_MAX)%nat -> evs !!! i = l1 ++ x :: l2 ->
  (forall h, lists h (popped pop ++ heads (<[i := l1 ++ l2]> evs)) -> Q tt (s <| lnk := h |>)) ->
  wp (link (amdgv_list_del (EventEntry x.1))) Q s.
Proof.
  intros Hs Hi E HQ. pose proof (shape_lists i _ _ _ _ _ _ Hi Hs) as Hl. rewrite E in Hl. unfold ptr_nodes in Hl.
  rewrite fmap_app in Hl. cbn in Hl. destruct (lists_del _ _ _ _ _ _ Hl) as (h & Hdel & Hl').
  eapply wp_eq_link; [exact Hdel|]. apply HQ. eapply shape_lists_insert; [done..|]. unfold ptr_nodes. by rewrite fmap_app.
Qed.

Lemma wp_remove_older vf i x l1 l2 base rg pop evs out s (Q : unit -> adapter -> Prop) : shape base rg pop evs out s ->
  (i < AMDGV_SCHED_EVENT_LIST_MAX)%nat -> evs !!! i = l1 ++ x :: l2 ->
  (forall s', shape base rg pop (<[i := l1 ++ (if idx_vf x.2 =? vf then l2 else x :: l2)]> evs) out s' -> env s' = env s -> Q tt s') ->
  wp (remove_older vf (EventEntry x.1)) Q s.
Proof.
  intros Hs Hi E HQ. pose proof (sh_six _ _ _ _ _ _ Hs) as H6. unfold remove_older. apply wp_bind, wp_ret, wp_bind.
  eapply wp_event_at.
  { eapply hr_lookup; [apply Hs|]. eapply cells_elem_evs; [|rewrite H6; exact Hi]. rewrite E. set_solver. }
  apply wp_when; intros Hvf; rewrite Hvf in HQ.
  - apply wp_bind. eapply wp_take_off; [exact Hs|done|exact E|]. intros h Hh.
    pose proof (sh_heap _ _ _ _ _ _ Hs) as Hr. eapply hr_perm in Hr; [|by apply (cells_of_list x i l1 l2); [lia|]].
    eapply wp_eq_free; [eapply hr_frame; [exact Hr|done..]|]. intros s' -> Hr'. apply HQ; [|done].
    split; [|done|by rewrite length_insert|done]. eapply ring_frame; [apply Hs|done..].
  - apply HQ; [|done]. rewrite <- E. rewrite list_insert_id; [done|]. apply list_lookup_lookup_total_lt. lia.
Qed.

Lemma shape_fuel i base rg pop evs out s : shape base rg pop evs out s -> (i < AMDGV_SCHED_EVENT_LIST_MAX)%nat ->
  (length (ptr_nodes (evs !!! i)) <= list_fuel s)%nat.
Proof.
  intros Hs Hi. pose proof (hr_length _ _ _ (sh_heap _ _ _ _ _ _ Hs)) as Hl. unfold cells, filled in Hl.
  unfold ptr_nodes, list_fuel. rewrite !length_app, !length_fmap, !length_app in *.
  rewrite (concat_split _ i), length_app in Hl; [lia|]. by rewrite (sh_six _ _ _ _ _ _ Hs).
Qed.

(** The safe loop over list [i]: its body may take its entry off the list or
    change its event; [f] says what is left of it. *)
Lemma wp_each_entry {A} (obs : adapter -> A) i (f : item -> list item) body base rg pop evs out s : shape base rg pop evs out s ->
  (i < AMDGV_SCHED_EVENT_LIST_MAX)%nat ->
  (forall l1 x l2 s', shape base rg pop (<[i := l1 ++ x :: l2]> evs) out s' -> obs s' = obs s ->
     wp (body (EventEntry x.1)) (fun _ s2 => shape base rg pop (<[i := (l1 ++ f x) ++ l2]> evs) out s2 /\ obs s2 = obs s') s') ->
  wp (each_entry_safe (EventList i) body)
    (fun _ s' => shape base rg pop (<[i := evs !!! i ≫= f]> evs) out s' /\ obs s' = obs s) s.
Proof.
  intros Hs Hi Hb. pose proof (sh_six _ _ _ _ _ _ Hs) as H6. unfold each_entry_safe. apply wp_bind, wp_gets.
  pose (I := fun (xs : list node) s' => exists l1 l2, xs = ptr_nodes l2 /\ evs !!! i = l1 ++ l2 /\
    shape base rg pop (<[i := (l1 ≫= f) ++ l2]> evs) out s' /\ obs s' = obs s).
  assert (forall l1 l2 s', shape base rg pop (<[i := l1 ++ l2]> evs) out s' ->
    dlist (lnk s') (EventList i) (ptr_nodes l1 ++ ptr_nodes l2)) as Hdl.
  { intros l1 l2 s' Hs'. pose proof (shape_dlist i _ _ _ _ _ _ Hi Hs') as Hd.
    rewrite list_lookup_total_insert, decide_True in Hd by (split; [done|lia]). unfold ptr_nodes in Hd. by rewrite fmap_app in Hd. }
  eapply wp_mono; [apply (wp_each_node_safe lnk I _ _ _ (ptr_nodes (evs !!! i)))|].
  - intros y ys s' (l1 & [|x l2] & E & _ & Hs' & _); [done|]. injection E as -> ->. split; [done|].
    specialize (Hdl ((l1 ≫= f) ++ [x]) l2 s'). rewrite <- app_assoc in Hdl. apply dlist_after in Hdl; [|done].
    assert (ptr_nodes ((l1 ≫= f) ++ [x]) = ptr_nodes (l1 ≫= f) ++ [EventEntry x.1]) as Ep by (unfold ptr_nodes; by rewrite fmap_app).
    rewrite Ep, before_snoc in Hdl. rewrite Hdl. by destruct l2.
  - intros s' (l1 & l2 & E & _ & Hs' & _). apply Hdl in Hs' as [Hc _].
    eexists. exact (chain_next _ _ _ _ Hc).
  - intros y ys s' (l1 & [|x l2] & E & El & Hs' & Henv); [done|]. injection E as -> ->.
    eapply wp_mono; [by apply Hb|]. intros u s2 [Hs2 He]. exists (l1 ++ [x]), l2. split_and!; [done|..].
    + by rewrite <- app_assoc.
    + rewrite bind_app. cbn. by rewrite app_nil_r.
    + by rewrite He.
  - exists [], (evs !!! i). split_and!; [done|done| |done]. cbn. rewrite list_insert_id; [done|].
    apply list_lookup_lookup_total_lt. lia.
  - by eapply shape_fuel.
  - pose proof (shape_dlist i _ _ _ _ _ _ Hi Hs) as [Hc _]. rewrite (chain_next _ _ _ _ Hc). by destruct (evs !!! i).
  - intros u s' (l1 & l2 & E & El & Hs' & He). destruct l2; [|done]. rewrite !app_nil_r in *. by rewrite <- El in Hs'.
Qed.

(** ** Dropping the older events of a VF *)

Definition of_other_vf (vf : Z) (l : list item) : list item := filter (fun y : item => idx_vf y.2 <> vf) l.

Lemma bind_other_vf vf l : (l ≫= fun y : item => if idx_vf y.2 =? vf then [] else [y]) = of_other_vf vf l.
Proof.
  unfold of_other_vf. induction l as [|y l IH]; [done|]. cbn [mbind list_bind]. rewrite filter_cons, <- IH.
  destruct (Z.eqb_spec (idx_vf y.2) vf); [by rewrite decide_False by tauto|by rewrite decide_True].
Qed.

Lemma insert_at i (l : list item) evs : (i < length evs)%nat -> (<[i := l]> evs) !!! i = l.
Proof. intros. by rewrite list_lookup_total_insert, decide_True. Qed.

Lemma wp_remove_dup i x l base rg evs out s : shape base rg (Some l) evs out s -> (i < AMDGV_SCHED_EVENT_LIST_MAX)%nat ->
  x ∈ l -> wp (amdgv_sched_remove_duplicated_event i x.1)
    (fun _ s' => shape base rg (Some l) (<[i := of_other_vf (idx_vf x.2) (evs !!! i)]> evs) out s' /\ env s' = env s) s.
Proof.
  intros Hs Hi Hx. pose proof (sh_six _ _ _ _ _ _ Hs) as H6.
  eapply wp_mono; [apply (wp_each_entry env i (fun y => if idx_vf y.2 =? idx_vf x.2 then [] else [y])); [exact Hs|done|]|].
  - intros l1 y l2 s' Hs' He. apply wp_bind. eapply wp_event_at.
    { eapply hr_lookup; [apply Hs'|]. by apply cells_elem_pop. }
    eapply wp_remove_older; [exact Hs'|done|apply insert_at; lia|]. intros s2 Hs2 He2. split; [|done].
    rewrite list_insert_insert_eq in Hs2. rewrite <- app_assoc. by destruct (idx_vf y.2 =? idx_vf x.2).
  - intros u s' [Hs' He]. split; [|done]. by rewrite <- bind_other_vf.
Qed.

(** ** Marking events as finished *)

Definition mark (eid : Z) (x : item) : item :=
  (x.1, if id x.2 =? eid then (x.2 <| status := AMDGV_EVENT_STATUS_FINISHED |>) else x.2).

Lemma bind_mark eid l : (l ≫= fun y => [mark eid y]) = mark eid <$> l.
Proof. induction l as [|y l IH]; [done|]. cbn. by rewrite <- IH. Qed.

(** The environment with the cursor. *)
Definition env_cur (s : adapter) : _ := (env s, curr_event_list_idx s, next_event s).

Lemma wp_finish_event i eid base rg pop evs out s : shape base rg pop evs out s -> (i < AMDGV_SCHED_EVENT_LIST_MAX)%nat ->
  wp (amdgv_sched_finish_event i eid)
    (fun _ s' => shape base rg pop (<[i := mark eid <$> evs !!! i]> evs) out s' /\ env_cur s' = env_cur s) s.
Proof.
  intros Hs Hi. pose proof (sh_six _ _ _ _ _ _ Hs) as H6.
  eapply wp_mono; [apply (wp_each_entry env_cur i (fun y => [mark eid y])); [exact Hs|done|]|].
  - intros l1 y l2 s' Hs' He. unfold finish_entry. apply wp_bind, wp_ret, wp_bind.
    pose proof (insert_at i (l1 ++ y :: l2) evs ltac:(lia)) as Ei. rewrite <- app_assoc. cbn [app].
    eapply wp_event_at.
    { eapply hr_lookup; [apply Hs'|]. eapply cells_elem_evs; [rewrite Ei; set_solver|rewrite length_insert; lia]. }
    unfold mark. apply wp_when; intros E; rewrite E; [|by destruct y].
    pose proof (sh_heap _ _ _ _ _ _ Hs') as Hr. eapply hr_perm in Hr; [|apply (cells_list y i l1 l2); lia].
    eapply wp_put_event; [exact Hr|]. intros s2 -> Hr2. split; [|done]. split.
    + eapply ring_frame; [apply Hs'|done..].
    + rewrite <- (list_insert_insert_eq evs i _ (l1 ++ y :: l2)). eapply shape_lists_insert; [done|exact Hs'|].
      pose proof (shape_lists i _ _ _ _ _ _ Hi Hs') as Hl. rewrite Ei in Hl. unfold ptr_nodes in *.
      rewrite fmap_app in *. exact Hl.
    + by rewrite length_insert.
    + eapply hr_perm; [|exact Hr2]. symmetry. apply (cells_list (y.1, _) i l1 l2). lia.
  - intros u s' [Hs' He]. split; [|done]. by rewrite <- bind_mark.
Qed.
