(* ===== verification/EventQOps.v ===== *)
(** * The operations of the event queue

    An operation on the abstract queue of [EventQInv] for each function of
    [EventQ], and the proof that the function implements it. *)
From S2P Require Import Prelude Oss Api Dlist ListScan EventQ EventQInv EventQRun.
Import Dlist ListScan EventQ.
#[local] Open Scope Z_scope.
#[local] Set Warnings "-clear-no-such-hyp".

(** ** The abstract operations *)

Definition known (x : item) : Prop := is_Some (event_list_of (id x.2)).
#[export] Instance known_dec x : Decision (known x) := _.

(** A request goes to the end of its list; some take the older requests of
    their VF off that list first. *)
Definition dispatch (evs : list (list item)) (x : item) : list (list item) :=
  match event_list_of (id x.2) with
  | Some i => <[i := (if drops_older (id x.2) then of_other_vf (idx_vf x.2) (evs !!! i) else evs !!! i) ++ [x]]> evs
  | None => evs
  end.
Definition absorb (q : queue) : queue := mk_queue [] (foldl dispatch (evs q) (ring q)) None (out q).
Definition refresh (q : queue) : queue := match ring q with [] => q | _ => absorb q end.

Definition nonempty_from (evs : list (list item)) (i : nat) : option nat :=
  List.find (fun j => negb (bool_decide (evs !!! j = []))) (lists_from i).
Definition start_of (evs : list (list item)) (i : nat) : option (nat * nat) := (fun j => (j, 0%nat)) <$> nonempty_from evs i.

(** Taking the item at [c]; the cursor moves to the item after it. *)
Definition take_at (q : queue) (c : nat * nat) : option item * queue :=
  let l := delete c.2 (evs q !!! c.1) in
  let es := <[c.1 := l]> (evs q) in
  match at_cursor (evs q) c with
  | Some x => (Some x, mk_queue (ring q) es (if (c.2 <? length l)%nat then Some c else start_of es (S c.1)) (x :: out q))
  | None => (None, q)
  end.
Definition pick (q : queue) : option item * queue :=
  let q := refresh q in
  match cursor q with
  | Some c => take_at q c
  | None => match start_of (evs q) 0 with Some c => take_at q c | None => (None, q) end
  end.

Definition remove_out (p : nat) (l : list item) : list item := filter (fun x : item => x.1 <> p) l.
Definition give_back (q : queue) (p : nat) : queue := mk_queue (ring q) (evs q) (cursor q) (remove_out p (out q)).
Definition push_back (q : queue) (x : item) : queue :=
  match push_back_list (id x.2) with
  | Some i => mk_queue (ring q) (<[i := x :: evs q !!! i]> (evs q)) (Some (i, 0%nat)) (remove_out x.1 (out q))
  | None => give_back q x.1
  end.
Definition mark_stale (q : queue) (x : nat * Z) : queue :=
  mk_queue (mark x.2 <$> ring q) (<[x.1 := mark x.2 <$> evs q !!! x.1]> (evs q)) (cursor q) (out q).

(** Unknown ids do no harm unless live migration is on. *)
Definition safe_ids (rg : list item) (s : adapter) : Prop := Forall known rg \/ flag_live_migration s = false.

(** ** Popping the ring *)

Lemma list_below i eid : event_list_of eid = Some i -> (i < AMDGV_SCHED_EVENT_LIST_MAX)%nat.
Proof. unfold event_list_of, AMDGV_SCHED_EVENT_LIST_MAX. repeat case_match; intros; simplify_eq; lia. Qed.

Lemma head_fresh base rg evs out s : shape base rg None evs out s -> QueueEvents ∉ nodes (heads evs).
Proof. intros Hs Hn. apply heads_nodes in Hn as [[i ?]|(x & ? & _)]; [done..|apply Hs]. Qed.

Lemma waiting_app l1 l2 : waiting (l1 ++ l2) = waiting l1 ++ waiting l2.
Proof. apply fmap_app. Qed.
Lemma filled_app l1 l2 : filled (l1 ++ l2) = filled l1 ++ filled l2.
Proof. apply fmap_app. Qed.
Lemma cells_split rg pop evs out :
  cells rg pop evs out ≡ₚ (waiting rg ++ filled out) ++ filled (default [] pop ++ concat evs).
Proof. unfold cells. rewrite (app_assoc (default [] pop)), filled_app. solve_Permutation. Qed.

Lemma wp_pop_slot base x rg l evs out s : shape base (x :: rg) (Some l) evs out s ->
  wp (pop_slot (queue_rptr s)) (fun _ s' => shape base rg (Some (l ++ [x])) evs out s' /\ env s' = env s /\
    queue_rptr s' = u8 (queue_rptr s + 1)) s.
Proof.
  intros Hs. pose proof (sh_ring _ _ _ _ _ _ Hs) as Hr. destruct (ring_slot _ _ 0 x Hr eq_refl) as (q & Eq & Ew).
  assert (0 <= queue_rptr s < 256) as Hrp by by destruct Hr as (? & _ & _ & ? & _).
  rewrite Z.add_0_r, u8_small in Ew by done.
  unfold pop_slot. apply wp_bind. eapply wp_slot; [done..|]. apply wp_bind. eapply wp_upd_slot; [done..|].
  apply wp_bind. eapply wp_require; [done|]. apply wp_bind.
  pose proof (sh_heap _ _ _ _ _ _ Hs) as Hh. eapply hr_perm in Hh; [|apply cells_ring].
  eapply wp_put_event; [eapply hr_frame; [exact Hh|done..]|]. intros s2 -> Hh2.
  apply wp_bind. eapply wp_eq_link; [done|]. apply wp_bind.
  pose proof (sh_lists _ _ _ _ _ _ Hs) as Hl.
  assert (EventEntry x.1 ∉ nodes (popped (Some l) ++ heads evs)) as Hfresh.
  { eapply (shape_fresh_node (x.1, None)); [exact Hs|exact Hh|]. by rewrite cells_split. }
  pose proof (lists_init _ _ _ Hl Hfresh) as Hl1. apply lists_tail in Hl1.
  destruct (lists_add_tail _ _ _ _ (EventEntry x.1) Hl1 Hfresh) as (h & Eh & Hl2).
  eapply wp_eq_link; [exact Eh|]. apply wp_modify. split_and!; [|done|done]. split.
  - eapply ring_pop; [exact Hr|exact Eq|done..].
  - cbn [popped]. unfold ptr_nodes in *. rewrite fmap_app. exact Hl2.
  - apply Hs.
  - eapply (hr_perm _ ((x.1, Some x.2) :: cells rg (Some l) evs out)).
    { rewrite <- (app_nil_r l) at 1. symmetry. apply cells_pop. }
    eapply hr_frame; [exact Hh2|done..].
Qed.

Lemma wp_pop_event_list base rg evs out s : shape base rg None evs out s ->
  wp amdgv_sched_event_queue_pop_event_list (fun _ s' => shape base [] (Some rg) evs out s' /\ env s' = env s) s.
Proof.
  intros Hs. unfold amdgv_sched_event_queue_pop_event_list. apply wp_bind. eapply wp_eq_link; [done|].
  set (s1 := s <| lnk := _ |>).
  assert (shape base rg (Some []) evs out s1) as Hs1.
  { split; [eapply ring_frame; [apply Hs|done..]| |apply Hs|eapply hr_frame; [apply Hs|done..]].
    apply (lists_init _ QueueEvents); [exact (sh_lists _ _ _ _ _ _ Hs)|]. by eapply head_fresh. }
  pose proof (sh_ring _ _ _ _ _ _ Hs1) as Hr.
  eapply wp_mono; [apply (wp_ring_loop (fun k s' => shape base (drop k rg) (Some (take k rg)) evs out s' /\ env s' = env s /\
    queue_rptr s' = u8 (queue_rptr s1 + Z.of_nat k))); [exact Hr|..]|].
  - intros k s' Hk (Hs' & He & Hp). destruct (lookup_lt_is_Some_2 _ _ Hk) as [x Hx].
    rewrite (drop_S _ _ _ Hx) in Hs'. rewrite <- Hp. eapply wp_mono; [by apply wp_pop_slot|].
    intros u s2 (Hs2 & He2 & Hp2). rewrite <- (take_S_r _ _ _ Hx) in Hs2. split_and!; [done|by rewrite He2|].
    rewrite Hp2, Hp, u8_add. f_equal. lia.
  - split_and!; [done|done|]. destruct Hr as (? & _ & _ & ? & _). by rewrite Z.add_0_r, u8_small.
  - cbn beta. intros u s' (Hs' & He & _). by rewrite drop_all, firstn_all in Hs'.
Qed.

(** ** Arranging *)

(** The head of the popped list to the end of list [i]. *)
Lemma wp_move_tail i x l base rg evs out s : shape base rg (Some (x :: l)) evs out s -> (i < AMDGV_SCHED_EVENT_LIST_MAX)%nat ->
  wp (link (amdgv_list_move_tail (EventEntry x.1) (EventList i)))
    (fun _ s' => shape base rg (Some l) (<[i := evs !!! i ++ [x]]> evs) out s' /\ env s' = env s) s.
Proof.
  intros Hs Hi. pose proof (sh_six _ _ _ _ _ _ Hs) as H6. pose proof (shape_lists i _ _ _ _ _ _ Hi Hs) as Hl.
  eapply lists_perm in Hl; [|apply perm_swap]. cbn [app] in Hl.
  destruct (lists_move_tail _ _ [] _ _ _ _ _ Hl) as (h & E & Hl'). eapply wp_eq_link; [exact E|]. split; [|done]. split.
  - eapply ring_frame; [apply Hs|done..].
  - cbn [popped app lnk]. eapply (lists_perm _ ((QueueEvents, ptr_nodes l) :: (EventList i, ptr_nodes (evs !!! i ++ [x])) :: others i evs)).
    { by rewrite (heads_insert i) by lia. }
    unfold ptr_nodes. rewrite fmap_app. exact Hl'.
  - by rewrite length_insert.
  - eapply hr_perm; [|eapply hr_frame; [apply Hs|done..]]. rewrite (cells_pop x rg [] l). rewrite (cells_list x i _ []) by lia.
    cbn [app]. rewrite app_nil_r, list_insert_id; [done|]. apply list_lookup_lookup_total_lt. lia.
Qed.

(** The head of the popped list freed. *)
Lemma wp_drop_head x l base rg evs out s : shape base rg (Some (x :: l)) evs out s ->
  wp (_ ← link (amdgv_list_del (EventEntry x.1)); free_entry x.1)
    (fun _ s' => shape base rg (Some l) evs out s' /\ env s' = env s) s.
Proof.
  intros Hs. pose proof (sh_lists _ _ _ _ _ _ Hs) as Hl. cbn [popped app] in Hl.
  destruct (lists_del _ _ [] _ _ _ Hl) as (h & E & Hl'). apply wp_bind. eapply wp_eq_link; [exact E|].
  pose proof (sh_heap _ _ _ _ _ _ Hs) as Hr. eapply hr_perm in Hr; [|apply (cells_pop x rg [] l)].
  eapply wp_eq_free; [eapply hr_frame; [exact Hr|done..]|]. intros s' -> Hr'. split; [|done].
  split; [eapply ring_frame; [apply Hs|done..]|exact Hl'|apply Hs|done].
Qed.

Lemma dispatch_six evs x : length (dispatch evs x) = length evs.
Proof. unfold dispatch. case_match; by rewrite ?length_insert. Qed.

Lemma shape_event i x base rg pop evs out s : shape base rg pop evs out s -> (i < AMDGV_SCHED_EVENT_LIST_MAX)%nat ->
  x ∈ evs !!! i -> heap s !! x.1 = Some (Some x.2).
Proof.
  intros Hs Hi Hx. eapply hr_lookup; [apply Hs|]. eapply cells_elem_evs; [exact Hx|]. by rewrite (sh_six _ _ _ _ _ _ Hs).
Qed.

Lemma wp_arrange_entry x l base rg evs out s : shape base rg (Some (x :: l)) evs out s ->
  known x \/ flag_live_migration s = false ->
  wp (arrange_entry (EventEntry x.1)) (fun _ s' => shape base rg (Some l) (dispatch evs x) out s' /\ env s' = env s) s.
Proof.
  intros Hs Hok. unfold arrange_entry. apply wp_bind, wp_ret, wp_bind. eapply wp_event_at.
  { eapply hr_lookup; [apply Hs|]. by apply cells_elem_pop, list_elem_of_here. }
  apply wp_bind. unfold dispatch, known in *. destruct (event_list_of (id x.2)) as [i|] eqn:Ei.
  - pose proof (list_below _ _ Ei) as Hi. pose proof (sh_six _ _ _ _ _ _ Hs) as H6.
    enough (wp (_ ← when (drops_older (id x.2)) (amdgv_sched_remove_duplicated_event i x.1);
      link (amdgv_list_move_tail (EventEntry x.1) (EventList i))) (fun _ s' => shape base rg (Some l)
        (<[i := (if drops_older (id x.2) then of_other_vf (idx_vf x.2) (evs !!! i) else evs !!! i) ++ [x]]> evs) out s'
        /\ env s' = env s) s) as H.
    { eapply wp_mono; [exact H|]. intros u s' [Hs' He]. apply wp_bind, wp_gets, wp_when; intros; [|done].
      apply wp_bind. eapply wp_event_at; [eapply (shape_event i x); [exact Hs'|done|]|].
      - rewrite insert_at by lia. set_solver.
      - split; [|done]. by eapply shape_frame; [exact Hs'|..]. }
    apply wp_bind, wp_when; intros Hd; rewrite Hd.
    + eapply wp_mono; [by apply wp_remove_dup, list_elem_of_here|]. intros u s' [Hs' He].
      eapply wp_mono; [by apply wp_move_tail|]. intros v s2 [Hs2 He2]. rewrite insert_at in Hs2 by lia.
      rewrite list_insert_insert_eq in Hs2. split; [done|by rewrite He2].
    + by apply wp_move_tail.
  - eapply wp_mono; [by apply wp_drop_head|]. intros u s' [Hs' He]. apply wp_bind, wp_gets.
    assert (flag_live_migration s' = false) as ->; [|by apply wp_ret].
    destruct Hok as [[? ?]|Hf]; [done|]. unfold env in He. congruence.
Qed.

Lemma fold_dispatch_six l : forall evs, length (foldl dispatch evs l) = length evs.
Proof. induction l as [|x l IH]; intros evs; [done|]. cbn. by rewrite IH, dispatch_six. Qed.

Lemma wp_arrange l base evs out s : shape base [] (Some l) evs out s -> safe_ids l s ->
  wp amdgv_sched_event_arrange_event_list
    (fun _ s' => repr base (mk_queue [] (foldl dispatch evs l) None out) s' /\ env s' = env s) s.
Proof.
  intros Hs Hok. unfold amdgv_sched_event_arrange_event_list, each_entry_safe. apply wp_bind, wp_bind, wp_gets.
  pose (I := fun (xs : list node) s' => exists l1 l2, xs = ptr_nodes l2 /\ l = l1 ++ l2 /\
    shape base [] (Some l2) (foldl dispatch evs l1) out s' /\ env s' = env s).
  assert (forall l2 evs s', shape base [] (Some l2) evs out s' -> dlist (lnk s') QueueEvents (ptr_nodes l2)) as Hdl.
  { intros l2 es s' Hs'. exact (lists_head _ _ _ _ (sh_lists _ _ _ _ _ _ Hs')). }
  eapply wp_mono; [apply (wp_each_node_safe lnk I _ _ _ (ptr_nodes l))|].
  - intros y ys s' (l1 & [|x l2] & E & _ & Hs' & _); [done|]. injection E as -> ->. split; [done|].
    apply Hdl in Hs' as [(_ & _ & Hc) _]. rewrite (chain_next _ _ _ _ Hc). by destruct l2.
  - intros s' (l1 & l2 & E & _ & Hs' & _). apply Hdl in Hs' as [Hc _]. eexists. exact (chain_next _ _ _ _ Hc).
  - intros y ys s' (l1 & [|x l2] & E & El & Hs' & He); [done|]. injection E as -> ->.
    eapply wp_mono; [apply wp_arrange_entry; [exact Hs'|]|].
    { destruct Hok as [Hok|Hok]; [left|right; unfold env in He; congruence].
      rewrite El, Forall_app, Forall_cons in Hok. tauto. }
    intros u s2 [Hs2 He2]. exists (l1 ++ [x]), l2. split_and!; [done|by rewrite <- app_assoc| |by rewrite He2].
    by rewrite foldl_snoc.
  - exists [], l. by split_and!.
  - pose proof (hr_length _ _ _ (sh_heap _ _ _ _ _ _ Hs)) as Hlen. unfold cells, filled in Hlen. cbn in Hlen.
    unfold ptr_nodes, list_fuel. rewrite !length_fmap, !length_app in *. lia.
  - pose proof (Hdl _ _ _ Hs) as [Hc _]. rewrite (chain_next _ _ _ _ Hc). by destruct l.
  - intros u s' (l1 & l2 & E & El & Hs' & He). destruct l2; [|done]. rewrite app_nil_r in El. subst l1.
    destruct (lists_del_head _ _ _ (sh_lists _ _ _ _ _ _ Hs')) as (h & Eh & Hh).
    apply wp_bind. eapply wp_eq_link; [exact Eh|]. apply wp_modify. split; [|done]. split; [|done].
    split; [eapply ring_frame; [apply Hs'|done..]|exact Hh|apply Hs'|eapply hr_frame; [apply Hs'|done..]].
Qed.

(** ** Taking the next event *)

Lemma ring_empty rg s : ring_rep rg s -> (queue_rptr s =? queue_wptr s) = bool_decide (rg = []).
Proof.
  intros (q & _ & _ & Hr & Hn & Hw & _). rewrite Hw. case_bool_decide as E.
  - rewrite E. cbn. rewrite Z.add_0_r, u8_small by done. apply Z.eqb_refl.
  - apply Z.eqb_neq. intros E'. destruct rg; [done|]. cbn [length] in *.
    assert (u8 (queue_rptr s + 0) = u8 (queue_rptr s + Z.of_nat (S (length rg)))) as E2 by by rewrite <- E', Z.add_0_r, u8_small.
    apply u8_inj in E2; lia.
Qed.

Lemma wp_refresh base q s : repr base q s -> safe_ids (ring q) s ->
  wp (b ← amdgv_sched_event_queue_empty; when (negb b) (_ ← amdgv_sched_event_queue_pop_event_list; amdgv_sched_event_arrange_event_list))
    (fun _ s' => repr base (refresh q) s' /\ env s' = env s) s.
Proof.
  intros [Hs Hc] Hok. apply wp_bind, wp_gets. rewrite (ring_empty _ _ (sh_ring _ _ _ _ _ _ Hs)). unfold refresh.
  destruct (ring q) as [|x rg] eqn:Eq; cbn [bool_decide].
  - rewrite bool_decide_true by done. apply wp_ret. split; [|done]. split; [by rewrite Eq|done].
  - rewrite bool_decide_false by done. apply wp_bind. eapply wp_mono; [by apply wp_pop_event_list|]. intros u s' [Hs' He].
    eapply wp_mono; [apply wp_arrange; [exact Hs'|]|].
    { destruct Hok as [?|Hf]; [by left|right]. unfold env in He. congruence. }
    intros v s2 [Hr He2]. rewrite <- Eq in Hr. by rewrite He2.
Qed.

Lemma wp_first_nonempty ls base rg pop evs out s (Q : option nat -> adapter -> Prop) : shape base rg pop evs out s ->
  Forall (fun i => i < AMDGV_SCHED_EVENT_LIST_MAX)%nat ls ->
  Q (List.find (fun j => negb (bool_decide (evs !!! j = []))) ls) s -> wp (first_nonempty ls) Q s.
Proof.
  intros Hs Hls HQ. induction ls as [|i ls IH]; [done|]. apply Forall_cons in Hls as [Hi Hls].
  apply wp_bind, wp_gets. pose proof (shape_dlist i _ _ _ _ _ _ Hi Hs) as [Hc _].
  unfold amdgv_list_empty. rewrite (chain_next _ _ _ _ Hc). cbn [List.find] in HQ.
  destruct (evs !!! i) as [|x l]; cbn.
  - rewrite bool_decide_true by done. apply IH; [done|]. by rewrite bool_decide_true in HQ.
  - rewrite bool_decide_false by done. apply wp_ret. by rewrite bool_decide_false in HQ.
Qed.

Lemma nonempty_from_spec evs i j : nonempty_from evs i = Some j ->
  (i <= j < AMDGV_SCHED_EVENT_LIST_MAX)%nat /\ exists x l, evs !!! j = x :: l.
Proof.
  intros E. apply List.find_some in E as [Hin Hne]. rewrite <- list_elem_of_In in Hin. apply elem_of_seq in Hin.
  split; [unfold AMDGV_SCHED_EVENT_LIST_MAX in *; lia|]. apply negb_true_iff, bool_decide_eq_false in Hne.
  destruct (evs !!! j); [done|eauto].
Qed.

Lemma nonempty_from_insert evs i j l : (i < j)%nat -> nonempty_from (<[i := l]> evs) j = nonempty_from evs j.
Proof.
  intros Hij. unfold nonempty_from. assert (Forall (fun k => i <> k) (lists_from j)) as Hf.
  { apply Forall_forall. intros k Hk%elem_of_seq. lia. }
  induction Hf as [|k ks Hk _ IH]; [done|]. cbn. rewrite IH, list_lookup_total_insert_ne by done. done.
Qed.

Lemma lists_from_below i : Forall (fun j => j < AMDGV_SCHED_EVENT_LIST_MAX)%nat (lists_from i).
Proof. apply Forall_forall. intros j Hj%elem_of_seq. unfold AMDGV_SCHED_EVENT_LIST_MAX in *. lia. Qed.

Lemma wp_first_entry j x l base rg pop evs out s (Q : nat -> adapter -> Prop) : shape base rg pop evs out s ->
  (j < AMDGV_SCHED_EVENT_LIST_MAX)%nat -> evs !!! j = x :: l -> Q x.1 s -> wp (first_entry j) Q s.
Proof.
  intros Hs Hj E HQ. pose proof (shape_dlist j _ _ _ _ _ _ Hj Hs) as [Hc _]. rewrite E in Hc.
  apply wp_bind. eapply wp_next_of; [exact (chain_next _ _ _ _ Hc)|]. by apply wp_ret.
Qed.

(** Moving the cursor past the item [x] that is taken next. *)
Lemma wp_advance i x l1 l2 base rg evs out s : shape base rg None evs out s -> (i < AMDGV_SCHED_EVENT_LIST_MAX)%nat ->
  evs !!! i = l1 ++ x :: l2 -> curr_event_list_idx s = i ->
  let es := <[i := l1 ++ l2]> evs in
  wp (advance i x.1) (fun _ s' => (exists c n, s' = s <| curr_event_list_idx := c |> <| next_event := n |>) /\
    cursor_rep es (if (length l1 <? length (l1 ++ l2))%nat then Some (i, length l1) else start_of es (S i)) s') s.
Proof.
  intros Hs Hi E Hcur es. pose proof (sh_six _ _ _ _ _ _ Hs) as H6.
  pose proof (shape_dlist i _ _ _ _ _ _ Hi Hs) as Hd. rewrite E in Hd. unfold ptr_nodes in Hd. rewrite fmap_app in Hd.
  cbn in Hd. rewrite (cons_middle (EventEntry x.1)) in Hd. pose proof (dlist_after (lnk s) (EventList i) (ptr_nodes l1 ++ [EventEntry x.1]) (ptr_nodes l2)) as Hn.
  rewrite <- app_assoc, before_snoc in Hn. specialize (Hn Hd).
  apply wp_bind. eapply wp_next_of; [exact Hn|]. rewrite length_app. unfold es. destruct l2 as [|y l2].
  - cbn [after ptr_nodes fmap list_fmap hd_error default length]. rewrite decide_True by done. apply wp_bind.
    eapply wp_first_nonempty; [exact Hs|apply lists_from_below|]. fold (nonempty_from evs (S i)).
    assert ((length l1 <? length l1 + 0)%nat = false) as -> by (apply Nat.ltb_ge; lia).
    unfold start_of. rewrite nonempty_from_insert by lia. destruct (nonempty_from evs (S i)) as [j|] eqn:Ej; cbn [fmap option_fmap option_map].
    + apply nonempty_from_spec in Ej as [Hj (z & l & Ez)]. apply wp_bind, wp_modify, wp_bind.
      eapply (wp_first_entry j z l); [by eapply shape_frame; [exact Hs|..]|lia|done|]. apply wp_modify. split.
      * by eexists _, _.
      * split; [cbn; lia|]. split; [done|]. exists z. split; [|done]. unfold at_cursor. cbn.
        rewrite list_lookup_total_insert_ne by lia. by rewrite Ez.
    + apply wp_modify. split; [by eexists _, _|done].
  - cbn [after ptr_nodes fmap list_fmap hd_error default]. rewrite decide_False by done. apply wp_bind, wp_ret, wp_modify.
    split; [exists i, (Some y.1); by destruct s; cbn in *; subst|].
    assert ((length l1 <? length l1 + length (y :: l2))%nat = true) as -> by (apply Nat.ltb_lt; cbn; lia).
    split; [done|]. split; [by destruct s|]. exists y. split; [|done]. unfold at_cursor. cbn.
    rewrite insert_at by lia. by rewrite list_lookup_middle.
Qed.

Lemma take_at_split q i k x : at_cursor (evs q) (i, k) = Some x -> exists l1 l2, evs q !!! i = l1 ++ x :: l2 /\ length l1 = k.
Proof.
  unfold at_cursor. cbn. intros E. exists (take k (evs q !!! i)), (drop (S k) (evs q !!! i)).
  rewrite take_drop_middle by done. split; [done|]. rewrite length_take. apply lookup_lt_Some in E. lia.
Qed.

Lemma wp_take_event base q i k x s : shape base (ring q) None (evs q) (out q) s -> (i < AMDGV_SCHED_EVENT_LIST_MAX)%nat ->
  at_cursor (evs q) (i, k) = Some x -> curr_event_list_idx s = i ->
  wp (take_event x.1) (fun o s' => o = Some x.1 /\ repr base (take_at q (i, k)).2 s' /\ env s' = env s) s.
Proof.
  intros Hs Hi Hx Hc. pose proof (sh_six _ _ _ _ _ _ Hs) as H6.
  destruct (take_at_split _ _ _ _ Hx) as (l1 & l2 & E & Hk). unfold take_event.
  apply wp_bind, wp_gets. rewrite Hc. apply wp_bind. eapply wp_mono; [by eapply wp_advance|].
  intros u s' [(c & n & ->) Hcur]. apply wp_bind. set (s' := s <| curr_event_list_idx := c |> <| next_event := n |>) in *.
  eapply (wp_take_off i x l1 l2 base (ring q) None (evs q) (out q)); [by eapply shape_frame; [exact Hs|..]|done|done|].
  intros h Hh. apply wp_ret. split_and!; [done| |done]. unfold take_at. rewrite Hx. cbn [fst snd]. rewrite E.
  assert (delete k (l1 ++ x :: l2) = l1 ++ l2) as -> by (subst k; apply delete_middle).
  split.
  - split; [by eapply ring_frame; [apply Hs|..]|exact Hh|cbn; by rewrite length_insert|].
    eapply hr_perm; [|by eapply hr_frame; [apply Hs|..]]. cbn [ring out evs]. rewrite cells_out. apply cells_of_list; [lia|done].
  - subst k. exact Hcur.
Qed.

Lemma wp_pick base q s : repr base q s -> safe_ids (ring q) s ->
  wp amdgv_sched_pick_up_next_event
    (fun o s' => o = fst <$> (pick q).1 /\ repr base (pick q).2 s' /\ env s' = env s) s.
Proof.
  intros Hr Hok. unfold amdgv_sched_pick_up_next_event.
  apply (wp_assoc amdgv_sched_event_queue_empty (fun b => when (negb b) _)), wp_bind.
  eapply wp_mono; [by apply wp_refresh|].
  intros u s1 [[Hs Hc] He]. apply wp_bind, wp_gets. unfold pick. set (q1 := refresh q) in *.
  assert (forall i k x, at_cursor (evs q1) (i, k) = Some x -> (take_at q1 (i, k)).1 = Some x) as Htk.
  { intros i k x Hx. unfold take_at. by rewrite Hx. }
  destruct (cursor q1) as [[i k]|] eqn:Ecur.
  - destruct Hc as (Hi & Hcur & x & Hx & ->). eapply wp_mono; [by eapply (wp_take_event base q1 i k x)|].
    intros o s2 (-> & Hr2 & He2). rewrite (Htk _ _ _ Hx). split_and!; [done|done|by rewrite He2].
  - rewrite Hc. apply wp_bind. eapply wp_first_nonempty; [exact Hs|apply lists_from_below|]. fold (nonempty_from (evs q1) 0).
    unfold start_of. destruct (nonempty_from (evs q1) 0) as [i|] eqn:Ei; cbn [fmap option_fmap option_map].
    + apply nonempty_from_spec in Ei as [Hi (x & l & Ex)]. apply wp_bind, wp_modify, wp_bind.
      assert (shape base (ring q1) None (evs q1) (out q1) (s1 <| curr_event_list_idx := i |>)) as Hs2
        by by eapply shape_frame; [exact Hs|..].
      eapply (wp_first_entry i x l); [exact Hs2|lia|done|].
      assert (at_cursor (evs q1) (i, 0%nat) = Some x) as Hx by (unfold at_cursor; cbn; by rewrite Ex).
      eapply wp_mono; [eapply (wp_take_event base q1 i 0 x); [exact Hs2|lia|exact Hx|done]|].
      intros o s2 (-> & Hr2 & He2). rewrite (Htk _ _ _ Hx). split_and!; [done|done|by rewrite He2].
    + apply wp_ret. split_and!; [done| |done]. split; [done|]. cbn [snd]. by rewrite Ecur.
Qed.

(** ** Giving back *)

Lemma remove_out_perm (x : item) (l : list item) : x ∈ l -> NoDup l.*1 -> l ≡ₚ x :: remove_out x.1 l.
Proof.
  intros (l1 & l2 & ->)%list_elem_of_split Hn. rewrite fmap_app in Hn. cbn in Hn.
  apply NoDup_app in Hn as (_ & Hdis & Hn). apply NoDup_cons in Hn as [Hx2 _].
  assert (forall l : list item, x.1 ∉ l.*1 -> remove_out x.1 l = l) as Hid.
  { intros l Hl. unfold remove_out. induction l as [|y l IH]; [done|]. cbn in Hl. apply not_elem_of_cons in Hl as [? ?].
    rewrite filter_cons, decide_True by done. by rewrite IH. }
  unfold remove_out in *. rewrite filter_app, filter_cons, decide_False by tauto.
  rewrite !Hid; [by rewrite Permutation_middle|done|]. intros Hx1. apply (Hdis _ Hx1). by left.
Qed.

Lemma shape_out base rg pop evs out s x : shape base rg pop evs out s -> x ∈ out ->
  out ≡ₚ x :: remove_out x.1 out /\ heap s !! x.1 = Some (Some x.2).
Proof.
  intros Hs Hx. split; [apply remove_out_perm; [done|]|eapply hr_lookup; [apply Hs|by apply cells_elem_out]].
  pose proof (hr_nodup _ _ _ (sh_heap _ _ _ _ _ _ Hs)) as Hn. unfold cells in Hn.
  rewrite !filled_app, !fmap_app in Hn. rewrite !app_assoc in Hn. apply NoDup_app in Hn as (_ & _ & Hn).
  unfold filled in Hn. by rewrite <- list_fmap_compose in Hn.
Qed.

Lemma cells_out_perm rg pop evs out out' : out ≡ₚ out' -> cells rg pop evs out ≡ₚ cells rg pop evs out'.
Proof. intros HP. unfold cells, filled. by rewrite HP. Qed.

Lemma wp_free_event base q x s : repr base q s -> x ∈ out q ->
  wp (amdgv_sched_free_event x.1) (fun _ s' => repr base (give_back q x.1) s' /\ env s' = env s) s.
Proof.
  intros [Hs Hc] Hx. destruct (shape_out _ _ _ _ _ _ _ Hs Hx) as [HP _].
  pose proof (sh_heap _ _ _ _ _ _ Hs) as Hh. eapply hr_perm in Hh; [|by rewrite (cells_out_perm _ _ _ _ _ HP), cells_out].
  eapply wp_eq_free; [exact Hh|]. intros s' -> Hh'. split; [|done]. split; [|exact Hc].
  split; [by eapply ring_frame; [apply Hs|..]|apply Hs|apply Hs|exact Hh'].
Qed.

Lemma push_back_below i eid : push_back_list eid = Some i -> (i < AMDGV_SCHED_EVENT_LIST_MAX)%nat.
Proof. unfold push_back_list. case_match; [done|]. apply list_below. Qed.

Lemma wp_push_back base q x s : repr base q s -> x ∈ out q ->
  wp (amdgv_sched_push_back_event x.1) (fun _ s' => repr base (push_back q x) s' /\ env s' = env s) s.
Proof.
  intros [Hs Hc] Hx. pose proof (sh_six _ _ _ _ _ _ Hs) as H6. destruct (shape_out _ _ _ _ _ _ _ Hs Hx) as [HP Hev].
  unfold amdgv_sched_push_back_event, push_back. apply wp_bind. eapply wp_event_at; [exact Hev|].
  destruct (push_back_list (id x.2)) as [i|] eqn:Ei; [|by apply wp_free_event].
  apply push_back_below in Ei. apply wp_bind, wp_modify, wp_bind.
  pose proof (sh_heap _ _ _ _ _ _ Hs) as Hh. eapply hr_perm in Hh; [|by rewrite (cells_out_perm _ _ _ _ _ HP), cells_out].
  pose proof (shape_lists i _ _ _ _ _ _ Ei Hs) as Hl. cbn [popped app] in Hl.
  destruct (lists_add_front _ _ _ _ (EventEntry x.1) Hl) as (h & E & Hl').
  { intros Hn. eapply (shape_fresh_node (x.1, Some x.2) (waiting (ring q) ++ filled (remove_out x.1 (out q)))); [exact Hs|exact Hh|..].
    - by rewrite cells_split.
    - cbn [popped app]. by rewrite (nodes_perm _ _ (heads_split i (evs q) Ei)). }
  eapply wp_eq_link; [exact E|]. apply wp_modify. split; [|done]. split.
  - split; [by eapply ring_frame; [apply Hs|..]| |cbn; by rewrite length_insert|].
    + eapply (shape_lists_insert i (x :: evs q !!! i) _ _ None); [done|exact Hs|exact Hl'].
    + eapply hr_perm; [|by eapply hr_frame; [exact Hh|..]]. cbn [ring out evs].
      etransitivity; [|symmetry; apply (cells_list x i [] (evs q !!! i)); lia]. cbn [app]. rewrite list_insert_id; [done|].
      apply list_lookup_lookup_total_lt. lia.
  - split; [done|]. split; [done|]. exists x. split; [|done]. unfold at_cursor. cbn. by rewrite insert_at by lia.
Qed.
