(* ===== verification/EventQPush.v ===== *)
(** * Requests entering the event queue, and searching it

    [amdgv_sched_event_queue_push_ex], the marking of stale events and
    [amdgv_sched_is_find_event] on the abstract queue. *)
From S2P Require Import Prelude Oss Api Dlist ListScan EventQ EventQInv EventQRun EventQOps.
Import Dlist ListScan EventQ.
#[local] Open Scope Z_scope.
#[local] Set Warnings "-clear-no-such-hyp".

(** ** Pushing *)

Definition push (q : queue) (x : item) : queue := mk_queue (ring q ++ [x]) (evs q) (cursor q) (out q).

Section push.
Context {E : OssEnv}.

(** Whether a request is taken: not while saving power, not when the ring is
    full, not when there is no memory. *)
Definition admits (q : queue) (eid : Z) (s : adapter) : bool :=
  ((eid =? AMDGV_EVENT_EXIT_POWER_SAVING) || negb (is_in_powersaving s)) &&
  (Z.of_nat (length (ring q)) <? 255) && oss_alloc_ok (os_allocs (os s)).
Definition request (vf eid block : Z) (sg : option nat) (d : event_data) (s : adapter) : sched_event :=
  mk_event vf eid AMDGV_EVENT_STATUS_NORMAL block (oss_time (os_ticks (os s))) sg d.

(** The slot at the write index is not pending. *)
Lemma ring_spoil rg s s' q w : ring_rep rg s -> event_queue s = Some q ->
  event_queue s' = Some (<[Z.to_nat (queue_wptr s) := w]> q) -> queue_rptr s' = queue_rptr s ->
  queue_wptr s' = queue_wptr s -> ring_rep rg s'.
Proof.
  intros (q' & Eq & Hl & Hr & Hn & Hw & Hs) Eq' E1 E2 E3. rewrite Eq in Eq'. injection Eq' as ->.
  eexists. rewrite E2, E3. split_and!; [done|by rewrite length_insert|lia|lia|done|done|].
  intros k x Hk. rewrite <- (Hs k x Hk). apply list_lookup_insert_ne. apply lookup_lt_Some in Hk. rewrite Hw. intros Ez.
  pose proof (u8_range (queue_rptr s + Z.of_nat k)). pose proof (u8_range (queue_rptr s + Z.of_nat (length rg))).
  assert (u8 (queue_rptr s + Z.of_nat (length rg)) = u8 (queue_rptr s + Z.of_nat k)) as E' by lia. apply u8_inj in E'; lia.
Qed.

Lemma ring_free_slot rg s : ring_rep rg s -> exists q w, event_queue s = Some q /\
  q !! Z.to_nat (queue_wptr s) = Some w /\ (Z.to_nat (queue_wptr s) < length q)%nat.
Proof.
  intros (q & Eq & Hl & Hr & Hn & Hw & Hs). assert (Z.to_nat (queue_wptr s) < length q)%nat as Hlt.
  { rewrite Hl, Hw. pose proof (u8_range (queue_rptr s + Z.of_nat (length rg))). unfold AMDGV_EVENT_QUEUE_ENTRY_NUM. lia. }
  destruct (lookup_lt_is_Some_2 _ _ Hlt) as [w Hq]. by exists q, w.
Qed.

Lemma wp_push base q vf eid block sg d wake s : repr base q s ->
  wp (amdgv_sched_event_queue_push_ex vf eid block sg d wake) (fun r s' => env s' = env s /\
    (if admits q eid s then r = 0 /\ repr base (push q (fresh s, request vf eid block sg d s)) s' /\
       os_allocs (os s') = S (os_allocs (os s))
     else r = AMDGV_FAILURE /\ repr base q s')) s.
Proof.
  intros [Hs Hc]. pose proof (sh_ring _ _ _ _ _ _ Hs) as Hr. unfold amdgv_sched_event_queue_push_ex, admits.
  apply wp_bind, wp_gets.
  destruct (negb (eid =? AMDGV_EVENT_EXIT_POWER_SAVING) && is_in_powersaving s) eqn:Eps.
  { assert ((eid =? AMDGV_EVENT_EXIT_POWER_SAVING) || negb (is_in_powersaving s) = false) as ->
      by (destruct (eid =? _), (is_in_powersaving s); done). by apply wp_ret. }
  assert ((eid =? AMDGV_EVENT_EXIT_POWER_SAVING) || negb (is_in_powersaving s) = true) as ->
    by (destruct (eid =? _), (is_in_powersaving s); done).
  apply wp_bind, wp_gets, wp_bind, wp_gets. rewrite (ring_full _ _ Hr).
  destruct (Z.leb_spec 255 (Z.of_nat (length (ring q)))) as [Hfull|Hroom].
  { destruct (Z.ltb_spec (Z.of_nat (length (ring q))) 255); [lia|]. by apply wp_ret. }
  destruct (Z.ltb_spec (Z.of_nat (length (ring q))) 255); [|lia]. cbn [andb].
  destruct (ring_free_slot _ _ Hr) as (rq & w & Eq & Ew & Hlt). pose proof (sh_heap _ _ _ _ _ _ Hs) as Hh.
  apply wp_bind. unfold oss_malloc, oss. apply wp_bind, wp_zoom. unfold oss_alloc, wp at 1.
  destruct (oss_alloc_ok (os_allocs (os s))).
  - apply wp_bind, wp_gets, wp_bind, wp_modify, wp_ret, wp_bind. eapply wp_upd_slot; [exact Eq|exact Ew|].
    apply wp_bind, wp_modify, wp_bind, wp_zoom, wp_time, wp_bind. eapply wp_upd_slot; [done|by apply list_lookup_insert_eq|].
    apply wp_bind. cbn [event_queue upd]. rewrite list_insert_insert_eq.
    set (s1 := _ <| event_queue := _ |>).
    assert (repr base (push q (fresh s, request vf eid block sg d s)) s1) as Hs1.
    { split; [|exact Hc]. split; [eapply ring_push; [exact Hr|exact Eq|lia|done..]|exact (sh_lists _ _ _ _ _ _ Hs)|apply Hs|].
      eapply hr_perm; [|by eapply hr_new; [exact Hh|..]]. unfold cells. cbn [ring push evs out default].
      rewrite waiting_app. cbn [waiting fmap list_fmap fst]. rewrite <- app_assoc. apply Permutation_middle. }
    assert (env s1 = env s) as He1 by done. assert (os_allocs (os s1) = S (os_allocs (os s))) as Ho1 by done.
    clearbody s1. apply wp_when; intros _; [|apply wp_ret; by split_and!].
    apply wp_bind, wp_gets, wp_bind. destruct Hs1 as [Hs1 Hc1]. apply wp_when; intros _.
    1,2: apply wp_modify, wp_ret; split; [done|]; split_and!; [done| |done]; split; [by eapply shape_frame; [exact Hs1|..]|exact Hc1].
  - apply wp_ret, wp_bind. eapply wp_upd_slot; [exact Eq|exact Ew|]. apply wp_ret. split; [done|]. split; [done|].
    split; [|exact Hc]. split; [by eapply ring_spoil; [exact Hr|exact Eq|..]|exact (sh_lists _ _ _ _ _ _ Hs)|apply Hs|].
    by eapply hr_frame; [exact Hh|..].
Qed.
End push.

(** ** Marking *)

Lemma waiting_ptrs l l' : l.*1 = l'.*1 -> waiting l = waiting l'.
Proof.
  intros El. assert (forall l, waiting l = (fun p => (p, None)) <$> l.*1) as Ew.
  { intros m. unfold waiting. by rewrite <- list_fmap_compose. }
  by rewrite !Ew, El.
Qed.

Lemma wp_mark_ring base q vf eid s : repr base q s ->
  wp (amdgv_sched_mark_event_in_ring vf eid AMDGV_EVENT_STATUS_FINISHED false)
    (fun _ s' => repr base (mk_queue (mark eid <$> ring q) (evs q) (cursor q) (out q)) s' /\ env s' = env s) s.
Proof.
  intros [Hs Hc]. pose proof (sh_ring _ _ _ _ _ _ Hs) as Hr. set (rg := ring q) in *.
  pose (mid := fun k => (mark eid <$> take k rg) ++ drop k rg).
  eapply wp_mono; [apply (wp_ring_loop (fun k s' => shape base (mid k) None (evs q) (out q) s' /\ env s' = env s /\
    queue_rptr s' = queue_rptr s /\ cursor_rep (evs q) (cursor q) s')); [exact Hr|..]|].
  - intros k s' Hk (Hs' & He & Hp & Hc'). destruct (lookup_lt_is_Some_2 _ _ Hk) as [x Hx].
    assert (mid k !! k = Some x) as Hmk.
    { unfold mid. rewrite lookup_app_r; rewrite length_fmap, length_take_le by lia; [|lia].
      by rewrite Nat.sub_diag, lookup_drop, Nat.add_0_r. }
    assert (mid (S k) = <[k := mark eid x]> (mid k)) as Em.
    { unfold mid. rewrite (drop_S rg x k) by done. rewrite (take_S_r rg k x) by done. rewrite fmap_app. cbn.
      rewrite insert_app_r_alt; rewrite length_fmap, length_take_le by lia; [|lia].
      rewrite Nat.sub_diag. cbn. by rewrite <- app_assoc. }
    destruct (ring_slot _ _ _ _ (sh_ring _ _ _ _ _ _ Hs') Hmk) as (rq & Eq & Ew). rewrite Hp in Ew.
    apply wp_bind. eapply wp_slot; [exact Eq|exact Ew|]. cbn [event andb].
    rewrite Em. unfold mark at 1. destruct (id x.2 =? eid) eqn:Eid; cbn [negb].
    + eapply wp_upd_slot; [exact Eq|exact Ew|]. split_and!; [|done|done|done].
      split; [|exact (sh_lists _ _ _ _ _ _ Hs')|apply Hs'|].
      * eapply (ring_update _ s'); [apply Hs'|exact Eq|exact Hmk|by rewrite Hp|done..].
      * pose proof (sh_heap _ _ _ _ _ _ Hs') as Hh. eapply hr_perm; [|by eapply hr_frame; [exact Hh|..]].
        unfold cells. erewrite waiting_ptrs; [done|]. rewrite list_fmap_insert. symmetry. apply list_insert_id.
        by rewrite list_lookup_fmap, Hmk.
    + apply wp_ret. split_and!; [|done..]. rewrite list_insert_id; [done|]. by destruct x.
  - split_and!; [done..|]. exact Hc.
  - cbn beta. intros u s' (Hs' & He & _ & Hc'). split; [|done]. split; [|done]. unfold mid in Hs'.
    by rewrite drop_all, firstn_all, app_nil_r in Hs'.
Qed.

Lemma cursor_frame evs c s s' : cursor_rep evs c s -> curr_event_list_idx s' = curr_event_list_idx s ->
  next_event s' = next_event s -> cursor_rep evs c s'.
Proof. intros Hc E1 E2. destruct c; cbn in *; by rewrite ?E1, ?E2. Qed.

Lemma mark_ptrs eid l : (mark eid <$> l).*1 = l.*1.
Proof. by rewrite <- list_fmap_compose. Qed.

Lemma cursor_mark evs i eid c s : length evs = AMDGV_SCHED_EVENT_LIST_MAX -> (i < AMDGV_SCHED_EVENT_LIST_MAX)%nat ->
  cursor_rep evs c s -> cursor_rep (<[i := mark eid <$> evs !!! i]> evs) c s.
Proof.
  intros H6 Hi. destruct c as [[j k]|]; [|done]. intros (Hj & Hcur & x & Hx & Hn). split; [done|]. split; [done|].
  unfold at_cursor in *. cbn in *. destruct (decide (i = j)) as [->|Hne].
  - exists (mark eid x). rewrite insert_at by lia. by rewrite list_lookup_fmap, Hx.
  - exists x. by rewrite list_lookup_total_insert_ne.
Qed.

Lemma wp_remove_stale base q s : repr base q s ->
  wp amdgv_sched_remove_stale_events_after_wgr
    (fun _ s' => repr base (foldl mark_stale q stale_events) s' /\ env s' = env s) s.
Proof.
  intros Hr. unfold amdgv_sched_remove_stale_events_after_wgr.
  apply (wp_for_each_pre (fun l s' => repr base (foldl mark_stale q l) s' /\ env s' = env s)); [|done].
  intros pre x post s' El [Hr' He]. set (q1 := foldl mark_stale q pre) in *. rewrite foldl_snoc. fold q1.
  assert (x.1 < AMDGV_SCHED_EVENT_LIST_MAX)%nat as Hi.
  { assert (x ∈ stale_events) as Hx by (rewrite El; set_solver). clear El. revert x Hx.
    apply Forall_forall. repeat constructor. }
  destruct Hr' as [Hs' Hc']. pose proof (sh_six _ _ _ _ _ _ Hs') as H6.
  apply wp_bind. eapply wp_mono; [by apply wp_finish_event|]. intros u s2 [Hs2 He2]. unfold env_cur in He2.
  eapply wp_mono; [apply (wp_mark_ring base (mk_queue (ring q1) (<[x.1 := mark x.2 <$> evs q1 !!! x.1]> (evs q1)) (cursor q1) (out q1)))|].
  - split; [done|]. apply cursor_mark; [done|done|]. eapply cursor_frame; [exact Hc'|congruence..].
  - intros v s3 [Hr3 He3]. split; [done|]. congruence.
Qed.

(** ** Searching *)

Definition asked (vf eid : Z) (x : item) : bool := (id x.2 =? eid) && (idx_vf x.2 =? vf).
Definition pending (q : queue) (vf eid : Z) : bool := existsb (asked vf eid) (ring q ++ concat (evs q)).

Lemma wp_find_in_ring rg s vf eid (Q : bool -> adapter -> Prop) : ring_rep rg s -> Q (existsb (asked vf eid) rg) s ->
  wp (find_in_ring AMDGV_EVENT_QUEUE_ENTRY_NUM (queue_rptr s) (queue_wptr s) vf eid) Q s.
Proof.
  intros Hr HQ. pose proof Hr as (q & Eq & Hl & Hrp & Hn & Hw & Hs). rewrite Hw.
  enough (forall fuel k, (k <= length rg)%nat -> (length rg - k <= fuel)%nat -> Q (existsb (asked vf eid) (drop k rg)) s ->
    wp (find_in_ring fuel (u8 (queue_rptr s + Z.of_nat k)) (u8 (queue_rptr s + Z.of_nat (length rg))) vf eid) Q s) as H.
  { specialize (H AMDGV_EVENT_QUEUE_ENTRY_NUM 0%nat). rewrite Z.add_0_r, (u8_small (queue_rptr s)) in H by done.
    apply H; [lia| |done]. unfold AMDGV_EVENT_QUEUE_ENTRY_NUM. lia. }
  clear HQ. induction fuel as [|fuel IH]; intros k Hk Hf HQ; cbn [find_in_ring];
    destruct (Z.eqb_spec (u8 (queue_rptr s + Z.of_nat (length rg))) (u8 (queue_rptr s + Z.of_nat k))) as [E'|E'].
  1,3: apply u8_inj in E'; [|lia..]; rewrite drop_ge in HQ by lia; by apply wp_ret.
  { destruct E'. do 2 f_equal. lia. }
  destruct (decide (k = length rg)) as [->|]; [done|]. destruct (lookup_lt_is_Some_2 rg k) as [x Hx]; [lia|].
  rewrite (drop_S _ _ _ Hx) in HQ. cbn [existsb] in HQ. apply wp_bind. eapply wp_slot; [exact Eq|by apply Hs|].
  cbn [event]. fold (asked vf eid x). destruct (asked vf eid x); [by apply wp_ret|].
  rewrite u8_add. replace (Z.of_nat k + 1) with (Z.of_nat (S k)) by lia. apply IH; [lia..|done].
Qed.

Lemma existsb_find {A} (f : A -> bool) l : existsb f l = bool_decide (is_Some (List.find f l)).
Proof. induction l as [|x l IH]; [done|]. cbn. by destruct (f x). Qed.

Lemma wp_find_in_lists ls base q s vf eid (Q : bool -> adapter -> Prop) : repr base q s ->
  Forall (fun i => i < AMDGV_SCHED_EVENT_LIST_MAX)%nat ls ->
  Q (existsb (fun i => existsb (asked vf eid) (evs q !!! i)) ls) s -> wp (find_in_lists ls vf eid) Q s.
Proof.
  intros [Hs Hc] Hls HQ. induction ls as [|i ls IH]; [done|]. apply Forall_cons in Hls as [Hi Hls]. cbn [existsb] in HQ.
  apply wp_bind, wp_gets, wp_bind.
  pose (f := fun n => match n with EventEntry p => match heap s !! p with Some (Some e) => asked vf eid (p, e) | _ => false end | _ => false end).
  assert (forall x, x ∈ evs q !!! i -> f (EventEntry x.1) = asked vf eid x) as Hf.
  { intros x Hx. unfold f. by rewrite (shape_event _ _ _ _ _ _ _ _ Hs Hi Hx). }
  eapply (wp_find_node lnk f); [by eapply shape_dlist|by eapply shape_fuel|..].
  - intros n (x & -> & Hx)%list_elem_of_fmap. rewrite Hf by done. cbn. unfold test_event, entry_of, mret, mbind, M_ret, M_bind.
    unfold event_at. by rewrite (shape_event _ _ _ _ _ _ _ _ Hs Hi Hx).
  - assert (List.find f (ptr_nodes (evs q !!! i)) = (fun x => EventEntry x.1) <$> List.find (asked vf eid) (evs q !!! i)) as Ef.
    { revert Hf. generalize (evs q !!! i). clear. intros l. induction l as [|x l IHl]; intros Hf; [done|]. cbn [ptr_nodes fmap list_fmap List.find].
      rewrite Hf by set_solver. destruct (asked vf eid x); [done|]. apply IHl. intros y Hy. apply Hf. set_solver. }
    unfold found. rewrite Ef. rewrite (existsb_find _ (evs q !!! i)) in HQ.
    destruct (List.find (asked vf eid) (evs q !!! i)); cbn in *.
    + rewrite decide_False by done. by apply wp_ret.
    + rewrite decide_True by done. by apply IH.
Qed.

Lemma concat_seq {A} (ls : list (list A)) : concat ls = concat ((fun i => ls !!! i) <$> seq 0 (length ls)).
Proof.
  f_equal. apply list_eq. intros i. destruct (decide (i < length ls)%nat) as [Hi|Hi].
  - rewrite list_lookup_fmap, lookup_seq_lt by done. cbn. by apply list_lookup_lookup_total_lt.
  - rewrite !lookup_ge_None_2; [done|rewrite length_fmap, length_seq; lia|lia].
Qed.

Lemma existsb_concat {A} (f : A -> bool) (ls : list (list A)) : existsb f (concat ls) = existsb (existsb f) ls.
Proof. induction ls as [|l ls IH]; [done|]. cbn. by rewrite existsb_app, IH. Qed.

Lemma wp_is_find_event base q s vf eid : repr base q s ->
  wp (amdgv_sched_is_find_event vf eid) (fun b s' => b = pending q vf eid /\ s' = s) s.
Proof.
  intros Hr. pose proof Hr as [Hs Hc]. unfold amdgv_sched_is_find_event, pending. rewrite existsb_app.
  apply wp_bind, wp_gets, wp_bind, wp_gets, wp_bind. eapply wp_find_in_ring; [apply Hs|].
  destruct (existsb (asked vf eid) (ring q)); cbn [orb]; [by apply wp_ret|].
  eapply wp_find_in_lists; [exact Hr|apply (lists_from_below 0)|]. split; [|done].
  rewrite concat_seq, (sh_six _ _ _ _ _ _ Hs), existsb_concat. generalize (seq 0 AMDGV_SCHED_EVENT_LIST_MAX).
  intros l. induction l as [|i l IH]; [done|]. cbn. by rewrite IH.
Qed.
