(* ===== verification/EventQOrder.v ===== *)
(** * The order in which events are taken

    Between two arrivals the six lists and the cursor amount to one sequence,
    [upcoming]: from the cursor to the end of the last list, then what is
    before the cursor. *)
From S2P Require Import Prelude EventQ EventQInv EventQRun EventQOps EventQPush.
Import EventQ.
#[local] Open Scope Z_scope.

Definition upcoming (q : queue) : list item :=
  match cursor q with
  | None => concat (evs q)
  | Some (i, k) => drop k (evs q !!! i) ++ concat (drop (S i) (evs q)) ++ concat (take i (evs q)) ++ take k (evs q !!! i)
  end.

Definition cursor_ok (q : queue) : Prop :=
  match cursor q with Some c => (c.1 < length (evs q))%nat /\ is_Some (at_cursor (evs q) c) | None => True end.

Lemma repr_cursor_ok base q s : repr base q s -> cursor_ok q.
Proof.
  intros [Hs Hc]. unfold cursor_ok. destruct (cursor q) as [c|]; [|done]. destruct Hc as (Hi & _ & x & Hx & _).
  split; [by rewrite (sh_six _ _ _ _ _ _ Hs)|by exists x].
Qed.

Lemma concat_around {A} (ls : list (list A)) i : (i < length ls)%nat ->
  concat ls = concat (take i ls) ++ (ls !!! i) ++ concat (drop (S i) ls).
Proof.
  intros Hi. destruct (lookup_lt_is_Some_2 ls i Hi) as [l Hl]. rewrite (list_lookup_total_correct _ _ _ Hl).
  rewrite <- (take_drop_middle _ _ _ Hl) at 1. by rewrite concat_app.
Qed.

(** The lists from [i] on, as the search for a nonempty one finds them. *)
Lemma concat_from evs i : length evs = AMDGV_SCHED_EVENT_LIST_MAX ->
  match nonempty_from evs i with
  | Some j => (i <= j < length evs)%nat /\ evs !!! j <> [] /\
      concat (drop i evs) = (evs !!! j) ++ concat (drop (S j) evs)
  | None => concat (drop i evs) = []
  end.
Proof.
  intros H6. unfold nonempty_from, lists_from. rewrite <- H6. clear H6.
  remember (length evs - i)%nat as n eqn:En. revert i En. induction n as [|n IH]; intros i En.
  - cbn. by rewrite drop_ge by lia.
  - cbn [seq List.find]. destruct (lookup_lt_is_Some_2 evs i) as [l Hl]; [lia|].
    pose proof (list_lookup_total_correct _ _ _ Hl) as El. rewrite (drop_S _ _ _ Hl). cbn [concat]. rewrite El.
    case_bool_decide as Eb; cbn [negb].
    + rewrite Eb. specialize (IH (S i) ltac:(lia)). cbn [app].
      destruct (List.find _ (seq (S i) n)) as [j|]; [|done]. destruct IH as (Hj & Hne & Hcat).
      by split_and!; [lia|lia|..].
    + split_and!; [lia|lia|congruence|by rewrite El].
Qed.

(** Taking the item at the cursor leaves the rest in the same order. *)
Lemma take_at_upcoming q c x : length (evs q) = AMDGV_SCHED_EVENT_LIST_MAX -> (c.1 < length (evs q))%nat ->
  at_cursor (evs q) c = Some x ->
  let l := upcoming (mk_queue (ring q) (evs q) (Some c) (out q)) in
  exists l', l = x :: l' /\ upcoming (take_at q c).2 = l' /\ (take_at q c).1 = Some x /\ cursor_ok (take_at q c).2.
Proof.
  destruct c as [i k]. intros H6 Hi Hx. cbn [fst] in Hi. unfold upcoming at 1. cbn [cursor evs]. unfold take_at. rewrite Hx.
  cbn [fst snd]. unfold at_cursor in Hx. cbn [fst snd] in Hx. rewrite (drop_S _ _ _ Hx). cbn [app]. eexists. split; [done|].
  pose proof (lookup_lt_Some _ _ _ Hx) as Hk. set (es := <[i := _]> (evs q)).
  assert (es !!! i = take k (evs q !!! i) ++ drop (S k) (evs q !!! i)) as Ei.
  { unfold es. rewrite insert_at by done. apply delete_take_drop. }
  assert (take i es = take i (evs q)) as Et by by apply take_insert_ge.
  assert (drop (S i) es = drop (S i) (evs q)) as Ed by (apply drop_insert_lt; lia).
  assert (length es = length (evs q)) as El by apply length_insert.
  assert (length (delete k (evs q !!! i)) = length (evs q !!! i) - 1)%nat as Ek by by apply length_delete.
  split; [|split; [done|]].
  - unfold upcoming. cbn [cursor evs]. rewrite Ek. destruct (Nat.ltb_spec k (length (evs q !!! i) - 1)) as [Hlt|Hge].
    + fold es. rewrite Ei, Et, Ed, drop_app_length', take_app_length' by (rewrite length_take; lia). done.
    + rewrite (drop_ge (evs q !!! i)) in * by lia. rewrite app_nil_r in Ei. cbn [app]. fold es.
      pose proof (concat_from es (S i) ltac:(congruence)) as Hn. unfold start_of.
      destruct (nonempty_from es (S i)) as [j|]; cbn [fmap option_fmap option_map].
      * destruct Hn as (Hj & Hne & Hcat). rewrite Ed in Hcat. rewrite drop_0, Hcat, <- app_assoc. cbn [take]. rewrite app_nil_r.
        do 2 f_equal. apply (app_inv_tail (concat (drop (S i) es))). rewrite Ed at 1. rewrite Hcat, <- concat_around by lia.
        rewrite (concat_around es i), Et, Ei, <- app_assoc by lia. done.
      * rewrite Ed in Hn. rewrite Hn. cbn [app]. rewrite (concat_around es i), Et, Ei, Ed, Hn by lia. by rewrite app_nil_r.
  - unfold cursor_ok. cbn [cursor evs]. fold es. rewrite Ek.
    destruct (Nat.ltb_spec k (length (evs q !!! i) - 1)) as [Hlt|Hge]; cbn [fst].
    + split; [lia|]. unfold at_cursor. cbn [fst snd]. apply lookup_lt_is_Some_2.
      unfold es. rewrite insert_at, Ek by done. lia.
    + pose proof (concat_from es (S i) ltac:(congruence)) as Hn. unfold start_of.
      destruct (nonempty_from es (S i)) as [j|]; cbn [fmap option_fmap option_map]; [|done].
      destruct Hn as (Hj & Hne & _). split; [cbn; lia|]. unfold at_cursor. cbn. by destruct (es !!! j); [|eexists].
Qed.

Definition well_formed (q : queue) : Prop := length (evs q) = AMDGV_SCHED_EVENT_LIST_MAX /\ cursor_ok q.

Lemma repr_wf base q s : repr base q s -> well_formed q.
Proof. intros Hr. split; [apply Hr|by eapply repr_cursor_ok]. Qed.

Lemma refresh_wf q : well_formed q -> well_formed (refresh q).
Proof.
  intros [H6 Hc]. unfold refresh. destruct (ring q); [done|]. split; [|done]. cbn. by rewrite fold_dispatch_six.
Qed.

Lemma refresh_ring q : ring (refresh q) = [].
Proof. unfold refresh. by destruct (ring q) eqn:?. Qed.

(** Taking an event takes the first of [upcoming]. *)
Lemma pick_upcoming q : well_formed q ->
  match (pick q).1 with
  | Some x => upcoming (refresh q) = x :: upcoming (pick q).2 /\ well_formed (pick q).2 /\ ring (pick q).2 = [] /\
      out (pick q).2 = x :: out q
  | None => upcoming (refresh q) = [] /\ (pick q).2 = mk_queue [] (replicate AMDGV_SCHED_EVENT_LIST_MAX []) None (out q)
  end.
Proof.
  intros Hwf. pose proof (refresh_wf _ Hwf) as [H6 Hc]. pose proof (refresh_ring q) as Hr. unfold pick.
  assert (out (refresh q) = out q) as Ho by (unfold refresh; by destruct (ring q)).
  set (q1 := refresh q) in *. clearbody q1.
  assert (forall c x, at_cursor (evs q1) c = Some x -> (c.1 < length (evs q1))%nat -> 
    let l := upcoming (mk_queue (ring q1) (evs q1) (Some c) (out q1)) in
    (take_at q1 c).1 = Some x /\ l = x :: upcoming (take_at q1 c).2 /\ well_formed (take_at q1 c).2 /\
    ring (take_at q1 c).2 = [] /\ out (take_at q1 c).2 = x :: out q) as Htk.
  { intros c x Hx Hi l. destruct (take_at_upcoming q1 c x H6 Hi Hx) as (l' & El & Eu & E1 & Hok).
    split_and!; [done|by rewrite Eu| |unfold take_at; by rewrite Hx|unfold take_at; rewrite Hx; cbn; by rewrite Ho].
    split; [|done]. unfold take_at. rewrite Hx. cbn. by rewrite length_insert. }
  destruct (cursor q1) as [c|] eqn:Ec.
  - unfold cursor_ok in Hc. rewrite Ec in Hc. destruct Hc as [Hi [x Hx]]. destruct (Htk c x Hx Hi) as (-> & El & ?).
    split; [|done]. rewrite <- El. by destruct q1; cbn in *; subst.
  - pose proof (concat_from (evs q1) 0 H6) as Hn. unfold start_of. rewrite drop_0 in Hn.
    destruct (nonempty_from (evs q1) 0) as [i|] eqn:Ei; cbn [fmap option_fmap option_map].
    + destruct Hn as (Hi & Hne & Hcat). apply nonempty_from_spec in Ei as [_ (x & l & El)].
      destruct (Htk (i, 0%nat) x) as (-> & Eu & ?); [unfold at_cursor; cbn; by rewrite El|cbn; lia|].
      split; [|done]. rewrite <- Eu. unfold upcoming. rewrite Ec. cbn [cursor evs take]. rewrite drop_0, app_nil_r.
      pose proof (concat_around (evs q1) i ltac:(lia)) as Ea. rewrite Hcat in Ea. rewrite app_assoc in Ea.
      assert (concat (take i (evs q1)) = []) as E0.
      { apply (f_equal length) in Ea. rewrite !length_app in Ea. destruct (concat (take i (evs q1))); [done|cbn in Ea; lia]. }
      by rewrite E0, app_nil_r, Hcat.
    + cbn [fst snd]. unfold upcoming. rewrite Ec. split; [done|]. destruct q1 as [r es c o]. cbn [ring evs cursor out] in *. subst r c o. f_equal.
      apply list_eq. intros i. destruct (decide (i < length es)%nat) as [Hi|Hi].
      * rewrite lookup_replicate_2 by congruence. rewrite (concat_around es i Hi) in Hn.
        rewrite (list_lookup_lookup_total_lt es i) by done. f_equal. apply app_nil in Hn as [_ Hn]. by apply app_nil in Hn as [? _].
      * rewrite !lookup_ge_None_2; [done|rewrite length_replicate; lia|lia].
Qed.

(** ** What the event lists hold

    Every event is on the list of its id, and on lists 0, 2 and 4 a VF has at
    most one event: the operations keep this as long as the event thread takes
    one event at a time. *)

Definition vfs (l : list item) : list Z := (fun x => idx_vf x.2) <$> l.
Definition on_list (i : nat) (x : item) : Prop := event_list_of (id x.2) = Some i.
Definition single_lists : list nat := [0; 2; 4]%nat.

Definition tidy_lists (evs : list (list item)) : Prop := forall i, (i < length evs)%nat ->
  Forall (on_list i) (evs !!! i) /\ (i ∈ single_lists -> NoDup (vfs (evs !!! i))).

Record tidy (q : queue) : Prop := {
  tidy_evs : tidy_lists (evs q);
  tidy_one : (length (out q) <= 1)%nat;
  tidy_out : Forall (fun x => forall i, i ∈ single_lists -> on_list i x -> (i < length (evs q))%nat ->
    idx_vf x.2 ∉ vfs (evs q !!! i)) (out q);
}.

(** All ids of lists 0, 2 and 4 drop the older events of their VF. *)
Lemma single_drops i eid : event_list_of eid = Some i -> i ∈ single_lists -> drops_older eid = true.
Proof.
  unfold event_list_of, drops_older, listed, single_lists. intros E Hi.
  repeat case_bool_decide; simplify_eq; try done; cbn; rewrite ?orb_true_r; try done;
    repeat (apply elem_of_cons in Hi as [?|Hi]; [done|]); by apply not_elem_of_nil in Hi.
Qed.

Lemma tidy_insert evs i l : tidy_lists evs -> (i < length evs)%nat -> Forall (on_list i) l ->
  (i ∈ single_lists -> NoDup (vfs l)) -> tidy_lists (<[i := l]> evs).
Proof.
  intros Ht Hi Hl Hn j Hj. rewrite length_insert in Hj. destruct (decide (i = j)) as [->|Hne].
  - by rewrite insert_at.
  - rewrite list_lookup_total_insert_ne by done. by apply Ht.
Qed.

Lemma Forall_filter_same {A} (P Q : A -> Prop) `{forall x, Decision (Q x)} l : Forall P l -> Forall P (filter Q l).
Proof. rewrite !Forall_forall. intros Hl x [_ Hx]%list_elem_of_filter. by apply Hl. Qed.

Lemma other_vf_nodup vf l : (NoDup (vfs l) -> NoDup (vfs (of_other_vf vf l))) /\ vf ∉ vfs (of_other_vf vf l).
Proof.
  unfold of_other_vf, vfs. split.
  - intros Hn. eapply sublist_NoDup; [exact Hn|]. apply fmap_sublist, sublist_filter.
  - intros (x & -> & [Hx _]%list_elem_of_filter)%list_elem_of_fmap. by apply Hx.
Qed.

Lemma tidy_dispatch evs x : length evs = AMDGV_SCHED_EVENT_LIST_MAX -> tidy_lists evs -> tidy_lists (dispatch evs x).
Proof.
  intros H6 Ht. unfold dispatch. destruct (event_list_of (id x.2)) as [i|] eqn:E; [|done].
  pose proof (list_below _ _ E) as Hi. destruct (Ht i) as [Hl Hn]; [lia|].
  apply tidy_insert; [done|lia|..].
  - apply Forall_app. split; [|by repeat constructor]. destruct (drops_older (id x.2)); [|done]. by apply Forall_filter_same.
  - intros His. rewrite (single_drops _ _ E His). unfold vfs. rewrite fmap_app. cbn.
    destruct (other_vf_nodup (idx_vf x.2) (evs !!! i)) as [H1 H2]. apply NoDup_app. split_and!; [by apply H1, Hn| |by apply NoDup_singleton].
    by intros v Hv ->%list_elem_of_singleton.
Qed.

Lemma tidy_absorb l : forall evs, length evs = AMDGV_SCHED_EVENT_LIST_MAX -> tidy_lists evs -> tidy_lists (foldl dispatch evs l).
Proof.
  induction l as [|x l IH]; intros evs H6 Ht; [done|]. cbn. apply IH; [by rewrite dispatch_six|by apply tidy_dispatch].
Qed.

Lemma tidy_refresh q : length (evs q) = AMDGV_SCHED_EVENT_LIST_MAX -> tidy q -> out q = [] -> tidy (refresh q).
Proof.
  intros H6 Ht Ho. unfold refresh. destruct (ring q) as [|x l]; [done|]. split; cbn; rewrite ?Ho; [|cbn; lia|done].
  apply (tidy_absorb (ring q)); [done|apply Ht].
Qed.

Lemma tidy_take_at q c : tidy q -> out q = [] -> (c.1 < length (evs q))%nat -> is_Some (at_cursor (evs q) c) -> tidy (take_at q c).2.
Proof.
  destruct c as [i k]. cbn [fst]. intros Ht Ho Hi [x Hx]. unfold take_at. rewrite Hx. cbn [fst snd].
  unfold at_cursor in Hx. cbn in Hx. destruct (tidy_evs _ Ht i Hi) as [Hl Hn].
  pose proof (delete_Permutation _ _ _ Hx) as HP. rewrite Forall_forall in Hl. split; cbn [evs out].
  - apply tidy_insert; [apply Ht|done|..].
    + apply Forall_forall. intros y Hy. apply Hl. rewrite HP. by right.
    + intros His. specialize (Hn His). unfold vfs in *. rewrite HP in Hn. cbn in Hn. by apply NoDup_cons in Hn as [_ ?].
  - rewrite Ho. cbn. lia.
  - rewrite Ho. repeat constructor. intros j His Hj Hlen. rewrite length_insert in Hlen.
    assert (on_list i x) as Hix by (apply Hl; rewrite HP; by left). unfold on_list in *. assert (i = j) as <- by congruence.
    rewrite insert_at by done. specialize (Hn His). unfold vfs in *. rewrite HP in Hn. cbn in Hn. by apply NoDup_cons in Hn as [? _].
Qed.

Lemma tidy_pick q : well_formed q -> tidy q -> out q = [] -> tidy (pick q).2.
Proof.
  intros Hwf Ht Ho. pose proof (refresh_wf _ Hwf) as [H6 Hc]. pose proof (tidy_refresh _ (proj1 Hwf) Ht Ho) as Ht1.
  assert (out (refresh q) = []) as Ho1 by (unfold refresh; by destruct (ring q)). unfold pick. set (q1 := refresh q) in *.
  unfold cursor_ok in Hc. destruct (cursor q1) as [c|].
  - destruct Hc. by apply tidy_take_at.
  - destruct (start_of (evs q1) 0) as [c|] eqn:Es; [|done]. unfold start_of in Es.
    destruct (nonempty_from (evs q1) 0) as [i|] eqn:Ei; [|done]. injection Es as <-.
    apply nonempty_from_spec in Ei as [Hi (x & l & El)]. apply tidy_take_at; [done|done|cbn; lia|].
    unfold at_cursor. cbn. rewrite El. by eexists.
Qed.

Lemma tidy_give_back q p : tidy q -> tidy (give_back q p).
Proof.
  intros [H1 H2 H3]. split; cbn; [done| |by apply Forall_filter_same]. pose proof (length_filter (fun x : item => x.1 <> p) (out q)).
  unfold remove_out. lia.
Qed.

Lemma tidy_push_back q x : length (evs q) = AMDGV_SCHED_EVENT_LIST_MAX -> tidy q -> x ∈ out q -> tidy (push_back q x).
Proof.
  intros H6 Ht Hx. unfold push_back. destruct (push_back_list (id x.2)) as [i|] eqn:E; [|by apply tidy_give_back].
  pose proof (push_back_below _ _ E) as Hi. unfold push_back_list in E. destruct (listed _ _); [done|].
  pose proof (tidy_one _ Ht) as H1. pose proof (tidy_out _ Ht) as Hout. rewrite Forall_forall in Hout. specialize (Hout x Hx).
  assert (out q = [x]) as Ho.
  { destruct (out q) as [|y [|? ?]]; [by apply not_elem_of_nil in Hx| |cbn in H1; lia]. by apply list_elem_of_singleton in Hx as ->. }
  destruct (tidy_evs _ Ht i) as [Hl Hn]; [lia|]. assert (remove_out x.1 [x] = []) as Er.
  { unfold remove_out. rewrite filter_cons, decide_False by tauto. done. }
  split; cbn [evs out]; rewrite ?Ho, ?Er; [|cbn; lia|done].
  apply tidy_insert; [apply Ht|lia|by constructor|]. intros His. cbn. apply NoDup_cons. split; [|by apply Hn]. apply Hout; [done|done|lia].
Qed.

Lemma mark_same eid x : id (mark eid x).2 = id x.2 /\ idx_vf (mark eid x).2 = idx_vf x.2.
Proof. unfold mark. cbn. by destruct (id x.2 =? eid). Qed.

Lemma tidy_mark q x : tidy q -> (x.1 < length (evs q))%nat -> tidy (mark_stale q x).
Proof.
  intros Ht Hi. assert (forall l, vfs (mark x.2 <$> l) = vfs l) as Hv.
  { intros l. unfold vfs. rewrite <- list_fmap_compose. apply list_fmap_ext. intros k y _. apply mark_same. }
  destruct (tidy_evs _ Ht x.1 Hi) as [Hl Hn]. split; cbn [mark_stale evs out]; [|apply Ht|].
  - apply tidy_insert; [apply Ht|done| |by rewrite Hv]. rewrite Forall_fmap. eapply Forall_impl; [exact Hl|].
    intros y Hy. unfold on_list in *. by rewrite <- (proj1 (mark_same x.2 y)) in Hy.
  - eapply Forall_impl; [apply Ht|]. intros y Hy i His Hyi Hlen. rewrite length_insert in Hlen. specialize (Hy i His Hyi Hlen).
    destruct (decide (x.1 = i)) as [<-|]; [by rewrite insert_at, Hv|by rewrite list_lookup_total_insert_ne].
Qed.
