(* ===== verification/EventQLive.v ===== *)
(** * Draining, saving and restoring the event queue

    Driver unload ([amdgv_sched_process_event_fini]) and the live-update table
    of events not processed, on the abstract queue. *)
From S2P Require Import Prelude Oss Api Dlist ListScan EventQ EventQInv EventQRun EventQOps EventQPush EventQOrder.
Import Dlist ListScan EventQ.
#[local] Open Scope Z_scope.
#[local] Set Warnings "-clear-no-such-hyp".

(** The signals given for a sequence of events, the last one first as in [calls]. *)
Definition signals (s : adapter) : list call := filter is_signal (calls s).
Definition signals_of (flags : Z) (l : list item) : list call := rev (omap (fun x : item => (fun h => Signal h flags) <$> signal x.2) l).
Definition settings (s : adapter) : bool * bool * bool := (is_in_powersaving s, flag_live_migration s, queue_lock s).
Definition drained (q : queue) : queue := mk_queue [] (replicate AMDGV_SCHED_EVENT_LIST_MAX []) None (out q).

Lemma env_split s s' : env s' = env s <-> settings s' = settings s /\ signals s' = signals s.
Proof. unfold env, settings, signals. split; [by intros [= -> -> -> ->]|by intros [[= -> -> ->] ->]]. Qed.

Lemma signals_of_cons flags (x : item) l : signals_of flags (x :: l) = signals_of flags l ++ match signal x.2 with Some h => [Signal h flags] | None => [] end.
Proof. unfold signals_of. cbn. by destruct (signal x.2); [|rewrite app_nil_r]. Qed.

(** Telling the waiter of an event. *)
Lemma wp_notify base q (x : item) flags s : repr base q s ->
  wp (notify x.2 flags) (fun _ s' => repr base q s' /\ settings s' = settings s /\
    signals s' = match signal x.2 with Some h => [Signal h flags] | None => [] end ++ signals s) s.
Proof.
  intros [Hs Hc]. unfold notify. destruct (signal x.2) as [h|]; [|by apply wp_ret].
  apply wp_modify. split_and!; [|done|done]. split; [by eapply shape_frame; [exact Hs|..]|by eapply cursor_frame; [exact Hc|..]].
Qed.

Lemma out_notin base q s (x : item) out : repr base q s -> EventQInv.out q = x :: out -> remove_out x.1 (x :: out) = out.
Proof.
  intros [Hs Hc] Eo. pose proof (shape_out _ _ _ _ _ _ x Hs) as H. rewrite Eo in H. destruct H as [HP _]; [by left|].
  unfold remove_out in *. rewrite filter_cons, decide_False in * by tauto.
  apply Permutation_cons_inv, Permutation_length in HP.
  assert (forall l : list item, length (filter (fun y : item => y.1 <> x.1) l) = length l -> filter (fun y : item => y.1 <> x.1) l = l) as Hid.
  { intros l. induction l as [|y l IH]; intros El; [done|]. rewrite filter_cons in *. case_decide; cbn in El.
    - f_equal. apply IH. lia.
    - pose proof (length_filter (fun y : item => y.1 <> x.1) l). lia. }
  by apply Hid.
Qed.

Lemma upcoming_perm q : well_formed q -> upcoming q ≡ₚ concat (evs q).
Proof.
  intros [H6 Hc]. unfold upcoming, cursor_ok in *. destruct (cursor q) as [[i k]|]; [|done]. destruct Hc as [Hi _]. cbn in Hi.
  rewrite (concat_around (evs q) i Hi). rewrite <- (take_drop k (evs q !!! i)) at 3. solve_Permutation.
Qed.

Lemma upcoming_fuel base q s : repr base q s -> (length (upcoming q) < list_fuel s)%nat.
Proof.
  intros Hr. rewrite (upcoming_perm q) by by eapply repr_wf. destruct Hr as [Hs _].
  pose proof (hr_length _ _ _ (sh_heap _ _ _ _ _ _ Hs)) as Hl. unfold cells, filled, list_fuel in *. cbn in Hl.
  rewrite !length_app, length_fmap, length_app in Hl. lia.
Qed.

(** One step shared by the loops that empty the queue: the next event is taken,
    its waiter told, its entry freed. *)
Lemma wp_take_first base q s : repr base q s -> ring q = [] ->
  wp amdgv_sched_pick_up_next_event (fun o s' => match upcoming q with
    | [] => o = None /\ repr base (drained q) s' /\ env s' = env s
    | x :: l => o = Some x.1 /\ exists q', repr base q' s' /\ env s' = env s /\ heap s' !! x.1 = Some (Some x.2) /\
        ring q' = [] /\ upcoming (give_back q' x.1) = l /\ out (give_back q' x.1) = out q /\ x ∈ out q'
    end) s.
Proof.
  intros Hr Hring. pose proof (pick_upcoming q (repr_wf _ _ _ Hr)) as Hp.
  assert (refresh q = q) as Eq by (unfold refresh; by rewrite Hring). rewrite Eq in Hp.
  eapply wp_mono; [apply (wp_pick base q); [done|left; by rewrite Hring]|]. intros o s' (-> & Hr' & He).
  destruct (pick q) as [[x|] q']; cbn [fst snd] in *.
  - destruct Hp as (-> & _ & Hrg & Ho). split; [done|]. exists q'. split_and!; try done.
    + destruct Hr' as [Hs' _]. by apply (shape_out _ _ _ _ _ _ x Hs'); rewrite Ho; left.
    + cbn [give_back out]. rewrite Ho. by eapply out_notin.
    + rewrite Ho. by left.
  - destruct Hp as [-> ->]. by split_and!.
Qed.

Lemma give_back_ring q p : ring (give_back q p) = ring q.
Proof. done. Qed.

(** ** Load and unload *)

(** The adapter before the queue is set up. *)
Definition before_init (s : adapter) : Prop := heap s = ∅ /\ next_event s = None.

Lemma wp_init_event_lists s : wp init_event_lists (fun _ s' => exists h, lists h (heads (evs empty_queue)) /\ s' = s <| lnk := h |>) s.
Proof.
  unfold init_event_lists.
  eapply wp_mono; [apply (wp_for_each_pre (fun pre s' => exists h, lists h ((fun i => (EventList i, [])) <$> pre) /\ s' = s <| lnk := h |>))|].
  - intros pre i post s' El (h & Hl & ->). eapply wp_eq_link; [done|]. eexists. split; [|done]. cbn [lnk upd].
    rewrite fmap_app. eapply lists_perm; [apply Permutation_cons_append|]. apply (lists_init _ (EventList i)); [exact Hl|].
    intros Hn. unfold nodes in Hn. rewrite list_elem_of_In, in_flat_map in Hn. destruct Hn as (l & Hin & Hn).
    rewrite <- list_elem_of_In in Hin. rewrite <- list_elem_of_In in Hn.
    apply list_elem_of_fmap in Hin as (j & -> & Hj). cbn in Hn.
    apply list_elem_of_singleton in Hn. injection Hn as ->. pose proof (NoDup_seq 0 AMDGV_SCHED_EVENT_LIST_MAX) as Hnd.
    rewrite El in Hnd. apply NoDup_app in Hnd as (_ & Hdis & _). apply (Hdis j Hj). by left.
  - exists (lnk s). split; [|by destruct s]. split; constructor.
  - cbn beta. intros u s' (h & Hl & ->). exists h. by split.
Qed.

Lemma wp_queue_init `{OssEnv} s : before_init s ->
  wp (_ ← init_event_lists; amdgv_sched_event_queue_init) (fun r s' =>
    if oss_alloc_ok (os_allocs (os s)) && oss_lock_ok (os_lock_inits (os s)) then
      r = 0 /\ repr (os_heap (os s) + 1) empty_queue s' /\ queue_lock s' = true /\ os_locks (os s') = os_locks (os s) + 1 /\
      is_in_powersaving s' = is_in_powersaving s /\ flag_live_migration s' = flag_live_migration s /\ signals s' = signals s
    else r = AMDGV_FAILURE /\ os_heap (os s') = os_heap (os s) /\ os_locks (os s') = os_locks (os s)) s.
Proof.
  intros [Hh Hn]. apply wp_bind. eapply wp_mono; [apply wp_init_event_lists|]. intros u s1 (h & Hl & ->).
  unfold amdgv_sched_event_queue_init. apply wp_bind. unfold oss. apply wp_zoom. unfold oss_alloc, wp at 1. cbn [os lnk upd].
  destruct (oss_alloc_ok (os_allocs (os s))); cbn [negb andb]; [|by apply wp_bind, wp_modify, wp_ret].
  apply wp_bind, wp_modify, wp_bind, wp_zoom. unfold oss_lock_init, wp at 1. cbn [os upd os_lock_inits].
  destruct (oss_lock_ok (os_lock_inits (os s))); cbn [negb].
  - apply wp_bind, wp_modify, wp_ret. split_and!; try done. split; [|exact Hn]. split; [|exact Hl|done|].
    + eexists. split_and!; [done|done|done|done|cbn; lia|done|]. intros k x Hx. discriminate Hx.
    + split; [cbn [heap upd]; rewrite Hh; by rewrite map_to_list_empty|by constructor|cbn; lia].
  - apply wp_bind, wp_modify, wp_bind, wp_zoom, wp_modify, wp_ret. split_and!; [done|cbn; lia|done].
Qed.

Lemma wp_queue_fini base q s : repr base q s -> wp amdgv_sched_event_queue_fini (fun _ s' =>
  heap_rep (base - 1) (filled (concat (evs q) ++ out q)) s' /\ event_queue s' = None /\ queue_lock s' = false /\
  os_locks (os s') = os_locks (os s) - (if queue_lock s then 1 else 0) /\ signals s' = signals s) s.
Proof.
  intros [Hs Hc]. unfold amdgv_sched_event_queue_fini. apply wp_bind, wp_gets, wp_bind.
  enough (forall s1, shape base (ring q) None (evs q) (out q) s1 -> queue_lock s1 = false ->
    os_locks (os s1) = os_locks (os s) - (if queue_lock s then 1 else 0) -> signals s1 = signals s ->
    wp (q ← gets event_queue; match q with None => mret tt | Some _ =>
      _ ← ring_loop (fun r => w ← slot r; match entry w with Some p => free_entry p | None => mret tt end);
      _ ← oss oss_free; modify (fun s => s <| event_queue := None |>) end) (fun _ s' =>
      heap_rep (base - 1) (filled (concat (evs q) ++ out q)) s' /\ event_queue s' = None /\ queue_lock s' = false /\
      os_locks (os s') = os_locks (os s) - (if queue_lock s then 1 else 0) /\ signals s' = signals s) s1) as H.
  { apply wp_when; intros El.
    - unfold oss. apply wp_bind, wp_zoom. unfold oss_lock_fini. apply wp_modify, wp_modify. cbn beta.
      apply H; [by eapply shape_frame; [exact Hs|..]|done|by rewrite El|done].
    - apply H; [exact Hs|done|rewrite El; lia|done]. }
  clear Hs Hc. intros s1 Hs Hlk Hos Hsig. pose proof (sh_ring _ _ _ _ _ _ Hs) as Hr. apply wp_bind, wp_gets.
  destruct Hr as (rq & Eq & Hr'). rewrite Eq. assert (ring_rep (ring q) s1) as Hr by by exists rq. apply wp_bind.
  eapply wp_mono; [apply (wp_ring_loop (fun k s' => heap_rep base (cells (drop k (ring q)) None (evs q) (out q)) s' /\
    event_queue s' = Some rq /\ queue_lock s' = false /\ os_locks (os s') = os_locks (os s1) /\ signals s' = signals s1)); [exact Hr|..]|].
  - intros k s' Hk (Hh & Eq' & Hlk' & Hos' & Hsig'). destruct (lookup_lt_is_Some_2 _ _ Hk) as [x Hx].
    destruct (ring_slot _ _ _ _ Hr Hx) as (rq' & Eq'' & Ew). assert (rq' = rq) as -> by congruence.
    apply wp_bind. eapply wp_slot; [exact Eq'|exact Ew|]. cbn [entry]. rewrite (drop_S _ _ _ Hx) in Hh.
    eapply hr_perm in Hh; [|apply cells_ring]. eapply wp_eq_free; [exact Hh|]. intros s2 -> Hh2. by split_and!.
  - split_and!; [apply Hs|done..].
  - cbn beta. intros u s2 (Hh & _ & Hlk2 & Hos2 & Hsig2). rewrite drop_all in Hh. apply wp_bind. unfold oss. apply wp_zoom, wp_modify, wp_modify.
    split_and!; [|done|done|by rewrite <- Hos, <- Hos2|by rewrite <- Hsig, <- Hsig2]. destruct Hh as [H1 H2 H3]. split; [exact H1|exact H2|].
    cbn [os upd os_heap]. rewrite H3. unfold cells, filled. cbn. lia.
Qed.

(** ** Draining *)

Lemma wp_drain_loop base fuel : forall q s, repr base q s -> ring q = [] -> (length (upcoming q) <= fuel)%nat ->
  wp (drain_loop fuel) (fun _ s' => repr base (drained q) s' /\ settings s' = settings s /\
    signals s' = signals_of EVENT_FLAGS_SKIPPED (upcoming q) ++ signals s) s.
Proof.
  induction fuel as [|fuel IH]; intros q s Hr Hring Hf; cbn [drain_loop]; apply wp_bind;
    (eapply wp_mono; [by apply wp_take_first|]); intros o s1; destruct (upcoming q) as [|x l]; cbn [length] in Hf; try lia.
  1,2: intros (-> & Hr1 & He1); apply env_split in He1 as [? ?]; apply wp_ret; split_and!; [done..|].
  1,2: by unfold signals_of; cbn.
  intros (-> & q' & Hr1 & He1 & Hx & Hrg & Hup & Ho & Hin). apply env_split in He1 as [Hs1 Hg1].
  apply wp_bind. eapply wp_event_at; [exact Hx|]. apply wp_bind.
  eapply wp_mono; [by apply (wp_notify base q')|]. intros u s2 (Hr2 & Hs2 & Hg2).
  apply wp_bind. eapply wp_mono; [by apply (wp_free_event base q')|]. intros v s3 [Hr3 He3].
  apply env_split in He3 as [Hs3 Hg3]. eapply wp_mono; [apply (IH (give_back q' x.1)); [done|done|rewrite Hup; lia]|].
  intros w s4 (Hr4 & Hs4 & Hg4). unfold drained in *. rewrite Ho in Hr4. split_and!; [done|congruence|].
  by rewrite Hg4, Hg3, Hg2, Hg1, Hup, signals_of_cons, <- app_assoc.
Qed.

Lemma safe_ids_env rg s s' : safe_ids rg s -> env s' = env s -> safe_ids rg s'.
Proof. intros [?|Hf] He; [by left|right]. unfold env in He. congruence. Qed.

Lemma wp_process_event_fini base q s : repr base q s -> safe_ids (ring q) s ->
  wp amdgv_sched_process_event_fini (fun r s' => r = 0 /\ repr base (drained q) s' /\ settings s' = settings s /\
    signals s' = signals_of EVENT_FLAGS_SKIPPED (upcoming (absorb q)) ++ signals s) s.
Proof.
  intros Hr Hok. pose proof Hr as [Hs Hc]. unfold amdgv_sched_process_event_fini.
  apply wp_bind. eapply wp_mono; [by apply wp_pop_event_list|]. intros u s1 [Hs1 He1].
  apply wp_bind. eapply wp_mono; [apply wp_arrange; [exact Hs1|by eapply safe_ids_env]|]. intros v s2 [Hr2 He2].
  apply wp_bind, wp_gets, wp_bind. fold (absorb q) in Hr2. pose proof (upcoming_fuel _ _ _ Hr2).
  eapply wp_mono; [apply (wp_drain_loop base _ (absorb q)); [done|done|lia]|].
  intros w s3 (Hr3 & Hs3 & Hg3). apply wp_ret. rewrite He1 in He2. apply env_split in He2 as [Hs2 Hg2].
  split_and!; [done|done|congruence|]. by rewrite Hg3, Hg2.
Qed.

(** Everything is released: only events the caller still holds are left. *)
Lemma wp_unload base q s : repr base q s -> safe_ids (ring q) s ->
  wp (_ ← amdgv_sched_process_event_fini; amdgv_sched_event_queue_fini) (fun _ s' =>
    heap_rep (base - 1) (filled (out q)) s' /\ event_queue s' = None /\ queue_lock s' = false /\
    signals s' = signals_of EVENT_FLAGS_SKIPPED (upcoming (absorb q)) ++ signals s) s.
Proof.
  intros Hr Hok. apply wp_bind. eapply wp_mono; [by apply wp_process_event_fini|]. intros r s1 (_ & Hr1 & _ & Hg1).
  eapply wp_mono; [by apply wp_queue_fini|]. intros u s2 (Hh & ? & ? & _ & Hg2). split_and!; [done|done|done|by rewrite Hg2].
Qed.

(** ** Live update *)

Definition exported (x : item) : Prop := id x.2 <> AMDGV_EVENT_SCHED_GPUMON.
Definition live_of (x : item) : live_event := mk_live (idx_vf x.2) (id x.2) (sched_block x.2).

(** Writing a table from index [i] on. *)
Fixpoint write_from {A} (i : nat) (l t : list A) : list A :=
  match l with [] => t | x :: l' => write_from (S i) l' (<[i := x]> t) end.

Lemma write_from_take {A} (l : list A) : forall i t, (i + length l <= length t)%nat ->
  take (i + length l) (write_from i l t) = take i t ++ l.
Proof.
  induction l as [|x l IH]; intros i t Hl; cbn [write_from length] in *; [by rewrite Nat.add_0_r, app_nil_r|].
  replace (i + S (length l))%nat with (S i + length l)%nat by lia. rewrite IH by (rewrite length_insert; lia).
  rewrite (take_S_r _ _ x) by (apply list_lookup_insert_eq; lia). rewrite take_insert_ge by lia. by rewrite <- app_assoc.
Qed.
Lemma write_from_length {A} (l : list A) : forall i t, length (write_from i l t) = length t.
Proof. induction l as [|x l IH]; intros i t; cbn [write_from]; [done|]. by rewrite IH, length_insert. Qed.

Lemma wp_export_loop_q base fuel : forall q s i t, repr base q s -> ring q = [] -> (length (upcoming q) <= fuel)%nat ->
  (i + length (upcoming q) <= AMDGV_EVENT_QUEUE_ENTRY_NUM)%nat ->
  wp (export_loop fuel i t) (fun r s' => repr base (drained q) s' /\ settings s' = settings s /\
    signals s' = signals_of 0 (upcoming q) ++ signals s /\
    let l := live_of <$> filter exported (upcoming q) in r = ((i + length l)%nat, write_from i l t)) s.
Proof.
  induction fuel as [|fuel IH]; intros q s i t Hr Hring Hf Hi; cbn [export_loop]; apply wp_bind;
    (eapply wp_mono; [by apply wp_take_first|]); intros o s1; destruct (upcoming q) as [|x l]; cbn [length] in Hf, Hi; try lia.
  1,2: intros (-> & Hr1 & He1); apply env_split in He1 as [? ?]; apply wp_ret; split_and!; [done..|].
  1,2: cbn; by rewrite Nat.add_0_r.
  intros (-> & q' & Hr1 & He1 & Hx & Hrg & Hup & Ho & Hin). apply env_split in He1 as [Hs1 Hg1].
  apply wp_bind. eapply wp_event_at; [exact Hx|]. apply wp_bind.
  eapply wp_mono; [by apply (wp_notify base q')|]. intros u s2 (Hr2 & Hs2 & Hg2).
  destruct (Nat.leb_spec AMDGV_EVENT_QUEUE_ENTRY_NUM i); [lia|].
  apply wp_bind. eapply wp_mono; [by apply (wp_free_event base q')|]. intros v s3 [Hr3 He3].
  apply env_split in He3 as [Hs3 Hg3]. rewrite filter_cons.
  destruct (Z.eqb_spec (id x.2) AMDGV_EVENT_SCHED_GPUMON) as [Eg|Eg];
    [rewrite decide_False by (intros Hn; by apply Hn)|rewrite decide_True by done];
    (eapply wp_mono; [apply (IH (give_back q' x.1)); [done|done|rewrite Hup; lia..]|]);
    intros w s4 (Hr4 & Hs4 & Hg4 & ->); unfold drained in *; rewrite Ho in Hr4;
    (split_and!; [done|congruence|by rewrite Hg4, Hg3, Hg2, Hg1, Hup, signals_of_cons, <- app_assoc|]); rewrite Hup; [done|].
  cbn. f_equal. lia.
Qed.

Lemma count_step i (evs : list (list item)) : length evs = AMDGV_SCHED_EVENT_LIST_MAX -> (i < AMDGV_SCHED_EVENT_LIST_MAX)%nat ->
  concat (drop i evs) = evs !!! i ++ concat (drop (S i) evs).
Proof.
  intros H6 Hi. destruct (lookup_lt_is_Some_2 evs i) as [l Hl]; [lia|]. rewrite (drop_S _ _ _ Hl). cbn.
  by rewrite (list_lookup_total_correct _ _ _ Hl).
Qed.

Lemma wp_count_lists base q s m : repr base q s -> forall i n, (i + m = AMDGV_SCHED_EVENT_LIST_MAX)%nat ->
  wp (count_lists (seq i m) (u32 n)) (fun r s' => s' = s /\ r = u32 (n + Z.of_nat (length (concat (drop i (evs q)))))) s.
Proof.
  intros [Hs Hc]. pose proof (sh_six _ _ _ _ _ _ Hs) as H6. induction m as [|m IH]; intros i n Hi; cbn [seq count_lists].
  - apply wp_ret. split; [done|]. rewrite drop_ge by lia. cbn. by rewrite Z.add_0_r.
  - apply wp_bind, wp_gets, wp_bind, wp_gets, wp_bind.
    eapply wp_require; [eapply dlist_for_each; [eapply (shape_dlist i); [lia|exact Hs]|eapply shape_fuel; [exact Hs|lia]]|].
    rewrite (count_step i) by lia. unfold ptr_nodes. rewrite length_fmap, length_app, Nat2Z.inj_add, Z.add_assoc.
    assert (u32 (u32 n + Z.of_nat (length (evs q !!! i))) = u32 (n + Z.of_nat (length (evs q !!! i)))) as ->
      by (unfold wrap; by rewrite Z.add_mod_idemp_l).
    apply IH. lia.
Qed.

Lemma wp_export_size base q s : repr base q s -> safe_ids (ring q) s ->
  wp amdgv_sched_export_unprocessed_event_size (fun r s' => repr base (refresh q) s' /\ env s' = env s /\
    r = u32 (Z.of_nat (length (upcoming (refresh q))))) s.
Proof.
  intros Hr Hok. unfold amdgv_sched_export_unprocessed_event_size.
  apply (wp_assoc amdgv_sched_event_queue_empty (fun b => when (negb b) _)), wp_bind.
  eapply wp_mono; [by apply wp_refresh|]. intros u s1 [Hr1 He1].
  eapply wp_mono; [apply (wp_count_lists base (refresh q) s1 AMDGV_SCHED_EVENT_LIST_MAX Hr1 0 0); done|].
  intros r s2 (-> & ->). split_and!; [done|done|]. rewrite (upcoming_perm (refresh q)) by by eapply repr_wf. by rewrite drop_0.
Qed.

Lemma wp_export_events base q s t : repr base q s -> safe_ids (ring q) s ->
  (length (upcoming (refresh q)) <= AMDGV_EVENT_QUEUE_ENTRY_NUM)%nat ->
  wp (amdgv_sched_export_unprocessed_event t) (fun r s' => repr base (drained q) s' /\ settings s' = settings s /\
    signals s' = signals_of 0 (upcoming (refresh q)) ++ signals s /\
    let l := live_of <$> filter exported (upcoming (refresh q)) in
    r = mk_lives (Z.of_nat (length l)) (write_from 0 l (unprocessed_events t))) s.
Proof.
  intros Hr Hok Hlen. unfold amdgv_sched_export_unprocessed_event.
  apply wp_bind. eapply wp_mono; [by apply wp_export_size|]. intros n s1 (Hr1 & He1 & _).
  apply wp_bind, wp_gets, wp_bind. pose proof (upcoming_fuel _ _ _ Hr1).
  eapply wp_mono; [apply (wp_export_loop_q base _ (refresh q)); [done|apply refresh_ring|lia|done]|].
  intros r s2 (Hr2 & Hs2 & Hg2 & ->). apply wp_ret. apply env_split in He1 as [Hs1 Hg1].
  split_and!; [|congruence|by rewrite Hg2, Hg1|done].
  assert (out (refresh q) = out q) as Ho by (unfold refresh; by destruct (ring q)). unfold drained in *. by rewrite Ho in Hr2.
Qed.

Section import.
Context {E : OssEnv}.

(** What the importing driver's ring holds for an imported request: its data
    and its waiter are gone. *)
Definition imported (x : item) (l : live_event) : Prop :=
  idx_vf x.2 = le_idx_vf l /\ id x.2 = le_id l /\ sched_block x.2 = le_sched_id l /\
  signal x.2 = None /\ data x.2 = zero_data /\ status x.2 = AMDGV_EVENT_STATUS_NORMAL.

Lemma wp_import_events base q s (ls : list live_event) n rest : repr base q s -> is_in_powersaving s = false ->
  (forall k, (k < length ls)%nat -> oss_alloc_ok (os_allocs (os s) + k) = true) -> (length (ring q) + length ls <= 255)%nat ->
  n = Z.of_nat (length ls) ->
  wp (amdgv_sched_import_unprocessed_event (mk_lives n (ls ++ rest))) (fun _ s' =>
    exists new, repr base (mk_queue (ring q ++ new) (evs q) (cursor q) (out q)) s' /\ Forall2 imported new ls /\ env s' = env s) s.
Proof.
  intros Hr Hps Hal Hlen ->. unfold amdgv_sched_import_unprocessed_event. cbn [unprocessed_event_count unprocessed_events].
  apply wp_bind, wp_demand; [apply Z.leb_le; rewrite length_app; lia|]. rewrite Nat2Z.id, take_app_length.
  eapply wp_mono; [apply (wp_for_each_pre (fun pre s' => exists new, repr base (mk_queue (ring q ++ new) (evs q) (cursor q) (out q)) s' /\
    Forall2 imported new pre /\ env s' = env s /\ os_allocs (os s') = (os_allocs (os s) + length pre)%nat))|].
  - intros pre x post s' El (new & Hr' & Hf & He & Ho). apply wp_bind.
    eapply wp_mono; [by apply (wp_push base)|]. cbn beta. intros r s2 [He2 Hp].
    pose proof (Forall2_length _ _ _ Hf) as Hnew. pose proof (f_equal length El) as Ell. rewrite length_app in Ell. cbn in Ell.
    assert (admits (mk_queue (ring q ++ new) (evs q) (cursor q) (out q)) (le_id x) s' = true) as Ha.
    { unfold admits. cbn [ring]. rewrite length_app, Ho, Hal by lia. unfold env in He. injection He as -> _ _ _. rewrite Hps.
      rewrite orb_true_r. cbn [andb]. rewrite andb_true_r. apply Z.ltb_lt. lia. }
    rewrite Ha in Hp. destruct Hp as (-> & Hr2 & Ho2). apply wp_ret.
    exists (new ++ [(fresh s', request (le_idx_vf x) (le_id x) (le_sched_id x) None zero_data s')]).
    split_and!; [unfold push in Hr2; cbn in Hr2; by rewrite app_assoc| |by rewrite He2|].
    + by apply Forall2_app, Forall2_cons.
    + rewrite Ho2, Ho, length_app. cbn. lia.
  - exists []. rewrite app_nil_r, Nat.add_0_r. by destruct q.
  - cbn beta. intros u s' (new & ? & ? & ? & _). by exists new.
Qed.
End import.
