(* ===== verification/EventQProps.v ===== *)
(** * Properties of the event queue

    The queue against its abstract specification, its histories, driver unload,
    live update, and what happens to waiters of superseded events. *)
From S2P Require Import Prelude Oss Api Dlist ListScan EventQ EventQInv EventQRun EventQOps EventQPush EventQLive EventQOrder.
Import Dlist ListScan EventQ.
#[local] Open Scope Z_scope.
#[local] Set Warnings "-clear-no-such-hyp".

(** ** The interface of the queue *)

Inductive op :=
| Request (vf eid block : Z) (sg : option nat) (d : event_data) (wake : bool)
| Take | PushBack (x : item) | Release (x : item) | AfterReset | IsQueued (vf eid : Z) | Left.
Inductive answer := Code (r : Z) | Event (o : option nat) | Found (b : bool) | Nothing.

Section interface.
Context {E : OssEnv}.

Definition exec (o : op) : M adapter answer :=
  match o with
  | Request vf eid block sg d wake => r ← amdgv_sched_event_queue_push_ex vf eid block sg d wake; mret (Code r)
  | Take => r ← amdgv_sched_pick_up_next_event; mret (Event r)
  | PushBack x => _ ← amdgv_sched_push_back_event x.1; mret Nothing
  | Release x => _ ← amdgv_sched_free_event x.1; mret Nothing
  | AfterReset => _ ← amdgv_sched_remove_stale_events_after_wgr; mret Nothing
  | IsQueued vf eid => b ← amdgv_sched_is_find_event vf eid; mret (Found b)
  | Left => n ← amdgv_sched_export_unprocessed_event_size; mret (Code n)
  end.

(** The specification; a new request takes the next free entry. *)
Definition spec (o : op) (q : queue) (s : adapter) : answer * queue :=
  match o with
  | Request vf eid block sg d wake =>
      if admits q eid s then (Code 0, push q (fresh s, request vf eid block sg d s)) else (Code AMDGV_FAILURE, q)
  | Take => (Event (fst <$> (pick q).1), (pick q).2)
  | PushBack x => (Nothing, push_back q x)
  | Release x => (Nothing, give_back q x.1)
  | AfterReset => (Nothing, foldl mark_stale q stale_events)
  | IsQueued vf eid => (Found (pending q vf eid), q)
  | Left => (Code (u32 (Z.of_nat (length (upcoming (refresh q))))), refresh q)
  end.

Definition legal (o : op) (q : queue) (s : adapter) : Prop :=
  match o with
  | PushBack x | Release x => x ∈ out q
  | Take | Left => safe_ids (ring q) s
  | _ => True
  end.

Lemma wp_exec base q s o : repr base q s -> legal o q s ->
  wp (exec o) (fun r s' => r = (spec o q s).1 /\ repr base (spec o q s).2 s' /\ env s' = env s) s.
Proof.
  intros Hr Hl. destruct o as [vf eid block sg d wake| |x|x| |vf eid|]; cbn [exec spec fst snd] in *; apply wp_bind.
  - eapply wp_mono; [by apply (wp_push base q)|]. cbn beta. intros r s' [He Hp]. apply wp_ret.
    destruct (admits q eid s); [destruct Hp as (-> & ? & _)|destruct Hp as (-> & ?)]; by split_and!.
  - eapply wp_mono; [by apply (wp_pick base q)|]. cbn beta. intros r s' (-> & ? & ?). by apply wp_ret.
  - eapply wp_mono; [by apply (wp_push_back base q)|]. intros r s' (? & ?). by apply wp_ret.
  - eapply wp_mono; [by apply (wp_free_event base q)|]. intros r s' (? & ?). by apply wp_ret.
  - eapply wp_mono; [by apply (wp_remove_stale base q)|]. intros r s' (? & ?). by apply wp_ret.
  - eapply wp_mono; [by apply (wp_is_find_event base q)|]. intros r s' (-> & ->). by apply wp_ret.
  - eapply wp_mono; [by apply (wp_export_size base q)|]. intros r s' (? & ? & ->). by apply wp_ret.
Qed.

(** ** Histories

    The event thread takes one event at a time; others may send requests at
    any time and power saving may begin or end.  [lm] is whether live
    migration is on: then only known ids may be sent. *)

Definition allowed (o : op) (q : queue) (s : adapter) : Prop :=
  match o with
  | Request _ eid _ _ _ _ => is_Some (event_list_of eid) \/ flag_live_migration s = false
  | PushBack x | Release x => x ∈ out q
  | Take | Left => out q = []
  | _ => True
  end.

Inductive history (base : Z) : queue -> adapter -> Prop :=
| start_history s0 s : before_init s0 -> base = os_heap (os s0) + 1 ->
    (_ ← init_event_lists; amdgv_sched_event_queue_init) s0 = Ret (0, s) -> history base empty_queue s
| power_history q s b : history base q s -> history base q (s <| is_in_powersaving := b |>)
| next_history q s o r s' : history base q s -> allowed o q s -> exec o s = Ret (r, s') -> history base (spec o q s).2 s'.

Lemma queue_init_result s0 s : before_init s0 ->
  (_ ← init_event_lists; amdgv_sched_event_queue_init) s0 = Ret (0, s) -> repr (os_heap (os s0) + 1) empty_queue s.
Proof.
  intros Hb Hrun. pose proof (wp_queue_init s0 Hb) as Hw. unfold wp in Hw. rewrite Hrun in Hw.
  destruct (_ && _); [apply Hw|]. by destruct Hw as [? _].
Qed.

Lemma pick_ring q : ring (pick q).2 = [].
Proof.
  assert (forall q c, ring (take_at q c).2 = ring q) as Ht by (intros ? ?; unfold take_at; by case_match).
  unfold pick. pose proof (refresh_ring q). case_match; [by rewrite Ht|]. case_match; [by rewrite Ht|done].
Qed.

(** What every history keeps. *)
Lemma spec_safe_ids o q s s' : allowed o q s -> safe_ids (ring q) s -> env s' = env s -> safe_ids (ring (spec o q s).2) s'.
Proof.
  intros Ha Hok He. eapply safe_ids_env; [|exact He]. destruct Hok as [Hok|Hok]; [|by right].
  destruct o as [vf eid block sg d wake| |x|x| |vf eid|]; cbn [spec snd] in *; try (by left).
  - destruct (admits q eid s); [|by left]. destruct Ha as [Ha|Ha]; [left|by right]. cbn. apply Forall_app. split; [done|].
    by repeat constructor.
  - left. by rewrite pick_ring.
  - left. unfold push_back. by case_match.
  - left. clear Ha He. revert q Hok. induction stale_events as [|x l IH]; intros q Hok; [done|]. cbn. apply IH. cbn.
    rewrite Forall_fmap. eapply Forall_impl; [exact Hok|]. intros y Hy. unfold known in *. cbn.
    by rewrite <- (proj1 (mark_same x.2 y)) in Hy.
  - left. by rewrite refresh_ring.
Qed.

Lemma spec_tidy o q s : well_formed q -> tidy q -> allowed o q s -> tidy (spec o q s).2.
Proof.
  intros Hwf Ht Ha. destruct o as [vf eid block sg d wake| |x|x| |vf eid|]; cbn [spec snd allowed] in *; try done.
  - destruct (admits q eid s); [|done]. split; apply Ht.
  - by apply tidy_pick.
  - apply tidy_push_back; [apply Hwf|done|done].
  - by apply tidy_give_back.
  - destruct Hwf as [H6 _]. assert (Forall (fun x => x.1 < AMDGV_SCHED_EVENT_LIST_MAX)%nat stale_events) as Hf by repeat constructor.
    revert q H6 Ht. induction Hf as [|x l Hx Hf IH]; intros q H6 Ht; [done|]. cbn. apply IH; [by cbn [mark_stale evs]; rewrite length_insert|].
    apply tidy_mark; [done|lia].
  - apply tidy_refresh; [apply Hwf|done|done].
Qed.

Lemma history_inv base q s : history base q s -> repr base q s /\ tidy q /\ safe_ids (ring q) s.
Proof.
  induction 1 as [s0 s Hb -> Hrun|q s b _ (Hr & Ht & Hok)|q s o r s' _ (Hr & Ht & Hok) Ha Hrun].
  - split_and!; [by apply queue_init_result| |by left; constructor]. split; [|cbn; lia|by constructor].
    intros i Hi. assert ((evs empty_queue) !!! i = []) as ->; [|split; constructor].
    apply list_lookup_total_correct. by apply lookup_replicate_2.
  - split_and!; [|done|exact Hok]. destruct Hr as [Hs Hc]. split; [by eapply shape_frame; [exact Hs|..]|by eapply cursor_frame; [exact Hc|..]].
  - assert (legal o q s) as Hl by by destruct o. pose proof (wp_exec base q s o Hr Hl) as Hw. unfold wp in Hw. rewrite Hrun in Hw.
    destruct Hw as (_ & Hr' & He). split_and!; [done|apply spec_tidy; [by eapply repr_wf|done|done]|by eapply spec_safe_ids].
Qed.

Lemma allowed_legal base o q s : history base q s -> allowed o q s -> legal o q s.
Proof. intros Hh Ha. destruct (history_inv _ _ _ Hh) as (_ & _ & Hok). by destruct o. Qed.

(** The next state of a history. *)
Definition after {A} (m : M adapter A) (s : adapter) : adapter := match m s with Ret (_, s') => s' | Fault => s end.

Lemma history_after base o q s : history base q s -> allowed o q s -> history base (spec o q s).2 (after (exec o) s).
Proof.
  intros Hh Ha. destruct (history_inv _ _ _ Hh) as (Hr & _). pose proof (allowed_legal _ _ _ _ Hh Ha) as Hl.
  destruct (wp_returns _ _ _ (wp_exec base q s o Hr Hl)) as (r & s' & Hrun & _). unfold after. rewrite Hrun. by eapply next_history.
Qed.
End interface.

(** ** Properties *)

Section properties.
Context {E : OssEnv}.

(** C3: every entry point of the queue - sending a request, taking the next
    event, pushing it back or releasing it, marking what a GPU reset made
    stale, asking whether an event is queued, counting what is left - returns,
    with the answer and the new queue of its specification on sequences; no
    entry is touched after it was freed. *)
Theorem event_queue_refines base q s o : repr base q s -> legal o q s ->
  exists s', exec o s = Ret ((spec o q s).1, s') /\ repr base (spec o q s).2 s' /\ env s' = env s.
Proof.
  intros Hr Hl. destruct (wp_returns _ _ _ (wp_exec base q s o Hr Hl)) as (r & s' & Hrun & -> & ?). by exists s'.
Qed.

(** C13: in every history of requests, taken, pushed back and released events,
    resets and power saving, each further call returns; the ring holds at most
    255 requests; the entries allocated are those in the ring, on the lists and
    handed out; each event is on the list of its id; and lists 0, 2 and 4 hold
    at most one event for each VF. *)
Theorem event_queue_history_safe base q s : history base q s ->
  (forall o, allowed o q s -> exists r s', exec o s = Ret (r, s') /\ history base (spec o q s).2 s') /\
  (length (ring q) <= 255)%nat /\
  os_heap (os s) = base + Z.of_nat (length (ring q) + length (concat (evs q)) + length (out q)) /\
  (forall i, (i < AMDGV_SCHED_EVENT_LIST_MAX)%nat -> Forall (on_list i) (evs q !!! i) /\
     (i ∈ single_lists -> NoDup (vfs (evs q !!! i)))).
Proof.
  intros Hh. destruct (history_inv _ _ _ Hh) as (Hr & Ht & Hok). pose proof Hr as [Hs Hc]. split_and!.
  - intros o Ha. destruct (wp_returns _ _ _ (wp_exec base q s o Hr (allowed_legal _ _ _ _ Hh Ha))) as (r & s' & Hrun & _).
    exists r, s'. split; [done|by eapply next_history].
  - by destruct (sh_ring _ _ _ _ _ _ Hs) as (? & _ & _ & _ & ? & _).
  - rewrite (hr_live _ _ _ (sh_heap _ _ _ _ _ _ Hs)). unfold cells, waiting, filled. cbn. rewrite !length_app, !length_fmap, length_app. lia.
  - intros i Hi. apply Ht. by rewrite (sh_six _ _ _ _ _ _ Hs).
Qed.

(** Taking events until there is none. *)
Fixpoint take_all (fuel : nat) : M adapter (list nat) :=
  o ← amdgv_sched_pick_up_next_event;
  match o, fuel with
  | None, _ => mret []
  | Some p, O => fault
  | Some p, S f => l ← take_all f; mret (p :: l)
  end.

Lemma wp_take_all base fuel : forall q s, repr base q s -> safe_ids (ring q) s -> (length (upcoming (refresh q)) <= fuel)%nat ->
  wp (take_all fuel) (fun l s' => l = (upcoming (refresh q)).*1 /\
    exists q', repr base q' s' /\ concat (evs q') = [] /\ ring q' = [] /\ out q' = rev (upcoming (refresh q)) ++ out q) s.
Proof.
  induction fuel as [|fuel IH]; intros q s Hr Hok Hf; cbn [take_all]; apply wp_bind;
    (eapply wp_mono; [by apply (wp_pick base q)|]); intros o s1 (-> & Hr1 & He1);
    pose proof (pick_upcoming q (repr_wf _ _ _ Hr)) as Hp; destruct (pick q) as [[x|] q1]; cbn [fst snd fmap option_fmap option_map] in *.
  1: destruct Hp as (Hup & _); rewrite Hup in Hf; cbn in Hf; lia.
  1,3: destruct Hp as (Hup & ->); rewrite Hup; apply wp_ret; split; [done|]; by eexists; split_and!.
  destruct Hp as (Hup & Hwf & Hrg & Ho). rewrite Hup in *. cbn [length] in Hf. apply wp_bind.
  assert (refresh q1 = q1) as Eq1 by (unfold refresh; by rewrite Hrg).
  eapply wp_mono; [apply (IH q1); [done|left; by rewrite Hrg|rewrite Eq1; lia]|]. rewrite Eq1.
  intros l s2 (-> & q2 & Hr2 & Hc2 & Hrg2 & Ho2). apply wp_ret. split; [done|]. exists q2. split_and!; [done|done|done|].
  rewrite Ho2, Ho. cbn. by rewrite <- app_assoc.
Qed.

(** C33: events are taken in the order of the six lists, and on a list in the
    order they arrived; each is taken exactly once, and then there is none:
    when requests have arrived, taking starts from the first list, otherwise
    from where it was. *)
Theorem event_queue_order base q s fuel : repr base q s -> safe_ids (ring q) s -> (length (upcoming (refresh q)) <= fuel)%nat ->
  (exists s' q', take_all fuel s = Ret ((upcoming (refresh q)).*1, s') /\ repr base q' s' /\ concat (evs q') = []) /\
  upcoming (refresh q) ≡ₚ concat (evs (refresh q)) /\
  (ring q <> [] -> upcoming (refresh q) = concat (foldl dispatch (evs q) (ring q))).
Proof.
  intros Hr Hok Hf. split_and!.
  - destruct (wp_returns _ _ _ (wp_take_all base fuel q s Hr Hok Hf)) as (l & s' & Hrun & -> & q' & ? & ? & _). by exists s', q'.
  - apply upcoming_perm. apply refresh_wf. by eapply repr_wf.
  - intros Hne. unfold refresh. destruct (ring q) eqn:Eq; [done|]. unfold upcoming. cbn. by rewrite Eq.
Qed.

(** C35: driver unload ends: the events of the ring are first sorted into the
    lists, each superseding the event it makes redundant; then the waiter of
    every event left on the lists is told it was skipped, once and in order,
    and every entry, the ring and its lock are released.  The waiter of a
    superseded event is not told anything ([event_superseded_waiter]). *)
Theorem event_queue_unload base q s : history base q s -> out q = [] -> exists s',
  (_ ← amdgv_sched_process_event_fini; amdgv_sched_event_queue_fini) s = Ret (tt, s') /\
  heap s' = ∅ /\ os_heap (os s') = base - 1 /\ event_queue s' = None /\ queue_lock s' = false /\
  signals s' = signals_of EVENT_FLAGS_SKIPPED (concat (foldl dispatch (evs q) (ring q))) ++ signals s.
Proof.
  intros Hh Ho. destruct (history_inv _ _ _ Hh) as (Hr & _ & Hok).
  destruct (wp_returns _ _ _ (wp_unload base q s Hr Hok)) as ([] & s' & Hrun & Hheap & ? & ? & ?). exists s'. rewrite Ho in Hheap.
  split_and!; try done.
  - destruct Hheap as [Hm _ _]. by apply map_to_list_empty_iff, Permutation_nil_r.
  - rewrite (hr_live _ _ _ Hheap). cbn. lia.
Qed.

(** C36: what a live update keeps of the queue: importing the table the old
    driver exported gives the new driver's ring one request for each that was
    waiting, in the order they would have been taken, except the management
    requests (GPUMON), whose callers do not survive.  Only the VF, the id and
    the scheduler block of a request are carried over: its data are zero, its
    waiter is gone and its status is the normal one.  The old driver's queue
    is left empty.  This holds for at most 255 requests, what fits the new
    ring, when the new driver is not in power saving and its allocations
    succeed. *)
Theorem event_live_update_roundtrip base q s t base' n : repr base q s -> safe_ids (ring q) s ->
  (length (upcoming (refresh q)) <= 255)%nat -> length (unprocessed_events t) = AMDGV_EVENT_QUEUE_ENTRY_NUM ->
  repr base' empty_queue n -> is_in_powersaving n = false ->
  (forall k, (k < 255)%nat -> oss_alloc_ok (os_allocs (os n) + k) = true) ->
  exists tbl s' n' new, amdgv_sched_export_unprocessed_event t s = Ret (tbl, s') /\ repr base (drained q) s' /\
    amdgv_sched_import_unprocessed_event tbl n = Ret (tt, n') /\
    repr base' (mk_queue new (evs empty_queue) None []) n' /\
    Forall2 (fun y x => idx_vf y.2 = idx_vf x.2 /\ id y.2 = id x.2 /\ sched_block y.2 = sched_block x.2 /\
        signal y.2 = None /\ data y.2 = zero_data /\ status y.2 = AMDGV_EVENT_STATUS_NORMAL)
      new (filter exported (upcoming (refresh q))).
Proof.
  intros Hr Hok Hlen Ht Hn Hps Hal. set (l := live_of <$> filter exported (upcoming (refresh q))).
  assert (length l <= 255)%nat as Hl.
  { unfold l. rewrite length_fmap. pose proof (length_filter exported (upcoming (refresh q))). lia. }
  destruct (wp_returns _ _ _ (wp_export_events base q s t Hr Hok ltac:(unfold AMDGV_EVENT_QUEUE_ENTRY_NUM; lia))) as (tbl & s' & Hrun & Hr' & _ & _ & Etbl).
  cbv zeta in Etbl. fold l in Etbl. pose proof (write_from_take l 0 (unprocessed_events t)) as Hw. rewrite take_0 in Hw. cbn [Nat.add app] in Hw.
  rewrite <- (take_drop (length l) (write_from 0 l (unprocessed_events t))), Hw in Etbl by (rewrite Ht; unfold AMDGV_EVENT_QUEUE_ENTRY_NUM; lia).
  edestruct (wp_returns _ _ _ (wp_import_events base' empty_queue n l _ (drop (length l) (write_from 0 l (unprocessed_events t))) Hn Hps
    ltac:(intros k Hk; apply Hal; lia) ltac:(cbn; lia) eq_refl)) as ([] & n' & Hrun' & new & Hr2 & Hf & _).
  exists tbl, s', n', new. rewrite Etbl. split_and!; [by rewrite Etbl in Hrun|done|done|done|].
  unfold l in Hf. rewrite Forall2_fmap_r in Hf. eapply Forall2_impl; [exact Hf|]. by intros y x.
Qed.

(** ** Waiters that are never told *)

Lemma fst_inj (l : list item) x z : NoDup l.*1 -> x ∈ l -> z ∈ l -> z.1 = x.1 -> z = x.
Proof.
  intros Hn (i & Hi)%list_elem_of_lookup (j & Hj)%list_elem_of_lookup Ez.
  assert (j = i) as ->; [|congruence]. eapply NoDup_lookup; [exact Hn|rewrite list_lookup_fmap, Hj; cbn; by rewrite Ez|].
  by rewrite list_lookup_fmap, Hi.
Qed.

(** Requests that drop the older events of their VF drop any event of that
    VF on the list, of whatever id: its entry is freed when the newer request
    is arranged, and a caller waiting for it is not signalled. *)
Theorem event_superseded_waiter base q s x y i : repr base q s -> safe_ids (ring q) s -> ring q = [y] ->
  (i < AMDGV_SCHED_EVENT_LIST_MAX)%nat -> x ∈ evs q !!! i -> event_list_of (id y.2) = Some i ->
  drops_older (id y.2) = true -> idx_vf x.2 = idx_vf y.2 ->
  exists o s', amdgv_sched_pick_up_next_event s = Ret (o, s') /\ heap s' !! x.1 = None /\ signals s' = signals s.
Proof.
  intros Hr Hok Hring Hi Hx Ei Hd Hvf. pose proof (repr_wf _ _ _ Hr) as Hwf.
  destruct (wp_returns _ _ _ (wp_pick base q s Hr Hok)) as (o & s' & Hrun & _ & Hr' & He). exists o, s'.
  split_and!; [done| |by apply env_split in He as [_ ?]]. apply eq_None_not_Some. intros [c Hc].
  apply elem_of_map_to_list in Hc. destruct Hr as [Hs _]. pose proof (sh_six _ _ _ _ _ _ Hs) as H6.
  pose proof (hr_nodup _ _ _ (sh_heap _ _ _ _ _ _ Hs)) as Hnd. unfold cells in Hnd. rewrite Hring in Hnd. cbn in Hnd.
  assert (forall l, (filled l).*1 = l.*1) as Hfst by (intros l; unfold filled; by rewrite <- list_fmap_compose).
  rewrite Hfst in Hnd. apply NoDup_cons in Hnd as [Hy Hnd].
  rewrite (fmap_Permutation fst _ _ (Permutation_app_tail (out q) (concat_split (evs q) i ltac:(lia)))) in Hnd.
  rewrite <- app_assoc in Hnd.
  assert (exists z, z.1 = x.1 /\ z ∈ (of_other_vf (idx_vf y.2) (evs q !!! i) ++ [y]) ++ concat (delete i (evs q)) ++ out q) as (z & Ez & Hz).
  { destruct Hr' as [Hs' _]. rewrite (hr_cells _ _ _ (sh_heap _ _ _ _ _ _ Hs')) in Hc. unfold cells in Hc.
    rewrite pick_ring in Hc. cbn [waiting fmap list_fmap app default] in Hc. apply list_elem_of_fmap in Hc as (z & Ez & Hz).
    injection Ez as Ez _. exists z. split; [done|]. pose proof (pick_upcoming q Hwf) as Hp. pose proof (refresh_wf q Hwf) as Hwf1.
    assert (evs (refresh q) = <[i := of_other_vf (idx_vf y.2) (evs q !!! i) ++ [y]]> (evs q)) as Er.
    { unfold refresh, absorb. rewrite Hring. cbn. unfold dispatch. by rewrite Ei, Hd. }
    pose proof (concat_insert (evs q) i (of_other_vf (idx_vf y.2) (evs q !!! i) ++ [y]) ltac:(lia)) as HP.
    rewrite <- Er, <- (upcoming_perm (refresh q) Hwf1) in HP. rewrite app_assoc, <- HP.
    destruct (pick q) as [[w|] q1]; cbn [fst snd] in *.
    - destruct Hp as (-> & Hwf2 & _ & Ho). rewrite (upcoming_perm q1 Hwf2). rewrite Ho in Hz. set_solver.
    - destruct Hp as (-> & ->). cbn in Hz. set_solver. }
  assert (x.1 ∉ (concat (delete i (evs q)) ++ out q).*1) as Hout.
  { rewrite fmap_app in Hnd. apply NoDup_app in Hnd as (_ & Hdis & _). apply Hdis. by apply list_elem_of_fmap_2. }
  apply elem_of_app in Hz as [Hz|Hz]; [|apply Hout; rewrite <- Ez; by apply list_elem_of_fmap_2].
  apply elem_of_app in Hz as [Hz| ->%list_elem_of_singleton].
  - apply list_elem_of_filter in Hz as [Hne Hz]. rewrite fmap_app in Hnd. apply NoDup_app in Hnd as (Hnd & _).
    assert (z = x) as -> by by eapply fst_inj. done.
  - apply Hy. rewrite Ez. apply list_elem_of_fmap. exists x. split; [done|]. rewrite (concat_split (evs q) i) by lia. set_solver.
Qed.

(** Four kinds of guest requests are not known to the function that pushes
    an event back: deferring one, as is done while the scheduler is locked or
    in power saving, frees it without an answer. *)
Theorem event_push_back_frees base q s x : repr base q s -> x ∈ out q -> listed (id x.2) not_pushed_back = true ->
  exists s', amdgv_sched_push_back_event x.1 s = Ret (tt, s') /\ repr base (give_back q x.1) s' /\
    (length (concat (evs (give_back q x.1)) ++ out (give_back q x.1)) + 1 = length (concat (evs q) ++ out q))%nat /\
    signals s' = signals s.
Proof.
  intros Hr Hx Hid. destruct (wp_returns _ _ _ (wp_push_back base q x s Hr Hx)) as ([] & s' & Hrun & Hr' & He).
  unfold push_back, push_back_list in Hr'. rewrite Hid in Hr'. exists s'. split_and!; [done|done| |by apply env_split in He as [_ ?]].
  destruct Hr as [Hs _]. destruct (shape_out _ _ _ _ _ _ _ Hs Hx) as [HP _]. apply Permutation_length in HP. cbn in HP.
  rewrite !length_app. cbn [give_back evs out]. lia.
Qed.
End properties.

(** ** Concrete runs *)

Section witnesses.
#[local] Instance quiet : OssEnv := env_of 0 1 [] [].

Definition blank : adapter :=
  mk_adapter None 0 0 false (mk_links ∅ ∅) ∅ 0 0 None false false AMDGV_EVENT_THREAD_IDLE oss_boot [].
Definition booted : adapter := after (_ ← init_event_lists; amdgv_sched_event_queue_init) blank.
Definition step_queue (qs : queue * adapter) (o : op) : queue * adapter := ((spec o qs.1 qs.2).2, after (exec o) qs.2).
Definition run_ops (l : list op) : queue * adapter := foldl step_queue (empty_queue, booted) l.

Lemma booted_history : history 1 empty_queue booted.
Proof. apply (start_history 1 blank); [by split|done|]. vm_compute. reflexivity. Qed.

Lemma run_history l : forall qs, history 1 qs.1 qs.2 ->
  (fix ok (l : list op) (qs : queue * adapter) : Prop :=
     match l with [] => True | o :: l' => allowed o qs.1 qs.2 /\ ok l' (step_queue qs o) end) l qs ->
  history 1 (foldl step_queue qs l).1 (foldl step_queue qs l).2.
Proof.
  induction l as [|o l IH]; intros qs Hh Hok; [done|]. destruct Hok as [Ha Hok]. cbn. apply IH; [|done].
  by apply history_after.
Qed.

(** A whole-GPU reset with a waiter, a guest's request for the GPU, then a RAS event. *)
Definition reset_gpu : op := Request 0 AMDGV_EVENT_SCHED_FORCE_RESET_GPU 0 (Some 7%nat) zero_data true.
Definition guest_init : op := Request 1 AMDGV_EVENT_REQ_GPU_INIT 0 None zero_data true.
Definition ras_umc : op := Request 0 AMDGV_EVENT_SCHED_RAS_UMC 0 None zero_data true.
Definition ras_count : op := Request 1 AMDGV_EVENT_SCHED_VF_REQ_RAS_ERROR_COUNT 0 None zero_data true.
Definition busy : queue * adapter := run_ops [reset_gpu; guest_init].
Definition waiting_reset : queue * adapter := run_ops [reset_gpu; Left; ras_umc].
Definition counting : queue * adapter := run_ops [ras_count; Take].

Ltac run_allowed := apply (run_history _ (empty_queue, booted) booted_history);
  repeat split; try done; try (left; vm_compute; by eexists).
Lemma busy_history : history 1 busy.1 busy.2.
Proof. run_allowed. Qed.
Lemma waiting_reset_history : history 1 waiting_reset.1 waiting_reset.2.
Proof. run_allowed. Qed.
Lemma counting_history : history 1 counting.1 counting.2.
Proof. run_allowed. Qed.

Lemma event_queue_refines_witness : exists s', exec Take busy.2 = Ret ((spec Take busy.1 busy.2).1, s') /\
  repr 1 (spec Take busy.1 busy.2).2 s' /\ env s' = env busy.2.
Proof. destruct (history_inv _ _ _ busy_history) as (Hr & _ & Hok). apply (event_queue_refines 1); [exact Hr|exact Hok]. Defined.

Lemma event_queue_history_safe_witness :
  (length (ring busy.1) <= 255)%nat /\ exists r s', exec Take busy.2 = Ret (r, s') /\ history 1 (spec Take busy.1 busy.2).2 s'.
Proof.
  destruct (event_queue_history_safe 1 busy.1 busy.2 busy_history) as (Hn & Hlen & _). split; [exact Hlen|].
  apply (Hn Take). vm_compute. reflexivity.
Defined.

Lemma event_queue_order_witness : exists s', take_all 2 busy.2 = Ret ([0; 1]%nat, s').
Proof.
  destruct (history_inv _ _ _ busy_history) as (Hr & _ & Hok).
  destruct (event_queue_order 1 busy.1 busy.2 2 Hr Hok) as ((s' & q' & Hrun & _) & _); [vm_compute; lia|].
  exists s'. rewrite Hrun. vm_compute. reflexivity.
Defined.

Lemma event_queue_unload_witness : exists s',
  (_ ← amdgv_sched_process_event_fini; amdgv_sched_event_queue_fini) busy.2 = Ret (tt, s') /\ heap s' = ∅ /\
  signals s' = [Signal 7 EVENT_FLAGS_SKIPPED].
Proof.
  destruct (event_queue_unload 1 busy.1 busy.2 busy_history) as (s' & Hrun & Hh & _ & _ & _ & Hg); [vm_compute; reflexivity|].
  exists s'. split; [exact Hrun|]. split; [exact Hh|]. rewrite Hg. vm_compute. reflexivity.
Defined.

Lemma event_live_update_roundtrip_witness : exists tbl s' n' new,
  amdgv_sched_export_unprocessed_event (mk_lives 0 (replicate 256 (mk_live 0 0 0))) busy.2 = Ret (tbl, s') /\
  amdgv_sched_import_unprocessed_event tbl booted = Ret (tt, n') /\ length new = 2%nat /\
  repr 1 (mk_queue new (evs empty_queue) None []) n'.
Proof.
  destruct (history_inv _ _ _ busy_history) as (Hr & _ & Hok). destruct (history_inv _ _ _ booted_history) as (Hb & _).
  destruct (event_live_update_roundtrip 1 busy.1 busy.2 (mk_lives 0 (replicate 256 (mk_live 0 0 0))) 1 booted Hr Hok)
    as (tbl & s' & n' & new & Hx & _ & Hi & Hn & Hf); [vm_compute; lia|reflexivity|exact Hb|reflexivity|intros; reflexivity|].
  exists tbl, s', n', new. split; [exact Hx|]. split; [exact Hi|]. split; [|exact Hn]. rewrite (Forall2_length _ _ _ Hf). vm_compute. reflexivity.
Defined.

Lemma event_superseded_waiter_witness : exists o s', amdgv_sched_pick_up_next_event waiting_reset.2 = Ret (o, s') /\
  heap s' !! 0%nat = None /\ signals s' = signals waiting_reset.2.
Proof.
  destruct (history_inv _ _ _ waiting_reset_history) as (Hr & _ & Hok).
  apply (event_superseded_waiter 1 waiting_reset.1 waiting_reset.2
    (0%nat, mk_event 0 AMDGV_EVENT_SCHED_FORCE_RESET_GPU 0 0 0 (Some 7%nat) zero_data)
    (1%nat, mk_event 0 AMDGV_EVENT_SCHED_RAS_UMC 0 0 1 None zero_data) 0 Hr Hok); try (vm_compute; reflexivity).
  - unfold AMDGV_SCHED_EVENT_LIST_MAX. lia.
  - apply list_elem_of_lookup. exists 0%nat. vm_compute. reflexivity.
Defined.

Lemma event_push_back_frees_witness : exists s', amdgv_sched_push_back_event 0 counting.2 = Ret (tt, s') /\
  signals s' = signals counting.2.
Proof.
  destruct (history_inv _ _ _ counting_history) as (Hr & _ & Hok).
  destruct (event_push_back_frees 1 counting.1 counting.2
    (0%nat, mk_event 1 AMDGV_EVENT_SCHED_VF_REQ_RAS_ERROR_COUNT 0 0 0 None zero_data) Hr) as (s' & Hrun & _ & _ & Hg).
  - apply list_elem_of_lookup. exists 0%nat. vm_compute. reflexivity.
  - vm_compute. reflexivity.
  - exists s'. split; [exact Hrun|exact Hg].
Defined.

(** With live migration on, a request of an unknown id is read after it was freed. *)
Example unknown_id_use_after_free :
  amdgv_sched_pick_up_next_event (after (exec (Request 0 0 0 None zero_data true)) (booted <| flag_live_migration := true |>)) = Fault.
Proof. vm_compute. reflexivity. Qed.
End witnesses.
