(* ===== verification/Switch.v ===== *)
(** * The manual world switch (src/libgv/core/amdgv_sched_switch.c)

    The scheduler that shares one engine between VFs in software: a list of
    active VFs, a time slice and an account of overrun time for each, a thread
    that saves the VF on the engine, picks the next one and loads it.  It is
    the client of the state machines of [WsState]: [amdgv_load_world_context]
    and [amdgv_save_world_context] call [amdgv_logical_sched_state_run] and
    [_pause] on the adapter's state [sw_hw].

    [ws] is the index of the world switch in [sched.world_switch]; the fields
    of struct amdgv_sched_world_switch the state machines read are in
    [Gpuiov.world_switch], the others and the member [manual] in
    [manual_switch].  Every operation runs under [switching_lock].  What leaves
    the component (timer, event, reset requests, gpumon, PTL, RLC-V state) is
    recorded in [sw_calls], newest first. *)
From S2P Require Import Prelude Oss Api Mask Gpuiov WsState Dlist ListScan.
Import Dlist ListScan.
#[local] Open Scope Z_scope.

(** ** Constants *)

Definition DEFAULT_GFX_TIME_SLICE : Z := 6000.
Definition DEFAULT_GFX_TIME_SLICE_1VF : Z := 0xffffffff.
Definition DEFAULT_GFX_TIME_SLICE_1VF_SELF_SW : Z := 500 * 1000.
Definition DEFAULT_MM_TIME_SLICE : Z := 255000.
Definition MAX_VF_SKIP_CNT : Z := 8.
Definition HLIQUID_ALL_VF_IDLE_MIN_TS : Z := 500.
Definition AMDGV_HISTOGRAM_SIZE : Z := 32.
Definition AMDGV_BP_MODE_DISABLE : Z := 0.
Definition AMDGV_BP_MODE_1 : Z := 1.
Definition AMDGV_VF_CONTEXT_ABNORMAL : Z := 3.
Definition AMDGV_SCHED_FAIRNESS : Z := 3.

(** ** State *)

(** The list heads: that of the active list and the one in each entry of
    [manual.array_vf]. *)
Inductive sw_node := Head | Vf (i : Z).
#[export] Instance sw_node_eq_dec : EqDecision sw_node.
Proof. solve_decision. Defined.
#[export] Instance sw_node_countable : Countable sw_node :=
  inj_countable' (fun n => match n with Head => None | Vf i => Some i end)
    (fun o => match o with None => Head | Some i => Vf i end)
    (fun n => match n with Head => eq_refl | Vf _ => eq_refl end).

(** struct amdgv_sched_active_vf_entry. *)
Record active_vf_entry := mk_active_vf {
  idx_vf : Z;
  time_slice : Z;
  last_time_slice : Z;
  dummy_vf : bool;
  start_ts : Z;
  beyond_time_cycle : Z;
  init_time : Z;
  total_time : Z;
  skip_next_punish : bool;
  skip_cnt : Z;
}.
#[export] Instance eta_active_vf_entry : Eta active_vf_entry := fun r =>
  mk_active_vf (idx_vf r) (time_slice r) (last_time_slice r) (dummy_vf r) (start_ts r)
    (beyond_time_cycle r) (init_time r) (total_time r) (skip_next_punish r) (skip_cnt r).

(** The two functions [amdgv_schedule_vfs] can point to. *)
Inductive schedule_fn := amdgv_schedule_vfs_default_ptr | amdgv_schedule_vfs_liquid_ptr.

Record manual_switch := mk_manual {
  active_links : links (N := sw_node);
  sw_array : list active_vf_entry;       (* manual.array_vf *)
  fairness_mode : bool;
  self_switch_trigger : bool;
  amdgv_schedule_vfs : schedule_fn;
  has_lock : bool;                       (* switching_lock is valid *)
  sched_mode : Z;
  vf_timeout : Z;
  hliquid_min_ts : Z;
  allowed_vf_assignment : Z;
}.
#[export] Instance eta_manual_switch : Eta manual_switch := fun r =>
  mk_manual (active_links r) (sw_array r) (fairness_mode r) (self_switch_trigger r)
    (amdgv_schedule_vfs r) (has_lock r) (sched_mode r) (vf_timeout r) (hliquid_min_ts r)
    (allowed_vf_assignment r).

(** struct amdgv_histogram. *)
Record histogram := mk_hist { h_start : Z; h_interval : Z; h_count : list Z; h_total : Z }.
#[export] Instance eta_histogram : Eta histogram := fun r =>
  mk_hist (h_start r) (h_interval r) (h_count r) (h_total r).

(** Fields of the adapter that the world switch only reads, [num_vf] apart. *)
Record sw_config := mk_sw_config {
  num_vf : Z;
  bp_mode : Z;
  force_switch_vf_idx : Z;
  in_live_update : bool;
  pf_end_init : bool;          (* array_vf[PF].vf_status == END_INIT *)
  ptl_on : bool;               (* PTL supported, enabled and with functions *)
  golden_init : bool;          (* vbios.golden_init is set *)
  has_asic_time_slice : bool;  (* get_asic_time_slice is amdgv_sched_get_asic_time_slice *)
  vf_time_slice : list Z;      (* sched.array_vf[].time_slice[sched_block] *)
}.
#[export] Instance eta_sw_config : Eta sw_config := fun r =>
  mk_sw_config (num_vf r) (bp_mode r) (force_switch_vf_idx r) (in_live_update r) (pf_end_init r)
    (ptl_on r) (golden_init r) (has_asic_time_slice r) (vf_time_slice r).

Inductive sw_call :=
| TimerStart (us : Z)
| TimerPause
| SignalEvent
| SignalEventForever
| QueueResetVf (vf block : Z)
| SaveRlcv (vf hw_sched_id : Z)
| GoldenInit
| PtlEnable
| PtlDisable
| LoadStartTime (vf : Z) (is_init : bool)
| SaveEndTime (vf : Z)
| BpPause.

Record switcher {hw : Type} := mk_switcher {
  sw_hw : adapter hw;
  sw_manual : manual_switch;
  sw_conf : sw_config;
  run_summation : list (list histogram);  (* array_vf[].time_log[].gfx_run_summation_us *)
  sw_oss : oss_state;
  sw_calls : list sw_call;
}.
Arguments switcher : clear implicits.
Arguments mk_switcher {hw}.
#[export] Instance eta_switcher {hw} : Eta (switcher hw) := fun r =>
  mk_switcher (sw_hw r) (sw_manual r) (sw_conf r) (run_summation r) (sw_oss r) (sw_calls r).

Section switch.
Context {hw : Type} `{HW : WsHw hw} {E : OssEnv}.
Variable ws : Z.
Abbreviation MS := (M (switcher hw)).

(** ** Access to the state *)

Definition on_hw {A} (m : M (adapter hw) A) : MS A :=
  zoom sw_hw (fun a s => s <| sw_hw := a |>) m.
Definition on_oss {A} (m : M oss_state A) : MS A :=
  zoom sw_oss (fun o s => s <| sw_oss := o |>) m.
Definition now : MS Z := on_oss oss_get_time_stamp.
Definition call (c : sw_call) : MS unit := modify (fun s => s <| sw_calls := c :: sw_calls s |>).
Definition conf {A} (f : sw_config -> A) : MS A := gets (fun s => f (sw_conf s)).
Definition manual {A} (f : manual_switch -> A) : MS A := gets (fun s => f (sw_manual s)).
Definition set_manual (f : manual_switch -> manual_switch) : MS unit :=
  modify (fun s => s <| sw_manual := f (sw_manual s) |>).
Definition wsw : MS world_switch := on_hw (ws_at ws).
Definition set_wsw (f : world_switch -> world_switch) : MS unit := on_hw (upd_ws ws f).

(** [manual.array_vf[i]]. *)
Definition entry (i : Z) : MS active_vf_entry := fun s =>
  require (sw_array (sw_manual s) !! Z.to_nat i) s.
Definition set_entry (i : Z) (f : active_vf_entry -> active_vf_entry) : MS unit :=
  e ← entry i;
  set_manual (fun m => m <| sw_array := <[Z.to_nat i := f e]> (sw_array m) |>).

(** [container_of]: the head of the list is in no entry. *)
Definition slot_of (n : sw_node) : MS Z :=
  match n with Head => fault | Vf i => mret i end.

Definition sw_links (s : switcher hw) : links (N := sw_node) := active_links (sw_manual s).
Definition link_op (f : links (N := sw_node) -> option (links (N := sw_node))) : MS unit :=
  l ← manual active_links; l' ← require (f l);
  set_manual (fun m => m <| active_links := l' |>).
Definition list_next (n : sw_node) : MS sw_node := next_of sw_links n.
Definition list_prev (n : sw_node) : MS sw_node := prev_of sw_links n.
Definition move_tail (n : sw_node) : MS unit := link_op (amdgv_list_move_tail n Head).

(** The active list has at most one node per slot. *)
Definition list_fuel : nat := 33.

Definition AMDGV_IS_IDX_INVALID (i : Z) : MS bool :=
  n ← conf num_vf; mret (negb (i =? AMDGV_PF_IDX) && (n <=? i)).
Definition AMDGV_INVALID_IDX_VF : MS Z :=
  on_hw (gets (fun a => u32 (max_num_vf (config a) + 1))).
Definition active_vf (i : Z) : MS bool := on_hw (is_active_vf i).
(** The macros [set_to_active_vf], [set_to_avail_vf] and the like. *)
Definition set_vf_state (i st : Z) : MS unit := on_hw (
  v ← vf_info i;
  modify (fun a => a <| sched_vfs := <[Z.to_nat i := v <| sv_state := st |> ]> (sched_vfs a) |>)).
Definition set_to_active_vf (i : Z) : MS unit := set_vf_state i AMDGV_SCHED_ACTIVE.

(** ** Time slices (amdgv_sched.c, amdgv_sched.h) *)

Definition amdgv_sched_get_asic_time_slice_gfx (num : Z) : MS Z :=
  act ← active_vf AMDGV_PF_IDX;
  if (1 <? num) || act then mret DEFAULT_GFX_TIME_SLICE
  else if num =? 1 then
    dis ← on_hw (has_flag AMDGV_FLAG_DISABLE_SELF_SWITCH);
    mret (if (dis : bool) then DEFAULT_GFX_TIME_SLICE_1VF else DEFAULT_GFX_TIME_SLICE_1VF_SELF_SW)
  else mret DEFAULT_GFX_TIME_SLICE_1VF_SELF_SW.
Definition amdgv_sched_get_asic_time_slice (block num : Z) : MS Z :=
  if block =? AMDGV_SCHED_BLOCK_GFX then amdgv_sched_get_asic_time_slice_gfx num
  else mret DEFAULT_MM_TIME_SLICE.
Definition GET_GFX_TIME_SLICE (num : Z) : MS Z :=
  has ← conf has_asic_time_slice;
  if (has : bool) then amdgv_sched_get_asic_time_slice AMDGV_SCHED_BLOCK_GFX num
  else mret DEFAULT_GFX_TIME_SLICE.
Definition amdgv_sched_default_gfx_time_slice (num : Z) : MS Z :=
  if num =? 1 then mret DEFAULT_GFX_TIME_SLICE_1VF else GET_GFX_TIME_SLICE num.
Definition vf_per_gfx_sched : MS Z := on_hw (gets (fun a => num_vf_per_gfx_sched (config a))).

(** ** Helpers *)

Definition amdgv_sched_active_list_empty : MS bool :=
  l ← manual active_links; fair ← manual fairness_mode;
  if amdgv_list_empty Head l && negb fair then mret true else
  n ← find_node sw_links list_fuel Head (fun n =>
        i ← slot_of n; e ← entry i; mret (negb (dummy_vf e)));
  mret (bool_decide (n = Head)).

Definition amdgv_sched_is_one_active_vf : MS bool :=
  n ← conf num_vf; w ← wsw;
  let vfs := Z.land (vf_inited w) (u32 (Z.shiftl 1 n - 1)) in
  mret (negb (vfs =? 0) && (Z.land vfs (vfs - 1) =? 0)).

Definition amdgv_sched_should_pause_ws : MS bool :=
  bp ← conf bp_mode; w ← wsw;
  if (bp =? AMDGV_BP_MODE_1) && (curr_idx_vf w =? AMDGV_PF_IDX)
     && (sched_block w =? AMDGV_SCHED_BLOCK_GFX) then
    use_pf ← on_hw (has_flag AMDGV_FLAG_USE_PF);
    if (use_pf : bool) then conf pf_end_init else mret true
  else mret false.

Definition amdgv_sched_start_record_vf_time (i : Z) (is_init : bool) : MS unit :=
  t ← now;
  _ ← set_entry i (fun e => e <| start_ts := t |>);
  call (LoadStartTime i is_init).

(** The bucket an active time falls into; [start] and [interval] are those of
    the PF. *)
Definition hist_bucket (start interval active_time : Z) : option Z :=
  let time_max := u64 (start + interval * AMDGV_HISTOGRAM_SIZE) in
  if (start <=? active_time) && (active_time <? time_max) then
    if interval =? 0 then None else Some ((active_time - start) / interval)
  else Some (if active_time <? start then 0 else AMDGV_HISTOGRAM_SIZE - 1).

Definition time_log (i h : Z) : MS histogram := fun s =>
  require (run_summation s !! Z.to_nat i ≫= fun l => l !! Z.to_nat h) s.
Definition set_time_log (i h : Z) (f : histogram -> histogram) : MS unit :=
  modify (fun s => s <| run_summation :=
    alter (alter f (Z.to_nat h)) (Z.to_nat i) (run_summation s) |>).

Definition update_histogram (i active_time h : Z) : MS unit :=
  _ ← time_log i h;
  pf ← time_log AMDGV_PF_IDX h;
  bucket ← require (hist_bucket (h_start pf) (h_interval pf) active_time);
  l ← time_log i h;
  c ← require (h_count l !! Z.to_nat bucket);
  set_time_log i h (fun l => l <| h_count := <[Z.to_nat bucket := u64 (c + 1)]> (h_count l) |>
                               <| h_total := u64 (h_total l + 1) |>).

(** The overrun of a visit is added to the debt, unless the next punishment is
    to be skipped. *)
Definition charge (bp curr_ts : Z) (e : active_vf_entry) : active_vf_entry :=
  let e := e <| total_time := u64 (total_time e + u64 (curr_ts - start_ts e)) |> in
  let duration := s64 (curr_ts - (start_ts e + last_time_slice e)) in
  let e := if 0 <? duration then
             if skip_next_punish e || negb (bp =? AMDGV_BP_MODE_DISABLE)
             then e <| skip_next_punish := false |>
             else e <| beyond_time_cycle := u64 (beyond_time_cycle e + duration) |>
           else e in
  e <| start_ts := 0 |>.

Definition amdgv_sched_stop_record_vf_time (i : Z) : MS unit :=
  curr_ts ← now;
  e ← entry i;
  w ← wsw;
  _ ← when (negb (start_ts e =? 0)) (
    _ ← when (sched_block w =? AMDGV_SCHED_BLOCK_GFX)
          (for_each (for_each_id (ws_hw_sched_mask w))
             (update_histogram i (u64 (curr_ts - start_ts e))));
    bp ← conf bp_mode;
    set_entry i (charge bp curr_ts));
  when (negb (dummy_vf e)) (call (SaveEndTime i)).

(** ** World contexts *)

Definition ptl_allowed : MS bool :=
  w ← wsw; p ← conf ptl_on;
  mret ((sched_block w =? AMDGV_SCHED_BLOCK_GFX) && p).

(** The local [mark_bad] of the C function is never set. *)
Definition amdgv_init_world_context (i : Z) : MS Z :=
  _ ← set_wsw (fun w => w <| curr_idx_vf := i |>);
  _ ← set_wsw (fun w => w <| vf_inited := mask_set (vf_inited w) i |>);
  _ ← amdgv_sched_start_record_vf_time i true;
  r ← on_hw (amdgv_logical_sched_state_run i ws);
  if negb (r =? 0) then
    _ ← set_wsw (fun w => w <| curr_vf_state := AMDGV_VF_CONTEXT_ABNORMAL |>);
    mret AMDGV_FAILURE
  else
  g ← conf golden_init;
  _ ← when g (call GoldenInit);
  p ← ptl_allowed;
  _ ← when p (call PtlEnable);
  _ ← set_wsw (fun w => w <| curr_vf_state := AMDGV_VF_CONTEXT_LOADED |>);
  mret 0.

(** The exit of the two functions below that stops the world switch. *)
Definition context_failed : MS unit :=
  _ ← set_wsw (fun w => w <| switch_running := false |>);
  set_wsw (fun w => w <| curr_vf_state := AMDGV_VF_CONTEXT_ABNORMAL |>).

Definition amdgv_load_world_context (i : Z) : MS Z :=
  _ ← set_wsw (fun w => w <| curr_idx_vf := i |>);
  _ ← amdgv_sched_start_record_vf_time i false;
  r ← on_hw (amdgv_logical_sched_state_run i ws);
  if negb (r =? 0) then _ ← context_failed; mret AMDGV_FAILURE else
  p ← ptl_allowed;
  _ ← when p (call PtlEnable);
  _ ← set_wsw (fun w => w <| curr_vf_state := AMDGV_VF_CONTEXT_LOADED |>);
  mret 0.

Definition amdgv_save_world_context : MS Z :=
  w ← wsw;
  let i := curr_idx_vf w in
  if curr_vf_state w =? AMDGV_VF_CONTEXT_LOADED then
    p ← ptl_allowed;
    _ ← when p (call PtlDisable);
    r ← on_hw (amdgv_logical_sched_state_pause i ws);
    if negb (r =? 0) then
      _ ← context_failed;
      _ ← amdgv_sched_stop_record_vf_time i;
      mret AMDGV_FAILURE
    else
    _ ← set_wsw (fun w => w <| curr_vf_state := AMDGV_VF_CONTEXT_SAVED |>);
    _ ← amdgv_sched_stop_record_vf_time i;
    mret 0
  else _ ← amdgv_sched_stop_record_vf_time i; mret 0.

Definition amdgv_switch_world_context (i : Z) : MS Z :=
  w ← wsw;
  if curr_vf_state w =? AMDGV_VF_CONTEXT_ABNORMAL then mret AMDGV_FAILURE else
  let loaded := curr_vf_state w =? AMDGV_VF_CONTEXT_LOADED in
  if loaded && (curr_idx_vf w =? i) then mret 0 else
  r ← (if loaded then amdgv_save_world_context else mret 0);
  if negb (r =? 0) then mret AMDGV_FAILURE else
  w ← wsw;
  if Z.testbit (vf_inited w) i then amdgv_load_world_context i else amdgv_init_world_context i.

(** ** Picking the next VF *)

(** The three cases of the punishment of an entry with slice [own] when the
    slice to be charged is [slice0] (they differ when the PF stands in for a
    dummy VF). *)
Definition punish (slice0 : Z) (e : active_vf_entry) : active_vf_entry :=
  let min_time_slice := s64 (slice0 / 2) in
  let slice := s64 (s64 slice0 - beyond_time_cycle e) in
  if slice <=? 0 then
    e <| last_time_slice := 0 |>
      <| beyond_time_cycle := u64 (beyond_time_cycle e - time_slice e) |>
  else if slice <=? min_time_slice then
    e <| last_time_slice := u64 min_time_slice |>
      <| beyond_time_cycle := u64 (min_time_slice - slice) |>
  else
    e <| last_time_slice := u64 slice |> <| beyond_time_cycle := 0 |>.

Definition amdgv_sched_world_switch_calculate_time_slice (i : Z) : MS Z :=
  e0 ← entry i;
  let dummy := dummy_vf e0 in
  let i := if dummy then AMDGV_PF_IDX else i in
  e ← entry i;
  fair ← manual fairness_mode;
  _ ← (if (fair : bool) then
         if time_slice e =? DEFAULT_GFX_TIME_SLICE_1VF then
           n ← vf_per_gfx_sched;
           ts ← GET_GFX_TIME_SLICE n;
           set_entry i (fun e => e <| beyond_time_cycle := 0 |> <| last_time_slice := ts |>)
         else
           _ ← set_entry i (punish (time_slice e0));
           when dummy (set_entry i (fun e => e <| beyond_time_cycle := 0 |>))
       else set_entry i (fun e => e <| last_time_slice := time_slice e |>));
  e ← entry i;
  mret (last_time_slice e).

(** The first entry of the list, after an inactive PF at its head was sent to
    the tail. *)
Definition first_entry : MS sw_node :=
  n ← list_next Head; i ← slot_of n; e ← entry i; act ← active_vf AMDGV_PF_IDX;
  if (idx_vf e =? AMDGV_PF_IDX) && negb act then _ ← move_tail n; list_next Head else mret n.

(** The loop [re_schedule]: entries whose debt eats the whole slice are passed
    over.  [resched_fuel] below is enough as long as slices are positive. *)
Fixpoint schedule_default_loop (fuel : nat) : MS (Z * Z) :=
  match fuel with
  | O => fault
  | S fuel' =>
      n ← first_entry;
      i ← slot_of n;
      e ← entry i;
      ts ← amdgv_sched_world_switch_calculate_time_slice (idx_vf e);
      if ts =? 0 then _ ← move_tail n; schedule_default_loop fuel' else
      fair ← manual fairness_mode;
      e' ← entry i;
      if fair && dummy_vf e' then _ ← move_tail n; mret (AMDGV_PF_IDX, ts)
      else mret (idx_vf e, ts)
  end.

(** How often an entry can be passed over before its debt is paid. *)
Definition visits_owed (e : active_vf_entry) : nat := Z.to_nat (beyond_time_cycle e / time_slice e).
Definition resched_fuel (m : manual_switch) : nat :=
  S (S (sum_list_with visits_owed (sw_array m))).

Definition amdgv_schedule_vfs_default_fn : MS (Z * Z) :=
  fuel ← manual resched_fuel; schedule_default_loop fuel.

(** The search for a busy VF; every VF that is passed over while idle is one
    step nearer to [MAX_VF_SKIP_CNT]. *)
Fixpoint liquid_pick (fuel : nat) (pos : sw_node) (vf_status : Z) : MS sw_node :=
  if decide (pos = Head) then mret Head else
  match fuel with
  | O => fault
  | S fuel' =>
      i ← slot_of pos;
      e ← entry i;
      if Z.testbit vf_status (idx_vf e) then mret pos else
      tl ← list_prev Head;
      if decide (pos = tl) then list_next Head else
      act ← active_vf AMDGV_PF_IDX;
      if (idx_vf e =? AMDGV_PF_IDX) && negb act then
        n ← list_next pos; liquid_pick fuel' n vf_status
      else if MAX_VF_SKIP_CNT <=? skip_cnt e then mret pos else
      _ ← set_entry i (fun e => e <| skip_cnt := u32 (skip_cnt e + 1) |>);
      n ← list_next pos; liquid_pick fuel' n vf_status
  end.

Definition amdgv_schedule_vfs_liquid_fn : MS (Z * Z) :=
  w ← wsw; to ← manual vf_timeout;
  let vf_status := Z.land (Z.lor (vf_busy_status w) to) (vf_inited w) in
  _ ← first_entry;
  n ← (if vf_status =? 0 then list_next Head
       else n ← list_next Head; liquid_pick list_fuel n vf_status);
  i ← slot_of n;
  _ ← set_entry i (fun e => e <| skip_cnt := 0 |>);
  e ← entry i;
  mret (idx_vf e, time_slice e).

Definition schedule_vfs : MS (Z * Z) :=
  f ← manual amdgv_schedule_vfs;
  match f with
  | amdgv_schedule_vfs_default_ptr => amdgv_schedule_vfs_default_fn
  | amdgv_schedule_vfs_liquid_ptr => amdgv_schedule_vfs_liquid_fn
  end.

(** ** One round of the switch thread *)

Definition queue_reset_vf : MS unit :=
  w ← wsw; call (QueueResetVf (curr_idx_vf w) (sched_block w)).

(** A VF that leaves the engine goes to the tail of the list; the PF only when
    it takes part. *)
Definition requeue (i : Z) : MS unit :=
  e ← entry i;
  inv ← AMDGV_IS_IDX_INVALID (idx_vf e);
  if (inv : bool) then mret tt else
  use_pf ← on_hw (has_flag AMDGV_FLAG_USE_PF);
  act ← active_vf AMDGV_PF_IDX;
  when (negb (idx_vf e =? AMDGV_PF_IDX) || use_pf && act) (move_tail (Vf i)).

(** [true]: hybrid liquid mode leaves the current VF on the engine. *)
Definition liquid_stays : MS bool :=
  mode ← manual sched_mode;
  if negb (mode =? AMDGV_SCHED_HYBRID_LIQUID_MODE) then mret false else
  one ← amdgv_sched_is_one_active_vf;
  w ← wsw;
  let loaded := curr_vf_state w =? AMDGV_VF_CONTEXT_LOADED in
  if one && loaded then mret true else
  to ← manual vf_timeout;
  let vf_status := Z.lor (vf_busy_status w) to in
  e ← entry (curr_idx_vf w);
  min_ts ← manual hliquid_min_ts;
  left_ts ← (if negb (min_ts =? 0) then
               t ← now; mret (s64 (min_ts - (t - start_ts e)))
             else if vf_status =? 0 then
               t ← now; mret (s64 (HLIQUID_ALL_VF_IDLE_MIN_TS - (t - start_ts e)))
             else mret 0);
  if (0 <? left_ts) && loaded then _ ← call (TimerStart left_ts); mret true else mret false.

(** Taking the current VF off the engine; the code of the save. *)
Definition release_engine : MS Z :=
  w ← wsw;
  if curr_vf_state w =? AMDGV_VF_CONTEXT_LOADED then
    _ ← entry (curr_idx_vf w);
    r ← amdgv_save_world_context;
    _ ← when (r =? 0) (requeue (curr_idx_vf w));
    mret r
  else
    tl ← list_prev Head;
    i ← slot_of tl;
    e ← entry i;
    fair ← manual fairness_mode;
    _ ← when (dummy_vf e && fair) (amdgv_sched_stop_record_vf_time (idx_vf e));
    mret 0.

(** Debugging: the VF is forced by the user; without it in the list, the last
    one, with no time. *)
Definition forced_vf (force : Z) : MS (Z * Z) :=
  n ← find_node sw_links list_fuel Head (fun n =>
        i ← slot_of n; e ← entry i; mret (idx_vf e =? force));
  if decide (n = Head) then
    tl ← list_prev Head;
    match tl with
    | Head => mret (0, 0)
    | Vf i => e ← entry i; mret (idx_vf e, 0)
    end
  else
    i ← slot_of n; e ← entry i;
    num ← vf_per_gfx_sched; ts ← GET_GFX_TIME_SLICE num;
    mret (idx_vf e, ts).

Definition pick_next : MS (Z * Z) :=
  force ← conf force_switch_vf_idx;
  if AMDGV_MAX_VF_SLOT <=? force then schedule_vfs else forced_vf force.

(** From the label [load_fcn] on. *)
Definition load_fcn (i ts : Z) : MS Z :=
  mode ← manual sched_mode;
  _ ← when (mode =? AMDGV_SCHED_HYBRID_LIQUID_MODE)
        (set_manual (fun m => m <| vf_timeout := mask_clear (vf_timeout m) i |>));
  r ← amdgv_load_world_context i;
  if negb (r =? 0) then _ ← queue_reset_vf; mret 0 else
  pause ← amdgv_sched_should_pause_ws;
  _ ← when pause (
    _ ← set_wsw (fun w => w <| switch_running := false |>);
    call BpPause);
  _ ← when (negb (ts =? DEFAULT_GFX_TIME_SLICE_1VF)) (call (TimerStart ts));
  mret 0.

Definition amdgv_sched_manual_switch_process : MS Z :=
  n ← vf_per_gfx_sched; gts ← GET_GFX_TIME_SLICE n; live ← conf in_live_update;
  if (gts =? DEFAULT_GFX_TIME_SLICE_1VF) && live then mret 0 else
  w ← wsw;
  force ← conf force_switch_vf_idx;
  let loaded := curr_vf_state w =? AMDGV_VF_CONTEXT_LOADED in
  if negb (switch_running w) then mret 0 else
  if (curr_idx_vf w =? force) && loaded then mret 0 else
  empty ← amdgv_sched_active_list_empty;
  if (empty : bool) then
    if negb loaded then load_fcn AMDGV_PF_IDX 0 else mret 0
  else
  stay ← liquid_stays;
  if (stay : bool) then mret 0 else
  r ← release_engine;
  if negb (r =? 0) then _ ← queue_reset_vf; mret 0 else
  next ← pick_next;
  load_fcn (fst next) (snd next).

Definition amdgv_sched_manual_switch_timer_isr : MS Z :=
  mode ← manual sched_mode;
  w ← wsw;
  _ ← when (mode =? AMDGV_SCHED_HYBRID_LIQUID_MODE)
        (set_manual (fun m => m <| vf_timeout := mask_set (vf_timeout m) (curr_idx_vf w) |>));
  _ ← call SignalEvent;
  mret 0.

(** ** Membership *)

Definition save_rlcv (i : Z) : MS unit :=
  w ← wsw; for_each (for_each_id (ws_hw_sched_mask w)) (fun h => call (SaveRlcv i h)).

Definition amdgv_sched_manual_switch_add_vf (i : Z) : MS Z :=
  slices ← conf vf_time_slice;
  ts ← require (slices !! Z.to_nat i);
  if ts =? 0 then mret 0 else
  _ ← entry i;
  _ ← set_to_active_vf i;
  fair ← manual fairness_mode;
  _ ← (if fair && negb (i =? AMDGV_PF_IDX) then
         set_entry i (fun e => e <| dummy_vf := false |> <| time_slice := ts |>)
       else
         _ ← link_op (fun l => Some (AMDGV_INIT_LIST_HEAD (Vf i) l));
         _ ← set_entry i (fun e => e <| idx_vf := i |> <| time_slice := ts |>
                                     <| dummy_vf := false |>);
         w ← wsw;
         _ ← when ((sched_block w =? AMDGV_SCHED_BLOCK_GFX) && negb (i =? AMDGV_PF_IDX))
               (set_entry i (fun e => e <| skip_cnt := 0 |>));
         link_op (amdgv_list_add_tail (Vf i) Head));
  _ ← save_rlcv i;
  _ ← call SignalEvent;
  mret 0.

Definition amdgv_sched_manual_switch_remove_vf (i : Z) : MS Z :=
  e ← entry i;
  inv ← AMDGV_IS_IDX_INVALID (idx_vf e);
  if (inv : bool) then _ ← save_rlcv i; _ ← call SignalEvent; mret AMDGV_FAILURE else
  w ← wsw;
  ret ← (if (curr_idx_vf w =? idx_vf e) && (curr_vf_state w =? AMDGV_VF_CONTEXT_LOADED) then
           r ← amdgv_save_world_context;
           if negb (r =? 0) then _ ← queue_reset_vf; mret AMDGV_FAILURE else mret 0
         else mret 0);
  fair ← manual fairness_mode;
  _ ← (if fair && negb (i =? AMDGV_PF_IDX) then
         set_entry i (fun e => e <| dummy_vf := true |>)
       else
         _ ← link_op (amdgv_list_del (Vf i));
         susp ← on_hw (is_suspend_vf i);
         _ ← when (negb susp) (set_wsw (fun w => w <| vf_inited := mask_clear (vf_inited w) i |>));
         none ← AMDGV_INVALID_IDX_VF;
         when (negb (idx_vf e =? AMDGV_PF_IDX)) (set_entry i (fun e => e <| idx_vf := none |>)));
  _ ← save_rlcv i;
  _ ← call SignalEvent;
  mret ret.

Definition amdgv_sched_manual_switch_update_time_slice (i : Z) : MS Z :=
  e ← entry i;
  slices ← conf vf_time_slice;
  ts ← require (slices !! Z.to_nat i);
  inv ← AMDGV_IS_IDX_INVALID (idx_vf e);
  _ ← when (negb inv) (set_entry i (fun e => e <| time_slice := ts |>));
  mret 0.

(** ** Initialisation and removal *)

(** The account of an entry at the start of fairness mode. *)
Definition fresh_entry (ts t : Z) (dummy : bool) (e : active_vf_entry) : active_vf_entry :=
  e <| time_slice := ts |> <| start_ts := 0 |> <| beyond_time_cycle := 0 |>
    <| dummy_vf := dummy |> <| init_time := t |> <| total_time := 0 |>
    <| skip_next_punish := false |>.

Definition setup_entry (i : Z) (dummy : bool) : MS unit :=
  _ ← link_op (fun l => Some (AMDGV_INIT_LIST_HEAD (Vf i) l));
  n ← vf_per_gfx_sched;
  ts ← amdgv_sched_default_gfx_time_slice n;
  t ← now;
  set_entry i (fun e => fresh_entry ts t dummy (e <| idx_vf := i |>)).

(** "add all enabled VF to active vf list". *)
Definition add_enabled (num : Z) : MS unit :=
  for_each (Z.of_nat <$> seq 0 (Z.to_nat num)) (fun i =>
    allowed ← manual allowed_vf_assignment;
    when (Z.testbit allowed i) (
      _ ← setup_entry i true;
      link_op (amdgv_list_add_tail (Vf i) Head))).

Definition sw_slots : list Z := Z.of_nat <$> seq 0 32.

Definition init_lists (mode : Z) : MS unit :=
  _ ← link_op (fun l => Some (AMDGV_INIT_LIST_HEAD Head l));
  none ← AMDGV_INVALID_IDX_VF;
  _ ← for_each sw_slots (fun i => set_entry i (fun e => e <| idx_vf := none |>));
  if negb (mode =? AMDGV_SCHED_FAIRNESS) then
    _ ← set_manual (fun m => m <| fairness_mode := false |>);
    _ ← link_op (fun l => Some (AMDGV_INIT_LIST_HEAD (Vf AMDGV_PF_IDX) l));
    set_entry AMDGV_PF_IDX (fun e => e <| idx_vf := AMDGV_PF_IDX |>)
  else
    _ ← set_manual (fun m => m <| fairness_mode := true |>);
    n ← conf num_vf;
    _ ← add_enabled n;
    setup_entry AMDGV_PF_IDX false.

(** A timer, event or thread of the kernel; [false] when it was not created. *)
Definition create : MS bool := on_oss oss_alloc.
Definition destroy : MS unit := on_oss oss_free.

Definition amdgv_sched_manual_switch_init (mode : Z) : MS Z :=
  _ ← set_wsw (fun w => w <| use_active_status := false |>);
  lock ← on_oss oss_lock_init;
  _ ← set_manual (fun m => m <| has_lock := lock |>);
  if negb lock then mret AMDGV_FAILURE else
  let timer_failed :=
    _ ← on_oss oss_lock_fini;
    _ ← set_manual (fun m => m <| has_lock := false |>);
    mret AMDGV_FAILURE in
  timer ← create;
  if negb timer then timer_failed else
  event ← create;
  if negb event then _ ← destroy; timer_failed else
  _ ← init_lists mode;
  _ ← set_wsw (fun w => w <| vf_inited := 0 |> <| vf_busy_status := 0 |>);
  _ ← set_manual (fun m => m <| vf_timeout := 0 |> <| hliquid_min_ts := 0 |>
                             <| self_switch_trigger := false |>
         <| amdgv_schedule_vfs := if sched_mode m =? AMDGV_SCHED_HYBRID_LIQUID_MODE
                                  then amdgv_schedule_vfs_liquid_ptr
                                  else amdgv_schedule_vfs_default_ptr |>);
  thread ← create;
  if negb thread then _ ← destroy; _ ← destroy; timer_failed else
  mret 0.

Definition amdgv_sched_manual_switch_fini : MS unit :=
  _ ← call SignalEventForever;
  _ ← destroy;
  _ ← destroy;
  none ← AMDGV_INVALID_IDX_VF;
  _ ← for_each sw_slots (fun i =>
    e ← entry i;
    inv ← AMDGV_IS_IDX_INVALID (idx_vf e);
    when (negb inv) (
      _ ← link_op (amdgv_list_del (Vf i));
      set_entry i (fun e => e <| idx_vf := none |>)));
  lock ← manual has_lock;
  _ ← when lock (
    _ ← on_oss oss_lock_fini;
    set_manual (fun m => m <| has_lock := false |>));
  _ ← destroy;
  link_op (amdgv_list_del Head).

Definition amdgv_sched_manual_switch_clear_time_slice (i : Z) : MS Z :=
  w ← wsw;
  _ ← when (sched_block w =? AMDGV_SCHED_BLOCK_GFX) (set_entry i (fun e =>
        e <| beyond_time_cycle := 0 |> <| start_ts := 0 |> <| last_time_slice := 0 |>
          <| total_time := 0 |> <| skip_next_punish := false |>));
  mret 0.

Definition amdgv_sched_manual_switch_start : MS Z :=
  w ← wsw;
  if switch_running w then
    n ← vf_per_gfx_sched; trig ← manual self_switch_trigger;
    _ ← when ((n =? 1) && trig) (
      _ ← set_manual (fun m => m <| self_switch_trigger := false |>);
      call SignalEvent);
    mret 0
  else if curr_vf_state w =? AMDGV_VF_CONTEXT_ABNORMAL then mret 0 else
  _ ← set_wsw (fun w => w <| switch_running := true |>);
  _ ← call SignalEvent;
  mret 0.

Definition amdgv_sched_manual_switch_stop : MS Z :=
  w ← wsw;
  let loaded := curr_vf_state w =? AMDGV_VF_CONTEXT_LOADED in
  if negb (switch_running w) && negb loaded then mret 0 else
  _ ← set_wsw (fun w => w <| switch_running := false |>);
  _ ← call TimerPause;
  if negb loaded then mret 0 else
  _ ← entry (curr_idx_vf w);
  r ← amdgv_save_world_context;
  if negb (r =? 0) then mret AMDGV_FAILURE else
  _ ← requeue (curr_idx_vf w);
  mret 0.

Definition amdgv_sched_manual_switch_set_vf_num (num : Z) : MS Z :=
  fair ← manual fairness_mode;
  _ ← when fair (
    max ← on_hw (gets (fun a => max_num_vf (config a)));
    none ← AMDGV_INVALID_IDX_VF;
    _ ← for_each (Z.of_nat <$> seq 0 (Z.to_nat max)) (fun i =>
      e ← entry i;
      inv ← AMDGV_IS_IDX_INVALID (idx_vf e);
      when (negb inv) (
        _ ← link_op (amdgv_list_del (Vf i));
        set_entry i (fun e => e <| idx_vf := none |>)));
    add_enabled num);
  mret 0.

(** ** The functions other components call *)

(** A call that does nothing when the world switch is not enabled. *)
Definition if_enabled (m : MS Z) : MS Z := w ← wsw; if ws_enabled w then m else mret 0.

Definition amdgv_sched_world_switch_start : MS Z :=
  _ ← if_enabled amdgv_sched_manual_switch_start; mret 0.
Definition amdgv_sched_world_switch_stop : MS Z :=
  _ ← if_enabled amdgv_sched_manual_switch_stop; mret 0.
Definition amdgv_sched_world_switch_add_vf (i : Z) : MS Z :=
  if_enabled (amdgv_sched_manual_switch_add_vf i).
Definition amdgv_sched_world_switch_remove_vf (i : Z) : MS Z :=
  if_enabled (amdgv_sched_manual_switch_remove_vf i).
Definition amdgv_sched_world_switch_update_time_slice (i : Z) : MS Z :=
  if_enabled (amdgv_sched_manual_switch_update_time_slice i).
Definition amdgv_sched_world_switch_set_vf_num (num : Z) : MS Z :=
  _ ← if_enabled (amdgv_sched_manual_switch_set_vf_num num); mret 0.
Definition amdgv_sched_world_switch_toggle_skip_next_punish (i : Z) (enable : bool) : MS Z :=
  mode ← manual sched_mode;
  _ ← when (mode =? AMDGV_SCHED_FAIRNESS)
        (set_entry i (fun e => e <| skip_next_punish := enable |>));
  mret 0.
Definition amdgv_sched_world_context_switch_to_vf (i : Z) : MS Z :=
  if_enabled (amdgv_switch_world_context i).
Definition amdgv_sched_world_context_init (i : Z) : MS Z :=
  if_enabled (amdgv_init_world_context i).
Definition amdgv_sched_world_context_load (i : Z) : MS Z :=
  if_enabled (amdgv_load_world_context i).
Definition amdgv_sched_world_context_save : MS Z := if_enabled amdgv_save_world_context.
End switch.
