(* ===== verification/SwitchEngine.v ===== *)
(** * What the state machines promise the manual world switch

    The world switch of Switch.v asks a logical engine to run or to pause a VF
    ([amdgv_logical_sched_state_run], [_pause] of WsState.v).  [keeps] says a
    computation leaves alone what belongs to the world switch (everything of
    struct amdgv_sched_world_switch but the busy mask, the VFs' scheduling
    states, the configuration); [engine_ready] that all hardware schedulers of
    the engine are consistent and free.  The rules [wp_engine_run] and
    [wp_engine_pause] are the contract, for engines driven one scheduler at a
    time and in bulk. *)
From S2P Require Import Prelude Api Mask Gpuiov WsState WsInv WsManual WsBulk.
#[local] Open Scope Z_scope.

Section engine.
Context {hw : Type} `{HW : WsHw hw}.
Implicit Types (s t : adapter hw) (w : world_switch).

(** ** The part of the adapter the state machines leave alone *)

Definition ws_same (w w' : world_switch) : Prop :=
  w <| vf_busy_status := 0 |> = w' <| vf_busy_status := 0 |>.

Lemma all_same (l : list world_switch) : Forall2 ws_same l l.
Proof. by induction l; constructor. Qed.

Record eng_frame s t : Prop := {
  ef_ws : Forall2 ws_same (world_switches s) (world_switches t);
  ef_sv : sv_state <$> sched_vfs t = sv_state <$> sched_vfs s;
  ef_config : config t = config s;
  ef_array : array_vf t = array_vf s;
  ef_shape : ws_shape s -> ws_shape t;
}.

Lemma eng_frame_same s t :
  world_switches t = world_switches s -> sched_vfs t = sched_vfs s -> config t = config s ->
  array_vf t = array_vf s -> length (hw_state_machine t) = length (hw_state_machine s) ->
  eng_frame s t.
Proof.
  intros Hw Hv Hc Ha Hm. split; [rewrite Hw; apply all_same|by rewrite Hv|done..|].
  intros []. split; congruence.
Qed.

#[export] Instance eng_frame_preorder : PreOrder eng_frame.
Proof.
  split.
  - intros s. by apply eng_frame_same.
  - intros s t u [] []. split; try congruence; auto.
    eapply (Forall2_trans ws_same ws_same); [|done..]. intros ???. unfold ws_same. congruence.
Qed.

Definition keeps {A} (m : M (adapter hw) A) : Prop :=
  forall s a t, m s = Ret (a, t) -> eng_frame s t.

Lemma keeps_ret {A} (a : A) : keeps (mret a).
Proof. intros s b t [= _ ->]. reflexivity. Qed.
Lemma keeps_bind {A B} (m : M (adapter hw) A) (f : A -> M (adapter hw) B) :
  keeps m -> (forall a, keeps (f a)) -> keeps (m ≫= f).
Proof.
  intros Hm Hf s b u. unfold mbind, M_bind. destruct (m s) as [[a t]|] eqn:E; [|done].
  intros Hu. etransitivity; [by eapply Hm|by eapply Hf].
Qed.
Lemma keeps_gets {A} (f : adapter hw -> A) : keeps (gets f).
Proof. intros s b t [= _ ->]. reflexivity. Qed.
Lemma keeps_fault {A} : keeps (@fault (adapter hw) A).
Proof. by intros s b t. Qed.
Lemma keeps_read {A} (f : adapter hw -> option A) : keeps (fun s => require (f s) s).
Proof. intros s b t. destruct (f s); [intros [= _ ->]; reflexivity|done]. Qed.
Lemma keeps_require {A} (o : option A) : keeps (require o).
Proof. apply (keeps_read (fun _ => o)). Qed.
Lemma keeps_modify f : (forall s, eng_frame s (f s)) -> keeps (modify f).
Proof. intros Hf s b t [= _ <-]. apply Hf. Qed.
Lemma keeps_dev {A} (f : hw -> A * hw) : keeps (dev f).
Proof.
  intros s b t. unfold dev. destruct (f (device s)) as [a d]. intros [= _ <-].
  by apply eng_frame_same.
Qed.
Lemma keeps_when b (m : M (adapter hw) unit) : keeps m -> keeps (when b m).
Proof. destruct b; [done|]. intros _. apply keeps_ret. Qed.
Lemma keeps_for_each {A} (l : list A) (f : A -> M (adapter hw) unit) :
  (forall x, keeps (f x)) -> keeps (for_each l f).
Proof.
  intros Hf. induction l as [|x l IH]; [apply keeps_ret|]. by apply keeps_bind.
Qed.

Lemma keeps_upd_machine h f : keeps (upd_machine h f).
Proof.
  apply keeps_bind; [apply keeps_read|]. intros m. apply keeps_modify. intros s.
  apply eng_frame_same; try done. cbn. by rewrite length_insert.
Qed.

Lemma keeps_set_vf_state vf h st : keeps (set_vf_state vf h st).
Proof.
  intros s [] t. unfold set_vf_state, vf_info, mbind, M_bind.
  destruct (sched_vfs s !! Z.to_nat vf) as [v|] eqn:Ev; [|done]. cbn.
  destruct (cur_vf_state v !! Z.to_nat h) eqn:Eh; [|done]. intros [= <-].
  split; try done; cbn.
  - apply all_same.
  - rewrite list_fmap_insert. cbn. apply list_insert_id. by rewrite list_lookup_fmap, Ev.
  - intros []. split; try done. cbn.
    pose proof (vs_set_shape _ vf h st sh_vfs) as Hs. unfold vs_set in Hs. by rewrite Ev in Hs.
Qed.

Lemma keeps_upd_busy i b : keeps (upd_ws i (fun w => w <| vf_busy_status := b w |>)).
Proof.
  intros s [] t. unfold upd_ws, ws_at, mbind, M_bind.
  destruct (world_switches s !! Z.to_nat i) as [w|] eqn:Ew; [|done]. intros [= <-].
  split; try done; [|by intros []]. cbn.
  apply Forall2_same_length_lookup_2; [by rewrite length_insert|].
  intros j x y Hx Hy. destruct (decide (j = Z.to_nat i)) as [->|Hne].
  - rewrite list_lookup_insert_eq in Hy by (by eapply lookup_lt_Some).
    assert (x = w) as -> by congruence. by injection Hy as <-.
  - rewrite list_lookup_insert_ne in Hy by done. by replace y with x by congruence.
Qed.

Create HintDb keeps discriminated.
Lemma keeps_machine h : keeps (machine h).
Proof. apply keeps_read. Qed.
Lemma keeps_ctrl h : keeps (ctrl h).
Proof. apply keeps_read. Qed.
Lemma keeps_ws_at i : keeps (ws_at i).
Proof. apply keeps_read. Qed.
Lemma keeps_vf_info i : keeps (vf_info i).
Proof. apply keeps_read. Qed.
Hint Resolve keeps_ret keeps_gets keeps_fault keeps_require keeps_dev keeps_upd_machine
  keeps_set_vf_state keeps_machine keeps_ctrl keeps_ws_at keeps_vf_info : keeps.

(** The proofs follow the code. *)
Ltac keeps :=
  repeat match goal with
  | |- keeps (_ ≫= _) => apply keeps_bind; [|intros ?]
  | |- keeps (when _ _) => apply keeps_when
  | |- keeps (for_each _ _) => apply keeps_for_each; intros ?
  | |- keeps (upd_ws _ _) => apply keeps_upd_busy
  | |- keeps (if ?b then _ else _) => destruct b
  | |- keeps (match ?b with _ => _ end) => destruct b
  | |- keeps (let '(_, _) := ?p in _) => destruct p
  | |- keeps _ => solve [auto with keeps]
  end.

Lemma keeps_set_cmd c h v : keeps (set_cmd c h v).
Proof. apply keeps_modify. intros s. by apply eng_frame_same. Qed.
Hint Resolve keeps_set_cmd : keeps.
Lemma keeps_busy : keeps amdgv_gpuiov_update_vf_busy_status.
Proof. unfold amdgv_gpuiov_update_vf_busy_status. keeps. Qed.
Hint Resolve keeps_busy : keeps.
Lemma keeps_takes h : keeps (takes_shutdown h).
Proof. unfold takes_shutdown, IS_HW_SCHED_TYPE_GFX, IS_HW_SCHED_TYPE_MM. keeps. Qed.
Hint Resolve keeps_takes : keeps.
Lemma keeps_wait v h : keeps (wait_cmd_complete v h).
Proof. unfold wait_cmd_complete. keeps. Qed.
Lemma keeps_flag f : keeps (has_flag f).
Proof. unfold has_flag. keeps. Qed.
Hint Resolve keeps_wait keeps_flag : keeps.
Lemma keeps_idle v h : keeps (amdgv_gpuiov_idle_vf v h).
Proof. unfold amdgv_gpuiov_idle_vf, amdgv_gpuiov_idle_vf_no_wait. keeps. Qed.
Hint Resolve keeps_idle : keeps.

Lemma keeps_manual_command h st v : keeps (manual_command h st v).
Proof.
  unfold manual_command, or_code, amdgv_gpuiov_init_vf, amdgv_gpuiov_load_vf,
    amdgv_gpuiov_save_vf, amdgv_gpuiov_run_vf, amdgv_gpuiov_shutdown_vf,
    amdgv_gpuiov_init_vf_no_wait, amdgv_gpuiov_load_vf_no_wait, amdgv_gpuiov_save_vf_no_wait,
    amdgv_gpuiov_run_vf_no_wait. keeps.
Qed.
Lemma keeps_get_vf_state v h : keeps (get_vf_state v h).
Proof. unfold get_vf_state. keeps. Qed.
Lemma keeps_suspend v : keeps (is_suspend_vf v).
Proof. unfold is_suspend_vf. keeps. Qed.
Hint Resolve keeps_manual_command keeps_get_vf_state keeps_suspend : keeps.

Lemma keeps_manual_loop okay v h tgt : keeps (manual_loop okay v h tgt).
Proof.
  induction okay as [|n IH]; cbn; unfold at_target, manual_round, manual_decide; keeps; apply IH.
Qed.
Hint Resolve keeps_manual_loop : keeps.

Lemma keeps_goto_manual v h tgt : keeps (world_switch_goto_state_manual v h tgt).
Proof. unfold world_switch_goto_state_manual, ws_trylock, ws_unlock. keeps. Qed.

Lemma keeps_bulk_next ids v tgt b : keeps (bulk_get_next ids v tgt b).
Proof.
  revert b. induction ids as [|h ids IH]; intros b; cbn; [keeps|].
  unfold world_switch_get_next_state. keeps; apply IH.
Qed.
Lemma keeps_bulk_send ids b : keeps (bulk_send ids b).
Proof.
  revert b. induction ids as [|h ids IH]; intros b; cbn; [keeps|].
  unfold bulk_send_cmd, amdgv_gpuiov_init_vf_no_wait, amdgv_gpuiov_load_vf_no_wait,
    amdgv_gpuiov_save_vf_no_wait, amdgv_gpuiov_run_vf_no_wait, amdgv_gpuiov_idle_vf_no_wait,
    amdgv_gpuiov_shutdown_vf_no_wait. keeps; apply IH.
Qed.
Lemma keeps_bulk_wait fuel a l m b : keeps (bulk_wait fuel a l m b).
Proof.
  revert a l m b. induction fuel as [|n IH]; intros; cbn; unfold wait_for_first_cmd_complete;
    keeps; apply IH.
Qed.
Hint Resolve keeps_bulk_next keeps_bulk_send keeps_bulk_wait : keeps.
Lemma keeps_bulk_rounds fuel v tgt b : keeps (bulk_rounds fuel v tgt b).
Proof. revert b. induction fuel as [|n IH]; intros; cbn [bulk_rounds]; keeps; apply IH. Qed.
Lemma keeps_bulk_lock ids : keeps (bulk_lock ids).
Proof. induction ids; cbn; unfold ws_trylock; keeps; auto. Qed.
Hint Resolve keeps_bulk_rounds keeps_bulk_lock : keeps.
Lemma keeps_bulk_goto v mask tgt : keeps (world_switch_bulk_goto_state_manual v mask tgt).
Proof. unfold world_switch_bulk_goto_state_manual, ws_unlock. keeps. Qed.

Lemma wp_keeps {A} (m : M (adapter hw) A) (Q : A -> adapter hw -> Prop) s :
  keeps m -> wp m Q s -> wp m (fun a t => Q a t /\ eng_frame s t) s.
Proof.
  intros Hk. unfold wp. destruct (m s) as [[a t]|] eqn:E; [|done]. split; [done|by eapply Hk].
Qed.

(** ** Engines that can take a request *)

Definition manual_machine (h : Z) s : Prop :=
  exists m, hw_state_machine s !! Z.to_nat h = Some m /\
            goto_state m = Some world_switch_goto_state_manual_ptr.

Record engine_ready (mask : Z) (bulk : bool) s : Prop := {
  er_mask : in_width 32 mask;
  er_sched : forall h, in_mask mask h ->
    sched_inv h s /\ locked h false s /\ (bulk = false -> manual_machine h s);
  er_count : Z.of_nat (length (for_each_id mask)) <= num_ctrl_blocks (config s) <= 32;
  er_shape : ws_shape s;
  er_array : length (array_vf s) = 32%nat;
  er_max : max_num_vf (config s) <= AMDGV_PF_IDX;
}.

(** Every scheduler of the engine is in state [tgt] on VF [vf]. *)
Definition on_engine (vf mask tgt : Z) s : Prop :=
  forall h, in_mask mask h -> on_target vf h tgt s.

(** A VF that must not run is only loaded. *)
Definition run_target (vf : Z) s : Z :=
  match array_vf s !! Z.to_nat vf with
  | Some e => if skip_run e then AMDGV_LOAD_GPU_STATE else AMDGV_RUN_GPU
  | None => AMDGV_RUN_GPU
  end.

(** A device that answers every command in time: a single command completes,
    and a round of parallel ones within the time allowed ([hw_prompt]). *)
Definition engine_completes s : Prop :=
  hw_completes /\ hw_bulk_completes (allow_time_cmd_complete (config s)).

Record engine_post (vf mask tgt : Z) (bulk : bool) s (r : Z) t : Prop := {
  ep_ready : engine_ready mask bulk t;
  ep_frame : eng_frame s t;
  ep_done : r = 0 -> on_engine vf mask tgt t;
  ep_ok : engine_completes s -> r = 0;
}.

(** *** One scheduler *)

Record sched_post (vf h tgt : Z) s (r : Z) t : Prop := {
  sp_inv : sched_inv h t;
  sp_frame : goto_frame h s t;
  sp_eng : eng_frame s t;
  sp_done : r = 0 -> on_target vf h tgt t;
  sp_ok : hw_completes -> r = 0;
}.

Lemma goto_bulk_frame h s t :
  0 <= h -> goto_frame h s t -> ws_shape t -> bulk_frame (fun j => j = h) s t.
Proof.
  intros Hh [Gc Ga Gp Go Gm Gv Gs] Hs. split; try done.
  - intros j ? Hne. apply Go. lia.
  - intros j m ? Hm. destruct (decide (j = h)) as [->|Hne]; [by apply Gm|].
    exists m. rewrite Go by lia. done.
Qed.

Lemma locked_frame P h b s t : 0 <= h -> bulk_frame P s t -> locked h b s -> locked h b t.
Proof.
  intros Hh Hf (m & Hm & Hl). destruct (bf_machine _ _ _ Hf h m) as (m' & ? & ? & _); [done..|].
  exists m'. split; [done|congruence].
Qed.
Lemma manual_machine_frame P h s t :
  0 <= h -> bulk_frame P s t -> manual_machine h s -> manual_machine h t.
Proof.
  intros Hh Hf (m & Hm & Hl). destruct (bf_machine _ _ _ Hf h m) as (m' & ? & _ & _ & ?); [done..|].
  exists m'. split; [done|congruence].
Qed.

Lemma wp_goto_call vf h tgt s :
  sched_inv h s -> locked h false s -> manual_machine h s -> vf_present s vf ->
  In tgt ws_targets -> tgt <> AMDGV_SHUTDOWN_GPU ->
  wp (goto_state_call vf h tgt) (sched_post vf h tgt s) s.
Proof.
  intros Hi Hl (m & Hm & Hg) Hp Ht Hn. unfold goto_state_call. wp_step.
  eapply wp_machine; [exact Hm|]. wp_step. eapply wp_require; [exact Hg|].
  eapply wp_mono.
  { apply wp_keeps; [apply keeps_goto_manual|]. apply wp_goto_manual; try done; congruence. }
  intros r t [[Ti Tf _ Tr] Te]. split; try done.
  - intros ->. destruct Tr as [[_ ?]|[(c & v & l & _ & Hin) _]]; [done|].
    by apply timeout_nonzero in Hin.
  - intros Hc. by destruct Tr as [[? _]|[_ ?]].
Qed.

(** The idling that comes before a run on an engine that is already running. *)
Lemma wp_idle_running h m s :
  sched_inv h s -> hw_state_machine s !! Z.to_nat h = Some m -> cur_gpu_state m = AMDGV_RUN_GPU ->
  wp (r ← or_code AMDGV_LOG_IOV_WS_IDLE_TIMEOUT (amdgv_gpuiov_idle_vf (cur_vf_id m) h);
      _ ← when (r =? 0) (set_gpu_state h AMDGV_IDLE_GPU); mret r)
     (fun r t => sched_inv h t /\ goto_frame h s t /\ (hw_completes -> r = 0)) s.
Proof.
  intros Hi Hm Hrun. pose proof Hi as [Hs Hh Hmax (m0 & c & Hm0 & Hcv & Hc & Hown & _)].
  assert (m0 = m) as -> by congruence. clear Hm0. unfold or_code. wp_step. wp_step.
  eapply wp_mono; [by apply wp_idle_vf|]. intros r t0 [[Fc Fm Fa Fp] _ Hv]. wp_step.
  destruct Hv as [[-> Hv]|(Hr & Hv & Hno & _)].
  - change (0 =? 0) with true. cbn [when]. wp_step. unfold set_gpu_state.
    eapply wp_upd_machine; [by rewrite Fm|]. wp_step.
    assert (after_cmd (legacy_flr s) (sched_vfs s) AMDGV_IDLE_GPU (cur_vf_id m) h
            = after_cmd false (sched_vfs s) AMDGV_IDLE_GPU (cur_vf_id m) h) as Ha by done.
    assert (In AMDGV_IDLE_GPU ws_states) by (cbn; tauto).
    set (t := t0 <| hw_state_machine := _ |>).
    assert (hw_state_machine t = <[Z.to_nat h := m <| cur_gpu_state := AMDGV_IDLE_GPU |>
      <| cur_vf_id := cur_vf_id m |> ]> (hw_state_machine s)) as Hsm by (cbn; by rewrite Fm; destruct m).
    split_and!; [|by eapply (goto_frame_step false h m s t AMDGV_IDLE_GPU (cur_vf_id m))|done].
    eapply (sched_inv_step false (cur_vf_id m) h m c s t AMDGV_IDLE_GPU false); try done.
    unfold t. cbn -[after_cmd]. rewrite Hv, Ha, after_cmd_get by (try done; try apply Hs; lia).
    by rewrite decide_True.
  - apply Z.eqb_neq in Hr. rewrite Hr. change (AMDGV_LOG_IOV_WS_IDLE_TIMEOUT =? 0) with false. cbn [when].
    wp_step. wp_step. wp_step. split_and!; [|by apply goto_frame_cmd|done].
    eapply sched_inv_frame; [|done..]. by split.
Qed.

Lemma wp_sched_run vf h s :
  sched_inv h s -> locked h false s -> manual_machine h s -> vf_present s vf ->
  length (array_vf s) = 32%nat ->
  wp (amdgv_hw_sched_state_run vf h) (sched_post vf h (run_target vf s) s) s.
Proof.
  intros Hi Hl Hman Hp Ha. pose proof (present_range _ _ (si_max _ _ Hi) Hp) as Hvf.
  pose proof Hman as (m & Hm & _). pose proof (si_h _ _ Hi) as Hh.
  destruct (lookup_lt_is_Some_2 (array_vf s) (Z.to_nat vf)) as [e He]; [lia|].
  unfold run_target. rewrite He. unfold amdgv_hw_sched_state_run. wp_step.
  eapply wp_machine; [exact Hm|]. wp_step. unfold IS_HW_SCHED_TYPE_GFX. wp_step.
  apply wp_ctrl; [apply Hi|done|]. intros cb. wp_step. wp_step.
  apply (wp_mono _ (fun r t => (sched_inv h t /\ goto_frame h s t /\ (hw_completes -> r = 0))
                               /\ eng_frame s t)).
  { apply wp_keeps; [unfold or_code, set_gpu_state; keeps|].
    destruct (Z.eqb_spec (cur_gpu_state m) AMDGV_RUN_GPU) as [Hrun|]; cbn [andb].
    - destruct (_ =? AMDGV_HW_SCHED_TYPE_GFX); [by apply wp_idle_running|].
      wp_step. by split; [|split; [apply goto_frame_refl|]].
    - wp_step. by split; [|split; [apply goto_frame_refl|]]. }
  intros r t ((Ti & Tf & Tr) & Te). destruct (Z.eqb_spec r 0) as [->|Hr]; cbn [negb].
  2: { wp_step. by split. }
  pose proof (goto_bulk_frame _ _ _ (proj1 Hh) Tf (si_shape _ _ Ti)) as Hb.
  wp_step. apply (wp_intro _ e t t).
  { unfold vf_entry_at. rewrite (gf_array _ _ _ Tf), He. done. }
  eapply wp_mono; [apply wp_goto_call|].
  - done.
  - eapply locked_frame; [apply Hh|exact Hb|done].
  - eapply manual_machine_frame; [apply Hh|exact Hb|done].
  - unfold vf_present in *. by rewrite (gf_config _ _ _ Tf).
  - destruct (skip_run e); cbn; tauto.
  - by destruct (skip_run e).
  - intros r' u [Ui Uf Ue Ud Uo]. split; try done; [by eapply goto_frame_trans|by etransitivity].
Qed.

(** *** All schedulers of an engine, one after the other *)

Definition all_on (vf tgt : Z) (ids : list Z) s : Prop := Forall (fun h => on_target vf h tgt s) ids.

Definition scheds_ok s (ids : list Z) : Prop :=
  Forall (fun h => sched_inv h s /\ locked h false s /\ manual_machine h s) ids.

(** A request to one scheduler does not disturb the others. *)
Lemma sched_step_others vf tgt vf' h r s t ids :
  0 <= h -> scheds_ok s ids -> sched_post vf' h tgt s r t -> h ∉ ids ->
  scheds_ok t ids /\ (all_on vf tgt ids s -> all_on vf tgt ids t).
Proof.
  intros Hh Hok [Ti Tf _ _ _] Hn.
  pose proof (goto_bulk_frame _ _ _ Hh Tf (si_shape _ _ Ti)) as Hb.
  assert (forall j, j ∈ ids -> sched_inv j s -> ~ j = h /\ 0 <= j) as Hj.
  { intros j Hin Hi. split; [by intros ->|]. apply (si_h _ _ Hi). }
  unfold scheds_ok, all_on in *. rewrite !Forall_forall in *. split.
  - intros j Hin. destruct (Hok j Hin) as (Hi & Hl & Hm). destruct (Hj j Hin Hi).
    split_and!; [by eapply sched_inv_bulk_frame|by eapply locked_frame|by eapply manual_machine_frame].
  - intros Hall j Hin. destruct (Hok j Hin) as (Hi & _). destruct (Hj j Hin Hi).
    by eapply on_target_frame; [exact Hb|..|apply Hall].
Qed.

Lemma scheds_step_self vf tgt h r s t :
  0 <= h -> locked h false s -> manual_machine h s -> sched_post vf h tgt s r t ->
  sched_inv h t /\ locked h false t /\ manual_machine h t.
Proof.
  intros Hh Hl Hm [Ti Tf _ _ _].
  pose proof (goto_bulk_frame _ _ _ Hh Tf (si_shape _ _ Ti)) as Hb.
  split_and!; [done|by eapply locked_frame|by eapply manual_machine_frame].
Qed.

(** The request [f] meets its contract in every state with the same
    configuration. *)
Lemma wp_each_sched vf tgt f s0 done todo bad s :
  (forall h s, h ∈ todo -> config s = config s0 -> array_vf s = array_vf s0 -> sched_inv h s ->
     locked h false s -> manual_machine h s -> wp (f h) (sched_post vf h tgt s) s) ->
  NoDup (done ++ todo) -> config s = config s0 -> array_vf s = array_vf s0 ->
  scheds_ok s (done ++ todo) -> (bad = false -> all_on vf tgt done s) ->
  (hw_completes -> bad = false) ->
  wp (each_sched todo f bad) (fun b t => scheds_ok t (done ++ todo) /\
    (b = false -> all_on vf tgt (done ++ todo) t) /\ (hw_completes -> b = false) /\
    eng_frame s t) s.
Proof.
  revert done bad s. induction todo as [|h ids IH]; intros done bad s Hf Hnd Hc Ha Hok Hd Hb.
  { rewrite app_nil_r in *. cbn [each_sched]. by wp_step. }
  pose proof Hok as Hok0. unfold scheds_ok in Hok0.
  apply Forall_app in Hok0 as [Hod Hot]. apply Forall_cons in Hot as [(Hi & Hl & Hm) Hot].
  pose proof (proj1 (si_h _ _ Hi)) as Hh.
  apply NoDup_app in Hnd as (Hnd1 & Hdis & Hnd2). apply NoDup_cons in Hnd2 as [Hni Hnd2].
  assert (h ∉ done) as Hnd' by (intros Hin; eapply Hdis; [exact Hin|set_solver]).
  cbn [each_sched]. wp_step. eapply wp_mono; [apply Hf; try done; by apply elem_of_cons; left|].
  intros r t Hp. pose proof Hp as [_ Tf Te Td To].
  destruct (sched_step_others vf tgt vf h r s t done Hh Hod Hp Hnd') as [Hod' Hall].
  destruct (sched_step_others vf tgt vf h r s t ids Hh Hot Hp Hni) as [Hot' _].
  pose proof (scheds_step_self vf tgt h r s t Hh Hl Hm Hp) as Hself.
  assert (done ++ h :: ids = (done ++ [h]) ++ ids) as Heq by (by rewrite <- app_assoc).
  rewrite Heq. eapply wp_mono; [apply IH|].
  - intros j u Hj. apply Hf. by apply elem_of_cons; right.
  - rewrite <- Heq. apply NoDup_app. split; [done|]. split; [done|]. by apply NoDup_cons.
  - by rewrite (gf_config _ _ _ Tf).
  - by rewrite (gf_array _ _ _ Tf).
  - unfold scheds_ok. rewrite <- app_assoc. apply Forall_app. split; [done|]. by constructor.
  - intros [-> Hr%negb_false_iff%Z.eqb_eq]%orb_false_iff. unfold all_on. apply Forall_app.
    split; [by apply Hall, Hd|]. constructor; [by apply Td|done].
  - intros Hco. rewrite (To Hco), (Hb Hco). done.
  - intros b u (? & ? & ? & ?). split_and!; try done. by etransitivity.
Qed.

Lemma engine_scheds mask s :
  engine_ready mask false s -> scheds_ok s (for_each_id mask) /\ NoDup (for_each_id mask).
Proof.
  intros [Hm Hs _ _ _ _]. split; [|by apply NoDup_for_each_id].
  apply Forall_forall. intros h Hh%elem_of_for_each_id; [|done].
  destruct (Hs h Hh) as (? & ? & ?). by split_and!; auto.
Qed.

Lemma engine_ready_after mask bulk s t :
  engine_ready mask bulk s -> eng_frame s t ->
  (forall h, in_mask mask h ->
     sched_inv h t /\ locked h false t /\ (bulk = false -> manual_machine h t)) ->
  engine_ready mask bulk t.
Proof. intros [] [] Ht. split; try done; try congruence; auto. Qed.

Lemma wp_engine_each vf tgt mask f s :
  engine_ready mask false s ->
  (forall h t, config t = config s -> array_vf t = array_vf s -> sched_inv h t ->
     locked h false t -> manual_machine h t -> wp (f h) (sched_post vf h tgt t) t) ->
  wp (bad ← each_sched (for_each_id mask) f false; mret (if (bad : bool) then AMDGV_FAILURE else 0))
     (engine_post vf mask tgt false s) s.
Proof.
  intros Hr Hf. destruct (engine_scheds _ _ Hr) as [Hok Hnd]. wp_step.
  eapply wp_mono.
  { apply (wp_each_sched vf tgt f s [] (for_each_id mask)); try done; auto. by constructor. }
  cbn [app]. intros b t (Tok & Tall & Tc & Tf). wp_step. unfold scheds_ok, all_on in *.
  rewrite Forall_forall in Tok, Tall. split.
  - eapply engine_ready_after; [done..|]. intros h Hh.
    apply elem_of_for_each_id in Hh; [|apply Hr]. by destruct (Tok h Hh) as (? & ? & ?).
  - done.
  - intros Hb h Hh. apply elem_of_for_each_id in Hh; [|apply Hr]. apply Tall; [|done].
    by destruct b.
  - intros [Hco _]. by rewrite (Tc Hco).
Qed.

(** *** All schedulers of an engine in bulk *)

Lemma wp_engine_bulk vf tgt mask s :
  engine_ready mask true s -> vf_present s vf -> In tgt ws_targets -> tgt <> AMDGV_SHUTDOWN_GPU ->
  wp (world_switch_bulk_goto_state_manual vf mask tgt) (engine_post vf mask tgt true s) s.
Proof.
  intros Hr Hp Ht Hn. pose proof Hr as [Rm Rs Rc Rsh _ Rmax].
  eapply wp_mono.
  { apply wp_keeps; [apply keeps_bulk_goto|]. apply (wp_bulk_goto vf mask tgt s). split; try done.
    intros h Hh. destruct (Rs h Hh) as (? & ? & _). by split_and!. }
  intros r t [[Ti Tl Td Tr _] Tf]. split; try done.
  - eapply engine_ready_after; [done..|]. intros h Hh. by split_and!; auto.
  - intros [_ Hb]. by destruct Tr as [?|[_ ?]].
Qed.

Lemma engine_post_run_target s t vf :
  array_vf t = array_vf s -> run_target vf t = run_target vf s.
Proof. unfold run_target. by intros ->. Qed.

Lemma eng_frame_ws s t i w :
  eng_frame s t -> world_switches s !! i = Some w ->
  exists w', world_switches t !! i = Some w' /\ ws_same w w'.
Proof. intros Hf Hw. by apply (Forall2_lookup_l _ _ _ _ _ (ef_ws _ _ Hf)). Qed.

(** ** The contract *)

Lemma wp_engine_run vf ws w s :
  world_switches s !! Z.to_nat ws = Some w ->
  engine_ready (ws_hw_sched_mask w) (bulk_goto_state w) s -> vf_present s vf ->
  wp (amdgv_logical_sched_state_run vf ws)
     (engine_post vf (ws_hw_sched_mask w) (run_target vf s) (bulk_goto_state w) s) s.
Proof.
  intros Hw Hr Hp. pose proof (present_range _ _ (er_max _ _ _ Hr) Hp) as Hvf.
  unfold amdgv_logical_sched_state_run. wp_step. apply (wp_intro _ w s s).
  { unfold ws_at. by rewrite Hw. }
  destruct (bulk_goto_state w) eqn:Eb; cbn [negb].
  2: { apply wp_engine_each; [done|].
    intros h t Hc Ha Hi Hl Hm. rewrite <- (engine_post_run_target s t) by done.
    apply wp_sched_run; try done; [|by rewrite Ha; apply Hr].
    unfold vf_present in *. by rewrite Hc. }
  set (mask := ws_hw_sched_mask w) in *. wp_step.
  apply (wp_mono _ (fun r t => engine_ready mask true t /\ eng_frame s t /\
                               (engine_completes s -> r = 0))).
  { destruct (_ && _).
    - eapply wp_mono; [apply wp_engine_bulk; [done|done|cbn; tauto|done]|].
      intros r t []. by split_and!.
    - wp_step. by split_and!. }
  intros r t (Tr & Tf & Tc). destruct (Z.eqb_spec r 0) as [->|Hne]; cbn [negb].
  2: { wp_step. by split. }
  destruct (lookup_lt_is_Some_2 (array_vf s) (Z.to_nat vf)) as [e He]; [rewrite (er_array _ _ _ Hr); lia|].
  wp_step. apply (wp_intro _ e t t).
  { unfold vf_entry_at. by rewrite (ef_array _ _ Tf), He. }
  unfold run_target. rewrite He. eapply wp_mono; [apply wp_engine_bulk|].
  - done.
  - unfold vf_present in *. by rewrite (ef_config _ _ Tf).
  - destruct (skip_run e); cbn; tauto.
  - by destruct (skip_run e).
  - intros r u [Ur Uf Ud Uc]. split; try done; [by etransitivity|].
    intros Hco. apply Uc. unfold engine_completes. by rewrite (ef_config _ _ Tf).
Qed.

Lemma wp_engine_pause vf ws w s :
  world_switches s !! Z.to_nat ws = Some w ->
  engine_ready (ws_hw_sched_mask w) (bulk_goto_state w) s -> vf_present s vf ->
  wp (amdgv_logical_sched_state_pause vf ws)
     (engine_post vf (ws_hw_sched_mask w) AMDGV_SAVE_GPU_STATE (bulk_goto_state w) s) s.
Proof.
  intros Hw Hr Hp. unfold amdgv_logical_sched_state_pause. wp_step. apply (wp_intro _ w s s).
  { unfold ws_at. by rewrite Hw. }
  destruct (bulk_goto_state w) eqn:Eb; cbn [negb].
  - apply wp_engine_bulk; [done|done|cbn; tauto|done].
  - apply wp_engine_each; [done|]. intros h t Hc Ha Hi Hl Hm.
    unfold amdgv_hw_sched_state_pause. apply wp_goto_call; try done.
    + unfold vf_present in *. by rewrite Hc.
    + cbn; tauto.
Qed.
End engine.
