(* ===== verification/SwitchInv.v ===== *)
(** * World switch: invariant and rules for the accounts

    [members vs s]: the active list is the sequence [vs] of slots, and the
    entries of [manual.array_vf] agree with it.  [context_ok]: the engine is
    ready and in the state the world switch believes it to be in.  [upkeep] is
    the frame of every operation that only keeps the books (start and end
    stamps, debts, histograms, calls): it changes neither the list nor which
    VFs take part. *)
From S2P Require Import Prelude Oss Api Mask Gpuiov WsState WsInv WsManual WsBulk Dlist ListScan Switch SwitchEngine.
Import Dlist ListScan.
#[local] Open Scope Z_scope.

Section inv.
Context {hw : Type} `{HW : WsHw hw} {E : OssEnv}.
Variable ws : Z.
Implicit Types (s t : switcher hw) (e : active_vf_entry) (w : world_switch) (vs : list Z).

(** ** Views *)

Definition ws_of s : option world_switch := world_switches (sw_hw s) !! Z.to_nat ws.
Definition slots s : list active_vf_entry := sw_array (sw_manual s).
Definition slot s (i : Z) : option active_vf_entry := slots s !! Z.to_nat i.
Definition sv_of s (i : Z) : option Z := (sv_state <$> sched_vfs (sw_hw s)) !! Z.to_nat i.
Definition pf_active s : bool := bool_decide (sv_of s AMDGV_PF_IDX = Some AMDGV_SCHED_ACTIVE).
Definition invalid_idx s : Z := u32 (max_num_vf (config (sw_hw s)) + 1).

(** The functions of the device that may be put on an engine. *)
Definition vf_valid s (i : Z) : Prop := 0 <= i < num_vf (sw_conf s) \/ i = AMDGV_PF_IDX.
Definition idx_invalid s (i : Z) : bool := negb (i =? AMDGV_PF_IDX) && (num_vf (sw_conf s) <=? i).

(** Index [AMDGV_INVALID_IDX_VF] is that of no function. *)
Definition counts_ok s : Prop :=
  0 <= num_vf (sw_conf s) <= max_num_vf (config (sw_hw s)) /\
  max_num_vf (config (sw_hw s)) < AMDGV_PF_IDX - 1.

Definition hist_ok (h : histogram) : Prop :=
  0 <= h_start h /\ 0 <= h_interval h /\ length (h_count h) = 32%nat.
Definition logs_ok s : Prop :=
  length (run_summation s) = 32%nat /\
  Forall (fun l => length l = 32%nat /\ Forall hist_ok l) (run_summation s).

(** ** The active list *)

Record members vs s : Prop := {
  mb_list : dlist (sw_links s) Head (Vf <$> vs);
  mb_len : length (slots s) = 32%nat;
  mb_range : Forall (fun i => 0 <= i < 32) vs;
  mb_pf : exists e, slot s AMDGV_PF_IDX = Some e /\ idx_vf e = AMDGV_PF_IDX;
  mb_slot : forall i e, slot s i = Some e -> 0 <= i < AMDGV_PF_IDX ->
    if decide (i ∈ vs) then idx_vf e = i /\ i < num_vf (sw_conf s) else idx_vf e = invalid_idx s;
}.

(** An entry is passed over at most [MAX_VF_SKIP_CNT] times. *)
Definition skip_ok e : Prop := 0 <= skip_cnt e <= MAX_VF_SKIP_CNT.

(** Every VF of the list, and the PF in fairness mode, can be given time; only
    fairness mode has dummy VFs. *)
Record slices_ok vs s : Prop := {
  sl_pos : forall i e, slot s i = Some e ->
    (i ∈ vs \/ fairness_mode (sw_manual s) = true /\ i = AMDGV_PF_IDX) -> 0 <= i ->
    0 < time_slice e < 2 ^ 32;
  sl_real : forall i e, slot s i = Some e -> i ∈ vs -> 0 <= i -> fairness_mode (sw_manual s) = false ->
    dummy_vf e = false;
  sl_debt : Forall (fun e => in_width 64 (beyond_time_cycle e)) (slots s);
  sl_skip : Forall skip_ok (slots s);
  sl_conf : length (vf_time_slice (sw_conf s)) = 32%nat /\
            Forall (in_width 32) (vf_time_slice (sw_conf s));
}.

(** ** The engine as the world switch sees it *)

Record context_ok s : Prop := {
  cx_ws : exists w, ws_of s = Some w /\
    engine_ready (ws_hw_sched_mask w) (bulk_goto_state w) (sw_hw s) /\
    0 <= curr_idx_vf w < 32 /\
    (curr_vf_state w = AMDGV_VF_CONTEXT_LOADED -> vf_valid s (curr_idx_vf w) /\
       on_engine (curr_idx_vf w) (ws_hw_sched_mask w) (run_target (curr_idx_vf w) (sw_hw s)) (sw_hw s)) /\
    (curr_vf_state w = AMDGV_VF_CONTEXT_SAVED ->
       on_engine (curr_idx_vf w) (ws_hw_sched_mask w) AMDGV_SAVE_GPU_STATE (sw_hw s)) /\
    (switch_running w = true -> curr_vf_state w <> AMDGV_VF_CONTEXT_ABNORMAL);
  cx_counts : counts_ok s;
  cx_logs : logs_ok s;
}.

(** ** Bookkeeping *)

(** An entry after its account was touched. *)
Record same_member e e' : Prop := {
  sm_idx : idx_vf e' = idx_vf e;
  sm_slice : time_slice e' = time_slice e;
  sm_dummy : dummy_vf e' = dummy_vf e;
  sm_debt : in_width 64 (beyond_time_cycle e) -> in_width 64 (beyond_time_cycle e');
  sm_skip : skip_ok e -> skip_ok e';
}.
#[export] Instance same_member_preorder : PreOrder same_member.
Proof. split; [by intros e; split|]. intros a b c [] []. split; try congruence; auto. Qed.

Record upkeep s t : Prop := {
  uk_conf : sw_conf t = sw_conf s;
  uk_config : config (sw_hw t) = config (sw_hw s);
  uk_array : array_vf (sw_hw t) = array_vf (sw_hw s);
  uk_sv : sv_state <$> sched_vfs (sw_hw t) = sv_state <$> sched_vfs (sw_hw s);
  uk_links : sw_links t = sw_links s;
  uk_fair : fairness_mode (sw_manual t) = fairness_mode (sw_manual s);
  uk_mode : sched_mode (sw_manual t) = sched_mode (sw_manual s);
  uk_fn : amdgv_schedule_vfs (sw_manual t) = amdgv_schedule_vfs (sw_manual s);
  uk_slots : Forall2 same_member (slots s) (slots t);
  uk_logs : logs_ok s -> logs_ok t;
}.

#[export] Instance upkeep_preorder : PreOrder upkeep.
Proof.
  split.
  - intros s. split; try done.
  - intros s t u [] []. split; try congruence; auto.
    eapply (Forall2_trans same_member same_member); [|done..]. intros ???. by etransitivity.
Qed.

Lemma upkeep_slot s t i e : upkeep s t -> slot t i = Some e ->
  exists e0, slot s i = Some e0 /\ same_member e0 e.
Proof. intros Hu He. by apply (Forall2_lookup_r _ _ _ _ _ (uk_slots _ _ Hu)). Qed.
Lemma upkeep_slot_l s t i e : upkeep s t -> slot s i = Some e ->
  exists e', slot t i = Some e' /\ same_member e e'.
Proof. intros Hu He. by apply (Forall2_lookup_l _ _ _ _ _ (uk_slots _ _ Hu)). Qed.

Lemma upkeep_members vs s t : upkeep s t -> members vs s -> members vs t.
Proof.
  intros Hu [Ml Mn Mr (e & He & Hi) Ms].
  assert (invalid_idx t = invalid_idx s) as Hin by (unfold invalid_idx; by rewrite (uk_config _ _ Hu)).
  split.
  - by rewrite (uk_links _ _ Hu).
  - by rewrite <- (Forall2_length _ _ _ (uk_slots _ _ Hu)).
  - done.
  - destruct (upkeep_slot_l _ _ _ _ Hu He) as (e' & ? & []). exists e'. split; [done|congruence].
  - intros i e' He' Hr. destruct (upkeep_slot _ _ _ _ Hu He') as (e0 & He0 & []).
    specialize (Ms _ _ He0 Hr). rewrite Hin, (uk_conf _ _ Hu).
    destruct (decide (i ∈ vs)); [split; [|tauto]|]; try congruence. destruct Ms. congruence.
Qed.

Lemma upkeep_slices vs s t : upkeep s t -> slices_ok vs s -> slices_ok vs t.
Proof.
  intros Hu [Sp Sr Sd Sk Sc]. split.
  2: { intros i e' He' Hi H0 Hf. destruct (upkeep_slot _ _ _ _ Hu He') as (e0 & He0 & Hm).
       rewrite (sm_dummy _ _ Hm). eapply Sr; [exact He0|done|done|]. by rewrite <- (uk_fair _ _ Hu). }
  - intros i e' He' Hi H0. destruct (upkeep_slot _ _ _ _ Hu He') as (e0 & He0 & Hm).
    rewrite (sm_slice _ _ Hm). eapply Sp; [exact He0| |done].
    by rewrite <- (uk_fair _ _ Hu).
  - rewrite Forall_lookup in *. intros i e' He'.
    destruct (Forall2_lookup_r _ _ _ _ _ (uk_slots _ _ Hu) He') as (e0 & He0 & Hm).
    apply (sm_debt _ _ Hm). by eapply Sd.
  - rewrite Forall_lookup in *. intros i e' He'.
    destruct (Forall2_lookup_r _ _ _ _ _ (uk_slots _ _ Hu) He') as (e0 & He0 & Hm).
    apply (sm_skip _ _ Hm). by eapply Sk.
  - by rewrite (uk_conf _ _ Hu).
Qed.

Lemma upkeep_counts s t : upkeep s t -> counts_ok s -> counts_ok t.
Proof. intros Hu. unfold counts_ok. by rewrite (uk_conf _ _ Hu), (uk_config _ _ Hu). Qed.
Lemma upkeep_valid s t i : upkeep s t -> vf_valid s i -> vf_valid t i.
Proof. intros Hu. unfold vf_valid. by rewrite (uk_conf _ _ Hu). Qed.

Lemma vf_valid_range s i : counts_ok s -> vf_valid s i -> 0 <= i < 32.
Proof. unfold counts_ok, vf_valid, AMDGV_PF_IDX. lia. Qed.
Lemma vf_valid_present s i : counts_ok s -> vf_valid s i -> vf_present (sw_hw s) i.
Proof. unfold counts_ok, vf_valid, vf_present, AMDGV_PF_IDX. lia. Qed.

Lemma invalid_is_invalid s : counts_ok s -> idx_invalid s (invalid_idx s) = true.
Proof.
  unfold counts_ok, idx_invalid, invalid_idx, AMDGV_PF_IDX. intros.
  rewrite wrap_id by (unfold in_width; lia). apply andb_true_iff.
  split; [apply negb_true_iff, Z.eqb_neq|apply Z.leb_le]; lia.
Qed.

(** ** Rules for the accessors *)

Lemma put_hw_id s : s <| sw_hw := sw_hw s |> = s.
Proof. by destruct s. Qed.

Lemma wp_on_hw_read {A} (m : M (adapter hw) A) a (Q : A -> switcher hw -> Prop) s :
  m (sw_hw s) = Ret (a, sw_hw s) -> Q a s -> wp (on_hw m) Q s.
Proof. intros Hm HQ. unfold wp, on_hw, zoom. by rewrite Hm, put_hw_id. Qed.

Lemma wp_wsw w (Q : world_switch -> switcher hw -> Prop) s :
  ws_of s = Some w -> Q w s -> wp (wsw ws) Q s.
Proof. intros Hw. apply wp_on_hw_read. unfold ws_at. unfold ws_of in Hw. by rewrite Hw. Qed.

(** The world switch after an update of its record. *)
Definition put_ws (w : world_switch) s : switcher hw :=
  s <| sw_hw := (sw_hw s) <| world_switches := <[Z.to_nat ws := w]> (world_switches (sw_hw s)) |> |>.

Lemma wp_set_wsw f w (Q : unit -> switcher hw -> Prop) s :
  ws_of s = Some w -> Q tt (put_ws (f w) s) -> wp (set_wsw ws f) Q s.
Proof.
  unfold ws_of, wp, set_wsw, on_hw, zoom, upd_ws, ws_at, mbind, M_bind. by intros ->.
Qed.

Lemma ws_of_put w w' s : ws_of s = Some w -> ws_of (put_ws w' s) = Some w'.
Proof. intros Hw. apply list_lookup_insert_eq. by eapply lookup_lt_Some. Qed.

Lemma wp_slot_entry i e (Q : active_vf_entry -> switcher hw -> Prop) s :
  slot s i = Some e -> Q e s -> wp (entry i) Q s.
Proof. intros He HQ. unfold wp, entry. unfold slot, slots in He. by rewrite He. Qed.

Definition put_slot (i : Z) e s : switcher hw :=
  s <| sw_manual := (sw_manual s) <| sw_array := <[Z.to_nat i := e]> (sw_array (sw_manual s)) |> |>.

Lemma wp_set_entry i f e (Q : unit -> switcher hw -> Prop) s :
  slot s i = Some e -> Q tt (put_slot i (f e) s) -> wp (set_entry i f) Q s.
Proof. intros He HQ. unfold set_entry. wp_step. by eapply wp_slot_entry. Qed.

Lemma slot_put i j e s :
  0 <= i -> 0 <= j -> is_Some (slot s i) ->
  slot (put_slot i e s) j = if decide (j = i) then Some e else slot s j.
Proof.
  intros Hi Hj [e0 He0]. unfold slot, slots, put_slot. cbn. destruct (decide (j = i)) as [->|].
  - apply list_lookup_insert_eq. by eapply lookup_lt_Some.
  - apply list_lookup_insert_ne. lia.
Qed.

Lemma slot_some s i : length (slots s) = 32%nat -> 0 <= i < 32 -> exists e, slot s i = Some e.
Proof. intros Hl Hi. apply lookup_lt_is_Some_2. lia. Qed.

Lemma wp_now_any (Q : Z -> switcher hw -> Prop) s :
  (forall c o, Q c (s <| sw_oss := o |>)) -> wp now Q s.
Proof. intros HQ. unfold now, on_oss. wp_step. apply wp_time. apply HQ. Qed.

Lemma wp_invalid i (Q : bool -> switcher hw -> Prop) s :
  Q (idx_invalid s i) s -> wp (AMDGV_IS_IDX_INVALID i) Q s.
Proof. done. Qed.

Lemma wp_invalid_idx (Q : Z -> switcher hw -> Prop) s :
  Q (invalid_idx s) s -> wp AMDGV_INVALID_IDX_VF Q s.
Proof. intros HQ. by eapply wp_on_hw_read. Qed.

Lemma sched_vfs_len s : ws_shape (sw_hw s) -> length (sched_vfs (sw_hw s)) = 32%nat.
Proof. intros []. apply sh_vfs. Qed.

Lemma wp_pf_active (Q : bool -> switcher hw -> Prop) s :
  ws_shape (sw_hw s) -> Q (pf_active s) s -> wp (active_vf AMDGV_PF_IDX) Q s.
Proof.
  intros Hs HQ.
  destruct (lookup_lt_is_Some_2 (sched_vfs (sw_hw s)) (Z.to_nat AMDGV_PF_IDX)) as [v Hv].
  { rewrite sched_vfs_len by done. unfold AMDGV_PF_IDX. lia. }
  eapply wp_on_hw_read; [unfold is_active_vf, vf_info, mbind, M_bind; rewrite Hv; reflexivity|].
  replace (sv_state v =? AMDGV_SCHED_ACTIVE) with (pf_active s); [done|].
  unfold pf_active, sv_of. rewrite list_lookup_fmap, Hv. cbn.
  destruct (Z.eqb_spec (sv_state v) AMDGV_SCHED_ACTIVE) as [->|Hne].
  - by rewrite bool_decide_eq_true_2.
  - apply bool_decide_eq_false_2. congruence.
Qed.

Lemma wp_flag f (Q : bool -> switcher hw -> Prop) s :
  Q (negb (Z.land (flags (config (sw_hw s))) f =? 0)) s -> wp (on_hw (has_flag f)) Q s.
Proof. intros HQ. by eapply wp_on_hw_read. Qed.
End inv.
