(* ===== verification/SwitchRun.v ===== *)
(** * World switch: loading and saving a VF

    The rules for the parts of a switch: the accounts of time (which never
    trap, whatever the clock says and however the histogram is set up) and the
    two context functions.  [amdgv_load_world_context] and
    [amdgv_save_world_context] keep [context_ok]: afterwards the engine is
    where the world switch says, or the world switch is abnormal and stopped. *)
From S2P Require Import Prelude Oss Api Mask Gpuiov WsState WsInv WsManual WsBulk Dlist ListScan Switch SwitchEngine SwitchInv.
Import Dlist ListScan.
#[local] Open Scope Z_scope.

Section run.
Context {hw : Type} `{HW : WsHw hw} {E : OssEnv}.
Variable ws : Z.
Implicit Types (s t : switcher hw) (e : active_vf_entry) (w : world_switch) (vs : list Z).
Abbreviation ws_of := (SwitchInv.ws_of ws).
Abbreviation context_ok := (SwitchInv.context_ok ws).
Abbreviation put_ws := (SwitchInv.put_ws ws).

(** ** Frames of the primitive updates *)

(** Only the books: the adapter is untouched. *)
Definition books s t : Prop := upkeep s t /\ sw_hw t = sw_hw s.

#[export] Instance books_preorder : PreOrder books.
Proof.
  split; [by intros s; split|]. intros s t u [] []. split; [by etransitivity|congruence].
Qed.

Lemma books_same s t :
  sw_hw t = sw_hw s -> sw_manual t = sw_manual s -> sw_conf t = sw_conf s ->
  run_summation t = run_summation s -> books s t.
Proof.
  intros Hh Hm Hc Hr. split; [|done].
  split; unfold sw_links, slots, logs_ok; rewrite ?Hm, ?Hh, ?Hc, ?Hr; try done.
Qed.

Lemma books_slot i e e' s : slot s i = Some e -> same_member e e' -> books s (put_slot i e' s).
Proof.
  intros He Hm. split; [|done]. split; try done. unfold slots, put_slot. cbn.
  apply Forall2_same_length_lookup_2; [by rewrite length_insert|].
  intros j x y Hx Hy. destruct (decide (j = Z.to_nat i)) as [->|Hne].
  - rewrite list_lookup_insert_eq in Hy by (by eapply lookup_lt_Some).
    unfold slot, slots in He. assert (x = e) as -> by congruence. by injection Hy as <-.
  - rewrite list_lookup_insert_ne in Hy by done. by replace y with x by congruence.
Qed.

Lemma upkeep_put_ws w s : upkeep s (put_ws w s).
Proof. by split. Qed.

Lemma upkeep_engine s a : eng_frame (sw_hw s) a -> upkeep s (s <| sw_hw := a |>).
Proof. intros []. by split. Qed.

Lemma books_ws s t : books s t -> ws_of t = ws_of s.
Proof. intros [_ H]. unfold SwitchInv.ws_of. by rewrite H. Qed.

Lemma books_context s t : books s t -> context_ok s -> context_ok t.
Proof.
  intros [Hu Hh] [(w & Hw & Hr & Hc & Hl & Hs & Ha) Hn Hg].
  split; [|by eapply upkeep_counts|by apply (uk_logs _ _ Hu)].
  exists w. unfold SwitchInv.ws_of in *. rewrite Hh. do 3 (split; [done|]). split; [|done].
  intros Hst. destruct (Hl Hst). split; [by eapply upkeep_valid|done].
Qed.

Lemma upkeep_len s t : upkeep s t -> length (slots s) = 32%nat -> length (slots t) = 32%nat.
Proof. intros Hu <-. symmetry. apply (Forall2_length _ _ _ (uk_slots _ _ Hu)). Qed.

(** ** Histograms *)

(** The bucket is one of the histogram's, whatever the clock and the intervals
    are; in particular the division is never by zero. *)
Lemma hist_bucket_range start interval a :
  0 <= start -> 0 <= interval ->
  exists b, hist_bucket start interval a = Some b /\ 0 <= b < AMDGV_HISTOGRAM_SIZE.
Proof.
  intros Hs Hi. unfold hist_bucket, AMDGV_HISTOGRAM_SIZE.
  assert (u64 (start + interval * 32) <= start + interval * 32) as Hle
    by (apply Z.mod_le; lia).
  destruct (Z.leb_spec start a), (Z.ltb_spec a (u64 (start + interval * 32))); cbn [andb];
    try (eexists; split; [done|]; destruct (a <? start); lia).
  destruct (Z.eqb_spec interval 0) as [->|]; [lia|].
  eexists. split; [done|]. split; [apply Z.div_pos; lia|].
  apply Z.div_lt_upper_bound; lia.
Qed.

Lemma log_some s i h : logs_ok s -> 0 <= i < 32 -> 0 <= h < 32 ->
  exists l, (run_summation s !! Z.to_nat i ≫= fun l => l !! Z.to_nat h) = Some l /\ hist_ok l.
Proof.
  intros [Hn Hf] Hi Hh.
  destruct (lookup_lt_is_Some_2 (run_summation s) (Z.to_nat i)) as [l Hl]; [lia|].
  rewrite Forall_lookup in Hf. destruct (Hf _ _ Hl) as [Hll Hlf].
  destruct (lookup_lt_is_Some_2 l (Z.to_nat h)) as [x Hx]; [lia|].
  exists x. rewrite Hl. split; [done|]. rewrite Forall_lookup in Hlf. eauto.
Qed.

Lemma logs_ok_set s i h f :
  logs_ok s -> (forall l, hist_ok l -> hist_ok (f l)) ->
  logs_ok (s <| run_summation := alter (alter f (Z.to_nat h)) (Z.to_nat i) (run_summation s) |>).
Proof.
  intros [Hn Hf] Hh. split; cbn; [by rewrite length_alter|].
  apply Forall_alter; [done|]. intros l _ [Hl Hlf]. rewrite length_alter.
  split; [done|]. apply Forall_alter; [done|]. auto.
Qed.

Lemma wp_update_histogram i a h s :
  logs_ok s -> 0 <= i < 32 -> 0 <= h < 32 ->
  wp (update_histogram i a h) (fun _ t => books s t) s.
Proof.
  intros Hg Hi Hh. destruct (log_some s i h) as (l & Hl & Hlo); [done..|].
  destruct (log_some s AMDGV_PF_IDX h) as (p & Hp & Hpo); [done|unfold AMDGV_PF_IDX; lia|done|].
  destruct (hist_bucket_range (h_start p) (h_interval p) a) as (b & Hb & Hbr); [apply Hpo..|].
  destruct (lookup_lt_is_Some_2 (h_count l) (Z.to_nat b)) as [c Hc].
  { destruct Hlo as (_ & _ & ->). unfold AMDGV_HISTOGRAM_SIZE in Hbr. lia. }
  unfold update_histogram.
  wp_step. apply (wp_intro _ l s s); [unfold time_log; by rewrite Hl|].
  wp_step. apply (wp_intro _ p s s); [unfold time_log; by rewrite Hp|].
  wp_step. eapply wp_require; [exact Hb|].
  wp_step. apply (wp_intro _ l s s); [unfold time_log; by rewrite Hl|].
  wp_step. eapply wp_require; [exact Hc|].
  unfold set_time_log. wp_step. split; [|done]. split; try done. intros Hok. apply logs_ok_set; [done|].
  intros l' (? & ? & Hl'). split_and!; try done. cbn. by rewrite length_insert.
Qed.

(** ** Start and end of a visit *)

Lemma charge_same bp c e : same_member e (charge bp c e).
Proof.
  unfold charge. cbn [start_ts last_time_slice skip_next_punish upd].
  generalize (s64 (c - (start_ts e + last_time_slice e))) as d. intros d.
  destruct (0 <? d); [|by split].
  match goal with |- context [if ?b then _ else _] => destruct b end; [by split|].
  split; try done. intros _. apply wrap_range. lia.
Qed.

Lemma wp_start_record i b s :
  length (slots s) = 32%nat -> 0 <= i < 32 ->
  wp (amdgv_sched_start_record_vf_time i b) (fun _ t => books s t) s.
Proof.
  intros Hn Hi. destruct (slot_some s i Hn Hi) as [e He].
  unfold amdgv_sched_start_record_vf_time. wp_step. apply wp_now_any. intros c o. wp_step.
  set (s1 := s <| sw_oss := o |>).
  eapply wp_set_entry; [exact He|]. unfold call. wp_step.
  transitivity s1; [by apply books_same|].
  transitivity (put_slot i (e <| start_ts := c |>) s1); [by eapply books_slot|by apply books_same].
Qed.

Lemma wp_stop_record i w s :
  ws_of s = Some w -> in_width 32 (ws_hw_sched_mask w) -> logs_ok s ->
  length (slots s) = 32%nat -> 0 <= i < 32 ->
  wp (amdgv_sched_stop_record_vf_time ws i) (fun _ t => books s t) s.
Proof.
  intros Hw Hm Hg Hn Hi. destruct (slot_some s i Hn Hi) as [e He].
  unfold amdgv_sched_stop_record_vf_time. wp_step. apply wp_now_any. intros c o.
  set (s1 := s <| sw_oss := o |>). assert (books s s1) as Hs1 by by apply books_same.
  wp_step. eapply (wp_slot_entry i e); [exact He|]. wp_step. eapply (wp_wsw ws w); [exact Hw|].
  wp_step. apply (wp_mono _ (fun _ t => books s t)).
  - wp_step; [|done]. wp_step. apply (wp_mono _ (fun _ t => books s t)).
    + wp_step; [|done]. apply (wp_for_each (fun t => books s t)); [|done].
      intros h t Hh Ht. apply elem_of_for_each_id in Hh as [Hh _]; [|done].
      eapply wp_mono; [apply wp_update_histogram; try done; by apply (uk_logs _ _ (proj1 Ht))|].
      intros r u Hu. by etransitivity.
    + intros [] t Ht. wp_step. unfold conf. wp_step.
      destruct (upkeep_slot_l _ _ _ _ (proj1 Ht) He) as (e' & He' & _).
      eapply wp_set_entry; [exact He'|]. etransitivity; [exact Ht|].
      eapply books_slot; [exact He'|apply charge_same].
  - intros [] t Ht. wp_step; [|done]. unfold call. wp_step.
    etransitivity; [exact Ht|by apply books_same].
Qed.

(** ** The two context functions *)

(** What no operation changes of a world switch, once it is set up. *)
Record stable w w' : Prop := {
  st_enabled : ws_enabled w' = ws_enabled w;
  st_block : sched_block w' = sched_block w;
  st_mask : ws_hw_sched_mask w' = ws_hw_sched_mask w;
  st_bulk : bulk_goto_state w' = bulk_goto_state w;
}.
#[export] Instance stable_preorder : PreOrder stable.
Proof. split; [by intros w; split|]. intros a b c [] []. split; congruence. Qed.

Lemma ws_same_fields w w' : ws_same w w' ->
  stable w w' /\ curr_idx_vf w' = curr_idx_vf w /\ curr_vf_state w' = curr_vf_state w /\
  switch_running w' = switch_running w /\ vf_inited w' = vf_inited w.
Proof. destruct w, w'. unfold ws_same. cbn. intros [=]. subst. by repeat split. Qed.

(** The world switch [w] with an engine that takes requests. *)
Definition ready w s : Prop :=
  ws_of s = Some w /\ engine_ready (ws_hw_sched_mask w) (bulk_goto_state w) (sw_hw s).

Lemma engine_ready_ws mask b (a : adapter hw) l :
  engine_ready mask b a -> engine_ready mask b (a <| world_switches := l |>).
Proof.
  intros [Hm Hs Hc [] Ha Hx]. split; try done.
  intros h Hh. destruct (Hs h Hh) as ([[] ? ? ?] & ? & ?). by split_and!.
Qed.

Lemma ready_put w w' s : stable w w' -> ready w s -> ready w' (put_ws w' s).
Proof.
  intros [_ _ Hm Hb] [Hw Hr]. split; [by eapply ws_of_put|].
  rewrite Hm, Hb. by apply engine_ready_ws.
Qed.

Lemma ready_books w s t : books s t -> ready w s -> ready w t.
Proof. intros Hb [Hw Hr]. split; [by rewrite (books_ws _ _ Hb)|]. by rewrite (proj2 Hb). Qed.

Lemma wp_engine w vf tgt (m : M (adapter hw) Z) s (Q : Z -> switcher hw -> Prop) :
  ready w s ->
  wp m (engine_post vf (ws_hw_sched_mask w) tgt (bulk_goto_state w) (sw_hw s)) (sw_hw s) ->
  (forall r w' t, upkeep s t -> ready w' t -> ws_same w w' -> slots t = slots s ->
     (r = 0 -> on_engine vf (ws_hw_sched_mask w') tgt (sw_hw t)) ->
     (engine_completes (sw_hw s) -> r = 0) -> Q r t) ->
  wp (on_hw m) Q s.
Proof.
  intros [Hw Hr] Hm HQ. unfold on_hw. wp_step. eapply wp_mono; [exact Hm|].
  intros r a [Pr Pf Pd Po]. destruct (eng_frame_ws _ _ _ _ Pf Hw) as (w' & Hw' & Hsame).
  destruct (ws_same_fields _ _ Hsame) as ([_ _ Hmask Hbulk] & _).
  apply (HQ r w'); try done.
  - by apply upkeep_engine.
  - split; [done|]. by rewrite Hmask, Hbulk.
  - by rewrite Hmask.
Qed.

(** What is left of a state the world switch knows to be wrong. *)
Definition stopped w' : Prop :=
  curr_vf_state w' = AMDGV_VF_CONTEXT_ABNORMAL /\ switch_running w' = false.

(** The result of a context function on VF [vf]: the engine is in [st], or the
    world switch is stopped. *)
Record context_post (vf st inited : Z) w s (r : Z) t : Prop := {
  cp_upkeep : upkeep s t;
  cp_context : context_ok t;
  cp_ws : exists w', ws_of t = Some w' /\ stable w w' /\ curr_idx_vf w' = vf /\
    vf_inited w' = inited /\
    ((r = 0 /\ curr_vf_state w' = st /\ switch_running w' = switch_running w) \/
     (r = AMDGV_FAILURE /\ stopped w'));
  cp_ok : engine_completes (sw_hw s) -> r = 0;
}.

Lemma context_ok_intro w s :
  ready w s -> counts_ok s -> logs_ok s -> 0 <= curr_idx_vf w < 32 ->
  (curr_vf_state w = AMDGV_VF_CONTEXT_LOADED -> vf_valid s (curr_idx_vf w) /\
     on_engine (curr_idx_vf w) (ws_hw_sched_mask w) (run_target (curr_idx_vf w) (sw_hw s)) (sw_hw s)) ->
  (curr_vf_state w = AMDGV_VF_CONTEXT_SAVED ->
     on_engine (curr_idx_vf w) (ws_hw_sched_mask w) AMDGV_SAVE_GPU_STATE (sw_hw s)) ->
  (switch_running w = true -> curr_vf_state w <> AMDGV_VF_CONTEXT_ABNORMAL) ->
  context_ok s.
Proof. intros [??] ??????. split; [|done..]. exists w. tauto. Qed.

Lemma context_ready s : context_ok s -> exists w, ready w s /\ 0 <= curr_idx_vf w < 32.
Proof. intros [(w & Hw & Hr & Hc & _) _ _]. by exists w. Qed.

Lemma wp_ptl w (Q : bool -> switcher hw -> Prop) s :
  ws_of s = Some w -> (forall b, Q b s) -> wp (ptl_allowed ws) Q s.
Proof.
  intros Hw HQ. unfold ptl_allowed, conf. wp_step. eapply (wp_wsw ws w); [exact Hw|].
  repeat wp_step. apply HQ.
Qed.

Lemma wp_call (c : sw_call) (Q : unit -> switcher hw -> Prop) s :
  (forall t, books s t -> t = s <| sw_calls := c :: sw_calls s |> -> Q tt t) -> wp (call c) Q s.
Proof. intros HQ. unfold call. wp_step. apply HQ; [by apply books_same|done]. Qed.

Lemma wp_when_call b (c : sw_call) (Q : unit -> switcher hw -> Prop) s :
  (forall t, books s t -> Q tt t) -> wp (when b (call c)) Q s.
Proof. intros HQ. destruct b; cbn [when]; [apply wp_call; auto|wp_step; by apply HQ]. Qed.

Lemma wp_context_failed w s (Q : unit -> switcher hw -> Prop) :
  ready w s ->
  (forall w', ready w' (put_ws w' s) -> stable w w' -> curr_idx_vf w' = curr_idx_vf w ->
     vf_inited w' = vf_inited w -> stopped w' -> Q tt (put_ws w' s)) ->
  wp (context_failed ws) Q s.
Proof.
  intros Hr HQ. unfold context_failed. wp_step. eapply wp_set_wsw; [apply Hr|].
  eapply wp_set_wsw; [eapply ws_of_put; apply Hr|].
  set (w' := (w <| switch_running := false |>) <| curr_vf_state := AMDGV_VF_CONTEXT_ABNORMAL |>).
  assert (put_ws w' (put_ws (w <| switch_running := false |>) s) = put_ws w' s) as E1.
  { unfold SwitchInv.put_ws. cbn. by rewrite list_insert_insert_eq. }
  assert (stable w w') by by split.
  rewrite E1. apply HQ; try done. by eapply ready_put.
Qed.

Lemma context_ok_stopped w s :
  ready w s -> counts_ok s -> logs_ok s -> 0 <= curr_idx_vf w < 32 -> stopped w -> context_ok s.
Proof.
  intros ???? [Hst Hrun]. eapply context_ok_intro; try done; rewrite ?Hst, ?Hrun; done.
Qed.

Lemma ready_upkeep_put w w' s : stable w w' -> ready w s ->
  upkeep s (put_ws w' s) /\ ready w' (put_ws w' s).
Proof. intros. split; [apply upkeep_put_ws|by eapply ready_put]. Qed.

(** The part [amdgv_init_world_context] and [amdgv_load_world_context] share:
    the start stamp and the request to the engine. *)
Lemma wp_start_run w i b s (Q : Z -> switcher hw -> Prop) :
  ready w s -> counts_ok s -> length (slots s) = 32%nat -> vf_valid s i ->
  (forall r w' t, upkeep s t -> ready w' t -> ws_same w w' ->
     (r = 0 -> on_engine i (ws_hw_sched_mask w') (run_target i (sw_hw t)) (sw_hw t)) ->
     (engine_completes (sw_hw s) -> r = 0) -> Q r t) ->
  wp (_ ← amdgv_sched_start_record_vf_time i b; on_hw (amdgv_logical_sched_state_run i ws)) Q s.
Proof.
  intros Hr Hc Hn Hv HQ. wp_step.
  eapply wp_mono; [apply wp_start_record; [done|by eapply vf_valid_range]|].
  intros [] s2 Hb. pose proof (ready_books _ _ _ Hb Hr) as Hr2. destruct Hb as [Hu2 Hh2].
  eapply wp_engine; [exact Hr2| |].
  - apply (wp_engine_run i ws w); [apply Hr2|apply Hr2|].
    apply (vf_valid_present s2); [by eapply upkeep_counts|by eapply upkeep_valid].
  - intros r w3 t Hu3 Hr3 Hsame _ Hon Hok. apply (HQ r w3); try done.
    + by etransitivity.
    + intros Hz. rewrite (engine_post_run_target (sw_hw s2) (sw_hw t)); [by apply Hon|].
      by rewrite (uk_array _ _ Hu3).
    + by rewrite <- Hh2.
Qed.

Lemma wp_load w i s :
  ready w s -> counts_ok s -> logs_ok s -> length (slots s) = 32%nat -> vf_valid s i ->
  wp (amdgv_load_world_context ws i) (context_post i AMDGV_VF_CONTEXT_LOADED (vf_inited w) w s) s.
Proof.
  intros Hr Hc Hg Hn Hv. pose proof (vf_valid_range _ _ Hc Hv) as Hi.
  unfold amdgv_load_world_context. wp_step. eapply wp_set_wsw; [apply Hr|].
  set (w1 := w <| curr_idx_vf := i |>). assert (stable w w1) as Hst1 by by split.
  destruct (ready_upkeep_put w w1 s Hst1 Hr) as [Hu1 Hr1]. set (s1 := put_ws w1 s) in *.
  apply wp_assoc. wp_step. apply (wp_start_run w1); try done.
  intros r w2 t Hu2 Hr2 Hsame Hon Hok.
  destruct (ws_same_fields _ _ Hsame) as (Hst2 & Hc2 & _ & Hrun2 & Hin2).
  assert (upkeep s t) as Hut by by etransitivity.
  assert (stable w w2) as Hst by by etransitivity.
  assert (counts_ok t /\ logs_ok t /\ vf_valid t i) as (Tc & Tg & Tv).
  { split_and!; [by eapply upkeep_counts|by apply (uk_logs _ _ Hut)|by eapply upkeep_valid]. }
  destruct (Z.eqb_spec r 0) as [->|Hne]; cbn [negb].
  2: { wp_step. eapply wp_context_failed; [exact Hr2|]. intros w3 Hr3 Hst3 Hc3 Hin3 Hsd. wp_step.
       split.
       - etransitivity; [exact Hut|apply upkeep_put_ws].
       - eapply context_ok_stopped; try done. by rewrite Hc3, Hc2.
       - exists w3. split_and!; [apply Hr3|by etransitivity|by rewrite Hc3, Hc2|
           by rewrite Hin3, Hin2|by right].
       - intros Hco. exfalso. apply Hne. by apply Hok. }
  wp_step. eapply wp_ptl; [apply Hr2|]. intros p. wp_step. apply wp_when_call. intros t1 Hb1.
  pose proof (ready_books _ _ _ Hb1 Hr2) as Hr3. destruct Hb1 as [Hu3 Hh3].
  wp_step. eapply wp_set_wsw; [apply Hr3|]. wp_step.
  set (w3 := w2 <| curr_vf_state := AMDGV_VF_CONTEXT_LOADED |>).
  assert (stable w2 w3) as Hst3 by by split.
  destruct (ready_upkeep_put w2 w3 t1 Hst3 Hr3) as [Hu4 Hr4].
  assert (upkeep t (put_ws w3 t1)) as Hu5 by by etransitivity.
  split; [by transitivity t| |..].
  - eapply context_ok_intro; [exact Hr4|..]; try done.
    + by apply (upkeep_counts t).
    + by apply (uk_logs _ _ Hu5).
    + unfold w3. cbn. by rewrite Hc2.
    + intros _. unfold w3. cbn. rewrite Hc2, Hh3. split; [by apply (upkeep_valid t)|].
      by apply Hon.
  - exists w3. split_and!; [apply Hr4|by etransitivity|done|done|left; by split_and!].
  - done.
Qed.

(** The failing exit of a save and of a load: accounts closed or not, the
    world switch is stopped. *)
Lemma context_post_stopped vf st w w' s t :
  upkeep s t -> ready w' t -> counts_ok s -> logs_ok s -> stable w w' -> curr_idx_vf w' = vf ->
  0 <= vf < 32 -> stopped w' -> ~ engine_completes (sw_hw s) ->
  context_post vf st (vf_inited w') w s AMDGV_FAILURE t.
Proof.
  intros Hu Hr Hc Hg Hst Hvf Hi Hsd Hno. split; try done.
  - eapply context_ok_stopped; try done; [by eapply upkeep_counts|by apply (uk_logs _ _ Hu)|].
    by rewrite Hvf.
  - exists w'. split_and!; try done; [apply Hr|by right].
Qed.

Lemma wp_save w s :
  ready w s -> counts_ok s -> logs_ok s -> length (slots s) = 32%nat ->
  curr_vf_state w = AMDGV_VF_CONTEXT_LOADED -> vf_valid s (curr_idx_vf w) ->
  wp (amdgv_save_world_context ws)
     (context_post (curr_idx_vf w) AMDGV_VF_CONTEXT_SAVED (vf_inited w) w s) s.
Proof.
  intros Hr Hc Hg Hn Hld Hv. pose proof (vf_valid_range _ _ Hc Hv) as Hi.
  unfold amdgv_save_world_context. wp_step. eapply (wp_wsw ws w); [apply Hr|]. rewrite Hld.
  change (AMDGV_VF_CONTEXT_LOADED =? AMDGV_VF_CONTEXT_LOADED) with true. cbv iota.
  wp_step. eapply wp_ptl; [apply Hr|]. intros p. wp_step. apply wp_when_call. intros s1 Hb1.
  pose proof (ready_books _ _ _ Hb1 Hr) as Hr1. destruct Hb1 as [Hu1 Hh1].
  wp_step. eapply wp_engine; [exact Hr1| |].
  { apply (wp_engine_pause (curr_idx_vf w) ws w); [apply Hr1|apply Hr1|].
    apply (vf_valid_present s1); [by eapply upkeep_counts|by eapply upkeep_valid]. }
  intros r w2 t Hu2 Hr2 Hsame _ Hon Hok.
  destruct (ws_same_fields _ _ Hsame) as (Hst2 & Hc2 & _ & Hrun2 & Hin2).
  assert (upkeep s t) as Hut by by etransitivity.
  assert (forall w' u, ready w' u -> stable w w' -> upkeep t u ->
    wp (amdgv_sched_stop_record_vf_time ws (curr_idx_vf w)) (fun _ v => books u v) u) as Hstop.
  { intros w' u Hr' Hs' Hu'. assert (upkeep s u) as Hsu by by etransitivity.
    eapply wp_stop_record; [apply Hr'|apply Hr'|by apply (uk_logs _ _ Hsu)|by eapply upkeep_len|done]. }
  destruct (Z.eqb_spec r 0) as [->|Hne]; cbn [negb].
  - wp_step. eapply wp_set_wsw; [apply Hr2|].
    set (w3 := w2 <| curr_vf_state := AMDGV_VF_CONTEXT_SAVED |>).
    assert (stable w2 w3) as Hst3 by by split. assert (stable w w3) as Hs3 by by etransitivity.
    destruct (ready_upkeep_put w2 w3 t Hst3 Hr2) as [Hu4 Hr4].
    wp_step. eapply wp_mono; [by eapply Hstop|]. intros [] u Hbu. wp_step.
    assert (upkeep s u) as Hsu by (etransitivity; [exact Hut|etransitivity; [exact Hu4|apply Hbu]]).
    split; try done.
    + apply (books_context (put_ws w3 t)); [done|].
      assert (upkeep s (put_ws w3 t)) as Hs4 by by transitivity t.
      eapply context_ok_intro; [exact Hr4|..]; try done.
      * by apply (upkeep_counts s).
      * by apply (uk_logs _ _ Hs4).
      * unfold w3. cbn. by rewrite Hc2.
      * intros _. unfold w3. cbn. rewrite Hc2. by apply Hon.
    + exists w3. split_and!; [by rewrite (books_ws _ _ Hbu); apply Hr4|done|done|done|left; by split_and!].
  - wp_step. eapply wp_context_failed; [exact Hr2|]. intros w3 Hr3 Hst3 Hc3 Hin3 Hsd.
    assert (stable w w3) as Hs3 by by etransitivity.
    wp_step. eapply wp_mono; [eapply Hstop; [exact Hr3|done|apply upkeep_put_ws]|].
    intros [] u Hbu. wp_step. rewrite <- Hin2, <- Hin3. eapply context_post_stopped; try done.
    + etransitivity; [exact Hut|]. etransitivity; [apply upkeep_put_ws|apply Hbu].
    + by eapply ready_books.
    + by rewrite Hc3, Hc2.
    + intros Hco. apply Hne, Hok. by rewrite Hh1.
Qed.

(** Initialising happens in exclusive access, with the world switch stopped:
    unlike loading, it does not stop it itself. *)
Lemma wp_init_context w i s :
  ready w s -> counts_ok s -> logs_ok s -> length (slots s) = 32%nat -> vf_valid s i ->
  switch_running w = false ->
  wp (amdgv_init_world_context ws i)
     (context_post i AMDGV_VF_CONTEXT_LOADED (mask_set (vf_inited w) i) w s) s.
Proof.
  intros Hr Hc Hg Hn Hv Hstop. pose proof (vf_valid_range _ _ Hc Hv) as Hi.
  unfold amdgv_init_world_context. wp_step. eapply wp_set_wsw; [apply Hr|].
  wp_step. eapply wp_set_wsw; [eapply ws_of_put; apply Hr|].
  set (w1 := (w <| curr_idx_vf := i |>) <| vf_inited := _ |>).
  assert (stable w w1) as Hst1 by by split.
  destruct (ready_upkeep_put w w1 s Hst1 Hr) as [Hu1 Hr1].
  assert (put_ws w1 (put_ws (w <| curr_idx_vf := i |>) s) = put_ws w1 s) as E1.
  { unfold SwitchInv.put_ws. cbn. by rewrite list_insert_insert_eq. }
  rewrite E1. set (s1 := put_ws w1 s) in *.
  apply wp_assoc. wp_step. apply (wp_start_run w1); try done.
  intros r w2 t Hu2 Hr2 Hsame Hon Hok.
  destruct (ws_same_fields _ _ Hsame) as (Hst2 & Hc2 & _ & Hrun2 & Hin2).
  assert (upkeep s t) as Hut by by etransitivity.
  assert (stable w w2) as Hst by by etransitivity.
  destruct (Z.eqb_spec r 0) as [->|Hne]; cbn [negb].
  2: { wp_step. eapply wp_set_wsw; [apply Hr2|]. wp_step.
       set (w3 := w2 <| curr_vf_state := AMDGV_VF_CONTEXT_ABNORMAL |>).
       assert (stable w2 w3) as Hst3 by by split.
       destruct (ready_upkeep_put w2 w3 t Hst3 Hr2) as [Hu4 Hr4].
       replace (mask_set (vf_inited w) i) with (vf_inited w3) by done.
       eapply context_post_stopped; try done; [by etransitivity|by etransitivity| |].
       - split; [done|]. change (switch_running w2 = false). by rewrite Hrun2.
       - intros Hco. by apply Hne, Hok. }
  wp_step. unfold conf. wp_step. wp_step. apply wp_when_call. intros t0 Hb0.
  wp_step. eapply wp_ptl; [eapply ready_books; done|]. intros p. wp_step. apply wp_when_call.
  intros t1 Hb1. assert (books t t1) as Hb by by etransitivity.
  pose proof (ready_books _ _ _ Hb Hr2) as Hr3. destruct Hb as [Hu3 Hh3].
  wp_step. eapply wp_set_wsw; [apply Hr3|]. wp_step.
  set (w3 := w2 <| curr_vf_state := AMDGV_VF_CONTEXT_LOADED |>).
  assert (stable w2 w3) as Hst3 by by split.
  destruct (ready_upkeep_put w2 w3 t1 Hst3 Hr3) as [Hu4 Hr4].
  assert (upkeep s (put_ws w3 t1)) as Hs4 by by do 2 (etransitivity; [eassumption|]).
  split; try done.
  - eapply context_ok_intro; [exact Hr4|..]; try done.
    + by apply (upkeep_counts s).
    + by apply (uk_logs _ _ Hs4).
    + unfold w3. cbn. by rewrite Hc2.
    + intros _. unfold w3. cbn. rewrite Hc2, Hh3. split; [by apply (upkeep_valid s)|]. by apply Hon.
  - exists w3. split_and!; [apply Hr4|by etransitivity|done|done|left; by split_and!].
Qed.
End run.
