(* ===== verification/SwitchQuiet.v ===== *)
(** * World switch: what leaves the pass-over counts alone

    [logs l m]: whatever [m] does, it leaves the counts [skip_cnt] as they are
    and puts exactly the VFs [l] on the engine, newest first, as the start
    times it reports say.  The parts of a round but the choice are such
    computations; the proofs follow the syntax. *)
From S2P Require Import Prelude Oss Api Mask Gpuiov WsState Dlist ListScan Switch SwitchEngine SwitchInv SwitchRun.
Import Dlist ListScan.
#[local] Open Scope Z_scope.

(** The VFs whose start times were reported, newest first. *)
Definition load_of (c : sw_call) : option Z :=
  match c with LoadStartTime v _ => Some v | _ => None end.
Definition loads_of (l : list sw_call) : list Z := omap load_of l.

Section quiet.
Context {hw : Type} `{HW : WsHw hw} {E : OssEnv}.
Variable ws : Z.
Implicit Types (s t : switcher hw) (e : active_vf_entry).

Record adds (l : list Z) s t : Prop := {
  ad_skips : skip_cnt <$> slots t = skip_cnt <$> slots s;
  ad_loads : loads_of (sw_calls t) = l ++ loads_of (sw_calls s);
}.

Lemma adds_refl s : adds [] s s.
Proof. by split. Qed.
Lemma adds_trans l1 l2 s t u : adds l1 s t -> adds l2 t u -> adds (l2 ++ l1) s u.
Proof. intros [] []. split; [congruence|]. rewrite <- app_assoc. congruence. Qed.

Definition logs {A} (l : list Z) (m : M (switcher hw) A) : Prop :=
  forall s a t, m s = Ret (a, t) -> adds l s t.

Lemma logs_ret {A} (a : A) : logs [] (mret a).
Proof. intros s b t [= _ ->]. apply adds_refl. Qed.
Lemma logs_bind {A B} l1 l2 (m : M (switcher hw) A) (f : A -> M (switcher hw) B) :
  logs l1 m -> (forall a, logs l2 (f a)) -> logs (l2 ++ l1) (m ≫= f).
Proof.
  intros Hm Hf s b u. unfold mbind, M_bind. destruct (m s) as [[a t]|] eqn:Em; [|done].
  intros Hu. eapply adds_trans; [by eapply Hm|by eapply Hf].
Qed.
(** The two cases that occur: the first or the second part loads. *)
Lemma logs_then {A B} l (m : M (switcher hw) A) (f : A -> M (switcher hw) B) :
  logs [] m -> (forall a, logs l (f a)) -> logs l (m ≫= f).
Proof. intros Hm Hf. rewrite <- (app_nil_r l). by apply logs_bind. Qed.
Lemma logs_first {A B} l (m : M (switcher hw) A) (f : A -> M (switcher hw) B) :
  logs l m -> (forall a, logs [] (f a)) -> logs l (m ≫= f).
Proof. intros Hm Hf. exact (logs_bind _ [] _ _ Hm Hf). Qed.

Lemma logs_gets {A} (f : switcher hw -> A) : logs [] (gets f).
Proof. intros s b t [= _ ->]. apply adds_refl. Qed.
Lemma logs_fault {A} l : logs l (@fault (switcher hw) A).
Proof. by intros s b t. Qed.
Lemma logs_require {A} (o : option A) : logs [] (require o : M (switcher hw) A).
Proof. intros s b t. destruct o; [intros [= _ ->]; apply adds_refl|done]. Qed.
Lemma logs_modify f : (forall s, slots (f s) = slots s /\ sw_calls (f s) = sw_calls s) -> logs [] (modify f).
Proof. intros Hf s b t [= _ <-]. destruct (Hf s) as [Hs Hc]. split; by rewrite ?Hs, ?Hc. Qed.
Lemma logs_on_hw {A} (m : M (adapter hw) A) : logs [] (on_hw m).
Proof. intros s b t. unfold on_hw, zoom. destruct (m _) as [[]|]; [intros [= _ <-]; by split|done]. Qed.
Lemma logs_on_oss {A} (m : M oss_state A) : logs [] (on_oss m : M (switcher hw) A).
Proof. intros s b t. unfold on_oss, zoom. destruct (m _) as [[]|]; [intros [= _ <-]; by split|done]. Qed.
Lemma logs_when b (m : M (switcher hw) unit) : logs [] m -> logs [] (when b m).
Proof. destruct b; [done|]. intros _. apply logs_ret. Qed.
Lemma logs_for_each {A} (l : list A) (f : A -> M (switcher hw) unit) :
  (forall x, logs [] (f x)) -> logs [] (for_each l f).
Proof. intros Hf. induction l as [|x l IH]; [apply logs_ret|]. by apply logs_then. Qed.
Lemma logs_if {A} (b : bool) l (m n : M (switcher hw) A) : logs l m -> logs l n -> logs l (if b then m else n).
Proof. by destruct b. Qed.
Lemma logs_call c : load_of c = None -> logs [] (call c).
Proof. intros Hc s b t [= _ <-]. split; [done|]. cbn. by rewrite Hc. Qed.
Lemma logs_entry i : logs [] (entry i : M (switcher hw) _).
Proof. intros s b t. unfold entry. apply logs_require. Qed.
Lemma logs_set_entry i f : (forall e, skip_cnt (f e) = skip_cnt e) -> logs [] (set_entry i f : M (switcher hw) _).
Proof.
  intros Hf s b t. unfold set_entry, entry, mbind, M_bind, set_manual.
  destruct (sw_array (sw_manual s) !! Z.to_nat i) as [e|] eqn:Ee; [|done].
  intros [= _ <-]. split; [|done]. unfold slots. cbn. rewrite list_fmap_insert.
  apply list_insert_id. rewrite list_lookup_fmap, Ee. cbn. by rewrite Hf.
Qed.
Lemma logs_set_manual f : (forall m, sw_array (f m) = sw_array m) -> logs [] (set_manual f : M (switcher hw) _).
Proof. intros Hf. apply logs_modify. intros s. split; [apply Hf|done]. Qed.
Lemma logs_link_op f : logs [] (link_op f : M (switcher hw) _).
Proof.
  apply logs_then; [apply logs_gets|]. intros l. apply logs_then; [apply logs_require|]. intros l'.
  by apply logs_set_manual.
Qed.
Lemma logs_next n : logs [] (list_next n : M (switcher hw) _).
Proof. intros s b t. unfold list_next, next_of. destruct (_ !! _); [intros [= _ <-]; apply adds_refl|done]. Qed.
Lemma logs_prev n : logs [] (list_prev n : M (switcher hw) _).
Proof. intros s b t. unfold list_prev, prev_of. destruct (_ !! _); [intros [= _ <-]; apply adds_refl|done]. Qed.
Lemma logs_slot_of n : logs [] (slot_of n : M (switcher hw) _).
Proof. destruct n; [apply logs_fault|apply logs_ret]. Qed.
Lemma logs_set_time_log i h f : logs [] (set_time_log i h f : M (switcher hw) _).
Proof. by apply logs_modify. Qed.
Lemma logs_time_log i h : logs [] (time_log i h : M (switcher hw) _).
Proof. intros s b t. unfold time_log. apply logs_require. Qed.

(** ** The parts of a round *)

Local Ltac quiet_step :=
  first [ apply logs_ret | apply logs_gets | apply logs_fault | apply logs_require | apply logs_on_hw
        | apply logs_on_oss | apply logs_entry | apply logs_next | apply logs_prev | apply logs_slot_of
        | apply logs_time_log | apply logs_set_time_log | apply logs_link_op
        | apply logs_call; reflexivity
        | apply logs_set_entry; reflexivity | apply logs_set_manual; reflexivity
        | apply logs_when | apply logs_for_each; intros ?
        | apply logs_if | lazymatch goal with |- logs _ (mbind _ _) => apply logs_then; [|intros ?] end ].
Local Ltac quiet := repeat (cbv zeta; quiet_step).

Lemma charge_skip bp c e : skip_cnt (charge bp c e) = skip_cnt e.
Proof. unfold charge. cbn. by repeat (case_match; cbn). Qed.

Lemma logs_stop_record i : logs [] (amdgv_sched_stop_record_vf_time ws i).
Proof.
  unfold amdgv_sched_stop_record_vf_time, now, wsw, conf, update_histogram. quiet.
  apply logs_set_entry. intros e. apply charge_skip.
Qed.

Lemma logs_start_record i b : logs [i] (amdgv_sched_start_record_vf_time i b : M (switcher hw) _).
Proof.
  unfold amdgv_sched_start_record_vf_time, now. quiet. intros s u t [= _ <-]. by split.
Qed.

Lemma logs_save : logs [] (amdgv_save_world_context ws).
Proof.
  unfold amdgv_save_world_context, wsw, ptl_allowed, conf, context_failed, set_wsw.
  quiet; apply logs_stop_record.
Qed.

Lemma logs_load i : logs [i] (amdgv_load_world_context ws i).
Proof.
  unfold amdgv_load_world_context, set_wsw, ptl_allowed, conf, wsw, context_failed.
  apply logs_then; [quiet|]. intros []. apply logs_first; [apply logs_start_record|]. intros []. quiet.
Qed.

Lemma logs_requeue i : logs [] (requeue i : M (switcher hw) _).
Proof. unfold requeue, AMDGV_IS_IDX_INVALID, conf, active_vf, move_tail. quiet. Qed.

Lemma logs_queue_reset : logs [] (queue_reset_vf ws).
Proof. unfold queue_reset_vf, wsw. quiet. Qed.

Lemma logs_release : logs [] (release_engine ws).
Proof.
  unfold release_engine, wsw, manual.
  quiet; (apply logs_save || apply logs_requeue || apply logs_stop_record).
Qed.

Lemma logs_stays : logs [] (liquid_stays ws).
Proof.
  unfold liquid_stays, manual, amdgv_sched_is_one_active_vf, conf, wsw, now. quiet.
Qed.

Lemma logs_load_fcn i ts : logs [i] (load_fcn ws i ts).
Proof.
  unfold load_fcn, manual. apply logs_then; [quiet|]. intros mode. apply logs_then; [quiet|]. intros [].
  apply logs_first; [apply logs_load|]. intros r. unfold amdgv_sched_should_pause_ws, conf, wsw, set_wsw.
  quiet; apply logs_queue_reset.
Qed.

(** ** With the rules of the program logic *)

Lemma wp_logs {A} l (m : M (switcher hw) A) (Q : A -> switcher hw -> Prop) s :
  logs l m -> wp m (fun a t => adds l s t -> Q a t) s -> wp m Q s.
Proof.
  intros Hm HQ. unfold wp in *. destruct (m s) as [[a t]|] eqn:Em; [|done]. apply HQ. by eapply Hm.
Qed.
End quiet.
