(* ===== verification/SwitchPick.v ===== *)
(** * World switch: the list and the choice of the next VF

    The list operations as operations on the sequence of VFs, and the two
    scheduling functions.  [reorder] is the frame of both: the adapter is
    untouched and the list has the same members.  The loop [re_schedule] ends:
    every entry it passes over pays off a slice of its debt
    ([wp_schedule_default]). *)
From S2P Require Import Prelude Oss Api Mask Gpuiov WsState WsInv WsManual WsBulk Dlist ListScan Switch SwitchEngine SwitchInv SwitchRun.
Import Dlist ListScan.
#[local] Open Scope Z_scope.

(** ** Sequences of VFs *)

(** [amdgv_list_move_tail]. *)
Definition send_back (i : Z) (vs : list Z) : list Z := filter (fun j => j <> i) vs ++ [i].

Lemma filter_ne_absent i (l : list Z) : i ∉ l -> filter (fun j => j <> i) l = l.
Proof.
  induction l as [|x l IH]; [done|]. intros [Hx Hl]%not_elem_of_cons.
  rewrite filter_cons_True by auto. by rewrite IH.
Qed.

Lemma send_back_split us i zs :
  NoDup (us ++ i :: zs) -> send_back i (us ++ i :: zs) = us ++ zs ++ [i].
Proof.
  intros Hnd. unfold send_back. rewrite filter_app, filter_cons_False by auto.
  apply NoDup_app in Hnd as (_ & Hd & [Hn _]%NoDup_cons).
  rewrite !filter_ne_absent; [by rewrite app_assoc|done|].
  intros Hj. eapply Hd; [exact Hj|by left].
Qed.

Lemma send_back_perm i vs : NoDup vs -> i ∈ vs -> send_back i vs ≡ₚ vs.
Proof.
  intros Hnd (us & zs & ->)%list_elem_of_split. rewrite send_back_split by done.
  rewrite app_assoc, <- Permutation_cons_append. apply Permutation_middle.
Qed.

(** The front of the list once an inactive PF was sent to the back. *)
Definition rotate_pf (act : bool) (vs : list Z) : list Z :=
  match vs with
  | v :: rest => if (v =? AMDGV_PF_IDX) && negb act then rest ++ [v] else vs
  | [] => []
  end.

Lemma rotate_pf_perm act vs : rotate_pf act vs ≡ₚ vs.
Proof.
  destruct vs as [|v rest]; [done|]. cbn. destruct (_ && _); [|done].
  symmetry. apply Permutation_cons_append.
Qed.

Section pick.
Context {hw : Type} `{HW : WsHw hw} {E : OssEnv}.
Variable ws : Z.
Implicit Types (s t : switcher hw) (e : active_vf_entry) (w : world_switch) (vs : list Z).
Abbreviation ws_of := (SwitchInv.ws_of ws).
Abbreviation context_ok := (SwitchInv.context_ok ws).

(** ** The frame *)

Record reorder s t : Prop := {
  ro_hw : sw_hw t = sw_hw s;
  ro_conf : sw_conf t = sw_conf s;
  ro_fair : fairness_mode (sw_manual t) = fairness_mode (sw_manual s);
  ro_mode : sched_mode (sw_manual t) = sched_mode (sw_manual s);
  ro_fn : amdgv_schedule_vfs (sw_manual t) = amdgv_schedule_vfs (sw_manual s);
  ro_slots : Forall2 same_member (slots s) (slots t);
  ro_logs : logs_ok s -> logs_ok t;
}.

#[export] Instance reorder_preorder : PreOrder reorder.
Proof.
  split.
  - intros s. by split.
  - intros s t u [] []. split; try congruence; auto.
    eapply (Forall2_trans same_member same_member); [|done..]. intros ???. by etransitivity.
Qed.

Lemma books_reorder s t : books s t -> reorder s t.
Proof. intros [[] ?]. by split. Qed.

(** With the links put back, a reordering is bookkeeping. *)
Definition relink (l : links (N := sw_node)) s : switcher hw :=
  s <| sw_manual := (sw_manual s) <| active_links := l |> |>.

Lemma reorder_books s t : reorder s t -> books (relink (sw_links t) s) t.
Proof. intros [Hh Hc Hf Hm Hn Hs Hg]. split; [|done]. by split; rewrite ?Hh. Qed.

Lemma relink_reorder l s : reorder s (relink l s).
Proof. by split. Qed.

Lemma reorder_context s t : reorder s t -> context_ok s -> context_ok t.
Proof.
  intros Hr Hc. eapply books_context; [by apply reorder_books|].
  destruct Hc as [Hw Hn Hg]. by split.
Qed.

Lemma reorder_slices vs vs' s t :
  reorder s t -> vs' ≡ₚ vs -> slices_ok vs s -> slices_ok vs' t.
Proof.
  intros Hr Hp Hs. eapply upkeep_slices; [by apply reorder_books|].
  destruct Hs as [Sp Sr Sd Sk Sc]. split; [| |done..].
  - intros i e He Hi. apply Sp; [done|]. by rewrite <- Hp.
  - intros i e He Hi. apply (Sr i e); [done|]. by rewrite <- Hp.
Qed.

Lemma reorder_members vs vs' s t :
  reorder s t -> vs' ≡ₚ vs -> dlist (sw_links t) Head (Vf <$> vs') -> members vs s -> members vs' t.
Proof.
  intros Hr Hp Hd Hm. eapply upkeep_members; [by apply reorder_books|].
  destruct Hm as [Ml Mn Mr Mp Ms]. split; try done.
  - by rewrite Hp.
  - intros i e He Hi. specialize (Ms i e He Hi).
    destruct (decide (i ∈ vs)), (decide (i ∈ vs')); try done; by rewrite Hp in *.
Qed.

Lemma reorder_ws s t : reorder s t -> ws_of t = ws_of s.
Proof. intros Hr. unfold SwitchInv.ws_of. by rewrite (ro_hw _ _ Hr). Qed.

Lemma reorder_pf s t : reorder s t -> pf_active t = pf_active s.
Proof. intros Hr. unfold pf_active, sv_of. by rewrite (ro_hw _ _ Hr). Qed.

(** ** Members *)

Lemma members_nodup vs s : members vs s -> NoDup vs.
Proof.
  intros Hm. destruct (mb_list _ _ Hm) as [_ Hnd]. apply NoDup_cons in Hnd as [_ Hnd].
  by apply NoDup_fmap_1 in Hnd.
Qed.

Lemma member_entry vs s i : members vs s -> i ∈ vs ->
  exists e, slot s i = Some e /\ idx_vf e = i /\ vf_valid s i.
Proof.
  intros Hm Hi. pose proof (mb_range _ _ Hm) as Hr. rewrite Forall_forall in Hr.
  specialize (Hr i Hi). destruct (decide (i = AMDGV_PF_IDX)) as [->|Hne].
  - destruct (mb_pf _ _ Hm) as (e & He & Hx). exists e. split_and!; try done. by right.
  - destruct (slot_some s i (mb_len _ _ Hm) Hr) as [e He]. exists e.
    pose proof (mb_slot _ _ Hm i e He) as Hs. rewrite decide_True in Hs by done.
    unfold AMDGV_PF_IDX in *. destruct Hs as [Hx Hv]; [lia|]. split_and!; try done.
    left. split; [lia|done].
Qed.

Lemma member_range vs s i : members vs s -> i ∈ vs -> 0 <= i < 32.
Proof. intros Hm Hi. pose proof (mb_range _ _ Hm) as Hr. rewrite Forall_forall in Hr. by apply Hr. Qed.

Lemma members_length vs s : members vs s -> (length vs <= 32)%nat.
Proof.
  intros Hm. assert (vs ⊆+ seqZ 0 32) as Hs%submseteq_length.
  { apply NoDup_submseteq; [by eapply members_nodup|]. intros i Hi. apply elem_of_seqZ.
    pose proof (member_range _ _ _ Hm Hi). lia. }
  by rewrite length_seqZ in Hs.
Qed.

(** ** List operations *)

Lemma wp_list_next_head v vs s (Q : sw_node -> switcher hw -> Prop) :
  members (v :: vs) s -> Q (Vf v) s -> wp (list_next Head) Q s.
Proof.
  intros Hm HQ. eapply wp_next_of; [|exact HQ].
  destruct (mb_list _ _ Hm) as [Hc _]. exact (chain_next _ _ _ _ Hc).
Qed.

Lemma wp_list_prev_head vs v s (Q : sw_node -> switcher hw -> Prop) :
  members (vs ++ [v]) s -> Q (Vf v) s -> wp (list_prev Head) Q s.
Proof.
  intros Hm HQ. eapply wp_prev_of; [|exact HQ].
  destruct (mb_list _ _ Hm) as [Hc _]. rewrite (chain_prev _ _ _ _ Hc), fmap_app.
  change (Vf <$> [v]) with [Vf v]. by rewrite last_snoc.
Qed.

Lemma wp_to_tail vs i s (Q : unit -> switcher hw -> Prop) :
  members vs s -> i ∈ vs ->
  (forall t, members (send_back i vs) t -> reorder s t -> slots t = slots s ->
     sw_calls t = sw_calls s -> Q tt t) ->
  wp (move_tail (Vf i)) Q s.
Proof.
  intros Hm Hi HQ. pose proof (members_nodup _ _ Hm) as Hnd.
  pose proof (send_back_perm _ _ Hnd Hi) as Hp.
  apply list_elem_of_split in Hi as (us & zs & ->).
  pose proof (mb_list _ _ Hm) as Hd. rewrite fmap_app in Hd.
  destruct (dlist_move_tail _ _ _ _ _ Hd) as (l & El & Hl).
  unfold move_tail, link_op, manual. wp_step. wp_step. wp_step. eapply wp_require; [exact El|].
  unfold set_manual. wp_step. fold (relink l s). apply HQ; try done.
  eapply reorder_members; [apply relink_reorder|done| |exact Hm].
  rewrite send_back_split by done. by rewrite !fmap_app.
Qed.

Lemma wp_first_member v vs s (Q : sw_node -> switcher hw -> Prop) :
  members (v :: vs) s -> ws_shape (sw_hw s) ->
  (forall v' vs' t, rotate_pf (pf_active s) (v :: vs) = v' :: vs' -> members (v' :: vs') t ->
     reorder s t -> slots t = slots s -> sw_calls t = sw_calls s -> Q (Vf v') t) ->
  wp first_entry Q s.
Proof.
  intros Hm Hsh HQ. assert (v ∈ v :: vs) as Hv by by left.
  destruct (member_entry _ _ _ Hm Hv) as (e & He & Hx & _).
  unfold first_entry. wp_step. eapply wp_list_next_head; [exact Hm|]. wp_step. cbn [slot_of].
  wp_step. wp_step. eapply wp_slot_entry; [exact He|]. wp_step. apply wp_pf_active; [done|].
  rewrite Hx. cbn [rotate_pf] in HQ. destruct ((v =? AMDGV_PF_IDX) && negb (pf_active s)) eqn:Ec.
  - wp_step. eapply wp_to_tail; [exact Hm|done|]. intros t Ht Hr Hsl Hca.
    pose proof (send_back_split [] v vs) as Hsb. cbn [app] in Hsb.
    rewrite Hsb in Ht by by eapply members_nodup.
    destruct (vs ++ [v]) as [|v' vs'] eqn:Ev; [by destruct vs|].
    eapply wp_list_next_head; [exact Ht|]. by apply (HQ v' vs').
  - wp_step. by apply (HQ v vs).
Qed.

(** ** Time slices *)

Lemma s64_diff_nonpos a b :
  0 < a < 2 ^ 32 -> in_width 64 b -> s64 (a - b) <= 0 -> a <= b.
Proof.
  unfold in_width, s64, wrap. intros Ha Hb H. destruct (Z.le_gt_cases a b) as [|Hgt]; [done|].
  rewrite Z.mod_small in H by lia. destruct (Z.ltb_spec (a - b) (2 ^ 63)); lia.
Qed.

Lemma s64_slice a : 0 <= a < 2 ^ 32 -> s64 a = a.
Proof. intros. apply s64_id. lia. Qed.

Lemma u64_pos a : 0 < a < 2 ^ 63 -> 0 < u64 a.
Proof. intros. rewrite wrap_id by (unfold in_width; lia). lia. Qed.

Lemma s64_below z : s64 z < 2 ^ 63.
Proof.
  unfold s64. pose proof (wrap_range 64 z). unfold in_width in *.
  destruct (Z.ltb_spec (u64 z) (2 ^ 63)); lia.
Qed.

(** An entry is passed over only when its debt is at least the slice. *)
Lemma punish_cases a e :
  0 < a < 2 ^ 32 -> in_width 64 (beyond_time_cycle e) ->
  0 < last_time_slice (punish a e) \/
  (last_time_slice (punish a e) = 0 /\ a <= beyond_time_cycle e /\
   beyond_time_cycle (punish a e) = u64 (beyond_time_cycle e - time_slice e)).
Proof.
  intros Ha Hb. unfold punish. rewrite (s64_slice a), (s64_slice (a / 2)).
  2: { split; [apply Z.div_pos; lia|]. apply Z.div_lt_upper_bound; lia. }
  2: lia.
  pose proof (s64_below (a - beyond_time_cycle e)) as Hlt.
  destruct (Z.leb_spec (s64 (a - beyond_time_cycle e)) 0) as [Hle|Hgt]; cbn.
  - right. split_and!; [done|by apply s64_diff_nonpos|done].
  - left. destruct (Z.leb_spec (s64 (a - beyond_time_cycle e)) (a / 2)); cbn;
      apply u64_pos; try lia.
    split; [lia|]. apply Z.div_lt_upper_bound; lia.
Qed.

Lemma punish_same a e : same_member e (punish a e).
Proof.
  unfold punish. generalize (s64 (s64 a - beyond_time_cycle e)) as d. intros d.
  destruct (d <=? 0); [|destruct (d <=? s64 (a / 2))]; split; try done; intros _; cbn;
    apply wrap_range; lia.
Qed.

(** *** The measure of the loop [re_schedule] *)

Definition pf_debt s : nat :=
  match slot s AMDGV_PF_IDX with
  | Some e => if beyond_time_cycle e =? 0 then 0 else 1
  | None => 0
  end.
Definition owed s : nat := sum_list_with visits_owed (slots s) + pf_debt s.

Lemma sum_list_insert {A} (f : A -> nat) (l : list A) i x y :
  l !! i = Some x ->
  (sum_list_with f (<[i := y]> l) + f x = sum_list_with f l + f y)%nat.
Proof.
  revert i. induction l as [|z l IH]; intros [|i] Hx; try done.
  - injection Hx as ->. cbn. lia.
  - specialize (IH i Hx). change (<[S i := y]> (z :: l)) with (z :: <[i := y]> l).
    cbn [sum_list_with]. lia.
Qed.

Lemma visits_pay e b : 0 < time_slice e -> time_slice e <= beyond_time_cycle e ->
  b = beyond_time_cycle e - time_slice e ->
  (S (Z.to_nat (b / time_slice e)) = visits_owed e)%nat.
Proof.
  intros Hs Hb ->. unfold visits_owed.
  replace (beyond_time_cycle e - time_slice e) with (beyond_time_cycle e + (-1) * time_slice e) by lia.
  rewrite Z.div_add by lia.
  assert (1 <= beyond_time_cycle e / time_slice e) by (apply Z.div_le_lower_bound; lia). lia.
Qed.

Lemma owed_put i e e' s :
  slot s i = Some e -> 0 <= i ->
  (sum_list_with visits_owed (slots (put_slot i e' s)) + visits_owed e
   = sum_list_with visits_owed (slots s) + visits_owed e')%nat.
Proof. intros He _. by apply sum_list_insert. Qed.

(** A visit refused to entry [e] pays one of the slices it owes. *)
Lemma owed_refused i e e' s :
  slot s i = Some e -> 0 <= i -> 0 < time_slice e -> time_slice e <= beyond_time_cycle e ->
  in_width 64 (beyond_time_cycle e) -> time_slice e' = time_slice e ->
  beyond_time_cycle e' = u64 (beyond_time_cycle e - time_slice e) ->
  (owed (put_slot i e' s) < owed s)%nat.
Proof.
  unfold in_width. intros He Hi Hs Hb Hw Hse Hb'. rewrite wrap_id in Hb' by (unfold in_width; lia).
  pose proof (owed_put i e e' s He Hi) as Hsum.
  pose proof (visits_pay e _ Hs Hb Hb') as Hpay.
  assert (visits_owed e' = Z.to_nat (beyond_time_cycle e' / time_slice e)) as Hv
    by (unfold visits_owed; by rewrite Hse).
  enough (pf_debt (put_slot i e' s) <= pf_debt s)%nat by (unfold owed; lia).
  unfold pf_debt. rewrite slot_put by (unfold AMDGV_PF_IDX; eauto; lia).
  destruct (decide (AMDGV_PF_IDX = i)) as [<-|]; [|done].
  rewrite He. destruct (Z.eqb_spec (beyond_time_cycle e) 0); [lia|].
  by destruct (beyond_time_cycle e' =? 0); lia.
Qed.

(** The PF pays for a dummy VF once. *)
Lemma owed_dummy e e' s :
  slot s AMDGV_PF_IDX = Some e -> 0 < beyond_time_cycle e -> beyond_time_cycle e' = 0 ->
  (owed (put_slot AMDGV_PF_IDX e' s) < owed s)%nat.
Proof.
  intros He Hb Hb'. assert (0 <= AMDGV_PF_IDX) as Hi by done.
  pose proof (owed_put _ e e' s He Hi) as Hsum.
  assert (visits_owed e' = 0%nat) as Hv by (unfold visits_owed; by rewrite Hb').
  unfold owed, pf_debt. rewrite slot_put by eauto. rewrite decide_True by done.
  rewrite He, Hb'. cbn [Z.eqb]. destruct (Z.eqb_spec (beyond_time_cycle e) 0); lia.
Qed.

Lemma wp_gfx_slice n (Q : Z -> switcher hw -> Prop) s :
  ws_shape (sw_hw s) -> (forall r, 0 < r -> Q r s) -> wp (GET_GFX_TIME_SLICE n) Q s.
Proof.
  intros Hs HQ. unfold GET_GFX_TIME_SLICE, conf. wp_step. wp_step.
  destruct (has_asic_time_slice _); [|wp_step; by apply HQ].
  unfold amdgv_sched_get_asic_time_slice. cbn [Z.eqb AMDGV_SCHED_BLOCK_GFX].
  unfold amdgv_sched_get_asic_time_slice_gfx. wp_step. apply wp_pf_active; [done|].
  destruct (_ || _); [wp_step; by apply HQ|].
  destruct (n =? 1); [|wp_step; by apply HQ].
  wp_step. apply wp_flag. wp_step. apply HQ. by destruct (negb _).
Qed.

Lemma wp_vf_per_gfx (Q : Z -> switcher hw -> Prop) s :
  Q (num_vf_per_gfx_sched (config (sw_hw s))) s -> wp vf_per_gfx_sched Q s.
Proof. intros HQ. by eapply wp_on_hw_read. Qed.

(** The slice an entry gets: positive, or zero and the loop is a step nearer
    to its end. *)
Record calc_post (i : Z) s (r : Z) t : Prop := {
  cl_books : books s t;
  cl_calls : sw_calls t = sw_calls s;
  cl_next : 0 < r \/ (r = 0 /\ fairness_mode (sw_manual s) = true /\ (owed t < owed s)%nat);
  cl_plain : fairness_mode (sw_manual s) = false -> exists e, slot s i = Some e /\ r = time_slice e;
}.

Lemma slot_debt vs s i e : slices_ok vs s -> slot s i = Some e -> in_width 64 (beyond_time_cycle e).
Proof.
  intros Hs He. pose proof (sl_debt _ _ Hs) as Hd. rewrite Forall_lookup in Hd. by eapply Hd.
Qed.

(** The entry that is charged: the PF's for a dummy VF. *)
Lemma wp_punish_entry vs i j e0 e s (Q : Z -> switcher hw -> Prop) :
  slices_ok vs s -> slot s i = Some e0 -> slot s j = Some e -> 0 <= i -> 0 <= j -> i ∈ vs ->
  j = (if dummy_vf e0 then AMDGV_PF_IDX else i) -> fairness_mode (sw_manual s) = true ->
  (forall r t, calc_post i s r t -> Q r t) ->
  wp (_ ← (_ ← set_entry j (punish (time_slice e0));
           when (dummy_vf e0) (set_entry j (fun e => e <| beyond_time_cycle := 0 |>)));
      e ← entry j; mret (last_time_slice e)) Q s.
Proof.
  intros Hsl He0 He Hi Hj Hin Hij Hf HQ.
  assert (0 < time_slice e0 < 2 ^ 32) as Ha by (eapply sl_pos; eauto).
  assert (is_Some (slot s j)) as Hsome by eauto.
  pose proof (slot_debt _ _ _ _ Hsl He) as Hd.
  pose proof (punish_cases _ _ Ha Hd) as Hp. set (e1 := punish (time_slice e0) e) in *.
  pose proof (punish_same (time_slice e0) e) as Hsame. fold e1 in Hsame.
  wp_step. wp_step. eapply wp_set_entry; [exact He|]. fold e1.
  assert (slot (put_slot j e1 s) j = Some e1) as He1 by (rewrite slot_put by done; by rewrite decide_True).
  destruct (dummy_vf e0) eqn:Ed; cbn [when].
  - eapply wp_set_entry; [exact He1|]. set (e2 := e1 <| beyond_time_cycle := 0 |>).
    assert (put_slot j e2 (put_slot j e1 s) = put_slot j e2 s) as ->.
    { unfold put_slot. cbn. by rewrite list_insert_insert_eq. }
    assert (same_member e e2) as Hs2.
    { etransitivity; [exact Hsame|]. by split. }
    wp_step. eapply wp_slot_entry; [rewrite slot_put by done; by rewrite decide_True|]. wp_step.
    apply HQ. split; [by eapply books_slot|done| |by rewrite Hf].
    destruct Hp as [?|(Hz & Hge & _)]; [by left|right]. split_and!; [done|done|].
    rewrite Hij in *. eapply owed_dummy; [exact He|lia|done].
  - wp_step. wp_step. eapply wp_slot_entry; [exact He1|]. wp_step.
    apply HQ. split; [by eapply books_slot|done| |by rewrite Hf].
    destruct Hp as [?|(Hz & Hge & Hb)]; [by left|right]. split_and!; [done|done|].
    rewrite Hij in He. assert (e0 = e) as -> by congruence.
    rewrite Hij. eapply owed_refused; try done; [lia|]. apply (sm_slice _ _ Hsame).
Qed.

Lemma wp_calculate_slice vs i s (Q : Z -> switcher hw -> Prop) :
  members vs s -> slices_ok vs s -> ws_shape (sw_hw s) -> i ∈ vs ->
  (forall r t, calc_post i s r t -> Q r t) ->
  wp (amdgv_sched_world_switch_calculate_time_slice i) Q s.
Proof.
  intros Hm Hsl Hsh Hi HQ. destruct (member_entry _ _ _ Hm Hi) as (e0 & He0 & _ & _).
  pose proof (member_range _ _ _ Hm Hi) as Hr.
  set (j := if dummy_vf e0 then AMDGV_PF_IDX else i).
  assert (0 <= j < 32) as Hj by (unfold j, AMDGV_PF_IDX; destruct (dummy_vf e0); lia).
  destruct (slot_some s j (mb_len _ _ Hm) Hj) as [e He].
  assert (is_Some (slot s j)) as Hsome by eauto.
  unfold amdgv_sched_world_switch_calculate_time_slice. wp_step. eapply wp_slot_entry; [exact He0|].
  cbv zeta. fold j. wp_step. eapply wp_slot_entry; [exact He|]. wp_step. unfold manual. wp_step.
  destruct (fairness_mode (sw_manual s)) eqn:Hf.
  - destruct (time_slice e =? DEFAULT_GFX_TIME_SLICE_1VF).
    + wp_step. wp_step. apply wp_vf_per_gfx. wp_step. apply wp_gfx_slice; [done|]. intros g Hg.
      eapply wp_set_entry; [exact He|].
      wp_step. eapply wp_slot_entry; [rewrite slot_put by (done || lia); by rewrite decide_True|].
      wp_step. apply HQ. split; [eapply books_slot; [exact He|by split]|done|by left|by rewrite Hf].
    + eapply wp_punish_entry; try done; lia.
  - assert (dummy_vf e0 = false) as Hd by (eapply (sl_real _ _ Hsl i); try done; lia).
    assert (j = i) as Hji by (unfold j; by rewrite Hd). rewrite Hji in *.
    wp_step. eapply wp_set_entry; [exact He|].
    wp_step. eapply wp_slot_entry; [rewrite slot_put by (done || lia); by rewrite decide_True|].
    wp_step. apply HQ. split; [eapply books_slot; [exact He|by split]|done| |].
    + left. cbn. eapply (sl_pos _ _ Hsl i e); [done|by left|lia].
    + intros _. by exists e.
Qed.

(** ** The default scheduling function *)

(** What a scheduling function gives: a VF that may be loaded and a positive
    time, with the list [vs'] a rearrangement of [vs]. *)
Record picked vs s (p : Z * Z) vs' t : Prop := {
  pk_perm : vs' ≡ₚ vs;
  pk_members : members vs' t;
  pk_slices : slices_ok vs' t;
  pk_frame : reorder s t;
  pk_calls : sw_calls t = sw_calls s;
  pk_valid : vf_valid s (fst p);
  pk_time : 0 < snd p;
}.

(** Outside fairness mode, the choice is the front of the list. *)
Definition round_robin vs s (p : Z * Z) vs' : Prop :=
  fairness_mode (sw_manual s) = false ->
  vs' = rotate_pf (pf_active s) vs /\ head vs' = Some (fst p) /\
  exists e, slot s (fst p) = Some e /\ snd p = time_slice e.

Lemma picked_step vs vs1 s s1 p vs' t :
  vs1 ≡ₚ vs -> reorder s s1 -> sw_calls s1 = sw_calls s -> picked vs1 s1 p vs' t ->
  picked vs s p vs' t.
Proof.
  intros Hp Hr Hc [Pp Pm Ps Pf Pc Pv Pt]. split; try done; try congruence.
  - by rewrite Pp.
  - by etransitivity.
  - unfold vf_valid in *. by rewrite <- (ro_conf _ _ Hr).
Qed.

Lemma wp_schedule_default fuel vs s :
  (owed s < fuel)%nat -> vs <> [] -> members vs s -> slices_ok vs s -> ws_shape (sw_hw s) ->
  wp (schedule_default_loop fuel)
     (fun p t => exists vs', picked vs s p vs' t /\ round_robin vs s p vs') s.
Proof.
  revert vs s. induction fuel as [|fuel IH]; intros vs s Hfu Hne Hm Hsl Hsh; [lia|].
  destruct vs as [|v vs]; [done|]. cbn [schedule_default_loop].
  wp_step. eapply wp_first_member; [exact Hm|done|]. intros v' vs' s1 Hrot Hm1 Hr1 Hsl1 Hca1.
  pose proof (rotate_pf_perm (pf_active s) (v :: vs)) as Hp1. rewrite Hrot in Hp1.
  assert (v' ∈ v' :: vs') as Hv' by by left.
  pose proof (reorder_slices _ _ _ _ Hr1 Hp1 Hsl) as Hs1.
  destruct (member_entry _ _ _ Hm1 Hv') as (e & He & Hx & Hval).
  assert (ws_shape (sw_hw s1)) as Hsh1 by by rewrite (ro_hw _ _ Hr1).
  wp_step. cbn [slot_of]. wp_step. wp_step. eapply wp_slot_entry; [exact He|].
  rewrite Hx. wp_step. eapply wp_calculate_slice; [exact Hm1|exact Hs1|done|done|].
  intros ts t [Cb Cc Cn Cp].
  assert (owed s1 = owed s) as Howed by (unfold owed, pf_debt, slot; by rewrite Hsl1).
  pose proof (books_reorder _ _ Cb) as Cr.
  pose proof (upkeep_members _ _ _ (proj1 Cb) Hm1) as Hm2.
  pose proof (upkeep_slices _ _ _ (proj1 Cb) Hs1) as Hs2.
  assert (reorder s t) as Hrt by by etransitivity.
  destruct (Z.eqb_spec ts 0) as [Hz|Hnz].
  - destruct Cn as [?|(_ & Hfair & Hlt)]; [lia|].
    wp_step. eapply wp_to_tail; [exact Hm2|done|]. intros t2 Hm3 Hr3 Hsl3 Hca3.
    assert (send_back v' (v' :: vs') ≡ₚ v' :: vs') as Hp3
      by (apply send_back_perm; [by eapply members_nodup|done]).
    assert (owed t2 = owed t) as Howed2 by (unfold owed, pf_debt, slot; by rewrite Hsl3).
    assert (reorder s t2) as Hrt2 by by transitivity t.
    eapply wp_mono; [apply (IH (send_back v' (v' :: vs')) t2)|].
    + lia.
    + unfold send_back. by destruct (filter _ _).
    + done.
    + eapply reorder_slices; [exact Hr3|done|exact Hs2].
    + by rewrite (ro_hw _ _ Hrt2).
    + intros p u (vs'' & Hpk & _). exists vs''. split.
      * eapply picked_step; [|exact Hrt2| |exact Hpk]; [by rewrite Hp3|congruence].
      * intros Hno. rewrite (ro_fair _ _ Hr1) in Hfair. congruence.
  - assert (0 < ts) as Hts by (destruct Cn as [?|[? _]]; [done|lia]).
    destruct (upkeep_slot_l _ _ _ _ (proj1 Cb) He) as (e' & He' & Hse).
    wp_step. unfold manual. wp_step. wp_step. eapply wp_slot_entry; [exact He'|].
    destruct (fairness_mode (sw_manual t) && dummy_vf e') eqn:Efd.
    + wp_step. eapply wp_to_tail; [exact Hm2|done|]. intros t2 Hm3 Hr3 Hsl3 Hca3. wp_step.
      assert (send_back v' (v' :: vs') ≡ₚ v' :: vs') as Hp3
        by (apply send_back_perm; [by eapply members_nodup|done]).
      exists (send_back v' (v' :: vs')). split.
      * split; try done; try congruence; [by rewrite Hp3| |by transitivity t|by right].
        eapply reorder_slices; [exact Hr3|done|exact Hs2].
      * intros Hno. apply andb_true_iff in Efd as [Hff _]. rewrite (ro_fair _ _ Hrt) in Hff. congruence.
    + wp_step. exists (v' :: vs'). split.
      * split; try done; try congruence. unfold vf_valid in *. by rewrite <- (ro_conf _ _ Hr1).
      * intros Hno. split_and!; [by rewrite Hrot|done|].
        destruct Cp as (e1 & He1 & ->); [by rewrite (ro_fair _ _ Hr1)|].
        exists e1. split; [|done]. cbn. unfold slot in *. by rewrite <- Hsl1.
Qed.

Lemma wp_schedule_default_fn vs s :
  vs <> [] -> members vs s -> slices_ok vs s -> ws_shape (sw_hw s) ->
  wp amdgv_schedule_vfs_default_fn
     (fun p t => exists vs', picked vs s p vs' t /\ round_robin vs s p vs') s.
Proof.
  intros. unfold amdgv_schedule_vfs_default_fn, manual. wp_step. wp_step.
  apply wp_schedule_default; try done. unfold resched_fuel, owed, pf_debt, slots.
  destruct (slot s AMDGV_PF_IDX) as [e|]; [destruct (_ =? 0)|]; lia.
Qed.
End pick.
