(* ===== verification/SwitchLiquid.v ===== *)
(** * World switch: hybrid liquid scheduling

    [liquid_walk] is the choice [amdgv_schedule_vfs_liquid] makes on the
    sequence of VFs: the first busy VF, but an idle one that was passed over
    [MAX_VF_SKIP_CNT] times comes first, and when the walk reaches the last VF
    without a choice it is the front of the list.  [wp_liquid] says the C
    function makes that choice; [wait_decreases] that every round brings a
    waiting VF nearer to the engine. *)
From S2P Require Import Prelude Oss Api Mask Gpuiov WsState WsInv WsManual WsBulk Dlist ListScan Switch SwitchEngine SwitchInv SwitchRun SwitchPick.
Import Dlist ListScan.
#[local] Open Scope Z_scope.
#[local] Set Warnings "-clear-no-such-hyp".

(** ** The policy *)

(** The VF chosen, and the VFs passed over on the way.  [hide]: the inactive
    PF, which the walk steps over. *)
Fixpoint liquid_walk (busy hide : Z -> bool) (skip : Z -> Z) (first : Z) (l : list Z) : Z * list Z :=
  match l with
  | [] => (first, [])
  | x :: l' =>
      if busy x then (x, [])
      else match l' with
           | [] => (first, [])
           | _ => if hide x then liquid_walk busy hide skip first l'
                  else if MAX_VF_SKIP_CNT <=? skip x then (x, [])
                  else let '(y, b) := liquid_walk busy hide skip first l' in (y, x :: b)
           end
  end.

(** With no busy VF at all, the front of the list. *)
Definition liquid_choice (vf_status : Z) (hide : Z -> bool) (skip : Z -> Z) (l : list Z) : Z * list Z :=
  let first := default 0 (head l) in
  if vf_status =? 0 then (first, [])
  else liquid_walk (Z.testbit vf_status) hide skip first l.

Definition liquid_skip (skip : Z -> Z) (c : Z * list Z) (i : Z) : Z :=
  if i =? fst c then 0 else if bool_decide (i ∈ snd c) then skip i + 1 else skip i.

Lemma liquid_walk_in busy hide skip first l :
  let c := liquid_walk busy hide skip first l in
  (fst c = first \/ fst c ∈ l) /\ (forall i, i ∈ snd c -> i ∈ l /\ skip i < MAX_VF_SKIP_CNT).
Proof.
  induction l as [|x l IH]; cbn; [by split; [left|intros i ?%elem_of_nil]|].
  destruct (busy x); [split; [right; by left|by intros i ?%elem_of_nil]|].
  destruct l as [|y l]; [by split; [left|intros i ?%elem_of_nil]|].
  cbv zeta in IH. destruct (liquid_walk busy hide skip first (y :: l)) as [z b] eqn:Ez.
  destruct IH as [Hf Hb].
  destruct (hide x).
  - split; [destruct Hf; [by left|right; by right]|]. intros i Hi. destruct (Hb i Hi). split; [by right|done].
  - destruct (Z.leb_spec MAX_VF_SKIP_CNT (skip x)).
    + split; [right; by left|by intros i ?%elem_of_nil].
    + cbn in *. split; [destruct Hf; [by left|right; by right]|].
      intros i [->|Hi]%elem_of_cons; [split; [by left|done]|]. destruct (Hb i Hi). split; [by right|done].
Qed.

Lemma liquid_walk_ext busy hide skip skip' first l :
  (forall i, i ∈ l -> skip' i = skip i) ->
  liquid_walk busy hide skip' first l = liquid_walk busy hide skip first l.
Proof.
  induction l as [|x l IH]; intros Hs; [done|]. cbn.
  rewrite IH by (intros i Hi; apply Hs; by right). rewrite Hs by by left. done.
Qed.

(** A VF that stands before the choice was passed over: it is idle, below the
    limit, and counted, unless it is hidden. *)
Lemma liquid_walk_before busy hide skip first us v ws :
  let c := liquid_walk busy hide skip first (us ++ v :: ws) in
  hide v = false -> NoDup (us ++ v :: ws) ->
  fst c = first \/ fst c ∈ us \/ fst c = v \/ (fst c ∈ ws /\ v ∈ snd c).
Proof.
  induction us as [|x us IH]; intros c Hh Hnd; subst c; cbn [app liquid_walk] in *.
  - destruct (busy v); [tauto|]. destruct ws as [|y ws]; [by left|]. rewrite Hh.
    destruct (MAX_VF_SKIP_CNT <=? skip v); [tauto|].
    pose proof (liquid_walk_in busy hide skip first (y :: ws)) as [Hf _].
    destruct (liquid_walk busy hide skip first (y :: ws)) as [z b]. cbn in *.
    destruct Hf as [?|?]; [by left|]. do 3 right. split; [done|by left].
  - apply NoDup_cons in Hnd as [_ Hnd]. specialize (IH Hh Hnd). cbv zeta in IH.
    destruct (busy x); [right; left; by left|].
    assert (exists y l, us ++ v :: ws = y :: l) as (y & l & E) by (destruct us; by eexists _, _).
    rewrite E in *. destruct (hide x).
    + destruct IH as [?|[?|?]]; [by left|right; left; by right|tauto].
    + destruct (MAX_VF_SKIP_CNT <=? skip x); [right; left; by left|].
      destruct (liquid_walk busy hide skip first (y :: l)) as [z b]. cbn [fst snd] in *.
      destruct IH as [?|[?|[?|[? ?]]]]; [by left|right; left; by right|tauto|].
      do 3 right. split; [done|by right].
Qed.

(** ** Waiting *)

Fixpoint position (v : Z) (l : list Z) : nat :=
  match l with
  | [] => 0
  | x :: l' => if x =? v then 0 else S (position v l')
  end.

Lemma position_split v us ws : v ∉ us -> position v (us ++ v :: ws) = length us.
Proof.
  induction us as [|x us IH]; cbn; [by rewrite Z.eqb_refl|].
  intros [Hx Hu]%not_elem_of_cons. destruct (Z.eqb_spec x v); [congruence|]. by rewrite IH.
Qed.

(** How far a VF is from the engine: the VFs before it and the times it can
    still be passed over. *)
Definition wait_of (vs : list Z) (skip : Z -> Z) (v : Z) : Z :=
  Z.of_nat (position v vs) + (MAX_VF_SKIP_CNT - skip v).

Definition hidden (act : bool) (i : Z) : bool := (i =? AMDGV_PF_IDX) && negb act.

Lemma position_rotate act vs v :
  NoDup vs -> v ∈ vs -> hidden act v = false ->
  (position v (rotate_pf act vs) <= position v vs)%nat.
Proof.
  unfold hidden. destruct vs as [|x vs]; [done|]. cbn. intros [Hx Hnd]%NoDup_cons Hin Hh.
  destruct ((x =? AMDGV_PF_IDX) && negb act) eqn:E; [|done].
  destruct (Z.eqb_spec x v) as [->|Hne]; [congruence|].
  apply elem_of_cons in Hin as [?|Hin]; [congruence|].
  apply list_elem_of_split in Hin as (us & ws & ->).
  assert (v ∉ us).
  { apply NoDup_app in Hnd as (_ & Hd & _). intros Hu. eapply Hd; [exact Hu|by left]. }
  rewrite <- app_assoc. cbn. rewrite !position_split by done. lia.
Qed.

Lemma liquid_skip_other skip c v : v <> fst c -> skip v <= liquid_skip skip c v.
Proof.
  intros Hne. unfold liquid_skip. destruct (Z.eqb_spec v (fst c)); [done|].
  destruct (bool_decide _); lia.
Qed.

Lemma liquid_choice_cases st hide skip us v ws :
  let c := liquid_choice st hide skip (us ++ v :: ws) in
  hide v = false -> NoDup (us ++ v :: ws) -> fst c <> v ->
  fst c ∈ us \/ (fst c ∈ ws /\ v ∈ snd c).
Proof.
  intros c Hh Hnd Hne. subst c. unfold liquid_choice in *.
  assert (default 0 (head (us ++ v :: ws)) = v \/ default 0 (head (us ++ v :: ws)) ∈ us) as Hf.
  { destruct us; cbn; [by left|right; by left]. }
  set (first := default 0 (head (us ++ v :: ws))) in *.
  destruct (st =? 0); cbn [fst snd] in *; [destruct Hf; [congruence|by left]|].
  pose proof (liquid_walk_before (Z.testbit st) hide skip first us v ws Hh Hnd) as Hc.
  cbv zeta in Hc. destruct Hc as [Hc|[Hc|[Hc|Hc]]]; [|by left|congruence|by right].
  rewrite Hc in *. destruct Hf; [congruence|by left].
Qed.

(** A round that does not put [v] on the engine brings it nearer, whatever
    VFs are busy. *)
Lemma wait_decreases st act skip vs v :
  let l := rotate_pf act vs in
  let c := liquid_choice st (hidden act) skip l in
  NoDup vs -> v ∈ vs -> hidden act v = false -> fst c <> v ->
  wait_of (send_back (fst c) l) (liquid_skip skip c) v < wait_of vs skip v.
Proof.
  intros l c Hnd Hv Hh Hne. pose proof (position_rotate act vs v Hnd Hv Hh) as Hpos.
  pose proof (rotate_pf_perm act vs) as Hp. fold l in Hp, Hpos.
  assert (NoDup l) as Hndl by by rewrite Hp. assert (v ∈ l) as Hvl by by rewrite Hp.
  unfold wait_of. pose proof (liquid_skip_other skip c v) as Hsk.
  subst c. set (c := liquid_choice st (hidden act) skip l) in *.
  apply list_elem_of_split in Hvl as (us & ws & El).
  assert (v ∉ us) as Hvu.
  { rewrite El in Hndl. apply NoDup_app in Hndl as (_ & Hd & _). intros Hu. eapply Hd; [exact Hu|by left]. }
  rewrite El in Hpos. rewrite position_split in Hpos by done.
  assert (fst c ∈ us \/ (fst c ∈ ws /\ v ∈ snd c)) as Hc.
  { unfold c. rewrite El. apply liquid_choice_cases; [done|by rewrite <- El|]. by rewrite <- El. }
  rewrite El in *. destruct Hc as [(u1 & u2 & ->)%list_elem_of_split|[(w1 & w2 & ->)%list_elem_of_split Hin]].
  - rewrite <- app_assoc in *. cbn [app] in *. rewrite send_back_split by done.
    assert (u1 ++ (u2 ++ v :: ws) ++ [fst c] = (u1 ++ u2) ++ v :: ws ++ [fst c]) as ->
      by (by rewrite <- !app_assoc).
    rewrite position_split by set_solver. rewrite !length_app in *. cbn in *.
    specialize (Hsk (not_eq_sym Hne)). lia.
  - rewrite app_comm_cons, app_assoc in *. rewrite send_back_split by done.
    rewrite <- app_assoc. cbn [app]. rewrite position_split by done.
    unfold liquid_skip. destruct (Z.eqb_spec v (fst c)); [congruence|].
    rewrite bool_decide_eq_true_2 by done. lia.
Qed.

(** ** The C function makes this choice *)

Section liquid.
Context {hw : Type} `{HW : WsHw hw} {E : OssEnv}.
Variable ws : Z.
Implicit Types (s t : switcher hw) (e : active_vf_entry) (vs : list Z).
Abbreviation ws_of := (SwitchInv.ws_of ws).

Definition skip_of s (i : Z) : Z := match slot s i with Some e => skip_cnt e | None => 0 end.

(** Only pass-over counts changed. *)
Record skips s t : Prop := {
  sk_reorder : reorder s t;
  sk_links : sw_links t = sw_links s;
  sk_calls : sw_calls t = sw_calls s;
}.
#[export] Instance skips_preorder : PreOrder skips.
Proof. split; [by intros s; split|]. intros s t u [] []. split; [by etransitivity|congruence..]. Qed.

Lemma skips_members vs s t : skips s t -> members vs s -> members vs t.
Proof.
  intros [Hr Hl Hc] Hm. eapply reorder_members; [exact Hr|done| |exact Hm].
  rewrite Hl. apply Hm.
Qed.

Lemma skips_slot i e e' s :
  slot s i = Some e -> same_member e e' -> skips s (put_slot i e' s).
Proof. intros He Hm. split; [|done..]. apply books_reorder. by eapply books_slot. Qed.

Lemma skip_of_put i e e' s j :
  slot s i = Some e -> 0 <= i -> 0 <= j ->
  skip_of (put_slot i e' s) j = if j =? i then skip_cnt e' else skip_of s j.
Proof.
  intros He Hi Hj. unfold skip_of. rewrite slot_put by eauto.
  destruct (decide (j = i)) as [->|Hne]; [by rewrite Z.eqb_refl|].
  by apply Z.eqb_neq in Hne as ->.
Qed.

Lemma wp_skip_up i e s (Q : unit -> switcher hw -> Prop) :
  slot s i = Some e -> 0 <= i -> skip_ok e -> skip_cnt e < MAX_VF_SKIP_CNT ->
  (forall t, skips s t ->
     (forall j, 0 <= j -> skip_of t j = if j =? i then skip_of s j + 1 else skip_of s j) -> Q tt t) ->
  wp (set_entry i (fun e => e <| skip_cnt := u32 (skip_cnt e + 1) |>)) Q s.
Proof.
  intros He Hi Hok Hlt HQ. eapply wp_set_entry; [exact He|].
  assert (u32 (skip_cnt e + 1) = skip_cnt e + 1) as Hu.
  { unfold skip_ok, MAX_VF_SKIP_CNT in *. apply wrap_id. unfold in_width. lia. }
  set (e' := e <| skip_cnt := _ |>).
  assert (same_member e e') as Hs.
  { split; try done. intros _. unfold skip_ok, e' in *. cbn. rewrite Hu. lia. }
  apply HQ; [by eapply skips_slot|]. intros j Hj. rewrite (skip_of_put i e) by done.
  destruct (Z.eqb_spec j i) as [->|]; [|done]. unfold e'. cbn. rewrite Hu. unfold skip_of. by rewrite He.
Qed.

(** The counts after a walk that passed [b] over. *)
Definition bumped s (b : list Z) t : Prop :=
  forall j, 0 <= j -> skip_of t j = if bool_decide (j ∈ b) then skip_of s j + 1 else skip_of s j.

Lemma bumped_cons s t u x b :
  0 <= x -> x ∉ b -> (forall j, 0 <= j -> skip_of t j = if j =? x then skip_of s j + 1 else skip_of s j) ->
  bumped t b u -> bumped s (x :: b) u.
Proof.
  intros Hx Hn Ht Hu j Hj. rewrite (Hu j Hj), (Ht j Hj).
  destruct (Z.eqb_spec j x) as [->|Hne].
  - rewrite bool_decide_eq_false_2 by done. rewrite bool_decide_eq_true_2 by by left. done.
  - rewrite (bool_decide_ext (j ∈ x :: b) (j ∈ b)); [done|]. rewrite elem_of_cons. tauto.
Qed.

Lemma wp_liquid_pick st first all pre rest fuel s :
  members all s -> all = pre ++ rest -> rest <> [] -> head all = Some first ->
  Forall skip_ok (slots s) -> ws_shape (sw_hw s) -> (length rest <= fuel)%nat ->
  let c := liquid_walk (Z.testbit st) (hidden (pf_active s)) (skip_of s) first rest in
  wp (liquid_pick fuel (Vf (default 0 (head rest))) st)
     (fun n t => n = Vf (fst c) /\ skips s t /\ bumped s (snd c) t) s.
Proof.
  revert pre rest s. induction fuel as [|fuel IH]; intros pre rest s Hm Hall Hne Hfst Hok Hsh Hfu.
  { destruct rest; cbn in Hfu; [done|lia]. }
  destruct rest as [|x rest]; [done|]. change (default 0 (head (x :: rest))) with x.
  cbn [liquid_pick].
  assert (forall t, bumped s [] s) as Hb0.
  { intros _ j _. rewrite bool_decide_eq_false_2; [done|by intros ?%elem_of_nil]. }
  assert (x ∈ all) as Hx by (rewrite Hall; apply elem_of_app; right; by left).
  destruct (member_entry _ _ _ Hm Hx) as (e & He & Hidx & _).
  pose proof (member_range _ _ _ Hm Hx) as Hr.
  rewrite decide_False by done. wp_step. cbn [slot_of]. wp_step. wp_step.
  eapply wp_slot_entry; [exact He|]. rewrite Hidx. cbn [liquid_walk].
  destruct (Z.testbit st x); [by wp_step|].
  destruct rest as [|y rest].
  - wp_step. eapply wp_list_prev_head; [by rewrite <- Hall|]. rewrite decide_True by done.
    destruct all as [|z all]; [done|]. injection Hfst as ->.
    eapply wp_list_next_head; [exact Hm|]. by split_and!.
  - pose proof (mb_list _ _ Hm) as Hd.
    assert (exists u z, y :: rest = u ++ [z]) as (u & z & Ez).
    { destruct (exists_last (l := y :: rest)) as (u & z & ?); [done|]. by exists u, z. }
    pose proof (members_nodup _ _ Hm) as Hnd. rewrite Hall in Hnd.
    apply NoDup_app in Hnd as (_ & _ & [Hxr _]%NoDup_cons).
    wp_step. eapply (wp_list_prev_head (pre ++ x :: u) z).
    { rewrite <- app_assoc. cbn [app]. rewrite <- Ez, <- Hall. exact Hm. }
    rewrite decide_False.
    2: { intros [= Hxz]. apply Hxr. rewrite Ez, Hxz. apply elem_of_app. right. by left. }
    assert (forall t, sw_links t = sw_links s -> forall Q, Q (Vf y) t -> wp (list_next (Vf x)) Q t) as Hnext.
    { intros t Ht Q HQ. eapply wp_next_of; [|exact HQ]. rewrite Ht.
      destruct Hd as [Hc _]. rewrite Hall, fmap_app in Hc. cbn [fmap list_fmap] in Hc.
      apply chain_app in Hc as [_ Hc]. exact (chain_next _ _ _ _ Hc). }
    assert (all = (pre ++ [x]) ++ y :: rest) as Hall' by (by rewrite <- app_assoc).
    wp_step. apply wp_pf_active; [done|]. fold (hidden (pf_active s) x).
    destruct (hidden (pf_active s) x) eqn:Eh.
    + wp_step. apply (Hnext s eq_refl).
      apply (IH (pre ++ [x]) (y :: rest)); try done. cbn in *. lia.
    + assert (skip_ok e) as Hoke by (rewrite Forall_lookup in Hok; by eapply Hok).
      assert (skip_of s x = skip_cnt e) as Hsk by (unfold skip_of; by rewrite He).
      rewrite Hsk. destruct (Z.leb_spec MAX_VF_SKIP_CNT (skip_cnt e)) as [|Hlt]; [by wp_step|].
      wp_step. eapply wp_skip_up; [exact He|lia|done|done|]. intros t Ht Hskt.
      wp_step. apply (Hnext t (sk_links _ _ Ht)).
      eapply wp_mono; [apply (IH (pre ++ [x]) (y :: rest) t); try done|].
      * by eapply skips_members.
      * pose proof (sk_reorder _ _ Ht) as Hrt. rewrite Forall_lookup in *. intros i e' He'.
        destruct (Forall2_lookup_r _ _ _ _ _ (ro_slots _ _ Hrt) He') as (e0 & He0 & Hsm).
        apply (sm_skip _ _ Hsm). by eapply Hok.
      * by rewrite (ro_hw _ _ (sk_reorder _ _ Ht)).
      * cbn in *. lia.
      * rewrite (reorder_pf _ _ (sk_reorder _ _ Ht)).
        rewrite (liquid_walk_ext _ _ (skip_of s) (skip_of t)).
        2: { intros i Hi. rewrite Hskt.
             - destruct (Z.eqb_spec i x) as [->|]; done.
             - assert (i ∈ all) as Hia by (rewrite Hall'; apply elem_of_app; by right).
               pose proof (member_range _ _ _ Hm Hia). lia. }
        pose proof (liquid_walk_in (Z.testbit st) (hidden (pf_active s)) (skip_of s) first (y :: rest))
          as [_ Hb].
        destruct (liquid_walk _ _ _ _ (y :: rest)) as [z' b]. cbn [fst snd] in *.
        intros n t' (-> & Ht' & Hbu). split_and!; [done|by etransitivity|].
        eapply bumped_cons; [lia| |exact Hskt|exact Hbu]. intros Hxb. by destruct (Hb x Hxb).
Qed.

(** The choice of [amdgv_schedule_vfs_liquid]: the VF, its slice, and the new
    counts. *)
Definition liquid_pick_of w s vs : Z * list Z :=
  liquid_choice (Z.land (Z.lor (vf_busy_status w) (vf_timeout (sw_manual s))) (vf_inited w))
    (hidden (pf_active s)) (skip_of s) (rotate_pf (pf_active s) vs).

Lemma wp_liquid w vs s :
  ws_of s = Some w -> vs <> [] -> members vs s -> slices_ok vs s -> ws_shape (sw_hw s) ->
  let l := rotate_pf (pf_active s) vs in
  let c := liquid_pick_of w s vs in
  wp (amdgv_schedule_vfs_liquid_fn ws)
     (fun p t => picked vs s p l t /\ fst p = fst c /\
        (forall j, 0 <= j -> skip_of t j = liquid_skip (skip_of s) c j)) s.
Proof.
  intros Hw Hne Hm Hsl Hsh l c. subst l c. unfold liquid_pick_of.
  set (st := Z.land (Z.lor (vf_busy_status w) (vf_timeout (sw_manual s))) (vf_inited w)).
  unfold amdgv_schedule_vfs_liquid_fn. wp_step. eapply (wp_wsw ws w); [exact Hw|].
  wp_step. unfold manual. wp_step. cbv zeta. fold st.
  destruct vs as [|v vs]; [done|]. wp_step. eapply wp_first_member; [exact Hm|done|].
  intros v' vs' s1 Hrot Hm1 Hr1 Hsl1 Hca1. rewrite Hrot.
  pose proof (rotate_pf_perm (pf_active s) (v :: vs)) as Hp1. rewrite Hrot in Hp1.
  pose proof (reorder_slices _ _ _ _ Hr1 Hp1 Hsl) as Hs1.
  assert (ws_shape (sw_hw s1)) as Hsh1 by by rewrite (ro_hw _ _ Hr1).
  assert (forall j, skip_of s1 j = skip_of s j) as Hsk1 by (intros j; unfold skip_of, slot; by rewrite Hsl1).
  set (c := liquid_choice st (hidden (pf_active s)) (skip_of s) (v' :: vs')).
  wp_step. apply (wp_mono _ (fun n t => n = Vf (fst c) /\ skips s1 t /\ bumped s1 (snd c) t)).
  { unfold c, liquid_choice. cbn [head default]. destruct (st =? 0).
    - eapply wp_list_next_head; [exact Hm1|]. split_and!; [done..|].
      intros j _. rewrite bool_decide_eq_false_2; [done|by intros ?%elem_of_nil].
    - wp_step. eapply wp_list_next_head; [exact Hm1|].
      rewrite <- (reorder_pf _ _ Hr1).
      rewrite <- (liquid_walk_ext _ _ (skip_of s) (skip_of s1)) by done.
      apply (wp_liquid_pick st v' (v' :: vs') [] (v' :: vs')); try done; [apply Hs1|].
      pose proof (members_length _ _ Hm1). unfold list_fuel. lia. }
  intros n t (-> & Hsk & Hbu).
  assert (fst c ∈ v' :: vs') as Hin.
  { unfold c, liquid_choice. cbn [head default]. destruct (st =? 0); [by left|].
    destruct (liquid_walk_in (Z.testbit st) (hidden (pf_active s)) (skip_of s) v' (v' :: vs'))
      as [[Hf|Hf] _]; [|done]. cbn -[liquid_walk] in *. rewrite Hf. by left. }
  pose proof (skips_members _ _ _ Hsk Hm1) as Hm2.
  pose proof (reorder_slices _ (v' :: vs') _ _ (sk_reorder _ _ Hsk) (reflexivity _) Hs1) as Hs2.
  destruct (member_entry _ _ _ Hm2 Hin) as (e & He & Hidx & Hval).
  pose proof (member_range _ _ _ Hm2 Hin) as Hr.
  wp_step. cbn [slot_of]. wp_step. wp_step. eapply wp_set_entry; [exact He|].
  set (e' := e <| skip_cnt := 0 |>).
  assert (same_member e e') as Hsame by (split; try done).
  pose proof (skips_slot _ _ _ _ He Hsame) as Hsk2. set (t2 := put_slot (fst c) e' t) in *.
  assert (slot t2 (fst c) = Some e') as He2.
  { unfold t2. rewrite slot_put by (eauto; lia). by rewrite decide_True. }
  wp_step. eapply wp_slot_entry; [exact He2|]. wp_step. change (idx_vf e') with (idx_vf e). rewrite Hidx.
  assert (skips s1 t2) as Hsk3 by by etransitivity.
  assert (reorder s t2) as Hrt by (etransitivity; [exact Hr1|apply Hsk3]).
  split_and!; [|done|].
  - split; try done.
    + by eapply skips_members.
    + exact (reorder_slices _ _ _ _ (sk_reorder _ _ Hsk3) (reflexivity _) Hs1).
    + rewrite (sk_calls _ _ Hsk3). done.
    + unfold vf_valid in *. by rewrite <- (ro_conf _ _ Hrt).
    + cbn [snd]. eapply (sl_pos _ _ Hs2 (fst c) e); [done|by left|lia].
  - intros j Hj. unfold t2. rewrite (skip_of_put _ e) by (done || lia). unfold liquid_skip.
    destruct (j =? fst c); [done|]. rewrite Hbu by done. by rewrite !Hsk1.
Qed.
End liquid.
