(* ===== verification/SwitchOps.v ===== *)
(** * World switch: the round of the switch thread

    [good vs s] is the invariant of the component.  [wp_process] describes one
    round of [amdgv_sched_manual_switch_process]: the VF on the engine is saved
    and goes to the back of the list, the scheduling function chooses, the
    choice is loaded and its timer armed; whatever fails leaves the invariant
    in place and the world switch stopped. *)
From S2P Require Import Prelude Oss Api Mask Gpuiov WsState WsInv WsManual WsBulk Dlist ListScan Switch SwitchEngine SwitchInv SwitchRun SwitchQuiet SwitchPick SwitchLiquid.
Import Dlist ListScan.
#[local] Open Scope Z_scope.
#[local] Set Warnings "-clear-no-such-hyp".

Section ops.
Context {hw : Type} `{HW : WsHw hw} {E : OssEnv}.
Variable ws : Z.
Implicit Types (s t : switcher hw) (e : active_vf_entry) (w : world_switch) (vs : list Z).
Abbreviation ws_of := (SwitchInv.ws_of ws).
Abbreviation context_ok := (SwitchInv.context_ok ws).
Abbreviation ready := (SwitchRun.ready ws).

Record good vs s : Prop := {
  g_members : members vs s;
  g_slices : slices_ok vs s;
  g_context : context_ok s;
  g_active : pf_active s = true -> AMDGV_PF_IDX ∈ vs;
}.

Lemma good_shape vs s : good vs s -> ws_shape (sw_hw s).
Proof. intros [_ _ [(w & _ & Hr & _) _ _] _]. apply Hr. Qed.

Lemma upkeep_active s t : upkeep s t -> pf_active t = pf_active s.
Proof. intros Hu. unfold pf_active, sv_of. by rewrite (uk_sv _ _ Hu). Qed.

Lemma good_upkeep vs s t : upkeep s t -> context_ok t -> good vs s -> good vs t.
Proof.
  intros Hu Hc [Hm Hs _ Ha].
  split; [by eapply upkeep_members|by eapply upkeep_slices|done|by rewrite (upkeep_active _ _ Hu)].
Qed.

Lemma good_books vs s t : books s t -> good vs s -> good vs t.
Proof.
  intros Hb Hg. eapply good_upkeep; [apply Hb| |exact Hg].
  eapply books_context; [exact Hb|apply Hg].
Qed.

Lemma good_reorder vs vs' s t :
  reorder s t -> vs' ≡ₚ vs -> members vs' t -> good vs s -> good vs' t.
Proof.
  intros Hr Hp Hm [_ Hs Hc Ha]. split; [done|by eapply reorder_slices|by eapply reorder_context|].
  rewrite (reorder_pf _ _ Hr). intros H. rewrite Hp. by apply Ha.
Qed.

(** ** What a round does not change *)

Record drift s t : Prop := {
  dr_conf : sw_conf t = sw_conf s;
  dr_config : config (sw_hw t) = config (sw_hw s);
  dr_array : array_vf (sw_hw t) = array_vf (sw_hw s);
  dr_sv : sv_state <$> sched_vfs (sw_hw t) = sv_state <$> sched_vfs (sw_hw s);
  dr_fair : fairness_mode (sw_manual t) = fairness_mode (sw_manual s);
  dr_mode : sched_mode (sw_manual t) = sched_mode (sw_manual s);
  dr_fn : amdgv_schedule_vfs (sw_manual t) = amdgv_schedule_vfs (sw_manual s);
  dr_slots : Forall2 same_member (slots s) (slots t);
}.
#[export] Instance drift_preorder : PreOrder drift.
Proof.
  split; [by intros s; split|]. intros s t u [] []. split; try congruence.
  eapply (Forall2_trans same_member same_member); [|done..]. intros ???. by etransitivity.
Qed.

Lemma upkeep_drift s t : upkeep s t -> drift s t.
Proof. by intros []. Qed.
Lemma books_drift s t : books s t -> drift s t.
Proof. intros [? _]. by apply upkeep_drift. Qed.
Lemma reorder_drift s t : reorder s t -> drift s t.
Proof. intros []. split; congruence. Qed.

Lemma drift_valid s t i : drift s t -> vf_valid s i <-> vf_valid t i.
Proof. intros Hd. unfold vf_valid. by rewrite (dr_conf _ _ Hd). Qed.
Lemma drift_active s t : drift s t -> pf_active t = pf_active s.
Proof. intros Hd. unfold pf_active, sv_of. by rewrite (dr_sv _ _ Hd). Qed.
Lemma drift_completes s t :
  drift s t -> engine_completes (sw_hw s) <-> engine_completes (sw_hw t).
Proof. intros Hd. unfold engine_completes. by rewrite (dr_config _ _ Hd). Qed.

(** ** Going to the back of the list *)

Definition use_pf s : bool := negb (Z.land (flags (config (sw_hw s))) AMDGV_FLAG_USE_PF =? 0).

(** The list after VF [i] left the engine. *)
Definition requeued (pf_takes_part : bool) (i : Z) vs : list Z :=
  if bool_decide (i ∈ vs) && (negb (i =? AMDGV_PF_IDX) || pf_takes_part) then send_back i vs else vs.

Lemma requeued_perm b i vs : NoDup vs -> requeued b i vs ≡ₚ vs.
Proof.
  intros Hnd. unfold requeued. destruct (bool_decide _) eqn:Hi; [|done].
  destruct (_ || _); [|done]. apply bool_decide_eq_true in Hi. by apply send_back_perm.
Qed.

Lemma wp_requeue vs i s (Q : unit -> switcher hw -> Prop) :
  members vs s -> (pf_active s = true -> AMDGV_PF_IDX ∈ vs) -> counts_ok s -> ws_shape (sw_hw s) -> 0 <= i < 32 ->
  (forall t, members (requeued (use_pf s && pf_active s) i vs) t -> reorder s t ->
     slots t = slots s -> sw_calls t = sw_calls s -> Q tt t) ->
  wp (requeue i) Q s.
Proof.
  intros Hm Hact Hc Hsh Hi HQ. destruct (slot_some s i (mb_len _ _ Hm) Hi) as [e He].
  unfold requeue. wp_step. eapply wp_slot_entry; [exact He|]. wp_step. apply wp_invalid.
  destruct (decide (i ∈ vs)) as [Hin|Hni].
  - destruct (member_entry _ _ _ Hm Hin) as (e' & He' & Hx & Hv).
    assert (e' = e) as -> by congruence. rewrite Hx.
    assert (idx_invalid s i = false) as ->.
    { unfold idx_invalid. destruct Hv as [Hv| ->]; [|done]. apply andb_false_iff. right.
      apply Z.leb_gt. lia. }
    wp_step. apply wp_flag. fold (use_pf s). wp_step. apply wp_pf_active; [done|].
    unfold requeued in HQ. rewrite bool_decide_eq_true_2 in HQ by done. cbn [andb] in HQ.
    destruct (_ || _); cbn [when]; [by eapply wp_to_tail|]. wp_step. by apply HQ.
  - assert (requeued (use_pf s && pf_active s) i vs = vs) as Hrq
      by (unfold requeued; by rewrite bool_decide_eq_false_2). rewrite Hrq in HQ.
    destruct (decide (i = AMDGV_PF_IDX)) as [->|Hne].
    + destruct (mb_pf _ _ Hm) as (e' & He' & Hx). assert (e' = e) as -> by congruence. rewrite Hx.
      change (idx_invalid s AMDGV_PF_IDX) with false. cbv iota.
      wp_step. apply wp_flag. wp_step. apply wp_pf_active; [done|].
      destruct (pf_active s) eqn:Ha; [by destruct Hni; apply Hact|].
      rewrite andb_false_r. cbn [Z.eqb AMDGV_PF_IDX Pos.eqb negb orb when]. wp_step. by apply HQ.
    + pose proof (mb_slot _ _ Hm i e He) as Hs. rewrite decide_False in Hs by done.
      rewrite Hs by (unfold AMDGV_PF_IDX in *; lia). rewrite invalid_is_invalid by done.
      wp_step. by apply HQ.
Qed.

(** ** Release *)

(** The engine free for the next VF: the world switch as it was, but saved. *)
Record released vs w s vs' w' t : Prop := {
  rl_good : good vs' t;
  rl_drift : drift s t;
  rl_ws : ws_of t = Some w';
  rl_stable : stable w w';
  rl_inited : vf_inited w' = vf_inited w;
  rl_run : switch_running w' = switch_running w;
  rl_list : vs' = if curr_vf_state w =? AMDGV_VF_CONTEXT_LOADED
                  then requeued (use_pf s && pf_active s) (curr_idx_vf w) vs else vs;
}.

Lemma good_ready vs s w : good vs s -> ws_of s = Some w ->
  ready w s /\ counts_ok s /\ logs_ok s /\ 0 <= curr_idx_vf w < 32 /\
  (curr_vf_state w = AMDGV_VF_CONTEXT_LOADED -> vf_valid s (curr_idx_vf w)) /\
  (switch_running w = true -> curr_vf_state w <> AMDGV_VF_CONTEXT_ABNORMAL).
Proof.
  intros [_ _ [(w0 & Hw0 & Hr & Hc & Hl & _ & Ha) Hn Hg] _] Hw.
  assert (w0 = w) as -> by congruence. split; [by split|]. do 3 (split; [done|]). split; [|done].
  intros H. apply Hl, H.
Qed.

(** A context function keeps the invariant. *)
Lemma good_context vs vf st vi w s r t :
  good vs s -> context_post ws vf st vi w s r t -> good vs t.
Proof.
  intros Hg [Hu Hc _ _]. by eapply good_upkeep.
Qed.

Lemma wp_release vs w s (Q : Z -> switcher hw -> Prop) :
  good vs s -> ws_of s = Some w -> vs <> [] ->
  (forall w' t, good vs t -> drift s t -> ws_of t = Some w' -> stable w w' -> stopped w' ->
     ~ engine_completes (sw_hw s) -> curr_idx_vf w' = curr_idx_vf w -> Q AMDGV_FAILURE t) ->
  (forall vs' w' t, released vs w s vs' w' t -> Q 0 t) ->
  wp (release_engine ws) Q s.
Proof.
  intros Hg Hw Hne Hbad Hok. destruct (good_ready _ _ _ Hg Hw) as (Hr & Hc & Hl & Hi & Hv & Ha).
  pose proof (mb_len _ _ (g_members _ _ Hg)) as Hn.
  unfold release_engine. wp_step. eapply (wp_wsw ws w); [done|].
  destruct (Z.eqb_spec (curr_vf_state w) AMDGV_VF_CONTEXT_LOADED) as [Hld|Hnl].
  - destruct (slot_some s (curr_idx_vf w) Hn Hi) as [e He].
    wp_step. eapply wp_slot_entry; [exact He|]. wp_step.
    eapply wp_mono; [apply (wp_save ws w); try done; by apply Hv|].
    intros r t Hp. pose proof (good_context _ _ _ _ _ _ _ _ Hg Hp) as Ht.
    destruct Hp as [Hu Hcx (w' & Hw' & Hst & Hcu & Hin & Hres) Hco].
    pose proof (upkeep_drift _ _ Hu) as Hd.
    destruct Hres as [(-> & Hsv & Hrun)|(-> & Hsd)].
    + cbn [Z.eqb when]. wp_step. change (0 =? 0) with true. cbn [when].
      eapply wp_requeue; [apply Ht|apply Ht|apply Hcx|by eapply good_shape|done|].
      intros t2 Hm2 Hr2 Hsl2 Hca2. wp_step.
      assert (use_pf t && pf_active t = use_pf s && pf_active s) as Hup.
      { unfold use_pf. by rewrite (dr_config _ _ Hd), (drift_active _ _ Hd). }
      rewrite Hup in Hm2.
      pose proof (requeued_perm (use_pf s && pf_active s) (curr_idx_vf w) vs
                    (members_nodup _ _ (g_members _ _ Hg))) as Hp2.
      eapply (Hok _ w'). split.
      * by eapply good_reorder.
      * etransitivity; [exact Hd|by apply reorder_drift].
      * by rewrite (reorder_ws ws _ _ Hr2).
      * done.
      * done.
      * done.
      * rewrite Hld. done.
    + wp_step. cbn [Z.eqb AMDGV_FAILURE]. change (AMDGV_FAILURE =? 0) with false. cbn [when].
      wp_step. wp_step. apply (Hbad w'); try done. intros Hcmp. by specialize (Hco Hcmp).
  - assert (exists u z, vs = u ++ [z]) as (u & z & Ez).
    { destruct (exists_last (l := vs)) as (u & z & ?); [done|]. by exists u, z. }
    assert (z ∈ vs) as Hz by (rewrite Ez; apply elem_of_app; right; by left).
    destruct (member_entry _ _ _ (g_members _ _ Hg) Hz) as (e & He & Hx & Hzv).
    wp_step. eapply (wp_list_prev_head u z); [rewrite <- Ez; apply Hg|].
    wp_step. cbn [slot_of]. wp_step. wp_step. eapply wp_slot_entry; [exact He|].
    wp_step. unfold manual. wp_step. wp_step.
    apply (wp_mono _ (fun _ t => books s t)).
    + wp_step; [|done]. rewrite Hx.
      eapply wp_stop_record; [exact Hw|apply Hr|done|done|by eapply vf_valid_range].
    + intros [] t Hb. wp_step. apply (Hok vs w). split; try done.
      * by eapply good_books.
      * by apply books_drift.
      * by rewrite (books_ws ws _ _ Hb).
      * apply Z.eqb_neq in Hnl. by rewrite Hnl.
Qed.

(** ** Is there anything to schedule? *)

Definition dummy_of s (i : Z) : bool := match slot s i with Some e => dummy_vf e | None => false end.

Lemma slot_test vs s i : members vs s -> i ∈ vs -> exists e, slot s i = Some e /\ dummy_of s i = dummy_vf e.
Proof.
  intros Hm Hi. destruct (member_entry _ _ _ Hm Hi) as (e & He & _). exists e.
  split; [done|]. unfold dummy_of. by rewrite He.
Qed.

(** A search through the list with a test on the entries. *)
Lemma wp_find_slot vs (f : Z -> bool) (g : active_vf_entry -> bool) s
    (Q : sw_node -> switcher hw -> Prop) :
  members vs s -> (forall i e, i ∈ vs -> slot s i = Some e -> g e = f i) ->
  Q (match List.find f vs with Some i => Vf i | None => Head end) s ->
  wp (find_node sw_links list_fuel Head (fun n => i ← slot_of n; e ← entry i; mret (g e))) Q s.
Proof.
  intros Hm Hf HQ.
  apply (wp_find_node sw_links (fun n => match n with Vf i => f i | Head => false end) _ Head (Vf <$> vs)).
  - apply Hm.
  - rewrite length_fmap. pose proof (members_length _ _ Hm). unfold list_fuel. lia.
  - intros x (i & -> & Hi)%list_elem_of_fmap. destruct (member_entry _ _ _ Hm Hi) as (e & He & _).
    cbn [slot_of]. erewrite run_bind by done. erewrite run_bind; [|unfold entry; unfold slot, slots in He;
      by rewrite He]. by rewrite (Hf i e).
  - unfold found. replace (default Head (List.find _ (Vf <$> vs)))
      with (match List.find f vs with Some i => Vf i | None => Head end); [done|].
    clear. induction vs as [|x vs IH]; [done|]. cbn. by destruct (f x).
Qed.

Lemma find_none_iff {A} (f : A -> bool) l : List.find f l = None <-> forallb (fun x => negb (f x)) l = true.
Proof.
  induction l as [|x l IH]; cbn; [done|]. destruct (f x); cbn; [done|]. exact IH.
Qed.

Lemma wp_active_list_empty vs s (Q : bool -> switcher hw -> Prop) :
  members vs s -> Q (forallb (dummy_of s) vs) s -> wp amdgv_sched_active_list_empty Q s.
Proof.
  intros Hm HQ. unfold amdgv_sched_active_list_empty, manual. wp_step. wp_step. wp_step. wp_step.
  assert (amdgv_list_empty Head (active_links (sw_manual s)) = bool_decide (vs = [])) as ->.
  { etransitivity; [exact (dlist_empty _ _ _ (mb_list _ _ Hm))|]. apply bool_decide_ext.
    by destruct vs. }
  destruct (bool_decide (vs = []) && negb (fairness_mode (sw_manual s))) eqn:Eb.
  - wp_step. apply andb_true_iff in Eb as [->%bool_decide_eq_true _]. exact HQ.
  - wp_step. eapply (wp_find_slot vs (fun i => negb (dummy_of s i)) (fun e => negb (dummy_vf e))).
    + exact Hm.
    + intros i e _ He. unfold dummy_of. by rewrite He.
    + wp_step. destruct (List.find _ vs) as [i|] eqn:Ef.
      * rewrite bool_decide_eq_false_2 by done.
        destruct (forallb (dummy_of s) vs) eqn:Ea; [|exact HQ]. exfalso.
        apply find_some in Ef as [Hin Hi]. rewrite forallb_forall in Ea. rewrite (Ea i Hin) in Hi. done.
      * rewrite bool_decide_eq_true_2 by done. apply find_none_iff in Ef.
        replace (forallb (dummy_of s) vs) with true in HQ; [done|]. symmetry. rewrite <- Ef.
        clear. induction vs as [|x vs IH]; [done|]. cbn. by rewrite negb_involutive, IH.
Qed.

(** In hybrid liquid mode the VF may stay; nothing moves then, and unless it is
    alone the timer is armed for the rest of its minimum. *)
Lemma wp_liquid_stays vs w s (Q : bool -> switcher hw -> Prop) :
  good vs s -> ws_of s = Some w ->
  (forall t, books s t -> sched_mode (sw_manual s) = AMDGV_SCHED_HYBRID_LIQUID_MODE ->
     curr_vf_state w = AMDGV_VF_CONTEXT_LOADED ->
     (sw_calls t = sw_calls s \/ exists left_ts, 0 < left_ts /\ sw_calls t = TimerStart left_ts :: sw_calls s) ->
     Q true t) ->
  (forall t, books s t -> sw_calls t = sw_calls s -> slots t = slots s -> Q false t) ->
  wp (liquid_stays ws) Q s.
Proof.
  intros Hg Hw HT HF. destruct (good_ready _ _ _ Hg Hw) as (_ & _ & _ & Hi & _).
  unfold liquid_stays, manual. wp_step. wp_step.
  destruct (Z.eqb_spec (sched_mode (sw_manual s)) AMDGV_SCHED_HYBRID_LIQUID_MODE) as [Hmode|];
    cbn [negb]; [|wp_step; by apply HF].
  wp_step. unfold amdgv_sched_is_one_active_vf, conf. wp_step. wp_step. wp_step.
  eapply (wp_wsw ws w); [done|]. wp_step. wp_step. eapply (wp_wsw ws w); [done|]. cbv zeta.
  destruct (Z.eqb_spec (curr_vf_state w) AMDGV_VF_CONTEXT_LOADED) as [Hld|].
  2: { rewrite andb_false_r. wp_step. wp_step.
       destruct (slot_some s (curr_idx_vf w) (mb_len _ _ (g_members _ _ Hg)) Hi) as [e He].
       wp_step. eapply wp_slot_entry; [exact He|]. wp_step. wp_step.
       wp_step. apply (wp_mono _ (fun _ t => books s t /\ sw_calls t = sw_calls s /\ slots t = slots s)).
       - destruct (_ =? 0); cbn [negb]; [destruct (_ =? 0)|];
           try (wp_step; apply wp_now_any; intros; wp_step; split; [by apply books_same|done]).
         by wp_step.
       - intros r t (Hb & Hc & Hsl). rewrite andb_false_r. wp_step. by apply HF. }
  rewrite andb_true_r. destruct (negb _ && _); [wp_step; apply HT; try done; by left|].
  wp_step. wp_step. destruct (slot_some s (curr_idx_vf w) (mb_len _ _ (g_members _ _ Hg)) Hi) as [e He].
  wp_step. eapply wp_slot_entry; [exact He|]. wp_step. wp_step. wp_step.
  apply (wp_mono _ (fun _ t => books s t /\ sw_calls t = sw_calls s /\ slots t = slots s)).
  - destruct (_ =? 0); cbn [negb]; [destruct (_ =? 0)|];
      try (wp_step; apply wp_now_any; intros; wp_step; split; [by apply books_same|done]).
    by wp_step.
  - intros r t (Hb & Hc & Hsl). rewrite andb_true_r. destruct (Z.ltb_spec 0 r) as [Hpos|].
    + wp_step. apply wp_call. intros t2 Hb2 ->. wp_step. apply HT; [by etransitivity|done|done|].
      right. exists r. cbn. by rewrite Hc.
    + wp_step. by apply HF.
Qed.

(** ** The choice *)

Record chosen vs s (p : Z * Z) vs' t : Prop := {
  ch_perm : vs' ≡ₚ vs;
  ch_members : members vs' t;
  ch_slices : slices_ok vs' t;
  ch_frame : reorder s t;
  ch_calls : sw_calls t = sw_calls s;
  ch_valid : vf_valid s (fst p);
}.

Lemma picked_chosen vs s p vs' t : picked vs s p vs' t -> chosen vs s p vs' t.
Proof. by intros []. Qed.

(** No VF is forced by the user. *)
Definition unforced s : Prop := AMDGV_MAX_VF_SLOT <= force_switch_vf_idx (sw_conf s).

(** What the installed scheduling function chooses. *)
Definition policy w vs s (p : Z * Z) vs' t : Prop :=
  0 < snd p /\
  match amdgv_schedule_vfs (sw_manual s) with
  | amdgv_schedule_vfs_default_ptr => round_robin vs s p vs'
  | amdgv_schedule_vfs_liquid_ptr =>
      vs' = rotate_pf (pf_active s) vs /\ fst p = fst (liquid_pick_of w s vs) /\
      (forall j, 0 <= j -> skip_of t j = liquid_skip (skip_of s) (liquid_pick_of w s vs) j)
  end.

Lemma wp_schedule_vfs w vs s :
  ws_of s = Some w -> vs <> [] -> members vs s -> slices_ok vs s -> ws_shape (sw_hw s) ->
  wp (schedule_vfs ws) (fun p t => exists vs', chosen vs s p vs' t /\ policy w vs s p vs' t) s.
Proof.
  intros Hw Hne Hm Hs Hsh. unfold schedule_vfs, manual, policy. wp_step. wp_step.
  destruct (amdgv_schedule_vfs (sw_manual s)).
  - eapply wp_mono; [by apply wp_schedule_default_fn|]. intros p t (vs' & Hp & Hrr).
    exists vs'. split; [by apply picked_chosen|]. split; [apply Hp|done].
  - eapply wp_mono; [by apply (wp_liquid ws w vs)|]. intros p t (Hp & Hf & Hsk).
    exists (rotate_pf (pf_active s) vs). split; [by apply picked_chosen|]. split; [apply Hp|done].
Qed.

Lemma wp_forced vs force s :
  vs <> [] -> members vs s -> slices_ok vs s -> ws_shape (sw_hw s) ->
  wp (forced_vf force) (fun p t => chosen vs s p vs t) s.
Proof.
  intros Hne Hm Hs Hsh. unfold forced_vf. wp_step.
  eapply (wp_find_slot vs (fun i => i =? force) (fun e => idx_vf e =? force)); [exact Hm| |].
  { intros i e Hi He. destruct (member_entry _ _ _ Hm Hi) as (e' & He' & Hx & _).
    assert (e' = e) as -> by congruence. by rewrite Hx. }
  destruct (List.find _ vs) as [i|] eqn:Ef.
  - rewrite decide_False by done. apply find_some in Ef as [Hi%list_elem_of_In _].
    destruct (member_entry _ _ _ Hm Hi) as (e & He & Hx & Hv).
    wp_step. cbn [slot_of]. wp_step. wp_step. eapply wp_slot_entry; [exact He|].
    wp_step. apply wp_vf_per_gfx. wp_step. apply wp_gfx_slice; [done|]. intros r Hr. wp_step.
    split; try done. by rewrite Hx.
  - rewrite decide_True by done.
    assert (exists u z, vs = u ++ [z]) as (u & z & Ez).
    { destruct (exists_last (l := vs)) as (u & z & ?); [done|]. by exists u, z. }
    assert (z ∈ vs) as Hz by (rewrite Ez; apply elem_of_app; right; by left).
    destruct (member_entry _ _ _ Hm Hz) as (e & He & Hx & Hv).
    wp_step. eapply (wp_list_prev_head u z); [by rewrite <- Ez|].
    wp_step. eapply wp_slot_entry; [exact He|]. wp_step. split; try done. by rewrite Hx.
Qed.

Lemma wp_pick_next w vs s :
  good vs s -> ws_of s = Some w -> vs <> [] ->
  wp (pick_next ws) (fun p t => exists vs', chosen vs s p vs' t /\
                       (unforced s -> policy w vs s p vs' t)) s.
Proof.
  intros Hg Hw Hne. pose proof (good_shape _ _ Hg) as Hsh. destruct Hg as [Hm Hs _ _].
  unfold pick_next, conf. wp_step. wp_step. unfold unforced.
  destruct (Z.leb_spec AMDGV_MAX_VF_SLOT (force_switch_vf_idx (sw_conf s))).
  - eapply wp_mono; [by apply (wp_schedule_vfs w)|]. intros p t (vs' & ? & ?). by exists vs'.
  - eapply wp_mono; [by apply wp_forced|]. intros p t ?. exists vs. split; [done|lia].
Qed.

Lemma good_chosen vs s p vs' t : good vs s -> chosen vs s p vs' t -> good vs' t.
Proof. intros Hg [Hp Hm Hs Hr _ _]. by eapply good_reorder. Qed.

(** ** The load *)

(** VF [i] is on the engine for [ts], or the load failed and its reset was
    asked for. *)
Record load_done (i ts : Z) w s t : Prop := {
  ld_drift : drift s t;
  ld_ws : exists w', ws_of t = Some w' /\ stable w w' /\ curr_idx_vf w' = i /\
    vf_inited w' = vf_inited w /\
    ((curr_vf_state w' = AMDGV_VF_CONTEXT_LOADED /\
      (bp_mode (sw_conf s) <> AMDGV_BP_MODE_1 -> switch_running w' = switch_running w) /\
      (ts <> DEFAULT_GFX_TIME_SLICE_1VF -> head (sw_calls t) = Some (TimerStart ts))) \/
     (stopped w' /\ ~ engine_completes (sw_hw s) /\
      head (sw_calls t) = Some (QueueResetVf i (sched_block w'))));
}.

Lemma wp_queue_reset w s (Q : unit -> switcher hw -> Prop) :
  ws_of s = Some w ->
  (forall t, books s t -> head (sw_calls t) = Some (QueueResetVf (curr_idx_vf w) (sched_block w)) ->
     Q tt t) -> wp (queue_reset_vf ws) Q s.
Proof.
  intros Hw HQ. unfold queue_reset_vf. wp_step. eapply (wp_wsw ws w); [done|].
  apply wp_call. intros t Hb ->. by apply HQ.
Qed.

Lemma wp_should_pause w s (Q : bool -> switcher hw -> Prop) :
  ws_of s = Some w -> (forall b, (bp_mode (sw_conf s) <> AMDGV_BP_MODE_1 -> b = false) -> Q b s) ->
  wp (amdgv_sched_should_pause_ws ws) Q s.
Proof.
  intros Hw HQ. unfold amdgv_sched_should_pause_ws, conf. wp_step. wp_step. wp_step.
  eapply (wp_wsw ws w); [done|].
  destruct (Z.eqb_spec (bp_mode (sw_conf s)) AMDGV_BP_MODE_1); cbn [andb].
  2: { wp_step. by apply HQ. }
  destruct (_ && _); [|wp_step; by apply HQ]. wp_step. apply wp_flag.
  destruct (negb _); wp_step; by apply HQ.
Qed.

(** Stopping the world switch with a VF loaded keeps the invariant. *)
Lemma good_stop vs w s :
  good vs s -> ws_of s = Some w ->
  good vs (put_ws ws (w <| switch_running := false |>) s) /\
  ws_of (put_ws ws (w <| switch_running := false |>) s) = Some (w <| switch_running := false |>).
Proof.
  intros Hg Hw. destruct (good_ready _ _ _ Hg Hw) as (Hr & Hc & Hl & Hi & Hv & _).
  pose proof (upkeep_put_ws ws (w <| switch_running := false |>) s) as Hu.
  split; [|by eapply ws_of_put]. eapply good_upkeep; [exact Hu| |exact Hg].
  destruct (g_context _ _ Hg) as [(w0 & Hw0 & _ & _ & Hld & Hsv & _) _ _]. unfold SwitchInv.ws_of in *.
  assert (w0 = w) as -> by congruence.
  eapply context_ok_intro; [apply (ready_put ws w); [by split|exact Hr]|done|done|exact Hi|
    exact Hld|exact Hsv|done].
Qed.

Lemma wp_load_fcn vs w i ts s (Q : Z -> switcher hw -> Prop) :
  good vs s -> ws_of s = Some w -> vf_valid s i ->
  (forall t, good vs t -> load_done i ts w s t -> Q 0 t) -> wp (load_fcn ws i ts) Q s.
Proof.
  intros Hg Hw Hv HQ. unfold load_fcn, manual. wp_step. wp_step. wp_step.
  apply (wp_mono _ (fun _ t => books s t)).
  { wp_step; [|done]. unfold set_manual. wp_step. split; [|done]. by split. }
  intros [] s1 Hb1. pose proof (good_books _ _ _ Hb1 Hg) as Hg1.
  assert (ws_of s1 = Some w) as Hw1 by (by rewrite (books_ws ws _ _ Hb1)).
  pose proof (books_drift _ _ Hb1) as Hd1.
  destruct (good_ready _ _ _ Hg1 Hw1) as (Hr & Hc & Hl & _ & _ & _).
  wp_step. eapply wp_mono.
  { apply (wp_load ws w i); try done; [apply Hg1|]. by apply (drift_valid s s1). }
  intros r t Hp. pose proof (good_context _ _ _ _ _ _ _ _ Hg1 Hp) as Ht.
  destruct Hp as [Hu Hcx (w' & Hw' & Hst & Hcu & Hin & Hres) Hco].
  assert (drift s t) as Hdt by (etransitivity; [exact Hd1|by apply upkeep_drift]).
  assert (~ r = 0 -> ~ engine_completes (sw_hw s)) as Hno.
  { intros Hr0 Hcmp. apply Hr0, Hco. by apply (drift_completes s s1). }
  destruct Hres as [(-> & Hld & Hrun)|(-> & Hsd)].
  - change (0 =? 0) with true. cbn [negb]. wp_step. eapply wp_should_pause; [exact Hw'|].
    intros b Hb. wp_step.
    apply (wp_mono _ (fun _ t2 => exists w2, good vs t2 /\ drift t t2 /\ ws_of t2 = Some w2 /\
      stable w' w2 /\ curr_idx_vf w2 = i /\ vf_inited w2 = vf_inited w' /\
      curr_vf_state w2 = AMDGV_VF_CONTEXT_LOADED /\ (b = false -> switch_running w2 = switch_running w'))).
    { wp_step.
      - wp_step. eapply wp_set_wsw; [exact Hw'|]. destruct (good_stop _ _ _ Ht Hw') as [Hg2 Hw2].
        apply wp_call. intros t2 Hb2 _. exists (w' <| switch_running := false |>).
        split; [by eapply good_books|]. split.
        { etransitivity; [apply upkeep_drift, upkeep_put_ws|by apply books_drift]. }
        split; [by rewrite (books_ws ws _ _ Hb2)|]. split; [by split|].
        split_and!; try done. congruence.
      - exists w'. by split_and!. }
    intros [] t2 (w2 & Hg2 & Hd2 & Hw2 & Hst2 & Hc2 & Hi2 & Hl2 & Hr2).
    wp_step. apply (wp_mono _ (fun _ t3 => books t2 t3 /\
      (ts <> DEFAULT_GFX_TIME_SLICE_1VF -> head (sw_calls t3) = Some (TimerStart ts)))).
    { destruct (Z.eqb_spec ts DEFAULT_GFX_TIME_SLICE_1VF); cbn [negb when]; [by wp_step|].
      apply wp_call. intros t3 Hb3 ->. by split. }
    intros [] t3 [Hb3 Htm]. wp_step. apply HQ; [by eapply good_books|]. split.
    + etransitivity; [exact Hdt|]. etransitivity; [exact Hd2|by apply books_drift].
    + exists w2. rewrite (books_ws ws _ _ Hb3). split_and!; try done; [by etransitivity|congruence|].
      left. split_and!; try done. intros Hbp. rewrite <- Hrun. apply Hr2, Hb.
      by rewrite (dr_conf _ _ Hdt).
  - change (AMDGV_FAILURE =? 0) with false. cbn [negb]. wp_step.
    eapply wp_queue_reset; [exact Hw'|]. intros t2 Hb2 Hcl. wp_step.
    apply HQ; [by eapply good_books|]. split.
    + etransitivity; [exact Hdt|by apply books_drift].
    + exists w'. rewrite (books_ws ws _ _ Hb2). split_and!; try done. right.
      split_and!; [done|by apply Hno|by rewrite <- Hcu].
Qed.

(** ** One round *)

(** The round has a VF to switch to and is not held up by the user. *)
Definition must_switch vs w s : Prop :=
  switch_running w = true /\ unforced s /\ in_live_update (sw_conf s) = false /\
  forallb (dummy_of s) vs = false /\ 0 <= curr_idx_vf w < 32.

(** The engine changes hands: [s1] is the state after the release, [s2] the one
    after the choice [p]. *)
Record switched vs w s (p : Z * Z) vs' t : Prop := {
  sd_mid : exists vs1 w1 s1 s2, released vs w s vs1 w1 s1 /\ chosen vs1 s1 p vs' s2 /\
    (unforced s -> policy w1 vs1 s1 p vs' s2) /\ load_done (fst p) (snd p) w1 s2 t /\
    adds [] s s1 /\ adds [fst p] s2 t;
  sd_drift : drift s t;
}.

Inductive round_result vs w s : list Z -> switcher hw -> Prop :=
| round_idle t : books s t -> adds [] s t ->
    (must_switch vs w s -> sched_mode (sw_manual s) = AMDGV_SCHED_HYBRID_LIQUID_MODE) ->
    round_result vs w s vs t
| round_pf t : switch_running w = true -> forallb (dummy_of s) vs = true ->
    load_done AMDGV_PF_IDX 0 w s t -> adds [AMDGV_PF_IDX] s t -> round_result vs w s vs t
| round_save_failed w' t : switch_running w = true -> drift s t -> ws_of t = Some w' -> stable w w' ->
    stopped w' -> ~ engine_completes (sw_hw s) ->
    head (sw_calls t) = Some (QueueResetVf (curr_idx_vf w) (sched_block w')) ->
    adds [] s t -> round_result vs w s vs t
| round_switched p vs' t : switch_running w = true -> switched vs w s p vs' t ->
    round_result vs w s vs' t.

Lemma released_books vs w s s0 vs1 w1 s1 :
  books s s0 -> released vs w s0 vs1 w1 s1 -> released vs w s vs1 w1 s1.
Proof.
  intros Hb [Rg Rd Rw Rs Ri Rr Rl]. pose proof (books_drift _ _ Hb) as Hd.
  split; try done; [by etransitivity|]. rewrite Rl. unfold use_pf.
  by rewrite (dr_config _ _ Hd), (drift_active _ _ Hd).
Qed.

Lemma released_valid vs w s vs1 w1 s1 : released vs w s vs1 w1 s1 -> members vs s -> vs1 ≡ₚ vs.
Proof.
  intros Hr Hm. rewrite (rl_list _ _ _ _ _ _ Hr). destruct (_ =? _); [|done].
  apply requeued_perm. by eapply members_nodup.
Qed.

Lemma load_drift i ts w s t : load_done i ts w s t -> drift s t.
Proof. by intros []. Qed.

(** The switch proper: release, choose, load. *)
Lemma wp_switch vs w s s0 (Q : Z -> switcher hw -> Prop) :
  good vs s -> ws_of s = Some w -> vs <> [] -> switch_running w = true -> books s s0 -> adds [] s s0 ->
  (forall vs' t, good vs' t -> round_result vs w s vs' t -> Q 0 t) ->
  wp (r ← release_engine ws;
      if negb (r =? 0) then _ ← queue_reset_vf ws; mret 0 else
      next ← pick_next ws; load_fcn ws (fst next) (snd next)) Q s0.
Proof.
  intros Hg Hw Hne Hrun Hb Had HQ. pose proof (good_books _ _ _ Hb Hg) as Hg0.
  pose proof (books_drift _ _ Hb) as Hd0.
  wp_step. apply (wp_logs [] _ _ _ (logs_release ws)).
  eapply (wp_release vs w); [done|by rewrite (books_ws ws _ _ Hb)|done| |].
  - intros w' t Ht Hd Hw' Hst Hsd Hno Hcu Had1. change (AMDGV_FAILURE =? 0) with false. cbn [negb].
    wp_step. apply (wp_logs [] _ _ _ (logs_queue_reset ws)).
    eapply wp_queue_reset; [exact Hw'|]. intros t2 Hb2 Hcl Had2. wp_step.
    apply (HQ vs); [by eapply good_books|].
    apply (round_save_failed vs w s w'); try done.
    + etransitivity; [exact Hd0|]. etransitivity; [exact Hd|by apply books_drift].
    + by rewrite (books_ws ws _ _ Hb2).
    + intros Hc. apply Hno. by apply (drift_completes _ _ Hd0).
    + by rewrite <- Hcu.
    + exact (adds_trans _ _ _ _ _ (adds_trans _ _ _ _ _ Had Had1) Had2).
  - intros vs1 w1 s1 Hrel Had1. change (0 =? 0) with true. cbn [negb].
    pose proof (released_valid _ _ _ _ _ _ Hrel (g_members _ _ Hg0)) as Hp1.
    assert (vs1 <> []) as Hne1 by (intros ->; by apply Permutation_nil_l in Hp1).
    pose proof (released_books _ _ _ _ _ _ _ Hb Hrel) as Hrel'.
    pose proof Hrel as [Hg1 Hd1 Hw1 _ _ _ _].
    wp_step. eapply wp_mono; [by apply (wp_pick_next w1)|].
    intros p s2 (vs' & Hch & Hpol). pose proof (good_chosen _ _ _ _ _ Hg1 Hch) as Hg2.
    pose proof Hch as [_ _ _ Hr2 _ Hv2].
    pose proof (reorder_drift _ _ Hr2) as Hd2.
    apply (wp_logs [fst p] _ _ _ (logs_load_fcn ws _ _)).
    eapply (wp_load_fcn vs' w1); [exact Hg2|by rewrite (reorder_ws ws _ _ Hr2)| |].
    { by apply (drift_valid s1 s2). }
    intros t Ht Hld Had3. apply (HQ vs'); [done|].
    pose proof (load_drift _ _ _ _ _ Hld) as Hd3.
    apply (round_switched _ _ _ p); [done|]. split.
    + exists vs1, w1, s1, s2. split_and!; try done. intros Hu. apply Hpol. unfold unforced in *.
      rewrite (dr_conf _ _ Hd1), (dr_conf _ _ Hd0). exact Hu.
      by apply (adds_trans [] [] _ s0).
    + etransitivity; [exact Hd0|]. etransitivity; [exact Hd1|]. by etransitivity.
Qed.

Lemma wp_process vs w s :
  good vs s -> ws_of s = Some w ->
  wp (amdgv_sched_manual_switch_process ws)
     (fun r t => r = 0 /\ exists vs', good vs' t /\ round_result vs w s vs' t) s.
Proof.
  intros Hg Hw. pose proof (good_shape _ _ Hg) as Hsh.
  assert (forall t, books s t -> adds [] s t -> (must_switch vs w s -> sched_mode (sw_manual s) = AMDGV_SCHED_HYBRID_LIQUID_MODE) ->
    0 = 0 /\ exists vs', good vs' t /\ round_result vs w s vs' t) as Hidle.
  { intros t Hb Had Hm. split; [done|]. exists vs. split; [by eapply good_books|by apply round_idle]. }
  unfold amdgv_sched_manual_switch_process, conf. wp_step. apply wp_vf_per_gfx.
  wp_step. apply wp_gfx_slice; [done|]. intros gts _. wp_step. wp_step.
  destruct (_ && in_live_update (sw_conf s)) eqn:El.
  { wp_step. apply Hidle; [done|by split|]. intros (_ & _ & Hl & _). rewrite Hl in El. by rewrite andb_false_r in El. }
  wp_step. eapply (wp_wsw ws w); [done|]. wp_step. wp_step. cbv zeta.
  destruct (switch_running w) eqn:Hrun; cbn [negb].
  2: { wp_step. apply Hidle; [done|by split|]. intros [H _]. congruence. }
  destruct ((curr_idx_vf w =? force_switch_vf_idx (sw_conf s)) && _) eqn:Ef.
  { wp_step. apply Hidle; [done|by split|]. intros (_ & Hu & _ & _ & Hi). unfold unforced, AMDGV_MAX_VF_SLOT in Hu. zb. lia. }
  wp_step. eapply wp_active_list_empty; [apply Hg|].
  destruct (forallb (dummy_of s) vs) eqn:Hall.
  - destruct (curr_vf_state w =? AMDGV_VF_CONTEXT_LOADED) eqn:Hld; cbn [negb].
    + wp_step. apply Hidle; [done|by split|]. intros (_ & _ & _ & H & _). congruence.
    + apply (wp_logs [AMDGV_PF_IDX] _ _ _ (logs_load_fcn ws _ _)).
      eapply (wp_load_fcn vs w); [done|done|by right|]. intros t Ht Hl Had. split; [done|].
      exists vs. split; [done|by apply round_pf].
  - assert (vs <> []) as Hne by by intros ->.
    wp_step. apply (wp_logs [] _ _ _ (logs_stays ws)). eapply (wp_liquid_stays vs w); [done|done| |].
    + intros t Hb Hmode _ _ Had. wp_step. by apply Hidle.
    + intros s0 Hb _ _ Had. eapply (wp_switch vs w s); try done.
      intros vs' t Ht Hr. split; [done|]. by exists vs'.
Qed.
End ops.
