(* ===== verification/SwitchMembers.v ===== *)
(** * World switch: starting, stopping and membership

    The operations other components call: start and stop, adding and removing
    a VF, new time slices, and the switches made in exclusive access.  Each
    keeps the invariant [good]; the sequence of VFs changes as stated. *)
From S2P Require Import Prelude Oss Api Mask Gpuiov WsState WsInv WsManual WsBulk Dlist ListScan Switch SwitchEngine SwitchInv SwitchRun SwitchPick SwitchLiquid SwitchOps.
Import Dlist ListScan.
#[local] Open Scope Z_scope.
#[local] Set Warnings "-clear-no-such-hyp".

Section members.
Context {hw : Type} `{HW : WsHw hw} {E : OssEnv}.
Variable ws : Z.
Implicit Types (s t : switcher hw) (e : active_vf_entry) (w : world_switch) (vs : list Z).
Abbreviation ws_of := (SwitchInv.ws_of ws).
Abbreviation context_ok := (SwitchInv.context_ok ws).
Abbreviation ready := (SwitchRun.ready ws).
Abbreviation good := (SwitchOps.good ws).
Abbreviation put_ws := (SwitchInv.put_ws ws).

(** ** Updates of the world switch that keep its context *)

(** [w'] differs from [w] in fields the context does not speak of, or in
    [switch_running], which needs a context that is not abnormal. *)
Record same_context w w' : Prop := {
  sc_stable : stable w w';
  sc_idx : curr_idx_vf w' = curr_idx_vf w;
  sc_state : curr_vf_state w' = curr_vf_state w;
  sc_run : switch_running w' = true -> curr_vf_state w <> AMDGV_VF_CONTEXT_ABNORMAL;
}.

Lemma same_context_refl w s : context_ok s -> ws_of s = Some w -> same_context w w.
Proof.
  intros [(w0 & Hw0 & _ & _ & _ & _ & Hr) _ _] Hw. assert (w0 = w) as -> by congruence. by split.
Qed.

(** The context follows the world switch. *)
Lemma context_put w w' s :
  context_ok s -> ws_of s = Some w -> same_context w w' -> context_ok (put_ws w' s).
Proof.
  intros [(w0 & Hw0 & Hr & Hi & Hld & Hsv & _) Hc Hl] Hw [Hst Hi' Hs Hr'].
  assert (w0 = w) as -> by congruence. pose proof (st_mask _ _ Hst) as Hm.
  eapply context_ok_intro; [apply (ready_put ws w); [done|by split]|done|done|..].
  - by rewrite Hi'.
  - rewrite Hs, Hi', Hm. exact Hld.
  - rewrite Hs, Hi', Hm. exact Hsv.
  - rewrite Hs. done.
Qed.

Lemma good_put_ws vs w w' s :
  good vs s -> ws_of s = Some w -> same_context w w' -> good vs (put_ws w' s).
Proof.
  intros Hg Hw Hc. eapply good_upkeep; [apply upkeep_put_ws| |exact Hg].
  eapply context_put; [apply Hg|done|done].
Qed.

Lemma wp_start vs w s (Q : Z -> switcher hw -> Prop) :
  good vs s -> ws_of s = Some w ->
  (forall w' t, good vs t -> ws_of t = Some w' -> same_context w w' ->
     switch_running w' = switch_running w || negb (curr_vf_state w =? AMDGV_VF_CONTEXT_ABNORMAL) ->
     drift s t -> Q 0 t) ->
  wp (amdgv_sched_manual_switch_start ws) Q s.
Proof.
  intros Hg Hw HQ. destruct (good_ready _ _ _ _ Hg Hw) as (_ & _ & _ & _ & _ & Hrn).
  assert (same_context w w) as Hself by by split.
  unfold amdgv_sched_manual_switch_start. wp_step. eapply (wp_wsw ws w); [done|].
  destruct (switch_running w) eqn:Hrun.
  - wp_step. apply wp_vf_per_gfx. unfold manual. wp_step. wp_step. wp_step.
    apply (wp_mono _ (fun _ t => books s t)).
    + wp_step; [|done]. unfold set_manual. wp_step. wp_step. apply wp_call. intros t Hb _.
      etransitivity; [|exact Hb]. split; [|done]. by split.
    + intros [] t Hb. wp_step. apply (HQ w); try done; [by eapply good_books| |by apply books_drift].
      by rewrite (books_ws ws _ _ Hb).
  - destruct (Z.eqb_spec (curr_vf_state w) AMDGV_VF_CONTEXT_ABNORMAL) as [Ha|Hna].
    + wp_step. apply (HQ w); try done; by rewrite Hrun.
    + wp_step. eapply wp_set_wsw; [done|]. set (w' := w <| switch_running := true |>).
      assert (same_context w w') as Hsc by by split.
      wp_step. apply wp_call. intros t Hb _. wp_step. apply (HQ w'); try done.
      * eapply good_books; [exact Hb|]. by eapply good_put_ws.
      * rewrite (books_ws ws _ _ Hb). by eapply ws_of_put.
      * etransitivity; [apply upkeep_drift, upkeep_put_ws|by apply books_drift].
Qed.

(** After a stop nothing is loaded. *)
Lemma wp_stop vs w s (Q : Z -> switcher hw -> Prop) :
  good vs s -> ws_of s = Some w ->
  (forall r vs' w' t, good vs' t -> ws_of t = Some w' -> stable w w' -> drift s t -> vs' ≡ₚ vs ->
     switch_running w' = false -> curr_vf_state w' <> AMDGV_VF_CONTEXT_LOADED ->
     (engine_completes (sw_hw s) -> r = 0) -> Q r t) ->
  wp (amdgv_sched_manual_switch_stop ws) Q s.
Proof.
  intros Hg Hw HQ. destruct (good_ready _ _ _ _ Hg Hw) as (_ & _ & _ & Hi & Hv & _).
  unfold amdgv_sched_manual_switch_stop. wp_step. eapply (wp_wsw ws w); [done|]. cbv zeta.
  destruct (negb (switch_running w) && negb (curr_vf_state w =? AMDGV_VF_CONTEXT_LOADED)) eqn:Eq.
  { wp_step. zb. by apply (HQ 0 vs w). }
  clear Eq. wp_step. eapply wp_set_wsw; [done|]. set (w1 := w <| switch_running := false |>).
  assert (same_context w w1) as Hsc by by split.
  pose proof (good_put_ws _ _ _ _ Hg Hw Hsc) as Hg1. pose proof (ws_of_put ws w w1 s Hw) as Hw1.
  wp_step. apply wp_call. intros s2 Hb2 _. pose proof (good_books _ _ _ _ Hb2 Hg1) as Hg2.
  assert (ws_of s2 = Some w1) as Hw2 by (by rewrite (books_ws ws _ _ Hb2)).
  assert (drift s s2) as Hd2.
  { etransitivity; [apply upkeep_drift, (upkeep_put_ws ws w1)|by apply books_drift]. }
  destruct (Z.eqb_spec (curr_vf_state w) AMDGV_VF_CONTEXT_LOADED) as [Hld|Hnl]; cbn [negb].
  2: { wp_step. by apply (HQ 0 vs w1). }
  destruct (good_ready _ _ _ _ Hg2 Hw2) as (Hr & Hc & Hl & Hi2 & Hv2 & _).
  destruct (slot_some s2 (curr_idx_vf w) (mb_len _ _ (g_members _ _ _ Hg2)) Hi) as [e He].
  wp_step. eapply wp_slot_entry; [exact He|]. wp_step.
  eapply wp_mono; [apply (wp_save ws w1); try done; [apply Hg2|by apply Hv2]|].
  intros r t Hp. pose proof (good_context _ _ _ _ _ _ _ _ _ Hg2 Hp) as Ht.
  destruct Hp as [Hu Hcx (w' & Hw' & Hst & Hcu & Hin & Hres) Hco].
  assert (drift s t) as Hdt by (etransitivity; [exact Hd2|by apply upkeep_drift]).
  assert (stable w w') as Hst' by by transitivity w1.
  destruct Hres as [(-> & Hsv & Hrun)|(-> & Hsd & Hrun)].
  - change (0 =? 0) with true. cbn [negb]. wp_step.
    eapply wp_requeue; [apply Ht|apply Ht|apply Hcx|by eapply good_shape|done|].
    intros t2 Hm2 Hr2 Hsl2 Hca2. wp_step.
    pose proof (requeued_perm (use_pf t && pf_active t) (curr_idx_vf w) vs
                  (members_nodup _ _ (g_members _ _ _ Hg))) as Hp2.
    eapply (HQ 0 _ w'); [by eapply good_reorder|by rewrite (reorder_ws ws _ _ Hr2)|done| |done|done| |done].
    + etransitivity; [exact Hdt|by apply reorder_drift].
    + by rewrite Hsv.
  - change (AMDGV_FAILURE =? 0) with false. cbn [negb]. wp_step.
    apply (HQ AMDGV_FAILURE vs w'); try done; [by rewrite Hsd|].
    intros Hcmp. apply Hco. by apply (drift_completes s s2).
Qed.

(** ** Scheduling states *)

Definition put_sv (i st : Z) (a : adapter hw) : adapter hw :=
  match sched_vfs a !! Z.to_nat i with
  | Some v => a <| sched_vfs := <[Z.to_nat i := v <| sv_state := st |> ]> (sched_vfs a) |>
  | None => a
  end.

Lemma vs_get_put_sv i st (a : adapter hw) v h : vs_get (sched_vfs (put_sv i st a)) v h = vs_get (sched_vfs a) v h.
Proof.
  unfold put_sv, vs_get. destruct (sched_vfs a !! Z.to_nat i) as [x|] eqn:Ex; [|done]. cbn.
  destruct (decide (Z.to_nat v = Z.to_nat i)) as [->|Hne].
  - rewrite list_lookup_insert_eq by (by eapply lookup_lt_Some). by rewrite Ex.
  - by rewrite list_lookup_insert_ne by done.
Qed.

Lemma put_sv_same i st (a : adapter hw) :
  config (put_sv i st a) = config a /\ hw_state_machine (put_sv i st a) = hw_state_machine a /\
  world_switches (put_sv i st a) = world_switches a /\ array_vf (put_sv i st a) = array_vf a.
Proof. unfold put_sv. by destruct (_ !! _). Qed.

Lemma ws_shape_put_sv i st (a : adapter hw) : ws_shape a -> ws_shape (put_sv i st a).
Proof.
  intros [[Hl Hf] Hm Hc]. unfold put_sv. destruct (sched_vfs a !! Z.to_nat i) as [x|] eqn:Ex; [|done].
  split; [split|done..]; cbn; [by rewrite length_insert|]. apply Forall_insert; [done|].
  rewrite Forall_lookup in Hf. exact (Hf _ _ Ex).
Qed.

(** The state machines do not look at the scheduling states on these paths. *)
Lemma engine_ready_put_sv mask b i st (a : adapter hw) :
  engine_ready mask b a -> engine_ready mask b (put_sv i st a).
Proof.
  intros [Hm Hs Hc Hsh Ha Hx]. destruct (put_sv_same i st a) as (Ec & Em & _ & Ea).
  split; try congruence; [|by apply ws_shape_put_sv].
  intros h Hh. destruct (Hs h Hh) as ([_ Hh' _ (m & c & Hmm & Hcv & Hcc & Hok & Hoth)] & (ml & Hml & Hlk) & Hman).
  split_and!.
  - split; [by apply ws_shape_put_sv|done|by rewrite Ec|].
    exists m, c. rewrite Em, vs_get_put_sv. do 4 (split; [done|]).
    intros v c' Hp. rewrite vs_get_put_sv. apply Hoth. unfold vf_present in *. by rewrite <- Ec.
  - exists ml. by rewrite Em.
  - intros Hb. destruct (Hman Hb) as (mm & ? & ?). exists mm. by rewrite Em.
Qed.

Definition put_state (i st : Z) s : switcher hw := s <| sw_hw := put_sv i st (sw_hw s) |>.

Lemma put_state_active i st s :
  0 <= i < 32 -> length (sched_vfs (sw_hw s)) = 32%nat ->
  pf_active (put_state i st s) =
    if i =? AMDGV_PF_IDX then st =? AMDGV_SCHED_ACTIVE else pf_active s.
Proof.
  intros Hi Hl. unfold pf_active, sv_of, put_state, put_sv. cbn.
  destruct (lookup_lt_is_Some_2 (sched_vfs (sw_hw s)) (Z.to_nat i)) as [x Hx]; [lia|]. rewrite Hx. cbn.
  rewrite !list_lookup_fmap. destruct (Z.eqb_spec i AMDGV_PF_IDX) as [->|Hne].
  - rewrite list_lookup_insert_eq by (by eapply lookup_lt_Some). cbn.
    destruct (Z.eqb_spec st AMDGV_SCHED_ACTIVE) as [->|]; [by apply bool_decide_eq_true_2|].
    apply bool_decide_eq_false_2. congruence.
  - rewrite list_lookup_insert_ne; [done|]. unfold AMDGV_PF_IDX in *. lia.
Qed.

Lemma put_state_members vs i st s : members vs s -> members vs (put_state i st s).
Proof.
  destruct (put_sv_same i st (sw_hw s)) as (Ec & _ & _ & _).
  intros [Ml Mn Mr Mp Ms]. split; try done. intros j e He Hj. specialize (Ms j e He Hj).
  unfold invalid_idx in *. cbn. by rewrite Ec.
Qed.

Lemma put_state_context i st s : context_ok s -> context_ok (put_state i st s).
Proof.
  destruct (put_sv_same i st (sw_hw s)) as (Ec & Em & Ew & Ea).
  intros [(w & Hw & Hr & Hi & Hld & Hsv & Hrn) Hn Hg]. split.
  - exists w. unfold SwitchInv.ws_of, run_target, on_engine, on_target in *. cbn.
    rewrite Ew, Ea, Em. split; [done|]. split; [by apply engine_ready_put_sv|done].
  - unfold counts_ok in *. cbn. by rewrite Ec.
  - done.
Qed.

Lemma put_state_slices vs i st s : slices_ok vs s -> slices_ok vs (put_state i st s).
Proof. by intros []. Qed.

Lemma wp_set_state i st (Q : unit -> switcher hw -> Prop) s :
  0 <= i < 32 -> length (sched_vfs (sw_hw s)) = 32%nat ->
  Q tt (put_state i st s) -> wp (set_vf_state i st) Q s.
Proof.
  intros Hi Hl HQ. destruct (lookup_lt_is_Some_2 (sched_vfs (sw_hw s)) (Z.to_nat i)) as [x Hx]; [lia|].
  unfold put_state, put_sv in HQ. rewrite Hx in HQ.
  unfold set_vf_state, on_hw, wp, zoom, vf_info, mbind, M_bind. rewrite Hx. exact HQ.
Qed.

(** ** One entry changes *)

(** [t] is [s] with a new entry [i] and other links. *)
Record set_slot (i : Z) e s t : Prop := {
  ss_slots : slots t = <[Z.to_nat i := e]> (slots s);
  ss_hw : sw_hw t = sw_hw s;
  ss_conf : sw_conf t = sw_conf s;
  ss_logs : run_summation t = run_summation s;
  ss_fair : fairness_mode (sw_manual t) = fairness_mode (sw_manual s);
}.

Lemma set_slot_get i e s t j :
  set_slot i e s t -> length (slots s) = 32%nat -> 0 <= i < 32 -> 0 <= j ->
  slot t j = if decide (j = i) then Some e else slot s j.
Proof.
  intros Hs Hl Hi Hj. unfold slot. rewrite (ss_slots _ _ _ _ Hs). destruct (decide (j = i)) as [->|].
  - apply list_lookup_insert_eq. lia.
  - apply list_lookup_insert_ne. lia.
Qed.

Lemma set_slot_context i e s t : set_slot i e s t -> context_ok s -> context_ok t.
Proof.
  intros [_ Hh Hc Hg _] [(w & Hw) Hn Hl]. split.
  - exists w. unfold SwitchInv.ws_of, vf_valid in *. by rewrite Hh, Hc.
  - unfold counts_ok in *. by rewrite Hh, Hc.
  - unfold logs_ok in *. by rewrite Hg.
Qed.

Lemma set_slot_slices vs vs' i e s t :
  set_slot i e s t -> length (slots s) = 32%nat -> 0 <= i < 32 -> slices_ok vs s ->
  (forall j, j ∈ vs' -> j = i \/ j ∈ vs) -> 0 < time_slice e < 2 ^ 32 ->
  (fairness_mode (sw_manual s) = false -> i ∈ vs' -> dummy_vf e = false) ->
  in_width 64 (beyond_time_cycle e) -> skip_ok e -> slices_ok vs' t.
Proof.
  intros Hs Hl Hi [Sp Sr Sd Sk Sc] Hsub Hts Hdm Hdb Hsk.
  assert (forall j, 0 <= j -> slot t j = if decide (j = i) then Some e else slot s j) as Hget
    by (intros; by apply set_slot_get).
  destruct Hs as [Hsl _ Hc _ Hf]. split.
  - intros j x Hx Hj H0. rewrite Hget in Hx by done. destruct (decide (j = i)) as [->|Hne].
    + by injection Hx as <-.
    + eapply Sp; [exact Hx| |done]. rewrite Hf in Hj. destruct Hj as [Hj|Hj]; [|by right].
      left. by destruct (Hsub j Hj).
  - intros j x Hx Hj H0 Hff. rewrite Hf in Hff. rewrite Hget in Hx by done.
    destruct (decide (j = i)) as [->|Hne].
    + injection Hx as <-. by apply Hdm.
    + destruct (Hsub j Hj) as [?|Hjv]; [done|]. by eapply Sr.
  - rewrite Hsl. by apply Forall_insert.
  - rewrite Hsl. by apply Forall_insert.
  - by rewrite Hc.
Qed.

Lemma members_set vs vs' i e s t :
  members vs s -> set_slot i e s t -> 0 <= i < 32 -> dlist (sw_links t) Head (Vf <$> vs') ->
  (forall j, j <> i -> j ∈ vs' <-> j ∈ vs) -> (i = AMDGV_PF_IDX -> idx_vf e = i) ->
  (i <> AMDGV_PF_IDX -> if decide (i ∈ vs') then idx_vf e = i /\ i < num_vf (sw_conf s)
                        else idx_vf e = invalid_idx s) ->
  members vs' t.
Proof.
  intros [Ml Mn Mr (p & Hp & Hpi) Ms] Hs Hi Hd Hin Hpf Hvf.
  assert (forall j, 0 <= j -> slot t j = if decide (j = i) then Some e else slot s j) as Hget
    by (intros; by apply set_slot_get).
  pose proof Hs as [Hsl Hh Hc _ _]. split.
  - done.
  - by rewrite Hsl, length_insert.
  - rewrite Forall_forall in *. intros j Hj. destruct (decide (j = i)) as [->|Hne]; [done|].
    apply Mr. by apply Hin.
  - rewrite Hget by done. destruct (decide (AMDGV_PF_IDX = i)) as [<-|]; [|by exists p].
    exists e. split; [done|by apply Hpf].
  - intros j x Hx Hj. rewrite Hget in Hx by lia. unfold invalid_idx. rewrite Hh, Hc. fold (invalid_idx s).
    destruct (decide (j = i)) as [->|Hne].
    + injection Hx as <-. apply Hvf. lia.
    + specialize (Ms j x Hx Hj). specialize (Hin j Hne). destruct (decide (j ∈ vs)), (decide (j ∈ vs')); tauto.
Qed.

(** ** What a call of another component does not change *)

Record same_setting s t : Prop := {
  se_conf : sw_conf t = sw_conf s;
  se_config : config (sw_hw t) = config (sw_hw s);
  se_array : array_vf (sw_hw t) = array_vf (sw_hw s);
  se_fair : fairness_mode (sw_manual t) = fairness_mode (sw_manual s);
  se_mode : sched_mode (sw_manual t) = sched_mode (sw_manual s);
  se_fn : amdgv_schedule_vfs (sw_manual t) = amdgv_schedule_vfs (sw_manual s);
}.
#[export] Instance same_setting_preorder : PreOrder same_setting.
Proof. split; [by intros s; split|]. intros s t u [] []. split; congruence. Qed.

Lemma drift_setting s t : drift s t -> same_setting s t.
Proof. by intros []. Qed.
Lemma books_setting s t : books s t -> same_setting s t.
Proof. intros. by apply drift_setting, books_drift. Qed.
Lemma put_state_setting i st s : same_setting s (put_state i st s).
Proof. destruct (put_sv_same i st (sw_hw s)) as (Ec & _ & _ & Ea). by split. Qed.

Lemma wp_save_rlcv w i s (Q : unit -> switcher hw -> Prop) :
  ws_of s = Some w -> (forall t, books s t -> Q tt t) -> wp (save_rlcv ws i) Q s.
Proof.
  intros Hw HQ. unfold save_rlcv. wp_step. eapply (wp_wsw ws w); [done|].
  eapply wp_mono; [apply (wp_for_each (fun t => books s t)); [|done]|].
  - intros h t _ Ht. apply wp_call. intros u Hu _. by etransitivity.
  - intros [] t Ht. by apply HQ.
Qed.

(** The end of both calls: the register state is saved, the thread woken. *)
Lemma wp_announce w i r s (Q : Z -> switcher hw -> Prop) :
  ws_of s = Some w -> (forall t, books s t -> Q r t) ->
  wp (_ ← save_rlcv ws i; _ ← call SignalEvent; mret r) Q s.
Proof.
  intros Hw HQ. wp_step. eapply wp_save_rlcv; [done|]. intros t Ht. wp_step.
  apply wp_call. intros u Hu _. wp_step. apply HQ. by etransitivity.
Qed.
End members.
