(* ===== verification/SwitchChange.v ===== *)
(** * World switch: adding, removing and re-timing a VF

    The calls the events make.  Each is a refinement of an operation on the
    sequence of VFs: a VF is appended, taken out, or changed in place. *)
From S2P Require Import Prelude Oss Api Dlist ListScan Mask Gpuiov WsState WsInv WsManual WsBulk Switch SwitchEngine SwitchInv SwitchRun SwitchPick SwitchLiquid SwitchOps SwitchMembers.
Import Dlist ListScan.
#[local] Open Scope Z_scope.
#[local] Set Warnings "-clear-no-such-hyp".

Section change.
Context {hw : Type} `{HW : WsHw hw} {E : OssEnv}.
Variable ws : Z.
Implicit Types (s t : switcher hw) (e : active_vf_entry) (w : world_switch) (vs : list Z).
Abbreviation ws_of := (SwitchInv.ws_of ws).
Abbreviation context_ok := (SwitchInv.context_ok ws).
Abbreviation ready := (SwitchRun.ready ws).
Abbreviation good := (SwitchOps.good ws).
Abbreviation put_ws := (SwitchInv.put_ws ws).

(** [good] without its last part, while the scheduling state of a VF and the
    list are being brought together. *)
Record sound vs s : Prop := {
  so_members : members vs s;
  so_slices : slices_ok vs s;
  so_context : context_ok s;
}.

Lemma good_sound vs s : good vs s -> sound vs s.
Proof. by intros []. Qed.

Lemma sound_books vs s t : books s t -> sound vs s -> sound vs t.
Proof.
  intros Hb []. split.
  - eapply upkeep_members; [apply Hb|done].
  - eapply upkeep_slices; [apply Hb|done].
  - by eapply books_context.
Qed.

Lemma sound_upkeep vs s t : upkeep s t -> context_ok t -> sound vs s -> sound vs t.
Proof. intros Hu Hc []. split; [by eapply upkeep_members|by eapply upkeep_slices|done]. Qed.

Lemma sound_state vs i st s : sound vs s -> sound vs (put_state i st s).
Proof. intros []. split; [by apply put_state_members|by apply put_state_slices|by apply put_state_context]. Qed.

Lemma sound_active vs s : sound vs s -> (pf_active s = true -> AMDGV_PF_IDX ∈ vs) -> good vs s.
Proof. by intros [] ?. Qed.

Lemma sound_slots vs s : sound vs s -> length (slots s) = 32%nat.
Proof. intros []. by apply (mb_len vs). Qed.

Lemma sound_vfs vs s : sound vs s -> length (sched_vfs (sw_hw s)) = 32%nat.
Proof. intros [_ _ [(w & _ & Hr & _) _ _]]. apply sched_vfs_len, Hr. Qed.

(** Entry [i] changes to [e'] and the list to [vs']. *)
Lemma sound_set vs vs' i e e' s t :
  sound vs s -> set_slot i e' s t -> 0 <= i < 32 -> slot s i = Some e ->
  dlist (sw_links t) Head (Vf <$> vs') -> (forall j, j <> i -> j ∈ vs' <-> j ∈ vs) ->
  (i = AMDGV_PF_IDX -> idx_vf e' = i) ->
  (i <> AMDGV_PF_IDX -> if decide (i ∈ vs') then idx_vf e' = i /\ i < num_vf (sw_conf s)
                        else idx_vf e' = invalid_idx s) ->
  0 < time_slice e' < 2 ^ 32 -> (fairness_mode (sw_manual s) = false -> i ∈ vs' -> dummy_vf e' = false) ->
  beyond_time_cycle e' = beyond_time_cycle e -> skip_cnt e' = skip_cnt e \/ skip_cnt e' = 0 ->
  sound vs' t.
Proof.
  intros [Hm Hsl Hcx] Hs Hi He Hd Hin Hpf Hvf Hts Hdm Hdb Hsk. pose proof (mb_len _ _ Hm) as Hn.
  assert (skip_ok e) as Hke.
  { pose proof (sl_skip _ _ Hsl) as Hk. rewrite Forall_lookup in Hk. by eapply Hk. }
  split.
  - by eapply members_set.
  - eapply set_slot_slices; try done.
    + intros j Hj. destruct (decide (j = i)) as [->|]; [by left|right]. by apply Hin.
    + rewrite Hdb. by eapply slot_debt.
    + unfold skip_ok, MAX_VF_SKIP_CNT in *. destruct Hsk as [->| ->]; lia.
  - by eapply set_slot_context.
Qed.

(** The slices the configuration offers. *)
Lemma conf_slice vs s i :
  slices_ok vs s -> 0 <= i < 32 ->
  exists ts, vf_time_slice (sw_conf s) !! Z.to_nat i = Some ts /\ in_width 32 ts.
Proof.
  intros Hs Hi. destruct (sl_conf _ _ Hs) as [Hl Hf].
  destruct (lookup_lt_is_Some_2 (vf_time_slice (sw_conf s)) (Z.to_nat i)) as [ts Hts]; [lia|].
  exists ts. split; [done|]. rewrite Forall_lookup in Hf. by eapply Hf.
Qed.

Lemma list_of_put_slot i e s : set_slot i e s (put_slot i e s) /\ sw_links (put_slot i e s) = sw_links s.
Proof. by split. Qed.

(** ** Adding *)

(** The sequence after VF [i] was added. *)
Definition with_vf (fair : bool) (i : Z) vs : list Z :=
  if fair && negb (i =? AMDGV_PF_IDX) then vs else vs ++ [i].

Record added (i : Z) vs s vs' t : Prop := {
  ad_good : good vs' t;
  ad_ws : ws_of t = ws_of s;
  ad_setting : same_setting s t;
  ad_list : exists ts, vf_time_slice (sw_conf s) !! Z.to_nat i = Some ts /\
    if ts =? 0 then t = s /\ vs' = vs
    else vs' = with_vf (fairness_mode (sw_manual s)) i vs /\
         exists e, slot t i = Some e /\ time_slice e = ts /\ dummy_vf e = false;
}.

Lemma dlist_append l vs i :
  dlist l Head (Vf <$> vs) -> i ∉ vs ->
  exists l', amdgv_list_add_tail (Vf i) Head (AMDGV_INIT_LIST_HEAD (Vf i) l) = Some l' /\
    dlist l' Head (Vf <$> vs ++ [i]).
Proof.
  intros Hd Hi. assert (Vf i ∉ Head :: (Vf <$> vs)) as Hn.
  { intros [?|(j & [= ->] & ?)%list_elem_of_fmap]%elem_of_cons; done. }
  assert (dlist (AMDGV_INIT_LIST_HEAD (Vf i) l) Head ((Vf <$> vs) ++ [])) as Hd1.
  { rewrite app_nil_r. eapply dlist_frame; [..|exact Hd]; intros x Hx; cbn;
      apply lookup_insert_ne; by intros <-. }
  destruct (dlist_add_tail _ _ _ _ (Vf i) Hd1) as (l' & El & _ & Hl); [by rewrite app_nil_r|].
  exists l'. by rewrite fmap_app.
Qed.

Lemma wp_link_op f l' s (Q : unit -> switcher hw -> Prop) :
  f (sw_links s) = Some l' -> Q tt (relink l' s) -> wp (link_op f) Q s.
Proof.
  intros Hf HQ. unfold link_op, manual, set_manual. wp_step. wp_step. wp_step.
  eapply wp_require; [exact Hf|]. by wp_step.
Qed.

(** The entry and the list, once the state of the VF is set. *)
Lemma wp_enlist w vs i ts s (Q : unit -> switcher hw -> Prop) :
  sound vs s -> ws_of s = Some w -> vf_valid s i -> 0 < ts < 2 ^ 32 ->
  (fairness_mode (sw_manual s) && negb (i =? AMDGV_PF_IDX) = true \/ i ∉ vs) ->
  (forall t e, sound (with_vf (fairness_mode (sw_manual s)) i vs) t -> sw_hw t = sw_hw s ->
     same_setting s t -> slot t i = Some e -> time_slice e = ts -> dummy_vf e = false -> Q tt t) ->
  wp (fair ← manual fairness_mode;
      if fair && negb (i =? AMDGV_PF_IDX) then
         set_entry i (fun e => e <| dummy_vf := false |> <| time_slice := ts |>)
       else
         _ ← link_op (fun l => Some (AMDGV_INIT_LIST_HEAD (Vf i) l));
         _ ← set_entry i (fun e => e <| idx_vf := i |> <| time_slice := ts |>
                                     <| dummy_vf := false |>);
         w ← wsw ws;
         _ ← when ((sched_block w =? AMDGV_SCHED_BLOCK_GFX) && negb (i =? AMDGV_PF_IDX))
               (set_entry i (fun e => e <| skip_cnt := 0 |>));
         link_op (amdgv_list_add_tail (Vf i) Head)) Q s.
Proof.
  intros Hs Hw Hv Hts Hcase HQ.
  pose proof (vf_valid_range _ _ (cx_counts _ _ (so_context _ _ Hs)) Hv) as Hi.
  pose proof (sound_slots _ _ Hs) as Hn. destruct (slot_some s i Hn Hi) as [e He].
  assert (is_Some (slot s i)) as Hsome by eauto. pose proof (mb_list _ _ (so_members _ _ Hs)) as Hd.
  unfold manual. wp_step. wp_step. unfold with_vf in HQ.
  destruct (fairness_mode (sw_manual s) && negb (i =? AMDGV_PF_IDX)) eqn:Ec.
  - eapply wp_set_entry; [exact He|]. set (e' := (e <| dummy_vf := false |>) <| time_slice := ts |>).
    apply andb_true_iff in Ec as [Ef Ei]. apply negb_true_iff, Z.eqb_neq in Ei.
    apply (HQ _ e'); try done; [|by rewrite slot_put by (done || lia); rewrite decide_True].
    eapply (sound_set vs vs i e e' s); try done.
    + intros _. pose proof (mb_slot _ _ (so_members _ _ Hs) i e He) as Hx.
      apply Hx. unfold AMDGV_PF_IDX in *. lia.
    + by left.
  - destruct Hcase as [?|Hni]; [done|]. destruct (dlist_append _ _ _ Hd Hni) as (l' & El & Hl).
    wp_step. eapply wp_link_op; [done|]. set (s1 := relink _ s). wp_step.
    eapply (wp_set_entry i _ e); [exact He|]. set (e1 := ((e <| idx_vf := i |>) <| time_slice := ts |>) <| dummy_vf := false |>).
    wp_step. eapply (wp_wsw ws w); [exact Hw|]. wp_step.
    apply (wp_mono _ (fun _ t => exists e2, t = put_slot i e2 s1 /\ idx_vf e2 = i /\ time_slice e2 = ts /\
      dummy_vf e2 = false /\ beyond_time_cycle e2 = beyond_time_cycle e /\
      (skip_cnt e2 = skip_cnt e \/ skip_cnt e2 = 0))).
    { wp_step; [|by exists e1; split_and!; try done; left].
      eapply (wp_set_entry i _ e1); [by rewrite slot_put by (done || lia); rewrite decide_True|].
      exists (e1 <| skip_cnt := 0 |>). split; [|split_and!; try done; by right].
      unfold put_slot. cbn. by rewrite list_insert_insert_eq. }
    intros [] t (e2 & -> & Ex & Et & Edm & Edb & Esk).
    eapply wp_link_op; [exact El|].
    apply (HQ _ e2); try done; [|by unfold slot, slots, put_slot; cbn; apply list_lookup_insert_eq; unfold slots in Hn; lia].
    eapply (sound_set vs (vs ++ [i]) i e e2 s); try done.
    + intros j Hne. rewrite elem_of_app, list_elem_of_singleton. tauto.
    + intros Hne. rewrite decide_True by (rewrite elem_of_app, list_elem_of_singleton; tauto).
      split; [done|]. unfold vf_valid in Hv. lia.
    + by rewrite Et.
Qed.

Lemma wp_add_vf w vs i s (Q : Z -> switcher hw -> Prop) :
  good vs s -> ws_of s = Some w -> vf_valid s i ->
  (fairness_mode (sw_manual s) && negb (i =? AMDGV_PF_IDX) = true \/ i ∉ vs) ->
  (forall vs' t, added i vs s vs' t -> Q 0 t) ->
  wp (amdgv_sched_manual_switch_add_vf ws i) Q s.
Proof.
  intros Hg Hw Hv Hcase HQ. pose proof (good_sound _ _ Hg) as Hs.
  pose proof (vf_valid_range _ _ (cx_counts _ _ (so_context _ _ Hs)) Hv) as Hi.
  destruct (conf_slice _ _ i (so_slices _ _ Hs) Hi) as (ts & Hts & Hw32).
  unfold amdgv_sched_manual_switch_add_vf, conf. wp_step. wp_step. wp_step. eapply wp_require; [exact Hts|].
  destruct (ts =? 0) eqn:Ez.
  { wp_step. apply (HQ vs s). split; try done. exists ts. by rewrite Ez. }
  apply Z.eqb_neq in Ez.
  destruct (slot_some s i (sound_slots _ _ Hs) Hi) as [e He]. wp_step. eapply wp_slot_entry; [exact He|].
  wp_step. unfold set_to_active_vf. apply wp_set_state; [done|by eapply sound_vfs|].
  set (s1 := put_state i AMDGV_SCHED_ACTIVE s).
  assert (ws_of s1 = Some w) as Hw1.
  { unfold SwitchInv.ws_of, s1, put_state. cbn. destruct (put_sv_same i AMDGV_SCHED_ACTIVE (sw_hw s)) as (_ & _ & -> & _). done. }
  pose proof (put_state_setting i AMDGV_SCHED_ACTIVE s) as Hse1. fold s1 in Hse1.
  apply wp_assoc. wp_step. eapply (wp_enlist w vs i ts s1).
  - by apply sound_state.
  - done.
  - unfold vf_valid in *. by rewrite (se_conf _ _ Hse1).
  - unfold in_width in Hw32. lia.
  - by rewrite (se_fair _ _ Hse1).
  - rewrite (se_fair _ _ Hse1). intros t e' Ht Hh Hse He' Hets Hedm.
    assert (ws_of t = Some w) as Hwt by (unfold SwitchInv.ws_of in *; by rewrite Hh).
    eapply wp_announce; [exact Hwt|]. intros u Hu.
    apply (HQ (with_vf (fairness_mode (sw_manual s)) i vs)). split.
    + apply sound_active; [by eapply sound_books|]. unfold pf_active, sv_of. rewrite (proj2 Hu), Hh.
      fold (sv_of s1 AMDGV_PF_IDX). fold (pf_active s1). unfold s1.
      rewrite put_state_active by (done || by eapply sound_vfs).
      unfold with_vf. destruct (Z.eqb_spec i AMDGV_PF_IDX) as [->|Hne].
      * intros _. rewrite andb_false_r. apply elem_of_app. right. by left.
      * intros Hpf. pose proof (g_active _ _ _ Hg Hpf). destruct (_ && _); [done|]. apply elem_of_app. by left.
    + rewrite (books_ws ws _ _ Hu). congruence.
    + etransitivity; [exact Hse1|]. etransitivity; [exact Hse|by apply books_setting].
    + exists ts. split; [done|]. apply Z.eqb_neq in Ez. rewrite Ez. split; [done|].
      destruct (upkeep_slot_l _ _ _ _ (proj1 Hu) He') as (e2 & He2 & Hsm).
      exists e2. split; [done|]. rewrite (sm_slice _ _ Hsm), (sm_dummy _ _ Hsm). done.
Qed.

(** ** Removing *)

(** The sequence after VF [i] was removed. *)
Definition without_vf (fair : bool) (i : Z) vs : list Z :=
  if fair && negb (i =? AMDGV_PF_IDX) then vs else filter (fun j => j <> i) vs.

(** VF [i] is not on the engine afterwards: it was not, or it was saved, or the
    save failed, its reset was asked for and the world switch stopped. *)
Record off_engine (i : Z) vs w s r w' t : Prop := {
  oe_sound : sound vs t;
  oe_drift : drift s t;
  oe_ws : ws_of t = Some w';
  oe_stable : stable w w';
  oe_run : r = 0 -> switch_running w' = switch_running w;
  oe_code : r = 0 \/ r = AMDGV_FAILURE /\ stopped w' /\ ~ engine_completes (sw_hw s);
  oe_off : curr_vf_state w' = AMDGV_VF_CONTEXT_LOADED -> curr_idx_vf w' <> i;
}.

Lemma wp_leave_engine vs w i s (Q : Z -> switcher hw -> Prop) :
  sound vs s -> ws_of s = Some w ->
  (forall r w' t, off_engine i vs w s r w' t -> Q r t) ->
  wp (if (curr_idx_vf w =? i) && (curr_vf_state w =? AMDGV_VF_CONTEXT_LOADED) then
        r ← amdgv_save_world_context ws;
        if negb (r =? 0) then _ ← queue_reset_vf ws; mret AMDGV_FAILURE else mret 0
      else mret 0) Q s.
Proof.
  intros Hs Hw HQ. destruct (_ && _) eqn:Eb.
  2: { wp_step. apply (HQ 0 w). split; try done; [by left|].
       intros Hld Hi. rewrite Hld, Hi, Z.eqb_refl in Eb. done. }
  apply andb_true_iff in Eb as [<-%Z.eqb_eq Hld%Z.eqb_eq].
  pose proof (so_context _ _ Hs) as [(w0 & Hw0 & Hr & Hi & Hv & _ & _) Hc Hl].
  assert (w0 = w) as -> by congruence.
  wp_step. eapply wp_mono.
  { apply (wp_save ws w); try done; [by eapply sound_slots|by apply Hv]. }
  intros r t [Hu Hcx (w' & Hw' & Hst & Hcu & _ & Hres) Hco].
  pose proof (sound_upkeep _ _ _ Hu Hcx Hs) as Ht.
  destruct Hres as [(-> & Hsv & Hrun)|(-> & Hsd)].
  - change (0 =? 0) with true. cbn [negb]. wp_step. apply (HQ 0 w'). split; try done.
    + by apply upkeep_drift.
    + by left.
    + by rewrite Hsv.
  - change (AMDGV_FAILURE =? 0) with false. cbn [negb]. wp_step.
    eapply wp_queue_reset; [exact Hw'|]. intros t2 Hb2 _. wp_step. apply (HQ AMDGV_FAILURE w').
    pose proof Hsd as [Hab _]. split; try done.
    + by eapply sound_books.
    + etransitivity; [by apply upkeep_drift|by apply books_drift].
    + by rewrite (books_ws ws _ _ Hb2).
    + right. split_and!; [done|done|]. intros Hcmp. by specialize (Hco Hcmp).
    + by rewrite Hab.
Qed.

Lemma without_elem fair i vs j : j <> i -> j ∈ without_vf fair i vs <-> j ∈ vs.
Proof. intros Hne. unfold without_vf. destruct (_ && _); [done|]. rewrite list_elem_of_filter. tauto. Qed.

Lemma dlist_drop l vs i :
  dlist l Head (Vf <$> vs) -> i ∈ vs ->
  exists l', amdgv_list_del (Vf i) l = Some l' /\ dlist l' Head (Vf <$> filter (fun j => j <> i) vs).
Proof.
  intros Hd Hi. assert (NoDup vs) as Hnd.
  { destruct Hd as [_ Hnd]. apply NoDup_cons in Hnd as [_ Hnd]. by apply NoDup_fmap_1 in Hnd. }
  apply list_elem_of_split in Hi as (us & zs & ->). rewrite fmap_app in Hd.
  destruct (dlist_del _ _ _ _ _ Hd) as (l' & El & _ & Hl). exists l'. split; [done|].
  assert (filter (fun j => j <> i) (us ++ i :: zs) = us ++ zs) as ->; [|by rewrite fmap_app].
  rewrite filter_app, filter_cons_False by auto.
  apply NoDup_app in Hnd as (_ & Hdis & [Hn _]%NoDup_cons).
  rewrite !filter_ne_absent; [done|done|]. intros Hj. eapply Hdis; [exact Hj|by left].
Qed.

Lemma wp_suspended i s (Q : bool -> switcher hw -> Prop) :
  length (sched_vfs (sw_hw s)) = 32%nat -> 0 <= i < 32 -> (forall b, Q b s) ->
  wp (on_hw (is_suspend_vf i)) Q s.
Proof.
  intros Hl Hi HQ.
  destruct (lookup_lt_is_Some_2 (sched_vfs (sw_hw s)) (Z.to_nat i)) as [v Hv]; [lia|].
  eapply wp_on_hw_read; [unfold is_suspend_vf, vf_info, mbind, M_bind; rewrite Hv; reflexivity|]. apply HQ.
Qed.

Lemma put_ws_id w s : ws_of s = Some w -> put_ws w s = s.
Proof. intros Hw. unfold SwitchInv.put_ws, SwitchInv.ws_of in *. rewrite list_insert_id by done. by destruct s as [[]]. Qed.

(** The list and the entry, once the engine is free of the VF. *)
Lemma wp_unlist vs w i s (Q : unit -> switcher hw -> Prop) :
  sound vs s -> ws_of s = Some w -> i ∈ vs ->
  (forall w' t, sound (without_vf (fairness_mode (sw_manual s)) i vs) t -> ws_of t = Some w' ->
     same_context w w' -> switch_running w' = switch_running w -> same_setting s t ->
     pf_active t = pf_active s -> Q tt t) ->
  wp (fair ← manual fairness_mode;
      if fair && negb (i =? AMDGV_PF_IDX) then set_entry i (fun e => e <| dummy_vf := true |>)
      else
        _ ← link_op (amdgv_list_del (Vf i));
        susp ← on_hw (is_suspend_vf i);
        _ ← when (negb susp) (set_wsw ws (fun w => w <| vf_inited := mask_clear (vf_inited w) i |>));
        none ← AMDGV_INVALID_IDX_VF;
        when (negb (i =? AMDGV_PF_IDX)) (set_entry i (fun e => e <| idx_vf := none |>))) Q s.
Proof.
  intros Hs Hw Hin HQ. pose proof Hs as [Hm Hsl Hcx].
  destruct (member_entry _ _ _ Hm Hin) as (e & He & Hx & Hv).
  pose proof (member_range _ _ _ Hm Hin) as Hi. pose proof (mb_list _ _ Hm) as Hd.
  assert (is_Some (slot s i)) as Hsome by eauto.
  assert (0 < time_slice e < 2 ^ 32) as Hts by (eapply sl_pos; [exact Hsl|exact He|by left|lia]).
  unfold manual. wp_step. wp_step. unfold without_vf in HQ.
  destruct (fairness_mode (sw_manual s) && negb (i =? AMDGV_PF_IDX)) eqn:Ec.
  { eapply wp_set_entry; [exact He|]. set (e' := e <| dummy_vf := true |>).
    apply andb_true_iff in Ec as [Ef Ei]. apply negb_true_iff, Z.eqb_neq in Ei.
    apply (HQ w); [|exact Hw|by eapply same_context_refl|done|by split|done].
    eapply (sound_set vs vs i e e' s); try done.
    - intros _. rewrite decide_True by done. split; [done|]. unfold vf_valid in Hv. lia.
    - by rewrite Ef.
    - by left. }
  destruct (dlist_drop _ _ _ Hd Hin) as (l' & El & Hl).
  wp_step. eapply wp_link_op; [exact El|]. set (s1 := relink l' s).
  wp_step. apply wp_suspended; [exact (sound_vfs _ _ Hs)|done|]. intros susp.
  wp_step. apply (wp_mono _ (fun _ t => exists w', t = put_ws w' s1 /\ same_context w w' /\
    switch_running w' = switch_running w)).
  { pose proof (same_context_refl _ _ _ Hcx Hw) as Hrefl.
    wp_step; [|by exists w; rewrite put_ws_id].
    eapply wp_set_wsw; [exact Hw|]. eexists. split; [done|]. destruct Hrefl. by split. }
  intros [] t (w' & -> & Hsc & Hrun). wp_step. apply wp_invalid_idx.
  assert (sound vs (put_ws w' s)) as Hs'.
  { eapply sound_upkeep; [apply upkeep_put_ws| |exact Hs]. by eapply context_put. }
  assert (forall j, j <> i -> j ∈ filter (fun j => j <> i) vs <-> j ∈ vs) as Hother
    by (intros j Hj; rewrite list_elem_of_filter; tauto).
  assert (i ∉ filter (fun j => j <> i) vs) as Hout by (rewrite list_elem_of_filter; tauto).
  assert (ws_of (put_ws w' s1) = Some w') as Hw' by by eapply ws_of_put.
  destruct (Z.eqb_spec i AMDGV_PF_IDX) as [->|Hne]; cbn [negb when].
  - wp_step. apply (HQ w'); try done. eapply (sound_set vs _ AMDGV_PF_IDX e e (put_ws w' s)); try done.
    + split; try done. unfold slot in He. symmetry. by apply list_insert_id.
    + by left.
  - eapply wp_set_entry; [exact He|].
    apply (HQ w'); try done. eapply (sound_set vs _ i e _ (put_ws w' s)); try done.
    + intros _. by rewrite decide_False.
    + by left.
Qed.

(** What removing VF [i] does; [None] of the list: [i] is not a member. *)
Record removed (i : Z) vs w s (r : Z) vs' t : Prop := {
  rm_sound : sound vs' t;
  rm_setting : same_setting s t;
  rm_active : pf_active t = pf_active s;
  rm_ws : exists w', ws_of t = Some w' /\ stable w w' /\
    (i ∈ vs -> curr_vf_state w' = AMDGV_VF_CONTEXT_LOADED -> curr_idx_vf w' <> i) /\
    (r = 0 -> switch_running w' = switch_running w);
  rm_list : if bool_decide (i ∈ vs)
            then vs' = without_vf (fairness_mode (sw_manual s)) i vs /\
                 (r = 0 \/ r = AMDGV_FAILURE /\ ~ engine_completes (sw_hw s))
            else vs' = vs /\ r = AMDGV_FAILURE;
}.

Lemma wp_remove_vf vs w i s (Q : Z -> switcher hw -> Prop) :
  sound vs s -> ws_of s = Some w -> 0 <= i < 32 -> (i = AMDGV_PF_IDX -> i ∈ vs) ->
  (forall r vs' t, removed i vs w s r vs' t -> Q r t) ->
  wp (amdgv_sched_manual_switch_remove_vf ws i) Q s.
Proof.
  intros Hs Hw Hi Hpf HQ. pose proof Hs as [Hm Hsl Hcx].
  unfold amdgv_sched_manual_switch_remove_vf.
  destruct (slot_some s i (sound_slots _ _ Hs) Hi) as [e He].
  wp_step. eapply wp_slot_entry; [exact He|]. wp_step. apply wp_invalid.
  destruct (decide (i ∈ vs)) as [Hin|Hni].
  2: { assert (i <> AMDGV_PF_IDX) as Hne by tauto.
    pose proof (mb_slot _ _ Hm i e He) as Hx. rewrite decide_False in Hx by done.
    rewrite Hx by (unfold AMDGV_PF_IDX in *; lia). rewrite invalid_is_invalid by apply Hcx.
    eapply wp_announce; [exact Hw|]. intros t Ht. apply (HQ _ vs). split.
    - by eapply sound_books.
    - by apply books_setting.
    - apply upkeep_active, Ht.
    - exists w. rewrite (books_ws ws _ _ Ht). by split_and!.
    - by rewrite bool_decide_eq_false_2. }
  destruct (member_entry _ _ _ Hm Hin) as (e' & He' & Hx & Hv).
  assert (e' = e) as -> by congruence. rewrite Hx.
  assert (idx_invalid s i = false) as ->.
  { unfold idx_invalid. destruct Hv as [Hv| ->]; [|done]. apply andb_false_iff. right. apply Z.leb_gt. lia. }
  wp_step. eapply (wp_wsw ws w); [exact Hw|]. wp_step. eapply (wp_leave_engine vs); [done|done|].
  intros r w1 t1 [Os Od Ow Ost Orun Ocode Ooff].
  assert (fairness_mode (sw_manual t1) = fairness_mode (sw_manual s)) as Hf by apply (dr_fair _ _ Od).
  apply wp_assoc. wp_step. eapply (wp_unlist vs w1); [done|done|done|].
  intros w2 t2 Us Uw Usc Urun Use Uact. rewrite Hf in Us.
  eapply wp_announce; [exact Uw|]. intros t Ht. apply (HQ r (without_vf (fairness_mode (sw_manual s)) i vs)). split.
  - by eapply sound_books.
  - etransitivity; [by apply drift_setting|]. etransitivity; [exact Use|by apply books_setting].
  - rewrite (upkeep_active _ _ (proj1 Ht)), Uact. by apply drift_active.
  - exists w2. rewrite (books_ws ws _ _ Ht). destruct Usc as [Sst Si Ss _]. split_and!; [done|by etransitivity| |].
    + intros _. rewrite Si, Ss. done.
    + intros Hr. rewrite Urun. auto.
  - rewrite bool_decide_eq_true_2 by done. split; [done|]. destruct Ocode as [?|(? & _ & ?)]; [by left|by right].
Qed.

(** Removal as the events do it: the VF is then given another scheduling
    state, which for the PF is not the active one. *)
Lemma wp_retire vs w i st s (Q : Z -> switcher hw -> Prop) :
  good vs s -> ws_of s = Some w -> 0 <= i < 32 -> (i = AMDGV_PF_IDX -> i ∈ vs /\ st <> AMDGV_SCHED_ACTIVE) ->
  (forall r vs' t, removed i vs w s r vs' t -> good vs' (put_state i st t) -> Q r (put_state i st t)) ->
  wp (r ← amdgv_sched_manual_switch_remove_vf ws i; _ ← set_vf_state i st; mret r) Q s.
Proof.
  intros Hg Hw Hi Hpf HQ. wp_step. eapply (wp_remove_vf vs w); [by apply good_sound|done|done|by intros Hp; apply Hpf|].
  intros r vs' t Hrm. pose proof (rm_sound _ _ _ _ _ _ _ Hrm) as Ht.
  wp_step. apply wp_set_state; [done|by eapply sound_vfs|]. wp_step. eapply HQ; [exact Hrm|].
  apply sound_active; [by apply sound_state|]. rewrite put_state_active by (done || by eapply sound_vfs).
  destruct (Z.eqb_spec i AMDGV_PF_IDX) as [->|Hne].
  - intros Hst%Z.eqb_eq. by destruct Hpf.
  - rewrite (rm_active _ _ _ _ _ _ _ Hrm). intros Hact. pose proof (g_active _ _ _ Hg Hact).
    pose proof (rm_list _ _ _ _ _ _ _ Hrm) as Hl. destruct (bool_decide _); destruct Hl as [-> _]; [|done].
    apply without_elem; [by intros <-|done].
Qed.
End change.

(** ** World switch: accounts, time slices and exclusive access

    The calls that touch no list: the timer interrupt, a new time slice, the
    clearing of an account, and the switch to a given VF that the events make
    with the switch thread stopped. *)

Section access.
Context {hw : Type} `{HW : WsHw hw} {E : OssEnv}.
Variable ws : Z.
Implicit Types (s t : switcher hw) (e : active_vf_entry) (w : world_switch) (vs : list Z).
Abbreviation ws_of := (SwitchInv.ws_of ws).
Abbreviation context_ok := (SwitchInv.context_ok ws).
Abbreviation ready := (SwitchRun.ready ws).
Abbreviation good := (SwitchOps.good ws).
Abbreviation put_ws := (SwitchInv.put_ws ws).

(** ** Books only *)

Lemma wp_touch i f s (Q : unit -> switcher hw -> Prop) :
  length (slots s) = 32%nat -> 0 <= i < 32 -> (forall e, same_member e (f e)) ->
  (forall t, books s t -> sw_calls t = sw_calls s -> Q tt t) -> wp (set_entry i f) Q s.
Proof.
  intros Hn Hi Hf HQ. destruct (slot_some s i Hn Hi) as [e He].
  eapply wp_set_entry; [exact He|]. apply HQ; [|done]. by eapply books_slot.
Qed.

Lemma wp_timer_isr w s (Q : Z -> switcher hw -> Prop) :
  ws_of s = Some w ->
  (forall t, books s t -> head (sw_calls t) = Some SignalEvent -> Q 0 t) ->
  wp (amdgv_sched_manual_switch_timer_isr ws) Q s.
Proof.
  intros Hw HQ. unfold amdgv_sched_manual_switch_timer_isr, manual, set_manual. wp_step. wp_step.
  wp_step. eapply (wp_wsw ws w); [done|]. wp_step. apply (wp_mono _ (fun _ t => books s t)).
  - wp_step; [|done]. wp_step. split; [|done]. by split.
  - intros [] t Ht. wp_step. apply wp_call. intros u Hu ->. wp_step. apply HQ; [by etransitivity|done].
Qed.

Lemma wp_clear_time_slice w i s (Q : Z -> switcher hw -> Prop) :
  ws_of s = Some w -> length (slots s) = 32%nat -> 0 <= i < 32 -> (forall t, books s t -> Q 0 t) ->
  wp (amdgv_sched_manual_switch_clear_time_slice ws i) Q s.
Proof.
  intros Hw Hn Hi HQ. unfold amdgv_sched_manual_switch_clear_time_slice. wp_step.
  eapply (wp_wsw ws w); [done|]. wp_step. apply (wp_mono _ (fun _ t => books s t)).
  - wp_step; [|done]. apply wp_touch; [done|done| |by intros]. intros e. split; try done.
  - intros [] t Ht. wp_step. by apply HQ.
Qed.

Lemma wp_toggle_skip i b s (Q : Z -> switcher hw -> Prop) :
  length (slots s) = 32%nat -> 0 <= i < 32 -> (forall t, books s t -> Q 0 t) ->
  wp (amdgv_sched_world_switch_toggle_skip_next_punish i b) Q s.
Proof.
  intros Hn Hi HQ. unfold amdgv_sched_world_switch_toggle_skip_next_punish, manual. wp_step. wp_step.
  wp_step. apply (wp_mono _ (fun _ t => books s t)).
  - wp_step; [|done]. apply wp_touch; [done|done| |by intros]. intros e. by split.
  - intros [] t Ht. wp_step. by apply HQ.
Qed.

(** ** A new time slice *)

(** The slice of the configuration becomes that of a member (or of the PF); a
    zero would be taken as it is. *)
Lemma wp_update_slice vs i ts s (Q : Z -> switcher hw -> Prop) :
  good vs s -> 0 <= i < 32 -> vf_time_slice (sw_conf s) !! Z.to_nat i = Some ts -> ts <> 0 ->
  (forall t, good vs t -> ws_of t = ws_of s -> same_setting s t ->
     (exists e, slot t i = Some e /\ (i ∈ vs -> time_slice e = ts)) -> Q 0 t) ->
  wp (amdgv_sched_manual_switch_update_time_slice i) Q s.
Proof.
  intros Hg Hi Hts Hz HQ. pose proof (good_sound _ _ _ Hg) as Hs. pose proof Hs as [Hm Hsl Hcx].
  assert (in_width 32 ts) as Hw32.
  { destruct (conf_slice _ _ i Hsl Hi) as (ts' & Hts' & ?). by replace ts with ts' by congruence. }
  destruct (slot_some s i (mb_len _ _ Hm) Hi) as [e He].
  unfold amdgv_sched_manual_switch_update_time_slice, conf. wp_step. eapply wp_slot_entry; [exact He|].
  wp_step. wp_step. wp_step. eapply wp_require; [exact Hts|]. wp_step. apply wp_invalid.
  destruct (idx_invalid s (idx_vf e)) eqn:Einv; cbn [negb when].
  - wp_step. wp_step. apply HQ; try done. exists e. split; [done|]. intros Hin.
    destruct (member_entry _ _ _ Hm Hin) as (e' & He' & Hx & Hv). assert (e' = e) as -> by congruence.
    rewrite Hx in Einv. exfalso. unfold idx_invalid, vf_valid in *. zb. lia.
  - wp_step. eapply wp_set_entry; [exact He|]. wp_step. set (e' := e <| time_slice := ts |>).
    apply HQ; [|done|by split|].
    + apply sound_active; [|exact (g_active _ _ _ Hg)].
      apply (sound_set ws vs vs i e e' s); try done.
      * exact (mb_list _ _ Hm).
      * intros ->. destruct (mb_pf _ _ Hm) as (p & Hp & Hpi). change (idx_vf e = AMDGV_PF_IDX). congruence.
      * intros Hne. apply (mb_slot _ _ Hm i e He). unfold AMDGV_PF_IDX in *. lia.
      * unfold in_width in Hw32. cbn. lia.
      * intros Hf Hin. change (dummy_vf e = false). eapply (sl_real _ _ Hsl); [exact He|done|lia|done].
      * by left.
    + exists e'. split; [|done]. rewrite slot_put by (eauto || lia). by rewrite decide_True.
Qed.

(** ** Exclusive access *)

(** The engine runs VF [i] and nobody else, or the world switch is abnormal. *)
Record exclusive (i : Z) w s (r : Z) t : Prop := {
  ex_drift : drift s t;
  ex_ws : exists w', ws_of t = Some w' /\ stable w w' /\
    (r = 0 /\ curr_vf_state w' = AMDGV_VF_CONTEXT_LOADED /\ curr_idx_vf w' = i \/
     r = AMDGV_FAILURE /\ curr_vf_state w' = AMDGV_VF_CONTEXT_ABNORMAL) /\
    switch_running w' = false;
  ex_ok : engine_completes (sw_hw s) -> curr_vf_state w <> AMDGV_VF_CONTEXT_ABNORMAL -> r = 0;
}.

Lemma exclusive_of vs i vi w s s1 w1 r t :
  good vs s1 -> drift s s1 -> stable w w1 -> switch_running w1 = false ->
  context_post ws i AMDGV_VF_CONTEXT_LOADED vi w1 s1 r t -> good vs t /\ exclusive i w s r t.
Proof.
  intros Hg Hd Hst Hrun Hp. split; [by eapply good_context|].
  destruct Hp as [Hu _ (w' & Hw' & Hst' & Hcu & _ & Hres) Hco]. split.
  - etransitivity; [exact Hd|by apply upkeep_drift].
  - exists w'. split; [done|]. split; [by etransitivity|].
    destruct Hres as [(-> & Hl & Hr)|(-> & Ha & Hr)]; split; try congruence; tauto.
  - intros Hc _. apply Hco. by apply (drift_completes _ _ Hd).
Qed.

Lemma wp_enter vs i w s (Q : Z -> switcher hw -> Prop) :
  good vs s -> ws_of s = Some w -> vf_valid s i -> switch_running w = false ->
  (forall r t vi, context_post ws i AMDGV_VF_CONTEXT_LOADED vi w s r t -> Q r t) ->
  wp (w ← wsw ws; if Z.testbit (vf_inited w) i then amdgv_load_world_context ws i
                  else amdgv_init_world_context ws i) Q s.
Proof.
  intros Hg Hw Hv Hrun HQ. destruct (good_ready _ _ _ _ Hg Hw) as (Hr & Hc & Hl & _).
  pose proof (mb_len _ _ (g_members _ _ _ Hg)) as Hn.
  wp_step. eapply (wp_wsw ws w); [done|]. destruct (Z.testbit _ _).
  - eapply wp_mono; [by apply (wp_load ws w)|]. intros r t Hp. by eapply HQ.
  - eapply wp_mono; [by apply (wp_init_context ws w)|]. intros r t Hp. by eapply HQ.
Qed.

Lemma wp_switch_world vs i w s (Q : Z -> switcher hw -> Prop) :
  good vs s -> ws_of s = Some w -> vf_valid s i -> switch_running w = false ->
  (forall r t, good vs t -> exclusive i w s r t -> Q r t) ->
  wp (amdgv_switch_world_context ws i) Q s.
Proof.
  intros Hg Hw Hv Hrun HQ. destruct (good_ready _ _ _ _ Hg Hw) as (Hr & Hc & Hl & _ & Hvc & _).
  pose proof (mb_len _ _ (g_members _ _ _ Hg)) as Hn.
  unfold amdgv_switch_world_context. wp_step. eapply (wp_wsw ws w); [done|].
  destruct (Z.eqb_spec (curr_vf_state w) AMDGV_VF_CONTEXT_ABNORMAL) as [Ha|Hna].
  { wp_step. apply HQ; [done|]. split; [done| |done]. exists w. split_and!; try done. by right. }
  cbv zeta. destruct (Z.eqb_spec (curr_vf_state w) AMDGV_VF_CONTEXT_LOADED) as [Hld|Hnl]; cbn [andb].
  2: { wp_step. wp_step. change (0 =? 0) with true. cbn [negb]. eapply (wp_enter vs); try done.
       intros r t vi Hp. destruct (exclusive_of vs i vi w s s w r t) as [? ?]; try done. by apply HQ. }
  destruct (Z.eqb_spec (curr_idx_vf w) i) as [Hi|Hi].
  { wp_step. apply HQ; [done|]. split; [done| |done]. exists w. split_and!; try done. by left. }
  wp_step. eapply wp_mono; [apply (wp_save ws w); try done; by apply Hvc|].
  intros r t Hp. pose proof (good_context _ _ _ _ _ _ _ _ _ Hg Hp) as Ht.
  destruct Hp as [Hu _ (w1 & Hw1 & Hst & _ & _ & Hres) Hco].
  destruct Hres as [(-> & _ & Hr1)|(-> & Hab & Hr1)].
  - change (0 =? 0) with true. cbn [negb]. eapply (wp_enter vs); [done|exact Hw1| |congruence|].
    + by eapply upkeep_valid.
    + intros r t2 vi Hp2. destruct (exclusive_of vs i vi w s t w1 r t2) as [? ?]; try done.
      * by apply upkeep_drift.
      * congruence.
      * by apply HQ.
  - change (AMDGV_FAILURE =? 0) with false. cbn [negb]. wp_step. apply HQ; [done|]. split.
    + by apply upkeep_drift.
    + exists w1. split_and!; try done. by right.
    + intros Hcmp. by specialize (Hco Hcmp).
Qed.
End access.
