(* ===== verification/SwitchInit.v ===== *)
(** * World switch: initialisation and a new number of VFs

    [amdgv_sched_manual_switch_init] establishes the invariant, with an empty
    list or, in fairness mode, the enabled VFs as dummies; when a lock, timer,
    event or thread cannot be had, what was created is given back.
    [amdgv_sched_manual_switch_set_vf_num] rebuilds the list. *)
From S2P Require Import Prelude Oss Api Mask Gpuiov WsState WsInv WsManual WsBulk Dlist ListScan Switch SwitchEngine SwitchInv SwitchRun SwitchPick SwitchLiquid SwitchOps SwitchMembers SwitchChange.
Import Dlist ListScan.
#[local] Open Scope Z_scope.
#[local] Set Warnings "-clear-no-such-hyp".

(** The VFs of the first [num] that the world switch may run. *)
Definition enabled (allowed num : Z) : list Z :=
  filter (fun i => Z.testbit allowed i = true) (Z.of_nat <$> seq 0 (Z.to_nat num)).

Section init.
Context {hw : Type} `{HW : WsHw hw} {E : OssEnv}.
Variable ws : Z.
Implicit Types (s t : switcher hw) (e : active_vf_entry) (w : world_switch) (vs : list Z).
Abbreviation ws_of := (SwitchInv.ws_of ws).
Abbreviation context_ok := (SwitchInv.context_ok ws).
Abbreviation good := (SwitchOps.good ws).
Abbreviation sound := (SwitchChange.sound ws).

(** The list under construction, for [n] VFs; nothing is said of the PF. *)
Record listed (n : Z) vs s : Prop := {
  li_list : dlist (sw_links s) Head (Vf <$> vs);
  li_len : length (slots s) = 32%nat;
  li_range : Forall (fun i => 0 <= i < 32) vs;
  li_slot : forall i e, slot s i = Some e -> 0 <= i < AMDGV_PF_IDX ->
    if decide (i ∈ vs) then idx_vf e = i /\ i < n /\ 0 < time_slice e < 2 ^ 32
    else idx_vf e = invalid_idx s;
  li_debt : Forall (fun e => in_width 64 (beyond_time_cycle e) /\ skip_ok e) (slots s);
  li_conf : length (vf_time_slice (sw_conf s)) = 32%nat /\
            Forall (in_width 32) (vf_time_slice (sw_conf s));
}.

(** What the construction leaves alone. *)
Record setup s t : Prop := {
  su_hw : sw_hw t = sw_hw s;
  su_conf : sw_conf t = sw_conf s;
  su_logs : run_summation t = run_summation s;
  su_fair : fairness_mode (sw_manual t) = fairness_mode (sw_manual s);
  su_mode : sched_mode (sw_manual t) = sched_mode (sw_manual s);
  su_fn : amdgv_schedule_vfs (sw_manual t) = amdgv_schedule_vfs (sw_manual s);
  su_allowed : allowed_vf_assignment (sw_manual t) = allowed_vf_assignment (sw_manual s);
  su_heap : os_heap (sw_oss t) = os_heap (sw_oss s) /\ os_locks (sw_oss t) = os_locks (sw_oss s);
}.
#[export] Instance setup_preorder : PreOrder setup.
Proof.
  split; [by intros s; split|].
  intros s t u [????????] [????????]. split; try congruence. intuition congruence.
Qed.

Lemma listed_sound num vs s :
  listed num vs s -> num_vf (sw_conf s) = num -> context_ok s ->
  (exists e, slot s AMDGV_PF_IDX = Some e /\ idx_vf e = AMDGV_PF_IDX /\
     (fairness_mode (sw_manual s) = true -> 0 < time_slice e < 2 ^ 32)) ->
  (AMDGV_PF_IDX ∈ vs -> fairness_mode (sw_manual s) = true) ->
  (fairness_mode (sw_manual s) = false -> vs = []) -> sound vs s.
Proof.
  intros [Ll Ln Lr Ls Ld Lc] Hn Hcx (p & Hp & Hpi & Hpt) Hpf Hreal.
  rewrite Forall_forall in Lr. split; [|split|done]; try done.
  - split; try done; [by apply Forall_forall|by exists p|]. intros i e He Hi. specialize (Ls i e He Hi).
    rewrite Hn. destruct (decide (i ∈ vs)); tauto.
  - intros i e He Hi H0. destruct (decide (i = AMDGV_PF_IDX)) as [->|Hne].
    + replace e with p by congruence. apply Hpt. by destruct Hi as [?%Hpf|[? _]].
    + destruct Hi as [Hi|[_ ?]]; [|done]. specialize (Lr i Hi). specialize (Ls i e He).
      unfold AMDGV_PF_IDX in *. rewrite decide_True in Ls by done. apply Ls. lia.
  - intros i e _ Hi _ Hf. rewrite (Hreal Hf) in Hi. by apply not_elem_of_nil in Hi.
  - eapply Forall_impl; [exact Ld|]. by intros ? [].
  - eapply Forall_impl; [exact Ld|]. by intros ? [].
Qed.

Lemma wp_default_slice n (Q : Z -> switcher hw -> Prop) s :
  ws_shape (sw_hw s) -> (forall r, 0 < r < 2 ^ 32 -> Q r s) ->
  wp (amdgv_sched_default_gfx_time_slice n) Q s.
Proof.
  intros Hs HQ. unfold amdgv_sched_default_gfx_time_slice. destruct (n =? 1); [wp_step; by apply HQ|].
  unfold GET_GFX_TIME_SLICE, conf. wp_step. wp_step.
  destruct (has_asic_time_slice _); [|wp_step; by apply HQ].
  unfold amdgv_sched_get_asic_time_slice. cbn [Z.eqb AMDGV_SCHED_BLOCK_GFX].
  unfold amdgv_sched_get_asic_time_slice_gfx. wp_step. apply wp_pf_active; [done|].
  destruct (_ || _); [wp_step; by apply HQ|]. destruct (n =? 1); [|wp_step; by apply HQ].
  wp_step. apply wp_flag. wp_step. apply HQ. by destruct (negb _).
Qed.

Lemma wp_clock (Q : Z -> switcher hw -> Prop) s :
  (forall c o, os_heap o = os_heap (sw_oss s) -> os_locks o = os_locks (sw_oss s) ->
     Q c (s <| sw_oss := o |>)) -> wp now Q s.
Proof. intros HQ. unfold now, on_oss. wp_step. apply wp_time. by apply HQ. Qed.

(** [setup_entry]: a fresh entry, linked to nothing. *)
Record entry_setup (i : Z) (dummy : bool) s t : Prop := {
  es_setup : setup s t;
  es_links : sw_links t = AMDGV_INIT_LIST_HEAD (Vf i) (sw_links s);
  es_entry : exists e e', slot s i = Some e /\ slots t = <[Z.to_nat i := e']> (slots s) /\
    idx_vf e' = i /\ 0 < time_slice e' < 2 ^ 32 /\ dummy_vf e' = dummy /\
    beyond_time_cycle e' = 0 /\ skip_cnt e' = skip_cnt e;
}.

Lemma wp_setup_entry i dummy s (Q : unit -> switcher hw -> Prop) :
  ws_shape (sw_hw s) -> length (slots s) = 32%nat -> 0 <= i < 32 ->
  (forall t, entry_setup i dummy s t -> Q tt t) -> wp (setup_entry i dummy) Q s.
Proof.
  intros Hsh Hn Hi HQ. destruct (slot_some s i Hn Hi) as [e He].
  unfold setup_entry. wp_step. eapply wp_link_op; [done|]. wp_step. apply wp_vf_per_gfx.
  wp_step. apply wp_default_slice; [done|]. intros ts Hts. wp_step. apply wp_clock. intros c o Ho1 Ho2.
  eapply wp_set_entry; [exact He|]. apply HQ. split; [by split|done|].
  eexists e, _. split_and!; try done; cbn; lia.
Qed.

Lemma dlist_init_frame i l vs :
  dlist l Head (Vf <$> vs) -> i ∉ vs -> dlist (AMDGV_INIT_LIST_HEAD (Vf i) l) Head (Vf <$> vs).
Proof.
  intros Hd Hi. assert (Vf i ∉ Head :: (Vf <$> vs)) as Hn.
  { intros [?|(j & [= ->] & ?)%list_elem_of_fmap]%elem_of_cons; done. }
  eapply dlist_frame; [..|exact Hd]; intros x Hx; cbn; apply lookup_insert_ne; by intros <-.
Qed.

(** One enabled VF joins the list. *)
Lemma wp_enable_one n vs i s (Q : unit -> switcher hw -> Prop) :
  ws_shape (sw_hw s) -> listed n vs s -> 0 <= i < AMDGV_PF_IDX -> i < n -> i ∉ vs ->
  (forall t, listed n (vs ++ [i]) t -> setup s t -> slot t AMDGV_PF_IDX = slot s AMDGV_PF_IDX ->
     Q tt t) ->
  wp (_ ← setup_entry i true; link_op (amdgv_list_add_tail (Vf i) Head)) Q s.
Proof.
  intros Hsh [Ll Ln Lr Ls Ld Lc] Hi Hin Hni HQ. assert (0 <= i < 32) as Hi32 by (unfold AMDGV_PF_IDX in *; lia).
  wp_step. apply wp_setup_entry; [done|done|done|].
  intros t [Hsu Hlk (e & e' & He & Hsl & Hx & Hts & _ & Hdb & Hsk)].
  destruct (dlist_append _ _ _ Ll Hni) as (l' & El & Hl).
  eapply wp_link_op; [rewrite Hlk; exact El|].
  assert (forall j, 0 <= j -> slot (relink l' t) j = if decide (j = i) then Some e' else slot s j) as Hget.
  { intros j Hj. unfold slot. change (slots (relink l' t)) with (slots t). rewrite Hsl.
    destruct (decide (j = i)) as [->|]; [apply list_lookup_insert_eq; lia|apply list_lookup_insert_ne; lia]. }
  apply HQ; [|by destruct Hsu|rewrite Hget by done; rewrite decide_False; [done|unfold AMDGV_PF_IDX in *; lia]].
  split.
  - done.
  - change (slots (relink l' t)) with (slots t). by rewrite Hsl, length_insert.
  - apply Forall_app. split; [done|]. by apply Forall_singleton.
  - intros j x Hjx Hj. rewrite Hget in Hjx by lia. unfold invalid_idx. cbn. rewrite (su_hw _ _ Hsu).
    fold (invalid_idx s). destruct (decide (j = i)) as [->|Hne].
    + injection Hjx as <-. rewrite decide_True by (rewrite elem_of_app, list_elem_of_singleton; tauto). done.
    + specialize (Ls j x Hjx Hj). destruct (decide (j ∈ vs)), (decide (j ∈ vs ++ [i])) as [H|H]; try done;
        rewrite elem_of_app, list_elem_of_singleton in H; tauto.
  - change (slots (relink l' t)) with (slots t). rewrite Hsl. apply Forall_insert; [done|].
    rewrite Hdb. unfold skip_ok. rewrite Hsk. rewrite Forall_lookup in Ld.
    split; [unfold in_width; lia|]. by eapply Ld.
  - cbn. by rewrite (su_conf _ _ Hsu).
Qed.

(** The loop over all of them. *)
Lemma wp_add_enabled n num vs s :
  ws_shape (sw_hw s) -> listed n vs s -> num <= n -> num <= AMDGV_PF_IDX ->
  (forall i, i ∈ vs -> i = AMDGV_PF_IDX) ->
  wp (add_enabled num)
     (fun _ t => listed n (vs ++ enabled (allowed_vf_assignment (sw_manual s)) num) t /\ setup s t /\
        slot t AMDGV_PF_IDX = slot s AMDGV_PF_IDX) s.
Proof.
  intros Hsh Hl Hnum Hpf Hvs. set (al := allowed_vf_assignment (sw_manual s)).
  unfold add_enabled, enabled. set (ids := Z.of_nat <$> seq 0 (Z.to_nat num)).
  assert (NoDup ids) as Hnd by (apply NoDup_fmap; [apply _|apply NoDup_seq]).
  assert (forall i, i ∈ ids -> 0 <= i < num) as Hids.
  { intros i (k & -> & Hk%elem_of_seq)%list_elem_of_fmap. lia. }
  eapply wp_mono; [apply (wp_for_each_pre (fun pre t =>
    listed n (vs ++ filter (fun i => Z.testbit al i = true) pre) t /\ setup s t /\
    slot t AMDGV_PF_IDX = slot s AMDGV_PF_IDX))|done].
  2: { rewrite filter_nil, app_nil_r. by split_and!. }
  intros pre i post t Eids (Ht & Hsu & Hslot).
  assert (i ∈ ids) as Hi by (rewrite Eids; apply elem_of_app; right; by left).
  specialize (Hids i Hi). rewrite Eids in Hnd. apply NoDup_app in Hnd as (_ & Hdis & _).
  unfold manual. wp_step. wp_step. rewrite (su_allowed _ _ Hsu). fold al.
  rewrite filter_app. destruct (Z.testbit al i) eqn:Eb; cbn [when].
  - rewrite filter_cons_True, filter_nil, app_assoc by done.
    eapply (wp_enable_one n); [by rewrite (su_hw _ _ Hsu)|exact Ht|lia|lia| |].
    + rewrite elem_of_app, list_elem_of_filter. intros [?%Hvs|[_ Hp]]; [unfold AMDGV_PF_IDX in *; lia|].
      eapply Hdis; [exact Hp|by left].
    + intros u Hu Hsu' Hs'. split_and!; [done|by etransitivity|congruence].
  - wp_step. rewrite filter_cons_False, filter_nil, app_nil_r by congruence. by split_and!.
Qed.

(** ** Initialisation *)

Definition set_fair (b : bool) s : switcher hw :=
  s <| sw_manual := (sw_manual s) <| fairness_mode := b |> |>.

Lemma setup_fair b s t : setup s t -> setup (set_fair b s) (set_fair b t).
Proof. by intros []. Qed.

Lemma setup_context s t : setup s t -> context_ok s -> context_ok t.
Proof.
  intros Hsu [(w & Hw) Hn Hl]. split.
  - exists w. unfold SwitchInv.ws_of, vf_valid in *. by rewrite (su_hw _ _ Hsu), (su_conf _ _ Hsu).
  - unfold counts_ok in *. by rewrite (su_hw _ _ Hsu), (su_conf _ _ Hsu).
  - unfold logs_ok in *. by rewrite (su_logs _ _ Hsu).
Qed.

(** The memory of the manual switch as it is handed to [init]. *)
Record blank s : Prop := {
  bl_context : context_ok s;
  bl_len : length (slots s) = 32%nat;
  bl_debt : Forall (fun e => in_width 64 (beyond_time_cycle e) /\ skip_ok e) (slots s);
  bl_conf : length (vf_time_slice (sw_conf s)) = 32%nat /\
            Forall (in_width 32) (vf_time_slice (sw_conf s));
  bl_pf : pf_active s = false;
}.

Lemma wp_forget_all s (Q : unit -> switcher hw -> Prop) :
  length (slots s) = 32%nat -> Forall (fun e => in_width 64 (beyond_time_cycle e) /\ skip_ok e) (slots s) ->
  (forall t, setup s t -> sw_links t = sw_links s -> length (slots t) = 32%nat ->
     Forall (fun e => in_width 64 (beyond_time_cycle e) /\ skip_ok e) (slots t) ->
     (forall i e, slot t i = Some e -> 0 <= i < 32 -> idx_vf e = invalid_idx s) -> Q tt t) ->
  wp (for_each sw_slots (fun i => set_entry i (fun e => e <| idx_vf := invalid_idx s |>))) Q s.
Proof.
  intros Hn Hd HQ. eapply wp_mono; [apply (wp_for_each_pre (fun pre t =>
    setup s t /\ sw_links t = sw_links s /\ length (slots t) = 32%nat /\
    Forall (fun e => in_width 64 (beyond_time_cycle e) /\ skip_ok e) (slots t) /\
    (forall i e, slot t i = Some e -> 0 <= i -> i ∈ pre -> idx_vf e = invalid_idx s)))|].
  - intros pre i post t Eids (Hsu & Hlk & Hnt & Hdt & Hx).
    assert (i ∈ sw_slots) as (k & -> & Hk%elem_of_seq)%list_elem_of_fmap
      by (rewrite Eids; apply elem_of_app; right; by left).
    destruct (slot_some t (Z.of_nat k) Hnt) as [e He]; [lia|].
    eapply wp_set_entry; [exact He|]. split; [by destruct Hsu|]. split; [done|].
    split; [by unfold slots, put_slot; cbn; rewrite length_insert|]. split.
    + unfold slots, put_slot. cbn. apply Forall_insert; [done|]. rewrite Forall_lookup in Hdt. exact (Hdt _ _ He).
    + intros j x Hj H0 Hin. rewrite slot_put in Hj by (eauto || lia).
      destruct (decide (j = Z.of_nat k)) as [->|Hne]; [by injection Hj as <-|].
      apply (Hx j x Hj H0). by apply elem_of_app in Hin as [?| ->%list_elem_of_singleton].
  - split_and!; try done. by intros i e _ _ ?%not_elem_of_nil.
  - intros [] t (? & ? & ? & ? & Hx). apply HQ; try done. intros i e He Hi. apply (Hx i e He); [lia|].
    apply list_elem_of_fmap. exists (Z.to_nat i). split; [lia|]. apply elem_of_seq. lia.
Qed.

(** The sequence of VFs after initialisation. *)
Definition initial_list (mode : Z) s : list Z :=
  if mode =? AMDGV_SCHED_FAIRNESS then enabled (allowed_vf_assignment (sw_manual s)) (num_vf (sw_conf s)) else [].

(** The PF's entry comes last, outside the list. *)
Lemma sound_with_pf vs e s t :
  context_ok t -> listed (num_vf (sw_conf s)) vs s -> AMDGV_PF_IDX ∉ vs ->
  dlist (sw_links t) Head (Vf <$> vs) -> slots t = <[Z.to_nat AMDGV_PF_IDX := e]> (slots s) ->
  sw_hw t = sw_hw s -> sw_conf t = sw_conf s -> idx_vf e = AMDGV_PF_IDX ->
  in_width 64 (beyond_time_cycle e) -> skip_ok e ->
  (fairness_mode (sw_manual t) = true -> 0 < time_slice e < 2 ^ 32) ->
  (fairness_mode (sw_manual t) = false -> vs = []) -> sound vs t.
Proof.
  intros Hcx [Ll Ln Lr Ls Ld Lc] Hno Hd Hsl Hh Hc Hx Hdb Hsk Hts Hreal.
  assert (slot t AMDGV_PF_IDX = Some e) as Hpf.
  { unfold slot. rewrite Hsl. apply list_lookup_insert_eq. rewrite Ln. unfold AMDGV_PF_IDX. lia. }
  eapply (listed_sound (num_vf (sw_conf s))); try done.
  - split; [done|by rewrite Hsl, length_insert|done| |by rewrite Hsl; apply Forall_insert|by rewrite Hc].
    intros j x Hj Hr. unfold slot in Hj. rewrite Hsl, list_lookup_insert_ne in Hj
      by (unfold AMDGV_PF_IDX in *; lia).
    unfold invalid_idx. rewrite Hh. by apply Ls.
  - by rewrite Hc.
  - by exists e.
Qed.

Lemma enabled_not_pf al num : num <= AMDGV_PF_IDX -> AMDGV_PF_IDX ∉ enabled al num.
Proof.
  intros Hn [_ (k & Hk & Hk'%elem_of_seq)%list_elem_of_fmap]%list_elem_of_filter. lia.
Qed.

Lemma slot_facts n vs s i e : listed n vs s -> slot s i = Some e ->
  in_width 64 (beyond_time_cycle e) /\ skip_ok e.
Proof. intros Hl He. pose proof (li_debt _ _ _ Hl) as Hd. rewrite Forall_lookup in Hd. exact (Hd _ _ He). Qed.

(** The list of fairness mode. *)
Lemma wp_init_fair s (Q : unit -> switcher hw -> Prop) :
  context_ok s -> listed (num_vf (sw_conf s)) [] s -> fairness_mode (sw_manual s) = true ->
  (forall t, sound (enabled (allowed_vf_assignment (sw_manual s)) (num_vf (sw_conf s))) t ->
     setup s t -> Q tt t) ->
  wp (n ← conf num_vf; _ ← add_enabled n; setup_entry AMDGV_PF_IDX false) Q s.
Proof.
  intros Hcx Hli Hf HQ.
  assert (ws_shape (sw_hw s)) as Hsh by (destruct Hcx as [(? & _ & Hr & _) _ _]; apply Hr).
  assert (num_vf (sw_conf s) <= AMDGV_PF_IDX) as Hle by (destruct Hcx as [_ [] _]; lia).
  unfold conf. wp_step. wp_step. wp_step.
  eapply wp_mono; [apply (wp_add_enabled (num_vf (sw_conf s)) _ []); try done|].
  { by intros i ?%not_elem_of_nil. }
  cbn [app]. intros [] t2 (Hl2 & Hs2 & _). pose proof (enabled_not_pf (allowed_vf_assignment (sw_manual s)) _ Hle) as Hno.
  apply wp_setup_entry; [by rewrite (su_hw _ _ Hs2)|apply Hl2|done|].
  intros t [Hsu Hlk (e & e' & He & Hsl & Hx & Hts & _ & Hdb & Hsk)].
  assert (setup s t) as Hst by by etransitivity. apply HQ; [|exact Hst].
  destruct (slot_facts _ _ _ _ _ Hl2 He) as [_ Hke]. rewrite <- (su_conf _ _ Hs2) in Hl2 at 1.
  eapply sound_with_pf; [by eapply setup_context|exact Hl2|done| |exact Hsl| |
    apply (su_conf _ _ Hsu)|done| | |done|].
  - rewrite Hlk. apply dlist_init_frame; [apply Hl2|done].
  - apply (su_hw _ _ Hsu).
  - rewrite Hdb. unfold in_width. lia.
  - unfold skip_ok. by rewrite Hsk.
  - rewrite (su_fair _ _ Hst). congruence.
Qed.

(** The list of the other modes. *)
Lemma wp_init_plain s (Q : unit -> switcher hw -> Prop) :
  context_ok s -> listed (num_vf (sw_conf s)) [] s -> fairness_mode (sw_manual s) = false ->
  (forall t, sound [] t -> setup s t -> Q tt t) ->
  wp (_ ← link_op (fun l => Some (AMDGV_INIT_LIST_HEAD (Vf AMDGV_PF_IDX) l));
      set_entry AMDGV_PF_IDX (fun e => e <| idx_vf := AMDGV_PF_IDX |>)) Q s.
Proof.
  intros Hcx Hli Hf HQ. destruct (slot_some s AMDGV_PF_IDX (li_len _ _ _ Hli)) as [p Hp]; [done|].
  destruct (slot_facts _ _ _ _ _ Hli Hp) as [Hdp Hkp].
  wp_step. eapply wp_link_op; [done|]. eapply wp_set_entry; [exact Hp|].
  assert (AMDGV_PF_IDX ∉ []) as Hno by apply not_elem_of_nil.
  apply HQ; [|done]. eapply sound_with_pf; [|exact Hli|done| |done|done|done|done|done|done| |done].
  - eapply setup_context; [|exact Hcx]. done.
  - apply dlist_init_frame; [apply Hli|done].
  - cbn. congruence.
Qed.

Lemma wp_init_lists mode s (Q : unit -> switcher hw -> Prop) :
  blank s ->
  (forall t, sound (initial_list mode s) t -> setup (set_fair (mode =? AMDGV_SCHED_FAIRNESS) s) t -> Q tt t) ->
  wp (init_lists mode) Q s.
Proof.
  intros [Hcx Hn Hd Hc _] HQ. unfold init_lists. wp_step. eapply wp_link_op; [done|].
  wp_step. apply wp_invalid_idx. wp_step. apply wp_forget_all; [done|done|].
  intros t1 Hs1 Hl1 Hn1 Hd1 Hx1. change (invalid_idx (relink _ s)) with (invalid_idx s) in Hx1.
  set (b := mode =? AMDGV_SCHED_FAIRNESS) in *. set (t := set_fair b t1).
  assert (setup (set_fair b s) t) as Hsb.
  { apply setup_fair. etransitivity; [|exact Hs1]. by split. }
  assert (listed (num_vf (sw_conf t)) [] t) as Hli.
  { split; try done; [change (sw_links t) with (sw_links t1); rewrite Hl1; apply init_dlist|
      |by rewrite (su_conf _ _ Hsb)].
    intros i e He Hi. rewrite decide_False by apply not_elem_of_nil. unfold invalid_idx.
    rewrite (su_hw _ _ Hsb). apply (Hx1 i e He). unfold AMDGV_PF_IDX in *. lia. }
  assert (context_ok t) as Hcx1 by (eapply setup_context; [exact Hsb|by destruct Hcx]).
  assert (initial_list mode s = if b then enabled (allowed_vf_assignment (sw_manual t)) (num_vf (sw_conf t)) else []) as Ei.
  { rewrite (su_allowed _ _ Hsb), (su_conf _ _ Hsb). done. }
  rewrite Ei in HQ. clearbody b. destruct b; cbn [negb]; unfold set_manual; wp_step; wp_step.
  - apply wp_init_fair; [done|done|done|]. intros u Hu Hsu. apply HQ; [done|by etransitivity].
  - apply wp_init_plain; [done|done|done|]. intros u Hu Hsu. apply HQ; [done|by etransitivity].
Qed.

(** Objects of the kernel: heap and locks, as changes. *)
Definition resources s : Z * Z := (os_heap (sw_oss s), os_locks (sw_oss s)).

Lemma blank_same s t :
  sw_hw t = sw_hw s -> slots t = slots s -> sw_conf t = sw_conf s -> run_summation t = run_summation s ->
  blank s -> blank t.
Proof.
  intros Hh Hs Hc Hr [[(w & Hw) Hn Hl] Bl Bd Bc Bp]. split.
  - split.
    + exists w. unfold SwitchInv.ws_of, vf_valid in *. by rewrite Hh, Hc.
    + unfold counts_ok in *. by rewrite Hh, Hc.
    + unfold logs_ok in *. by rewrite Hr.
  - by rewrite Hs.
  - by rewrite Hs.
  - by rewrite Hc.
  - unfold pf_active, sv_of in *. by rewrite Hh.
Qed.

Lemma sound_same vs s t :
  sw_hw t = sw_hw s -> slots t = slots s -> sw_links t = sw_links s -> sw_conf t = sw_conf s ->
  run_summation t = run_summation s -> fairness_mode (sw_manual t) = fairness_mode (sw_manual s) ->
  sound vs s -> sound vs t.
Proof.
  intros Hh Hs Hl Hc Hr Hf [[Ml Mn Mr Mp Ms] [Sp Sr Sd Sk Sc] [(w & Hw) Hn Hg]].
  unfold slot, SwitchInv.ws_of, vf_valid, counts_ok, logs_ok, invalid_idx in *.
  split; split; unfold slot, SwitchInv.ws_of, vf_valid, counts_ok, logs_ok, invalid_idx;
    rewrite ?Hh, ?Hs, ?Hl, ?Hc, ?Hr, ?Hf; try done. by exists w.
Qed.

Lemma wp_set_manual f s (Q : unit -> switcher hw -> Prop) :
  Q tt (s <| sw_manual := f (sw_manual s) |>) -> wp (set_manual f) Q s.
Proof. done. Qed.

Lemma wp_create_object s (Q : bool -> switcher hw -> Prop) :
  (forall (b : bool) o, os_heap o = os_heap (sw_oss s) + (if b then 1 else 0) -> os_locks o = os_locks (sw_oss s) ->
     Q b (s <| sw_oss := o |>)) -> wp create Q s.
Proof.
  intros HQ. unfold create, on_oss, zoom, oss_alloc, wp. cbn.
  destruct (oss_alloc_ok (os_allocs (sw_oss s))); apply HQ; cbn; lia.
Qed.

Lemma wp_destroy s (Q : unit -> switcher hw -> Prop) :
  (forall o, os_heap o = os_heap (sw_oss s) - 1 -> os_locks o = os_locks (sw_oss s) ->
     Q tt (s <| sw_oss := o |>)) -> wp destroy Q s.
Proof. intros HQ. by apply HQ. Qed.

Lemma wp_unlock s (Q : unit -> switcher hw -> Prop) :
  (forall o, os_heap o = os_heap (sw_oss s) -> os_locks o = os_locks (sw_oss s) - 1 ->
     Q tt (s <| sw_oss := o |>)) -> wp (on_oss oss_lock_fini) Q s.
Proof. intros HQ. by apply HQ. Qed.

Lemma wp_mutex s (Q : bool -> switcher hw -> Prop) :
  (forall (b : bool) o, os_heap o = os_heap (sw_oss s) -> os_locks o = os_locks (sw_oss s) + (if b then 1 else 0) ->
     Q b (s <| sw_oss := o |>)) -> wp (on_oss oss_lock_init) Q s.
Proof.
  intros HQ. unfold on_oss, zoom, oss_lock_init, wp. cbn.
  destruct (oss_lock_ok (os_lock_inits (sw_oss s))); apply HQ; cbn; lia.
Qed.

(** What the events find after [init]. *)
Record initialised (mode : Z) w s t : Prop := {
  in_good : good (initial_list mode s) t;
  in_fair : fairness_mode (sw_manual t) = (mode =? AMDGV_SCHED_FAIRNESS);
  in_mode : sched_mode (sw_manual t) = sched_mode (sw_manual s);
  in_fn : amdgv_schedule_vfs (sw_manual t) =
    if sched_mode (sw_manual s) =? AMDGV_SCHED_HYBRID_LIQUID_MODE
    then amdgv_schedule_vfs_liquid_ptr else amdgv_schedule_vfs_default_ptr;
  in_conf : sw_conf t = sw_conf s /\ config (sw_hw t) = config (sw_hw s);
  in_ws : exists w', ws_of t = Some w' /\ same_context w w' /\ vf_inited w' = 0;
}.

(** The fields [init] sets once the lists are there. *)
Lemma wp_init_state mode w s (Q : unit -> switcher hw -> Prop) :
  blank s -> ws_of s = Some w ->
  (forall t, initialised mode w s t -> resources t = resources s -> Q tt t) ->
  wp (_ ← (_ ← init_lists mode; set_wsw ws (fun w => w <| vf_inited := 0 |> <| vf_busy_status := 0 |>));
      set_manual (fun m => m <| vf_timeout := 0 |> <| hliquid_min_ts := 0 |>
                             <| self_switch_trigger := false |>
         <| amdgv_schedule_vfs := if sched_mode m =? AMDGV_SCHED_HYBRID_LIQUID_MODE
                                  then amdgv_schedule_vfs_liquid_ptr
                                  else amdgv_schedule_vfs_default_ptr |>)) Q s.
Proof.
  intros Hb Hw HQ. wp_step. wp_step. apply wp_init_lists; [done|]. intros t4 Hs4 Hsu.
  pose proof (same_context_refl ws _ _ (bl_context _ Hb) Hw) as [_ _ _ Hrun].
  assert (ws_of t4 = Some w) as Hw4 by (unfold SwitchInv.ws_of; rewrite (su_hw _ _ Hsu); exact Hw).
  eapply wp_set_wsw; [exact Hw4|]. set (w5 := (w <| vf_inited := 0 |>) <| vf_busy_status := 0 |>).
  assert (same_context w w5) as Hsc5 by by split.
  apply wp_set_manual. match goal with |- Q tt ?u => set (t := u) end. apply HQ.
  2: { destruct (su_heap _ _ Hsu) as [Hh Hl]. unfold resources. cbn in *. congruence. }
  split.
  - apply sound_active.
    + apply (sound_same _ (SwitchInv.put_ws ws w5 t4)); try done.
      eapply sound_upkeep; [apply upkeep_put_ws| |exact Hs4]. eapply context_put; [apply Hs4|done|done].
    + assert (pf_active t = pf_active s) as ->; [|by rewrite (bl_pf _ Hb)]. unfold pf_active, sv_of.
      change (sched_vfs (sw_hw t)) with (sched_vfs (sw_hw t4)). by rewrite (su_hw _ _ Hsu).
  - exact (su_fair _ _ Hsu).
  - exact (su_mode _ _ Hsu).
  - change (amdgv_schedule_vfs (sw_manual t)) with
      (if sched_mode (sw_manual t4) =? AMDGV_SCHED_HYBRID_LIQUID_MODE
       then amdgv_schedule_vfs_liquid_ptr else amdgv_schedule_vfs_default_ptr).
    by rewrite (su_mode _ _ Hsu).
  - split; [exact (su_conf _ _ Hsu)|]. change (config (sw_hw t)) with (config (sw_hw t4)).
    by rewrite (su_hw _ _ Hsu).
  - exists w5. split; [by eapply ws_of_put|done].
Qed.

Lemma initialised_same mode w0 w s0 s t u :
  initialised mode w0 s0 t -> same_context w w0 -> initial_list mode s0 = initial_list mode s ->
  sched_mode (sw_manual s0) = sched_mode (sw_manual s) -> sw_conf s0 = sw_conf s ->
  config (sw_hw s0) = config (sw_hw s) -> u = t <| sw_oss := sw_oss u |> -> initialised mode w s u.
Proof.
  intros [Ig If Im In Ic (w' & Hw' & Hsc & Hv)] Hw Hl Hm Hc Hcf ->. rewrite Hl, Hm, Hc, Hcf in *. split; try done.
  - eapply good_books; [|exact Ig]. by apply books_same.
  - exists w'. split; [done|]. split; [|done]. destruct Hw as [? ? Hst ?], Hsc. split; try congruence.
    + by etransitivity.
    + rewrite <- Hst. auto.
Qed.

(** The failing exit from label [timer_failed] on. *)
Lemma wp_timer_failed s (Q : Z -> switcher hw -> Prop) :
  (forall t, resources t = (os_heap (sw_oss s), os_locks (sw_oss s) - 1) ->
     has_lock (sw_manual t) = false -> Q AMDGV_FAILURE t) ->
  wp (_ ← on_oss oss_lock_fini; _ ← set_manual (fun m => m <| has_lock := false |>); mret AMDGV_FAILURE) Q s.
Proof.
  intros HQ. wp_step. apply wp_unlock. intros o Hh Hl. wp_step. apply wp_set_manual. wp_step.
  apply HQ; [|done]. unfold resources. cbn. congruence.
Qed.

Lemma wp_switch_init mode w s :
  blank s -> ws_of s = Some w ->
  wp (amdgv_sched_manual_switch_init ws mode)
     (fun r t => r = 0 /\ initialised mode w s t /\
                   resources t = (os_heap (sw_oss s) + 3, os_locks (sw_oss s) + 1) \/
                 r = AMDGV_FAILURE /\ resources t = resources s /\ has_lock (sw_manual t) = false) s.
Proof.
  intros Hb Hw. unfold amdgv_sched_manual_switch_init.
  pose proof (same_context_refl ws _ _ (bl_context _ Hb) Hw) as [_ _ _ Hrun].
  wp_step. eapply wp_set_wsw; [done|]. set (w0 := w <| use_active_status := false |>).
  assert (same_context w w0) as Hsc0 by by split.
  assert (blank (SwitchInv.put_ws ws w0 s)) as Hb0.
  { destruct Hb as [Bc ? ? ? ?]. split; try done. by eapply context_put. }
  assert (ws_of (SwitchInv.put_ws ws w0 s) = Some w0) as Hw0 by by eapply ws_of_put.
  wp_step. apply wp_mutex. intros lock o1 Hh1 Hl1. wp_step. apply wp_set_manual.
  destruct lock; cbn [negb].
  2: { wp_step. right. unfold resources. cbn in *. rewrite Hh1, Hl1, Z.add_0_r. done. }
  wp_step. apply wp_create_object. intros timer o2 Hh2 Hl2. cbn in Hh2, Hl2.
  destruct timer; cbn [negb].
  2: { apply wp_timer_failed. intros t Ht Hlk. right. split_and!; [done| |done].
       unfold resources in *. rewrite Ht. cbn in *. f_equal; lia. }
  wp_step. apply wp_create_object. intros event o3 Hh3 Hl3. cbn in Hh3, Hl3.
  destruct event; cbn [negb].
  2: { wp_step. apply wp_destroy. intros o4 Hh4 Hl4. apply wp_timer_failed. intros t Ht Hlk. right.
       split_and!; [done| |done]. unfold resources in *. rewrite Ht. cbn in *. f_equal; lia. }
  match goal with |- wp _ _ ?u => set (s3 := u) end.
  assert (blank s3) as Hb3 by by apply (blank_same (SwitchInv.put_ws ws w0 s)).
  apply wp_assoc. apply wp_assoc. wp_step. apply (wp_mono _ (fun _ t => initialised mode w0 s3 t /\ resources t = resources s3)).
  { by apply (wp_init_state mode w0). }
  intros [] t [Hi Hres]. injection Hres as Hh4 Hl4. cbn in Hh4, Hl4.
  wp_step. apply wp_create_object. intros thread o6 Hh6 Hl6. destruct thread; cbn [negb].
  2: { wp_step. apply wp_destroy. intros o7 Hh7 Hl7. wp_step. apply wp_destroy. intros o8 Hh8 Hl8.
       apply wp_timer_failed. intros u Hu Hlk. right. split_and!; [done| |done].
       unfold resources in *. rewrite Hu. cbn in *. f_equal; lia. }
  wp_step. left. split; [done|]. split; [by apply (initialised_same mode w0 w s3 s t)|].
  unfold resources. cbn in *. f_equal; lia.
Qed.

(** ** A new number of VFs *)

(** "adapt->num_vf = num_vf", by the caller of [set_vf_num]. *)
Definition renumber (num : Z) s : switcher hw := s <| sw_conf := (sw_conf s) <| num_vf := num |> |>.

(** Taking one VF out of the list under reconstruction. *)
Lemma wp_drop_one vs i s (Q : unit -> switcher hw -> Prop) :
  sound vs s -> 0 <= i < AMDGV_PF_IDX ->
  (forall t, sound (filter (fun j => j <> i) vs) t -> setup s t -> Q tt t) ->
  wp (e ← entry i; inv ← AMDGV_IS_IDX_INVALID (idx_vf e);
      when (negb inv) (
        _ ← link_op (amdgv_list_del (Vf i));
        set_entry i (fun e => e <| idx_vf := invalid_idx s |>))) Q s.
Proof.
  intros Hs Hi HQ. pose proof Hs as [Hm Hsl Hcx]. assert (0 <= i < 32) as Hi32 by (unfold AMDGV_PF_IDX in *; lia).
  assert (i <> AMDGV_PF_IDX) as Hne by lia.
  destruct (slot_some s i (mb_len _ _ Hm) Hi32) as [e He]. pose proof (mb_slot _ _ Hm i e He Hi) as Hx.
  wp_step. eapply wp_slot_entry; [exact He|]. wp_step. apply wp_invalid. destruct (decide (i ∈ vs)) as [Hin|Hni].
  - destruct Hx as [Hx Hv]. rewrite Hx. assert (idx_invalid s i = false) as ->.
    { unfold idx_invalid. apply andb_false_iff. right. apply Z.leb_gt. lia. }
    cbn [negb when]. destruct (dlist_drop _ _ _ (mb_list _ _ Hm) Hin) as (l' & El & Hl).
    wp_step. eapply wp_link_op; [exact El|]. eapply wp_set_entry; [exact He|].
    assert (i ∉ filter (fun j => j <> i) vs) as Hout by (rewrite list_elem_of_filter; tauto).
    apply HQ; [|done]. eapply (sound_set ws vs _ i e _ s); try done.
    + intros j Hj. rewrite list_elem_of_filter. tauto.
    + intros _. by rewrite decide_False.
    + eapply (sl_pos _ _ Hsl i e He); [by left|lia].
    + by left.
  - rewrite Hx, invalid_is_invalid by apply Hcx. cbn [negb when]. wp_step. apply HQ; [|done].
    by rewrite filter_ne_absent.
Qed.

Lemma filter_filter_ne (pre : list Z) i vs :
  filter (fun j => j <> i) (filter (fun j => j ∉ pre) vs) = filter (fun j => j ∉ pre ++ [i]) vs.
Proof.
  rewrite list_filter_filter. apply list_filter_iff. intros j.
  rewrite elem_of_app, list_elem_of_singleton. tauto.
Qed.

(** The members are the PF and slots of VFs. *)
Lemma filter_slots mx vs :
  Forall (fun i => 0 <= i < 32) vs -> (forall i, i ∈ vs -> i < mx \/ i = AMDGV_PF_IDX) -> mx <= AMDGV_PF_IDX ->
  filter (fun j => j ∉ Z.of_nat <$> seq 0 (Z.to_nat mx)) vs = filter (fun j => j = AMDGV_PF_IDX) vs.
Proof.
  rewrite Forall_forall. intros Hr Hv Hmx. induction vs as [|x vs IH]; [done|].
  assert (x ∈ x :: vs) as Hx by by left. specialize (Hr x Hx) as Hr'.
  assert (x ∈ Z.of_nat <$> seq 0 (Z.to_nat mx) <-> x < mx) as Hiff.
  { rewrite list_elem_of_fmap. split; [intros (k & -> & Hk%elem_of_seq); lia|].
    intros. exists (Z.to_nat x). split; [|apply elem_of_seq]; lia. }
  rewrite !filter_cons, IH by (intros; (apply Hr || apply Hv); by right).
  specialize (Hv x Hx). destruct (decide (x < mx)) as [Hlt|Hge].
  - rewrite decide_False by tauto. rewrite decide_False; [done|lia].
  - rewrite decide_True by tauto. rewrite decide_True; [done|lia].
Qed.

Lemma filter_not_nil vs : filter (fun j => j ∉ []) vs = vs.
Proof.
  induction vs as [|x vs IH]; [done|]. rewrite filter_cons_True by apply not_elem_of_nil. by rewrite IH.
Qed.

Lemma wp_drop_all num vs s :
  sound vs s -> num <= AMDGV_PF_IDX ->
  wp (for_each (Z.of_nat <$> seq 0 (Z.to_nat num)) (fun i =>
        e ← entry i; inv ← AMDGV_IS_IDX_INVALID (idx_vf e);
        when (negb inv) (
          _ ← link_op (amdgv_list_del (Vf i));
          set_entry i (fun e => e <| idx_vf := invalid_idx s |>))))
     (fun _ t => sound (filter (fun j => j ∉ Z.of_nat <$> seq 0 (Z.to_nat num)) vs) t /\ setup s t) s.
Proof.
  intros Hs Hn. set (ids := Z.of_nat <$> seq 0 (Z.to_nat num)).
  eapply wp_mono; [apply (wp_for_each_pre (fun pre t => sound (filter (fun j => j ∉ pre) vs) t /\ setup s t))|done].
  2: { split; [|done]. by rewrite filter_not_nil. }
  intros pre i post t Eids [Ht Hsu].
  assert (i ∈ ids) as (k & -> & Hk%elem_of_seq)%list_elem_of_fmap
    by (rewrite Eids; apply elem_of_app; right; by left).
  assert (invalid_idx s = invalid_idx t) as -> by (unfold invalid_idx; by rewrite (su_hw _ _ Hsu)).
  apply (wp_drop_one _ _ _ _ Ht); [lia|]. intros u Hu Hsu'. split; [by rewrite <- filter_filter_ne|by etransitivity].
Qed.

(** The sequence of VFs for the new number: a PF that takes part stays. *)
Definition renumbered (num : Z) vs s : list Z :=
  if fairness_mode (sw_manual s)
  then filter (fun j => j = AMDGV_PF_IDX) vs ++ enabled (allowed_vf_assignment (sw_manual s)) num else vs.

(** The new number fits, and no VF that it leaves out is on the engine; but in
    fairness mode, all VFs have been removed. *)
Record may_renumber (num : Z) vs w s : Prop := {
  mr_num : 0 <= num <= max_num_vf (config (sw_hw s));
  mr_loaded : curr_vf_state w = AMDGV_VF_CONTEXT_LOADED -> curr_idx_vf w < num \/ curr_idx_vf w = AMDGV_PF_IDX;
  mr_empty : fairness_mode (sw_manual s) = false -> forall i, i ∈ vs -> i = AMDGV_PF_IDX;
}.

Lemma renumber_context num vs w s :
  context_ok s -> ws_of s = Some w -> may_renumber num vs w s -> context_ok (renumber num s).
Proof.
  intros [(w0 & Hw0 & Hr & Hi & Hld & Hrest) [Hn1 Hn2] Hl] Hw [Hnum Hlo _].
  assert (w0 = w) as -> by congruence. split; [|by split|done].
  exists w. split; [done|]. split; [done|]. split; [done|]. split; [|done].
  intros Hst. destruct (Hld Hst) as [_ Hon]. split; [|done]. destruct (Hlo Hst); [left|by right]. cbn. lia.
Qed.

Lemma sound_listed num vs s :
  sound vs s -> (forall i, i ∈ vs -> i = AMDGV_PF_IDX) -> listed num vs s.
Proof.
  intros [[Ml Mn Mr Mp Ms] [Sp Sr Sd Sk Sc] _] Hvs. split; try done.
  - intros i e He Hi. specialize (Ms i e He Hi). destruct (decide (i ∈ vs)) as [Hin|]; [|done].
    specialize (Hvs i Hin). lia.
  - apply Forall_forall. rewrite Forall_forall in Sd, Sk. intros e He. split; [by apply Sd|by apply Sk].
Qed.

(** Outside fairness mode nothing but the number changes. *)
Lemma sound_renumber num vs w s :
  sound vs s -> ws_of s = Some w -> may_renumber num vs w s -> fairness_mode (sw_manual s) = false ->
  sound vs (renumber num s).
Proof.
  intros Hs Hw Hmr Hf. pose proof Hs as [[Ml Mn Mr Mp Ms] [Sp Sr Sd Sk Sc] Hcx].
  split; [split|split|by eapply renumber_context]; try done.
  intros i e He Hi. specialize (Ms i e He Hi). destruct (decide (i ∈ vs)) as [Hin|]; [|done].
  pose proof (mr_empty _ _ _ _ Hmr Hf i Hin). lia.
Qed.

(** In fairness mode the list is rebuilt. *)
Lemma wp_rebuild num vs w s (Q : unit -> switcher hw -> Prop) :
  sound vs s -> ws_of s = Some w -> may_renumber num vs w s -> fairness_mode (sw_manual s) = true ->
  (forall t, sound (renumbered num vs s) (renumber num t) -> setup s t -> Q tt t) ->
  wp (max ← on_hw (gets (fun a => max_num_vf (config a)));
      none ← AMDGV_INVALID_IDX_VF;
      _ ← for_each (Z.of_nat <$> seq 0 (Z.to_nat max)) (fun i =>
        e ← entry i;
        inv ← AMDGV_IS_IDX_INVALID (idx_vf e);
        when (negb inv) (
          _ ← link_op (amdgv_list_del (Vf i));
          set_entry i (fun e => e <| idx_vf := none |>)));
      add_enabled num) Q s.
Proof.
  intros Hs Hw Hmr Hf HQ. pose proof (so_context _ _ _ Hs) as Hcx. pose proof Hcx as [_ [Hn1 Hn2] _].
  pose proof (mr_num _ _ _ _ Hmr) as Hnum. set (mx := max_num_vf (config (sw_hw s))) in *.
  wp_step. apply (wp_on_hw_read _ mx); [done|]. wp_step. apply wp_invalid_idx.
  wp_step. eapply wp_mono; [apply (wp_drop_all mx vs); [done|lia]|].
  assert (filter (fun j => j ∉ Z.of_nat <$> seq 0 (Z.to_nat mx)) vs = filter (fun j => j = AMDGV_PF_IDX) vs) as ->.
  { apply filter_slots; [apply (mb_range _ _ (so_members _ _ _ Hs))| |lia]. intros i Hi.
    destruct (member_entry _ _ _ (so_members _ _ _ Hs) Hi) as (_ & _ & _ & [?|?]); [left|by right]. lia. }
  intros [] t1 [Hs1 Hsu1]. set (ws1 := filter _ vs) in *.
  assert (forall i, i ∈ ws1 -> i = AMDGV_PF_IDX) as Hpf by (intros i [? _]%list_elem_of_filter; done).
  eapply wp_mono; [apply (wp_add_enabled num num ws1)|].
  - rewrite (su_hw _ _ Hsu1). destruct Hcx as [(? & _ & Hr & _) _ _]. apply Hr.
  - by apply sound_listed.
  - done.
  - lia.
  - done.
  - rewrite (su_allowed _ _ Hsu1). intros [] t2 (Hl2 & Hsu2 & Hp2).
    assert (setup s t2) as Hst by by etransitivity. apply HQ; [|done].
    unfold renumbered. rewrite Hf. fold ws1.
    destruct (mb_pf _ _ (so_members _ _ _ Hs1)) as (p & Hp & Hpx).
    eapply (listed_sound num); [by destruct Hl2|done| |exists p; split_and!|..].
    + eapply renumber_context; [by eapply setup_context|unfold SwitchInv.ws_of; rewrite (su_hw _ _ Hst); exact Hw|].
      destruct Hmr. split; [by rewrite (su_hw _ _ Hst)|done|by rewrite (su_fair _ _ Hst)].
    + change (slot t2 AMDGV_PF_IDX = Some p). by rewrite Hp2.
    + done.
    + intros _. eapply (sl_pos _ _ (so_slices _ _ _ Hs1) AMDGV_PF_IDX p Hp); [right|done].
      by rewrite (su_fair _ _ Hsu1).
    + intros _. cbn. by rewrite (su_fair _ _ Hst).
    + cbn. rewrite (su_fair _ _ Hst). congruence.
Qed.

Lemma wp_set_vf_num num vs w s (Q : Z -> switcher hw -> Prop) :
  good vs s -> ws_of s = Some w -> may_renumber num vs w s ->
  (forall t, good (renumbered num vs s) (renumber num t) -> setup s t -> Q 0 (renumber num t)) ->
  wp (r ← amdgv_sched_manual_switch_set_vf_num num; _ ← modify (renumber num); mret r) Q s.
Proof.
  intros Hg Hw Hmr HQ. pose proof (good_sound _ _ _ Hg) as Hs.
  assert (forall t, setup s t -> sound (renumbered num vs s) (renumber num t) -> good (renumbered num vs s) (renumber num t)) as Hgood.
  { intros t Hsu Ht. apply sound_active; [done|].
    assert (pf_active (renumber num t) = pf_active s) as -> by (unfold pf_active, sv_of; cbn; by rewrite (su_hw _ _ Hsu)).
    intros Hpf%(g_active _ _ _ Hg). unfold renumbered. destruct (fairness_mode _); [|done].
    apply elem_of_app. left. by apply list_elem_of_filter. }
  unfold amdgv_sched_manual_switch_set_vf_num, manual. wp_step. wp_step. wp_step.
  destruct (fairness_mode (sw_manual s)) eqn:Hf; cbn [when].
  - wp_step. eapply (wp_rebuild num vs w); [done|done|done|done|]. intros t Ht Hsu.
    wp_step. wp_step. wp_step. wp_step. apply HQ; [by apply Hgood|done].
  - wp_step. wp_step. wp_step. wp_step. wp_step. wp_step. apply HQ; [apply Hgood; [done|]|done].
    unfold renumbered. rewrite Hf. by eapply sound_renumber.
Qed.
End init.
