(* ===== verification/SwitchHistory.v ===== *)
(** * World switch: histories

    The component as its clients use it: rounds of the switch thread, timer
    interrupts, the calls of the events, and what other parts of the driver
    write in between (configuration, busy VFs, scheduling states).  [allowed]
    is what a client has to respect, on the list as it is in memory. *)
From S2P Require Import Prelude Oss Api Dlist ListScan Mask Gpuiov WsState WsInv WsManual WsBulk Switch SwitchEngine SwitchInv SwitchRun SwitchQuiet SwitchPick SwitchLiquid SwitchOps SwitchMembers SwitchChange SwitchInit.
Import Dlist ListScan.
#[local] Open Scope Z_scope.
#[local] Set Warnings "-clear-no-such-hyp".

Inductive sw_op :=
| Round                        (* amdgv_sched_manual_switch_process *)
| TimerInterrupt
| Start
| Stop
| AddVf (i : Z)
| RetireVf (i st : Z)          (* amdgv_sched_remove_vf, then set_to_..._vf *)
| NewSlice (i : Z)
| ClearSlice (i : Z)
| SkipPunish (i : Z) (b : bool)
| SwitchTo (i : Z)
| SetVfNum (num : Z)
| Configure (slices : list Z) (force bp : Z) (live : bool)
| Busy (mask : Z)
| SetState (i st : Z).

Section history.
Context {hw : Type} `{HW : WsHw hw} {E : OssEnv}.
Variable ws : Z.
Implicit Types (s t : switcher hw) (e : active_vf_entry) (w : world_switch) (vs : list Z).
Abbreviation ws_of := (SwitchInv.ws_of ws).
Abbreviation good := (SwitchOps.good ws).

Definition configure (slices : list Z) (force bp : Z) (live : bool) (c : sw_config) : sw_config :=
  c <| vf_time_slice := slices |> <| force_switch_vf_idx := force |> <| bp_mode := bp |>
    <| in_live_update := live |>.

Definition exec (o : sw_op) : M (switcher hw) Z :=
  match o with
  | Round => amdgv_sched_manual_switch_process ws
  | TimerInterrupt => amdgv_sched_manual_switch_timer_isr ws
  | Start => amdgv_sched_world_switch_start ws
  | Stop => amdgv_sched_world_switch_stop ws
  | AddVf i => amdgv_sched_world_switch_add_vf ws i
  | RetireVf i st =>
      r ← amdgv_sched_world_switch_remove_vf ws i; _ ← set_vf_state i st; mret r
  | NewSlice i => amdgv_sched_world_switch_update_time_slice ws i
  | ClearSlice i => amdgv_sched_manual_switch_clear_time_slice ws i
  | SkipPunish i b => amdgv_sched_world_switch_toggle_skip_next_punish i b
  | SwitchTo i => amdgv_sched_world_context_switch_to_vf ws i
  | SetVfNum num => r ← amdgv_sched_world_switch_set_vf_num ws num; _ ← modify (renumber num); mret r
  | Configure sl f bp live =>
      _ ← modify (fun s => s <| sw_conf := configure sl f bp live (sw_conf s) |>); mret 0
  | Busy mask => _ ← set_wsw ws (fun w => w <| vf_busy_status := mask |>); mret 0
  | SetState i st => _ ← set_vf_state i st; mret 0
  end.

(** The active list as the iteration macros see it. *)
Definition list_of s : list Z :=
  omap (fun n => match n with Vf i => Some i | Head => None end)
    (default [] (amdgv_list_for_each_entry list_fuel Head (sw_links s))).

Lemma list_of_members vs s : members vs s -> list_of s = vs.
Proof.
  intros Hm. pose proof (members_length _ _ Hm) as Hl. unfold list_of.
  rewrite (dlist_for_each _ _ _ _ (mb_list _ _ Hm)) by (rewrite length_fmap; unfold list_fuel; lia).
  cbn. clear. induction vs as [|x vs IH]; [done|]. cbn. by rewrite IH.
Qed.

Definition fair s : bool := fairness_mode (sw_manual s).

(** What a client respects.  Nothing is asked of the rounds of the thread, the
    timer, starting, stopping, and the busy mask. *)
Definition allowed (o : sw_op) s : Prop :=
  forall w, ws_of s = Some w ->
  match o with
  | Round | TimerInterrupt | Start | Stop | Busy _ => True
  | AddVf i => ws_enabled w = true /\ vf_valid s i /\
               (fair s && negb (i =? AMDGV_PF_IDX) = true \/ i ∉ list_of s)
  | RetireVf i st => ws_enabled w = true /\ 0 <= i < 32 /\
               (i = AMDGV_PF_IDX -> i ∈ list_of s /\ st <> AMDGV_SCHED_ACTIVE)
  | NewSlice i => 0 <= i < 32 /\ vf_time_slice (sw_conf s) !! Z.to_nat i <> Some 0
  | ClearSlice i | SkipPunish i _ => 0 <= i < 32
  | SwitchTo i => vf_valid s i /\ switch_running w = false
  | SetVfNum num => ws_enabled w = true /\ may_renumber num (list_of s) w s
  | Configure sl _ _ _ => length sl = 32%nat /\ Forall (in_width 32) sl
  | SetState i st => 0 <= i < 32 /\ (i = AMDGV_PF_IDX -> st = AMDGV_SCHED_ACTIVE -> i ∈ list_of s)
  end.

(** What becomes of the sequence of VFs: [r] is the code returned. *)
Definition list_after (o : sw_op) (r : Z) vs s vs' : Prop :=
  match o with
  | Round | Stop => vs' ≡ₚ vs
  | AddVf i => r = 0 /\
      vs' = if bool_decide (vf_time_slice (sw_conf s) !! Z.to_nat i = Some 0) then vs
            else with_vf (fair s) i vs
  | RetireVf i _ =>
      if bool_decide (i ∈ vs) then vs' = without_vf (fair s) i vs else vs' = vs /\ r = AMDGV_FAILURE
  | SetVfNum num => r = 0 /\ vs' = renumbered num vs s
  | _ => vs' = vs
  end.

Lemma wp_unbind {A B} (m : M (switcher hw) A) (f : A -> M (switcher hw) B) Q s :
  wp (m ≫= f) Q s -> wp m (fun a => wp (f a) Q) s.
Proof. unfold wp, mbind, M_bind. by destruct (m s) as [[]|]. Qed.

Lemma wp_enabled w (m : M (switcher hw) Z) (Q : Z -> switcher hw -> Prop) s :
  ws_of s = Some w -> (ws_enabled w = false -> Q 0 s) -> (ws_enabled w = true -> wp m Q s) ->
  wp (if_enabled ws m) Q s.
Proof.
  intros Hw Hf Ht. unfold if_enabled. wp_step. eapply (wp_wsw ws w); [done|].
  destruct (ws_enabled w); [by apply Ht|]. wp_step. by apply Hf.
Qed.

(** The world switch as a caller sees it after any of the operations. *)
Definition kept (o : sw_op) vs s (r : Z) t : Prop :=
  exists vs' w', good vs' t /\ ws_of t = Some w' /\ list_after o r vs s vs'.

Lemma kept_same o vs s r t w' :
  good vs t -> ws_of t = Some w' -> list_after o r vs s vs -> kept o vs s r t.
Proof. intros. by exists vs, w'. Qed.

Lemma kept_books o vs s r t w :
  good vs s -> ws_of s = Some w -> books s t -> list_after o r vs s vs -> kept o vs s r t.
Proof.
  intros Hg Hw Hb Hl. eapply kept_same; [by eapply good_books| |done]. by rewrite (books_ws ws _ _ Hb).
Qed.

Lemma round_list vs w s vs' t :
  good vs s -> ws_of s = Some w -> round_result ws vs w s vs' t -> vs' ≡ₚ vs /\ is_Some (ws_of t).
Proof.
  intros Hg Hw Hr. inversion Hr; subst.
  - split; [done|]. rewrite (books_ws ws _ _ H). by exists w.
  - split; [done|]. destruct H1 as [_ (w' & -> & _)]. by eexists.
  - split; [done|]. rewrite H1. by eexists.
  - destruct H0 as [(vs1 & w1 & s1 & s2 & Hrel & Hch & _ & Hld & _) _]. split.
    + rewrite (ch_perm _ _ _ _ _ Hch). eapply released_valid; [exact Hrel|apply Hg].
    + destruct Hld as [_ (w' & -> & _)]. by eexists.
Qed.


Lemma good_configure vs s sl f bp live :
  good vs s -> length sl = 32%nat -> Forall (in_width 32) sl ->
  good vs (s <| sw_conf := configure sl f bp live (sw_conf s) |>).
Proof.
  intros [[Ml Mn Mr Mp Ms] [Sp Sr Sd Sk Sc] [(w & Hw) Hn Hl] Ha] H1 H2.
  split; [by split|by split|split; [by exists w|done|done]|done].
Qed.

Lemma wp_exec_add i vs w s :
  good vs s -> ws_of s = Some w -> allowed (AddVf i) s -> wp (exec (AddVf i)) (kept (AddVf i) vs s) s.
Proof.
  intros Hg Hw Ha. destruct (Ha w Hw) as (Hen & Hv & Hcase).
  rewrite (list_of_members _ _ (g_members _ _ _ Hg)) in Hcase.
  apply (wp_enabled w); [done|congruence|]. intros _. eapply (wp_add_vf ws w vs); try done.
  intros vs' t [Ag Aw Ase (ts & Hts & Al)]. exists vs', w. split; [done|]. split; [congruence|].
  split; [done|]. rewrite Hts. destruct (Z.eqb_spec ts 0) as [->|Hne].
  - rewrite bool_decide_eq_true_2 by done. apply Al.
  - rewrite bool_decide_eq_false_2 by congruence. apply Al.
Qed.

Lemma wp_exec_retire i st vs w s :
  good vs s -> ws_of s = Some w -> allowed (RetireVf i st) s ->
  wp (exec (RetireVf i st)) (kept (RetireVf i st) vs s) s.
Proof.
  intros Hg Hw Ha. destruct (Ha w Hw) as (Hen & Hi & Hpf).
  rewrite (list_of_members _ _ (g_members _ _ _ Hg)) in Hpf.
  cbn [exec]. unfold amdgv_sched_world_switch_remove_vf, if_enabled. wp_step. wp_step.
  eapply (wp_wsw ws w); [done|]. rewrite Hen.
  apply (wp_mono _ (fun r t => wp (_ ← set_vf_state i st; mret r) (kept (RetireVf i st) vs s) t)); [|done].
  apply wp_unbind, (wp_retire ws vs w); [done..|].
  intros r vs' t Hrm Hgt. destruct (rm_ws _ _ _ _ _ _ _ _ Hrm) as (w' & Hw' & _).
  exists vs', w'. split; [done|]. split.
  - unfold SwitchInv.ws_of, put_state. cbn. by destruct (put_sv_same i st (sw_hw t)) as (_ & _ & -> & _).
  - pose proof (rm_list _ _ _ _ _ _ _ _ Hrm) as Hl. cbn [list_after]. destruct (bool_decide _); apply Hl.
Qed.

Lemma wp_exec_num num vs w s :
  good vs s -> ws_of s = Some w -> allowed (SetVfNum num) s ->
  wp (exec (SetVfNum num)) (kept (SetVfNum num) vs s) s.
Proof.
  intros Hg Hw Ha. destruct (Ha w Hw) as (Hen & Hmr).
  rewrite (list_of_members _ _ (g_members _ _ _ Hg)) in Hmr.
  cbn [exec]. unfold amdgv_sched_world_switch_set_vf_num, if_enabled. wp_step. wp_step. wp_step.
  eapply (wp_wsw ws w); [done|]. rewrite Hen.
  apply (wp_mono _ (fun r t => r = 0 /\ wp (_ ← modify (renumber num); mret r) (kept (SetVfNum num) vs s) t)).
  2: { intros r t [-> Ht]. wp_step. exact Ht. }
  eapply wp_mono.
  { apply (wp_unbind _ (fun r => _ ← modify (renumber num); mret r)
      (fun r t => r = 0 /\ kept (SetVfNum num) vs s r t)), (wp_set_vf_num ws num vs w); [done..|].
    intros t Hgt Hsu. split; [done|]. exists (renumbered num vs s), w. split; [done|].
    split; [|done]. unfold SwitchInv.ws_of. cbn. rewrite (su_hw _ _ Hsu). exact Hw. }
  intros r t H. exact H.
Qed.

Lemma wp_exec_switch i vs w s :
  good vs s -> ws_of s = Some w -> allowed (SwitchTo i) s -> wp (exec (SwitchTo i)) (kept (SwitchTo i) vs s) s.
Proof.
  intros Hg Hw Ha. destruct (Ha w Hw) as (Hv & Hrun). apply (wp_enabled w); [done| |].
  - intros _. by eapply kept_same.
  - intros _. eapply (wp_switch_world ws vs i w); [done..|]. intros r t Ht Hx.
    destruct (ex_ws _ _ _ _ _ _ Hx) as (w' & Hw' & _). by eapply kept_same.
Qed.

Lemma wp_exec_slice i vs w s :
  good vs s -> ws_of s = Some w -> allowed (NewSlice i) s -> wp (exec (NewSlice i)) (kept (NewSlice i) vs s) s.
Proof.
  intros Hg Hw Ha. destruct (Ha w Hw) as (Hi & Hts). apply (wp_enabled w); [done| |].
  - intros _. by eapply kept_same.
  - intros _. destruct (conf_slice _ _ i (g_slices _ _ _ Hg) Hi) as (ts & Ets & _).
    eapply (wp_update_slice ws vs i ts); [done|done|done|congruence|].
    intros t Ht Hwt _ _. eapply (kept_same _ _ _ _ _ w); [done|congruence|done].
Qed.

Lemma wp_exec_stop vs w s :
  good vs s -> ws_of s = Some w -> wp (exec Stop) (kept Stop vs s) s.
Proof.
  intros Hg Hw. cbn [exec]. unfold amdgv_sched_world_switch_stop. wp_step. apply (wp_enabled w); [done| |].
  - intros _. wp_step. eapply kept_same; [done|done|cbn; reflexivity].
  - intros _. eapply (wp_stop ws vs w); [done|done|].
    intros r vs' w' t Ht Hw' _ _ Hp _ _ _. wp_step. by exists vs', w'.
Qed.

Lemma wp_exec_start vs w s :
  good vs s -> ws_of s = Some w -> wp (exec Start) (kept Start vs s) s.
Proof.
  intros Hg Hw. cbn [exec]. unfold amdgv_sched_world_switch_start. wp_step. apply (wp_enabled w); [done| |].
  - intros _. wp_step. by eapply kept_same.
  - intros _. eapply (wp_start ws vs w); [done|done|]. intros w' t Ht Hw' _ _ _. wp_step. by eapply kept_same.
Qed.

Lemma wp_exec_busy mask vs w s :
  good vs s -> ws_of s = Some w -> wp (exec (Busy mask)) (kept (Busy mask) vs s) s.
Proof.
  intros Hg Hw. cbn [exec]. wp_step. eapply wp_set_wsw; [done|]. wp_step.
  destruct (same_context_refl ws _ _ (g_context _ _ _ Hg) Hw) as [_ _ _ Hrun].
  eapply kept_same; [|by eapply ws_of_put|done]. eapply good_put_ws; [done|done|by split].
Qed.

Lemma wp_exec_state i st vs w s :
  good vs s -> ws_of s = Some w -> allowed (SetState i st) s ->
  wp (exec (SetState i st)) (kept (SetState i st) vs s) s.
Proof.
  intros Hg Hw Ha. destruct (Ha w Hw) as (Hi & Hpf). rewrite (list_of_members _ _ (g_members _ _ _ Hg)) in Hpf.
  pose proof (good_sound _ _ _ Hg) as Hs.
  assert (length (sched_vfs (sw_hw s)) = 32%nat) as Hlen by (eapply sound_vfs, Hs).
  cbn [exec]. wp_step. apply wp_set_state; [done|done|]. wp_step.
  eapply (kept_same _ _ _ _ _ w); [|unfold SwitchInv.ws_of, put_state; cbn|done].
  - apply sound_active; [by apply sound_state|]. rewrite put_state_active by done.
    destruct (Z.eqb_spec i AMDGV_PF_IDX) as [->|]; [|apply Hg].
    intros ->%Z.eqb_eq. by apply Hpf.
  - by destruct (put_sv_same i st (sw_hw s)) as (_ & _ & -> & _).
Qed.

(** Every allowed operation returns, keeps the invariant, and does to the
    sequence of VFs what [list_after] says. *)
Lemma wp_exec_op o vs w s :
  good vs s -> ws_of s = Some w -> allowed o s -> wp (exec o) (kept o vs s) s.
Proof.
  intros Hg Hw Ha. pose proof (mb_len _ _ (g_members _ _ _ Hg)) as Hn. destruct o.
  - eapply wp_mono; [by apply (wp_process ws vs w)|]. intros r t (_ & vs' & Ht & Hr).
    destruct (round_list _ _ _ _ _ Hg Hw Hr) as [Hp [w' Hw']]. by exists vs', w'.
  - apply (wp_timer_isr ws w); [done|]. intros t Hb _. by eapply kept_books.
  - by apply (wp_exec_start vs w).
  - by apply (wp_exec_stop vs w).
  - by apply (wp_exec_add i vs w).
  - by apply (wp_exec_retire i st vs w).
  - by apply (wp_exec_slice i vs w).
  - apply (wp_clear_time_slice ws w); [done|done|exact (Ha w Hw)|]. intros t Hb. by eapply kept_books.
  - apply (wp_toggle_skip i b); [done|exact (Ha w Hw)|]. intros t Hb. by eapply kept_books.
  - by apply (wp_exec_switch i vs w).
  - by apply (wp_exec_num num vs w).
  - destruct (Ha w Hw). cbn [exec]. wp_step. wp_step. wp_step.
    eapply (kept_same _ _ _ _ _ w); [by apply good_configure|done|done].
  - by apply (wp_exec_busy _ vs w).
  - by apply (wp_exec_state i st vs w).
Qed.

(** ** Reachable states *)

Inductive reachable : switcher hw -> Prop :=
| reach_init mode s0 s : blank ws s0 -> is_Some (ws_of s0) ->
    amdgv_sched_manual_switch_init ws mode s0 = Ret (0, s) -> reachable s
| reach_step s o r t : reachable s -> allowed o s -> exec o s = Ret (r, t) -> reachable t.

Lemma reachable_good s : reachable s -> exists w, good (list_of s) s /\ ws_of s = Some w.
Proof.
  induction 1 as [mode s0 s Hb [w Hw] Hi|s o r t _ (w & Hg & Hw) Ha Hx].
  - pose proof (wp_switch_init ws mode w s0 Hb Hw) as Hwp. unfold wp in Hwp. rewrite Hi in Hwp.
    destruct Hwp as [(_ & [Ig _ _ _ _ (w' & Hw' & _)] & _)|[? _]]; [|done].
    exists w'. split; [|done]. by rewrite (list_of_members _ _ (g_members _ _ _ Ig)).
  - pose proof (wp_exec_op o _ w s Hg Hw Ha) as Hwp. unfold wp in Hwp. rewrite Hx in Hwp.
    destruct Hwp as (vs' & w' & Hg' & Hw' & _). exists w'. split; [|done].
    by rewrite (list_of_members _ _ (g_members _ _ _ Hg')).
Qed.
End history.
