(* ===== verification/SwitchFair.v ===== *)
(** * World switch: many rounds

    What a sequence of rounds of the switch thread does, outside fairness
    mode and with only VFs in the list: round robin gives the engine to every
    VF in turn; hybrid liquid scheduling lets none wait for more than
    [wait_of] switches. *)
From S2P Require Import Prelude Oss Api Dlist ListScan Mask Gpuiov WsState WsInv WsManual WsBulk Switch SwitchEngine SwitchInv SwitchRun SwitchQuiet SwitchPick SwitchLiquid SwitchOps SwitchMembers SwitchHistory.
Import Dlist ListScan.
#[local] Open Scope Z_scope.
#[local] Set Warnings "-clear-no-such-hyp".

Section fair.
Context {hw : Type} `{HW : WsHw hw} {E : OssEnv}.
Variable ws : Z.
Implicit Types (s t : switcher hw) (e : active_vf_entry) (w : world_switch) (vs q : list Z).
Abbreviation ws_of := (SwitchInv.ws_of ws).
Abbreviation good := (SwitchOps.good ws).

Fixpoint rounds (n : nat) : M (switcher hw) unit :=
  match n with
  | O => mret tt
  | S n => _ ← amdgv_sched_manual_switch_process ws; rounds n
  end.

Lemma wp_rounds_add n m s (Q : unit -> switcher hw -> Prop) :
  wp (rounds n) (fun _ t => wp (rounds m) Q t) s -> wp (rounds (n + m)) Q s.
Proof.
  revert s. induction n as [|n IH]; intros s; cbn [rounds Nat.add]; [done|]. unfold wp, mbind, M_bind.
  destruct (amdgv_sched_manual_switch_process ws s) as [[r t]|]; [|done]. apply IH.
Qed.

Definition loads s : list Z := loads_of (sw_calls s).

(** The VFs in the order in which they stand once the engine is released. *)
Definition queue vs w s : list Z :=
  if curr_vf_state w =? AMDGV_VF_CONTEXT_LOADED
  then requeued (use_pf s && pf_active s) (curr_idx_vf w) vs else vs.

(** Nothing but the scheduling function decides, and every VF of the list is
    real. *)
Record plain s : Prop := {
  pl_unforced : unforced s;
  pl_live : in_live_update (sw_conf s) = false;
  pl_fair : fairness_mode (sw_manual s) = false;
}.

Lemma plain_drift s t : drift s t -> plain s -> plain t.
Proof. intros Hd []. split; unfold unforced in *; rewrite ?(dr_conf _ _ Hd), ?(dr_fair _ _ Hd); done. Qed.

Record scheduled vs w s : Prop := {
  sc_good : good vs s;
  sc_ws : ws_of s = Some w;
  sc_plain : plain s;
  sc_vfs : AMDGV_PF_IDX ∉ vs;
  sc_some : vs <> [];
}.

Lemma queue_perm vs w s : scheduled vs w s -> queue vs w s ≡ₚ vs.
Proof.
  intros [Hg _ _ _ _]. unfold queue. destruct (_ =? _); [|done].
  apply requeued_perm. eapply members_nodup. apply Hg.
Qed.

Lemma rotate_no_pf act q : AMDGV_PF_IDX ∉ q -> rotate_pf act q = q.
Proof.
  destruct q as [|x q]; [done|]. intros [Hx _]%not_elem_of_cons. cbn.
  destruct (Z.eqb_spec x AMDGV_PF_IDX); [congruence|done].
Qed.

(** The queue after VF [i] was loaded: it went to the back. *)
Lemma queue_loaded vs w s i :
  curr_vf_state w = AMDGV_VF_CONTEXT_LOADED -> curr_idx_vf w = i -> i ∈ vs -> i <> AMDGV_PF_IDX ->
  queue vs w s = send_back i vs.
Proof.
  intros Hl <- Hi Hne. unfold queue, requeued. rewrite Hl, bool_decide_eq_true_2 by done.
  apply Z.eqb_neq in Hne. by rewrite Hne.
Qed.

(** One round that changes hands, from the queue [q]: [p] is chosen by the
    scheduling function, [vs'] is the new list. *)
Record hand_over q w s (p : Z * Z) vs' w' t : Prop := {
  ho_policy : exists s1 s2 w1, policy w1 q s1 p vs' s2 /\ amdgv_schedule_vfs (sw_manual s1) = amdgv_schedule_vfs (sw_manual s) /\
    fairness_mode (sw_manual s1) = false /\ (forall j, skip_of s1 j = skip_of s j) /\
    (forall j, skip_of t j = skip_of s2 j) /\ drift s s1 /\
    Forall2 same_member (slots s1) (slots t);
  ho_next : scheduled vs' w' t;
  ho_drift : drift s t;
  ho_loads : loads t = fst p :: loads s;
  ho_current : curr_idx_vf w' = fst p;
  ho_run : switch_running w' = true -> curr_vf_state w' = AMDGV_VF_CONTEXT_LOADED;
  ho_in : fst p ∈ vs';
  ho_perm : vs' ≡ₚ q;
  ho_ok : engine_completes (sw_hw s) -> curr_vf_state w' = AMDGV_VF_CONTEXT_LOADED /\
    (bp_mode (sw_conf s) <> AMDGV_BP_MODE_1 -> switch_running w' = switch_running w) /\
    (snd p <> DEFAULT_GFX_TIME_SLICE_1VF -> head (sw_calls t) = Some (TimerStart (snd p)));
}.

Lemma adds_skip l s t j : adds l s t -> skip_of t j = skip_of s j.
Proof.
  intros [Hs _]. unfold skip_of, slot. apply (f_equal (lookup (Z.to_nat j))) in Hs.
  rewrite !list_lookup_fmap in Hs. destruct (slots t !! _), (slots s !! _); cbn in Hs; congruence.
Qed.
Lemma adds_loads l s t : adds l s t -> loads t = l ++ loads s.
Proof. by intros []. Qed.

Lemma scheduled_next vs vs' w w' s t :
  scheduled vs w s -> drift s t -> good vs' t -> ws_of t = Some w' -> vs' ≡ₚ vs -> scheduled vs' w' t.
Proof.
  intros [_ _ Hp Hv Hne] Hd Hg Hw Hperm. split; [done|done|by eapply plain_drift|by rewrite Hperm|].
  intros ->. by apply Permutation_nil_l in Hperm.
Qed.

Lemma not_all_dummy vs w s : scheduled vs w s -> forallb (dummy_of s) vs = false.
Proof.
  intros [Hg _ [_ _ Hf] _ Hne]. destruct vs as [|x vs]; [done|]. cbn. apply andb_false_iff. left.
  assert (x ∈ x :: vs) as Hx by by left.
  destruct (member_entry _ _ _ (g_members _ _ _ Hg) Hx) as (e & He & _ & _).
  unfold dummy_of. rewrite He. pose proof (member_range _ _ _ (g_members _ _ _ Hg) Hx) as Hr.
  eapply (sl_real _ _ (g_slices _ _ _ Hg)); [exact He|done|lia|done].
Qed.

Lemma policy_member w q s p vs' t :
  policy w q s p vs' t -> fairness_mode (sw_manual s) = false -> q <> [] -> fst p ∈ vs' /\ vs' ≡ₚ q.
Proof.
  intros [_ Hp] Hf Hne. destruct (amdgv_schedule_vfs (sw_manual s)).
  - destruct (Hp Hf) as (-> & Hh & _). split; [|apply rotate_pf_perm].
    destruct (rotate_pf _ q) as [|y l]; [done|]. injection Hh as ->. by left.
  - destruct Hp as (-> & -> & _). split; [|apply rotate_pf_perm]. unfold liquid_pick_of, liquid_choice.
    assert (rotate_pf (pf_active s) q <> []) as Hrn.
    { intros H0. apply Hne, Permutation_nil_r. by rewrite <- (rotate_pf_perm (pf_active s)), H0. }
    destruct (rotate_pf (pf_active s) q) as [|y l]; [done|]. cbn [head default].
    destruct (_ =? 0); [by left|].
    match goal with |- context [liquid_walk ?b ?h ?k ?f ?l] =>
      destruct (liquid_walk_in b h k f l) as [[Hi|Hi] _] end; [|done].
    cbn -[liquid_walk] in *. rewrite Hi. by left.
Qed.

Lemma hand_over_intro vs w s p vs' t :
  scheduled vs w s -> switch_running w = true -> good vs' t -> switched ws vs w s p vs' t ->
  exists w', hand_over (queue vs w s) w s p vs' w' t.
Proof.
  intros Hsc Hrun Ht [(vs1 & w1 & s1 & s2 & Hrel & Hch & Hpol & [Ld (w' & Hw' & Hst & Hcu & _ & Hres)] & Ha1 & Ha2) Hd].
  pose proof (rl_list _ _ _ _ _ _ _ Hrel) as Hq. fold (queue vs w s) in Hq. subst vs1.
  pose proof (rl_drift _ _ _ _ _ _ _ Hrel) as Hd1. pose proof (ch_frame _ _ _ _ _ Hch) as Hr2.
  pose proof (sc_plain _ _ _ Hsc) as Hpl. pose proof (plain_drift _ _ Hd1 Hpl) as Hpl1.
  pose proof (queue_perm _ _ _ Hsc) as Hqp.
  assert (queue vs w s <> []) as Hqn.
  { intros H0. apply (sc_some _ _ _ Hsc), Permutation_nil_r. by rewrite <- Hqp, H0. }
  specialize (Hpol (pl_unforced _ Hpl)).
  destruct (policy_member _ _ _ _ _ _ Hpol (pl_fair _ Hpl1) Hqn) as [Hin Hp].
  pose proof (adds_loads _ _ _ Ha1) as Hl1. pose proof (adds_loads _ _ _ Ha2) as Hl2.
  exists w'. split; try done.
  - exists s1, s2, w1. split_and!; try done.
    + apply (dr_fn _ _ Hd1).
    + apply Hpl1.
    + intros j. by eapply adds_skip.
    + intros j. by eapply adds_skip.
    + eapply (Forall2_trans same_member same_member); [|exact (ro_slots _ _ Hr2)|exact (dr_slots _ _ Ld)].
      intros ???. by etransitivity.
  - eapply scheduled_next; try done. by rewrite Hp.
  - rewrite Hl2. cbn. f_equal. unfold loads in *. rewrite (ch_calls _ _ _ _ _ Hch). exact Hl1.
  - intros H1. destruct Hres as [(? & _)|((_ & H2) & _)]; [done|congruence].
  - intros Hc. assert (engine_completes (sw_hw s2)) as Hc2.
    { apply (drift_completes s1 s2); [by apply reorder_drift|]. by apply (drift_completes s s1). }
    destruct Hres as [(Hl & Hb & Htm)|(_ & Hno & _)]; [|done]. split_and!; try done.
    intros Hbp. rewrite Hb; [exact (rl_run _ _ _ _ _ _ _ Hrel)|].
    by rewrite (ro_conf _ _ Hr2), (dr_conf _ _ Hd1).
Qed.

Inductive round_outcome vs w s : switcher hw -> Prop :=
| ro_stays t : scheduled vs w t -> books s t -> adds [] s t ->
    sched_mode (sw_manual s) = AMDGV_SCHED_HYBRID_LIQUID_MODE -> round_outcome vs w s t
| ro_stops w' t : scheduled vs w' t -> drift s t -> adds [] s t -> switch_running w' = false ->
    ~ engine_completes (sw_hw s) -> round_outcome vs w s t
| ro_switches p vs' w' t : hand_over (queue vs w s) w s p vs' w' t -> round_outcome vs w s t.

Lemma wp_round vs w s :
  scheduled vs w s -> switch_running w = true ->
  wp (amdgv_sched_manual_switch_process ws) (fun r t => round_outcome vs w s t) s.
Proof.
  intros Hsc Hrun. pose proof Hsc as [Hg Hw Hpl Hv Hne].
  destruct (good_ready _ _ _ _ Hg Hw) as (_ & _ & _ & Hi & _).
  eapply wp_mono; [by apply (wp_process ws vs w)|]. intros r t (_ & vs' & Ht & Hr).
  inversion Hr as [? Hb Ha Hm|? _ Hdum _ _|w' ? _ Hd Hw' Hst [Hab Hs0] Hno _ Ha|p ? ? _ Hs]; subst.
  - apply ro_stays; [|done|done|].
    + eapply scheduled_next; [exact Hsc|by apply books_drift|done|by rewrite (books_ws ws _ _ Hb)|done].
    + apply Hm. destruct Hpl. do 3 (split; [done|]). split; [by eapply not_all_dummy|done].
  - rewrite (not_all_dummy _ _ _ Hsc) in Hdum. done.
  - eapply (ro_stops _ _ _ w'); try done. by eapply scheduled_next.
  - destruct (hand_over_intro _ _ _ _ _ _ Hsc Hrun Ht Hs) as [w' Hh]. by eapply ro_switches.
Qed.

(** ** Round robin *)

(** The default scheduling function on a device that answers. *)
Record turning vs w s : Prop := {
  tu_sched : scheduled vs w s;
  tu_run : switch_running w = true;
  tu_fn : amdgv_schedule_vfs (sw_manual s) = amdgv_schedule_vfs_default_ptr;
  tu_mode : sched_mode (sw_manual s) <> AMDGV_SCHED_HYBRID_LIQUID_MODE;
  tu_bp : bp_mode (sw_conf s) <> AMDGV_BP_MODE_1;
  tu_ok : engine_completes (sw_hw s);
}.

(** The front of the queue gets the engine for its slice, and goes to the back
    of the queue. *)
Lemma wp_turn x q vs w s :
  turning vs w s -> queue vs w s = x :: q ->
  wp (amdgv_sched_manual_switch_process ws) (fun r t => exists vs' w',
    turning vs' w' t /\ queue vs' w' t = q ++ [x] /\ loads t = x :: loads s /\ drift s t /\
    curr_idx_vf w' = x /\ curr_vf_state w' = AMDGV_VF_CONTEXT_LOADED /\
    exists e, slot s x = Some e /\
      (time_slice e <> DEFAULT_GFX_TIME_SLICE_1VF -> head (sw_calls t) = Some (TimerStart (time_slice e)))) s.
Proof.
  intros [Hsc Hrun Hfn Hmode Hbp Hok] Hq. eapply wp_mono; [by apply wp_round|].
  intros r t Hr. inversion Hr as [? _ _ _ Hm|? ? _ _ _ _ Hno|p vs' w' ? [(s1 & s2 & w1 & Hpol & Hfn1 & Hf1 & _ & _ & Hd1 & _)
    Hnx Hd Hl Hcu _ Hin Hp Hho]]; [done|done|subst].
  destruct Hpol as [_ Hpol]. rewrite Hfn1, Hfn in Hpol. destruct (Hpol Hf1) as (Hvs & Hh & e1 & He1 & Hts).
  pose proof (queue_perm _ _ _ Hsc) as Hqp.
  assert (AMDGV_PF_IDX ∉ queue vs w s) as Hnq by (rewrite Hqp; apply Hsc).
  rewrite rotate_no_pf in Hvs by done. rewrite Hq in Hvs. subst vs'. injection Hh as Hx. rewrite <- Hx in *.
  destruct (Hho Hok) as (Hld & Hrn & Htm). exists (x :: q), w'.
  assert (x <> AMDGV_PF_IDX) as Hxn by (intros ->; apply Hnq; rewrite Hq; by left).
  split; [split; try done|].
  - by rewrite Hrn.
  - by rewrite (dr_fn _ _ Hd).
  - by rewrite (dr_mode _ _ Hd).
  - by rewrite (dr_conf _ _ Hd).
  - by apply (drift_completes _ _ Hd).
  - split; [|split; [done|split; [done|split; [done|split; [done|]]]]].
    + rewrite (queue_loaded _ _ _ x) by done. unfold send_back. rewrite filter_cons_False by auto.
      rewrite filter_ne_absent; [done|].
      pose proof (members_nodup _ _ (g_members _ _ _ (sc_good _ _ _ Hnx))) as Hnd. by apply NoDup_cons in Hnd as [? _].
    + destruct (Forall2_lookup_r _ _ _ _ _ (dr_slots _ _ Hd1) He1) as (e & He & Hsm).
      exists e. split; [exact He|]. rewrite <- (sm_slice _ _ Hsm), <- Hts. exact Htm.
Qed.

(** The next [length a] rounds serve the front [a] of the queue in order. *)
Lemma wp_turns a b vs w s :
  turning vs w s -> queue vs w s = a ++ b ->
  wp (rounds (length a)) (fun _ t => exists vs' w',
    turning vs' w' t /\ queue vs' w' t = b ++ a /\ loads t = rev a ++ loads s) s.
Proof.
  revert b vs w s. induction a as [|x a IH]; intros b vs w s Ht Hq; cbn [length rounds].
  - wp_step. exists vs, w. by rewrite app_nil_r.
  - wp_step. eapply wp_mono; [by apply (wp_turn x (a ++ b) vs w)|].
    intros r t (vs1 & w1 & Ht1 & Hq1 & Hl1 & _). rewrite <- app_assoc in Hq1.
    eapply wp_mono; [by eapply IH|]. intros _ u (vs2 & w2 & Ht2 & Hq2 & Hl2).
    exists vs2, w2. split; [done|]. split; [by rewrite Hq2, <- app_assoc|].
    rewrite Hl2, Hl1. cbn. by rewrite <- app_assoc.
Qed.

(** [k] full turns. *)
Lemma wp_full_turns k q vs w s :
  turning vs w s -> queue vs w s = q ->
  wp (rounds (k * length q)) (fun _ t => exists vs' w',
    turning vs' w' t /\ queue vs' w' t = q /\ loads t = rev (concat (replicate k q)) ++ loads s) s.
Proof.
  revert vs w s. induction k as [|k IH]; intros vs w s Ht Hq.
  - cbn. exists vs, w. done.
  - cbn [Nat.mul]. apply wp_rounds_add.
    eapply wp_mono; [apply (wp_turns q [] vs w); [done|by rewrite app_nil_r]|].
    intros [] t (vs1 & w1 & Ht1 & Hq1 & Hl1). cbn [app] in Hq1.
    eapply wp_mono; [by eapply IH|]. intros [] u (vs2 & w2 & Ht2 & Hq2 & Hl2).
    exists vs2, w2. split; [done|]. split; [done|].
    rewrite Hl2, Hl1. cbn [replicate concat]. by rewrite rev_app_distr, <- app_assoc.
Qed.

(** ** Hybrid liquid *)

Lemma skip_bound vs s v : good vs s -> v ∈ vs -> 0 <= skip_of s v <= MAX_VF_SKIP_CNT.
Proof.
  intros Hg Hv. destruct (member_entry _ _ _ (g_members _ _ _ Hg) Hv) as (e & He & _).
  unfold skip_of. rewrite He. pose proof (sl_skip _ _ (g_slices _ _ _ Hg)) as Hk.
  rewrite Forall_lookup in Hk. by eapply Hk.
Qed.

Definition wait vs w s v : Z := wait_of (queue vs w s) (skip_of s) v.

Lemma wait_nonneg vs w s v : scheduled vs w s -> v ∈ vs -> 0 <= wait vs w s v.
Proof.
  intros Hsc Hv. pose proof (skip_bound _ _ _ (sc_good _ _ _ Hsc) Hv). unfold wait, wait_of. lia.
Qed.

Lemma position_lt v l : v ∈ l -> (position v l < length l)%nat.
Proof.
  induction l as [|x l IH]; [by intros ?%not_elem_of_nil|]. cbn. intros [->|Hv]%elem_of_cons.
  - rewrite Z.eqb_refl. lia.
  - destruct (x =? v); [lia|]. specialize (IH Hv). lia.
Qed.

Lemma wait_short vs w s v : scheduled vs w s -> v ∈ vs ->
  wait vs w s v < Z.of_nat (length vs) + MAX_VF_SKIP_CNT.
Proof.
  intros Hsc Hv. pose proof (queue_perm _ _ _ Hsc) as Hp.
  pose proof (skip_bound _ _ _ (sc_good _ _ _ Hsc) Hv).
  assert (v ∈ queue vs w s) as Hvq%position_lt by by rewrite Hp.
  unfold wait, wait_of. rewrite (Permutation_length Hp) in Hvq. lia.
Qed.

(** A switch to another VF brings [v] nearer. *)
Lemma wait_switch vs w s p vs' w' t v :
  scheduled vs w s -> amdgv_schedule_vfs (sw_manual s) = amdgv_schedule_vfs_liquid_ptr ->
  v ∈ vs -> fst p <> v -> hand_over (queue vs w s) w s p vs' w' t ->
  0 < wait vs w s v /\ (switch_running w' = true -> wait vs' w' t v < wait vs w s v).
Proof.
  intros Hsc Hfn Hv Hne [(s1 & s2 & w1 & [_ Hpol] & Hfn1 & _ & Hk1 & Hk2 & _) Hnx _ _ Hcu Hrun Hin Hp _].
  rewrite Hfn1, Hfn in Hpol. destruct Hpol as (Hvs & Hpc & Hsk).
  pose proof (queue_perm _ _ _ Hsc) as Hqp. set (q := queue vs w s) in *.
  pose proof (members_nodup _ _ (g_members _ _ _ (sc_good _ _ _ Hsc))) as Hnd. rewrite <- Hqp in Hnd.
  assert (v ∈ q) as Hvq by by rewrite Hqp. assert (v ∈ vs') as Hv' by by rewrite Hp.
  assert (v <> AMDGV_PF_IDX) as Hvn by (intros ->; by apply (sc_vfs _ _ _ Hsc)).
  assert (hidden (pf_active s1) v = false) as Hhid by (unfold hidden; by apply Z.eqb_neq in Hvn as ->).
  set (c := liquid_pick_of w1 s1 q) in *.
  assert (wait_of (send_back (fst c) vs') (liquid_skip (skip_of s1) c) v < wait_of q (skip_of s1) v) as Hdec.
  { rewrite Hvs. apply wait_decreases; [done|done|done|]. fold (liquid_pick_of w1 s1 q). fold c. by rewrite <- Hpc. }
  pose proof (member_range _ _ _ (g_members _ _ _ (sc_good _ _ _ Hsc)) Hv) as Hvr.
  assert (skip_of t v = liquid_skip (skip_of s1) c v) as Hskt by (rewrite Hk2; apply Hsk; lia).
  pose proof (skip_bound _ _ _ (sc_good _ _ _ Hnx) Hv') as Hb. rewrite Hskt in Hb.
  assert (wait vs w s v = wait_of q (skip_of s1) v) as -> by (unfold wait, wait_of; by rewrite Hk1).
  split; [unfold wait_of in *; lia|]. intros Hr.
  unfold wait. rewrite (queue_loaded _ _ _ (fst p)); [|by apply Hrun|done|done|].
  - unfold wait_of in *. rewrite Hskt, Hpc. lia.
  - intros H. rewrite H in Hin. rewrite Hp, Hqp in Hin. by apply (sc_vfs _ _ _ Hsc).
Qed.

Lemma wp_idle vs w s :
  scheduled vs w s -> switch_running w = false ->
  wp (amdgv_sched_manual_switch_process ws) (fun _ t => scheduled vs w t /\ books s t /\ adds [] s t) s.
Proof.
  intros Hsc Hrun. pose proof Hsc as [Hg Hw _ _ _].
  eapply wp_mono; [by apply (wp_process ws vs w)|]. intros r t (_ & vs' & Ht & Hr).
  inversion Hr as [? Hb Ha Hm| | |]; subst; try congruence. split_and!; [|done|done].
  eapply scheduled_next; [exact Hsc|by apply books_drift|done|by rewrite (books_ws ws _ _ Hb)|done].
Qed.

Lemma stays_wait vs w s t v : books s t -> adds [] s t -> wait vs w t v = wait vs w s v.
Proof.
  intros Hb Ha. unfold wait, wait_of, queue, use_pf. rewrite (adds_skip _ _ _ v Ha).
  by rewrite (drift_active _ _ (books_drift _ _ Hb)), (proj2 Hb).
Qed.

(** [n] rounds: the VFs put on the engine do not outnumber the wait of [v],
    unless [v] is among them. *)
Lemma wp_waits n v vs w s :
  scheduled vs w s -> amdgv_schedule_vfs (sw_manual s) = amdgv_schedule_vfs_liquid_ptr -> v ∈ vs ->
  wp (rounds n) (fun _ t => exists l, loads t = l ++ loads s /\
    (if switch_running w then v ∈ l \/ Z.of_nat (length l) <= wait vs w s v else l = [])) s.
Proof.
  revert vs w s. induction n as [|n IH]; intros vs w s Hsc Hfn Hv; cbn [rounds].
  { wp_step. exists []. split; [done|]. destruct (switch_running w); [|done]. right.
    pose proof (wait_nonneg _ _ _ _ Hsc Hv). cbn. lia. }
  wp_step. destruct (switch_running w) eqn:Hrun.
  2: { eapply wp_mono; [by apply (wp_idle vs w)|]. intros _ t (Ht & Hb & Ha).
       eapply wp_mono; [apply (IH vs w); [done|by rewrite (dr_fn _ _ (books_drift _ _ Hb))|done]|].
       intros _ u (l & Hl & Hc). rewrite Hrun in Hc. exists l. by rewrite Hl, (adds_loads _ _ _ Ha). }
  eapply wp_mono; [by apply (wp_round vs w)|]. intros r t Hr.
  inversion Hr as [? Ht Hb Ha _|w' ? Ht Hd Ha Hoff _|p vs' w' ? Hho]; subst; clear Hr.
  - eapply wp_mono; [apply (IH vs w); [done|by rewrite (dr_fn _ _ (books_drift _ _ Hb))|done]|].
    intros _ u (l & Hl & Hc). rewrite Hrun, (stays_wait _ _ s t) in Hc by done.
    exists l. by rewrite Hl, (adds_loads _ _ _ Ha).
  - eapply wp_mono; [apply (IH vs w'); [done|by rewrite (dr_fn _ _ Hd)|done]|].
    intros _ u (l & Hl & Hc). rewrite Hoff in Hc. subst l. exists [].
    split; [by rewrite Hl, (adds_loads _ _ _ Ha)|right]. pose proof (wait_nonneg _ _ _ _ Hsc Hv). cbn. lia.
  - assert (v ∈ vs') as Hv' by (rewrite (ho_perm _ _ _ _ _ _ _ Hho), (queue_perm _ _ _ Hsc); done).
    eapply wp_mono; [apply (IH vs' w'); [apply Hho|by rewrite (dr_fn _ _ (ho_drift _ _ _ _ _ _ _ Hho))|done]|].
    intros _ u (l & Hl & Hc). exists (l ++ [fst p]). split.
    { rewrite Hl, (ho_loads _ _ _ _ _ _ _ Hho), <- app_assoc. done. }
    destruct (decide (fst p = v)) as [<-|Hne]; [left; apply elem_of_app; right; by left|].
    destruct (wait_switch _ _ _ _ _ _ _ _ Hsc Hfn Hv Hne Hho) as [H0 Hlt]. rewrite length_app. cbn [length].
    destruct (switch_running w') eqn:Hrun'; [|subst l; right; cbn; lia].
    destruct Hc as [Hc|Hc]; [left; apply elem_of_app; by left|right]. specialize (Hlt eq_refl). lia.
Qed.
End fair.

(** ** A slice of zero *)

Section zero.
Context {hw : Type} `{HW : WsHw hw} {E : OssEnv}.
Implicit Types (s t : switcher hw) (e : active_vf_entry) (vs : list Z).

(** No VF of the list has any time. *)
Record timeless vs s : Prop := {
  tl_members : members vs s;
  tl_shape : ws_shape (sw_hw s);
  tl_some : vs <> [];
  tl_fair : fairness_mode (sw_manual s) = false;
  tl_zero : forall i e, i ∈ vs -> slot s i = Some e -> time_slice e = 0 /\ dummy_vf e = false;
}.

(** The list does not depend on the accounts. *)
Lemma members_idx vs s t :
  sw_links t = sw_links s -> idx_vf <$> slots t = idx_vf <$> slots s ->
  config (sw_hw t) = config (sw_hw s) -> num_vf (sw_conf t) = num_vf (sw_conf s) ->
  members vs s -> members vs t.
Proof.
  intros Hl Hx Hc Hn [Ml Mn Mr (p & Hp & Hpi) Ms].
  assert (forall i e, slot t i = Some e -> exists e0, slot s i = Some e0 /\ idx_vf e0 = idx_vf e) as Hget.
  { intros i e He. apply (f_equal (lookup (Z.to_nat i))) in Hx. rewrite !list_lookup_fmap in Hx.
    unfold slot in *. rewrite He in Hx. destruct (slots s !! Z.to_nat i) as [e0|]; [|done].
    exists e0. split; [done|]. by injection Hx. }
  assert (length (slots t) = 32%nat) as Hlen by (rewrite <- (length_fmap idx_vf), Hx, length_fmap; done).
  split; try done; [by rewrite Hl| |].
  - destruct (slot_some t AMDGV_PF_IDX Hlen) as [e He]; [done|]. exists e. split; [done|].
    destruct (Hget _ _ He) as (e0 & He0 & <-). congruence.
  - intros i e He Hi. destruct (Hget _ _ He) as (e0 & He0 & <-). unfold invalid_idx. rewrite Hc, Hn. by apply Ms.
Qed.

Lemma timeless_reorder vs vs' s t :
  reorder s t -> vs' ≡ₚ vs -> members vs' t -> timeless vs s -> timeless vs' t.
Proof.
  intros Hr Hp Hm [_ Hs Hne Hf Hz]. split; [done|by rewrite (ro_hw _ _ Hr)| |by rewrite (ro_fair _ _ Hr)|].
  - intros ->. by apply Permutation_nil_l in Hp.
  - intros i e Hi He. destruct (Forall2_lookup_r _ _ _ _ _ (ro_slots _ _ Hr) He) as (e0 & He0 & Hsm).
    rewrite (sm_slice _ _ Hsm), (sm_dummy _ _ Hsm). apply (Hz i); [by rewrite <- Hp|done].
Qed.

(** One pass of the loop [re_schedule], the VF it looked at moved to the tail. *)
Definition pass : M (switcher hw) Z :=
  n ← first_entry; i ← slot_of n; e ← entry i;
  ts ← amdgv_sched_world_switch_calculate_time_slice (idx_vf e);
  _ ← move_tail n; mret ts.

(** Each pass grants nothing and leads to another state in which no VF has any
    time: the loop [re_schedule] never ends. *)
Lemma wp_pass vs s : timeless vs s -> wp pass (fun ts t => ts = 0 /\ exists vs', timeless vs' t) s.
Proof.
  intros Htl. pose proof Htl as [Hm Hsh Hne Hf Hz].
  destruct vs as [|v vs]; [done|]. unfold pass. wp_step.
  eapply wp_first_member; [exact Hm|done|]. intros v' vs' s1 Hrot Hm1 Hr1 Hsl1 _.
  pose proof (rotate_pf_perm (pf_active s) (v :: vs)) as Hp1. rewrite Hrot in Hp1.
  pose proof (timeless_reorder _ _ _ _ Hr1 Hp1 Hm1 Htl) as Htl1.
  assert (v' ∈ v' :: vs') as Hv by by left.
  destruct (member_entry _ _ _ Hm1 Hv) as (e & He & Hx & _). destruct (tl_zero _ _ Htl1 v' e Hv He) as [Hts Hdm].
  pose proof (member_range _ _ _ Hm1 Hv) as Hr.
  cbn [slot_of]. wp_step. wp_step. wp_step. eapply wp_slot_entry; [exact He|]. rewrite Hx.
  wp_step. unfold amdgv_sched_world_switch_calculate_time_slice.
  wp_step. eapply wp_slot_entry; [exact He|]. rewrite Hdm. cbv zeta. wp_step. eapply wp_slot_entry; [exact He|].
  wp_step. unfold manual. wp_step. rewrite (tl_fair _ _ Htl1). wp_step. eapply wp_set_entry; [exact He|].
  wp_step. eapply wp_slot_entry; [by rewrite slot_put by (eauto || lia); rewrite decide_True|]. wp_step.
  cbn [last_time_slice upd]. rewrite Hts.
  set (s2 := put_slot _ _ s1). assert (reorder s1 s2) as Hr2.
  { apply books_reorder. eapply books_slot; [exact He|by split]. }
  assert (members (v' :: vs') s2) as Hm2 by (eapply reorder_members; [exact Hr2|reflexivity|exact (mb_list _ _ Hm1)|exact Hm1]).
  wp_step. eapply wp_to_tail; [exact Hm2|done|]. intros t Ht Hr3 _ _. wp_step. split; [done|].
  exists (send_back v' (v' :: vs')). eapply timeless_reorder; [etransitivity; [exact Hr2|exact Hr3]| |done|exact Htl1].
  apply send_back_perm; [by eapply members_nodup|done].
Qed.
End zero.
