(* ===== verification/SwitchBoot.v ===== *)
(** * World switch: a concrete device

    Two VFs on the device of [WsBoot], one world switch over its two graphics
    schedulers, and the states after initialisation and a few calls. *)
From S2P Require Import Prelude Oss Api Mask Gpuiov WsState WsInv WsManual WsBulk WsBoot Dlist ListScan Switch SwitchEngine SwitchInv SwitchRun SwitchPick SwitchOps SwitchInit SwitchHistory.
Import Dlist ListScan.
#[local] Open Scope Z_scope.

#[export] Instance sw_env : OssEnv := env_of 1000 7000 [] [].
Definition blank_slot : active_vf_entry := mk_active_vf 0 0 0 false 0 0 0 0 false 0.
Definition zero_manual (mode allowed : Z) : manual_switch :=
  mk_manual (mk_links ∅ ∅) (replicate 32 blank_slot) false false amdgv_schedule_vfs_default_ptr
    false mode 0 0 allowed.

(** The memory before [init]: 2 VFs, all slices 6 ms. *)
Definition boot_sw (mode : Z) : switcher Z := {|
  sw_hw := s_ws; sw_manual := zero_manual mode 3;
  sw_conf := mk_sw_config 2 0 0xffffffff false false false false true (replicate 32 6000);
  run_summation := replicate 32 (replicate 32 (mk_hist 3000 250 (replicate 32 0) 0));
  sw_oss := oss_boot; sw_calls := [] |}.

Definition next_state {A} (m : M (switcher Z) A) (s : switcher Z) : switcher Z :=
  match m s with Ret (_, t) => t | Fault => s end.

Lemma boot_mask h : in_mask 3 h -> h = 0 \/ h = 1.
Proof.
  intros [Hh Hb]. assert (h = 0 \/ h = 1 \/ 2 <= h) as [?|[?|?]] by lia; auto.
  rewrite <- (Z.mod_small 3 (2 ^ 2)), Z.mod_pow2_bits_high in Hb by lia. done.
Qed.

Lemma boot_engine : engine_ready 3 true s_ws.
Proof.
  split.
  - by vm_compute.
  - intros h Hh%boot_mask. split; [by apply inv_ws|]. split; [|done].
    destruct Hh as [-> | ->]; by eexists.
  - by vm_compute.
  - apply (inv_ws 0). by left.
  - done.
  - by vm_compute.
Qed.

Lemma boot_answers : engine_completes s_ws.
Proof.
  split; [exact ok_hw_completes|]. apply ok_hw_prompt. by vm_compute.
Qed.

Lemma boot_blank mode : blank 0 (boot_sw mode).
Proof.
  split; [split| | | |].
  - exists (mk_ws true false AMDGV_SCHED_BLOCK_GFX 0 0 false 0 3 0 true).
    split; [reflexivity|]. split; [exact boot_engine|]. split; [by vm_compute|]. done.
  - by vm_compute.
  - split; [done|]. apply Forall_replicate. split; [done|]. apply Forall_replicate. by split_and!.
  - done.
  - apply Forall_replicate. by split; [|split].
  - split; [done|]. by apply Forall_replicate.
  - reflexivity.
Qed.

(** After initialisation for round robin, hybrid liquid and fairness. *)
Definition AMDGV_SCHED_ROUND_ROBIN : Z := 4.
Definition rr_up : switcher Z := Eval vm_compute in
  next_state (amdgv_sched_manual_switch_init 0 AMDGV_SCHED_ROUND_ROBIN) (boot_sw AMDGV_SCHED_ROUND_ROBIN).
Definition liquid_up : switcher Z := Eval vm_compute in
  next_state (amdgv_sched_manual_switch_init 0 AMDGV_SCHED_HYBRID_LIQUID_MODE) (boot_sw AMDGV_SCHED_HYBRID_LIQUID_MODE).
Definition fair_up : switcher Z := Eval vm_compute in
  next_state (amdgv_sched_manual_switch_init 0 AMDGV_SCHED_FAIRNESS) (boot_sw AMDGV_SCHED_FAIRNESS).

(** Both VFs added, the switch started. *)
Definition join (s : switcher Z) : switcher Z :=
  next_state (exec 0 Start) (next_state (exec 0 (AddVf 1)) (next_state (exec 0 (AddVf 0)) s)).

Lemma rr_up_reached : reachable 0 rr_up.
Proof.
  apply (reach_init 0 AMDGV_SCHED_ROUND_ROBIN (boot_sw AMDGV_SCHED_ROUND_ROBIN)); [apply boot_blank|by eexists|].
  vm_compute. reflexivity.
Qed.
Lemma liquid_up_reached : reachable 0 liquid_up.
Proof.
  apply (reach_init 0 AMDGV_SCHED_HYBRID_LIQUID_MODE (boot_sw AMDGV_SCHED_HYBRID_LIQUID_MODE)); [apply boot_blank|by eexists|].
  vm_compute. reflexivity.
Qed.
Lemma fair_up_reached : reachable 0 fair_up.
Proof.
  apply (reach_init 0 AMDGV_SCHED_FAIRNESS (boot_sw AMDGV_SCHED_FAIRNESS)); [apply boot_blank|by eexists|].
  vm_compute. reflexivity.
Qed.

(** A call that is allowed leads to a reachable state. *)
Lemma next_reached o s : reachable 0 s -> allowed 0 o s -> reachable 0 (next_state (exec 0 o) s).
Proof.
  intros Hr Ha. destruct (reachable_good 0 s Hr) as (w & Hg & Hw).
  destruct (wp_returns _ _ _ (wp_exec_op 0 o _ w s Hg Hw Ha)) as (r & t & E & _).
  unfold next_state. rewrite E. by eapply reach_step.
Qed.

(** A checker for the precondition of adding a VF. *)
Definition may_add (i : Z) (s : switcher Z) : bool :=
  match ws_of 0 s with Some w => ws_enabled w | None => true end
  && (0 <=? i) && (i <? num_vf (sw_conf s)) && bool_decide (i ∉ list_of s).
Lemma may_add_sound i s : may_add i s = true -> allowed 0 (AddVf i) s.
Proof.
  unfold may_add. intros H w Hw. rewrite Hw in H.
  apply andb_true_iff in H as [H Hni%bool_decide_eq_true]. zb.
  split; [done|]. split; [left; lia|by right].
Qed.

Lemma join_reached s : reachable 0 s -> may_add 0 s = true ->
  may_add 1 (next_state (exec 0 (AddVf 0)) s) = true -> reachable 0 (join s).
Proof.
  intros Hr H0 H1. unfold join. apply next_reached; [|by intros ? _].
  apply next_reached; [|by apply may_add_sound]. apply next_reached; [done|by apply may_add_sound].
Qed.

Definition rr_two : switcher Z := Eval vm_compute in join rr_up.
Definition liquid_two : switcher Z := Eval vm_compute in join liquid_up.

Lemma rr_two_reached : reachable 0 rr_two.
Proof.
  change rr_two with (join rr_up). apply join_reached; [exact rr_up_reached|vm_compute; reflexivity..].
Qed.
Lemma liquid_two_reached : reachable 0 liquid_two.
Proof.
  change liquid_two with (join liquid_up). apply join_reached; [exact liquid_up_reached|vm_compute; reflexivity..].
Qed.
