(* ===== verification/SwitchProps.v ===== *)
(** * World switch: the properties

    What the manual world switch promises, in every history and for every
    device, and witnesses on the device of [SwitchBoot]. *)
From S2P Require Import Prelude Oss Api Dlist ListScan Mask Gpuiov WsState WsInv WsManual WsBulk WsBoot Switch SwitchEngine SwitchInv SwitchRun SwitchQuiet SwitchPick SwitchLiquid SwitchOps SwitchMembers SwitchInit SwitchHistory SwitchFair SwitchBoot.
Import Dlist ListScan.
#[local] Open Scope Z_scope.

Section properties.
Context {hw : Type} `{HW : WsHw hw} {E : OssEnv}.
Variable ws : Z.
Implicit Types (s t : switcher hw) (w : world_switch) (vs : list Z).
Abbreviation ws_of := (SwitchInv.ws_of ws).
Abbreviation reachable := (SwitchHistory.reachable ws).

(** C4: after initialisation and any history of rounds, interrupts and calls
    its clients may make, whatever the device answers, the next allowed call
    returns without a bad access.  The VF the world switch believes to be on
    the engine is the one every hardware scheduler of it runs (or only holds
    loaded when it must not run); after a save none runs; and the switch is
    never running in the abnormal state. *)
Theorem world_switch_history_safe s (Hr : reachable s) :
  (forall o, allowed ws o s -> exists r t, exec ws o s = Ret (r, t) /\ reachable t) /\
  exists w, ws_of s = Some w /\
    (curr_vf_state w = AMDGV_VF_CONTEXT_LOADED -> vf_valid s (curr_idx_vf w) /\
       on_engine (curr_idx_vf w) (ws_hw_sched_mask w) (run_target (curr_idx_vf w) (sw_hw s)) (sw_hw s)) /\
    (curr_vf_state w = AMDGV_VF_CONTEXT_SAVED ->
       on_engine (curr_idx_vf w) (ws_hw_sched_mask w) AMDGV_SAVE_GPU_STATE (sw_hw s)) /\
    (switch_running w = true -> curr_vf_state w <> AMDGV_VF_CONTEXT_ABNORMAL).
Proof.
  destruct (reachable_good ws s Hr) as (w & Hg & Hw). split.
  - intros o Ha. destruct (wp_returns _ _ _ (wp_exec_op ws o _ w s Hg Hw Ha)) as (r & t & Ex & _).
    exists r, t. split; [exact Ex|by eapply reach_step].
  - destruct (g_context _ _ _ Hg) as [(w' & Hw' & _ & _ & Hrest) _ _]. by exists w'.
Qed.

(** C12: in every history the active list is well formed, each VF once, and
    each call does to the sequence of VFs what its specification says: a round
    and a stop only reorder it, adding appends (unless the slice is zero, or in
    fairness mode, where the VF is there as a dummy), removing takes the VF out,
    a new number of VFs rebuilds it, and everything else leaves it alone. *)
Theorem world_switch_list_refines s o r t (Hr : reachable s) (Ha : allowed ws o s)
  (Hx : exec ws o s = Ret (r, t)) :
  list_after o r (list_of s) s (list_of t) /\
  amdgv_list_for_each_entry list_fuel Head (sw_links t) = Some (Vf <$> list_of t) /\
  NoDup (list_of t) /\ forall i, i ∈ list_of t -> vf_valid t i.
Proof.
  destruct (reachable_good ws s Hr) as (w & Hg & Hw).
  pose proof (wp_exec_op ws o _ w s Hg Hw Ha) as Hwp. unfold wp in Hwp. rewrite Hx in Hwp.
  destruct Hwp as (vs' & w' & Hg' & _ & Hl). pose proof (g_members _ _ _ Hg') as Hm.
  rewrite (list_of_members _ _ Hm). split; [done|]. split; [|split; [by eapply members_nodup|]].
  - apply dlist_for_each; [apply Hm|]. rewrite length_fmap. pose proof (members_length _ _ Hm). unfold list_fuel. lia.
  - intros i Hi. by destruct (member_entry _ _ _ Hm Hi) as (_ & _ & _ & ?).
Qed.

(** C9: with the default scheduling function outside fairness mode, on a
    device that answers every command in time ([hw_completes], [hw_prompt]),
    [k] times as many rounds as there are VFs put every VF
    on the engine [k] times, in the order of the list, the one that leaves
    going to its end; each turn arms the timer with the slice of its VF. *)
Theorem round_robin_turns vs w s k (Ht : turning ws vs w s) :
  (exists t, rounds ws (k * length vs) s = Ret (tt, t) /\
     loads t = rev (concat (replicate k (queue vs w s))) ++ loads s) /\
  queue vs w s ≡ₚ vs /\
  (forall x q, queue vs w s = x :: q -> exists r t w' e,
     amdgv_sched_manual_switch_process ws s = Ret (r, t) /\ ws_of t = Some w' /\
     curr_idx_vf w' = x /\ curr_vf_state w' = AMDGV_VF_CONTEXT_LOADED /\ slot s x = Some e /\
     (time_slice e <> DEFAULT_GFX_TIME_SLICE_1VF -> head (sw_calls t) = Some (TimerStart (time_slice e)))).
Proof.
  pose proof (queue_perm _ _ _ _ (tu_sched _ _ _ _ Ht)) as Hp. split; [|split; [done|]].
  - destruct (wp_returns _ _ _ (wp_full_turns ws k _ vs w s Ht eq_refl)) as ([] & t & Ex & (vs' & w' & _ & _ & Hl)).
    exists t. by rewrite <- (Permutation_length Hp).
  - intros x q Hq. destruct (wp_returns _ _ _ (wp_turn ws x q vs w s Ht Hq))
      as (r & t & Ex & (vs' & w' & Ht' & _ & _ & _ & Hc & Hld & e & He & Htm)).
    exists r, t, w', e. split_and!; try done. exact (sc_ws _ _ _ _ (tu_sched _ _ _ _ Ht')).
Qed.

(** C16: with the hybrid liquid scheduling function, whichever VFs are busy and
    whatever the device answers, no VF of the list waits while more others are
    put on the engine than there are VFs before it plus [MAX_VF_SKIP_CNT]: over
    any number of rounds either it got the engine, or at most that many loads
    happened, fewer than the length of the list plus eight. *)
Theorem liquid_no_starvation vs w s v n (Hs : scheduled ws vs w s)
  (Hf : amdgv_schedule_vfs (sw_manual s) = amdgv_schedule_vfs_liquid_ptr) (Hv : v ∈ vs) :
  exists t l, rounds ws n s = Ret (tt, t) /\ loads t = l ++ loads s /\
    (v ∈ l \/ Z.of_nat (length l) <= wait_of (queue vs w s) (skip_of s) v) /\
    wait_of (queue vs w s) (skip_of s) v < Z.of_nat (length vs) + MAX_VF_SKIP_CNT.
Proof.
  destruct (wp_returns _ _ _ (wp_waits ws n v vs w s Hs Hf Hv)) as ([] & t & Ex & (l & Hl & Hc)).
  pose proof (wait_nonneg _ _ _ _ _ Hs Hv) as Hw0.
  exists t, l. split_and!; [done|done| |by eapply wait_short].
  destruct (switch_running w); [exact Hc|subst l]. right. exact Hw0.
Qed.

(** C23: in every history the default scheduling function ends its loop
    [re_schedule], passing over VFs that owe their whole slice, with a function
    of the device and a positive time. *)
Theorem fair_pick_terminates s (Hr : reachable s) (Hne : list_of s <> []) :
  exists p t, amdgv_schedule_vfs_default_fn s = Ret (p, t) /\ vf_valid s (fst p) /\ 0 < snd p /\
    list_of t ≡ₚ list_of s.
Proof.
  destruct (reachable_good ws s Hr) as (w & Hg & Hw). pose proof (good_shape _ _ _ Hg) as Hsh.
  destruct (wp_returns _ _ _ (wp_schedule_default_fn _ s Hne (g_members _ _ _ Hg) (g_slices _ _ _ Hg) Hsh))
    as (p & t & Ex & (vs' & [Pp Pm _ _ _ Pv Pt] & _)).
  exists p, t. split_and!; try done. by rewrite (list_of_members _ _ Pm).
Qed.

(** Initialisation either succeeds, with one lock and three kernel objects
    created and the list that its mode asks for, or fails with nothing left
    behind. *)
Theorem world_switch_init_outcome mode w s (Hb : blank ws s) (Hw : ws_of s = Some w) :
  exists r t, amdgv_sched_manual_switch_init ws mode s = Ret (r, t) /\
    (r = 0 /\ list_of t = initial_list mode s /\
       resources t = (os_heap (sw_oss s) + 3, os_locks (sw_oss s) + 1) \/
     r = AMDGV_FAILURE /\ resources t = resources s /\ has_lock (sw_manual t) = false).
Proof.
  destruct (wp_returns _ _ _ (wp_switch_init ws mode w s Hb Hw)) as (r & t & Ex & Hc).
  exists r, t. split; [done|]. destruct Hc as [(-> & [Ig _ _ _ _ _] & Hres)|?]; [left|by right].
  split; [done|]. by rewrite (list_of_members _ _ (g_members _ _ _ Ig)).
Qed.
End properties.

(** ** Witnesses *)

Lemma world_switch_history_safe_witness :
  exists r t, exec 0 Round rr_two = Ret (r, t) /\ reachable 0 t.
Proof.
  destruct (world_switch_history_safe 0 rr_two rr_two_reached) as [H _].
  apply (H Round). intros w _. exact I.
Defined.

(** VF 0 leaves a list of two. *)
Lemma retire_allowed : allowed 0 (RetireVf 0 AMDGV_SCHED_UNAVAL) rr_two.
Proof. intros w Hw. split; [by injection Hw as <-|]. split; [done|]. by intros ?. Qed.

Lemma world_switch_list_refines_witness :
  list_of (next_state (exec 0 (RetireVf 0 AMDGV_SCHED_UNAVAL)) rr_two) = [1].
Proof.
  destruct (world_switch_list_refines 0 rr_two (RetireVf 0 AMDGV_SCHED_UNAVAL) 0
    (next_state (exec 0 (RetireVf 0 AMDGV_SCHED_UNAVAL)) rr_two) rr_two_reached retire_allowed
    ltac:(vm_compute; reflexivity)) as [Hl _].
  cbn [list_after] in Hl. rewrite bool_decide_eq_true_2 in Hl by (vm_compute; by left).
  rewrite Hl. reflexivity.
Defined.

Definition two_ws : world_switch := mk_ws true true AMDGV_SCHED_BLOCK_GFX 0 0 false 0 3 0 true.

Lemma two_scheduled s : reachable 0 s -> ws_of 0 s = Some two_ws -> list_of s = [0; 1] -> plain s ->
  scheduled 0 [0; 1] two_ws s.
Proof.
  intros Hr Hw Hl Hp. destruct (reachable_good 0 s Hr) as (w & Hg & Hw'). rewrite Hl in Hg.
  split; [done|done|done| |done]. by apply (bool_decide_unpack _).
Qed.

Lemma rr_two_turning : turning 0 [0; 1] two_ws rr_two.
Proof.
  split; [|done..|exact boot_answers]. by apply two_scheduled; [exact rr_two_reached|..].
Qed.

(** Six rounds: three turns each, newest first. *)
Lemma round_robin_turns_witness :
  exists t, rounds 0 6 rr_two = Ret (tt, t) /\ loads t = [1; 0; 1; 0; 1; 0].
Proof. exact (proj1 (round_robin_turns 0 [0; 1] two_ws rr_two 3 rr_two_turning)). Defined.

Lemma liquid_two_scheduled : scheduled 0 [0; 1] two_ws liquid_two.
Proof. by apply two_scheduled; [exact liquid_two_reached|..]. Qed.

(** In nine rounds VF 1 has its turn, or nine VFs at most went before it. *)
Lemma liquid_no_starvation_witness :
  exists t l, rounds 0 9 liquid_two = Ret (tt, t) /\ (1 ∈ l \/ Z.of_nat (length l) <= 9).
Proof.
  destruct (liquid_no_starvation 0 [0; 1] two_ws liquid_two 1 9 liquid_two_scheduled eq_refl
    ltac:(right; by left)) as (t & l & Ex & _ & [Hc|Hc] & _); exists t, l; split; try exact Ex; [by left|].
  right. exact Hc.
Defined.

Lemma fair_pick_terminates_witness :
  exists p t, amdgv_schedule_vfs_default_fn rr_two = Ret (p, t) /\ 0 < snd p.
Proof.
  destruct (fair_pick_terminates 0 rr_two rr_two_reached ltac:(by vm_compute)) as (p & t & Ex & _ & Ht & _).
  by exists p, t.
Defined.

(** The user sets both slices to zero. *)
Definition rr_zero : switcher Z := Eval vm_compute in
  next_state (exec 0 (NewSlice 1)) (next_state (exec 0 (NewSlice 0))
    (next_state (exec 0 (Configure (replicate 32 0) 0xffffffff 0 false)) rr_two)).

Lemma rr_zero_timeless : timeless [0; 1] rr_zero.
Proof.
  destruct (reachable_good 0 rr_two rr_two_reached) as (w & Hg & _).
  change (list_of rr_two) with [0; 1] in Hg.
  split; [|exact (good_shape _ _ _ Hg)|done|done|].
  - eapply (members_idx [0; 1] rr_two); [..|exact (g_members _ _ _ Hg)]; reflexivity.
  - intros i e [->|[->|[]%elem_of_nil]%elem_of_cons]%elem_of_cons [= <-]; done.
Qed.

Lemma world_switch_init_outcome_witness :
  exists r t, amdgv_sched_manual_switch_init 0 AMDGV_SCHED_ROUND_ROBIN (boot_sw AMDGV_SCHED_ROUND_ROBIN) = Ret (r, t).
Proof.
  destruct (world_switch_init_outcome 0 AMDGV_SCHED_ROUND_ROBIN
    (mk_ws true false AMDGV_SCHED_BLOCK_GFX 0 0 false 0 3 0 true)
    (boot_sw AMDGV_SCHED_ROUND_ROBIN) (boot_blank _) eq_refl) as (r & t & Ex & _).
  by exists r, t.
Defined.
